(* ===== verification/_CoqProject ===== *)
-Q . S2P
Prelude.v
GoStrings.v
Json.v
TaskState.v
Schema.v
Lease.v
World.v
Frame.v
Fsx.v
Engine.v
Adapters.v
QbSync.v
QbProps.v
QbRefine.v
Bencode.v
SafePath.v
SafeJoin.v
Confine.v
Ssrf.v
Manifest.v
Hash.v
Store.v
Scenario.v
StoreProps.v
Infohash.v
TaskList.v
Admission.v
AdmissionProps.v
AdmissionSafety.v
GateProps.v
Reconcile.v
ReconcileProps.v
Governor.v
GovernorProps.v
Feed.v
FeedProps.v
FeedSystem.v
FeedTheorems.v
Queue.v
StoreCalls.v
Jobs.v
JobsProps.v
Actions.v
ActionProps.v
Disk.v
DiskProps.v
Move.v
MoveProps.v
MoveHandler.v
MoveHandlerProps.v
MoveHandlerTheorems.v
Archive.v
ArchiveProps.v
Extract.v
Chain.v
ChainProps.v
ChainTheorems.v
Throttle.v
ThrottleProps.v
Password.v
Auth.v
AuthHandlers.v
AuthProps.v
AuthGate.v
AuthTheorems.v
Regex.v
Uri.v
Settings.v
SettingsProps.v
Watch.v
RssDoc.v
RssStore.v
RssMatch.v
RssGrab.v
RssPoll.v
RssResolve.v
RssEvalProps.v
RssGrabProps.v
RssPasses.v
RssScenario.v
