(* ===== verification/Prelude.v ===== *)
(** * dl-tool: a verification library of its control plane

    dl-tool drives third-party download engines (aria2, qBittorrent, yt-dlp)
    from one Go process over one SQLite database.  This library models the
    part of that process that decides: which task runs, what a row may become,
    who may touch it, and what a reader of the live feed sees.  The code is
    under [src/internal]; every definition below keeps the name of the function
    it translates.

    ** The program's parts and the files that model them

    - [TaskState], [Schema]: the ten task states and their transition table
      ([store/tasks.go]: [taskTransitions], [transitionLegal]), the rows of the
      task, event and file tables with the constraints of
      [store/migrations/00001_init.sql].
    - [World]: the environment.  A command is a function of an [oracle] - what
      the driver, the clock, the id generator and the file system answer at
      each interaction - and of a [world]: the committed tables, the open
      transaction's copy, the context's remaining life, the completion hook's
      log, the lease table, and the state [E] of everything behind the engine
      interface.  A driver call succeeds, fails, or takes effect although its
      caller sees an error ([IoFailLanded]: an ambiguous commit).
    - [Frame]: relations on tables lifted to commands ([keeps], [tables]), the
      rule [walk] that derives a method's frame from its statements', and a
      small calculus ([spec]) for runs over a healthy driver.
    - [Store], [StoreProps]: every statement and method of [store/tasks.go]
      except the file-list and tracker ones, plus the events of
      [store/events.go] and [GetInt64].  [db_step] is the store's contract and
      [StoreProps.op] its write interface; [StoreCalls] gives every call its
      licence (the rows, states and columns it may write).
    - [Lease]: the task-operation leases of [engine/registry.go], over an
      explicit heap of entries, and [Lease.step], the interleaving of their
      critical sections.
    - [Fsx]: [fsx/space.go].  [Engine]: the engine interface as the type class
      [EngineApi] (client theorems hold for every instance) and [Router.Route].
    - [Admission] with [AdmissionProps], [AdmissionSafety], [GateProps]: the
      admission pass of [engine/admission.go] and its disk-full pause.
    - [Reconcile], [ReconcileProps]: [engine/reconcile.go].
    - [Governor], [GovernorProps]: [engine/bandwidth.go].
    - [Feed], [FeedProps], [FeedSystem], [FeedTheorems]: [internal/sync], the
      seed of [api/sse.go] and the reducer of [web/src/store/useTasks.ts].
    - [Queue]: [ReorderQueue].  [Jobs], [JobsProps]: [store/jobs.go],
      [jobs/worker.go] and the other statements of the program on the jobs
      table ([jobs/postprocess.go], [store/search.go], [store/maintenance.go]).
    - [Actions], [ActionProps]: the bulk actions of [api/tasks_actions.go],
      [DELETE /tasks/{id}] ([api/tasks_delete.go]) and the unlink executor
      [fsx/delete.go], over the store, the leases and the engines above.
    - [Adapters]: the projections of a daemon's answer to the engine interface
      ([engine/aria2/map.go], [engine/qbittorrent/map.go]).  [QbSync], [QbProps],
      [QbRefine]: the maindata cache of [engine/qbittorrent/sync.go] - merges,
      ownership, events, hash write-backs - the interleavings of its
      operations, and a daemon that keeps the delta protocol as its abstract
      specification.
    - [GoStrings]: the runes, trims, splits and parses of the Go library the
      text components use.  [SafePath], [SafeJoin], [Confine]:
      [fsx/safepath.go], from the segment sanitiser to [MkdirBeneath].
    - [Bencode], [Manifest], [Hash]: [uri/metainfo.go] and the magnet hash
      forms.  [Infohash]: [store/tasks_infohash.go].  [TaskList]:
      [store/tasks_list.go].
    - [Ssrf]: [secure/ssrf.go] and [secure/preflight.go].
    - [Disk], [DiskProps], [Move], [MoveProps]: a disk of files,
      directories and links with what of it is durable, whose every call may
      fail or be the last, and [fsx/move.go] over it.  [MoveHandler] with
      [MoveHandlerProps], [MoveHandlerTheorems]: the move job,
      [jobs/handlers_move.go].
    - [Archive], [ArchiveProps]: the listing parser and the rules of
      [jobs/handlers_extract.go] with the candidates of [jobs/passwords.go].
      [Extract]: the verification and delivery of the staged
      tree.  [Chain], [ChainProps], [ChainTheorems]: [jobs/postprocess.go],
      [jobs/hook.go] and the fan-out of [jobs/handlers_notify.go].
    - [Throttle], [ThrottleProps]: the login throttle of [api/auth.go].
      [Password]: [secure/hash.go].  [Auth]: the user, session
      and token statements of [store/users.go] and [secure/session.go].
      [AuthHandlers] with [AuthProps], [AuthGate], [AuthTheorems]: the gate, setup, login, the account and the tokens
      ([api/auth.go], [api/account.go], [api/tokens.go]).
    - [Regex]: a matcher for the patterns the program writes itself (leftmost,
      with the preferences of package [regexp]).  [Uri]:
      [uri/normalize.go], [uri/magnet.go], [uri/obfuscated.go].
    - [RssDoc]: the rule document ([rss/ruledoc.go]) and the
      seasons and episodes of a title ([rss/episode.go]).  [RssStore]:
      [store/feeds.go] and [store/rules.go].  [RssMatch]: [rss/match.go].
      [RssGrab]: [rss/grab.go] and [rss/dryrun.go].  [RssPoll]: [rss/poll.go].
      [RssResolve] and [RssEvalProps] hold the lemmas of these parts;
      [RssGrabProps] and [RssPasses] the invariant that no item is grabbed
      twice; [RssScenario] the histories of passes and arrivals and the claims
      with a feed and rules at work.
    - [Json]: package [encoding/json] on the values the settings hold - its
      scanner, decoders and encoder.  [Settings], [SettingsProps]:
      [store/settings.go] - settings, preferences, engines, categories, tags,
      notification channels with their sealed secrets, the schedule and the
      watch-folder rows - over a record of those tables with its own
      transactions, and the schedule tick of [jobs/cron.go].  [Watch]: one
      sweep of a watch folder ([jobs/watch.go]) over those tables, a disk of
      folders and the creator it hands torrents to.
    - [Scenario]: a small engine, rows and oracles for concrete instances.

    The loops share the store and the leases: the admission pass and the
    reconciler hold a task's lease around every engine call that starts or
    re-adds it, all of them write through [Store], and the feed only reads.
    [AdmissionSafety.StoreFrame] is the interface between the loops and the
    store: any relation on worlds that satisfies it is kept by them.

    ** What the theorems show

    - Store: in any history and under every driver behaviour a call keeps
      its licence: at most one legal edge, on the rows it names
      ([store_history_safe], over the calls on task rows and the log);
      [Transition] is all or nothing; the candidate listing is exact and in
      order; the schedule's parked set is decided by the newest event; an
      operator's takeover removes a row from the pass's reach.
    - Leases: mutual exclusion, an exact table, first-come hand-over,
      idempotent release, no lost wake-up.
    - Admission: limits are respected over a driver that answers
      ([Pass_respects_limits]) and exceeded after one lost write
      ([Pass_over_admits_after_write_failure]); tables stay well-formed and
      leases balanced under every behaviour; the loop of [Pass] books what it
      releases and never over-commits a disk ([gate_never_overcommits]).
    - Reconciler: ownership is respected, disk-full reports never become
      errors, every sweep is safe.
    - Governor: the precedence chain is a minimum, applies are safe and
      idempotent per mode, and a failed No Download cell strands what it parked
      ([failed_no_download_strands]).
    - Feed: the diff round trip, the exact ring, and - for every interleaving
      of publishes, windows, readers and the three separate reads of a poll - that subscribed readers converge and that resuming loses nothing, except
      across a restart ([restart_is_not_noticed]).
    - Queue: every move is a permutation that keeps both groups' order; the
      renumbering commits entirely or not at all.
    - Jobs: exclusive work, attempts and claims bounded per reset, outcomes
      that are final until a reset, recovery and progress.
    - Actions and deletes: every batch is answered per id, a resume batch
      promises no more than the limits leave, a pause takes the row from the
      admission pass, and a delete unlinks the recorded files only, after both
      containment checks.
    - Adapters: every report is well-formed; the qBittorrent cache refines the
      daemon's published state and serves owned torrents only.
    - Paths: sanitised segments are safe names, joined and resolved paths stay
      beneath their root, directories are created only there.
    - Torrents: the identity bytes are exactly the info value, the manifest
      lists what the dictionary declares, every spelling of an infohash
      normalises to one, and identities stay distinct under resolution.
    - Listing: following the cursors visits every matching row once, in order;
      a name query is a substring test.
    - Moves: at every instant of a move, and across any number of retries and
      crashes, the payload is whole at its source or durably at its
      destination; the store follows the disk.
    - Archives: what passes the listing rules is safe to extract, and only a
      verified tree is delivered.  The fields of a listing are specified apart
      from the code's predicate: no accepted member has a link, a special kind
      or a privileged mode.
    - Post-processing: a completed task is removed only when nothing is owed
      for it; an owed move is dispatched.
    - Authentication: one account is founded, with the token of the service;
      a handler runs only for the identity the gate admits; a password change
      evicts the other sessions, in the order the code runs its statements;
      the throttle forgets nothing that matters.
    - Links: a wrapped link is recovered byte for byte.
    - Feeds and rules: a validated rule raises no error; the winners of a run
      are the best of their content; no item is accepted twice over any
      history of passes and arrivals; a run keeps its allowance; paging collects the
      newest items; a poll is put off to the first hour the publisher allows.
    - Settings: a value written by the encoder reads back; a patch and a new
      schedule land whole or not at all whatever the driver answers, and an
      integer sent is the integer the admission pass and the governor read
      ([sent_integers_are_read_back]); a deleted tag or category takes no task with it.
    - Watch folders: a file is unlinked only after the creator accepted its
      bytes, and none is accepted twice over any history of sweeps that the
      loaded set can hold.
    - Network: the guard closes exactly the reserved ranges, a fetch ends and
      only opens permitted connections.
    - The examples that end such a group show where the code departs from its
      documentation ([second_delete_unlinks_unrecorded],
      [stale_remove_strands_transfer], [fifth_redirect_refused],
      [undecodable_names_repeat], [login_slips_through],
      [repack_grabbed_twice], [blank_entry_panics], ...).

    ** Bounds and fuel

    Recursion is structural where the code walks a list.  The loops that are
    not structural take fuel, and a theorem shows that what is given suffices:
    [Fsx.climb] and [Confine.resolve] get the length of the path, which every
    round shortens; [Feed.trim] the length of its input; the bencode walk the
    length of the file plus one, with the nesting cap of the code
    ([parseValue_decides]: never [OutOfFuel]); [Ssrf.fetch] the five requests
    the redirect cap leaves ([fetch_guarded]); [TaskList.walk] one page more
    than there are rows ([pages_complete]); [Confine.free_number] one number
    more than there are names taken ([dedupeName_collision_free]);
    [Move.copy_loop] the size of the file ([copy_delivers]);
    [RssGrab.newest_loop] one page more than there are items ([newest_ok]);
    [RssPoll.skip_scan] the hours of a week, as the code
    ([nextAllowed_first]); [Json.scan] twice the length of its text
    ([Json.scan_fuel]).  [int64]
    arithmetic wraps through [wrap64]; the theorems of kind bounds show where
    it cannot.

    ** Parameters

    Code outside [src] is a parameter: the daemons behind the engine interface
    ([EngineApi], [Recheckable]); the kernel's path calls, with the laws of a
    directory tree stated in [SafeJoin] and [Confine]; the disk behind
    [EvalSymlinks] and [Remove] ([Disk]); the Unicode tables ([UnicodeTables])
    and NFC; the digests and the dictionary decoder of a torrent; name
    resolution and URL parsing ([url.Parse]); what each call on the disk
    answers; the hook process and the child of an extraction; the JSON of
    rows other than settings (the preferences' numbers are floats); AES-GCM ([AEAD]); the time zone; the
    creation path behind a watch folder; argon2, SHA-256, random bytes and the clock; the
    simple case folds ([FoldTable]) and the expressions an operator writes
    ([Regexp]), [ParseFloat] and RFC 3339; the answer of a publisher and the
    feed parser; what a grabbed item is handed to ([TaskCreator], with the law
    that a created task is a row where a theorem needs it).  Requests to the action handlers do not
    interleave with one another in [Actions]; their interleaving with the
    loops is that of the leases in [Lease].

    ** What is not modelled

    Logging, metrics, tickers and deadlines of detached contexts carry no state
    the model keeps.  A Go map is walked in its canonical order where the order
    cannot matter, and the governor's fan-out goroutines in name order.  The
    HTTP clients of the daemons, [PATCH /tasks/{id}] and the other HTTP
    handlers, configuration, search, the XML of feeds
    ([rss/parse.go]), the extractor process and the job around it, the
    rendering and sending of notifications, the listing of tokens, the
    goroutines and timers of the folder watcher and of cron, directory
    browsing, the yt-dlp adapter, opening and backing up the database and the row projection of the feed are not modelled, nor
    are the file-list and tracker methods of the store.  [Throttle.login] is
    one step, where the handler of a login takes the throttle's lock three times and
    other logins may come in between.  The folder of a sweep changes between
    sweeps, not while one runs, and the logs of the creators behind [Watch] and [RssGrab] hold what
    they accepted: a refused torrent or item is offered again.  The polls of a due
    pass run one after the other here; the code runs the queues of up to four
    hosts side by side. *)

From Stdlib Require Export ZArith Lia.
From stdpp Require Export base tactics list gmap strings option sorting numbers.

Declare Scope go_scope.
Delimit Scope go_scope with go.

#[global] Set Default Goal Selector "!".
#[global] Generalizable All Variables.

(** ** Tactics of the development *)

(** Splits every [match]/[if] of the goal, keeping the equation. *)
Ltac break_goal :=
  repeat (match goal with
          | |- context [match ?x with _ => _ end] => destruct x eqn:?
          end; simplify_eq/=).

(** Splits one [match] of a hypothesis, keeping the equation. *)
Ltac break_in H :=
  match type of H with
  | context [match ?x with _ => _ end] => destruct x eqn:?
  end.

Ltac break_all H := repeat (break_in H; simplify_eq/=).

(** Decides a closed statement by evaluation. *)
Ltac decide_closed := vm_compute; first [reflexivity | done | congruence].

Create HintDb dltool discriminated.

(** ** Go integers: [int64] (and [int], 64 bits on every supported platform) *)

Section Int64.
Local Open Scope Z_scope.

Definition int64_min : Z := - 2 ^ 63.
Definition int64_max : Z := 2 ^ 63 - 1.

(** Two's-complement wrap-around of an arithmetic result. *)
Definition wrap64 (z : Z) : Z := (z + 2 ^ 63) mod 2 ^ 64 - 2 ^ 63.

Definition in_int64 (z : Z) : Prop := int64_min <= z <= int64_max.

#[global] Instance in_int64_dec z : Decision (in_int64 z).
Proof. unfold in_int64. apply _. Defined.

Lemma wrap64_id z : in_int64 z -> wrap64 z = z.
Proof.
  unfold in_int64, int64_min, int64_max, wrap64; intros.
  rewrite Z.mod_small; lia.
Qed.

Lemma wrap64_range z : in_int64 (wrap64 z).
Proof.
  unfold in_int64, int64_min, int64_max, wrap64.
  pose proof (Z.mod_pos_bound (z + 2 ^ 63) (2 ^ 64)). lia.
Qed.
End Int64.

(** ** Lists *)

Section Lists.
Context {A : Type} `{!EqDecision A}.
Implicit Types (l k : list A) (x : A).

(** [slices.Contains]. *)
Definition contains l x : bool := bool_decide (x ∈ l).

Lemma contains_spec l x : contains l x = true <-> x ∈ l.
Proof. unfold contains. by rewrite bool_decide_eq_true. Qed.

Lemma contains_false l x : contains l x = false <-> x ∉ l.
Proof. unfold contains. by rewrite bool_decide_eq_false. Qed.

Lemma elem_of_filter_bool (f : A -> bool) l x :
  x ∈ List.filter f l <-> f x = true /\ x ∈ l.
Proof. rewrite !list_elem_of_In, List.filter_In. tauto. Qed.
End Lists.

(** ** Strings: the byte-string functions of package [strings] the code calls *)

Section Strings.
Local Open Scope string_scope.

Fixpoint has_prefix (p s : string) : bool :=
  match p, s with
  | EmptyString, _ => true
  | String a p', String b s' => bool_decide (a = b) && has_prefix p' s'
  | _, EmptyString => false
  end.

(** [strings.TrimPrefix]. *)
Fixpoint drop_prefix (p s : string) : option string :=
  match p, s with
  | EmptyString, _ => Some s
  | String a p', String b s' => if bool_decide (a = b) then drop_prefix p' s' else None
  | _, EmptyString => None
  end.

Definition trim_prefix (p s : string) : string := default s (drop_prefix p s).

(** [strings.Cut] at the first occurrence of one byte. *)
Fixpoint cut_byte (c : Ascii.ascii) (s : string) : option (string * string) :=
  match s with
  | EmptyString => None
  | String a s' =>
    if bool_decide (a = c) then Some (EmptyString, s')
    else match cut_byte c s' with
         | Some (b, r) => Some (String a b, r)
         | None => None
         end
  end.

Lemma drop_prefix_app p s : drop_prefix p (p +:+ s) = Some s.
Proof. induction p as [|a p IH]; simpl; [done|]. by rewrite bool_decide_true. Qed.

Lemma trim_prefix_app p s : trim_prefix p (p +:+ s) = s.
Proof. unfold trim_prefix. by rewrite drop_prefix_app. Qed.

Lemma drop_prefix_Some p s r : drop_prefix p s = Some r -> s = p +:+ r.
Proof.
  revert s. induction p as [|a p IH]; intros s H; simpl in *; [by simplify_eq|].
  destruct s as [|b s]; [done|]. case_bool_decide as Hab; [|done].
  apply IH in H. by subst.
Qed.

Lemma cut_byte_app c b r :
  c ∉ String.list_ascii_of_string b -> cut_byte c (b +:+ String c r) = Some (b, r).
Proof.
  induction b as [|a b IH]; simpl; intros Hn.
  - by rewrite bool_decide_true.
  - rewrite bool_decide_false by set_solver.
    rewrite IH by set_solver. done.
Qed.
End Strings.

(** ** The byte order of strings *)

Lemma string_leb_cons a b s t :
  String.leb (String a s) (String b t) = true <->
  (Ascii.N_of_ascii a < Ascii.N_of_ascii b)%N \/ (a = b /\ String.leb s t = true).
Proof.
  unfold String.leb. simpl. unfold Ascii.compare.
  destruct (N.compare_spec (Ascii.N_of_ascii a) (Ascii.N_of_ascii b)) as [He|Hl|Hg].
  - rewrite He. apply (f_equal Ascii.ascii_of_N) in He.
    rewrite !Ascii.ascii_N_embedding in He. split; [by right|]. intros [?|[_ ?]]; [lia|done].
  - split; [by left|done].
  - split; [done|]. intros [?|[-> _]]; lia.
Qed.

#[export] Instance string_leb_trans : Transitive (fun s t => String.leb s t = true).
Proof.
  intros s. induction s as [|a s IH]; intros [|b t] [|c u]; try done.
  rewrite !string_leb_cons. intros [H1|[-> H1]] [H2|[-> H2]]; [left; lia|by left|by left|].
  right. split; [done|]. by apply (IH t).
Qed.

Lemma string_leb_refl s : String.leb s s = true.
Proof. by destruct (String.leb_total s s). Qed.

(** ** [slices.SortStableFunc] *)

Section Sort.
Context {A : Type} (lt : A -> A -> bool).
Fixpoint insert_by (x : A) (l : list A) : list A :=
  match l with
  | [] => [x]
  | y :: l' => if lt y x then y :: insert_by x l' else x :: l
  end.
Definition sort_by (l : list A) : list A := foldr insert_by [] l.
End Sort.

(** Two comparisons, the second for the ties of the first ([cmp.Compare]
    chained, [ORDER BY a, b]). *)
Definition then_by {A} (f g : A -> A -> comparison) (a b : A) : comparison :=
  match f a b with Eq => g a b | c => c end.
Definition less {A} (f : A -> A -> comparison) (a b : A) : bool := match f a b with Lt => true | _ => false end.
Definition by_Z {A} (f : A -> Z) (a b : A) : comparison := (f a ?= f b)%Z.
Definition by_text {A} (f : A -> string) (a b : A) : comparison := String.compare (f a) (f b).
Definition descending {A} (f : A -> A -> comparison) (a b : A) : comparison := f b a.

(** What [cmp.Compare] chains and [ORDER BY] clauses are: total preorders. *)
Class Ordering {A} (f : A -> A -> comparison) := {
  ord_sym a b : f b a = CompOpp (f a b);
  ord_trans a b c : f a b <> Gt -> f b c <> Gt -> f a c <> Gt }.

#[export] Typeclasses Opaque by_Z by_text descending then_by.

Section Orderings.
Context {A : Type}.

#[export] Instance by_Z_ord (g : A -> Z) : Ordering (by_Z g).
Proof.
  unfold by_Z. split; [intros; apply Z.compare_antisym|].
  intros a b c. destruct (Z.compare_spec (g a) (g b)), (Z.compare_spec (g b) (g c)), (Z.compare_spec (g a) (g c)); try done; lia.
Qed.
#[export] Instance by_text_ord (g : A -> string) : Ordering (by_text g).
Proof.
  unfold by_text. split; [intros; apply String.compare_antisym|].
  intros a b c H1 H2. assert (Hle : forall s t, String.compare s t <> Gt <-> String.leb s t = true).
  { intros s t. unfold String.leb. by destruct (String.compare s t). }
  apply Hle. apply Hle in H1, H2. exact (string_leb_trans _ _ _ H1 H2).
Qed.
#[export] Instance descending_ord (f : A -> A -> comparison) `{!Ordering f} : Ordering (descending f).
Proof. unfold descending. split; [intros; apply ord_sym|]. intros a b c H1 H2. by apply (ord_trans c b a). Qed.

Lemma ord_eq_l f `{!Ordering f} (a b c : A) : f a b = Eq -> f a c = f b c.
Proof.
  intros He. pose proof (ord_sym a b) as Hs. rewrite He in Hs. simpl in Hs. pose proof (ord_sym a c) as Ha. pose proof (ord_sym b c) as Hb.
  pose proof (ord_trans a b c) as T1. pose proof (ord_trans b a c) as T2. pose proof (ord_trans c a b) as T3. pose proof (ord_trans c b a) as T4.
  destruct (f a c) eqn:Eac, (f b c) eqn:Ebc; simpl in *; try done; exfalso; rewrite ?Ha, ?Hb, ?He, ?Hs in *; first [by apply T1|by apply T2|by apply T3|by apply T4].
Qed.
#[export] Instance then_by_ord (f g : A -> A -> comparison) `{!Ordering f} `{!Ordering g} : Ordering (then_by f g).
Proof.
  unfold then_by. split.
  - intros a b. rewrite (ord_sym (f := f) a b). destruct (f a b); simpl; [apply ord_sym|done..].
  - intros a b c. destruct (f a b) eqn:Hab; [| |done].
    + rewrite (ord_eq_l f a b c) by done. destruct (f b c); [apply ord_trans|done..].
    + intros _ Hbc. assert (Hb : f b c <> Gt) by by destruct (f b c).
      destruct (f a c) eqn:Hac; [|done|].
      * exfalso. assert (Hca : f c a = Eq) by by rewrite ord_sym, Hac.
        assert (Hcb : f c b = Lt) by by rewrite (ord_eq_l f c a b).
        rewrite ord_sym, Hcb in Hb. done.
      * exfalso. apply (ord_trans (f := f) a b c); [by rewrite Hab|done..].
Qed.
End Orderings.
(** ** The stable sort *)

Section Sorts.
Context {A : Type} (f : A -> A -> comparison).
Definition not_after (a b : A) : Prop := f a b <> Gt.

Lemma insert_by_Permutation x l : insert_by (less f) x l ≡ₚ x :: l.
Proof. induction l as [|y l IH]; simpl; [done|]. destruct (less f y x); [|done]. rewrite IH. apply Permutation_swap. Qed.
Lemma sort_by_Permutation l : sort_by (less f) l ≡ₚ l.
Proof. induction l as [|x l IH]; simpl; [done|]. by rewrite insert_by_Permutation, IH. Qed.

Context `{!Ordering f}.
Lemma insert_by_sorted x l : StronglySorted not_after l -> StronglySorted not_after (insert_by (less f) x l).
Proof.
  unfold not_after. induction l as [|y l IH]; simpl; intros Hl; [by repeat constructor|].
  apply StronglySorted_inv in Hl as [Hl Hy]. unfold less at 1. destruct (f y x) eqn:Hyx.
  - constructor; [by constructor|]. constructor; [by rewrite ord_sym, Hyx|]. eapply list.Forall_impl; [exact Hy|].
    intros z Hz. apply (ord_trans x y z); [by rewrite ord_sym, Hyx|done].
  - constructor; [by apply IH|]. rewrite insert_by_Permutation. constructor; [by rewrite Hyx|done].
  - constructor; [by constructor|]. constructor; [by rewrite ord_sym, Hyx|]. eapply list.Forall_impl; [exact Hy|].
    intros z Hz. apply (ord_trans x y z); [by rewrite ord_sym, Hyx|done].
Qed.
Lemma sort_by_sorted l : StronglySorted not_after (sort_by (less f) l).
Proof. induction l as [|x l IH]; simpl; [constructor|]. by apply insert_by_sorted. Qed.
Lemma sort_by_head x l : head (sort_by (less f) l) = Some x -> x ∈ l /\ forall y, y ∈ l -> not_after x y.
Proof.
  pose proof (sort_by_sorted l) as Hs. pose proof (sort_by_Permutation l) as Hp.
  destruct (sort_by (less f) l) as [|z s]; [done|]. intros [= ->]. apply StronglySorted_inv in Hs as [_ Hs].
  split; [rewrite <- Hp; by left|]. intros y. rewrite <- Hp. intros [->|Hy]%list.elem_of_cons.
  - unfold not_after. pose proof (ord_sym x x) as Hx. by destruct (f x x).
  - by eapply list.Forall_forall in Hs.
Qed.
End Sorts.

(** ** Sums over finite maps

    [map_sum f m] adds [f] over the values of [m]; the store's grouped counts
    and byte sums are instances, and updating one row moves the sum by the
    difference of that row's share. *)

Section MapSum.
Context `{Countable K} {A : Type}.
Implicit Types (m : gmap K A) (f g : A -> Z).
Local Open Scope Z_scope.

Definition map_sum f m : Z := map_fold (fun _ x acc => f x + acc) 0 m.

Lemma map_sum_empty f : map_sum f ∅ = 0.
Proof. apply map_fold_empty. Qed.

Lemma map_sum_insert_None f m i x :
  m !! i = None -> map_sum f (<[i := x]> m) = f x + map_sum f m.
Proof.
  intros Hi. unfold map_sum. rewrite map_fold_insert_L; [done| |done].
  intros; lia.
Qed.

Lemma map_sum_delete f m i x :
  m !! i = Some x -> map_sum f m = f x + map_sum f (delete i m).
Proof.
  intros Hi. rewrite <- (insert_delete_id m i x) at 1 by done.
  by rewrite map_sum_insert_None by apply lookup_delete_eq.
Qed.

Lemma map_sum_insert_Some f m i x y :
  m !! i = Some x -> map_sum f (<[i := y]> m) = map_sum f m - f x + f y.
Proof.
  intros Hi. rewrite (map_sum_delete f m i x) by done.
  rewrite <- (insert_delete_eq m), map_sum_insert_None by apply lookup_delete_eq. lia.
Qed.

Lemma map_sum_ext f g m :
  (forall i x, m !! i = Some x -> f x = g x) -> map_sum f m = map_sum g m.
Proof.
  induction m as [|i x m Hi IH] using map_ind; intros Hfg; [by rewrite !map_sum_empty|].
  rewrite !map_sum_insert_None by done. rewrite (Hfg i x) by apply lookup_insert_eq.
  rewrite IH; [done|]. intros j y Hj. apply (Hfg j).
  rewrite lookup_insert_ne; [done|]. intros <-. congruence.
Qed.

Lemma map_sum_nonneg f m :
  (forall i x, m !! i = Some x -> 0 <= f x) -> 0 <= map_sum f m.
Proof.
  induction m as [|i x m Hi IH] using map_ind; intros Hf; [by rewrite map_sum_empty|].
  rewrite map_sum_insert_None by done.
  assert (0 <= f x) by (apply (Hf i), lookup_insert_eq).
  enough (0 <= map_sum f m) by lia. apply IH. intros j y Hj. apply (Hf j).
  rewrite lookup_insert_ne; [done|]. intros <-. congruence.
Qed.

Lemma map_sum_le f g m :
  (forall i x, m !! i = Some x -> f x <= g x) -> map_sum f m <= map_sum g m.
Proof.
  induction m as [|i x m Hi IH] using map_ind; intros Hf; [by rewrite !map_sum_empty|].
  rewrite !map_sum_insert_None by done.
  assert (f x <= g x) by (apply (Hf i), lookup_insert_eq).
  enough (map_sum f m <= map_sum g m) by lia. apply IH. intros j y Hj. apply (Hf j).
  rewrite lookup_insert_ne; [done|]. intros <-. congruence.
Qed.
End MapSum.

(** ** Paths: the functions of package [path/filepath] (Unix) the code calls *)

Section Paths.
Local Open Scope string_scope.

(** The byte of the path separator. *)
Definition slash : Ascii.ascii := Ascii.ascii_of_nat 47.

(** [strings.Split(s, sep)] for a one-byte separator. *)
Fixpoint split_byte (c : Ascii.ascii) (s : string) : list string :=
  match s with
  | EmptyString => [EmptyString]
  | String a s' =>
    if bool_decide (a = c) then EmptyString :: split_byte c s'
    else match split_byte c s' with
         | seg :: rest => String a seg :: rest
         | [] => [String a EmptyString]
         end
  end.

(** [strings.TrimRight(s, cutset)] for a one-byte cutset. *)
Fixpoint trim_right_byte (c : Ascii.ascii) (s : string) : string :=
  match s with
  | EmptyString => EmptyString
  | String a s' =>
    match trim_right_byte c s' with
    | EmptyString => if bool_decide (a = c) then EmptyString else String a EmptyString
    | r => String a r
    end
  end.

(** [strings.Join(l, sep)]. *)
Fixpoint join (sep : string) (l : list string) : string :=
  match l with
  | [] => EmptyString
  | [s] => s
  | s :: l => s +:+ sep +:+ join sep l
  end.

(** The element stack of [filepath.Clean], newest first. *)
Fixpoint clean_elems (rooted : bool) (l stack : list string) : list string :=
  match l with
  | [] => reverse stack
  | e :: l =>
    if bool_decide (e = EmptyString) || bool_decide (e = ".") then clean_elems rooted l stack
    else if bool_decide (e = "..") then
      match stack with
      | top :: stack' =>
        if bool_decide (top = "..") then clean_elems rooted l (".." :: stack)
        else clean_elems rooted l stack'
      | [] => if rooted then clean_elems rooted l [] else clean_elems rooted l [".."]
      end
    else clean_elems rooted l (e :: stack)
  end.

Definition IsAbs (path : string) : bool := has_prefix "/" path.

(** [filepath.Clean]. *)
Definition Clean (path : string) : string :=
  if bool_decide (path = EmptyString) then "."
  else
    let out := join "/" (clean_elems (IsAbs path) (split_byte slash path) []) in
    if IsAbs path then "/" +:+ out
    else if bool_decide (out = EmptyString) then "." else out.

(** The prefix up to and including the last slash. *)
Fixpoint dir_prefix (s : string) : string :=
  match s with
  | EmptyString => EmptyString
  | String a s' =>
    match dir_prefix s' with
    | EmptyString => if bool_decide (a = slash) then String a EmptyString else EmptyString
    | r => String a r
    end
  end.

(** [filepath.Dir]. *)
Definition Dir (path : string) : string := Clean (dir_prefix path).

Example clean_examples :
  Clean "/a/./b//c/../d/" = "/a/b/d" /\ Clean "/../x" = "/x" /\ Clean "a/../.." = ".." /\
  Clean "//" = "/" /\ Dir "/a/b" = "/a" /\ Dir "/a" = "/" /\ Dir "/" = "/" /\ Dir "a" = ".".
Proof. by vm_compute. Qed.

(** The bytes a segment list needs, separators included. *)
Definition segs_size (l : list string) : nat := sum_list ((fun s => S (String.length s)) <$> l).

Lemma split_byte_size c s : segs_size (split_byte c s) = S (String.length s).
Proof.
  induction s as [|a s IH]; [done|]. simpl. case_bool_decide.
  - change (S (segs_size (split_byte c s)) = S (S (String.length s))). by rewrite IH.
  - destruct (split_byte c s); [done|]. unfold segs_size in *. simpl in *. lia.
Qed.

Lemma string_length_app s t : String.length (s +:+ t) = String.length s + String.length t.
Proof. induction s as [|a s IH]; simpl; [done|]. by rewrite IH. Qed.

Lemma join_size l : String.length (join "/" l) <= pred (segs_size l).
Proof.
  induction l as [|s l IH]; [done|]. unfold segs_size in *. destruct l as [|s' l]; [simpl; lia|].
  change (join "/" (s :: s' :: l)) with (s +:+ "/" +:+ join "/" (s' :: l)).
  rewrite !string_length_app. simpl in *. lia.
Qed.

Lemma segs_size_app l k : segs_size (l ++ k) = segs_size l + segs_size k.
Proof.
  induction l as [|s l IH]; [done|].
  change (S (String.length s) + segs_size (l ++ k) = S (String.length s) + segs_size l + segs_size k).
  rewrite IH. lia.
Qed.

(** The bytes of the elements [Clean] looks at. *)
Definition elems_size (l : list string) : nat :=
  segs_size (List.filter (fun e => negb (bool_decide (e = EmptyString))) l).

Lemma clean_elems_size b l stack :
  segs_size (clean_elems b l stack) <= elems_size l + segs_size (reverse stack).
Proof.
  assert (Hc : forall e st, segs_size (reverse (e :: st)) = S (String.length e) + segs_size (reverse st)).
  { intros. rewrite reverse_cons, segs_size_app. unfold segs_size at 2. simpl. lia. }
  assert (Hl : forall e k, elems_size (e :: k) =
    (if bool_decide (e = EmptyString) then 0 else S (String.length e)) + elems_size k).
  { intros e k. unfold elems_size. simpl. by destruct (bool_decide (e = EmptyString)). }
  revert stack. induction l as [|e l IH]; intros stack; cbn [clean_elems].
  { unfold elems_size, segs_size. simpl. lia. }
  rewrite Hl. destruct (bool_decide (e = EmptyString)) eqn:Hempty; cbn [orb].
  { specialize (IH stack). lia. }
  destruct (bool_decide (e = ".")); [specialize (IH stack); lia|].
  destruct (bool_decide (e = "..")) eqn:Hdots.
  - apply bool_decide_eq_true in Hdots as ->. destruct stack as [|top stack].
    + destruct b; [specialize (IH [])|specialize (IH [".."])]; rewrite ?Hc in *;
        cbn [String.length] in *; lia.
    + destruct (bool_decide (top = ".."));
        [specialize (IH (".." :: top :: stack))|specialize (IH stack)];
        rewrite ?Hc in *; cbn [String.length] in *; lia.
  - specialize (IH (e :: stack)). rewrite Hc in IH. lia.
Qed.

Lemma elems_size_le l : elems_size l <= segs_size l.
Proof.
  unfold elems_size. induction l as [|e l IH]; [done|].
  change (segs_size (e :: l)) with (S (String.length e) + segs_size l). simpl.
  destruct (negb _); [|lia].
  change (S (String.length e) + segs_size (List.filter (fun e => negb (bool_decide (e = EmptyString))) l)
    <= S (String.length e) + segs_size l). lia.
Qed.

Lemma split_byte_snoc c u : split_byte c (u +:+ String c EmptyString) = (split_byte c u ++ [EmptyString])%list.
Proof.
  induction u as [|a u IH]; simpl; [by rewrite bool_decide_true|].
  rewrite IH. case_bool_decide; [done|]. pose proof (split_byte_size c u) as Hu.
  by destruct (split_byte c u).
Qed.

Lemma elems_size_app l k : elems_size (l ++ k)%list = elems_size l + elems_size k.
Proof. unfold elems_size. by rewrite List.filter_app, segs_size_app. Qed.

Lemma dir_prefix_shape s :
  dir_prefix s = EmptyString \/
  exists u, dir_prefix s = u +:+ String slash EmptyString /\ S (String.length u) <= String.length s.
Proof.
  induction s as [|a s IH]; [by left|]. cbn [dir_prefix].
  destruct IH as [->|(u & -> & Hu)].
  - case_bool_decide as Ha; [|by left]. right. exists EmptyString. subst a.
    split; [done|]. cbn [String.length]. lia.
  - right. exists (String a u). split; [by destruct u|]. cbn [String.length]. lia.
Qed.

Lemma IsAbs_cons p : IsAbs p = true -> exists q, p = String slash q.
Proof.
  destruct p as [|a q]; [done|]. unfold IsAbs. simpl. intros H. exists q. f_equal.
  rewrite andb_true_r in H. by apply bool_decide_eq_true in H.
Qed.

(** The climb of a path: [Dir] keeps an absolute path absolute and shortens
    every one but the root. *)
Lemma Dir_abs p : IsAbs p = true -> IsAbs (Dir p) = true.
Proof.
  intros (q & ->)%IsAbs_cons. unfold Dir. cbn [dir_prefix].
  assert (H : forall r, IsAbs (Clean (String slash r)) = true).
  { intros r. unfold Clean. by rewrite bool_decide_false by done. }
  destruct (dir_prefix q); [|apply H]. rewrite bool_decide_true by done. apply H.
Qed.

Lemma Dir_shorter p : IsAbs p = true -> p <> "/" -> String.length (Dir p) < String.length p.
Proof.
  intros (q & ->)%IsAbs_cons Hne. unfold Dir. cbn [dir_prefix].
  assert (Hq : q <> EmptyString) by (by intros ->).
  destruct (dir_prefix_shape q) as [->|(u & Hu & Hlen)].
  - rewrite bool_decide_true by done. destruct q; [done|]. vm_compute (Clean _). simpl. lia.
  - rewrite Hu. destruct (u +:+ String slash EmptyString) eqn:He; [by destruct u|]. rewrite <- He.
    unfold Clean. rewrite bool_decide_false by done.
    change (IsAbs (String slash (u +:+ String slash EmptyString))) with true.
    cbn [split_byte]. rewrite bool_decide_true by done. cbn iota.
    rewrite string_length_app. cbn [String.length].
    pose proof (join_size (clean_elems true
      (EmptyString :: split_byte slash (u +:+ String slash EmptyString)) [])) as Hj.
    pose proof (clean_elems_size true
      (EmptyString :: split_byte slash (u +:+ String slash EmptyString)) []) as Hc.
    change (elems_size (EmptyString :: ?l)) with (elems_size l) in Hc.
    rewrite split_byte_snoc, elems_size_app in Hc.
    pose proof (elems_size_le (split_byte slash u)) as Hle. rewrite split_byte_size in Hle.
    change (elems_size [EmptyString]) with 0 in Hc. change (segs_size (reverse [])) with 0 in Hc.
    rewrite split_byte_snoc in Hj |- *. lia.
Qed.
End Paths.
