(* ===== verification/GoStrings.v ===== *)
(** * Byte strings the way Go reads them

    The functions of packages [strings], [strconv] and [unicode/utf8] that the
    parsers, the path rules and the feed call, on the bytes of a string.  A
    string is decoded rune by rune; a byte that starts no valid encoding is a
    piece of its own ([chunks]). *)

From stdpp Require Import sorting pretty.
From S2P Require Import Prelude.

Open Scope Z_scope.

(** The byte order of [slices.Sort]. *)
Definition id_le (a b : string) : Prop := String.leb a b = true.
#[global] Instance id_le_dec a b : Decision (id_le a b).
Proof. unfold id_le. apply _. Defined.

#[export] Instance id_le_trans : Transitive id_le.
Proof. intros a b c. apply string_leb_trans. Qed.
#[export] Instance id_le_total : Total id_le.
Proof. intros a b. unfold id_le. destruct (String.leb_total a b); auto. Qed.

(** ** Bytes *)

Definition bytes_of (s : string) : list Z :=
  (fun a => Z.of_nat (Ascii.nat_of_ascii a)) <$> String.list_ascii_of_string s.

(** [string(b)] of a byte slice. *)
Definition string_of (l : list Z) : string :=
  String.string_of_list_ascii ((fun b => Ascii.ascii_of_nat (Z.to_nat b)) <$> l).

Definition is_byte (b : Z) : Prop := 0 <= b < 256.

Lemma bytes_are_bytes s : Forall is_byte (bytes_of s).
Proof.
  unfold bytes_of. apply list.Forall_fmap, list.Forall_forall. intros a _. unfold is_byte. simpl.
  pose proof (Ascii.nat_ascii_bounded a). lia.
Qed.

Lemma string_of_bytes s : string_of (bytes_of s) = s.
Proof.
  unfold string_of, bytes_of. rewrite <- list_fmap_compose.
  rewrite <- (String.string_of_list_ascii_of_string s) at 2. f_equal.
  rewrite <- (list_fmap_id (String.list_ascii_of_string s)) at 2.
  apply list_fmap_ext. intros i a _. simpl. by rewrite Nat2Z.id, Ascii.ascii_nat_embedding.
Qed.

Lemma bytes_of_string l : Forall is_byte l -> bytes_of (string_of l) = l.
Proof.
  unfold string_of, bytes_of, is_byte. intros Hl.
  rewrite String.list_ascii_of_string_of_list_ascii, <- list_fmap_compose.
  rewrite <- (list_fmap_id l) at 2. apply list_fmap_ext. intros i b Hb. simpl.
  eapply list.Forall_lookup_1 in Hl; [|done].
  rewrite Ascii.nat_ascii_embedding by lia. lia.
Qed.

Lemma bytes_of_app s t : bytes_of (s +:+ t) = bytes_of s ++ bytes_of t.
Proof.
  unfold bytes_of. rewrite <- fmap_app. f_equal.
  induction s as [|a s IH]; [done|]. simpl. by rewrite IH.
Qed.

Lemma bytes_length s : length (bytes_of s) = String.length s.
Proof. unfold bytes_of. rewrite length_fmap. induction s; simpl; [done|]. by f_equal. Qed.

#[export] Instance bytes_inj : Inj (=) (=) bytes_of.
Proof. intros s t H. by rewrite <- (string_of_bytes s), H, string_of_bytes. Qed.

(** ** [strings.TrimSpace] *)

(** [unicode.IsSpace], in the bytes of its encoding. *)
Definition space_encodings : list (list Z) :=
  [[9]; [10]; [11]; [12]; [13]; [32]; [194; 133]; [194; 160]; [225; 154; 128];
   [226; 128; 128]; [226; 128; 129]; [226; 128; 130]; [226; 128; 131]; [226; 128; 132];
   [226; 128; 133]; [226; 128; 134]; [226; 128; 135]; [226; 128; 136]; [226; 128; 137];
   [226; 128; 138]; [226; 128; 168]; [226; 128; 169]; [226; 128; 175]; [226; 129; 159];
   [227; 128; 128]].

Fixpoint strip_prefix (p l : list Z) : option (list Z) :=
  match p, l with
  | [], _ => Some l
  | a :: p, b :: l => if a =? b then strip_prefix p l else None
  | _ :: _, [] => None
  end.

(** The first of the encodings that starts [l], removed. *)
Definition strip_space (rev : bool) (l : list Z) : option (list Z) :=
  fold_right (fun enc found =>
    match strip_prefix (if rev : bool then reverse enc else enc) l with
    | Some l => Some l
    | None => found
    end) None space_encodings.

Fixpoint trim (fuel : nat) (rev : bool) (l : list Z) : list Z :=
  match fuel with
  | O => l
  | S fuel => match strip_space rev l with Some l' => trim fuel rev l' | None => l end
  end.

(** [strings.TrimSpace]; every round removes a byte, so the length is enough
    fuel. *)
Definition TrimSpace (l : list Z) : list Z :=
  let l := trim (length l) false l in
  reverse (trim (length l) true (reverse l)).

(** ** [strconv.ParseInt] *)

Definition digit (b : Z) : option Z := if (48 <=? b) && (b <=? 57) then Some (b - 48) else None.

(** The decimal value of a non-empty run of digits. *)
Fixpoint digits (acc : Z) (l : list Z) : option Z :=
  match l with
  | [] => Some acc
  | b :: l => match digit b with Some d => digits (10 * acc + d) l | None => None end
  end.

(** [strconv.ParseInt(_, 10, 64)]; [None] is its error, overflow included. *)
Definition ParseInt (l : list Z) : option Z :=
  let '(neg, l) := match l with 43 :: l => (false, l) | 45 :: l => (true, l) | _ => (false, l) end in
  match l with
  | [] => None
  | _ =>
    match digits 0 l with
    | Some n =>
      if neg : bool then (if n <=? 2 ^ 63 then Some (- n) else None)
      else (if n <? 2 ^ 63 then Some n else None)
    | None => None
    end
  end.

(** ** Decimal numerals *)

Lemma ParseInt_range l n : ParseInt l = Some n -> in_int64 n.
Proof.
  unfold ParseInt, in_int64, int64_min, int64_max.
  set (p := match l with 43 :: _ => _ | _ => _ end). destruct p as [neg l'].
  destruct l' as [|b l']; [done|]. destruct (digits 0 (b :: l')) as [v|] eqn:Hv; [|done].
  assert (Hpos : forall k acc w, 0 <= acc -> digits acc k = Some w -> 0 <= w).
  { clear. induction k as [|b k IH]; intros acc w Ha; simpl; [by intros; simplify_eq|].
    unfold digit. destruct (_ && _) eqn:Hb; [|done]. apply IH. lia. }
  apply Hpos in Hv; [|done]. destruct neg.
  - destruct (v <=? 2 ^ 63) eqn:?; [|done]. intros. simplify_eq. lia.
  - destruct (v <? 2 ^ 63) eqn:?; [|done]. intros. simplify_eq. lia.
Qed.

Lemma digits_go x s : (0 < x)%N ->
  digits 0 (bytes_of (pretty_N_go x s)) = digits (Z.of_N x) (bytes_of s).
Proof.
  revert s. induction (N.lt_wf_0 x) as [x _ IH]. intros s Hx.
  rewrite pretty_N_go_step by done.
  assert (Hstep : forall a, digits a (bytes_of (String (pretty_N_char (x `mod` 10)) s)) =
    digits (10 * a + Z.of_N (x `mod` 10)%N) (bytes_of s)).
  { intros a. assert (Hm : (x `mod` 10 < 10)%N) by by apply N.mod_lt.
    generalize dependent (x `mod` 10)%N. intros m Hm.
    assert (Hc : (m = 0 \/ m = 1 \/ m = 2 \/ m = 3 \/ m = 4 \/ m = 5 \/ m = 6 \/ m = 7 \/
      m = 8 \/ m = 9)%N) by lia.
    by destruct Hc as [->|[->|[->|[->|[->|[->|[->|[->|[->| ->]]]]]]]]]. }
  assert (Hdm : Z.of_N x = 10 * Z.of_N (x `div` 10) + Z.of_N (x `mod` 10)).
  { rewrite (N.div_mod x 10) at 1 by done. by rewrite N2Z.inj_add, N2Z.inj_mul. }
  destruct (decide (x `div` 10 = 0)%N) as [E|E].
  - rewrite E, pretty_N_go_0, Hstep. f_equal. rewrite Hdm, E. done.
  - rewrite IH, Hstep; [by f_equal| |by apply N.neq_0_lt_0]. apply N.div_lt; done.
Qed.

Definition is_digit (b : Z) : Prop := 48 <= b <= 57.

Lemma digits_all acc l v : digits acc l = Some v -> Forall is_digit l.
Proof.
  revert acc. induction l as [|b l IH]; intros acc; simpl; [done|].
  unfold digit. destruct (_ && _) eqn:Hb; [|done]. intros H. constructor; [|by eapply IH].
  unfold is_digit. lia.
Qed.

Lemma strip_space_digit rev b l : is_digit b -> strip_space rev (b :: l) = None.
Proof.
  unfold is_digit. intros Hb. unfold strip_space, space_encodings.
  destruct rev; cbn [fold_right reverse rev_append strip_prefix app];
    repeat match goal with
           | |- context [?a =? b] => rewrite (proj2 (Z.eqb_neq a b)) by lia
           end; done.
Qed.

Lemma trim_digits rev l fuel : Forall is_digit l -> trim fuel rev l = l.
Proof.
  intros Hl. destruct fuel as [|fuel]; [done|]. simpl. destruct l as [|b l].
  - by destruct rev.
  - rewrite strip_space_digit; [done|]. by apply list.Forall_cons in Hl as [? _].
Qed.

Lemma TrimSpace_digits l : Forall is_digit l -> TrimSpace l = l.
Proof.
  intros Hl. unfold TrimSpace. rewrite (trim_digits false l) by done. rewrite trim_digits by by apply Forall_reverse.
  by rewrite reverse_involutive.
Qed.

(** The numeral of a natural number is digits, and reads back. *)
Lemma decimal_reads n : 0 <= n < 2 ^ 63 ->
  Forall is_digit (bytes_of (pretty n)) /\ bytes_of (pretty n) <> [] /\ ParseInt (bytes_of (pretty n)) = Some n.
Proof.
  intros Hn. destruct (decide (n = 0)) as [->|H0]; [split_and!; [by repeat constructor|done..]|].
  assert (Hp : exists x, (0 < x)%N /\ n = Z.of_N x) by (exists (Z.to_N n); lia).
  destruct Hp as (x & Hx & ->).
  replace (pretty (Z.of_N x)) with (pretty_N_go x EmptyString) by by destruct x.
  pose proof (digits_go x EmptyString Hx) as Hd. simpl in Hd.
  set (l := bytes_of _) in *. pose proof (digits_all _ _ _ Hd) as Hl.
  destruct l as [|b l]; [simpl in Hd; injection Hd; lia|]. split_and!; [done..|].
  assert (Hb : is_digit b) by by apply list.Forall_cons in Hl as [? _].
  unfold ParseInt. transitivity (if Z.of_N x <? 2 ^ 63 then Some (Z.of_N x) else None).
  - unfold is_digit in Hb.
    assert (Hc : b = 48 \/ b = 49 \/ b = 50 \/ b = 51 \/ b = 52 \/ b = 53 \/ b = 54 \/ b = 55 \/
      b = 56 \/ b = 57) by lia.
    by destruct Hc as [->|[->|[->|[->|[->|[->|[->|[->|[->| ->]]]]]]]]]; rewrite Hd.
  - destruct (_ <? _) eqn:?; [done|lia].
Qed.

(** ** UTF-8 *)

Definition RuneError : Z := 65533.

Definition tail_byte (b : Z) : bool := (128 <=? b) && (b <=? 191).
Definition between (lo hi b : Z) : bool := (lo <=? b) && (b <=? hi).

(** The valid two-, three- and four-byte encodings. *)
Definition two_ok (b0 b1 : Z) : bool := between 194 223 b0 && tail_byte b1.
Definition three_ok (b0 b1 b2 : Z) : bool :=
  ((b0 =? 224) && between 160 191 b1 || (b0 =? 237) && between 128 159 b1
   || (between 225 236 b0 || between 238 239 b0) && tail_byte b1) && tail_byte b2.
Definition four_ok (b0 b1 b2 b3 : Z) : bool :=
  ((b0 =? 240) && between 144 191 b1 || (b0 =? 244) && between 128 143 b1
   || between 241 243 b0 && tail_byte b1) && tail_byte b2 && tail_byte b3.

(** [range] over a string: each rune with its bytes, [None] for a byte that
    decodes to [RuneError] on its own. *)
Fixpoint chunks (l : list Z) : list (option Z * list Z) :=
  match l with
  | [] => []
  | b0 :: l1 =>
    if b0 <? 128 then (Some b0, [b0]) :: chunks l1
    else match l1 with
    | [] => [(None, [b0])]
    | b1 :: l2 =>
      if two_ok b0 b1 then (Some ((b0 - 192) * 64 + (b1 - 128)), [b0; b1]) :: chunks l2
      else match l2 with
      | [] => (None, [b0]) :: chunks l1
      | b2 :: l3 =>
        if three_ok b0 b1 b2 then
          (Some ((b0 - 224) * 4096 + (b1 - 128) * 64 + (b2 - 128)), [b0; b1; b2]) :: chunks l3
        else match l3 with
        | [] => (None, [b0]) :: chunks l1
        | b3 :: l4 =>
          if four_ok b0 b1 b2 b3 then
            (Some ((b0 - 240) * 262144 + (b1 - 128) * 4096 + (b2 - 128) * 64 + (b3 - 128)),
             [b0; b1; b2; b3]) :: chunks l4
          else (None, [b0]) :: chunks l1
        end
      end
    end
  end.

Definition runes (l : list Z) : list Z := default RuneError <$> (chunks l).*1.

Definition valid_rune (r : Z) : bool :=
  (0 <=? r) && (r <=? 1114111) && negb (between 55296 57343 r).

(** [utf8.AppendRune]. *)
Definition encode_rune (r : Z) : list Z :=
  if negb (valid_rune r) then [239; 191; 189]
  else if r <? 128 then [r]
  else if r <? 2048 then [192 + r / 64; 128 + r mod 64]
  else if r <? 65536 then [224 + r / 4096; 128 + r / 64 mod 64; 128 + r mod 64]
  else [240 + r / 262144; 128 + r / 4096 mod 64; 128 + r / 64 mod 64; 128 + r mod 64].

(** [strings.Map]; [None] is the negative rune that drops one. *)
Definition Map (f : Z -> option Z) (l : list Z) : list Z :=
  concat (encode_rune <$> omap f (runes l)).

(** [strings.ToValidUTF8]: each run of undecodable bytes becomes [rep]. *)
Fixpoint repair (rep : list Z) (in_run : bool) (l : list (option Z * list Z)) : list Z :=
  match l with
  | [] => []
  | (Some _, bs) :: l => bs ++ repair rep false l
  | (None, _) :: l => (if in_run then [] else rep) ++ repair rep true l
  end.
Definition ToValidUTF8 (l rep : list Z) : list Z := repair rep false (chunks l).

(** [utf8.RuneStart]. *)
Definition RuneStart (b : Z) : bool := negb (tail_byte b).

(** The Unicode case tables above ASCII. *)
Class UnicodeTables := { table_lower : Z -> Z; table_upper : Z -> Z }.

(** The tables of a world without letters above ASCII. *)
Definition ascii_tables : UnicodeTables := {| table_lower := id; table_upper := id |}.

(** [unicode.ToLower], [unicode.ToUpper] and their string forms. *)
Definition rune_lower `{!UnicodeTables} (r : Z) : Z :=
  if r <? 128 then (if between 65 90 r then r + 32 else r) else table_lower r.
Definition rune_upper `{!UnicodeTables} (r : Z) : Z :=
  if r <? 128 then (if between 97 122 r then r - 32 else r) else table_upper r.
Definition ToLower `{!UnicodeTables} (l : list Z) : list Z := Map (fun r => Some (rune_lower r)) l.
Definition ToUpper `{!UnicodeTables} (l : list Z) : list Z := Map (fun r => Some (rune_upper r)) l.

(** [strings.TrimRight] for a cutset of ASCII bytes. *)
Fixpoint drop_while (f : Z -> bool) (l : list Z) : list Z :=
  match l with
  | [] => []
  | b :: l' => if f b then drop_while f l' else l
  end.
Definition TrimRight (l cutset : list Z) : list Z :=
  reverse (drop_while (contains cutset) (reverse l)).

(** [strings.LastIndexByte]. *)
Definition last_index (c : Z) (l : list Z) : option nat :=
  snd (fold_left (fun '(i, found) b => (S i, if b =? c then Some i else found)) l (O, None)).

(** *** Decoding and encoding are inverse *)

Ltac bool_hyps :=
  repeat match goal with
    | H : _ && _ = true |- _ => apply andb_true_iff in H as [? H]
    | H : (_ <=? _) = true |- _ => apply Z.leb_le in H
    | H : (_ <? _) = true |- _ => apply Z.ltb_lt in H
    | H : (_ <? _) = false |- _ => apply Z.ltb_ge in H
    | H : (_ =? _) = true |- _ => apply Z.eqb_eq in H
    end.

Ltac bytes_lia :=
  unfold valid_rune, two_ok, three_ok, four_ok, tail_byte, between, is_byte in *;
  Z.div_mod_to_equations; lia.

Lemma encode_two b0 b1 : two_ok b0 b1 = true ->
  let r := (b0 - 192) * 64 + (b1 - 128) in valid_rune r = true /\ encode_rune r = [b0; b1].
Proof.
  intros H. assert (Hv : valid_rune ((b0 - 192) * 64 + (b1 - 128)) = true) by bytes_lia.
  split; [done|]. unfold encode_rune. rewrite Hv. simpl negb. cbn iota.
  rewrite (proj2 (Z.ltb_ge _ 128)) by bytes_lia. rewrite (proj2 (Z.ltb_lt _ 2048)) by bytes_lia.
  repeat f_equal; bytes_lia.
Qed.

Lemma encode_three b0 b1 b2 : three_ok b0 b1 b2 = true ->
  let r := (b0 - 224) * 4096 + (b1 - 128) * 64 + (b2 - 128) in
  valid_rune r = true /\ encode_rune r = [b0; b1; b2].
Proof.
  intros H. assert (Hv : valid_rune ((b0 - 224) * 4096 + (b1 - 128) * 64 + (b2 - 128)) = true)
    by bytes_lia.
  split; [done|]. unfold encode_rune. rewrite Hv. simpl negb. cbn iota.
  rewrite (proj2 (Z.ltb_ge _ 128)) by bytes_lia. rewrite (proj2 (Z.ltb_ge _ 2048)) by bytes_lia.
  rewrite (proj2 (Z.ltb_lt _ 65536)) by bytes_lia.
  repeat f_equal; bytes_lia.
Qed.

Lemma encode_four b0 b1 b2 b3 : four_ok b0 b1 b2 b3 = true ->
  let r := (b0 - 240) * 262144 + (b1 - 128) * 4096 + (b2 - 128) * 64 + (b3 - 128) in
  valid_rune r = true /\ encode_rune r = [b0; b1; b2; b3].
Proof.
  intros H. assert (Hv : valid_rune ((b0 - 240) * 262144 + (b1 - 128) * 4096 + (b2 - 128) * 64
    + (b3 - 128)) = true) by bytes_lia.
  split; [done|]. unfold encode_rune. rewrite Hv. simpl negb. cbn iota.
  rewrite (proj2 (Z.ltb_ge _ 128)) by bytes_lia. rewrite (proj2 (Z.ltb_ge _ 2048)) by bytes_lia.
  rewrite (proj2 (Z.ltb_ge _ 65536)) by bytes_lia.
  repeat f_equal; bytes_lia.
Qed.

(** The walk of [chunks]: valid encodings and single undecodable bytes. *)
Lemma chunks_ind (P : list Z -> list (option Z * list Z) -> Prop) :
  P [] [] ->
  (forall b l, 128 <= b -> P l (chunks l) -> P (b :: l) ((None, [b]) :: chunks l)) ->
  (forall r l, valid_rune r = true -> P l (chunks l) ->
     P (encode_rune r ++ l) ((Some r, encode_rune r) :: chunks l)) ->
  forall l, Forall is_byte l -> P l (chunks l).
Proof.
  intros Hnil Hbad Hgood l. remember (length l) as n eqn:Hn. revert l Hn.
  induction (lt_wf n) as [n _ IH]. intros l -> Hb.
  destruct l as [|b0 l1]; [done|]. apply list.Forall_cons in Hb as [Hb0 Hb1].
  assert (Hrec : forall k, (length k <= length l1)%nat -> Forall is_byte k -> P k (chunks k)).
  { intros k Hk. apply (IH (length k)); [simpl; lia|done]. }
  cbn [chunks]. destruct (b0 <? 128) eqn:E0.
  { bool_hyps. unfold is_byte in Hb0. assert (encode_rune b0 = [b0]) as He.
    { unfold encode_rune. rewrite (proj2 (Z.ltb_lt b0 128)) by lia.
      by destruct (valid_rune b0) eqn:Hv; [|bytes_lia]. }
    assert (Hv : valid_rune b0 = true) by bytes_lia.
    pose proof (Hgood b0 l1 Hv (Hrec l1 (le_n _) Hb1)) as H. by rewrite He in H. }
  bool_hyps. destruct l1 as [|b1 l2]; [by apply (Hbad b0 []); [|apply Hrec]|].
  apply list.Forall_cons in Hb1 as Hb2. destruct Hb2 as [_ Hb2].
  destruct (two_ok b0 b1) eqn:E1.
  { destruct (encode_two _ _ E1) as [Hv He]. change (b0 :: b1 :: l2) with ([b0; b1] ++ l2).
    rewrite <- He. apply Hgood; [done|]. apply Hrec; [simpl; lia|done]. }
  destruct l2 as [|b2 l3]; [apply Hbad; [done|by apply Hrec]|].
  apply list.Forall_cons in Hb2 as Hb3. destruct Hb3 as [_ Hb3].
  destruct (three_ok b0 b1 b2) eqn:E2.
  { destruct (encode_three _ _ _ E2) as [Hv He].
    change (b0 :: b1 :: b2 :: l3) with ([b0; b1; b2] ++ l3).
    rewrite <- He. apply Hgood; [done|]. apply Hrec; [simpl; lia|done]. }
  destruct l3 as [|b3 l4]; [apply Hbad; [done|by apply Hrec]|].
  apply list.Forall_cons in Hb3 as Hb4. destruct Hb4 as [_ Hb4].
  destruct (four_ok b0 b1 b2 b3) eqn:E3; [|apply Hbad; [done|by apply Hrec]].
  destruct (encode_four _ _ _ _ E3) as [Hv He].
  change (b0 :: b1 :: b2 :: b3 :: l4) with ([b0; b1; b2; b3] ++ l4).
  rewrite <- He. apply Hgood; [done|]. apply Hrec; [simpl; lia|done].
Qed.

Lemma chunks_concat l : Forall is_byte l -> concat (chunks l).*2 = l.
Proof.
  intros Hl. pattern l, (chunks l). apply chunks_ind; [done|..|done]; simpl; by intros; f_equal.
Qed.

Lemma chunks_encode r l : valid_rune r = true ->
  chunks (encode_rune r ++ l) = (Some r, encode_rune r) :: chunks l.
Proof.
  intros Hv. unfold encode_rune. rewrite Hv. simpl negb. cbn iota.
  repeat case_match; bool_hyps; cbn [app chunks].
  - by rewrite (proj2 (Z.ltb_lt r 128)).
  - rewrite (proj2 (Z.ltb_ge _ 128)) by bytes_lia.
    assert (two_ok (192 + r / 64) (128 + r mod 64) = true) as -> by bytes_lia.
    repeat f_equal; bytes_lia.
  - rewrite (proj2 (Z.ltb_ge _ 128)) by bytes_lia.
    assert (two_ok (224 + r / 4096) (128 + r / 64 mod 64) = false) as -> by bytes_lia.
    assert (three_ok (224 + r / 4096) (128 + r / 64 mod 64) (128 + r mod 64) = true) as ->
      by bytes_lia.
    repeat f_equal; bytes_lia.
  - rewrite (proj2 (Z.ltb_ge _ 128)) by bytes_lia.
    assert (two_ok (240 + r / 262144) (128 + r / 4096 mod 64) = false) as -> by bytes_lia.
    assert (three_ok (240 + r / 262144) (128 + r / 4096 mod 64) (128 + r / 64 mod 64) = false) as ->
      by bytes_lia.
    assert (four_ok (240 + r / 262144) (128 + r / 4096 mod 64) (128 + r / 64 mod 64)
      (128 + r mod 64) = true) as -> by bytes_lia.
    repeat f_equal; bytes_lia.
Qed.

Lemma strip_prefix_Some p l k : strip_prefix p l = Some k -> l = p ++ k.
Proof.
  revert l. induction p as [|a p IH]; intros [|b l]; simpl; try (by intros [= ->]).
  destruct (Z.eqb_spec a b) as [->|]; [|done]. intros Hk. by rewrite (IH _ Hk).
Qed.

(** ** UTF-8 texts *)

Definition valid_utf8 (l : list Z) : bool := forallb (fun c => bool_decide (is_Some c.1)) (chunks l).
(** The text of some runes. *)
Definition spelled (rs : list Z) : list Z := concat (encode_rune <$> rs).
Definition valid_runes (rs : list Z) : Prop := Forall (fun r => valid_rune r = true) rs.

Lemma spelled_app rs rs' : spelled (rs ++ rs') = spelled rs ++ spelled rs'.
Proof. unfold spelled. by rewrite fmap_app, concat_app. Qed.
Lemma chunks_spelled rs : valid_runes rs -> chunks (spelled rs) = (fun r => (Some r, encode_rune r)) <$> rs.
Proof.
  induction 1 as [|r rs Hr Hrs IH]; [done|]. unfold spelled in *. cbn [fmap list_fmap concat]. by rewrite chunks_encode, IH.
Qed.
Lemma spelled_valid rs : valid_runes rs -> valid_utf8 (spelled rs) = true.
Proof.
  intros Hrs. unfold valid_utf8. rewrite chunks_spelled by done. clear Hrs. induction rs as [|r rs IH]; [done|]. done.
Qed.
Lemma valid_spelled l : Forall is_byte l -> valid_utf8 l = true -> exists rs, valid_runes rs /\ l = spelled rs.
Proof.
  intros Hl. unfold valid_utf8. pattern l, (chunks l). apply chunks_ind; [|..|done].
  - intros _. exists []. by split; [constructor|].
  - intros b k Hb IH. done.
  - intros r k Hr IH. simpl. intros Hk. destruct (IH Hk) as (rs & Hrs & ->). exists (r :: rs). by split; [constructor|].
Qed.

(** The bytes of a rune: itself, or bytes outside ASCII. *)
Lemma encode_rune_bytes r : Forall (fun b => is_byte b /\ (b = r \/ 128 <= b)) (encode_rune r).
Proof.
  unfold encode_rune. repeat case_match; bool_hyps; apply negb_false_iff in H || idtac;
    repeat (apply list.Forall_cons; split; [bytes_lia|]); done.
Qed.
