(* ===== verification/Json.v ===== *)
(** * JSON texts (package [encoding/json], as the store uses it)

    [json.Unmarshal] into the types of the settings - a scanner that accepts or
    refuses the whole text, then a decoder per Go type - and [json.Marshal] of
    their values.  A text and a string are byte lists; a number keeps its
    literal, because the decoders read it themselves. *)

From stdpp Require Import fin_maps sorting pretty.
From S2P Require Import Prelude GoStrings.

Open Scope Z_scope.

Inductive json :=
  | JNull | JBool (b : bool) | JNumber (literal : list Z) | JString (s : list Z)
  | JArray (l : list json) | JObject (m : list (list Z * json)).

(** ** The scanner *)

Definition json_space (c : Z) : bool := (c =? 32) || (c =? 9) || (c =? 13) || (c =? 10).
Definition skip_space : list Z -> list Z := drop_while json_space.

Definition hex_value (c : Z) : option Z :=
  if between 48 57 c then Some (c - 48)
  else if between 97 102 c then Some (c - 87)
  else if between 65 70 c then Some (c - 55)
  else None.
(** [getu4]. *)
Definition hex4 (a b c d : Z) : option Z :=
  a ← hex_value a; b ← hex_value b; c ← hex_value c; d ← hex_value d;
  Some (((a * 16 + b) * 16 + c) * 16 + d).

(** The byte an escape other than [\u] stands for. *)
Definition escaped (c : Z) : option Z :=
  if c =? 98 then Some 8 else if c =? 102 then Some 12 else if c =? 110 then Some 10
  else if c =? 114 then Some 13 else if c =? 116 then Some 9
  else if (c =? 34) || (c =? 47) || (c =? 92) then Some c else None.

(** The body of a string literal, escapes kept, and what follows its closing
    quote. *)
Fixpoint string_body (l : list Z) : option (list Z * list Z) :=
  match l with
  | [] => None
  | c :: l1 =>
    if c =? 34 then Some ([], l1)
    else if c =? 92 then
      match l1 with
      | [] => None
      | e :: l2 =>
        if e =? 117 then
          match l2 with
          | h1 :: h2 :: h3 :: h4 :: l3 =>
            _ ← hex4 h1 h2 h3 h4; p ← string_body l3;
            Some (c :: e :: h1 :: h2 :: h3 :: h4 :: p.1, p.2)
          | _ => None
          end
        else _ ← escaped e; p ← string_body l2; Some (c :: e :: p.1, p.2)
      end
    else if c <? 32 then None
    else p ← string_body l1; Some (c :: p.1, p.2)
  end.

Definition surrogate (r : Z) : bool := between 55296 57343 r.
(** [utf16.DecodeRune]. *)
Definition DecodeRune16 (r1 r2 : Z) : Z :=
  if between 55296 56319 r1 && between 56320 57343 r2 then (r1 - 55296) * 1024 + (r2 - 56320) + 65536 else RuneError.

(** [unquoteBytes], on the runes of the body: an escaped surrogate joins the
    escape after it when the two are a pair, and is [RuneError] otherwise. *)
Fixpoint unquote (l : list Z) : list Z :=
  match l with
  | [] => []
  | c :: l1 =>
    if c =? 92 then
      match l1 with
      | [] => []
      | e :: l2 =>
        if e =? 117 then
          match l2 with
          | h1 :: h2 :: h3 :: h4 :: l3 =>
            let r := default 0 (hex4 h1 h2 h3 h4) in
            if surrogate r then
              match l3 with
              | c' :: e' :: g1 :: g2 :: g3 :: g4 :: l4 =>
                let r' := if (c' =? 92) && (e' =? 117) then default (-1) (hex4 g1 g2 g3 g4) else -1 in
                if DecodeRune16 r r' =? RuneError then RuneError :: unquote l3 else DecodeRune16 r r' :: unquote l4
              | _ => RuneError :: unquote l3
              end
            else r :: unquote l3
          | _ => []
          end
        else default e (escaped e) :: unquote l2
      end
    else c :: unquote l1
  end.
Definition unquoteBytes (body : list Z) : list Z := concat (encode_rune <$> unquote (runes body)).

Definition is_decimal (c : Z) : bool := between 48 57 c.
Fixpoint span (f : Z -> bool) (l : list Z) : list Z * list Z :=
  match l with
  | c :: l' => if f c then let (p, k) := span f l' in (c :: p, k) else ([], l)
  | [] => ([], [])
  end.
Definition some_decimals (l : list Z) : option (list Z * list Z) :=
  match span is_decimal l with ([], _) => None | p => Some p end.

(** A number literal: sign, integer part without leading zeros, fraction,
    exponent. *)
Definition integer_part (l : list Z) : option (list Z * list Z) :=
  match l with
  | c :: l' => if c =? 48 then Some ([48], l') else some_decimals l
  | [] => None
  end.
Definition fraction (l : list Z) : option (list Z * list Z) :=
  match l with
  | c :: l' => if c =? 46 then p ← some_decimals l'; Some (c :: p.1, p.2) else Some ([], l)
  | [] => Some ([], [])
  end.
Definition exponent (l : list Z) : option (list Z * list Z) :=
  match l with
  | c :: l' =>
    if (c =? 101) || (c =? 69) then
      let (sign, k) := match l' with s :: k => if (s =? 43) || (s =? 45) then ([s], k) else ([], l') | [] => ([], []) end in
      p ← some_decimals k; Some (c :: sign ++ p.1, p.2)
    else Some ([], l)
  | [] => Some ([], [])
  end.
Definition number (l : list Z) : option (list Z * list Z) :=
  let (sign, l) := match l with c :: k => if c =? 45 then ([c], k) else ([], l) | [] => ([], []) end in
  i ← integer_part l; f ← fraction i.2; e ← exponent f.2;
  Some (sign ++ i.1 ++ f.1 ++ e.1, e.2).

Definition true_text : list Z := bytes_of "true".
Definition false_text : list Z := bytes_of "false".
Definition null_text : list Z := bytes_of "null".

(** [maxNestingDepth]. *)
Definition maxNestingDepth : Z := 10000.

(** The text after a byte, when it starts with it. *)
Definition eat (c : Z) (l : list Z) : option (list Z) :=
  match l with x :: k => if x =? c then Some k else None | [] => None end.

(** One value and the text after it, the elements of an array and the members
    of an object with what follows the closing bracket.  Every round consumes a
    byte, so twice the length of the text is enough fuel ([value_fuel]). *)
Fixpoint value (fuel : nat) (depth : Z) (l : list Z) : option (json * list Z) :=
  match fuel with
  | O => None
  | S fuel =>
    match skip_space l with
    | [] => None
    | c :: k =>
      if c =? 34 then p ← string_body k; Some (JString (unquoteBytes p.1), p.2)
      else if c =? 123 then
        if depth <=? 0 then None
        else match eat 125 (skip_space k) with
          | Some k' => Some (JObject [], k')
          | None => p ← object_body fuel (depth - 1) k; Some (JObject p.1, p.2)
          end
      else if c =? 91 then
        if depth <=? 0 then None
        else match eat 93 (skip_space k) with
          | Some k' => Some (JArray [], k')
          | None => p ← array_body fuel (depth - 1) k; Some (JArray p.1, p.2)
          end
      else if (c =? 45) || is_decimal c then p ← number (c :: k); Some (JNumber p.1, p.2)
      else match strip_prefix true_text (c :: k), strip_prefix false_text (c :: k), strip_prefix null_text (c :: k) with
        | Some k', _, _ => Some (JBool true, k')
        | None, Some k', _ => Some (JBool false, k')
        | None, None, Some k' => Some (JNull, k')
        | None, None, None => None
        end
    end
  end
with array_body (fuel : nat) (depth : Z) (l : list Z) : option (list json * list Z) :=
  match fuel with
  | O => None
  | S fuel =>
    p ← value fuel depth l;
    match eat 44 (skip_space p.2), eat 93 (skip_space p.2) with
    | Some k, _ => q ← array_body fuel depth k; Some (p.1 :: q.1, q.2)
    | None, Some k => Some ([p.1], k)
    | None, None => None
    end
  end
with object_body (fuel : nat) (depth : Z) (l : list Z) : option (list (list Z * json) * list Z) :=
  match fuel with
  | O => None
  | S fuel =>
    k ← eat 34 (skip_space l);
    s ← string_body k;
    k' ← eat 58 (skip_space s.2);
    p ← value fuel depth k';
    match eat 44 (skip_space p.2), eat 125 (skip_space p.2) with
    | Some k'', _ => q ← object_body fuel depth k''; Some ((unquoteBytes s.1, p.1) :: q.1, q.2)
    | None, Some k'' => Some ([(unquoteBytes s.1, p.1)], k'')
    | None, None => None
    end
  end.

(** The syntax [json.Unmarshal] checks before it decodes: one value and
    nothing after it. *)
Definition scan (text : list Z) : option json :=
  p ← value (2 * length text) maxNestingDepth text;
  match skip_space p.2 with [] => Some p.1 | _ => None end.

(** ** The decoders, one per Go type; [Some None] is a [null] pointer *)

Definition decode_int64 (v : json) : option (option Z) :=
  match v with JNull => Some None | JNumber s => Some <$> ParseInt s | _ => None end.
Definition decode_bool (v : json) : option (option bool) :=
  match v with JNull => Some None | JBool b => Some (Some b) | _ => None end.
Definition decode_string (v : json) : option (option (list Z)) :=
  match v with JNull => Some None | JString s => Some (Some s) | _ => None end.
(** A [null] element or member leaves the zero value of its type. *)
Definition decode_strings (v : json) : option (option (list (list Z))) :=
  match v with
  | JNull => Some None
  | JArray l => Some <$> mapM (fun x => default [] <$> decode_string x) l
  | _ => None
  end.
Definition decode_int_map (v : json) : option (option (gmap (list Z) Z)) :=
  match v with
  | JNull => Some None
  | JObject m =>
    ms ← mapM (fun p => n ← decode_int64 p.2; Some (p.1, default 0 n)) m;
    Some (Some (list_to_map (reverse ms)))
  | _ => None
  end.
Definition Unmarshal {A} (decode : json -> option A) (text : list Z) : option A := scan text ≫= decode.

(** ** The encoder *)

Definition hex_low (d : Z) : Z := if d <? 10 then 48 + d else 87 + d.
Definition u_escape (r : Z) : list Z := [92; 117; hex_low (r / 4096); hex_low (r / 256 mod 16); hex_low (r / 16 mod 16); hex_low (r mod 16)].
(** [appendString] with HTML escaping, a piece of the string at a time. *)
Definition quoted (c : option Z * list Z) : list Z :=
  match c.1 with
  | None => u_escape RuneError
  | Some r =>
    if (r =? 92) || (r =? 34) then [92; r]
    else if r =? 8 then [92; 98] else if r =? 12 then [92; 102] else if r =? 10 then [92; 110]
    else if r =? 13 then [92; 114] else if r =? 9 then [92; 116]
    else if (r <? 32) || (r =? 60) || (r =? 62) || (r =? 38) || (r =? 8232) || (r =? 8233) then u_escape r
    else c.2
  end.
Definition quote (s : list Z) : list Z := 34 :: concat (quoted <$> chunks s) ++ [34].

Fixpoint joined (l : list (list Z)) : list Z :=
  match l with
  | [] => []
  | [x] => x
  | x :: l' => x ++ 44 :: joined l'
  end.
Fixpoint render (v : json) : list Z :=
  match v with
  | JNull => null_text
  | JBool b => if b then true_text else false_text
  | JNumber s => s
  | JString s => quote s
  | JArray l => 91 :: joined (render <$> l) ++ [93]
  | JObject m => 123 :: joined ((fun p => quote p.1 ++ 58 :: render p.2) <$> m) ++ [125]
  end.

(** [strconv.FormatInt(_, 10)]. *)
Definition FormatInt (n : Z) : list Z := bytes_of (pretty n).

(** [json.Marshal] of the same types; the keys of a map are sorted. *)
Definition of_int64 (n : Z) : json := JNumber (FormatInt n).
Definition of_strings (l : list (list Z)) : json := JArray (JString <$> l).
Definition key_le (a b : list Z) : Prop := id_le (string_of a) (string_of b).
#[global] Instance key_le_dec a b : Decision (key_le a b).
Proof. unfold key_le. apply _. Defined.
Definition of_int_map (m : gmap (list Z) Z) : json :=
  JObject ((fun k => (k, of_int64 (default 0 (m !! k)))) <$> merge_sort key_le (elements (dom m))).

(** ** String literals *)

(** A string of the program: the text of some runes. *)
Definition utf8_text (s : list Z) : Prop := exists rs, valid_runes rs /\ s = spelled rs.
Definition quoted_rune (r : Z) : list Z := quoted (Some r, encode_rune r).

Lemma string_body_plain l k : Forall (fun c => 32 <= c /\ c <> 34 /\ c <> 92) l ->
  string_body (l ++ k) = p ← string_body k; Some (l ++ p.1, p.2).
Proof.
  induction 1 as [|c l (Hc & H34 & H92) Hl IH]; [cbn; by destruct (string_body k) as [[]|]|]. cbn.
  rewrite (proj2 (Z.eqb_neq _ _) H34), (proj2 (Z.eqb_neq _ _) H92), (proj2 (Z.ltb_ge _ _) Hc), IH.
  by destruct (string_body k) as [[]|].
Qed.

(** The runes that are written as an escape are few; each reads back. *)
Definition escaped_runes : list Z :=
  [34; 92; 60; 62; 38; 8232; 8233] ++ [0; 1; 2; 3; 4; 5; 6; 7; 8; 9; 10; 11; 12; 13; 14; 15; 16; 17; 18; 19; 20; 21; 22; 23; 24; 25; 26; 27; 28; 29; 30; 31].
Definition escape_reads (r : Z) : Prop :=
  (forall k, string_body (quoted_rune r ++ k) = p ← string_body k; Some (quoted_rune r ++ p.1, p.2)) /\
  Forall (fun c => 0 <= c < 128) (quoted_rune r) /\ forall k, unquote (quoted_rune r ++ k) = r :: unquote k.
Ltac closed_hex :=
  cbn; try match goal with
  | |- context [hex4 ?a ?b ?c ?d] => let v := eval vm_compute in (hex4 a b c d) in change (hex4 a b c d) with v; cbn
  end.
Lemma escapes_read r : r ∈ escaped_runes -> escape_reads r.
Proof.
  assert (Hall : Forall escape_reads escaped_runes); [|by rewrite list.Forall_forall in Hall; apply Hall].
  unfold escaped_runes. cbn [app].
  repeat (apply list.Forall_cons; split; [split_and!;
    [intros k; closed_hex; by destruct (string_body k) as [[]|]|by apply (bool_decide_unpack _)|intros k; closed_hex; done]|]); constructor.
Qed.
Lemma rune_written r : valid_rune r = true ->
  r ∈ escaped_runes \/ quoted_rune r = encode_rune r /\ Forall (fun c => 32 <= c /\ c <> 34 /\ c <> 92) (encode_rune r) /\ r <> 92.
Proof.
  intros Hv. destruct (decide (r ∈ escaped_runes)) as [|Hn]; [by left|right].
  assert (Hr : 32 <= r).
  { destruct (decide (32 <= r)); [done|]. exfalso. apply Hn. unfold escaped_runes. apply elem_of_app. right.
    unfold valid_rune in Hv. bool_hyps. rewrite !list.elem_of_cons. lia. }
  unfold escaped_runes in Hn. apply not_elem_of_app in Hn as [Hn _]. rewrite !list.not_elem_of_cons in Hn.
  destruct Hn as (H34 & H92 & H60 & H62 & H38 & Hls & Hps & _). split_and!; [|..|done].
  - unfold quoted_rune, quoted. cbn [fst snd].
    repeat match goal with |- context [?a =? ?b] => rewrite (proj2 (Z.eqb_neq a b)) by lia end.
    by rewrite (proj2 (Z.ltb_ge r 32)) by lia.
  - eapply list.Forall_impl; [apply encode_rune_bytes|]. intros c [_ [->|Hc]]; lia.
Qed.

Lemma runes_ascii_app l k : Forall (fun c => 0 <= c < 128) l -> runes (l ++ k) = l ++ runes k.
Proof.
  induction 1 as [|c l Hc Hl IH]; [done|]. unfold runes in *. cbn. rewrite (proj2 (Z.ltb_lt c 128)) by lia. cbn. by rewrite IH.
Qed.
Lemma unquote_other r l : r <> 92 -> unquote (r :: l) = r :: unquote l.
Proof. intros Hr. cbn. by rewrite (proj2 (Z.eqb_neq _ _) Hr). Qed.

Definition quoted_body (rs : list Z) : list Z := concat (quoted_rune <$> rs).
Lemma quote_spelled rs : valid_runes rs -> quote (spelled rs) = 34 :: quoted_body rs ++ [34].
Proof. intros Hrs. unfold quote, quoted_body. by rewrite chunks_spelled, <- list_fmap_compose by done. Qed.

Lemma string_body_quoted rs k : valid_runes rs -> string_body (quoted_body rs ++ 34 :: k) = Some (quoted_body rs, k).
Proof.
  induction 1 as [|r rs Hr Hrs IH]; [done|].
  change (quoted_body (r :: rs)) with (quoted_rune r ++ quoted_body rs). rewrite <- (assoc_L app).
  destruct (rune_written r Hr) as [He|(-> & Hp & _)].
  - destruct (escapes_read r He) as [Hb _]. by rewrite Hb, IH.
  - by rewrite string_body_plain, IH.
Qed.
Lemma unquote_quoted rs : valid_runes rs -> unquote (runes (quoted_body rs)) = rs.
Proof.
  induction 1 as [|r rs Hr Hrs IH]; [done|].
  change (quoted_body (r :: rs)) with (quoted_rune r ++ quoted_body rs).
  destruct (rune_written r Hr) as [He|(-> & _ & H92)].
  - destruct (escapes_read r He) as (_ & Ha & Hu). by rewrite runes_ascii_app, Hu, IH.
  - unfold runes. rewrite chunks_encode by done. cbn [fmap list_fmap fst default]. fold (runes (quoted_body rs)).
    change (unquote (r :: runes (quoted_body rs)) = r :: rs). by rewrite unquote_other, IH.
Qed.
(** What is quoted reads back, whatever follows it. *)
Lemma quote_reads s : utf8_text s -> exists body, quote s = 34 :: body ++ [34] /\
  forall k, string_body (body ++ 34 :: k) = Some (body, k) /\ unquoteBytes body = s.
Proof.
  intros (rs & Hrs & ->). exists (quoted_body rs). split; [by apply quote_spelled|]. intros k'. split; [by apply string_body_quoted|].
  unfold unquoteBytes. by rewrite unquote_quoted.
Qed.

(** What is read is always a text of runes. *)
Lemma encode_rune_text r : exists r', valid_rune r' = true /\ encode_rune r = encode_rune r'.
Proof. destruct (valid_rune r) eqn:Hr; [by exists r|]. exists RuneError. split; [done|]. unfold encode_rune. by rewrite Hr. Qed.
Lemma unquoteBytes_text body : utf8_text (unquoteBytes body).
Proof.
  unfold unquoteBytes. induction (unquote (runes body)) as [|r rs IH]; [by exists []; split; [constructor|]|].
  destruct IH as (rs' & Hv & He). destruct (encode_rune_text r) as (r' & Hr & Hq). exists (r' :: rs'). split; [by constructor|].
  cbn. by rewrite He, Hq.
Qed.

(** ** Numerals *)

(** A text that does not go on with a number. *)
Definition ends_number (k : list Z) : Prop :=
  match k with c :: _ => is_decimal c = false /\ c <> 46 /\ c <> 101 /\ c <> 69 | [] => True end.
Definition number_text (s : list Z) : Prop :=
  (exists c t, s = c :: t /\ (c = 45 \/ is_decimal c = true)) /\ forall k, ends_number k -> number (s ++ k) = Some (s, k).

Lemma pretty_go_head x s : (0 < x)%N -> exists c t, bytes_of (pretty_N_go x s) = c :: t /\ c <> 48.
Proof.
  revert s. induction (N.lt_wf_0 x) as [x _ IH]. intros s Hx. rewrite pretty_N_go_step by done.
  destruct (decide (x / 10 = 0)%N) as [H0|H0].
  - rewrite H0, pretty_N_go_0. assert (x < 10)%N by by apply N.div_small_iff. rewrite N.mod_small by done.
    assert (Hc : (x = 1 \/ x = 2 \/ x = 3 \/ x = 4 \/ x = 5 \/ x = 6 \/ x = 7 \/ x = 8 \/ x = 9)%N) by lia.
    repeat destruct Hc as [Hc|Hc]; subst x; eexists _, _; split; reflexivity || done.
  - apply IH; [by apply N.div_lt|by apply N.neq_0_lt_0].
Qed.

Lemma span_all f l k : Forall (fun c => f c = true) l -> match k with c :: _ => f c = false | [] => True end -> span f (l ++ k) = (l, k).
Proof.
  intros Hl Hk. induction Hl as [|c l Hc Hl IH]; cbn; [|by rewrite Hc, IH].
  destruct k as [|c k]; cbn; [done|by rewrite Hk].
Qed.
Lemma decimals_read l k : l <> [] -> Forall is_digit l -> ends_number k -> some_decimals (l ++ k) = Some (l, k).
Proof.
  intros Hne Hl Hk. unfold some_decimals. rewrite (span_all is_decimal).
  - by destruct l.
  - eapply list.Forall_impl; [done|]. unfold is_digit, is_decimal, between. intros; simpl in *; lia.
  - destruct k; [done|]. by destruct Hk.
Qed.
Lemma number_rest_end k : ends_number k -> fraction k = Some ([], k) /\ exponent k = Some ([], k).
Proof.
  destruct k as [|c k]; [done|]. intros (_ & Hp & He & HE). cbn.
  by rewrite (proj2 (Z.eqb_neq _ _) Hp), (proj2 (Z.eqb_neq _ _) He), (proj2 (Z.eqb_neq _ _) HE).
Qed.
Lemma magnitude_digits m : 0 < m -> exists c t, bytes_of (pretty m) = c :: t /\ c <> 48 /\ Forall is_digit (c :: t) /\ digits 0 (c :: t) = Some m.
Proof.
  intros Hm. assert (Hp : exists x, (0 < x)%N /\ m = Z.of_N x) by (exists (Z.to_N m); lia).
  destruct Hp as (x & Hx & ->). replace (pretty (Z.of_N x)) with (pretty_N_go x EmptyString) by by destruct x.
  pose proof (digits_go x EmptyString Hx) as Hd. destruct (pretty_go_head x EmptyString Hx) as (c & t & He & Hc).
  rewrite He in Hd. change (digits 0 (c :: t) = Some (Z.of_N x)) in Hd. exists c, t. split_and!; [done..|by eapply digits_all|done].
Qed.
Lemma ParseInt_cases c t : is_digit c ->
  ParseInt (c :: t) = (n ← digits 0 (c :: t); if n <? 2 ^ 63 then Some n else None) /\
  ParseInt (45 :: c :: t) = (n ← digits 0 (c :: t); if n <=? 2 ^ 63 then Some (- n) else None).
Proof.
  intros Hc. unfold is_digit in Hc. assert (Hd : c = 48 \/ c = 49 \/ c = 50 \/ c = 51 \/ c = 52 \/ c = 53 \/ c = 54 \/ c = 55 \/ c = 56 \/ c = 57) by lia.
  repeat destruct Hd as [Hd|Hd]; subst c; split; reflexivity.
Qed.

(** A Go integer is written as a number literal and read back. *)
Lemma FormatInt_neg m : 0 < m -> FormatInt (- m) = 45 :: FormatInt m.
Proof. by destruct m. Qed.
Lemma integer_reads m : 0 < m -> exists c t, FormatInt m = c :: t /\ is_digit c /\
  (forall k, ends_number k -> integer_part (FormatInt m ++ k) = Some (FormatInt m, k)) /\ digits 0 (FormatInt m) = Some m.
Proof.
  intros Hm. unfold FormatInt. destruct (magnitude_digits m Hm) as (c & t & -> & Hc & Hd & Hv). exists c, t.
  split_and!; [done|by apply list.Forall_cons in Hd as [? _]| |done]. intros k Hk. cbn. rewrite (proj2 (Z.eqb_neq _ _) Hc).
  change (c :: t ++ k) with ((c :: t) ++ k). by apply decimals_read.
Qed.
Lemma number_unsigned s c t k : s = c :: t -> is_digit c -> ends_number k -> integer_part (s ++ k) = Some (s, k) -> number (s ++ k) = Some (s, k).
Proof.
  intros -> Hc Hk Hi. unfold number. destruct (number_rest_end k Hk) as [Hf He]. cbn [app].
  unfold is_digit in Hc. rewrite (proj2 (Z.eqb_neq c 45)) by lia. change (c :: t ++ k) with ((c :: t) ++ k). rewrite Hi. cbn [mbind option_bind fst snd].
  rewrite Hf. cbn [mbind option_bind fst snd]. rewrite He. cbn [mbind option_bind fst snd]. by rewrite !app_nil_r.
Qed.
Lemma number_negative s k : ends_number k -> integer_part (s ++ k) = Some (s, k) -> number (45 :: s ++ k) = Some (45 :: s, k).
Proof.
  intros Hk Hi. unfold number. destruct (number_rest_end k Hk) as [Hf He]. cbn [Z.eqb Pos.eqb]. rewrite Hi. cbn [mbind option_bind fst snd].
  rewrite Hf. cbn [mbind option_bind fst snd]. rewrite He. cbn [mbind option_bind fst snd]. by rewrite !app_nil_r.
Qed.
Lemma FormatInt_text n : in_int64 n -> number_text (FormatInt n) /\ ParseInt (FormatInt n) = Some n.
Proof.
  unfold in_int64, int64_min, int64_max. intros Hn. destruct (Z.lt_trichotomy n 0) as [Hlt|[->|Hgt]].
  - replace n with (- (- n)) by lia. assert (Hm : 0 < - n) by lia. set (m := - n) in *. rewrite FormatInt_neg by done.
    destruct (integer_reads m Hm) as (c & t & He & Hc & Hr & Hv). split.
    + split; [exists 45, (FormatInt m); by split; [|left]|]. intros k Hk. by apply number_negative, Hr.
    + rewrite He in *. rewrite (proj2 (ParseInt_cases c t Hc)), Hv. cbn. by rewrite (proj2 (Z.leb_le m _)) by lia.
  - split; [|done]. split; [exists 48, []; by split; [|right]|]. intros k Hk. by apply (number_unsigned [48] 48 []).
  - destruct (integer_reads n Hgt) as (c & t & He & Hc & Hr & Hv). split.
    + split; [exists c, t; split; [done|right]; unfold is_digit in Hc; unfold is_decimal, between; lia|]. intros k Hk.
      eapply number_unsigned; eauto.
    + rewrite He in *. rewrite (proj1 (ParseInt_cases c t Hc)), Hv. cbn. by rewrite (proj2 (Z.ltb_lt n _)) by lia.
Qed.

(** ** Whole texts *)

(** A value the encoder writes, its brackets at most [d] deep. *)
Fixpoint writable (d : Z) (v : json) : Prop :=
  match v with
  | JNull | JBool _ => True
  | JNumber s => number_text s
  | JString s => utf8_text s
  | JArray l => 0 < d /\ foldr (fun x P => writable (d - 1) x /\ P) True l
  | JObject m => 0 < d /\ foldr (fun p P => utf8_text p.1 /\ writable (d - 1) p.2 /\ P) True m
  end.

Lemma render_head d v : writable d v -> exists c t, render v = c :: t /\ json_space c = false /\ c <> 93.
Proof.
  destruct v as [|[]|s|s|l|m]; cbn [writable render]; [by eexists _, _..| |by eexists _, _|by eexists _, _|by eexists _, _].
  intros [(c & t & -> & Hc) _]. exists c, t. split_and!; [done| |]; unfold json_space, is_decimal, between in *; lia.
Qed.
Lemma skip_render d v k : writable d v -> skip_space (render v ++ k) = render v ++ k.
Proof. intros Hv. destruct (render_head d v Hv) as (c & t & -> & Hc & _). cbn. by rewrite Hc. Qed.
Definition closes (k : list Z) : Prop := match k with c :: _ => c = 44 \/ c = 93 \/ c = 125 | [] => True end.
Lemma closes_number k : closes k -> ends_number k.
Proof. destruct k as [|c k]; [done|]. cbn. unfold is_decimal, between. lia. Qed.

Lemma joined_cons x y l : joined (x :: y :: l) = x ++ 44 :: joined (y :: l).
Proof. done. Qed.

Definition member (p : list Z * json) : list Z := quote p.1 ++ 58 :: render p.2.
Definition value_reads (fuel : nat) : Prop := forall d v k, writable d v -> closes k ->
  (2 * length (render v) <= S fuel)%nat -> value fuel d (render v ++ k) = Some (v, k).
Definition elements_read (fuel : nat) : Prop := forall d l k, l <> [] -> foldr (fun x P => writable d x /\ P) True l ->
  (2 * length (joined (render <$> l)) <= fuel)%nat -> array_body fuel d (joined (render <$> l) ++ 93 :: k) = Some (l, k).
Definition members_read (fuel : nat) : Prop := forall d m k, m <> [] ->
  foldr (fun p P => utf8_text p.1 /\ writable d p.2 /\ P) True m ->
  (2 * length (joined (member <$> m)) <= fuel)%nat -> object_body fuel d (joined (member <$> m) ++ 125 :: k) = Some (m, k).

Lemma elements_step fuel : value_reads fuel -> elements_read fuel -> elements_read (S fuel).
Proof.
  intros Hv Hl d [|x l] k; [done|]. intros _ [Hx Hr] Hf. cbn [array_body].
  destruct l as [|y l].
  - cbn [fmap list_fmap joined] in *. rewrite Hv by (done || (cbn; lia)). done.
  - cbn [fmap list_fmap] in *. rewrite joined_cons in *. rewrite length_app in Hf. cbn [length] in Hf.
    rewrite <- (assoc_L app). rewrite Hv by (done || (cbn; lia)). cbn [mbind option_bind fst snd app skip_space drop_while json_space].
    cbn -[array_body joined]. change (render y :: (render <$> l)) with (render <$> (y :: l)) in *.
    rewrite Hl by (done || lia). done.
Qed.

Lemma members_step fuel : value_reads fuel -> members_read fuel -> members_read (S fuel).
Proof.
  intros Hv Hl d [|[s x] m] k; [done|]. intros _ (Hs & Hx & Hr) Hf. cbn [fst snd] in *.
  destruct (quote_reads s Hs) as (body & Hq & Hb).
  assert (Hm : member (s, x) = 34 :: body ++ [34] ++ 58 :: render x).
  { unfold member. cbn [fst snd]. rewrite Hq. cbn. by rewrite <- (assoc_L app). }
  assert (Hread : forall k', closes k' -> (2 * length (member (s, x)) <= S fuel)%nat ->
    object_body (S fuel) d (member (s, x) ++ k') =
    match eat 44 (skip_space k'), eat 125 (skip_space k') with
    | Some k'', _ => q ← object_body fuel d k''; Some ((s, x) :: q.1, q.2)
    | None, Some k'' => Some ([(s, x)], k'')
    | None, None => None
    end).
  { intros k' Hk' Hlen. rewrite Hm in *. cbn [object_body app skip_space drop_while json_space Z.eqb Pos.eqb orb eat mbind option_bind].
    rewrite <- ?(assoc_L app). change ((34 :: 58 :: render x) ++ k') with (34 :: 58 :: render x ++ k'). destruct (Hb (58 :: render x ++ k')) as [-> Hu]. cbn [mbind option_bind fst snd app]. rewrite Hu.
    cbn [skip_space drop_while json_space Z.eqb Pos.eqb orb eat mbind option_bind]. rewrite Hv; [done|done|done|].
    cbn [length] in Hlen. rewrite !length_app in Hlen. cbn [length] in Hlen. lia. }
  destruct m as [|p m].
  - cbn [fmap list_fmap joined] in *. by rewrite Hread by (done || (cbn; lia)).
  - cbn [fmap list_fmap] in *. rewrite joined_cons in *. rewrite length_app in Hf. cbn [length] in Hf.
    rewrite <- (assoc_L app). rewrite Hread; [|by left|lia].
    change (member p :: (member <$> m)) with (member <$> (p :: m)) in *.
    cbn -[object_body joined member]. change (member p :: (member <$> m)) with (member <$> (p :: m)) in *.
    rewrite Hl by (done || lia). done.
Qed.

Lemma value_number fuel d c t : c = 45 \/ is_decimal c = true ->
  value (S fuel) d (c :: t) = p ← number (c :: t); Some (JNumber p.1, p.2).
Proof.
  intros Hc. assert (Hx : c = 45 \/ 48 <= c <= 57) by (unfold is_decimal, between in Hc; lia).
  assert (Hs : json_space c = false) by (unfold json_space; lia).
  cbn [value skip_space drop_while]. rewrite Hs.
  rewrite (proj2 (Z.eqb_neq c 34)), (proj2 (Z.eqb_neq c 123)), (proj2 (Z.eqb_neq c 91)) by lia.
  replace ((c =? 45) || is_decimal c) with true; [done|]. unfold is_decimal, between. lia.
Qed.
Lemma value_step fuel : elements_read fuel -> members_read fuel -> value_reads (S fuel).
Proof.
  intros Hl Hm d v k Hv Hk Hf.
  destruct v as [|[]|s|s|l|m]; cbn [writable render] in *; [done..| | | |].
  - destruct Hv as [(c & t & -> & Hc) Hn]. cbn [app]. rewrite value_number by done.
    change (c :: t ++ k) with ((c :: t) ++ k). by rewrite Hn by by apply closes_number.
  - destruct (quote_reads s Hv) as (body & -> & Hb). cbn [app]. rewrite <- (assoc_L app). cbn [value app skip_space drop_while json_space Z.eqb Pos.eqb orb]. destruct (Hb k) as [-> Hu]. cbn [mbind option_bind fst snd]. by rewrite Hu.
  - destruct Hv as [Hd Hv]. cbn [value app skip_space drop_while json_space Z.eqb Pos.eqb orb].
    rewrite (proj2 (Z.leb_gt d 0)) by done. rewrite <- (assoc_L app).
    cbn [length] in Hf. rewrite length_app in Hf. cbn [length] in Hf. destruct l as [|x l]; [done|].
    assert (He : eat 93 (skip_space (joined (render <$> x :: l) ++ [93] ++ k)) = None).
    { destruct Hv as [Hx _]. destruct (render_head _ _ Hx) as (c & t & Hr & Hs & Hc).
      assert (Hj : exists t', joined (render <$> x :: l) = c :: t').
      { cbn. rewrite Hr. destruct l; cbn; eauto. }
      destruct Hj as (t' & ->). cbn. rewrite Hs. cbn. by rewrite (proj2 (Z.eqb_neq _ _) Hc). }
    rewrite He. cbn [app]. rewrite Hl by (done || lia). done.
  - destruct Hv as [Hd Hv]. cbn [value app skip_space drop_while json_space Z.eqb Pos.eqb orb].
    rewrite (proj2 (Z.leb_gt d 0)) by done. rewrite <- (assoc_L app). fold member.
    cbn [length] in Hf. rewrite length_app in Hf. cbn [length] in Hf. destruct m as [|p m]; [done|].
    change ((fun p => quote p.1 ++ 58 :: render p.2) <$> p :: m) with (member <$> p :: m) in *.
    assert (He : eat 125 (skip_space (joined (member <$> p :: m) ++ [125] ++ k)) = None).
    { cbn [fmap list_fmap]. by destruct m. }
    rewrite He. cbn [app]. rewrite Hm by (done || lia). done.
Qed.

Lemma bodies_read fuel : value_reads fuel /\ elements_read fuel /\ members_read fuel.
Proof.
  induction fuel as [|fuel (Hv & Hl & Hm)].
  - split_and!.
    + intros d v k Hv _ Hf. destruct (render_head d v Hv) as (c & t & He & _). rewrite He in Hf. simpl in Hf. lia.
    + intros d [|x l] k; [done|]. intros _ [Hx _] Hf. exfalso. destruct (render_head d x Hx) as (c & t & He & _).
      cbn in Hf. rewrite He in Hf. destruct l; simpl in Hf; lia.
    + intros d [|p m] k; [done|]. intros _ _ Hf. exfalso. cbn in Hf. destruct m; simpl in Hf; lia.
  - split_and!; [by apply value_step|by apply elements_step|by apply members_step].
Qed.

(** What the encoder writes is one value of the scanner's language, read back
    as it was. *)
Lemma scan_render v : writable maxNestingDepth v -> scan (render v) = Some v.
Proof.
  intros Hv. unfold scan. destruct (bodies_read (2 * length (render v))) as (Hr & _).
  rewrite <- (app_nil_r (render v)) at 2. rewrite Hr by (done || lia). done.
Qed.

(** ** What is read: texts and integers *)

Fixpoint texts (v : json) : Prop :=
  match v with
  | JString s => utf8_text s
  | JArray l => foldr (fun x P => texts x /\ P) True l
  | JObject m => foldr (fun p P => utf8_text p.1 /\ texts p.2 /\ P) True m
  | _ => True
  end.
Definition texts_read (fuel : nat) : Prop :=
  (forall d l v k, value fuel d l = Some (v, k) -> texts v) /\
  (forall d l x k, array_body fuel d l = Some (x, k) -> texts (JArray x)) /\
  (forall d l m k, object_body fuel d l = Some (m, k) -> texts (JObject m)).
Lemma scanned_texts fuel : texts_read fuel.
Proof.
  induction fuel as [|fuel (Hv & Hl & Hm)]; [done|]. split_and!; intros d l x k; cbn [value array_body object_body].
  - destruct (skip_space l) as [|c t]; [done|].
    destruct (c =? 34).
    { destruct (string_body t) as [[b r]|]; [|done]. intros [= <- _]. apply unquoteBytes_text. }
    destruct (c =? 123).
    { destruct (d <=? 0); [done|]. destruct (eat 125 _); [by intros [= <- _]|]. destruct (object_body fuel _ t) as [[m r]|] eqn:He; [|done].
      intros [= <- _]. by eapply Hm. }
    destruct (c =? 91).
    { destruct (d <=? 0); [done|]. destruct (eat 93 _); [by intros [= <- _]|]. destruct (array_body fuel _ t) as [[m r]|] eqn:He; [|done].
      intros [= <- _]. by eapply Hl. }
    destruct (_ || _); [destruct (number _) as [[]|]; [|done]; by intros [= <- _]|].
    repeat case_match; by intros [= <- _].
  - destruct (value fuel d l) as [[v r]|] eqn:He; [|done]. apply Hv in He. cbn [mbind option_bind fst snd].
    destruct (eat 44 _) as [t|].
    + destruct (array_body fuel d t) as [[l' r']|] eqn:Hb; [|done]. apply Hl in Hb. by intros [= <- _].
    + destruct (eat 93 _); [|done]. by intros [= <- _].
  - destruct (eat 34 _) as [t|]; [|done]. cbn [mbind option_bind]. destruct (string_body t) as [[b r]|]; [|done]. cbn [mbind option_bind fst snd].
    destruct (eat 58 _) as [t'|]; [|done]. cbn [mbind option_bind].
    destruct (value fuel d t') as [[v r']|] eqn:He; [|done]. apply Hv in He. cbn [mbind option_bind fst snd].
    pose proof (unquoteBytes_text b) as Hb. destruct (eat 44 _) as [t2|].
    + destruct (object_body fuel d t2) as [[l' r2]|] eqn:Hx; [|done]. apply Hm in Hx. by intros [= <- _].
    + destruct (eat 125 _); [|done]. by intros [= <- _].
Qed.
Lemma scan_texts text v : scan text = Some v -> texts v.
Proof.
  unfold scan. destruct (value _ _ _) as [[v' k]|] eqn:Hv; [|done]. cbn. destruct (skip_space k); [|done]. intros [= <-].
  by eapply (proj1 (scanned_texts _)).
Qed.

(** ** The fuel of the scanner is enough *)

Lemma skip_space_length l : (length (skip_space l) <= length l)%nat.
Proof. unfold skip_space. induction l as [|c l IH]; cbn [drop_while]; [done|]. destruct (json_space c); cbn [length]; lia. Qed.
Lemma eat_length c l k : eat c l = Some k -> length l = S (length k).
Proof. destruct l as [|x l]; [done|]. cbn. destruct (x =? c); [|done]. by intros [= ->]. Qed.
Lemma string_body_length l b k : string_body l = Some (b, k) -> (length k < length l)%nat.
Proof.
  remember (length l) as n eqn:Hn. revert l b k Hn. induction (lt_wf n) as [n _ IH]. intros [|c l1] b k ->; [done|]. cbn.
  assert (Hrec : forall l' b' k', (length l' < S (length l1))%nat -> string_body l' = Some (b', k') -> (length k' < S (length l1))%nat).
  { intros l' b' k' Hl Hs. specialize (IH (length l') Hl l' b' k' eq_refl Hs). lia. }
  destruct (c =? 34); [intros [= _ <-]; lia|]. destruct (c =? 92).
  - destruct l1 as [|e l2]; [done|]. destruct (e =? 117).
    + destruct l2 as [|h1 [|h2 [|h3 [|h4 l3]]]]; try done. destruct (hex4 _ _ _ _); [|done]. cbn.
      destruct (string_body l3) as [[b' k']|] eqn:Hs; [|done]. intros [= _ <-]. apply Hrec in Hs; simpl in *; lia.
    + destruct (escaped e); [|done]. cbn. destruct (string_body l2) as [[b' k']|] eqn:Hs; [|done]. intros [= _ <-]. apply Hrec in Hs; simpl in *; lia.
  - destruct (c <? 32); [done|]. destruct (string_body l1) as [[b' k']|] eqn:Hs; [|done]. intros [= _ <-]. apply Hrec in Hs; simpl in *; lia.
Qed.
Lemma span_length f l : (length (span f l).1 + length (span f l).2 = length l)%nat.
Proof. induction l as [|c l IH]; [done|]. cbn. destruct (f c); [|done]. destruct (span f l). simpl in *. lia. Qed.
Lemma some_decimals_length l s k : some_decimals l = Some (s, k) -> (length k < length l)%nat.
Proof.
  unfold some_decimals. pose proof (span_length is_decimal l) as Hs. destruct (span is_decimal l) as [[|c p] r]; [done|].
  intros [= _ <-]. simpl in Hs. lia.
Qed.
Lemma number_length l s k : number l = Some (s, k) -> (length k < length l)%nat.
Proof.
  assert (Hi : forall l s k, integer_part l = Some (s, k) -> (length k < length l)%nat).
  { intros [|c t] s' k'; [done|]. cbn [integer_part]. destruct (c =? 48); [intros [= _ <-]; simpl; lia|apply some_decimals_length]. }
  assert (Hf : forall l s k, fraction l = Some (s, k) -> (length k <= length l)%nat).
  { intros [|c t] s' k'; cbn [fraction]; [by intros [= _ <-]|]. destruct (c =? 46); [|by intros [= _ <-]].
    destruct (some_decimals t) as [[p r]|] eqn:Hd; [|done]. apply some_decimals_length in Hd. intros [= _ <-]. simpl. lia. }
  assert (He : forall l s k, exponent l = Some (s, k) -> (length k <= length l)%nat).
  { intros [|c t] s' k'; cbn [exponent]; [by intros [= _ <-]|]. destruct (_ || _); [|by intros [= _ <-]].
    assert (Hsg : (length (match t with s :: k => if ((s =? 43) || (s =? 45))%Z then ([s], k) else ([], t) | [] => ([], []) end).2 <= length t)%nat).
    { destruct t as [|a t]; [done|]. destruct (_ || _); simpl; lia. }
    destruct (match t with [] => _ | _ => _ end) as [sg r]. simpl in Hsg.
    destruct (some_decimals r) as [[p r']|] eqn:Hd; [|done]. apply some_decimals_length in Hd. intros [= _ <-]. simpl. lia. }
  unfold number.
  assert (Hsg : (length (match l with c :: k => if (c =? 45)%Z then ([c], k) else ([], l) | [] => ([], []) end).2 <= length l)%nat).
  { destruct l as [|a l]; [done|]. destruct (_ =? _); simpl; lia. }
  destruct (match l with [] => _ | _ => _ end) as [sg r]. simpl in Hsg.
  destruct (integer_part r) as [[i r1]|] eqn:H1; [|done]. cbn [mbind option_bind fst snd].
  destruct (fraction r1) as [[f r2]|] eqn:H2; [|done]. cbn [mbind option_bind fst snd].
  destruct (exponent r2) as [[e r3]|] eqn:H3; [|done]. cbn [mbind option_bind fst snd]. intros [= _ <-].
  apply Hi in H1. apply Hf in H2. apply He in H3. lia.
Qed.

Lemma bodies_shrink fuel :
  (forall d l v k, value fuel d l = Some (v, k) -> (length k < length l)%nat) /\
  (forall d l x k, array_body fuel d l = Some (x, k) -> (length k < length l)%nat) /\
  (forall d l m k, object_body fuel d l = Some (m, k) -> (length k < length l)%nat).
Proof.
  induction fuel as [|fuel (Hv & Hl & Hm)]; [done|].
  assert (Hsk := skip_space_length).
  split_and!; intros d l x k; cbn [value array_body object_body].
  - specialize (Hsk l). destruct (skip_space l) as [|c t] eqn:Hs; [done|]. simpl in Hsk.
    destruct (c =? 34).
    { destruct (string_body t) as [[b r]|] eqn:He; [|done]. apply string_body_length in He. intros [= _ <-]. lia. }
    destruct (c =? 123).
    { destruct (d <=? 0); [done|]. pose proof (skip_space_length t). destruct (eat 125 _) eqn:He; [apply eat_length in He; intros [= _ <-]; lia|].
      destruct (object_body fuel _ t) as [[m r]|] eqn:Hb; [|done]. apply Hm in Hb. intros [= _ <-]. lia. }
    destruct (c =? 91).
    { destruct (d <=? 0); [done|]. pose proof (skip_space_length t). destruct (eat 93 _) eqn:He; [apply eat_length in He; intros [= _ <-]; lia|].
      destruct (array_body fuel _ t) as [[m r]|] eqn:Hb; [|done]. apply Hl in Hb. intros [= _ <-]. lia. }
    destruct (_ || _).
    { destruct (number _) as [[s r]|] eqn:Hn; [|done]. apply number_length in Hn. intros [= _ <-]. simpl in Hn. lia. }
    destruct (strip_prefix true_text _) as [r|] eqn:Eq1; [|destruct (strip_prefix false_text _) as [r|] eqn:Eq2;
      [|destruct (strip_prefix null_text _) as [r|] eqn:Eq3; [|done]]]; intros [= _ <-];
      [apply strip_prefix_Some in Eq1; rename Eq1 into He|apply strip_prefix_Some in Eq2; rename Eq2 into He|apply strip_prefix_Some in Eq3; rename Eq3 into He];
      apply (f_equal length) in He; rewrite length_app in He; simpl in He; lia.
  - destruct (value fuel d l) as [[v r]|] eqn:He; [|done]. apply Hv in He. cbn [mbind option_bind fst snd]. specialize (Hsk r).
    destruct (eat 44 _) as [t|] eqn:Eq1; [apply eat_length in Eq1|].
    + destruct (array_body fuel d t) as [[l' r']|] eqn:Hb; [|done]. apply Hl in Hb. intros [= _ <-]. lia.
    + destruct (eat 93 _) eqn:Eq2; [|done]. apply eat_length in Eq2. intros [= _ <-]. lia.
  - pose proof (Hsk l). destruct (eat 34 _) as [t|] eqn:Eq1; [apply eat_length in Eq1|done]. cbn [mbind option_bind].
    destruct (string_body t) as [[b r]|] eqn:Hs; [apply string_body_length in Hs|done]. cbn [mbind option_bind fst snd].
    pose proof (Hsk r). destruct (eat 58 _) as [t'|] eqn:Eq2; [apply eat_length in Eq2|done]. cbn [mbind option_bind].
    destruct (value fuel d t') as [[v r']|] eqn:He; [|done]. apply Hv in He. cbn [mbind option_bind fst snd]. pose proof (Hsk r').
    destruct (eat 44 _) as [t2|] eqn:Eq3; [apply eat_length in Eq3|].
    + destruct (object_body fuel d t2) as [[l' r2]|] eqn:Hx; [|done]. apply Hm in Hx. intros [= _ <-]. lia.
    + destruct (eat 125 _) eqn:Eq4; [|done]. apply eat_length in Eq4. intros [= _ <-]. lia.
Qed.

(** Any fuel from twice the length of the text on gives the same answer: the
    scanner never stops for want of it. *)
Definition fuel_suffices (n : nat) : Prop :=
  forall d l f f', (length l <= n)%nat ->
    ((2 * length l <= f)%nat -> (2 * length l <= f')%nat -> value f d l = value f' d l) /\
    ((2 * length l < f)%nat -> (2 * length l < f')%nat -> array_body f d l = array_body f' d l /\ object_body f d l = object_body f' d l).
Lemma scanner_fuel n : fuel_suffices n.
Proof.
  induction (lt_wf n) as [n _ IH]. intros d l f f' Hn.
  assert (Hin : forall d k g g', (length k < length l)%nat -> (2 * length k < g)%nat -> (2 * length k < g')%nat ->
    array_body g d k = array_body g' d k /\ object_body g d k = object_body g' d k).
  { intros d' k g g' Hk. apply (IH (length k)); lia. }
  assert (Hval : forall f f' d, (2 * length l <= f)%nat -> (2 * length l <= f')%nat -> value f d l = value f' d l).
  { clear f f'. intros f f' d' Hf Hf'. pose proof (skip_space_length l) as Hs.
    destruct f as [|f], f' as [|f']; [done|destruct l; [done|simpl in *; lia]..|]. cbn [value].
    destruct (skip_space l) as [|c t]; [done|]. simpl in Hs.
    destruct (Hin (d' - 1) t f f') as [-> ->]; [lia..|]. done. }
  split; [by apply Hval|]. intros Hf Hf'. destruct f as [|f], f' as [|f']; try lia. cbn [array_body object_body].
  rewrite (Hval f f' d) by lia. split.
  - destruct (value f' d l) as [[v r]|] eqn:Hv; [|done]. apply (bodies_shrink f') in Hv. cbn [mbind option_bind fst snd].
    pose proof (skip_space_length r). destruct (eat 44 _) as [t|] eqn:He; [|done]. apply eat_length in He.
    by destruct (Hin d t f f') as [-> _]; [lia..|].
  - pose proof (skip_space_length l). destruct (eat 34 _) as [t|] eqn:Eq1; [apply eat_length in Eq1|done]. cbn [mbind option_bind].
    destruct (string_body t) as [[b r]|] eqn:Hs; [apply string_body_length in Hs|done]. cbn [mbind option_bind fst snd].
    pose proof (skip_space_length r). destruct (eat 58 _) as [t'|] eqn:Eq2; [apply eat_length in Eq2|done]. cbn [mbind option_bind].
    assert (value f d t' = value f' d t') as -> by (apply (IH (length t')); lia).
    destruct (value f' d t') as [[v r']|] eqn:He; [|done]. apply (bodies_shrink f') in He. cbn [mbind option_bind fst snd].
    pose proof (skip_space_length r'). destruct (eat 44 _) as [t2|] eqn:Eq3; [|done]. apply eat_length in Eq3.
    by destruct (Hin d t2 f f') as [_ ->]; [lia..|].
Qed.
Theorem scan_fuel text fuel : (2 * length text <= fuel)%nat ->
  scan text = (p ← value fuel maxNestingDepth text; match skip_space p.2 with [] => Some p.1 | _ => None end).
Proof. intros Hf. unfold scan. by destruct (scanner_fuel (length text) maxNestingDepth text (2 * length text)%nat fuel (le_n _)) as [<- _]. Qed.

(** ** Round trips, one per Go type *)

Lemma Unmarshal_render {A} (decode : json -> option A) v : writable maxNestingDepth v -> Unmarshal decode (render v) = decode v.
Proof. intros Hv. unfold Unmarshal. by rewrite scan_render. Qed.

Lemma int64_roundtrip n : in_int64 n -> Unmarshal decode_int64 (FormatInt n) = Some (Some n).
Proof.
  intros Hn. destruct (FormatInt_text n Hn) as [Ht Hp]. change (FormatInt n) with (render (of_int64 n)).
  rewrite Unmarshal_render by done. cbn. by rewrite Hp.
Qed.
Lemma bool_roundtrip b : Unmarshal decode_bool (render (JBool b)) = Some (Some b).
Proof. by rewrite Unmarshal_render. Qed.
Lemma string_roundtrip s : utf8_text s -> Unmarshal decode_string (quote s) = Some (Some s).
Proof. intros Hs. change (quote s) with (render (JString s)). by rewrite Unmarshal_render. Qed.
Lemma foldr_and {A} (P : A -> Prop) l : Forall P l -> foldr (fun x Q => P x /\ Q) True l.
Proof. by induction 1. Qed.
Lemma strings_roundtrip l : Forall utf8_text l -> Unmarshal decode_strings (render (of_strings l)) = Some (Some l).
Proof.
  intros Hl. rewrite Unmarshal_render.
  - unfold of_strings. cbn. assert (mapM (fun x => default [] <$> decode_string x) (JString <$> l) = Some l) as ->; [|done].
    clear Hl. induction l as [|s l IH]; [done|]. cbn. by rewrite IH.
  - split; [done|]. unfold of_strings. by apply foldr_and, list.Forall_fmap.
Qed.

Definition map_texts (m : gmap (list Z) Z) : Prop := forall k n, m !! k = Some n -> utf8_text k /\ in_int64 n.
Definition entries (m : gmap (list Z) Z) : list (list Z * Z) :=
  (fun k => (k, default 0 (m !! k))) <$> merge_sort key_le (elements (dom m)).
Lemma entries_spec m : entries m ≡ₚ map_to_list m.
Proof.
  unfold entries. rewrite merge_sort_Permutation. assert (elements (dom m) ≡ₚ (map_to_list m).*1) as ->.
  { apply NoDup_Permutation; [apply NoDup_elements|apply NoDup_fst_map_to_list|]. intros k. rewrite elem_of_elements, elem_of_dom.
    rewrite list_elem_of_fmap. split.
    - intros [n Hn]. exists (k, n). by rewrite elem_of_map_to_list.
    - intros ([k' n] & -> & Hn). exists n. by apply elem_of_map_to_list in Hn. }
  rewrite <- list_fmap_compose. rewrite <- (list_fmap_id (map_to_list m)) at 2. apply Permutation_refl', list_fmap_ext. intros i [k n] Hi. apply list_elem_of_lookup_2, elem_of_map_to_list in Hi. cbn. by rewrite Hi.
Qed.
Lemma entries_written m : of_int_map m = JObject ((fun p => (p.1, of_int64 p.2)) <$> entries m).
Proof. unfold of_int_map, entries. by rewrite <- list_fmap_compose. Qed.
Lemma int_map_roundtrip m : map_texts m -> Unmarshal decode_int_map (render (of_int_map m)) = Some (Some m).
Proof.
  intros Hm. rewrite entries_written. pose proof (entries_spec m) as He.
  assert (Hall : Forall (fun p => utf8_text p.1 /\ in_int64 p.2) (entries m)).
  { rewrite He. apply list.Forall_forall. intros [k n] Hin%elem_of_map_to_list. by apply (Hm k n). }
  assert (Hd : list_to_map (reverse (entries m)) = m).
  { rewrite <- (list_to_map_to_list m) at 2. apply list_to_map_proper.
    - rewrite reverse_Permutation, He. apply NoDup_fst_map_to_list.
    - by rewrite reverse_Permutation. }
  clear Hm He. rewrite Unmarshal_render.
  - cbn. assert (mapM (fun p => n ← decode_int64 p.2; Some (p.1, default 0 n)) ((fun p => (p.1, of_int64 p.2)) <$> entries m) = Some (entries m)) as ->.
    { clear Hd. induction Hall as [|[k n] l [Hk Hn] Hl IH]; [done|]. cbn. destruct (FormatInt_text n Hn) as [_ ->]. cbn. by rewrite IH. }
    cbn. by rewrite Hd.
  - split; [done|]. clear Hd. induction Hall as [|[k n] l [Hk Hn] Hl IH]; [done|]. cbn. split_and!; [done| |done]. by apply FormatInt_text.
Qed.

(** ** What the decoders accept can be written back *)

Lemma decoded_int64 text n : Unmarshal decode_int64 text = Some (Some n) -> in_int64 n.
Proof.
  unfold Unmarshal. destruct (scan text) as [[]|]; try done. cbn. destruct (ParseInt _) as [z|] eqn:Hp; [|done]. intros [= <-].
  by eapply ParseInt_range.
Qed.
Lemma decoded_string text s : Unmarshal decode_string text = Some (Some s) -> utf8_text s.
Proof.
  unfold Unmarshal. destruct (scan text) as [v|] eqn:Hs; [|done]. apply scan_texts in Hs. destruct v; try done. by intros [= <-].
Qed.
Lemma decoded_strings text l : Unmarshal decode_strings text = Some (Some l) -> Forall utf8_text l.
Proof.
  unfold Unmarshal. destruct (scan text) as [v|] eqn:Hs; [|done]. apply scan_texts in Hs. destruct v as [| | | |k|]; try done. cbn in *.
  destruct (mapM _ k) as [l'|] eqn:Hm; [|done]. intros [= <-]. apply mapM_Some_1 in Hm.
  induction Hm as [|x s k l' Hx Hm IH]; [constructor|]. destruct Hs as [Ht Hs]. constructor; [|by apply IH].
  destruct x; try done; cbn in Hx; simplify_eq/=; [|done]. by exists []; split; [constructor|].
Qed.
Lemma decoded_int_map text m : Unmarshal decode_int_map text = Some (Some m) -> map_texts m.
Proof.
  unfold Unmarshal. destruct (scan text) as [v|] eqn:Hs; [|done]. apply scan_texts in Hs. destruct v as [| | | | |k]; try done. cbn in *.
  destruct (mapM _ k) as [ms|] eqn:Hm; [|done]. intros [= <-] key n Hk. apply elem_of_list_to_map_2 in Hk. rewrite elem_of_reverse in Hk.
  apply mapM_Some_1 in Hm. induction Hm as [|[s x] [s' z] k ms Hx Hm IH]; [by apply not_elem_of_nil in Hk|].
  destruct Hs as (Ht & _ & Hs). apply list.elem_of_cons in Hk as [Hk|Hk]; [|by apply IH]. simplify_eq/=.
  destruct (decode_int64 x) as [o|] eqn:Hd; [|done]. simplify_eq/=. split; [done|]. destruct x; try done; simplify_eq/=; [done|].
  destruct (ParseInt _) as [w|] eqn:Hp; [|done]. simplify_eq/=. by eapply ParseInt_range.
Qed.

(** ** The encoder writes bytes *)

Lemma quote_bytes s : utf8_text s -> Forall is_byte (quote s).
Proof.
  intros (rs & Hrs & ->). rewrite quote_spelled by done. apply list.Forall_cons. split; [done|].
  apply list.Forall_app. split; [|by repeat constructor]. unfold quoted_body.
  induction Hrs as [|r rs Hr Hrs IH]; [constructor|].
  change (Forall is_byte (quoted_rune r ++ concat (quoted_rune <$> rs))). apply list.Forall_app. split; [|done].
  destruct (rune_written r Hr) as [He|(-> & _)].
  - eapply list.Forall_impl; [apply (escapes_read r He)|]. unfold is_byte. simpl. lia.
  - eapply list.Forall_impl; [apply encode_rune_bytes|]. by intros c [? _].
Qed.
Lemma joined_bytes l : Forall (Forall is_byte) l -> Forall is_byte (joined l).
Proof.
  induction 1 as [|x l Hx Hl IH]; [constructor|]. destruct l as [|y l]; [done|]. rewrite joined_cons.
  apply list.Forall_app. split; [done|]. by apply list.Forall_cons.
Qed.
Lemma bracketed_bytes a b l : is_byte a -> is_byte b -> Forall is_byte l -> Forall is_byte (a :: l ++ [b]).
Proof. intros Ha Hb Hl. apply list.Forall_cons. split; [done|]. apply list.Forall_app. split; [done|]. by apply list.Forall_singleton. Qed.
Lemma strings_bytes l : Forall utf8_text l -> Forall is_byte (render (of_strings l)).
Proof.
  intros Hl. apply bracketed_bytes; [done..|]. apply joined_bytes. unfold of_strings. rewrite <- list_fmap_compose.
  apply list.Forall_fmap. eapply list.Forall_impl; [done|]. intros s Hs. by apply quote_bytes.
Qed.
Lemma int_map_bytes m : map_texts m -> Forall is_byte (render (of_int_map m)).
Proof.
  intros Hm. rewrite entries_written. apply bracketed_bytes; [done..|]. apply joined_bytes. rewrite <- list_fmap_compose.
  apply list.Forall_fmap. rewrite entries_spec. apply list.Forall_forall. intros [k n] Hk%elem_of_map_to_list. destruct (Hm k n Hk) as [Ht _].
  apply list.Forall_app. split; [by apply quote_bytes|]. apply list.Forall_cons. split; [done|]. apply bytes_are_bytes.
Qed.
