(* ===== verification/TaskState.v ===== *)
(** * Task states and the transition table

    The state vocabulary of [internal/engine/engine.go] and
    [internal/store/tasks.go] and the legality predicate every state-changing
    store method consults. *)

From S2P Require Import Prelude.

(** [TaskState] of engine.go; the same ten values are the CHECK list of the
    [tasks.state] column. *)
Inductive TaskState :=
  | StateQueued | StateDownloading | StateSeeding | StatePaused | StateChecking
  | StateExtracting | StateMoving | StateCompleted | StateError | StateRemoved.

#[global] Instance TaskState_eq_dec : EqDecision TaskState.
Proof. solve_decision. Defined.

(** The stored spelling of a state. *)
Definition state_string (s : TaskState) : string :=
  match s with
  | StateQueued => "queued" | StateDownloading => "downloading"
  | StateSeeding => "seeding" | StatePaused => "paused"
  | StateChecking => "checking" | StateExtracting => "extracting"
  | StateMoving => "moving" | StateCompleted => "completed"
  | StateError => "error" | StateRemoved => "removed"
  end.

(** [taskStates]: the vocabulary [Create] validates against. *)
Definition taskStates : list TaskState :=
  [StateQueued; StateDownloading; StateChecking; StatePaused; StateSeeding;
   StateCompleted; StateExtracting; StateMoving; StateError; StateRemoved].

(** Looks a stored spelling up in the vocabulary. *)
Definition parse_state (s : string) : option TaskState :=
  List.find (fun st => bool_decide (state_string st = s)) taskStates.

(** [taskTransitions]: the edge table without the universal rules. *)
Definition taskTransitions (s : TaskState) : list TaskState :=
  match s with
  | StateQueued => [StateDownloading; StateChecking; StateSeeding; StateCompleted]
  | StateDownloading => [StateQueued; StateChecking; StateSeeding; StateCompleted]
  | StateChecking => [StateQueued; StateDownloading; StateSeeding; StateCompleted]
  | StatePaused => [StateQueued; StateDownloading; StateChecking; StateSeeding; StateCompleted]
  | StateSeeding =>
    [StateQueued; StateDownloading; StateChecking; StateCompleted; StateExtracting; StateMoving]
  | StateCompleted => [StateChecking; StateSeeding; StateExtracting; StateMoving]
  | StateExtracting => [StateMoving; StateCompleted]
  | StateMoving => [StateCompleted; StateSeeding]
  | StateError => [StateQueued; StateCompleted]
  | StateRemoved => []
  end.

(** [universalTransitionTargets]. *)
Definition universalTransitionTargets : list TaskState := [StatePaused; StateError; StateRemoved].

(** [transitionLegal]. *)
Definition transitionLegal (from next : TaskState) : bool :=
  if bool_decide (from = StateRemoved) || bool_decide (from = next) then false
  else if contains universalTransitionTargets next then true
  else contains (taskTransitions from) next.

(** [transitionEventLevel]. *)
Definition transitionEventLevel (next : TaskState) : string :=
  if bool_decide (next = StateError) then "error" else "info".

(** ** Reachability through the table *)

Inductive reachable : TaskState -> TaskState -> Prop :=
  | reach_refl s : reachable s s
  | reach_step s t u : transitionLegal s t = true -> reachable t u -> reachable s u.

Lemma transitionLegal_irrefl s : transitionLegal s s = false.
Proof. by destruct s. Qed.

Lemma transitionLegal_from_removed t : transitionLegal StateRemoved t = false.
Proof. by destruct t. Qed.

Lemma transitionLegal_universal s t :
  s <> StateRemoved -> s <> t -> t ∈ universalTransitionTargets -> transitionLegal s t = true.
Proof.
  intros Hr Hst Ht. unfold transitionLegal.
  rewrite (bool_decide_false (s = StateRemoved)), (bool_decide_false (s = t)) by done. simpl.
  by rewrite (proj2 (contains_spec _ _) Ht).
Qed.

Lemma parse_state_string s : parse_state (state_string s) = Some s.
Proof. by destruct s. Qed.

Lemma parse_state_Some str s : parse_state str = Some s -> state_string s = str.
Proof.
  intros [_ H]%List.find_some. by apply bool_decide_eq_true in H.
Qed.
