(* ===== verification/Schema.v ===== *)
(** * The rows of the store

    The [tasks] and [task_events] tables as [internal/store/models.go] and
    [internal/store/tasks.go] read and write them, and the column constraints
    of the schema the statements run under.  A 64-bit float column is kept as
    a [spec_float]. *)

From Stdlib Require Import SpecFloat.
From S2P Require Import Prelude TaskState.

(** The text of [tasks.select_files], kept as what [json.Unmarshal] into a
    [SelectionIntent] answers for it; a JSON null (or an absent key) leaves a
    field nil. *)
Inductive select_doc :=
  | SelEmptyText
  | SelMalformed
  | SelDoc (indices : option (list Z)) (priorities : option (gmap Z Z)).

(** One row of [tasks], without its primary key (the map key). *)
Record task := MkTask {
  t_engine : string; t_engine_ref : option string; t_source_kind : string;
  t_source_uri : option string; t_source_display_uri : option string; t_name : string;
  t_infohash_v1 : option string; t_infohash_v2 : option string; t_state : TaskState;
  t_error_code : option string; t_error_message : option string; t_destination : string;
  t_content_path : option string; t_category_id : option string; t_total_bytes : option Z;
  t_completed_bytes : Z; t_uploaded_bytes : Z; t_download_rate : Z; t_upload_rate : Z;
  t_eta_seconds : option Z; t_sequential : Z; t_queue_position : option Z;
  t_select_files : option select_doc; t_dl_limit : Z; t_ul_limit : Z;
  t_ratio_limit : option spec_float; t_seeding_time_limit : option Z;
  t_unzip_progress : option Z; t_admission_pending : Z;
  t_added_at : Z; t_started_at : option Z; t_completed_at : option Z;
  t_created_at : Z; t_updated_at : Z }.

(** The detail documents the code attaches to events. *)
Inductive event_detail :=
  | DeletedData (files bytes : Z)
  | HandleDetail (engine engine_ref : string)
  | HookDetail (path : string) (stdout stderr : list Z) (exit_code : option Z) (timeout : bool) (error : string)
  | HookPresent (path : string).

(** One row of [task_events]. *)
Record task_event := MkEvent {
  ev_id : string; ev_task : string; ev_at : Z; ev_level : string;
  ev_code : string; ev_message : string; ev_detail : option event_detail }.

#[global] Instance event_detail_eq_dec : EqDecision event_detail.
Proof. solve_decision. Defined.
#[global] Instance task_event_eq_dec : EqDecision task_event.
Proof. solve_decision. Defined.

(** One row of [task_files], keyed on (task, index). *)
Record TaskFile := MkFile {
  f_id : string; f_path : string; f_size_bytes : Z; f_completed_bytes : Z;
  f_selected : Z; f_priority : option Z; f_created_at : Z; f_updated_at : Z }.

Record db := MkDb {
  d_tasks : gmap string task;
  d_events : list task_event;
  d_files : gmap (string * Z) TaskFile;
  d_categories : gset string;
  (* the settings rows; None is a value that is not a bare JSON integer *)
  d_settings : gmap string (option Z) }.

(** ** Column updates *)

Definition task_eta (t : task) : task :=
  MkTask (t_engine t) (t_engine_ref t) (t_source_kind t) (t_source_uri t)
    (t_source_display_uri t) (t_name t) (t_infohash_v1 t) (t_infohash_v2 t) (t_state t)
    (t_error_code t) (t_error_message t) (t_destination t) (t_content_path t)
    (t_category_id t) (t_total_bytes t) (t_completed_bytes t) (t_uploaded_bytes t)
    (t_download_rate t) (t_upload_rate t) (t_eta_seconds t) (t_sequential t)
    (t_queue_position t) (t_select_files t) (t_dl_limit t) (t_ul_limit t) (t_ratio_limit t)
    (t_seeding_time_limit t) (t_unzip_progress t) (t_admission_pending t) (t_added_at t)
    (t_started_at t) (t_completed_at t) (t_created_at t) (t_updated_at t).

Ltac setter proj :=
  let e := eval unfold task_eta in task_eta in
  let e := eval pattern proj in e in
  lazymatch e with ?g _ => exact (fun v t => g (fun _ => v) t) end.

Definition set_engine_ref : option string -> task -> task := ltac:(setter t_engine_ref).
Definition set_name : string -> task -> task := ltac:(setter t_name).
Definition set_infohash_v1 : option string -> task -> task := ltac:(setter t_infohash_v1).
Definition set_infohash_v2 : option string -> task -> task := ltac:(setter t_infohash_v2).
Definition set_state : TaskState -> task -> task := ltac:(setter t_state).
Definition set_error_code : option string -> task -> task := ltac:(setter t_error_code).
Definition set_error_message : option string -> task -> task := ltac:(setter t_error_message).
Definition set_category_id : option string -> task -> task := ltac:(setter t_category_id).
Definition set_total_bytes : option Z -> task -> task := ltac:(setter t_total_bytes).
Definition set_completed_bytes : Z -> task -> task := ltac:(setter t_completed_bytes).
Definition set_uploaded_bytes : Z -> task -> task := ltac:(setter t_uploaded_bytes).
Definition set_download_rate : Z -> task -> task := ltac:(setter t_download_rate).
Definition set_upload_rate : Z -> task -> task := ltac:(setter t_upload_rate).
Definition set_eta_seconds : option Z -> task -> task := ltac:(setter t_eta_seconds).
Definition set_sequential : Z -> task -> task := ltac:(setter t_sequential).
Definition set_queue_position : option Z -> task -> task := ltac:(setter t_queue_position).
Definition set_select_files : option select_doc -> task -> task := ltac:(setter t_select_files).
Definition set_dl_limit : Z -> task -> task := ltac:(setter t_dl_limit).
Definition set_ul_limit : Z -> task -> task := ltac:(setter t_ul_limit).
Definition set_ratio_limit : option spec_float -> task -> task := ltac:(setter t_ratio_limit).
Definition set_seeding_time_limit : option Z -> task -> task := ltac:(setter t_seeding_time_limit).
Definition set_unzip_progress : option Z -> task -> task := ltac:(setter t_unzip_progress).
Definition set_admission_pending : Z -> task -> task := ltac:(setter t_admission_pending).
Definition set_updated_at : Z -> task -> task := ltac:(setter t_updated_at).

Definition with_tasks (m : gmap string task) (d : db) : db :=
  MkDb m (d_events d) (d_files d) (d_categories d) (d_settings d).
Definition with_events (l : list task_event) (d : db) : db :=
  MkDb (d_tasks d) l (d_files d) (d_categories d) (d_settings d).
Definition with_files (m : gmap (string * Z) TaskFile) (d : db) : db :=
  MkDb (d_tasks d) (d_events d) m (d_categories d) (d_settings d).

(** ** Constraints *)

(** [taskErrorCodes], the CHECK list of [tasks.error_code]. *)
Definition taskErrorCodes : list string :=
  ["broken_link"; "destination_not_exist"; "destination_denied"; "disk_full"; "quota_reached";
   "timeout"; "exceed_max_file_system_size"; "exceed_max_destination_size";
   "exceed_max_temp_size"; "encrypted_name_too_long"; "name_too_long"; "torrent_duplicate";
   "file_not_exist"; "required_premium_account"; "not_supported_type"; "try_it_later";
   "task_encryption"; "missing_python"; "private_video"; "ftp_encryption_not_supported_type";
   "extract_failed"; "extract_failed_wrong_password"; "extract_failed_invalid_archive";
   "extract_failed_quota_reached"; "extract_failed_disk_full"; "unknown"; "ssrf_blocked";
   "path_rejected"; "engine_unavailable"; "unsupported_scheme"; "concurrency_limit";
   "js_runtime_missing"]%string.

Definition engine_names : list string := ["aria2"; "qbittorrent"; "ytdlp"]%string.
Definition source_kinds : list string :=
  ["http"; "ftp"; "sftp"; "magnet"; "torrent"; "metalink"; "media"]%string.

(** The CHECK and foreign-key constraints of one row. *)
Definition row_ok (d : db) (t : task) : bool :=
  contains engine_names (t_engine t) && contains source_kinds (t_source_kind t)
  && match t_error_code t with None => true | Some c => contains taskErrorCodes c end
  && contains [0; 1]%Z (t_sequential t)
  && match t_category_id t with None => true | Some c => bool_decide (c ∈ d_categories d) end.

(** Two live rows share an engine handle ([idx_tasks_engine_ref]). *)
Definition same_handle (t u : task) : bool :=
  bool_decide (t_state t <> StateRemoved) && bool_decide (t_state u <> StateRemoved)
  && bool_decide (t_engine t = t_engine u) && bool_decide (t_engine_ref t = t_engine_ref u)
  && bool_decide (t_engine_ref t <> None).

(** Two live rows share an infohash ([idx_tasks_infohash_v1], [_v2]). *)
Definition same_infohash (t u : task) : bool :=
  bool_decide (t_state t <> StateRemoved) && bool_decide (t_state u <> StateRemoved)
  && (bool_decide (t_infohash_v1 t = t_infohash_v1 u /\ t_infohash_v1 t <> None)
      || bool_decide (t_infohash_v2 t = t_infohash_v2 u /\ t_infohash_v2 t <> None)).

(** No other row conflicts with [t] stored under [id]. *)
Definition unique_ok (d : db) (id : string) (t : task) : bool :=
  forallb (fun p => bool_decide (p.1 = id) || negb (same_handle t p.2 || same_infohash t p.2))
    (map_to_list (d_tasks d)).

(** Handles identify live rows: the invariant the partial unique index keeps. *)
Definition handles_unique (d : db) : Prop :=
  forall i j t u, d_tasks d !! i = Some t -> d_tasks d !! j = Some u ->
    same_handle t u = true -> i = j.

Lemma unique_ok_spec d id t :
  unique_ok d id t = true <->
  forall j u, d_tasks d !! j = Some u -> j <> id ->
    same_handle t u = false /\ same_infohash t u = false.
Proof.
  unfold unique_ok. rewrite forallb_forall. split.
  - intros Hall j u Hj Hne.
    assert (Hin : In (j, u) (map_to_list (d_tasks d))).
    { apply list_elem_of_In. by apply elem_of_map_to_list. }
    specialize (Hall _ Hin). simpl in Hall. rewrite bool_decide_false in Hall by done.
    simpl in Hall. by apply negb_true_iff, orb_false_iff in Hall.
  - intros Hall [j u] Hin%list_elem_of_In%elem_of_map_to_list. simpl.
    case_bool_decide as Hj; [done|]. destruct (Hall j u Hin Hj) as [-> ->]. done.
Qed.

Lemma same_handle_sym t u : same_handle t u = same_handle u t.
Proof.
  unfold same_handle.
  destruct (decide (t_engine_ref t = t_engine_ref u)) as [E|E].
  - rewrite E, !(bool_decide_true (t_engine_ref u = t_engine_ref u)) by done.
    repeat case_bool_decide; simpl; congruence.
  - rewrite (bool_decide_false (t_engine_ref t = t_engine_ref u)) by done.
    rewrite (bool_decide_false (t_engine_ref u = t_engine_ref t)) by congruence.
    by rewrite !andb_false_r.
Qed.
