(* ===== verification/Lease.v ===== *)
(** * The engine registry's task-operation leases ([internal/engine/registry.go])

    Module [Lease] holds the lease table as the code keeps it: a map from task
    ids to entries, entries as shared objects (a release closure keeps the
    pointer of the entry it was granted, even after that entry left the
    table), a FIFO queue of waiters per entry and ownership tokens.  Each
    critical section of [AcquireTaskOp] and of the release closure is one
    function; [Lease.step] interleaves the critical sections of any number of
    goroutines with the cancellation of their contexts. *)

From S2P Require Import Prelude.

Module Lease.

(** [taskOpWaiter]; a waiter is identified by its token.  Its [won] flag and
    its closed [ready] channel are set in one critical section: the registry
    record's [won] set holds the tokens of the waiters that have both. *)
Record taskOpWaiter := Waiter { wt_token : nat; wt_ctx : nat }.

(** [taskOpEntry]. *)
Record taskOpEntry := Entry { holder : option nat; waiters : list taskOpWaiter }.

#[global] Instance taskOpEntry_inhabited : Inhabited taskOpEntry := populate (Entry None []).

(** The lease part of [Registry]: [leases] maps a task id to an entry pointer,
    [heap] the entry pointers to their objects. *)
Record registry := Registry {
  leases : gmap string nat;
  heap : gmap nat taskOpEntry;
  nextToken : nat;
  nextEntry : nat;
  won : gset nat }.

Definition NewRegistry : registry := Registry ∅ ∅ 0 0 ∅.

Inductive TaskOpMode := TaskOpTry | TaskOpWait.

(** What a release closure captures. *)
Record closure := Closure { c_task : string; c_entry : nat; c_token : nat }.

#[global] Instance closure_eq_dec : EqDecision closure.
Proof. solve_decision. Defined.

(** The answers of the first critical section of [AcquireTaskOp]. *)
Inductive answer :=
  | Granted (release : closure)
  | Busy                                   (* ErrTaskOpBusy *)
  | Parked (waiter : closure).             (* blocked in the select *)

Definition set_entry (p : nat) (e : taskOpEntry) (r : registry) : registry :=
  Registry (leases r) (<[p := e]> (heap r)) (nextToken r) (nextEntry r) (won r).

Definition set_leases (m : gmap string nat) (r : registry) : registry :=
  Registry m (heap r) (nextToken r) (nextEntry r) (won r).

(** [mintTokenLocked]. *)
Definition mintTokenLocked (r : registry) : nat * registry :=
  (nextToken r, Registry (leases r) (heap r) (S (nextToken r)) (nextEntry r) (won r)).

(** The lookup-or-create of the entry of [taskID]. *)
Definition entryOf (taskID : string) (r : registry) : nat * registry :=
  match leases r !! taskID with
  | Some p => (p, r)
  | None =>
    let p := nextEntry r in
    (p, Registry (<[taskID := p]> (leases r)) (<[p := Entry None []]> (heap r))
          (nextToken r) (S p) (won r))
  end.

(** [AcquireTaskOp] up to its [select]. *)
Definition AcquireTaskOp (ctx : nat) (taskID : string) (mode : TaskOpMode) (r : registry)
  : answer * registry :=
  let (p, r) := entryOf taskID r in
  let entry := heap r !!! p in
  match holder entry with
  | None =>
    let (token, r) := mintTokenLocked r in
    (Granted (Closure taskID p token), set_entry p (Entry (Some token) (waiters entry)) r)
  | Some _ =>
    match mode with
    | TaskOpTry => (Busy, r)
    | TaskOpWait =>
      let (token, r) := mintTokenLocked r in
      (Parked (Closure taskID p token),
       set_entry p (Entry (holder entry) (waiters entry ++ [Waiter token ctx])) r)
    end
  end.

(** [removeWaiter]: the first waiter with this identity leaves the queue. *)
Fixpoint removeWaiter (token : nat) (l : list taskOpWaiter) : list taskOpWaiter :=
  match l with
  | [] => []
  | w :: l => if bool_decide (wt_token w = token) then l else w :: removeWaiter token l
  end.

(** The [ctx.Done()] arm of the [select], under the mutex: [Some] closure when
    the handoff won the race, [None] for [ctx.Err()]. *)
Definition cancelWait (w : closure) (r : registry) : option closure * registry :=
  if bool_decide (c_token w ∈ won r) then (Some w, r)
  else
    let entry := heap r !!! c_entry w in
    (None, set_entry (c_entry w) (Entry (holder entry) (removeWaiter (c_token w) (waiters entry))) r).

(** The handoff loop: the oldest waiter whose context is still live, and the
    queue behind it. *)
Fixpoint handOff (cancelled : gset nat) (l : list taskOpWaiter)
  : option taskOpWaiter * list taskOpWaiter :=
  match l with
  | [] => (None, [])
  | w :: l => if bool_decide (wt_ctx w ∈ cancelled) then handOff cancelled l else (Some w, l)
  end.

(** [releaseTaskOp]: the closure's body; [cancelled] holds the contexts that
    have ended. *)
Definition releaseTaskOp (cancelled : gset nat) (c : closure) (r : registry) : registry :=
  let entry := heap r !!! c_entry c in
  if bool_decide (holder entry = Some (c_token c)) then
    match handOff cancelled (waiters entry) with
    | (Some w, rest) =>
      let r := set_entry (c_entry c) (Entry (Some (wt_token w)) rest) r in
      Registry (leases r) (heap r) (nextToken r) (nextEntry r) ({[wt_token w]} ∪ won r)
    | (None, rest) =>
      let r := set_entry (c_entry c) (Entry None rest) r in
      if bool_decide (leases r !! c_task c = Some (c_entry c))
      then set_leases (delete (c_task c) (leases r)) r
      else r
    end
  else r.

(** ** Interleavings *)

(** The goroutines: [parked] are blocked in the select, [owners] hold a
    release closure they have not called, [given] are all closures ever
    returned. *)
Record sys := Sys {
  reg : registry;
  parked : gmap nat (closure * nat);
  owners : gmap nat closure;
  given : gmap nat closure;
  cancelled : gset nat }.

Definition init : sys := Sys NewRegistry ∅ ∅ ∅ ∅.

Definition grant (c : closure) (s : sys) : sys :=
  Sys (reg s) (delete (c_token c) (parked s)) (<[c_token c := c]> (owners s))
    (<[c_token c := c]> (given s)) (cancelled s).

Definition with_reg (r : registry) (s : sys) : sys :=
  Sys r (parked s) (owners s) (given s) (cancelled s).

Inductive step : sys -> sys -> Prop :=
  | step_granted ctx id mode s c r :
      AcquireTaskOp ctx id mode (reg s) = (Granted c, r) ->
      step s (grant c (with_reg r s))
  | step_busy ctx id mode s r :
      AcquireTaskOp ctx id mode (reg s) = (Busy, r) -> step s (with_reg r s)
  | step_parked ctx id mode s c r :
      AcquireTaskOp ctx id mode (reg s) = (Parked c, r) ->
      step s (Sys r (<[c_token c := (c, ctx)]> (parked s)) (owners s) (given s) (cancelled s))
  | step_ready s tk c ctx :
      parked s !! tk = Some (c, ctx) -> tk ∈ won (reg s) -> step s (grant c s)
  | step_cancel_won s tk c ctx r :
      parked s !! tk = Some (c, ctx) -> ctx ∈ cancelled s ->
      cancelWait c (reg s) = (Some c, r) -> step s (grant c (with_reg r s))
  | step_cancel_left s tk c ctx r :
      parked s !! tk = Some (c, ctx) -> ctx ∈ cancelled s ->
      cancelWait c (reg s) = (None, r) ->
      step s (Sys r (delete tk (parked s)) (owners s) (given s) (cancelled s))
  | step_release s tk c :
      given s !! tk = Some c ->
      step s (Sys (releaseTaskOp (cancelled s) c (reg s)) (parked s) (delete tk (owners s))
                (given s) (cancelled s))
  | step_ctx s ctx :
      step s (Sys (reg s) (parked s) (owners s) (given s) ({[ctx]} ∪ cancelled s)).

Inductive reachable : sys -> Prop :=
  | reach_init : reachable init
  | reach_next s s' : reachable s -> step s s' -> reachable s'.

(** The closure that owns a lease: returned and not yet called, or granted by
    a handoff to a goroutine that has not woken up. *)
Definition owns (s : sys) (c : closure) : Prop :=
  owners s !! c_token c = Some c \/
  (exists ctx, parked s !! c_token c = Some (c, ctx)) /\ c_token c ∈ won (reg s).

(** ** The invariant *)

Record inv (s : sys) : Prop := {
  inv_key_parked : forall tk c ctx, parked s !! tk = Some (c, ctx) -> c_token c = tk;
  inv_key_given : forall tk c, given s !! tk = Some c -> c_token c = tk;
  inv_owner_given : forall tk c, owners s !! tk = Some c -> given s !! tk = Some c;
  inv_disjoint : forall tk c, given s !! tk = Some c -> parked s !! tk = None;
  inv_fresh_given : forall tk c, given s !! tk = Some c -> tk < nextToken (reg s);
  inv_fresh_parked : forall tk c, parked s !! tk = Some c -> tk < nextToken (reg s);
  inv_fresh_won : forall tk, tk ∈ won (reg s) -> tk < nextToken (reg s);
  inv_fresh_table : forall id p, leases (reg s) !! id = Some p -> p < nextEntry (reg s);
  inv_table_inj : forall id id' p,
    leases (reg s) !! id = Some p -> leases (reg s) !! id' = Some p -> id = id';
  (* an entry of the table is held *)
  inv_held : forall id p, leases (reg s) !! id = Some p ->
    is_Some (holder (heap (reg s) !!! p));
  (* a held entry is in the table and its holder is some goroutine's closure *)
  inv_live : forall p tk, holder (heap (reg s) !!! p) = Some tk ->
    exists id, leases (reg s) !! id = Some p /\ owns s (Closure id p tk);
  (* every owner is the holder of the entry its task id maps to *)
  inv_owner : forall c, owns s c ->
    leases (reg s) !! c_task c = Some (c_entry c) /\
    holder (heap (reg s) !!! c_entry c) = Some (c_token c);
  (* queued waiters are parked goroutines that have not won *)
  inv_queue : forall p w, w ∈ waiters (heap (reg s) !!! p) ->
    exists id, leases (reg s) !! id = Some p /\
      parked s !! wt_token w = Some (Closure id p (wt_token w), wt_ctx w) /\
      wt_token w ∉ won (reg s);
  inv_nodup : forall p, NoDup (wt_token <$> waiters (heap (reg s) !!! p));
  (* a parked, unwon goroutine that is no longer queued has a dead context *)
  inv_skipped : forall tk c ctx, parked s !! tk = Some (c, ctx) -> tk ∉ won (reg s) ->
    Waiter tk ctx ∈ waiters (heap (reg s) !!! c_entry c) \/ ctx ∈ cancelled s
}.

(** ** What the critical sections do to the registry *)

Lemma set_entry_lookup p e r q :
  heap (set_entry p e r) !!! q = if decide (p = q) then e else heap r !!! q.
Proof.
  unfold set_entry; simpl. case_decide; subst.
  - by rewrite lookup_total_insert_eq.
  - by rewrite lookup_total_insert_ne.
Qed.

Lemma removeWaiter_elem w tk l : w ∈ removeWaiter tk l -> w ∈ l.
Proof.
  induction l as [|v l IH]; simpl; [done|].
  case_bool_decide; rewrite !elem_of_cons; tauto.
Qed.

Lemma removeWaiter_nodup tk l :
  NoDup (wt_token <$> l) -> NoDup (wt_token <$> removeWaiter tk l).
Proof.
  induction l as [|v l IH]; simpl; [done|]. rewrite list.NoDup_cons. intros [Hv Hl].
  case_bool_decide; [done|]. simpl. apply list.NoDup_cons. split; [|by apply IH].
  intros (w & Hw & Hin%removeWaiter_elem)%list_elem_of_fmap.
  apply Hv, list_elem_of_fmap. by exists w.
Qed.

Lemma removeWaiter_gone w tk l :
  NoDup (wt_token <$> l) -> w ∈ removeWaiter tk l -> wt_token w <> tk.
Proof.
  induction l as [|v l IH]; simpl; [set_solver|]. rewrite list.NoDup_cons. intros [Hv Hl].
  case_bool_decide as Hvt.
  - intros Hw Heq. apply Hv. rewrite Hvt, <- Heq. by apply list_elem_of_fmap_2.
  - rewrite elem_of_cons. intros [->|Hw]; [done|]. by apply IH.
Qed.

Lemma removeWaiter_keep w tk l : w ∈ l -> wt_token w <> tk -> w ∈ removeWaiter tk l.
Proof.
  induction l as [|v l IH]; simpl; [done|]. intros [->|Hin]%elem_of_cons Hne.
  - rewrite bool_decide_false by done. by left.
  - case_bool_decide; [done|]. right. by apply IH.
Qed.

(** The queue splits into the skipped waiters, all cancelled, and the rest. *)
Lemma handOff_spec cs l :
  match handOff cs l with
  | (Some w, rest) => exists skipped, l = skipped ++ w :: rest /\
      Forall (fun v => wt_ctx v ∈ cs) skipped /\ wt_ctx w ∉ cs
  | (None, rest) => rest = [] /\ Forall (fun v => wt_ctx v ∈ cs) l
  end.
Proof.
  induction l as [|v l IH]; simpl; [done|].
  case_bool_decide as Hv.
  - destruct (handOff cs l) as [[w|] rest].
    + destruct IH as (sk & -> & Hsk & Hw). exists (v :: sk). by repeat constructor.
    + destruct IH as [-> Hl]. by repeat constructor.
  - exists []. by repeat constructor.
Qed.

Section Preservation.
Variable s : sys.
Hypothesis I : inv s.

Lemma fresh_entry_idle : heap (reg s) !!! nextEntry (reg s) = Entry None [].
Proof.
  destruct (heap (reg s) !!! nextEntry (reg s)) as [h ws] eqn:E.
  assert (forall id, leases (reg s) !! id <> Some (nextEntry (reg s))) as Hno.
  { intros id H%(inv_fresh_table s I). lia. }
  f_equal.
  - destruct h as [tk|]; [|done]. destruct (inv_live s I (nextEntry (reg s)) tk) as (id & Hid & _).
    + by rewrite E.
    + by destruct (Hno id).
  - destruct ws as [|w ws]; [done|]. destruct (inv_queue s I (nextEntry (reg s)) w) as (id & Hid & _).
    + rewrite E. set_solver.
    + by destruct (Hno id).
Qed.

(** The three answers of [AcquireTaskOp] in a state of the invariant. *)
Lemma AcquireTaskOp_cases ctx id mode :
  let r := reg s in
  match leases r !! id with
  | None =>
    AcquireTaskOp ctx id mode r =
      (Granted (Closure id (nextEntry r) (nextToken r)),
       Registry (<[id := nextEntry r]> (leases r))
         (<[nextEntry r := Entry (Some (nextToken r)) []]> (<[nextEntry r := Entry None []]> (heap r)))
         (S (nextToken r)) (S (nextEntry r)) (won r))
  | Some p =>
    AcquireTaskOp ctx id mode r =
      match mode with
      | TaskOpTry => (Busy, r)
      | TaskOpWait =>
        (Parked (Closure id p (nextToken r)),
         Registry (leases r)
           (<[p := Entry (holder (heap r !!! p))
                     (waiters (heap r !!! p) ++ [Waiter (nextToken r) ctx])]> (heap r))
           (S (nextToken r)) (nextEntry r) (won r))
      end
  end.
Proof.
  simpl. unfold AcquireTaskOp, entryOf. destruct (leases (reg s) !! id) as [p|] eqn:Hid.
  - destruct (inv_held s I id p Hid) as [tk Htk]. rewrite Htk. by destruct mode.
  - simpl. by rewrite lookup_total_insert_eq.
Qed.

Lemma owns_fresh c : owns s c -> c_token c < nextToken (reg s).
Proof.
  intros [H|[[ctx H] _]].
  - by eapply inv_fresh_given, inv_owner_given.
  - by eapply inv_fresh_parked.
Qed.

Lemma parked_fresh_None : parked s !! nextToken (reg s) = None.
Proof.
  destruct (parked s !! nextToken (reg s)) eqn:E; [|done].
  pose proof (inv_fresh_parked s I _ _ E). lia.
Qed.

Lemma given_fresh_None : given s !! nextToken (reg s) = None.
Proof.
  destruct (given s !! nextToken (reg s)) eqn:E; [|done].
  pose proof (inv_fresh_given s I _ _ E). lia.
Qed.

(** A free lease is taken at once. *)
Lemma inv_granted id (P := nextEntry (reg s)) (T := nextToken (reg s))
    (c := Closure id P T)
    (r := Registry (<[id := P]> (leases (reg s)))
            (<[P := Entry (Some T) []]> (<[P := Entry None []]> (heap (reg s))))
            (S T) (S P) (won (reg s))) :
  leases (reg s) !! id = None -> inv (grant c (with_reg r s)).
Proof.
  intros Hid.
  assert (Hp : delete T (parked s) = parked s) by (apply delete_id, parked_fresh_None).
  assert (Hh : forall q, heap r !!! q = if decide (P = q) then Entry (Some T) [] else heap (reg s) !!! q).
  { intros q. simpl. case_decide; [subst; by rewrite lookup_total_insert_eq|].
    by rewrite !lookup_total_insert_ne. }
  assert (Hfresh : forall id' p, leases (reg s) !! id' = Some p -> p <> P).
  { intros id' p H%(inv_fresh_table s I). unfold P. lia. }
  assert (Hown : forall c', owns (grant c (with_reg r s)) c' <-> c' = c \/ owns s c').
  { intros c'. split.
    - unfold owns, grant; simpl. rewrite Hp. destruct (decide (c_token c' = T)) as [E|E].
      + rewrite E, lookup_insert_eq. intros [?|[[ctx H] _]]; [left; congruence|].
        unfold T in H. by rewrite parked_fresh_None in H.
      + rewrite lookup_insert_ne by done. tauto.
    - intros [->|Ho]; [left; apply lookup_insert_eq|].
      assert (T <> c_token c') by (pose proof (owns_fresh c' Ho); unfold T; lia).
      unfold owns, grant; simpl. by rewrite Hp, lookup_insert_ne. }
  constructor; simpl; rewrite ?Hp.
  - eapply inv_key_parked, I.
  - intros tk c' [[<- <-]|[_ ?]]%lookup_insert_Some; [done|]. by eapply inv_key_given.
  - intros tk c'. rewrite !lookup_insert_Some. intros [?|[? ?]]; [by left|].
    right. split; [done|]. by apply (inv_owner_given s I).
  - intros tk c' [[<- _]|[_ ?]]%lookup_insert_Some; [apply parked_fresh_None|].
    by eapply inv_disjoint.
  - intros tk c' [[<- _]|[_ H%(inv_fresh_given s I)]]%lookup_insert_Some; unfold T; lia.
  - intros tk c' H%(inv_fresh_parked s I). unfold T; lia.
  - intros tk H%(inv_fresh_won s I). unfold T; lia.
  - intros id' p [[_ <-]|[_ H%(inv_fresh_table s I)]]%lookup_insert_Some; unfold P; lia.
  - intros id1 id2 p. rewrite !lookup_insert_Some.
    intros [[<- <-]|[? H1]] [[<- H2]|[? H2]]; try done.
    + by apply Hfresh in H2.
    + apply Hfresh in H1. congruence.
    + by eapply inv_table_inj.
  - intros id' p Hl. rewrite Hh. case_decide as Hd; [eauto|].
    apply lookup_insert_Some in Hl as [[_ ?]|[_ ?]]; [done|]. by eapply inv_held.
  - intros p tk. rewrite Hh. case_decide as Hd; simpl.
    + intros [= <-]. subst p. exists id. rewrite lookup_insert_eq. split; [done|].
      apply Hown. by left.
    + intros (id' & Hl & Ho)%(inv_live s I). exists id'.
      rewrite lookup_insert_ne by congruence. split; [done|]. apply Hown. by right.
  - intros c' [->|Ho]%Hown; simpl.
    + by rewrite lookup_insert_eq, lookup_total_insert_eq.
    + destruct (inv_owner s I c' Ho) as [Hl Hho]. fold (heap r). rewrite Hh.
      rewrite decide_False by (intros E; by apply (Hfresh _ _ Hl)).
      rewrite lookup_insert_ne by congruence. done.
  - intros p w. rewrite Hh. case_decide; simpl; [set_solver|].
    intros (id' & Hl & Hw)%(inv_queue s I). exists id'.
    by rewrite lookup_insert_ne by congruence.
  - intros p. rewrite Hh. case_decide; [by constructor|]. apply (inv_nodup s I).
  - intros tk c' ctx Hpk Hw. fold (heap r). rewrite Hh.
    destruct (inv_skipped s I tk c' ctx Hpk Hw) as [Hin|?]; [|by right].
    case_decide as Hd; [|by left]. rewrite <- Hd in Hin. unfold P in Hin.
    rewrite fresh_entry_idle in Hin. set_solver.
Qed.

(** A held lease parks a waiting acquirer at the end of the queue. *)
Lemma inv_parked id p ctx (T := nextToken (reg s)) (c := Closure id p T)
    (r := Registry (leases (reg s))
            (<[p := Entry (holder (heap (reg s) !!! p))
                     (waiters (heap (reg s) !!! p) ++ [Waiter T ctx])]> (heap (reg s)))
            (S T) (nextEntry (reg s)) (won (reg s))) :
  leases (reg s) !! id = Some p ->
  inv (Sys r (<[T := (c, ctx)]> (parked s)) (owners s) (given s) (cancelled s)).
Proof.
  intros Hid.
  assert (Hh : forall q, heap r !!! q = if decide (p = q) then
      Entry (holder (heap (reg s) !!! p)) (waiters (heap (reg s) !!! p) ++ [Waiter T ctx])
      else heap (reg s) !!! q).
  { intros q. simpl. case_decide; [subst; by rewrite lookup_total_insert_eq|].
    by rewrite lookup_total_insert_ne. }
  assert (HT : T ∉ won (reg s)) by (intros H%(inv_fresh_won s I); unfold T in H; lia).
  set (s' := Sys _ _ _ _ _).
  assert (Hown : forall c', owns s' c' <-> owns s c').
  { intros c'. unfold owns, s'; simpl. destruct (decide (c_token c' = T)) as [E|E].
    - rewrite E, lookup_insert_eq. split; [|intros Ho].
      + intros [?|[_ ?]]; [by left|done].
      + left. destruct Ho as [?|[_ ?]]; [done|done].
    - by rewrite lookup_insert_ne. }
  assert (Hhold : forall q, holder (heap r !!! q) = holder (heap (reg s) !!! q)).
  { intros q. rewrite Hh. case_decide; by subst. }
  constructor; simpl.
  - intros tk c' ctx' [[<- E]|[_ ?]]%lookup_insert_Some; [by injection E as <- <-|].
    by eapply inv_key_parked.
  - eapply inv_key_given, I.
  - eapply inv_owner_given, I.
  - intros tk c' Hg. rewrite lookup_insert_ne; [by eapply inv_disjoint|].
    intros <-. unfold T in Hg. by rewrite given_fresh_None in Hg.
  - intros tk c' H%(inv_fresh_given s I). unfold T; lia.
  - intros tk c' [[<- _]|[_ H%(inv_fresh_parked s I)]]%lookup_insert_Some; unfold T; lia.
  - intros tk H%(inv_fresh_won s I). unfold T; lia.
  - eapply inv_fresh_table, I.
  - eapply inv_table_inj, I.
  - intros id' q Hl. fold (heap r). rewrite Hhold. by eapply inv_held.
  - intros q tk. fold (heap r). rewrite Hhold. intros (id' & Hl & Ho)%(inv_live s I).
    exists id'. by rewrite Hown.
  - intros c' Ho%Hown. fold (heap r). rewrite Hhold. by eapply inv_owner.
  - intros q w. fold (heap r). rewrite Hh.
    assert (Hold : w ∈ waiters (heap (reg s) !!! q) -> exists id0, leases (reg s) !! id0 = Some q /\
      <[T := (c, ctx)]> (parked s) !! wt_token w = Some (Closure id0 q (wt_token w), wt_ctx w) /\
      wt_token w ∉ won (reg s)).
    { intros (id' & Hl & Hpk & Hw)%(inv_queue s I). exists id'.
      rewrite lookup_insert_ne; [done|]. intros E. rewrite <- E in Hpk. unfold T in Hpk.
      by rewrite parked_fresh_None in Hpk. }
    case_decide; [subst q|done]. simpl. rewrite elem_of_app, list_elem_of_singleton.
    intros [?| ->]; [by apply Hold|]. exists id. simpl. by rewrite lookup_insert_eq.
  - intros q. fold (heap r). rewrite Hh. case_decide; [|apply (inv_nodup s I)].
    simpl. rewrite fmap_app. apply list.NoDup_app. split; [apply (inv_nodup s I)|].
    split; [|apply list.NoDup_singleton]. simpl. intros tk (w & -> & Hw)%list_elem_of_fmap.
    rewrite list_elem_of_singleton. intros E. destruct (inv_queue s I _ _ Hw) as (id0 & _ & Hpk & _).
    rewrite E in Hpk. unfold T in Hpk. by rewrite parked_fresh_None in Hpk.
  - intros tk c' ctx' [[<- E]|[_ Hpk]]%lookup_insert_Some Hw; fold (heap r); rewrite Hh.
    + injection E as <- <-. left. simpl. rewrite decide_True by done. simpl. set_solver.
    + destruct (inv_skipped s I tk c' ctx' Hpk Hw) as [Hin|?]; [|by right].
      left. case_decide as Hd; [|done]. simpl. rewrite Hd. set_solver.
Qed.

(** A waiter that the handoff chose wakes up as an owner. *)
Lemma inv_ready tk c ctx :
  parked s !! tk = Some (c, ctx) -> tk ∈ won (reg s) -> inv (grant c s).
Proof.
  intros Hpk Hw. pose proof (inv_key_parked s I _ _ _ Hpk) as Htk.
  assert (Hown : forall c', owns (grant c s) c' <-> owns s c').
  { intros c'. unfold owns, grant; simpl. rewrite Htk. destruct (decide (c_token c' = tk)) as [E|E].
    - rewrite E, lookup_insert_eq, lookup_delete_eq, Hpk. split.
      + intros [[= <-]|[[? ?] _]]; [right; eauto|done].
      + intros [Hc|[[ctx' [= <- _]] _]]; [|by left].
        apply (inv_owner_given s I), (inv_disjoint s I) in Hc. congruence.
    - by rewrite lookup_insert_ne, lookup_delete_ne. }
  constructor; simpl; rewrite ?Htk.
  - intros tk' c' ctx' [_ ?]%lookup_delete_Some. by eapply inv_key_parked.
  - intros tk' c' [[<- <-]|[_ ?]]%lookup_insert_Some; [done|]. by eapply inv_key_given.
  - intros tk' c'. rewrite !lookup_insert_Some. intros [?|[? ?]]; [by left|].
    right. split; [done|]. by apply (inv_owner_given s I).
  - intros tk' c' [[<- _]|[? ?]]%lookup_insert_Some; [apply lookup_delete_eq|].
    rewrite lookup_delete_ne by done. by eapply inv_disjoint.
  - intros tk' c' [[<- _]|[_ ?]]%lookup_insert_Some; [by eapply inv_fresh_parked|].
    by eapply inv_fresh_given.
  - intros tk' c' [_ ?]%lookup_delete_Some. by eapply inv_fresh_parked.
  - eapply inv_fresh_won, I.
  - eapply inv_fresh_table, I.
  - eapply inv_table_inj, I.
  - eapply inv_held, I.
  - intros p tk' (id & Hl & Ho)%(inv_live s I). exists id. by rewrite Hown.
  - intros c' Ho%Hown. by eapply inv_owner.
  - intros p w (id & Hl & Hpw & Hnw)%(inv_queue s I). exists id.
    rewrite lookup_delete_ne; [done|]. intros E. by rewrite <- E in Hnw.
  - eapply inv_nodup, I.
  - intros tk' c' ctx' [_ ?]%lookup_delete_Some. by eapply inv_skipped.
Qed.

(** A cancelled waiter that lost no race leaves the queue. *)
Lemma inv_cancel_left tk c ctx
    (r := set_entry (c_entry c) (Entry (holder (heap (reg s) !!! c_entry c))
            (removeWaiter (c_token c) (waiters (heap (reg s) !!! c_entry c)))) (reg s)) :
  parked s !! tk = Some (c, ctx) -> c_token c ∉ won (reg s) ->
  inv (Sys r (delete tk (parked s)) (owners s) (given s) (cancelled s)).
Proof.
  intros Hpk Hnw. pose proof (inv_key_parked s I _ _ _ Hpk) as Htk.
  assert (Hh : forall q, heap r !!! q = if decide (c_entry c = q)
    then Entry (holder (heap (reg s) !!! c_entry c))
           (removeWaiter (c_token c) (waiters (heap (reg s) !!! c_entry c)))
    else heap (reg s) !!! q) by (intros q; apply set_entry_lookup).
  assert (Hhold : forall q, holder (heap r !!! q) = holder (heap (reg s) !!! q)).
  { intros q. rewrite Hh. case_decide as Hd; [by rewrite <- Hd|done]. }
  assert (Hws : forall q w, w ∈ waiters (heap r !!! q) ->
    w ∈ waiters (heap (reg s) !!! q) /\ wt_token w <> tk).
  { intros q w. rewrite Hh. case_decide as Hd; simpl.
    - rewrite Htk, <- Hd. intros Hw. split; [by eapply removeWaiter_elem|].
      eapply removeWaiter_gone; [apply (inv_nodup s I)|done].
    - intros Hw. split; [done|]. intros E.
      destruct (inv_queue s I _ _ Hw) as (id & _ & Hp & _). rewrite E, Hpk in Hp.
      injection Hp as Hc _. rewrite Hc in Hd. simpl in Hd. done. }
  set (s' := Sys _ _ _ _ _).
  assert (Hown : forall c', owns s' c' <-> owns s c').
  { intros c'. unfold owns, s'; simpl. destruct (decide (c_token c' = tk)) as [E|E].
    - rewrite E, Htk in *. split; [intros [?|[_ ?]]; [by left|done]|].
      intros [?|[_ ?]]; [by left|done].
    - by rewrite lookup_delete_ne. }
  constructor; simpl.
  - intros tk' c' ctx' [_ ?]%lookup_delete_Some. by eapply inv_key_parked.
  - eapply inv_key_given, I.
  - eapply inv_owner_given, I.
  - intros tk' c' Hg%(inv_disjoint s I). by apply lookup_delete_None; right.
  - eapply inv_fresh_given, I.
  - intros tk' c' [_ ?]%lookup_delete_Some. by eapply inv_fresh_parked.
  - eapply inv_fresh_won, I.
  - eapply inv_fresh_table, I.
  - eapply inv_table_inj, I.
  - intros id p Hl. fold (heap r). rewrite Hhold. by eapply inv_held.
  - intros p tk'. fold (heap r). rewrite Hhold. intros (id & Hl & Ho)%(inv_live s I).
    exists id. by rewrite Hown.
  - intros c' Ho%Hown. fold (heap r). rewrite Hhold. by eapply inv_owner.
  - intros p w. fold (heap r). intros [Hw Hne]%Hws.
    destruct (inv_queue s I _ _ Hw) as (id & Hl & Hpw & ?). exists id.
    by rewrite lookup_delete_ne by done.
  - intros p. fold (heap r). rewrite Hh. case_decide; [|apply (inv_nodup s I)].
    simpl. apply removeWaiter_nodup, (inv_nodup s I).
  - intros tk' c' ctx' [Hne Hp]%lookup_delete_Some Hnw'. fold (heap r). rewrite Hh.
    destruct (inv_skipped s I _ _ _ Hp Hnw') as [Hin|?]; [left|by right].
    case_decide as Hd; [|done]. simpl. rewrite Hd.
    apply removeWaiter_keep; [done|]. simpl. congruence.
Qed.

(** A release of a closure that is not the holder changes nothing. *)
Lemma inv_release_noop tk c :
  given s !! tk = Some c -> holder (heap (reg s) !!! c_entry c) <> Some (c_token c) ->
  delete tk (owners s) = owners s.
Proof.
  intros Hg Hh. apply delete_id. destruct (owners s !! tk) as [c'|] eqn:E; [|done].
  destruct Hh. pose proof (inv_owner_given s I _ _ E) as Hg'. rewrite Hg in Hg'.
  injection Hg' as <-. apply (inv_owner s I). left. by rewrite (inv_key_given s I _ _ Hg).
Qed.

(** A given closure whose token holds its entry is an owner. *)
Lemma release_by_owner tk c :
  given s !! tk = Some c -> holder (heap (reg s) !!! c_entry c) = Some (c_token c) ->
  owners s !! tk = Some c /\ leases (reg s) !! c_task c = Some (c_entry c).
Proof.
  intros Hg Hh. pose proof (inv_key_given s I _ _ Hg) as Htk.
  destruct (inv_live s I _ _ Hh) as (id & Hl & [Ho|[[ctx Hp] _]]); simpl in *.
  - rewrite Htk in *. pose proof (inv_owner_given s I _ _ Ho) as Hg'. rewrite Hg in Hg'.
    injection Hg' as Hc. rewrite Hc in *. done.
  - rewrite Htk in *. by rewrite (inv_disjoint s I _ _ Hg) in Hp.
Qed.

(** Handing the lease to the oldest live waiter. *)
Lemma inv_release_handoff tk c w rest skipped
    (r := set_entry (c_entry c) (Entry (Some (wt_token w)) rest) (reg s))
    (r' := Registry (leases r) (heap r) (nextToken r) (nextEntry r) ({[wt_token w]} ∪ won r)) :
  given s !! tk = Some c -> holder (heap (reg s) !!! c_entry c) = Some (c_token c) ->
  waiters (heap (reg s) !!! c_entry c) = skipped ++ w :: rest ->
  Forall (fun v => wt_ctx v ∈ cancelled s) skipped ->
  inv (Sys r' (parked s) (delete tk (owners s)) (given s) (cancelled s)).
Proof.
  intros Hg Hh Hq Hsk. pose proof (inv_key_given s I _ _ Hg) as Htk.
  destruct (release_by_owner _ _ Hg Hh) as [Hoc Hlc].
  assert (Hwin : w ∈ waiters (heap (reg s) !!! c_entry c)) by (rewrite Hq; set_solver).
  destruct (inv_queue s I _ _ Hwin) as (id0 & Hl0 & Hpw & Hnw).
  assert (id0 = c_task c) as -> by (by eapply inv_table_inj).
  assert (Hh' : forall q, heap r' !!! q =
    if decide (c_entry c = q) then Entry (Some (wt_token w)) rest else heap (reg s) !!! q)
    by (intros q; apply set_entry_lookup).
  set (s' := Sys _ _ _ _ _).
  assert (Hown : forall c', owns s' c' <->
    c' = Closure (c_task c) (c_entry c) (wt_token w) \/ owns s c' /\ c_token c' <> tk).
  { intros c'. unfold owns, s'; simpl. rewrite elem_of_union, elem_of_singleton. split.
    - intros [[Hne Ho]%lookup_delete_Some|[[ctx Hp] [E|Hw]]].
      + right. split; [by left|congruence].
      + left. rewrite E, Hpw in Hp. congruence.
      + right. split; [right; eauto|]. intros E. rewrite E in Hp.
        by rewrite (inv_disjoint s I _ _ Hg) in Hp.
    - intros [->|[[Ho|[? Hw]] Hne]]; simpl; [right; eauto| |right; tauto].
      left. by rewrite lookup_delete_ne. }
  assert (Hnd := inv_nodup s I (c_entry c)). rewrite Hq, fmap_app in Hnd. simpl in Hnd.
  apply list.NoDup_app in Hnd as (Hnd1 & Hnd2 & Hnd3).
  apply list.NoDup_cons in Hnd3 as [Hnw' Hnd3].
  constructor; simpl.
  - eapply inv_key_parked, I.
  - eapply inv_key_given, I.
  - intros tk' c' [_ ?]%lookup_delete_Some. by eapply inv_owner_given.
  - eapply inv_disjoint, I.
  - eapply inv_fresh_given, I.
  - eapply inv_fresh_parked, I.
  - intros tk'. rewrite elem_of_union, elem_of_singleton. intros [->|?].
    + by eapply inv_fresh_parked.
    + by eapply inv_fresh_won.
  - eapply inv_fresh_table, I.
  - eapply inv_table_inj, I.
  - intros id p Hl. fold (heap r). fold (heap r'). rewrite Hh'. case_decide; [by eexists|].
    by eapply inv_held.
  - intros p tk'. fold (heap r'). rewrite Hh'. case_decide as Hd; simpl.
    + intros [= <-]. exists (c_task c). rewrite <- Hd. split; [done|]. apply Hown. by left.
    + intros Hp. destruct (inv_live s I _ _ Hp) as (id & Hl & Ho). exists id. split; [done|].
      apply Hown. right. split; [done|]. simpl. intros ->.
      apply (inv_owner s I) in Ho as [_ Ho]. simpl in Ho.
      destruct (inv_live s I _ _ Ho) as (id' & Hl' & [Ho'|[[ctx Ho'] _]]); simpl in *.
      * rewrite Hoc in Ho'. injection Ho' as Hc. rewrite Hc in Hd. done.
      * by rewrite (inv_disjoint s I _ _ Hg) in Ho'.
  - intros c' [->|[Ho Hne]]%Hown; fold (heap r'); rewrite Hh'; simpl.
    + by rewrite decide_True.
    + destruct (inv_owner s I c' Ho) as [Hl Hho]. case_decide as Hd; [|done].
      rewrite <- Hd, Hh in Hho. congruence.
  - intros p v. fold (heap r'). rewrite Hh'. case_decide as Hd; simpl.
    + intros Hv. destruct (inv_queue s I (c_entry c) v) as (id & Hl & Hp & Hn);
        [rewrite Hq; set_solver|].
      exists id. rewrite <- Hd. split_and!; [done..|]. rewrite not_elem_of_union, not_elem_of_singleton.
      split; [|done]. intros E. apply Hnw'. rewrite <- E. by apply list_elem_of_fmap_2.
    + intros Hv. destruct (inv_queue s I p v Hv) as (id & Hl & Hp & Hn). exists id.
      split_and!; [done..|]. rewrite not_elem_of_union, not_elem_of_singleton.
      split; [|done]. intros E. rewrite E, Hpw in Hp. injection Hp as _ Hp _. done.
  - intros p. fold (heap r'). rewrite Hh'. case_decide; [done|]. apply (inv_nodup s I).
  - intros tk' c' ctx' Hp Hn. fold (heap r'). rewrite Hh'.
    apply not_elem_of_union in Hn as [Hn1 Hn]. rewrite not_elem_of_singleton in Hn1.
    destruct (inv_skipped s I _ _ _ Hp Hn) as [Hin|?]; [|by right].
    case_decide as Hd; [|by left]. simpl. rewrite <- Hd, Hq in Hin.
    apply elem_of_app in Hin as [Hin|[Hin|Hin]%elem_of_cons].
    + right. rewrite list.Forall_forall in Hsk. by apply (Hsk _ Hin).
    + destruct Hn1. by rewrite <- Hin.
    + by left.
Qed.

(** Releasing with no live waiter frees the task id. *)
Lemma inv_release_free tk c
    (r := set_entry (c_entry c) (Entry None []) (reg s)) :
  given s !! tk = Some c -> holder (heap (reg s) !!! c_entry c) = Some (c_token c) ->
  Forall (fun v => wt_ctx v ∈ cancelled s) (waiters (heap (reg s) !!! c_entry c)) ->
  inv (Sys (set_leases (delete (c_task c) (leases r)) r) (parked s) (delete tk (owners s))
         (given s) (cancelled s)).
Proof.
  intros Hg Hh Hsk. pose proof (inv_key_given s I _ _ Hg) as Htk.
  destruct (release_by_owner _ _ Hg Hh) as [Hoc Hlc].
  assert (Hh' : forall q, heap r !!! q =
    if decide (c_entry c = q) then Entry None [] else heap (reg s) !!! q)
    by (intros q; apply set_entry_lookup).
  set (s' := Sys _ _ _ _ _).
  assert (Hown : forall c', owns s' c' <-> owns s c' /\ c_token c' <> tk).
  { intros c'. unfold owns, s'; simpl. split.
    - intros [[Hne Ho]%lookup_delete_Some|[[ctx Hp] Hw]].
      + split; [by left|congruence].
      + split; [right; eauto|]. intros E. rewrite E in Hp.
        by rewrite (inv_disjoint s I _ _ Hg) in Hp.
    - intros [[Ho|[? Hw]] Hne]; [|by right]. left. by rewrite lookup_delete_ne. }
  assert (Hdel : forall id p, delete (c_task c) (leases (reg s)) !! id = Some p ->
    leases (reg s) !! id = Some p /\ p <> c_entry c).
  { intros id p [Hne Hl]%lookup_delete_Some. split; [done|]. intros ->.
    apply Hne. by eapply inv_table_inj. }
  assert (Hkeep : forall id p, leases (reg s) !! id = Some p -> p <> c_entry c ->
    delete (c_task c) (leases (reg s)) !! id = Some p).
  { intros id p Hl Hne. rewrite lookup_delete_ne; [done|]. intros <-. congruence. }
  constructor; simpl.
  - eapply inv_key_parked, I.
  - eapply inv_key_given, I.
  - intros tk' c' [_ ?]%lookup_delete_Some. by eapply inv_owner_given.
  - eapply inv_disjoint, I.
  - eapply inv_fresh_given, I.
  - eapply inv_fresh_parked, I.
  - eapply inv_fresh_won, I.
  - intros id p [Hl _]%Hdel. by eapply inv_fresh_table.
  - intros id id' p [Hl _]%Hdel [Hl' _]%Hdel. by eapply inv_table_inj.
  - intros id p [Hl Hne]%Hdel. fold (heap r). rewrite Hh', decide_False by done.
    by eapply inv_held.
  - intros p tk'. fold (heap r). rewrite Hh'. case_decide as Hd; [done|].
    intros Hp. destruct (inv_live s I _ _ Hp) as (id & Hl & Ho). exists id.
    split; [by apply Hkeep|]. apply Hown. split; [done|]. simpl. intros ->.
    apply Hd. destruct Ho as [Ho|[[ctx Ho] _]]; simpl in *.
    + rewrite Hoc in Ho. by injection Ho as ->.
    + by rewrite (inv_disjoint s I _ _ Hg) in Ho.
  - intros c' [Ho Hne]%Hown. destruct (inv_owner s I c' Ho) as [Hl Hho].
    assert (c_entry c <> c_entry c') as Hd by (intros E; rewrite <- E, Hh in Hho; congruence).
    fold (heap r). rewrite Hh', decide_False by done. split; [by apply Hkeep|done].
  - intros p v. fold (heap r). rewrite Hh'. case_decide as Hd; simpl; [set_solver|].
    intros Hv. destruct (inv_queue s I p v Hv) as (id & Hl & Hp & Hn). exists id.
    split; [by apply Hkeep|done].
  - intros p. fold (heap r). rewrite Hh'. case_decide; [by constructor|]. apply (inv_nodup s I).
  - intros tk' c' ctx' Hp Hn. fold (heap r). rewrite Hh'.
    destruct (inv_skipped s I _ _ _ Hp Hn) as [Hin|?]; [|by right].
    case_decide as Hd; [|by left]. right. rewrite <- Hd in Hin.
    rewrite list.Forall_forall in Hsk. by apply (Hsk _ Hin).
Qed.
End Preservation.

Lemma inv_ctx s ctx :
  inv s -> inv (Sys (reg s) (parked s) (owners s) (given s) ({[ctx]} ∪ cancelled s)).
Proof.
  intros I. destruct I. constructor; simpl; try done.
  intros tk c ctx' Hp Hn. destruct (inv_skipped0 _ _ _ Hp Hn); [by left|right; set_solver].
Qed.

Lemma inv_init : inv init.
Proof.
  assert (Hno : forall c, ~ owns init c).
  { intros c [Ho|[[? Ho] _]]; simpl in Ho; by rewrite lookup_empty in Ho. }
  constructor; simpl.
  all: try (intros *; rewrite ?lookup_empty; done).
  - intros c Ho. by destruct (Hno c).
  - intros p w. rewrite lookup_total_empty. simpl. intros H. by apply elem_of_nil in H.
  - intros p. rewrite lookup_total_empty. constructor.
Qed.

Lemma inv_release s tk c :
  inv s -> given s !! tk = Some c ->
  inv (Sys (releaseTaskOp (cancelled s) c (reg s)) (parked s) (delete tk (owners s))
         (given s) (cancelled s)).
Proof.
  intros I Hg. unfold releaseTaskOp. case_bool_decide as Hh.
  - pose proof (handOff_spec (cancelled s) (waiters (heap (reg s) !!! c_entry c))) as Hs.
    destruct (handOff _ _) as [[w|] rest].
    + destruct Hs as (skipped & Hq & Hsk & _). by eapply inv_release_handoff.
    + destruct Hs as [-> Hl]. destruct (release_by_owner s I _ _ Hg Hh) as [_ Hlc].
      simpl. rewrite bool_decide_true by done. by apply inv_release_free.
  - rewrite (inv_release_noop s I tk c) by done. by destruct s.
Qed.

Lemma inv_step s s' : inv s -> step s s' -> inv s'.
Proof.
  intros I Hs. destruct Hs.
  - pose proof (AcquireTaskOp_cases s I ctx id mode) as Hc. simpl in Hc.
    destruct (leases (reg s) !! id) eqn:Hid; rewrite Hc in H; [by destruct mode|].
    injection H as <- <-. by apply inv_granted.
  - pose proof (AcquireTaskOp_cases s I ctx id mode) as Hc. simpl in Hc.
    destruct (leases (reg s) !! id) eqn:Hid; rewrite Hc in H; [|done].
    destruct mode; [|done]. injection H as <-. by destruct s.
  - pose proof (AcquireTaskOp_cases s I ctx id mode) as Hc. simpl in Hc.
    destruct (leases (reg s) !! id) eqn:Hid; rewrite Hc in H; [|done].
    destruct mode; [done|]. injection H as <- <-. by apply inv_parked.
  - by eapply inv_ready.
  - unfold cancelWait in *. case_bool_decide as Hw; [|done]. simplify_eq.
    pose proof (inv_key_parked s I _ _ _ H) as Htk. rewrite Htk in Hw.
    replace (with_reg (reg s) s) with s by (by destruct s). by eapply inv_ready.
  - unfold cancelWait in *. case_bool_decide as Hw; [done|]. simplify_eq.
    by eapply inv_cancel_left.
  - by apply inv_release.
  - by apply inv_ctx.
Qed.

Lemma reachable_inv s : reachable s -> inv s.
Proof. induction 1; [apply inv_init|by eapply inv_step]. Qed.

(** ** The schedules as functions, for concrete runs *)

(** One acquirer enters; a parked one stays in the select. *)
Definition do_acquire (ctx : nat) (id : string) (mode : TaskOpMode) (s : sys) : sys :=
  match AcquireTaskOp ctx id mode (reg s) with
  | (Granted c, r) => grant c (with_reg r s)
  | (Busy, r) => with_reg r s
  | (Parked c, r) =>
    Sys r (<[c_token c := (c, ctx)]> (parked s)) (owners s) (given s) (cancelled s)
  end.

(** The release closure with token [tk] is called. *)
Definition do_release (tk : nat) (s : sys) : sys :=
  match given s !! tk with
  | Some c => Sys (releaseTaskOp (cancelled s) c (reg s)) (parked s) (delete tk (owners s))
                (given s) (cancelled s)
  | None => s
  end.

Definition do_cancel (ctx : nat) (s : sys) : sys :=
  Sys (reg s) (parked s) (owners s) (given s) ({[ctx]} ∪ cancelled s).

Lemma do_acquire_reachable ctx id mode s : reachable s -> reachable (do_acquire ctx id mode s).
Proof.
  intros Hs. eapply reach_next; [done|]. unfold do_acquire.
  destruct (AcquireTaskOp ctx id mode (reg s)) as [[c| |c] r] eqn:E.
  - by eapply step_granted.
  - by eapply step_busy.
  - by eapply step_parked.
Qed.

Lemma do_release_reachable tk s : reachable s -> reachable (do_release tk s).
Proof.
  intros Hs. unfold do_release. destruct (given s !! tk) eqn:E; [|done].
  eapply reach_next; [done|]. by apply step_release.
Qed.

Lemma do_cancel_reachable ctx s : reachable s -> reachable (do_cancel ctx s).
Proof. intros Hs. eapply reach_next; [done|]. apply step_ctx. Qed.

#[export] Hint Resolve reach_init do_acquire_reachable do_release_reachable
  do_cancel_reachable : dltool.

(** Two waiters behind a holder; the first waiter's context ends. *)
Definition contended : sys :=
  do_cancel 1 (do_acquire 2 "tsk" TaskOpWait
    (do_acquire 1 "tsk" TaskOpWait (do_acquire 0 "tsk" TaskOpTry init))).

Lemma contended_reachable : reachable contended.
Proof. unfold contended. auto with dltool. Qed.

(** ** Properties *)

(** C4: Mutual exclusion: in every interleaving of acquisitions, handoffs,
    cancellations and releases, the operations on one task exclude each
    other: two closures that own the lease of one task id are the same
    acquisition. *)
Theorem lease_mutual_exclusion s c c' :
  reachable s -> owns s c -> owns s c' -> c_task c = c_task c' -> c = c'.
Proof.
  intros Hr%reachable_inv Ho Ho' Ht.
  destruct (inv_owner s Hr c Ho) as [Hl Hh], (inv_owner s Hr c' Ho') as [Hl' Hh'].
  destruct c as [t e k], c' as [t' e' k']; simpl in *. subst t'.
  rewrite Hl in Hl'. injection Hl' as <-. rewrite Hh in Hh'. by injection Hh' as <-.
Qed.

Lemma lease_mutual_exclusion_witness :
  let s := do_release 0 contended in
  owns s (Closure "tsk" 0 2) /\
  forall c, owns s c -> c_task c = "tsk" -> Closure "tsk" 0 2 = c.
Proof.
  assert (Ho : owns (do_release 0 contended) (Closure "tsk" 0 2)).
  { right. split; [by exists 2|]. apply (bool_decide_unpack _). by vm_compute. }
  split; [exact Ho|]. intros c Hc Ht.
  exact (lease_mutual_exclusion _ _ c
    (do_release_reachable 0 _ contended_reachable) Ho Hc (eq_sym Ht)).
Defined.

(** The table holds exactly the owned task ids: a lease is never stranded on
    an entry nobody releases, and a task id whose last operation ended leaves
    no entry behind. *)
Theorem lease_table_exact s id :
  reachable s -> is_Some (leases (reg s) !! id) <-> exists c, owns s c /\ c_task c = id.
Proof.
  intros I%reachable_inv. split.
  - intros [p Hp]. destruct (inv_held s I id p Hp) as [tk Htk].
    destruct (inv_live s I p tk Htk) as (id' & Hl & Ho).
    exists (Closure id' p tk). split; [done|]. simpl. by eapply inv_table_inj.
  - intros (c & Ho & <-). destruct (inv_owner s I c Ho) as [-> _]. by eexists.
Qed.

Lemma lease_table_exact_witness :
  leases (reg contended) !! "tsk" = Some 0 /\
  (is_Some (leases (reg contended) !! "tsk") <->
     exists c, owns contended c /\ c_task c = "tsk").
Proof.
  split; [by vm_compute|]. exact (lease_table_exact contended "tsk" contended_reachable).
Defined.

(** A release closure acts once: once its acquisition no longer owns the
    lease - it was already called, or ownership was handed on - calling it
    again changes nothing, whoever holds the lease by then. *)
Theorem release_idempotent s tk c :
  reachable s -> given s !! tk = Some c -> owners s !! tk = None ->
  releaseTaskOp (cancelled s) c (reg s) = reg s.
Proof.
  intros I%reachable_inv Hg Ho. unfold releaseTaskOp. case_bool_decide as Hh; [|done].
  destruct (release_by_owner s I tk c Hg Hh) as [? _]. congruence.
Qed.

Lemma release_idempotent_witness :
  let s := do_release 0 contended in
  releaseTaskOp (cancelled s) (Closure "tsk" 0 0) (reg s) = reg s.
Proof.
  exact (release_idempotent (do_release 0 contended) 0 (Closure "tsk" 0 0)
    (do_release_reachable 0 _ contended_reachable) eq_refl eq_refl).
Defined.

(** The handoff is FIFO over the live waiters: when an owner releases, the
    oldest queued waiter whose context has not ended becomes the holder and
    everybody behind it keeps its place; only cancelled waiters are skipped,
    and with none left the task id leaves the table. *)
Theorem release_hands_off_fifo s tk c :
  reachable s -> owners s !! tk = Some c ->
  let queue := waiters (heap (reg s) !!! c_entry c) in
  let r' := releaseTaskOp (cancelled s) c (reg s) in
  match List.filter (fun w => bool_decide (wt_ctx w ∉ cancelled s)) queue with
  | [] => leases r' = delete (c_task c) (leases (reg s))
  | w :: _ =>
    exists skipped rest, queue = skipped ++ w :: rest /\
      Forall (fun v => wt_ctx v ∈ cancelled s) skipped /\
      leases r' = leases (reg s) /\ wt_token w ∈ won r' /\
      heap r' !!! c_entry c = Entry (Some (wt_token w)) rest
  end.
Proof.
  intros I%reachable_inv Ho queue r'.
  assert (Hg := inv_owner_given s I _ _ Ho). assert (Htk := inv_key_given s I _ _ Hg).
  destruct (inv_owner s I c) as [Hl Hh]; [left; by rewrite Htk|].
  assert (Hskip : forall l, Forall (fun v => wt_ctx v ∈ cancelled s) l ->
    List.filter (fun w => bool_decide (wt_ctx w ∉ cancelled s)) l = []).
  { induction 1; simpl; [done|]. by rewrite bool_decide_false by tauto. }
  unfold r', releaseTaskOp. rewrite bool_decide_true by done. fold queue.
  pose proof (handOff_spec (cancelled s) queue) as Hs.
  destruct (handOff (cancelled s) queue) as [[w|] rest].
  - destruct Hs as (sk & Hq & Hsk & Hw). rewrite Hq, List.filter_app, (Hskip sk Hsk). simpl.
    rewrite bool_decide_true by done. exists sk, rest. split_and!; try done.
    + set_solver.
    + by rewrite lookup_total_insert_eq.
  - destruct Hs as [-> Hall]. rewrite (Hskip _ Hall). simpl. by rewrite bool_decide_true.
Qed.

Lemma release_hands_off_fifo_witness :
  wt_token <$> waiters (heap (reg contended) !!! 0) = [1; 2] /\
  match List.filter (fun w => bool_decide (wt_ctx w ∉ cancelled contended))
          (waiters (heap (reg contended) !!! 0)) with
  | [] => False
  | w :: _ => wt_token w = 2
  end /\
  let r' := releaseTaskOp (cancelled contended) (Closure "tsk" 0 0) (reg contended) in
  2 ∈ won r'.
Proof.
  pose proof (release_hands_off_fifo contended 0 (Closure "tsk" 0 0)
    contended_reachable eq_refl) as H.
  split; [by vm_compute|]. split; [by vm_compute|]. simpl in H.
  destruct H as (sk & rest & _ & _ & _ & Hw & _). exact Hw.
Defined.

(** No waiter is lost: a goroutine blocked in [AcquireTaskOp] has been handed
    the lease, or its context has ended so that its select fires, or it sits
    in the queue of an entry that some other acquisition owns and will
    release. *)
Theorem waiter_not_lost s tk c ctx :
  reachable s -> parked s !! tk = Some (c, ctx) ->
  tk ∈ won (reg s) \/ ctx ∈ cancelled s \/
  exists owner, owns s owner /\ c_task owner = c_task c /\
    Waiter tk ctx ∈ waiters (heap (reg s) !!! c_entry owner).
Proof.
  intros I%reachable_inv Hp. destruct (decide (tk ∈ won (reg s))) as [|Hn]; [by left|right].
  destruct (inv_skipped s I tk c ctx Hp Hn) as [Hin|]; [right|by left].
  destruct (inv_queue s I _ _ Hin) as (id & Hl & Hpk & _). simpl in Hpk.
  rewrite Hp in Hpk. injection Hpk as Hc.
  destruct (inv_held s I id _ Hl) as [tk' Htk']. destruct (inv_live s I _ _ Htk') as (id' & Hl' & Ho).
  exists (Closure id' (c_entry c) tk'). rewrite Hc. simpl. split_and!; [by rewrite Hc in Ho| |by rewrite Hc in Hin].
  by eapply inv_table_inj.
Qed.

Lemma waiter_not_lost_witness :
  exists owner, owns contended owner /\ c_task owner = "tsk" /\
    Waiter 2 2 ∈ waiters (heap (reg contended) !!! c_entry owner).
Proof.
  destruct (waiter_not_lost contended 2 (Closure "tsk" 0 2) 2 contended_reachable eq_refl)
    as [H|[H|H]].
  - exfalso. apply (bool_decide_pack _) in H. by vm_compute in H.
  - exfalso. apply (bool_decide_pack _) in H. by vm_compute in H.
  - exact H.
Defined.
End Lease.
