(* ===== verification/World.v ===== *)
(** * The effectful layer: errors, the environment and the command monad

    The code threads a context, a database handle, the engine registry and the
    engines themselves through every operation and returns Go errors.  A
    command reads an [oracle] - what the environment answers: whether a driver
    call succeeds, the clock, fresh ids - and transforms a [world].  A
    transaction works on its own copy of the tables, which [commit] publishes
    and any early return drops. *)

From S2P Require Import Prelude TaskState Schema Lease.

(** ** Errors

    A Go error value is kept as the sentinel [errors.Is] recognises in its
    chain; the message text is dropped. *)
Inductive err :=
  (* package store *)
  | ErrNotFound | ErrIllegalTransition | ErrTransitionConflict | ErrDuplicateInfohash
  | ErrDriver                (* the SQL driver failed *)
  | ErrConstraint            (* a CHECK, UNIQUE or foreign-key constraint refused a write *)
  | ErrArgument              (* a caller bug the method refuses up front *)
  | ErrUnique                (* the UNIQUE constraints among them, where the code tells them apart *)
  | ErrConflict | ErrUnknownSettingKey | ErrSettingOutOfRange
  | ErrDecode                (* a stored value is not of its documented type *)
  (* package engine *)
  | EngErrNotFound | EngErrUnavailable | EngErrNotSupported
  | EngErrOther (text : string)
  | ErrSelectionPending | ErrReleaseIncomplete | ErrNoSubmission
  | ErrStoreWrite (cause : err)       (* storeWriteError *)
  | ErrContext               (* ctx.Err() *)
  | ErrFs                    (* a path or statfs failure of package fsx *)
  | ErrPanic                 (* a Go panic *)
  (* package jobs *)
  | ErrHookTimeout | ErrTorrentDuplicate | ErrDestinationRejected.

#[global] Instance err_eq_dec : EqDecision err.
Proof. solve_decision. Defined.

(** [errors.Is]: [storeWriteError] unwraps to its cause. *)
Fixpoint errors_is (e target : err) : bool :=
  bool_decide (e = target) ||
  match e with ErrStoreWrite cause => errors_is cause target | _ => false end.

(** [errors.As] to [storeWriteError]. *)
Definition is_store_write (e : err) : bool :=
  match e with ErrStoreWrite _ => true | _ => false end.

Definition res (A : Type) : Type := err + A.

(** ** The environment *)

(** What one driver call answers.  [IoFailLanded] is the ambiguous answer: the
    write (for a transaction, its commit) took effect and the caller still
    sees an error. *)
Inductive io := IoOk | IoFail | IoFailLanded.

(** [os.Stat]: a directory or a file with its device number, or the error's
    class. *)
Inductive stat_answer := StatDir (dev : Z) | StatFile (dev : Z) | StatNotExist | StatNotDir | StatFailed.

(** [syscall.Statfs_t]: two unsigned and two signed 64-bit counters. *)
Record Statfs_t := MkStatfs { Bavail : Z; Blocks : Z; Frsize : Z; Bsize : Z }.

(** The [n]-th interaction's driver answer, clock reading, fresh id, file
    system answers and the waiters' contexts that have ended by then, and how
    an error value renders. *)
Record oracle := Oracle {
  o_io : nat -> io; o_now : nat -> Z; o_id : nat -> string;
  o_stat : nat -> string -> stat_answer; o_statfs : nat -> string -> option Statfs_t;
  o_ended : nat -> gset nat; o_text : err -> string }.

(** [E] is the state of everything behind the [Engine] interface. *)
Record world (E : Type) := World {
  w_db : db;                       (* committed tables *)
  w_tx : option db;                (* the open transaction's copy *)
  w_n : nat;                       (* interactions so far *)
  w_cancel : option nat;           (* context polls left before it is cancelled *)
  w_hook : bool;                   (* a completion hook is installed *)
  w_fired : list string;           (* task ids the completion hook ran for *)
  w_leases : Lease.registry;
  w_eng : E }.
Arguments World {E}. Arguments w_db {E}. Arguments w_tx {E}. Arguments w_n {E}.
Arguments w_cancel {E}. Arguments w_hook {E}. Arguments w_fired {E}.
Arguments w_leases {E}. Arguments w_eng {E}.

Definition M (E A : Type) : Type := oracle -> world E -> res A * world E.

#[global] Instance M_ret E : MRet (M E) := fun A x o w => (inr x, w).
#[global] Instance M_bind E : MBind (M E) := fun A B k m o w =>
  match m o w with
  | (inl e, w) => (inl e, w)
  | (inr x, w) => k x o w
  end.

Section Commands.
Context {E : Type}.
Abbreviation M := (M E).
Abbreviation world := (world E).

Definition fail {A} (e : err) : M A := fun o w => (inl e, w).

(** Runs a call and hands its error to the caller as a value. *)
Definition attempt {A} (m : M A) : M (res A) := fun o w =>
  let (r, w) := m o w in (inr r, w).

(** Runs a call whose error the caller drops (it only logs it). *)
Definition ignore {A} (m : M A) : M unit := attempt m ;; mret tt.

Definition of_res {A} (r : res A) : M A :=
  match r with inl e => fail e | inr x => mret x end.

Definition gets {A} (f : world -> A) : M A := fun o w => (inr (f w), w).

Definition set_db (d : db) (w : world) : world :=
  World d (w_tx w) (w_n w) (w_cancel w) (w_hook w) (w_fired w) (w_leases w) (w_eng w).
Definition set_tx (t : option db) (w : world) : world :=
  World (w_db w) t (w_n w) (w_cancel w) (w_hook w) (w_fired w) (w_leases w) (w_eng w).
Definition bump (w : world) : world :=
  World (w_db w) (w_tx w) (S (w_n w)) (w_cancel w) (w_hook w) (w_fired w) (w_leases w) (w_eng w).
Definition set_cancel (c : option nat) (w : world) : world :=
  World (w_db w) (w_tx w) (w_n w) c (w_hook w) (w_fired w) (w_leases w) (w_eng w).
Definition set_fired (l : list string) (w : world) : world :=
  World (w_db w) (w_tx w) (w_n w) (w_cancel w) (w_hook w) l (w_leases w) (w_eng w).
Definition set_regw (r : Lease.registry) (w : world) : world :=
  World (w_db w) (w_tx w) (w_n w) (w_cancel w) (w_hook w) (w_fired w) r (w_eng w).
Definition set_eng (e : E) (w : world) : world :=
  World (w_db w) (w_tx w) (w_n w) (w_cancel w) (w_hook w) (w_fired w) (w_leases w) e.

(** [time.Now().UnixMilli()]. *)
Definition unix_milli : M Z := fun o w => (inr (o_now o (w_n w)), bump w).

(** [NewID]: the table prefix and a fresh ULID. *)
Definition NewID (prefix : string) : M string := fun o w =>
  (inr (prefix +:+ o_id o (w_n w)), bump w).

(** [os.Stat] and [syscall.Statfs]. *)
Definition os_stat (path : string) : M stat_answer := fun o w =>
  (inr (o_stat o (w_n w) path), bump w).
Definition statfs (path : string) : M (option Statfs_t) := fun o w =>
  (inr (o_statfs o (w_n w) path), bump w).

(** The [%v] of an error value. *)
Definition err_text (e : err) : M string := fun o w => (inr (o_text o e), w).

(** [ctx.Err() != nil]; once true it stays true. *)
Definition ctx_done : M bool := fun o w =>
  match w_cancel w with
  | None => (inr false, w)
  | Some 0 => (inr true, w)
  | Some (S k) => (inr false, set_cancel (Some k) w)
  end.

(** A write statement: the rows it matched, or [None] when a constraint
    refuses it. *)
Definition stmt : Type := db -> option (db * Z).

(** The tables a statement sees. *)
Definition current (w : world) : db := default (w_db w) (w_tx w).

Definition put_current (d : db) (w : world) : world :=
  match w_tx w with Some _ => set_tx (Some d) w | None => set_db d w end.

(** [ExecContext]: the number of affected rows. *)
Definition exec (q : stmt) : M Z := fun o w =>
  match o_io o (w_n w), q (current w) with
  | IoFail, _ => (inl ErrDriver, bump w)
  | _, None => (inl ErrConstraint, bump w)
  | IoOk, Some (d, k) => (inr k, bump (put_current d w))
  | IoFailLanded, Some (d, _) => (inl ErrDriver, bump (put_current d w))
  end.

(** [GetContext] / [SelectContext]. *)
Definition query {A} (q : db -> A) : M A := fun o w =>
  match o_io o (w_n w) with
  | IoOk => (inr (q (current w)), bump w)
  | _ => (inl ErrDriver, bump w)
  end.

(** A read whose evaluation can itself fail (an integer overflow in a SUM). *)
Definition query_checked {A} (q : db -> option A) : M A := fun o w =>
  match o_io o (w_n w), q (current w) with
  | IoOk, Some x => (inr x, bump w)
  | _, _ => (inl ErrDriver, bump w)
  end.

(** [BeginTxx]: an immediate transaction over the committed tables. *)
Definition begin_tx : M unit := fun o w =>
  match o_io o (w_n w) with
  | IoOk => (inr tt, bump (set_tx (Some (w_db w)) w))
  | _ => (inl ErrDriver, bump w)
  end.

(** [tx.Commit]. *)
Definition commit : M unit := fun o w =>
  match o_io o (w_n w) with
  | IoOk => (inr tt, bump (set_tx None (set_db (current w) w)))
  | IoFail => (inl ErrDriver, bump (set_tx None w))
  | IoFailLanded => (inl ErrDriver, bump (set_tx None (set_db (current w) w)))
  end.

(** A method's transaction: begin, the body, and the deferred rollback that
    drops whatever was not committed. *)
Definition rolled_back {A} (body : M A) : M A := fun o w =>
  let (r, w) := body o w in (r, set_tx None w).

Definition with_tx {A} (body : M A) : M A := begin_tx ;; rolled_back body.
End Commands.

Notation "'guard!' b 'else' e ; k" := (if b then k else fail e)
  (at level 100, b at level 99, e at level 99, k at level 200, right associativity).

(** ** Reasoning about commands *)

Section Laws.
Context {E : Type}.
Abbreviation M := (M E).

Lemma bind_run {A B} (m : M A) (k : A -> M B) o w :
  (m ≫= k) o w = match m o w with (inl e, w') => (inl e, w') | (inr x, w') => k x o w' end.
Proof. done. Qed.

Lemma ret_run {A} (x : A) o w : (mret x : M A) o w = (inr x, w).
Proof. done. Qed.

(** [always R m]: every run of [m] relates its first and last world by [R]. *)
Definition always {A} (R : world E -> world E -> Prop) (m : M A) : Prop :=
  forall o w, R w (m o w).2.

Section Always.
Variable R : world E -> world E -> Prop.
Context `{!PreOrder R}.

Lemma always_ret {A} (x : A) : always R (mret x).
Proof. intros o w. by simpl. Qed.

Lemma always_fail {A} e : always R (fail (A := A) e).
Proof. intros o w. by simpl. Qed.

Lemma always_bind {A B} (m : M A) (k : A -> M B) :
  always R m -> (forall x, always R (k x)) -> always R (m ≫= k).
Proof.
  intros Hm Hk o w. rewrite bind_run. specialize (Hm o w).
  destruct (m o w) as [[e|x] w']; [done|]. simpl in *.
  etransitivity; [done|apply Hk].
Qed.

Lemma always_attempt {A} (m : M A) : always R m -> always R (attempt m).
Proof. intros Hm o w. specialize (Hm o w). unfold attempt. by destruct (m o w). Qed.

Lemma always_ignore {A} (m : M A) : always R m -> always R (ignore m).
Proof. intros Hm. apply always_bind; [by apply always_attempt|]. intros. apply always_ret. Qed.

Lemma always_gets {A} (f : world E -> A) : always R (gets f).
Proof. intros o w. by simpl. Qed.

Lemma always_of_res {A} (r : res A) : always R (of_res (E := E) r).
Proof. destruct r; [apply always_fail|apply always_ret]. Qed.
End Always.

Lemma always_impl {A} (R R' : world E -> world E -> Prop) (m : M A) :
  (forall w w', R w w' -> R' w w') -> always R m -> always R' m.
Proof. intros HR Hm o w. apply HR, Hm. Qed.
End Laws.

#[export] Hint Resolve always_ret always_fail always_bind always_attempt always_ignore
  always_gets always_of_res : dltool.

(** The oracle with a faultless driver. *)
Definition io_ok (o : oracle) : Prop := forall n, o_io o n = IoOk.

(** ** Running a command symbolically

    [run_cmd] unfolds the monad in the goal and follows every answer the
    environment can give. *)

Ltac unfold_cmd :=
  unfold with_tx, rolled_back, begin_tx, commit, exec, query, query_checked, unix_milli, NewID,
    fail, attempt, ignore, gets, ctx_done, mbind, mret, M_bind, M_ret, bump, set_tx, put_current,
    current, set_db, set_cancel, set_fired, set_regw, set_eng, unix_milli in *; simpl in *.

Ltac run_cmd :=
  unfold_cmd;
  repeat (match goal with
    | |- context [match o_io ?o ?n with _ => _ end] => destruct (o_io o n) eqn:?
    | |- context [match ?x with _ => _ end] => destruct x eqn:?
    end; simplify_eq/=).

Section TxLaws.
Context {E : Type}.

(** A transaction either fails to open or runs its body on a copy and leaves
    none open. *)
Lemma with_tx_run {A} (body : M E A) o w :
  with_tx body o w =
    match o_io o (w_n w) with
    | IoOk => let '(r, w') := body o (bump (set_tx (Some (w_db w)) w)) in (r, set_tx None w')
    | _ => (inl ErrDriver, bump w)
    end.
Proof. unfold with_tx, begin_tx, rolled_back. rewrite bind_run. by destruct (o_io o (w_n w)). Qed.

Lemma with_tx_closed {A} (body : M E A) o w :
  w_tx w = None -> w_tx (with_tx body o w).2 = None.
Proof.
  intros Hw. rewrite with_tx_run. destruct (o_io o (w_n w)); [|done..].
  by destruct (body o _).
Qed.
End TxLaws.
