(* ===== verification/Frame.v ===== *)
(** * Frames: what a command may do to the tables

    [keeps S] lifts a relation [S] on tables to commands: whatever the driver
    answers, the committed tables (and the open transaction's copy) move along
    [S], no transaction is left open and engines, leases and the context are
    not touched.  A method's frame follows from its statements' ([walk]). *)

From S2P Require Import Prelude TaskState Schema Lease World.

(** Closes [keeps] between worlds with the same tables. *)
Ltac same := split; [done|intros _; reflexivity|done..].

Section Frames.
Context (S : db -> db -> Prop) `{!PreOrder S}.

(** A statement stays inside [S]. *)
Definition stmt_keeps (q : stmt) : Prop := forall d d' k, q d = Some (d', k) -> S d d'.

Context {E : Type}.
Abbreviation M := (M E).
Abbreviation world := (world E).
Implicit Types w : world.

(** The open transaction's copy is a step ahead of the committed tables. *)
Definition tx_ok w : Prop :=
  match w_tx w with None => True | Some d => S (w_db w) d end.

Record keeps w w' : Prop := {
  k_tx : tx_ok w -> tx_ok w';
  k_db : tx_ok w -> S (w_db w) (w_db w');
  k_none : w_tx w = None -> w_tx w' = None;
  k_leases : w_leases w' = w_leases w;
  k_eng : w_eng w' = w_eng w;
  k_cancel : w_cancel w' = w_cancel w }.

#[global] Instance keeps_pre : PreOrder keeps.
Proof.
  split.
  - intros w. split; [done|intros _; reflexivity|done..].
  - intros u v w [] []. split; [tauto| |tauto|congruence..].
    intros. etransitivity; eauto.
Qed.

Lemma keeps_query {A} (q : db -> A) : always keeps (query (E := E) q).
Proof. intros o w. unfold query. destruct (o_io o (w_n w)); same. Qed.

Lemma keeps_query_checked {A} (q : db -> option A) : always keeps (query_checked (E := E) q).
Proof.
  intros o w. unfold query_checked. destruct (o_io o (w_n w)), (q (current w)); same.
Qed.

Lemma keeps_unix_milli : always keeps (unix_milli (E := E)).
Proof. intros o w. same. Qed.

Lemma keeps_NewID p : always keeps (NewID (E := E) p).
Proof. intros o w. same. Qed.

Lemma keeps_os_stat p : always keeps (os_stat (E := E) p).
Proof. intros o w. same. Qed.

Lemma keeps_statfs p : always keeps (statfs (E := E) p).
Proof. intros o w. same. Qed.

Lemma keeps_err_text e : always keeps (err_text (E := E) e).
Proof. intros o w. same. Qed.

Lemma keeps_put w d : S (current w) d -> keeps w (bump (put_current d w)).
Proof.
  unfold current, put_current. destruct w as [c [t|] ? ? ? ? ? ?]; simpl; intros Hs;
    split; simpl; try done; unfold tx_ok; simpl; try (intros; reflexivity).
  by intros; etransitivity.
Qed.

Lemma keeps_exec_at q o w :
  (forall d k, q (current w) = Some (d, k) -> S (current w) d) ->
  keeps w (exec q o w).2.
Proof.
  intros Hq. unfold exec.
  destruct (o_io o (w_n w)), (q (current w)) as [[d k]|] eqn:Hd; simpl; try same;
    eapply keeps_put, Hq; done.
Qed.

Lemma keeps_exec q : stmt_keeps q -> always keeps (exec (E := E) q).
Proof. intros Hq o w. apply keeps_exec_at. intros. by eapply Hq. Qed.

Lemma keeps_commit : always keeps (commit (E := E)).
Proof.
  intros o [c t ? ? ? ? ? ?]. unfold commit.
  destruct (o_io o _), t; split; simpl; unfold tx_ok; simpl; try done; intros; reflexivity.
Qed.

Lemma keeps_with_tx_at {A} (body : M A) o w :
  keeps (bump (set_tx (Some (w_db w)) w)) (body o (bump (set_tx (Some (w_db w)) w))).2 ->
  keeps w (with_tx body o w).2.
Proof.
  intros Hb. rewrite with_tx_run. destruct (o_io o (w_n w)); [|same..].
  destruct (body o _) as [r w']. simpl in *. destruct Hb as [Ht Hd _ Hl He Hc].
  assert (tx_ok (bump (set_tx (Some (w_db w)) w))) as Hx.
  { unfold tx_ok. simpl. reflexivity. }
  split; simpl; [done|intros _; by apply Hd|done..].
Qed.

Lemma keeps_with_tx {A} (body : M A) : always keeps body -> always keeps (with_tx body).
Proof. intros Hb o w. apply keeps_with_tx_at, Hb. Qed.
End Frames.

#[export] Hint Resolve keeps_query keeps_query_checked keeps_unix_milli keeps_NewID keeps_exec
  keeps_os_stat keeps_statfs keeps_err_text keeps_commit keeps_with_tx : dltool.

(** Walks a command: one [always] lemma per layer, every branch of a [match]. *)
Ltac walk :=
  repeat match goal with
  | |- always _ (_ ≫= _) => apply always_bind; [apply _| |intros ?]
  | |- always (keeps _) (with_tx _) => apply keeps_with_tx; [apply _|]
  | |- always _ (mret _) => apply always_ret; apply _
  | |- always _ (fail _) => apply always_fail; apply _
  | |- always _ (ignore _) => apply always_ignore; [apply _|]
  | |- always _ (attempt _) => apply always_attempt
  | |- always (keeps _) (exec _) => apply keeps_exec; [apply _|]
  | |- always _ (match ?x with _ => _ end) => destruct x eqn:?
  | |- always _ _ => solve [eauto with dltool nocore typeclass_instances]
  end.

(** ** Frames of commands that also call the engines *)

Section Tables.
Context (S : db -> db -> Prop) `{!PreOrder S} {E : Type}.
Implicit Types w : world E.

(** What the tables do; engines, leases and the context are free. *)
Record tables w w' : Prop := {
  ts_tx : tx_ok S w -> tx_ok S w';
  ts_db : tx_ok S w -> S (w_db w) (w_db w');
  ts_none : w_tx w = None -> w_tx w' = None }.

#[global] Instance tables_pre : PreOrder tables.
Proof.
  split.
  - intros w. split; [done|intros _; reflexivity|done].
  - intros u v w [] []. split; [tauto| |tauto]. intros. etransitivity; eauto.
Qed.

Lemma tables_keeps {A} (m : M E A) : always (keeps S) m -> always tables m.
Proof. apply always_impl. intros w w' []. by split. Qed.

Lemma tables_same w w' : w_db w' = w_db w -> w_tx w' = w_tx w -> tables w w'.
Proof.
  intros Hd Ht. split; unfold tx_ok; rewrite ?Ht, ?Hd; intros; first [done|reflexivity].
Qed.

Lemma tables_ctx_done : always tables (ctx_done (E := E)).
Proof.
  intros o w. unfold ctx_done.
  destruct (w_cancel w) as [[|k]|]; simpl; by apply tables_same.
Qed.

Lemma tables_db w w' : tables w w' -> w_tx w = None -> S (w_db w) (w_db w').
Proof. intros [_ Hd _] Hw. apply Hd. unfold tx_ok. by rewrite Hw. Qed.
End Tables.

#[export] Hint Resolve tables_ctx_done : dltool.

Lemma tables_impl (S S' : db -> db -> Prop) {E} (w w' : world E) :
  (forall d d', S d d' -> S' d d') -> w_tx w = None -> tables S w w' -> tables S' w w'.
Proof.
  intros HS Hw [Ht Hd Hn]. unfold tx_ok in *. rewrite Hw in *. split; unfold tx_ok; rewrite ?Hw.
  - intros _. by rewrite (Hn eq_refl).
  - intros _. by apply HS, Hd.
  - done.
Qed.

(** ** Specifications of commands under one oracle *)

Section Spec.
Context {E : Type}.
Implicit Types (P : world E -> Prop).

Definition spec (o : oracle) P {A} (m : M E A) (Q : res A -> world E -> Prop) : Prop :=
  forall w, P w -> Q (m o w).1 (m o w).2.

Lemma spec_ret o P {A} (x : A) (Q : res A -> world E -> Prop) :
  (forall w, P w -> Q (inr x) w) -> spec o P (mret x) Q.
Proof. intros H w Hw. by apply H. Qed.

Lemma spec_fail o P {A} e (Q : res A -> world E -> Prop) :
  (forall w, P w -> Q (inl e) w) -> spec o P (fail e) Q.
Proof. intros H w Hw. by apply H. Qed.

Lemma spec_bind o P {A B} (m : M E A) (k : A -> M E B) Q1 (Q : res B -> world E -> Prop) :
  spec o P m Q1 -> (forall e w, Q1 (inl e) w -> Q (inl e) w) ->
  (forall x, spec o (Q1 (inr x)) (k x) Q) -> spec o P (m ≫= k) Q.
Proof.
  intros Hm He Hk w Hw. rewrite bind_run. specialize (Hm w Hw).
  destruct (m o w) as [[e|x] w']; simpl in *; [by apply He|by apply Hk].
Qed.

Lemma spec_attempt o P {A} (m : M E A) Q :
  spec o P m Q ->
  spec o P (attempt m) (fun r w => match r with inl _ => False | inr r => Q r w end).
Proof. intros Hm w Hw. unfold attempt. specialize (Hm w Hw). by destruct (m o w). Qed.

Lemma spec_weaken o P P' {A} (m : M E A) (Q Q' : res A -> world E -> Prop) :
  spec o P m Q -> (forall w, P' w -> P w) -> (forall r w, Q r w -> Q' r w) -> spec o P' m Q'.
Proof. intros Hm HP HQ w Hw. by apply HQ, Hm, HP. Qed.

Lemma spec_always o (R : world E -> world E -> Prop) `{!Transitive R} {A} (m : M E A) w0 :
  always R m -> spec o (R w0) m (fun _ => R w0).
Proof. intros Hm w Hw. etransitivity; [exact Hw|apply Hm]. Qed.

(** A step that keeps [R] and whose error is the caller's. *)
Lemma spec_step o (R : world E -> world E -> Prop) `{!Transitive R} {A B} (m : M E A)
    (k : A -> M E B) (Q : res B -> world E -> Prop) w0 :
  always R m -> (forall e w, R w0 w -> Q (inl e) w) -> (forall x, spec o (R w0) (k x) Q) ->
  spec o (R w0) (m ≫= k) Q.
Proof.
  intros Hm He Hk. eapply spec_bind; [by apply spec_always|done|]. intros x w Hw. by apply Hk.
Qed.

(** The same when the error is handed over as a value. *)
Lemma spec_try o (R : world E -> world E -> Prop) `{!Transitive R} {A B} (m : M E A)
    (k : res A -> M E B) (Q : res B -> world E -> Prop) w0 :
  always R m -> (forall r, spec o (R w0) (k r) Q) -> spec o (R w0) (attempt m ≫= k) Q.
Proof.
  intros Hm Hk w Hw. rewrite bind_run. unfold attempt. specialize (Hm o w).
  destruct (m o w) as [r w']. apply Hk. by etransitivity.
Qed.
End Spec.

(** ** Frames between closed worlds

    The same for worlds with no transaction open: monotone in [S]. *)

Section Closed.
Context (S : db -> db -> Prop) `{!PreOrder S} {E : Type}.
Implicit Types w : world E.

Definition closed w w' : Prop := w_tx w = None -> w_tx w' = None /\ S (w_db w) (w_db w').

#[global] Instance closed_pre : PreOrder closed.
Proof.
  split; [intros w Hw; split; [done|reflexivity]|]. intros u v w Huv Hvw Hu.
  destruct (Huv Hu) as [Hv ?]. destruct (Hvw Hv) as [? ?]. split; [done|by etransitivity].
Qed.

Lemma closed_same w w' : w_db w' = w_db w -> w_tx w' = w_tx w -> closed w w'.
Proof. intros Hd Ht Hw. rewrite Hd, Ht. split; [done|reflexivity]. Qed.
End Closed.

Lemma closed_tables (S S' : db -> db -> Prop) `{!PreOrder S} {E A} (m : M E A) :
  (forall d d', S d d' -> S' d d') -> always (tables S) m -> always (closed S') m.
Proof.
  intros HS Hm o w Hw. split; [by apply (ts_none _ _ _ (Hm o w))|].
  apply HS. by apply (tables_db S); [apply Hm|].
Qed.

(** A poll of the context: it is over, or nothing but the poll happened. *)
Lemma ctx_done_run {E} o (w : world E) :
  (ctx_done o w = (inr true, w) /\ w_cancel w = Some 0) \/
  exists w', ctx_done o w = (inr false, w') /\ w_db w' = w_db w /\ w_tx w' = w_tx w.
Proof. unfold ctx_done. destruct (w_cancel w) as [[|k]|]; [by left|right..]; by eexists. Qed.
