(* ===== verification/Fsx.v ===== *)
(** * Disk space ([internal/fsx/space.go])

    The reservation arithmetic of the admission pass: floors per data root, the
    [statfs] answer with its overflow guards, the climb to the nearest existing
    ancestor and the reservation test. *)

From stdpp Require Import pretty.
From S2P Require Import Prelude TaskState Schema Lease World.

Section Space.
Context {E : Type}.
Abbreviation M := (M E).
Local Open Scope Z_scope.

Definition DefaultMinFreeBytes : Z := 2147483648.

(** One iteration of the loop of [Floor] over the stored map. *)
Definition floor_step (cleaned : string) (key : string) (value : Z) (best : option Z) : option Z :=
  if (0 <=? value) && bool_decide (Clean key = cleaned) &&
     match best with None => true | Some floor => floor <? value end
  then Some value else best.

(** [Floor]. *)
Definition Floor (minFree : gmap string Z) (root : string) : Z :=
  default DefaultMinFreeBytes (map_fold (floor_step (Clean root)) None minFree).

Record Space := MkSpace { FreeBytes : Z; TotalSpace : Z }.

Definition maxInt64 : Z := 2 ^ 63 - 1.

(** The arithmetic of [FreeSpace] on one [statfs] answer. *)
Definition space_of (st : Statfs_t) : option Space :=
  let frsize := if Frsize st =? 0 then Bsize st else Frsize st in
  if frsize <? 0 then None
  else if (0 <? frsize) && ((maxInt64 / frsize <? Bavail st) || (maxInt64 / frsize <? Blocks st))
  then None
  else Some (MkSpace (wrap64 (wrap64 (Bavail st) * frsize)) (wrap64 (wrap64 (Blocks st) * frsize))).

(** The loop of [existingAncestor]; [fuel] bounds the climb. *)
Fixpoint climb (fuel : nat) (current : string) : M (option string) :=
  match fuel with
  | O => mret None
  | S fuel =>
    st ← os_stat current;
    match st with
    | StatDir _ => mret (Some current)
    | StatFile _ | StatFailed => fail ErrFs
    | StatNotExist | StatNotDir =>
      if bool_decide (current = "/"%string) then fail ErrFs
      else if bool_decide (Dir current = current) then fail ErrFs
      else climb fuel (Dir current)
    end
  end.

(** The climb's fuel: every step shortens the path ([climb_enough]). *)
Definition climb_fuel (path : string) : nat := S (String.length path).

(** [existingAncestor]. *)
Definition existingAncestor (path : string) : M string :=
  if negb (IsAbs path) then fail ErrFs
  else
    r ← climb (climb_fuel path) path;
    match r with Some p => mret p | None => fail ErrPanic end.

(** [FreeSpace]. *)
Definition FreeSpace (path : string) : M Space :=
  actual ← existingAncestor path;
  st ← statfs actual;
  match st with
  | None => fail ErrFs
  | Some st => match space_of st with Some s => mret s | None => fail ErrFs end
  end.

(** [FilesystemID]. *)
Definition FilesystemID (path : string) : M string :=
  actual ← existingAncestor path;
  st ← os_stat actual;
  match st with
  | StatDir dev | StatFile dev => mret ("dev:" +:+ pretty dev)%string
  | _ => fail ErrFs
  end.

Record Reservation := MkReservation {
  FilesystemId : string; rFreeBytes : Z; CommittedBytes : Z; MinFreeBytes : Z }.

(** [Admits]. *)
Definition Admits (r : Reservation) (remaining : Z) : bool :=
  if (rFreeBytes r <? 0) || (CommittedBytes r <? 0) || (MinFreeBytes r <? 0) || (remaining <? 0)
  then false
  else
    let available := rFreeBytes r in
    if available <? MinFreeBytes r then false
    else
      let available := wrap64 (available - MinFreeBytes r) in
      if available <? CommittedBytes r then false
      else
        let available := wrap64 (available - CommittedBytes r) in
        remaining <=? available.

(** ** Properties *)

Lemma Admits_iff r remaining :
  in_int64 (rFreeBytes r) -> in_int64 (CommittedBytes r) -> in_int64 (MinFreeBytes r) ->
  Admits r remaining = true <->
    0 <= rFreeBytes r /\ 0 <= CommittedBytes r /\ 0 <= MinFreeBytes r /\ 0 <= remaining /\
    remaining <= rFreeBytes r - CommittedBytes r - MinFreeBytes r.
Proof.
  unfold Admits, in_int64, int64_min, int64_max. intros.
  destruct (_ || (remaining <? 0)) eqn:Hneg; [lia|].
  destruct (rFreeBytes r <? MinFreeBytes r) eqn:?; [lia|].
  rewrite (wrap64_id (rFreeBytes r - MinFreeBytes r)) by (unfold in_int64, int64_min, int64_max; lia).
  destruct (_ <? CommittedBytes r) eqn:?; [lia|].
  rewrite wrap64_id by (unfold in_int64, int64_min, int64_max; lia). lia.
Qed.

(** [Admits] is the inequality [free - committed - floor >= remaining] over
    the integers - no intermediate wraps - and a negative figure never
    admits. *)
Theorem Admits_spec r remaining :
  in_int64 (rFreeBytes r) -> in_int64 (CommittedBytes r) -> in_int64 (MinFreeBytes r) ->
  Admits r remaining = true <->
    0 <= rFreeBytes r /\ 0 <= CommittedBytes r /\ 0 <= MinFreeBytes r /\ 0 <= remaining /\
    remaining <= rFreeBytes r - CommittedBytes r - MinFreeBytes r.
Proof. apply Admits_iff. Qed.

Lemma Admits_spec_witness :
  Admits (MkReservation "dev:1" 100 30 20) 50 = true <->
    0 <= 100 /\ 0 <= 30 /\ 0 <= 20 /\ 0 <= 50 /\ 50 <= 100 - 30 - 20.
Proof. apply (Admits_spec (MkReservation "dev:1" 100 30 20) 50); split; vm_compute; congruence. Defined.

(** A [statfs] answer is turned into byte counts only when they are exact:
    the products are the mathematical ones, non-negative and inside 63 bits;
    every other answer is an error. *)
Theorem space_of_exact st :
  0 <= Bavail st < 2 ^ 64 -> 0 <= Blocks st < 2 ^ 64 -> in_int64 (Frsize st) -> in_int64 (Bsize st) ->
  let frsize := if Frsize st =? 0 then Bsize st else Frsize st in
  match space_of st with
  | Some s => FreeBytes s = Bavail st * frsize /\ TotalSpace s = Blocks st * frsize /\
      0 <= FreeBytes s <= int64_max /\ 0 <= TotalSpace s <= int64_max
  | None => frsize < 0 \/ int64_max < Bavail st * frsize \/ int64_max < Blocks st * frsize
  end.
Proof.
  intros Hb Hk Hf Hs frsize. unfold space_of. fold frsize.
  destruct (frsize <? 0) eqn:Hneg; [lia|].
  assert (Hr : 0 <= frsize <= int64_max).
  { unfold in_int64, int64_min, int64_max in *. subst frsize. destruct (Frsize st =? 0); lia. }
  destruct (decide (frsize = 0)) as [Hz|Hz].
  { rewrite Hz. simpl. rewrite !Z.mul_0_r. vm_compute; repeat split; congruence. }
  assert (Hp : forall x, 0 <= x -> (maxInt64 / frsize <? x) = false <-> x * frsize <= int64_max).
  { intros x Hx. rewrite Z.ltb_ge. unfold maxInt64, int64_max. split; intros H.
    - pose proof (Z.mul_div_le (2 ^ 63 - 1) frsize). nia.
    - apply Z.div_le_lower_bound; lia. }
  destruct (0 <? frsize) eqn:?; [|lia]. simpl.
  destruct (maxInt64 / frsize <? Bavail st) eqn:H1; simpl.
  { right; left. destruct (Z.le_gt_cases (Bavail st * frsize) int64_max) as [H|H]; [|lia].
    apply Hp in H; [congruence|lia]. }
  destruct (maxInt64 / frsize <? Blocks st) eqn:H2; simpl.
  { right; right. destruct (Z.le_gt_cases (Blocks st * frsize) int64_max) as [H|H]; [|lia].
    apply Hp in H; [congruence|lia]. }
  apply Hp in H1; [|lia]. apply Hp in H2; [|lia].
  assert (Hw : forall x, 0 <= x -> x * frsize <= int64_max -> wrap64 (wrap64 x * frsize) = x * frsize).
  { intros x Hx Hxf. rewrite (wrap64_id x) by (unfold in_int64, int64_min, int64_max in *; nia).
    apply wrap64_id. unfold in_int64, int64_min, int64_max in *. nia. }
  rewrite !Hw by lia. repeat split; nia.
Qed.

Lemma space_of_exact_witness :
  exists s, space_of (MkStatfs 5 9 4096 512) = Some s /\ FreeBytes s = 5 * 4096 /\ TotalSpace s = 9 * 4096.
Proof.
  assert (H := space_of_exact (MkStatfs 5 9 4096 512)). eexists. split; [reflexivity|].
  destruct H as (H1 & H2 & _); try (split; vm_compute; congruence).
Defined.

Lemma floor_step_comm cleaned k1 k2 v1 v2 b :
  floor_step cleaned k1 v1 (floor_step cleaned k2 v2 b) =
  floor_step cleaned k2 v2 (floor_step cleaned k1 v1 b).
Proof.
  unfold floor_step.
  destruct (0 <=? v1) eqn:?, (0 <=? v2) eqn:?, (bool_decide (Clean k1 = cleaned)),
    (bool_decide (Clean k2 = cleaned)), b as [f|]; cbn [andb]; try done;
    repeat (match goal with |- context [?x <? ?y] => destruct (x <? y) eqn:? end; cbn [andb]);
    try done; try lia; f_equal; lia.
Qed.

(** The floor of a root is the largest non-negative entry whose key cleans to
    the root, whatever the map's order, and 2 GiB when there is none: no entry
    lowers the floor below another one for the same root. *)
Theorem Floor_spec minFree root :
  let matching k v := minFree !! k = Some v /\ 0 <= v /\ Clean k = Clean root in
  (forall k v, matching k v -> v <= Floor minFree root) /\
  ((exists k v, matching k v /\ Floor minFree root = v) \/
   (forall k v, ~ matching k v) /\ Floor minFree root = DefaultMinFreeBytes).
Proof.
  simpl.
  assert (H : match map_fold (floor_step (Clean root)) None minFree with
    | Some f => (exists k, minFree !! k = Some f /\ 0 <= f /\ Clean k = Clean root) /\
        (forall k v, minFree !! k = Some v -> 0 <= v -> Clean k = Clean root -> v <= f)
    | None => forall k v, minFree !! k = Some v -> 0 <= v -> Clean k = Clean root -> False
    end).
  { induction minFree as [|i x m Hi IH] using map_ind.
    { rewrite map_fold_empty. intros k v Hk. by rewrite lookup_empty in Hk. }
    rewrite map_fold_insert_L; [| |done].
    2:{ intros. apply floor_step_comm. }
    unfold floor_step at 1. set (fld := map_fold _ _ m) in *.
    destruct ((0 <=? x) && bool_decide (Clean i = Clean root)) eqn:Hx.
    - apply andb_true_iff in Hx as [Hx Hc%bool_decide_eq_true].
      destruct fld as [f|]; cbn [andb].
      + destruct (f <? x) eqn:Hlt.
        * split; [exists i; rewrite lookup_insert_eq; repeat split; [lia|done]|].
          intros k v [[-> ->]|[Hne Hk]]%lookup_insert_Some ? ?; [lia|].
          destruct IH as [_ IH]. enough (v <= f) by lia. by eapply IH.
        * destruct IH as [(k & Hk & ?) IH]. split.
          { exists k. rewrite lookup_insert_ne; [done|]. intros ->. congruence. }
          intros k' v [[-> ->]|[Hne Hk']]%lookup_insert_Some ? ?; [lia|]. by eapply IH.
      + split; [exists i; rewrite lookup_insert_eq; repeat split; [lia|done]|].
        intros k v [[-> ->]|[Hne Hk]]%lookup_insert_Some ? ?; [lia|]. exfalso. by eapply IH.
    - cbn [andb]. destruct fld as [f|].
      + destruct IH as [(k & Hk & ?) IH]. split.
        { exists k. rewrite lookup_insert_ne; [done|]. intros ->. congruence. }
        intros k' v [[-> ->]|[Hne Hk']]%lookup_insert_Some ? ?; [|by eapply IH].
        rewrite bool_decide_true in Hx by done. lia.
      + intros k v [[-> ->]|[Hne Hk]]%lookup_insert_Some ? ?; [|by eapply IH].
        rewrite bool_decide_true in Hx by done. lia. }
  unfold Floor. destruct (map_fold _ _ _) as [f|]; simpl.
  - destruct H as [(k & ? & ? & ?) H]. split; [naive_solver|]. left. naive_solver.
  - split; [naive_solver|]. right. naive_solver.
Qed.

(** The climb always ends by itself: an absolute path is resolved or refused
    before its fuel runs out, so [existingAncestor] never falls off its loop. *)
Theorem existingAncestor_terminates path o (w : world E) :
  (existingAncestor path o w).1 <> inl ErrPanic.
Proof.
  unfold existingAncestor. destruct (IsAbs path) eqn:Habs; [|done]. cbn [negb].
  assert (H : forall fuel cur w, IsAbs cur = true -> (String.length cur < fuel)%nat ->
    match (climb fuel cur o w).1 with inr None => False | inl e => e = ErrFs | _ => True end).
  { induction fuel as [|fuel IH]; intros cur w0 Hc Hf; [lia|].
    cbn [climb]. rewrite bind_run. unfold os_stat. destruct (o_stat o (w_n w0) cur);
      try (simpl; first [done|exact I]);
      (case_bool_decide; [done|]); (case_bool_decide; [done|]); apply IH;
      [by apply Dir_abs|pose proof (Dir_shorter cur Hc); intuition lia|
       by apply Dir_abs|pose proof (Dir_shorter cur Hc); intuition lia]. }
  specialize (H (climb_fuel path) path w Habs (Nat.lt_succ_diag_r _)). rewrite bind_run.
  destruct (climb (climb_fuel path) path o w) as [[e|[p|]] w'']; [by rewrite H|done|done].
Qed.
End Space.
