(* ===== verification/Engine.v ===== *)
(** * The engine interface ([internal/engine/engine.go], [router.go])

    The types every adapter speaks, the interface the control plane calls them
    through, and the routing table that picks an engine for a submission.  The
    interface is a type class over the state [E] of everything behind it:
    client theorems hold for every instance. *)

From Stdlib Require Import SpecFloat.
From S2P Require Import Prelude TaskState Schema Lease World.

(** [Capability]. *)
Inductive Capability :=
  | CapHTTP | CapFTP | CapSFTP | CapBitTorrent | CapMagnet | CapMetalink | CapMediaSite | CapNZB
  | CapPerFileSelect | CapPerFilePriority | CapCategories | CapTags | CapSequential
  | CapSetLocation | CapRename | CapShareLimits | CapSearch | CapRSSRules | CapBTV2 | CapPushEvents.

#[global] Instance Capability_eq_dec : EqDecision Capability.
Proof. solve_decision. Defined.

(** [AddRequest]. *)
Record AddRequest := MkAdd {
  URIs : list string; Blob : option (list Byte.byte); BlobKind : string; SaveDir : string;
  Filename : string; Category : string; Tags : list string; StartPaused : bool;
  Sequential : bool; SelectFiles : option (list Z); Extra : gmap string string }.

(** [FileEntry]. *)
Record FileEntry := MkFileEntry {
  fe_index : Z; fe_path : string; fe_size : Z; fe_completed : Z; fe_selected : bool;
  fe_priority : option Z }.

(** [TaskInfo]. *)
Record TaskInfo := MkInfo {
  ti_ID : string; ti_Engine : string; ti_Name : string; ti_State : TaskState;
  ti_TotalBytes : option Z; ti_CompletedBytes : Z; ti_UploadedBytes : Z; ti_DownloadRate : Z;
  ti_UploadRate : Z; ti_ETASeconds : option Z; ti_SaveDir : string; ti_ContentPath : string;
  ti_ErrorCode : string; ti_ErrorMessage : string; ti_InfohashV1 : string; ti_InfohashV2 : string;
  ti_NumSeeds : option Z; ti_NumPeers : option Z; ti_Ratio : option spec_float;
  ti_CreatedAt : option Z; ti_CompletedAt : option Z }.

(** [Engine], the methods the modelled clients call.  The first argument of
    each is the engine's registered name; a call may do anything to [E]. *)
Class EngineApi (E : Type) := {
  registered : list string;
  Capabilities : string -> list Capability;
  eng_Add : string -> AddRequest -> E -> res string * E;
  eng_List : string -> E -> res (list TaskInfo) * E;
  eng_Get : string -> string -> E -> res TaskInfo * E;
  eng_Files : string -> string -> E -> res (list FileEntry) * E;
  eng_Pause : string -> string -> E -> res unit * E;
  eng_Resume : string -> string -> E -> res unit * E;
  eng_Remove : string -> string -> E -> res unit * E;
  eng_SetFiles : string -> string -> list Z -> option (gmap Z Z) -> E -> res unit * E;
  eng_SetRateLimits : string -> string -> option Z -> option Z -> E -> res unit * E }.

Section Calls.
Context {E : Type} `{!EngineApi E}.

(** A call through the interface: it sees and changes the engines only. *)
Definition call {A} (f : E -> res A * E) : M E A := fun o w =>
  let (r, e) := f (w_eng w) in (r, set_eng e w).

(** [Registry.Get]. *)
Definition registry_get (name : string) : bool := contains registered name.
End Calls.

(** [namespacedHandle] and [bareHandle]. *)
Definition namespacedHandle (engineName ref : string) : string := engineName +:+ ":" +:+ ref.
Definition bareHandle (engineName id : string) : string := trim_prefix (engineName +:+ ":") id.

Lemma bare_namespaced engineName ref : bareHandle engineName (namespacedHandle engineName ref) = ref.
Proof.
  unfold bareHandle, namespacedHandle.
  assert (H : forall n, n +:+ ":" +:+ ref = (n +:+ ":") +:+ ref).
  { induction n as [|a n IH]; [done|].
    change (String a (n +:+ ":" +:+ ref) = String a ((n +:+ ":") +:+ ref)). by rewrite IH. }
  rewrite H. apply trim_prefix_app.
Qed.

(** ** Routing *)

Module Router.

(** [uri.Kind]. *)
Inductive Kind := KindHTTP | KindFTP | KindSFTP | KindMagnet | KindTorrent | KindMetalink | KindMedia.

#[global] Instance Kind_eq_dec : EqDecision Kind.
Proof. solve_decision. Defined.

(** [uri.Normalized], the fields routing reads. *)
Record Normalized := MkNormalized { n_Kind : Kind; n_URI : string }.

Definition NameAria2 : string := "aria2".
Definition NameQBittorrent : string := "qbittorrent".
Definition NameYtDlp : string := "ytdlp".

Definition infohashV1HexChars : nat := 40.
Definition infohashV2HexChars : nat := 64.

Definition isHexDigit (c : Ascii.ascii) : bool :=
  let n := Ascii.nat_of_ascii c in
  (48 <=? n) && (n <=? 57) || (97 <=? n) && (n <=? 102) || (65 <=? n) && (n <=? 70).

(** [isBareInfohash]. *)
Definition isBareInfohash (s : string) : bool :=
  if negb (Nat.eqb (String.length s) infohashV1HexChars)
     && negb (Nat.eqb (String.length s) infohashV2HexChars)
  then false
  else forallb isHexDigit (String.list_ascii_of_string s).

(** [Route]; [None] is [ErrNoEngine], and [mediaMatch] is nil as [None]. *)
Definition Route (n : Normalized) (mediaMatch : option (string -> bool)) : option string :=
  if bool_decide (n_Kind n = KindMagnet) || bool_decide (n_Kind n = KindTorrent)
     || isBareInfohash (n_URI n) then Some NameQBittorrent
  else if match mediaMatch with Some f => f (n_URI n) | None => false end then Some NameYtDlp
  else match n_Kind n with
       | KindHTTP | KindFTP | KindSFTP | KindMetalink => Some NameAria2
       | _ => None
       end.

(** Every routed submission names an engine of the [tasks.engine] vocabulary,
    and a BitTorrent identity - magnet, torrent or a bare infohash of either
    length, whatever a media extractor claims - goes to qBittorrent. *)
Theorem Route_total n mediaMatch :
  match Route n mediaMatch with
  | Some name => name ∈ engine_names /\
      (name = NameQBittorrent <->
        n_Kind n = KindMagnet \/ n_Kind n = KindTorrent \/ isBareInfohash (n_URI n) = true)
  | None => n_Kind n = KindMedia
  end.
Proof.
  unfold Route. destruct (isBareInfohash (n_URI n)) eqn:Hb, (n_Kind n);
    (destruct mediaMatch as [f|]; [destruct (f (n_URI n))|]); simpl;
    first [done | split; [set_solver | split; [intros; auto; done | naive_solver]]].
Qed.
End Router.
