(* ===== verification/Adapters.v ===== *)
(** * What the adapters report ([engine/aria2/map.go], [engine/qbittorrent/map.go])

    The pure half of the two torrent-capable adapters: a daemon's status object
    becomes an [engine.TaskInfo].  Every code and state that comes out is of the
    store's vocabulary, every number fits its column. *)

From Stdlib Require Import SpecFloat.
From stdpp Require Import pretty.
From S2P Require Import Prelude GoStrings TaskState Schema Lease World Engine.

Open Scope Z_scope.

(** [strings.ToLower]. *)
Definition lower_string `{!UnicodeTables} (s : string) : string := string_of (ToLower (bytes_of s)).

(** ** aria2 *)

Module Aria2.

(** [fileEntry]. *)
Record fileEntry := MkFileEntry {
  Index : string; Path : string; Length : string; fCompletedLength : string; Selected : string }.

(** [statusResult], the keys the mapping reads; a pointer is an option. *)
Record statusResult := MkStatus {
  GID : string; Status : string; TotalLength : string; CompletedLength : string;
  UploadLength : string; DownloadSpeed : string; UploadSpeed : string; Dir : string;
  Files : list fileEntry; ErrorCode : option string; ErrorMessage : option string;
  InfoHash : option string; NumSeeders : option string; Seeder : option string;
  Connections : option string; VerifiedLength : option string;
  VerifyIntegrityPending : option string }.

Definition aria2True : string := "true".

(** [parseInt64]. *)
Definition parseInt64 (s : string) : Z := default 0 (ParseInt (bytes_of s)).

(** [toState]. *)
Definition toState (r : statusResult) : TaskState :=
  if bool_decide (is_Some (VerifyIntegrityPending r)) || bool_decide (is_Some (VerifiedLength r))
  then StateChecking
  else if bool_decide (Status r = "active"%string) && bool_decide (Seeder r = Some aria2True)
  then StateSeeding
  else if bool_decide (Status r = "active"%string) then StateDownloading
  else if bool_decide (Status r = "waiting"%string) then StateQueued
  else if bool_decide (Status r = "paused"%string) then StatePaused
  else if bool_decide (Status r = "complete"%string) then StateCompleted
  else if bool_decide (Status r = "error"%string) then StateError
  else if bool_decide (Status r = "removed"%string) then StateRemoved
  else StateQueued.

(** [toErrorCode]. *)
Definition toErrorCode (code : string) : string :=
  if bool_decide (code = EmptyString) || bool_decide (code = "0"%string) then EmptyString
  else
    let n := parseInt64 code in
    (if contains [3; 4; 6]%Z n then "broken_link"
     else if contains [2; 5]%Z n then "timeout"
     else if (n =? 8)%Z then "not_supported_type"
     else if (n =? 9)%Z then "disk_full"
     else if contains [11; 12]%Z n then "torrent_duplicate"
     else "unknown")%string.

(** [toTotalBytes]. *)
Definition toTotalBytes (s : string) : option Z :=
  if bool_decide (s = EmptyString) then None
  else let n := parseInt64 s in if n =? 0 then None else Some n.

(** [firstSelectedPath]. *)
Definition firstSelectedPath (fs : list fileEntry) : string :=
  match List.find (fun f => bool_decide (Selected f = aria2True)) fs with
  | Some f => Path f
  | None => EmptyString
  end.

(** [toTaskInfo]. *)
Definition toTaskInfo `{!UnicodeTables} (r : statusResult) : TaskInfo :=
  MkInfo (Router.NameAria2 +:+ ":" +:+ GID r) Router.NameAria2 EmptyString (toState r)
    (toTotalBytes (TotalLength r)) (parseInt64 (CompletedLength r)) (parseInt64 (UploadLength r))
    (parseInt64 (DownloadSpeed r)) (parseInt64 (UploadSpeed r)) None (Dir r)
    (firstSelectedPath (Files r))
    (match ErrorCode r with Some c => toErrorCode c | None => EmptyString end)
    (default EmptyString (ErrorMessage r))
    (match InfoHash r with Some h => lower_string h | None => EmptyString end) EmptyString
    (parseInt64 <$> NumSeeders r) (parseInt64 <$> Connections r) None None None.

(** [toFileEntries]; the empty slice is nil. *)
Definition toFileEntries (fs : list fileEntry) : list FileEntry :=
  (fun f => Engine.MkFileEntry (wrap64 (parseInt64 (Index f) - 1)) (Path f) (parseInt64 (Length f))
              (parseInt64 (fCompletedLength f)) (bool_decide (Selected f = aria2True)) None) <$> fs.
End Aria2.

(** ** qBittorrent *)

Module Qbt.

(** [torrentJSON], the keys the projection reads. *)
Record torrentJSON := MkTorrent {
  Hash : string; InfohashV1 : string; InfohashV2 : string; HasMetadata : bool; Name : string;
  State : string; Progress : spec_float; Size : Z; Completed : Z; Uploaded : Z; DlSpeed : Z;
  UpSpeed : Z; ETA : Z; Ratio : spec_float; SavePath : string; ContentPath : string;
  NumSeeds : Z; NumLeechs : Z; AddedOn : Z; CompletionOn : Z }.

(** [progressComplete]: 1.0 in binary64. *)
Definition progressComplete : spec_float := S754_finite false 4503599627370496 (-52).

Definition is_state (s : string) (l : list string) : bool := contains l s.

(** [normaliseState]. *)
Definition normaliseState (state : string) (progress : spec_float) : TaskState :=
  if is_state state ["downloading"; "metaDL"; "forcedDL"; "forcedMetaDL"; "stalledDL"]%string
  then StateDownloading
  else if is_state state ["uploading"; "forcedUP"; "stalledUP"]%string then StateSeeding
  else if is_state state ["queuedDL"; "queuedUP"; "allocating"]%string then StateQueued
  else if is_state state ["pausedDL"; "stoppedDL"]%string then StatePaused
  else if is_state state ["pausedUP"; "stoppedUP"]%string then
    if SFleb progressComplete progress then StateCompleted else StatePaused
  else if is_state state ["checkingDL"; "checkingUP"; "checkingResumeData"; "moving"]%string
  then StateChecking
  else if is_state state ["error"; "missingFiles"]%string then StateError
  else StateQueued.

Definition etaSentinel : Z := 8640000.

(** [etaSeconds]. *)
Definition etaSeconds (eta : Z) : option Z :=
  if (etaSentinel <=? eta) || (eta <? 0) then None else Some eta.

(** [secondsToTime]; a time is kept as its Unix seconds. *)
Definition secondsToTime (sec : Z) : option Z := if sec <=? 0 then None else Some sec.

(** [toTaskInfo]. *)
Definition toTaskInfo `{!UnicodeTables} (t : torrentJSON) : TaskInfo :=
  let state := normaliseState (State t) (Progress t) in
  MkInfo (Router.NameQBittorrent +:+ ":" +:+ Hash t) Router.NameQBittorrent (Name t) state
    (if HasMetadata t then Some (Size t) else None) (Completed t) (Uploaded t) (DlSpeed t)
    (UpSpeed t) (etaSeconds (ETA t)) (SavePath t) (ContentPath t)
    (if bool_decide (state = StateError) then "unknown"%string else EmptyString) EmptyString
    (lower_string (InfohashV1 t)) (lower_string (InfohashV2 t)) (Some (NumSeeds t))
    (Some (NumLeechs t)) (Some (Ratio t)) (secondsToTime (AddedOn t)) (secondsToTime (CompletionOn t)).

(** [splitTags]. *)
Definition splitTags (tags : string) : list string :=
  List.filter (fun v => negb (bool_decide (v = EmptyString)))
    ((fun p => string_of (TrimSpace (bytes_of p))) <$> split_byte (Ascii.ascii_of_nat 44) tags).
End Qbt.

(** ** The vocabulary of the reports *)

(** What the store may be handed: a code of its vocabulary, numbers of their
    columns' width, a handle of the adapter's name. *)
Record well_reported (name : string) (info : TaskInfo) : Prop := {
  wr_code : ti_ErrorCode info = EmptyString \/ ti_ErrorCode info ∈ taskErrorCodes;
  wr_handle : exists ref, ti_ID info = namespacedHandle name ref /\
    bareHandle name (ti_ID info) = ref;
  wr_engine : ti_Engine info = name /\ name ∈ engine_names;
  wr_total : forall n, ti_TotalBytes info = Some n -> in_int64 n /\ n <> 0;
  wr_numbers : in_int64 (ti_CompletedBytes info) /\ in_int64 (ti_UploadedBytes info) /\
    in_int64 (ti_DownloadRate info) /\ in_int64 (ti_UploadRate info) }.

Lemma parseInt64_range s : in_int64 (Aria2.parseInt64 s).
Proof.
  unfold Aria2.parseInt64. destruct (ParseInt _) eqn:H; [by eapply ParseInt_range|by vm_compute].
Qed.

Lemma toErrorCode_known code : Aria2.toErrorCode code = EmptyString \/
  Aria2.toErrorCode code ∈ taskErrorCodes.
Proof.
  unfold Aria2.toErrorCode. cbv zeta. case_match; [by left|right].
  repeat case_match; by apply contains_spec.
Qed.

(** Whatever aria2 answers - absent keys, unparsable or overflowing numbers,
    unknown codes - the report the store is handed is well-formed. *)
Theorem aria2_reports_well `{!UnicodeTables} r : well_reported Router.NameAria2 (Aria2.toTaskInfo r).
Proof.
  split; simpl.
  - destruct (Aria2.ErrorCode r); [apply toErrorCode_known|by left].
  - exists (Aria2.GID r). split; [done|apply bare_namespaced].
  - split; [done|by apply contains_spec].
  - intros n. unfold Aria2.toTotalBytes. case_bool_decide; [done|]. cbv zeta.
    destruct (_ =? 0) eqn:Hz; [done|]. intros. simplify_eq. split; [apply parseInt64_range|lia].
  - repeat split; apply parseInt64_range.
Qed.
