(* ===== verification/QbSync.v ===== *)
(** * The qBittorrent delta cache ([engine/qbittorrent/sync.go])

    A one-goroutine poll loop asks the daemon for what changed since the last
    accepted response and merges the answer into a cache that holds the torrents
    the control plane owns, and only those.  Ownership is a snapshot taken from
    the reconciler's listing at every pass; a torrent the snapshot rejects leaves
    nothing but its identifier behind.

    A JSON object is the map of its members.  Go iterates maps in no order; the
    loops over them are written as operations on the whole map, or as folds in
    the canonical order where a loop also calls a method. *)

From Stdlib Require Import SpecFloat.
From stdpp Require Import fin_maps sorting pretty.
From S2P Require Import Prelude GoStrings TaskState Schema Lease World Engine Adapters.

Open Scope Z_scope.

(** ** JSON values *)

(** What [json.Unmarshal] leaves in an [any]: a number whose value prints as an
    integer, any other number, and arrays and objects by their text.  Numbers
    are kept up to Go's [==]. *)
Inductive jv :=
  | JNull | JBool (b : bool) | JInt (n : Z) | JFloat (x : spec_float) | JString (s : string)
  | JComposite (text : string).

#[global] Instance spec_float_eq_dec : EqDecision spec_float.
Proof. solve_decision. Defined.
#[global] Instance jv_eq_dec : EqDecision jv.
Proof. solve_decision. Defined.

Abbreviation object := (gmap string jv).

(** The type assertions [v.(string)] of a member. *)
Definition as_string (o : object) (name : string) : string :=
  match o !! name with Some (JString s) => s | _ => EmptyString end.

(** [maindata]; a torrent's raw value is what it decodes to, [None] when it is
    not an object ([decodeTorrentFields]). *)
Record maindata := MkMaindata {
  Rid : Z; FullUpdate : bool; Torrents : gmap string (option object);
  TorrentsRemoved : list string }.

Record infohashPair := MkPair { v1 : string; v2 : string }.
#[global] Instance infohashPair_eq_dec : EqDecision infohashPair.
Proof. solve_decision. Defined.

(** The zero value a lookup of an absent key reads. *)
Definition noPair : infohashPair := MkPair EmptyString EmptyString.

Record pendingInfohash := MkPending { pair : infohashPair; attempts : Z }.
Record infohashFlush := MkFlush { hash : string; fpair : infohashPair }.

Definition infohashFlushMaxAttempts : Z := 5.
Definition qbtFullSyncInterval : Z := 300000.  (* milliseconds *)

(** ** The cache *)

(** [cache]; its zero value is [zero_cache].  The nil and the empty map read the
    same, so [ensureMaps] is the identity.  The epoch is not wrapped: 2^64
    resets do not fit in a process's life. *)
Record cache := MkCache {
  rid : Z;
  fields : gmap string object;
  rejected : gset string;
  pendingFull : gset string;
  owned : gset string;
  infohashDone : gmap string infohashPair;
  infohashPending : gmap string pendingInfohash;
  infohashDropped : gmap string infohashPair;
  forceFull : bool;
  lastFullAt : option Z;
  ownershipEpoch : Z }.

Definition zero_cache : cache := MkCache 0 ∅ ∅ ∅ ∅ ∅ ∅ ∅ false None 0.

Definition with_fields (m : gmap string object) (c : cache) : cache :=
  MkCache (rid c) m (rejected c) (pendingFull c) (owned c) (infohashDone c) (infohashPending c)
    (infohashDropped c) (forceFull c) (lastFullAt c) (ownershipEpoch c).
Definition with_sets (m : gmap string object) (rej pend : gset string) (c : cache) : cache :=
  MkCache (rid c) m rej pend (owned c) (infohashDone c) (infohashPending c)
    (infohashDropped c) (forceFull c) (lastFullAt c) (ownershipEpoch c).
Definition with_owned (s : gset string) (c : cache) : cache :=
  MkCache (rid c) (fields c) (rejected c) (pendingFull c) s (infohashDone c) (infohashPending c)
    (infohashDropped c) (forceFull c) (lastFullAt c) (ownershipEpoch c).
Definition with_infohash (dn : gmap string infohashPair) (pn : gmap string pendingInfohash)
    (dr : gmap string infohashPair) (c : cache) : cache :=
  MkCache (rid c) (fields c) (rejected c) (pendingFull c) (owned c) dn pn dr (forceFull c)
    (lastFullAt c) (ownershipEpoch c).
Definition with_rid (r : Z) (c : cache) : cache :=
  MkCache r (fields c) (rejected c) (pendingFull c) (owned c) (infohashDone c) (infohashPending c)
    (infohashDropped c) (forceFull c) (lastFullAt c) (ownershipEpoch c).

(** [c.forceFull = true]. *)
Definition force (c : cache) : cache :=
  MkCache (rid c) (fields c) (rejected c) (pendingFull c) (owned c) (infohashDone c)
    (infohashPending c) (infohashDropped c) true (lastFullAt c) (ownershipEpoch c).

(** An ownership reset: [c.ownershipEpoch++; c.forceFull = true]. *)
Definition reset (c : cache) : cache :=
  MkCache (rid c) (fields c) (rejected c) (pendingFull c) (owned c) (infohashDone c)
    (infohashPending c) (infohashDropped c) true (lastFullAt c) (ownershipEpoch c + 1).

(** [accepted]. *)
Definition accepted (c : cache) (hash : string) : bool := bool_decide (hash ∈ owned c).

(** The members of a hash-keyed map the snapshot accepts, and the keys of the
    others. *)
Definition kept {A} (own : gset string) (m : gmap string A) : gmap string A :=
  filter (fun p => p.1 ∈ own) m.
Definition dropped {A} (own : gset string) (m : gmap string A) : gset string := dom m ∖ own.

(** [noteInfohash]. *)
Definition noteInfohash (h : string) (o : object) (c : cache) : cache :=
  let p := MkPair (as_string o "infohash_v1") (as_string o "infohash_v2") in
  if bool_decide (p = noPair) then c
  else if bool_decide (default noPair (infohashDone c !! h) = p) then c
  else if bool_decide (default noPair (infohashDropped c !! h) = p) then c
  else if bool_decide (pair <$> infohashPending c !! h = Some p) then c
  else with_infohash (infohashDone c) (<[h := MkPending p 0]> (infohashPending c))
         (infohashDropped c) c.

(** [takeInfohashFlushes]. *)
Definition due (c : cache) (h : string) (p : pendingInfohash) : bool :=
  bool_decide (h ∈ dom (fields c)) && negb (bool_decide (default noPair (infohashDone c !! h) = pair p)).

Definition takeInfohashFlushes (c : cache) : cache * list infohashFlush :=
  let dn := filter (fun p => p.1 ∈ dom (fields c)) (infohashDone c) in
  let dr := filter (fun p => p.1 ∈ dom (fields c)) (infohashDropped c) in
  let c := with_infohash dn (infohashPending c) dr c in
  let pn := filter (fun p => due c p.1 p.2 = true) (infohashPending c) in
  (with_infohash dn pn dr c,
   (fun h => MkFlush h (default noPair (pair <$> pn !! h)))
     <$> merge_sort id_le (map_to_list pn).*1).

(** [torrentFieldsEqual]. *)
Definition torrentFieldsEqual (stored partial : object) : bool :=
  if (size stored <? size partial)%nat then false
  else bool_decide (map_Forall (fun name v => stored !! name = Some v) partial).

(** ** Merging a response *)

Inductive mergeDisposition := mergeRejected | mergeApplied.

(** What one torrent of a full response becomes in the rebuilt cache. *)
Definition fresh_object (c : cache) (h : string) (raw : option object) : option object :=
  if accepted c h then
    match raw with
    | Some o => Some o
    | None => fields c !! h      (* invalid data is not a removal *)
    end
  else None.

Definition noteAll (l : list (string * object)) (c : cache) : cache :=
  fold_left (fun c p => noteInfohash p.1 p.2 c) l c.

(** A full response's object is news. *)
Definition full_changed (c : cache) (h : string) (o : object) : bool :=
  match fields c !! h with
  | None => true
  | Some old => negb (Nat.eqb (size old) (size o)) || negb (torrentFieldsEqual old o)
  end.

(** [mergeFull]; [now] is the clock. *)
Definition mergeFull (now : Z) (m : maindata) (c : cache) :
    mergeDisposition * list string * list string * cache :=
  let fresh := map_imap (fresh_object c) (Torrents m) in
  let rej := dom (Torrents m) ∖ owned c in
  let removed := List.filter (fun h => negb (bool_decide (h ∈ dom fresh)) && accepted c h)
                   (map_to_list (fields c)).*1 in
  let changed := (List.filter (fun p => full_changed c p.1 p.2) (map_to_list fresh)).*1 in
  let c := noteAll (map_to_list fresh) c in
  (mergeApplied, merge_sort id_le changed, merge_sort id_le removed,
   MkCache (Rid m) fresh rej ∅ (owned c) (infohashDone c) (infohashPending c) (infohashDropped c)
     false (Some now) (ownershipEpoch c)).

(** The first loop of [mergePartial]: every reported hash is classified
    against the snapshot. *)
Definition reclassify (m : maindata) (c : cache) : cache :=
  let reported := dom (Torrents m) in
  let moved := reported ∩ owned c ∩ rejected c in
  let foreign := reported ∖ owned c in
  let c' := with_sets (filter (fun p => p.1 ∉ foreign) (fields c))
              ((rejected c ∖ moved) ∪ foreign) ((pendingFull c ∪ moved) ∖ foreign) c in
  if bool_decide (moved = ∅) then c' else reset c'.

(** One reported torrent of the second loop. *)
Definition mergeOne (acc : cache * list string) (p : string * option object) : cache * list string :=
  let '(c, changed) := acc in
  let '(h, raw) := p in
  if negb (accepted c h) then acc
  else match raw with
  | None => acc
  | Some partial =>
    match fields c !! h with
    | None => (noteInfohash h partial (with_fields (<[h := partial]> (fields c)) c), changed ++ [h])
    | Some stored =>
      if torrentFieldsEqual stored partial then acc
      else
        let stored := partial ∪ stored in
        (noteInfohash h stored (with_fields (<[h := stored]> (fields c)) c), changed ++ [h])
    end
  end.

(** One hash of [torrents_removed]; removal wins over a change. *)
Definition removeOne (acc : cache * list string * list string) (h : string) :
    cache * list string * list string :=
  let '(c, changed, removed) := acc in
  let c := with_sets (fields c) (rejected c ∖ {[h]}) (pendingFull c ∖ {[h]}) c in
  if bool_decide (h ∈ dom (fields c)) then
    (with_fields (delete h (fields c)) c,
     List.filter (fun k => negb (bool_decide (k = h))) changed, removed ++ [h])
  else (c, changed, removed).

(** [mergePartial]. *)
Definition mergePartial (m : maindata) (c : cache) :
    mergeDisposition * list string * list string * cache :=
  let c := reclassify m c in
  if negb (bool_decide (pendingFull c ∩ owned c = ∅)) then (mergeRejected, [], [], c)
  else
    let '(c, changed) := fold_left mergeOne (map_to_list (Torrents m)) (c, []) in
    let '(c, changed, removed) := fold_left removeOne (TorrentsRemoved m) (c, changed, []) in
    (mergeApplied, merge_sort id_le changed, merge_sort id_le removed, with_rid (Rid m) c).

(** [merge]. *)
Definition merge (now : Z) (m : maindata) (c : cache) :
    mergeDisposition * list string * list string * cache :=
  if FullUpdate m then mergeFull now m c else mergePartial m c.

(** ** Ownership *)

(** [ownershipScan]. *)
Definition ownershipScan (c : cache) : cache :=
  let rej := rejected c ∪ dropped (owned c) (fields c) ∪ (pendingFull c ∖ owned c) in
  let moved := rej ∩ owned c in
  let c' := with_sets (kept (owned c) (fields c)) (rej ∖ moved)
              ((pendingFull c ∩ owned c) ∪ moved) c in
  if bool_decide (moved = ∅) then c' else reset c'.

(** [installOwnership]. *)
Definition installOwnership (set : gset string) (c : cache) : cache :=
  let rej := rejected c ∪ dropped set (fields c) ∪ (pendingFull c ∖ set) in
  let moved := rej ∩ set in
  reset (with_owned set (with_sets (kept set (fields c)) (rej ∖ moved)
                           ((pendingFull c ∩ set) ∪ moved) c)).

(** [dueFullSync]. *)
Definition dueFullSync (now : Z) (c : cache) : cache :=
  match lastFullAt c with
  | Some t => if qbtFullSyncInterval <=? now - t then force c else c
  | None => c
  end.

(** ** The served view *)

(** The types [torrentJSON] gives its keys, those nothing reads included. *)
Inductive json_type := TInt | TFloat | TString | TBool.

Definition torrent_keys : list (string * json_type) :=
  [("hash", TString); ("infohash_v1", TString); ("infohash_v2", TString); ("has_metadata", TBool);
   ("name", TString); ("state", TString); ("progress", TFloat); ("size", TInt);
   ("total_size", TInt); ("completed", TInt); ("uploaded", TInt); ("dlspeed", TInt);
   ("upspeed", TInt); ("eta", TInt); ("ratio", TFloat); ("save_path", TString);
   ("content_path", TString); ("category", TString); ("tags", TString); ("num_seeds", TInt);
   ("num_complete", TInt); ("num_leechs", TInt); ("num_incomplete", TInt); ("added_on", TInt);
   ("completion_on", TInt); ("dl_limit", TInt); ("up_limit", TInt); ("seq_dl", TBool);
   ("auto_tmm", TBool); ("private", TBool)]%string.

(** A value a field of that type takes; null leaves the zero value. *)
Definition fits (ty : json_type) (v : jv) : bool :=
  match v, ty with
  | JNull, _ | JBool _, TBool | JString _, TString | JFloat _, TFloat | JInt _, TFloat => true
  | JInt n, TInt => bool_decide (in_int64 n)
  | _, _ => false
  end.

Definition well_typed (o : object) : bool :=
  forallb (fun k => match o !! k.1 with Some v => fits k.2 v | None => true end) torrent_keys.

Definition as_int (o : object) (name : string) : Z :=
  match o !! name with Some (JInt n) => n | _ => 0 end.
Definition as_bool (o : object) (name : string) : bool :=
  match o !! name with Some (JBool b) => b | _ => false end.
Definition as_float (o : object) (name : string) : spec_float :=
  match o !! name with
  | Some (JFloat x) => x
  | Some (JInt n) => binary_normalize 53 1024 n 0 false
  | _ => S754_zero false
  end.

(** [taskInfoFromCache]: the merged object read back as one [torrentJSON], under
    the key it is cached at.  Keys are matched as the daemon spells them. *)
Definition torrent_of (h : string) (o : object) : option Qbt.torrentJSON :=
  if well_typed o then
    Some (Qbt.MkTorrent h (as_string o "infohash_v1") (as_string o "infohash_v2")
      (as_bool o "has_metadata") (as_string o "name") (as_string o "state") (as_float o "progress")
      (as_int o "size") (as_int o "completed") (as_int o "uploaded") (as_int o "dlspeed")
      (as_int o "upspeed") (as_int o "eta") (as_float o "ratio") (as_string o "save_path")
      (as_string o "content_path") (as_int o "num_seeds") (as_int o "num_leechs")
      (as_int o "added_on") (as_int o "completion_on"))
  else None.

Section Served.
Context `{!UnicodeTables}.

Definition taskInfoFromCache (h : string) (o : object) : option TaskInfo :=
  Qbt.toTaskInfo <$> torrent_of h o.

(** [List]. *)
Definition info_le (a b : TaskInfo) : Prop := String.leb (ti_ID a) (ti_ID b) = true.
#[global] Instance info_le_dec a b : Decision (info_le a b).
Proof. unfold info_le. apply _. Defined.

Definition List (c : cache) : list TaskInfo :=
  merge_sort info_le (omap (fun p => taskInfoFromCache p.1 p.2) (map_to_list (fields c))).

(** [Get]; [id] is namespaced or bare. *)
Definition Get (id : string) (c : cache) : res TaskInfo :=
  let h := bareHandle Router.NameQBittorrent id in
  match fields c !! h with
  | None => inl EngErrNotFound
  | Some o => match taskInfoFromCache h o with None => inl EngErrNotFound | Some i => inr i end
  end.

(** [EventKind], the kinds this adapter emits, and [TaskEvent]. *)
Inductive EventKind := EventProgress | EventPaused | EventCompleted | EventError | EventRemoved.
Record TaskEvent := MkTaskEvent { TaskID : string; Kind : EventKind; Info : option TaskInfo }.

(** [eventKindFor]. *)
Definition eventKindFor (s : TaskState) : EventKind :=
  match s with
  | StatePaused => EventPaused
  | StateCompleted => EventCompleted
  | StateError => EventError
  | _ => EventProgress
  end.

Definition handle (h : string) : string := namespacedHandle Router.NameQBittorrent h.

(** [eventsLocked]. *)
Definition eventsLocked (changed removed : list string) (c : cache) : list TaskEvent :=
  omap (fun h => (fun i => MkTaskEvent (handle h) (eventKindFor (ti_State i)) (Some i))
                   <$> taskInfoFromCache h (default ∅ (fields c !! h))) changed
  ++ ((fun h => MkTaskEvent (handle h) EventRemoved None) <$> removed).

Definition eventsBuffer : nat := 128.

(** [emitLocked]: every subscriber gets each event its buffer has room for. *)
Definition send (ev : TaskEvent) (q : list TaskEvent) : list TaskEvent :=
  if (length q <? eventsBuffer)%nat then q ++ [ev] else q.
Definition emitLocked (events : list TaskEvent) (subs : gmap Z (list TaskEvent)) :
    gmap Z (list TaskEvent) :=
  fold_left (fun subs ev => send ev <$> subs) events subs.

(** ** The poll loop

    The client's state under [md.mu], and where the poll goroutine stands
    between two critical sections.  The ownership source is asked, and the
    daemon and the store are called, outside the mutex: another goroutine may
    install a new source in between. *)
Record tracker := MkTracker {
  cached : cache; source : bool; writer : bool; subs : gmap Z (list TaskEvent) }.

Definition upd (f : cache -> cache) (t : tracker) : tracker :=
  MkTracker (f (cached t)) (source t) (writer t) (subs t).

(** [cloneSet(source())], or the empty set without a source; [answer] is what
    the reconciler's listing answers. *)
Definition snapshot (t : tracker) (answer : gset string) : gset string :=
  if source t then answer else ∅.

(** [SetOwnershipFilter]; [None] is the nil source. *)
Definition SetOwnershipFilter (answer : option (gset string)) (t : tracker) : tracker :=
  let set := default ∅ answer in
  MkTracker (installOwnership set (cached t)) (bool_decide (is_Some answer)) (writer t) (subs t).

(** [Events], a receive and [dropSubscription], on a subscriber's channel. *)
Definition with_subs (f : gmap Z (list TaskEvent) -> gmap Z (list TaskEvent)) (t : tracker) : tracker :=
  MkTracker (cached t) (source t) (writer t) (f (subs t)).
Definition Events (id : Z) (t : tracker) : tracker := with_subs (<[id := []]>) t.
Definition receive (id : Z) (t : tracker) : tracker := with_subs (alter tail id) t.
Definition dropSubscription (id : Z) (t : tracker) : tracker := with_subs (delete id) t.

(** [SetInfohashWriter]. *)
Definition SetInfohashWriter (t : tracker) : tracker :=
  MkTracker (cached t) (source t) true (subs t).

(** The second critical section of [ownershipPrepass]; [e] is the epoch the
    first one read. *)
Definition ownershipPrepass (set : gset string) (e : Z) (t : tracker) : bool * tracker :=
  if ownershipEpoch (cached t) =? e
  then (true, upd (fun c => ownershipScan (with_owned set c)) t)
  else (false, t).

(** [requestPlan]: the rid and the epoch of the next request. *)
Definition requestPlan (now : Z) (t : tracker) : Z * Z * tracker :=
  let t := upd (dueFullSync now) t in
  let c := cached t in
  (if forceFull c then 0 else rid c, ownershipEpoch c, t).

(** [applyResponseInner] after the source answered: [e] is the epoch its first
    section compared. *)
Definition applyResponse (now : Z) (m : maindata) (set : gset string) (e : Z) (t : tracker) :
    tracker * list infohashFlush :=
  if ownershipEpoch (cached t) =? e then
    let c := with_owned set (cached t) in
    let c := if FullUpdate m then c else ownershipScan c in
    match merge now m c with
    | (mergeRejected, _, _, c) => (upd (fun _ => c) t, [])
    | (mergeApplied, changed, removed, c) =>
      let subs := emitLocked (eventsLocked changed removed c) (subs t) in
      let (c, batch) := takeInfohashFlushes c in
      (MkTracker c (source t) (writer t) subs, batch)
    end
  else (t, []).

(** [chargeFlushAttemptLocked]. *)
Definition chargeFlushAttempt (f : infohashFlush) (c : cache) : cache :=
  match infohashPending c !! hash f with
  | Some p =>
    if bool_decide (pair p = fpair f) then
      let n := attempts p + 1 in
      if n <? infohashFlushMaxAttempts then
        with_infohash (infohashDone c) (<[hash f := MkPending (pair p) n]> (infohashPending c))
          (infohashDropped c) c
      else with_infohash (infohashDone c) (delete (hash f) (infohashPending c))
             (<[hash f := fpair f]> (infohashDropped c)) c
    else c
  | None => c
  end.

(** The last section of one [flushInfohashes] round. *)
Definition settleFlush (f : infohashFlush) (failed : bool) (c : cache) : cache :=
  if failed then chargeFlushAttempt f c
  else if bool_decide (default noPair (pair <$> infohashPending c !! hash f) = fpair f) then
    with_infohash (<[hash f := fpair f]> (infohashDone c)) (delete (hash f) (infohashPending c))
      (infohashDropped c) c
  else c.

(** [isUploadSideState]. *)
Definition isUploadSideState (s : string) : bool :=
  contains ["uploading"; "forcedUP"; "stalledUP"; "stoppedUP"; "queuedUP"; "checkingUP"]%string s.

(** [rememberCacheField] of mutate.go. *)
Definition rememberCacheField (h name : string) (v : jv) (c : cache) : cache :=
  match fields c !! h with
  | Some o => with_fields (<[h := <[name := v]> o]> (fields c)) c
  | None => c
  end.

(** The stop a duplicate projects into the cache before the engine is asked. *)
Definition projectStop (h : string) (c : cache) : cache :=
  match fields c !! h with
  | Some o =>
    rememberCacheField h "state"
      (JString (if isUploadSideState (as_string o "state") then "stoppedUP" else "stoppedDL")) c
  | None => c
  end.

Inductive pc :=
  | Idle
  | Prepass (epoch : Z)                      (* the source is being asked *)
  | Ready                                    (* the pass is stored *)
  | Asked (r : Z) (epoch : Z)                (* a request is in flight *)
  | Applying (m : maindata) (epoch : Z)      (* the source is being asked again *)
  | Flushing (batch : list infohashFlush)    (* the store is being called *)
  | Pausing (f : infohashFlush) (batch : list infohashFlush)  (* the daemon is asked to pause *)
  | Settling (f : infohashFlush) (failed : bool) (batch : list infohashFlush).

(** What [ResolveInfohashes] answers; [WriterLate] is a failure that outlived
    the batch's budget. *)
Inductive writer_answer := WriterOk | WriterDuplicate | WriterFailed | WriterLate.

Inductive event :=
  | EvInstall (answer : option (gset string))  (* SetOwnershipFilter, any goroutine *)
  | EvWriter                                   (* SetInfohashWriter, any goroutine *)
  | EvRemember (h name : string) (v : jv)      (* a mutation's rememberCacheField *)
  | EvSubscribe (id : Z)                       (* Events, a fresh channel *)
  | EvReceive (id : Z)                         (* a subscriber takes one event *)
  | EvUnsubscribe (id : Z)                     (* dropSubscription *)
  | EvTick
  | EvOwned (answer : gset string)             (* the source answered *)
  | EvPlan (now : Z)
  | EvReply (m : maindata)                     (* the daemon answered *)
  | EvFail                                     (* the poll failed *)
  | EvApply (now : Z) (answer : gset string)
  | EvResolve (a : writer_answer)
  | EvPause (ok : bool)
  | EvSettle.

(** One step of the client; [None] where the event cannot happen. *)
Definition step (ev : event) (s : pc * tracker) : option (pc * tracker) :=
  let '(p, t) := s in
  match ev, p with
  | EvInstall a, _ => Some (p, SetOwnershipFilter a t)
  | EvWriter, _ => Some (p, SetInfohashWriter t)
  | EvRemember h name v, _ => Some (p, upd (rememberCacheField h name v) t)
  | EvSubscribe id, _ => if subs t !! id then None else Some (p, Events id t)
  | EvReceive id, _ => Some (p, receive id t)
  | EvUnsubscribe id, _ => Some (p, dropSubscription id t)
  | EvTick, Idle => Some (Prepass (ownershipEpoch (cached t)), t)
  | EvOwned a, Prepass e =>
    let '(ok, t) := ownershipPrepass (snapshot t a) e t in Some (if ok then Ready else Idle, t)
  | EvPlan now, Ready => let '(r, e, t) := requestPlan now t in Some (Asked r e, t)
  | EvReply m, Asked r e =>
    Some (if ownershipEpoch (cached t) =? e then Applying m e else Idle, t)
  | EvFail, Asked r e => Some (Idle, upd force t)
  | EvApply now a, Applying m e =>
    let '(t, batch) := applyResponse now m (snapshot t a) e t in
    Some (match batch with [] => Idle | _ => if writer t then Flushing batch else Idle end, t)
  | EvResolve a, Flushing (f :: batch) =>
    match a with
    | WriterOk => Some (Settling f false batch, t)
    | WriterDuplicate => Some (Pausing f batch, upd (projectStop (hash f)) t)
    | WriterFailed => Some (Settling f true batch, t)
    | WriterLate => Some (Settling f true [], t)
    end
  | EvPause ok, Pausing f batch => Some (Settling f (negb ok) batch, t)
  | EvSettle, Settling f failed batch =>
    Some (match batch with [] => Idle | _ => Flushing batch end, upd (settleFlush f failed) t)
  | _, _ => None
  end.
End Served.
