(* ===== verification/QbProps.v ===== *)
(** * What the delta cache promises

    Ownership: nothing the snapshot rejects is served, whatever the daemon
    answers and however the ownership source is replaced between two sections.
    Refinement: over a daemon that keeps the delta protocol the cache is the
    owned part of the state the daemon last published. *)

From Stdlib Require Import SpecFloat.
From stdpp Require Import fin_maps sorting pretty.
From S2P Require Import Prelude GoStrings TaskState Schema Lease World Engine Adapters QbSync.

Open Scope Z_scope.

(** ** The sets of the cache *)

(** Each known hash is visible, rejected or pending, never two of them, and a
    pending one forces a full response. *)
Record sets_ok (c : cache) : Prop := {
  so_fr : dom (fields c) ## rejected c;
  so_fp : dom (fields c) ## pendingFull c;
  so_rp : rejected c ## pendingFull c;
  so_force : pendingFull c <> ∅ -> forceFull c = true }.

(** The classification agrees with the stored snapshot. *)
Record classified (c : cache) : Prop := {
  cl_sets : sets_ok c;
  cl_fields : dom (fields c) ⊆ owned c;
  cl_pending : pendingFull c ⊆ owned c;
  cl_rejected : rejected c ## owned c }.

Lemma dom_kept {A} (own : gset string) (m : gmap string A) : dom (kept own m) = dom m ∩ own.
Proof.
  apply set_eq. intros h. rewrite elem_of_intersection, !elem_of_dom. unfold kept, is_Some.
  setoid_rewrite map_lookup_filter_Some. simpl. naive_solver.
Qed.

Lemma classified_split rid f rej pend own dn pn dr ff la ep :
  dom f ⊆ own -> pend ⊆ own -> rej ## own -> dom f ## pend -> (pend <> ∅ -> ff = true) ->
  classified (MkCache rid f rej pend own dn pn dr ff la ep).
Proof. intros. split; simpl; [split; simpl|..]; try done; set_solver. Qed.

Lemma scan_classified c : sets_ok c -> classified (ownershipScan c).
Proof.
  intros [Hfr Hfp Hrp Hforce]. unfold ownershipScan.
  set (moved := (_ ∪ _ ∪ _) ∩ owned c).
  assert (Hc : forall ff ep, (pendingFull c ∩ owned c ∪ moved <> ∅ -> ff = true) ->
    classified (MkCache (rid c) (kept (owned c) (fields c))
      ((rejected c ∪ dropped (owned c) (fields c) ∪ (pendingFull c ∖ owned c)) ∖ moved)
      ((pendingFull c ∩ owned c) ∪ moved) (owned c) (infohashDone c) (infohashPending c)
      (infohashDropped c) ff (lastFullAt c) ep)).
  { intros ff ep Hff. apply classified_split; rewrite ?dom_kept; [set_solver..| |done].
    unfold moved, dropped. set_solver. }
  case_bool_decide as Hm; [|by apply Hc].
  apply Hc. rewrite Hm. intros Hp. apply Hforce. set_solver.
Qed.

Lemma install_classified set c : sets_ok c -> classified (installOwnership set c).
Proof.
  intros [Hfr Hfp Hrp Hforce]. unfold installOwnership, reset, with_owned, with_sets. cbn.
  apply classified_split; rewrite ?dom_kept; unfold dropped; try done; set_solver.
Qed.

(** Notes and takes leave the sets alone. *)
Definition same_view (c c' : cache) : Prop :=
  fields c' = fields c /\ rejected c' = rejected c /\ pendingFull c' = pendingFull c /\
  owned c' = owned c /\ forceFull c' = forceFull c /\ rid c' = rid c /\
  ownershipEpoch c' = ownershipEpoch c.

#[export] Instance same_view_pre : PreOrder same_view.
Proof. split; [by intros c|]. unfold same_view. intros a b c. naive_solver congruence. Qed.

Lemma note_view h o c : same_view c (noteInfohash h o c).
Proof. unfold noteInfohash. repeat case_match; by split_and!. Qed.

Lemma noteAll_view l c : same_view c (noteAll l c).
Proof.
  revert c. induction l as [|p l IH]; intros c; [reflexivity|]. simpl.
  etransitivity; [apply note_view|apply IH].
Qed.

Lemma take_view c : same_view c (takeInfohashFlushes c).1.
Proof. by split_and!. Qed.

Lemma classified_view c c' : same_view c c' -> classified c -> classified c'.
Proof.
  intros (Hf & Hr & Hp & Ho & Hff & _) [[] ? ? ?].
  split; [split|..]; rewrite ?Hf, ?Hr, ?Hp, ?Ho, ?Hff; done.
Qed.

(** ** The loops of a partial merge *)

Lemma torrentFieldsEqual_spec s p : torrentFieldsEqual s p = true <-> p ⊆ s.
Proof.
  unfold torrentFieldsEqual. rewrite map_subseteq_spec. destruct (size s <? size p)%nat eqn:Hs.
  - apply Nat.ltb_lt in Hs. split; [done|]. intros Hsub.
    apply map_subseteq_spec, subseteq_dom, subseteq_size in Hsub.
    rewrite !size_dom in Hsub. lia.
  - rewrite bool_decide_eq_true. done.
Qed.

(** What one reported object does to the stored one. *)
Definition merged (stored : option object) (p : object) : object := p ∪ default ∅ stored.

Definition reported_for (c : cache) (m : gmap string (option object)) (h : string) : option object :=
  if accepted c h then mjoin (m !! h) else None.

Record merged_view (m : gmap string (option object)) (c c' : cache) : Prop := {
  mv_fields : forall h, fields c' !! h =
    match reported_for c m h with Some p => Some (merged (fields c !! h) p) | None => fields c !! h end;
  mv_rej : rejected c' = rejected c; mv_pend : pendingFull c' = pendingFull c;
  mv_owned : owned c' = owned c; mv_force : forceFull c' = forceFull c;
  mv_epoch : ownershipEpoch c' = ownershipEpoch c }.

Lemma reported_singleton c h raw k :
  reported_for c {[h := raw]} k = if decide (k = h) then (if accepted c h then raw else None) else None.
Proof.
  unfold reported_for. destruct (decide (k = h)) as [->|Hne].
  - by rewrite lookup_singleton_eq.
  - rewrite lookup_singleton_ne by done. by destruct (accepted c k).
Qed.

Lemma merged_view_intro c c' h raw f :
  same_view (with_fields f c) c' ->
  f !! h = match (if accepted c h then raw else None) with
           | Some p => Some (merged (fields c !! h) p) | None => fields c !! h end ->
  (forall k, k <> h -> f !! k = fields c !! k) ->
  merged_view {[h := raw]} c c'.
Proof.
  intros (Hf & Hr & Hp & Ho & Hff & _ & He) Hh Hk. simpl in *.
  split; try done. intros k. rewrite Hf, reported_singleton.
  destruct (decide (k = h)) as [->|Hne]; [done|by apply Hk].
Qed.

Lemma mergeOne_view c ch h raw c' ch' : mergeOne (c, ch) (h, raw) = (c', ch') ->
  merged_view {[h := raw]} c c' /\
  ch' = ch ++ (if bool_decide (fields c' !! h = fields c !! h) then [] else [h]).
Proof.
  assert (Hskip : forall f, f = fields c -> f !! h = match (if accepted c h then raw else None) with
      | Some p => Some (merged (fields c !! h) p) | None => fields c !! h end ->
    merged_view {[h := raw]} c c /\
    ch = ch ++ (if bool_decide (fields c !! h = fields c !! h) then [] else [h])).
  { intros f -> Hh. split; [|by rewrite bool_decide_true, app_nil_r].
    apply (merged_view_intro _ _ _ _ (fields c)); [by split_and!|done..]. }
  assert (Hput : forall o, o <> default o (fields c !! h) \/ fields c !! h = None ->
    forall p, (if accepted c h then raw else None) = Some p -> o = merged (fields c !! h) p ->
    let c1 := noteInfohash h o (with_fields (<[h := o]> (fields c)) c) in
    merged_view {[h := raw]} c c1 /\
    ch ++ [h] = ch ++ (if bool_decide (fields c1 !! h = fields c !! h) then [] else [h])).
  { intros o Hne p Hp Ho c1.
    pose proof (note_view h o (with_fields (<[h := o]> (fields c)) c)) as Hv.
    assert (Hf : fields c1 = <[h := o]> (fields c)) by apply Hv.
    split.
    - apply (merged_view_intro _ _ _ _ (<[h := o]> (fields c))); [done| |].
      + by rewrite lookup_insert_eq, Hp, Ho.
      + intros k Hk. by rewrite lookup_insert_ne.
    - rewrite Hf, lookup_insert_eq, bool_decide_false; [done|].
      intros Heq. destruct Hne as [Hne|Hne]; [|congruence]. rewrite <- Heq in Hne. by simpl in Hne. }
  unfold mergeOne. destruct (accepted c h) eqn:Ha; simpl; [|intros; simplify_eq; by apply (Hskip (fields c'))].
  destruct raw as [p|]; [|intros; simplify_eq; by apply (Hskip (fields c'))].
  destruct (fields c !! h) as [st|] eqn:Hst.
  - destruct (torrentFieldsEqual st p) eqn:He; intros; simplify_eq.
    + rewrite Hst. apply (Hskip (fields c')); [done|]. apply torrentFieldsEqual_spec in He.
      unfold merged. simpl. by rewrite map_subseteq_union.
    + apply (Hput _) with (p := p); [|done|done]. left. simpl.
      intros Heq. enough (torrentFieldsEqual st p = true) by congruence.
      apply torrentFieldsEqual_spec. rewrite <- Heq. apply map_union_subseteq_l.
  - intros; simplify_eq. apply (Hput p) with (p := p); [by right|done|].
    unfold merged. simpl. by rewrite map_union_empty.
Qed.

Definition touched (l : list (string * option object)) (c c' : cache) : list string :=
  List.filter (fun h => negb (bool_decide (fields c' !! h = fields c !! h))) l.*1.

Lemma mergeLoop_view l c ch c' ch' : NoDup l.*1 -> fold_left mergeOne l (c, ch) = (c', ch') ->
  merged_view (list_to_map l) c c' /\ ch' = ch ++ touched l c c'.
Proof.
  revert c ch. induction l as [|[h raw] l IH]; intros c ch Hnd Hrun.
  { simpl in Hrun. simplify_eq. split; [|by rewrite app_nil_r].
    split; try done. intros h. unfold reported_for. simpl. rewrite lookup_empty. by destruct (accepted c' h). }
  apply list.NoDup_cons in Hnd as [Hh Hnd]. cbn [fold_left] in Hrun.
  destruct (mergeOne (c, ch) (h, raw)) as [c1 ch1] eqn:H1.
  apply mergeOne_view in H1 as [Hv1 ->]. apply IH in Hrun as [Hv2 ->]; [|done].
  assert (Hl : list_to_map (M := gmap string (option object)) l !! h = None)
    by by apply not_elem_of_list_to_map_1.
  assert (Hr : forall k, reported_for c1 (list_to_map l) k = if decide (k = h) then None
                else reported_for c (list_to_map ((h, raw) :: l)) k).
  { intros k. unfold reported_for, accepted. rewrite (mv_owned _ _ _ Hv1). simpl.
    destruct (decide (k = h)) as [->|Hne]; [rewrite Hl; simpl; destruct (bool_decide (h ∈ owned c)); [unfold mjoin; reflexivity|reflexivity]|].
    by rewrite lookup_insert_ne. }
  assert (Hf1 : forall k, k <> h -> fields c1 !! k = fields c !! k).
  { intros k Hk. rewrite (mv_fields _ _ _ Hv1), reported_singleton. by rewrite decide_False. }
  assert (Hfh : fields c' !! h = fields c1 !! h).
  { rewrite (mv_fields _ _ _ Hv2), Hr. by rewrite decide_True. }
  split.
  - split; [|rewrite (mv_rej _ _ _ Hv2); apply Hv1|rewrite (mv_pend _ _ _ Hv2); apply Hv1
      |rewrite (mv_owned _ _ _ Hv2); apply Hv1|rewrite (mv_force _ _ _ Hv2); apply Hv1
      |rewrite (mv_epoch _ _ _ Hv2); apply Hv1].
    intros k. destruct (decide (k = h)) as [->|Hne].
    + rewrite Hfh, (mv_fields _ _ _ Hv1), reported_singleton, decide_True by done.
      unfold reported_for. simpl. rewrite lookup_insert_eq. by destruct (accepted c h).
    + rewrite (mv_fields _ _ _ Hv2), Hr, decide_False by done.
      by rewrite Hf1.
  - rewrite <- app_assoc. f_equal. unfold touched at 2. simpl. rewrite Hfh.
    assert (Ht : touched l c1 c' = List.filter
      (fun k => negb (bool_decide (fields c' !! k = fields c !! k))) l.*1).
    { apply filter_ext_in. intros k Hk%list_elem_of_In. rewrite Hf1; [done|]. by intros ->. }
    rewrite Ht. by case_bool_decide.
Qed.

(** The removals. *)
Record removed_view (rem : list string) (c c' : cache) : Prop := {
  rv_fields : forall h, fields c' !! h = if contains rem h then None else fields c !! h;
  rv_rej : rejected c' = rejected c ∖ list_to_set rem;
  rv_pend : pendingFull c' = pendingFull c ∖ list_to_set rem;
  rv_owned : owned c' = owned c; rv_force : forceFull c' = forceFull c;
  rv_epoch : ownershipEpoch c' = ownershipEpoch c }.

Lemma removeOne_view c ch rm h c' ch' rm' : removeOne (c, ch, rm) h = (c', ch', rm') ->
  removed_view [h] c c' /\
  (forall k, k ∈ ch' <-> k ∈ ch /\ ~ (k = h /\ h ∈ dom (fields c))) /\
  (forall k, k ∈ rm' <-> k ∈ rm \/ (k = h /\ h ∈ dom (fields c))).
Proof.
  unfold removeOne. simpl. case_bool_decide as Hd; intros; simplify_eq.
  - split; [split; simpl; try done; try set_solver|].
    + intros k. unfold contains. destruct (decide (k = h)) as [->|Hne].
      * rewrite bool_decide_true by set_solver. apply lookup_delete_eq.
      * rewrite bool_decide_false by set_solver. by rewrite lookup_delete_ne.
    + split; intros k; [rewrite elem_of_filter_bool, negb_true_iff, bool_decide_eq_false; naive_solver|].
      set_solver.
  - split; [split; simpl; try done; try set_solver|split; set_solver].
    intros k. unfold contains. destruct (decide (k = h)) as [->|Hne].
    + rewrite bool_decide_true by set_solver. by apply not_elem_of_dom.
    + by rewrite bool_decide_false by set_solver.
Qed.

Lemma removeLoop_view rem c ch rm c' ch' rm' :
  fold_left removeOne rem (c, ch, rm) = (c', ch', rm') ->
  removed_view rem c c' /\
  (forall k, k ∈ ch' <-> k ∈ ch /\ ~ (k ∈ rem /\ k ∈ dom (fields c))) /\
  (forall k, k ∈ rm' <-> k ∈ rm \/ (k ∈ rem /\ k ∈ dom (fields c))).
Proof.
  revert c ch rm. induction rem as [|h rem IH]; intros c ch rm Hrun.
  { simpl in Hrun. simplify_eq. split; [split; simpl; try done; set_solver|]. split; set_solver. }
  cbn [fold_left] in Hrun. destruct (removeOne (c, ch, rm) h) as [[c1 ch1] rm1] eqn:H1.
  apply removeOne_view in H1 as (Hv1 & Hc1 & Hr1). apply IH in Hrun as (Hv2 & Hc2 & Hr2).
  assert (Hd : forall k, k ∈ dom (fields c1) <-> k ∈ dom (fields c) /\ k <> h).
  { intros k. rewrite !elem_of_dom, (rv_fields _ _ _ Hv1). unfold contains.
    destruct (decide (k = h)) as [->|Hne].
    - rewrite bool_decide_true by set_solver. split; [by intros []|naive_solver].
    - rewrite bool_decide_false by set_solver. naive_solver. }
  split; [split|split].
  - intros k. rewrite (rv_fields _ _ _ Hv2), (rv_fields _ _ _ Hv1). unfold contains.
    destruct (decide (k = h)) as [->|Hne].
    + rewrite (bool_decide_true (h ∈ [h])), (bool_decide_true (h ∈ h :: rem)) by constructor.
      by case_bool_decide.
    + rewrite (bool_decide_false (k ∈ [h])) by set_solver.
      by rewrite (bool_decide_ext (k ∈ rem) (k ∈ h :: rem)) by set_solver.
  - rewrite (rv_rej _ _ _ Hv2), (rv_rej _ _ _ Hv1). set_solver.
  - rewrite (rv_pend _ _ _ Hv2), (rv_pend _ _ _ Hv1). set_solver.
  - rewrite (rv_owned _ _ _ Hv2). apply Hv1.
  - rewrite (rv_force _ _ _ Hv2). apply Hv1.
  - rewrite (rv_epoch _ _ _ Hv2). apply Hv1.
  - intros k. rewrite Hc2, Hc1, Hd. set_solver.
  - intros k. rewrite Hr2, Hr1, Hd. destruct (decide (k = h)); set_solver.
Qed.

(** *** A partial response over a classified cache *)

Lemma reclassify_classified m c : classified c ->
  reclassify m c = with_sets (fields c) (rejected c ∪ (dom (Torrents m) ∖ owned c)) (pendingFull c) c.
Proof.
  intros [Hs Hf Hp Hr]. unfold reclassify. rewrite bool_decide_true by set_solver.
  f_equal; [|set_solver..].
  apply map_filter_id. intros h o Ho. simpl. apply (elem_of_dom_2 (M := gmap string)) in Ho. set_solver.
Qed.

(** What a merged partial response leaves. *)
Definition replayed (m : maindata) (c : cache) (h : string) : option object :=
  if contains (TorrentsRemoved m) h then None
  else match reported_for c (Torrents m) h with
       | Some p => Some (merged (fields c !! h) p)
       | None => fields c !! h
       end.

Record applied (m : maindata) (c c' : cache) : Prop := {
  ap_fields : forall h, fields c' !! h = replayed m c h;
  ap_rej : rejected c' = (rejected c ∪ (dom (Torrents m) ∖ owned c)) ∖ list_to_set (TorrentsRemoved m);
  ap_pend : pendingFull c' = ∅; ap_pend0 : pendingFull c = ∅;
  ap_owned : owned c' = owned c; ap_force : forceFull c' = forceFull c;
  ap_epoch : ownershipEpoch c' = ownershipEpoch c; ap_rid : rid c' = Rid m }.

Lemma mergePartial_cases m c d changed removed c' : classified c ->
  mergePartial m c = (d, changed, removed, c') ->
  (d = mergeRejected /\ changed = [] /\ removed = [] /\ pendingFull c <> ∅ /\
   c' = with_sets (fields c) (rejected c ∪ (dom (Torrents m) ∖ owned c)) (pendingFull c) c) \/
  (d = mergeApplied /\ applied m c c' /\
   (forall h, h ∈ changed <-> (exists p, reported_for c (Torrents m) h = Some p /\
        Some (merged (fields c !! h) p) <> fields c !! h) /\
      ~ h ∈ TorrentsRemoved m) /\
   (forall h, h ∈ removed <-> h ∈ TorrentsRemoved m /\
      (h ∈ dom (fields c) \/ is_Some (reported_for c (Torrents m) h)))).
Proof.
  intros Hc. unfold mergePartial. rewrite (reclassify_classified m c Hc).
  set (c0 := with_sets _ _ _ c). change (pendingFull c0) with (pendingFull c).
  change (owned c0) with (owned c).
  assert (Hpend : pendingFull c ∩ owned c = pendingFull c) by (destruct Hc; set_solver).
  rewrite Hpend. case_bool_decide as Hp; simpl.
  2: { intros. simplify_eq. by left. }
  destruct (fold_left mergeOne _ _) as [c1 ch1] eqn:H1.
  destruct (fold_left removeOne _ _) as [[c2 ch2] rm2] eqn:H2. intros. simplify_eq. right.
  apply mergeLoop_view in H1 as [Hv1 ->]; [|apply NoDup_fst_map_to_list].
  rewrite list_to_map_to_list in Hv1. apply removeLoop_view in H2 as (Hv2 & Hch & Hrm).
  assert (Hrep : forall h, reported_for c0 (Torrents m) h = reported_for c (Torrents m) h) by done.
  assert (Hf1 : forall h, fields c1 !! h = match reported_for c (Torrents m) h with
      Some p => Some (merged (fields c !! h) p) | None => fields c !! h end).
  { intros h. by rewrite (mv_fields _ _ _ Hv1). }
  split; [done|]. split; [split; simpl|split].
  - intros h. rewrite (rv_fields _ _ _ Hv2), Hf1. done.
  - rewrite (rv_rej _ _ _ Hv2), (mv_rej _ _ _ Hv1). done.
  - rewrite (rv_pend _ _ _ Hv2), (mv_pend _ _ _ Hv1). simpl. rewrite Hp. set_solver.
  - done.
  - rewrite (rv_owned _ _ _ Hv2), (mv_owned _ _ _ Hv1). done.
  - rewrite (rv_force _ _ _ Hv2), (mv_force _ _ _ Hv1). done.
  - rewrite (rv_epoch _ _ _ Hv2), (mv_epoch _ _ _ Hv1). done.
  - done.
  - intros h. rewrite merge_sort_Permutation, Hch. simpl. unfold touched.
    rewrite elem_of_filter_bool, negb_true_iff, bool_decide_eq_false, Hf1, elem_of_dom, Hf1.
    change (fields c0) with (fields c).
    destruct (reported_for c (Torrents m) h) as [p|] eqn:Hr.
    + assert (h ∈ (map_to_list (Torrents m)).*1).
      { unfold reported_for in Hr. destruct (accepted c h); [|done].
        destruct (Torrents m !! h) as [raw|] eqn:Hm; [|done].
        apply list_elem_of_fmap. exists (h, raw). split; [done|]. by apply elem_of_map_to_list. }
      split; [intros [[Hne _] Hn]; split; [by exists p|]; intros Hin; by apply Hn|].
      intros [(q & Hq & Hne) Hn]. simplify_eq. split; [done|]. by intros [Hin _].
    + split; [by intros [[? _] _]|]. intros [(q & ? & _) _]. done.
  - intros h. rewrite merge_sort_Permutation, Hrm, !elem_of_dom, Hf1.
    destruct (reported_for c (Torrents m) h) as [p|]; unfold is_Some; set_solver.
Qed.

Lemma applied_classified m c c' : classified c -> applied m c c' -> classified c'.
Proof.
  intros Hc Ha. destruct Hc as [Hs Hf Hp Hr].
  assert (Hdom : dom (fields c') ⊆ owned c').
  { intros h [o Ho]%elem_of_dom. rewrite (ap_fields _ _ _ Ha) in Ho. unfold replayed in Ho.
    rewrite (ap_owned _ _ _ Ha). destruct (contains _ _); [done|].
    unfold reported_for, accepted in Ho. case_bool_decide; [done|].
    by apply Hf, elem_of_dom_2 in Ho || (apply elem_of_dom_2 in Ho; by apply Hf). }
  split; [split|..]; rewrite ?(ap_pend _ _ _ Ha), ?(ap_rej _ _ _ Ha), ?(ap_owned _ _ _ Ha) in *;
    try done; set_solver.
Qed.

(** *** A full response *)

(** The torrents of a response that decode. *)
Definition objects (m : maindata) : gmap string object := omap id (Torrents m).

Definition decodable (m : maindata) : Prop := forall h raw, Torrents m !! h = Some raw -> is_Some raw.

Lemma mergeFull_view now m c d changed removed c' : mergeFull now m c = (d, changed, removed, c') ->
  d = mergeApplied /\ fields c' = map_imap (fresh_object c) (Torrents m) /\
  rejected c' = dom (Torrents m) ∖ owned c /\ pendingFull c' = ∅ /\ owned c' = owned c /\
  forceFull c' = false /\ rid c' = Rid m /\ ownershipEpoch c' = ownershipEpoch c.
Proof.
  unfold mergeFull. intros H. simplify_eq. cbn.
  destruct (noteAll_view (map_to_list (map_imap (fresh_object c) (Torrents m))) c)
    as (_ & _ & _ & Ho & _ & _ & He). by rewrite Ho, He.
Qed.

Lemma fresh_lookup c m h : map_imap (fresh_object c) (Torrents m) !! h =
  Torrents m !! h ≫= fresh_object c h.
Proof. apply map_lookup_imap. Qed.

Lemma mergeFull_classified now m c d changed removed c' :
  mergeFull now m c = (d, changed, removed, c') -> classified c'.
Proof.
  intros (_ & Hf & Hr & Hp & Ho & _)%mergeFull_view.
  assert (Hdom : dom (fields c') ⊆ owned c').
  { intros h [o Hh]%elem_of_dom. rewrite Hf, fresh_lookup in Hh. rewrite Ho.
    destruct (Torrents m !! h); [|done]. simpl in Hh. unfold fresh_object, accepted in Hh.
    by case_bool_decide. }
  split; [split|..]; rewrite ?Hp, ?Hr, ?Ho in *; set_solver.
Qed.

Lemma map_subseteq_same_size (p s : object) : p ⊆ s -> size p = size s -> p = s.
Proof.
  intros Hsub Hsize. apply map_eq. intros k. destruct (p !! k) as [v|] eqn:Hp.
  { by rewrite (lookup_weaken _ _ _ _ Hp Hsub). }
  destruct (s !! k) as [v|] eqn:Hs; [|done]. exfalso.
  assert (dom p ⊆ dom s ∖ {[k]}) as Hd%subseteq_size.
  { apply not_elem_of_dom in Hp. apply subseteq_dom in Hsub. set_solver. }
  apply elem_of_dom_2 in Hs.
  assert (size ({[k]} : gset string) <= size (dom s))%nat as H1 by (apply subseteq_size; set_solver).
  rewrite size_difference, !size_dom in Hd by set_solver.
  rewrite size_singleton, !size_dom in *. lia.
Qed.

Lemma full_changed_spec c h o : full_changed c h o = true <-> fields c !! h <> Some o.
Proof.
  unfold full_changed. destruct (fields c !! h) as [old|]; [|naive_solver].
  rewrite orb_true_iff, !negb_true_iff, Nat.eqb_neq. split.
  - intros [Hs|Hs] Heq; injection Heq as ->; [done|].
    assert (torrentFieldsEqual o o = true) by (by apply torrentFieldsEqual_spec). congruence.
  - intros Hne. destruct (decide (size old = size o)) as [Hs|Hs]; [right|by left].
    destruct (torrentFieldsEqual old o) eqn:He; [|done]. apply torrentFieldsEqual_spec in He.
    apply map_subseteq_same_size in He; [|done]. congruence.
Qed.

(** The hashes a merge reports are exactly those whose served object is new or
    different, and those that were served and no longer are; both lists come in
    order. *)
Theorem merge_reports_exactly now m c changed removed c' : classified c ->
  (forall h, h ∈ TorrentsRemoved m -> h ∉ dom (Torrents m)) ->
  merge now m c = (mergeApplied, changed, removed, c') ->
  (forall h, h ∈ changed <-> is_Some (fields c' !! h) /\ fields c' !! h <> fields c !! h) /\
  (forall h, h ∈ removed <-> is_Some (fields c !! h) /\ fields c' !! h = None) /\
  StronglySorted id_le changed /\ StronglySorted id_le removed.
Proof.
  intros Hc Hdisj. unfold merge. destruct (FullUpdate m) eqn:Hfull; intros Hm; split_and!.
  - intros h. pose proof (mergeFull_view _ _ _ _ _ _ _ Hm) as (_ & Hf & _). unfold mergeFull in Hm.
    simplify_eq. rewrite merge_sort_Permutation, list_elem_of_fmap, Hf. split.
    + intros ([k o] & -> & Hin). simpl. apply elem_of_filter_bool in Hin as [Hch Hin].
      apply elem_of_map_to_list in Hin. rewrite Hin. split; [done|].
      apply not_eq_sym, full_changed_spec, Hch.
    + intros [[o Ho] Hne]. exists (h, o). split; [done|]. apply elem_of_filter_bool. simpl.
      split; [apply full_changed_spec; congruence|by apply elem_of_map_to_list].
  - intros h. pose proof (mergeFull_view _ _ _ _ _ _ _ Hm) as (_ & Hf & _). unfold mergeFull in Hm.
    simplify_eq. rewrite merge_sort_Permutation, elem_of_filter_bool, Hf.
    rewrite andb_true_iff, negb_true_iff, bool_decide_eq_false, not_elem_of_dom. unfold accepted.
    rewrite bool_decide_eq_true. rewrite list_elem_of_fmap. split.
    + intros [[Hn Ha] ([k o] & -> & Hin%elem_of_map_to_list)]. split; [by exists o|done].
    + intros [[o Ho] Hn]. split; [split; [done|]|].
      * apply (cl_fields _ Hc). by eapply elem_of_dom_2.
      * exists (h, o). split; [done|]. by apply elem_of_map_to_list.
  - unfold mergeFull in Hm. simplify_eq. apply StronglySorted_merge_sort; apply _.
  - unfold mergeFull in Hm. simplify_eq. apply StronglySorted_merge_sort; apply _.
  - apply mergePartial_cases in Hm as [(? & _)|(_ & Ha & Hch & _)]; [done| |done].
    intros h. rewrite Hch, (ap_fields _ _ _ Ha). unfold replayed, contains. split.
    + intros [(p & Hp & Hne) Hn]. rewrite bool_decide_false, Hp by done. done.
    + case_bool_decide as Hin; [by intros [[? ?] _]|]. intros [_ Hne]. split; [|done].
      destruct (reported_for c (Torrents m) h) as [p|]; [by exists p|done].
  - apply mergePartial_cases in Hm as [(? & _)|(_ & Ha & _ & Hrm)]; [done| |done].
    intros h. rewrite Hrm, (ap_fields _ _ _ Ha), elem_of_dom. unfold replayed, contains. split.
    + intros [Hin [Hs|[p Hp]]]; [by rewrite bool_decide_true|]. exfalso. apply (Hdisj h Hin).
      unfold reported_for in Hp. destruct (accepted c h); [|done].
      apply elem_of_dom. by destruct (Torrents m !! h).
    + intros [Hs Hn]. case_bool_decide as Hin; [by auto|].
      destruct (reported_for c (Torrents m) h); [done|]. rewrite Hn in Hs. by destruct Hs.
  - unfold mergePartial in Hm. repeat case_match; simplify_eq.
    apply StronglySorted_merge_sort; apply _.
  - unfold mergePartial in Hm. repeat case_match; simplify_eq.
    apply StronglySorted_merge_sort; apply _.
Qed.

(** ** Ownership is respected in every reachable state *)

Section Reach.
Context `{!UnicodeTables}.

Definition init_tracker : tracker := MkTracker zero_cache false false ∅.

Inductive reach : pc * tracker -> Prop :=
  | reach_init : reach (Idle, init_tracker)
  | reach_step ev s s' : reach s -> step ev s = Some s' -> reach s'.

Lemma zero_classified : classified zero_cache.
Proof. by apply classified_split. Qed.

Lemma with_owned_sets set c : sets_ok c -> sets_ok (with_owned set c).
Proof. by intros []. Qed.

Lemma force_classified c : classified c -> classified (force c).
Proof. intros [[] ? ? ?]. by split. Qed.

Lemma due_classified now c : classified c -> classified (dueFullSync now c).
Proof. intros. unfold dueFullSync. repeat case_match; auto using force_classified. Qed.

Lemma remember_classified h n v c : classified c -> classified (rememberCacheField h n v c).
Proof.
  intros [[] ? ? ?]. unfold rememberCacheField. destruct (fields c !! h) as [o|] eqn:Ho; [|done].
  apply elem_of_dom_2 in Ho.
  assert (Hd : dom (<[h:=<[n:=v]> o]> (fields c)) = dom (fields c)) by (rewrite dom_insert_L; set_solver).
  split; [split|..]; cbn; rewrite ?Hd; done.
Qed.

Lemma project_classified h c : classified c -> classified (projectStop h c).
Proof. unfold projectStop. case_match; auto using remember_classified. Qed.

Lemma settle_view f b c : same_view c (settleFlush f b c).
Proof. unfold settleFlush, chargeFlushAttempt. repeat case_match; by split_and!. Qed.

Lemma apply_classified now m set e t : classified (cached t) ->
  classified (cached (applyResponse now m set e t).1).
Proof.
  intros Hc. unfold applyResponse. destruct (_ =? _); [|done].
  destruct (merge now m _) as [[[d changed] removed] c'] eqn:Hm.
  assert (Hc' : classified c').
  { unfold merge in Hm. destruct (FullUpdate m) eqn:Hfull.
    - by eapply mergeFull_classified.
    - assert (Hs : classified (ownershipScan (with_owned set (cached t))))
        by apply scan_classified, with_owned_sets, Hc.
      apply mergePartial_cases in Hm as [(_ & _ & _ & _ & ->)|(_ & Ha & _)]; [| |done].
      + destruct Hs as [[] ? ? ?]. split; [split|..]; cbn; set_solver.
      + by eapply applied_classified. }
  destruct d; [done|].
  destruct (takeInfohashFlushes c') as [c2 batch] eqn:Ht. simpl.
  eapply classified_view; [|exact Hc']. pose proof (take_view c') as Hv. by rewrite Ht in Hv.
Qed.

Lemma step_classified ev s s' : classified (cached s.2) -> step ev s = Some s' ->
  classified (cached s'.2).
Proof.
  destruct s as [p t]. intros Hc Hs. simpl in Hc.
  destruct ev, p; simpl in Hs; repeat case_match; simplify_eq/=;
    try done; auto using install_classified, remember_classified, force_classified,
      project_classified, due_classified; try (by apply install_classified, Hc).
  all: try (eapply classified_view; [apply settle_view|exact Hc]).
  all: match goal with
    | H : ownershipPrepass _ _ _ = _ |- _ =>
      unfold ownershipPrepass in H; case_match; simplify_eq/=;
      first [exact Hc | apply scan_classified, with_owned_sets, Hc]
    | H : requestPlan _ _ = _ |- _ => unfold requestPlan in H; simplify_eq/=; by apply due_classified
    | H : applyResponse ?now ?m ?set ?e ?t = _ |- _ =>
      pose proof (apply_classified now m set e t Hc) as Ha; by rewrite H in Ha
    end.
Qed.

Lemma reach_classified s : reach s -> classified (cached s.2).
Proof.
  induction 1 as [|ev s s' _ IH Hs]; [apply zero_classified|]. by eapply step_classified.
Qed.

(** However the poll, the replacements of the ownership source and the
    mutations interleave, and whatever the daemon answers, everything [List]
    and [Get] serve is a torrent the stored snapshot owns; a torrent the
    snapshot owns but whose full object is still owed is pending, and then the
    next request asks for everything. *)
Theorem served_is_owned p t : reach (p, t) ->
  (forall i, i ∈ List (cached t) -> exists h, h ∈ owned (cached t) /\ ti_ID i = handle h) /\
  (forall id i, Get id (cached t) = inr i ->
     bareHandle Router.NameQBittorrent id ∈ owned (cached t)) /\
  (pendingFull (cached t) <> ∅ -> forall now, (requestPlan now t).1.1 = 0) /\
  pendingFull (cached t) ⊆ owned (cached t) /\ rejected (cached t) ## owned (cached t).
Proof.
  intros Hr%reach_classified. destruct Hr as [Hs Hf Hp Hrej]. simpl in *. split_and!; [| | |done..].
  - intros i. unfold List. rewrite merge_sort_Permutation, list_elem_of_omap.
    intros ([h o] & Hin%elem_of_map_to_list & Hi). simpl in Hi. exists h. split.
    { by apply Hf, (elem_of_dom_2 _ _ o). }
    unfold taskInfoFromCache, torrent_of in Hi. destruct (well_typed o); [|done].
    simpl in Hi. by simplify_eq.
  - intros id i. unfold Get. destruct (fields (cached t) !! _) as [o|] eqn:Ho; [|done].
    intros _. apply Hf, elem_of_dom. by exists o.
  - intros Hne now. unfold requestPlan, dueFullSync. simpl.
    pose proof (so_force _ Hs Hne) as Hff.
    repeat case_match; simpl in *; congruence.
Qed.
End Reach.
