(* ===== verification/QbRefine.v ===== *)
(** * The cache against the daemon's own state

    The daemon numbers its answers and remembers what state each number stands
    for; asked with a number it may answer with the difference to that state,
    asked with 0 it answers in full.  [run] is the client of [QbSync] over such a
    daemon, with a ghost that keeps the daemon's record, the state of the last
    answer the client accepted, and the members the client has written into its
    copy on its own account. *)

From Stdlib Require Import SpecFloat.
From stdpp Require Import fin_maps sorting pretty.
From S2P Require Import Prelude GoStrings TaskState Schema Lease World Engine Adapters QbSync QbProps.

Open Scope Z_scope.

(** ** The delta protocol *)

Abbreviation state := (gmap string object).

(** The state a response publishes, relative to [B]. *)
Definition published (B : state) (m : maindata) : state :=
  if FullUpdate m then objects m
  else filter (fun p => p.1 ∉ TorrentsRemoved m)
         (base.merge (fun raw b => match raw with Some (Some p) => Some (merged b p) | _ => b end)
            (Torrents m) B).

Lemma published_full B m h : FullUpdate m = true -> published B m !! h = mjoin (Torrents m !! h).
Proof.
  intros Hf. unfold published, objects. rewrite Hf, lookup_omap. by destruct (Torrents m !! h).
Qed.

Lemma published_partial B m h : FullUpdate m = false ->
  published B m !! h =
    if contains (TorrentsRemoved m) h then None
    else match mjoin (Torrents m !! h) with
         | Some p => Some (merged (B !! h) p) | None => B !! h end.
Proof.
  intros Hf. unfold published. rewrite Hf, map_lookup_filter, lookup_merge.
  unfold diag_None, contains. destruct (Torrents m !! h) as [[p|]|], (B !! h) as [b|] eqn:Hb; simpl;
    repeat case_guard; repeat case_bool_decide; try done; set_solver.
Qed.

(** ** The ghost *)

Record ghost := MkGhost {
  history : gmap Z state;         (* what each of the daemon's numbers stands for *)
  base : state;                   (* the state of the last accepted answer *)
  answered : state;               (* the state of the answer being applied *)
  dirty : gset (string * string)  (* members the client wrote into its copy *) }.

Definition reported_member (m : maindata) (h name : string) : bool :=
  match mjoin (Torrents m !! h) with Some p => bool_decide (name ∈ dom p) | None => false end.

(** The members still the client's own after an accepted answer. *)
Definition still_dirty (m : maindata) (D : state) (s : gset (string * string)) : gset (string * string) :=
  if FullUpdate m then ∅
  else filter (fun p => p.1 ∈ dom D /\ reported_member m p.1 p.2 = false) s.

Section Run.
Context `{!UnicodeTables}.

(** The response is merged and published. *)
Definition accepts (now : Z) (m : maindata) (set : gset string) (e : Z) (t : tracker) : bool :=
  (ownershipEpoch (cached t) =? e) &&
  (let c := with_owned set (cached t) in
   match (merge now m (if FullUpdate m then c else ownershipScan c)).1.1.1 with
   | mergeApplied => true | mergeRejected => false end).

Definition gstep (ev : event) (s : pc * tracker) (g : ghost) : ghost :=
  match ev, s with
  | EvReply m, (Asked r _, _) =>
    let D := published (default ∅ (history g !! r)) m in
    MkGhost (<[Rid m := D]> (history g)) (base g) D (dirty g)
  | EvApply now a, (Applying m e, t) =>
    if accepts now m (snapshot t a) e t
    then MkGhost (history g) (answered g) (answered g) (still_dirty m (answered g) (dirty g))
    else g
  | EvRemember h name _, _ => MkGhost (history g) (base g) (answered g) (dirty g ∪ {[(h, name)]})
  | EvResolve WriterDuplicate, (Flushing (f :: _), _) =>
    MkGhost (history g) (base g) (answered g) (dirty g ∪ {[(hash f, "state"%string)]})
  | _, _ => g
  end.

(** What the daemon documents: torrents are objects, and a partial answer to
    number [r], which is not 0, is relative to the state [r] stands for. *)
Definition keeps_protocol (ev : event) (s : pc * tracker) (g : ghost) : Prop :=
  match ev, s with
  | EvReply m, (Asked r _, _) =>
    decodable m /\ (FullUpdate m = false -> r <> 0 /\ is_Some (history g !! r))
  | _, _ => True
  end.

Inductive run : pc * tracker -> ghost -> Prop :=
  | run_init : run (Idle, init_tracker) (MkGhost ∅ ∅ ∅ ∅)
  | run_step ev s s' g : run s g -> keeps_protocol ev s g -> step ev s = Some s' ->
      run s' (gstep ev s g).

(** ** The simulation *)

Definition agree (d : gset (string * string)) (h : string) (f b : option object) : Prop :=
  (is_Some f <-> is_Some b) /\
  forall name, (h, name) ∉ d -> f ≫= (fun o => o !! name) = b ≫= (fun o => o !! name).

Record tracked (c : cache) (B : state) (d : gset (string * string)) : Prop := {
  tr_agree : forall h, h ∈ owned c -> h ∉ pendingFull c -> agree d h (fields c !! h) (B !! h);
  tr_known : dom B ⊆ dom (fields c) ∪ rejected c ∪ pendingFull c }.

Lemma agree_mono d d' h f b : d ⊆ d' -> agree d h f b -> agree d' h f b.
Proof. intros Hd [Hs Hn]. split; [done|]. intros name Hname. apply Hn. set_solver. Qed.

Lemma tracked_mono c B d d' : d ⊆ d' -> tracked c B d -> tracked c B d'.
Proof. intros Hd [Ha Hk]. split; [|done]. intros h Ho Hp. eapply agree_mono; eauto. Qed.

Lemma tracked_view c c' B d :
  fields c' = fields c -> rejected c' = rejected c -> pendingFull c' = pendingFull c ->
  owned c' = owned c -> tracked c B d -> tracked c' B d.
Proof. intros Hf Hr Hp Ho [Ha Hk]. split; rewrite ?Hf, ?Hr, ?Hp, ?Ho; done. Qed.

(** A new snapshot: what it keeps is as it was, what it newly accepts is unknown
    to the daemon or pending. *)
Lemma tracked_reown set c c' B d : classified c -> tracked c B d ->
  fields c' = kept set (fields c) -> owned c' = set ->
  (rejected c ∪ pendingFull c) ∩ set ⊆ pendingFull c' ->
  dom (fields c) ∪ rejected c ∪ pendingFull c ⊆ dom (fields c') ∪ rejected c' ∪ pendingFull c' ->
  tracked c' B d.
Proof.
  intros [Hs Hf Hp Hr] [Ha Hk] Hf' Ho' Hp' Hsub. split; [|set_solver].
  intros h Hh Hnp. rewrite Hf'. rewrite Ho' in Hh.
  assert (Hkept : kept set (fields c) !! h = fields c !! h).
  { unfold kept. rewrite map_lookup_filter. destruct (fields c !! h); [|done]. simpl.
    by rewrite option_guard_True. }
  rewrite Hkept. destruct (decide (h ∈ owned c)) as [Hold|Hnew].
  - apply Ha; [done|set_solver].
  - assert (Hn : fields c !! h = None) by (apply not_elem_of_dom; set_solver).
    assert (Hb : B !! h = None) by (apply not_elem_of_dom; apply not_elem_of_dom in Hn; set_solver).
    rewrite Hn, Hb. split; [done|]. done.
Qed.

Lemma tracked_scan set c B d : classified c -> tracked c B d ->
  tracked (ownershipScan (with_owned set c)) B d.
Proof.
  intros Hc Ht. eapply (tracked_reown set c); [done|done|..]; unfold ownershipScan; cbv zeta;
    case_bool_decide as Hm; cbn; try done; clear Hm; unfold dropped; rewrite ?dom_kept;
    intros h; destruct (decide (h ∈ set)); set_solver.
Qed.

Lemma tracked_install set c B d : classified c -> tracked c B d ->
  tracked (installOwnership set c) B d.
Proof.
  intros Hc Ht. eapply (tracked_reown set c); [done|done|..]; unfold installOwnership, reset; cbn;
    try done; unfold dropped; rewrite ?dom_kept; intros h; destruct (decide (h ∈ set)); set_solver.
Qed.

Lemma tracked_remember h n v c B d : tracked c B d ->
  tracked (rememberCacheField h n v c) B (d ∪ {[(h, n)]}).
Proof.
  intros Ht. unfold rememberCacheField. destruct (fields c !! h) as [o|] eqn:Ho;
    [|eapply tracked_mono; [|done]; set_solver].
  destruct Ht as [Ha Hk]. split; cbn.
  - intros k Hk1 Hk2. destruct (Ha k Hk1 Hk2) as [Hs Hn]. destruct (decide (k = h)) as [->|Hne].
    + rewrite lookup_insert_eq. rewrite Ho in Hs, Hn. split; [by rewrite <- Hs|].
      intros name Hname. simpl. rewrite lookup_insert_ne by set_solver. apply Hn. set_solver.
    + rewrite lookup_insert_ne by done. split; [done|]. intros. apply Hn. set_solver.
  - rewrite dom_insert_L. set_solver.
Qed.

Lemma tracked_full now m c d changed removed c' B dr :
  decodable m -> FullUpdate m = true -> mergeFull now m c = (d, changed, removed, c') ->
  tracked c' (published B m) dr.
Proof.
  intros Hdec Hfull (_ & Hf & Hr & Hp & Ho & _)%mergeFull_view.
  assert (Hl : forall h, h ∈ owned c -> fields c' !! h = published B m !! h).
  { intros h Hh. rewrite Hf, fresh_lookup, published_full by done.
    destruct (Torrents m !! h) as [raw|] eqn:Hm; [|done]. destruct (Hdec _ _ Hm) as [o ->].
    simpl. unfold fresh_object, accepted. by rewrite bool_decide_true. }
  split.
  - intros h Hh _. rewrite Ho in Hh. rewrite Hl by done. done.
  - intros h Hh. destruct (decide (h ∈ owned c)) as [Hown|Hown].
    + apply elem_of_dom in Hh. rewrite <- Hl in Hh by done. apply elem_of_dom in Hh. set_solver.
    + rewrite Hr. apply elem_of_dom in Hh as [o Hh]. rewrite published_full in Hh by done.
      destruct (Torrents m !! h) as [raw|] eqn:Hm; [|done]. apply elem_of_dom_2 in Hm. set_solver.
Qed.

Lemma merged_agree d h p f b : agree d h f b ->
  forall name, ((h, name) ∉ d \/ name ∈ dom p) ->
    merged f p !! name = merged b p !! name.
Proof.
  intros [Hs Hn] name Hname. unfold merged. rewrite !lookup_union.
  destruct (p !! name) as [v|] eqn:Hp; [by destruct (default ∅ f !! name), (default ∅ b !! name)|].
  destruct Hname as [Hd|Hd]; [|by apply not_elem_of_dom in Hp].
  specialize (Hn name Hd). destruct f as [f|], b as [b|]; simpl in *; try congruence.
  - by destruct Hs as [Hs _]; destruct (Hs (mk_is_Some _ _ eq_refl)).
  - by destruct Hs as [_ Hs]; destruct (Hs (mk_is_Some _ _ eq_refl)).
Qed.

Lemma tracked_partial m c c' B dr : FullUpdate m = false -> classified c ->
  applied m c c' -> tracked c B dr ->
  tracked c' (published B m) (still_dirty m (published B m) dr).
Proof.
  intros Hfull Hc Ha [Hagree Hknown]. unfold still_dirty. rewrite Hfull. split.
  - intros h Hh _. rewrite (ap_owned _ _ _ Ha) in Hh.
    assert (Hold : agree dr h (fields c !! h) (B !! h)).
    { apply Hagree; [done|]. rewrite (ap_pend0 _ _ _ Ha). set_solver. }
    rewrite (ap_fields _ _ _ Ha), published_partial by done. unfold replayed.
    destruct (contains (TorrentsRemoved m) h) eqn:Hrem; [done|].
    assert (Hrep : reported_for c (Torrents m) h = mjoin (Torrents m !! h)).
    { unfold reported_for, accepted. by rewrite bool_decide_true. }
    rewrite Hrep. destruct (mjoin (Torrents m !! h)) as [p|] eqn:Hp.
    + split; [done|]. intros name Hname. simpl. apply (merged_agree dr h); [done|].
      destruct (decide (name ∈ dom p)) as [Hin|Hin]; [by right|left].
      intros Hd. apply Hname. apply elem_of_filter. split; [|done]. simpl. split.
      * apply elem_of_dom. rewrite published_partial, Hrem, Hp by done. done.
      * unfold reported_member. rewrite Hp. by apply bool_decide_eq_false.
    + destruct Hold as [Hs Hn]. split; [done|]. intros name Hname.
      destruct (B !! h) as [b|] eqn:Hb.
      * apply Hn. intros Hd. apply Hname. apply elem_of_filter. split; [|done]. simpl. split.
        -- apply elem_of_dom. rewrite published_partial, Hrem, Hp by done. by rewrite Hb.
        -- unfold reported_member. by rewrite Hp.
      * destruct (fields c !! h); [|done]. by destruct Hs as [Hs _]; destruct (Hs (mk_is_Some _ _ eq_refl)).
  - intros h Hh. apply elem_of_dom in Hh as [o Hh]. rewrite published_partial in Hh by done.
    destruct (contains (TorrentsRemoved m) h) eqn:Hrem; [done|].
    apply contains_false in Hrem. rewrite (ap_rej _ _ _ Ha), (ap_pend _ _ _ Ha).
    destruct (decide (h ∈ owned c)) as [Hown|Hown].
    + assert (is_Some (fields c' !! h)) as Hd%elem_of_dom; [|set_solver].
      rewrite (ap_fields _ _ _ Ha). unfold replayed. rewrite (proj2 (contains_false _ _) Hrem).
      unfold reported_for, accepted. rewrite bool_decide_true by done.
      destruct (mjoin (Torrents m !! h)); [done|].
      apply (Hagree h); [done|rewrite (ap_pend0 _ _ _ Ha); set_solver|]. by exists o.
    + assert (h ∈ dom (Torrents m) ∖ owned c \/ h ∈ dom B) as [|HB].
      { destruct (Torrents m !! h) as [raw|] eqn:Hm; [left; apply elem_of_dom_2 in Hm; set_solver|].
        right. simpl in Hh. by eapply elem_of_dom_2. }
      * apply elem_of_union_l, elem_of_union_r. set_solver.
      * apply Hknown in HB. rewrite (ap_pend0 _ _ _ Ha) in HB. destruct Hc as [_ Hcf _ _].
        apply elem_of_union_l, elem_of_union_r. set_solver.
Qed.

(** ** The invariant of a run *)

Definition where_ok (p : pc) (c : cache) (g : ghost) : Prop :=
  match p with
  | Asked r e => (r <> 0 -> history g !! r = Some (base g)) /\
      (ownershipEpoch c = e \/ forceFull c = true)
  | Applying m e => decodable m /\ answered g = published (base g) m /\
      history g !! Rid m = Some (answered g) /\ (ownershipEpoch c = e \/ forceFull c = true)
  | _ => forceFull c = false -> rid c <> 0 -> history g !! rid c = Some (base g)
  end.

Record sim (s : pc * tracker) (g : ghost) : Prop := {
  si_class : classified (cached s.2);
  si_track : tracked (cached s.2) (base g) (dirty g);
  si_where : where_ok s.1 (cached s.2) g }.

(** A section that keeps the number, and the epoch unless it forces. *)
Definition quiet (c c' : cache) : Prop :=
  rid c' = rid c /\ (forceFull c' = true \/
    forceFull c' = forceFull c /\ ownershipEpoch c' = ownershipEpoch c).

Lemma where_quiet p c c' g : quiet c c' -> where_ok p c g -> where_ok p c' g.
Proof.
  unfold quiet, where_ok. intros [Hr [Hf|[Hf He]]]; rewrite ?Hr, ?Hf, ?He; [|done].
  destruct p; try done; intros; destruct_and!; split_and!; auto.
Qed.

Lemma quiet_scan set c : quiet c (ownershipScan (with_owned set c)).
Proof. unfold ownershipScan. cbv zeta. case_bool_decide; split; cbn; auto. Qed.

Lemma quiet_remember h n v c : quiet c (rememberCacheField h n v c).
Proof. unfold rememberCacheField. case_match; split; cbn; auto. Qed.

Lemma quiet_settle f b c : quiet c (settleFlush f b c).
Proof. destruct (settle_view f b c) as (_ & _ & _ & _ & Hf & Hr & He). split; [done|]. auto. Qed.

Lemma quiet_due now c : quiet c (dueFullSync now c).
Proof. unfold dueFullSync. repeat case_match; split; cbn; auto. Qed.

Lemma tracked_due now c B d : tracked c B d -> tracked (dueFullSync now c) B d.
Proof. intros. unfold dueFullSync. repeat case_match; [|done..]. by eapply tracked_view; [..|done]. Qed.

(** What [applyResponse] does to the cache. *)
Lemma apply_run now m set e t : classified (cached t) ->
  let c' := cached (applyResponse now m set e t).1 in
  if accepts now m set e t
  then forall B d, decodable m -> tracked (cached t) B d ->
    tracked c' (published B m) (still_dirty m (published B m) d) /\ rid c' = Rid m
  else (ownershipEpoch (cached t) = e -> forceFull c' = true) /\
    (ownershipEpoch (cached t) <> e -> c' = cached t) /\
    forall B d, tracked (cached t) B d -> tracked c' B d.
Proof.
  intros Hc. unfold applyResponse, accepts. destruct (_ =? _) eqn:He; simpl.
  2: { apply Z.eqb_neq in He. done. }
  apply Z.eqb_eq in He. set (c0 := if FullUpdate m then _ else _).
  assert (Hc0 : FullUpdate m = false -> classified c0).
  { unfold c0. intros ->. by apply scan_classified, with_owned_sets, Hc. }
  assert (Ht0 : FullUpdate m = false -> forall B d, tracked (cached t) B d -> tracked c0 B d).
  { unfold c0. intros -> B d. by apply tracked_scan. }
  destruct (merge now m c0) as [[[d changed] removed] c'] eqn:Hm. simpl. unfold merge in Hm.
  assert (Hview : forall subs, same_view c' (cached (let (c, batch) := takeInfohashFlushes c' in
    (MkTracker c (source t) (writer t) subs, batch)).1)).
  { intros. pose proof (take_view c') as Hv. by destruct (takeInfohashFlushes c'). }
  assert (Happ : forall subs B d, tracked c' B d /\ rid c' = Rid m ->
    let c2 := cached (let (c, batch) := takeInfohashFlushes c' in
      (MkTracker c (source t) (writer t) subs, batch)).1 in tracked c2 B d /\ rid c2 = Rid m).
  { intros subs0 B d0 [Htr Hrid]. destruct (Hview subs0) as (Hf & Hr & Hp & Ho & _ & Hri & _).
    split; [by eapply tracked_view|]. by rewrite Hri. }
  destruct (FullUpdate m) eqn:Hfull.
  - pose proof (mergeFull_view _ _ _ _ _ _ _ Hm) as (-> & _ & _ & _ & _ & _ & Hrid & _).
    intros B d Hdec _. apply Happ. split; [|done].
    unfold still_dirty. rewrite Hfull. by eapply tracked_full.
  - specialize (Hc0 eq_refl). specialize (Ht0 eq_refl).
    apply mergePartial_cases in Hm as [(-> & _ & _ & Hne & ->)|(-> & Ha & _)]; [| |done].
    + simpl. split; [|split; [done|]].
      * intros _. by apply (so_force _ (cl_sets _ Hc0)).
      * intros B d Htr. destruct (Ht0 B d Htr) as [Hag Hk]. split; [done|]. cbn.
        etransitivity; [exact Hk|]. intros h. rewrite !elem_of_union. tauto.
    + intros B d Hdec Htr. apply Happ. split; [|apply Ha].
      apply (tracked_partial _ c0); auto.
Qed.

Lemma sim_step ev s s' g : sim s g -> keeps_protocol ev s g -> step ev s = Some s' ->
  sim s' (gstep ev s g).
Proof.
  intros [Hc Ht Hw] Hp Hs. pose proof (step_classified ev s s' Hc Hs) as Hc'.
  destruct s as [p t]. simpl in Hc, Ht, Hw.
  destruct ev as [a| |h n v|id|id|id| |a|now|m| |now a|a|ok|]; simpl in Hs.
  - simplify_eq/=. split; [done|by apply tracked_install|]. eapply where_quiet; [|done].
    split; [done|by left].
  - simplify_eq/=. by split.
  - simplify_eq/=. split; [done|by apply tracked_remember|].
    destruct p; simpl; eapply (where_quiet _ (cached t)) in Hw; try apply quiet_remember; exact Hw.
  - destruct (subs t !! id); [done|]. simplify_eq/=. by split.
  - simplify_eq/=. by split.
  - simplify_eq/=. by split.
  - destruct p; simplify_eq/=. by split.
  - destruct p as [|e| | | | | |]; simplify_eq/=. unfold ownershipPrepass in Hs.
    destruct (_ =? e); simplify_eq/=; split; simpl; try done; [by apply tracked_scan|].
    eapply (where_quiet Ready); [apply quiet_scan|done].
  - destruct p; simplify_eq/=. split; simpl; [done|by apply tracked_due|].
    split; [|by left]. destruct (forceFull (dueFullSync now (cached t))) eqn:Hf; intros Hr; [by destruct Hr|].
    apply (where_quiet Ready _ _ _ (quiet_due now (cached t))) in Hw. simpl in Hw.
    rewrite <- Hw; [|done|done]. done.
  - destruct p as [| | |r e| | | |]; simplify_eq/=. destruct Hp as [Hdec Hbase]. destruct Hw as [Hr He].
    destruct (_ =? e) eqn:Heq; split; simpl; try done.
    + split_and!; [done| |by rewrite lookup_insert_eq|by apply Z.eqb_eq in Heq; left].
      unfold published. destruct (FullUpdate m) eqn:Hfull; [done|].
      destruct (Hbase eq_refl) as [Hne _]. by rewrite Hr.
    + apply Z.eqb_neq in Heq. destruct He as [He|He]; [done|]. congruence.
  - destruct p as [| | |r e| | | |]; simplify_eq/=. split; simpl; [done| |done].
    by eapply tracked_view; [..|done].
  - destruct p as [| | | |m e| | |]; simplify_eq/=. destruct Hw as (Hdec & Hans & Hhist & He).
    pose proof (apply_run now m (snapshot t a) e t Hc) as Happ. cbv zeta in Happ.
    destruct (applyResponse now m _ e t) as [t' batch]. simplify_eq. simpl in Happ, Hc'.
    assert (Hgoal : sim (Idle, t') (gstep (EvApply now a) (Applying m e, t) g)).
    { simpl. destruct (accepts now m (snapshot t a) e t).
      - destruct (Happ _ _ Hdec Ht) as [Htr Hrid]. split; simpl.
        + exact Hc'.
        + by rewrite Hans.
        + intros _ _. by rewrite Hrid.
      - destruct Happ as (Hforce & Hsame & Htr). split; simpl.
        + exact Hc'.
        + by apply Htr.
        + intros Hf. exfalso. destruct (decide (ownershipEpoch (cached t) = e)) as [Heq|Hne].
          * rewrite Hforce in Hf; done.
          * rewrite (Hsame Hne) in Hf. destruct He; congruence. }
    destruct Hgoal as [Hg1 Hg2 Hg3].
    by destruct batch, (writer t'); split.
  - destruct p as [| | | | |[|f batch]| |]; simplify_eq/=. destruct a; simplify_eq/=; try by split.
    split; simpl; [done| |].
    + unfold projectStop. case_match; [by apply tracked_remember|].
      eapply tracked_mono; [|done]. set_solver.
    + eapply (where_quiet Idle); [|exact Hw]. unfold projectStop. case_match; [apply quiet_remember|].
      split; auto.
  - destruct p; simplify_eq/=. by split.
  - destruct p as [| | | | | | |f failed batch]; simplify_eq/=. split; simpl; [by destruct batch| |].
    + destruct (settle_view f failed (cached t)) as (Hf & Hr & Hpe & Ho & _).
      by eapply tracked_view.
    + eapply (where_quiet Idle) in Hw; [|apply (quiet_settle f failed)]. by destruct batch.
Qed.

(** C6: Over a daemon that keeps the delta protocol, every owned torrent that is
    not waiting for its full object is served as the daemon last published it:
    it is in the cache exactly when it is in the state of the last accepted
    answer, and every member the client has not written itself since has that
    state's value.  Failed polls, stale answers, replaced ownership sources
    and lost updates in between never break this. *)
Theorem cache_tracks_daemon p t g : run (p, t) g ->
  forall h, h ∈ owned (cached t) -> h ∉ pendingFull (cached t) ->
    (is_Some (fields (cached t) !! h) <-> is_Some (base g !! h)) /\
    forall name, (h, name) ∉ dirty g ->
      fields (cached t) !! h ≫= (fun o => o !! name) = base g !! h ≫= (fun o => o !! name).
Proof.
  intros Hrun. assert (Hsim : sim (p, t) g).
  { remember (p, t) as s eqn:Hs. clear Hs. induction Hrun as [|ev s s' g Hrun IH Hp Hstep].
    - split; [apply zero_classified|by split|]. by intros _ Hne.
    - by eapply sim_step. }
  intros h Ho Hp. exact (tr_agree _ _ _ (si_track _ _ Hsim) h Ho Hp).
Qed.
End Run.


(** ** A run, executed *)

#[local] Existing Instance ascii_tables.

#[export] Instance keeps_protocol_dec ev s g : Decision (keeps_protocol ev s g).
Proof.
  destruct ev; simpl; try apply _. destruct s as [[] t]; try apply _.
Defined.

Definition exec_one (ev : event) (sg : option ((pc * tracker) * ghost)) : option ((pc * tracker) * ghost) :=
  '(s, g) ← sg;
  if decide (keeps_protocol ev s g) then (fun s' => (s', gstep ev s g)) <$> step ev s else None.

Definition exec (l : list event) : option ((pc * tracker) * ghost) :=
  fold_left (fun sg ev => exec_one ev sg) l (Some ((Idle, init_tracker), MkGhost ∅ ∅ ∅ ∅)).

Lemma exec_run l s g : exec l = Some (s, g) -> run s g.
Proof.
  unfold exec. revert s g. induction l as [|ev l IH] using rev_ind; intros s g H.
  { simpl in H. simplify_eq. apply run_init. }
  rewrite fold_left_app in H. simpl in H. unfold exec_one at 1 in H.
  destruct (fold_left _ l _) as [[s0 g0]|]; [|done]. simpl in H.
  case_decide; [|done]. destruct (step ev s0) as [s'|] eqn:Hs; [|done]. simpl in H. simplify_eq.
  eapply run_step; [by apply IH|done|done].
Qed.

(** Two torrents, one of them ours; the second answer moves ours on and the
    third follows a reset: the other torrent has become ours and its full object
    is asked for. *)
Definition obj (st : string) : object := {["state"%string := JString st]}.
Definition both : maindata :=
  MkMaindata 1 true {["a"%string := Some (obj "downloading"); "b"%string := Some (obj "uploading")]} [].
Definition moved_on : maindata := MkMaindata 2 false {["a"%string := Some (obj "stalledDL")]} [].
Definition poll (own : gset string) (m : maindata) : list event :=
  [EvTick; EvOwned own; EvPlan 0; EvReply m; EvApply 0 own].
Definition demo_run : list event :=
  EvInstall (Some {["a"%string]}) :: poll {["a"%string]} both ++ poll {["a"%string]} moved_on
  ++ [EvTick; EvOwned {["a"%string; "b"%string]}].

Definition demo_end : (pc * tracker) * ghost := default ((Idle, init_tracker), MkGhost ∅ ∅ ∅ ∅) (exec demo_run).

Lemma cache_tracks_daemon_witness :
  run demo_end.1 demo_end.2 /\
  "a"%string ∈ owned (cached demo_end.1.2) /\ "a"%string ∉ pendingFull (cached demo_end.1.2) /\
  pendingFull (cached demo_end.1.2) = {["b"%string]} /\
  fields (cached demo_end.1.2) !! "a"%string ≫= (fun o => o !! "state"%string)
    = Some (JString "stalledDL").
Proof.
  assert (He : exec demo_run = Some demo_end) by by vm_compute.
  destruct demo_end as [[p t] g] eqn:Hd. apply exec_run in He.
  assert (Hd' : default ((Idle, init_tracker), MkGhost ∅ ∅ ∅ ∅) (exec demo_run) = ((p, t), g)) by done.
  assert (H1 : "a"%string ∈ owned (cached t)).
  { change t with ((p, t), g).1.2. rewrite <- Hd'. by vm_compute. }
  assert (H2 : "a"%string ∉ pendingFull (cached t)).
  { change t with ((p, t), g).1.2. rewrite <- Hd'. by vm_compute. }
  assert (H3 : pendingFull (cached t) = {["b"%string]}).
  { change t with ((p, t), g).1.2. rewrite <- Hd'. by vm_compute. }
  assert (H4 : ("a"%string, "state"%string) ∉ dirty g).
  { change g with ((p, t), g).2. rewrite <- Hd'. by vm_compute. }
  assert (H5 : base g !! "a"%string ≫= (fun o => o !! "state"%string) = Some (JString "stalledDL")).
  { change g with ((p, t), g).2. rewrite <- Hd'. by vm_compute. }
  split_and!; [done..|]. rewrite <- H5.
  exact (proj2 (cache_tracks_daemon p t g He "a"%string H1 H2) "state"%string H4).
Defined.

Lemma reach_of_run {T : UnicodeTables} s g : run s g -> reach s.
Proof. induction 1; [constructor|by econstructor]. Qed.

Lemma served_is_owned_witness :
  reach demo_end.1 /\ "b"%string ∈ owned (cached demo_end.1.2) /\
  (requestPlan 7 demo_end.1.2).1.1 = 0.
Proof.
  assert (He : exec demo_run = Some demo_end) by by vm_compute.
  assert (Hp : pendingFull (cached demo_end.1.2) <> ∅) by by vm_compute.
  assert (Hb : "b"%string ∈ owned (cached demo_end.1.2)) by by vm_compute.
  assert (Hr : reach (demo_end.1.1, demo_end.1.2)).
  { destruct demo_end as [[p t] g]. by eapply reach_of_run, exec_run. }
  split; [by destruct demo_end as [[p t] g]|]. split; [done|].
  exact (proj1 (proj2 (proj2 (served_is_owned _ _ Hr))) Hp 7).
Defined.

(** One torrent whose state moves on, another that is removed. *)
Definition two_served : cache :=
  MkCache 1 {["a"%string := obj "downloading"; "b"%string := obj "uploading"]} ∅ ∅
    {["a"%string; "b"%string]} ∅ ∅ ∅ false (Some 0) 1.
Definition one_gone : maindata :=
  MkMaindata 2 false {["a"%string := Some (obj "stalledDL")]} ["b"%string].

Lemma merge_reports_exactly_witness :
  exists c', merge 0 one_gone two_served = (mergeApplied, ["a"%string], ["b"%string], c') /\
    "a"%string ∈ ["a"%string] /\ fields c' !! "b"%string = None.
Proof.
  assert (Hc : classified two_served) by (apply classified_split; try done; apply (bool_decide_unpack _); by vm_compute).
  assert (Hd : forall h, h ∈ TorrentsRemoved one_gone -> h ∉ dom (Torrents one_gone)).
  { intros h ->%list_elem_of_singleton. by vm_compute. }
  assert (Hshape : (merge 0 one_gone two_served).1 = (mergeApplied, ["a"%string], ["b"%string]))
    by by vm_compute.
  destruct (merge 0 one_gone two_served) as [x c'] eqn:Hm. simpl in Hshape. subst x.
  exists c'. split; [done|]. split; [by left|].
  pose proof (merge_reports_exactly 0 one_gone two_served _ _ _ Hc Hd Hm) as (_ & Hr & _).
  exact (proj2 (proj1 (Hr "b"%string) (list_elem_of_here _ _))).
Defined.
