(* ===== verification/Bencode.v ===== *)
(** * The bencode scanner ([internal/uri/metainfo.go])

    A torrent's identity is the hash of the bytes of its [info] value exactly as
    they were submitted, so the scanner finds where that value starts and ends
    without decoding it.  Positions index the input; every failure is the one
    sentinel [ErrNotTorrent].  The recursion has fuel, and running out of it is
    an outcome of its own. *)

From stdpp Require Import pretty.
From S2P Require Import Prelude GoStrings.

Open Scope Z_scope.

Definition maxTorrentBytes : Z := 10485760.
Definition maxBencodeDepth : nat := 16.

(** ** The scanner *)

Inductive outcome (A : Type) := Parsed (x : A) | ErrNotTorrent | OutOfFuel.
Arguments Parsed {A}. Arguments ErrNotTorrent {A}. Arguments OutOfFuel {A}.

#[export] Instance outcome_ret : MRet outcome := fun A x => Parsed x.
#[export] Instance outcome_bind : MBind outcome := fun A B k m =>
  match m with Parsed x => k x | ErrNotTorrent => ErrNotTorrent | OutOfFuel => OutOfFuel end.

#[export] Instance outcome_fmap : FMap outcome := fun A B f m =>
  match m with Parsed x => Parsed (f x) | ErrNotTorrent => ErrNotTorrent | OutOfFuel => OutOfFuel end.

Definition isDigit (c : Z) : bool := between 48 57 c.

(** [b[lo:hi]]. *)
Definition slice (b : list Z) (lo hi : nat) : list Z := take (hi - lo) (drop lo b).

(** [strconv.Atoi] and [strconv.ParseInt(_, 10, 64)] are [ParseInt]; an [int] has
    64 bits. *)

Section Scanner.
Variable b : list Z.

(** The length loop of [parseString]: the position of the colon. *)
Fixpoint lengthLoop (fuel : nat) (pos : nat) : outcome nat :=
  match fuel with
  | O => OutOfFuel
  | S fuel =>
    match b !! pos with
    | None => ErrNotTorrent
    | Some c =>
      if c =? 58 then Parsed pos
      else if isDigit c then lengthLoop fuel (S pos) else ErrNotTorrent
    end
  end.

(** [parseString]: the span of the content; the cursor ends where it does. *)
Definition parseString (pos : nat) : outcome (nat * nat) :=
  match b !! pos with
  | None => ErrNotTorrent
  | Some c =>
    if negb (isDigit c) then ErrNotTorrent
    else
      colon ← lengthLoop (S (length b)) pos;
      match ParseInt (slice b pos colon) with
      | None => ErrNotTorrent
      | Some len =>
        let start := S colon in
        if Z.of_nat (length b) - Z.of_nat start <? len then ErrNotTorrent
        else Parsed (start, (start + Z.to_nat len)%nat)
      end
  end.

(** The search of [parseInt] for its terminator. *)
Fixpoint intLoop (fuel : nat) (pos : nat) : outcome nat :=
  match fuel with
  | O => OutOfFuel
  | S fuel =>
    match b !! pos with
    | None => ErrNotTorrent
    | Some c => if c =? 101 then Parsed pos else intLoop fuel (S pos)
    end
  end.

(** [parseInt]: the position after the terminator. *)
Definition parseInt (pos : nat) : outcome nat :=
  stop ← intLoop (S (length b)) (S pos);
  match ParseInt (slice b (S pos) stop) with
  | None => ErrNotTorrent
  | Some _ => Parsed (S stop)
  end.

(** The loop of [parseContainer]; [pv] is [parseValue] one level down. *)
Fixpoint containerLoop (pv : nat -> outcome nat) (kind : Z) (fuel : nat) (pos : nat) : outcome nat :=
  match fuel with
  | O => OutOfFuel
  | S fuel =>
    match b !! pos with
    | None => ErrNotTorrent
    | Some c =>
      if c =? 101 then Parsed (S pos)
      else
        at_value ← (if kind =? 100 then
                      if negb (isDigit c) then ErrNotTorrent else snd <$> parseString pos
                    else Parsed pos);
        next ← pv at_value;
        containerLoop pv kind fuel next
    end
  end.

(** [parseContainer]; [depth] counts the containers already open. *)
Definition parseContainer (pv : nat -> outcome nat) (fuel : nat) (kind : Z) (depth pos : nat) :
    outcome nat :=
  if (maxBencodeDepth <? S depth)%nat then ErrNotTorrent else containerLoop pv kind fuel (S pos).

(** [parseValue]: the position after the value; it starts at [pos]. *)
Fixpoint parseValue (fuel : nat) (depth pos : nat) : outcome nat :=
  match fuel with
  | O => OutOfFuel
  | S fuel =>
    match b !! pos with
    | None => ErrNotTorrent
    | Some c =>
      if c =? 105 then parseInt pos
      else if (c =? 108) || (c =? 100) then
        parseContainer (parseValue fuel (S depth)) fuel c depth pos
      else if isDigit c then snd <$> parseString pos
      else ErrNotTorrent
    end
  end.

Definition info_key : list Z := [105; 110; 102; 111].

(** The loop of [infoDictBytes]. *)
Fixpoint infoLoop (fuel : nat) (pos : nat) : outcome (list Z) :=
  match fuel with
  | O => OutOfFuel
  | S fuel =>
    match b !! pos with
    | None => ErrNotTorrent
    | Some c =>
      if c =? 101 then ErrNotTorrent
      else
        key ← parseString pos;
        stop ← parseValue (S (length b)) 0 key.2;
        if bool_decide (slice b key.1 key.2 = info_key) then Parsed (slice b key.2 stop)
        else infoLoop fuel stop
    end
  end.
End Scanner.

(** [infoDictBytes]. *)
Definition infoDictBytes (b : list Z) : outcome (list Z) :=
  if maxTorrentBytes <? Z.of_nat (length b) then ErrNotTorrent
  else match b with
  | [] => ErrNotTorrent
  | c :: _ => if c =? 100 then infoLoop b (S (length b)) 1 else ErrNotTorrent
  end.

(** ** The grammar *)

(** A length-prefixed string and its content. *)
Definition bstring (s content : list Z) : Prop :=
  exists len, s = len ++ 58 :: content /\ len <> [] /\ Forall (fun c => isDigit c = true) len /\
    ParseInt len = Some (Z.of_nat (length content)).

(** The encodings with at most [n] containers inside one another. *)
Inductive value : nat -> list Z -> Prop :=
  | value_int n t z : ParseInt t = Some z -> value n (105 :: t ++ [101])
  | value_string n s c : bstring s c -> value n s
  | value_list n xs : (forall x, x ∈ xs -> value n x) -> value (S n) (108 :: concat xs ++ [101])
  | value_dict n es : (forall e, e ∈ es -> exists c, bstring e.1 c) ->
      (forall e, e ∈ es -> value n e.2) ->
      value (S n) (100 :: concat ((fun e => e.1 ++ e.2) <$> es) ++ [101]).

Lemma digits_chars acc l v : digits acc l = Some v -> Forall (fun c => isDigit c = true) l.
Proof.
  revert acc. induction l as [|c l IH]; intros acc; simpl; [constructor|].
  unfold digit. destruct (_ && _) eqn:Hc; [|done]. intros H. constructor; [|by eapply IH].
  unfold isDigit, between. done.
Qed.

Lemma ParseInt_unsigned d l : d <> 43 -> d <> 45 -> ParseInt (d :: l) =
  match digits 0 (d :: l) with
  | Some n => if n <? 2 ^ 63 then Some n else None
  | None => None
  end.
Proof.
  intros H43 H45. unfold ParseInt. destruct d as [|p|p]; try done.
  repeat (destruct p as [p|p|]; try done).
Qed.

Lemma digits_nonneg l acc v : 0 <= acc -> digits acc l = Some v -> 0 <= v.
Proof.
  revert acc. induction l as [|x l IH]; intros acc Ha; simpl; [by intros; simplify_eq|].
  unfold digit. destruct (_ && _) eqn:E; [|done]. apply IH. lia.
Qed.

Lemma ParseInt_digits l z : Forall (fun c => isDigit c = true) l -> ParseInt l = Some z -> 0 <= z.
Proof.
  intros Hl. destruct l as [|d l]; [done|]. apply list.Forall_cons in Hl as [Hd _].
  unfold isDigit, between in Hd. rewrite ParseInt_unsigned by lia.
  destruct (digits 0 (d :: l)) eqn:E; [|done]. apply digits_nonneg in E; [|done].
  destruct (_ <? _); intros; by simplify_eq.
Qed.

(** A number is digits behind at most a sign. *)
Lemma ParseInt_chars l z c : ParseInt l = Some z -> c ∈ l -> isDigit c = true \/ c = 43 \/ c = 45.
Proof.
  intros H Hc.
  assert (Hl : exists s l', l = s ++ l' /\ (forall d, d ∈ s -> d = 43 \/ d = 45) /\
    exists v, digits 0 l' = Some v).
  { destruct l as [|d l]; [done|].
    destruct (decide (d = 43)) as [->|H43]; [|destruct (decide (d = 45)) as [->|H45]].
    - exists [43], l. split; [done|]. split; [set_solver|].
      unfold ParseInt in H. destruct l; [done|]. case_match; [by eexists|done].
    - exists [45], l. split; [done|]. split; [set_solver|].
      unfold ParseInt in H. destruct l; [done|]. case_match; [by eexists|done].
    - exists [], (d :: l). split; [done|]. split; [set_solver|].
      rewrite ParseInt_unsigned in H by done. destruct (digits 0 (d :: l)) as [v|]; [by exists v|done]. }
  destruct Hl as (s & l' & -> & Hs & v & Hv). apply digits_chars in Hv.
  apply elem_of_app in Hc as [Hc|Hc]; [right; by apply Hs|left].
  by eapply list.Forall_forall in Hv.
Qed.

(** *** Reading at a position *)

Section Reading.
Variable b : list Z.

Lemma drop_lookup pos c r : drop pos b = c :: r -> b !! pos = Some c /\ drop (S pos) b = r.
Proof.
  intros H. split.
  - rewrite <- (Nat.add_0_r pos), <- lookup_drop, H. done.
  - replace (S pos) with (pos + 1)%nat by lia. by rewrite <- drop_drop, H.
Qed.

Lemma drop_inv pos c : b !! pos = Some c -> drop pos b = c :: drop (S pos) b.
Proof. intros H. by apply drop_S. Qed.

Lemma drop_app_at pos x r : drop pos b = x ++ r -> drop (pos + length x) b = r.
Proof. intros H. by rewrite <- drop_drop, H, drop_app_length. Qed.

Lemma slice_at pos x r : drop pos b = x ++ r -> slice b pos (pos + length x) = x.
Proof. intros H. unfold slice. rewrite H. replace (pos + length x - pos)%nat with (length x) by lia.
  by rewrite take_app_length. Qed.

Lemma lengthLoop_complete fuel pos l r : drop pos b = l ++ 58 :: r ->
  Forall (fun c => isDigit c = true) l -> (length l < fuel)%nat ->
  lengthLoop b fuel pos = Parsed (pos + length l)%nat.
Proof.
  revert pos l. induction fuel as [|fuel IH]; intros pos l Hd Hl Hf; [lia|]. cbn [lengthLoop].
  destruct l as [|c l]; simpl in Hd; apply drop_lookup in Hd as [-> Hd].
  - simpl. by rewrite Nat.add_0_r.
  - apply list.Forall_cons in Hl as [Hc Hl]. rewrite Hc.
    destruct (c =? 58) eqn:E; [unfold isDigit, between in Hc; lia|].
    rewrite (IH (S pos) l Hd Hl) by (simpl in Hf; lia). f_equal. simpl. lia.
Qed.

Lemma lengthLoop_sound fuel pos e : lengthLoop b fuel pos = Parsed e ->
  exists l, drop pos b = l ++ 58 :: drop (S e) b /\ e = (pos + length l)%nat /\
    Forall (fun c => isDigit c = true) l.
Proof.
  revert pos. induction fuel as [|fuel IH]; intros pos; [done|]. cbn [lengthLoop].
  destruct (b !! pos) as [c|] eqn:Hc; [|done]. apply drop_inv in Hc.
  destruct (c =? 58) eqn:E.
  - intros. simplify_eq. apply Z.eqb_eq in E as ->. exists []. simpl. split; [done|]. split; [lia|done].
  - destruct (isDigit c) eqn:Hdig; [|done]. intros (l & Hl & -> & Hall)%IH.
    exists (c :: l). rewrite Hc, Hl. split; [done|]. split; [simpl; lia|by constructor].
Qed.

Lemma lengthLoop_fuel fuel pos : (length b - pos < fuel)%nat -> lengthLoop b fuel pos <> OutOfFuel.
Proof.
  revert pos. induction fuel as [|fuel IH]; intros pos Hf; [lia|]. cbn [lengthLoop].
  destruct (b !! pos) as [c|] eqn:Hc; [|done]. apply lookup_lt_Some in Hc.
  repeat case_match; try done. apply IH. lia.
Qed.

Lemma intLoop_complete fuel pos l r : drop pos b = l ++ 101 :: r -> 101 ∉ l ->
  (length l < fuel)%nat -> intLoop b fuel pos = Parsed (pos + length l)%nat.
Proof.
  revert pos l. induction fuel as [|fuel IH]; intros pos l Hd Hl Hf; [lia|]. cbn [intLoop].
  destruct l as [|c l]; simpl in Hd; apply drop_lookup in Hd as [-> Hd].
  - simpl. by rewrite Nat.add_0_r.
  - destruct (c =? 101) eqn:E; [apply Z.eqb_eq in E as ->; set_solver|].
    rewrite (IH (S pos) l Hd) by (set_solver || (simpl in Hf; lia)). f_equal. simpl. lia.
Qed.

Lemma intLoop_sound fuel pos e : intLoop b fuel pos = Parsed e ->
  exists l, drop pos b = l ++ 101 :: drop (S e) b /\ e = (pos + length l)%nat.
Proof.
  revert pos. induction fuel as [|fuel IH]; intros pos; [done|]. cbn [intLoop].
  destruct (b !! pos) as [c|] eqn:Hc; [|done]. apply drop_inv in Hc.
  destruct (c =? 101) eqn:E.
  - intros. simplify_eq. apply Z.eqb_eq in E as ->. exists []. simpl. split; [done|lia].
  - intros (l & Hl & ->)%IH. exists (c :: l). rewrite Hc, Hl. split; [done|simpl; lia].
Qed.

Lemma intLoop_fuel fuel pos : (length b - pos < fuel)%nat -> intLoop b fuel pos <> OutOfFuel.
Proof.
  revert pos. induction fuel as [|fuel IH]; intros pos Hf; [lia|]. cbn [intLoop].
  destruct (b !! pos) as [c|] eqn:Hc; [|done]. apply lookup_lt_Some in Hc.
  case_match; [done|]. apply IH. lia.
Qed.

Lemma drop_length_le pos x r : drop pos b = x ++ r -> (pos + length x <= length b)%nat \/ x = [] .
Proof.
  intros H. apply (f_equal length) in H. rewrite length_drop, length_app in H.
  destruct x; [by right|left]. simpl in *. lia.
Qed.

(** *** Strings and numbers *)

Lemma parseString_complete pos s c r : drop pos b = s ++ r -> bstring s c ->
  exists st, parseString b pos = Parsed (st, (pos + length s)%nat) /\
    slice b st (pos + length s) = c.
Proof.
  intros Hd (len & -> & Hne & Hall & Hlen). rewrite <- app_assoc in Hd. simpl in Hd.
  destruct len as [|d len]; [done|].
  assert (Hcolon : lengthLoop b (S (length b)) pos = Parsed (pos + length (d :: len))%nat).
  { eapply lengthLoop_complete; [exact Hd|done|].
    apply (f_equal length) in Hd. rewrite length_drop, length_app in Hd. simpl in *. lia. }
  assert (Hafter : drop (S (pos + length (d :: len))) b = c ++ r).
  { replace (S (pos + length (d :: len))) with (pos + length ((d :: len) ++ [58%Z]))%nat
      by (rewrite length_app; simpl; lia).
    apply drop_app_at. by rewrite <- app_assoc. }
  pose proof (f_equal length Hafter) as Hl. rewrite length_drop, length_app in Hl.
  assert (Hend : (S (pos + length (d :: len)) + Z.to_nat (Z.of_nat (length c)) =
    pos + length ((d :: len) ++ 58%Z :: c))%nat).
  { rewrite length_app. simpl. lia. }
  exists (S (pos + length (d :: len))). unfold parseString.
  pose proof (drop_lookup _ _ _ Hd) as [-> _].
  apply list.Forall_cons in Hall as [-> _]. simpl negb. cbn iota. rewrite Hcolon. unfold mbind, outcome_bind.
  rewrite (slice_at _ _ _ Hd), Hlen.
  rewrite (proj2 (Z.ltb_ge _ _)).
  - rewrite Hend. split; [done|]. rewrite <- Hend, Nat2Z.id. by eapply slice_at.
  - apply (f_equal length) in Hd. rewrite length_drop, length_app in Hd. simpl in *. lia.
Qed.

Lemma parseString_sound pos st e : parseString b pos = Parsed (st, e) ->
  exists s, bstring s (slice b st e) /\ drop pos b = s ++ drop e b /\ e = (pos + length s)%nat.
Proof.
  unfold parseString. destruct (b !! pos) as [d|] eqn:Hd; [|done]. apply drop_inv in Hd.
  destruct (isDigit d) eqn:Hdig; [|done]. simpl negb. cbn iota.
  destruct (lengthLoop b (S (length b)) pos) as [colon| |] eqn:Hloop; [|done..].
  unfold mbind, outcome_bind.
  apply lengthLoop_sound in Hloop as (len & Hlen & -> & Hall).
  rewrite (slice_at _ _ _ Hlen). destruct (ParseInt len) as [n|] eqn:Hp; [|done].
  destruct (_ <? n) eqn:Hn; [done|]. apply Z.ltb_ge in Hn. intros [= <- <-].
  change (S (pos + length len + Z.to_nat n)) with (S (pos + length len) + Z.to_nat n)%nat.
  remember (S (pos + length len)) as st eqn:Hst.
  pose proof (ParseInt_digits _ _ Hall Hp) as Hn0.
  assert (Hlenst : (st + Z.to_nat n <= length b)%nat).
  { apply (f_equal length) in Hlen. rewrite length_drop, length_app in Hlen. simpl in Hlen. lia. }
  assert (Hc : length (slice b st (st + Z.to_nat n)) = Z.to_nat n).
  { unfold slice. rewrite length_take, length_drop. lia. }
  exists (len ++ 58 :: slice b st (st + Z.to_nat n)). split; [|split].
  - exists len. split; [done|]. split; [|split; [done|]; by rewrite Hc, Z2Nat.id].
    intros ->. by simpl in Hp.
  - rewrite Hlen, <- app_assoc. f_equal. simpl. f_equal. unfold slice.
    replace (st + Z.to_nat n - st)%nat with (Z.to_nat n) by lia.
    by rewrite <- (drop_drop b _ st), take_drop.
  - rewrite length_app. simpl. rewrite Hc. lia.
Qed.

Lemma parseString_fuel pos : parseString b pos <> OutOfFuel.
Proof.
  unfold parseString. destruct (b !! pos); [|done]. destruct (negb _); [done|].
  pose proof (lengthLoop_fuel (S (length b)) pos ltac:(lia)) as Hf.
  destruct (lengthLoop b _ pos); [|done..]. simpl. repeat case_match; done.
Qed.

Lemma parseInt_complete pos t z r : drop pos b = (105 :: t ++ [101]) ++ r -> ParseInt t = Some z ->
  parseInt b pos = Parsed (pos + length (105%Z :: t ++ [101%Z]))%nat.
Proof.
  intros Hd Hz. simpl in Hd. pose proof (drop_lookup _ _ _ Hd) as [_ Hd1].
  rewrite <- app_assoc in Hd1. simpl in Hd1. unfold parseInt.
  rewrite (intLoop_complete _ _ t r Hd1); [| |].
  - unfold mbind, outcome_bind. rewrite (slice_at _ _ _ Hd1), Hz. f_equal. simpl.
    rewrite length_app. simpl. lia.
  - intros Hin. apply (ParseInt_chars _ _ _ Hz) in Hin. unfold isDigit, between in Hin. lia.
  - apply (f_equal length) in Hd1. rewrite length_drop, length_app in Hd1. simpl in Hd1. lia.
Qed.

Lemma parseInt_sound pos e : b !! pos = Some 105 -> parseInt b pos = Parsed e ->
  exists t z, ParseInt t = Some z /\ drop pos b = (105 :: t ++ [101]) ++ drop e b /\
    e = (pos + length (105%Z :: t ++ [101%Z]))%nat.
Proof.
  intros Hd%drop_inv. unfold parseInt.
  destruct (intLoop b (S (length b)) (S pos)) as [stop| |] eqn:Hl; [|done..].
  unfold mbind, outcome_bind. apply intLoop_sound in Hl as (t & Ht & ->). rewrite (slice_at _ _ _ Ht).
  destruct (ParseInt t) as [z|] eqn:Hz; [|done]. intros [= <-].
  change (S (S (pos + length t))) with (S (S pos + length t)). exists t, z.
  split; [done|]. split.
  - rewrite Hd, Ht. simpl. rewrite <- app_assoc. done.
  - simpl. rewrite length_app. simpl. lia.
Qed.

Lemma parseInt_fuel pos : parseInt b pos <> OutOfFuel.
Proof.
  unfold parseInt. pose proof (intLoop_fuel (S (length b)) (S pos) ltac:(lia)) as Hf.
  destruct (intLoop b _ (S pos)); [|done..]. simpl. by case_match.
Qed.
End Reading.

(** ** The scanner decides the grammar *)

Section Values.
Variable b : list Z.

Lemma value_length n x : value n x -> (2 <= length x)%nat.
Proof.
  destruct 1 as [n t z H|n s c (len & -> & Hne & _)|n xs _|n es _ _]; simpl; rewrite ?length_app; simpl;
    try lia.
  destruct len; [done|simpl; lia].
Qed.

Lemma value_head n x : value n x -> exists c x', x = c :: x' /\
  (c = 105 \/ c = 108 \/ c = 100 \/ isDigit c = true).
Proof.
  destruct 1 as [n t z H|n s c (len & -> & Hne & Hall & _)|n xs _|n es _ _]; try (by eexists _, _; auto).
  destruct len as [|d len]; [done|]. apply list.Forall_cons in Hall as [Hd _]. simpl. eauto 7.
Qed.

(** The bytes of a container's body, element by element. *)
Definition element (kind : Z) (n : nat) (x : list Z) : Prop :=
  if kind =? 100 then exists k v c, x = k ++ v /\ bstring k c /\ value n v else value n x.

Lemma element_length kind n x : element kind n x -> (2 <= length x)%nat.
Proof.
  unfold element. destruct (_ =? _); [|apply value_length].
  intros (k & v & c & -> & _ & Hv%value_length). rewrite length_app. lia.
Qed.

(** The next element of a container, read by [pv]. *)
Definition readElement (pv : nat -> outcome nat) (kind : Z) (c : Z) (pos : nat) : outcome nat :=
  at_value ← (if kind =? 100 then
                if negb (isDigit c) then ErrNotTorrent else snd <$> parseString b pos
              else Parsed pos);
  pv at_value.

Lemma containerLoop_step pv kind fuel pos : containerLoop b pv kind (S fuel) pos =
  match b !! pos with
  | None => ErrNotTorrent
  | Some c => if c =? 101 then Parsed (S pos)
              else next ← readElement pv kind c pos; containerLoop b pv kind fuel next
  end.
Proof.
  cbn [containerLoop]. destruct (b !! pos); [|done]. destruct (_ =? 101); [done|].
  unfold readElement. by destruct (if kind =? 100 then _ else _).
Qed.

Section Container.
Context (pv : nat -> outcome nat) (n : nat) (kind : Z).

Lemma readElement_complete pos x r :
  (forall p v r', drop p b = v ++ r' -> value n v -> (pos <= p)%nat -> (length v <= length x)%nat ->
     pv p = Parsed (p + length v)%nat) ->
  drop pos b = x ++ r -> element kind n x ->
  exists c, b !! pos = Some c /\ c <> 101 /\ readElement pv kind c pos = Parsed (pos + length x)%nat.
Proof.
  intros Hpv Hd Hx. unfold element, readElement in *. destruct (kind =? 100).
  - destruct Hx as (k & v & c & -> & Hk & Hv). rewrite <- app_assoc in Hd.
    destruct (parseString_complete _ _ _ _ _ Hd Hk) as (st & Hp & _).
    destruct Hk as (len & -> & Hne & Hall & _). destruct len as [|d len]; [done|].
    apply list.Forall_cons in Hall as [Hdig _].
    pose proof (drop_lookup _ _ _ _ Hd) as [Hb _]. exists d. split; [done|]. split.
    { unfold isDigit, between in Hdig. lia. }
    rewrite Hdig, Hp. cbn [negb]. unfold fmap, outcome_fmap, mbind, outcome_bind. cbn [snd].
    rewrite (Hpv _ v r); [|by apply drop_app_at|done|lia|rewrite !length_app; lia].
    rewrite !length_app. f_equal. lia.
  - destruct (value_head n x Hx) as (c & x' & -> & Hc). pose proof (drop_lookup _ _ _ _ Hd) as [Hb _].
    exists c. split; [done|]. split; [unfold isDigit, between in Hc; lia|].
    unfold mbind, outcome_bind. by apply (Hpv pos (c :: x') r).
Qed.

Lemma containerLoop_complete fuel pos xs r :
  (forall p v r', drop p b = v ++ r' -> value n v -> (pos <= p)%nat ->
     (length v <= length (concat xs))%nat -> pv p = Parsed (p + length v)%nat) ->
  (forall x, x ∈ xs -> element kind n x) -> drop pos b = concat xs ++ 101 :: r ->
  (length (concat xs) < fuel)%nat ->
  containerLoop b pv kind fuel pos = Parsed (pos + length (concat xs) + 1)%nat.
Proof.
  revert fuel pos. induction xs as [|x xs IH]; intros fuel pos Hpv Hxs Hd Hf;
    (destruct fuel as [|fuel]; [lia|]); rewrite containerLoop_step.
  - simpl in Hd. apply drop_lookup in Hd as [-> _]. simpl. f_equal. lia.
  - simpl in Hd, Hf. rewrite length_app in Hf. rewrite <- app_assoc in Hd.
    assert (Hx : element kind n x) by (apply Hxs; left).
    pose proof (element_length _ _ _ Hx) as Hlen.
    destruct (readElement_complete pos x _ ltac:(intros p v r' H1 H2 H3 H4; apply (Hpv p v r' H1 H2 H3);
      simpl; rewrite length_app; lia) Hd Hx) as (c & Hb & Hc & Hr).
    rewrite Hb, Hr, (proj2 (Z.eqb_neq c 101) Hc). unfold mbind, outcome_bind.
    rewrite IH.
    + f_equal. simpl. rewrite length_app. lia.
    + intros p v r' H1 H2 H3 H4. apply (Hpv p v r' H1 H2); [lia|]. simpl. rewrite length_app. lia.
    + intros y Hy. apply Hxs. by right.
    + by apply drop_app_at.
    + lia.
Qed.

Lemma readElement_sound pos c e : b !! pos = Some c ->
  (forall p e, pv p = Parsed e -> exists v, value n v /\ drop p b = v ++ drop e b /\ e = (p + length v)%nat) ->
  readElement pv kind c pos = Parsed e ->
  exists x, element kind n x /\ drop pos b = x ++ drop e b /\ e = (pos + length x)%nat.
Proof.
  intros Hb Hpv. unfold readElement, element. destruct (kind =? 100).
  - destruct (isDigit c); [|done]. cbn [negb]. destruct (parseString b pos) as [[st m]| |] eqn:Hs; [|done..].
    unfold fmap, outcome_fmap, mbind, outcome_bind. cbn [snd].
    apply parseString_sound in Hs as (k & Hk & Hd & ->). intros (v & Hv & Hd' & ->)%Hpv.
    exists (k ++ v). split; [by exists k, v, (slice b st (pos + length k))|].
    rewrite Hd, Hd', length_app, app_assoc. split; [done|lia].
  - unfold mbind, outcome_bind. apply Hpv.
Qed.

Lemma containerLoop_sound fuel pos e :
  (forall p e, pv p = Parsed e -> exists v, value n v /\ drop p b = v ++ drop e b /\ e = (p + length v)%nat) ->
  containerLoop b pv kind fuel pos = Parsed e ->
  exists xs, (forall x, x ∈ xs -> element kind n x) /\ drop pos b = concat xs ++ 101 :: drop e b /\
    e = (pos + length (concat xs) + 1)%nat.
Proof.
  intros Hpv. revert pos. induction fuel as [|fuel IH]; intros pos; [done|]. rewrite containerLoop_step.
  destruct (b !! pos) as [c|] eqn:Hb; [|done]. destruct (c =? 101) eqn:Hc.
  - intros [= <-]. apply Z.eqb_eq in Hc as ->. apply drop_inv in Hb. exists [].
    split; [by intros x Hx%not_elem_of_nil|]. split; [done|simpl; lia].
  - destruct (readElement pv kind c pos) as [m| |] eqn:Hr; [|done..]. unfold mbind, outcome_bind.
    apply readElement_sound in Hr as (x & Hx & Hd & ->); [|done..]. intros (xs & Hxs & Hd' & ->)%IH.
    exists (x :: xs). split; [intros y [->|Hy]%elem_of_cons; auto|]. simpl.
    rewrite Hd, Hd', length_app, app_assoc. split; [done|lia].
Qed.

Lemma containerLoop_fuel fuel pos :
  (forall p e, pv p = Parsed e -> (p < e)%nat) -> (forall p, (pos <= p)%nat -> pv p <> OutOfFuel) ->
  (length b - pos < fuel)%nat -> containerLoop b pv kind fuel pos <> OutOfFuel.
Proof.
  intros Hlt. revert pos. induction fuel as [|fuel IH]; intros pos Hpv Hf; [lia|].
  rewrite containerLoop_step. destruct (b !! pos) as [c|] eqn:Hb; [|done].
  apply lookup_lt_Some in Hb as Hlen. destruct (c =? 101); [done|].
  assert (Hr : readElement pv kind c pos <> OutOfFuel /\
    forall e, readElement pv kind c pos = Parsed e -> (pos < e)%nat).
  { unfold readElement. destruct (kind =? 100).
    - destruct (isDigit c); [|done]. cbn [negb]. pose proof (parseString_fuel b pos) as Hsf.
      destruct (parseString b pos) as [[st m]| |] eqn:Hs; [|done..].
      apply parseString_sound in Hs as (k & _ & _ & ->).
      unfold fmap, outcome_fmap, mbind, outcome_bind. cbn [snd]. split; [apply Hpv; lia|].
      intros e He%Hlt. lia.
    - unfold mbind, outcome_bind. split; [by apply Hpv|apply Hlt]. }
  destruct Hr as [Hne Hpos]. destruct (readElement pv kind c pos) as [m| |]; [|done..].
  unfold mbind, outcome_bind. specialize (Hpos m eq_refl). apply IH; [|lia].
  intros p Hp. apply Hpv. lia.
Qed.
End Container.

(** A container is its marker, its elements and its terminator. *)
Definition container (kind : Z) (n : nat) (x : list Z) : Prop :=
  exists xs, (forall y, y ∈ xs -> element kind n y) /\ x = kind :: concat xs ++ [101].

Lemma container_value kind n x : kind = 108 \/ kind = 100 -> container kind n x -> value (S n) x.
Proof.
  intros Hk (xs & Hxs & ->). destruct Hk as [->| ->].
  - by apply value_list.
  - assert (He : exists es, xs = (fun e : list Z * list Z => e.1 ++ e.2) <$> es /\
      (forall e, e ∈ es -> exists c, bstring e.1 c) /\ (forall e, e ∈ es -> value n e.2)).
    { induction xs as [|x xs IH]; [by exists []; split_and!; [|intros ? ?%not_elem_of_nil..]|].
      destruct IH as (es & -> & Hes1 & Hes2); [by intros; apply Hxs; right|].
      destruct (Hxs x) as (k & v & c & -> & Hkc & Hv); [by left|].
      exists ((k, v) :: es). split_and!; [done|..]; intros e [->|He]%elem_of_cons; eauto. }
    destruct He as (es & -> & Hes1 & Hes2). by apply value_dict.
Qed.

Lemma value_container n x : value n x ->
  (exists t z, x = 105 :: t ++ [101] /\ ParseInt t = Some z) \/ (exists c, bstring x c) \/
  exists m kind, n = S m /\ (kind = 108 \/ kind = 100) /\ container kind m x.
Proof.
  destruct 1 as [n t z H|n s c H|n xs H|n es H1 H2]; [left; eauto|right; left; eauto|right; right..].
  - exists n, 108. split; [done|]. split; [by left|]. by exists xs.
  - exists n, 100. split; [done|]. split; [by right|]. eexists _. split; [|done].
    intros y (e & -> & He)%list_elem_of_fmap. destruct (H1 e He) as [c Hc]. exists e.1, e.2, c. auto.
Qed.

Lemma parseValue_complete fuel depth pos n x r : value n x -> drop pos b = x ++ r ->
  (n + depth <= maxBencodeDepth)%nat -> (length x < fuel)%nat ->
  parseValue b fuel depth pos = Parsed (pos + length x)%nat.
Proof.
  revert depth pos n x r. induction fuel as [|fuel IH]; intros depth pos n x r Hx Hd Hn Hf; [lia|].
  cbn [parseValue]. destruct (value_container _ _ Hx) as [(t & z & -> & Hz)|[(c & Hc)|H]].
  - pose proof (drop_lookup _ _ _ _ Hd) as [-> _]. by apply (parseInt_complete _ _ _ z r).
  - destruct (parseString_complete _ _ _ _ _ Hd Hc) as (st & Hp & _).
    destruct Hc as (len & -> & Hne & Hall & _). destruct len as [|d len]; [done|].
    apply list.Forall_cons in Hall as [Hdig _]. pose proof (drop_lookup _ _ _ _ Hd) as [-> _].
    unfold isDigit, between in Hdig.
    rewrite (proj2 (Z.eqb_neq d 105)), (proj2 (Z.eqb_neq d 108)), (proj2 (Z.eqb_neq d 100)) by lia.
    unfold isDigit, between. rewrite Hdig. cbn [orb]. by rewrite Hp.
  - destruct H as (m & kind & -> & Hk & xs & Hxs & ->). simpl in Hd. rewrite <- app_assoc in Hd.
    pose proof (drop_lookup _ _ _ _ Hd) as [-> Hd1].
    assert (Hkind : (kind =? 105) = false /\ (kind =? 108) || (kind =? 100) = true)
      by (destruct Hk as [->| ->]; done).
    destruct Hkind as [-> ->]. unfold parseContainer.
    rewrite (proj2 (Nat.ltb_ge _ _)) by lia. simpl in Hd1.
    simpl in Hf. rewrite length_app in Hf. simpl in Hf.
    rewrite (containerLoop_complete _ m kind _ _ xs r); [| |done|done|lia].
    + f_equal. simpl. rewrite length_app. simpl. lia.
    + intros p v r' Hv Hval _ Hl. apply (IH (S depth) p m v r'); [done|done|lia|lia].
Qed.

Lemma parseValue_sound fuel depth pos e : (depth <= maxBencodeDepth)%nat ->
  parseValue b fuel depth pos = Parsed e ->
  exists x, value (maxBencodeDepth - depth) x /\ drop pos b = x ++ drop e b /\
    e = (pos + length x)%nat.
Proof.
  revert depth pos e. induction fuel as [|fuel IH]; intros depth pos e Hdep; [done|].
  cbn [parseValue]. destruct (b !! pos) as [c|] eqn:Hb; [|done].
  destruct (c =? 105) eqn:H105.
  { apply Z.eqb_eq in H105 as ->. intros (t & z & Hz & Hd & ->)%parseInt_sound; [|done].
    exists (105 :: t ++ [101]). split; [by eapply value_int|done]. }
  destruct ((c =? 108) || (c =? 100)) eqn:Hk.
  - unfold parseContainer. destruct (_ <? _)%nat eqn:Hlt; [done|]. apply Nat.ltb_ge in Hlt.
    intros Hrun. apply (containerLoop_sound _ (maxBencodeDepth - S depth)) in Hrun
      as (xs & Hxs & Hd & ->); [|intros p e' Hv; by apply IH].
    exists (c :: concat xs ++ [101]). apply drop_inv in Hb. split; [|split].
    + replace (maxBencodeDepth - depth)%nat with (S (maxBencodeDepth - S depth)) by lia.
      apply (container_value c); [lia|]. by exists xs.
    + rewrite Hb, Hd. simpl. by rewrite <- app_assoc.
    + simpl. rewrite length_app. simpl. lia.
  - destruct (isDigit c); [|done]. destruct (parseString b pos) as [[st m]| |] eqn:Hs; [|done..].
    intros [= <-]. apply parseString_sound in Hs as (s & Hs & Hd & ->).
    exists s. split; [by eapply value_string|done].
Qed.

Lemma parseValue_fuel fuel depth pos : (depth <= maxBencodeDepth)%nat -> (length b - pos < fuel)%nat ->
  parseValue b fuel depth pos <> OutOfFuel.
Proof.
  revert depth pos. induction fuel as [|fuel IH]; intros depth pos Hdep Hf; [lia|].
  cbn [parseValue]. destruct (b !! pos) as [c|] eqn:Hb; [|done]. apply lookup_lt_Some in Hb as Hlen.
  destruct (c =? 105); [apply parseInt_fuel|]. destruct (_ || _).
  - unfold parseContainer. destruct (_ <? _)%nat eqn:Hlt; [done|]. apply Nat.ltb_ge in Hlt.
    apply containerLoop_fuel; [..|lia].
    + intros p e (x & Hx%value_length & _ & ->)%parseValue_sound; [lia|done].
    + intros p Hp. apply IH; [done|lia].
  - destruct (isDigit c); [|done]. pose proof (parseString_fuel b pos).
    by destruct (parseString b pos).
Qed.
End Values.

(** The scanner decides the grammar: it accepts a position exactly when an
    encoding nested at most sixteen deep starts there, it stops where that
    encoding ends, and the recursion always has fuel left. *)
Theorem parseValue_decides b pos :
  match parseValue b (S (length b)) 0 pos with
  | Parsed e => exists x, value maxBencodeDepth x /\ slice b pos e = x /\
      drop pos b = x ++ drop e b
  | ErrNotTorrent => forall x r, value maxBencodeDepth x -> drop pos b <> x ++ r
  | OutOfFuel => False
  end.
Proof.
  destruct (parseValue b _ 0 pos) as [e| |] eqn:Hp.
  - apply parseValue_sound in Hp as (x & Hx & Hd & ->); [|unfold maxBencodeDepth; lia].
    exists x. split; [done|]. split; [by eapply slice_at|done].
  - intros x r Hx Hd. pose proof (f_equal length Hd) as Hl. rewrite length_drop, length_app in Hl.
    rewrite (parseValue_complete b _ _ _ maxBencodeDepth x r) in Hp; [done|done|done|lia|lia].
  - by apply (parseValue_fuel b (S (length b)) 0 pos) in Hp; [|unfold maxBencodeDepth; lia|lia].
Qed.

(** Entries before the first [info] key. *)
Definition other_entry (x : list Z) : Prop :=
  exists k v c, x = k ++ v /\ bstring k c /\ c <> info_key /\ value maxBencodeDepth v.

Lemma bstring_head k c : bstring k c -> exists d k', k = d :: k' /\ isDigit d = true.
Proof.
  intros (len & -> & Hne & Hall & _). destruct len as [|d len]; [done|].
  apply list.Forall_cons in Hall as [Hd _]. by eexists d, _.
Qed.

Lemma infoLoop_complete b fuel pos xs k v r :
  (forall x, x ∈ xs -> other_entry x) -> bstring k info_key -> value maxBencodeDepth v ->
  drop pos b = concat xs ++ k ++ v ++ r -> (length xs < fuel)%nat ->
  infoLoop b fuel pos = Parsed v.
Proof.
  revert fuel pos. induction xs as [|x xs IH]; intros fuel pos Hxs Hk Hv Hd Hf;
    (destruct fuel as [|fuel]; [simpl in Hf; lia|]); cbn [infoLoop].
  - simpl in Hd. destruct (bstring_head _ _ Hk) as (d & k' & -> & Hdig).
    pose proof (drop_lookup _ _ _ _ Hd) as [-> _].
    rewrite (proj2 (Z.eqb_neq d 101)) by (unfold isDigit, between in Hdig; lia).
    destruct (parseString_complete _ _ _ _ _ Hd Hk) as (st & -> & Hsl).
    unfold mbind, outcome_bind. cbn [fst snd]. apply drop_app_at in Hd.
    pose proof (f_equal length Hd) as Hl. rewrite length_drop, length_app in Hl.
    rewrite (parseValue_complete b _ _ _ maxBencodeDepth v r); [|done|done|lia|lia].
    rewrite bool_decide_true by done. f_equal. by eapply slice_at.
  - destruct (Hxs x) as (k1 & v1 & c1 & -> & Hk1 & Hne & Hv1); [by left|].
    simpl in Hd. rewrite <- !app_assoc in Hd.
    destruct (bstring_head _ _ Hk1) as (d & k' & Heq & Hdig). rewrite Heq in Hd at 1.
    pose proof (drop_lookup _ _ _ _ Hd) as [-> _]. rewrite <- Heq in Hd.
    rewrite (proj2 (Z.eqb_neq d 101)) by (unfold isDigit, between in Hdig; lia).
    destruct (parseString_complete _ _ _ _ _ Hd Hk1) as (st & -> & Hsl).
    unfold mbind, outcome_bind. cbn [fst snd]. apply drop_app_at in Hd.
    pose proof (f_equal length Hd) as Hl. rewrite length_drop, length_app in Hl.
    erewrite (parseValue_complete b _ _ _ maxBencodeDepth v1); [|done|exact Hd|lia|lia].
    rewrite bool_decide_false by congruence. apply IH; [|done|done| |simpl in Hf; lia].
    + intros y Hy. apply Hxs. by right.
    + by apply drop_app_at.
Qed.

Lemma infoLoop_sound b fuel pos i : infoLoop b fuel pos = Parsed i ->
  exists xs k r, (forall x, x ∈ xs -> other_entry x) /\ bstring k info_key /\
    value maxBencodeDepth i /\ drop pos b = concat xs ++ k ++ i ++ r.
Proof.
  revert pos. induction fuel as [|fuel IH]; intros pos; [done|]. cbn [infoLoop].
  destruct (b !! pos) as [c|]; [|done]. destruct (c =? 101); [done|].
  destruct (parseString b pos) as [[st m]| |] eqn:Hs; [|done..].
  unfold mbind, outcome_bind. cbn [fst snd].
  destruct (parseValue b _ 0 m) as [e| |] eqn:Hv; [|done..].
  apply parseString_sound in Hs as (k & Hk & Hd & ->).
  apply parseValue_sound in Hv as (v & Hv & Hd' & ->); [|unfold maxBencodeDepth; lia].
  case_bool_decide as Hinfo.
  - intros [= <-]. rewrite (slice_at _ _ _ _ Hd'). exists [], k, (drop (pos + length k + length v) b).
    rewrite Hinfo in Hk. rewrite Hd, Hd'. split; [by intros ? ?%not_elem_of_nil|]. by split_and!.
  - intros (xs & k' & r & Hxs & Hk' & Hi & Hrest)%IH.
    exists ((k ++ v) :: xs), k', r. split_and!; [|done|done|].
    + intros y [->|Hy]%elem_of_cons; [|by apply Hxs]. by eexists k, v, _.
    + rewrite Hd, Hd', Hrest. simpl. by rewrite <- !app_assoc.
Qed.

Lemma infoLoop_fuel b fuel pos : (length b - pos < fuel)%nat -> infoLoop b fuel pos <> OutOfFuel.
Proof.
  revert pos. induction fuel as [|fuel IH]; intros pos Hf; [lia|]. cbn [infoLoop].
  destruct (b !! pos) as [c|] eqn:Hb; [|done]. apply lookup_lt_Some in Hb. destruct (c =? 101); [done|].
  pose proof (parseString_fuel b pos). destruct (parseString b pos) as [[st m]| |] eqn:Hs; [|done..].
  unfold mbind, outcome_bind. cbn [fst snd].
  pose proof (parseValue_fuel b (S (length b)) 0 m ltac:(unfold maxBencodeDepth; lia) ltac:(lia)).
  destruct (parseValue b _ 0 m) as [e| |] eqn:Hv; [|done..].
  case_bool_decide; [done|]. apply IH.
  apply parseString_sound in Hs as (k & _ & _ & ->).
  apply parseValue_sound in Hv as (v & Hv%value_length & _ & ->); [lia|unfold maxBencodeDepth; lia].
Qed.

(** The walk always ends with an answer. *)
Lemma infoDictBytes_total b : infoDictBytes b <> OutOfFuel.
Proof.
  unfold infoDictBytes. destruct (_ <? _); [done|]. destruct b as [|c b]; [done|].
  destruct (_ =? _); [|done]. apply infoLoop_fuel. lia.
Qed.

Lemma infoDictBytes_iff b i :
  infoDictBytes b = Parsed i <->
  Z.of_nat (length b) <= maxTorrentBytes /\
  exists xs k r, (forall x, x ∈ xs -> other_entry x) /\ bstring k info_key /\
    value maxBencodeDepth i /\ b = 100 :: concat xs ++ k ++ i ++ r.
Proof.
  unfold infoDictBytes. destruct (_ <? _) eqn:Hcap.
  { apply Z.ltb_lt in Hcap. split; [done|]. intros [? _]. lia. }
  apply Z.ltb_ge in Hcap. destruct b as [|c b'].
  { split; [done|]. by intros (_ & xs & k & r & _ & _ & _ & H). }
  destruct (c =? 100) eqn:Hc.
  - apply Z.eqb_eq in Hc as ->. split.
    + intros (xs & k & r & Hxs & Hk & Hi & Hd)%infoLoop_sound. split; [done|].
      exists xs, k, r. split_and!; try done. by f_equal.
    + intros (_ & xs & k & r & Hxs & Hk & Hi & [= ->]).
      apply (infoLoop_complete _ _ _ xs k i r); try done.
      assert (length xs <= length (concat xs))%nat; [|simpl; rewrite length_app; lia].
      clear - Hxs. induction xs as [|x xs IH]; [done|]. simpl. rewrite length_app.
      destruct (Hxs x) as (k & v & c & -> & _ & _ & Hv%value_length); [by left|].
      rewrite length_app. assert (length xs <= length (concat xs))%nat; [|lia].
      apply IH. intros y Hy. apply Hxs. by right.
  - apply Z.eqb_neq in Hc. split; [done|]. by intros (_ & xs & k & r & _ & _ & _ & [= -> _]).
Qed.

(** C20: The identity bytes: what [infoDictBytes] hands to the hashes is, byte for
    byte, the value the input holds under its first top-level [info] key - and
    it refuses exactly the inputs that have none within the caps.  Nothing
    after that value is looked at, and the walk always ends with an answer. *)
Theorem infoDictBytes_exact b :
  infoDictBytes b <> OutOfFuel /\
  forall i, infoDictBytes b = Parsed i <->
    Z.of_nat (length b) <= maxTorrentBytes /\
    exists xs k r, (forall x, x ∈ xs -> other_entry x) /\ bstring k info_key /\
      value maxBencodeDepth i /\ b = 100 :: concat xs ++ k ++ i ++ r.
Proof. split; [apply infoDictBytes_total|apply infoDictBytes_iff]. Qed.

Example infoDictBytes_example :
  infoDictBytes (bytes_of "d8:announce3:url4:infod6:lengthi42e4:name1:aee") =
  Parsed (bytes_of "d6:lengthi42e4:name1:ae").
Proof. by vm_compute. Qed.
