(* ===== verification/SafePath.v ===== *)
(** * Path confinement ([internal/fsx/safepath.go])

    One path component is sanitised by the ordered steps of [SanitiseSegment];
    [SafeJoin] joins components under a root and asks the kernel that none of
    them crosses a symlink; [ResolveDestination] confines a requested directory
    to the configured roots; [dedupeName] keeps the names of one download apart
    on a case-insensitive export.

    A segment is its bytes.  NFC normalisation and case folding are functions of
    golang.org/x/text and the file system is outside the program: they are
    parameters. *)

From stdpp Require Import pretty.
From S2P Require Import Prelude GoStrings.

Open Scope Z_scope.

Definition maxSegmentBytes : nat := 240.
Definition extensionWindow : nat := 9.
Definition maxPathBytes : nat := 4096.
Definition maxSegmentDepth : nat := 32.

(** ** One segment *)

(** The runes of steps 4 and 5. *)
Definition dropped_rune (r : Z) : bool :=
  between 8203 8207 r || between 8234 8238 r || between 8294 8297 r || (r =? 65279)
  || (r <? 32) || (r =? 127).

(** [dropFormatAndControl]. *)
Definition dropFormatAndControl (s : list Z) : list Z :=
  Map (fun r => if dropped_rune r then None else Some r) s.

(** The bytes / \ : * ? < > | and the double quote. *)
Definition illegal : list Z := [47; 92; 58; 42; 63; 34; 60; 62; 124].

(** [replaceIllegal]. *)
Definition replaceIllegal (s : list Z) : list Z :=
  Map (fun r => Some (if contains illegal r then 95 else r)) s.

(** [truncateRunes]. *)
Fixpoint rune_cut (s : list Z) (n : nat) : nat :=
  match n with
  | O => O
  | S k => if RuneStart (default 0 (s !! n)) then n else rune_cut s k
  end.
Definition truncateRunes (s : list Z) (n : nat) : list Z :=
  if (length s <=? n)%nat then s else take (rune_cut s n) s.

(** [splitExtension]. *)
Definition splitExtension (s : list Z) : list Z * list Z :=
  if (extensionWindow <? length s)%nat then
    match last_index 46 (drop (length s - extensionWindow) s) with
    | Some i => let i := (i + (length s - extensionWindow))%nat in (take i s, drop i s)
    | None => (s, [])
    end
  else (s, []).

(** [truncateWithExtension]. *)
Definition truncateWithExtension (s : list Z) : list Z :=
  if (length s <=? maxSegmentBytes)%nat then s
  else truncateRunes s maxSegmentBytes ++ (splitExtension s).2.

(** [reservedStems]. *)
Definition reservedStems : list (list Z) :=
  bytes_of <$> ["CON"; "PRN"; "AUX"; "NUL"; "CLOCK$"; "CONIN$"; "CONOUT$";
    "COM0"; "COM1"; "COM2"; "COM3"; "COM4"; "COM5"; "COM6"; "COM7"; "COM8"; "COM9";
    "LPT0"; "LPT1"; "LPT2"; "LPT3"; "LPT4"; "LPT5"; "LPT6"; "LPT7"; "LPT8"; "LPT9"]%string.

(** [strings.Cut] at the first occurrence of a byte: what is before it. *)
Fixpoint before (c : Z) (l : list Z) : list Z :=
  match l with
  | [] => []
  | b :: l => if b =? c then [] else b :: before c l
  end.

Section Segment.
Context `{!UnicodeTables} (NFC : list Z -> list Z).

(** [isReservedStem]. *)
Definition isReservedStem (s : list Z) : bool := contains reservedStems (ToUpper (before 46 s)).

Definition dot_names : list (list Z) := [[]; [46]; [46; 46]].

(** The last steps, over a segment that has been cut to size. *)
Definition finish (reserved : list Z -> bool) (s : list Z) : list Z :=
  let s := TrimSpace (TrimRight s [46; 32]) in
  let s := if reserved s then 95 :: s else s in
  if contains dot_names s then [95] else s.

(** [SanitiseSegment]. *)
Definition SanitiseSegment (s : list Z) : list Z :=
  if bool_decide (s = []) then [95]
  else
    let s := NFC s in
    let s := dropFormatAndControl s in
    let s := replaceIllegal s in
    let s := ToValidUTF8 s [95] in
    finish isReservedStem (truncateWithExtension s).
End Segment.

(** ** Bytes that pass through *)

Lemma runes_ascii l r : Forall is_byte l -> r ∈ runes l -> r < 128 -> r ∈ l.
Proof.
  intros Hl. unfold runes. pattern l, (chunks l). apply chunks_ind; [..|done]; simpl.
  - by intros ?%not_elem_of_nil.
  - intros b k Hb IH [->|Hr]%elem_of_cons Hlt; [unfold RuneError in Hlt; simpl in Hlt; lia|].
    right. by apply IH.
  - intros r0 k Hv IH [->|Hr]%elem_of_cons Hlt; apply elem_of_app; [left|right; by apply IH].
    simpl in *. unfold encode_rune. rewrite Hv, (proj2 (Z.ltb_lt r0 128)) by done. by left.
Qed.

Lemma elem_of_concat (b : Z) ls : b ∈ concat ls <-> exists bs, b ∈ bs /\ bs ∈ ls.
Proof.
  rewrite list_elem_of_In, in_concat. split; intros (bs & ? & ?); exists bs; rewrite !list_elem_of_In in *; done.
Qed.

Lemma Map_bytes f l b : b ∈ Map f l -> 128 <= b \/ exists r, r ∈ runes l /\ f r = Some b.
Proof.
  unfold Map. rewrite elem_of_concat. intros (bs & Hb & Hbs).
  apply list_elem_of_fmap in Hbs as (r' & -> & Hr'). apply list_elem_of_omap in Hr' as (r & Hr & Hf).
  destruct (proj1 (list.Forall_forall _ _) (encode_rune_bytes r') b Hb) as [_ [->|]].
  - right. by exists r.
  - by left.
Qed.

Lemma Map_is_bytes f l : Forall is_byte (Map f l).
Proof.
  unfold Map. apply list.Forall_forall. intros b Hb.
  apply elem_of_concat in Hb as (bs & Hb & (r & -> & _)%list_elem_of_fmap).
  by destruct (proj1 (list.Forall_forall _ _) (encode_rune_bytes r) b Hb).
Qed.

Lemma repair_bytes rep run l b : b ∈ repair rep run l -> b ∈ rep \/ b ∈ concat l.*2.
Proof.
  revert run. induction l as [|[[r|] bs] l IH]; intros run; simpl; [by intros ?%not_elem_of_nil|..];
    rewrite !elem_of_app.
  - intros [?|?%IH]; tauto.
  - destruct run; [intros [?%not_elem_of_nil|?%IH]; tauto|intros [?|?%IH]; tauto].
Qed.

Lemma drop_while_bytes f l b : b ∈ drop_while f l -> b ∈ l.
Proof. induction l as [|a l IH]; simpl; [done|]. destruct (f a); [by right; apply IH|done]. Qed.

Lemma strip_prefix_app p l l' : strip_prefix p l = Some l' -> l = p ++ l'.
Proof.
  revert l. induction p as [|a p IH]; intros [|b l]; simpl; try (by intros; simplify_eq).
  destruct (a =? b) eqn:E; [|done]. apply Z.eqb_eq in E as ->. by intros ->%IH.
Qed.

Lemma strip_space_app rev l l' : strip_space rev l = Some l' -> exists enc, enc ∈ space_encodings /\
  l = (if rev then reverse enc else enc) ++ l'.
Proof.
  unfold strip_space. intros H.
  assert (Hin : forall es, fold_right (fun enc found =>
      match strip_prefix (if rev : bool then reverse enc else enc) l with
      | Some l => Some l | None => found end) None es = Some l' ->
    exists enc, enc ∈ es /\ l = (if rev then reverse enc else enc) ++ l').
  { induction es as [|e es IH]; simpl; [done|].
    destruct (strip_prefix _ l) as [k|] eqn:Hs.
    - intros [= ->]. exists e. split; [by left|]. by apply strip_prefix_app.
    - intros (enc & ? & ?)%IH. exists enc. split; [by right|done]. }
  by apply Hin.
Qed.

Lemma trim_suffix fuel rev l : exists p, l = p ++ trim fuel rev l.
Proof.
  revert l. induction fuel as [|fuel IH]; intros l; [by exists []|]. simpl.
  destruct (strip_space rev l) as [l'|] eqn:Hs; [|by exists []].
  apply strip_space_app in Hs as (enc & _ & ->). destruct (IH l') as [p Hp].
  eexists. rewrite Hp at 1. by rewrite app_assoc.
Qed.

Lemma TrimSpace_infix l : exists p q, l = p ++ TrimSpace l ++ q.
Proof.
  unfold TrimSpace. destruct (trim_suffix (length l) false l) as [p Hp].
  set (k := trim (length l) false l) in *.
  destruct (trim_suffix (length k) true (reverse k)) as [q Hq].
  exists p, (reverse q). rewrite Hp at 1. f_equal.
  rewrite <- (reverse_involutive k), Hq at 1. by rewrite reverse_app.
Qed.

Lemma TrimSpace_bytes l b : b ∈ TrimSpace l -> b ∈ l.
Proof. intros Hb. destruct (TrimSpace_infix l) as (p & q & ->). set_solver. Qed.

Lemma TrimRight_prefix l cs : exists q, l = TrimRight l cs ++ q.
Proof.
  unfold TrimRight. assert (H : forall k, exists p, k = p ++ drop_while (contains cs) k).
  { induction k as [|b k [p IH]]; [by exists []|]. simpl. destruct (contains cs b); [|by exists []].
    exists (b :: p). by rewrite IH at 1. }
  destruct (H (reverse l)) as [p Hp]. exists (reverse p).
  rewrite <- (reverse_involutive l), Hp at 1. by rewrite reverse_app.
Qed.

Lemma truncateRunes_prefix s n : exists q, s = truncateRunes s n ++ q.
Proof.
  unfold truncateRunes. destruct (_ <=? _)%nat; [exists []; by rewrite app_nil_r|].
  exists (drop (rune_cut s n) s). by rewrite take_drop.
Qed.

Lemma splitExtension_app s : s = (splitExtension s).1 ++ (splitExtension s).2.
Proof.
  unfold splitExtension. destruct (_ <? _)%nat; [|by rewrite app_nil_r].
  destruct (last_index _ _); simpl; [by rewrite take_drop|by rewrite app_nil_r].
Qed.

Lemma truncateWithExtension_bytes s b : b ∈ truncateWithExtension s -> b ∈ s.
Proof.
  unfold truncateWithExtension. destruct (_ <=? _)%nat; [done|]. rewrite elem_of_app. intros [Hb|Hb].
  - destruct (truncateRunes_prefix s maxSegmentBytes) as [q ->]. apply elem_of_app. by left.
  - rewrite (splitExtension_app s). apply elem_of_app. by right.
Qed.

Lemma truncateRunes_length s n : (length (truncateRunes s n) <= n)%nat.
Proof.
  unfold truncateRunes. destruct (_ <=? _)%nat eqn:Hl; [by apply Nat.leb_le in Hl|].
  rewrite length_take. enough (rune_cut s n <= n)%nat by lia. clear Hl.
  induction n as [|n IH]; simpl; [done|]. destruct (RuneStart _); lia.
Qed.

Lemma extension_length s : (length (splitExtension s).2 <= extensionWindow)%nat.
Proof.
  unfold splitExtension. destruct (_ <? _)%nat eqn:Hl; [|simpl; lia]. apply Nat.ltb_lt in Hl.
  destruct (last_index _ _); simpl; [rewrite length_drop|]; lia.
Qed.

Lemma truncateWithExtension_length s :
  (length (truncateWithExtension s) <= maxSegmentBytes + extensionWindow)%nat.
Proof.
  unfold truncateWithExtension. destruct (_ <=? _)%nat eqn:Hl; [apply Nat.leb_le in Hl; lia|].
  rewrite length_app. pose proof (truncateRunes_length s maxSegmentBytes).
  pose proof (extension_length s). lia.
Qed.

(** ** What a sanitised segment is *)

Definition name_byte (b : Z) : Prop := 32 <= b < 256 /\ b <> 127 /\ b ∉ illegal.

(** A name every file system of the export takes: not empty, not a dot name,
    none of the illegal or control bytes, within [NAME_MAX]. *)
Record safe_name (s : list Z) : Prop := {
  name_not_dots : contains dot_names s = false;
  name_bytes : Forall name_byte s;
  name_length : (length s <= 250)%nat;
}.

Lemma underscore_ok : name_byte 95.
Proof. split; [lia|]. split; [lia|]. by apply contains_false. Qed.

Lemma replaceIllegal_bytes s b : b ∈ replaceIllegal (dropFormatAndControl s) ->
  name_byte b.
Proof.
  intros Hb. assert (Hall : Forall is_byte (replaceIllegal (dropFormatAndControl s)))
    by apply Map_is_bytes.
  destruct (proj1 (list.Forall_forall _ _) Hall b Hb) as [Hlo Hhi].
  assert (Hbig : 128 <= b -> b ∉ illegal).
  { intros ? Hi. unfold illegal in Hi.
    repeat (apply elem_of_cons in Hi as [->|Hi]; [lia|]). by apply not_elem_of_nil in Hi. }
  unfold replaceIllegal in Hb. apply Map_bytes in Hb as [Hb|(r & Hr & [= Hf])].
  { split; [lia|]. split; [lia|]. by apply Hbig. }
  destruct (decide (128 <= b)) as [?|Hsmall]; [split; [lia|]; split; [lia|]; by apply Hbig|].
  destruct (contains illegal r) eqn:Hi; subst.
  { apply underscore_ok. }
  apply contains_false in Hi. enough (32 <= b /\ b <> 127) by (split; [lia|]; split; [lia|done]).
  apply runes_ascii in Hr; [|apply Map_is_bytes|lia]. apply Map_bytes in Hr as [?|(r' & _ & Hf)]; [lia|].
  destruct (dropped_rune r') eqn:Hd; [done|]. injection Hf as ->.
  unfold dropped_rune in Hd. rewrite !orb_false_iff in Hd. lia.
Qed.

Lemma ToValidUTF8_bytes s b : Forall is_byte s -> b ∈ ToValidUTF8 s [95] -> b = 95 \/ b ∈ s.
Proof.
  intros Hs [Hb|Hb]%repair_bytes; [left; by apply list_elem_of_singleton|].
  right. by rewrite chunks_concat in Hb.
Qed.

Lemma clean_bytes s b : b ∈ ToValidUTF8 (replaceIllegal (dropFormatAndControl s)) [95] -> name_byte b.
Proof.
  intros [->|Hb]%ToValidUTF8_bytes; [apply underscore_ok|by apply replaceIllegal_bytes in Hb|].
  apply Map_is_bytes.
Qed.

Lemma finish_safe reserved s : (length s <= 249)%nat ->
  Forall name_byte s -> safe_name (finish reserved s).
Proof.
  intros Hlen Hall. unfold finish. set (t := TrimSpace (TrimRight s [46; 32])).
  assert (Ht : Forall name_byte t /\
    (length t <= 249)%nat).
  { destruct (TrimSpace_infix (TrimRight s [46; 32])) as (p & q & Hpq).
    destruct (TrimRight_prefix s [46; 32]) as [r Hr]. fold t in Hpq. rewrite Hr, Hpq in Hall, Hlen.
    rewrite !Forall_app in Hall. rewrite !length_app in Hlen. split; [tauto|lia]. }
  clearbody t. destruct Ht as [Ht Hl].
  set (u := if reserved t then 95 :: t else t).
  assert (Hu : Forall name_byte u /\
    (length u <= 250)%nat).
  { unfold u. destruct (reserved t); [|split; [done|lia]].
    split; [apply list.Forall_cons; split; [apply underscore_ok|done]|simpl; lia]. }
  clearbody u. destruct Hu as [Hu Hlu]. destruct (contains dot_names u) eqn:Hd.
  - split; [done|apply list.Forall_singleton, underscore_ok|simpl; lia].
  - by split.
Qed.

Section SegmentProps.
Context `{!UnicodeTables} (NFC : list Z -> list Z).

Lemma sanitised_is_safe s : safe_name (SanitiseSegment NFC s).
Proof.
  unfold SanitiseSegment. destruct (bool_decide (s = [])).
  { split; [done| |simpl; lia]. apply list.Forall_singleton, underscore_ok. }
  apply finish_safe; [apply truncateWithExtension_length|].
  apply list.Forall_forall. intros b Hb%truncateWithExtension_bytes. by eapply clean_bytes.
Qed.

(** Whatever bytes a peer or a form sends as one path component, the
    component that is used is a safe name: one to 250 bytes, no separator,
    no control byte, none of the characters Windows refuses, and never [.] or
    [..]. *)
Theorem SanitiseSegment_safe s : safe_name (SanitiseSegment NFC s).
Proof. apply sanitised_is_safe. Qed.
End SegmentProps.

(** ** What passes unchanged *)

Lemma chunks_ascii l : Forall (fun b => 0 <= b < 128) l -> chunks l = (fun b => (Some b, [b])) <$> l.
Proof.
  induction 1 as [|b l Hb _ IH]; [done|]. cbn [chunks]. rewrite (proj2 (Z.ltb_lt b 128)) by lia.
  by rewrite IH.
Qed.

Lemma encode_ascii r : 0 <= r < 128 -> encode_rune r = [r].
Proof.
  intros Hr. unfold encode_rune. rewrite (proj2 (Z.ltb_lt r 128)) by lia.
  assert (valid_rune r = true) as -> by bytes_lia. done.
Qed.

Lemma Map_ascii f l : Forall (fun b => 0 <= b < 128 /\ f b = Some b) l -> Map f l = l.
Proof.
  intros Hl. assert (Hr : runes l = l).
  { unfold runes. rewrite chunks_ascii by (eapply list.Forall_impl; [done|naive_solver]).
    clear Hl. induction l as [|b l IH]; [done|]. cbn [fmap list_fmap fst default]. by f_equal. }
  unfold Map. rewrite Hr. clear Hr. induction Hl as [|b l [Hb Hf] _ IH]; [done|].
  assert (omap f (b :: l) = b :: omap f l) as -> by (simpl; by rewrite Hf).
  rewrite fmap_cons, encode_ascii by done. simpl. by rewrite IH.
Qed.

(** The output of [strings.Map] is valid UTF-8, so a repair after it does
    nothing. *)
Lemma repair_Map f l : ToValidUTF8 (Map f l) [95] = Map f l.
Proof.
  unfold ToValidUTF8, Map. generalize (omap f (runes l)). clear l. intros l.
  assert (H : forall r k, exists r', valid_rune r' = true /\ encode_rune r ++ k = encode_rune r' ++ k /\
    encode_rune r = encode_rune r').
  { intros r k. destruct (valid_rune r) eqn:Hv; [by exists r|]. exists RuneError.
    split; [done|]. unfold encode_rune at 1 3. rewrite Hv. done. }
  induction l as [|r l IH]; [done|]. rewrite fmap_cons. cbn [concat].
  destruct (H r (concat (encode_rune <$> l))) as (r' & Hv & He & He').
  rewrite He, chunks_encode by done. cbn [repair]. by rewrite IH.
Qed.

Lemma strip_space_plain rev b l : 33 <= b < 127 -> strip_space rev (b :: l) = None.
Proof.
  intros Hb. unfold strip_space, space_encodings.
  destruct rev; cbn [fold_right reverse rev_append strip_prefix app];
    repeat match goal with
           | |- context [?a =? b] => rewrite (proj2 (Z.eqb_neq a b)) by lia
           end; done.
Qed.

Lemma trim_plain fuel rev b l : 33 <= b < 127 -> trim fuel rev (b :: l) = b :: l.
Proof. intros Hb. destruct fuel; [done|]. simpl. by rewrite strip_space_plain. Qed.

(** A plain name: printable ASCII without the illegal characters, short
    enough, beginning and ending in something other than a blank or a dot. *)
Record plain_name `{!UnicodeTables} (s : list Z) : Prop := {
  plain_bytes : Forall (fun b => 32 <= b < 127 /\ b ∉ illegal) s;
  plain_length : (length s <= maxSegmentBytes)%nat;
  plain_first : exists b k, s = b :: k /\ b <> 32;
  plain_last : exists b k, s = k ++ [b] /\ b <> 32 /\ b <> 46;
  plain_stem : isReservedStem s = false;
}.

Lemma TrimRight_plain k b : b <> 32 -> b <> 46 -> TrimRight (k ++ [b]) [46; 32] = k ++ [b].
Proof.
  intros H1 H2. unfold TrimRight. rewrite reverse_snoc. simpl.
  assert (contains [46; 32] b = false) as -> by (apply contains_false; set_solver).
  by rewrite reverse_cons, reverse_involutive.
Qed.

Lemma TrimSpace_plain b k b' k' : b :: k = k' ++ [b'] -> 33 <= b < 127 -> 33 <= b' < 127 ->
  TrimSpace (b :: k) = b :: k.
Proof.
  intros Hs Hb Hb'. unfold TrimSpace. rewrite trim_plain by done. rewrite Hs, reverse_snoc, trim_plain by done.
  by rewrite reverse_cons, reverse_involutive.
Qed.

(** The sanitiser is no blunt instrument: over a normaliser that leaves the
    name alone, a plain name reaches the disk byte for byte. *)
Theorem SanitiseSegment_keeps `{!UnicodeTables} NFC s :
  NFC s = s -> plain_name s -> SanitiseSegment NFC s = s.
Proof.
  intros Hnfc [Hb Hl (b & k & Hf & Hb1) (b' & k' & Hla & Hb2 & Hb3) Hstem].
  unfold SanitiseSegment. rewrite bool_decide_eq_false_2 by (by rewrite Hf). rewrite Hnfc.
  assert (Hd : dropFormatAndControl s = s).
  { apply Map_ascii. eapply list.Forall_impl; [done|]. intros c [Hc _]. simpl. split; [lia|].
    assert (dropped_rune c = false) as ->; [|done]. unfold dropped_rune, between. lia. }
  assert (Hr : replaceIllegal s = s).
  { apply Map_ascii. eapply list.Forall_impl; [done|]. intros c [Hc Hi]. simpl. split; [lia|].
    by apply contains_false in Hi as ->. }
  rewrite Hd, <- Hr at 1. unfold replaceIllegal at 1. rewrite Hr, repair_Map. fold (replaceIllegal s).
  rewrite Hr. unfold truncateWithExtension. rewrite (proj2 (Nat.leb_le _ _) Hl).
  assert (Hc : forall c, c ∈ s -> c <> 32 -> 33 <= c < 127).
  { intros c Hc. pose proof (proj1 (list.Forall_forall _ _) Hb c Hc). naive_solver lia. }
  unfold finish. rewrite Hla, TrimRight_plain, <- Hla by done. rewrite Hf.
  rewrite (TrimSpace_plain b k b' k'), <- Hf, Hstem; [..|by rewrite <- Hf|apply Hc|apply Hc].
  - destruct (contains dot_names s) eqn:Hdn; [|done]. apply contains_spec in Hdn.
    unfold dot_names in Hdn. rewrite !elem_of_cons, elem_of_nil in Hdn.
    exfalso. rewrite Hla in Hdn. destruct Hdn as [Hn|[Hn|[Hn|[]]]].
    + by destruct k'.
    + change [46] with ([] ++ [46]) in Hn. apply app_inj_tail in Hn as [_ ->]. done.
    + change [46; 46] with ([46] ++ [46]) in Hn. apply app_inj_tail in Hn as [_ ->]. done.
  - rewrite Hf. by left.
  - done.
  - rewrite Hla. apply elem_of_app. right. by left.
  - done.
Qed.

Lemma SanitiseSegment_keeps_witness :
  let s := bytes_of "Big Buck Bunny (2008).mkv" in
  @SanitiseSegment ascii_tables id s = s.
Proof.
  apply (@SanitiseSegment_keeps ascii_tables id); [done|]. split.
  - apply (bool_decide_unpack _). by vm_compute.
  - apply (bool_decide_unpack _). by vm_compute.
  - by eexists _, _.
  - by exists 118, (bytes_of "Big Buck Bunny (2008).mk").
  - by vm_compute.
Defined.

(** An undecodable byte becomes U+FFFD when the control characters are
    dropped, so the repair of the next step finds nothing to replace. *)
Theorem SanitiseSegment_repairs_nothing s :
  ToValidUTF8 (replaceIllegal (dropFormatAndControl s)) [95] = replaceIllegal (dropFormatAndControl s).
Proof. apply repair_Map. Qed.

Example SanitiseSegment_undecodable :
  @SanitiseSegment ascii_tables id [97; 255; 98] = [97; 239; 191; 189; 98].
Proof. by vm_compute. Qed.
