(* ===== verification/SafeJoin.v ===== *)
(** * Joining, deduplicating and confining paths ([internal/fsx/safepath.go])

    A path is its bytes; [Clean], [PathJoin], [Split] and [Abs] are the
    functions of package [path/filepath] on Unix.  [SafeJoin] joins sanitised
    segments under a root and asks the kernel ([verifyBeneath]) that no
    component is a symlink; the file system may change between two system
    calls, so every call carries its instant.  [ResolveDestination] confines a
    requested directory to the configured roots, and [dedupeName] keeps the
    names of one download apart. *)

From stdpp Require Import pretty.
From S2P Require Import Prelude GoStrings SafePath.

Open Scope Z_scope.

(** ** [path/filepath] *)

Definition slash : Z := 47.

(** [strings.Split] at one byte. *)
Fixpoint split (c : Z) (l : list Z) : list (list Z) :=
  match l with
  | [] => [[]]
  | b :: l =>
    if b =? c then [] :: split c l
    else match split c l with w :: ws => (b :: w) :: ws | [] => [[b]] end
  end.

(** [strings.Join] with a one-byte separator. *)
Fixpoint join (c : Z) (ws : list (list Z)) : list Z :=
  match ws with
  | [] => []
  | [w] => w
  | w :: ws => w ++ c :: join c ws
  end.

Definition IsAbs (p : list Z) : bool := match p with b :: _ => b =? slash | [] => false end.

Definition dotdot : list Z := [46; 46].

(** One element of [filepath.Clean]'s walk, over the reversed stack of kept
    elements. *)
Definition clean_step (rooted : bool) (stack : list (list Z)) (w : list Z) : list (list Z) :=
  if contains [[]; [46]] w then stack
  else if bool_decide (w = dotdot) then
    match stack with
    | [] => if rooted then [] else [w]
    | top :: rest => if bool_decide (top = dotdot) then w :: stack else rest
    end
  else w :: stack.

Definition clean_elements (rooted : bool) (ws : list (list Z)) : list (list Z) :=
  reverse (fold_left (clean_step rooted) ws []).

(** [filepath.Clean]. *)
Definition Clean (p : list Z) : list Z :=
  let body := join slash (clean_elements (IsAbs p) (split slash p)) in
  if IsAbs p then slash :: body
  else if bool_decide (body = []) then [46] else body.

(** [filepath.Join] of two elements. *)
Definition PathJoin (a b : list Z) : list Z :=
  if bool_decide (a = []) then (if bool_decide (b = []) then [] else Clean b)
  else Clean (a ++ slash :: b).

(** [filepath.Split]. *)
Definition Split (p : list Z) : list Z * list Z :=
  match last_index slash p with
  | Some i => (take (S i) p, drop (S i) p)
  | None => ([], p)
  end.

(** *** Absolute clean paths *)

Definition element (w : list Z) : Prop := slash ∉ w /\ w <> [] /\ w <> [46] /\ w <> dotdot.
#[global] Instance element_dec w : Decision (element w).
Proof. unfold element. apply _. Defined.

(** The path of a list of elements. *)
Definition render (ws : list (list Z)) : list Z := slash :: join slash ws.

Lemma join_cons c w w' ws : join c (w :: w' :: ws) = w ++ c :: join c (w' :: ws).
Proof. done. Qed.

Lemma split_sep c l : split c (c :: l) = [] :: split c l.
Proof. cbn [split]. by rewrite Z.eqb_refl. Qed.

Lemma split_ne c l : split c l <> [].
Proof. destruct l as [|b l]; [done|]. simpl. destruct (b =? c); [done|]. by destruct (split c l). Qed.

Lemma split_app c a b : split c (a ++ c :: b) = split c a ++ split c b.
Proof.
  induction a as [|x a IH]; simpl; [by rewrite Z.eqb_refl|].
  destruct (x =? c); [by rewrite IH|]. rewrite IH. pose proof (split_ne c a).
  by destruct (split c a).
Qed.

Lemma split_none c w : c ∉ w -> split c w = [w].
Proof.
  induction w as [|x w IH]; [done|]. intros [Hx Hw]%not_elem_of_cons. simpl.
  rewrite (proj2 (Z.eqb_neq x c)) by done. by rewrite IH.
Qed.

Lemma split_join c ws : Forall (fun w => c ∉ w) ws -> ws <> [] -> split c (join c ws) = ws.
Proof.
  induction 1 as [|w ws Hw Hws IH]; [done|]. intros _. destruct ws as [|w' ws]; [by apply split_none|].
  rewrite join_cons, split_app, split_none by done. by rewrite IH.
Qed.

Lemma clean_push rooted stack w : element w -> clean_step rooted stack w = w :: stack.
Proof.
  intros (_ & H1 & H2 & H3). unfold clean_step. rewrite bool_decide_eq_false_2 by done.
  assert (contains [[]; [46]] w = false) as -> by (apply contains_false; set_solver). done.
Qed.

Lemma clean_pushes rooted ws stack : Forall element ws ->
  fold_left (clean_step rooted) ws stack = reverse ws ++ stack.
Proof.
  intros Hws. revert stack. induction Hws as [|w ws Hw _ IH]; intros stack; [done|].
  cbn [fold_left]. by rewrite clean_push, IH, reverse_cons, <- app_assoc.
Qed.

Lemma element_no_slash ws : Forall element ws -> Forall (fun w => slash ∉ w) ws.
Proof. intros H. eapply list.Forall_impl; [done|]. by intros w [? _]. Qed.

Lemma Clean_render ws : Forall element ws -> Clean (render ws) = render ws.
Proof.
  intros Hws. unfold Clean, render. simpl. f_equal. f_equal. unfold clean_elements. simpl.
  destruct ws as [|w ws]; [done|]. rewrite split_join by (by try apply element_no_slash).
  by rewrite clean_pushes, app_nil_r, reverse_involutive.
Qed.

Lemma PathJoin_render ws w : Forall element ws -> element w ->
  PathJoin (render ws) w = render (ws ++ [w]).
Proof.
  intros Hws Hw. unfold PathJoin. rewrite bool_decide_eq_false_2 by done.
  assert (Hs : exists bl, Forall (fun w => w = []) bl /\
    split slash (render ws ++ slash :: w) = bl ++ ws ++ [w]).
  { rewrite split_app, (split_none _ w) by apply Hw. destruct ws as [|v ws].
    - exists [[]; []]. by split; [repeat constructor|].
    - exists [[]]. split; [by repeat constructor|]. unfold render. rewrite split_sep, split_join by (by try apply element_no_slash). done. }
  destruct Hs as (bl & Hbl & Hs). unfold Clean. rewrite Hs.
  change (IsAbs (render ws ++ slash :: w)) with true. unfold render. cbn iota. f_equal. f_equal.
  unfold clean_elements. rewrite fold_left_app.
  assert (fold_left (clean_step true) bl [] = []) as ->.
  { clear Hs. induction Hbl as [|v bl -> _ IH]; [done|]. by simpl. }
  rewrite clean_pushes by (apply Forall_app; split; [done|by apply list.Forall_singleton]).
  by rewrite app_nil_r, reverse_involutive.
Qed.

Lemma safe_element w : safe_name w -> element w.
Proof.
  intros [Hd Hb _]. apply contains_false in Hd. split.
  - intros Hs. destruct (proj1 (list.Forall_forall _ _) Hb slash Hs) as (_ & _ & Hi).
    apply Hi. unfold illegal. by left.
  - unfold dot_names, dotdot in *. rewrite !not_elem_of_cons in Hd. naive_solver.
Qed.

(** ** [within] *)

(** [strings.HasPrefix]. *)
Definition HasPrefix (s p : list Z) : bool :=
  match strip_prefix p s with Some _ => true | None => false end.

(** [strings.HasSuffix]. *)
Definition HasSuffix (s p : list Z) : bool := HasPrefix (reverse s) (reverse p).

(** [within]. *)
Definition within (path root : list Z) : bool :=
  if bool_decide (path = root) then true
  else if HasSuffix root [slash] then HasPrefix path root
  else HasPrefix path (root ++ [slash]).

Lemma HasPrefix_spec s p : HasPrefix s p = true <-> exists k, s = p ++ k.
Proof.
  unfold HasPrefix. split.
  - destruct (strip_prefix p s) as [k|] eqn:H; [|done]. intros _. exists k. by apply strip_prefix_app.
  - intros [k ->]. enough (strip_prefix p (p ++ k) = Some k) as -> by done.
    induction p as [|a p IH]; simpl; [done|]. by rewrite Z.eqb_refl.
Qed.

Lemma join_app c a b : a <> [] -> b <> [] -> join c (a ++ b) = join c a ++ c :: join c b.
Proof.
  intros Ha Hb. induction a as [|w a IH]; [done|]. destruct a as [|w' a].
  - simpl. destruct b; [done|]. done.
  - cbn [app]. rewrite !join_cons. cbn [app] in IH. rewrite IH by done. by rewrite <- app_assoc.
Qed.

Lemma render_inj a b : Forall element a -> Forall element b -> render a = render b -> a = b.
Proof.
  intros Ha Hb [= Hj]. assert (He : forall ws, Forall element ws -> join slash ws = [] -> ws = []).
  { intros [|w ws] Hws; [done|]. apply list.Forall_cons in Hws as [(_ & Hw & _) _].
    destruct ws; simpl; [by intros|]. by destruct w. }
  destruct (decide (a = [])) as [->|Hna]; [symmetry; by apply He|].
  destruct (decide (b = [])) as [->|Hnb]; [by apply He|].
  rewrite <- (split_join slash a), Hj, split_join; by try apply element_no_slash.
Qed.

Lemma join_last_element ws : Forall element ws -> ws <> [] ->
  exists k b, join slash ws = k ++ [b] /\ b <> slash.
Proof.
  induction 1 as [|w ws Hw Hws IH]; [done|]. intros _. destruct ws as [|w' ws].
  - destruct Hw as (Hs & Hne & _). destruct (exists_last Hne) as (k & b & ->). exists k, b.
    split; [done|]. intros ->. apply Hs, elem_of_app. right. by left.
  - destruct IH as (k & b & Hj & Hb); [done|]. exists (w ++ slash :: k), b.
    split; [|done]. rewrite join_cons, Hj. by rewrite <- app_assoc.
Qed.

Lemma within_prefix p r : Forall element p -> Forall element r ->
  within (render p) (render r) = true <-> exists k, p = r ++ k.
Proof.
  intros Hp Hr. unfold within. destruct (bool_decide_reflect (render p = render r)) as [Heq|Hne].
  { apply render_inj in Heq as ->; [|done..]. split; [|done]. exists []. by rewrite app_nil_r. }
  destruct r as [|w r].
  { simpl. rewrite HasPrefix_spec. split; [by exists p|]. intros _. by exists (join slash p). }
  assert (HasSuffix (render (w :: r)) [slash] = false) as ->.
  { destruct (join_last_element (w :: r)) as (k & b & Hj & Hb); [done..|].
    unfold HasSuffix, render. rewrite Hj, reverse_cons, reverse_snoc. unfold HasPrefix.
    cbn -[Z.eqb slash]. rewrite (proj2 (Z.eqb_neq slash b)); [done|congruence]. }
  rewrite HasPrefix_spec. split.
  - intros [k Hk]. apply (f_equal tail) in Hk.
    change (join slash p = (join slash (w :: r) ++ [slash]) ++ k) in Hk.
    assert (Hpn : p <> []). { intros ->. apply (f_equal length) in Hk. rewrite !length_app in Hk. simpl in Hk. lia. }
    exists (split slash k). rewrite <- (split_join slash p), Hk by (by try apply element_no_slash).
    rewrite <- app_assoc. change ([slash] ++ k) with (slash :: k). rewrite split_app, split_join; by try apply element_no_slash.
  - intros [k ->]. destruct k as [|v k]; [by rewrite app_nil_r in Hne|].
    exists (join slash (v :: k)). unfold render. rewrite join_app by done.
    by rewrite (cons_middle slash), app_assoc.
Qed.

(** On absolute clean paths the byte comparison is the comparison of
    directories: [/data/iso2] is not within [/data/iso], and everything is
    within [/]. *)
Theorem within_spec p r : Forall element p -> Forall element r ->
  within (render p) (render r) = true <-> exists k, p = r ++ k.
Proof. apply within_prefix. Qed.

Lemma within_spec_witness :
  let p := bytes_of <$> ["data"; "iso2"]%string in let r := bytes_of <$> ["data"; "iso"]%string in
  (within (render p) (render r) = true <-> exists k, p = r ++ k) /\ within (render p) (render r) = false.
Proof.
  split; [|by vm_compute]. apply (within_spec (bytes_of <$> ["data"; "iso2"]%string)
    (bytes_of <$> ["data"; "iso"]%string)); by apply (bool_decide_unpack _); vm_compute.
Defined.

(** ** The kernel's answers

    A descriptor stands for the directory it denotes.  The tree may change
    between two calls, so every call names its instant; [lookup] is what the
    directory holds then.  The laws are those of openat2(2), openat(2) and
    fstatat(2) with the no-follow flags the code passes. *)

Inductive errno := ENOENT | ELOOP | EXDEV | ENOSYS | EINVAL | EAGAIN | EIO | ENOTDIR.
#[global] Instance errno_eq_dec : EqDecision errno.
Proof. solve_decision. Defined.

Inductive mode := S_IFLNK | S_IFDIR | S_IFOTHER.

(** What [errors.Is] finds in an error; a joined error is the list of its
    parts and [nil] is the empty list. *)
Inductive ferr := ErrPathRejected | Errno (e : errno).

Class Kernel := {
  fd : Type;
  lookup_at : nat -> fd -> list Z -> option (mode * fd);
  OpenRoot : nat -> list Z -> errno + fd;
  Openat2 : nat -> fd -> list Z -> errno + fd;
  Openat2Dir : nat -> fd -> list Z -> errno + fd;
  Fstatat : nat -> fd -> list Z -> errno + mode;
  Openat : nat -> fd -> list Z -> errno + fd;
  Mkdirat : nat -> fd -> list Z -> option errno;
  Close : nat -> fd -> option errno;
}.

Section Beneath.
Context `{!Kernel}.

(** [d'] is reached from [d] by descending through directories only; each
    step was so at some instant. *)
Inductive reaches : fd -> list (list Z) -> fd -> Prop :=
| reaches_here d : reaches d [] d
| reaches_into t d n ns d' d'' :
    lookup_at t d n = Some (S_IFDIR, d') -> reaches d' ns d'' -> reaches d (n :: ns) d''.

(** The path descends from [d] without crossing a symlink: it ends at an
    entry that is none, or where nothing exists yet. *)
Inductive beneath : fd -> list (list Z) -> Prop :=
| beneath_root d : beneath d []
| beneath_missing t d n ns : lookup_at t d n = None -> beneath d (n :: ns)
| beneath_last t d n m x : lookup_at t d n = Some (m, x) -> m <> S_IFLNK -> beneath d [n]
| beneath_into t d n ns d' :
    lookup_at t d n = Some (S_IFDIR, d') -> beneath d' ns -> beneath d (n :: ns).

(** The relative path [verifyBeneath] hands to the kernel. *)
Definition relative (parts : list (list Z)) : list Z :=
  let rel := join slash parts in if bool_decide (rel = []) then [46] else rel.

Record kernel_laws : Prop := {
  stat_ok t d n m : Fstatat t d n = inr m -> exists x, lookup_at t d n = Some (m, x);
  stat_missing t d n : Fstatat t d n = inl ENOENT -> lookup_at t d n = None;
  open_ok t d n d' : Openat t d n = inr d' -> lookup_at t d n = Some (S_IFDIR, d');
  open_dot t d m d' : lookup_at t d [46] = Some (m, d') -> d' = d;
  openat2_ok t d ns x : Forall element ns -> Openat2 t d (relative ns) = inr x ->
    ns = [] \/ exists pre n d' m, ns = pre ++ [n] /\ reaches d pre d' /\
      lookup_at t d' n = Some (m, x) /\ m <> S_IFLNK;
  openat2_dir_ok t d ns x : Forall element ns -> Openat2Dir t d (relative ns) = inr x ->
    reaches d ns x;
}.

(** ** [verifyBeneath] *)

Definition errs_of (e : option errno) : list ferr :=
  match e with Some e => [Errno e] | None => [] end.

(** The loop of [verifyBeneathWalk]: [cur] is the descriptor it owns, [None]
    while it stands on the root. *)
Fixpoint walk_loop (t : nat) (rootFD : fd) (cur : option fd) (parts : list (list Z)) :
    list ferr * option fd * nat :=
  match parts with
  | [] => ([], cur, t)
  | part :: rest =>
    let dirfd := default rootFD cur in
    match Fstatat t dirfd part with
    | inl ENOENT => ([], cur, S t)
    | inl e => ([Errno e], cur, S t)
    | inr S_IFLNK => ([ErrPathRejected], cur, S t)
    | inr S_IFDIR =>
      match rest with
      | [] => ([], cur, S t)
      | _ =>
        match Openat (S t) dirfd part with
        | inl ELOOP => ([ErrPathRejected], cur, S (S t))
        | inl e => ([Errno e], cur, S (S t))
        | inr next =>
          match cur with
          | Some prev =>
            match Close (S (S t)) prev with
            | Some e => ([Errno e], Some next, S (S (S t)))
            | None => walk_loop (S (S (S t))) rootFD (Some next) rest
            end
          | None => walk_loop (S (S t)) rootFD (Some next) rest
          end
        end
      end
    | inr S_IFOTHER =>
      match rest with [] => ([], cur, S t) | _ => ([Errno ENOTDIR], cur, S t) end
    end
  end.

(** [verifyBeneathWalk]. *)
Definition verifyBeneathWalk (t : nat) (rootFD : fd) (parts : list (list Z)) : list ferr * nat :=
  let '(err, cur, t) := walk_loop t rootFD None parts in
  match cur with
  | Some dirfd => (err ++ errs_of (Close t dirfd), S t)
  | None => (err, t)
  end.

(** [verifyBeneath]. *)
Definition verifyBeneath (t : nat) (root : list Z) (parts : list (list Z)) : list ferr * nat :=
  match OpenRoot t root with
  | inl e => ([Errno e], S t)
  | inr rootFD =>
    let '(err, t) :=
      match Openat2 (S t) rootFD (relative parts) with
      | inr fd => (errs_of (Close (S (S t)) fd), S (S (S t)))
      | inl ENOENT | inl ENOSYS | inl EINVAL => verifyBeneathWalk (S (S t)) rootFD parts
      | inl ELOOP | inl EXDEV => ([ErrPathRejected], S (S t))
      | inl e => ([Errno e], S (S t))
      end in
    (err ++ errs_of (Close t rootFD), S t)
  end.

(** ** [SafeJoin] *)

Context `{!UnicodeTables} (NFC : list Z -> list Z).

(** The pass over the raw segments; [None] refuses. *)
Fixpoint safe_parts (segments : list (list Z)) : option (list (list Z)) :=
  match segments with
  | [] => Some []
  | raw :: rest =>
    if contains [[]; [46]] raw then safe_parts rest
    else if bool_decide (raw = dotdot) || IsAbs raw then None
    else cons (SanitiseSegment NFC raw) <$> safe_parts rest
  end.

(** [SafeJoin]. *)
Definition SafeJoin (t : nat) (root : list Z) (segments : list (list Z)) : list ferr + list Z :=
  match safe_parts segments with
  | None => inl [ErrPathRejected]
  | Some parts =>
    if (maxSegmentDepth <? length parts)%nat then inl [ErrPathRejected]
    else
      let joined := fold_left PathJoin parts root in
      if (maxPathBytes <? length joined)%nat then inl [ErrPathRejected]
      else match (verifyBeneath t root parts).1 with [] => inr joined | err => inl err end
  end.

(** *** Containment *)

Lemma reaches_snoc_beneath t d pre d' n m x :
  reaches d pre d' -> lookup_at t d' n = Some (m, x) -> m <> S_IFLNK -> beneath d (pre ++ [n]).
Proof.
  induction 1 as [|t' d n' ns d1 d2 Hl _ IH]; intros; [by eapply beneath_last|].
  simpl. eapply beneath_into; [done|]. by apply IH.
Qed.

Hypothesis laws : kernel_laws.

Lemma walk_loop_beneath t rootFD cur parts k t' :
  walk_loop t rootFD cur parts = ([], k, t') -> beneath (default rootFD cur) parts.
Proof.
  revert t cur. induction parts as [|part rest IH]; intros t cur; simpl; [constructor|].
  destruct (Fstatat t _ part) as [e|m] eqn:Hs.
  { destruct e; try done. intros _. eapply beneath_missing. by eapply stat_missing. }
  apply (stat_ok laws) in Hs as [x Hx].
  destruct m; [done|..]; destruct rest as [|r rest]; try done.
  - intros _. by eapply beneath_last.
  - destruct (Openat _ _ _) as [e|next] eqn:Ho; [by destruct e|]. apply (open_ok laws) in Ho.
    intros Hw. eapply beneath_into; [done|]. destruct cur as [prev|].
    + destruct (Close _ prev); [done|]. by apply IH in Hw.
    + by apply IH in Hw.
  - intros _. by eapply beneath_last.
Qed.

Lemma verifyBeneath_beneath t root parts : Forall element parts ->
  (verifyBeneath t root parts).1 = [] ->
  exists rootFD, OpenRoot t root = inr rootFD /\ beneath rootFD parts.
Proof.
  intros Hp. unfold verifyBeneath. destruct (OpenRoot t root) as [|rootFD]; [done|].
  intros Hnil. exists rootFD. split; [done|].
  assert (Hw : forall t1 t2, (verifyBeneathWalk t1 rootFD parts).1 ++ errs_of t2 = [] ->
    beneath rootFD parts).
  { intros t1 t2 [Hw _]%app_nil. unfold verifyBeneathWalk in Hw.
    destruct (walk_loop t1 rootFD None parts) as [[err cur] t'] eqn:E.
    assert (err = []) as ->. { destruct cur; simpl in Hw; [by apply app_nil in Hw as [? _]|done]. }
    by apply walk_loop_beneath in E. }
  destruct (Openat2 _ _ _) as [e|x] eqn:Ho.
  - destruct e; try done; destruct (verifyBeneathWalk _ _ _) eqn:E; eapply Hw; rewrite E; exact Hnil.
  - destruct (openat2_ok laws _ _ _ _ Hp Ho) as [->|(pre & n & d' & m & -> & Hr & Hl & Hm)].
    + constructor.
    + by eapply reaches_snoc_beneath.
Qed.

Lemma safe_parts_spec segments parts : safe_parts segments = Some parts ->
  Forall safe_name parts /\ dotdot ∉ segments /\ Forall (fun s => IsAbs s = false) segments /\
  parts = SanitiseSegment NFC <$> filter (fun s => s ∉ [[]; [46]]) segments.
Proof.
  revert parts. induction segments as [|raw rest IH]; intros parts; simpl.
  { intros [= <-]. split_and!; [constructor|by apply not_elem_of_nil|constructor|done]. }
  rewrite filter_cons. destruct (contains [[]; [46]] raw) eqn:Hc.
  - intros (H1 & H2 & H3 & ->)%IH. apply contains_spec in Hc.
    rewrite decide_False by naive_solver. split_and!; [done| | |done].
    + apply not_elem_of_cons. split; [|done]. intros <-. unfold dotdot in Hc. set_solver.
    + constructor; [|done]. rewrite !elem_of_cons in Hc. destruct Hc as [->|[->|[]%not_elem_of_nil]]; done.
  - apply contains_false in Hc. rewrite decide_True by done.
    destruct (bool_decide_reflect (raw = dotdot)) as [|Hd]; [done|].
    destruct (IsAbs raw) eqn:Ha; [done|]. simpl.
    destruct (safe_parts rest) as [ps|]; [|done]. intros [= <-].
    destruct (IH ps) as (H1 & H2 & H3 & ->); [done|]. split_and!.
    + constructor; [apply sanitised_is_safe|done].
    + by apply not_elem_of_cons.
    + by constructor.
    + done.
Qed.

Lemma joined_render ws parts : Forall element ws -> Forall element parts ->
  fold_left PathJoin parts (render ws) = render (ws ++ parts).
Proof.
  intros Hws Hp. revert ws Hws. induction Hp as [|p parts Hp _ IH]; intros ws Hws; simpl.
  - by rewrite app_nil_r.
  - rewrite PathJoin_render, IH by
      first [done|apply Forall_app; split; [done|by apply list.Forall_singleton]].
    by rewrite <- app_assoc.
Qed.

(** What [SafeJoin] accepts: an absolute clean root extended by one safe name
    for each segment that says anything - none of them [..] or absolute -, at
    most 32 deep and 4096 bytes long, whose components the kernel has seen
    descend from the opened root without crossing a symlink.  The names the
    caller gets and the path the kernel was asked about are the same. *)
Theorem SafeJoin_confined t rootws segments joined :
  Forall element rootws ->
  SafeJoin t (render rootws) segments = inr joined ->
  exists parts rootFD,
    parts = SanitiseSegment NFC <$> filter (fun s => s ∉ [[]; [46]]) segments /\
    joined = render (rootws ++ parts) /\ within joined (render rootws) = true /\
    Forall safe_name parts /\ (length parts <= 32)%nat /\ (length joined <= 4096)%nat /\
    dotdot ∉ segments /\ Forall (fun s => IsAbs s = false) segments /\
    OpenRoot t (render rootws) = inr rootFD /\ beneath rootFD parts.
Proof.
  intros Hroot. unfold SafeJoin. destruct (safe_parts segments) as [parts|] eqn:Hs; [|done].
  apply safe_parts_spec in Hs as (Hsafe & Hdd & Habs & Hparts).
  assert (Hel : Forall element parts) by (eapply list.Forall_impl; [done|apply safe_element]).
  destruct (_ <? length parts)%nat eqn:Hdepth; [done|]. apply Nat.ltb_ge in Hdepth.
  rewrite joined_render by done. destruct (_ <? _)%nat eqn:Hlen; [done|]. apply Nat.ltb_ge in Hlen.
  destruct (verifyBeneath _ _ _).1 eqn:Hv; [|done]. intros [= <-].
  apply verifyBeneath_beneath in Hv as (rootFD & Hopen & Hb); [|done].
  exists parts, rootFD. split_and!; try done.
  apply within_prefix; [by apply Forall_app|done|by exists parts].
Qed.
End Beneath.

(** *** A tree to run it on *)

(** Directory 0 is the root; it holds the directory [movies] (1) and the
    symlink [link]. *)
Module Tree.
Definition entry (d : nat) (n : list Z) : option (mode * nat) :=
  if bool_decide (n = [46]) then Some (S_IFDIR, d)
  else if bool_decide (d = O /\ n = bytes_of "movies") then Some (S_IFDIR, 1%nat)
  else if bool_decide (d = O /\ n = bytes_of "link") then Some (S_IFLNK, 2%nat)
  else None.

(** A kernel without openat2. *)
#[global] Instance kernel : Kernel := {|
  fd := nat;
  lookup_at := fun _ => entry;
  OpenRoot := fun _ _ => inr O;
  Openat2 := fun _ _ _ => inl ENOSYS;
  Openat2Dir := fun _ _ _ => inl ENOSYS;
  Fstatat := fun _ d n => match entry d n with Some (m, _) => inr m | None => inl ENOENT end;
  Openat := fun _ d n => match entry d n with Some (S_IFDIR, x) => inr x | _ => inl ELOOP end;
  Mkdirat := fun _ _ _ => None;
  Close := fun _ _ => None;
|}.

Lemma laws : kernel_laws.
Proof.
  split; simpl; try done.
  - intros _ d n m. destruct (entry d n) as [[m' x]|]; [|done]. intros [= ->]. by exists x.
  - intros _ d n. by destruct (entry d n) as [[m' x]|].
  - intros _ d n d'. destruct (entry d n) as [[[] x]|]; try done. by intros [= ->].
  - intros _ d m d'. unfold entry. simpl. by intros [= _ ->].
Qed.
End Tree.

Lemma SafeJoin_confined_witness :
  let join segs := @SafeJoin Tree.kernel ascii_tables id O (render [bytes_of "data"]) (bytes_of <$> segs) in
  let joined := bytes_of "/data/movies/a_b.mkv" in
  join ["link"; "x"]%string = inl [ErrPathRejected] /\
  join ["movies"; ".."; "x"]%string = inl [ErrPathRejected] /\
  (exists parts rootFD, OpenRoot O (render [bytes_of "data"]) = inr rootFD /\ beneath rootFD parts /\
     joined = render ([bytes_of "data"] ++ parts)).
Proof.
  split; [by vm_compute|]. split; [by vm_compute|].
  destruct (@SafeJoin_confined Tree.kernel ascii_tables id Tree.laws O [bytes_of "data"]
    (bytes_of <$> ["movies"; "."; "a?b.mkv"]%string) (bytes_of "/data/movies/a_b.mkv"))
    as (parts & rootFD & _ & Hj & _ & _ & _ & _ & _ & _ & Ho & Hb).
  - by apply (bool_decide_unpack _); vm_compute.
  - by vm_compute.
  - by exists parts, rootFD.
Defined.
