(* ===== verification/Confine.v ===== *)
(** * Confining a requested directory ([internal/fsx/safepath.go])

    [ResolveDestination] resolves the directory a request names - through every
    symlink, as deep as it exists - and accepts it below a configured root;
    [MkdirBeneath] creates one directory below such a pair without trusting
    the path again; [dedupeName] keeps the file names of one download apart. *)

From stdpp Require Import pretty.
From S2P Require Import Prelude GoStrings SafePath SafeJoin.

Open Scope Z_scope.

(** ** [ResolveDestination] *)

Section Resolve.
(** The working directory and [filepath.EvalSymlinks] of the moment. *)
Context (Getwd : option (list Z)) (EvalSymlinks : list Z -> option (list Z)).

(** [filepath.Abs]. *)
Definition Abs (p : list Z) : option (list Z) :=
  if IsAbs p then Some (Clean p) else (fun wd => PathJoin wd p) <$> Getwd.

(** [resolveExisting]; every round drops the last element. *)
Fixpoint resolve (fuel : nat) (path : list Z) : option (list Z) :=
  match fuel with
  | O => None
  | S fuel =>
    match EvalSymlinks path with
    | Some resolved => Some resolved
    | None =>
      let '(dir, tail) := Split path in
      let parent := Clean dir in
      if bool_decide (parent = path) then None
      else (fun resolvedParent => PathJoin resolvedParent tail) <$> resolve fuel parent
    end
  end.
Definition resolveExisting (path : list Z) : option (list Z) := resolve (S (S (length path))) path.

(** [ResolveDestinationRoot]; [None] is [ErrPathRejected]. *)
Definition ResolveDestinationRoot (roots : list (list Z)) (requested : list Z) :
    option (list Z * list Z) :=
  match roots with
  | [] => None
  | root0 :: _ =>
    if bool_decide (requested = []) then Some (Clean root0, Clean root0)
    else
      abs ← Abs requested;
      resolved ← resolveExisting abs;
      head (omap (fun configured =>
        resolvedRoot ← resolveExisting (Clean configured);
        if within resolved resolvedRoot then Some (resolvedRoot, resolved) else None) roots)
  end.

(** [ResolveDestination]. *)
Definition ResolveDestination (roots : list (list Z)) (requested : list Z) : option (list Z) :=
  snd <$> ResolveDestinationRoot roots requested.
End Resolve.

(** *** Paths taken apart *)

Lemma last_index_app c a w : c ∉ w -> last_index c (a ++ c :: w) = Some (length a).
Proof.
  intros Hw. unfold last_index.
  assert (Hn : forall k i o, c ∉ k -> fold_left (fun '(i, found) b =>
      (S i, if b =? c then Some i else found)) k (i, o) = ((i + length k)%nat, o)).
  { induction k as [|b k IH]; intros i o Hk; simpl; [by rewrite Nat.add_0_r|].
    apply not_elem_of_cons in Hk as [Hb Hk]. rewrite (proj2 (Z.eqb_neq b c)), IH by done.
    f_equal. lia. }
  assert (Hi : forall k i o, fst (fold_left (fun '(i, found) b =>
      (S i, if b =? c then Some i else found)) k (i, o)) = (i + length k)%nat).
  { induction k as [|b k IH]; intros i o; simpl; [lia|]. rewrite IH. lia. }
  rewrite fold_left_app. specialize (Hi a O None).
  destruct (fold_left _ a _) as [i o]. simpl in *. rewrite Z.eqb_refl, Hn by done. simpl. by f_equal.
Qed.

Lemma Clean_slash ws : Forall element ws -> Clean (render ws ++ [slash]) = render ws.
Proof.
  intros Hws. unfold Clean. change (IsAbs (render ws ++ [slash])) with true. cbn iota.
  unfold render at 2. f_equal. f_equal. rewrite split_app. unfold render. rewrite split_sep.
  unfold clean_elements. rewrite !fold_left_app. cbn [app fold_left].
  change (clean_step true [] []) with (@nil (list Z)).
  assert (He : forall s, clean_step true s [] = s) by done.
  destruct ws as [|w ws]; [done|].
  rewrite (split_join slash (w :: ws)) by (by try apply element_no_slash).
  rewrite (clean_pushes true (w :: ws)) by done. cbn [split fold_left]. rewrite He.
  by rewrite app_nil_r, reverse_involutive.
Qed.

Lemma Split_render ws w : Forall element ws -> element w ->
  exists dir, Split (render (ws ++ [w])) = (dir, w) /\ Clean dir = render ws.
Proof.
  intros Hws Hw. assert (Hr : exists a, render (ws ++ [w]) = a ++ slash :: w /\
    Clean (a ++ [slash]) = render ws).
  { destruct ws as [|v ws]; [by exists []|]. exists (render (v :: ws)).
    split; [|by apply Clean_slash]. unfold render. rewrite join_app by done. done. }
  destruct Hr as (a & -> & Hc). exists (a ++ [slash]). split; [|done].
  unfold Split. rewrite last_index_app by apply Hw.
  rewrite (cons_middle slash), (app_assoc a). f_equal.
  - rewrite take_app_length'; [done|]. rewrite length_app. simpl. lia.
  - rewrite drop_app_length'; [done|]. rewrite length_app. simpl. lia.
Qed.

Lemma split_no_sep c l : Forall (fun w => c ∉ w) (split c l).
Proof.
  induction l as [|b l IH]; simpl; [by repeat constructor; apply not_elem_of_nil|].
  destruct (b =? c) eqn:E; [constructor; [apply not_elem_of_nil|done]|].
  apply Z.eqb_neq in E. destruct (split c l) as [|w ws]; [by repeat constructor; set_solver|].
  apply list.Forall_cons in IH as [Hw Hws]. constructor; [|done]. apply not_elem_of_cons. split; congruence.
Qed.

(** Cleaning an absolute path leaves a list of elements. *)
Lemma Clean_abs p : IsAbs p = true -> exists ws, Forall element ws /\ Clean p = render ws.
Proof.
  intros Ha. unfold Clean. rewrite Ha. eexists. split; [|done]. unfold clean_elements.
  apply list.Forall_reverse.
  assert (H : forall ws st, Forall (fun w => slash ∉ w) ws -> Forall element st ->
    Forall element (fold_left (clean_step true) ws st)).
  { induction ws as [|w ws IH]; intros st Hws Hst; [done|].
    apply list.Forall_cons in Hws as [Hw Hws]. simpl. apply IH; [done|].
    unfold clean_step. destruct (contains _ w) eqn:Hc; [done|]. apply contains_false in Hc.
    destruct (bool_decide_reflect (w = dotdot)) as [->|Hd].
    - destruct st as [|top st]; [done|]. apply list.Forall_cons in Hst as [Ht Hst].
      rewrite bool_decide_eq_false_2; [done|]. apply Ht.
    - constructor; [|done]. split; [done|]. set_solver. }
  apply H; [apply split_no_sep|constructor].
Qed.

(** *** What the resolver answers *)

Section ResolveProps.
Context (Getwd : option (list Z)) (EvalSymlinks : list Z -> option (list Z)).

(** [filepath.EvalSymlinks] of an absolute path answers a clean absolute
    path, and the working directory is absolute. *)
Definition resolver_laws : Prop :=
  (forall p q, IsAbs p = true -> EvalSymlinks p = Some q -> exists vs, Forall element vs /\ q = render vs) /\
  (forall wd, Getwd = Some wd -> IsAbs wd = true).

(** The reference: the deepest ancestor that resolves, its resolution, and
    the rest of the path below it. *)
Definition deepest (ws vs : list (list Z)) : Prop :=
  exists pre tail base, ws = pre ++ tail /\ EvalSymlinks (render pre) = Some (render base) /\
    vs = base ++ tail /\ Forall element base /\
    (forall t1 t2, tail = t1 ++ t2 -> t1 <> [] -> EvalSymlinks (render (pre ++ t1)) = None).

Hypothesis laws : resolver_laws.

Lemma resolve_deepest fuel ws q : Forall element ws ->
  resolve EvalSymlinks fuel (render ws) = Some q ->
  exists vs, Forall element vs /\ q = render vs /\ deepest ws vs.
Proof.
  revert ws q. induction fuel as [|fuel IH]; intros ws q Hws; [done|]. simpl.
  destruct (EvalSymlinks (render ws)) as [r|] eqn:He.
  { intros [= ->]. destruct (proj1 laws (render ws) q) as (vs & Hvs & ->); [done..|].
    exists vs. split_and!; [done..|]. exists ws, [], vs.
    split_and!; [by rewrite app_nil_r|done|by rewrite app_nil_r|done|].
    by intros [|] ? ?. }
  induction ws as [|w pre _] using rev_ind; [done|]. apply Forall_app in Hws as [Hpre Hw].
  apply list.Forall_cons in Hw as [Hw _]. destruct (Split_render pre w) as (dir & -> & ->); [exact Hpre|exact Hw|].
  destruct (bool_decide_reflect (render pre = render (pre ++ [w]))) as [|_]; [done|].
  destruct (resolve _ fuel (render pre)) as [rp|] eqn:Hr; [|done]. intros [= <-].
  destruct (IH pre rp Hpre Hr) as (vs & Hvs & -> & (p & tl & base & -> & Hb & -> & Hbe & Hmax)).
  exists ((base ++ tl) ++ [w]). split_and!.
  - apply Forall_app. split; [done|by apply list.Forall_singleton].
  - by rewrite PathJoin_render.
  - exists p, (tl ++ [w]), base. rewrite !app_assoc. split_and!; [done..|].
    intros t1 t2 Ht Hn. destruct t2 as [|x t2] using rev_ind.
    + rewrite app_nil_r in Ht. subst t1. by rewrite app_assoc.
    + rewrite app_assoc in Ht. apply app_inj_tail in Ht as [Ht _]. by eapply Hmax.
Qed.

(** Every round drops an element, so enough rounds reach the root. *)
Lemma resolve_total ws fuel : Forall element ws -> (length ws < fuel)%nat ->
  resolve EvalSymlinks fuel (render ws) = None ->
  forall pre tail, ws = pre ++ tail -> EvalSymlinks (render pre) = None.
Proof.
  revert fuel. induction ws as [|w ws IH] using rev_ind; intros [|fuel] Hws Hf; try (simpl in Hf; lia).
  - simpl. destruct (EvalSymlinks _) eqn:He; [done|]. intros _ [|] ? ?; [done|by simplify_eq].
  - simpl. destruct (EvalSymlinks _) eqn:He; [done|]. apply Forall_app in Hws as [Hpre Hw].
    apply list.Forall_cons in Hw as [Hw _]. destruct (Split_render ws w) as (dir & -> & ->); [done..|].
    destruct (bool_decide_reflect (render ws = render (ws ++ [w]))) as [Heq|_].
    { apply render_inj in Heq; [|done|apply Forall_app; by split; [|apply list.Forall_singleton]].
      apply (f_equal length) in Heq. rewrite length_app in Heq. simpl in Heq. lia. }
    destruct (resolve _ fuel _) eqn:Hr; [done|]. intros _ pre tail Hpt.
    destruct tail as [|x tail _] using rev_ind.
    + rewrite app_nil_r in Hpt. by subst.
    + rewrite app_assoc in Hpt. apply app_inj_tail in Hpt as [-> _].
      eapply IH; [done| |done|done]. rewrite length_app in Hf. simpl in Hf. lia.
Qed.

Lemma join_length ws : Forall element ws -> (length ws <= length (join slash ws))%nat.
Proof.
  induction 1 as [|w ws (_ & Hw & _) _ IH]; [simpl; lia|].
  destruct w as [|b w]; [done|]. destruct ws as [|w' ws]; [simpl; lia|].
  rewrite join_cons, length_app. simpl in *. lia.
Qed.

(** [resolveExisting] always returns: the deepest ancestor that resolves with
    the missing tail below it, or a refusal when not even the file system root
    resolves. *)
Theorem resolveExisting_decides ws : Forall element ws ->
  match resolveExisting EvalSymlinks (render ws) with
  | Some q => exists vs, Forall element vs /\ q = render vs /\ deepest ws vs
  | None => forall pre tail, ws = pre ++ tail -> EvalSymlinks (render pre) = None
  end.
Proof.
  intros Hws. unfold resolveExisting. destruct (resolve _ _ _) as [q|] eqn:Hr.
  - by eapply resolve_deepest.
  - intros pre tail Hpt. eapply resolve_total; [done| |done|done].
    unfold render. simpl. pose proof (join_length ws Hws). lia.
Qed.

Lemma Abs_render p q : Abs Getwd p = Some q -> exists ws, Forall element ws /\ q = render ws.
Proof.
  unfold Abs. destruct (IsAbs p) eqn:Ha.
  - intros [= <-]. destruct (Clean_abs p Ha) as (ws & ? & ->). by exists ws.
  - destruct Getwd as [wd|] eqn:Hwd; [|done]. intros [= <-].
    assert (Hw : IsAbs wd = true) by by apply (proj2 laws).
    unfold PathJoin. destruct wd as [|b wd]; [done|]. rewrite bool_decide_eq_false_2 by done.
    destruct (Clean_abs ((b :: wd) ++ slash :: p)) as (ws & ? & ->); [done|]. by exists ws.
Qed.

(** C13: A destination is accepted only below a configured root.  The answer is
    the requested path with the deepest part of it that exists replaced by
    what its symlinks resolve to, the part still to be created attached below
    that, and the whole lies under the resolution of one of the configured
    roots, element by element. *)
Theorem ResolveDestination_confined roots requested root resolved :
  requested <> [] -> Forall (fun r => IsAbs r = true) roots ->
  ResolveDestinationRoot Getwd EvalSymlinks roots requested = Some (root, resolved) ->
  exists abs ws vs configured cs rs k,
    Abs Getwd requested = Some abs /\ abs = render ws /\ deepest ws vs /\ resolved = render vs /\
    configured ∈ roots /\ Clean configured = render cs /\ deepest cs rs /\ root = render rs /\
    vs = rs ++ k /\ Forall element vs.
Proof.
  intros Hreq Hroots. unfold ResolveDestinationRoot. destruct roots as [|root0 roots']; [done|].
  rewrite bool_decide_eq_false_2 by done.
  destruct (Abs Getwd requested) as [abs|] eqn:Ha; [|done]. cbn [mbind option_bind].
  destruct (resolveExisting _ abs) as [res|] eqn:Hr; [|done]. cbn [mbind option_bind].
  destruct (Abs_render _ _ Ha) as (ws & Hws & ->). unfold resolveExisting in Hr.
  destruct (resolve_deepest _ _ _ Hws Hr) as (vs & Hvs & -> & Hd).
  generalize dependent (root0 :: roots'). clear root0 roots'. intros roots Hroots Hh.
  assert (Hin : (root, resolved) ∈ omap (fun configured =>
      resolvedRoot ← resolveExisting EvalSymlinks (Clean configured);
      if within (render vs) resolvedRoot then Some (resolvedRoot, render vs) else None) roots).
  { destruct (omap _ roots); [done|]. injection Hh as ->. by left. }
  apply list_elem_of_omap in Hin as (configured & Hc & Hf).
  destruct (resolveExisting _ (Clean configured)) as [rr|] eqn:Hrr; [|done]. cbn in Hf.
  destruct (within _ rr) eqn:Hw; [|done]. injection Hf as -> <-.
  destruct (Clean_abs configured) as (cs & Hcs & Hcc);
    [by apply (proj1 (list.Forall_forall _ _) Hroots)|].
  rewrite Hcc in Hrr. destruct (resolve_deepest _ _ _ Hcs Hrr) as (rs & Hrs & -> & Hdr).
  apply within_prefix in Hw as [k ->]; [|done..].
  exists (render ws), ws, (rs ++ k), configured, cs, rs, k. done.
Qed.
End ResolveProps.

(** A tree with one link, [/data/out], that leads to [/etc]. *)
Definition link_tree (p : list Z) : option (list Z) :=
  if contains (bytes_of <$> ["/"; "/data"; "/data/iso"; "/etc"]%string) p then Some p
  else if bool_decide (p = bytes_of "/data/out") then Some (bytes_of "/etc") else None.

Lemma ResolveDestination_confined_witness :
  let resolve req := ResolveDestination None link_tree [bytes_of "/data"] (bytes_of req) in
  resolve "/data/out/x"%string = None /\ resolve "/data/../etc"%string = None /\
  resolve "relative"%string = None /\
  exists vs rs k, bytes_of "/data/iso/new/dir" = render vs /\ vs = rs ++ k /\ Forall element vs.
Proof.
  split; [by vm_compute|]. split; [by vm_compute|]. split; [by vm_compute|].
  destruct (ResolveDestination_confined None link_tree) with (roots := [bytes_of "/data"])
    (requested := bytes_of "/data/./iso/new/dir/") (root := bytes_of "/data")
    (resolved := bytes_of "/data/iso/new/dir")
    as (abs & ws & vs & configured & cs & rs & k & _ & _ & _ & Hv & _ & _ & _ & _ & Hk & He).
  - split; [|done]. intros p q _. unfold link_tree.
    destruct (contains _ p) eqn:Hc; [intros [= <-]|].
    + apply contains_spec in Hc.
      rewrite !fmap_cons, !elem_of_cons in Hc.
      destruct Hc as [->|[->|[->|[->|[]%not_elem_of_nil]]]];
        [exists []|exists [bytes_of "data"]|exists [bytes_of "data"; bytes_of "iso"]|exists [bytes_of "etc"]];
        (split; [|done]); apply (bool_decide_unpack _); by vm_compute.
    + destruct (bool_decide _); [|done]. intros [= <-]. exists [bytes_of "etc"].
      split; [|done]. apply (bool_decide_unpack _); by vm_compute.
  - done.
  - apply (bool_decide_unpack _); by vm_compute.
  - by vm_compute.
  - by exists vs, rs, k.
Defined.

(** ** [MkdirBeneath] *)

(** The loop of [filepath.Rel]: the rests of base and target from the first
    element that differs, and the base's element there. *)
Fixpoint rel_loop (fuel : nat) (b t : list Z) : list Z * list Z * list Z :=
  match fuel with
  | O => (b, [], t)
  | S fuel =>
    if bool_decide (b = []) || bool_decide (t = []) then (b, [], t)
    else
      let bw := before slash b in
      let tw := before slash t in
      if bool_decide (bw = tw) then rel_loop fuel (drop (S (length bw)) b) (drop (S (length tw)) t)
      else (b, bw, t)
  end.

(** [filepath.Rel]; [None] is its error. *)
Definition Rel (basepath targpath : list Z) : option (list Z) :=
  let base := Clean basepath in
  let targ := Clean targpath in
  if bool_decide (targ = base) then Some [46]
  else
    let base := if bool_decide (base = [46]) then [] else base in
    if negb (Bool.eqb (IsAbs base) (IsAbs targ)) then None
    else
      let '(b, bw, t) := rel_loop (S (length base)) base targ in
      if bool_decide (bw = dotdot) then None
      else if bool_decide (b = []) then Some t
      else
        let ups := dotdot ++ concat (replicate (length (split slash b) - 1) (slash :: dotdot)) in
        Some (if bool_decide (t = []) then ups else ups ++ slash :: t).

Section Mkdir.
Context `{!Kernel}.

(** The loop of [openBeneathDirWalk]: the descriptor reached, or the error. *)
Fixpoint open_loop (t : nat) (cur : fd) (owns : bool) (parts : list (list Z)) :
    (list ferr + fd) * nat :=
  let fail err t := (inl (err ++ if owns then errs_of (Close t cur) else []), S t) in
  match parts with
  | [] => (inr cur, t)
  | part :: rest =>
    if bool_decide (part = []) then open_loop t cur owns rest
    else if bool_decide (part = dotdot) then fail [ErrPathRejected] t
    else
      match Fstatat t cur part with
      | inl e => fail [Errno e] (S t)
      | inr S_IFLNK => fail [ErrPathRejected] (S t)
      | inr _ =>
        match Openat (S t) cur part with
        | inl ELOOP => fail [ErrPathRejected] (S (S t))
        | inl e => fail [Errno e] (S (S t))
        | inr next =>
          if owns then
            match Close (S (S t)) cur with
            | Some e => (inl (Errno e :: errs_of (Close (S (S (S t))) next)), S (S (S (S t))))
            | None => open_loop (S (S (S t))) next true rest
            end
          else open_loop (S (S t)) next true rest
        end
      end
  end.

(** [openBeneathDirWalk]. *)
Definition openBeneathDirWalk (t : nat) (rootFD : fd) (rel : list Z) : (list ferr + fd) * nat :=
  open_loop t rootFD false (split slash (if bool_decide (rel = []) then [46] else rel)).

(** The retries of [openBeneathDir]. *)
Fixpoint openat2_retry (tries : nat) (t : nat) (rootFD : fd) (rel : list Z) : (errno + fd) * nat :=
  match tries with
  | O => (inl EAGAIN, t)
  | S tries =>
    match Openat2Dir t rootFD rel with
    | inl EAGAIN => openat2_retry tries (S t) rootFD rel
    | r => (r, S t)
    end
  end.

(** [openBeneathDir]. *)
Definition openBeneathDir (t : nat) (rootFD : fd) (rel : list Z) : (list ferr + fd) * nat :=
  let '(r, t) := openat2_retry 10 t rootFD rel in
  match r with
  | inr fd => (inr fd, t)
  | inl EAGAIN | inl ELOOP | inl EXDEV => (inl [ErrPathRejected], t)
  | inl ENOSYS | inl EINVAL => openBeneathDirWalk t rootFD rel
  | inl e => (inl [Errno e], t)
  end.

(** [MkdirBeneath]: its error, and the create it asked the kernel for. *)
Definition MkdirBeneath (t : nat) (root dir leaf : list Z) : list ferr * option (fd * list Z) :=
  match Rel root dir with
  | None => ([ErrPathRejected], None)
  | Some rel =>
    if bool_decide (rel = dotdot) || HasPrefix rel (dotdot ++ [slash]) || IsAbs rel
    then ([ErrPathRejected], None)
    else if contains dot_names leaf || contains leaf slash || contains leaf 0
    then ([ErrPathRejected], None)
    else
      match OpenRoot t root with
      | inl e => ([Errno e], None)
      | inr rootFD =>
        match openBeneathDir (S t) rootFD rel with
        | (inl err, t) => (err ++ errs_of (Close t rootFD), None)
        | (inr dirFD, t) =>
          (errs_of (Mkdirat t dirFD leaf) ++ errs_of (Close (S t) dirFD) ++ errs_of (Close (S (S t)) rootFD),
           Some (dirFD, leaf))
        end
      end
  end.

(** *** The relative form of a pair the resolver made *)

Lemma before_join w ws : Forall element (w :: ws) -> before slash (join slash (w :: ws)) = w.
Proof.
  intros [Hw _]%list.Forall_cons. assert (Hb : forall k, slash ∉ w -> before slash (w ++ slash :: k) = w).
  { intros k. clear Hw. induction w as [|b w IH]; [done|]. cbn [before app].
    intros [Hb Hw]%not_elem_of_cons. rewrite (proj2 (Z.eqb_neq b slash)) by done. by rewrite IH. }
  destruct ws as [|w' ws]; [|rewrite join_cons; apply Hb; apply Hw].
  assert (Hn : slash ∉ w) by apply Hw. clear Hw Hb. simpl.
  induction w as [|b w IH]; simpl; [done|]. apply not_elem_of_cons in Hn as [Hb Hw].
  rewrite (proj2 (Z.eqb_neq b slash)) by done. by rewrite IH.
Qed.

Lemma drop_join w ws : drop (S (length w)) (join slash (w :: ws)) = join slash ws.
Proof.
  destruct ws as [|w' ws]; [simpl; apply drop_ge; lia|]. rewrite join_cons, cons_middle, app_assoc.
  rewrite drop_app_length'; [done|]. rewrite length_app. simpl. lia.
Qed.

Lemma join_nil ws : Forall element ws -> join slash ws = [] -> ws = [].
Proof.
  destruct 1 as [|w ws (_ & Hw & _) _]; [done|]. destruct ws; simpl; [by intros|]. by destruct w.
Qed.

Lemma rel_loop_below fuel r k : Forall element (r ++ k) -> (length r < fuel)%nat ->
  rel_loop fuel (join slash r) (join slash (r ++ k)) = ([], [], join slash k).
Proof.
  revert fuel. induction r as [|w r IH]; intros [|fuel] He Hf; simpl in Hf; try lia; [done|].
  cbn [rel_loop]. assert (Hn : forall ws, Forall element (w :: ws) -> join slash (w :: ws) <> []).
  { intros ws Hws Hj. by apply join_nil in Hj. }
  assert (He' : Forall element (w :: r)) by (apply Forall_app in He; tauto).
  rewrite bool_decide_eq_false_2 by by apply Hn. rewrite bool_decide_eq_false_2 by by apply Hn.
  cbn [orb]. rewrite before_join by done. change ((w :: r) ++ k) with (w :: (r ++ k)) in *.
  rewrite before_join by done. rewrite bool_decide_eq_true_2 by done. rewrite !drop_join.
  apply IH; [|lia]. by apply list.Forall_cons in He as [_ ?].
Qed.

Lemma Rel_below r k : Forall element (r ++ k) -> Rel (render r) (render (r ++ k)) = Some (relative k).
Proof.
  intros He. assert (Hr : Forall element r) by (apply Forall_app in He; tauto).
  assert (Hk : Forall element k) by (apply Forall_app in He; tauto).
  unfold Rel, relative. rewrite !Clean_render by done.
  destruct (bool_decide_reflect (render (r ++ k) = render r)) as [Heq|Hne].
  { apply render_inj in Heq; [|done..]. apply (f_equal length) in Heq. rewrite length_app in Heq. by destruct k; [|simpl in Heq; lia]. }
  assert (Hkn : k <> []) by (by intros ->; rewrite app_nil_r in Hne).
  rewrite (bool_decide_eq_false_2 (join slash k = [])) by (by intros ?%join_nil).
  rewrite bool_decide_eq_false_2 by done. cbn [IsAbs render]. rewrite Z.eqb_refl. cbn [Bool.eqb negb].
  cbn [rel_loop]. rewrite bool_decide_eq_false_2 by done. rewrite bool_decide_eq_false_2 by done.
  assert (Hb : forall ws, before slash (render ws) = []) by done. rewrite !Hb.
  rewrite bool_decide_eq_true_2 by done. cbn [orb length].
  change (drop 1 (render r)) with (join slash r). change (drop 1 (render (r ++ k))) with (join slash (r ++ k)).
  rewrite rel_loop_below; [done..|]. unfold render. simpl. pose proof (join_length r Hr). lia.
Qed.

Lemma open_loop_reaches t cur owns parts d t' : kernel_laws -> Forall element parts ->
  open_loop t cur owns parts = (inr d, t') -> reaches cur parts d.
Proof.
  intros laws Hp. revert t cur owns. induction Hp as [|part rest Hpart _ IH]; intros t cur owns.
  { simpl. intros [= <- _]. constructor. }
  cbn [open_loop]. rewrite bool_decide_eq_false_2 by apply Hpart.
  rewrite bool_decide_eq_false_2 by apply Hpart.
  destruct (Fstatat t cur part) as [|m] eqn:Hs; [done|].
  assert (Hgo : match Openat (S t) cur part with
    | inl ELOOP => True | inl e => True
    | inr next => forall t1 o, open_loop t1 next o rest = (inr d, t') -> reaches cur (part :: rest) d end).
  { destruct (Openat (S t) cur part) as [e|next] eqn:Ho; [by destruct e|].
    apply (open_ok laws) in Ho. intros t1 o Hl. eapply reaches_into; [done|]. by eapply IH. }
  destruct m; [done|..]; destruct (Openat (S t) cur part) as [e|next]; try (by destruct e);
    (destruct owns; [destruct (Close _ cur); [done|]|]); apply Hgo.
Qed.

Lemma openBeneathDir_reaches t rootFD k d t' : kernel_laws -> Forall element k ->
  openBeneathDir t rootFD (relative k) = (inr d, t') -> reaches rootFD k d.
Proof.
  intros laws Hk. unfold openBeneathDir.
  assert (Hretry : forall n t, match (openat2_retry n t rootFD (relative k)).1 with
    | inr x => reaches rootFD k x | inl _ => True end).
  { induction n as [|n IH]; intros t0; [done|]. cbn [openat2_retry].
    destruct (Openat2Dir t0 rootFD (relative k)) as [e|x] eqn:Ho; [destruct e; done || apply IH|].
    by eapply openat2_dir_ok. }
  assert (Hwalk : forall t, openBeneathDirWalk t rootFD (relative k) = (inr d, t') -> reaches rootFD k d).
  { intros t0. unfold openBeneathDirWalk, relative. destruct (bool_decide_reflect (join slash k = [])) as [Hj|Hj].
    - apply join_nil in Hj as ->; [|done]. simpl.
      destruct (Fstatat _ _ _) as [|m]; [done|].
      assert (Hd : forall t1 x, Openat t1 rootFD [46] = inr x -> x = rootFD).
      { intros t1 x Ho%(open_ok laws). by eapply open_dot. }
      destruct m; [done|..]; destruct (Openat (S t0) _ _) as [e|x] eqn:Ho; try (by destruct e);
        apply Hd in Ho as ->; intros [= -> _]; constructor.
    - rewrite bool_decide_eq_false_2 by done. rewrite split_join; [|by apply element_no_slash|by intros ->].
      by apply open_loop_reaches. }
  specialize (Hretry 10%nat t). destruct (openat2_retry _ _ _ _) as [[e|x] t0].
  - destruct e; try done; apply Hwalk.
  - by intros [= <- _].
Qed.

(** C12: The create lands where the resolver said.  For a pair the resolver made,
    the only directory [MkdirBeneath] ever asks the kernel to create has one
    plain component as its name and, as its parent, the directory reached from
    the opened root by descending the pair's elements through real
    directories - whatever was swapped for a symlink in between. *)
Theorem MkdirBeneath_confined t r k leaf err d l :
  kernel_laws -> Forall element (r ++ k) ->
  MkdirBeneath t (render r) (render (r ++ k)) leaf = (err, Some (d, l)) ->
  l = leaf /\ element leaf /\ 0 ∉ leaf /\
  exists rootFD, OpenRoot t (render r) = inr rootFD /\ reaches rootFD k d.
Proof.
  intros laws He. assert (Hk : Forall element k) by (apply Forall_app in He; tauto).
  unfold MkdirBeneath. rewrite Rel_below by done. destruct (_ || _ || IsAbs _); [done|].
  destruct (contains dot_names leaf) eqn:H1; [done|]. destruct (contains leaf slash) eqn:H2; [done|].
  destruct (contains leaf 0) eqn:H3; [done|]. cbn [orb]. apply contains_false in H1.
  apply contains_false in H2. apply contains_false in H3.
  destruct (OpenRoot t (render r)) as [|rootFD]; [done|].
  destruct (openBeneathDir (S t) rootFD (relative k)) as [[|dirFD] t'] eqn:Ho; [done|].
  intros [= _ <- <-]. split_and!; [done| |done|].
  - unfold dot_names in H1. rewrite !not_elem_of_cons in H1. unfold element, dotdot. naive_solver.
  - exists rootFD. split; [done|]. by eapply openBeneathDir_reaches.
Qed.
End Mkdir.

Lemma MkdirBeneath_confined_witness :
  let mkdir dir leaf := @MkdirBeneath Tree.kernel O (bytes_of "/data") (bytes_of dir) (bytes_of leaf) in
  mkdir "/data/link"%string "x"%string = ([ErrPathRejected], None) /\
  mkdir "/etc"%string "x"%string = ([ErrPathRejected], None) /\
  mkdir "/data/movies"%string "a/b"%string = ([ErrPathRejected], None) /\
  exists d, mkdir "/data/movies"%string "new"%string = ([], Some (d, bytes_of "new")) /\
    reaches (O : @fd Tree.kernel) [bytes_of "movies"] d.
Proof.
  split; [by vm_compute|]. split; [by vm_compute|]. split; [by vm_compute|].
  exists (1%nat : @fd Tree.kernel). split; [by vm_compute|].
  destruct (@MkdirBeneath_confined Tree.kernel O [bytes_of "data"] [bytes_of "movies"] (bytes_of "new")
    [] 1%nat (bytes_of "new") Tree.laws) as (_ & _ & _ & rootFD & Ho & Hr).
  - apply (bool_decide_unpack _); by vm_compute.
  - by vm_compute.
  - by injection Ho as <-.
Defined.

(** ** [dedupeName] *)

Section Dedupe.
(** [cases.Fold]. *)
Context (fold : list Z -> list Z).

(** The name's stem and its extension, as [dedupeName] cuts them. *)
Definition cut_ext (name : list Z) : list Z * list Z :=
  match last_index 46 name with
  | Some (S i) => (take (S i) name, drop (S i) name)
  | _ => (name, [])
  end.

Definition candidate (stem ext : list Z) (i : Z) : list Z :=
  stem ++ [32; 40] ++ bytes_of (pretty i) ++ [41] ++ ext.

(** The search for a free number. *)
Fixpoint free_number (fuel : nat) (stem ext : list Z) (i : Z) (taken : gmap (list Z) Z) :
    option (list Z * gmap (list Z) Z) :=
  match fuel with
  | O => None
  | S fuel =>
    let c := candidate stem ext i in
    if default 0 (taken !! fold c) =? 0 then Some (c, <[fold c := 1]> taken)
    else free_number fuel stem ext (i + 1) taken
  end.

(** [dedupeName]; [None] would be a search that never ends. *)
Definition dedupeName (name : list Z) (taken : gmap (list Z) Z) : option (list Z * gmap (list Z) Z) :=
  let key := fold name in
  let n := default 0 (taken !! key) in
  let taken := <[key := n + 1]> taken in
  if n =? 0 then Some (name, taken)
  else let '(stem, ext) := cut_ext name in
       free_number (S (size taken)) stem ext (n + 1) taken.

(** The writer's loop over the files of one download. *)
Fixpoint dedupeAll (names : list (list Z)) (taken : gmap (list Z) Z) : option (list (list Z)) :=
  match names with
  | [] => Some []
  | name :: rest => '(out, taken) ← dedupeName name taken; cons out <$> dedupeAll rest taken
  end.

(** Folding acts character by character and leaves digits, blanks and
    parentheses alone. *)
Definition fold_law : Prop := forall a i b,
  fold (a ++ [32; 40] ++ bytes_of (pretty (i : Z)) ++ [41] ++ b) =
  fold a ++ [32; 40] ++ bytes_of (pretty i) ++ [41] ++ fold b.

Hypothesis law : fold_law.

Lemma candidate_inj stem ext i j :
  fold (candidate stem ext i) = fold (candidate stem ext j) -> i = j.
Proof.
  unfold candidate. rewrite !law. intros H.
  apply app_inv_head, app_inv_head in H. rewrite !(app_assoc (bytes_of _)) in H.
  apply app_inv_tail, app_inv_tail in H. by apply bytes_inj, (inj pretty) in H.
Qed.

Lemma free_number_total fuel stem ext i taken (busy : list (list Z)) :
  NoDup busy -> (forall k, k ∈ busy -> default 0 (taken !! k) <> 0) ->
  (forall k, k ∈ busy -> exists j, j < i /\ k = fold (candidate stem ext j)) ->
  (size taken < length busy + fuel)%nat ->
  exists j, free_number fuel stem ext i taken =
      Some (candidate stem ext j, <[fold (candidate stem ext j) := 1]> taken) /\
    default 0 (taken !! fold (candidate stem ext j)) = 0.
Proof.
  revert i busy. induction fuel as [|fuel IH]; intros i busy Hnd Hb Hj Hs.
  { exfalso. assert (Hsub : (list_to_set busy : gset (list Z)) ⊆ dom taken).
    { intros k Hk%elem_of_list_to_set. apply Hb in Hk. apply elem_of_dom.
      by destruct (taken !! k). }
    apply subseteq_size in Hsub. rewrite size_list_to_set, size_dom in Hsub by done. lia. }
  cbn [free_number]. destruct (_ =? 0) eqn:Hf; [apply Z.eqb_eq in Hf; by exists i|].
  apply Z.eqb_neq in Hf. apply (IH (i + 1) (fold (candidate stem ext i) :: busy)).
  - constructor; [|done]. intros (j & Hlt & He%candidate_inj)%Hj. lia.
  - intros k [->|Hk]%elem_of_cons; [done|by apply Hb].
  - intros k [->|Hk]%elem_of_cons; [exists i; split; [lia|done]|].
    destruct (Hj k Hk) as (j & ? & ?). exists j. split; [lia|done].
  - simpl. lia.
Qed.

(** One call: it returns, the name it gives was free, and it marks that name
    and keeps every mark. *)
Lemma dedupeName_spec name taken :
  (forall k n, taken !! k = Some n -> 0 < n) ->
  exists out taken', dedupeName name taken = Some (out, taken') /\
    taken !! fold out = None /\ is_Some (taken' !! fold out) /\
    (forall k, is_Some (taken !! k) -> is_Some (taken' !! k)) /\
    (forall k n, taken' !! k = Some n -> 0 < n) /\
    (taken !! fold name = None -> out = name).
Proof.
  intros Hpos. unfold dedupeName. set (n := default 0 (taken !! fold name)).
  assert (Hn : 0 <= n).
  { unfold n. destruct (taken !! _) as [m|] eqn:Hm; [|done]. apply Hpos in Hm. simpl. lia. }
  assert (Hz : forall k, default 0 (taken !! k) = 0 -> taken !! k = None).
  { intros k. destruct (taken !! k) as [m|] eqn:Hm; [|done]. apply Hpos in Hm. simpl. lia. }
  set (taken1 := <[fold name := n + 1]> taken).
  assert (Hpos1 : forall k m, taken1 !! k = Some m -> 0 < m).
  { intros k m. unfold taken1. intros [[_ <-]|[_ ?]]%lookup_insert_Some; [lia|by eapply Hpos]. }
  assert (Hkeep : forall k, is_Some (taken !! k) -> is_Some (taken1 !! k)).
  { intros k Hk. by apply lookup_insert_is_Some'; right. }
  destruct (n =? 0) eqn:En.
  - apply Z.eqb_eq in En. exists name, taken1. split_and!; try done; [by apply Hz|].
    unfold taken1. by rewrite lookup_insert_eq.
  - apply Z.eqb_neq in En. destruct (cut_ext name) as [stem ext].
    destruct (free_number_total (S (size taken1)) stem ext (n + 1) taken1 []) as (j & -> & Hfree);
      [constructor|by intros ? ?%not_elem_of_nil..|simpl; lia|].
    set (c := candidate stem ext j) in *. eexists _, _. split; [done|].
    assert (Hc : taken !! fold c = None).
    { destruct (taken !! fold c) eqn:Hc; [|done]. destruct (Hkeep (fold c)) as [m Hm]; [by eexists|].
      rewrite Hm in Hfree. apply Hpos1 in Hm. simpl in Hfree. lia. }
    split_and!; [done|by rewrite lookup_insert_eq| | |].
    + intros k Hk%Hkeep. by apply lookup_insert_is_Some'; right.
    + intros k m [[_ <-]|[_ ?]]%lookup_insert_Some; [lia|by eapply Hpos1].
    + intros Hnone. unfold n in En. by rewrite Hnone in En.
Qed.

Lemma dedupeAll_distinct names taken :
  (forall k n, taken !! k = Some n -> 0 < n) ->
  exists outs, dedupeAll names taken = Some outs /\ NoDup (fold <$> outs) /\
    length outs = length names /\ (forall out, out ∈ outs -> taken !! fold out = None).
Proof.
  revert taken. induction names as [|name rest IH]; intros taken Hpos; simpl.
  { exists []. split_and!; [done|constructor|done|by intros ? ?%not_elem_of_nil]. }
  destruct (dedupeName_spec name taken Hpos) as (out & taken' & -> & Hfree & Hset & Hkeep & Hpos' & _).
  simpl.
  destruct (IH taken' Hpos') as (outs & -> & Hnd & Hl & Houts). simpl.
  exists (out :: outs). split_and!; [done| |simpl; by f_equal|].
  - simpl. constructor; [|done]. intros (o & He & Ho)%list_elem_of_fmap.
    apply Houts in Ho. rewrite <- He in Ho. rewrite Ho in Hset. by destruct Hset.
  - intros o [->|Ho]%elem_of_cons; [done|]. apply Houts in Ho.
    destruct (taken !! fold o) eqn:Hk; [|done]. destruct (Hkeep (fold o)) as [m Hm]; [by eexists|].
    congruence.
Qed.

(** No file of a download can overwrite another on a case-insensitive file
    system: whatever names a torrent carries, literal [ (2)] names included,
    the writer's loop ends and the names it uses differ after case folding. *)
Theorem dedupeName_collision_free names :
  exists outs, dedupeAll names ∅ = Some outs /\ length outs = length names /\ NoDup (fold <$> outs).
Proof.
  destruct (dedupeAll_distinct names ∅) as (outs & H1 & H2 & H3 & _).
  - intros k n. by rewrite lookup_empty.
  - by exists outs.
Qed.
End Dedupe.

(** A fold of the Latin capitals. *)
Definition ascii_fold (l : list Z) : list Z := (fun b => if between 65 90 b then b + 32 else b) <$> l.

Lemma pretty_digits (i : Z) : Forall (fun b => b < 65) (bytes_of (pretty i)).
Proof.
  assert (HN : forall x s, Forall (fun b => b < 65) (bytes_of s) -> Forall (fun b => b < 65) (bytes_of (pretty_N_go x s))).
  { intros x. induction (N.lt_wf_0 x) as [x _ IH]. intros s Hs.
    destruct (decide (x = 0)%N) as [->|Hx]; [by rewrite pretty_N_go_0|].
    rewrite pretty_N_go_step by lia. apply IH; [apply N.div_lt; lia|].
    unfold bytes_of. simpl. constructor; [|done].
    assert (x `mod` 10 < 10)%N as Hm by by apply N.mod_lt.
    generalize dependent (x `mod` 10)%N. intros m Hm.
    assert (Hc : (m = 0 \/ m = 1 \/ m = 2 \/ m = 3 \/ m = 4 \/ m = 5 \/ m = 6 \/ m = 7 \/
      m = 8 \/ m = 9)%N) by lia.
    by destruct Hc as [->|[->|[->|[->|[->|[->|[->|[->|[->| ->]]]]]]]]]. }
  assert (HP : forall n : N, Forall (fun b => b < 65) (bytes_of (pretty n))).
  { intros n. unfold pretty, pretty_N. case_decide; [by repeat constructor|]. apply HN. constructor. }
  destruct i; unfold pretty, pretty_Z; [by repeat constructor|apply HP|].
  unfold bytes_of. simpl. constructor; [done|apply HP].
Qed.

Lemma dedupeName_collision_free_witness :
  let names := bytes_of <$> ["Movie.mkv"; "movie.mkv"; "movie (2).mkv"; "MOVIE.MKV"]%string in
  let outs := bytes_of <$> ["Movie.mkv"; "movie (2).mkv"; "movie (2) (2).mkv"; "MOVIE (3).MKV"]%string in
  dedupeAll ascii_fold names ∅ = Some outs /\ NoDup (ascii_fold <$> outs).
Proof.
  assert (Hrun : dedupeAll ascii_fold (bytes_of <$> ["Movie.mkv"; "movie.mkv"; "movie (2).mkv"; "MOVIE.MKV"]%string) ∅ =
    Some (bytes_of <$> ["Movie.mkv"; "movie (2).mkv"; "movie (2) (2).mkv"; "MOVIE (3).MKV"]%string)) by by vm_compute.
  split; [exact Hrun|].
  destruct (dedupeName_collision_free ascii_fold) with
    (names := bytes_of <$> ["Movie.mkv"; "movie.mkv"; "movie (2).mkv"; "MOVIE.MKV"]%string)
    as (outs & Ho & _ & Hnd).
  - intros a i b. unfold ascii_fold. rewrite !fmap_app. f_equal. f_equal. f_equal.
    rewrite <- (list_fmap_id (bytes_of (pretty i))) at 2. apply list_fmap_ext. intros j x Hx.
    apply (list.Forall_lookup_1 _ _ _ _ (pretty_digits i)) in Hx. simpl.
    destruct (between 65 90 x) eqn:Hb; [|done]. unfold between in Hb. lia.
  - rewrite Hrun in Ho. by injection Ho as <-.
Defined.
