(* ===== verification/Ssrf.v ===== *)
(** * The outbound guard ([internal/secure/ssrf.go], [preflight.go])

    Every fetch dl-tool makes itself goes through one client whose dialer asks
    [Guard.Check] about each resolved address, and whose redirects pass
    [Guard.CheckRedirect]; a URI handed to an engine passes [PreflightURI].
    Addresses are numbers, prefixes are compared on their leading bits.  DNS,
    the remote servers and URL parsing are parameters. *)

From S2P Require Import Prelude GoStrings SafePath.

Open Scope Z_scope.

(** ** Addresses and prefixes *)

(** [netip.Addr]: the zero value, an IPv4 or an IPv6 address with its zone. *)
Inductive Addr := AddrZero | Addr4 (x : Z) | Addr6 (x : Z) (zone : string).
#[global] Instance addr_eq_dec : EqDecision Addr.
Proof. solve_decision. Defined.

(** [netip.Prefix]: base address and length. *)
Inductive Prefix := Prefix4 (x : Z) (bits : Z) | Prefix6 (x : Z) (bits : Z).
#[global] Instance prefix_eq_dec : EqDecision Prefix.
Proof. solve_decision. Defined.

(** [Addr.Is4In6] and [Addr.Unmap]. *)
Definition Is4In6 (a : Addr) : bool :=
  match a with Addr6 x _ => Z.shiftr x 32 =? 65535 | _ => false end.
Definition Unmap (a : Addr) : Addr :=
  match a with Addr6 x _ => if Is4In6 a then Addr4 (Z.land x (2 ^ 32 - 1)) else a | _ => a end.
Definition Is4 (a : Addr) : bool := match a with Addr4 _ => true | _ => false end.
Definition Is6 (p : Prefix) : bool := match p with Prefix6 _ _ => true | _ => false end.

(** [Prefix.Contains]: the leading bits agree; families never mix and an
    address with a zone matches nothing. *)
Definition Contains (p : Prefix) (a : Addr) : bool :=
  match p, a with
  | Prefix4 b bits, Addr4 x => Z.shiftr (Z.lxor x b) (32 - bits) =? 0
  | Prefix6 b bits, Addr6 x EmptyString => Z.shiftr (Z.lxor x b) (128 - bits) =? 0
  | _, _ => false
  end.

(** ** The tables *)

Definition ip4 (a b c d : Z) : Z := a * 2 ^ 24 + b * 2 ^ 16 + c * 2 ^ 8 + d.
(** The leading three groups of an IPv6 address. *)
Definition ip6 (g1 g2 g3 : Z) : Z := g1 * 2 ^ 112 + g2 * 2 ^ 96 + g3 * 2 ^ 80.

(** [denied4]. *)
Definition denied4 : list Prefix :=
  [Prefix4 (ip4 0 0 0 0) 8; Prefix4 (ip4 10 0 0 0) 8; Prefix4 (ip4 100 64 0 0) 10;
   Prefix4 (ip4 127 0 0 0) 8; Prefix4 (ip4 169 254 0 0) 16; Prefix4 (ip4 172 16 0 0) 12;
   Prefix4 (ip4 192 0 0 0) 24; Prefix4 (ip4 192 0 2 0) 24; Prefix4 (ip4 192 31 196 0) 24;
   Prefix4 (ip4 192 52 193 0) 24; Prefix4 (ip4 192 88 99 0) 24; Prefix4 (ip4 192 168 0 0) 16;
   Prefix4 (ip4 192 175 48 0) 24; Prefix4 (ip4 198 18 0 0) 15; Prefix4 (ip4 198 51 100 0) 24;
   Prefix4 (ip4 203 0 113 0) 24; Prefix4 (ip4 224 0 0 0) 4; Prefix4 (ip4 240 0 0 0) 4].

(** [allowed6] and [denied6]. *)
Definition allowed6 : list Prefix := [Prefix6 (ip6 8192 0 0) 3].
Definition denied6 : list Prefix :=
  [Prefix6 (ip6 8193 0 0) 23; Prefix6 (ip6 8193 3512 0) 32; Prefix6 (ip6 8194 0 0) 16;
   Prefix6 (ip6 9760 79 32768) 48; Prefix6 (ip6 16383 0 0) 20].

(** [privateLift]. *)
Definition privateLift : list Prefix :=
  [Prefix4 (ip4 10 0 0 0) 8; Prefix4 (ip4 172 16 0 0) 12; Prefix4 (ip4 192 168 0 0) 16;
   Prefix4 (ip4 127 0 0 0) 8; Prefix6 (ip6 64512 0 0) 7; Prefix6 1 128].

(** ** The guard *)

(** [Guard]; [None] is a guard [NewGuard] never built. *)
Record tables := {
  g_denied4 : list Prefix;
  g_denied6 : list Prefix;
  g_allowed6 : list Prefix;
  g_allowPrivate : bool;
  g_originPort : string;
  g_originAddrs : list Addr;
}.
Definition Guard : Type := option tables.

(** The reasons of [BlockedError]. *)
Inductive blocked := by_network | by_port | by_scheme | by_address | by_resolve | by_redirect_cap | by_guard | by_parse.
#[global] Instance blocked_eq_dec : EqDecision blocked.
Proof. solve_decision. Defined.

(** [NewGuard]. *)
Definition NewGuard (allowPrivate : bool) : Guard :=
  Some (if allowPrivate then
    {| g_denied4 := List.filter (fun p => negb (contains privateLift p)) denied4;
       g_denied6 := denied6;
       g_allowed6 := allowed6 ++ List.filter Is6 privateLift;
       g_allowPrivate := true; g_originPort := EmptyString; g_originAddrs := [] |}
  else
    {| g_denied4 := denied4; g_denied6 := denied6; g_allowed6 := allowed6;
       g_allowPrivate := false; g_originPort := EmptyString; g_originAddrs := [] |}).

(** [AllowAddr]; [None] is [nil]. *)
Definition AllowAddr (g : Guard) (ip : Addr) : option blocked :=
  let ip := if Is4In6 ip then Unmap ip else ip in
  match g with
  | None => Some by_guard
  | Some g =>
    if Is4 ip then
      if existsb (fun p => Contains p ip) (g_denied4 g) then Some by_address else None
    else if negb (existsb (fun p => Contains p ip) (g_allowed6 g)) then Some by_address
    else if existsb (fun p => Contains p ip) (g_denied6 g) then Some by_address
    else None
  end.

(** [portAllowed]. *)
Definition portAllowed (g : tables) (port : string) (ip : Addr) : bool :=
  contains ["80"; "443"]%string port
  || negb (bool_decide (g_originPort g = EmptyString) || negb (bool_decide (port = g_originPort g)))
     && contains (g_originAddrs g) ip.

(** What [SplitHostPort] and [ParseAddr] make of the dialer's address. *)
Inductive dial_addr := Unsplit | NoIP (port : string) | IPPort (ip : Addr) (port : string).

(** [Check]. *)
Definition Check (g : Guard) (network : string) (addr : dial_addr) : option blocked :=
  match g with
  | None => Some by_guard
  | Some gt =>
    if negb (contains ["tcp4"; "tcp6"]%string network) then Some by_network
    else match addr with
    | Unsplit => Some by_port
    | NoIP _ => Some by_resolve
    | IPPort ip port =>
      let ip := if Is4In6 ip then Unmap ip else ip in
      if negb (portAllowed gt port ip) then Some by_port else AllowAddr g ip
    end
  end.

(** [url.URL], as far as the guard reads it. *)
Record URL := { u_Scheme : string; u_Hostname : string; u_Port : string }.

(** [CheckRedirect]: the request and how many came before it. *)
Definition redirectHopCap : nat := 5.
Definition CheckRedirect (g : Guard) (req : option URL) (via : nat) : option blocked :=
  match g with
  | None => Some by_guard
  | Some _ =>
    if (redirectHopCap <=? via)%nat then Some by_redirect_cap
    else match req with
    | Some u => if contains ["http"; "https"]%string (u_Scheme u) then None else Some by_scheme
    | None => Some by_scheme
    end
  end.

Section Lookups.
(** [LookupNetIP]: the addresses of a host, or its error. *)
Context (LookupNetIP : string -> option (list Addr)).

(** [ForOrigin]. *)
Definition ForOrigin (g : Guard) (u : option URL) : Guard :=
  match g, u with
  | Some gt, Some u =>
    if negb (g_allowPrivate gt) || bool_decide (u_Port u = EmptyString) then g
    else match LookupNetIP (u_Hostname u) with
    | Some (ip :: ips) =>
      Some {| g_denied4 := g_denied4 gt; g_denied6 := g_denied6 gt; g_allowed6 := g_allowed6 gt;
              g_allowPrivate := g_allowPrivate gt; g_originPort := u_Port u;
              g_originAddrs := Unmap <$> ip :: ips |}
    | _ => g
    end
  | _, _ => g
  end.

(** [url.Parse] and [netip.ParseAddr] of a submitted URI. *)
Context (Parse : list Z -> option URL) (ParseAddr : string -> option Addr).

(** The first loop of [PreflightURI] over a host's answers. *)
Fixpoint allow_all (g : Guard) (addrs : list Addr) : option blocked :=
  match addrs with
  | [] => None
  | ip :: addrs => match AllowAddr g ip with Some b => Some b | None => allow_all g addrs end
  end.

(** The lowercased text before the first colon. *)
Definition scheme_of `{!UnicodeTables} (raw : list Z) : option (list Z) :=
  if contains raw 58 then Some (ToLower (before 58 raw)) else None.
Definition governed : list (list Z) := bytes_of <$> ["http"; "https"; "ftp"; "ftps"; "sftp"]%string.

(** [PreflightURI]; [resolver] says whether one was wired. *)
Definition PreflightURI `{!UnicodeTables} (g : Guard) (resolver : bool) (raw : list Z) : option blocked :=
  match scheme_of raw with
  | None => None
  | Some scheme =>
    if negb (contains governed scheme) then None
    else match Parse raw with
    | None => Some by_parse
    | Some u =>
      if negb (bool_decide (is_Some g)) || negb resolver then Some by_guard
      else if contains (bytes_of <$> ["http"; "https"]%string) scheme
              && negb (contains [EmptyString; "80"; "443"]%string (u_Port u)) then Some by_port
      else match ParseAddr (u_Hostname u) with
      | Some ip => AllowAddr g ip
      | None =>
        match LookupNetIP (u_Hostname u) with
        | None | Some [] => Some by_resolve
        | Some addrs => allow_all g addrs
        end
      end
    end
  end.
End Lookups.

(** [ReadCapped]: the declared length, the body and whether the stream ends in
    an error; [LimitReader] ends the stream after [limit + 1] bytes. *)
Definition ReadCapped (declared : Z) (body : list Z) (fails : bool) (limit : Z) : option (list Z) :=
  if limit <? declared then None
  else
    let cap := Z.to_nat (wrap64 (limit + 1)) in
    let read := take cap body in
    if fails && (length body <? cap)%nat then None
    else if limit <? Z.of_nat (length read) then None
    else Some read.

(** ** The client of [NewClient]

    [net/http] dials an address of the request's host that the dialer hook
    lets pass and that answers, follows a redirect the hook lets pass, and
    reports every earlier request to it in [via]. *)

Inductive reply := Answer (body : list Z) | Redirect (u : option URL).
Inductive outcome := Fetched (body : list Z) | Refused (b : blocked) | Unreachable.

Section Client.
(** The dialled addresses of a host, who listens, and what they reply to the
    request that follows [via] others. *)
Context (addresses : URL -> list Addr) (listens : Addr -> bool) (replies : URL -> Addr -> nat -> reply).

Definition network_of (a : Addr) : string := if Is4 (Unmap a) then "tcp4"%string else "tcp6"%string.
(** The port the transport dials for a URL. *)
Definition port_of (u : URL) : string :=
  if bool_decide (u_Port u = EmptyString)
  then if bool_decide (u_Scheme u = "https"%string) then "443"%string else "80"%string
  else u_Port u.
Definition dialled (g : Guard) (u : URL) : option Addr :=
  find (fun a => bool_decide (Check g (network_of a) (IPPort a (port_of u)) = None) && listens a) (addresses u).

(** The requests made, with the peer of each, and how the fetch ends; [None]
    is out of fuel. *)
Fixpoint fetch (fuel : nat) (g : Guard) (u : URL) (via : nat) : option (list (URL * Addr) * outcome) :=
  match fuel with
  | O => None
  | S fuel =>
    match dialled g u with
    | None => Some ([], Unreachable)
    | Some a =>
      match replies u a via with
      | Answer body => Some ([(u, a)], Fetched body)
      | Redirect next =>
        match CheckRedirect g next (S via), next with
        | Some b, _ => Some ([(u, a)], Refused b)
        | None, None => Some ([(u, a)], Refused by_scheme)
        | None, Some next =>
          match fetch fuel g next (S via) with
          | None => None
          | Some (peers, o) => Some ((u, a) :: peers, o)
          end
        end
      end
    end
  end.
End Client.

(** ** What the tables promise, as ranges of addresses *)

Definition within_range (x : Z) (r : Z * Z) : bool := (fst r <=? x) && (x <=? snd r).

(** The IPv4 ranges closed under every setting, and those the switch opens. *)
Definition closed4 : list (Z * Z) :=
  [(ip4 0 0 0 0, ip4 0 255 255 255); (ip4 100 64 0 0, ip4 100 127 255 255);
   (ip4 169 254 0 0, ip4 169 254 255 255); (ip4 192 0 0 0, ip4 192 0 0 255);
   (ip4 192 0 2 0, ip4 192 0 2 255); (ip4 192 31 196 0, ip4 192 31 196 255);
   (ip4 192 52 193 0, ip4 192 52 193 255); (ip4 192 88 99 0, ip4 192 88 99 255);
   (ip4 192 175 48 0, ip4 192 175 48 255); (ip4 198 18 0 0, ip4 198 19 255 255);
   (ip4 198 51 100 0, ip4 198 51 100 255); (ip4 203 0 113 0, ip4 203 0 113 255);
   (ip4 224 0 0 0, ip4 239 255 255 255); (ip4 240 0 0 0, ip4 255 255 255 255)].
Definition private4 : list (Z * Z) :=
  [(ip4 10 0 0 0, ip4 10 255 255 255); (ip4 127 0 0 0, ip4 127 255 255 255);
   (ip4 172 16 0 0, ip4 172 31 255 255); (ip4 192 168 0 0, ip4 192 168 255 255)].
(** The last address that starts with the three groups. *)
Definition ip6_end (g1 g2 g3 : Z) : Z := ip6 g1 g2 g3 + 2 ^ 80 - 1.
Definition closed6 : list (Z * Z) :=
  [(ip6 8193 0 0, ip6_end 8193 511 65535); (ip6 8193 3512 0, ip6_end 8193 3512 65535);
   (ip6 8194 0 0, ip6_end 8194 65535 65535); (ip6 9760 79 32768, ip6_end 9760 79 32768);
   (ip6 16383 0 0, ip6_end 16383 4095 65535)].
Definition global6 : Z * Z := (ip6 8192 0 0, ip6_end 16383 65535 65535).
Definition private6 : list (Z * Z) := [(1, 1); (ip6 64512 0 0, ip6_end 65023 65535 65535)].

Definition public4 (allowPrivate : bool) (x : Z) : bool :=
  negb (existsb (within_range x) closed4) && (allowPrivate || negb (existsb (within_range x) private4)).
Definition public6 (allowPrivate : bool) (x : Z) : bool :=
  within_range x global6 && negb (existsb (within_range x) closed6)
  || allowPrivate && existsb (within_range x) private6.

(** The addresses a guard may let through: an IPv4-mapped one counts as the
    IPv4 address it carries, an IPv6 one with a zone never passes. *)
Definition public (allowPrivate : bool) (a : Addr) : bool :=
  match Unmap a with
  | AddrZero => false
  | Addr4 x => public4 allowPrivate x
  | Addr6 x zone => bool_decide (zone = EmptyString) && public6 allowPrivate x
  end.

(** ** Prefixes as ranges *)

Lemma contains_range x b k : 0 <= k -> b mod 2 ^ k = 0 ->
  (Z.shiftr (Z.lxor x b) k =? 0) = within_range x (b, b + 2 ^ k - 1).
Proof.
  intros Hk Hb. unfold within_range. simpl. apply Bool.eq_iff_eq_true.
  rewrite andb_true_iff, !Z.leb_le, Z.eqb_eq, Z.shiftr_lxor, Z.lxor_eq_0_iff, !Z.shiftr_div_pow2 by done.
  pose proof (Z.pow_pos_nonneg 2 k ltac:(lia) Hk). pose proof (Z.div_mod b (2 ^ k) ltac:(lia)).
  pose proof (Z.div_mod x (2 ^ k) ltac:(lia)). pose proof (Z.mod_pos_bound x (2 ^ k) ltac:(lia)). split.
  - intros He. rewrite He in *. nia.
  - intros Hx. assert (x / 2 ^ k = b / 2 ^ k) as ->; [|done].
    apply Z.le_antisymm; [apply Z.lt_succ_r, Z.div_lt_upper_bound; nia|apply Z.div_le_mono; lia].
Qed.

(** The range of a prefix. *)
Definition prefix_range (p : Prefix) : Z * Z :=
  match p with
  | Prefix4 b bits => (b, b + 2 ^ (32 - bits) - 1)
  | Prefix6 b bits => (b, b + 2 ^ (128 - bits) - 1)
  end.
(** Prefixes of one family, with no bits beyond their length. *)
Definition masked4 (p : Prefix) : bool :=
  match p with Prefix4 b bits => (bits <=? 32) && (b mod 2 ^ (32 - bits) =? 0) | _ => false end.
Definition masked6 (p : Prefix) : bool :=
  match p with Prefix6 b bits => (bits <=? 128) && (b mod 2 ^ (128 - bits) =? 0) | _ => false end.

Lemma existsb_contains4 ps x : forallb masked4 ps = true ->
  existsb (fun p => Contains p (Addr4 x)) ps = existsb (within_range x) (prefix_range <$> ps).
Proof.
  induction ps as [|p ps IH]; [done|]. cbn [forallb existsb fmap list_fmap].
  intros [Hp Hps]%andb_prop. rewrite (IH Hps). f_equal. destruct p as [b bits|]; [|done].
  apply andb_prop in Hp as [H1 H2]. apply contains_range; lia.
Qed.

Lemma existsb_contains6 ps x : forallb masked6 ps = true ->
  existsb (fun p => Contains p (Addr6 x EmptyString)) ps = existsb (within_range x) (prefix_range <$> ps).
Proof.
  induction ps as [|p ps IH]; [done|]. cbn [forallb existsb fmap list_fmap].
  intros [Hp Hps]%andb_prop. rewrite (IH Hps). f_equal. destruct p as [|b bits]; [done|].
  apply andb_prop in Hp as [H1 H2]. apply contains_range; lia.
Qed.

Lemma existsb_same {A} `{EqDecision A} (f : A -> bool) l l' :
  forallb (contains l') l && forallb (contains l) l' = true -> existsb f l = existsb f l'.
Proof.
  rewrite andb_true_iff, !forallb_forall. intros [H1 H2]. apply Bool.eq_iff_eq_true. rewrite !existsb_exists.
  split; intros (y & Hy & Hf); exists y; (split; [|done]); apply list_elem_of_In, contains_spec; auto.
Qed.

(** The tables of a built guard, as ranges. *)
Lemma denied4_ranges x (allowPrivate : bool) :
  existsb (fun p => Contains p (Addr4 x))
    (if allowPrivate then List.filter (fun p => negb (contains privateLift p)) denied4 else denied4)
  = negb (public4 allowPrivate x).
Proof.
  rewrite existsb_contains4 by (destruct allowPrivate; by vm_compute).
  unfold public4. rewrite negb_andb, negb_involutive, negb_orb, negb_involutive. destruct allowPrivate; cbn [negb andb].
  - rewrite orb_false_r. apply existsb_same. by vm_compute.
  - rewrite <- existsb_app. apply existsb_same. by vm_compute.
Qed.

Lemma existsb_false {A} (f : A -> bool) l : (forall x, In x l -> f x = false) -> existsb f l = false.
Proof. induction l as [|y l IH]; [done|]. intros H. simpl. rewrite (H y), IH; naive_solver. Qed.

Definition apart (r r' : Z * Z) : bool := (snd r <? fst r') || (snd r' <? fst r).
Lemma disjoint6 : forallb (fun r => forallb (apart r) closed6) private6 = true.
Proof. by vm_compute. Qed.

Lemma tables6_ranges x (allowPrivate : bool) :
  existsb (fun p => Contains p (Addr6 x EmptyString))
    (if allowPrivate then allowed6 ++ List.filter Is6 privateLift else allowed6)
  && negb (existsb (fun p => Contains p (Addr6 x EmptyString)) denied6)
  = public6 allowPrivate x.
Proof.
  rewrite !existsb_contains6 by (destruct allowPrivate; by vm_compute).
  unfold public6. rewrite (existsb_same _ (prefix_range <$> denied6) closed6) by (by vm_compute).
  set (c := existsb (within_range x) closed6).
  assert (existsb (within_range x) private6 = true -> c = false) as Hdis.
  { intros (r & Hr & H1)%existsb_exists. apply existsb_false. intros r' Hr'.
    pose proof disjoint6 as Hd. rewrite forallb_forall in Hd. specialize (Hd _ Hr).
    rewrite forallb_forall in Hd. specialize (Hd _ Hr'). unfold apart, within_range in *. lia. }
  destruct allowPrivate; cbn [andb].
  - rewrite (existsb_same _ _ (global6 :: private6)) by (by vm_compute). cbn [existsb].
    clearbody c. destruct (existsb (within_range x) private6); [rewrite Hdis by done|]; by destruct (within_range x global6), c.
  - rewrite (existsb_same _ _ [global6]) by (by vm_compute). cbn [existsb]. by rewrite !orb_false_r.
Qed.

Lemma unmap_unmap a : (if Is4In6 a then Unmap a else a) = Unmap a.
Proof. unfold Unmap. destruct (Is4In6 a) eqn:Hi; [done|]. by destruct a. Qed.

Lemma zoned ps x z : z <> EmptyString -> existsb (fun p => Contains p (Addr6 x z)) ps = false.
Proof. intros Hz. induction ps as [|[] ps IH]; cbn [existsb]; rewrite ?IH; try done. by destruct z. Qed.

Lemma zero_address ps : existsb (fun p => Contains p AddrZero) ps = false.
Proof. by induction ps as [|[] ps IH]. Qed.

Lemma AllowAddr_public allowPrivate a :
  AllowAddr (NewGuard allowPrivate) a = if public allowPrivate a then None else Some by_address.
Proof.
  unfold AllowAddr, public. rewrite unmap_unmap.
  unfold NewGuard.
  destruct (Unmap a) as [|x|x z] eqn:Hu; cbn [Is4].
  - destruct allowPrivate; cbn [g_allowed6]; by rewrite zero_address.
  - pose proof (denied4_ranges x allowPrivate) as Hd.
    destruct allowPrivate; cbn [g_denied4]; rewrite Hd; by destruct (public4 _ _).
  - destruct (decide (z = EmptyString)) as [->|Hz].
    + rewrite bool_decide_eq_true_2 by done. pose proof (tables6_ranges x allowPrivate) as Ht.
      cbn [andb]. rewrite <- Ht.
      destruct allowPrivate; cbn [g_allowed6 g_denied6]; by do 2 destruct (existsb _ _).
    + rewrite bool_decide_eq_false_2 by done. destruct allowPrivate; cbn [g_allowed6]; by rewrite zoned.
Qed.

(** [ForOrigin] leaves the tables alone. *)
Lemma AllowAddr_ForOrigin lookup g u a : AllowAddr (ForOrigin lookup g u) a = AllowAddr g a.
Proof. destruct g as [g|], u as [u|]; try done. unfold ForOrigin. by repeat case_match. Qed.

Lemma unmap_twice a : Unmap (Unmap a) = Unmap a.
Proof. unfold Unmap at 2 3. destruct a as [|x|x z]; try done. destruct (Is4In6 _) eqn:Hi; [done|]. unfold Unmap. by rewrite Hi. Qed.

(** ** Theorems *)

(** C15: a built guard lets an address through exactly when it lies outside every
    closed range: the prefix tables, the IPv4-mapped forms and zones, and the
    private-network switch decide what the plain ranges of addresses say.  A
    mapped address is judged as the IPv4 address it carries, so public ones
    pass ([mapped_public_passes]). *)
Theorem AllowAddr_exact : forall allowPrivate a,
  AllowAddr (NewGuard allowPrivate) a = if public allowPrivate a then None else Some by_address.
Proof. apply AllowAddr_public. Qed.

Section Fetches.
(** The resolver, the origin the operator configured, and the network. *)
Context (LookupNetIP : string -> option (list Addr)) (origin : URL).
Context (addresses : URL -> list Addr) (listens : Addr -> bool) (replies : URL -> Addr -> nat -> reply).
Context (allowPrivate : bool).

(** A connection the policy permits. *)
Definition permitted (peer : URL * Addr) : Prop :=
  public allowPrivate (snd peer) = true /\
  (port_of (fst peer) ∈ ["80"; "443"]%string \/
   allowPrivate = true /\ port_of (fst peer) = u_Port origin /\
   exists ips, LookupNetIP (u_Hostname origin) = Some ips /\ Unmap (snd peer) ∈ Unmap <$> ips).

(** The guard of a fetch whose configured origin is [origin]. *)
Definition guard : Guard := ForOrigin LookupNetIP (NewGuard allowPrivate) (Some origin).

Lemma portAllowed_permitted g port a : guard = Some g -> portAllowed g port a = true ->
  port ∈ ["80"; "443"]%string \/
  allowPrivate = true /\ port = u_Port origin /\
  exists ips, LookupNetIP (u_Hostname origin) = Some ips /\ a ∈ Unmap <$> ips.
Proof.
  unfold portAllowed. intros Hg [Hp%contains_spec|[H1 H2%contains_spec]%andb_prop]%orb_prop; [by left|].
  rewrite negb_orb, negb_involutive in H1. apply andb_prop in H1 as [H0 H1%bool_decide_eq_true].
  apply negb_true_iff, bool_decide_eq_false in H0. right. revert Hg H0 H1 H2. unfold guard, ForOrigin, NewGuard.
  destruct allowPrivate; cbn [g_allowPrivate negb orb].
  - case_bool_decide; [intros [= <-]; done|]. destruct (LookupNetIP _) as [[|ip ips]|]; intros [= <-]; try done.
    cbn [g_originPort g_originAddrs]. eauto 7.
  - intros [= <-]. done.
Qed.

Lemma dialled_permitted u a : dialled addresses listens guard u = Some a -> permitted (u, a).
Proof.
  unfold dialled. intros [_ [Hc%bool_decide_eq_true _]%andb_prop]%find_some. revert Hc. unfold Check.
  destruct guard as [g|] eqn:Hg; [|done]. case_match; [done|]. rewrite unmap_unmap.
  destruct (portAllowed g _ _) eqn:Hport; [|done]. cbn [negb]. rewrite <- Hg. unfold guard at 1. rewrite AllowAddr_ForOrigin, AllowAddr_public.
  destruct (public allowPrivate (Unmap a)) eqn:Hpub; [|done]. intros _. split; cbn [fst snd].
  - revert Hpub. unfold public. by rewrite unmap_twice.
  - by apply (portAllowed_permitted g).
Qed.

Lemma fetch_permitted fuel u via : (via <= 4)%nat -> (5 <= fuel + via)%nat -> exists peers o,
  fetch addresses listens replies fuel guard u via = Some (peers, o) /\ (length peers + via <= 5)%nat /\
  Forall permitted peers /\ Forall (fun p => u_Scheme (fst p) ∈ ["http"; "https"]%string) (tail peers) /\
  (forall p, head peers = Some p -> fst p = u).
Proof.
  revert u via. induction fuel as [|fuel IH]; intros u via Hvia Hfuel; [lia|]. cbn [fetch].
  destruct (dialled _ _ _ u) as [a|] eqn:Hd; [|exists [], Unreachable; cbn; split_and!; eauto; try lia; done].
  apply dialled_permitted in Hd.
  assert (forall o : outcome, exists peers o', Some ([(u, a)], o) = Some (peers, o') /\ (length peers + via <= 5)%nat /\
    Forall permitted peers /\ Forall (fun p => u_Scheme (fst p) ∈ ["http"; "https"]%string) (tail peers) /\
    (forall p, head peers = Some p -> fst p = u)) as Hlast.
  { intros o. exists [(u, a)], o. cbn. split_and!; try done; [lia|by apply list.Forall_singleton|by intros ? [= <-]]. }
  destruct (replies u a via) as [body|next]; [apply Hlast|].
  destruct (CheckRedirect _ _ _) as [b|] eqn:Hc; [apply Hlast|]. destruct next as [next|]; [|apply Hlast].
  unfold CheckRedirect in Hc. destruct guard as [g|] eqn:Hg; [|done].
  destruct (Nat.leb_spec redirectHopCap (S via)) as [|Hlt]; [done|]. unfold redirectHopCap in Hlt.
  destruct (contains _ (u_Scheme next)) eqn:Hs; [|done]. apply contains_spec in Hs.
  destruct (IH next (S via)) as (peers & o & -> & Hlen & Hall & Hsch & Hhd); [lia..|].
  exists ((u, a) :: peers), o. cbn. split_and!; try done; [lia|by constructor| |by intros ? [= <-]].
  destruct peers as [|p peers]; [done|]. constructor; [|done]. by rewrite (Hhd p).
Qed.
End Fetches.

(** C14: a fetch through the guarded client ends after at most five requests
    whatever the servers reply, and every connection it opens goes to an address
    the tables permit, on port 80 or 443 or, behind the private-network switch
    only, on the configured origin's own port at one of the origin's own
    addresses; every redirect it follows is http or https. *)
Theorem fetch_guarded : forall LookupNetIP origin addresses listens replies allowPrivate u,
  exists peers o,
    fetch addresses listens replies 5 (ForOrigin LookupNetIP (NewGuard allowPrivate) (Some origin)) u 0 = Some (peers, o) /\
    (length peers <= 5)%nat /\
    Forall (permitted LookupNetIP origin allowPrivate) peers /\
    Forall (fun p => u_Scheme (fst p) ∈ ["http"; "https"]%string) (tail peers).
Proof.
  intros ? ? addresses listens replies ? u.
  destruct (fetch_permitted LookupNetIP origin addresses listens replies allowPrivate 5 u 0)
    as (peers & o & H1 & H2 & H3 & H4 & _); [lia..|].
  exists peers, o. split_and!; try done. lia.
Qed.

Definition url80 (host : string) : URL := {| u_Scheme := "http"; u_Hostname := host; u_Port := EmptyString |}.
Definition peer80 : Addr := Addr4 (ip4 93 184 216 34).
Definition endless (u : URL) (a : Addr) (via : nat) : reply := Redirect (Some u).

(** A chain of redirects stops at the fifth, which is refused: four are
    followed. *)
Example fifth_redirect_refused :
  fetch (fun _ => [peer80]) (fun _ => true) endless 5 (NewGuard false) (url80 "example.org") 0
  = Some (replicate 5 (url80 "example.org", peer80), Refused by_redirect_cap).
Proof. by vm_compute. Qed.

(** The mapped form of a public IPv4 address passes: the table of IPv6 ranges is
    never asked. *)
Example mapped_public_passes :
  AllowAddr (NewGuard false) (Addr6 (65535 * 2 ^ 32 + ip4 8 8 8 8) EmptyString) = None.
Proof. by vm_compute. Qed.

(** The literal or resolved addresses of a host all pass the tables. *)
Definition host_public (LookupNetIP : string -> option (list Addr)) (ParseAddr : string -> option Addr)
    (allowPrivate : bool) (host : string) : bool :=
  match ParseAddr host with
  | Some ip => public allowPrivate ip
  | None => match LookupNetIP host with
            | None | Some [] => false
            | Some addrs => forallb (public allowPrivate) addrs
            end
  end.

Lemma allow_all_public allowPrivate addrs :
  allow_all (NewGuard allowPrivate) addrs = None <-> forallb (public allowPrivate) addrs = true.
Proof.
  induction addrs as [|ip addrs IH]; [done|]. cbn [allow_all forallb]. rewrite AllowAddr_public.
  by destruct (public allowPrivate ip).
Qed.

Lemma host_decides LookupNetIP ParseAddr allowPrivate host (P : Prop) : P ->
  match ParseAddr host with
  | Some ip => AllowAddr (NewGuard allowPrivate) ip
  | None => match LookupNetIP host with
            | None | Some [] => Some by_resolve
            | Some addrs => allow_all (NewGuard allowPrivate) addrs
            end
  end = None <-> P /\ host_public LookupNetIP ParseAddr allowPrivate host = true.
Proof.
  intros HP. unfold host_public. destruct (ParseAddr host) as [ip|].
  - rewrite AllowAddr_public. destruct (public allowPrivate ip); naive_solver.
  - destruct (LookupNetIP host) as [[|ip addrs]|]; [naive_solver| |naive_solver].
    rewrite allow_all_public. naive_solver.
Qed.

(** the preflight lets a submitted URI through exactly when no engine would
    fetch it over a governed scheme, or it parses, its port is a web port (for
    http and https) and its literal address, or every one of the addresses its
    host resolves to, is public. *)
Theorem PreflightURI_decides `{!UnicodeTables} : forall LookupNetIP Parse ParseAddr allowPrivate raw,
  PreflightURI LookupNetIP Parse ParseAddr (NewGuard allowPrivate) true raw = None <->
  (forall scheme, scheme_of raw = Some scheme -> scheme ∈ governed ->
   exists u, Parse raw = Some u /\
     (scheme ∈ (bytes_of <$> ["http"; "https"]%string) -> u_Port u ∈ [EmptyString; "80"; "443"]%string) /\
     host_public LookupNetIP ParseAddr allowPrivate (u_Hostname u) = true).
Proof.
  intros. unfold PreflightURI. destruct (scheme_of raw) as [scheme|]; [|naive_solver].
  destruct (contains governed scheme) eqn:Hg; cbn [negb];
    [apply contains_spec in Hg|apply contains_false in Hg; naive_solver].
  destruct (Parse raw) as [u|]; [|naive_solver].
  rewrite bool_decide_eq_true_2 by (by unfold NewGuard; eauto). cbn [negb orb].
  transitivity ((scheme ∈ (bytes_of <$> ["http"; "https"]%string) -> u_Port u ∈ [EmptyString; "80"; "443"]%string) /\
     host_public LookupNetIP ParseAddr allowPrivate (u_Hostname u) = true); [|naive_solver].
  destruct (contains (bytes_of <$> _) scheme) eqn:Hh; cbn [andb];
    [apply contains_spec in Hh|apply contains_false in Hh].
  - destruct (contains _ (u_Port u)) eqn:Hp; cbn [negb]; [apply contains_spec in Hp|apply contains_false in Hp; naive_solver].
    apply host_decides. naive_solver.
  - apply host_decides. naive_solver.
Qed.

(** A body is returned whole or not at all. *)
Lemma ReadCapped_whole declared body fails limit : 0 <= limit < int64_max ->
  ReadCapped declared body fails limit =
  if (declared <=? limit) && (Z.of_nat (length body) <=? limit) && negb fails then Some body else None.
Proof.
  intros Hl. unfold ReadCapped. rewrite wrap64_id by (unfold in_int64, int64_min, int64_max in *; lia).
  destruct (Z.ltb_spec limit declared), (Z.leb_spec declared limit); try lia; [done|]. cbn [andb].
  destruct (Z.leb_spec (Z.of_nat (length body)) limit) as [Hs|Hs]; cbn [andb].
  - rewrite firstn_all2 by lia. destruct (Nat.ltb_spec (length body) (Z.to_nat (limit + 1))); [|lia].
    rewrite andb_true_r. destruct fails; [done|]. cbn [negb]. by destruct (Z.ltb_spec limit (Z.of_nat (length body))); [lia|].
  - destruct (Nat.ltb_spec (length body) (Z.to_nat (limit + 1))); [lia|]. rewrite andb_false_r.
    rewrite length_take. destruct (Z.ltb_spec limit (Z.of_nat (Z.to_nat (limit + 1) `min` length body))); [done|lia].
Qed.
