(* ===== verification/Manifest.v ===== *)
(** * The file list of a torrent ([internal/uri/metainfo.go])

    After [Bencode] has found the bytes of the info dictionary, its decoded
    form - a value of the metainfo library - becomes the manifest that is shown
    before anything is downloaded: the hashes, the files with their paths and
    the total size.  The decoder, the hash functions and the fields the library
    computes are parameters; the tree of a version-2 torrent is walked here. *)

From stdpp Require Import sorting.
From S2P Require Import Prelude GoStrings Bencode SafePath SafeJoin.

Open Scope Z_scope.

Section Segments.
Context `{!UnicodeTables}.

(** ** The segment rules of package [uri] *)

(** [truncateWithExtension]: here the extension counts towards the cap. *)
Definition truncateSegment (split_ext : list Z -> list Z * list Z) (s : list Z) : list Z :=
  if (length s <=? maxSegmentBytes)%nat then s
  else let '(stem, ext) := split_ext s in truncateRunes stem (maxSegmentBytes - length ext) ++ ext.

(** [isReservedStem] over the extension window. *)
Definition windowReserved (s : list Z) : bool := contains reservedStems (ToUpper (splitExtension s).1).

(** [sanitiseSegment]. *)
Definition sanitiseSegment (s : list Z) : list Z :=
  if bool_decide (s = []) then [95]
  else
    let s := dropFormatAndControl s in
    let s := replaceIllegal s in
    let s := ToValidUTF8 s [95] in
    finish windowReserved (truncateSegment splitExtension s).

(** ** The segment rules of package [api] *)

(** [splitSegmentExtension]: a short name is searched whole. *)
Definition splitSegmentExtension (s : list Z) : list Z * list Z :=
  let tail := if (extensionWindow <? length s)%nat then drop (length s - extensionWindow) s else s in
  match last_index 46 tail with
  | Some i => let i := (i + (length s - length tail))%nat in (take i s, drop i s)
  | None => (s, [])
  end.

(** [sanitiseSegment] of [api/submission.go]. *)
Definition subfolderSegment (s : list Z) : list Z :=
  if bool_decide (s = []) then [95]
  else
    let s := dropFormatAndControl s in
    let s := replaceIllegal s in
    let s := ToValidUTF8 s [95] in
    finish isReservedStem (truncateSegment splitSegmentExtension s).

(** *** Both are safe names *)

Lemma split_ext_app s : s = (splitSegmentExtension s).1 ++ (splitSegmentExtension s).2 /\
  (length (splitSegmentExtension s).2 <= extensionWindow)%nat.
Proof.
  unfold splitSegmentExtension. destruct (extensionWindow <? length s)%nat eqn:Hw.
  - apply Nat.ltb_lt in Hw. destruct (last_index _ _); simpl.
    + rewrite take_drop, !length_drop. split; [done|lia].
    + rewrite app_nil_r. split; [done|lia].
  - apply Nat.ltb_ge in Hw. destruct (last_index _ _); simpl.
    + rewrite take_drop, length_drop. split; [done|lia].
    + rewrite app_nil_r. split; [done|lia].
Qed.

Lemma truncateSegment_spec split_ext s :
  s = (split_ext s).1 ++ (split_ext s).2 -> (length (split_ext s).2 <= extensionWindow)%nat ->
  (length (truncateSegment split_ext s) <= maxSegmentBytes)%nat /\
  (forall b, b ∈ truncateSegment split_ext s -> b ∈ s).
Proof.
  intros Happ Hext. unfold truncateSegment. destruct (_ <=? _)%nat eqn:Hl; [apply Nat.leb_le in Hl; done|].
  destruct (split_ext s) as [stem ext]. cbn [fst snd] in *. split.
  - rewrite length_app. pose proof (truncateRunes_length stem (maxSegmentBytes - length ext)).
    unfold maxSegmentBytes, extensionWindow in *. lia.
  - intros b. rewrite Happ, !elem_of_app. intros [Hb|Hb]; [|by right]. left.
    destruct (truncateRunes_prefix stem (maxSegmentBytes - length ext)) as [q ->]. apply elem_of_app. by left.
Qed.

Lemma sanitiser_safe split_ext reserved s :
  (forall s, s = (split_ext s).1 ++ (split_ext s).2 /\ (length (split_ext s).2 <= extensionWindow)%nat) ->
  safe_name (finish reserved (truncateSegment split_ext
    (ToValidUTF8 (replaceIllegal (dropFormatAndControl s)) [95]))).
Proof.
  intros Hsplit. generalize (clean_bytes s). generalize (ToValidUTF8 (replaceIllegal (dropFormatAndControl s)) [95]).
  intros k Hk. destruct (Hsplit k) as [H1 H2].
  destruct (truncateSegment_spec split_ext k H1 H2) as [Hl Hb].
  apply finish_safe; [unfold maxSegmentBytes in Hl; lia|]. apply list.Forall_forall. intros b Hin%Hb.
  by apply Hk.
Qed.

Lemma sanitiseSegment_safe_name s : safe_name (sanitiseSegment s).
Proof.
  unfold sanitiseSegment. destruct (bool_decide _).
  - split; [done|apply list.Forall_singleton, underscore_ok|simpl; lia].
  - apply sanitiser_safe. intros k. split; [apply splitExtension_app|apply extension_length].
Qed.

Lemma subfolderSegment_safe_name s : safe_name (subfolderSegment s).
Proof.
  unfold subfolderSegment. destruct (bool_decide _).
  - split; [done|apply list.Forall_singleton, underscore_ok|simpl; lia].
  - apply sanitiser_safe. intros k. apply split_ext_app.
Qed.
End Segments.

(** ** Files of a torrent *)

(** A version-2 file tree, as the metainfo library hands it over: whether a
    node is a directory, its length as a file, its members by name. *)
Inductive FileTree := Node (IsDir : bool) (File_Length : Z) (Dir : list (list Z * FileTree)).
Definition IsDir (t : FileTree) : bool := match t with Node d _ _ => d end.
Definition File_Length (t : FileTree) : Z := match t with Node _ l _ => l end.
Definition Dir (t : FileTree) : list (list Z * FileTree) := match t with Node _ _ d => d end.

(** The fields of [metainfo.Info] the manifest reads. *)
Record Info := {
  BestName : list Z;
  Private : option bool;
  MetaVersion : Z;
  Pieces : list Z;
  Files : list (list (list Z) * Z);
  Length : Z;
  Tree : FileTree;
}.

(** [ManifestFile] and [Manifest]. *)
Record ManifestFile := { Index : Z; Path : list Z; Size : Z }.
Record Manifest := {
  m_Name : list Z;
  m_TotalSize : Z;
  m_Files : list ManifestFile;
  m_InfohashV1 : list Z;
  m_InfohashV2 : list Z;
  m_Private : option bool;
}.

Definition maxTorrentFiles : nat := 100000.
Definition MaxInt64 : Z := 2 ^ 63 - 1.

(** The byte order of [slices.Sort]. *)
Fixpoint lex_leb (a b : list Z) : bool :=
  match a, b with
  | [], _ => true
  | _ :: _, [] => false
  | x :: a, y :: b => (x <? y) || (x =? y) && lex_leb a b
  end.
Definition lex_le (a b : list Z) : Prop := lex_leb a b = true.
#[global] Instance lex_le_dec : RelDecision lex_le.
Proof. unfold lex_le. intros a b. apply _. Defined.

(** [sortedTreeKeys]: the empty key, which carries properties, sorts first. *)
Definition sortedTreeKeys (dir : list (list Z * FileTree)) : list (list Z) :=
  merge_sort lex_le (dir.*1).

(** A member of a directory. *)
Fixpoint member {A} (name : list Z) (dir : list (list Z * A)) : option A :=
  match dir with
  | [] => None
  | (n, x) :: dir => if bool_decide (n = name) then Some x else member name dir
  end.

(** One loop that collects the files of each step and stops at an error. *)
Fixpoint collect {A B} (f : A -> option (list B)) (l : list A) : option (list B) :=
  match l with
  | [] => Some []
  | x :: l => ys ← f x; zs ← collect f l; Some (ys ++ zs)
  end.

Section Build.
Context `{!UnicodeTables}.

(** [joinSanitised]; [None] is [ErrNotTorrent]. *)
Definition bad_segment (seg : list Z) : bool := contains dot_names seg || IsAbs seg.
Definition joinSanitised (segments : list (list Z)) : option (list Z) :=
  if bool_decide (segments = []) || existsb bad_segment segments then None
  else Some (join slash (sanitiseSegment <$> segments)).

(** [walkFileTree]: paths and sizes of the leaves. *)
Fixpoint walkFileTree (tree : FileTree) (prefix : list (list Z)) : option (list (list Z * Z)) :=
  match tree with
  | Node _ _ dir =>
    let walks := map (fun '(name, sub) => (name, (sub, walkFileTree sub))) dir in
    collect (fun name =>
      if bool_decide (name = []) then Some []
      else match member name walks with
      | Some (sub, walk) =>
        if negb (IsDir sub) then (fun path => [(path, File_Length sub)]) <$> joinSanitised (prefix ++ [name])
        else walk (prefix ++ [name])
      | None => Some []
      end) (sortedTreeKeys dir)
  end.

(** [manifestFileList]. *)
Definition manifestFileList (files : list (list Z * Z)) : option (list ManifestFile) :=
  if (maxTorrentFiles <? length files)%nat then None
  else Some (imap (fun i f => {| Index := Z.of_nat i; Path := f.1; Size := f.2 |}) files).

(** [v1FileList] and [v2FileTree]. *)
Definition v1FileList (info : Info) : option (list ManifestFile) :=
  files ← collect (fun fi => (fun path => [(path, fi.2)]) <$> joinSanitised fi.1) (Files info);
  manifestFileList files.
Definition v2FileTree (tree : FileTree) : option (list ManifestFile) :=
  files ← walkFileTree tree []; manifestFileList files.

(** [manifestFiles]. *)
Definition manifestFiles (info : Info) : option (list ManifestFile) :=
  if negb (bool_decide (Files info = [])) then v1FileList info
  else if MetaVersion info =? 2 then v2FileTree (Tree info)
  else path ← joinSanitised [BestName info]; manifestFileList [(path, Length info)].

(** The running total of [manifestFromInfo], with its two refusals. *)
Fixpoint totalSize (total : Z) (files : list ManifestFile) : option Z :=
  match files with
  | [] => Some total
  | f :: files =>
    if Size f <? 0 then None
    else if MaxInt64 - Size f <? total then None
    else totalSize (total + Size f) files
  end.

(** [hex.EncodeToString]. *)
Definition hex_digit (d : Z) : Z := if d <? 10 then 48 + d else 87 + d.
Definition EncodeToString (l : list Z) : list Z := l ≫= (fun b => [hex_digit (b / 16); hex_digit (b mod 16)]).

(** The hash functions of the standard library and the bencode decoder. *)
Context (sha1Sum sha256Sum : list Z -> list Z) (Unmarshal : list Z -> option Info).

(** [manifestFromInfo]. *)
Definition manifestFromInfo (infoBytes : list Z) (info : Info) : option Manifest :=
  let isV2 := MetaVersion info =? 2 in
  let v1 := EncodeToString (sha1Sum infoBytes) in
  let v2 := EncodeToString (sha256Sum infoBytes) in
  let '(h1, h2) :=
    if isV2 && negb (bool_decide (Pieces info = [])) then (v1, v2)
    else if isV2 then ([], v2) else (v1, []) in
  files ← manifestFiles info;
  total ← totalSize 0 files;
  Some {| m_Name := BestName info; m_TotalSize := total; m_Files := files;
          m_InfohashV1 := h1; m_InfohashV2 := h2; m_Private := Private info |}.

(** [InspectTorrent]. *)
Definition InspectTorrent (b : list Z) : option Manifest :=
  match infoDictBytes b with
  | Parsed infoBytes => info ← Unmarshal infoBytes; manifestFromInfo infoBytes info
  | _ => None
  end.
End Build.

(** ** The leaves of a tree, and the order they are listed in *)

Inductive leaf : FileTree -> list (list Z) -> Z -> Prop :=
| leaf_file t n sub : member n (Dir t) = Some sub -> n <> [] -> IsDir sub = false ->
    leaf t [n] (File_Length sub)
| leaf_below t n sub p l : member n (Dir t) = Some sub -> n <> [] -> IsDir sub = true -> leaf sub p l ->
    leaf t (n :: p) l.

(** The names of a directory differ: it is a Go map. *)
Inductive keyed : FileTree -> Prop :=
| keyed_node d l dir : NoDup dir.*1 -> Forall (fun e => keyed e.2) dir -> keyed (Node d l dir).

(** [p] comes before [q] at the first element in which they differ. *)
Definition path_lt (p q : list (list Z)) : Prop :=
  exists c n m p' q', p = c ++ n :: p' /\ q = c ++ m :: q' /\ lex_le n m /\ n <> m.

Lemma FileTree_rect' (P : FileTree -> Prop) :
  (forall d l dir, Forall (fun e => P e.2) dir -> P (Node d l dir)) -> forall t, P t.
Proof.
  intros H. fix IH 1. intros [d l dir]. apply H. induction dir as [|[n t] dir IHd]; constructor;
    [apply IH|apply IHd].
Qed.

#[export] Instance lex_le_total : Total lex_le.
Proof.
  unfold lex_le. intros a. induction a as [|x a IH]; intros [|y b]; simpl; try (by left); [by right|].
  destruct (IH b) as [H|H]; rewrite H; destruct (Z.ltb_spec x y), (Z.ltb_spec y x), (Z.eqb_spec x y),
    (Z.eqb_spec y x); simpl; auto; lia.
Qed.

#[export] Instance lex_le_trans : Transitive lex_le.
Proof.
  unfold lex_le. intros a. induction a as [|x a IH]; intros [|y b] [|z c]; simpl; try done.
  rewrite !orb_true_iff, !andb_true_iff, !Z.ltb_lt, !Z.eqb_eq.
  intros [?|[-> ?]] [?|[-> ?]]; [left; lia|left; lia|by left|right; split; [done|by eapply IH]].
Qed.

Lemma lex_le_antisym a b : lex_le a b -> lex_le b a -> a = b.
Proof.
  unfold lex_le. revert b. induction a as [|x a IH]; intros [|y b]; simpl; try done.
  rewrite !orb_true_iff, !andb_true_iff, !Z.ltb_lt, !Z.eqb_eq.
  intros [?|[-> ?]] [?|[? ?]]; try lia. f_equal. by apply IH.
Qed.

Lemma member_map {A B} (g : A -> B) name dir :
  member name (map (fun '(n, x) => (n, g x)) dir) = g <$> member name dir.
Proof. induction dir as [|[n x] dir IH]; simpl; [done|]. by destruct (bool_decide _). Qed.

Lemma member_in {A} name (dir : list (list Z * A)) x : member name dir = Some x -> (name, x) ∈ dir.
Proof.
  induction dir as [|[n y] dir IH]; simpl; [done|].
  destruct (bool_decide_reflect (n = name)) as [->|]; [intros [= ->]; by left|]. intros ?%IH. by right.
Qed.

Lemma member_key {A} name (dir : list (list Z * A)) : is_Some (member name dir) <-> name ∈ dir.*1.
Proof.
  induction dir as [|[n y] dir IH]; simpl; [by split; [intros [? ?]|intros ?%not_elem_of_nil]|].
  rewrite elem_of_cons. destruct (bool_decide_reflect (n = name)) as [->|]; [naive_solver|].
  rewrite IH. naive_solver.
Qed.

Section Listing.
Context `{!UnicodeTables}.

(** [fs] lists the raw paths [ls], joined. *)
Definition joined (ls : list (list (list Z) * Z)) (fs : list (list Z * Z)) : Prop :=
  Forall2 (fun l f => joinSanitised l.1 = Some f.1 /\ f.2 = l.2) ls fs.

Definition walk_post (t : FileTree) (prefix : list (list Z)) (r : option (list (list Z * Z))) : Prop :=
  match r with
  | Some fs => exists ls, joined ls fs /\
      (forall p l, (p, l) ∈ ls <-> exists q, p = prefix ++ q /\ leaf t q l) /\
      (keyed t -> StronglySorted path_lt ls.*1)
  | None => exists q l, leaf t q l /\ joinSanitised (prefix ++ q) = None
  end.

(** The same for the members of some names. *)
Definition keys_post (t : FileTree) (prefix keys : list (list Z)) (r : option (list (list Z * Z))) : Prop :=
  match r with
  | Some fs => exists ls, joined ls fs /\
      (forall p l, (p, l) ∈ ls <-> exists n q, p = prefix ++ n :: q /\ n ∈ keys /\ leaf t (n :: q) l) /\
      (keyed t -> StronglySorted lex_le keys -> NoDup keys -> StronglySorted path_lt ls.*1)
  | None => exists q l, leaf t q l /\ joinSanitised (prefix ++ q) = None
  end.

Lemma keys_collect t prefix f keys :
  (forall n, n ∈ keys -> keys_post t prefix [n] (f n)) -> keys_post t prefix keys (collect f keys).
Proof.
  induction keys as [|n keys IH]; intros Hf; simpl.
  { exists []. split_and!; [constructor| |constructor].
    intros p l. split; [by intros ?%not_elem_of_nil|]. by intros (? & ? & _ & ?%not_elem_of_nil & _). }
  pose proof (Hf n (list_elem_of_here _ _)) as Hn.
  assert (Hk : keys_post t prefix keys (collect f keys)) by (apply IH; intros; apply Hf; by right).
  destruct (f n) as [fs|]; simpl; [|done]. destruct (collect f keys) as [gs|]; simpl; [|done].
  destruct Hn as (ls & Hj & Hin & Hs). destruct Hk as (ks & Hj' & Hin' & Hs').
  exists (ls ++ ks). split_and!.
  - by apply Forall2_app.
  - intros p l. rewrite elem_of_app, Hin, Hin'. setoid_rewrite elem_of_cons.
    setoid_rewrite elem_of_nil. naive_solver.
  - intros Ht Hss Hnd. apply StronglySorted_inv in Hss as [Hss Hle].
    apply list.NoDup_cons in Hnd as [Hni Hnd]. rewrite fmap_app. apply StronglySorted_app.
    split_and!; [|by apply Hs; [|repeat constructor|apply NoDup_singleton]|by apply Hs'].
    intros p q [[? lp] [-> Hp]]%list_elem_of_fmap [[? lq] [-> Hq]]%list_elem_of_fmap. simpl.
    apply Hin in Hp as (n1 & q1 & -> & ->%list_elem_of_singleton & _).
    apply Hin' in Hq as (n2 & q2 & -> & Hn2 & _). exists prefix, n, n2, q1, q2.
    split_and!; [done..| |].
    + by apply (proj1 (list.Forall_forall _ _) Hle).
    + by intros ->.
Qed.

Lemma walkFileTree_post t prefix : walk_post t prefix (walkFileTree t prefix).
Proof.
  revert prefix. induction t as [d len dir IH] using FileTree_rect'. intros prefix. cbn [walkFileTree].
  set (t := Node d len dir). match goal with |- walk_post _ _ (collect ?f _) => set (step := f) end.
  assert (Hk : keys_post t prefix (sortedTreeKeys dir) (collect step (sortedTreeKeys dir))).
  { apply keys_collect. intros n _. unfold step.
    destruct (bool_decide_reflect (n = [])) as [->|Hn].
    { exists []. split_and!; [constructor| |constructor]. intros p l.
      split; [by intros ?%not_elem_of_nil|].
      intros (? & q & _ & ->%list_elem_of_singleton & Hl). by inversion Hl. }
    rewrite (member_map (fun s => (s, walkFileTree s))). destruct (member n dir) as [sub|] eqn:Hm; simpl.
    - pose proof (member_in _ _ _ Hm) as Hin. pose proof (proj1 (list.Forall_forall _ _) IH _ Hin) as Hsub.
      simpl in Hsub. destruct (IsDir sub) eqn:Hd; simpl.
      + specialize (Hsub (prefix ++ [n])). destruct (walkFileTree sub (prefix ++ [n])) as [fs|]; simpl in *.
        * destruct Hsub as (ls & Hj & Hls & Hs). exists ls. split_and!; [done| |].
          -- intros p l. rewrite Hls. setoid_rewrite list_elem_of_singleton. split.
             ++ intros (q & -> & Hl). exists n, q. rewrite <- app_assoc. split_and!; [done..|]. by eapply leaf_below.
             ++ intros (? & q & -> & -> & Hl). exists q. rewrite <- app_assoc. split; [done|].
                inversion Hl; simplify_eq/=; congruence.
          -- intros Ht _ _. apply Hs. inversion Ht as [? ? ? _ Hall]; subst.
             by apply (proj1 (list.Forall_forall _ _) Hall (n, sub)).
        * destruct Hsub as (q & l & Hl & Hj). exists (n :: q), l. rewrite <- app_assoc in Hj.
          split; [by eapply leaf_below|done].
      + destruct (joinSanitised (prefix ++ [n])) as [path|] eqn:Hj; simpl.
        * exists [(prefix ++ [n], File_Length sub)]. split_and!; [by repeat constructor| |by repeat constructor].
          intros p l. setoid_rewrite list_elem_of_singleton. split.
          -- intros [= -> ->]. exists n, []. split_and!; [done..|]. by eapply leaf_file.
          -- intros (? & q & -> & -> & Hl). inversion Hl; simplify_eq/=; congruence.
        * exists [n], (File_Length sub). split; [by eapply leaf_file|done].
    - exists []. split_and!; [constructor| |constructor]. intros p l.
      split; [by intros ?%not_elem_of_nil|].
      intros (? & q & _ & ->%list_elem_of_singleton & Hl). inversion Hl; simplify_eq/=; congruence. }
  destruct (collect step _) as [fs|]; [|done]. destruct Hk as (ls & Hj & Hin & Hs).
  exists ls. split_and!; [done| |].
  - intros p l. rewrite Hin. split; [naive_solver|]. intros (q & -> & Hl).
    assert (Hq : exists n q', q = n :: q' /\ is_Some (member n dir)).
    { inversion Hl; subst; eexists _, _; (split; [done|by eexists]). }
    destruct Hq as (n & q' & -> & Hn%member_key). exists n, q'. split_and!; [done| |done].
    unfold sortedTreeKeys. by rewrite merge_sort_Permutation.
  - intros Ht. apply Hs; [done|apply (StronglySorted_merge_sort _)|].
    unfold sortedTreeKeys. rewrite merge_sort_Permutation. by inversion Ht.
Qed.
End Listing.

(** ** The manifest *)

(** The entries the info dictionary declares, raw paths with sizes. *)
Definition entry (info : Info) (p : list (list Z)) (l : Z) : Prop :=
  if bool_decide (Files info = []) then
    if MetaVersion info =? 2 then leaf (Tree info) p l else p = [BestName info] /\ l = Length info
  else (p, l) ∈ Files info.

(** A listing of them: the declared order of a version-1 list, the byte order
    of the names of a version-2 tree. *)
Definition listing (info : Info) (raws : list (list (list Z) * Z)) : Prop :=
  (forall p l, (p, l) ∈ raws <-> entry info p l) /\
  (Files info <> [] -> raws = Files info) /\
  (keyed (Tree info) -> Files info = [] -> StronglySorted path_lt raws.*1).

Definition sizes_sum (raws : list (list (list Z) * Z)) : Z := foldr Z.add 0 raws.*2.

(** A relative path of safe names. *)
Definition relative_path (p : list Z) : Prop :=
  exists segs, segs <> [] /\ Forall safe_name segs /\ p = join slash segs.

Section Correct.
Context `{!UnicodeTables} (sha1Sum sha256Sum : list Z -> list Z).

Lemma collect_single {A B} (f : A -> option B) l :
  collect (fun x => (fun y => [y]) <$> f x) l = mapM f l.
Proof. induction l as [|x l IH]; simpl; [done|]. destruct (f x); simpl; [|done]. rewrite IH. by destruct (mapM f l). Qed.

(** The files before they are numbered. *)
Definition raw_files (info : Info) : option (list (list Z * Z)) :=
  if negb (bool_decide (Files info = [])) then
    collect (fun fi => (fun path => [(path, fi.2)]) <$> joinSanitised fi.1) (Files info)
  else if MetaVersion info =? 2 then walkFileTree (Tree info) []
  else path ← joinSanitised [BestName info]; Some [(path, Length info)].

Lemma manifestFiles_raw info : manifestFiles info = raw_files info ≫= manifestFileList.
Proof.
  unfold manifestFiles, raw_files. destruct (negb _); [done|]. destruct (_ =? 2); [done|].
  by destruct (joinSanitised _).
Qed.

Lemma files_collect (files : list (list (list Z) * Z)) :
  match collect (fun fi => (fun path => [(path, fi.2)]) <$> joinSanitised fi.1) files with
  | Some fs => joined files fs
  | None => exists p l, (p, l) ∈ files /\ joinSanitised p = None
  end.
Proof.
  induction files as [|[p l] files IH]; simpl; [constructor|].
  destruct (joinSanitised p) as [path|] eqn:Hj; simpl; [|exists p, l; split; [by left|done]].
  destruct (collect _ files) as [fs|]; simpl.
  - by constructor.
  - destruct IH as (p' & l' & ? & ?). exists p', l'. split; [by right|done].
Qed.

Lemma raw_files_post info :
  match raw_files info with
  | Some fs => exists raws, listing info raws /\ joined raws fs
  | None => exists p l, entry info p l /\ joinSanitised p = None
  end.
Proof.
  unfold raw_files, listing, entry. destruct (bool_decide_reflect (Files info = [])) as [He|He]; simpl.
  - destruct (MetaVersion info =? 2).
    + pose proof (walkFileTree_post (Tree info) []) as Hw. destruct (walkFileTree _ _) as [fs|]; simpl in Hw.
      * destruct Hw as (ls & Hj & Hin & Hs). exists ls. split_and!; [|by intros|by intros ? _; apply Hs|done].
        intros p l. rewrite Hin. naive_solver.
      * destruct Hw as (q & l & ? & ?). by exists q, l.
    + destruct (joinSanitised [BestName info]) as [path|] eqn:Hj; simpl; [|by eexists _, _].
      exists [([BestName info], Length info)]. split; [split_and!; [|by intros|]|by repeat constructor].
      * intros p l. rewrite list_elem_of_singleton. split; [by intros [= -> ->]|by intros [-> ->]].
      * by repeat constructor.
  - pose proof (files_collect (Files info)) as Hc. destruct (collect _ _) as [fs|].
    + exists (Files info). split; [|done]. by split_and!.
    + destruct Hc as (p & l & ? & ?). by exists p, l.
Qed.

Lemma totalSize_post files total : 0 <= total <= MaxInt64 ->
  match totalSize total files with
  | Some t => t = total + foldr Z.add 0 (Size <$> files) /\ t <= MaxInt64 /\ Forall (fun f => 0 <= Size f) files
  | None => Exists (fun f => Size f < 0) files \/ MaxInt64 < total + foldr Z.add 0 (Size <$> files)
  end.
Proof.
  revert total. induction files as [|f files IH]; intros total Ht; simpl; [split_and!; [lia|lia|constructor]|].
  change (list_fmap ManifestFile Z Size files) with (Size <$> files).
  destruct (Size f <? 0) eqn:Hn; [left; left; lia|].
  destruct (_ <? total) eqn:Ho.
  - destruct (decide (Exists (fun f => Size f < 0) files)) as [|Hne]; [by left; right|]. right.
    apply not_Exists_Forall in Hne; [|intros; apply _].
    apply Z.ltb_lt in Ho. enough (0 <= foldr Z.add 0 (Size <$> files)) by lia.
    clear - Hne. induction Hne as [|f' fs Hf _ IHn]; [simpl; lia|].
    rewrite fmap_cons. cbn [foldr]. unfold compose in Hf. lia.
  - specialize (IH (total + Size f)). destruct (totalSize _ files).
    + destruct IH as (-> & Hle & Hall); [lia|]. split_and!; [lia|lia|]. constructor; [lia|done].
    + destruct IH as [?|?]; [lia|by left; right|right; lia].
Qed.

Lemma joinSanitised_relative segs p : joinSanitised segs = Some p -> relative_path p.
Proof.
  unfold joinSanitised. destruct (bool_decide_reflect (segs = [])) as [|Hn]; [done|].
  destruct (existsb _ _); [done|]. intros [= <-]. exists (sanitiseSegment <$> segs). split_and!; [|..|done].
  - by intros ?%fmap_nil_inv.
  - apply list.Forall_fmap, list.Forall_forall. intros s _. apply sanitiseSegment_safe_name.
Qed.

Definition joined_files (raws : list (list (list Z) * Z)) (files : list ManifestFile) : Prop :=
  Forall2 (fun raw f => joinSanitised raw.1 = Some (Path f) /\ Size f = raw.2) raws files.

(** The numbered list keeps what the raw one says. *)
Lemma manifestFileList_post raws fs : joined raws fs ->
  match manifestFileList fs with
  | Some files =>
      joined_files raws files /\ sizes_sum raws = foldr Z.add 0 (Size <$> files) /\
      Forall (fun f => relative_path (Path f)) files /\
      Index <$> files = Z.of_nat <$> seq 0 (length files) /\ (length files <= maxTorrentFiles)%nat
  | None => (maxTorrentFiles < length raws)%nat
  end.
Proof.
  intros Hj. assert (Hl : length raws = length fs) by by eapply Forall2_length.
  unfold manifestFileList. rewrite <- Hl.
  destruct (maxTorrentFiles <? length raws)%nat eqn:Hcap; [by apply Nat.ltb_lt|]. apply Nat.ltb_ge in Hcap.
  set (files := imap _ fs).
  assert (Hat : forall i, files !! i = (fun f => {| Index := Z.of_nat i; Path := f.1; Size := f.2 |}) <$> fs !! i).
  { intros i. unfold files. by rewrite list_lookup_imap. }
  assert (Hlen : length files = length raws) by (unfold files; by rewrite length_imap).
  assert (Hjf : joined_files raws files).
  { apply Forall2_same_length_lookup. split; [done|]. intros i raw f Hr. rewrite Hat.
    destruct (fs !! i) as [g|] eqn:Hg; [|done]. intros [= <-]. simpl. by eapply Forall2_lookup_lr in Hj. }
  clearbody files. split; [exact Hjf|split; [|split; [|split; [|by rewrite Hlen]]]].
  - clear -Hjf. unfold sizes_sum. f_equal. induction Hjf as [|? ? ? ? [_ Hs] _ IH]; simpl; by f_equal.
  - eapply Forall2_Forall_r; [exact Hjf|]. apply list.Forall_forall. intros raw _ f [Hp _].
    by eapply joinSanitised_relative.
  - apply list_eq. intros i. rewrite !list_lookup_fmap, Hat. destruct (fs !! i) as [f|] eqn:Hf; simpl.
    + apply lookup_lt_Some in Hf. rewrite lookup_seq_lt; [done|].
      by rewrite Hlen, Hl.
    + apply lookup_ge_None in Hf. rewrite lookup_seq_ge; [done|].
      by rewrite Hlen, Hl.
Qed.

(** C21: The manifest shows the torrent as it is.  Its files are the declared
    entries - every one, in the declared order or the tree's byte order, numbered
    from zero - each under a relative path of safe names; the total is the
    exact sum and fits in 63 bits; the hashes are those of the info bytes for
    the versions the dictionary has.  A dictionary is refused only for a cause:
    a path with a bad segment, too many files, a negative size, or a total that
    overflows. *)
Theorem manifestFromInfo_faithful infoBytes info :
  match manifestFromInfo sha1Sum sha256Sum infoBytes info with
  | Some m =>
      m_Name m = BestName info /\ m_Private m = Private info /\
      (exists raws, listing info raws /\
        Forall2 (fun raw f => joinSanitised raw.1 = Some (Path f) /\ Size f = raw.2) raws (m_Files m) /\
        m_TotalSize m = sizes_sum raws) /\
      0 <= m_TotalSize m <= MaxInt64 /\
      Forall (fun f => 0 <= Size f /\ relative_path (Path f)) (m_Files m) /\
      Index <$> m_Files m = Z.of_nat <$> seq 0 (length (m_Files m)) /\
      (length (m_Files m) <= maxTorrentFiles)%nat /\
      m_InfohashV1 m = (if (MetaVersion info =? 2) && bool_decide (Pieces info = []) then []
                        else EncodeToString (sha1Sum infoBytes)) /\
      m_InfohashV2 m = (if MetaVersion info =? 2 then EncodeToString (sha256Sum infoBytes) else [])
  | None =>
      (exists p l, entry info p l /\ joinSanitised p = None) \/
      (exists raws, listing info raws /\
        ((maxTorrentFiles < length raws)%nat \/ (exists p l, (p, l) ∈ raws /\ l < 0) \/ MaxInt64 < sizes_sum raws))
  end.
Proof.
  unfold manifestFromInfo. rewrite manifestFiles_raw. pose proof (raw_files_post info) as Hraw.
  destruct (raw_files info) as [fs|]; [|destruct (_ && _); [|destruct (_ =? 2)]; by left].
  destruct Hraw as (raws & Hlist & Hj). apply manifestFileList_post in Hj. cbn [mbind option_bind].
  destruct (manifestFileList fs) as [files|]; cbn [mbind option_bind].
  2: { destruct (if _ : bool then _ else _). right. exists raws. split; [done|by left]. }
  destruct Hj as (Hjoined & Hsum & Hrel & Hidx & Hlf).
  pose proof (totalSize_post files 0) as Ht. rewrite <- Hsum in Ht. destruct (totalSize 0 files) as [total|].
  - destruct Ht as (-> & Hmax & Hneg); [by unfold MaxInt64|].
    assert (Hpos : 0 <= sizes_sum raws).
    { rewrite Hsum. clear -Hneg. induction Hneg; [done|]. rewrite fmap_cons. cbn [foldr]. lia. }
    assert (Hall : Forall (fun f => 0 <= Size f /\ relative_path (Path f)) files) by (by apply Forall_and).
    cbn [mbind option_bind].
    destruct (MetaVersion info =? 2), (bool_decide (Pieces info = [])); simpl;
      (refine (conj _ (conj _ (conj _ (conj _ (conj _ (conj _ (conj _ (conj _ _)))))))); [done|done|by exists raws|done..]).
  - destruct (if _ : bool then _ else _) as [h1 h2]. right. exists raws. split; [done|]. right.
    destruct Ht as [Hneg|Ho]; [by unfold MaxInt64|left|by right].
    apply Exists_exists in Hneg as (f & Hf & Hlt). apply list_elem_of_In, list_elem_of_lookup in Hf as [i Hf].
    destruct (Forall2_lookup_r _ _ _ _ _ Hjoined Hf) as ([p l] & Hr & _ & Hs). simpl in Hs.
    exists p, l. split; [by eapply list_elem_of_lookup_2|lia].
Qed.
End Correct.

(** ** What the two copies of the rules do differently *)

(** A reserved stem of a short name goes unnoticed by package [uri]: its
    extension window only opens beyond nine bytes. *)
Example nul_txt_kept :
  @sanitiseSegment ascii_tables (bytes_of "nul.txt") = bytes_of "nul.txt" /\
  @subfolderSegment ascii_tables (bytes_of "nul.txt") = bytes_of "_nul.txt" /\
  @SanitiseSegment ascii_tables id (bytes_of "nul.txt") = bytes_of "_nul.txt".
Proof. split_and!; by vm_compute. Qed.

(** A name of nine bytes or fewer is never found reserved through its
    extension: only the bare device names are. *)
Theorem short_names_not_reserved `{!UnicodeTables} s :
  (length s <= 9)%nat -> windowReserved s = contains reservedStems (ToUpper s).
Proof.
  intros Hs. unfold windowReserved, splitExtension, extensionWindow.
  by rewrite (proj2 (Nat.ltb_ge 9 (length s)) Hs).
Qed.

Definition demo_tree : FileTree :=
  Node true 0 [(bytes_of "b", Node true 0 [(bytes_of "y", Node false 5 []); (bytes_of "x?", Node false 7 [])]);
               (bytes_of "a", Node false 3 [])].

Example manifest_of_tree :
  (fun m => (((fun f => (Index f, string_of (Path f), Size f)) <$> m_Files m), m_TotalSize m)) <$>
    @manifestFromInfo ascii_tables id id []
      {| BestName := bytes_of "t"; Private := None; MetaVersion := 2; Pieces := []; Files := [];
         Length := 0; Tree := demo_tree |} =
  Some ([(0, "a", 3); (1, "b/x_", 7); (2, "b/y", 5)]%string, 15).
Proof. by vm_compute. Qed.
