(* ===== verification/Hash.v ===== *)
(** * Infohashes in text

    What a magnet link, a form or a daemon may call one torrent: 40 hex digits,
    32 base32 characters, 64 hex digits or the tagged multihash of 68.
    [NormaliseInfohash] ([store/tasks_infohash.go]) maps each to one spelling;
    [parseBTIH] and [parseBTMH] ([uri/magnet.go]) do the same for a link. *)

From S2P Require Import Prelude GoStrings Bencode SafePath SafeJoin Manifest.

Open Scope Z_scope.

Definition infohashV1HexChars : nat := 40.
Definition infohashV1Base32Chars : nat := 32.
Definition infohashV2HexChars : nat := 64.
Definition infohashV1Bytes : nat := 20.
Definition btmhSHA256Tag : list Z := [49; 50; 50; 48].

Definition hex_char (c : Z) : bool := between 48 57 c || between 97 102 c || between 65 70 c.

(** [isHex]. *)
Definition isHex (s : list Z) : bool := forallb hex_char (runes s).

(** [hex.DecodeString] succeeds: an even number of hex digits. *)
Definition hex_decodes (s : list Z) : bool := Nat.even (length s) && forallb hex_char s.

(** ** [encoding/base32], standard alphabet, no padding *)

(** [enc.decodeMap]. *)
Definition b32_digit (c : Z) : option Z :=
  if between 65 90 c then Some (c - 65) else if between 50 55 c then Some (c - 24) else None.

(** One quantum: eight 5-bit digits into five bytes; [enc.decode] writes the
    first bytes only when the input ends inside a quantum, and none at a
    length no encoder produces. *)
Definition q0 (a b : Z) : Z := (a * 8 + b / 4) mod 256.
Definition q1 (b c d : Z) : Z := (b * 64 mod 256) + c * 2 + d / 16.
Definition q2 (d e : Z) : Z := (d * 16 mod 256) + e / 2.
Definition q3 (e f g : Z) : Z := (e * 128 mod 256) + f * 4 + g / 8.
Definition q4 (g h : Z) : Z := (g * 32 mod 256) + h.
Fixpoint pack (ds : list Z) : list Z :=
  match ds with
  | a :: b :: c :: d :: e :: f :: g :: h :: ds =>
    q0 a b :: q1 b c d :: q2 d e :: q3 e f g :: q4 g h :: pack ds
  | [a; b; c; d; e; f; g] => [q0 a b; q1 b c d; q2 d e; q3 e f g]
  | [a; b; c; d; e] => [q0 a b; q1 b c d; q2 d e]
  | [a; b; c; d] => [q0 a b; q1 b c d]
  | [a; b] => [q0 a b]
  | _ => []
  end.

(** [DecodeString]: line breaks are dropped first. *)
Definition base32_DecodeString (s : list Z) : option (list Z) :=
  pack <$> mapM b32_digit (filter (fun c => c <> 13 /\ c <> 10) s).

Section Normalise.
Context {UT : UnicodeTables}.

(** [NormaliseInfohash]; [None] is its error. *)
Definition NormaliseInfohash (s : list Z) : option (list Z) :=
  let s := TrimSpace s in
  let n := length s in
  if (n =? 0)%nat then Some []
  else if (n =? infohashV1HexChars)%nat || (n =? infohashV2HexChars)%nat then
    if isHex s then Some (ToLower s) else None
  else if (n =? infohashV1Base32Chars)%nat then
    raw ← base32_DecodeString (ToUpper s);
    if (length raw =? infohashV1Bytes)%nat then Some (EncodeToString raw) else None
  else if (n =? length btmhSHA256Tag + infohashV2HexChars)%nat then
    if HasPrefix (ToLower s) btmhSHA256Tag then
      let digest := drop (length btmhSHA256Tag) s in
      if isHex digest then Some (ToLower digest) else None
    else None
  else None.

(** [parseBTIH]. *)
Definition parseBTIH (value : list Z) : option (list Z) :=
  if (length value =? infohashV1HexChars)%nat then
    if hex_decodes value then Some (ToLower value) else None
  else if (length value =? infohashV1Base32Chars)%nat then
    EncodeToString <$> base32_DecodeString (ToUpper value)
  else None.

(** [parseBTMH]: its argument has been lowercased. *)
Definition parseBTMH (value : list Z) : option (list Z) :=
  if negb (length value =? length btmhSHA256Tag + infohashV2HexChars)%nat
     || negb (HasPrefix value btmhSHA256Tag) then None
  else
    let digest := drop (length btmhSHA256Tag) value in
    if hex_decodes digest then Some digest else None.
End Normalise.

(** A line break inside a base32 topic is dropped by the decoder, and the
    magnet parser does not count the bytes that are left: a 32-character value
    becomes an infohash of 38 digits. *)
Example parseBTIH_short :
  length <$> @parseBTIH ascii_tables (replicate 31 65 ++ [10]) = Some 38%nat.
Proof. by vm_compute. Qed.

(** ** The canonical spelling *)

Definition lower_hex (c : Z) : bool := between 48 57 c || between 97 102 c.

(** A canonical infohash: 40 or 64 lowercase hex digits. *)
Definition canonical (h : list Z) : Prop :=
  (length h = 40%nat \/ length h = 64%nat) /\ forallb lower_hex h = true.

Lemma hex_char_high b : 128 <= b -> hex_char b = false.
Proof. unfold hex_char, between. lia. Qed.

Lemma encode_high r : valid_rune r = true -> 128 <= r ->
  exists b k, encode_rune r = b :: k /\ 128 <= b.
Proof.
  intros Hv Hr. unfold encode_rune. rewrite Hv. cbn [negb]. rewrite (proj2 (Z.ltb_ge r 128)) by done.
  repeat case_match; bool_hyps; eexists _, _; (split; [done|bytes_lia]).
Qed.

Lemma isHex_bytes s : Forall is_byte s -> isHex s = forallb hex_char s.
Proof.
  intros Hs. unfold isHex, runes. pattern s, (chunks s). apply chunks_ind; [done|..|done].
  - intros b l Hb IH. cbn [fmap list_fmap fst default forallb]. by rewrite !hex_char_high.
  - intros r l Hv IH. cbn [fmap list_fmap fst default forallb]. rewrite IH, forallb_app.
    destruct (decide (r < 128)) as [Hr|Hr].
    + rewrite encode_ascii by bytes_lia. simpl. by rewrite andb_true_r.
    + destruct (encode_high r) as (b & k & -> & Hb); [done|lia|]. simpl.
      rewrite !hex_char_high by lia. done.
Qed.

Section Canonical.
Context {UT : UnicodeTables}.

Definition ascii (l : list Z) : Prop := Forall (fun b => 0 <= b < 128) l.

Lemma runes_plain l : ascii l -> runes l = l.
Proof.
  intros Hl. unfold runes. rewrite chunks_ascii by done. induction l as [|b l IH]; [done|].
  cbn [fmap list_fmap fst default]. apply list.Forall_cons in Hl as [_ Hl]. by f_equal; apply IH.
Qed.

Definition lower_byte (b : Z) : Z := if between 65 90 b then b + 32 else b.
Definition upper_byte (b : Z) : Z := if between 97 122 b then b - 32 else b.

Lemma Map_plain f g l : ascii l -> (forall b, 0 <= b < 128 -> f b = Some (g b) /\ 0 <= g b < 128) ->
  Map f l = g <$> l.
Proof.
  intros Hl Hf. unfold Map. rewrite runes_plain by done. induction Hl as [|b l Hb _ IH]; [done|].
  destruct (Hf b Hb) as [Hfb Hg].
  assert (omap f (b :: l) = g b :: omap f l) as -> by (simpl; by rewrite Hfb).
  rewrite !fmap_cons, encode_ascii by done. simpl. by rewrite IH.
Qed.

Lemma ToLower_ascii l : ascii l -> ToLower l = lower_byte <$> l.
Proof.
  intros Hl. apply Map_plain; [done|]. intros b Hb. unfold rune_lower, lower_byte.
  rewrite (proj2 (Z.ltb_lt b 128)) by lia. split; [done|]. unfold between. destruct (_ && _) eqn:E; lia.
Qed.

Lemma ToUpper_ascii l : ascii l -> ToUpper l = upper_byte <$> l.
Proof.
  intros Hl. apply Map_plain; [done|]. intros b Hb. unfold rune_upper, upper_byte.
  rewrite (proj2 (Z.ltb_lt b 128)) by lia. split; [done|]. unfold between. destruct (_ && _) eqn:E; lia.
Qed.

Lemma hex_ascii l : forallb hex_char l = true -> ascii l.
Proof.
  intros H. apply list.Forall_forall. intros b Hb%list_elem_of_In.
  eapply forallb_forall in H; [|done]. unfold hex_char, between in H. lia.
Qed.

Lemma lower_hex_hex l : forallb hex_char l = true -> forallb lower_hex (ToLower l) = true.
Proof.
  intros H. rewrite ToLower_ascii by by apply hex_ascii. rewrite forallb_forall in *.
  intros b Hb%list_elem_of_In. apply list_elem_of_fmap in Hb as (c & -> & Hc%list_elem_of_In%H).
  unfold hex_char, lower_hex, lower_byte, between in *.
  destruct ((65 <=? c) && (c <=? 90)) eqn:E; lia.
Qed.

Lemma ToLower_length l : ascii l -> length (ToLower l) = length l.
Proof. intros Hl. by rewrite ToLower_ascii, length_fmap. Qed.

Lemma lower_hex_id l : forallb lower_hex l = true -> ToLower l = l.
Proof.
  intros H. assert (Hh : forall b, b ∈ l -> lower_hex b = true).
  { intros b Hb%list_elem_of_In. by eapply forallb_forall in H. }
  rewrite ToLower_ascii.
  - rewrite <- (list_fmap_id l) at 2. apply list_fmap_ext. intros i b Hb%list_elem_of_lookup_2%Hh.
    unfold lower_hex, lower_byte, between in *. change (id b) with b.
    destruct ((65 <=? b) && (b <=? 90)) eqn:E; lia.
  - apply list.Forall_forall. intros b Hb%Hh. unfold lower_hex, between in Hb. lia.
Qed.

Lemma EncodeToString_cons b l :
  EncodeToString (b :: l) = hex_digit (b / 16) :: hex_digit (b mod 16) :: EncodeToString l.
Proof. done. Qed.

Lemma EncodeToString_length l : length (EncodeToString l) = (2 * length l)%nat.
Proof. induction l as [|b l IH]; [done|]. rewrite EncodeToString_cons. simpl. lia. Qed.

Lemma EncodeToString_hex l : Forall is_byte l -> forallb lower_hex (EncodeToString l) = true.
Proof.
  assert (Hd : forall d, 0 <= d < 16 -> lower_hex (hex_digit d) = true).
  { intros d Hd. unfold lower_hex, hex_digit, between. destruct (d <? 10) eqn:E; lia. }
  induction 1 as [|b l Hb _ IH]; [done|]. rewrite EncodeToString_cons. cbn [forallb]. unfold is_byte in Hb.
  rewrite !Hd by (Z.div_mod_to_equations; lia). done.
Qed.

Definition digit5 (d : Z) : Prop := 0 <= d < 32.

Lemma pack_bytes ds : Forall digit5 ds -> Forall is_byte (pack ds).
Proof.
  assert (H0 : forall a b, digit5 a -> digit5 b -> is_byte (q0 a b)) by
    (unfold digit5, is_byte, q0; intros; Z.div_mod_to_equations; lia).
  assert (H1 : forall a b c, digit5 a -> digit5 b -> digit5 c -> is_byte (q1 a b c)) by
    (unfold digit5, is_byte, q1; intros; Z.div_mod_to_equations; lia).
  assert (H2 : forall a b, digit5 a -> digit5 b -> is_byte (q2 a b)) by
    (unfold digit5, is_byte, q2; intros; Z.div_mod_to_equations; lia).
  assert (H3 : forall a b c, digit5 a -> digit5 b -> digit5 c -> is_byte (q3 a b c)) by
    (unfold digit5, is_byte, q3; intros; Z.div_mod_to_equations; lia).
  assert (H4 : forall a b, digit5 a -> digit5 b -> is_byte (q4 a b)) by
    (unfold digit5, is_byte, q4; intros; Z.div_mod_to_equations; lia).
  remember (length ds) as n eqn:Hn. revert ds Hn. induction (lt_wf n) as [n _ IH]. intros ds -> Hall.
  assert (Hnil : Forall is_byte []) by constructor.
  do 8 (destruct ds as [|? ds];
    [rewrite ?list.Forall_cons in Hall; cbn [pack]; rewrite ?list.Forall_cons; naive_solver|]).
  rewrite !list.Forall_cons in Hall. cbn [pack]. rewrite !list.Forall_cons.
  assert (Hds : Forall is_byte (pack ds)) by (eapply IH; [|done|tauto]; simpl; lia). naive_solver.
Qed.
End Canonical.

(** *** Every spelling of one hash *)

(** The reference encoder of RFC 4648: five bytes into eight digits. *)
Fixpoint unpack (l : list Z) : list Z :=
  match l with
  | a :: b :: c :: d :: e :: l =>
    a / 8 :: (a mod 8) * 4 + b / 64 :: (b / 2) mod 32 :: (b mod 2) * 16 + c / 16 ::
    (c mod 16) * 2 + d / 128 :: (d / 4) mod 32 :: (d mod 4) * 8 + e / 32 :: e mod 32 :: unpack l
  | _ => []
  end.
Definition b32_char (d : Z) : Z := if d <? 26 then 65 + d else 24 + d.
Definition base32_encode (raw : list Z) : list Z := b32_char <$> unpack raw.

Section Spellings.
Context {UT : UnicodeTables}.

Lemma b32_inverse d : digit5 d -> b32_digit (b32_char d) = Some d.
Proof.
  unfold digit5, b32_digit, b32_char, between. intros Hd. destruct (d <? 26) eqn:E.
  - assert ((65 <=? 65 + d) && (65 + d <=? 90) = true) as -> by lia. f_equal. lia.
  - assert ((65 <=? 24 + d) && (24 + d <=? 90) = false) as -> by lia.
    assert ((50 <=? 24 + d) && (24 + d <=? 55) = true) as -> by lia. f_equal. lia.
Qed.

Lemma pack_unpack raw k : length raw = (5 * k)%nat -> Forall is_byte raw ->
  pack (unpack raw) = raw /\ Forall digit5 (unpack raw) /\ length (unpack raw) = (8 * k)%nat.
Proof.
  revert raw. induction k as [|k IH]; intros raw Hl Hb.
  { destruct raw; [|simpl in Hl; lia]. split_and!; [done|constructor|done]. }
  do 5 (destruct raw as [|? raw]; [simpl in Hl; lia|]). rewrite !list.Forall_cons in Hb.
  destruct (IH raw) as (Hp & Hd & Hlen); [simpl in Hl; lia|tauto|].
  cbn [unpack pack]. rewrite Hp, !list.Forall_cons. unfold is_byte, digit5, q0, q1, q2, q3, q4 in *.
  split_and!; [repeat f_equal|..|simpl; lia]; try done; Z.div_mod_to_equations; lia.
Qed.

Lemma trim_nonspace l : Forall (fun b => 33 <= b < 127) l -> TrimSpace l = l.
Proof.
  intros Hl. destruct l as [|b l]; [done|].
  destruct (exists_last (l := b :: l)) as (k & b' & Hk); [done|]. rewrite (TrimSpace_plain b l b' k); [done|done|..].
  - by apply list.Forall_cons in Hl as [? _].
  - rewrite Hk in Hl. apply Forall_app in Hl as [_ Hl]. by apply list.Forall_cons in Hl as [? _].
Qed.

Lemma plain_ascii l : Forall (fun b => 33 <= b < 127) l -> ascii l.
Proof. intros Hl. eapply list.Forall_impl; [done|]. simpl. lia. Qed.

Lemma base32_of_encode raw : length raw = 20%nat -> Forall is_byte raw ->
  base32_DecodeString (base32_encode raw) = Some raw.
Proof.
  intros Hl Hb. destruct (pack_unpack raw 4 Hl Hb) as (Hp & Hd & _).
  unfold base32_DecodeString, base32_encode.
  assert (Hm : mapM b32_digit (filter (fun c => c <> 13 /\ c <> 10) (b32_char <$> unpack raw)) = Some (unpack raw)).
  { clear Hp. induction Hd as [|d ds Hd _ IH]; [done|]. rewrite fmap_cons, filter_cons_True.
    - simpl. by rewrite b32_inverse, IH.
    - unfold digit5, b32_char in *. destruct (d <? 26) eqn:E; lia. }
  rewrite Hm. simpl. by rewrite Hp.
Qed.

Lemma upper_plain l : Forall (fun b => 33 <= b < 97) (upper_byte <$> l) -> Forall (fun b => 33 <= b < 127) l.
Proof.
  intros H%list.Forall_fmap. eapply list.Forall_impl; [done|]. intros b Hb. simpl in Hb.
  unfold upper_byte, between in Hb. destruct (_ && _) eqn:E; lia.
Qed.

Lemma base32_encode_plain raw : length raw = 20%nat -> Forall is_byte raw ->
  Forall (fun b => 33 <= b < 97) (base32_encode raw) /\ length (base32_encode raw) = 32%nat.
Proof.
  intros Hl Hb. destruct (pack_unpack raw 4 Hl Hb) as (_ & Hd & Hlen). unfold base32_encode.
  split; [|by rewrite length_fmap]. apply list.Forall_fmap. eapply list.Forall_impl; [done|].
  intros d Hdd. simpl. unfold digit5, b32_char in *. destruct (d <? 26) eqn:E; lia.
Qed.

(** A lowercase hex text in either case. *)
Lemma hex_any_case s h : lower_byte <$> s = h -> forallb lower_hex h = true ->
  forallb hex_char s = true /\ Forall (fun b => 33 <= b < 127) s.
Proof.
  intros <- H. assert (Hc : forall b, b ∈ s -> hex_char b = true).
  { intros b Hb. rewrite forallb_forall in H. specialize (H (lower_byte b)).
    rewrite <- list_elem_of_In in H. assert (Hin : lower_byte b ∈ lower_byte <$> s) by by apply list_elem_of_fmap_2.
    specialize (H Hin). unfold lower_hex, hex_char, lower_byte, between in *.
    destruct ((65 <=? b) && (b <=? 90)) eqn:E; lia. }
  split.
  - apply forallb_forall. intros b Hb%list_elem_of_In. by apply Hc.
  - apply list.Forall_forall. intros b Hb%Hc. unfold hex_char, between in Hb. lia.
Qed.

Lemma plain_bytes_are l : Forall (fun b => 33 <= b < 127) l -> Forall is_byte l.
Proof. intros Hl. eapply list.Forall_impl; [done|]. unfold is_byte. simpl. lia. Qed.

Lemma Normalise_hex s h : lower_byte <$> s = h -> canonical h -> NormaliseInfohash s = Some h.
Proof.
  intros Hs [Hlen Hh]. destruct (hex_any_case s h Hs Hh) as [Hx Hp].
  assert (Hl : length s = length h) by (by rewrite <- Hs, length_fmap).
  unfold NormaliseInfohash. rewrite trim_nonspace by done. rewrite isHex_bytes by by apply plain_bytes_are.
  rewrite Hx, ToLower_ascii, Hs, Hl by by apply plain_ascii. by destruct Hlen as [-> | ->].
Qed.

Lemma Normalise_id h : canonical h -> NormaliseInfohash h = Some h.
Proof.
  intros Hh. apply Normalise_hex; [|done]. rewrite <- ToLower_ascii; [by apply lower_hex_id, Hh|].
  apply hex_ascii. destruct Hh as [_ Hh]. rewrite forallb_forall in *. intros b Hb%Hh.
  unfold lower_hex, hex_char in *. rewrite !orb_true_iff in *. tauto.
Qed.

Lemma Normalise_canonical s h : Forall is_byte s -> NormaliseInfohash s = Some h -> h = [] \/ canonical h.
Proof.
  intros Hb. unfold NormaliseInfohash.
  assert (Ht : Forall is_byte (TrimSpace s)).
  { apply list.Forall_forall. intros b Hin%TrimSpace_bytes. by eapply list.Forall_forall in Hb. }
  set (t := TrimSpace s) in *. clearbody t. clear s Hb.
  assert (H : forall h', Some h' = Some h -> canonical h' -> h = [] \/ canonical h).
  { intros h' [= ->] Hc. by right. }
  assert (Hhex : forall k, isHex k = true -> Forall is_byte k -> length k = 40%nat \/ length k = 64%nat ->
    canonical (ToLower k)).
  { intros k Hk Hbk Hlk. rewrite isHex_bytes in Hk by done. split; [|by apply lower_hex_hex].
    by rewrite ToLower_length by by apply hex_ascii. }
  destruct (length t =? 0)%nat; [intros [= <-]; by left|].
  destruct (_ || _) eqn:El.
  { destruct (isHex t) eqn:Hx; [|done]. intros Heq. eapply H; [done|]. apply Hhex; [done..|].
    apply orb_true_iff in El as [E%Nat.eqb_eq|E%Nat.eqb_eq]; [by left|by right]. }
  destruct (length t =? infohashV1Base32Chars)%nat.
  { destruct (base32_DecodeString _) as [raw|] eqn:Hr; [|done]. simpl.
    destruct (length raw =? infohashV1Bytes)%nat eqn:Hl; [|done]. intros Heq. eapply H; [done|].
    apply Nat.eqb_eq in Hl. unfold infohashV1Bytes in Hl.
    assert (Hrb : Forall is_byte raw).
    { unfold base32_DecodeString in Hr. destruct (mapM _ _) as [ds|] eqn:Hm; [|done].
      injection Hr as <-. apply pack_bytes. apply mapM_Some in Hm.
      eapply Forall2_Forall_r; [done|]. apply list.Forall_true. intros c d. unfold b32_digit, digit5, between.
      repeat case_match; intros; simplify_eq; lia. }
    split; [rewrite EncodeToString_length; left; lia|by apply EncodeToString_hex]. }
  destruct (length t =? length btmhSHA256Tag + infohashV2HexChars)%nat eqn:Hl; [|done].
  destruct (HasPrefix _ _); [|done].
  destruct (isHex _) eqn:Hx; [|done]. intros Heq. eapply H; [done|]. apply Hhex; [done|by apply Forall_drop|].
  rewrite length_drop. apply Nat.eqb_eq in Hl. unfold btmhSHA256Tag, infohashV2HexChars in *. simpl in *. lia.
Qed.

(** One torrent, one spelling.  The hex form in any case, the base32 form in
    any case, and for version 2 the tagged multihash all normalise to the same
    lowercase digits; whatever is accepted is canonical, and normalising it
    again changes nothing. *)
Theorem NormaliseInfohash_one_spelling :
  (forall raw s, length raw = 20%nat -> Forall is_byte raw ->
     upper_byte <$> s = base32_encode raw -> NormaliseInfohash s = Some (EncodeToString raw)) /\
  (forall raw s, (length raw = 20 \/ length raw = 32)%nat -> Forall is_byte raw ->
     lower_byte <$> s = EncodeToString raw -> NormaliseInfohash s = Some (EncodeToString raw)) /\
  (forall raw s, length raw = 32%nat -> Forall is_byte raw ->
     lower_byte <$> s = EncodeToString raw ->
     NormaliseInfohash (btmhSHA256Tag ++ s) = Some (EncodeToString raw)) /\
  (forall s h, Forall is_byte s -> NormaliseInfohash s = Some h ->
     (h = [] \/ canonical h) /\ NormaliseInfohash h = Some h).
Proof.
  split_and!.
  - intros raw s Hl Hb Hs. destruct (base32_encode_plain raw Hl Hb) as [Hp Hlen].
    rewrite <- Hs in Hp, Hlen. rewrite length_fmap in Hlen. apply upper_plain in Hp.
    unfold NormaliseInfohash. rewrite trim_nonspace by done. rewrite Hlen. simpl Nat.eqb.
    rewrite ToUpper_ascii, Hs, base32_of_encode by (done || by apply plain_ascii). simpl. by rewrite Hl.
  - intros raw s Hl Hb Hs. apply Normalise_hex; [done|]. split; [|by apply EncodeToString_hex].
    rewrite EncodeToString_length. destruct Hl as [-> | ->]; auto.
  - intros raw s Hl Hb Hs. destruct (hex_any_case s _ Hs (EncodeToString_hex raw Hb)) as [Hx Hp].
    assert (Hls : length s = 64%nat) by (rewrite <- (length_fmap lower_byte), Hs, EncodeToString_length; lia).
    assert (Hpt : Forall (fun b => 33 <= b < 127) (btmhSHA256Tag ++ s)).
    { apply Forall_app. split; [|done]. apply (bool_decide_unpack _). by vm_compute. }
    unfold NormaliseInfohash. rewrite trim_nonspace by done.
    rewrite length_app, Hls. simpl Nat.eqb. cbn [orb].
    assert (HasPrefix (ToLower (btmhSHA256Tag ++ s)) btmhSHA256Tag = true) as ->.
    { rewrite ToLower_ascii by by apply plain_ascii. rewrite fmap_app. apply HasPrefix_spec. by eexists. }
    cbn iota. rewrite drop_app_length. rewrite isHex_bytes by by apply plain_bytes_are.
    by rewrite Hx, ToLower_ascii, Hs by by apply plain_ascii.
  - intros s h Hb Hn. pose proof (Normalise_canonical s h Hb Hn) as [-> | Hc]; [by auto|].
    split; [by right|by apply Normalise_id].
Qed.

(** A link and a row agree: a value without blanks that the magnet parser
    accepts, and whose base32 form lost no byte, has the store's spelling. *)
Theorem parseBTIH_normalises value h : Forall (fun b => 33 <= b < 127) value ->
  parseBTIH value = Some h -> length h = 40%nat -> NormaliseInfohash value = Some h.
Proof.
  intros Hp. unfold parseBTIH, NormaliseInfohash. rewrite trim_nonspace by done.
  destruct (length value =? infohashV1HexChars)%nat eqn:E1.
  - apply Nat.eqb_eq in E1. rewrite E1. simpl Nat.eqb. cbn [orb].
    destruct (hex_decodes value) eqn:Hx; [|done]. unfold hex_decodes in Hx. apply andb_true_iff in Hx as [_ Hx].
    rewrite isHex_bytes, Hx by by apply plain_bytes_are. done.
  - destruct (length value =? infohashV1Base32Chars)%nat eqn:E2; [|done].
    apply Nat.eqb_eq in E2. rewrite E2. simpl Nat.eqb. cbn [orb].
    destruct (base32_DecodeString _) as [raw|]; [|done]. intros [= <-]. rewrite EncodeToString_length. simpl.
    intros Hl. rewrite (proj2 (Nat.eqb_eq _ _)); [done|]. unfold infohashV1Bytes. lia.
Qed.
End Spellings.
