(* ===== verification/Store.v ===== *)
(** * The task store ([internal/store/tasks.go], [events.go])

    Each SQL statement is a function on the tables, under its name in the
    source; each method composes the statements the way the code does, inside
    the transaction the code opens, with its guards and early returns. *)

From Stdlib Require Import SpecFloat.
From S2P Require Import Prelude TaskState Schema World.

(** ** Statements *)

(** [UPDATE tasks SET .. WHERE id = ? AND guard]: [f] on the matched row,
    refused when [ok] finds the new row in breach of a constraint. *)
Definition update_where (id : string) (guard : task -> bool) (f : task -> task)
    (ok : db -> task -> bool) : stmt := fun d =>
  match d_tasks d !! id with
  | Some t =>
    if guard t then
      if ok d (f t) then Some (with_tasks (<[id := f t]> (d_tasks d)) d, 1%Z) else None
    else Some (d, 0%Z)
  | None => Some (d, 0%Z)
  end.

Definition no_check (d : db) (t : task) : bool := true.
Definition any_row (t : task) : bool := true.

(** The CHECK on [error_code]. *)
Definition error_code_check (d : db) (t : task) : bool :=
  match t_error_code t with None => true | Some c => contains taskErrorCodes c end.

Definition disk_full : string := "disk_full".
Definition concurrency_limit : string := "concurrency_limit".

Definition is_hold_code (c : option string) : bool :=
  bool_decide (c = Some disk_full) || bool_decide (c = Some concurrency_limit).

Definition queryGetTask (id : string) (d : db) : option task := d_tasks d !! id.
Definition queryTaskState (id : string) (d : db) : option TaskState := t_state <$> d_tasks d !! id.

Record Progress := MkProgress {
  TotalBytes : option Z; CompletedBytes : Z; UploadedBytes : Z;
  DownloadRate : Z; UploadRate : Z; ETASeconds : option Z }.

Definition queryUpdateTaskProgress (p : Progress) (now : Z) (id : string) : stmt :=
  update_where id any_row (fun t =>
    set_updated_at now (set_eta_seconds (ETASeconds p) (set_upload_rate (UploadRate p)
      (set_download_rate (DownloadRate p) (set_uploaded_bytes (UploadedBytes p)
        (set_completed_bytes (CompletedBytes p) (set_total_bytes (TotalBytes p) t)))))))
    no_check.

Definition querySetTaskEngineRef (ref : string) (now : Z) (id : string) : stmt := fun d =>
  update_where id (fun t => bool_decide (t_engine_ref t <> Some ref))
    (fun t => set_updated_at now (set_engine_ref (Some ref) t))
    (fun d t => unique_ok d id t) d.

Definition queryTaskEngineRef (id : string) (d : db) : option (option string) :=
  t_engine_ref <$> d_tasks d !! id.

Definition queryTransitionTask (next : TaskState) (now : Z) (id : string) (cur : TaskState) : stmt :=
  update_where id (fun t => bool_decide (t_state t = cur))
    (fun t => set_updated_at now (set_admission_pending 0 (set_state next t))) no_check.

Definition queryMarkTaskRemoved (now : Z) (id : string) (cur : TaskState) : stmt :=
  update_where id (fun t => bool_decide (t_state t = cur))
    (fun t => set_updated_at now (set_admission_pending 0 (set_queue_position None
       (set_eta_seconds None (set_upload_rate 0 (set_download_rate 0
         (set_engine_ref None (set_state StateRemoved t)))))))) no_check.

Definition queryClearTaskErrorCodeUnlessPaused (now : Z) (id : string) : stmt :=
  update_where id
    (fun t => bool_decide (t_state t <> StatePaused) && is_hold_code (t_error_code t))
    (fun t => set_updated_at now (set_error_message None (set_error_code None t))) no_check.

Definition queryClearPausedTaskHoldCode (now : Z) (id : string) : stmt :=
  update_where id
    (fun t => bool_decide (t_state t = StatePaused) && is_hold_code (t_error_code t))
    (fun t => set_updated_at now (set_error_message None (set_error_code None t))) no_check.

Definition queryPauseTaskWithCode (code msg : option string) (now : Z) (id : string)
    (from : list TaskState) : stmt :=
  update_where id (fun t => contains from (t_state t))
    (fun t => set_updated_at now (set_admission_pending 0 (set_error_message msg
       (set_error_code code (set_state StatePaused t))))) error_code_check.

Definition querySetTaskErrorCodeIfState (code msg : option string) (now : Z) (id : string)
    (expected : TaskState) : stmt :=
  update_where id
    (fun t => bool_decide (t_state t = expected) &&
       (bool_decide (t_error_code t <> code) || bool_decide (t_error_message t <> msg)))
    (fun t => set_updated_at now (set_error_message msg (set_error_code code t)))
    error_code_check.

Definition queryTaskErrorCode (id : string) (d : db)
  : option (option string * option string * TaskState) :=
  (fun t => (t_error_code t, t_error_message t, t_state t)) <$> d_tasks d !! id.

(** The claim assigns [error_code] to itself: it matches and writes nothing. *)
Definition queryClaimParkedDiskFull (id : string) : stmt :=
  update_where id
    (fun t => bool_decide (t_state t = StatePaused) && bool_decide (t_error_code t = Some disk_full))
    (fun t => set_error_code (t_error_code t) t) no_check.

Definition queryMarkAdmissionPending (now : Z) (id : string) : stmt :=
  update_where id
    (fun t => bool_decide (t_state t = StateQueued) && (t_admission_pending t =? 0)%Z)
    (fun t => set_updated_at now (set_admission_pending 1 t)) no_check.

Definition queryTaskAdmissionPending (id : string) (d : db) : option (TaskState * Z) :=
  (fun t => (t_state t, t_admission_pending t)) <$> d_tasks d !! id.

Definition queryScheduleParkTask (now : Z) (id : string) (from : list TaskState) : stmt :=
  update_where id (fun t => contains from (t_state t))
    (fun t => set_updated_at now (set_admission_pending 0 (set_state StatePaused t))) no_check.

Definition querySetTaskExtractProgress (percent now : Z) (id : string) : stmt :=
  update_where id (fun t => bool_decide (t_state t = StateExtracting))
    (fun t => set_updated_at now (set_unzip_progress (Some percent) t)) no_check.

Definition querySetTaskErrorCode (code msg : option string) (now : Z) (id : string) : stmt :=
  update_where id any_row
    (fun t => set_updated_at now (set_error_message msg (set_error_code code t)))
    error_code_check.

Definition querySetTaskSelectionIntent (doc : option select_doc) (now : Z) (id : string) : stmt :=
  update_where id any_row (fun t => set_updated_at now (set_select_files doc t)) no_check.

Definition querySetQueuePosition (position now : Z) (id : string) : stmt :=
  update_where id any_row
    (fun t => set_updated_at now (set_queue_position (Some position) t)) no_check.

(** The hard delete cascades to events and files. *)
Definition queryDeleteTask (id : string) : stmt := fun d =>
  match d_tasks d !! id with
  | Some _ =>
    Some (MkDb (delete id (d_tasks d))
            (List.filter (fun e => bool_decide (ev_task e <> id)) (d_events d))
            (filter (fun p => p.1.1 <> id) (d_files d)) (d_categories d) (d_settings d), 1%Z)
  | None => Some (d, 0%Z)
  end.

(** [queryCreateTask] names neither the limits nor the admission mark: those
    columns take their DDL defaults. *)
Definition ddl_defaults (t : task) : task :=
  set_dl_limit 0 (set_ul_limit 0 (set_ratio_limit None (set_seeding_time_limit None
    (set_unzip_progress None (set_admission_pending 0 t))))).

Definition queryCreateTask (id : string) (t : task) : stmt := fun d =>
  let t := ddl_defaults t in
  match d_tasks d !! id with
  | Some _ => None
  | None =>
    if row_ok d t && unique_ok d id t
    then Some (with_tasks (<[id := t]> (d_tasks d)) d, 1%Z) else None
  end.

Definition eventLevels : list string := ["info"; "warn"; "error"]%string.

Definition queryInsertTaskEvent (e : task_event) : stmt := fun d =>
  match d_tasks d !! ev_task e with
  | Some _ =>
    if contains eventLevels (ev_level e)
    then Some (with_events (d_events d ++ [e]) d, 1%Z) else None
  | None => None
  end.

(** ** Listings *)

(** The counted set of the concurrency limits. *)
Definition counted (t : task) : bool :=
  contains [StateDownloading; StateChecking; StateExtracting; StateMoving] (t_state t)
  || bool_decide (t_state t = StateQueued) && negb (t_admission_pending t =? 0)%Z.

(** [GROUP BY key] with a per-group sum. *)
Definition group_sum (sel : task -> bool) (key : task -> string) (share : task -> Z)
    (m : gmap string task) : gmap string Z :=
  map_fold (fun _ t acc =>
    if sel t then <[key t := (share t + default 0%Z (acc !! key t))%Z]> acc else acc) ∅ m.

Definition queryCountActive (d : db) : list (string * Z) :=
  map_to_list (group_sum counted t_engine (fun _ => 1%Z) (d_tasks d)).

(** A task's committed-but-unwritten bytes, clamped at zero. *)
Definition remaining_share (t : task) : Z :=
  Z.max (default 0%Z (t_total_bytes t) - t_completed_bytes t) 0.

(** A SUM past 64 bits is an error of the statement. *)
Definition querySumRemainingByDestination (d : db) : option (list (string * Z)) :=
  let rows := map_to_list (group_sum counted t_destination remaining_share (d_tasks d)) in
  if forallb (fun r => (r.2 <=? int64_max)%Z) rows then Some rows else None.

(** [Candidate]. *)
Record Candidate := MkCandidate {
  c_id : string; c_engine : string; c_engine_ref : option string;
  c_source_uri : option string; c_infohash_v1 : option string; c_destination : string;
  c_select_files : option select_doc; c_dl_limit : Z; c_ul_limit : Z;
  c_admission_pending : Z; c_state : TaskState; c_total_bytes : option Z;
  c_completed_bytes : Z }.

Definition candidate_of (id : string) (t : task) : Candidate :=
  MkCandidate id (t_engine t) (t_engine_ref t) (t_source_uri t) (t_infohash_v1 t)
    (t_destination t) (t_select_files t) (t_dl_limit t) (t_ul_limit t)
    (t_admission_pending t) (t_state t) (t_total_bytes t) (t_completed_bytes t).

Definition is_candidate (t : task) : bool :=
  bool_decide (t_state t = StateQueued)
  || bool_decide (t_state t = StatePaused) && bool_decide (t_error_code t = Some disk_full).

(** [ORDER BY added_at ASC, id ASC]. *)
Definition process_le (p q : string * task) : Prop :=
  (t_added_at p.2 < t_added_at q.2)%Z \/
  (t_added_at p.2 = t_added_at q.2 /\ String.leb p.1 q.1 = true).

#[global] Instance process_le_dec p q : Decision (process_le p q).
Proof. unfold process_le. apply _. Defined.

Definition querySelectQueuedCandidates (d : db) : list Candidate :=
  (fun p => candidate_of p.1 p.2) <$>
    merge_sort process_le (List.filter (fun p => is_candidate p.2) (map_to_list (d_tasks d))).

(** [Reconcilable]. *)
Record Reconcilable := MkReconcilable {
  r_id : string; r_engine_ref : string; r_state : TaskState; r_source_uri : option string;
  r_infohash_v1 : option string; r_destination : string; r_select_files : option select_doc;
  r_dl_limit : Z; r_ul_limit : Z }.

Definition nonterminal (s : TaskState) : bool :=
  negb (contains [StateCompleted; StateRemoved; StateError] s).

Definition queryListNonTerminalByEngine (engine : string) (d : db) : list Reconcilable :=
  omap (fun p => match t_engine_ref p.2 with
    | Some ref =>
      if bool_decide (t_engine p.2 = engine) && nonterminal (t_state p.2) then
        Some (MkReconcilable p.1 ref (t_state p.2) (t_source_uri p.2) (t_infohash_v1 p.2)
                (t_destination p.2) (t_select_files p.2) (t_dl_limit p.2) (t_ul_limit p.2))
      else None
    | None => None
    end) (map_to_list (d_tasks d)).

(** ** Event codes *)

Definition CodeTaskCreated : string := "task.created".
Definition CodeTaskPaused : string := "task.paused".
Definition CodeTaskResumed : string := "task.resumed".
Definition CodeTaskRemoved : string := "task.removed".
Definition CodeTaskDataDeleted : string := "task.data_deleted".
Definition CodeEngineAccepted : string := "engine.accepted".
Definition CodeEngineRejected : string := "engine.rejected".
Definition CodeEngineUnavailable : string := "engine.unavailable".
Definition CodeTaskSchedulePaused : string := "task.schedule.paused".
Definition CodeTaskScheduleResumed : string := "task.schedule.resumed".

Definition membership_codes : list string :=
  [CodeTaskSchedulePaused; CodeTaskPaused; CodeTaskResumed; CodeTaskScheduleResumed].

(** [ORDER BY e.at DESC, e.id DESC]: [a] sorts before [b]. *)
Definition later_event (a b : task_event) : bool :=
  (ev_at b <? ev_at a)%Z || (ev_at a =? ev_at b)%Z && String.leb (ev_id b) (ev_id a).

(** [LIMIT 1] under that order. *)
Definition newest (l : list task_event) : option task_event :=
  foldr (fun e acc => match acc with
      | None => Some e
      | Some b => if later_event b e then Some b else Some e
      end) None l.

(** The subquery of [queryListScheduleParked]: the newest membership event. *)
Definition membership (id : string) (e : task_event) : bool :=
  bool_decide (ev_task e = id) && contains membership_codes (ev_code e).

Definition latest_membership (id : string) (l : list task_event) : option task_event :=
  newest (List.filter (membership id) l).

Definition queryListScheduleParked (d : db) : list string :=
  fst <$> List.filter (fun p => bool_decide (t_state p.2 = StatePaused) &&
      bool_decide (ev_code <$> latest_membership p.1 (d_events d) = Some CodeTaskSchedulePaused))
    (map_to_list (d_tasks d)).

(** ** The persisted file selection *)

(** [SelectionIntent]. *)
Record SelectionIntent := MkSelection { Indices : list Z; Priorities : gmap Z Z }.

(** The loops of [DecodeSelectionIntent] that validate the parsed document. *)
Definition selection_valid (sel : SelectionIntent) : bool :=
  forallb (fun idx => negb (idx <? 0)%Z) (Indices sel) &&
  bool_decide (map_Forall (fun idx pri => (0 <= idx)%Z /\ pri ∈ [0; 1; 6; 7]%Z) (Priorities sel)).

(** [DecodeSelectionIntent]. *)
Definition DecodeSelectionIntent (raw : select_doc) : option SelectionIntent :=
  match raw with
  | SelEmptyText | SelMalformed => None
  | SelDoc indices priorities =>
    let sel := MkSelection (default [] indices) (default ∅ priorities) in
    if selection_valid sel then Some sel else None
  end.

(** [SelectionIntentFromFiles]: the rows of one task with their indices. *)
Definition SelectionIntentFromFiles (files : list (Z * TaskFile)) : SelectionIntent :=
  fold_left (fun sel p =>
    let indices := if (f_selected p.2 =? 1)%Z then Indices sel ++ [p.1] else Indices sel in
    let priorities := match f_priority p.2 with
      | Some pri => <[p.1 := pri]> (Priorities sel) | None => Priorities sel end in
    MkSelection indices priorities) files (MkSelection [] ∅).

(** [json.Marshal] of an intent. *)
Definition encode_selection (sel : SelectionIntent) : select_doc :=
  SelDoc (Some (Indices sel)) (Some (Priorities sel)).

(** ** Methods *)

Section Methods.
Context {E : Type}.
Abbreviation M := (M E).

(** [nullableText] and [textOrEmpty]. *)
Definition nullableText (v : string) : option string :=
  if bool_decide (v = EmptyString) then None else Some v.
Definition textOrEmpty (p : option string) : string := default EmptyString p.

(** [insertTaskEvent]. *)
Definition insertTaskEvent (taskID level code message : string)
    (detail : option event_detail) (now : Z) : M unit :=
  id ← NewID "evt_";
  _ ← exec (queryInsertTaskEvent (MkEvent id taskID now level code message detail));
  mret tt.

(** [AppendEvent]. *)
Definition AppendEvent (taskID level code message : string)
    (detail : option event_detail) : M unit :=
  if negb (contains eventLevels level) then fail ErrArgument
  else now ← unix_milli; insertTaskEvent taskID level code message detail now.

(** [prepareNewTask]; [state] is the spelling the caller passed. *)
Definition prepareNewTask (id state : string) (t : task) : M (string * task) :=
  id ← (if bool_decide (id = EmptyString) then NewID "tsk_" else mret id);
  match (if bool_decide (state = EmptyString) then Some StateQueued else parse_state state) with
  | None => fail ErrArgument
  | Some s =>
    now ← unix_milli;
    mret (id, MkTask (t_engine t) (t_engine_ref t) (t_source_kind t) (t_source_uri t)
      (t_source_display_uri t) (t_name t) (t_infohash_v1 t) (t_infohash_v2 t) s
      (t_error_code t) (t_error_message t) (t_destination t) (t_content_path t)
      (t_category_id t) (t_total_bytes t) (t_completed_bytes t) (t_uploaded_bytes t)
      (t_download_rate t) (t_upload_rate t) (t_eta_seconds t) (t_sequential t)
      (t_queue_position t) (t_select_files t) (t_dl_limit t) (t_ul_limit t) (t_ratio_limit t)
      (t_seeding_time_limit t) (t_unzip_progress t) (t_admission_pending t) now
      (t_started_at t) (t_completed_at t) now now)
  end.

(** [Create]. *)
Definition Create (id state : string) (t : task) : M (string * task) :=
  row ← prepareNewTask id state t;
  _ ← exec (queryCreateTask row.1 row.2);
  mret row.

(** [CreateLogged]. *)
Definition CreateLogged (id state : string) (t : task) : M (string * task) :=
  row ← prepareNewTask id state t;
  with_tx (
    exec (queryCreateTask row.1 row.2) ;;
    insertTaskEvent row.1 "info" CodeTaskCreated "created by user request" None
      (t_created_at row.2) ;;
    commit ;;
    mret row).

(** [Get]. *)
Definition Get (id : string) : M task :=
  row ← query (queryGetTask id);
  match row with None => fail ErrNotFound | Some t => mret t end.

(** The loop that fills a Go map from rows. *)
Definition fill {V} (rows : list (string * V)) : gmap string V :=
  fold_left (fun m r => <[r.1 := r.2]> m) rows ∅.

(** [ListNonTerminalByEngine]. *)
Definition ListNonTerminalByEngine (engine : string) : M (gmap string Reconcilable) :=
  rows ← query (queryListNonTerminalByEngine engine);
  mret (fill ((fun r => (r_engine_ref r, r)) <$> rows)).

(** [ActiveCounts]. *)
Record ActiveCounts := MkCounts { Total : Z; ByEngine : gmap string Z }.

(** [c.ByEngine[engineName]] of a Go map. *)
Definition by_engine (c : ActiveCounts) (engine : string) : Z := default 0%Z (ByEngine c !! engine).

(** [Reserve]. *)
Definition Reserve (engine : string) (c : ActiveCounts) : ActiveCounts :=
  MkCounts (Total c + 1) (<[engine := (by_engine c engine + 1)%Z]> (ByEngine c)).

Definition countRows (rows : list (string * Z)) : ActiveCounts :=
  fold_left (fun c r => MkCounts (Total c + r.2) (<[r.1 := r.2]> (ByEngine c))) rows
    (MkCounts 0 ∅).

(** [CountActive]. *)
Definition CountActive : M ActiveCounts :=
  rows ← query queryCountActive; mret (countRows rows).

(** [LIMIT n]. *)
Definition limit_rows {A} (limit : Z) (l : list A) : list A :=
  if (Z.of_nat (length l) <=? limit)%Z then l else take (Z.to_nat limit) l.

(** [SelectQueuedCandidates]. *)
Definition SelectQueuedCandidates (limit : Z) : M (list Candidate) :=
  query (fun d => if (0 <? limit)%Z then limit_rows limit (querySelectQueuedCandidates d)
                  else querySelectQueuedCandidates d).

(** [SumRemainingByDestination]. *)
Definition SumRemainingByDestination : M (gmap string Z) :=
  rows ← query_checked querySumRemainingByDestination;
  mret (fill (List.filter (fun r => (0 <? r.2)%Z) rows)).

(** [SetErrorCodeIfState]; every caller passes a state of the vocabulary, so
    the empty-expected-state refusal has no value here. *)
Definition SetErrorCodeIfState (id : string) (expected : TaskState) (errorCode message : string)
  : M unit :=
  let message := if bool_decide (errorCode = EmptyString) then EmptyString else message in
  let codeValue := nullableText errorCode in
  let messageValue := nullableText message in
  with_tx (
    cur ← query (queryTaskErrorCode id);
    match cur with
    | None => fail ErrNotFound
    | Some (curCode, curMessage, curState) =>
      if bool_decide (curState <> expected) then mret tt
      else
        now ← unix_milli;
        affected ← exec (querySetTaskErrorCodeIfState codeValue messageValue now id expected);
        if (affected =? 0)%Z then
          if bool_decide (textOrEmpty curCode = errorCode) &&
             bool_decide (textOrEmpty curMessage = message)
          then mret tt else fail ErrTransitionConflict
        else commit
    end).

(** [CodedPause]. *)
Record CodedPause := MkCodedPause {
  EventCode : string; EventMessage : string; ErrorCode : string; ErrorMessage : string;
  FromStates : list TaskState }.

(** [PauseWithCode]. *)
Definition PauseWithCode (id : string) (p : CodedPause) : M unit :=
  if bool_decide (ErrorCode p = EmptyString) || bool_decide (EventCode p = EmptyString)
     || bool_decide (FromStates p = []) then fail ErrArgument
  else with_tx (
    cur ← query (queryTaskState id);
    match cur with
    | None => fail ErrNotFound
    | Some cur =>
      if negb (contains (FromStates p) cur) then fail ErrTransitionConflict
      else if negb (transitionLegal cur StatePaused) then fail ErrIllegalTransition
      else
        now ← unix_milli;
        affected ← exec (queryPauseTaskWithCode (nullableText (ErrorCode p))
                           (nullableText (ErrorMessage p)) now id (FromStates p));
        if (affected =? 0)%Z then fail ErrTransitionConflict
        else
          insertTaskEvent id "info" (EventCode p) (EventMessage p) None now ;;
          commit
    end).

(** [ClearHoldCode]. *)
Definition ClearHoldCode (id : string) : M unit :=
  with_tx (
    now ← unix_milli;
    affected ← exec (queryClearTaskErrorCodeUnlessPaused now id);
    if (0 <? affected)%Z then commit
    else
      st ← query (queryTaskState id);
      match st with None => fail ErrNotFound | Some _ => commit end).

(** [ClaimParkedDiskFull]. *)
Definition ClaimParkedDiskFull (id : string) : M bool :=
  with_tx (
    matched ← exec (queryClaimParkedDiskFull id);
    if (matched =? 0)%Z then
      st ← query (queryTaskState id);
      match st with None => fail ErrNotFound | Some _ => mret false end
    else commit ;; mret true).

(** [MarkAdmissionPending]. *)
Definition MarkAdmissionPending (id : string) : M bool :=
  with_tx (
    now ← unix_milli;
    matched ← exec (queryMarkAdmissionPending now id);
    if (matched =? 0)%Z then
      cur ← query (queryTaskAdmissionPending id);
      match cur with
      | None => fail ErrNotFound
      | Some (st, pending) =>
        mret (bool_decide (st = StateQueued) && negb (pending =? 0)%Z)
      end
    else commit ;; mret true).

(** [ClearPausedHoldCode]. *)
Definition ClearPausedHoldCode (id : string) : M bool :=
  with_tx (
    now ← unix_milli;
    affected ← exec (queryClearPausedTaskHoldCode now id);
    if (0 <? affected)%Z then commit ;; mret true
    else
      st ← query (queryTaskState id);
      match st with None => fail ErrNotFound | Some _ => commit ;; mret false end).

(** [UpdateProgress]. *)
Definition UpdateProgress (id : string) (p : Progress) : M unit :=
  now ← unix_milli;
  affected ← exec (queryUpdateTaskProgress p now id);
  if (affected =? 0)%Z then fail ErrNotFound else mret tt.

(** [SetEngineRef]. *)
Definition SetEngineRef (id engineRef : string) : M unit :=
  if bool_decide (engineRef = EmptyString) then fail ErrArgument
  else with_tx (
    cur ← query (queryTaskEngineRef id);
    match cur with
    | None => fail ErrNotFound
    | Some cur =>
      now ← unix_milli;
      affected ← exec (querySetTaskEngineRef engineRef now id);
      if (affected =? 0)%Z then
        if bool_decide (cur = Some engineRef) then mret tt else fail ErrNotFound
      else
        (if (affected =? 1)%Z
         then insertTaskEvent id "info" CodeEngineAccepted "engine accepted the task" None now
         else mret tt) ;;
        commit
    end).

(** The post-commit completion hook. *)
Definition fire_completed (id : string) : M unit := fun o w =>
  (inr tt, if w_hook w then set_fired (w_fired w ++ [id]) w else w).

(** [Transition]. *)
Definition Transition (id : string) (next : TaskState) (code message : string) : M unit :=
  with_tx (
    cur ← query (queryTaskState id);
    match cur with
    | None => fail ErrNotFound
    | Some cur =>
      if negb (transitionLegal cur next) then fail ErrIllegalTransition
      else
        now ← unix_milli;
        affected ← exec (queryTransitionTask next now id cur);
        if (affected =? 0)%Z then fail ErrTransitionConflict
        else
          insertTaskEvent id (transitionEventLevel next) code message None now ;;
          commit ;;
          if bool_decide (next = StateCompleted) then fire_completed id else mret tt
    end).

(** [MarkRemoved]; [data] is what a delete_data request unlinked. *)
Definition MarkRemoved (id : string) (data : option event_detail) : M unit :=
  with_tx (
    cur ← query (queryTaskState id);
    match cur with
    | None => fail ErrNotFound
    | Some cur =>
      if negb (transitionLegal cur StateRemoved) then fail ErrIllegalTransition
      else
        now ← unix_milli;
        affected ← exec (queryMarkTaskRemoved now id cur);
        if (affected =? 0)%Z then fail ErrTransitionConflict
        else
          insertTaskEvent id "info" CodeTaskRemoved "removed by user request" None now ;;
          (match data with
           | Some _ => insertTaskEvent id "warn" CodeTaskDataDeleted
                         "downloaded data deleted by user request" data now
           | None => mret tt
           end) ;;
          commit
    end).

(** [TaskPatch]. *)
Record TaskPatch := MkPatch {
  p_name : option string; p_category_id : option string; p_dl_limit : option Z;
  p_ul_limit : option Z; p_ratio_limit : option spec_float;
  p_seeding_time_limit : option Z; p_sequential : option bool }.

(** [Empty]. *)
Definition patch_empty (p : TaskPatch) : bool :=
  match p with MkPatch None None None None None None None => true | _ => false end.

(** [boolToInt]. *)
Definition boolToInt (b : bool) : Z := if b then 1 else 0.

(** The column list [Update] builds from the non-nil fields. *)
Definition apply_patch (p : TaskPatch) (t : task) : task :=
  let set {A B} (f : A -> task -> task) (g : B -> A) (v : option B) (t : task) : task :=
    match v with Some v => f (g v) t | None => t end in
  set set_sequential boolToInt (p_sequential p)
    (set set_seeding_time_limit Some (p_seeding_time_limit p)
      (set set_ratio_limit Some (p_ratio_limit p)
        (set set_ul_limit id (p_ul_limit p)
          (set set_dl_limit id (p_dl_limit p)
            (set set_category_id Some (p_category_id p)
              (set set_name id (p_name p) t)))))).

Definition category_check (d : db) (t : task) : bool :=
  match t_category_id t with None => true | Some c => bool_decide (c ∈ d_categories d) end.

(** [Update]. *)
Definition Update (id : string) (p : TaskPatch) : M unit :=
  if patch_empty p then fail ErrArgument
  else
    now ← unix_milli;
    affected ← exec (update_where id any_row
                       (fun t => set_updated_at now (apply_patch p t)) category_check);
    if (affected =? 0)%Z then fail ErrNotFound else mret tt.

(** [SetSelectionIntent]: it does not look at the affected rows. *)
Definition SetSelectionIntent (taskID : string) (sel : option SelectionIntent) : M unit :=
  now ← unix_milli;
  _ ← exec (querySetTaskSelectionIntent (encode_selection <$> sel) now taskID);
  mret tt.

(** [SetExtractProgress]. *)
Definition SetExtractProgress (id : string) (percent : Z) : M unit :=
  if (percent <? 0)%Z || (100 <? percent)%Z then fail ErrArgument
  else
    now ← unix_milli;
    affected ← exec (querySetTaskExtractProgress percent now id);
    if (affected =? 0)%Z then fail ErrNotFound else mret tt.

(** [SetErrorCode]: a code outside the vocabulary panics. *)
Definition SetErrorCode (id code message : string) : M unit :=
  if negb (contains taskErrorCodes code) then fail ErrPanic
  else
    now ← unix_milli;
    affected ← exec (querySetTaskErrorCode (Some code) (nullableText message) now id);
    if (affected =? 0)%Z then fail ErrNotFound else mret tt.

(** [scheduleParkSources]. *)
Definition scheduleParkSources : list TaskState := [StateDownloading; StateChecking; StateQueued].

(** [ScheduleParked]. *)
Definition ScheduleParked (id : string) : M unit :=
  with_tx (
    cur ← query (queryTaskState id);
    match cur with
    | None => fail ErrNotFound
    | Some cur =>
      if negb (contains scheduleParkSources cur) then fail ErrTransitionConflict
      else
        now ← unix_milli;
        affected ← exec (queryScheduleParkTask now id scheduleParkSources);
        if (affected =? 0)%Z then fail ErrTransitionConflict
        else
          insertTaskEvent id "info" CodeTaskSchedulePaused "paused by the download schedule"
            None now ;;
          commit
    end).

(** [ListScheduleParked]. *)
Definition ListScheduleParked : M (list string) := query queryListScheduleParked.

(** [SettingsStore.GetInt64]. *)
Definition GetInt64 (key : string) (def : Z) : M Z :=
  row ← query (fun d => d_settings d !! key);
  match row with
  | None => mret def
  | Some None => fail ErrDriver
  | Some (Some v) => mret v
  end.

(** [Delete]. *)
Definition Delete (id : string) : M unit :=
  affected ← exec (queryDeleteTask id);
  if (affected =? 0)%Z then fail ErrNotFound else mret tt.
End Methods.
