(* ===== verification/Scenario.v ===== *)
(** * Concrete worlds

    A small engine, rows, oracles and worlds on which the development's
    theorems are instantiated. *)

From stdpp Require Import pretty.
From S2P Require Import Prelude TaskState Schema Lease World Store Engine.

(** An engine registered as [aria2] whose state is the log of its calls. *)
Definition log_call {A} (name : string) (r : res A) (l : list string) : res A * list string :=
  (r, l ++ [name]).

#[global] Instance demo_engine : EngineApi (list string) := {|
  registered := ["aria2"%string];
  Capabilities := fun _ => [CapHTTP; CapMagnet; CapPerFileSelect];
  eng_Add := fun _ _ l => log_call "add" (inr ("aria2:g" +:+ pretty (length l))) l;
  eng_List := fun _ l => (inr [], l);
  eng_Get := fun _ _ l => log_call "get" (inl EngErrNotFound) l;
  eng_Files := fun _ _ l => log_call "files" (inr []) l;
  eng_Pause := fun _ _ l => log_call "pause" (inr tt) l;
  eng_Resume := fun _ _ l => log_call "resume" (inr tt) l;
  eng_Remove := fun _ _ l => log_call "remove" (inr tt) l;
  eng_SetFiles := fun _ _ _ _ l => log_call "setfiles" (inr tt) l;
  eng_SetRateLimits := fun _ _ _ _ l => log_call "limits" (inr tt) l |}.

(** A plain HTTP task in state [s], queued since [added]. *)
Definition http_task (s : TaskState) (added : Z) : task :=
  MkTask "aria2" None "http" (Some "http://h/f"%string) None "f" None None s None None "/data" None
    None (Some 10%Z) 0 0 0 0 None 0 None None 0 0 None None None 0 added None None added added.

(** The oracle of a healthy machine: every driver call succeeds, the clock and
    the ids count interactions, [/data] is a directory with room. *)
Definition healthy : oracle :=
  Oracle (fun _ => IoOk) Z.of_nat pretty (fun _ _ => StatDir 1)
    (fun _ _ => Some (MkStatfs 4294967296 4294967296 1 1)) (fun _ => ∅) (fun _ => EmptyString).

(** [healthy], but the driver's [n]-th interaction answers [a]. *)
Definition failing (n : nat) (a : io) : oracle :=
  Oracle (fun k => if Nat.eqb k n then a else IoOk) (o_now healthy) (o_id healthy) (o_stat healthy)
    (o_statfs healthy) (o_ended healthy) (o_text healthy).

Definition tables_of (rows : list (string * task)) : db := MkDb (list_to_map rows) [] ∅ ∅ ∅.

Definition start (d : db) : world (list string) :=
  World d None 0 None true [] Lease.NewRegistry [].

Lemma healthy_io : io_ok healthy.
Proof. done. Qed.

(** Two queued tasks. *)
Definition two_queued : db :=
  tables_of [("a"%string, http_task StateQueued 1); ("b"%string, http_task StateQueued 2)].
