(* ===== verification/StoreProps.v ===== *)
(** * What the task store guarantees

    The relation every write of the store keeps ([db_step]), the well-formedness
    of the tables ([db_wf]), and the specification of the individual methods
    under every behaviour of the driver. *)

From stdpp Require Import fin_maps.
From S2P Require Import Prelude TaskState Schema Lease World Frame Store Engine Scenario.

(** ** The step relation on rows and tables *)

(** What a write may do to one row: its state moves along the transition
    table, and what identifies the download never changes. *)
Record row_step (t t' : task) : Prop := {
  rs_state : reachable (t_state t) (t_state t');
  rs_engine : t_engine t = t_engine t';
  rs_kind : t_source_kind t = t_source_kind t';
  rs_uri : t_source_uri t = t_source_uri t';
  rs_ih1 : t_infohash_v1 t = t_infohash_v1 t';
  rs_ih2 : t_infohash_v2 t = t_infohash_v2 t';
  rs_dest : t_destination t = t_destination t';
  rs_added : t_added_at t = t_added_at t' }.

(** The admission mark is carried by queued rows only. *)
Definition mark_ok (t : task) : Prop :=
  t_admission_pending t <> 0%Z -> t_state t = StateQueued.

(** Stored codes are in the CHECK vocabulary. *)
Definition code_ok (t : task) : Prop :=
  match t_error_code t with None => True | Some c => c ∈ taskErrorCodes end.

(** Live rows have distinct handles. *)
Record db_wf (d : db) : Prop := {
  wf_mark : map_Forall (fun _ => mark_ok) (d_tasks d);
  wf_code : map_Forall (fun _ => code_ok) (d_tasks d);
  wf_handles : handles_unique d;
  wf_events : Forall (fun e => is_Some (d_tasks d !! ev_task e)) (d_events d) }.

(** A write keeps every row (moved along [row_step]), appends to the log and
    keeps the tables well-formed. *)
Record db_step (d d' : db) : Prop := {
  ds_rows : forall id t, d_tasks d !! id = Some t ->
    exists t', d_tasks d' !! id = Some t' /\ row_step t t';
  ds_events : d_events d `prefix_of` d_events d';
  ds_wf : db_wf d -> db_wf d' }.

Lemma reachable_trans s t u : reachable s t -> reachable t u -> reachable s u.
Proof. induction 1; [done|]. intros. econstructor; eauto. Qed.

Lemma reachable_one s t : transitionLegal s t = true -> reachable s t.
Proof. intros. econstructor; [done|constructor]. Qed.

#[global] Instance row_step_pre : PreOrder row_step.
Proof.
  split.
  - intros t. split; [constructor|done..].
  - intros t u v [] []. split; [by eapply reachable_trans|congruence..].
Qed.

#[global] Instance db_step_pre : PreOrder db_step.
Proof.
  split.
  - intros d. split; [|done..]. intros id t Ht. exists t. split; [done|reflexivity].
  - intros d e f [Hr1 He1 Hw1] [Hr2 He2 Hw2]. split; [|by etransitivity|tauto].
    intros id t (t' & Ht' & H1)%Hr1. destruct (Hr2 _ _ Ht') as (t'' & Ht'' & H2).
    exists t''. split; [done|by etransitivity].
Qed.

(** Removal is final along the table. *)
Lemma reachable_removed s : reachable StateRemoved s -> s = StateRemoved.
Proof.
  inversion 1 as [|? ? ? Hl]; [done|]. by rewrite transitionLegal_from_removed in Hl.
Qed.

(** ** Single-row updates *)

(** What an UPDATE's new row must satisfy for the tables to stay well-formed. *)
Record upd_ok (d : db) (id : string) (t t' : task) : Prop := {
  uo_step : row_step t t';
  uo_mark : mark_ok t -> mark_ok t';
  uo_code : code_ok t -> code_ok t';
  uo_handle : t_engine_ref t' = t_engine_ref t \/ t_engine_ref t' = None \/ unique_ok d id t' = true }.

Lemma same_handle_live t u t' :
  reachable (t_state t) (t_state t') -> t_engine t = t_engine t' ->
  t_engine_ref t' = t_engine_ref t -> same_handle t' u = true -> same_handle t u = true.
Proof.
  intros Hs He Href. unfold same_handle. rewrite !andb_true_iff, !bool_decide_eq_true.
  rewrite Href, <- He. intros [[[[Hl ?] ?] ?] ?]. repeat split; try done.
  intros Hr. apply Hl. apply reachable_removed. by rewrite <- Hr.
Qed.

(** A new row that keeps the marks, the codes and the handles. *)
Lemma update_wf d id t t' :
  d_tasks d !! id = Some t -> reachable (t_state t) (t_state t') -> t_engine t = t_engine t' ->
  (mark_ok t -> mark_ok t') -> (code_ok t -> code_ok t') ->
  t_engine_ref t' = t_engine_ref t \/ t_engine_ref t' = None \/ unique_ok d id t' = true ->
  db_wf d -> db_wf (with_tasks (<[id := t']> (d_tasks d)) d).
Proof.
  intros Ht Hs He Hm Hc Hh [Wm Wc Wh We]. split; simpl.
  - apply map_Forall_insert_2; [apply Hm, (Wm id), Ht|done].
  - apply map_Forall_insert_2; [apply Hc, (Wc id), Ht|done].
  - assert (Hx : forall j u, d_tasks d !! j = Some u -> j <> id -> same_handle t' u = false).
    { intros j u Hj Hne. destruct (same_handle t' u) eqn:Hsh; [|done]. exfalso.
      destruct Hh as [Hh|[Hh|Hh]].
      - apply Hne. symmetry. eapply Wh; [done..|]. by eapply same_handle_live.
      - unfold same_handle in Hsh. rewrite Hh in Hsh.
        rewrite (bool_decide_false (None <> None)) in Hsh by (by intros []).
        by rewrite andb_false_r in Hsh.
      - apply (unique_ok_spec d id t') with (j := j) (u := u) in Hh; [|done..].
        destruct Hh. congruence. }
    intros i j a b. simpl. destruct (decide (i = id)) as [->|Hi], (decide (j = id)) as [->|Hj].
    + done.
    + rewrite lookup_insert_eq, lookup_insert_ne by done. intros ? Hb Hsh. simplify_eq.
      by rewrite (Hx _ _ Hb Hj) in Hsh.
    + rewrite lookup_insert_eq, lookup_insert_ne by done. intros Ha ? Hsh. simplify_eq.
      rewrite same_handle_sym in Hsh. by rewrite (Hx _ _ Ha Hi) in Hsh.
    + rewrite !lookup_insert_ne by done. apply Wh.
  - eapply list.Forall_impl; [exact We|]. intros e Hev.
    destruct (decide (ev_task e = id)) as [->|]; [by rewrite lookup_insert_eq|].
    by rewrite lookup_insert_ne.
Qed.

Lemma update_step d id t t' :
  d_tasks d !! id = Some t -> upd_ok d id t t' -> db_step d (with_tasks (<[id := t']> (d_tasks d)) d).
Proof.
  intros Ht [Hs Hm Hc Hh]. split; [|done|].
  - intros j u Hu. simpl. destruct (decide (j = id)) as [->|Hne].
    + rewrite lookup_insert_eq. simplify_eq. eauto.
    + rewrite lookup_insert_ne by done. exists u. split; [done|reflexivity].
  - by apply (update_wf _ _ t); [|apply Hs|apply Hs|..].
Qed.

(** A statement that keeps [db_step]. *)
Abbreviation stmt_ok := (stmt_keeps db_step).

Lemma update_where_inv id guard f ok d d' k :
  update_where id guard f ok d = Some (d', k) ->
  (d' = d /\ k = 0%Z /\ (forall t, d_tasks d !! id = Some t -> guard t = false)) \/
  exists t, d_tasks d !! id = Some t /\ guard t = true /\ ok d (f t) = true /\ k = 1%Z /\
    d' = with_tasks (<[id := f t]> (d_tasks d)) d.
Proof.
  unfold update_where. destruct (d_tasks d !! id) as [t|]; [|intros; simplify_eq; by left].
  destruct (guard t) eqn:?; [|intros; simplify_eq; left; repeat split; by intros; simplify_eq].
  destruct (ok d (f t)) eqn:?; [|done]. intros. simplify_eq. right. by exists t.
Qed.

Lemma update_where_ok id guard f ok :
  (forall d t, d_tasks d !! id = Some t -> guard t = true -> ok d (f t) = true ->
     upd_ok d id t (f t)) ->
  stmt_ok (update_where id guard f ok).
Proof.
  intros H d d' k [(-> & _)|(t & Ht & Hg & Hok & _ & ->)]%update_where_inv; [reflexivity|].
  apply update_step with (t := t); [done|]. by apply H.
Qed.

Lemma mark_cleared t t' : t_admission_pending t' = 0%Z -> mark_ok t -> mark_ok t'.
Proof. intros H _ Hn. by destruct Hn. Qed.

(** Closes [upd_ok] for an update that leaves state, mark, code and handle. *)
Ltac upd_columns :=
  split; [split; simpl; first [done | constructor] | .. | by left];
  unfold mark_ok, code_ok; simpl; try done.

Section Statements.
Implicit Types (id : string) (now : Z).

Lemma progress_ok p now id : stmt_ok (queryUpdateTaskProgress p now id).
Proof. apply update_where_ok. intros. upd_columns. Qed.

Lemma engine_ref_ok ref now id : stmt_ok (querySetTaskEngineRef ref now id).
Proof.
  intros d d' k. apply update_where_ok. intros d0 t Ht Hg Hu.
  split; [split; simpl; first [done|constructor]|done|done|].
  right; right. unfold querySetTaskEngineRef. simpl in Hu. done.
Qed.

Lemma transition_ok next now id cur :
  transitionLegal cur next = true -> stmt_ok (queryTransitionTask next now id cur).
Proof.
  intros Hl. apply update_where_ok. intros d t Ht Hg%bool_decide_eq_true _. subst cur.
  split; [split; simpl; first [done|by apply reachable_one]|by apply mark_cleared|done|by left].
Qed.

Lemma mark_removed_ok now id cur :
  transitionLegal cur StateRemoved = true -> stmt_ok (queryMarkTaskRemoved now id cur).
Proof.
  intros Hl. apply update_where_ok. intros d t Ht Hg%bool_decide_eq_true _. subst cur.
  split; [split; simpl; first [done|by apply reachable_one]|by apply mark_cleared|done|by right; left].
Qed.

Lemma clear_hold_ok now id : stmt_ok (queryClearTaskErrorCodeUnlessPaused now id).
Proof. apply update_where_ok. intros. upd_columns. Qed.

Lemma clear_paused_hold_ok now id : stmt_ok (queryClearPausedTaskHoldCode now id).
Proof. apply update_where_ok. intros. upd_columns. Qed.

Lemma code_check_ok d t : error_code_check d t = true -> code_ok t.
Proof. unfold error_code_check, code_ok. destruct (t_error_code t); [apply contains_spec|done]. Qed.

Lemma code_if_state_ok code msg now id st : stmt_ok (querySetTaskErrorCodeIfState code msg now id st).
Proof.
  apply update_where_ok. intros d t Ht _ Hc%code_check_ok. upd_columns.
Qed.

Lemma set_code_ok code msg now id : stmt_ok (querySetTaskErrorCode code msg now id).
Proof. apply update_where_ok. intros d t Ht _ Hc%code_check_ok. upd_columns. Qed.

Lemma claim_ok id : stmt_ok (queryClaimParkedDiskFull id).
Proof. apply update_where_ok. intros. upd_columns. Qed.

Lemma mark_pending_ok now id : stmt_ok (queryMarkAdmissionPending now id).
Proof.
  apply update_where_ok. intros d t Ht [Hq%bool_decide_eq_true _]%andb_true_iff _. upd_columns.
Qed.

Lemma legal_paused s : s <> StateRemoved -> reachable s StatePaused.
Proof.
  intros Hs. destruct (decide (s = StatePaused)) as [->|]; [constructor|].
  apply reachable_one, transitionLegal_universal; [done|done|set_solver].
Qed.

Lemma schedule_park_ok now id from :
  StateRemoved ∉ from -> stmt_ok (queryScheduleParkTask now id from).
Proof.
  intros Hf. apply update_where_ok. intros d t Ht Hg%contains_spec _.
  split; [split; simpl; first [done|apply legal_paused; congruence]|by apply mark_cleared|done|by left].
Qed.

Lemma pause_code_ok code msg now id from d d' k :
  (forall t, d_tasks d !! id = Some t -> t_state t <> StateRemoved) ->
  queryPauseTaskWithCode code msg now id from d = Some (d', k) -> db_step d d'.
Proof.
  intros Hr [(-> & _)|(t & Ht & Hg & Hok & _ & ->)]%update_where_inv; [reflexivity|].
  apply update_step with (t := t); [done|].
  split; [split; simpl; first [done|by apply legal_paused, Hr]|by apply mark_cleared| |by left].
  intros _. by eapply code_check_ok.
Qed.

Lemma extract_ok p now id : stmt_ok (querySetTaskExtractProgress p now id).
Proof. apply update_where_ok. intros. upd_columns. Qed.

Lemma queue_position_ok p now id : stmt_ok (querySetQueuePosition p now id).
Proof. apply update_where_ok. intros. upd_columns. Qed.

Lemma selection_ok doc now id : stmt_ok (querySetTaskSelectionIntent doc now id).
Proof. apply update_where_ok. intros. upd_columns. Qed.

Lemma patch_row p t : row_step t (apply_patch p t) /\
  t_admission_pending (apply_patch p t) = t_admission_pending t /\
  t_state (apply_patch p t) = t_state t /\
  t_error_code (apply_patch p t) = t_error_code t /\
  t_engine_ref (apply_patch p t) = t_engine_ref t.
Proof.
  destruct p as [[] [] [] [] [] [] []], t; repeat split; simpl; try done; try constructor.
Qed.

Lemma patch_ok id p now :
  stmt_ok (update_where id any_row (fun t => set_updated_at now (apply_patch p t)) category_check).
Proof.
  apply update_where_ok. intros d t _ _ _.
  destruct (patch_row p t) as ([] & Hm & Hs & Hc & Hr).
  split; [by split| | |by left]; unfold mark_ok, code_ok; simpl; by rewrite ?Hm, ?Hs, ?Hc.
Qed.

Lemma insert_event_ok e : stmt_ok (queryInsertTaskEvent e).
Proof.
  intros d d' k. unfold queryInsertTaskEvent. intros Hq. break_all Hq; try reflexivity.
  split; simpl.
  - intros id u Hu. exists u. split; [done|reflexivity].
  - by apply prefix_app_r.
  - intros [Wm Wc Wh We]. split; simpl; [done|done|done|].
    apply list.Forall_app. split; [done|]. apply list.Forall_singleton. rewrite Heqo. eauto.
Qed.

Lemma create_ok id t : stmt_ok (queryCreateTask id t).
Proof.
  intros d d' k. unfold queryCreateTask. intros Hq. break_all Hq.
  set (n := ddl_defaults t) in *.
  apply andb_true_iff in Heqb as [Hrow Huniq].
  split; simpl.
  - intros j u Hj. exists u. rewrite lookup_insert_ne by congruence. split; [done|reflexivity].
  - done.
  - intros [Wm Wc Wh We]. split; simpl.
    + apply map_Forall_insert_2; [|done]. intros Hp. by destruct Hp.
    + apply map_Forall_insert_2; [|done]. unfold row_ok in Hrow.
      repeat apply andb_true_iff in Hrow as [Hrow ?]. unfold code_ok.
      destruct (t_error_code n); [by apply contains_spec|done].
    + assert (Hx : forall j u, d_tasks d !! j = Some u -> same_handle n u = false).
      { intros j u Hj. apply (unique_ok_spec d id n) with (j := j) (u := u) in Huniq;
          [tauto|done|congruence]. }
      intros i j a b. simpl. destruct (decide (i = id)) as [->|Hi], (decide (j = id)) as [->|Hj].
      * done.
      * rewrite lookup_insert_eq, lookup_insert_ne by done. intros ? Hb Hsh. simplify_eq.
        by rewrite (Hx _ _ Hb) in Hsh.
      * rewrite lookup_insert_eq, lookup_insert_ne by done. intros Ha ? Hsh. simplify_eq.
        rewrite same_handle_sym in Hsh. by rewrite (Hx _ _ Ha) in Hsh.
      * rewrite !lookup_insert_ne by done. apply Wh.
    + eapply list.Forall_impl; [exact We|]. intros e [u He].
      rewrite lookup_insert_ne; [by rewrite He|congruence].
Qed.
End Statements.

#[export] Hint Resolve progress_ok engine_ref_ok transition_ok mark_removed_ok clear_hold_ok
  clear_paused_hold_ok code_if_state_ok set_code_ok claim_ok mark_pending_ok schedule_park_ok
  extract_ok queue_position_ok selection_ok patch_ok insert_event_ok create_ok : dltool.

(** ** Methods *)

Lemma keeps_fire (S : db -> db -> Prop) `{!PreOrder S} {E} id : always (keeps S (E := E)) (fire_completed id).
Proof. intros o w. unfold fire_completed. destruct (w_hook w) eqn:?; same. Qed.

#[export] Hint Resolve keeps_fire : dltool.

Section Methods.
Context {E : Type}.
Implicit Types id : string.
Abbreviation always_keeps m := (always (keeps db_step (E := E)) m).

Lemma insertTaskEvent_keeps id lv code msg dt now : always_keeps (insertTaskEvent id lv code msg dt now).
Proof. unfold insertTaskEvent. walk; auto with dltool. Qed.

Lemma AppendEvent_keeps id lv code msg dt : always_keeps (AppendEvent id lv code msg dt).
Proof. unfold AppendEvent. walk. apply insertTaskEvent_keeps. Qed.

#[local] Hint Resolve insertTaskEvent_keeps : dltool.

Lemma prepareNewTask_keeps id st t : always_keeps (prepareNewTask id st t).
Proof. unfold prepareNewTask. walk; auto with dltool. Qed.

#[local] Hint Resolve prepareNewTask_keeps : dltool.

Lemma Create_keeps id st t : always_keeps (Create id st t).
Proof. unfold Create. walk; auto with dltool. Qed.

Lemma CreateLogged_keeps id st t : always_keeps (CreateLogged id st t).
Proof. unfold CreateLogged. walk; auto with dltool. Qed.

Lemma UpdateProgress_keeps id p : always_keeps (UpdateProgress id p).
Proof. unfold UpdateProgress. walk; auto with dltool. Qed.

Lemma SetEngineRef_keeps id ref : always_keeps (SetEngineRef id ref).
Proof. unfold SetEngineRef. walk; auto with dltool. Qed.

Lemma Transition_keeps id next code msg : always_keeps (Transition id next code msg).
Proof. unfold Transition. walk; try apply transition_ok; auto with dltool.
  all: by apply negb_false_iff. Qed.

Lemma MarkRemoved_keeps id data : always_keeps (MarkRemoved id data).
Proof. unfold MarkRemoved. walk; try apply mark_removed_ok; auto with dltool.
  all: by apply negb_false_iff. Qed.

Lemma ScheduleParked_keeps id : always_keeps (ScheduleParked id).
Proof. unfold ScheduleParked. walk; try apply schedule_park_ok; auto with dltool. set_solver. Qed.

Lemma SetErrorCodeIfState_keeps id st code msg : always_keeps (SetErrorCodeIfState id st code msg).
Proof. unfold SetErrorCodeIfState. walk; auto with dltool. Qed.

Lemma ClearHoldCode_keeps id : always_keeps (ClearHoldCode id).
Proof. unfold ClearHoldCode. walk; auto with dltool. Qed.

Lemma ClearPausedHoldCode_keeps id : always_keeps (ClearPausedHoldCode id).
Proof. unfold ClearPausedHoldCode. walk; auto with dltool. Qed.

Lemma ClaimParkedDiskFull_keeps id : always_keeps (ClaimParkedDiskFull id).
Proof. unfold ClaimParkedDiskFull. walk; auto with dltool. Qed.

Lemma MarkAdmissionPending_keeps id : always_keeps (MarkAdmissionPending id).
Proof. unfold MarkAdmissionPending. walk; auto with dltool. Qed.

Lemma Update_keeps id p : always_keeps (Update id p).
Proof. unfold Update. walk; auto with dltool. Qed.

Lemma SetSelectionIntent_keeps id sel : always_keeps (SetSelectionIntent id sel).
Proof. unfold SetSelectionIntent. walk; auto with dltool. Qed.

Lemma SetExtractProgress_keeps id p : always_keeps (SetExtractProgress id p).
Proof. unfold SetExtractProgress. walk; auto with dltool. Qed.

Lemma SetErrorCode_keeps id code msg : always_keeps (SetErrorCode id code msg).
Proof. unfold SetErrorCode. walk; auto with dltool. Qed.

(** The immediate transaction makes the state it read the state it updates:
    the write cannot meet a removed row. *)
Lemma PauseWithCode_keeps id p : always_keeps (PauseWithCode id p).
Proof.
  unfold PauseWithCode. case_match; [apply always_fail; apply _|].
  intros o w. apply keeps_with_tx_at; [apply _|]. rewrite bind_run. unfold query.
  set (w1 := bump (set_tx (Some (w_db w)) w)).
  destruct (o_io o (w_n w1)); [|same..].
  change (current w1) with (w_db w).
  destruct (queryTaskState id (w_db w)) as [cur|] eqn:Hcur; [|same].
  destruct (contains (FromStates p) cur) eqn:?; simpl; [|same].
  destruct (transitionLegal cur StatePaused) eqn:Hl; simpl; [|same].
  rewrite bind_run. cbn [unix_milli]. rewrite bind_run.
  set (w2 := bump (bump w1)).
  assert (Hex : forall q, (forall d k, q (w_db w) = Some (d, k) -> db_step (w_db w) d) ->
    keeps db_step w1 (exec q o w2).2).
  { intros q Hq. transitivity w2; [same|]. by apply (keeps_exec_at db_step). }
  specialize (Hex (queryPauseTaskWithCode (nullableText (ErrorCode p))
    (nullableText (ErrorMessage p)) (o_now o (w_n (bump w1))) id (FromStates p))).
  destruct (exec _ o w2) as [[e|k] w3] eqn:Hexec; simpl in Hex.
  - apply Hex. intros d k. apply pause_code_ok. intros t Ht. unfold queryTaskState in Hcur.
    rewrite Ht in Hcur. simpl in Hcur. simplify_eq. intros Hr. by rewrite Hr in Hl.
  - transitivity w3.
    + apply Hex. intros d k'. apply pause_code_ok. intros t Ht. unfold queryTaskState in Hcur.
      rewrite Ht in Hcur. simpl in Hcur. simplify_eq. intros Hr. by rewrite Hr in Hl.
    + destruct (k =? 0)%Z; [same|]. revert o w3 Hexec Hex. intros o w3 _ _.
      apply (always_bind (keeps db_step)); [apply insertTaskEvent_keeps|].
      intros. by apply keeps_commit; apply _.
Qed.
End Methods.

(** ** The store's write interface as one alphabet *)

Inductive op :=
  | OpCreate (id st : string) (t : task) | OpCreateLogged (id st : string) (t : task)
  | OpAppendEvent (id lv code msg : string) (dt : option event_detail)
  | OpUpdateProgress (id : string) (p : Progress) | OpSetEngineRef (id ref : string)
  | OpTransition (id : string) (next : TaskState) (code msg : string)
  | OpMarkRemoved (id : string) (data : option event_detail)
  | OpScheduleParked (id : string) | OpPauseWithCode (id : string) (p : CodedPause)
  | OpSetErrorCodeIfState (id : string) (st : TaskState) (code msg : string)
  | OpSetErrorCode (id code msg : string)
  | OpClearHoldCode (id : string) | OpClearPausedHoldCode (id : string)
  | OpClaimParkedDiskFull (id : string) | OpMarkAdmissionPending (id : string)
  | OpSetSelectionIntent (id : string) (sel : option SelectionIntent)
  | OpUpdate (id : string) (p : TaskPatch) | OpSetExtractProgress (id : string) (p : Z).

Section Histories.
Context {E : Type}.

(** One call of the interface; its error goes to the caller. *)
Definition run_op (c : op) : M E unit :=
  match c with
  | OpCreate id st t => ignore (Create id st t)
  | OpCreateLogged id st t => ignore (CreateLogged id st t)
  | OpAppendEvent id lv code msg dt => ignore (AppendEvent id lv code msg dt)
  | OpUpdateProgress id p => ignore (UpdateProgress id p)
  | OpSetEngineRef id ref => ignore (SetEngineRef id ref)
  | OpTransition id next code msg => ignore (Transition id next code msg)
  | OpMarkRemoved id data => ignore (MarkRemoved id data)
  | OpScheduleParked id => ignore (ScheduleParked id)
  | OpPauseWithCode id p => ignore (PauseWithCode id p)
  | OpSetErrorCodeIfState id st code msg => ignore (SetErrorCodeIfState id st code msg)
  | OpSetErrorCode id code msg => ignore (SetErrorCode id code msg)
  | OpClearHoldCode id => ignore (ClearHoldCode id)
  | OpClearPausedHoldCode id => ignore (ClearPausedHoldCode id)
  | OpClaimParkedDiskFull id => ignore (ClaimParkedDiskFull id)
  | OpMarkAdmissionPending id => ignore (MarkAdmissionPending id)
  | OpSetSelectionIntent id sel => ignore (SetSelectionIntent id sel)
  | OpUpdate id p => ignore (Update id p)
  | OpSetExtractProgress id p => ignore (SetExtractProgress id p)
  end.

(** A history of calls, failures included. *)
Fixpoint run_ops (l : list op) : M E unit :=
  match l with [] => mret tt | c :: l => run_op c ;; run_ops l end.

Lemma run_op_keeps c : always (keeps db_step) (run_op c).
Proof.
  destruct c; apply always_ignore; try apply _;
    auto using Create_keeps, CreateLogged_keeps, AppendEvent_keeps, UpdateProgress_keeps,
      SetEngineRef_keeps, Transition_keeps, MarkRemoved_keeps, ScheduleParked_keeps,
      PauseWithCode_keeps, SetErrorCodeIfState_keeps, SetErrorCode_keeps, ClearHoldCode_keeps,
      ClearPausedHoldCode_keeps, ClaimParkedDiskFull_keeps, MarkAdmissionPending_keeps,
      SetSelectionIntent_keeps, Update_keeps, SetExtractProgress_keeps.
Qed.

Lemma run_ops_keeps l : always (keeps db_step) (run_ops l).
Proof.
  induction l as [|c l IH]; simpl; [apply always_ret; apply _|].
  apply always_bind; [apply _|apply run_op_keeps|done].
Qed.
End Histories.

(** ** Transition *)

Lemma insert_event_run e d t :
  d_tasks d !! ev_task e = Some t -> contains eventLevels (ev_level e) = true ->
  queryInsertTaskEvent e d = Some (with_events (d_events d ++ [e]) d, 1%Z).
Proof. intros Ht Hl. unfold queryInsertTaskEvent. by rewrite Ht, Hl. Qed.

Lemma level_known next : contains eventLevels (transitionEventLevel next) = true.
Proof. by destruct next. Qed.

Section TransitionSpec.
Context {E : Type}.
Implicit Types (w : world E).

(** The tables after a committed transition. *)
Definition transitioned (id : string) (next : TaskState) (code msg evid : string) (now : Z)
    (t : task) (d : db) : db :=
  with_events (d_events d ++ [MkEvent evid id now (transitionEventLevel next) code msg None])
    (with_tasks (<[id := set_updated_at now (set_admission_pending 0 (set_state next t))]>
       (d_tasks d)) d).

(** What a transition answers and leaves behind. *)
Definition transition_post (id : string) (next : TaskState) (code msg : string) w (r : res unit) w' : Prop :=
  w_tx w' = None /\
  match r with
  | inr _ => exists t evid now,
      d_tasks (w_db w) !! id = Some t /\ transitionLegal (t_state t) next = true /\
      w_db w' = transitioned id next code msg evid now t (w_db w) /\
      w_fired w' = w_fired w ++ (if w_hook w && bool_decide (next = StateCompleted) then [id] else [])
  | inl ErrNotFound => d_tasks (w_db w) !! id = None /\ w_db w' = w_db w /\ w_fired w' = w_fired w
  | inl ErrIllegalTransition => exists t, d_tasks (w_db w) !! id = Some t /\
      transitionLegal (t_state t) next = false /\ w_db w' = w_db w /\ w_fired w' = w_fired w
  | inl ErrDriver => w_fired w' = w_fired w /\
      (w_db w' = w_db w \/ exists t evid now, d_tasks (w_db w) !! id = Some t /\
        transitionLegal (t_state t) next = true /\
        w_db w' = transitioned id next code msg evid now t (w_db w))
  | inl _ => False
  end.

Lemma Transition_run id next code msg o w : w_tx w = None ->
  transition_post id next code msg w (Transition id next code msg o w).1 (Transition id next code msg o w).2.
Proof.
  intros Hw. unfold transition_post, Transition. rewrite with_tx_run.
  destruct (o_io o (w_n w)) eqn:?; [|simpl; auto..].
  unfold_cmd. destruct (o_io o (S (w_n w))); [|simpl; by auto..].
  unfold queryTaskState. destruct (d_tasks (w_db w) !! id) as [t|] eqn:Ht; [|done].
  simpl. destruct (transitionLegal (t_state t) next) eqn:Hl; simpl; [|by eauto 10].
  unfold queryTransitionTask, update_where. rewrite Ht, (bool_decide_true (t_state t = _)) by done.
  simpl. destruct (o_io o (S (S (S (w_n w))))) eqn:?; simpl; [|by auto..].
  unfold insertTaskEvent; unfold_cmd.
  erewrite insert_event_run; [|apply lookup_insert_eq|apply level_known].
  destruct (o_io o (S (S (S (S (S (w_n w))))))); simpl; [|by auto..].
  destruct (o_io o (S (S (S (S (S (S (w_n w)))))))) eqn:?; simpl.
  - unfold fire_completed. case_bool_decide; simpl.
    + destruct (w_hook w) eqn:?; simpl; rewrite ?app_nil_r; split; eauto 10.
    + rewrite andb_false_r, app_nil_r. split; eauto 10.
  - auto.
  - split; [done|]. split; [done|]. right. by repeat eexists.
Qed.

(** C16: A transition is all or nothing: it reports success exactly when the row's
    new state, its cleared admission mark and its event are committed together
    and then fires the completion hook for [completed] only; an error other
    than the driver's leaves the tables alone and names the reason; a driver
    error leaves them alone or, when the acknowledgement of the commit was
    lost, has the whole transition in them. *)
Theorem Transition_spec id next code msg o w :
  w_tx w = None ->
  let '(r, w') := Transition id next code msg o w in
  w_tx w' = None /\
  match r with
  | inr _ => exists t evid now,
      d_tasks (w_db w) !! id = Some t /\ transitionLegal (t_state t) next = true /\
      w_db w' = transitioned id next code msg evid now t (w_db w) /\
      w_fired w' = w_fired w ++ (if w_hook w && bool_decide (next = StateCompleted) then [id] else [])
  | inl ErrNotFound => d_tasks (w_db w) !! id = None /\ w_db w' = w_db w /\ w_fired w' = w_fired w
  | inl ErrIllegalTransition => exists t, d_tasks (w_db w) !! id = Some t /\
      transitionLegal (t_state t) next = false /\ w_db w' = w_db w /\ w_fired w' = w_fired w
  | inl ErrDriver => w_fired w' = w_fired w /\
      (w_db w' = w_db w \/ exists t evid now, d_tasks (w_db w) !! id = Some t /\
        transitionLegal (t_state t) next = true /\
        w_db w' = transitioned id next code msg evid now t (w_db w))
  | inl _ => False
  end.
Proof. intros Hw. pose proof (Transition_run id next code msg o w Hw) as H. by destruct (Transition _ _ _ _ o w). Qed.
End TransitionSpec.

Lemma Transition_spec_witness :
  let '(r, w') := Transition "a" StateDownloading EmptyString EmptyString healthy (start two_queued) in
  r = inr tt /\ exists t evid now,
    d_tasks two_queued !! "a"%string = Some t /\ transitionLegal (t_state t) StateDownloading = true /\
    w_db w' = transitioned "a" StateDownloading EmptyString EmptyString evid now t two_queued.
Proof.
  assert (H := Transition_spec (E := list string) "a" StateDownloading EmptyString EmptyString healthy
    (start two_queued) eq_refl).
  assert (Hr : (Transition "a" StateDownloading EmptyString EmptyString healthy (start two_queued)).1 = inr tt)
    by by vm_compute.
  destruct (Transition _ _ _ _ _ _) as [r w']. simpl in Hr. subst r.
  destruct H as [_ (t & evid & now & Ht & Hl & Hd & _)]. split; [done|]. by exists t, evid, now.
Defined.

(** ** The grouped aggregates *)

Section Groups.
Implicit Types (m : gmap string task) (sel : task -> bool) (key : task -> string) (share : task -> Z).
Local Open Scope Z_scope.

(** The share of one row in group [g]. *)
Definition in_group sel key share (g : string) (t : task) : Z :=
  if sel t && bool_decide (key t = g) then share t else 0.

Definition in_total sel share (t : task) : Z := if sel t then share t else 0.

Lemma group_sum_insert sel key share m i t :
  m !! i = None ->
  group_sum sel key share (<[i := t]> m) =
    let acc := group_sum sel key share m in
    if sel t then <[key t := share t + default 0 (acc !! key t)]> acc else acc.
Proof.
  intros Hi. unfold group_sum. rewrite map_fold_insert_L; [done| |done].
  intros j1 j2 z1 z2 y _ _ _. destruct (sel z1), (sel z2); try done.
  destruct (decide (key z1 = key z2)) as [->|Hne].
  - rewrite !lookup_insert_eq, !insert_insert_eq. simpl. f_equal. lia.
  - rewrite !lookup_insert_ne by congruence. by rewrite insert_insert_ne.
Qed.

Lemma group_sum_lookup sel key share m g :
  default 0 (group_sum sel key share m !! g) = map_sum (in_group sel key share g) m.
Proof.
  induction m as [|i t m Hi IH] using map_ind; [done|].
  rewrite group_sum_insert, map_sum_insert_None by done. unfold in_group at 1.
  destruct (sel t); simpl; [|by rewrite IH].
  case_bool_decide as Hk.
  - subst g. rewrite lookup_insert_eq. simpl. by rewrite IH.
  - rewrite lookup_insert_ne by done. by rewrite IH.
Qed.

Lemma group_sum_present sel key share m g :
  is_Some (group_sum sel key share m !! g) <->
  exists i t, m !! i = Some t /\ sel t = true /\ key t = g.
Proof.
  induction m as [|i t m Hi IH] using map_ind.
  - split; [by intros [? ?]|]. intros (i & t & H & _). by rewrite lookup_empty in H.
  - rewrite group_sum_insert by done. simpl.
    assert ((exists j u, <[i:=t]> m !! j = Some u /\ sel u = true /\ key u = g) <->
      (sel t = true /\ key t = g) \/ exists j u, m !! j = Some u /\ sel u = true /\ key u = g) as ->.
    { split.
      - intros (j & u & Hj & ?). destruct (decide (i = j)) as [->|Hne].
        + rewrite lookup_insert_eq in Hj. simplify_eq. by left.
        + rewrite lookup_insert_ne in Hj by done. eauto 10.
      - intros [?|(j & u & Hj & ?)]; [exists i, t; by rewrite lookup_insert_eq|].
        exists j, u. rewrite lookup_insert_ne; [done|congruence]. }
    destruct (sel t); [|rewrite IH; naive_solver].
    destruct (decide (key t = g)) as [<-|Hne].
    + rewrite lookup_insert_eq. naive_solver.
    + rewrite lookup_insert_ne by done. rewrite IH. naive_solver.
Qed.

Lemma map_sum_total sel key share m :
  map_sum (in_total sel share) m = map_sum id (group_sum sel key share m).
Proof.
  induction m as [|i t m Hi IH] using map_ind; [done|].
  rewrite map_sum_insert_None, group_sum_insert by done. unfold in_total at 1. simpl.
  destruct (sel t); [|by rewrite IH].
  destruct (group_sum sel key share m !! key t) as [x|] eqn:Hx; simpl.
  - rewrite (map_sum_insert_Some id _ _ x) by done. rewrite IH. clear. generalize (map_sum id (group_sum sel key share m)).
    unfold id. lia.
  - rewrite map_sum_insert_None by done. rewrite IH. clear. generalize (map_sum id (group_sum sel key share m)).
    unfold id. lia.
Qed.

Lemma fill_lookup {V} (rows : gmap string V) : fill (map_to_list rows) = rows.
Proof.
  unfold fill.
  assert (H : forall (l : list (string * V)) (acc : gmap string V), NoDup l.*1 -> (forall k v, (k, v) ∈ l -> acc !! k = None) ->
    fold_left (fun a r => <[r.1 := r.2]> a) l acc = list_to_map l ∪ acc).
  { induction l as [|[k v] l IH]; intros acc Hd Hk; simpl; [by rewrite map_empty_union|].
    simpl in Hd. apply list.NoDup_cons in Hd as [Hn Hd]. rewrite IH; [|done|].
    - rewrite <- insert_union_l, insert_union_r; [done|].
      by apply not_elem_of_list_to_map_1.
    - intros k' v' Hin. rewrite lookup_insert_ne; [apply (Hk k' v'); by right|].
      intros ->. apply Hn. apply list_elem_of_fmap. by exists (k', v'). }
  rewrite H, list_to_map_to_list, map_union_empty; [done|apply NoDup_fst_map_to_list|].
  intros. apply lookup_empty.
Qed.

Lemma countRows_fold (l : list (string * Z)) c :
  fold_left (fun c r => MkCounts (Total c + r.2) (<[r.1 := r.2]> (ByEngine c))) l c =
  MkCounts (fold_left (fun n r => n + r.2) l (Total c))
    (fold_left (fun a r => <[r.1 := r.2]> a) l (ByEngine c)).
Proof. revert c. induction l as [|r l IH]; intros [n m]; [done|]. simpl. by rewrite IH. Qed.

Lemma sum_list_acc (l : list (string * Z)) n :
  fold_left (fun n r => n + r.2) l n = n + foldr (fun r acc => r.2 + acc) 0 l.
Proof. revert n. induction l as [|r l IH]; intros n; simpl; [lia|]. rewrite IH. lia. Qed.

Lemma countRows_spec (rows : gmap string Z) :
  countRows (map_to_list rows) = MkCounts (map_sum id rows) rows.
Proof.
  unfold countRows. rewrite countRows_fold. simpl. f_equal; [|apply fill_lookup].
  rewrite sum_list_acc. unfold map_sum. rewrite map_fold_foldr. simpl.
  induction (map_to_list rows) as [|[k v] l IH]; [done|]. simpl. rewrite <- IH. done.
Qed.

(** One per counted row. *)
Definition one : task -> Z := fun _ => 1.

(** The counts [CountActive] reads are those of the tables. *)
Lemma counts_total d : Total (countRows (queryCountActive d)) = map_sum (in_total counted one) (d_tasks d).
Proof.
  unfold queryCountActive. rewrite countRows_spec. simpl.
  by rewrite <- (map_sum_total counted t_engine one).
Qed.

Lemma counts_engine d e :
  by_engine (countRows (queryCountActive d)) e = map_sum (in_group counted t_engine one e) (d_tasks d).
Proof.
  unfold queryCountActive, by_engine. rewrite countRows_spec. simpl.
  apply group_sum_lookup.
Qed.
End Groups.

(** ** Candidate order *)

#[global] Instance process_le_total : base.Total process_le.
Proof.
  intros [i t] [j u]. unfold process_le. simpl.
  destruct (String.leb_total i j), (Z.lt_total (t_added_at t) (t_added_at u)) as [|[|]]; auto.
Qed.

#[global] Instance process_le_trans : Transitive process_le.
Proof.
  intros [i t] [j u] [k v]. unfold process_le. simpl.
  intros [?|[? H1]] [?|[? H2]]; [left; lia..|]. right. split; [lia|]. by eapply string_leb_trans.
Qed.

Lemma select_sublist {A} (l : list A) (n : Z) :
  (if (0 <? n)%Z then limit_rows n l else l) `sublist_of` l.
Proof.
  unfold limit_rows. repeat case_match; try reflexivity. apply sublist_take.
Qed.

Lemma candidates_rows (d : db) :
  exists rows : list (string * task),
    querySelectQueuedCandidates d = (fun p => candidate_of p.1 p.2) <$> rows /\
    StronglySorted process_le rows /\ NoDup rows.*1 /\
    forall id t, (id, t) ∈ rows <->
      d_tasks d !! id = Some t /\
      (t_state t = StateQueued \/ t_state t = StatePaused /\ t_error_code t = Some disk_full).
Proof.
  unfold querySelectQueuedCandidates. eexists. split; [done|].
  set (l := List.filter _ _). split; [apply StronglySorted_merge_sort; apply _|].
  split.
  - rewrite merge_sort_Permutation. subst l.
    pose proof (NoDup_fst_map_to_list (d_tasks d)) as Hd.
    induction (map_to_list (d_tasks d)) as [|[i t] l IH]; simpl; [constructor|].
    simpl in Hd. apply list.NoDup_cons in Hd as [Hn Hd]. destruct (is_candidate t); [|auto].
    simpl. apply list.NoDup_cons. split; [|auto]. intros ([j u] & -> & Hin)%list_elem_of_fmap.
    apply Hn. apply elem_of_filter_bool in Hin as [_ Hin]. apply list_elem_of_fmap. eauto.
  - intros id t. rewrite merge_sort_Permutation. subst l.
    rewrite elem_of_filter_bool, elem_of_map_to_list. unfold is_candidate. simpl.
    rewrite orb_true_iff, andb_true_iff, !bool_decide_eq_true. tauto.
Qed.

(** The pass sees exactly the waiting rows - the queued ones and those parked
    by a full disk - each once, oldest first with ties broken by id. *)
Theorem candidates_fifo (d : db) :
  exists rows : list (string * task),
    querySelectQueuedCandidates d = (fun p => candidate_of p.1 p.2) <$> rows /\
    StronglySorted process_le rows /\ NoDup rows.*1 /\
    forall id t, (id, t) ∈ rows <->
      d_tasks d !! id = Some t /\
      (t_state t = StateQueued \/ t_state t = StatePaused /\ t_error_code t = Some disk_full).
Proof. apply candidates_rows. Qed.

(** ** The operator's takeover *)

Definition hold_cleared (now : Z) (t : task) : task :=
  set_updated_at now (set_error_message None (set_error_code None t)).

Lemma not_candidate (d : db) id t : d_tasks d !! id = Some t -> is_candidate t = false ->
  id ∉ c_id <$> querySelectQueuedCandidates d.
Proof.
  intros Ht Hc (c & -> & Hin)%list_elem_of_fmap.
  destruct (candidates_rows d) as (rows & Hr & _ & _ & Hrows). rewrite Hr in Hin.
  apply list_elem_of_fmap in Hin as ([i u] & -> & [Hu Hs]%Hrows). simpl in Ht. simplify_eq.
  unfold is_candidate in Hc. destruct Hs as [Hs|[Hs He]]; rewrite Hs in Hc; simpl in Hc; [done|].
  by rewrite He in Hc.
Qed.

(** What the takeover answers and leaves behind. *)
Definition takeover_post {E} (id : string) (w : world E) (r : res bool) (w' : world E) : Prop :=
  match r with
  | inr wiped => exists t t', d_tasks (w_db w) !! id = Some t /\ d_tasks (w_db w') !! id = Some t' /\
      t_state t' = t_state t /\
      (wiped = true <-> t_state t = StatePaused /\ is_hold_code (t_error_code t) = true) /\
      (t_state t = StatePaused -> id ∉ c_id <$> querySelectQueuedCandidates (w_db w')) /\
      (wiped = false -> w_db w' = w_db w) /\
      (forall j, j <> id -> d_tasks (w_db w') !! j = d_tasks (w_db w) !! j)
  | inl ErrNotFound => d_tasks (w_db w) !! id = None /\ w_db w' = w_db w
  | inl e => e = ErrDriver /\ (w_db w' = w_db w \/ exists t now,
      d_tasks (w_db w) !! id = Some t /\
      w_db w' = with_tasks (<[id := hold_cleared now t]> (d_tasks (w_db w))) (w_db w))
  end.

Lemma ClearPausedHoldCode_run {E} id o (w : world E) : w_tx w = None ->
  let '(r, w') := ClearPausedHoldCode id o w in takeover_post id w r w'.
Proof.
  intros Hw. unfold takeover_post, ClearPausedHoldCode. rewrite with_tx_run.
  destruct (o_io o (w_n w)); [|by auto..]. unfold_cmd. simpl.
  unfold queryClearPausedTaskHoldCode, update_where, no_check.
  destruct (d_tasks (w_db w) !! id) as [t|] eqn:Ht.
  - destruct (bool_decide (t_state t = StatePaused) && is_hold_code (t_error_code t)) eqn:Hg.
    + apply andb_true_iff in Hg as [Hp%bool_decide_eq_true Hh].
      destruct (o_io o _); simpl; [|by auto..]. destruct (o_io o _); simpl; [|by auto|by eauto 10].
      eexists t, _. split; [done|]. split; [apply lookup_insert_eq|]. split; [done|].
      split; [done|]. split; [|split; [done|]].
      * intros _. eapply not_candidate; [apply lookup_insert_eq|]. unfold is_candidate. simpl.
        by rewrite Hp.
      * intros j Hj. by rewrite lookup_insert_ne.
    + destruct (o_io o _); simpl; [|by auto..]. destruct (o_io o _); simpl; [|by auto..].
      unfold queryTaskState. rewrite Ht. simpl. destruct (o_io o _); simpl; [|by auto..].
      exists t, t. split; [done|]. split; [done|]. split; [done|]. split; [|split; [|done]].
      * split; [done|]. intros [Hp Hh]. by rewrite Hp, Hh in Hg.
      * intros Hp. eapply not_candidate; [done|]. unfold is_candidate. rewrite Hp. simpl.
        apply bool_decide_eq_false. intros He. by rewrite Hp, He in Hg.
  - destruct (o_io o _); simpl; [|by auto..]. destruct (o_io o _); simpl; [|by auto..].
    unfold queryTaskState. by rewrite Ht.
Qed.

(** Clearing the hold off a paused row is the operator's takeover: once it
    answers, whether it wiped a stamp or found none, a paused row is no longer
    among the candidates an admission pass selects, so the pass cannot resume
    it; the row's state and every other row are untouched. *)
Theorem paused_takeover {E} id o (w : world E) : w_tx w = None ->
  let '(r, w') := ClearPausedHoldCode id o w in
  match r with
  | inr wiped => exists t t', d_tasks (w_db w) !! id = Some t /\ d_tasks (w_db w') !! id = Some t' /\
      t_state t' = t_state t /\
      (wiped = true <-> t_state t = StatePaused /\ is_hold_code (t_error_code t) = true) /\
      (t_state t = StatePaused -> id ∉ c_id <$> querySelectQueuedCandidates (w_db w')) /\
      (wiped = false -> w_db w' = w_db w) /\
      (forall j, j <> id -> d_tasks (w_db w') !! j = d_tasks (w_db w) !! j)
  | inl ErrNotFound => d_tasks (w_db w) !! id = None /\ w_db w' = w_db w
  | inl e => e = ErrDriver /\ (w_db w' = w_db w \/ exists t now,
      d_tasks (w_db w) !! id = Some t /\
      w_db w' = with_tasks (<[id := hold_cleared now t]> (d_tasks (w_db w))) (w_db w))
  end.
Proof. intros Hw. pose proof (ClearPausedHoldCode_run id o w Hw) as H. by destruct (ClearPausedHoldCode id o w). Qed.

(** A task parked by a full disk. *)
Definition parked_full : db :=
  tables_of [("a"%string, set_error_code (Some disk_full) (http_task StatePaused 1))].

Lemma paused_takeover_witness :
  c_id <$> querySelectQueuedCandidates parked_full = ["a"%string] /\
  let '(r, w') := ClearPausedHoldCode "a" healthy (start parked_full) in
  r = inr true /\ "a"%string ∉ c_id <$> querySelectQueuedCandidates (w_db w').
Proof.
  split; [by vm_compute|].
  pose proof (paused_takeover "a" healthy (start parked_full) eq_refl) as H.
  destruct (ClearPausedHoldCode _ _ _) as [r w'] eqn:Hr.
  assert (Hx : r = inr true) by (change r with (r, w').1; rewrite <- Hr; by vm_compute).
  rewrite Hx in H |- *. destruct H as (t & t' & _ & _ & _ & Hwiped & Hn & _). split; [done|].
  apply Hn. by apply Hwiped.
Defined.

(** ** Schedule membership *)

Lemma newest_in l e : newest l = Some e -> e ∈ l.
Proof.
  revert e. induction l as [|a l IH]; simpl; [done|]. intros e He.
  destruct (newest l) as [b|] eqn:Hb; [|simplify_eq; left].
  destruct (later_event b a); simplify_eq; [right; auto|left].
Qed.

(** [e] sorts before [e'] and not the other way round. *)
Definition newer (e e' : task_event) : Prop :=
  later_event e e' = true /\ later_event e' e = false.

Lemma newest_max l e :
  e ∈ l -> (forall e', e' ∈ l -> e' <> e -> newer e e') -> newest l = Some e.
Proof.
  induction l as [|a l IH]; intros Hin Hmax; [by apply elem_of_nil in Hin|]. simpl.
  destruct (decide (e ∈ l)) as [Hl|Hl].
  - rewrite IH; [|done|intros; apply Hmax; [by right|done]].
    destruct (decide (a = e)) as [->|Hne]; [by destruct (later_event e e)|].
    by destruct (Hmax a) as [-> _]; [left|done|].
  - apply elem_of_cons in Hin as [<-|?]; [|done].
    destruct (newest l) as [b|] eqn:Hb; [|done]. apply newest_in in Hb.
    by destruct (Hmax b) as [_ ->]; [by right|congruence|].
Qed.

(** The newest membership event of a task decides whether the schedule owns
    its pause: a schedule-park event makes the paused task one the schedule
    resumes, and a later pause or resume by the operator takes it back. *)
Theorem schedule_membership_latest (d : db) (id : string) (t : task) (e : task_event) :
  d_tasks d !! id = Some t -> t_state t = StatePaused ->
  e ∈ d_events d -> membership id e = true ->
  (forall e', e' ∈ d_events d -> membership id e' = true -> e' <> e -> newer e e') ->
  id ∈ queryListScheduleParked d <-> ev_code e = CodeTaskSchedulePaused.
Proof.
  intros Ht Hp Hin Hm Hmax.
  assert (Hl : latest_membership id (d_events d) = Some e).
  { apply newest_max; [by apply elem_of_filter_bool|].
    intros e' [??]%elem_of_filter_bool. auto. }
  unfold queryListScheduleParked. rewrite list_elem_of_fmap. split.
  - intros ([i u] & -> & [Hc Hiu]%elem_of_filter_bool). simpl in *.
    rewrite Hl in Hc. apply andb_true_iff in Hc as [_ Hc%bool_decide_eq_true]. by simplify_eq/=.
  - intros Hc. exists (id, t). split; [done|]. apply elem_of_filter_bool. simpl.
    rewrite Hl, Hp. simpl. rewrite Hc. split; [by rewrite !bool_decide_true|].
    by apply elem_of_map_to_list.
Qed.

(** Two schedule parks and an operator's pause, on one paused row. *)
Definition parked_row : db :=
  let e id at_ code := MkEvent id "a" at_ "info" code EmptyString None in
  with_events [e "1" 1%Z CodeTaskSchedulePaused; e "3" 3%Z CodeTaskSchedulePaused; e "2" 2%Z CodeTaskPaused]%string
    (tables_of [("a"%string, http_task StatePaused 1)]).

Lemma schedule_membership_latest_witness :
  "a"%string ∈ queryListScheduleParked parked_row.
Proof.
  apply (schedule_membership_latest parked_row "a" (http_task StatePaused 1)
    (MkEvent "3" "a" 3 "info" CodeTaskSchedulePaused EmptyString None)); try reflexivity.
  - simpl. set_solver.
  - intros e' Hin _ Hne. simpl in Hin.
    repeat (apply elem_of_cons in Hin as [->|Hin]; [done || by split|]). by apply elem_of_nil in Hin.
Defined.
