(* ===== verification/Infohash.v ===== *)
(** * BitTorrent identity ([internal/store/tasks_infohash.go])

    The two hash columns of a task and the duplicate rule: every lookup asks
    both columns together, a stored hash is never overwritten, no two live rows
    share one, and a task whose metadata resolves onto another's identity is
    paused in place. *)

From S2P Require Import Prelude GoStrings TaskState Schema Lease World Frame Store Engine Scenario StoreProps Manifest Hash.

(** ** Statements *)

(** The pair of arguments against the two columns; an empty one matches
    nothing. *)
Definition carries (v1 v2 : string) (t : task) : bool :=
  (bool_decide (t_infohash_v1 t = Some v1) && bool_decide (v1 <> EmptyString)
   || bool_decide (t_infohash_v2 t = Some v2) && bool_decide (v2 <> EmptyString))
  && bool_decide (t_state t <> StateRemoved).

(** [LIMIT 1] without an order: the first row of the listing. *)
Definition first_row (sel : string * task -> bool) (d : db) : option (string * task) :=
  head (List.filter sel (map_to_list (d_tasks d))).

Definition queryFindTaskByInfohash (v1 v2 : string) : db -> option (string * task) :=
  first_row (fun p => carries v1 v2 p.2).

Definition queryTaskIDByEngineRef (engine ref : string) : db -> option (string * task) :=
  first_row (fun p => bool_decide (t_engine p.2 = engine) && bool_decide (t_engine_ref p.2 = Some ref)
    && bool_decide (t_state p.2 <> StateRemoved)).

Definition queryTaskInfohashes (id : string) (d : db) : option (option string * option string) :=
  (fun t => (t_infohash_v1 t, t_infohash_v2 t)) <$> d_tasks d !! id.

Definition querySetTaskInfohashes (v1 v2 : option string) (now : Z) (id : string) : stmt :=
  update_where id any_row
    (fun t => set_updated_at now (set_infohash_v2 v2 (set_infohash_v1 v1 t)))
    (fun d t => unique_ok d id t).

Definition queryOtherTaskByInfohash (v1 v2 excludeID : string) : db -> option (string * task) :=
  first_row (fun p => carries v1 v2 p.2 && bool_decide (p.1 <> excludeID)).

(** ** Methods *)

Definition errorCodeTorrentDuplicate : string := "torrent_duplicate".
Definition CodeTaskDuplicatePaused : string := "task.duplicate_paused".
Definition messageTaskDuplicatePaused : string :=
  "metadata resolved to a torrent another task already holds; paused without deleting anything".

Definition duplicatePauseFromStates : list TaskState :=
  [StateQueued; StateDownloading; StateChecking; StateSeeding; StateExtracting; StateMoving; StateError].

(** One column of [SetInfohashes]: what it holds next, or the refusal. *)
Definition next_hash (stored wanted : string) : option string :=
  if bool_decide (wanted = EmptyString) then Some stored
  else if bool_decide (stored <> EmptyString) && bool_decide (stored <> wanted) then None
  else Some wanted.

Section Methods.
Context {UT : UnicodeTables} {E : Type}.
Abbreviation M := (M E).

(** [NormaliseInfohash] of a string; the error carries no sentinel. *)
Definition normalise (s : string) : res string :=
  match NormaliseInfohash (bytes_of s) with Some h => inr (string_of h) | None => inl ErrArgument end.

(** [FindByInfohash]. *)
Definition FindByInfohash (v1 v2 : string) : M (string * task) :=
  v1n ← of_res (normalise v1);
  v2n ← of_res (normalise v2);
  row ← query (queryFindTaskByInfohash v1n v2n);
  match row with None => fail ErrNotFound | Some row => mret row end.

(** [SetInfohashes]; the refused overwrite carries no sentinel. *)
Definition SetInfohashes (taskID v1 v2 : string) : M unit :=
  v1n ← of_res (normalise v1);
  v2n ← of_res (normalise v2);
  with_tx (
    cur ← query (queryTaskInfohashes taskID);
    match cur with
    | None => fail ErrNotFound
    | Some (c1, c2) =>
      match next_hash (textOrEmpty c1) v1n with
      | None => fail ErrArgument
      | Some nextV1 =>
        match next_hash (textOrEmpty c2) v2n with
        | None => fail ErrArgument
        | Some nextV2 =>
          if bool_decide (nextV1 = textOrEmpty c1) && bool_decide (nextV2 = textOrEmpty c2)
          then mret tt
          else
            other ← query (queryOtherTaskByInfohash nextV1 nextV2 taskID);
            match other with
            | Some _ => fail ErrDuplicateInfohash
            | None =>
              now ← unix_milli;
              r ← attempt (exec (querySetTaskInfohashes (nullableText nextV1) (nullableText nextV2) now taskID));
              match r with
              | inl ErrConstraint => fail ErrDuplicateInfohash
              | inl e => fail e
              | inr _ => commit
              end
            end
        end
      end
    end).

(** [PauseDuplicate]. *)
Definition PauseDuplicate (taskID : string) : M unit :=
  cur ← query (queryTaskErrorCode taskID);
  match cur with
  | None => fail ErrNotFound
  | Some (code, _, state) =>
    if bool_decide (state = StatePaused) && bool_decide (code = Some errorCodeTorrentDuplicate)
    then mret tt
    else PauseWithCode taskID
      (MkCodedPause CodeTaskDuplicatePaused messageTaskDuplicatePaused errorCodeTorrentDuplicate
         "another task already holds this torrent's identity" duplicatePauseFromStates)
  end.

(** [ResolveInfohashes]. *)
Definition ResolveInfohashes (engineName ref v1 v2 : string) : M bool :=
  v1n ← of_res (normalise v1);
  v2n ← of_res (normalise v2);
  if bool_decide (v1n = EmptyString) && bool_decide (v2n = EmptyString) then mret false
  else
    row ← query (queryTaskIDByEngineRef engineName ref);
    match row with
    | None => mret false
    | Some (id, _) =>
      r ← attempt (SetInfohashes id v1n v2n);
      match r with
      | inl ErrNotFound => mret false
      | inl ErrDuplicateInfohash => PauseDuplicate id ;; mret true
      | inl e => fail e
      | inr _ => mret false
      end
    end.
End Methods.

(** ** What a write may do to identities *)

(** A column is empty or holds a canonical hash. *)
Definition column_ok (c : option string) : Prop :=
  match c with None => True | Some h => canonical (bytes_of h) end.

(** A stored hash stays. *)
Definition learned (a b : option string) : Prop := a = None \/ a = b.

Record hash_row (t t' : task) : Prop := {
  hr_state : reachable (t_state t) (t_state t');
  hr_v1 : learned (t_infohash_v1 t) (t_infohash_v1 t');
  hr_v2 : learned (t_infohash_v2 t) (t_infohash_v2 t');
  hr_engine : t_engine t = t_engine t';
  hr_ref : t_engine_ref t = t_engine_ref t';
  hr_uri : t_source_uri t = t_source_uri t';
  hr_dest : t_destination t = t_destination t';
  hr_path : t_content_path t = t_content_path t' }.

(** Live rows have distinct identities, spelled canonically. *)
Record identities (d : db) : Prop := {
  id_canonical : map_Forall (fun _ t => column_ok (t_infohash_v1 t) /\ column_ok (t_infohash_v2 t)) (d_tasks d);
  id_unique : forall i j t u, d_tasks d !! i = Some t -> d_tasks d !! j = Some u ->
    same_infohash t u = true -> i = j }.

Record hash_step (d d' : db) : Prop := {
  hs_rows : forall id t, d_tasks d !! id = Some t ->
    exists t', d_tasks d' !! id = Some t' /\ hash_row t t';
  hs_new : forall id, d_tasks d !! id = None -> d_tasks d' !! id = None;
  hs_events : d_events d `prefix_of` d_events d';
  hs_files : d_files d = d_files d';
  hs_identities : identities d -> identities d' }.

#[global] Instance hash_row_pre : PreOrder hash_row.
Proof.
  split.
  - intros t. split; first [done|by right|constructor].
  - intros t u v [] []. unfold learned in *.
    split; [by eapply reachable_trans|unfold learned; intuition congruence|unfold learned; intuition congruence|congruence|congruence|congruence|
      congruence|congruence].
Qed.

#[global] Instance hash_step_pre : PreOrder hash_step.
Proof.
  split.
  - intros d. split; [|done..]. intros id t Ht. exists t. split; [done|reflexivity].
  - intros d e f [] []. split; [|eauto|by etransitivity|congruence|tauto].
    intros id t (t' & Ht' & H1)%hs_rows0. destruct (hs_rows1 _ _ Ht') as (t'' & Ht'' & H2).
    exists t''. split; [done|by etransitivity].
Qed.

Lemma same_infohash_sym t u : same_infohash t u = same_infohash u t.
Proof.
  unfold same_infohash. destruct (decide (t_state t <> StateRemoved)), (decide (t_state u <> StateRemoved)).
  all: rewrite ?(bool_decide_eq_true_2 (t_state t <> StateRemoved)), ?(bool_decide_eq_false_2 (t_state t <> StateRemoved)),
    ?(bool_decide_eq_true_2 (t_state u <> StateRemoved)), ?(bool_decide_eq_false_2 (t_state u <> StateRemoved)) by done;
    simpl; try done.
  f_equal; apply bool_decide_ext; split; intros [-> ?]; done.
Qed.

(** One row updated: it keeps its hashes or takes ones no other live row has. *)
Lemma hash_update d id t t' :
  d_tasks d !! id = Some t -> hash_row t t' ->
  (column_ok (t_infohash_v1 t) /\ column_ok (t_infohash_v2 t) ->
   column_ok (t_infohash_v1 t') /\ column_ok (t_infohash_v2 t')) ->
  (t_infohash_v1 t' = t_infohash_v1 t /\ t_infohash_v2 t' = t_infohash_v2 t \/ unique_ok d id t' = true) ->
  hash_step d (with_tasks (<[id := t']> (d_tasks d)) d).
Proof.
  intros Ht Hr Hcol Hu. split; simpl; [|..|done|done|].
  - intros j u Hj. destruct (decide (j = id)) as [->|Hne].
    + rewrite lookup_insert_eq. simplify_eq. eauto.
    + rewrite lookup_insert_ne by done. exists u. split; [done|reflexivity].
  - intros j Hj. rewrite lookup_insert_ne by congruence. done.
  - intros [Hc Hun]. split; simpl.
    + apply map_Forall_insert_2; [apply Hcol, (Hc id t Ht)|done].
    + assert (Hx : forall j u, d_tasks d !! j = Some u -> j <> id -> same_infohash t' u = false).
      { intros j u Hj Hne. destruct Hu as [[H1 H2]|Hu].
        - destruct (same_infohash t' u) eqn:Hs; [|done]. exfalso. apply Hne. symmetry.
          eapply Hun; [done|done|]. unfold same_infohash in *. rewrite H1, H2 in Hs.
          rewrite !andb_true_iff, !bool_decide_eq_true in *. destruct Hs as [[Hl ?] ?].
          split_and!; [|done|done]. intros Hrem. apply Hl. apply reachable_removed. rewrite <- Hrem. apply Hr.
        - apply unique_ok_spec with (j := j) (u := u) in Hu; tauto. }
      intros i j a b. destruct (decide (i = id)) as [->|Hi], (decide (j = id)) as [->|Hj]; [done|..].
      * rewrite lookup_insert_eq, lookup_insert_ne by done. intros ? Hb Hs. simplify_eq.
        by rewrite (Hx _ _ Hb Hj) in Hs.
      * rewrite lookup_insert_eq, lookup_insert_ne by done. intros Ha ? Hs. simplify_eq.
        rewrite same_infohash_sym in Hs. by rewrite (Hx _ _ Ha Hi) in Hs.
      * rewrite !lookup_insert_ne by done. apply Hun.
Qed.

Lemma first_row_some sel d id t : first_row sel d = Some (id, t) ->
  d_tasks d !! id = Some t /\ sel (id, t) = true.
Proof.
  unfold first_row. intros H. assert (Hin : In (id, t) (List.filter sel (map_to_list (d_tasks d)))).
  { destruct (List.filter _ _); [done|]. injection H as ->. by left. }
  apply filter_In in Hin as [Hin%list_elem_of_In%elem_of_map_to_list ?]. done.
Qed.

Lemma first_row_none sel d id t : first_row sel d = None -> d_tasks d !! id = Some t -> sel (id, t) = false.
Proof.
  unfold first_row. intros H Ht. destruct (sel (id, t)) eqn:Hs; [|done].
  assert (Hin : In (id, t) (List.filter sel (map_to_list (d_tasks d)))).
  { apply filter_In. split; [|done]. by apply list_elem_of_In, elem_of_map_to_list. }
  by destruct (List.filter _ _).
Qed.

(** The row after a write of the pair. *)
Definition with_hashes (n1 n2 : string) (now : Z) (t : task) : task :=
  set_updated_at now (set_infohash_v2 (nullableText n2) (set_infohash_v1 (nullableText n1) t)).

Lemma nullable_some n h : nullableText n = Some h -> n = h /\ h <> EmptyString.
Proof. unfold nullableText. case_bool_decide; [done|]. intros. by simplify_eq. Qed.

(** After the re-check no index can refuse the write. *)
Lemma recheck_unique d id t n1 n2 now :
  handles_unique d -> d_tasks d !! id = Some t ->
  queryOtherTaskByInfohash n1 n2 id d = None -> unique_ok d id (with_hashes n1 n2 now t) = true.
Proof.
  intros Hh Ht Hno. apply unique_ok_spec. intros j u Hj Hne. split.
  - change (same_handle (with_hashes n1 n2 now t) u) with (same_handle t u).
    destruct (same_handle t u) eqn:Hs; [|done]. exfalso. apply Hne. symmetry. by eapply Hh.
  - destruct (same_infohash _ u) eqn:Hs; [|done]. exfalso.
    eapply first_row_none in Hno; [|exact Hj]. simpl in Hno.
    rewrite (bool_decide_eq_true_2 (j <> id)), andb_true_r in Hno by done.
    unfold same_infohash in Hs. unfold carries in Hno.
    rewrite !andb_true_iff, !orb_true_iff, !bool_decide_eq_true in Hs. simpl in Hs.
    destruct Hs as [[_ Hl] Hs]. rewrite (bool_decide_eq_true_2 (t_state u <> _)), andb_true_r in Hno by done.
    apply orb_false_iff in Hno as [H1 H2]. destruct Hs as [[He Hn]|[He Hn]].
    + destruct (nullableText n1) as [h|] eqn:E; [|done]. apply nullable_some in E as [-> Hne1].
      rewrite <- He, !bool_decide_eq_true_2 in H1 by done. done.
    + destruct (nullableText n2) as [h|] eqn:E; [|done]. apply nullable_some in E as [-> Hne1].
      rewrite <- He, !bool_decide_eq_true_2 in H2 by done. done.
Qed.

Section SetSpec.
Context {UT : UnicodeTables} {E : Type}.
Implicit Types w : world E.

(** The pair the row would hold next. *)
Definition next_pair (t : task) (v1n v2n : string) : option (string * string) :=
  n1 ← next_hash (textOrEmpty (t_infohash_v1 t)) v1n;
  n2 ← next_hash (textOrEmpty (t_infohash_v2 t)) v2n;
  Some (n1, n2).

Definition stored_pair (t : task) : string * string :=
  (textOrEmpty (t_infohash_v1 t), textOrEmpty (t_infohash_v2 t)).

Definition rehashed (id n1 n2 : string) (now : Z) (t : task) (d : db) : db :=
  with_tasks (<[id := with_hashes n1 n2 now t]> (d_tasks d)) d.

(** What one run of [SetInfohashes] did. *)
Definition set_outcome (id v1n v2n : string) (d d' : db) (r : res unit) : Prop :=
  match r with
  | inr _ => exists t n1 n2, d_tasks d !! id = Some t /\ next_pair t v1n v2n = Some (n1, n2) /\
      ((n1, n2) = stored_pair t /\ d' = d \/
       (n1, n2) <> stored_pair t /\ queryOtherTaskByInfohash n1 n2 id d = None /\
       exists now, d' = rehashed id n1 n2 now t d)
  | inl ErrNotFound => d_tasks d !! id = None /\ d' = d
  | inl ErrArgument => exists t, d_tasks d !! id = Some t /\ next_pair t v1n v2n = None /\ d' = d
  | inl ErrDuplicateInfohash => exists t n1 n2 j u, d_tasks d !! id = Some t /\
      next_pair t v1n v2n = Some (n1, n2) /\ j <> id /\ d_tasks d !! j = Some u /\
      carries n1 n2 u = true /\ d' = d
  | inl ErrDriver => d' = d \/ exists t n1 n2 now, d_tasks d !! id = Some t /\
      next_pair t v1n v2n = Some (n1, n2) /\ queryOtherTaskByInfohash n1 n2 id d = None /\
      d' = rehashed id n1 n2 now t d
  | inl _ => False
  end.

Lemma SetInfohashes_run id v1 v2 v1n v2n o w :
  normalise v1 = inr v1n -> normalise v2 = inr v2n -> w_tx w = None -> handles_unique (w_db w) ->
  let '(r, w') := SetInfohashes id v1 v2 o w in
  w_tx w' = None /\ set_outcome id v1n v2n (w_db w) (w_db w') r.
Proof.
  intros Hn1 Hn2 Hw Hh. unfold SetInfohashes. rewrite Hn1, Hn2. cbn [of_res]. rewrite !bind_run.
  cbn [mret M_ret]. rewrite !bind_run. cbn [mret M_ret]. rewrite with_tx_run.
  destruct (o_io o (w_n w)) eqn:?; [|simpl; auto..].
  unfold_cmd. destruct (o_io o (S (w_n w))); [|simpl; by auto..].
  unfold queryTaskInfohashes. destruct (d_tasks (w_db w) !! id) as [t|] eqn:Ht; [|done]. simpl.
  assert (Hnp : next_pair t v1n v2n = n1 ← next_hash (textOrEmpty (t_infohash_v1 t)) v1n;
    n2 ← next_hash (textOrEmpty (t_infohash_v2 t)) v2n; Some (n1, n2)) by done.
  destruct (next_hash (textOrEmpty (t_infohash_v1 t)) v1n) as [n1|]; [|split; [done|]; by exists t].
  destruct (next_hash (textOrEmpty (t_infohash_v2 t)) v2n) as [n2|]; [|split; [done|]; by exists t]. simpl in Hnp.
  destruct (bool_decide (n1 = _) && bool_decide (n2 = _)) eqn:Hsame.
  { apply andb_true_iff in Hsame as [->%bool_decide_eq_true ->%bool_decide_eq_true].
    split; [done|]. exists t, (textOrEmpty (t_infohash_v1 t)), (textOrEmpty (t_infohash_v2 t)).
    split_and!; [done..|]. by left. }
  assert (Hns : (n1, n2) <> stored_pair t).
  { intros [= -> ->]. by rewrite !bool_decide_eq_true_2 in Hsame. }
  simpl. destruct (o_io o (S (S (w_n w)))); simpl; [|by auto..].
  destruct (queryOtherTaskByInfohash n1 n2 id (w_db w)) as [[j u]|] eqn:Hother; simpl.
  { split; [done|]. apply first_row_some in Hother as [Hj Hs]. simpl in Hs.
    apply andb_true_iff in Hs as [? ?%bool_decide_eq_true]. by exists t, n1, n2, j, u. }
  unfold querySetTaskInfohashes, update_where. rewrite Ht. cbn [any_row].
  set (now := o_now o _). fold (with_hashes n1 n2 now t).
  rewrite (recheck_unique _ _ _ _ _ now Hh Ht Hother).
  destruct (o_io o (S (S (S (S (w_n w)))))) eqn:?; simpl; [|by auto..].
  destruct (o_io o (S (S (S (S (S (w_n w))))))) eqn:?; simpl.
  - split; [done|]. exists t, n1, n2. split_and!; [done..|]. right. by eauto.
  - by auto.
  - split; [done|]. right. exists t, n1, n2, now. by split_and!.
Qed.
End SetSpec.

(** ** The steps are hash steps *)

Section Steps.
Context {UT : UnicodeTables} {E : Type}.
Implicit Types w : world E.

Lemma canonical_bytes h : canonical h -> Forall is_byte h.
Proof.
  intros [_ Hh]. apply list.Forall_forall. intros b Hb%list_elem_of_In.
  eapply forallb_forall in Hh; [|done]. unfold lower_hex, between, is_byte in *. lia.
Qed.

Lemma normalise_ok v n : normalise v = inr n -> n = EmptyString \/ canonical (bytes_of n).
Proof.
  unfold normalise. destruct (NormaliseInfohash (bytes_of v)) as [h|] eqn:Hn; [|done]. intros [= <-].
  apply Normalise_canonical in Hn as [->|Hc]; [by left| |apply bytes_are_bytes].
  right. by rewrite bytes_of_string by by apply canonical_bytes.
Qed.

Lemma canonical_nonempty n : canonical (bytes_of n) -> n <> EmptyString.
Proof. intros [[H|H] _] ->; done. Qed.

Lemma next_hash_column c v n : column_ok c -> v = EmptyString \/ canonical (bytes_of v) ->
  next_hash (textOrEmpty c) v = Some n -> learned c (nullableText n) /\ column_ok (nullableText n).
Proof.
  intros Hc Hv. unfold next_hash, nullableText, learned. case_bool_decide as Hve.
  - intros [= <-]. destruct c as [h|]; [|by auto].
    change (textOrEmpty (Some h)) with h.
    rewrite bool_decide_eq_false_2 by by apply canonical_nonempty. auto.
  - destruct Hv as [|Hv]; [done|]. destruct (bool_decide (textOrEmpty c <> _) && _) eqn:Hx; [done|].
    intros [= <-]. rewrite (bool_decide_eq_false_2 (v = _)) by done. split; [|done].
    destruct c as [h|]; [right|by left]. cbn [textOrEmpty default] in Hx.
    change (bool_decide (h <> EmptyString) && bool_decide (h <> v) = false) in Hx.
    rewrite (bool_decide_eq_true_2 (h <> EmptyString)) in Hx by by apply canonical_nonempty.
    simpl in Hx. apply bool_decide_eq_false, dec_stable in Hx. by rewrite Hx.
Qed.

Lemma rehashed_step id v1 v2 v1n v2n t n1 n2 now d :
  normalise v1 = inr v1n -> normalise v2 = inr v2n -> identities d -> handles_unique d ->
  d_tasks d !! id = Some t -> next_pair t v1n v2n = Some (n1, n2) ->
  queryOtherTaskByInfohash n1 n2 id d = None -> hash_step d (rehashed id n1 n2 now t d).
Proof.
  intros H1%normalise_ok H2%normalise_ok Hid Hh Ht Hp Hno. unfold next_pair in Hp.
  destruct (next_hash (textOrEmpty (t_infohash_v1 t)) v1n) as [m1|] eqn:E1; [|done]. simpl in Hp.
  destruct (next_hash (textOrEmpty (t_infohash_v2 t)) v2n) as [m2|] eqn:E2; [|done].
  injection Hp as -> ->. destruct (id_canonical _ Hid id t Ht) as [C1 C2].
  apply next_hash_column in E1 as [L1 K1]; [|done..]. apply next_hash_column in E2 as [L2 K2]; [|done..].
  apply (hash_update _ _ t); [done| |done|right; by apply recheck_unique].
  split; simpl; first [done|constructor].
Qed.

Lemma set_outcome_step id v1 v2 v1n v2n d d' r :
  normalise v1 = inr v1n -> normalise v2 = inr v2n -> identities d -> handles_unique d ->
  set_outcome id v1n v2n d d' r -> hash_step d d'.
Proof.
  intros H1 H2 Hid Hh. destruct r as [[]|]; simpl; try done.
  - by intros [_ ->].
  - by intros (t & n1 & n2 & j & u & _ & _ & _ & _ & _ & ->).
  - intros [->|(t & n1 & n2 & now & Ht & Hp & Hno & ->)]; [done|]. by apply (rehashed_step id v1 v2 v1n v2n).
  - by intros (t & _ & _ & ->).
  - intros (t & n1 & n2 & Ht & Hp & [[_ ->]|(_ & Hno & now & ->)]); [done|]. by apply (rehashed_step id v1 v2 v1n v2n).
Qed.

(** A pause with an error code and an event leave every identity alone. *)
Lemma pause_code_hash code msg now id from : StateRemoved ∉ from ->
  stmt_keeps hash_step (queryPauseTaskWithCode code msg now id from).
Proof.
  intros Hf d d' k [(-> & _)|(t & Ht & Hg%contains_spec & _ & _ & ->)]%update_where_inv; [done|].
  apply (hash_update _ _ t); [done| |done|by left].
  split; simpl; first [by right|done|idtac]. apply legal_paused. congruence.
Qed.

Lemma insert_event_hash e : stmt_keeps hash_step (queryInsertTaskEvent e).
Proof.
  intros d d' k. unfold queryInsertTaskEvent. intros Hq. break_all Hq; try done.
  split; simpl; [|done|by apply prefix_app_r|done|].
  - intros i row Hrow. exists row. split; [done|reflexivity].
  - by intros [].
Qed.

Lemma PauseWithCode_hash id p : StateRemoved ∉ FromStates p -> always (keeps hash_step (E := E)) (PauseWithCode id p).
Proof.
  intros Hf. unfold PauseWithCode, insertTaskEvent. walk; auto using pause_code_hash, insert_event_hash with dltool.
Qed.

Lemma PauseDuplicate_hash id : always (keeps hash_step (E := E)) (PauseDuplicate id).
Proof.
  unfold PauseDuplicate. walk. apply PauseWithCode_hash. apply (bool_decide_unpack _). by vm_compute.
Qed.

(** The tables after a duplicate pause. *)
Definition duplicate_paused (id evid : string) (now : Z) (t : task) (d : db) : db :=
  with_events (d_events d ++ [MkEvent evid id now "info" CodeTaskDuplicatePaused messageTaskDuplicatePaused None])
    (with_tasks (<[id := set_updated_at now (set_admission_pending 0
       (set_error_message (Some "another task already holds this torrent's identity"%string)
         (set_error_code (Some errorCodeTorrentDuplicate) (set_state StatePaused t))))]> (d_tasks d)) d).

Definition already_paused (t : task) : bool :=
  bool_decide (t_state t = StatePaused) && bool_decide (t_error_code t = Some errorCodeTorrentDuplicate).

Lemma PauseDuplicate_run id o w : w_tx w = None ->
  let '(r, w') := PauseDuplicate id o w in
  w_tx w' = None /\
  match r with
  | inr _ => exists t, d_tasks (w_db w) !! id = Some t /\
      (already_paused t = true /\ w_db w' = w_db w \/
       t_state t ∈ duplicatePauseFromStates /\ exists evid now, w_db w' = duplicate_paused id evid now t (w_db w))
  | inl _ => w_db w' = w_db w \/ exists t evid now, d_tasks (w_db w) !! id = Some t /\
      t_state t ∈ duplicatePauseFromStates /\ w_db w' = duplicate_paused id evid now t (w_db w)
  end.
Proof.
  intros Hw. unfold PauseDuplicate. rewrite bind_run. unfold query.
  destruct (o_io o (w_n w)); [|by auto..]. unfold current. rewrite Hw. cbn [default].
  unfold queryTaskErrorCode. destruct (d_tasks (w_db w) !! id) as [t|] eqn:Ht; [|simpl; by auto].
  simpl. fold (already_paused t). destruct (already_paused t) eqn:Ha; [by split; [|exists t; auto]|].
  unfold PauseWithCode. cbn [ErrorCode EventCode FromStates EventMessage ErrorMessage].
  rewrite (bool_decide_eq_false_2 (errorCodeTorrentDuplicate = _)) by done.
  rewrite (bool_decide_eq_false_2 (CodeTaskDuplicatePaused = _)) by done.
  rewrite (bool_decide_eq_false_2 (duplicatePauseFromStates = _)) by done. cbn [orb].
  rewrite with_tx_run. destruct (o_io o (w_n (bump w))) eqn:?; [|by auto..].
  unfold_cmd. destruct (o_io o (S (S (w_n w)))); simpl; [|by auto..].
  unfold queryTaskState. rewrite Ht. simpl.
  destruct (contains duplicatePauseFromStates (t_state t)) eqn:Hc; simpl; [|by auto].
  assert (Hin : t_state t ∈ duplicatePauseFromStates) by by apply contains_spec.
  destruct (transitionLegal (t_state t) StatePaused); simpl; [|by auto].
  unfold queryPauseTaskWithCode, update_where. rewrite Ht, Hc. cbn [nullableText].
  destruct (o_io o (S (S (S (S (w_n w)))))) eqn:?; simpl; [|by auto..].
  unfold insertTaskEvent; unfold_cmd. unfold queryInsertTaskEvent. simpl.
  rewrite lookup_insert_eq. simpl.
  destruct (o_io o (S (S (S (S (S (S (w_n w)))))))) eqn:?; simpl; [|by auto..].
  destruct (o_io o (S (S (S (S (S (S (S (w_n w))))))))) eqn:?; simpl.
  - split; [done|]. exists t. split; [done|]. right. split; [done|]. by eexists _, _.
  - by auto.
  - split; [done|]. right. exists t. by eexists _, _.
Qed.

Lemma bind_of_res {A B} (x : A) (k : A -> M E B) o w : (of_res (inr x) ≫= k) o w = k x o w.
Proof. done. Qed.

Lemma normalise_twice v n : normalise v = inr n -> normalise n = inr n.
Proof.
  intros Hn. unfold normalise in *. destruct (NormaliseInfohash (bytes_of v)) as [h|] eqn:Hv; [|done].
  injection Hn as <-. pose proof (Normalise_canonical _ _ (bytes_are_bytes v) Hv) as [->|Hc]; [done|].
  rewrite bytes_of_string by by apply canonical_bytes. by rewrite Normalise_id.
Qed.

Lemma duplicate_paused_step id evid now t d :
  d_tasks d !! id = Some t -> t_state t ∈ duplicatePauseFromStates ->
  hash_step d (duplicate_paused id evid now t d).
Proof.
  intros Ht Hs. unfold duplicate_paused.
  set (t' := set_updated_at _ _). transitivity (with_tasks (<[id := t']> (d_tasks d)) d).
  - apply (hash_update _ _ t); [done| |done|by left].
    split; simpl; first [by right|done|idtac]. apply legal_paused. intros Hr. rewrite Hr in Hs.
    by apply (bool_decide_unpack (StateRemoved ∉ duplicatePauseFromStates)).
  - split; simpl; [|done|by apply prefix_app_r|done|by intros []].
    intros i row Hrow. exists row. split; [done|reflexivity].
Qed.
End Steps.

(** ** The theorems *)

Section Theorems.
Context {UT : UnicodeTables} {E : Type}.
Implicit Types w : world E.

(** What one resolution of a handle guarantees. *)
Definition resolve_post (engine ref : string) (d : db) (rw : res bool * world E) : Prop :=
  w_tx rw.2 = None /\ hash_step d (w_db rw.2) /\ identities (w_db rw.2) /\
  (rw.1 = inr true -> exists id t t' n1 n2 j u,
     d_tasks d !! id = Some t /\ t_engine t = engine /\ t_engine_ref t = Some ref /\
     d_tasks (w_db rw.2) !! id = Some t' /\ t_state t' = StatePaused /\
     t_error_code t' = Some errorCodeTorrentDuplicate /\
     t_infohash_v1 t' = t_infohash_v1 t /\ t_infohash_v2 t' = t_infohash_v2 t /\
     j <> id /\ d_tasks d !! j = Some u /\ d_tasks (w_db rw.2) !! j = Some u /\
     carries n1 n2 u = true).

Lemma resolve_quiet engine ref d r w :
  r <> inr true -> w_tx w = None -> identities d -> hash_step d (w_db w) -> resolve_post engine ref d (r, w).
Proof. intros Hr Hw Hid Hs. split_and!; [done|done|by apply (hs_identities _ _ Hs)|done]. Qed.

(** A metadata resolution, whatever the driver answers: rows are neither
    deleted nor created, no stored hash is overwritten, live identities stay
    distinct and canonical, and no file row or content path changes.  When it
    reports a duplicate, the row behind the handle is paused under
    [torrent_duplicate] with its own hashes untouched, because another live
    row carries the resolved pair. *)
Theorem ResolveInfohashes_safe engine ref v1 v2 o w :
  w_tx w = None -> identities (w_db w) -> handles_unique (w_db w) ->
  resolve_post engine ref (w_db w) (ResolveInfohashes engine ref v1 v2 o w).
Proof.
  intros Hw Hid Hh. unfold ResolveInfohashes.
  destruct (normalise v1) as [e|v1n] eqn:Hn1; [by apply resolve_quiet|]. rewrite bind_of_res.
  destruct (normalise v2) as [e|v2n] eqn:Hn2; [by apply resolve_quiet|]. rewrite bind_of_res.
  destruct (_ && _); [by apply resolve_quiet|]. rewrite bind_run. unfold query.
  destruct (o_io o (w_n w)); [|by apply resolve_quiet..]. unfold current. rewrite Hw. cbn [default].
  destruct (queryTaskIDByEngineRef engine ref (w_db w)) as [[id t0]|] eqn:Hq; [|by apply resolve_quiet].
  apply first_row_some in Hq as [Ht0 Hsel]. cbn [snd] in Hsel. rewrite !andb_true_iff, !bool_decide_eq_true in Hsel.
  destruct Hsel as [[Heng Href] Hlive].
  pose proof (SetInfohashes_run id v1n v2n v1n v2n o (bump w) (normalise_twice _ _ Hn1)
    (normalise_twice _ _ Hn2) Hw Hh) as Hset.
  rewrite bind_run. unfold attempt at 1. destruct (SetInfohashes id v1n v2n o (bump w)) as [r w1].
  destruct Hset as [Hw1 Hout]. change (w_db (bump w)) with (w_db w) in Hout.
  pose proof (set_outcome_step _ _ _ _ _ _ _ _ Hn1 Hn2 Hid Hh Hout) as Hstep.
  destruct r as [e|[]]; [|by apply resolve_quiet].
  destruct (decide (e = ErrDuplicateInfohash)) as [->|Hnd]; [|destruct e; by apply resolve_quiet].
  destruct Hout as (t & n1 & n2 & j & u & Ht & _ & Hj & Hu & Hcar & Hdb).
  rewrite bind_run. pose proof (PauseDuplicate_run id o w1 Hw1) as Hp.
  destruct (PauseDuplicate id o w1) as [rp w2]. destruct Hp as [Hw2 Hp]. rewrite Hdb in Hp.
  destruct rp as [|[]].
  - apply resolve_quiet; [done..|].
    destruct Hp as [->|(t' & evid & now & Ht' & Hs & ->)]; [reflexivity|by apply duplicate_paused_step].
  - change (resolve_post engine ref (w_db w) (inr true, w2)).
    destruct Hp as (t' & Ht' & Hp). simplify_eq.
    assert (Hstep2 : hash_step (w_db w) (w_db w2)).
    { destruct Hp as [[_ ->]|(Hs & evid & now & ->)]; [reflexivity|by apply duplicate_paused_step]. }
    split_and!; [done|done|by apply (hs_identities _ _ Hstep2)|]. intros _.
    destruct Hp as [[Ha Hsame]|(Hs & evid & now & Hafter)].
    + apply andb_true_iff in Ha as [?%bool_decide_eq_true ?%bool_decide_eq_true].
      exists id, t0, t0, n1, n2, j, u. cbn [snd]. rewrite Hsame. by split_and!.
    + exists id, t0. eexists _, n1, n2, j, u. cbn [snd]. rewrite Hafter. unfold duplicate_paused. simpl.
      rewrite lookup_insert_eq, lookup_insert_ne by done. by split_and!.
Qed.

(** One row answers for a torrent.  Among distinct canonical identities, a
    lookup by any spelling of a hash a live row stores - its hex, its base32,
    its tagged form - returns that row and no other. *)
Theorem FindByInfohash_finds v id t h o w :
  w_tx w = None -> o_io o (w_n w) = IoOk -> identities (w_db w) ->
  d_tasks (w_db w) !! id = Some t -> t_state t <> StateRemoved -> normalise v = inr h -> h <> EmptyString ->
  (t_infohash_v1 t = Some h -> (FindByInfohash v EmptyString o w).1 = inr (id, t)) /\
  (t_infohash_v2 t = Some h -> (FindByInfohash EmptyString v o w).1 = inr (id, t)).
Proof.
  intros Hw Hio Hid Ht Hlive Hn Hne.
  assert (Hone : forall sel, (forall j u, d_tasks (w_db w) !! j = Some u -> sel (j, u) = true -> j = id) ->
    sel (id, t) = true -> first_row sel (w_db w) = Some (id, t)).
  { intros sel Hall Hs. destruct (first_row sel (w_db w)) as [[j u]|] eqn:Hf.
    - apply first_row_some in Hf as [Hj Hsj]. rewrite (Hall j u Hj Hsj) in Hj |- *. by simplify_eq.
    - by rewrite (first_row_none _ _ _ _ Hf Ht) in Hs. }
  assert (Hempty : normalise EmptyString = inr EmptyString) by done.
  split; intros Hh; unfold FindByInfohash; rewrite ?Hn, ?Hempty, !bind_of_res, bind_run; unfold query;
    rewrite Hio; unfold current; rewrite Hw; cbn [default]; unfold queryFindTaskByInfohash;
    rewrite Hone; try done.
  - intros j u Hj Hc. simpl in Hc. unfold carries in Hc.
    rewrite (bool_decide_eq_false_2 (EmptyString <> EmptyString)), andb_false_r, orb_false_r in Hc by (by intros []).
    rewrite !andb_true_iff, !bool_decide_eq_true in Hc. destruct Hc as [[Hu _] Hl].
    eapply (id_unique _ Hid); [done|done|]. unfold same_infohash.
    rewrite !andb_true_iff, orb_true_iff, !bool_decide_eq_true. rewrite Hu, Hh. split_and!; [done..|by left].
  - simpl. unfold carries. rewrite Hh, (bool_decide_eq_true_2 (Some h = Some h)),
    (bool_decide_eq_true_2 (h <> EmptyString)), (bool_decide_eq_true_2 (t_state t <> _)) by done. done.
  - intros j u Hj Hc. simpl in Hc. unfold carries in Hc.
    rewrite (bool_decide_eq_false_2 (EmptyString <> EmptyString)), andb_false_r, orb_false_l in Hc by (by intros []).
    rewrite !andb_true_iff, !bool_decide_eq_true in Hc. destruct Hc as [[Hu _] Hl].
    eapply (id_unique _ Hid); [done|done|]. unfold same_infohash.
    rewrite !andb_true_iff, orb_true_iff, !bool_decide_eq_true. rewrite Hu, Hh. split_and!; [done..|by right].
  - simpl. unfold carries. rewrite Hh, (bool_decide_eq_true_2 (Some h = Some h)),
    (bool_decide_eq_true_2 (h <> EmptyString)), (bool_decide_eq_true_2 (t_state t <> _)) by done.
    by rewrite orb_true_r.
Qed.
End Theorems.

(** *** A hybrid torrent, known by its first hash, whose second belongs to
    another task *)

Definition hash_a : string := "aaaaaaaaaaaaaaaaaaaaaaaaaaaaaaaaaaaaaaaa".
Definition hash_b : string := "bbbbbbbbbbbbbbbbbbbbbbbbbbbbbbbbbbbbbbbbbbbbbbbbbbbbbbbbbbbbbbbb".

Definition torrent_task (ref : string) (h1 h2 : option string) : task :=
  MkTask "qbittorrent" (Some ref) "magnet" (Some "magnet:?"%string) None "t" h1 h2 StateDownloading None None
    "/data" None None (Some 10%Z) 0 0 0 0 None 0 None None 0 0 None None None 0 1 None None 1 1.

Definition two_torrents : db :=
  tables_of [("a"%string, torrent_task "x" (Some hash_a) None); ("b"%string, torrent_task "y" None (Some hash_b))].

Lemma two_torrents_ok : identities two_torrents /\ handles_unique two_torrents.
Proof.
  assert (Hl : forall i t, d_tasks two_torrents !! i = Some t ->
    (i = "a"%string /\ t = torrent_task "x" (Some hash_a) None) \/
    (i = "b"%string /\ t = torrent_task "y" None (Some hash_b))).
  { intros i t Hi. apply elem_of_map_to_list in Hi.
    change (map_to_list (d_tasks two_torrents)) with
      (map_to_list (list_to_map [("a"%string, torrent_task "x" (Some hash_a) None);
         ("b"%string, torrent_task "y" None (Some hash_b))] : gmap string task)) in Hi.
    rewrite map_to_list_to_map in Hi by by repeat (constructor; [set_solver|]); constructor.
    rewrite !elem_of_cons in Hi. destruct Hi as [[= -> ->]|[[= -> ->]|[]%not_elem_of_nil]]; auto. }
  split; [split|].
  - intros i t Hi. destruct (Hl i t Hi) as [[_ ->]|[_ ->]]; split; try done; split; vm_compute; auto.
  - intros i j t u Hi Hj Hs. destruct (Hl i t Hi) as [[-> ->]|[-> ->]], (Hl j u Hj) as [[-> ->]|[-> ->]]; done.
  - intros i j t u Hi Hj Hs. destruct (Hl i t Hi) as [[-> ->]|[-> ->]], (Hl j u Hj) as [[-> ->]|[-> ->]]; done.
Qed.

Lemma ResolveInfohashes_safe_witness :
  let rw := @ResolveInfohashes ascii_tables (list string) "qbittorrent" "x" EmptyString
    ("1220" +:+ hash_b) healthy (start two_torrents) in
  rw.1 = inr true /\ hash_step two_torrents (w_db rw.2) /\
  (fun t => (t_state t, t_infohash_v1 t)) <$> d_tasks (w_db rw.2) !! "a"%string = Some (StatePaused, Some hash_a).
Proof.
  intros rw. split; [by vm_compute|]. split; [|by vm_compute].
  exact (proj1 (proj2 (@ResolveInfohashes_safe ascii_tables (list string) "qbittorrent" "x" EmptyString
    ("1220" +:+ hash_b) healthy (start two_torrents) eq_refl (proj1 two_torrents_ok) (proj2 two_torrents_ok)))).
Defined.

Lemma FindByInfohash_finds_witness :
  (@FindByInfohash ascii_tables (list string) EmptyString ("1220" +:+ hash_b) healthy (start two_torrents)).1 =
    inr ("b"%string, torrent_task "y" None (Some hash_b)).
Proof.
  apply (@FindByInfohash_finds ascii_tables (list string) ("1220" +:+ hash_b) "b" (torrent_task "y" None (Some hash_b)) hash_b);
    try done; try apply two_torrents_ok; by vm_compute.
Defined.
