(* ===== verification/TaskList.v ===== *)
(** * The task list and its pages ([internal/store/tasks_list.go])

    [GET /tasks] is answered by [ListTasks]: a filter, an order by one of the
    allowed columns with the id as tiebreak, and keyset pages whose cursor
    carries the last row's sort value and id through JSON.  The theorems say
    that following the cursors shows every matching row exactly once, in order,
    and that the name filter is a substring test.  A number is kept as the
    rational it denotes; the hash that binds a cursor to its filter and the
    division of two floats are parameters. *)

From Stdlib Require Import Ascii QArith Qcanon.
From stdpp Require Import sorting.
From S2P Require Import Prelude GoStrings TaskState Schema SafePath.

Open Scope Z_scope.

(** ** Byte order *)

Fixpoint lex_compare (a b : list Z) : comparison :=
  match a, b with
  | [], [] => Eq
  | [], _ :: _ => Lt
  | _ :: _, [] => Gt
  | x :: a, y :: b => match x ?= y with Eq => lex_compare a b | c => c end
  end.

(** ** Sort values *)

(** A column's value: NULL, a number, a text. *)
Inductive value := VNull | VNum (q : Qc) | VText (s : list Z).

#[global] Instance value_eq_dec : EqDecision value.
Proof. assert (EqDecision Qc) by exact Qc_eq_dec. solve_decision. Defined.

(** SQLite's order: NULL first, then numbers, then text by its bytes. *)
Definition vcompare (a b : value) : comparison :=
  match a, b with
  | VNull, VNull => Eq
  | VNull, _ => Lt
  | _, VNull => Gt
  | VNum x, VNum y => (x ?= y)%Qc
  | VNum _, VText _ => Lt
  | VText _, VNum _ => Gt
  | VText x, VText y => lex_compare x y
  end.

Definition of_Z (z : Z) : Qc := Q2Qc (inject_Z z).

(** ** Rows *)

(** One row of the listing: a task, its ratio column, its tags. *)
Record taskListRow := { lr_task : task; lr_ratio : Qc; lr_tags : gset string }.

(** The tables the listing reads; a category's and a tag's name select its
    id. *)
Record list_db := {
  l_rows : gmap string taskListRow;
  l_categories : gmap string string;
  l_tags : gmap string string;
}.

(** [taskSortKeys]. *)
Inductive sort_key :=
  | by_added_at | by_completed_at | by_name | by_total_bytes | by_progress | by_state
  | by_download_rate | by_upload_rate | by_eta_seconds | by_ratio | by_queue_position.
#[global] Instance sort_key_eq_dec : EqDecision sort_key.
Proof. solve_decision. Defined.

(** [taskSortColumns]: the allowlist. *)
Definition taskSortColumns (key : string) : option sort_key :=
  match key with
  | "added_at" => Some by_added_at
  | "completed_at" => Some by_completed_at
  | "name" => Some by_name
  | "total_bytes" => Some by_total_bytes
  | "progress" => Some by_progress
  | "state" => Some by_state
  | "download_rate" => Some by_download_rate
  | "upload_rate" => Some by_upload_rate
  | "eta_seconds" => Some by_eta_seconds
  | "ratio" => Some by_ratio
  | "queue_position" => Some by_queue_position
  | _ => None
  end%string.

(** [parseTaskSort]; [None] is [ErrInvalidSort]. *)
Definition parseTaskSort (sort : string) : option (sort_key * bool) :=
  match sort with
  | String "-"%char key => (fun c => (c, true)) <$> taskSortColumns key
  | _ => (fun c => (c, false)) <$> taskSortColumns sort
  end.

(** ** Filters *)

(** [sidebarFilterSets]. *)
Definition sidebarFilterSets (name : string) : option (list TaskState) :=
  match name with
  | "all" => Some (List.filter (fun s => bool_decide (s <> StateRemoved)) taskStates)
  | "downloading" => Some [StateDownloading]
  | "completed" => Some [StateCompleted; StateSeeding]
  | "active" => Some [StateDownloading; StateSeeding]
  | "inactive" => Some [StateError; StateQueued; StatePaused]
  | "stopped" => Some [StatePaused]
  | "error" => Some [StateError]
  | _ => None
  end%string.

(** [taskFilterStates]; [None] is [ErrUnknownFilterState]. *)
Definition taskFilterStates (state : string) : option (list TaskState) :=
  if bool_decide (state = EmptyString) || bool_decide (state = "all"%string) then sidebarFilterSets "all"
  else match sidebarFilterSets state with
  | Some set => Some set
  | None => (fun s => [s]) <$> parse_state state
  end.

(** [TaskFilter], without its cursor. *)
Record TaskFilter := {
  f_State : string;
  f_Category : option string;   (* HasCategory and Category *)
  f_Tag : option string;        (* HasTag and Tag *)
  f_Query : list Z;
  f_Sort : string;
  f_Limit : Z;
}.

(** [escapeLikePattern]. *)
Definition escapeLikePattern (s : list Z) : list Z :=
  s ≫= (fun b => if contains [92; 37; 95] b then [92; b] else [b]).

(** SQLite's LIKE with the escape character [\]: [%] is any run, [_] one
    character, letters of ASCII compare without case. *)
Definition fold_byte (b : Z) : Z := if between 65 90 b then b + 32 else b.
Fixpoint like (fuel : nat) (p s : list Z) : bool :=
  match fuel with
  | O => false
  | S fuel =>
    match p with
    | [] => bool_decide (s = [])
    | c :: p' =>
      if c =? 37 then
        like fuel p' s || match s with [] => false | _ :: s' => like fuel p s' end
      else if c =? 95 then match s with [] => false | _ :: s' => like fuel p' s' end
      else if c =? 92 then
        match p', s with
        | e :: p', b :: s' => (fold_byte e =? fold_byte b) && like fuel p' s'
        | _, _ => false
        end
      else match s with [] => false | b :: s' => (fold_byte c =? fold_byte b) && like fuel p' s' end
    end
  end.
Definition LIKE (s p : list Z) : bool := like (S (length p + length s)) p s.

(** [taskFilterWhere]: the predicate of the WHERE clause. *)
Definition taskFilterWhere (f : TaskFilter) (states : list TaskState) (d : list_db) (id : string)
    (r : taskListRow) : bool :=
  contains states (t_state (lr_task r))
  && match f_Category f with
     | None => true
     | Some EmptyString => bool_decide (t_category_id (lr_task r) = None)
     | Some name => match l_categories d !! name with
                    | Some cid => bool_decide (t_category_id (lr_task r) = Some cid)
                    | None => false
                    end
     end
  && match f_Tag f with
     | None => true
     | Some EmptyString => bool_decide (lr_tags r = ∅)
     | Some name => match l_tags d !! name with Some tid => bool_decide (tid ∈ lr_tags r) | None => false end
     end
  && (bool_decide (f_Query f = [])
      || LIKE (bytes_of (t_name (lr_task r))) (37 :: escapeLikePattern (f_Query f) ++ [37])).

(** ** Cursors *)

Section List.
(** The float quotient, in Go and in SQLite, and the binding hash. *)
Context (fdiv : Z -> Z -> Qc) (Hash : Type) `{!EqDecision Hash}
  (taskFilterHash : list TaskState -> sort_key -> bool -> TaskFilter -> Hash).

Definition nullable (v : option Z) : value := match v with Some z => VNum (of_Z z) | None => VNull end.

(** The sort column of a row. *)
Definition column (k : sort_key) (r : taskListRow) : value :=
  let t := lr_task r in
  match k with
  | by_added_at => VNum (of_Z (t_added_at t))
  | by_completed_at => nullable (t_completed_at t)
  | by_name => VText (bytes_of (t_name t))
  | by_total_bytes => nullable (t_total_bytes t)
  | by_progress =>
    match t_total_bytes t with
    | None => VNull
    | Some n => if n =? 0 then VNull else VNum (fdiv (t_completed_bytes t) n)
    end
  | by_state => VText (bytes_of (state_string (t_state t)))
  | by_download_rate => VNum (of_Z (t_download_rate t))
  | by_upload_rate => VNum (of_Z (t_upload_rate t))
  | by_eta_seconds => nullable (t_eta_seconds t)
  | by_ratio => VNum (lr_ratio r)
  | by_queue_position => nullable (t_queue_position t)
  end.

(** An integer that went through JSON is the nearest float64, ties to even. *)
Definition float_of_int (z : Z) : Z :=
  let a := Z.abs z in
  let n := Z.log2 a - 52 in
  if n <=? 0 then z
  else
    let q := a / 2 ^ n in
    let r := a mod 2 ^ n in
    let q := if (2 ^ (n - 1) <? r) || (r =? 2 ^ (n - 1)) && Z.odd q then q + 1 else q in
    Z.sgn z * (q * 2 ^ n).

Definition number (z : Z) : value := VNum (of_Z (float_of_int z)).
Definition nilOrValue (v : option Z) : value := match v with Some z => number z | None => VNull end.

(** [taskSortValue] as [decodeTaskCursor] reads it back: a text with its
    undecodable bytes replaced, an integer as a float64. *)
Definition taskSortValue (k : sort_key) (r : taskListRow) : value :=
  let t := lr_task r in
  match k with
  | by_added_at => number (t_added_at t)
  | by_completed_at => nilOrValue (t_completed_at t)
  | by_name => VText (Map Some (bytes_of (t_name t)))
  | by_total_bytes => nilOrValue (t_total_bytes t)
  | by_progress =>
    match t_total_bytes t with
    | None => VNull
    | Some n => if n =? 0 then VNull else VNum (fdiv (t_completed_bytes t) n)
    end
  | by_state => VText (Map Some (bytes_of (state_string (t_state t))))
  | by_download_rate => number (t_download_rate t)
  | by_upload_rate => number (t_upload_rate t)
  | by_eta_seconds => nilOrValue (t_eta_seconds t)
  | by_ratio => VNum (lr_ratio r)
  | by_queue_position => nilOrValue (t_queue_position t)
  end.

(** [taskPageCursor]. *)
Record taskPageCursor := { c_Hash : Hash; c_LastID : string; c_Value : value }.

Definition id_lt (a b : string) : bool := bool_decide (lex_compare (bytes_of a) (bytes_of b) = Lt).

(** A comparison of a column with a bound value; NULL compares to nothing. *)
Definition sql_lt (a b : value) : bool :=
  match a, b with VNull, _ | _, VNull => false | _, _ => bool_decide (vcompare a b = Lt) end.
Definition sql_eq (a b : value) : bool :=
  match a, b with VNull, _ | _, VNull => false | _, _ => bool_decide (vcompare a b = Eq) end.
Definition is_null (a : value) : bool := match a with VNull => true | _ => false end.

(** [taskCursorPredicate]. *)
Definition taskCursorPredicate (descending : bool) (v : value) (lastID : string) (col : value) (id : string) : bool :=
  match v with
  | VNull =>
    if descending then is_null col && id_lt id lastID
    else negb (is_null col) || is_null col && id_lt lastID id
  | _ =>
    if descending then is_null col || sql_lt col v || sql_eq col v && id_lt id lastID
    else sql_lt v col || sql_eq col v && id_lt lastID id
  end.

(** ORDER BY column, id in one direction. *)
Definition row_le (k : sort_key) (descending : bool) (a b : string * taskListRow) : Prop :=
  let '(a, b) := if descending then (b, a) else (a, b) in
  match vcompare (column k a.2) (column k b.2) with
  | Lt => True
  | Eq => lex_compare (bytes_of a.1) (bytes_of b.1) <> Gt
  | Gt => False
  end.
#[global] Instance row_le_dec k desc : RelDecision (row_le k desc).
Proof. intros a b. unfold row_le. destruct desc, (vcompare _ _); apply _. Defined.

Inductive list_err := ErrLimit | ErrInvalidSort | ErrUnknownFilterState | ErrStaleCursor.

Definition taskListDefaultLimit : Z := 100.
Definition taskListMaxLimit : Z := 500.
Definition defaultTaskSort : string := "-added_at".

(** A page request's token: none, a decoded one, or one that does not decode. *)
Inductive token := NoCursor | Cursor (c : taskPageCursor) | BadCursor.

(** [ListTasks]: a page, the next token, the total. *)
Definition ListTasks (d : list_db) (f : TaskFilter) (tok : token) :
    list_err + (list (string * taskListRow) * token * nat) :=
  let limit := if f_Limit f =? 0 then taskListDefaultLimit else f_Limit f in
  if (limit <? 1) || (taskListMaxLimit <? limit) then inl ErrLimit
  else
    match parseTaskSort (if bool_decide (f_Sort f = EmptyString) then defaultTaskSort else f_Sort f) with
    | None => inl ErrInvalidSort
    | Some (k, descending) =>
      match taskFilterStates (f_State f) with
      | None => inl ErrUnknownFilterState
      | Some states =>
        let where_ p := taskFilterWhere f states d p.1 p.2 in
        let answer pageWhere :=
          let total := length (List.filter where_ (map_to_list (l_rows d))) in
          let rows := take (Z.to_nat limit + 1)
            (merge_sort (row_le k descending) (List.filter pageWhere (map_to_list (l_rows d)))) in
          if (length rows <=? Z.to_nat limit)%nat then inr (rows, NoCursor, total)
          else
            let rows := take (Z.to_nat limit) rows in
            match list.last rows with
            | Some l => inr (rows, Cursor {| c_Hash := taskFilterHash states k descending f; c_LastID := l.1;
                                            c_Value := taskSortValue k l.2 |}, total)
            | None => inr (rows, NoCursor, total)
            end in
        match tok with
        | NoCursor => answer where_
        | BadCursor => inl ErrStaleCursor
        | Cursor c =>
          if bool_decide (c_LastID c = EmptyString) then inl ErrStaleCursor
          else if negb (bool_decide (c_Hash c = taskFilterHash states k descending f)) then inl ErrStaleCursor
          else answer (fun p => where_ p && taskCursorPredicate descending (c_Value c) (c_LastID c) (column k p.2) p.1)
        end
      end
    end.
End List.

(** ** The orders are total *)

Lemma lex_compare_eq a b : lex_compare a b = Eq <-> a = b.
Proof.
  revert b. induction a as [|x a IH]; intros [|y b]; simpl; try done.
  destruct (Z.compare_spec x y) as [->|?|?]; [rewrite IH; naive_solver|split; [done|intros; simplify_eq; lia]..].
Qed.

Lemma lex_compare_antisym a b : lex_compare b a = CompOpp (lex_compare a b).
Proof.
  revert b. induction a as [|x a IH]; intros [|y b]; simpl; try done.
  rewrite (Z.compare_antisym x y). destruct (x ?= y); simpl; [apply IH|done..].
Qed.

Lemma lex_compare_trans a b c : lex_compare a b = Lt -> lex_compare b c = Lt -> lex_compare a c = Lt.
Proof.
  revert b c. induction a as [|x a IH]; intros [|y b] [|z c]; simpl; try done.
  destruct (Z.compare_spec x y) as [->|?|?], (Z.compare_spec y z) as [->|?|?]; try done; intros.
  - by eapply IH.
  - by rewrite (proj2 (Z.compare_lt_iff x z)) by lia.
  - by rewrite (proj2 (Z.compare_lt_iff x z)) by lia.
Qed.

Lemma Qc_compare_antisym (x y : Qc) : ((y ?= x) = CompOpp (x ?= y))%Qc.
Proof. unfold Qccompare. symmetry. apply Qcompare_antisym. Qed.

Lemma vcompare_eq a b : vcompare a b = Eq <-> a = b.
Proof.
  destruct a, b; simpl; try done.
  - rewrite <- Qceq_alt. naive_solver.
  - rewrite lex_compare_eq. naive_solver.
Qed.

Lemma vcompare_antisym a b : vcompare b a = CompOpp (vcompare a b).
Proof. destruct a, b; simpl; try done; [apply Qc_compare_antisym|apply lex_compare_antisym]. Qed.

Lemma vcompare_trans a b c : vcompare a b = Lt -> vcompare b c = Lt -> vcompare a c = Lt.
Proof.
  destruct a, b, c; simpl; try done; [|apply lex_compare_trans].
  rewrite <- !Qclt_alt. apply Qclt_trans.
Qed.

(** A row's key in one direction. *)
Section Keys.
Context (fdiv : Z -> Z -> Qc).

(** [a] comes strictly before [b]. *)
Definition key_lt (a b : value * list Z) : bool :=
  match vcompare a.1 b.1 with Lt => true | Eq => bool_decide (lex_compare a.2 b.2 = Lt) | Gt => false end.
Definition ahead (descending : bool) (a b : value * list Z) : bool :=
  if descending then key_lt b a else key_lt a b.

Lemma key_lt_irrefl a : key_lt a a = false.
Proof.
  unfold key_lt. rewrite (proj2 (vcompare_eq _ _) eq_refl). rewrite (proj2 (lex_compare_eq _ _) eq_refl). done.
Qed.

Lemma key_lt_trans a b c : key_lt a b = true -> key_lt b c = true -> key_lt a c = true.
Proof.
  unfold key_lt. destruct (vcompare a.1 b.1) eqn:E1, (vcompare b.1 c.1) eqn:E2; try done.
  - apply vcompare_eq in E1, E2. rewrite E1, E2, (proj2 (vcompare_eq _ _) eq_refl), !bool_decide_eq_true.
    apply lex_compare_trans.
  - apply vcompare_eq in E1. by rewrite E1, E2.
  - apply vcompare_eq in E2. by rewrite <- E2, E1.
  - by rewrite (vcompare_trans _ _ _ E1 E2).
Qed.

Lemma key_lt_total a b : a <> b -> key_lt a b = true \/ key_lt b a = true.
Proof.
  intros Hne. unfold key_lt. rewrite (vcompare_antisym a.1 b.1).
  destruct (vcompare a.1 b.1) eqn:E; simpl; [|by left|by right].
  rewrite (lex_compare_antisym a.2 b.2). destruct (lex_compare a.2 b.2) eqn:E2; simpl; [|by left|by right].
  apply vcompare_eq in E. apply lex_compare_eq in E2. destruct a, b; simpl in *; congruence.
Qed.

Lemma ahead_irrefl desc a : ahead desc a a = false.
Proof. destruct desc; apply key_lt_irrefl. Qed.
Lemma ahead_trans desc a b c : ahead desc a b = true -> ahead desc b c = true -> ahead desc a c = true.
Proof. destruct desc; simpl; [intros H1 H2; by eapply key_lt_trans|apply key_lt_trans]. Qed.
Lemma ahead_total desc a b : a <> b -> ahead desc a b = true \/ ahead desc b a = true.
Proof. intros H. destruct desc; simpl; [destruct (key_lt_total a b H); auto|by apply key_lt_total]. Qed.

Definition key (k : sort_key) (p : string * taskListRow) : value * list Z := (column fdiv k p.2, bytes_of p.1).

Lemma row_le_ahead k desc a b : row_le fdiv k desc a b <-> ahead desc (key k b) (key k a) = false.
Proof.
  unfold row_le, ahead, key_lt, key. assert (H : forall x y : string * taskListRow,
    match vcompare (column fdiv k x.2) (column fdiv k y.2) with
    | Eq => lex_compare (bytes_of x.1) (bytes_of y.1) <> Gt | Lt => True | Gt => False end <->
    match vcompare (column fdiv k y.2) (column fdiv k x.2) with
    | Eq => bool_decide (lex_compare (bytes_of y.1) (bytes_of x.1) = Lt) | Lt => true | Gt => false end = false).
  { intros x y. rewrite (vcompare_antisym (column fdiv k x.2)). destruct (vcompare _ _); simpl; [|done|done].
    rewrite (lex_compare_antisym (bytes_of x.1)), bool_decide_eq_false.
    by destruct (lex_compare _ _). }
  destruct desc; simpl; apply H.
Qed.

#[export] Instance row_le_total k desc : Total (row_le fdiv k desc).
Proof.
  intros a b. rewrite !row_le_ahead. destruct (ahead desc (key k b) (key k a)) eqn:E; [|by left]. right.
  destruct (ahead desc (key k a) (key k b)) eqn:E2; [|done].
  pose proof (ahead_trans _ _ _ _ E E2) as H. by rewrite ahead_irrefl in H.
Qed.

#[export] Instance row_le_trans k desc : Transitive (row_le fdiv k desc).
Proof.
  intros a b c. rewrite !row_le_ahead. intros H1 H2. destruct (ahead desc (key k c) (key k a)) eqn:E; [|done].
  destruct (decide (key k b = key k a)) as [Heq|Hne]; [by rewrite Heq, E in H2|].
  destruct (ahead_total desc _ _ Hne) as [H|H]; [by rewrite H in H1|].
  by rewrite (ahead_trans _ _ _ _ E H) in H2.
Qed.
End Keys.

(** ** The name filter *)

Lemma like_tail fuel s : (length s + 2 <= fuel)%nat -> like fuel [37] s = true.
Proof.
  revert s. induction fuel as [|fuel IH]; intros s Hf; [lia|]. cbn [like]. rewrite Z.eqb_refl.
  destruct s as [|b s]; [destruct fuel; [simpl in Hf; lia|done]|].
  rewrite IH by (simpl in Hf; lia). apply orb_true_r.
Qed.

Lemma like_prefix fuel q s : (length (escapeLikePattern q) + length s + 2 <= fuel)%nat ->
  like fuel (escapeLikePattern q ++ [37]) s = true <->
  exists b c, s = b ++ c /\ fold_byte <$> b = fold_byte <$> q.
Proof.
  revert fuel s. induction q as [|x q IH]; intros fuel s Hf.
  { simpl. rewrite like_tail by (simpl in Hf; lia). split; [|done]. intros _. by exists [], s. }
  assert (Hstep : forall k y s', fold_byte x = fold_byte y ->
    (length (escapeLikePattern q) + length s' + 2 <= k)%nat ->
    like k (escapeLikePattern q ++ [37]) s' = true <->
    exists b c, y :: s' = b ++ c /\ fold_byte <$> b = fold_byte <$> (x :: q)).
  { intros k y s' Hxy Hk. rewrite IH by done. split.
    - intros (b & c & -> & Hb). exists (y :: b), c. split; [done|]. rewrite !fmap_cons. by f_equal.
    - intros ([|z b] & c & He & Hb); [done|]. simplify_eq/=. by exists b, c. }
  destruct fuel as [|fuel]; [lia|].
  assert (He : escapeLikePattern (x :: q) =
    (if contains [92; 37; 95] x then [92; x] else [x]) ++ escapeLikePattern q) by done.
  rewrite He in *. clear He. rewrite length_app in Hf.
  assert (Hne : s = [] -> ~ exists b c, s = b ++ c /\ fold_byte <$> b = fold_byte <$> (x :: q)).
  { intros -> ([|z b] & c & Hs & Hb); done. }
  assert (Hmiss : forall y s', s = y :: s' -> fold_byte x <> fold_byte y ->
    ~ exists b c, s = b ++ c /\ fold_byte <$> b = fold_byte <$> (x :: q)).
  { intros y s' -> Hxy ([|z b] & c & Hs & Hb); [done|]. simplify_eq/=. }
  destruct (contains [92; 37; 95] x) eqn:Hx.
  - cbn [app like]. change (92 =? 37) with false. change (92 =? 95) with false. change (92 =? 92) with true.
    cbn iota. destruct s as [|y s']; [by split; [|intros H; by destruct (Hne eq_refl)]|].
    destruct (Z.eqb_spec (fold_byte x) (fold_byte y)) as [Hxy|Hxy]; cbn [andb].
    + apply Hstep; [done|]. simpl in Hf. lia.
    + split; [done|]. intros H. by destruct (Hmiss y s').
  - apply contains_false in Hx. rewrite !not_elem_of_cons in Hx. cbn [app like].
    rewrite (proj2 (Z.eqb_neq x 37)), (proj2 (Z.eqb_neq x 95)), (proj2 (Z.eqb_neq x 92)) by tauto.
    destruct s as [|y s']; [by split; [|intros H; by destruct (Hne eq_refl)]|].
    destruct (Z.eqb_spec (fold_byte x) (fold_byte y)) as [Hxy|Hxy]; cbn [andb].
    + apply Hstep; [done|]. simpl in Hf. lia.
    + split; [done|]. intros H. by destruct (Hmiss y s').
Qed.

Lemma like_contains fuel q s : (length (escapeLikePattern q) + length s + 3 <= fuel)%nat ->
  like fuel (37 :: escapeLikePattern q ++ [37]) s = true <->
  exists a b c, s = a ++ b ++ c /\ fold_byte <$> b = fold_byte <$> q.
Proof.
  revert s. induction fuel as [|fuel IH]; intros s Hf; [lia|]. cbn [like]. rewrite Z.eqb_refl, orb_true_iff.
  rewrite like_prefix by lia. destruct s as [|y s].
  - split; [intros [(b & c & Hs & Hb)|]; [by exists [], b, c|done]|].
    intros (a & b & c & Hs & Hb). left. destruct a; [by exists b, c|done].
  - rewrite IH by (simpl in Hf; lia). split.
    + intros [(b & c & Hs & Hb)|(a & b & c & -> & Hb)]; [by exists [], b, c|by exists (y :: a), b, c].
    + intros ([|z a] & b & c & Hs & Hb); [left; by exists b, c|right]. simplify_eq/=. by exists a, b, c.
Qed.

(** A name query is a substring test whatever it contains: percent signs,
    underscores and backslashes of the query stand for themselves, and letters
    match without regard to ASCII case. *)
Theorem name_query_is_substring name q :
  LIKE name (37 :: escapeLikePattern q ++ [37]) = true <->
  exists a b c, name = a ++ b ++ c /\ fold_byte <$> b = fold_byte <$> q.
Proof. unfold LIKE. apply like_contains. simpl. rewrite length_app. simpl. lia. Qed.

(** ** Following the cursors *)

(** What follows an element of a strictly ordered list. *)
Lemma filter_after {A} (lt : A -> A -> bool) l1 x l2 :
  (forall a, lt a a = false) -> (forall a b c, lt a b = true -> lt b c = true -> lt a c = true) ->
  StronglySorted (fun a b => lt a b = true) (l1 ++ x :: l2) -> List.filter (lt x) (l1 ++ x :: l2) = l2.
Proof.
  intros Hirr Htr Hs. apply StronglySorted_app in Hs as (Hc & _ & Hs).
  apply StronglySorted_inv in Hs as [_ Hx]. rewrite List.filter_app. simpl. rewrite Hirr.
  assert (H1 : List.filter (lt x) l1 = []).
  { assert (Hall : forall a, a ∈ l1 -> lt x a = false).
    { intros a Ha. destruct (lt x a) eqn:E; [|done]. specialize (Hc a x Ha (list_elem_of_here _ _)).
      rewrite <- (Hirr a). symmetry. by apply (Htr a x a). }
    clear Hc. induction l1 as [|a l1 IH]; [done|]. simpl. rewrite Hall by by left.
    apply IH. intros b Hb. apply Hall. by right. }
  rewrite H1. simpl. clear -Hx. induction Hx as [|a l Ha _ IH]; simpl; [done|]. rewrite Ha. by f_equal.
Qed.

Lemma list_filter_bool_ext {A} (f g : A -> bool) l : (forall x, x ∈ l -> f x = g x) ->
  List.filter f l = List.filter g l.
Proof.
  induction l as [|x l IH]; intros H; [done|]. simpl. rewrite (H x) by by left. rewrite IH; [done|].
  intros y Hy. apply H. by right.
Qed.

Section Walk.
Context (fdiv : Z -> Z -> Qc) (Hash : Type) `{!EqDecision Hash}
  (taskFilterHash : list TaskState -> sort_key -> bool -> TaskFilter -> Hash).
Context (d : list_db) (f : TaskFilter).

Abbreviation ListTasks := (ListTasks fdiv Hash taskFilterHash).

(** A client that follows the tokens until there is none. *)
Fixpoint walk (fuel : nat) (tok : token Hash) : option (list (string * taskListRow)) :=
  match fuel with
  | O => None
  | S fuel =>
    match ListTasks d f tok with
    | inl _ => None
    | inr (rows, NoCursor _, _) => Some rows
    | inr (rows, next, _) => app rows <$> walk fuel next
    end
  end.

(** The sort value of a row survives the cursor's JSON: an integer within 53
    bits, a text that is valid UTF-8. *)
Definition exact_key (k : sort_key) (r : taskListRow) : Prop := taskSortValue fdiv k r = column fdiv k r.

Lemma predicate_ahead desc v i col id :
  taskCursorPredicate desc v i col id = ahead desc (v, bytes_of i) (col, bytes_of id).
Proof.
  unfold taskCursorPredicate, ahead, key_lt, id_lt. simpl.
  destruct v as [|x|x], desc; destruct col as [|y|y]; unfold sql_lt, sql_eq; simpl; try done.
  - by destruct (y ?= x)%Qc.
  - rewrite (Qc_compare_antisym x y). by destruct (x ?= y)%Qc.
  - by destruct (lex_compare y x).
  - rewrite (lex_compare_antisym x y). by destruct (lex_compare x y).
Qed.

Variables (k : sort_key) (desc : bool) (states : list TaskState).
Definition limit : nat := Z.to_nat (if f_Limit f =? 0 then taskListDefaultLimit else f_Limit f).

(** The rows the filter matches, in the order of the page. *)
Definition matching : list (string * taskListRow) :=
  merge_sort (row_le fdiv k desc) (List.filter (fun p => taskFilterWhere f states d p.1 p.2) (map_to_list (l_rows d))).

Lemma matching_in p : p ∈ matching <-> l_rows d !! p.1 = Some p.2 /\ taskFilterWhere f states d p.1 p.2 = true.
Proof.
  unfold matching. rewrite merge_sort_Permutation, list_elem_of_In, filter_In, <- list_elem_of_In.
  destruct p as [i r]. by rewrite elem_of_map_to_list.
Qed.

Lemma key_inj p q : p ∈ matching -> q ∈ matching -> key fdiv k p = key fdiv k q -> p = q.
Proof.
  intros [Hp _]%matching_in [Hq _]%matching_in [= _ Hid%bytes_inj]. destruct p, q; simpl in *. by simplify_eq.
Qed.

(** A sorted listing of distinct rows is strictly sorted. *)
Lemma strictly_sorted l : NoDup l -> (forall p, p ∈ l -> p ∈ matching) -> StronglySorted (row_le fdiv k desc) l ->
  StronglySorted (fun a b => ahead desc (key fdiv k a) (key fdiv k b) = true) l.
Proof.
  intros Hnd Hin Hs. induction Hs as [|p l Hs IH Hp]; [constructor|].
  apply list.NoDup_cons in Hnd as [Hnp Hnd]. constructor; [apply IH; [done|intros; apply Hin; by right]|].
  apply list.Forall_forall. intros q Hq. pose proof (proj1 (list.Forall_forall _ _) Hp q Hq) as Hle.
  apply row_le_ahead in Hle. destruct (ahead_total desc (key fdiv k p) (key fdiv k q)) as [|H]; [|done|congruence].
  intros He. apply key_inj in He; [by subst|apply Hin; by left|apply Hin; by right].
Qed.

Lemma listed_sorted (sel : string * taskListRow -> bool) :
  (forall p, sel p = true -> taskFilterWhere f states d p.1 p.2 = true) ->
  merge_sort (row_le fdiv k desc) (List.filter sel (map_to_list (l_rows d))) = List.filter sel matching.
Proof.
  intros Hsel. set (l := merge_sort _ _). set (l' := List.filter sel matching).
  assert (Hfnd : forall g (m : list (string * taskListRow)), NoDup m -> NoDup (List.filter g m)).
  { intros g m. rewrite !NoDup_ListNoDup. apply List.NoDup_filter. }
  assert (Hp : l ≡ₚ l').
  { apply NoDup_Permutation.
    - unfold l. rewrite merge_sort_Permutation. apply Hfnd, NoDup_map_to_list.
    - apply Hfnd. unfold matching. rewrite merge_sort_Permutation. apply Hfnd, NoDup_map_to_list.
    - intros p. unfold l, l'. rewrite merge_sort_Permutation, !list_elem_of_In, !filter_In, <- !list_elem_of_In.
      rewrite matching_in. destruct p as [i r]. rewrite elem_of_map_to_list. split; [|tauto].
      intros [? Hs]. split_and!; [done|by apply Hsel|done]. }
  assert (Hss : StronglySorted (row_le fdiv k desc) matching)
    by (apply (StronglySorted_merge_sort _)).
  assert (Hss' : StronglySorted (row_le fdiv k desc) l').
  { unfold l'. clear -Hss. induction Hss as [|p m Hs IH Hp]; simpl; [constructor|].
    destruct (sel p); [|done]. constructor; [done|]. apply list.Forall_forall. intros q Hq%list_elem_of_In%filter_In.
    apply (proj1 (list.Forall_forall _ _) Hp q). apply list_elem_of_In. tauto. }
  assert (Hin' : forall p, p ∈ l' -> p ∈ matching).
  { intros p Hp'%list_elem_of_In%filter_In. apply list_elem_of_In. tauto. }
  eapply (StronglySorted_unique_strong (row_le fdiv k desc)); [|apply (StronglySorted_merge_sort _)|done|done].
  intros p q Hpl Hql H1 H2. rewrite Hp in Hpl. apply row_le_ahead in H1, H2.
  destruct (decide (key fdiv k p = key fdiv k q)) as [He|He]; [apply key_inj; auto|].
  destruct (ahead_total desc _ _ He); congruence.
Qed.
(** The request is a valid one and every row's sort value survives the
    cursor. *)
Hypothesis Hsort : parseTaskSort (if bool_decide (f_Sort f = EmptyString) then defaultTaskSort else f_Sort f) = Some (k, desc).
Hypothesis Hstates : taskFilterStates (f_State f) = Some states.
Hypothesis Hlimit : 0 <= f_Limit f <= taskListMaxLimit.
Hypothesis Hids : l_rows d !! EmptyString = None.
Hypothesis Hexact : forall p, p ∈ matching -> exact_key k p.2.

Definition cursor_of (p : string * taskListRow) : token Hash :=
  Cursor Hash {| c_Hash := taskFilterHash states k desc f; c_LastID := p.1; c_Value := taskSortValue fdiv k p.2 |}.

Lemma matching_strict : StronglySorted (fun a b => ahead desc (key fdiv k a) (key fdiv k b) = true) matching.
Proof.
  apply strictly_sorted; [|done|apply (StronglySorted_merge_sort _)].
  unfold matching. rewrite merge_sort_Permutation, NoDup_ListNoDup. apply List.NoDup_filter, NoDup_ListNoDup.
  apply NoDup_map_to_list.
Qed.

Lemma limit_pos : (1 <= limit)%nat /\ (if f_Limit f =? 0 then taskListDefaultLimit else f_Limit f) = Z.of_nat limit.
Proof.
  unfold limit, taskListDefaultLimit, taskListMaxLimit in *. destruct (f_Limit f =? 0) eqn:E; lia.
Qed.

(** The page of one token. *)
Lemma page_of tok pre rest :
  matching = pre ++ rest ->
  match tok with NoCursor _ => pre = [] | _ => exists pre' p, pre = pre' ++ [p] /\ tok = cursor_of p end ->
  ListTasks d f tok = inr (take limit rest,
    (if (length rest <=? limit)%nat then NoCursor Hash
     else match list.last (take limit rest) with Some l => cursor_of l | None => NoCursor Hash end),
    length matching).
Proof.
  intros Hm Htok. destruct limit_pos as [Hpos Hlim]. unfold TaskList.ListTasks. rewrite Hlim.
  assert ((Z.of_nat limit <? 1) || (taskListMaxLimit <? Z.of_nat limit) = false) as ->.
  { rewrite <- Hlim. unfold taskListDefaultLimit, taskListMaxLimit in *. clear -Hlimit Hpos.
    destruct (f_Limit f =? 0) eqn:E; lia. }
  rewrite Hsort, Hstates, Nat2Z.id.
  set (wh := fun p : string * taskListRow => taskFilterWhere f states d p.1 p.2).
  assert (Htotal : length (List.filter wh (map_to_list (l_rows d))) = length matching)
    by (unfold matching; by rewrite merge_sort_Permutation).
  rewrite Htotal.
  assert (Hans : forall sel, (forall p, sel p = true -> wh p = true) -> List.filter sel matching = rest ->
    (let rows := take (limit + 1) (merge_sort (row_le fdiv k desc) (List.filter sel (map_to_list (l_rows d)))) in
     if (length rows <=? limit)%nat then inr (rows, NoCursor Hash, length matching)
     else let rows := take limit rows in
       match list.last rows with
       | Some l => inr (rows, cursor_of l, length matching)
       | None => inr (rows, NoCursor Hash, length matching)
       end) = inr (A := list_err) (take limit rest,
    (if (length rest <=? limit)%nat then NoCursor Hash
     else match list.last (take limit rest) with Some l => cursor_of l | None => NoCursor Hash end),
    length matching)).
  { intros sel Hsel Hrest. cbv zeta. rewrite listed_sorted by done. rewrite Hrest, length_take, take_take.
    destruct (Nat.leb_spec (length rest) limit) as [Hle|Hgt].
    - rewrite (proj2 (Nat.leb_le _ _)) by lia. rewrite !take_ge by lia. done.
    - rewrite (proj2 (Nat.leb_gt _ _)) by lia. rewrite (Nat.min_l limit) by lia. by destruct (list.last _). }
  destruct tok as [|c|]; [|destruct Htok as (pre' & p & -> & Hc); try done..].
  - subst pre. apply (Hans wh); [done|]. rewrite app_nil_l in Hm. rewrite <- Hm.
    assert (Hall : forall p, p ∈ matching -> wh p = true) by (by intros p [_ ?]%matching_in).
    clear -Hall. induction matching as [|p m IH]; [done|]. simpl. rewrite Hall by by left. f_equal.
    apply IH. intros q Hq. apply Hall. by right.
  - injection Hc as ->. cbn [c_LastID c_Hash c_Value].
    assert (Hp : p ∈ matching) by (rewrite Hm; set_solver).
    rewrite bool_decide_eq_false_2.
    2: { intros He. apply matching_in in Hp as [Hp _]. by rewrite He, Hids in Hp. }
    rewrite (bool_decide_eq_true_2 (taskFilterHash _ _ _ _ = _)) by done. cbn [negb].
    apply (Hans (fun q => wh q && taskCursorPredicate desc (taskSortValue fdiv k p.2) p.1 (column fdiv k q.2) q.1)).
    + intros q [? _]%andb_true_iff. done.
    + rewrite <- app_assoc in Hm. simpl in Hm.
      rewrite <- (filter_after (fun a b => ahead desc (key fdiv k a) (key fdiv k b)) pre' p rest).
      2-3: intros *; first [apply ahead_irrefl|apply ahead_trans].
      2: by rewrite <- Hm; apply matching_strict.
      rewrite <- Hm. apply list_filter_bool_ext. intros q Hq. rewrite (Hexact p Hp), predicate_ahead.
      unfold wh. by rewrite (proj2 (proj1 (matching_in q) Hq)).
Qed.

Lemma walk_rest n rest pre tok : (length rest < n)%nat -> matching = pre ++ rest ->
  match tok with NoCursor _ => pre = [] | _ => exists pre' p, pre = pre' ++ [p] /\ tok = cursor_of p end ->
  walk n tok = Some rest.
Proof.
  revert rest pre tok. induction n as [|n IH]; intros rest pre tok Hn Hm Htok; [lia|].
  cbn [walk]. rewrite (page_of tok pre rest Hm Htok). destruct limit_pos as [Hpos _].
  destruct (Nat.leb_spec (length rest) limit) as [Hle|Hgt]; [by rewrite take_ge|].
  destruct (list.last (take limit rest)) as [p|] eqn:Hl.
  - apply last_Some in Hl as [l' Hl]. rewrite (IH (drop limit rest) (pre ++ take limit rest) (cursor_of p)).
    + simpl. by rewrite take_drop.
    + rewrite length_drop. lia.
    + by rewrite <- app_assoc, take_drop.
    + exists (pre ++ l'), p. by rewrite Hl, app_assoc.
  - apply last_None in Hl. apply (f_equal length) in Hl. rewrite length_take in Hl. simpl in Hl. lia.
Qed.

(** C30: Following the cursors misses nothing, when every matching row's sort value
    survives the cursor's JSON ([exact_key]: numbers below 2^53 and names of
    valid UTF-8 do, [exact_keys]).  Over tables that do not change meanwhile,
    the pages of a request put together are the matching rows, each once, in
    the order of the column with the id as tiebreak; the walk ends after
    finitely many pages of at most [limit] rows. *)
Theorem pages_complete :
  exists rows, walk (S (size (l_rows d))) (NoCursor Hash) = Some rows /\
    StronglySorted (row_le fdiv k desc) rows /\ NoDup rows /\
    forall id r, (id, r) ∈ rows <-> l_rows d !! id = Some r /\ taskFilterWhere f states d id r = true.
Proof.
  exists matching. split_and!.
  - apply walk_rest with (pre := []); [|done|done]. unfold matching. rewrite merge_sort_Permutation.
    rewrite <- (length_map_to_list (l_rows d)). apply Nat.lt_succ_r, List.filter_length_le.
  - apply (StronglySorted_merge_sort _).
  - unfold matching. rewrite merge_sort_Permutation, NoDup_ListNoDup. apply List.NoDup_filter, NoDup_ListNoDup.
    apply NoDup_map_to_list.
  - intros id r. apply (matching_in (id, r)).
Qed.
End Walk.

(** ** When a sort value survives *)

Lemma float_of_int_exact z : Z.abs z < 2 ^ 53 -> float_of_int z = z.
Proof.
  intros Hz. unfold float_of_int. assert (Z.log2 (Z.abs z) - 52 <= 0) as Hn.
  { destruct (decide (Z.abs z = 0)) as [->|Hne]; [done|]. pose proof (Z.log2_lt_pow2 (Z.abs z) 53). lia. }
  by rewrite (proj2 (Z.leb_le _ _) Hn).
Qed.

(** Times, counters and valid names survive; a size beyond 2^53 need not. *)
Lemma exact_keys fdiv k r :
  (forall z, z ∈ [t_added_at (lr_task r); t_download_rate (lr_task r); t_upload_rate (lr_task r)]
     ++ omap id [t_completed_at (lr_task r); t_total_bytes (lr_task r); t_eta_seconds (lr_task r);
                 t_queue_position (lr_task r)] -> Z.abs z < 2 ^ 53) ->
  Map Some (bytes_of (t_name (lr_task r))) = bytes_of (t_name (lr_task r)) ->
  exact_key fdiv k r.
Proof.
  intros Hz Hn. assert (Hnum : forall z, Z.abs z < 2 ^ 53 -> number z = VNum (of_Z z)).
  { intros z H. unfold number. by rewrite float_of_int_exact. }
  assert (Hopt : forall v, (forall z, v = Some z -> Z.abs z < 2 ^ 53) -> nilOrValue v = nullable v).
  { intros [z|] H; [|done]. simpl. by rewrite Hnum by by apply H. }
  assert (Hst : forall s, Map Some (bytes_of (state_string s)) = bytes_of (state_string s)) by by intros [].
  unfold exact_key. destruct k; simpl; try done; first [apply Hnum|apply Hopt|by rewrite Hn|by rewrite Hst].
  all: try (apply Hz; set_solver).
  all: intros z E; apply Hz; rewrite elem_of_app, list_elem_of_omap; right; exists (Some z); split; [|done];
    rewrite <- E, !elem_of_cons; tauto.
Qed.

(** The cursor of a row of 2^53 + 1 bytes names a size one byte smaller, and
    the page after it shows the row again. *)
Definition big_row (size : Z) : taskListRow :=
  {| lr_task := set_total_bytes (Some size) (MkTask "aria2" None "http" None None "f" None None StateQueued None None
       "/data" None None None 0 0 0 0 None 0 None None 0 0 None None None 0 0 None None 0 0);
     lr_ratio := of_Z 0; lr_tags := ∅ |}.
Example big_sizes_repeat :
  taskCursorPredicate false (taskSortValue (fun _ _ => of_Z 0) by_total_bytes (big_row (2 ^ 53 + 1))) "a"
    (column (fun _ _ => of_Z 0) by_total_bytes (big_row (2 ^ 53 + 1))) "a" = true.
Proof. by vm_compute. Qed.

Definition named_row (name : string) (size : option Z) : taskListRow :=
  {| lr_task := set_name name (lr_task (big_row 0)); lr_ratio := of_Z 0; lr_tags := ∅ |}.

(** A name with an undecodable byte comes back from the cursor as U+FFFD,
    which sorts before the byte: the page after the row begins with the row. *)
Example undecodable_names_repeat :
  let r := named_row (string_of [255]) None in
  taskCursorPredicate false (taskSortValue (fun _ _ => of_Z 0) by_name r) "a" (column (fun _ _ => of_Z 0) by_name r) "a" = true.
Proof. by vm_compute. Qed.

(** Three rows in pages of one. *)
Definition three_rows : list_db :=
  {| l_rows := list_to_map [("a"%string, named_row "beta" None); ("b"%string, named_row "alpha" None);
                            ("c"%string, named_row "alpha" None)];
     l_categories := ∅; l_tags := ∅ |}.
Definition by_name_one : TaskFilter :=
  {| f_State := EmptyString; f_Category := None; f_Tag := None; f_Query := bytes_of "A"; f_Sort := "name"; f_Limit := 1 |}.

Lemma pages_complete_witness :
  let zero := fun _ _ : Z => of_Z 0 in
  let run := walk zero unit (fun _ _ _ _ => tt) three_rows by_name_one 4 (NoCursor unit) in
  ((fun l : list (string * taskListRow) => l.*1) <$> run) = Some ["b"; "c"; "a"]%string /\
  exists rows, run = Some rows /\ NoDup rows.
Proof.
  intros zero run. split; [by vm_compute|].
  destruct (pages_complete zero unit (fun _ _ _ _ => tt) three_rows by_name_one by_name false
    (List.filter (fun s => bool_decide (s <> StateRemoved)) taskStates)) as (rows & Hr & _ & Hn & _).
  - done.
  - done.
  - done.
  - done.
  - intros p [Hp _]%matching_in. apply exact_keys.
    + assert (Hall : map_Forall (fun _ r => forall z, z ∈ [t_added_at (lr_task r); t_download_rate (lr_task r);
        t_upload_rate (lr_task r)] ++ omap id [t_completed_at (lr_task r); t_total_bytes (lr_task r);
        t_eta_seconds (lr_task r); t_queue_position (lr_task r)] -> Z.abs z < 2 ^ 53) (l_rows three_rows)).
      { intros i r Hi. assert (Hz : forall nm, r = named_row nm None -> forall z, z ∈ [t_added_at (lr_task r); t_download_rate (lr_task r);
        t_upload_rate (lr_task r)] ++ omap id [t_completed_at (lr_task r); t_total_bytes (lr_task r);
        t_eta_seconds (lr_task r); t_queue_position (lr_task r)] -> Z.abs z < 2 ^ 53).
        { intros nm -> z Hz. vm_compute in Hz. repeat (apply elem_of_cons in Hz as [->|Hz]; [done|]).
          by apply not_elem_of_nil in Hz. }
        unfold three_rows in Hi. cbn [l_rows] in Hi. apply elem_of_list_to_map_2 in Hi.
        repeat (apply elem_of_cons in Hi as [[= _ ->]|Hi]; [by eapply Hz|]). by apply not_elem_of_nil in Hi. }
      apply (Hall _ _ Hp).
    + unfold three_rows in Hp. cbn [l_rows] in Hp. apply elem_of_list_to_map_2 in Hp.
      repeat (apply elem_of_cons in Hp as [Hp|Hp]; [injection Hp as _ ->; by vm_compute|]).
      by apply not_elem_of_nil in Hp.
  - exists rows. split; [|done]. exact Hr.
Defined.
