(* ===== verification/Admission.v ===== *)
(** * Admission control ([internal/engine/admission.go])

    The pass that decides which queued task reaches an engine: the concurrency
    limits, the disk reservation gate, the release of one candidate (resume or
    add, the persisted limits and file selection, the handle and state
    writes, with every compensation), and the disk-full pause. *)

From stdpp Require Import pretty.
From S2P Require Import Prelude TaskState Schema Lease World Fsx Store Engine.

(** ** Policy and limits *)

Record Limits := MkLimits { MaxActiveTotal : Z; MaxActivePerEngine : Z }.

Record Policy := MkPolicy { limits : Limits; MinFree : gmap string Z; Roots : list string }.

Definition slots_message (used max : Z) (what : string) : string :=
  pretty used +:+ " of " +:+ pretty max +:+ what +:+ " slots in use".

(** [Blocked]: [Some] is the operator-facing message. *)
Definition Blocked (l : Limits) (c : ActiveCounts) (engineName : string) : option string :=
  if (0 <? MaxActiveTotal l)%Z && (MaxActiveTotal l <=? Total c)%Z then
    Some (slots_message (Total c) (MaxActiveTotal l) EmptyString)
  else if (0 <? MaxActivePerEngine l)%Z && (MaxActivePerEngine l <=? by_engine c engineName)%Z then
    Some (slots_message (by_engine c engineName) (MaxActivePerEngine l) (" " +:+ engineName))
  else None.

(** ** The space gate *)

(** [spaceGate], without its log bookkeeping. *)
Record spaceGate := MkGate {
  policy : Policy;
  commits : gmap string Z;
  ids : gmap string string;
  spaces : gmap string Space;
  unreadable : gset string }.

Definition set_commits m g := MkGate (policy g) m (ids g) (spaces g) (unreadable g).
Definition set_ids m g := MkGate (policy g) (commits g) m (spaces g) (unreadable g).
Definition set_spaces m g := MkGate (policy g) (commits g) (ids g) m (unreadable g).
Definition set_unreadable s g := MkGate (policy g) (commits g) (ids g) (spaces g) s.

Definition holdMessage : string :=
  "not enough free space beside the committed bytes and the floor; the task starts once space returns".
Definition diskFullMessage : string := "no space left on device; the task resumes once space returns".
Definition pauseDiskFullEventMessage : string :=
  "paused by the disk-space guard: no space left on device".

(** [withinRoot] and [rootOf]. *)
Definition withinRoot (path root : string) : bool :=
  if bool_decide (root = "/"%string) then has_prefix "/" path
  else bool_decide (path = root) || has_prefix (root +:+ "/") path.

Definition root_spelling (root : string) : string :=
  let trimmed := trim_right_byte slash root in
  if bool_decide (trimmed = EmptyString) then "/"%string else trimmed.

Definition rootOf (roots : list string) (destination : string) : string :=
  fold_left (fun best root =>
    let trimmed := root_spelling root in
    if Nat.ltb (String.length best) (String.length trimmed) && withinRoot destination trimmed
    then trimmed else best) roots EmptyString.

(** [remainingBytes]. *)
Definition remainingBytes (cand : Candidate) : Z :=
  match c_total_bytes cand with
  | None => 0
  | Some total =>
    let remaining := wrap64 (total - c_completed_bytes cand) in
    if (0 <? remaining)%Z then remaining else 0
  end.

(** [Candidate] with the intent re-read under the lease. *)
Definition refresh (cand : Candidate) (current : task) : Candidate :=
  MkCandidate (c_id cand) (c_engine cand) (c_engine_ref cand) (c_source_uri cand)
    (c_infohash_v1 cand) (c_destination cand) (t_select_files current) (t_dl_limit current)
    (t_ul_limit current) (c_admission_pending cand) (c_state cand) (c_total_bytes cand)
    (c_completed_bytes cand).

(** [candidateStillCurrent]. *)
Definition candidateStillCurrent (cand : Candidate) (current : task) : bool :=
  if bool_decide (c_state cand = StatePaused) then
    bool_decide (t_state current = StatePaused) && bool_decide (t_error_code current = Some disk_full)
  else bool_decide (t_state current = StateQueued).

(** [decodeSelectionIntent]; an unreadable document is dropped with a log. *)
Definition decodeSelectionIntent (raw : option select_doc) : option SelectionIntent :=
  match raw with
  | None | Some SelEmptyText => None
  | Some doc => DecodeSelectionIntent doc
  end.

Definition magnetInfohashPrefix : string := "magnet:?xt=urn:btih:".

(** [resumeExtra]. *)
Definition resumeExtra : gmap string string := {[ "continue"%string := "true"%string ]}.

(** [admissionRequest], and the reconciler's [resubmitRequest]: both build the
    submission from the stored source, hash, destination, limits and intent. *)
Definition submission (source infohash : option string) (destination : string) (dl ul : Z)
    (sel : option SelectionIntent) : option AddRequest :=
  let startPaused := bool_decide (sel <> None) || (0 <? dl)%Z || (0 <? ul)%Z in
  let request uri := MkAdd [uri] None EmptyString destination EmptyString EmptyString []
    startPaused false (Indices <$> sel) resumeExtra in
  match source, infohash with
  | Some (String _ _ as u), _ => Some (request u)
  | _, Some (String _ _ as h) => Some (request (magnetInfohashPrefix +:+ h))
  | _, _ => None
  end.

Definition admissionRequest (cand : Candidate) (sel : option SelectionIntent) : option AddRequest :=
  submission (c_source_uri cand) (c_infohash_v1 cand) (c_destination cand) (c_dl_limit cand)
    (c_ul_limit cand) sel.

Inductive releaseOutcome := outcomeHeld | outcomeReleased | outcomeSpent.

#[global] Instance releaseOutcome_eq_dec : EqDecision releaseOutcome.
Proof. solve_decision. Defined.

(** The states a disk-full pause may land from. *)
Definition diskFullPauseSources : list TaskState :=
  [StateDownloading; StateChecking; StateExtracting; StateMoving].

(** [%q] of a name without special characters. *)
Definition quote (s : string) : string :=
  String (Ascii.ascii_of_nat 34) (s +:+ String (Ascii.ascii_of_nat 34) EmptyString).

Section Admitter.
Context {E : Type} `{!EngineApi E}.
Abbreviation M := (M E).

(** [filesystemOf]: the cached or resolved filesystem id; a miss is cached as
    the empty id. *)
Definition filesystemOf (g : spaceGate) (destination : string) : M (option string * spaceGate) :=
  match ids g !! destination with
  | Some fsID => mret (if bool_decide (fsID = EmptyString) then None else Some fsID, g)
  | None =>
    r ← attempt (FilesystemID destination);
    match r with
    | inl _ => mret (None, set_ids (<[destination := EmptyString]> (ids g)) g)
    | inr fsID => mret (Some fsID, set_ids (<[destination := fsID]> (ids g)) g)
    end
  end.

(** [m[k] += v] of a Go map of int64. *)
Definition add_to (k : string) (v : Z) (m : gmap string Z) : gmap string Z :=
  <[k := wrap64 (default 0%Z (m !! k) + v)]> m.

(** The loop of [spaceGate] over the store's sums. *)
Fixpoint pool_commits (l : list (string * Z)) (g : spaceGate) : M spaceGate :=
  match l with
  | [] => mret g
  | (destination, remaining) :: l =>
    r ← filesystemOf g destination;
    match r.1 with
    | None => pool_commits l r.2
    | Some fsID => pool_commits l (set_commits (add_to fsID remaining (commits r.2)) r.2)
    end
  end.

(** [spaceGate]; the map is walked in its canonical order. *)
Definition newSpaceGate (p : Policy) : M spaceGate :=
  perDestination ← SumRemainingByDestination;
  pool_commits (map_to_list perDestination) (MkGate p ∅ ∅ ∅ ∅).

(** [reservation]. *)
Definition reservation (g : spaceGate) (destination : string) : M (option Reservation * spaceGate) :=
  r ← filesystemOf g destination;
  match r with
  | (None, g) => mret (None, g)
  | (Some fsID, g) =>
    if bool_decide (fsID ∈ unreadable g) then mret (None, g)
    else
      let answer (space : Space) (g : spaceGate) :=
        (Some (MkReservation fsID (FreeBytes space) (default 0%Z (commits g !! fsID))
           (Floor (MinFree (policy g)) (rootOf (Roots (policy g)) destination))), g) in
      match spaces g !! fsID with
      | Some space => mret (answer space g)
      | None =>
        r ← attempt (FreeSpace destination);
        match r with
        | inl _ => mret (None, set_unreadable ({[fsID]} ∪ unreadable g) g)
        | inr space => mret (answer space (set_spaces (<[fsID := space]> (spaces g)) g))
        end
      end
  end.

(** [holds]: fails open. *)
Definition holds (g : spaceGate) (cand : Candidate) : M (option string * spaceGate) :=
  r ← reservation g (c_destination cand);
  match r.1 with
  | None => mret (None, r.2)
  | Some res => mret (if Admits res (remainingBytes cand) then None else Some holdMessage, r.2)
  end.

(** [holdsParked]: fails closed. *)
Definition holdsParked (g : spaceGate) (cand : Candidate) : M (option string * spaceGate) :=
  r ← reservation g (c_destination cand);
  match r.1 with
  | None => mret (Some diskFullMessage, r.2)
  | Some res => mret (if Admits res (remainingBytes cand) then None else Some diskFullMessage, r.2)
  end.

(** [commit] of the gate. *)
Definition gate_commit (g : spaceGate) (cand : Candidate) : M spaceGate :=
  r ← filesystemOf g (c_destination cand);
  match r.1 with
  | None => mret r.2
  | Some fsID => mret (set_commits (add_to fsID (remainingBytes cand) (commits r.2)) r.2)
  end.

(** [stampHeld]. *)
Definition stampHeld (cand : Candidate) (code message : string) : M unit :=
  ignore (SetErrorCodeIfState (c_id cand) (c_state cand) code message).

(** [clearHoldCode] and [clearStaleStamp]. *)
Definition clearHoldCode (id : string) : M unit := ignore (ClearHoldCode id).

(** [markReleased]. *)
Definition markReleased (id : string) : M unit :=
  Transition id StateDownloading CodeTaskResumed "released by the admission pass" ;;
  clearHoldCode id.

(** [markAdmissionPending]: [inl] is the store failure the caller stops the
    transfer for. *)
Definition markAdmissionPending (id : string) : M (res bool) :=
  r ← attempt (MarkAdmissionPending id);
  match r with
  | inl e => mret (if errors_is e ErrNotFound then inr false else inl e)
  | inr marked => mret (inr marked)
  end.

(** [stopUnownedTransfer], [resumeForMetadata], [removeStrandedTransfer]. *)
Definition stopUnownedTransfer (cand : Candidate) (handle : string) : M unit :=
  ignore (call (eng_Pause (c_engine cand) handle)).
Definition resumeForMetadata (cand : Candidate) (handle : string) : M unit :=
  ignore (call (eng_Resume (c_engine cand) handle)).
Definition removeStrandedTransfer (cand : Candidate) (newID : string) : M unit :=
  ignore (call (eng_Remove (c_engine cand) newID)).

(** [applyPersistedRateLimits]. *)
Definition applyPersistedRateLimits (engineName handle : string) (dl ul : Z) : M unit :=
  let down := if (0 <? dl)%Z then Some dl else None in
  let up := if (0 <? ul)%Z then Some ul else None in
  match down, up with
  | None, None => mret tt
  | _, _ =>
    r ← attempt (call (eng_SetRateLimits engineName handle down up));
    match r with
    | inl e => if errors_is e EngErrNotSupported then mret tt else fail e
    | inr _ => mret tt
    end
  end.

(** [applyPersistedSelection]. *)
Definition applyPersistedSelection (engineName handle : string) (sel : option SelectionIntent)
  : M unit :=
  match sel with
  | None => mret tt
  | Some sel =>
    if negb (contains (Capabilities engineName) CapPerFileSelect) then mret tt
    else
      let priorities := if contains (Capabilities engineName) CapPerFilePriority
                        then Some (Priorities sel) else None in
      r ← attempt (call (eng_SetFiles engineName handle (Indices sel) priorities));
      match r with
      | inr _ => mret tt
      | inl e =>
        listing ← attempt (call (eng_Files engineName handle));
        match listing with
        | inr [] => fail ErrSelectionPending
        | inr (_ :: _) => fail e
        | inl filesErr =>
          if errors_is filesErr EngErrNotFound then fail ErrSelectionPending
          else
            _ ← attempt (call (eng_Pause engineName handle));
            fail filesErr
        end
      end
  end.

(** [applyPersistedIntent]. *)
Definition applyPersistedIntent (engineName handle : string) (dl ul : Z)
    (sel : option SelectionIntent) : M unit :=
  applyPersistedRateLimits engineName handle dl ul ;;
  applyPersistedSelection engineName handle sel.

(** [requeuePendingSelection]. *)
Definition requeuePendingSelection (cand : Candidate) : M bool :=
  moved ← (if bool_decide (c_state cand = StatePaused) then
    r ← attempt (Transition (c_id cand) StateQueued CodeTaskResumed
      "file selection waits for the engine's file listing; requeued for retry");
    mret (match r with inl _ => false | inr _ => true end)
  else mret true);
  if negb moved then mret false
  else
    marked ← attempt (MarkAdmissionPending (c_id cand));
    mret (match marked with inl _ => false | inr b => b end).

(** The tail both release paths share: the state move, and the ownership mark
    (or the stop) when it fails. *)
Definition finishRelease (cand : Candidate) (handle : string) : M unit :=
  r ← attempt (markReleased (c_id cand));
  match r with
  | inr _ => mret tt
  | inl e =>
    marked ← markAdmissionPending (c_id cand);
    (match marked with
     | inl _ =>
       if bool_decide (c_state cand = StateQueued) && (c_admission_pending cand =? 0)%Z
       then stopUnownedTransfer cand handle else mret tt
     | inr _ => mret tt
     end) ;;
    fail (ErrStoreWrite e)
  end.

(** The [default] branch of [release]'s handle switch: [false] falls through
    to the add. *)
Definition release_live (cand : Candidate) (handle : string) (info : TaskInfo)
    (sel : option SelectionIntent) : M bool :=
  paused ← (if bool_decide (sel <> None) && bool_decide (ti_State info = StateDownloading) then
    r ← attempt (call (eng_Pause (c_engine cand) handle));
    match r with
    | inr _ => mret true
    | inl e => if errors_is e EngErrNotFound then mret false else fail e
    end
  else mret true);
  if negb paused then mret false
  else
    intentErr ← attempt (applyPersistedIntent (c_engine cand) handle (c_dl_limit cand)
                           (c_ul_limit cand) sel);
    match intentErr with
    | inl e =>
      if errors_is e EngErrNotFound then mret false
      else if errors_is e ErrSelectionPending then
        run ← requeuePendingSelection cand;
        (if run : bool then resumeForMetadata cand handle else mret tt) ;;
        fail e
      else fail e
    | inr _ =>
      resumeErr ← attempt (call (eng_Resume (c_engine cand) handle));
      match resumeErr with
      | inl e => if errors_is e EngErrNotFound then mret false else fail e
      | inr _ => finishRelease cand handle ;; mret true
      end
    end.

(** The stored-handle half of [release]. *)
Definition release_handle (cand : Candidate) (handle : string) (sel : option SelectionIntent)
  : M bool :=
  got ← attempt (call (eng_Get (c_engine cand) handle));
  match got with
  | inl e => if errors_is e EngErrNotFound then mret false else fail e
  | inr info =>
    if bool_decide (ti_State info = StateError) then
      if bool_decide (ti_ErrorCode info <> disk_full) then
        fail (EngErrOther (ti_ErrorCode info +:+ " " +:+ ti_ErrorMessage info))
      else mret false
    else release_live cand handle info sel
  end.

(** The add half of [release]. *)
Definition release_add (cand : Candidate) (sel : option SelectionIntent) : M unit :=
  match admissionRequest cand sel with
  | None => fail ErrNoSubmission
  | Some req =>
    newID ← call (eng_Add (c_engine cand) req);
    intentErr ← attempt (applyPersistedIntent (c_engine cand) newID (c_dl_limit cand)
                           (c_ul_limit cand) sel);
    let waits e := errors_is e ErrSelectionPending || errors_is e EngErrUnavailable
                   || errors_is e EngErrNotFound in
    match (match intentErr with inl e => if waits e then None else Some e | inr _ => None end) with
    | Some e => removeStrandedTransfer cand newID ;; fail e
    | None =>
      stored ← attempt (SetEngineRef (c_id cand) (bareHandle (c_engine cand) newID));
      match stored with
      | inl e => removeStrandedTransfer cand newID ;; fail (ErrStoreWrite e)
      | inr _ =>
        match intentErr with
        | inl e =>
          if errors_is e ErrSelectionPending then
            run ← requeuePendingSelection cand;
            (if run : bool then resumeForMetadata cand newID else mret tt) ;;
            fail e
          else fail ErrReleaseIncomplete
        | inr _ =>
          started ← (if StartPaused req then attempt (call (eng_Resume (c_engine cand) newID))
                     else mret (inr tt));
          match started with
          | inl _ => fail ErrReleaseIncomplete
          | inr _ => finishRelease cand newID
          end
        end
      end
    end
  end.

(** [release]. *)
Definition release (cand : Candidate) : M unit :=
  if negb (registry_get (c_engine cand)) then fail EngErrUnavailable
  else
    let sel := decodeSelectionIntent (c_select_files cand) in
    match c_engine_ref cand with
    | Some ref =>
      done ← release_handle cand (namespacedHandle (c_engine cand) ref) sel;
      if done : bool then mret tt else release_add cand sel
    | None => release_add cand sel
    end.

(** [releaseFailed]. *)
Definition releaseFailed (cand : Candidate) (cause : err) : M unit :=
  if is_store_write cause || errors_is cause ErrNoSubmission || errors_is cause EngErrUnavailable
     || errors_is cause ErrSelectionPending || errors_is cause ErrReleaseIncomplete
  then clearHoldCode (c_id cand)
  else
    text ← err_text cause;
    ignore (Transition (c_id cand) StateError CodeEngineRejected
      ("engine " +:+ quote (c_engine cand) +:+ " refused the task: " +:+ text)).

(** The hold gates of [processCandidate]: whether the candidate is held. *)
Definition hold_gates (cand : Candidate) (p : Policy) (counts : ActiveCounts) (g : spaceGate)
  : M (bool * spaceGate) :=
  if bool_decide (c_state cand = StatePaused) then
    h ← holdsParked g cand;
    match h.1 with
    | Some message => stampHeld cand disk_full message ;; mret (true, h.2)
    | None => mret (bool_decide (Blocked (limits p) counts (c_engine cand) <> None), h.2)
    end
  else if (c_admission_pending cand =? 0)%Z then
    match Blocked (limits p) counts (c_engine cand) with
    | Some message => stampHeld cand concurrency_limit message ;; mret (true, g)
    | None =>
      h ← holds g cand;
      match h.1 with
      | Some message => stampHeld cand disk_full message ;; mret (true, h.2)
      | None => mret (false, h.2)
      end
    end
  else mret (false, g).

(** What [processCandidate] makes of a failed release. *)
Definition settle_failure (cand : Candidate) (e : err) : M releaseOutcome :=
  cancelled ← ctx_done;
  if cancelled : bool then fail ErrContext
  else
    releaseFailed cand e ;;
    if errors_is e ErrSelectionPending || errors_is e ErrReleaseIncomplete
    then mret outcomeSpent
    else if is_store_write e && bool_decide (c_engine_ref cand <> None)
    then mret outcomeSpent
    else mret outcomeHeld.

(** The claim of a parked pair and the release, with its failure handling. *)
Definition claim_and_release (cand : Candidate) : M releaseOutcome :=
  taken ← (if bool_decide (c_state cand = StatePaused) then
    r ← attempt (ClaimParkedDiskFull (c_id cand));
    match r with
    | inl e => if errors_is e ErrNotFound then mret false else fail e
    | inr taken => mret taken
    end
  else mret true);
  if negb taken then mret outcomeHeld
  else
    r ← attempt (release cand);
    match r with
    | inr _ => mret outcomeReleased
    | inl e => settle_failure cand e
    end.

(** [processCandidate]; the gate's caches survive an error. *)
Definition processCandidate (cand : Candidate) (p : Policy) (counts : ActiveCounts) (g : spaceGate)
  : M (res releaseOutcome * spaceGate) :=
  current ← attempt (Get (c_id cand));
  match current with
  | inl e => mret (if errors_is e ErrNotFound then inr outcomeHeld else inl e, g)
  | inr current =>
    if negb (candidateStillCurrent cand current) then mret (inr outcomeHeld, g)
    else
      let cand := refresh cand current in
      h ← hold_gates cand p counts g;
      if h.1 : bool then mret (inr outcomeHeld, h.2)
      else
        r ← attempt (claim_and_release cand);
        mret (r, h.2)
  end.

(** [AcquireTaskOp] in mode [TaskOpTry] and the closure it returns. *)
Definition try_lease (id : string) : M (option Lease.closure) := fun o w =>
  match Lease.AcquireTaskOp 0 id Lease.TaskOpTry (w_leases w) with
  | (Lease.Granted c, r) => (inr (Some c), set_regw r w)
  | (_, r) => (inr None, set_regw r w)
  end.

Definition release_lease (c : Lease.closure) : M unit := fun o w =>
  (inr tt, set_regw (Lease.releaseTaskOp (o_ended o (w_n w)) c (w_leases w)) w).

(** The loop of [Pass]: what the walk has spent so far. *)
Record walk := MkWalk {
  counts : ActiveCounts; gate : spaceGate; released : list string; storeErrs : nat }.

(** The in-memory spend after one candidate. *)
Definition spend (cand : Candidate) (outcome : releaseOutcome) (st : walk) : M walk :=
  if bool_decide (outcome = outcomeHeld) then mret st
  else
    st ← (if bool_decide (c_state cand <> StateQueued) || (c_admission_pending cand =? 0)%Z then
            g ← gate_commit (gate st) cand;
            mret (MkWalk (Reserve (c_engine cand) (counts st)) g (released st) (storeErrs st))
          else mret st);
    mret (if bool_decide (outcome = outcomeReleased)
          then MkWalk (counts st) (gate st) (released st ++ [c_id cand]) (storeErrs st)
          else st).

Fixpoint pass_loop (p : Policy) (cands : list Candidate) (st : walk) : M (walk * option err) :=
  match cands with
  | [] => mret (st, None)
  | cand :: cands =>
    cancelled ← ctx_done;
    if cancelled : bool then mret (st, Some ErrContext)
    else
      lease ← try_lease (c_id cand);
      match lease with
      | None => pass_loop p cands st
      | Some c =>
        r ← processCandidate cand p (counts st) (gate st);
        release_lease c ;;
        let st := MkWalk (counts st) r.2 (released st) (storeErrs st) in
        match r.1 with
        | inl _ =>
          cancelled ← ctx_done;
          if cancelled : bool then mret (st, Some ErrContext)
          else pass_loop p cands (MkWalk (counts st) (gate st) (released st) (S (storeErrs st)))
        | inr outcome =>
          st ← spend cand outcome st;
          pass_loop p cands st
        end
      end
  end.

(** [Pass]: the ids released and the error, if any. *)
Definition Pass (p : Policy) : M (list string * option err) :=
  counts ← CountActive;
  candidates ← SelectQueuedCandidates int64_max;
  g ← newSpaceGate p;
  r ← pass_loop p candidates (MkWalk counts g [] 0);
  match r with
  | (st, Some e) => mret (released st, Some e)
  | (st, None) =>
    if Nat.ltb 0 (storeErrs st) && bool_decide (released st = [])
    then mret (released st, Some ErrDriver)
    else mret (released st, None)
  end.

(** [pauseEngineSide]. *)
Definition pauseEngineSide (t : task) : M unit :=
  match t_engine_ref t with
  | None => mret tt
  | Some ref =>
    if registry_get (t_engine t)
    then ignore (call (eng_Pause (t_engine t) (namespacedHandle (t_engine t) ref)))
    else mret tt
  end.

(** [PauseDiskFull]; its refusals are plain errors. *)
Definition PauseDiskFull (id : string) : M unit :=
  task ← attempt (Get id);
  match task with
  | inl e => if errors_is e ErrNotFound then mret tt else fail e
  | inr t =>
    if bool_decide (t_state t = StatePaused) && bool_decide (t_error_code t = Some disk_full) then
      pauseEngineSide t ;;
      r ← attempt (SetErrorCodeIfState id StatePaused disk_full diskFullMessage);
      match r with
      | inl e => if errors_is e ErrNotFound then mret tt else fail e
      | inr _ => mret tt
      end
    else if bool_decide (t_state t = StatePaused) then fail ErrArgument
    else if negb (contains diskFullPauseSources (t_state t)) then
      (if bool_decide (t_state t = StateQueued) then pauseEngineSide t else mret tt) ;;
      fail ErrArgument
    else
      pauseEngineSide t ;;
      r ← attempt (PauseWithCode id (MkCodedPause CodeTaskPaused pauseDiskFullEventMessage
                     disk_full diskFullMessage diskFullPauseSources));
      match r with
      | inl e => if errors_is e ErrNotFound then mret tt else fail e
      | inr _ => mret tt
      end
  end.
End Admitter.
