(* ===== verification/AdmissionProps.v ===== *)
(** * What the admission pass guarantees

    Over a driver that does not fail a pass never starts more tasks than the
    limits allow, whatever the engines, the file systems and the context do;
    one lost write is enough to break the bound. *)

From S2P Require Import Prelude TaskState Schema Lease World Frame Fsx Store StoreProps.
From S2P Require Import Engine Admission Scenario.

(** ** Rows a candidate's processing may touch *)

(** The columns the gates and the counts read. *)
Definition footprint (t : task) : string * string * option Z * Z :=
  (t_engine t, t_destination t, t_total_bytes t, t_completed_bytes t).

Record own (id : string) (d d' : db) : Prop := {
  own_others : forall j, j <> id -> d_tasks d' !! j = d_tasks d !! j;
  own_row : footprint <$> d_tasks d' !! id = footprint <$> d_tasks d !! id }.

(** [own], and the row keeps its state and its admission mark. *)
Record calm (id : string) (d d' : db) : Prop := {
  calm_own : own id d d';
  calm_state : (fun t => (t_state t, t_admission_pending t)) <$> d_tasks d' !! id =
               (fun t => (t_state t, t_admission_pending t)) <$> d_tasks d !! id }.

(** [own], and the row is not newly counted. *)
Record quiet (id : string) (d d' : db) : Prop := {
  quiet_own : own id d d';
  quiet_count : forall t', d_tasks d' !! id = Some t' -> counted t' = true ->
    exists t, d_tasks d !! id = Some t /\ counted t = true }.

#[global] Instance own_pre id : PreOrder (own id).
Proof.
  split; [by split|]. intros a b c [H1 H2] [H3 H4]. split; [|congruence].
  intros j Hj. rewrite H3, H1; done.
Qed.

#[global] Instance calm_pre id : PreOrder (calm id).
Proof.
  split; [intros d; split; [reflexivity|done]|]. intros a b c [H1 H2] [H3 H4].
  split; [by etransitivity|congruence].
Qed.

#[global] Instance quiet_pre id : PreOrder (quiet id).
Proof.
  split; [intros d; split; [reflexivity|eauto]|]. intros a b c [H1 H2] [H3 H4].
  split; [by etransitivity|]. intros t Ht Hc. destruct (H4 t Ht Hc) as (u & Hu & Hcu). eauto.
Qed.

Lemma calm_quiet id d d' : calm id d d' -> quiet id d d'.
Proof.
  intros [Ho Hs]. split; [done|]. intros t' Ht' Hc. rewrite Ht' in Hs.
  destruct (d_tasks d !! id) as [t|]; [|done]. simpl in Hs. injection Hs as Hs Hp.
  exists t. split; [done|]. unfold counted in *. by rewrite <- Hs, <- Hp.
Qed.

Lemma update_own id guard f ok :
  (forall t, footprint (f t) = footprint t) -> stmt_keeps (own id) (update_where id guard f ok).
Proof.
  intros Hf d d' k [(-> & _)|(t & Ht & _ & _ & _ & ->)]%update_where_inv; [reflexivity|].
  split; simpl; [intros j Hj; by rewrite lookup_insert_ne|].
  rewrite lookup_insert_eq, Ht. simpl. by rewrite Hf.
Qed.

Lemma update_calm id guard f ok :
  (forall t, footprint (f t) = footprint t /\ t_state (f t) = t_state t /\
     t_admission_pending (f t) = t_admission_pending t) ->
  stmt_keeps (calm id) (update_where id guard f ok).
Proof.
  intros Hf d d' k Hq. split.
  - eapply update_own; [|exact Hq]. intros t. apply Hf.
  - apply update_where_inv in Hq as [(-> & _)|(t & Ht & _ & _ & _ & ->)]; [done|].
    simpl. rewrite lookup_insert_eq, Ht. simpl. by destruct (Hf t) as (_ & -> & ->).
Qed.

Lemma event_calm id e : stmt_keeps (calm id) (queryInsertTaskEvent e).
Proof.
  intros d d' k. unfold queryInsertTaskEvent. intros Hq. break_all Hq; try reflexivity.
  by repeat split.
Qed.

Lemma event_own id e : stmt_keeps (own id) (queryInsertTaskEvent e).
Proof. intros d d' k Hq. eapply event_calm, Hq. Qed.

Lemma transition_error_quiet id now cur : stmt_keeps (quiet id) (queryTransitionTask StateError now id cur).
Proof.
  intros d d' k Hq. split; [eapply update_own; [|exact Hq]; done|].
  apply update_where_inv in Hq as [(-> & _)|(t & Ht & _ & _ & _ & ->)]; [eauto|].
  intros t'. simpl. rewrite lookup_insert_eq. intros [= <-]. done.
Qed.

Lemma event_quiet id e : stmt_keeps (quiet id) (queryInsertTaskEvent e).
Proof. intros d d' k Hq. eapply calm_quiet, event_calm, Hq. Qed.

#[export] Hint Resolve event_calm event_own event_quiet transition_error_quiet : dltool.

Section Rows.
Context {E : Type}.
Implicit Types id : string.
Abbreviation calmly id m := (always (keeps (calm id) (E := E)) m).
Abbreviation owning id m := (always (keeps (own id) (E := E)) m).

#[local] Hint Extern 1 (stmt_keeps (calm _) _) => apply update_calm; intros; repeat split : dltool.
#[local] Hint Extern 1 (stmt_keeps (own _) _) => apply update_own; reflexivity : dltool.

Lemma insertTaskEvent_calm id j lv code msg dt now : calmly id (insertTaskEvent j lv code msg dt now).
Proof. unfold insertTaskEvent. walk; auto with dltool. Qed.

Lemma insertTaskEvent_own id j lv code msg dt now : owning id (insertTaskEvent j lv code msg dt now).
Proof. unfold insertTaskEvent. walk; auto with dltool. Qed.

#[local] Hint Resolve insertTaskEvent_calm insertTaskEvent_own : dltool.

Lemma Get_calm id : calmly id (Get id).
Proof. unfold Get. walk. Qed.

Lemma SetErrorCodeIfState_calm id st code msg : calmly id (SetErrorCodeIfState id st code msg).
Proof. unfold SetErrorCodeIfState. walk; auto with dltool. Qed.

Lemma ClearHoldCode_calm id : calmly id (ClearHoldCode id).
Proof. unfold ClearHoldCode. walk; auto with dltool. Qed.

Lemma ClaimParkedDiskFull_calm id : calmly id (ClaimParkedDiskFull id).
Proof. unfold ClaimParkedDiskFull. walk; auto with dltool. Qed.

Lemma SetEngineRef_calm id ref : calmly id (SetEngineRef id ref).
Proof. unfold SetEngineRef. walk; auto with dltool. Qed.

Lemma Transition_own id next code msg : owning id (Transition id next code msg).
Proof. unfold Transition. walk; auto with dltool. Qed.

Lemma Transition_error_quiet id code msg :
  always (keeps (quiet id) (E := E)) (Transition id StateError code msg).
Proof. unfold Transition, insertTaskEvent. walk; auto with dltool. Qed.

Lemma MarkAdmissionPending_own id : owning id (MarkAdmissionPending id).
Proof. unfold MarkAdmissionPending. walk; auto with dltool. Qed.
End Rows.

#[export] Hint Resolve Get_calm SetErrorCodeIfState_calm ClearHoldCode_calm
  ClaimParkedDiskFull_calm SetEngineRef_calm Transition_own
  Transition_error_quiet MarkAdmissionPending_own : dltool.

(** ** Faultless runs of the release's state writes *)

Section Faultless.
Context {E : Type} `{!EngineApi E} (o : oracle) (Hio : io_ok o).
Implicit Types w : world E.

Lemma query_ok {A} (q : db -> A) w : query q o w = (inr (q (current w)), bump w).
Proof. unfold query. by rewrite Hio. Qed.

Lemma with_tx_ok {A} (body : M E A) w :
  with_tx body o w =
    let '(r, w') := body o (bump (set_tx (Some (w_db w)) w)) in (r, set_tx None w').
Proof. rewrite with_tx_run. by rewrite Hio. Qed.

Lemma exec_ok q w d k :
  q (current w) = Some (d, k) -> exec q o w = (inr k, bump (put_current d w)).
Proof. intros Hq. unfold exec. by rewrite Hio, Hq. Qed.

Lemma commit_ok w : commit o w = (inr tt, bump (set_tx None (set_db (current w) w))).
Proof. unfold commit. by rewrite Hio. Qed.

(** A legal move of a present row succeeds. *)
Lemma Transition_ok id next code msg w t :
  d_tasks (w_db w) !! id = Some t -> transitionLegal (t_state t) next = true ->
  (Transition id next code msg o w).1 = inr tt.
Proof.
  intros Ht Hl. unfold Transition. rewrite with_tx_ok. rewrite bind_run, query_ok.
  change (current _) with (w_db w). unfold queryTaskState. rewrite Ht. simpl. rewrite Hl. simpl.
  rewrite bind_run. cbn [unix_milli]. rewrite bind_run.
  erewrite exec_ok; [|unfold queryTransitionTask, update_where; change (current _) with (w_db w);
    rewrite Ht, bool_decide_true by done; reflexivity].
  cbn [Z.eqb]. rewrite bind_run. unfold insertTaskEvent. rewrite bind_run. cbn [NewID].
  rewrite bind_run. erewrite exec_ok;
    [|eapply insert_event_run; [apply lookup_insert_eq|apply level_known]].
  rewrite ret_run, bind_run, commit_ok. by case_bool_decide.
Qed.
End Faultless.

(** ** Frames of the pass's parts *)

Section Parts.
Context {E : Type} `{!EngineApi E} (S : db -> db -> Prop) `{!PreOrder S}.
Abbreviation frame m := (always (tables S (E := E)) m).

Lemma tables_call {A} (f : E -> res A * E) : frame (call f).
Proof.
  intros o w. unfold call. destruct (f (w_eng w)) as [r e]. by apply tables_same.
Qed.

Lemma tables_err_text e : frame (err_text e).
Proof. intros o w. by apply tables_same. Qed.

Lemma tables_io {A} (m : M E A) : always (keeps S (E := E)) m -> frame m.
Proof. apply tables_keeps; apply _. Qed.

#[local] Hint Resolve tables_call tables_err_text : dltool.

Lemma rate_limits_frame n h dl ul : frame (applyPersistedRateLimits n h dl ul).
Proof. unfold applyPersistedRateLimits. walk; auto with dltool. Qed.

Lemma selection_frame n h sel : frame (applyPersistedSelection n h sel).
Proof. unfold applyPersistedSelection. walk; auto with dltool. Qed.

Lemma intent_frame n h dl ul sel : frame (applyPersistedIntent n h dl ul sel).
Proof.
  unfold applyPersistedIntent.
  apply always_bind; [apply _|apply rate_limits_frame|intros; apply selection_frame].
Qed.

Lemma ancestor_frame path : frame (existingAncestor path).
Proof.
  assert (H : forall fuel cur, always (keeps S (E := E)) (climb fuel cur)).
  { induction fuel as [|fuel IH]; intros cur; simpl; walk; auto with dltool. }
  apply tables_io. unfold existingAncestor. walk; auto with dltool.
Qed.

Lemma filesystemOf_frame g d : frame (filesystemOf g d).
Proof.
  unfold filesystemOf, FilesystemID. walk; auto using ancestor_frame with dltool.
  all: apply tables_io; auto with dltool.
Qed.

Lemma FreeSpace_frame d : frame (FreeSpace d).
Proof.
  unfold FreeSpace. walk; auto using ancestor_frame with dltool.
  all: apply tables_io; auto with dltool.
Qed.

Lemma reservation_frame g d : frame (reservation g d).
Proof. unfold reservation. walk; auto using filesystemOf_frame, FreeSpace_frame with dltool. Qed.

Lemma holds_frame g c : frame (holds g c).
Proof. unfold holds. walk; auto using reservation_frame with dltool. Qed.

Lemma holdsParked_frame g c : frame (holdsParked g c).
Proof. unfold holdsParked. walk; auto using reservation_frame with dltool. Qed.

Lemma gate_commit_frame g c : frame (gate_commit g c).
Proof. unfold gate_commit. walk; auto using filesystemOf_frame with dltool. Qed.

Lemma newSpaceGate_frame p : frame (newSpaceGate p).
Proof.
  unfold newSpaceGate, SumRemainingByDestination. walk; [apply tables_io; walk|].
  assert (H : forall l g, frame (pool_commits l g)).
  { induction l as [|[d r] l IH]; intros g; simpl; walk; auto using filesystemOf_frame with dltool. }
  apply H.
Qed.
End Parts.

#[export] Hint Resolve tables_call tables_err_text : dltool.

(** ** One candidate over a driver that does not fail *)

Section Candidate.
Context {E : Type} `{!EngineApi E} (o : oracle) (Hio : io_ok o).
Context (cand : Candidate) (w0 : world E) (t0 : task).
Context (Htx : w_tx w0 = None) (Hrow : d_tasks (w_db w0) !! c_id cand = Some t0).
Context (Hstate : t_state t0 = c_state cand)
  (Hwait : c_state cand = StateQueued \/ c_state cand = StatePaused).
Abbreviation near := (tables (calm (c_id cand)) w0).
Abbreviation moved := (tables (own (c_id cand)) w0).

Lemma near_moved w : near w -> moved w.
Proof. apply tables_impl; [|done]. by intros d d' []. Qed.

Lemma near_row w : near w -> w_tx w = None /\
  exists t, d_tasks (w_db w) !! c_id cand = Some t /\ t_state t = t_state t0 /\
    t_admission_pending t = t_admission_pending t0 /\ footprint t = footprint t0.
Proof.
  intros Hn. pose proof (ts_none _ _ _ Hn Htx). split; [done|].
  apply tables_db in Hn as [[_ Hf] Hs]; [|done].
  rewrite Hrow in Hf, Hs. destruct (d_tasks (w_db w) !! c_id cand) as [t|] eqn:Ht; [|done].
  exists t. simpl in Hf, Hs. injection Hs as Hs1 Hs2. injection Hf as Hf1 Hf2 Hf3 Hf4.
  unfold footprint. by rewrite Hf1, Hf2, Hf3, Hf4.
Qed.

(** What a failed command leaves behind: nothing but calm writes, or the
    pass's ownership of a pending selection. *)
Definition left_behind {A} (r : res A) (w : world E) : Prop :=
  match r with
  | inr _ => moved w
  | inl e => near w \/ errors_is e ErrSelectionPending = true /\ moved w
  end.

Lemma near_left {A} (m : M E A) :
  always (tables (calm (c_id cand))) m -> spec o near m (fun _ => near).
Proof. intros Hm. by apply (spec_always o (tables (calm (c_id cand)))). Qed.

Lemma markReleased_spec : spec o near (markReleased (c_id cand))
  (fun r w => r = inr tt /\ moved w).
Proof.
  intros w Hn. unfold markReleased. rewrite bind_run.
  destruct (near_row w Hn) as (Hw & t & Ht & Hs & _).
  pose proof (Transition_ok o Hio (c_id cand) StateDownloading CodeTaskResumed
    "released by the admission pass" w t Ht) as Hr.
  pose proof (Transition_own (E := E) (c_id cand) StateDownloading CodeTaskResumed
    "released by the admission pass" o w) as Ho.
  destruct (Transition _ _ _ _ o w) as [r w1]. simpl in *.
  rewrite Hr by (rewrite Hs, Hstate; destruct Hwait as [-> | ->]; done).
  assert (Hm : moved w1).
  { etransitivity; [by apply near_moved|]. destruct Ho; by split. }
  unfold clearHoldCode, ignore. rewrite bind_run. unfold attempt.
  pose proof (ClearHoldCode_calm (E := E) (c_id cand) o w1) as Hc.
  destruct (ClearHoldCode _ o w1) as [r2 w2]. simpl in *. split; [done|].
  etransitivity; [exact Hm|]. apply (tables_impl (calm (c_id cand))); [by intros d d' []| |].
  - by apply (ts_none _ _ _ Hm).
  - destruct Hc; by split.
Qed.

Lemma finishRelease_spec handle : spec o near (finishRelease cand handle)
  (fun r w => r = inr tt /\ moved w).
Proof.
  intros w Hn. unfold finishRelease. rewrite bind_run. unfold attempt.
  destruct (markReleased_spec w Hn) as [Hr Hm].
  destruct (markReleased (c_id cand) o w) as [r w1]. simpl in *. by subst r.
Qed.

Lemma tables_moved {A} (m : M E A) w :
  always (tables (own (c_id cand))) m -> moved w -> moved (m o w).2.
Proof. intros Hm Hw. etransitivity; [done|apply Hm]. Qed.

Lemma requeue_own : always (tables (own (c_id cand))) (requeuePendingSelection (E := E) cand).
Proof.
  unfold requeuePendingSelection. walk; apply tables_keeps; try apply _; auto with dltool.
Qed.

(** A pending selection: requeue, run for the metadata, report it. *)
Lemma pending_spec {A} handle e :
  spec o near (run ← requeuePendingSelection cand;
    (if run : bool then resumeForMetadata cand handle else mret tt) ;; fail (A := A) e)
    (fun r w => r = inl e /\ moved w).
Proof.
  intros w Hn. set (m := _ ≫= _).
  assert (Hm : always (tables (own (c_id cand))) m).
  { subst m. unfold resumeForMetadata. walk; auto using requeue_own with dltool. }
  assert (Hf : exists w', m o w = (inl e, w')).
  { subst m. rewrite bind_run.
    destruct (requeuePendingSelection cand o w) as [[e'|run] w1] eqn:Hr.
    - exfalso. revert Hr. unfold requeuePendingSelection. rewrite bind_run.
      destruct (bool_decide (c_state cand = StatePaused)).
      + rewrite bind_run. unfold attempt. destruct (Transition _ _ _ _ o w) as [[|] ?]; [done|].
        simpl. rewrite bind_run. unfold attempt. by destruct (MarkAdmissionPending _ o _).
      + simpl. rewrite bind_run. unfold attempt. by destruct (MarkAdmissionPending _ o _).
    - rewrite bind_run. destruct run; [|by eexists]. unfold resumeForMetadata, ignore.
      rewrite bind_run. unfold attempt. destruct (call _ o w1). by eexists. }
  pose proof (Hm o w) as Hw. destruct Hf as [w' Hf]. rewrite Hf in Hw |- *. simpl in *.
  split; [done|]. etransitivity; [by apply near_moved|done].
Qed.

#[local] Hint Resolve intent_frame : dltool.

Lemma calm_then {A B} (m : M E A) (k : res A -> M E B) Q :
  always (tables (calm (c_id cand))) m -> (forall r, spec o near (k r) Q) ->
  spec o near (attempt m ≫= k) Q.
Proof. intros Hm Hk. by apply (spec_try o (tables (calm (c_id cand)))). Qed.

Lemma calm_fail {A} e : spec o near (fail (A := A) e) left_behind.
Proof. apply spec_fail. intros w Hw. by left. Qed.

(** A best-effort engine call before a failure. *)
Lemma ignore_fail {A B} (m : M E A) e : always (tables (calm (c_id cand))) m ->
  spec o near (ignore m ;; fail (A := B) e) left_behind.
Proof.
  intros Hm. apply (spec_step o (tables (calm (c_id cand)))); [walk| |].
  - intros; by left.
  - intros _. apply calm_fail.
Qed.

Lemma finish_left {A} handle (x : A) :
  spec o near (finishRelease cand handle ;; mret x) left_behind.
Proof.
  eapply spec_bind; [apply finishRelease_spec| |].
  - intros e w [? _]. done.
  - intros []. apply spec_ret. by intros w [_ ?].
Qed.

Lemma release_add_spec sel : spec o near (release_add cand sel) left_behind.
Proof.
  unfold release_add. destruct (admissionRequest cand sel) as [req|]; [|apply calm_fail].
  apply (spec_step o (tables (calm (c_id cand)))); [eauto with dltool typeclass_instances|by intros; left|].
  intros newID. apply calm_then; [eauto with dltool typeclass_instances|]. intros intentErr.
  assert (Hrest : forall e', spec o near (removeStrandedTransfer cand newID ;; fail (A := unit) e') left_behind).
  { intros e'. apply ignore_fail. eauto with dltool typeclass_instances. }
  cbv zeta. match goal with |- spec _ _ (match ?x with Some _ => _ | None => _ end) _ => destruct x end;
    [apply Hrest|].
  apply calm_then; [apply tables_keeps, SetEngineRef_calm|].
  intros [e|[]]; [apply Hrest|].
  destruct intentErr as [e|[]].
  - destruct (errors_is e ErrSelectionPending) eqn:He; [|apply calm_fail].
    eapply spec_weaken; [apply (pending_spec newID e)|done|]. intros r w [-> Hm]. by right.
  - destruct (StartPaused req).
    + apply calm_then; [eauto with dltool typeclass_instances|]. intros [e|[]]; [apply calm_fail|].
      eapply spec_weaken; [apply finishRelease_spec|done|]. by intros r w [-> ?].
    + intros w Hw. rewrite bind_run, ret_run. revert w Hw.
      change (spec o near (finishRelease cand newID) left_behind).
      eapply spec_weaken; [apply finishRelease_spec|done|]. by intros r w [-> ?].
Qed.

(** A handle the engine lost falls through with nothing written. *)
Definition falls_through (r : res bool) (w : world E) : Prop :=
  match r with inr false => near w | _ => left_behind r w end.

Lemma through_false : spec o near (mret false : M E bool) falls_through.
Proof. by apply spec_ret. Qed.

Lemma through_fail e : spec o near (fail (A := bool) e) falls_through.
Proof. apply spec_fail. intros w Hw. by left. Qed.

Lemma release_live_spec handle info sel :
  spec o near (release_live cand handle info sel) falls_through.
Proof.
  unfold release_live.
  set (rest := fun paused : bool => if negb paused then _ else _).
  assert (Hrest : forall b, spec o near (rest b) falls_through).
  { intros [|]; [|apply through_false]. subst rest. simpl.
    apply calm_then; [eauto with dltool typeclass_instances|]. intros [e|[]].
    - destruct (errors_is e EngErrNotFound); [apply through_false|].
      destruct (errors_is e ErrSelectionPending) eqn:He; [|apply through_fail].
      eapply spec_weaken; [apply (pending_spec handle e)|done|]. intros r w [-> Hm]. by right.
    - apply calm_then; [eauto with dltool typeclass_instances|]. intros [e|[]].
      + destruct (errors_is e EngErrNotFound); [apply through_false|apply through_fail].
      + eapply spec_bind; [apply finishRelease_spec|by intros e w []|].
        intros []. apply spec_ret. by intros w [_ ?]. }
  destruct (_ && _).
  - intros w Hw. rewrite bind_run, bind_run. unfold attempt.
    pose proof (tables_call (calm (c_id cand)) (eng_Pause (c_engine cand) handle) o w) as Hc.
    destruct (call _ o w) as [[e|[]] w1]; simpl in Hc;
      (assert (Hn : near w1) by (by etransitivity)).
    + destruct (errors_is e EngErrNotFound); [by apply through_false|by left].
    + by apply (Hrest true).
  - intros w Hw. rewrite bind_run, ret_run. by apply (Hrest true).
Qed.

Lemma release_handle_spec handle sel :
  spec o near (release_handle cand handle sel) falls_through.
Proof.
  unfold release_handle. apply calm_then; [eauto with dltool typeclass_instances|]. intros [e|info].
  - destruct (errors_is e EngErrNotFound); [apply through_false|apply through_fail].
  - repeat case_match; auto using through_false, through_fail, release_live_spec.
Qed.

(** [release] either finishes, or fails leaving nothing but calm writes, or
    leaves the pass's ownership mark behind a pending selection. *)
Lemma release_spec : spec o near (release cand) left_behind.
Proof.
  unfold release. destruct (registry_get (c_engine cand)); simpl; [|apply calm_fail].
  destruct (c_engine_ref cand) as [ref|]; [|apply release_add_spec].
  eapply spec_bind; [apply release_handle_spec|done|].
  intros [|]; [by apply spec_ret|]. apply release_add_spec.
Qed.

Abbreviation quietly := (tables (quiet (c_id cand)) w0).

Lemma near_quiet w : near w -> quietly w.
Proof. apply tables_impl; [apply calm_quiet|done]. Qed.

Lemma quiet_calm_step {A} (m : M E A) w :
  always (tables (calm (c_id cand))) m -> quietly w -> quietly (m o w).2.
Proof.
  intros Hm Hw. etransitivity; [exact Hw|]. apply (tables_impl (calm (c_id cand))).
  - apply calm_quiet.
  - by apply (ts_none _ _ _ Hw).
  - apply Hm.
Qed.

Lemma clearHoldCode_calm : always (tables (calm (c_id cand))) (clearHoldCode (E := E) (c_id cand)).
Proof. apply tables_keeps. unfold clearHoldCode. walk; auto with dltool. Qed.

Lemma releaseFailed_quiet e : always (tables (quiet (c_id cand))) (releaseFailed (E := E) cand e).
Proof.
  unfold releaseFailed. case_match.
  - unfold clearHoldCode. apply always_ignore; [apply _|]. apply tables_keeps.
    unfold ClearHoldCode. walk; try (intros d d' k Hq; eapply calm_quiet, update_calm, Hq; by intros).
    all: auto with dltool.
  - walk; eauto with dltool typeclass_instances.
    apply tables_keeps. auto with dltool.
Qed.

Lemma quiet_moved w w' : quietly w -> tables (quiet (c_id cand)) w w' -> moved w'.
Proof.
  intros Hq Hs. apply (tables_impl (quiet (c_id cand))); [by intros d d' []|done|].
  by etransitivity.
Qed.

Lemma moved_quiet w w' : moved w -> tables (quiet (c_id cand)) w w' -> moved w'.
Proof.
  intros Hm Hs. etransitivity; [exact Hm|].
  apply (tables_impl (quiet (c_id cand))); [by intros d d' []| |done]. by apply (ts_none _ _ _ Hm).
Qed.

(** The cost of a candidate: a held one adds nothing to the counted set, and
    an error that did comes with a cancelled context. *)
Definition cost (r : res releaseOutcome) (w : world E) : Prop :=
  match r with
  | inr outcomeHeld => quietly w
  | inr _ => moved w
  | inl _ => quietly w \/ moved w /\ w_cancel w = Some 0
  end.

Lemma cost_held : spec o near (mret outcomeHeld) cost.
Proof. apply spec_ret. intros w Hw. by apply near_quiet. Qed.

Lemma after_failure e w : left_behind (inl e : res unit) w ->
  cost (settle_failure cand e o w).1 (settle_failure cand e o w).2.
Proof.
  unfold settle_failure.
  intros Hl. rewrite bind_run. destruct (ctx_done_run o w) as [[-> Hc]|(w1 & -> & Hd & Ht)].
  { simpl. destruct Hl as [?|[_ ?]]; [left; by apply near_quiet|by right]. }
  rewrite bind_run. pose proof (releaseFailed_quiet e o w1) as Hq.
  assert (Hr : exists w2, releaseFailed cand e o w1 = (inr tt, w2)).
  { unfold releaseFailed. case_match.
    - unfold clearHoldCode, ignore. rewrite bind_run. unfold attempt.
      destruct (ClearHoldCode _ o w1). by eexists.
    - rewrite bind_run. unfold err_text, ignore. rewrite bind_run. unfold attempt.
      destruct (Transition _ _ _ _ o w1). by eexists. }
  destruct Hr as [w2 Hr]. rewrite Hr in Hq |- *. simpl in Hq.
  assert (Hw : tables (quiet (c_id cand)) w w2).
  { transitivity w1; [by apply (tables_same (quiet (c_id cand)))|done]. }
  destruct Hl as [Hn|[He Hm]].
  - assert (quietly w2) by (etransitivity; [by apply near_quiet|done]).
    assert (moved w2) by (eapply quiet_moved; [by apply near_quiet|done]).
    by repeat case_match.
  - rewrite He. simpl. by eapply moved_quiet.
Qed.

Lemma claim_and_release_spec : spec o near (claim_and_release cand) cost.
Proof.
  unfold claim_and_release.
  set (rest := fun taken : bool => if negb taken then _ else _).
  assert (Hrest : forall b, spec o near (rest b) cost).
  { intros [|]; [|apply cost_held]. subst rest. simpl. intros w Hw.
    rewrite bind_run. unfold attempt. pose proof (release_spec w Hw) as Hr.
    destruct (release cand o w) as [[e|x] w1]; simpl in *; [by apply after_failure|done]. }
  case_bool_decide.
  - intros w Hw. rewrite bind_run, bind_run. unfold attempt.
    pose proof (ClaimParkedDiskFull_calm (E := E) (c_id cand) o w) as Hc.
    destruct (ClaimParkedDiskFull _ o w) as [[e|taken] w1]; simpl in Hc;
      (assert (Hn : near w1) by (etransitivity; [done|destruct Hc; by split])).
    + destruct (errors_is e ErrNotFound); [by apply (Hrest false)|].
      left. by apply near_quiet.
    + by apply Hrest.
  - intros w Hw. rewrite bind_run, ret_run. by apply Hrest.
Qed.

(** The candidate passed the limits, or carries the pass's mark. *)
Definition passed (p : Policy) (counts : ActiveCounts) : Prop :=
  Blocked (limits p) counts (c_engine cand) = None \/
  c_state cand = StateQueued /\ c_admission_pending cand <> 0%Z.

Lemma stampHeld_calm c code msg : c_id c = c_id cand ->
  always (tables (calm (c_id cand))) (stampHeld (E := E) c code msg).
Proof.
  intros <-. apply tables_keeps. unfold stampHeld. walk; auto with dltool.
Qed.

Lemma hold_gates_spec p counts g :
  spec o near (hold_gates cand p counts g)
    (fun r w => near w /\ match r with inr (false, _) => passed p counts | _ => True end).
Proof.
  unfold hold_gates.
  assert (Hst : forall code msg (g' : spaceGate), spec o near
    (stampHeld cand code msg ;; mret (true, g'))
    (fun r w => near w /\ match r with inr (false, _) => passed p counts | _ => True end)).
  { intros code msg g'. apply (spec_step o (tables (calm (c_id cand)))).
    - by apply stampHeld_calm.
    - done.
    - intros []. by apply spec_ret. }
  case_bool_decide as Hp.
  - apply (spec_step o (tables (calm (c_id cand)))); [apply holdsParked_frame; apply _|done|].
    intros [[msg|] g']; simpl; [apply Hst|]. apply spec_ret. intros w Hw. split; [done|].
    case_bool_decide as Hb; [done|]. left. by destruct (Blocked _ _ _); [destruct Hb|].
  - destruct (c_admission_pending cand =? 0)%Z eqn:Hap.
    + destruct (Blocked _ _ _) eqn:Hb; [apply Hst|].
      apply (spec_step o (tables (calm (c_id cand)))); [apply holds_frame; apply _|done|].
      intros [[msg|] g']; simpl; [apply Hst|]. apply spec_ret. intros w Hw. split; [done|by left].
    + apply spec_ret. intros w Hw. split; [done|]. right.
      split; [by destruct Hwait|]. lia.
Qed.
End Candidate.

(** ** The whole candidate and the walk *)

Section Walk.
Context {E : Type} `{!EngineApi E} (o : oracle) (Hio : io_ok o).
Implicit Types w : world E.

(** What processing one candidate costs, seen from the world it started in. *)
Definition candidate_cost (cand : Candidate) (p : Policy) (counts : ActiveCounts) w0
    (r : res (res releaseOutcome * spaceGate)) w : Prop :=
  match r with
  | inl _ | inr (inr outcomeHeld, _) => tables (quiet (c_id cand)) w0 w
  | inr (inr _, _) => tables (own (c_id cand)) w0 w /\ passed cand p counts
  | inr (inl _, _) => tables (quiet (c_id cand)) w0 w \/
      tables (own (c_id cand)) w0 w /\ passed cand p counts /\ w_cancel w = Some 0
  end.

Lemma processCandidate_spec cand p counts g w0 t0 :
  w_tx w0 = None -> d_tasks (w_db w0) !! c_id cand = Some t0 ->
  t_state t0 = c_state cand -> c_state cand = StateQueued \/ c_state cand = StatePaused ->
  let '(r, w) := processCandidate cand p counts g o w0 in candidate_cost cand p counts w0 r w.
Proof.
  intros Htx Hrow Hst Hwait. unfold processCandidate. rewrite bind_run. unfold attempt.
  pose proof (Get_calm (E := E) (c_id cand) o w0) as Hget.
  destruct (Get (c_id cand) o w0) as [[e|cur] w1]; simpl in Hget;
    (assert (Hn : tables (calm (c_id cand)) w0 w1) by (destruct Hget; by split)).
  { rewrite ret_run. apply (near_quiet cand w0 Htx) in Hn.
    by destruct (errors_is e ErrNotFound); [|left]. }
  destruct (negb _).
  { rewrite ret_run. by apply (near_quiet cand w0 Htx). }
  set (c := refresh cand cur).
  rewrite bind_run.
  pose proof (hold_gates_spec o c w0 Hwait p counts g w1 Hn) as [Hn2 Hp].
  destruct (hold_gates c p counts g o w1) as [[e|[held g']] w2]; simpl in Hn2, Hp.
  { by apply (near_quiet cand w0 Htx). }
  simpl. destruct held.
  { rewrite ret_run. by apply (near_quiet cand w0 Htx). }
  rewrite bind_run. unfold attempt.
  pose proof (claim_and_release_spec o Hio c w0 t0 Htx Hrow Hst Hwait w2 Hn2) as Hc.
  destruct (claim_and_release c o w2) as [r w3]. rewrite ret_run. simpl in Hc |- *.
  destruct r as [e|[| |]]; simpl in Hc |- *; [|done|done|done].
  destruct Hc as [?|[? ?]]; [by left|by right].
Qed.

(** *** One limit at a time

    [limit] bounds the counted rows whose engine satisfies [cond] (all of them,
    or those of one engine); [used] is the pass's own count of them. *)
Section Limit.
Context (p : Policy) (cond : string -> bool) (used : ActiveCounts -> Z) (limit B : Z).
Context (Hused : forall e c, used (Reserve e c) = (used c + if cond e then 1 else 0)%Z).
Context (Hblocked : forall e c, Blocked (limits p) c e = None -> cond e = true -> (used c < limit)%Z).
Context (HB : (limit <= B)%Z).
Local Open Scope Z_scope.

Definition weight (t : task) : Z := if counted t && cond (t_engine t) then 1 else 0.
Definition load w : Z := map_sum weight (d_tasks (w_db w)).

(** The snapshot still describes the row. *)
Definition fresh w (cand : Candidate) : Prop :=
  exists t, d_tasks (w_db w) !! c_id cand = Some t /\ t_state t = c_state cand /\
    t_engine t = c_engine cand /\ t_admission_pending t = c_admission_pending cand /\
    (c_state cand = StateQueued \/ c_state cand = StatePaused).

Lemma own_rows id d d' t : own id d d' -> d_tasks d !! id = Some t ->
  exists t', d_tasks d' = <[id := t']> (d_tasks d) /\ t_engine t' = t_engine t.
Proof.
  intros [Ho Hr] Ht. rewrite Ht in Hr.
  destruct (d_tasks d' !! id) as [t'|] eqn:Ht'; [|done]. exists t'. split.
  - apply map_eq. intros j. destruct (decide (j = id)) as [->|Hj].
    + by rewrite lookup_insert_eq.
    + by rewrite lookup_insert_ne, Ho.
  - simpl in Hr. by injection Hr.
Qed.

Lemma own_load id w w' t : w_tx w = None -> d_tasks (w_db w) !! id = Some t ->
  tables (own id) w w' ->
  exists t', d_tasks (w_db w') !! id = Some t' /\ t_engine t' = t_engine t /\
    load w' = load w - weight t + weight t'.
Proof.
  intros Hw Ht Ho. apply (tables_db (own id)) in Ho; [|done].
  destruct (own_rows _ _ _ _ Ho Ht) as (t' & Hm & He). exists t'. rewrite Hm.
  split; [apply lookup_insert_eq|]. split; [done|]. unfold load. rewrite Hm.
  by apply map_sum_insert_Some.
Qed.

Lemma weight_range t : 0 <= weight t <= 1.
Proof. unfold weight. destruct (_ && _); lia. Qed.

Lemma quiet_load id w w' t : w_tx w = None -> d_tasks (w_db w) !! id = Some t ->
  tables (quiet id) w w' -> load w' <= load w.
Proof.
  intros Hw Ht Hq. destruct (own_load id w w' t Hw Ht) as (t' & Ht' & He & ->).
  { apply (tables_impl (quiet id)); [by intros ?? []|done|done]. }
  apply (tables_db (quiet id)) in Hq as [_ Hc]; [|done].
  enough (weight t' <= weight t) by lia. unfold weight. rewrite He.
  destruct (counted t') eqn:Hct; [|simpl; destruct (counted t && _); lia].
  destruct (Hc t' Ht' Hct) as (u & Hu & Hcu). simplify_eq. rewrite Hcu. lia.
Qed.

Lemma fresh_other w w' cand id : c_id cand <> id -> w_tx w = None ->
  tables (own id) w w' -> fresh w cand -> fresh w' cand.
Proof.
  intros Hne Hw Ho (t & Ht & ?). apply (tables_db (own id)) in Ho as [Ho _]; [|done].
  exists t. by rewrite Ho.
Qed.

(** The load after one candidate, against what the walk will have spent. *)
Lemma candidate_load cand counts w w' t r : w_tx w = None ->
  d_tasks (w_db w) !! c_id cand = Some t -> t_state t = c_state cand ->
  t_engine t = c_engine cand -> t_admission_pending t = c_admission_pending cand ->
  load w <= used counts -> used counts <= B ->
  candidate_cost cand p counts w r w' ->
  w_tx w' = None /\ tables (own (c_id cand)) w w' /\
  match r with
  | inr (inr (outcomeReleased | outcomeSpent), _) =>
      if bool_decide (c_state cand <> StateQueued) || (c_admission_pending cand =? 0)
      then load w' <= used (Reserve (c_engine cand) counts) <= B
      else load w' <= used counts
  | inr (inl _, _) => load w' <= used counts \/ load w' <= B /\ w_cancel w' = Some 0%nat
  | _ => load w' <= used counts
  end.
Proof.
  intros Hw Ht Hst He Hap Hl Hb Hcost.
  assert (Hq : tables (quiet (c_id cand)) w w' ->
    w_tx w' = None /\ tables (own (c_id cand)) w w' /\ load w' <= used counts).
  { intros Hq. pose proof (quiet_load _ _ _ _ Hw Ht Hq). split; [by apply (ts_none _ _ _ Hq)|].
    split; [|lia]. apply (tables_impl (quiet (c_id cand))); [by intros ?? []|done|done]. }
  assert (Hm : tables (own (c_id cand)) w w' -> passed cand p counts ->
    w_tx w' = None /\ load w' <= B /\
    if bool_decide (c_state cand <> StateQueued) || (c_admission_pending cand =? 0)
    then load w' <= used (Reserve (c_engine cand) counts) <= B
    else load w' <= used counts).
  { intros Hm Hp. destruct (own_load _ _ _ _ Hw Ht Hm) as (t' & Ht' & He' & Hl').
    pose proof (weight_range t). pose proof (weight_range t').
    split; [by apply (ts_none _ _ _ Hm)|]. rewrite Hused.
    assert (Hwt : cond (c_engine cand) = false -> weight t' = 0).
    { unfold weight. rewrite He', He. intros ->. by rewrite andb_false_r. }
    assert (Hmark : c_state cand = StateQueued -> c_admission_pending cand <> 0 ->
      cond (c_engine cand) = true -> weight t = 1).
    { intros Hqs Hz Hc. unfold weight, counted. rewrite Hst, Hqs, He, Hap, Hc. simpl.
      destruct (_ =? 0) eqn:?; [lia|]. by rewrite orb_true_r || done. }
    destruct (cond (c_engine cand)) eqn:Hc.
    - destruct Hp as [Hp|[Hp1 Hp2]].
      + specialize (Hblocked _ _ Hp Hc).
        case_bool_decide as Hs; simpl; [lia|]. destruct (_ =? 0) eqn:?; [lia|].
        assert (weight t = 1) by (apply Hmark; [|lia|done]; by destruct (c_state cand)). lia.
      + rewrite Hmark in Hl' by done. rewrite bool_decide_false by tauto. simpl.
        destruct (_ =? 0) eqn:?; lia.
    - rewrite Hwt in Hl' by done. destruct (_ || _); lia. }
  destruct r as [e|[[e|[| |]] g]]; simpl in Hcost; try (by apply Hq).
  - destruct Hcost as [Hc|(Hc & Hp & Hx)].
    + destruct (Hq Hc) as (? & ? & ?). auto.
    + destruct (Hm Hc Hp) as (? & ? & _). auto 6.
  - destruct Hcost as [Hc Hp]. destruct (Hm Hc Hp) as (? & _ & ?). auto.
  - destruct Hcost as [Hc Hp]. destruct (Hm Hc Hp) as (? & _ & ?). auto.
Qed.

(** The tables as [spend] and the lease calls leave them: untouched. *)
Lemma same_tables w w' : w_tx w = None -> tables eq w w' -> w_tx w' = None /\ w_db w' = w_db w.
Proof. intros Hw H. split; [by apply (ts_none _ _ _ H)|]. symmetry. by apply (tables_db eq). Qed.

Lemma spend_counts cand outcome st w :
  w_tx w = None ->
  let '(r, w') := spend cand outcome st o w in
  w_tx w' = None /\ w_db w' = w_db w /\
  match r with
  | inl _ => True
  | inr st' => counts st' =
      if bool_decide (outcome = outcomeHeld) then counts st
      else if bool_decide (c_state cand <> StateQueued) || (c_admission_pending cand =? 0)
      then Reserve (c_engine cand) (counts st) else counts st
  end.
Proof.
  intros Hw. unfold spend. case_bool_decide; [done|].
  destruct (_ || _).
  - rewrite !bind_run. pose proof (gate_commit_frame eq (gate st) cand o w) as Hf.
    destruct (gate_commit (gate st) cand o w) as [[e|g] w1]; simpl in Hf;
      destruct (same_tables w w1 Hw Hf); [done|]. simpl. by case_bool_decide.
  - rewrite bind_run, ret_run. simpl. by case_bool_decide.
Qed.

Lemma fresh_db w w' cand : w_db w' = w_db w -> fresh w cand -> fresh w' cand.
Proof. unfold fresh. by intros ->. Qed.

Lemma pass_loop_load cands : forall st w,
  w_tx w = None -> NoDup (c_id <$> cands) -> Forall (fresh w) cands ->
  load w <= used (counts st) <= B ->
  load (pass_loop p cands st o w).2 <= B.
Proof.
  induction cands as [|cand cands IH]; intros st w Hw Hnd Hf Hl; [simpl; lia|].
  cbn [pass_loop]. rewrite bind_run.
  apply list.NoDup_cons in Hnd as [Hni Hnd]. apply list.Forall_cons in Hf as [Hc Hf].
  destruct (ctx_done_run o w) as [[-> _]|(w1 & -> & Hd1 & Ht1)]; [simpl; lia|].
  rewrite bind_run. unfold try_lease.
  assert (Hf1 : forall w2, w_db w2 = w_db w -> Forall (fresh w2) cands).
  { intros w2 Hd2. eapply list.Forall_impl; [exact Hf|]. intros c. by apply fresh_db. }
  assert (Hskip : forall r, load (pass_loop p cands st o (set_regw r w1)).2 <= B).
  { intros r. apply IH; [simpl; congruence|done|by apply Hf1|]. unfold load in *. simpl. by rewrite Hd1. }
  destruct (Lease.AcquireTaskOp _ _ _ _) as [[c| |c] r]; [|apply Hskip..].
  rewrite bind_run. set (w2 := set_regw r w1).
  destruct Hc as (t & Ht & Hst & He & Hap & Hwait).
  assert (Hw2 : w_tx w2 = None) by (subst w2; simpl; congruence).
  assert (Ht2 : d_tasks (w_db w2) !! c_id cand = Some t) by (subst w2; simpl; by rewrite Hd1).
  assert (Hl2 : load w2 = load w) by (unfold load; subst w2; simpl; by rewrite Hd1).
  pose proof (processCandidate_spec cand p (counts st) (gate st) w2 t Hw2 Ht2 Hst Hwait) as Hp.
  destruct (processCandidate _ _ _ _ o w2) as [res w3].
  apply (candidate_load cand (counts st) w2 w3 t res) in Hp as (Hw3 & Ho & Hload); try done; try lia.
  assert (Hf3 : forall w4, w_db w4 = w_db w3 -> Forall (fresh w4) cands).
  { intros w4 Hd4. apply list.Forall_forall. intros c' Hin'. apply (fresh_db w3); [done|].
    apply (fresh_other w2 _ _ (c_id cand)); [|done|done|].
    - intros Heq. apply Hni. rewrite <- Heq. apply list_elem_of_fmap. by exists c'.
    - apply (fresh_db w); [done|]. by apply (proj1 (list.Forall_forall _ _) Hf). }
  destruct res as [e|[rc g]]; [simpl; lia|].
  rewrite bind_run. cbn [release_lease]. set (w4 := set_regw _ w3). cbn [fst snd].
  assert (Hl4 : load w4 = load w3) by done.
  destruct rc as [e|outcome].
  - rewrite bind_run. destruct (ctx_done_run o w4) as [[-> _]|(w5 & Hrun & Hd5 & Ht5)].
    { simpl. rewrite Hl4. simpl in Hload. destruct Hload as [|[? _]]; lia. }
    rewrite Hrun. destruct Hload as [Hload|[_ Hx]].
    + apply IH; [simpl; rewrite Ht5; done|done|by apply Hf3|]. simpl. unfold load in *. rewrite Hd5.
      simpl. lia.
    + exfalso. unfold ctx_done in Hrun. simpl in Hrun. by rewrite Hx in Hrun.
  - rewrite bind_run. set (st' := MkWalk _ _ _ _).
    pose proof (spend_counts cand outcome st' w4 Hw3) as Hsp.
    destruct (spend cand outcome st' o w4) as [[e|st2] w5]; destruct Hsp as (Hw5 & Hd5 & Hcnt).
    + cbn [snd]. unfold load. rewrite Hd5. change (load w3 <= B). destruct outcome; simpl in Hload;
        try lia; destruct (_ || _); lia.
    + apply IH; [done|done|by apply Hf3|]. unfold load. rewrite Hd5.
      change (load w3 <= used (counts st2) <= B). rewrite Hcnt.
      destruct outcome; simpl in Hload |- *; try lia; destruct (_ || _); lia.
Qed.
End Limit.
End Walk.

(** ** The pass *)

Section PassBound.
Context {E : Type} `{!EngineApi E} (o : oracle) (Hio : io_ok o).
Implicit Types w : world E.
Local Open Scope Z_scope.

Lemma candidates_fresh w n :
  let l := if (0 <? n)%Z then limit_rows n (querySelectQueuedCandidates (w_db w))
           else querySelectQueuedCandidates (w_db w) in
  NoDup (c_id <$> l) /\ Forall (fresh w) l.
Proof.
  intros l. assert (Hsub : l `sublist_of` querySelectQueuedCandidates (w_db w)) by apply select_sublist.
  destruct (candidates_rows (w_db w)) as (rows & Hr & _ & Hnd & Hin). rewrite Hr in Hsub. split.
  - eapply sublist_NoDup; [|apply (fmap_sublist c_id), Hsub]. rewrite <- list_fmap_compose.
    by rewrite (list_fmap_ext (c_id ∘ (fun p => candidate_of p.1 p.2)) fst rows).
  - apply list.Forall_forall. intros c Hc.
    assert (Hc' : c ∈ (fun p => candidate_of p.1 p.2) <$> rows) by (by eapply elem_of_sublist).
    apply list_elem_of_fmap in Hc' as ([id t] & -> & [Ht Hs]%Hin). exists t. simpl.
    repeat split; try done. tauto.
Qed.

(** The bound of one limit, over the counts the pass reads first. *)
Lemma Pass_load p (cond : string -> bool) (used : ActiveCounts -> Z) (limit : Z) w :
  (forall e c, used (Reserve e c) = used c + (if cond e then 1 else 0)) ->
  (forall e c, Blocked (limits p) c e = None -> cond e = true -> used c < limit) ->
  used (countRows (queryCountActive (w_db w))) = load cond w ->
  w_tx w = None ->
  load cond (Pass p o w).2 <= limit `max` load cond w.
Proof.
  intros Hused Hblocked Hcount Hw. unfold Pass, CountActive. rewrite !bind_run, query_ok by done.
  rewrite ret_run. change (current w) with (default (w_db w) (w_tx w)). rewrite Hw. simpl default.
  set (w1 := bump w). rewrite bind_run. unfold SelectQueuedCandidates. rewrite query_ok by done.
  change (current w1) with (default (w_db w) (w_tx w)). rewrite Hw. simpl default.
  set (cands := if (0 <? int64_max)%Z then _ else _). set (w2 := bump w1). rewrite bind_run.
  pose proof (newSpaceGate_frame eq p o w2) as Hg.
  destruct (newSpaceGate p o w2) as [[e|g] w3]; simpl in Hg;
    destruct (same_tables w2 w3 Hw Hg) as [Hw3 Hd3]; simpl in Hd3.
  { simpl. unfold load. rewrite Hd3. lia. }
  rewrite bind_run. set (st := MkWalk _ _ _ _).
  destruct (candidates_fresh w int64_max) as [Hnd Hf].
  pose proof (pass_loop_load o Hio p cond used limit (limit `max` load cond w) Hused Hblocked
    (Z.le_max_l _ _) cands st w3 Hw3 Hnd) as Hloop.
  assert (Hl : load cond (pass_loop p cands st o w3).2 <= limit `max` load cond w).
  { apply Hloop.
    - eapply list.Forall_impl; [exact Hf|]. intros c. by apply fresh_db.
    - simpl. rewrite Hcount. unfold load. rewrite Hd3. fold (load cond w). lia. }
  destruct (pass_loop p cands st o w3) as [[e|[st' oe]] w4]; [done|].
  destruct oe; [exact Hl|]. by destruct (Nat.ltb _ _ && _); exact Hl.
Qed.

(** C1: Over a driver that does not fail, and whatever the engines, the file
    systems and the context do, a pass never moves the number of started tasks
    (downloading, checking, extracting, moving, or queued under the pass's own
    mark) past a configured limit: not the total, and not any engine's.  A
    limit already exceeded when the pass starts (lowered meanwhile) is not
    exceeded further. *)
Theorem Pass_respects_limits p w :
  w_tx w = None ->
  let total w := Total (countRows (queryCountActive (w_db w))) in
  let active e w := by_engine (countRows (queryCountActive (w_db w))) e in
  let w' := (Pass p o w).2 in
  (0 < MaxActiveTotal (limits p) -> total w' <= MaxActiveTotal (limits p) `max` total w) /\
  (forall e, 0 < MaxActivePerEngine (limits p) ->
     active e w' <= MaxActivePerEngine (limits p) `max` active e w).
Proof.
  intros Hw total active w'. subst total active. simpl.
  assert (Ht : forall w, Total (countRows (queryCountActive (w_db w))) = load (fun _ => true) w).
  { intros v. rewrite counts_total. apply map_sum_ext. intros i t _. unfold in_total, weight, one.
    by rewrite andb_true_r. }
  assert (He : forall e w, by_engine (countRows (queryCountActive (w_db w))) e =
    load (fun n => bool_decide (n = e)) w).
  { intros e v. by rewrite counts_engine. }
  split.
  - intros Hpos. rewrite !Ht. apply (Pass_load p (fun _ => true) Total); [done| |by rewrite Ht|done].
    intros e c Hb _. unfold Blocked in Hb. destruct (_ && _) eqn:Hx; [done|]. lia.
  - intros e Hpos. rewrite !He.
    apply (Pass_load p (fun n => bool_decide (n = e)) (fun c => by_engine c e)); [| |by rewrite He|done].
    + intros n c. unfold by_engine. simpl. case_bool_decide as Hn.
      * subst n. by rewrite lookup_insert_eq.
      * rewrite lookup_insert_ne by done. lia.
    + intros n c Hb Hn%bool_decide_eq_true. subst n. unfold Blocked in Hb.
      destruct (_ && _); [done|]. destruct (_ && _) eqn:Hx; [done|]. lia.
Qed.
End PassBound.

(** Two candidates, one slot. *)
Definition one_slot : Policy := MkPolicy (MkLimits 1 0) ∅ ["/data"%string].

Definition active_total (w : world (list string)) : Z :=
  Total (countRows (queryCountActive (w_db w))).

(** One of the two is admitted. *)
Lemma Pass_respects_limits_witness :
  (active_total (Pass one_slot healthy (start two_queued)).2 <=
     MaxActiveTotal (limits one_slot) `max` active_total (start two_queued))%Z /\
  active_total (start two_queued) = 0%Z /\
  active_total (Pass one_slot healthy (start two_queued)).2 = 1%Z.
Proof.
  split; [|split; by vm_compute].
  exact (proj1 (Pass_respects_limits healthy healthy_io one_slot (start two_queued) eq_refl) eq_refl).
Defined.

(** The bound needs the faultless driver: the write that confirms the first
    admission fails after the engine took the transfer and the handle was
    stored, the candidate is held on the handle it had when the pass started
    (none), the slot is not spent, and the second candidate starts as well. *)
Theorem Pass_over_admits_after_write_failure :
  MaxActiveTotal (limits one_slot) = 1%Z /\
  active_total (start two_queued) = 0%Z /\
  active_total (Pass one_slot (failing 15 IoFail) (start two_queued)).2 = 2%Z.
Proof. by vm_compute. Qed.
