(* ===== verification/AdmissionSafety.v ===== *)
(** * Safety of the admission pass under failing drivers

    [StoreFrame R] is what the control loops need of the store and of the
    engine interface to stay inside a relation [R] on worlds.  Whatever
    relation satisfies it is kept by every candidate; instantiated with
    [tables db_step] (the tables stay well-formed) and with "the lease table is
    untouched" it gives the pass's safety and the lease balance. *)

From S2P Require Import Prelude TaskState Schema Lease World Frame Fsx Store StoreProps.
From S2P Require Import Engine Admission Scenario AdmissionProps.

Class StoreFrame {E : Type} `{!EngineApi E} (R : world E -> world E -> Prop) := {
  sf_pre :: PreOrder R;
  sf_call {A} (f : E -> res A * E) : always R (call f);
  sf_ctx : always R ctx_done;
  sf_text e : always R (err_text e);
  sf_stat p : always R (os_stat p);
  sf_statfs p : always R (statfs p);
  sf_query {A} (q : db -> A) : always R (query q);
  sf_query_checked {A} (q : db -> option A) : always R (query_checked q);
  sf_transition id next code msg : always R (Transition id next code msg);
  sf_stamp id st code msg : always R (SetErrorCodeIfState id st code msg);
  sf_clear id : always R (ClearHoldCode id);
  sf_claim id : always R (ClaimParkedDiskFull id);
  sf_mark id : always R (MarkAdmissionPending id);
  sf_ref id ref : always R (SetEngineRef id ref);
  sf_pause id p : always R (PauseWithCode id p);
  sf_progress id p : always R (UpdateProgress id p);
  sf_event id lv code msg dt : always R (AppendEvent id lv code msg dt) }.

#[export] Hint Resolve sf_call sf_ctx sf_text sf_stat sf_statfs sf_query sf_query_checked
  sf_transition sf_stamp sf_clear sf_claim sf_mark sf_ref sf_pause sf_progress
  sf_event : dltool.

Section Kept.
Context {E : Type} `{!EngineApi E} (R : world E -> world E -> Prop) `{!StoreFrame R}.
Abbreviation kept m := (always R m).

Lemma Get_kept id : kept (Get id).
Proof. unfold Get. walk. Qed.

Lemma ancestor_kept path : kept (existingAncestor path).
Proof.
  assert (H : forall fuel cur, kept (climb fuel cur)).
  { induction fuel as [|fuel IH]; intros cur; simpl; walk; auto with dltool. }
  unfold existingAncestor. walk; auto with dltool.
Qed.

Lemma filesystemOf_kept g d : kept (filesystemOf g d).
Proof. unfold filesystemOf, FilesystemID. walk; auto using ancestor_kept with dltool. Qed.

Lemma reservation_kept g d : kept (reservation g d).
Proof.
  unfold reservation, FreeSpace. walk; auto using filesystemOf_kept, ancestor_kept with dltool.
Qed.

Lemma gate_commit_kept g c : kept (gate_commit g c).
Proof. unfold gate_commit. walk; auto using filesystemOf_kept with dltool. Qed.

Lemma newSpaceGate_kept p : kept (newSpaceGate p).
Proof.
  assert (H : forall l g, kept (pool_commits l g)).
  { induction l as [|[d r] l IH]; intros g; simpl; walk; auto using filesystemOf_kept with dltool. }
  unfold newSpaceGate, SumRemainingByDestination. walk; auto with dltool.
Qed.

Lemma intent_kept n h dl ul sel : kept (applyPersistedIntent n h dl ul sel).
Proof. unfold applyPersistedIntent, applyPersistedRateLimits, applyPersistedSelection. walk. Qed.

Lemma finish_kept c h : kept (finishRelease c h).
Proof.
  unfold finishRelease, markReleased, clearHoldCode, markAdmissionPending, stopUnownedTransfer. walk.
Qed.

Lemma requeue_kept c : kept (requeuePendingSelection c).
Proof. unfold requeuePendingSelection. walk. Qed.

Lemma release_add_kept c sel : kept (release_add c sel).
Proof.
  unfold release_add, removeStrandedTransfer, resumeForMetadata.
  walk; auto using intent_kept, requeue_kept, finish_kept with dltool.
Qed.

Lemma release_handle_kept c h sel : kept (release_handle c h sel).
Proof.
  unfold release_handle, release_live, resumeForMetadata.
  walk; auto using intent_kept, requeue_kept, finish_kept with dltool.
Qed.

Lemma release_kept c : kept (release c).
Proof. unfold release. walk; auto using release_add_kept, release_handle_kept with dltool. Qed.

Lemma claim_and_release_kept c : kept (claim_and_release c).
Proof.
  unfold claim_and_release, settle_failure, releaseFailed, clearHoldCode.
  walk; auto using release_kept with dltool.
Qed.

Lemma hold_gates_kept c p k g : kept (hold_gates c p k g).
Proof.
  unfold hold_gates, holds, holdsParked, stampHeld.
  walk; auto using reservation_kept with dltool.
Qed.

Lemma processCandidate_kept c p k g : kept (processCandidate c p k g).
Proof.
  unfold processCandidate. walk; auto using Get_kept, hold_gates_kept, claim_and_release_kept with dltool.
Qed.

(** [processCandidate] hands its error over as a value. *)
Lemma filesystemOf_total g d o w : exists r w', filesystemOf (E := E) g d o w = (inr r, w').
Proof.
  unfold filesystemOf. destruct (ids g !! d); [by do 2 eexists|]. rewrite bind_run. unfold attempt.
  destruct (FilesystemID d o w) as [[e|i] w1]; by do 2 eexists.
Qed.

Lemma reservation_total g d o w : exists r w', reservation (E := E) g d o w = (inr r, w').
Proof.
  unfold reservation. rewrite bind_run. destruct (filesystemOf_total g d o w) as ([[i|] g'] & w' & ->);
    [|by do 2 eexists].
  destruct (bool_decide (i ∈ unreadable g')); [by do 2 eexists|].
  destruct (spaces g' !! i); [by do 2 eexists|]. rewrite bind_run. unfold attempt.
  destruct (FreeSpace d o w') as [[e|s] w2]; by do 2 eexists.
Qed.

Lemma stamp_total c code msg o w : exists w', stampHeld (E := E) c code msg o w = (inr tt, w').
Proof.
  unfold stampHeld, ignore. rewrite bind_run. unfold attempt.
  destruct (SetErrorCodeIfState _ _ _ _ o w). by eexists.
Qed.

Lemma hold_gates_total c p k g o w : exists r w', hold_gates (E := E) c p k g o w = (inr r, w').
Proof.
  assert (Hst : forall code msg (g' : spaceGate) w1, exists r w',
    (stampHeld (E := E) c code msg ;; mret (true, g')) o w1 = (inr r, w')).
  { intros code msg g' w1. rewrite bind_run. destruct (stamp_total c code msg o w1) as [w' ->].
    by do 2 eexists. }
  unfold hold_gates. case_bool_decide.
  - unfold holdsParked. rewrite !bind_run.
    destruct (reservation_total g (c_destination c) o w) as ([[res|] g'] & w' & ->); simpl.
    + destruct (Admits _ _); [by do 2 eexists|apply Hst].
    + apply Hst.
  - destruct (_ =? 0)%Z; [|by do 2 eexists]. destruct (Blocked _ _ _); [apply Hst|].
    unfold holds. rewrite !bind_run.
    destruct (reservation_total g (c_destination c) o w) as ([[res|] g'] & w' & ->); simpl.
    + destruct (Admits _ _); [by do 2 eexists|apply Hst].
    + by do 2 eexists.
Qed.

Lemma processCandidate_total c p k g o (w : world E) e :
  (processCandidate c p k g o w).1 <> inl e.
Proof.
  unfold processCandidate. rewrite bind_run. unfold attempt at 1.
  destruct (Get (c_id c) o w) as [[e'|cur] w1]; [done|]. destruct (negb _); [done|].
  rewrite bind_run. destruct (hold_gates_total (refresh c cur) p k g o w1) as ([held g'] & w2 & ->).
  simpl. destruct held; [done|]. rewrite bind_run. unfold attempt.
  by destruct (claim_and_release _ o w2).
Qed.

Lemma spend_kept c outcome st : kept (spend c outcome st).
Proof. unfold spend. walk; auto using gate_commit_kept with dltool. Qed.

Lemma PauseDiskFull_kept id : kept (PauseDiskFull id).
Proof. unfold PauseDiskFull, pauseEngineSide. walk; auto using Get_kept with dltool. Qed.
End Kept.

(** ** The tables *)

#[export] Instance tables_frame {E} `{!EngineApi E} : StoreFrame (tables db_step (E := E)).
Proof.
  split; intros; try apply _; try (apply tables_keeps; eauto with dltool typeclass_instances; fail).
  - intros o w. unfold call. destruct (f (w_eng w)). by apply tables_same; [apply _| |].
  - apply tables_ctx_done; apply _.
  - apply tables_keeps, Transition_keeps.
  - apply tables_keeps, SetErrorCodeIfState_keeps.
  - apply tables_keeps, ClearHoldCode_keeps.
  - apply tables_keeps, ClaimParkedDiskFull_keeps.
  - apply tables_keeps, MarkAdmissionPending_keeps.
  - apply tables_keeps, SetEngineRef_keeps.
  - apply tables_keeps, PauseWithCode_keeps.
  - apply tables_keeps, UpdateProgress_keeps.
  - apply tables_keeps, AppendEvent_keeps.
Qed.

Section PassSafety.
Context {E : Type} `{!EngineApi E}.
Abbreviation safe m := (always (tables db_step (E := E)) m).

Lemma try_lease_safe id : safe (try_lease id).
Proof.
  intros o w. unfold try_lease.
  destruct (Lease.AcquireTaskOp _ _ _ _) as [[]]; by apply tables_same; [apply _| |].
Qed.

Lemma release_lease_safe c : safe (release_lease c).
Proof. intros o w. by apply tables_same; [apply _| |]. Qed.

Lemma process_safe c p k g : safe (processCandidate c p k g).
Proof. by apply processCandidate_kept; apply _. Qed.

Lemma spend_safe c outcome st : safe (spend c outcome st).
Proof. by apply spend_kept; apply _. Qed.

Lemma gate_safe p : safe (newSpaceGate p).
Proof. by apply newSpaceGate_kept; apply _. Qed.

Lemma pass_loop_safe p cands st : safe (pass_loop p cands st).
Proof.
  revert st. induction cands as [|c cands IH]; intros st; simpl; walk;
    auto using try_lease_safe, release_lease_safe, process_safe, spend_safe with dltool.
Qed.

(** A pass, and a disk-full pause, is safe under every behaviour of the
    driver, the engines, the file systems and the context: rows move only
    along the transition table, identities never change, the log only grows
    and the tables stay well-formed. *)
Theorem Pass_safe p o (w : world E) :
  w_tx w = None ->
  db_step (w_db w) (w_db (Pass p o w).2) /\
  forall id, db_step (w_db w) (w_db (PauseDiskFull id o w).2).
Proof.
  intros Hw. split.
  - apply (tables_db db_step); [|done].
    assert (H : safe (Pass p)); [|apply H].
    unfold Pass, CountActive, SelectQueuedCandidates.
    walk; auto using gate_safe, pass_loop_safe with dltool.
  - intros id. apply (tables_db db_step); [|done]. apply PauseDiskFull_kept; apply _.
Qed.
End PassSafety.

(** ** The leases *)

Definition same_leases {E} (w w' : world E) : Prop := w_leases w' = w_leases w.

#[export] Instance same_leases_pre E : PreOrder (same_leases (E := E)).
Proof. unfold same_leases. split; [by intros w|intros ? ? ?; congruence]. Qed.

Lemma keeps_leases (S : db -> db -> Prop) {E A} (m : M E A) :
  always (keeps S) m -> always same_leases m.
Proof. apply always_impl. by intros w w' []. Qed.

#[export] Instance leases_frame {E} `{!EngineApi E} : StoreFrame (same_leases (E := E)).
Proof.
  split; intros; try apply _;
    try (apply (keeps_leases db_step); eauto with dltool typeclass_instances; fail).
  - intros o w. unfold call. by destruct (f (w_eng w)).
  - intros o w. unfold ctx_done. by destruct (w_cancel w) as [[]|].
  - apply (keeps_leases db_step), Transition_keeps.
  - apply (keeps_leases db_step), SetErrorCodeIfState_keeps.
  - apply (keeps_leases db_step), ClearHoldCode_keeps.
  - apply (keeps_leases db_step), ClaimParkedDiskFull_keeps.
  - apply (keeps_leases db_step), MarkAdmissionPending_keeps.
  - apply (keeps_leases db_step), SetEngineRef_keeps.
  - apply (keeps_leases db_step), PauseWithCode_keeps.
  - apply (keeps_leases db_step), UpdateProgress_keeps.
  - apply (keeps_leases db_step), AppendEvent_keeps.
Qed.

Section LeaseBalance.
Context {E : Type} `{!EngineApi E}.
Implicit Types (r : Lease.registry) (w : world E).

(** Every entry of the table is allocated and held ([Lease.reachable_inv]
    gives this for every reachable registry). *)
Definition leases_held r : Prop := forall id p, Lease.leases r !! id = Some p ->
  p < Lease.nextEntry r /\ Lease.holder (Lease.heap r !!! p) <> None.

(** The table and the objects it names are as before. *)
Definition balanced r r' : Prop :=
  Lease.leases r' = Lease.leases r /\
  (forall id p, Lease.leases r !! id = Some p -> Lease.heap r' !!! p = Lease.heap r !!! p) /\
  leases_held r'.

Lemma balanced_refl r : leases_held r -> balanced r r.
Proof. by repeat split; destruct (H _ _ H0). Qed.

Lemma balanced_trans r s t : balanced r s -> balanced s t -> balanced r t.
Proof.
  intros (L1 & H1 & _) (L2 & H2 & Hh). split; [congruence|]. split; [|done].
  intros id p Hp. rewrite (H2 id), (H1 id); [done|done|by rewrite L1].
Qed.

(** A non-waiting acquire changes nothing when the lease is busy, and is
    undone by its own release otherwise. *)
Lemma try_release_balanced id r ended : leases_held r ->
  match Lease.AcquireTaskOp 0 id Lease.TaskOpTry r with
  | (Lease.Granted c, r') => balanced r (Lease.releaseTaskOp ended c r')
  | (Lease.Busy, r') => r' = r
  | (Lease.Parked _, _) => False
  end.
Proof.
  intros Hr. unfold Lease.AcquireTaskOp, Lease.entryOf.
  destruct (Lease.leases r !! id) as [p|] eqn:Hid.
  { destruct (Hr id p Hid) as [_ Hh]. by destruct (Lease.holder (Lease.heap r !!! p)). }
  set (p := Lease.nextEntry r). simpl. rewrite lookup_total_insert_eq. simpl.
  unfold Lease.releaseTaskOp, Lease.set_entry. simpl. rewrite lookup_total_insert_eq. simpl.
  rewrite bool_decide_true by done. rewrite lookup_insert_eq, bool_decide_true by done.
  unfold balanced, leases_held, Lease.set_leases. simpl. rewrite delete_insert_id by done.
  split; [done|]. split.
  - intros j q Hq. destruct (Hr j q Hq) as [Hlt _]. rewrite !lookup_total_insert_ne; [done|subst p; lia..].
  - intros j q Hq. destruct (Hr j q Hq) as [Hlt Hh]. split; [lia|].
    rewrite !lookup_total_insert_ne; [done|subst p; lia..].
Qed.

Lemma balanced_same w w' r : same_leases w w' -> balanced r (w_leases w) -> balanced r (w_leases w').
Proof. by intros ->. Qed.

Lemma loop_balanced p cands : forall st o w r,
  balanced r (w_leases w) -> balanced r (w_leases (pass_loop p cands st o w).2).
Proof.
  induction cands as [|c cands IH]; intros st o w r Hb; [done|].
  cbn [pass_loop]. rewrite bind_run.
  pose proof (sf_ctx (R := same_leases) o w) as Hc.
  destruct (ctx_done o w) as [[e|over] w1]; simpl in Hc;
    apply (balanced_same _ _ _ Hc) in Hb; [done|].
  destruct over; [done|]. rewrite bind_run. unfold try_lease.
  pose proof (try_release_balanced (c_id c) (w_leases w1)) as Hl.
  destruct (Lease.AcquireTaskOp _ _ _ (w_leases w1)) as [[cl| |cl] r'].
  - rewrite bind_run.
    pose proof (processCandidate_kept same_leases c p (counts st) (gate st) o (set_regw r' w1)) as Hp.
    destruct (processCandidate _ _ _ _ o _) as [[e|[rc g']] w2] eqn:Hrun; unfold same_leases in Hp; simpl in Hp.
    + exfalso. by apply (processCandidate_total c p (counts st) (gate st) o (set_regw r' w1) e); rewrite Hrun.
    + rewrite bind_run. cbn [release_lease].
      set (w3 := set_regw _ w2).
      assert (Hb3 : balanced r (w_leases w3)).
      { eapply balanced_trans; [exact Hb|]. subst w3. simpl. rewrite Hp. apply Hl. apply Hb. }
      cbn [fst snd]. destruct rc as [e|outcome].
      * rewrite bind_run. pose proof (sf_ctx (R := same_leases) o w3) as Hc4.
        destruct (ctx_done o w3) as [[e'|over] w4]; simpl in Hc4;
          apply (balanced_same _ _ _ Hc4) in Hb3; [done|]. destruct over; [done|]. by apply IH.
      * rewrite bind_run. set (st' := MkWalk _ _ _ _).
        pose proof (spend_kept same_leases c outcome st' o w3) as Hs.
        destruct (spend c outcome st' o w3) as [[e|st2] w4]; simpl in Hs;
          apply (balanced_same _ _ _ Hs) in Hb3; [done|]. by apply IH.
  - apply IH. simpl. by rewrite (Hl ∅ (proj2 (proj2 Hb))).
  - by destruct (Hl ∅ (proj2 (proj2 Hb))).
Qed.

(** C2: A pass gives back every lease it takes, whatever fails on the way: the
    table, and every entry another operation holds or waits on, are exactly
    as before, so the pass can neither leak a lease nor release another's. *)
Theorem Pass_returns_leases p o w :
  leases_held (w_leases w) -> balanced (w_leases w) (w_leases (Pass p o w).2).
Proof.
  intros Hh. unfold Pass.
  assert (Hq : forall A (m : M E A) k, always same_leases m ->
    (forall x w1, balanced (w_leases w) (w_leases w1) ->
      balanced (w_leases w) (w_leases (k x o w1 : res (list string * option err) * world E).2)) ->
    forall w1, balanced (w_leases w) (w_leases w1) ->
    balanced (w_leases w) (w_leases ((m ≫= k) o w1).2)).
  { intros A m k Hm Hk w1 Hb. rewrite bind_run. specialize (Hm o w1).
    destruct (m o w1) as [[e|x] w2]; simpl in Hm; [|apply Hk];
      by apply (balanced_same w1). }
  apply Hq; [unfold CountActive; walk| |by apply balanced_refl]. intros n w1 Hb1.
  apply Hq; [unfold SelectQueuedCandidates; walk| |done]. intros cands w2 Hb2.
  apply Hq; [by apply newSpaceGate_kept; apply _| |done]. intros g w3 Hb3.
  rewrite bind_run. apply (loop_balanced p cands (MkWalk n g [] 0) o) in Hb3.
  destruct (pass_loop _ _ _ o w3) as [[e|[st [e|]]] w4]; [done|done|].
  by destruct (Nat.ltb _ _ && _).
Qed.
End LeaseBalance.

Lemma Pass_safe_witness :
  let d := w_db (Pass one_slot (failing 15 IoFail) (start two_queued)).2 in
  db_step two_queued d /\ t_state <$> d_tasks d !! "a"%string = Some StateQueued.
Proof.
  intros d. split; [|by vm_compute].
  exact (proj1 (Pass_safe one_slot (failing 15 IoFail) (start two_queued) eq_refl)).
Defined.

(** A lease held elsewhere survives the pass, which admits the other task. *)
Lemma Pass_returns_leases_witness :
  let w := set_regw (Lease.AcquireTaskOp 0 "a" Lease.TaskOpTry Lease.NewRegistry).2 (start two_queued) in
  let w' := (Pass one_slot healthy w).2 in
  balanced (w_leases w) (w_leases w') /\
  is_Some (Lease.leases (w_leases w') !! "a"%string) /\
  (exists g, t_engine_ref <$> d_tasks (w_db w') !! "b"%string = Some (Some g)).
Proof.
  intros w w'. split; [|split; [by eexists; vm_compute|eexists; by vm_compute]].
  apply (Pass_returns_leases one_slot healthy w).
  intros id p Hp.
  change (<["a"%string := 0]> (∅ : gmap string nat) !! id = Some p) in Hp.
  apply lookup_insert_Some in Hp as [[<- <-]|[_ Hp]]; [|done].
  split; [by apply Nat.ltb_lt|by vm_compute].
Defined.
