(* ===== verification/GateProps.v ===== *)
(** * The disk reservation gate never over-commits

    A pass asks the gate for every candidate it may release and books the bytes
    of each one that spent a slot; over a whole pass, whatever the driver, the
    engines and the file systems answer, the bytes booked on a file system stay
    inside its free bytes less the floor. *)

From S2P Require Import Prelude TaskState Schema Lease World Fsx Store Engine Admission Scenario AdmissionProps AdmissionSafety.

Open Scope Z_scope.

Definition floor_of (g : spaceGate) (c : Candidate) : Z :=
  Floor (MinFree (policy g)) (rootOf (Roots (policy g)) (c_destination c)).
Definition booked (fs : string) (g : spaceGate) : Z := default 0 (commits g !! fs).
Definition demand (l : list Candidate) : Z := fold_right (fun c n => remainingBytes c + n) 0 l.
(** The candidates of [l] whose destination the gate placed on [fs]. *)
Definition on_fs (fs : string) (g : spaceGate) (l : list Candidate) : list Candidate :=
  List.filter (fun c => bool_decide (ids g !! c_destination c = Some fs)) l.

Lemma remaining_range c : 0 <= remainingBytes c /\ in_int64 (remainingBytes c).
Proof.
  unfold remainingBytes. destruct (c_total_bytes c) as [t|]; [|by vm_compute].
  pose proof (wrap64_range (t - c_completed_bytes c)) as Hw.
  destruct (0 <? wrap64 _) eqn:?; split; try done; lia.
Qed.

Lemma demand_app l k : demand (l ++ k) = demand l + demand k.
Proof. unfold demand. induction l as [|c l IH]; simpl; lia. Qed.
Lemma demand_nonneg l : 0 <= demand l.
Proof. induction l as [|c l IH]; [done|]. destruct (remaining_range c) as [Hc _]. unfold demand in *. simpl. lia. Qed.

(** ** One look at a file system *)

(** The gate knows more file systems, and books nothing. *)
Record looked (g g' : spaceGate) : Prop := {
  lk_policy : policy g' = policy g;
  lk_commits : commits g' = commits g;
  lk_ids : ids g ⊆ ids g';
  lk_spaces : spaces g ⊆ spaces g';
  lk_unreadable : unreadable g ⊆ unreadable g';
  lk_exact : forall fs s, spaces g' !! fs = Some s -> spaces g !! fs = Some s \/ in_int64 (FreeBytes s);
  lk_split : (forall fs, fs ∈ unreadable g -> spaces g !! fs = None) -> forall fs, fs ∈ unreadable g' -> spaces g' !! fs = None }.

Lemma looked_refl g : looked g g.
Proof. split; try done. auto. Qed.
Lemma looked_trans g g1 g2 : looked g g1 -> looked g1 g2 -> looked g g2.
Proof. intros [] []. split; [congruence|congruence|by etransitivity..| |eauto].
  intros fs s Hs. match goal with H : forall fs s, spaces g2 !! fs = Some s -> _ |- _ => destruct (H fs s Hs) end; eauto.
Qed.

Section Gate.
Context {E : Type} `{!EngineApi E} (o : oracle).
Implicit Types (w : world E) (g : spaceGate).

Lemma filesystemOf_spec g d w r g' w' : filesystemOf g d o w = (inr (r, g'), w') ->
  looked g g' /\ spaces g' = spaces g /\ unreadable g' = unreadable g /\ ids g' !! d = Some (default EmptyString r).
Proof.
  unfold filesystemOf. destruct (ids g !! d) as [i|] eqn:Hi.
  { rewrite ret_run. intros [= <- <- <-]. split; [apply looked_refl|]. split_and!; [done..|]. rewrite Hi. by case_bool_decide; subst. }
  assert (Hl : forall x, looked g (set_ids (<[d := x]> (ids g)) g)).
  { intros x. split; try done; [simpl; by apply insert_subseteq|auto]. }
  rewrite bind_run. unfold attempt. destruct (FilesystemID d o w) as [[e|i] w1]; rewrite ret_run; intros [= <- <- <-];
    (split; [apply Hl|]); simpl; by rewrite lookup_insert_eq.
Qed.

Lemma FreeSpace_int64 d w s w' : FreeSpace d o w = (inr s, w') -> in_int64 (FreeBytes s).
Proof.
  unfold FreeSpace. rewrite bind_run. destruct (existingAncestor d o w) as [[e|actual] w1]; [done|].
  rewrite bind_run. destruct (statfs actual o w1) as [[e|[st|]] w2]; [done| |done].
  destruct (space_of st) as [s'|] eqn:Hs; [|done]. rewrite ret_run. intros [= <- <-]. revert Hs. unfold space_of.
  destruct (_ <? 0); [done|]. destruct (_ && _); [done|]. intros [= <-]. apply wrap64_range.
Qed.

(** What the gate answers about a destination. *)
Definition answers_for g (d : string) (res : option Reservation) : Prop :=
  match res with
  | Some r => exists space, ids g !! d = Some (FilesystemId r) /\ spaces g !! FilesystemId r = Some space /\
      r = MkReservation (FilesystemId r) (FreeBytes space) (booked (FilesystemId r) g)
            (Floor (MinFree (policy g)) (rootOf (Roots (policy g)) d))
  | None => ids g !! d = Some EmptyString \/ exists fs, ids g !! d = Some fs /\ fs ∈ unreadable g
  end.

Lemma reservation_spec g d w r g' w' : reservation g d o w = (inr (r, g'), w') -> looked g g' /\ answers_for g' d r.
Proof.
  unfold reservation. rewrite bind_run. destruct (filesystemOf g d o w) as [[e|[fs g1]] w1] eqn:Hf; [done|].
  apply filesystemOf_spec in Hf as (Hl & Hs & Hu & Hi). destruct fs as [fs|]; simpl in Hi.
  2: { rewrite ret_run. intros [= <- <- <-]. split; [done|by left]. }
  case_bool_decide as Hun; [rewrite ret_run; intros [= <- <- <-]; split; [done|right; eauto]|].
  destruct (spaces g1 !! fs) as [space|] eqn:Hsp.
  { rewrite ret_run. intros [= <- <- <-]. split; [done|]. exists space. by split_and!. }
  rewrite bind_run. unfold attempt. destruct (FreeSpace d o w1) as [[e|space] w2] eqn:Hfree; rewrite ret_run; intros [= <- <- <-].
  - split.
    + apply (looked_trans _ _ _ Hl). split; simpl; try done; [set_solver|auto|].
      intros Hsplit x [->%elem_of_singleton|Hx]%elem_of_union; [done|by apply Hsplit].
    + right. exists fs. split; [done|]. simpl. set_solver.
  - split.
    + apply (looked_trans _ _ _ Hl). split; simpl; try done; [by apply insert_subseteq| |].
      { intros x s [[<- <-]|[_ Hx]]%lookup_insert_Some; [right; by eapply FreeSpace_int64|by left]. }
      intros Hsplit x Hx. rewrite lookup_insert_ne; [by apply Hsplit|]. by intros ->.
    + exists space. simpl. by rewrite lookup_insert_eq.
Qed.

(** A candidate the hold gates let through was admitted, unless it is a queued
    one that already waits for its start. *)
Definition gated (c : Candidate) : bool := bool_decide (c_state c <> StateQueued) || (c_admission_pending c =? 0).
Definition let_through g (c : Candidate) : Prop := exists res, answers_for g (c_destination c) res /\
  match res with Some r => Admits r (remainingBytes c) = true | None => True end.

Lemma stamped_run (c : Candidate) code msg (x : bool * spaceGate) w y w' :
  (stampHeld (E := E) c code msg ;; mret x) o w = (inr y, w') -> y = x.
Proof. rewrite bind_run. destruct (stamp_total c code msg o w) as [w1 ->]. rewrite ret_run. by intros [= -> ->]. Qed.

Lemma hold_gates_looked c p k g w held g' w' : c_state c = StateQueued \/ c_state c = StatePaused ->
  hold_gates c p k g o w = (inr (held, g'), w') ->
  looked g g' /\ (held = false -> gated c = true -> let_through g' c).
Proof.
  intros Hst. unfold hold_gates, gated. case_bool_decide as Hp.
  - unfold holdsParked. rewrite !bind_run. destruct (reservation g (c_destination c) o w) as [[e|[res g1]] w1] eqn:Hr; [done|].
    apply reservation_spec in Hr as [Hl Ha]. destruct res as [res|]; simpl; [|by intros [= -> ->]%stamped_run].
    destruct (Admits res _) eqn:Had; [|by intros [= -> ->]%stamped_run].
    rewrite ret_run. intros [= <- <- <-]. split; [done|]. intros _ _. by exists (Some res).
  - destruct Hst as [Hq|Hq]; [|done]. destruct (c_admission_pending c =? 0).
    2: { rewrite ret_run. intros [= <- <- <-]. split; [apply looked_refl|]. by rewrite bool_decide_false by auto. }
    destruct (Blocked _ _ _); [intros [= -> ->]%stamped_run; split; [apply looked_refl|done]|].
    unfold holds. rewrite !bind_run. destruct (reservation g (c_destination c) o w) as [[e|[res g1]] w1] eqn:Hr; [done|].
    apply reservation_spec in Hr as [Hl Ha]. destruct res as [res|]; simpl.
    + destruct (Admits res _) eqn:Had; [|by intros [= -> ->]%stamped_run].
      rewrite ret_run. intros [= <- <- <-]. split; [done|]. intros _ _. by exists (Some res).
    + rewrite ret_run. intros [= <- <- <-]. split; [done|]. intros _ _. by exists None.
Qed.

Lemma processCandidate_looked c p k g w r g' w' : c_state c = StateQueued \/ c_state c = StatePaused ->
  processCandidate c p k g o w = (inr (r, g'), w') ->
  looked g g' /\ forall outcome, r = inr outcome -> outcome <> outcomeHeld -> gated c = true -> let_through g' c.
Proof.
  intros Hst. unfold processCandidate. rewrite bind_run. unfold attempt at 1.
  destruct (Get (c_id c) o w) as [[e|cur] w1].
  { rewrite ret_run. intros [= <- <- <-]. split; [apply looked_refl|]. intros x. case_match; by intros [= <-]. }
  destruct (negb _); [rewrite ret_run; intros [= <- <- <-]; split; [apply looked_refl|by intros x [= <-]]|].
  rewrite bind_run. destruct (hold_gates (refresh c cur) p k g o w1) as [[e|[held g1]] w2] eqn:Hh; [done|].
  apply hold_gates_looked in Hh as [Hl Ht]; [|done]. cbn [fst snd]. destruct held.
  { rewrite ret_run. intros [= <- <- <-]. split; [done|by intros x [= <-]]. }
  rewrite bind_run. unfold attempt. destruct (claim_and_release _ o w2) as [r' w3]. rewrite ret_run. intros [= <- <- <-].
  split; [done|]. intros _ _ _ Hg. by apply Ht.
Qed.

(** ** What the pass has booked *)

(** From the gate [g0] the candidates [spent] were booked, in this order. *)
Record books g0 g (spent : list Candidate) : Prop := {
  bk_policy : policy g = policy g0;
  bk_known : Forall (fun c => is_Some (ids g !! c_destination c)) spent;
  bk_split : forall fs, fs ∈ unreadable g -> spaces g !! fs = None;
  bk_exact : forall fs s, spaces g !! fs = Some s -> in_int64 (FreeBytes s);
  bk_idle : forall fs, fs <> EmptyString -> spaces g !! fs = None -> fs ∉ unreadable g ->
    booked fs g = booked fs g0 /\ on_fs fs g spent = [];
  bk_booked : forall fs space, fs <> EmptyString -> spaces g !! fs = Some space ->
    booked fs g = booked fs g0 + demand (on_fs fs g spent) /\ in_int64 (booked fs g) /\
    (on_fs fs g spent <> [] -> exists c, list.last (on_fs fs g spent) = Some c /\
      booked fs g <= FreeBytes space - floor_of g0 c) }.

Lemma on_fs_known fs g g' l : ids g ⊆ ids g' -> Forall (fun c => is_Some (ids g !! c_destination c)) l ->
  on_fs fs g' l = on_fs fs g l.
Proof.
  intros Hi. unfold on_fs. induction 1 as [|c l [x Hx] Hl IH]; [done|]. simpl.
  by rewrite IH, Hx, (lookup_weaken _ _ _ _ Hx Hi).
Qed.

Lemma books_looked g0 g g' spent : (forall fs, in_int64 (booked fs g0)) -> books g0 g spent -> looked g g' -> books g0 g' spent.
Proof.
  intros H0 [Hp Hk Hs He Hid Hb] [Lp Lc Li Ls Lu Le Lsp].
  assert (Hon : forall fs, on_fs fs g' spent = on_fs fs g spent) by (intros; by apply on_fs_known).
  assert (Hbk : forall fs, booked fs g' = booked fs g) by (intros; unfold booked; by rewrite Lc).
  split; [congruence| |by apply Lsp|intros fs s [Hx|Hx]%Le; [by eapply He|done]| |].
  - eapply list.Forall_impl; [exact Hk|]. intros c [x Hx]. exists x. by eapply lookup_weaken.
  - intros fs Hfs Hn Hu. rewrite Hon, Hbk. apply Hid; [done| |set_solver].
    destruct (spaces g !! fs) eqn:Hx; [|done]. eapply lookup_weaken in Hx; [|exact Ls]. congruence.
  - intros fs space Hfs Hx. rewrite Hon, Hbk. destruct (spaces g !! fs) as [space'|] eqn:Hg.
    + assert (spaces g' !! fs = Some space') by by eapply lookup_weaken. simplify_eq. by apply Hb.
    + destruct (Hid fs Hfs Hg) as [-> ->]; [intros Hu; apply Lu, (Lsp Hs) in Hu; congruence|].
      split; [simpl; lia|]. by split.
Qed.

(** Booking an admitted candidate. *)
Lemma commit_books g0 g c spent w g' w' : (forall fs, in_int64 (booked fs g0)) -> in_int64 (floor_of g0 c) ->
  books g0 g spent -> let_through g c -> gate_commit g c o w = (inr g', w') -> books g0 g' (spent ++ [c]).
Proof.
  intros H0 Hfl Hbk (res & Ha & Hadm). unfold gate_commit. rewrite bind_run.
  destruct (filesystemOf g (c_destination c) o w) as [[e|[r g1]] w1] eqn:Hf; [done|].
  apply filesystemOf_spec in Hf as (Hl & Hs & Hu & Hi). pose proof (books_looked g0 g g1 spent H0 Hbk Hl) as Hbk1.
  assert (Hcid : forall x, ids g !! c_destination c = Some x -> default EmptyString r = x).
  { intros x Hx. eapply lookup_weaken in Hx; [|apply (lk_ids _ _ Hl)]. congruence. }
  assert (Hon : forall g2 fs, ids g2 = ids g1 -> on_fs fs g2 (spent ++ [c]) =
    on_fs fs g1 spent ++ (if bool_decide (default EmptyString r = fs) then [c] else [])).
  { intros g2 fs Hg2. unfold on_fs. rewrite Hg2, List.filter_app. simpl. rewrite Hi.
    f_equal. case_bool_decide as He; case_bool_decide as He'; congruence. }
  destruct Hbk1 as [Hp Hk Hsp He Hid Hb].
  assert (Hknown : forall g2, ids g2 = ids g1 -> Forall (fun c => is_Some (ids g2 !! c_destination c)) (spent ++ [c])).
  { intros g2 ->. apply list.Forall_app. split; [done|]. apply list.Forall_singleton. rewrite Hi. by eexists. }
  cbn [fst snd]. destruct r as [f|]; rewrite ret_run; intros [= <- <-]; cbn [default from_option id] in *.
  2: { split; try done; [by apply Hknown| |].
    - intros fs Hfs Hn Hun. rewrite Hon, bool_decide_false, app_nil_r by done. by apply Hid.
    - intros fs space Hfs Hx. rewrite Hon, bool_decide_false, app_nil_r by done. by apply Hb. }
  assert (Hother : forall fs, f <> fs -> booked fs (set_commits (add_to f (remainingBytes c) (commits g1)) g1) = booked fs g1).
  { intros fs Hne. unfold booked, add_to. simpl. by rewrite lookup_insert_ne. }
  split; simpl; [done|by apply Hknown|done|done| |].
  - intros fs Hfs Hn Hun. destruct (decide (f = fs)) as [->|Hne].
    { exfalso. destruct res as [res|]; simpl in Ha.
      - destruct Ha as (space & Hx & Hx' & _). apply Hcid in Hx. simpl in Hx. subst fs.
        rewrite <- Hs in Hx'. simpl in Hn. congruence.
      - destruct Ha as [Hx|(x & Hx & Hx')]; apply Hcid in Hx; simpl in Hx; [done|]. subst x. apply Hun. by rewrite Hu. }
    rewrite (Hother fs Hne), Hon, bool_decide_false, app_nil_r by done. by apply Hid.
  - intros fs space Hfs Hx. destruct (decide (f = fs)) as [->|Hne].
    2: { rewrite (Hother fs Hne), Hon, bool_decide_false, app_nil_r by done. by apply Hb. }
    destruct res as [res|].
    2: { exfalso. destruct Ha as [Hx'|(x & Hx' & Hun)]; apply Hcid in Hx'; simpl in Hx'; [done|]. subst x.
         rewrite <- Hu in Hun. apply Hsp in Hun. congruence. }
    destruct Ha as (space' & Hx' & Hsp' & Hres). apply Hcid in Hx'. simpl in Hx'. rewrite <- Hx' in *.
    pose proof (He fs space Hx) as Hfree. rewrite Hs in Hx. assert (space' = space) as -> by congruence. destruct (Hb fs space Hfs ltac:(by rewrite Hs)) as (Hsum & Hin & _).
    assert (Hbg : booked fs g = booked fs g1) by (unfold booked; by rewrite (lk_commits _ _ Hl)).
    assert (Hfg : Floor (MinFree (policy g)) (rootOf (Roots (policy g)) (c_destination c)) = floor_of g0 c)
      by (unfold floor_of; by rewrite (bk_policy _ _ _ Hbk)).
    rewrite Hres in Hadm. apply Admits_iff in Hadm as (H1 & H2 & H3 & H4 & H5); [|simpl; rewrite ?Hfg, ?Hbg; done..].
    simpl in H1, H2, H3, H5. rewrite Hfg, Hbg in *.
    assert (Hnew : booked fs (set_commits (add_to fs (remainingBytes c) (commits g1)) g1) = booked fs g1 + remainingBytes c).
    { unfold booked, add_to. simpl. rewrite lookup_insert_eq. simpl. apply wrap64_id.
      fold (booked fs g1). unfold in_int64, int64_min, int64_max in *. lia. }
    rewrite Hnew, Hon, bool_decide_true by done. rewrite demand_app. split; [simpl; lia|].
    split; [unfold in_int64, int64_min, int64_max in *; lia|]. intros _. exists c. rewrite last_snoc. split; [done|]. lia.
Qed.

(** The candidates a pass over queued and parked rows may see. *)
Definition candidate_ok g0 (c : Candidate) : Prop :=
  (c_state c = StateQueued \/ c_state c = StatePaused) /\ in_int64 (floor_of g0 c).

Lemma spend_books g0 c outcome st w st' w' spent : (forall fs, in_int64 (booked fs g0)) -> candidate_ok g0 c ->
  books g0 (gate st) spent -> (outcome <> outcomeHeld -> gated c = true -> let_through (gate st) c) ->
  spend c outcome st o w = (inr st', w') ->
  exists more, more `sublist_of` [c] /\ books g0 (gate st') (spent ++ more) /\
    forall id, id ∈ released st' -> id ∈ released st \/ id = c_id c /\ (more = [c] \/ gated c = false).
Proof.
  intros H0 [_ Hfl] Hb Ht. unfold spend. case_bool_decide as Hheld.
  { rewrite ret_run. intros [= <- <-]. exists []. rewrite app_nil_r. split_and!; [by constructor|done|auto]. }
  rewrite bind_run. fold (gated c). destruct (gated c) eqn:Hg.
  - rewrite bind_run. destruct (gate_commit (gate st) c o w) as [[e|g] w1] eqn:Hc; [done|].
    eapply commit_books in Hc; [|done|exact Hfl|exact Hb|by apply Ht]. rewrite !ret_run. intros [= <- <-].
    exists [c]. split; [done|]. case_bool_decide; cbn [gate released]; (split; [done|]); [|auto].
    intros id [Hin| ->%list_elem_of_singleton]%elem_of_app; auto.
  - rewrite !ret_run. intros [= <- <-]. exists []. rewrite app_nil_r. split; [by constructor|].
    case_bool_decide; cbn [gate released]; (split; [done|]); [|auto].
    intros id [Hin| ->%list_elem_of_singleton]%elem_of_app; auto.
Qed.

Lemma loop_books g0 p cands st w st' e w' spent : (forall fs, in_int64 (booked fs g0)) -> Forall (candidate_ok g0) cands ->
  books g0 (gate st) spent -> pass_loop p cands st o w = (inr (st', e), w') ->
  exists more, more `sublist_of` cands /\ books g0 (gate st') (spent ++ more) /\
    forall id, id ∈ released st' -> id ∈ released st \/ exists c, c ∈ cands /\ c_id c = id /\ (c ∈ more \/ gated c = false).
Proof.
  intros H0 Hc. revert st w spent. induction Hc as [|c cands Hok Hc IH]; intros st w spent Hb; cbn [pass_loop].
  { rewrite ret_run. intros [= <- <- <-]. exists []. rewrite app_nil_r. auto. }
  assert (Hstop : forall (st1 : walk) x w1 w2, released st1 = released st -> books g0 (gate st1) spent ->
    (mret (st1, x) : M E _) o w1 = (inr (st', e), w2) -> exists more, more `sublist_of` c :: cands /\ books g0 (gate st') (spent ++ more) /\
    forall id, id ∈ released st' -> id ∈ released st \/ exists c', c' ∈ c :: cands /\ c_id c' = id /\ (c' ∈ more \/ gated c' = false)).
  { intros st1 x w1 w2 Hr Hg. rewrite ret_run. intros [= <- <- <-]. exists []. rewrite app_nil_r, Hr. split_and!; [apply sublist_nil_l|done|auto]. }
  assert (Hmore : forall st1 w1 spent1 more1, books g0 (gate st1) (spent1 ++ more1) -> spent1 = spent -> more1 `sublist_of` [c] ->
    (forall id, id ∈ released st1 -> id ∈ released st \/ id = c_id c /\ (more1 = [c] \/ gated c = false)) ->
    pass_loop p cands st1 o w1 = (inr (st', e), w') -> exists more, more `sublist_of` c :: cands /\ books g0 (gate st') (spent ++ more) /\
    forall id, id ∈ released st' -> id ∈ released st \/ exists c', c' ∈ c :: cands /\ c_id c' = id /\ (c' ∈ more \/ gated c' = false)).
  { intros st1 w1 spent1 more1 Hb1 -> Hsub Hrel Hrun. destruct (IH _ _ _ Hb1 Hrun) as (more & Hm & Hb' & Hr').
    exists (more1 ++ more). rewrite (assoc_L (++)). split; [by apply (sublist_app _ [c] _ cands)|]. split; [done|].
    intros id [Hin|(c' & Hin & He & Hor)]%Hr'.
    - destruct (Hrel id Hin) as [|[-> Hor]]; [by left|]. right. exists c. split; [by left|]. split; [done|].
      destruct Hor as [->|Hor]; [left; by left|by right].
    - right. exists c'. split; [by right|]. split; [done|]. destruct Hor as [|]; [left; apply elem_of_app; by right|by right]. }
  rewrite bind_run. destruct (ctx_done o w) as [[e1|[]] w1]; [done|by apply Hstop|].
  rewrite bind_run. destruct (try_lease (c_id c) o w1) as [[e1|[cl|]] w2]; [done| |].
  2: { apply (Hmore st _ spent []); [by rewrite app_nil_r|done|by constructor|auto]. }
  rewrite bind_run. destruct (processCandidate c p (counts st) (gate st) o w2) as [[e1|[r g]] w3] eqn:Hp; [done|].
  apply processCandidate_looked in Hp as [Hl Ht]; [|apply Hok]. pose proof (books_looked _ _ _ _ H0 Hb Hl) as Hb1.
  rewrite bind_run. cbn [release_lease fst snd]. destruct r as [e1|outcome].
  - rewrite bind_run. destruct (ctx_done o _) as [[e2|[]] w4]; [done|by apply Hstop|].
    apply (Hmore _ _ spent []); [by rewrite app_nil_r|done|by constructor|auto].
  - rewrite bind_run. destruct (spend c outcome _ o _) as [[e2|st1] w4] eqn:Hs; [done|].
    eapply spend_books in Hs as (more1 & Hsub & Hb2 & Hrel); [|done|done|exact Hb1|by apply Ht].
    by apply (Hmore st1 w4 spent more1).
Qed.

(** ** The gate of a pass *)

Lemma pool_commits_fresh l g w g' w' : (forall fs, in_int64 (booked fs g)) -> pool_commits l g o w = (inr g', w') ->
  policy g' = policy g /\ spaces g' = spaces g /\ unreadable g' = unreadable g /\ forall fs, in_int64 (booked fs g').
Proof.
  revert g w. induction l as [|[d n] l IH]; intros g w Hb; cbn [pool_commits]; [rewrite ret_run; by intros [= <- <-]|].
  rewrite bind_run. destruct (filesystemOf g d o w) as [[e|[r g1]] w1] eqn:Hf; [done|].
  apply filesystemOf_spec in Hf as (Hl & Hs & Hu & _). cbn [fst snd].
  assert (Hb1 : forall fs, in_int64 (booked fs g1)) by (intros fs; unfold booked; rewrite (lk_commits _ _ Hl); apply Hb).
  assert (Hsame : forall g2, policy g2 = policy g1 -> spaces g2 = spaces g1 -> unreadable g2 = unreadable g1 ->
    (forall fs, in_int64 (booked fs g2)) -> pool_commits l g2 o w1 = (inr g', w') -> policy g' = policy g /\ spaces g' = spaces g /\
    unreadable g' = unreadable g /\ forall fs, in_int64 (booked fs g')).
  { intros g2 E1 E2 E3 Hb2 Hrun. apply IH in Hrun as (-> & -> & -> & Hb'); [|done].
    rewrite E1, E2, E3, Hs, Hu, (lk_policy _ _ Hl). by split_and!. }
  destruct r as [f|]; [|by apply Hsame]. apply Hsame; try done.
  intros fs. unfold booked, add_to. simpl. destruct (decide (f = fs)) as [->|Hne].
  - rewrite lookup_insert_eq. apply wrap64_range.
  - rewrite lookup_insert_ne by done. apply Hb1.
Qed.

Lemma newSpaceGate_fresh p w g w' : newSpaceGate p o w = (inr g, w') ->
  policy g = p /\ spaces g = ∅ /\ unreadable g = ∅ /\ forall fs, in_int64 (booked fs g).
Proof.
  unfold newSpaceGate. rewrite bind_run. destruct (SumRemainingByDestination o w) as [[e|sums] w1]; [done|].
  apply pool_commits_fresh. intros fs. unfold booked. simpl. rewrite lookup_empty. by vm_compute.
Qed.

Lemma Floor_int64 (m : gmap string Z) root : (forall k v, m !! k = Some v -> in_int64 v) -> in_int64 (Floor m root).
Proof.
  intros Hm. unfold Floor. enough (forall v, map_fold (floor_step (Clean root)) None m = Some v -> in_int64 v) as Hv.
  { destruct (map_fold _ _ _) as [v|]; [by apply Hv|by vm_compute]. }
  apply (map_fold_weak_ind (fun r m' => m' ⊆ m -> forall v, r = Some v -> in_int64 v)); [done| |done].
  intros k x m' r Hk IH Hsub v. unfold floor_step. destruct (_ && _).
  - intros [= <-]. apply (Hm k). eapply lookup_weaken; [apply lookup_insert_eq|exact Hsub].
  - apply IH. etransitivity; [|exact Hsub]. by apply insert_subseteq.
Qed.

(** C3: A pass never over-commits.  Run the loop of [Pass] from the gate a pass
    starts with, over any candidates it may select and whatever the driver,
    the engines, the file systems and the context answer: some of the
    candidates were booked, among them every one that was released, a queued
    task already waiting for its start excepted; and on every file system whose
    space the gate has read, the booked bytes have grown by exactly their
    demand, without wrapping, and with the last of them are still inside the
    free bytes less its floor. *)
Theorem gate_never_overcommits p cands k g w w1 st e w' :
  (forall root v, MinFree p !! root = Some v -> in_int64 v) ->
  Forall (fun c => c_state c = StateQueued \/ c_state c = StatePaused) cands ->
  newSpaceGate p o w = (inr g, w1) -> pass_loop p cands (MkWalk k g [] 0) o w1 = (inr (st, e), w') ->
  exists spent, spent `sublist_of` cands /\
    (forall id, id ∈ released st -> exists c, c ∈ cands /\ c_id c = id /\
      (c ∈ spent \/ c_state c = StateQueued /\ c_admission_pending c <> 0)) /\
    forall fs space, fs <> EmptyString -> spaces (gate st) !! fs = Some space ->
      let here := on_fs fs (gate st) spent in
      booked fs (gate st) = booked fs g + demand here /\
      (here <> [] -> exists c, list.last here = Some c /\ booked fs (gate st) <= FreeBytes space - floor_of g c).
Proof.
  intros Hfloor Hst Hg Hrun. apply newSpaceGate_fresh in Hg as (Hp & Hs & Hu & H0).
  assert (Hb : books g g []).
  { split.
    - done.
    - by apply list.Forall_nil_2.
    - intros fs. rewrite Hu. by intros ?%elem_of_empty.
    - intros fs s. by rewrite Hs, lookup_empty.
    - by intros fs _ _ _.
    - intros fs s _. by rewrite Hs, lookup_empty. }
  destruct (loop_books g p cands (MkWalk k g [] 0) w1 st e w' [] H0) as (spent & Hsub & Hbk & Hrel); [|exact Hb|exact Hrun|].
  { eapply list.Forall_impl; [exact Hst|]. intros c Hc. split; [done|]. apply Floor_int64. by rewrite Hp. }
  exists spent. split; [done|]. split.
  - intros id [Hin|(c & Hc & He & Hor)]%Hrel; [by apply elem_of_nil in Hin|]. exists c. split_and!; [done..|].
    destruct Hor as [|Hg]; [by left|right]. unfold gated in Hg. apply orb_false_iff in Hg as [Hq Hn].
    apply bool_decide_eq_false in Hq. split; [destruct (decide (c_state c = StateQueued)); [done|by destruct Hq]|lia].
  - intros fs space Hfs Hx here. destruct (bk_booked _ _ _ Hbk fs space Hfs Hx) as (H1 & _ & H2). by split.
Qed.
End Gate.

(** Two downloads of 1.5 GiB on a disk with 4 GiB free and the default floor of
    2 GiB: the first is released, the second does not fit beside it. *)
Definition demand_of (id : string) (n : Z) : Candidate :=
  MkCandidate id "aria2" None (Some "http://h/f"%string) None "/data" None 0 0 0 StateQueued (Some n) 0.
Definition big_pair : list Candidate := [demand_of "a" 1610612736; demand_of "b" 1610612736].
Definition roomy : Policy := MkPolicy (MkLimits 0 0) ∅ ["/data"%string].
Definition big_gate : res spaceGate * world (list string) := newSpaceGate roomy healthy (start two_queued).
Definition big_run (g : spaceGate) : res (walk * option err) * world (list string) :=
  pass_loop roomy big_pair (MkWalk (MkCounts 0 ∅) g [] 0) healthy big_gate.2.

Lemma gate_never_overcommits_witness : exists g st,
  big_gate.1 = inr g /\ (big_run g).1 = inr (st, None) /\ released st = ["a"%string] /\
  exists spent, spent `sublist_of` big_pair /\ (exists c, c ∈ spent /\ c_id c = "a"%string) /\
    let here := on_fs "dev:1" (gate st) spent in
    booked "dev:1" (gate st) = booked "dev:1" g + demand here /\
    (here <> [] -> exists c, list.last here = Some c /\ booked "dev:1" (gate st) <= 4294967296 - floor_of g c).
Proof.
  destruct (newSpaceGate roomy healthy (start two_queued)) as [[e|g] w1] eqn:Hg; [by vm_compute in Hg|].
  assert (Hbg : big_gate = (inr g, w1)) by exact Hg.
  destruct (pass_loop roomy big_pair (MkWalk (MkCounts 0 ∅) g [] 0) healthy w1) as [[e|[st e]] w2] eqn:Hr.
  { exfalso. vm_compute in Hg. injection Hg as <- <-. by vm_compute in Hr. }
  assert (Hfacts : e = None /\ released st = ["a"%string] /\ spaces (gate st) !! "dev:1"%string = Some (MkSpace 4294967296 4294967296)).
  { clear Hbg. vm_compute in Hg. injection Hg as <- <-. vm_compute in Hr. injection Hr as <- <- _. by vm_compute. }
  destruct Hfacts as (-> & Hrel & Hsp).
  destruct (gate_never_overcommits healthy roomy big_pair (MkCounts 0 ∅) g (start two_queued) w1 st None w2) as (spent & Hsub & Hin & Hb);
    [intros root v Hx; change ((∅ : gmap string Z) !! root = Some v) in Hx; by rewrite lookup_empty in Hx|by repeat (apply list.Forall_cons_2; [by left|]); apply list.Forall_nil_2|exact Hg|exact Hr|].
  exists g, st. unfold big_run. rewrite Hbg. cbn [fst snd]. rewrite Hr. split_and!; [done..|]. exists spent. split; [done|]. split.
  - destruct (Hin "a"%string) as (c & Hc & Hid & [Hs|[_ Hp]]); [rewrite Hrel; by left|by exists c|]. exfalso. revert Hp.
    unfold big_pair in Hc. apply elem_of_cons in Hc as [->|[->|Hc]%elem_of_cons]; [done|done|by apply elem_of_nil in Hc].
  - exact (Hb "dev:1"%string _ ltac:(done) Hsp).
Defined.
