(* ===== verification/Reconcile.v ===== *)
(** * Reconciliation ([internal/engine/reconcile.go])

    One sweep over the engines: the live list joined against the rows that own
    a handle, the write-back of counters and states, the routing of disk-full
    reports into the admission controller, and the re-submission of the
    transfers an engine lost. *)

From S2P Require Import Prelude TaskState Schema Lease World Store Engine Admission.

Definition CodeTaskReconciled : string := "task.reconciled".

(** [resubmittable]. *)
Definition resubmittable (s : TaskState) : bool :=
  match s with StateDownloading | StateSeeding | StateChecking => true | _ => false end.

Definition string_le (s t : string) : Prop := String.leb s t = true.

#[global] Instance string_le_dec s t : Decision (string_le s t).
Proof. unfold string_le. apply _. Defined.

(** [resubmitRequest]. *)
Definition resubmitRequest (r : Reconcilable) (sel : option SelectionIntent) : option AddRequest :=
  submission (r_source_uri r) (r_infohash_v1 r) (r_destination r) (r_dl_limit r) (r_ul_limit r) sel.

(** [Reconcilable] with the columns re-read under the lease. *)
Definition reread (r : Reconcilable) (current : task) : Reconcilable :=
  MkReconcilable (r_id r) (default (r_engine_ref r) (t_engine_ref current)) (t_state current)
    (t_source_uri current) (t_infohash_v1 current) (t_destination current)
    (t_select_files current) (t_dl_limit current) (t_ul_limit current).

Section Reconciler.
Context {E : Type} `{!EngineApi E}.
Abbreviation M := (M E).

(** [routeDiskFull]: a refusal drops the report. *)
Definition routeDiskFull (r : Reconcilable) : M unit :=
  if bool_decide (r_state r = StatePaused) then mret tt
  else ignore (PauseDiskFull (r_id r)).

Definition progress_of (info : TaskInfo) : Progress :=
  MkProgress (ti_TotalBytes info) (ti_CompletedBytes info) (ti_UploadedBytes info)
    (ti_DownloadRate info) (ti_UploadRate info) (ti_ETASeconds info).

(** [writeBack]. *)
Definition writeBack (r : Reconcilable) (info : TaskInfo) : M unit :=
  if bool_decide (ti_ErrorCode info = disk_full) && bool_decide (r_state r = StatePaused)
  then mret tt
  else
    UpdateProgress (r_id r) (progress_of info) ;;
    if bool_decide (ti_ErrorCode info = disk_full) then routeDiskFull r
    else if bool_decide (r_state r = StateQueued) then mret tt
    else if bool_decide (r_state r = ti_State info) then mret tt
    else
      moved ← attempt (Transition (r_id r) (ti_State info) CodeTaskReconciled
                ("reconciler adopted engine state " +:+ quote (state_string (ti_State info))));
      match moved with
      | inr _ => mret tt
      | inl e => if errors_is e ErrIllegalTransition then mret tt else fail e
      end.

(** [failResubmit]. *)
Definition failResubmit (r : Reconcilable) (name : string) (cause : err) : M unit :=
  text ← err_text cause;
  Transition (r_id r) StateError CodeEngineUnavailable
    ("engine " +:+ quote name +:+ " refused the re-submission: " +:+ text).

(** What [resubmit] does with the persisted intent's answer. *)
Definition resubmit_intent (name : string) (r : Reconcilable) (newID : string)
    (startPaused : bool) (intentErr : res unit) : M unit :=
  match intentErr with
  | inl e =>
    if errors_is e ErrSelectionPending then
      moved ← attempt (Transition (r_id r) StateQueued CodeTaskReconciled
                "re-submitted; file selection waits for the engine's file listing");
      match moved with
      | inl _ => mret tt
      | inr _ =>
        marked ← attempt (MarkAdmissionPending (r_id r));
        match marked with
        | inr true => ignore (call (eng_Resume name newID))
        | _ => mret tt
        end
      end
    else mret tt
  | inr _ =>
    if startPaused then
      started ← attempt (call (eng_Resume name newID));
      match started with
      | inr _ => mret tt
      | inl _ => ignore (Transition (r_id r) StateQueued CodeTaskReconciled
                   "re-submitted; the first start failed and the admission pass retries it")
      end
    else mret tt
  end.

(** [resubmit] after the lease. *)
Definition resubmit_leased (name : string) (r : Reconcilable) : M unit :=
  got ← attempt (Get (r_id r));
  match got with
  | inl e => if errors_is e ErrNotFound then mret tt else fail e
  | inr current =>
    if negb (resubmittable (t_state current)) then mret tt
    else
      let r := reread r current in
      let sel := decodeSelectionIntent (r_select_files r) in
      match resubmitRequest r sel with
      | None => mret tt
      | Some req =>
        added ← attempt (call (eng_Add name req));
        match added with
        | inl e =>
          cancelled ← ctx_done;
          if cancelled : bool then fail ErrContext else failResubmit r name e
        | inr newID =>
          stored ← attempt (SetEngineRef (r_id r) (bareHandle name newID));
          match stored with
          | inl e => ignore (call (eng_Remove name newID)) ;; fail e
          | inr _ =>
            intentErr ← attempt (applyPersistedIntent name newID (r_dl_limit r) (r_ul_limit r) sel);
            resubmit_intent name r newID (StartPaused req) intentErr ;;
            ignore (AppendEvent (r_id r) "info" CodeTaskReconciled
              "engine lost the transfer; re-submitted with resume semantics"
              (Some (HandleDetail name (bareHandle name newID))))
          end
        end
      end
  end.

(** [resubmit]: the deferred release runs on every path. *)
Definition resubmit (name : string) (r : Reconcilable) : M unit :=
  lease ← try_lease (r_id r);
  match lease with
  | None => mret tt
  | Some c =>
    done ← attempt (resubmit_leased name r);
    release_lease c ;;
    of_res done
  end.

(** A per-task failure: only a cancelled context stops the sweep. *)
Definition tolerate (m : M unit) : M unit :=
  r ← attempt m;
  match r with
  | inr _ => mret tt
  | inl _ => cancelled ← ctx_done; if cancelled : bool then fail ErrContext else mret tt
  end.

(** Pass 1 of [sweepEngine]: the handles seen. *)
Fixpoint sweep_listed (name : string) (known : gmap string Reconcilable) (listed : list TaskInfo)
    (seen : gset string) : M (gset string) :=
  match listed with
  | [] => mret seen
  | info :: listed =>
    cancelled ← ctx_done;
    if cancelled : bool then fail ErrContext
    else
      let ref := bareHandle name (ti_ID info) in
      match known !! ref with
      | None => sweep_listed name known listed seen
      | Some r => tolerate (writeBack r info) ;; sweep_listed name known listed ({[ref]} ∪ seen)
      end
  end.

(** Pass 2: the handles the engine no longer reports, in order. *)
Fixpoint sweep_vanished (name : string) (l : list (string * Reconcilable)) : M unit :=
  match l with
  | [] => mret tt
  | (ref, r) :: l =>
    cancelled ← ctx_done;
    if cancelled : bool then fail ErrContext
    else if negb (resubmittable (r_state r)) then sweep_vanished name l
    else tolerate (resubmit name r) ;; sweep_vanished name l
  end.

Definition by_ref (p q : string * Reconcilable) : Prop := string_le p.1 q.1.

#[local] Instance by_ref_dec p q : Decision (by_ref p q).
Proof. unfold by_ref. apply _. Defined.

Definition vanished (known : gmap string Reconcilable) (seen : gset string)
  : list (string * Reconcilable) :=
  merge_sort by_ref (List.filter (fun p => negb (bool_decide (p.1 ∈ seen))) (map_to_list known)).

(** [sweepEngine]. *)
Definition sweepEngine (name : string) : M unit :=
  listed ← attempt (call (eng_List name));
  match listed with
  | inl _ => cancelled ← ctx_done; if cancelled : bool then fail ErrContext else mret tt
  | inr listed =>
    known ← ListNonTerminalByEngine name;
    seen ← sweep_listed name known listed ∅;
    sweep_vanished name (vanished known seen)
  end.

(** [Boot]: the registered engines in name order. *)
Definition Names : list string := merge_sort string_le registered.

Fixpoint boot (names : list string) : M unit :=
  match names with
  | [] => mret tt
  | name :: names => sweepEngine name ;; boot names
  end.

Definition Boot : M unit := boot Names.
End Reconciler.

(** ** Ownership ([OwnedRefs]) *)

(** The memo of one engine's ownership source. *)
Record owned_memo := MkMemo { expires : Z; lastGood : gset string }.

Section Owned.
Context {E : Type}.
Abbreviation M := (M E).

(** [ownershipListingTTL], in milliseconds. *)
Definition ownershipListingTTL : Z := 1000.

(** [ownedListing]. *)
Definition ownedListing (engineName : string) : M (option (gset string)) :=
  known ← attempt (ListNonTerminalByEngine engineName);
  mret (match known with inl _ => None | inr known => Some (dom known) end).

(** One call of the source [OwnedRefs] returns. *)
Definition owned_refs (engineName : string) (memo : owned_memo) : M (gset string * owned_memo) :=
  now ← unix_milli;
  if (now <? expires memo)%Z then mret (lastGood memo, memo)
  else
    listing ← ownedListing engineName;
    now ← unix_milli;
    let good := default (lastGood memo) listing in
    mret (good, MkMemo (now + ownershipListingTTL) good).
End Owned.
