(* ===== verification/ReconcileProps.v ===== *)
(** * What a reconciliation sweep guarantees

    Table safety under every behaviour of driver and engines, the ownership
    rule (a sweep writes only rows that own a handle of the swept engine), the
    queued-row rule and the routing of disk-full reports. *)

From S2P Require Import Prelude TaskState Schema Lease World Frame Store StoreProps Engine.
From S2P Require Import Admission AdmissionSafety Reconcile Scenario.

Section Frames.
Context {E : Type} `{!EngineApi E} (R : world E -> world E -> Prop) `{!StoreFrame R}.
Abbreviation kept m := (always R m).

Lemma writeBack_kept r info : kept (writeBack r info).
Proof. unfold writeBack, routeDiskFull. walk; by apply PauseDiskFull_kept. Qed.

Lemma resubmit_leased_kept name r : kept (resubmit_leased name r).
Proof.
  unfold resubmit_leased, resubmit_intent, failResubmit.
  walk; by first [apply Get_kept | apply intent_kept].
Qed.
End Frames.

(** ** Safety of the tables *)

Section Safety.
Context {E : Type} `{!EngineApi E}.
Abbreviation safe m := (always (tables db_step (E := E)) m).

Lemma tolerate_safe m : safe m -> safe (tolerate m).
Proof. intros Hm. unfold tolerate. walk; auto with dltool. Qed.

Lemma writeBack_safe r info : safe (writeBack r info).
Proof. apply writeBack_kept; apply _. Qed.

Lemma resubmit_safe name r : safe (resubmit name r).
Proof.
  unfold resubmit. walk; auto using try_lease_safe, release_lease_safe with dltool.
  apply resubmit_leased_kept; apply _.
Qed.

Lemma sweep_listed_safe name known l seen : safe (sweep_listed name known l seen).
Proof.
  revert seen. induction l as [|i l IH]; intros seen; simpl;
    walk; auto using tolerate_safe, writeBack_safe with dltool.
Qed.

Lemma sweep_vanished_safe name l : safe (sweep_vanished name l).
Proof.
  induction l as [|[k r] l IH]; simpl; walk; auto using tolerate_safe, resubmit_safe with dltool.
Qed.

Lemma sweepEngine_safe name : safe (sweepEngine name).
Proof.
  unfold sweepEngine, ListNonTerminalByEngine.
  walk; auto using sweep_listed_safe, sweep_vanished_safe with dltool.
Qed.

(** A sweep over all engines keeps the store's guarantees whatever the
    engines report and whatever fails: states move along the transition table
    only, identities never change, the log only grows. *)
Theorem Boot_safe o (w : world E) :
  w_tx w = None -> db_step (w_db w) (w_db (Boot o w).2).
Proof.
  intros Hw. apply (tables_db db_step); [|done]. unfold Boot.
  assert (H : forall l, safe (boot l)); [|apply H].
  induction l as [|n l IH]; simpl; walk; auto using sweepEngine_safe with dltool.
Qed.
End Safety.

(** ** Ownership *)

(** Only row [id] is written, and it stays. *)
Record touch (id : string) (d d' : db) : Prop := {
  to_others : forall j, j <> id -> d_tasks d' !! j = d_tasks d !! j;
  to_row : is_Some (d_tasks d' !! id) <-> is_Some (d_tasks d !! id) }.

(** A queued row keeps its state and its mark. *)
Definition stays_queued (id : string) (d d' : db) : Prop := forall t,
  d_tasks d !! id = Some t -> t_state t = StateQueued ->
  exists t', d_tasks d' !! id = Some t' /\ t_state t' = StateQueued /\
    t_admission_pending t' = t_admission_pending t.

(** Both at once. *)
Definition spares (id : string) (d d' : db) : Prop := touch id d d' /\ stays_queued id d d'.

#[global] Instance touch_pre id : PreOrder (touch id).
Proof.
  split; [by split|]. intros a b c [H1 H2] [H3 H4]. split; [|by rewrite H4].
  intros j Hj. rewrite H3, H1; done.
Qed.

#[global] Instance spares_pre id : PreOrder (spares id).
Proof.
  split; [intros d; split; [reflexivity|intros t ??; eauto]|].
  intros a b c [H1 H2] [H3 H4]. split; [by etransitivity|].
  intros t Ht Hq. destruct (H2 t Ht Hq) as (t' & Ht' & Hq' & Hp').
  destruct (H4 t' Ht' Hq') as (t'' & ? & ? & ?). exists t''. repeat split; congruence.
Qed.

Lemma update_touch id guard f ok : stmt_keeps (touch id) (update_where id guard f ok).
Proof.
  intros d d' k [(-> & _)|(t & Ht & _ & _ & _ & ->)]%update_where_inv; [reflexivity|].
  split; simpl; [intros j Hj; by rewrite lookup_insert_ne|].
  rewrite lookup_insert_eq, Ht. split; eauto.
Qed.

Lemma update_spares id guard f ok :
  (forall t, guard t = true -> t_state t = StateQueued ->
     t_state (f t) = StateQueued /\ t_admission_pending (f t) = t_admission_pending t) ->
  stmt_keeps (spares id) (update_where id guard f ok).
Proof.
  intros Hf d d' k Hq. split; [by eapply update_touch|].
  apply update_where_inv in Hq as [(-> & _)|(t & Ht & Hg & _ & _ & ->)]; [intros u; eauto|].
  intros u Hu Hs. simplify_eq. simpl. rewrite lookup_insert_eq. destruct (Hf _ Hg Hs). eauto.
Qed.

Lemma event_spares id e : stmt_keeps (spares id) (queryInsertTaskEvent e).
Proof.
  intros d d' k. unfold queryInsertTaskEvent. intros Hq. break_all Hq.
  split; [by split|intros u ??; eauto].
Qed.

Lemma event_touch id e : stmt_keeps (touch id) (queryInsertTaskEvent e).
Proof. intros d d' k Hq. eapply event_spares, Hq. Qed.

Section Owned.
Context {E : Type} `{!EngineApi E}.
Abbreviation touching id m := (always (keeps (touch id) (E := E)) m).
Abbreviation sparing id m := (always (keeps (spares id) (E := E)) m).

#[local] Hint Resolve event_spares event_touch : dltool.
#[local] Hint Extern 1 (stmt_keeps (touch _) _) => apply update_touch : dltool.
#[local] Hint Extern 1 (stmt_keeps (spares _) _) => apply update_spares; by intros : dltool.

Lemma event_touching id lv code msg dt now : touching id (insertTaskEvent id lv code msg dt now).
Proof. unfold insertTaskEvent. walk; auto with dltool. Qed.
Lemma event_sparing id lv code msg dt now : sparing id (insertTaskEvent id lv code msg dt now).
Proof. unfold insertTaskEvent. walk; auto with dltool. Qed.
#[local] Hint Resolve event_touching event_sparing : dltool.

Lemma progress_sparing id p : sparing id (UpdateProgress id p).
Proof. unfold UpdateProgress. walk; auto with dltool. Qed.

Lemma stamp_sparing id st code msg : sparing id (SetErrorCodeIfState id st code msg).
Proof. unfold SetErrorCodeIfState. walk; auto with dltool. Qed.

(** A disk-full pause cannot land on a queued row. *)
Lemma pause_sparing id p : StateQueued ∉ FromStates p -> sparing id (PauseWithCode id p).
Proof.
  intros Hp. unfold PauseWithCode. walk; auto with dltool.
  apply update_spares. intros u Hg%contains_spec Hq. congruence.
Qed.

Lemma Get_sparing id j : sparing id (Get j).
Proof. unfold Get. walk. Qed.

Abbreviation row_spared id m := (always (tables (spares id) (E := E)) m).

Lemma call_spared id {A} (f : E -> res A * E) : row_spared id (call f).
Proof. intros o w. unfold call. destruct (f (w_eng w)). by apply (tables_same (spares id)). Qed.
#[local] Hint Resolve call_spared : dltool.

Lemma PauseDiskFull_spared id : row_spared id (PauseDiskFull id).
Proof.
  unfold PauseDiskFull, pauseEngineSide.
  walk; auto with dltool; apply tables_keeps;
    auto using Get_sparing, stamp_sparing, pause_sparing.
  apply pause_sparing. simpl. set_solver.
Qed.

(** The write-back of a row the sweep read as queued. *)
Lemma writeBack_spared r info : r_state r = StateQueued -> row_spared (r_id r) (writeBack r info).
Proof.
  intros Hq. unfold writeBack, routeDiskFull. rewrite Hq. simpl.
  walk; auto using PauseDiskFull_spared with dltool.
  apply tables_keeps, progress_sparing.
Qed.

Lemma Transition_touching id next code msg : touching id (Transition id next code msg).
Proof. unfold Transition. walk; auto with dltool. Qed.

Lemma mark_touching id : touching id (MarkAdmissionPending id).
Proof. unfold MarkAdmissionPending. walk; auto with dltool. Qed.

Lemma ref_touching id ref : touching id (SetEngineRef id ref).
Proof. unfold SetEngineRef. walk; auto with dltool. Qed.

Lemma append_touching id lv code msg dt : touching id (AppendEvent id lv code msg dt).
Proof. unfold AppendEvent. walk; auto with dltool. Qed.

Lemma progress_touching id p : touching id (UpdateProgress id p).
Proof. unfold UpdateProgress. walk; auto with dltool. Qed.

Lemma stamp_touching id st code msg : touching id (SetErrorCodeIfState id st code msg).
Proof. unfold SetErrorCodeIfState. walk; auto with dltool. Qed.

Lemma pause_touching id p : touching id (PauseWithCode id p).
Proof. unfold PauseWithCode. walk; auto with dltool. Qed.

Lemma Get_touching id j : touching id (Get j).
Proof. unfold Get. walk. Qed.

Abbreviation row_touched id m := (always (tables (touch id) (E := E)) m).

Lemma call_touched id {A} (f : E -> res A * E) : row_touched id (call f).
Proof. intros o w. unfold call. destruct (f (w_eng w)). by apply (tables_same (touch id)). Qed.

Lemma text_touched id e : row_touched id (err_text e).
Proof. intros o w. by apply (tables_same (touch id)). Qed.

Lemma io_touched id {A} (m : M E A) : touching id m -> row_touched id m.
Proof. apply tables_keeps. Qed.

#[local] Hint Resolve call_touched text_touched : dltool.
#[local] Hint Resolve Transition_touching mark_touching ref_touching append_touching
  progress_touching stamp_touching pause_touching Get_touching : touched.
#[local] Hint Extern 2 (always (tables (touch _)) _) =>
  apply io_touched; solve [auto with touched] : dltool.

Lemma writeBack_touched r info : row_touched (r_id r) (writeBack r info).
Proof.
  unfold writeBack, routeDiskFull, PauseDiskFull, pauseEngineSide. walk; auto with dltool.
Qed.

Lemma intent_touched id n h dl ul sel : row_touched id (applyPersistedIntent n h dl ul sel).
Proof.
  unfold applyPersistedIntent, applyPersistedRateLimits, applyPersistedSelection.
  walk; auto with dltool.
Qed.

Lemma resubmit_touched name r : row_touched (r_id r) (resubmit_leased name r).
Proof.
  unfold resubmit_leased, resubmit_intent, failResubmit.
  walk; auto using intent_touched with dltool;
    match goal with |- always (tables (touch ?i)) _ => try change (touch i) with (touch (r_id r)) end;
    auto with dltool.
Qed.

(** *** The whole sweep *)

(** What a sweep that read [known] may do: rows no entry names are untouched,
    rows it read as queued keep their state and mark. *)
Definition swept (known : gmap string Reconcilable) (d d' : db) : Prop := forall id,
  ((forall ref r, known !! ref = Some r -> r_id r <> id) -> d_tasks d' !! id = d_tasks d !! id) /\
  ((forall ref r, known !! ref = Some r -> r_id r = id -> r_state r = StateQueued) ->
     stays_queued id d d').

#[local] Instance swept_pre known : PreOrder (swept known).
Proof.
  split.
  - intros d id. split; [done|]. intros _ t ??. eauto.
  - intros a b c H1 H2 id. destruct (H1 id) as [O1 Q1], (H2 id) as [O2 Q2]. split.
    + intros H. rewrite O2, O1; done.
    + intros H t Ht Hq. destruct (Q1 H t Ht Hq) as (u & Hu & Hqu & Hp).
      destruct (Q2 H u Hu Hqu) as (v & ? & ? & ?). exists v. repeat split; congruence.
Qed.

Lemma touch_swept known ref r d d' : known !! ref = Some r ->
  touch (r_id r) d d' -> (r_state r = StateQueued -> stays_queued (r_id r) d d') ->
  swept known d d'.
Proof.
  intros Hr [Ho _] Hq id. split.
  - intros H. apply Ho. intros ->. by eapply H.
  - intros H. destruct (decide (id = r_id r)) as [->|Hne]; [by eapply Hq, H|].
    intros t Ht Hs. exists t. by rewrite Ho.
Qed.

Abbreviation sweeps known m := (always (closed (swept known) (E := E)) m).

Lemma ctx_sweeps known : sweeps known ctx_done.
Proof. intros o w. unfold ctx_done. by destruct (w_cancel w) as [[]|]; apply (closed_same (swept known)). Qed.

Lemma tolerate_sweeps known m : sweeps known m -> sweeps known (tolerate m).
Proof. intros Hm. unfold tolerate. walk; auto using ctx_sweeps. Qed.

Lemma writeBack_sweeps known ref r info : known !! ref = Some r -> sweeps known (writeBack r info).
Proof.
  intros Hr o w Hw. pose proof (writeBack_touched r info o w) as Ht.
  split; [by apply (ts_none _ _ _ Ht)|]. eapply touch_swept; [done|by apply (tables_db (touch (r_id r)))|].
  intros Hq. apply (tables_db (spares (r_id r))); [|done]. by apply writeBack_spared.
Qed.

Lemma resubmit_sweeps known ref name r : known !! ref = Some r -> resubmittable (r_state r) = true ->
  sweeps known (resubmit name r).
Proof.
  intros Hr Hs. unfold resubmit. apply always_bind; [apply _| |intros [c|]].
  - intros o w. unfold try_lease.
    by destruct (Lease.AcquireTaskOp _ _ _ _) as [[] ?]; apply (closed_same (swept known)).
  - apply always_bind; [apply _| |intros x].
    + apply always_attempt. eapply (closed_tables (touch (r_id r))); [apply _| |apply resubmit_touched].
      intros d d' Ht. eapply touch_swept; [done..|]. intros Hq. by rewrite Hq in Hs.
    + apply always_bind; [apply _| |intros _; apply always_of_res; apply _].
      intros o w. by apply (closed_same (swept known)).
  - apply always_ret; apply _.
Qed.

Lemma listed_sweeps known name l seen : sweeps known (sweep_listed name known l seen).
Proof.
  revert seen. induction l as [|i l IH]; intros seen; simpl; [apply always_ret; apply _|].
  apply always_bind; [apply _|apply ctx_sweeps|intros []; [apply always_fail; apply _|]].
  destruct (known !! _) as [r|] eqn:Hr; [|apply IH].
  apply always_bind; [apply _| |intros _; apply IH].
  by eapply tolerate_sweeps, writeBack_sweeps.
Qed.

Lemma vanished_sweeps known name l :
  (forall ref r, (ref, r) ∈ l -> known !! ref = Some r) -> sweeps known (sweep_vanished name l).
Proof.
  induction l as [|[ref r] l IH]; intros Hl; simpl; [apply always_ret; apply _|].
  assert (IH' : sweeps known (sweep_vanished name l)) by (apply IH; intros; apply Hl; by right).
  apply always_bind; [apply _|apply ctx_sweeps|intros []; [apply always_fail; apply _|]].
  destruct (resubmittable (r_state r)) eqn:Hs; [|done].
  apply always_bind; [apply _| |by intros].
  eapply tolerate_sweeps, resubmit_sweeps; [apply Hl; left|done].
Qed.

Lemma fill_sound {V} (rows : list (string * V)) k v : fill rows !! k = Some v -> (k, v) ∈ rows.
Proof.
  unfold fill.
  assert (H : forall (l : list (string * V)) (acc : gmap string V),
    fold_left (fun m r => <[r.1 := r.2]> m) l acc !! k = Some v -> (k, v) ∈ l \/ acc !! k = Some v).
  { induction l as [|[k' v'] l IH]; intros acc Hk; [by right|].
    apply IH in Hk as [Hk|Hk]; [left; by right|].
    simpl in Hk. apply lookup_insert_Some in Hk as [[-> ->]|[_ Hk]]; [left; left|by right]. }
  intros Hk. apply H in Hk as [|Hk]; [done|]. by rewrite lookup_empty in Hk.
Qed.

(** The entries of a listing describe rows of the swept engine. *)
Lemma known_rows name d ref r :
  fill ((fun r => (r_engine_ref r, r)) <$> queryListNonTerminalByEngine name d) !! ref = Some r ->
  exists t, d_tasks d !! r_id r = Some t /\ t_engine t = name /\ t_engine_ref t = Some ref /\
    nonterminal (t_state t) = true /\ r_state r = t_state t.
Proof.
  intros (r' & [= -> ->] & Hin)%fill_sound%list_elem_of_fmap.
  unfold queryListNonTerminalByEngine in Hin. apply list_elem_of_omap in Hin as ([i t] & Hin & Ht).
  apply elem_of_map_to_list in Hin. simpl in Ht.
  destruct (t_engine_ref t) as [h|] eqn:Hh; [|done]. destruct (_ && _) eqn:Hb; [|done].
  apply andb_true_iff in Hb as [He%bool_decide_eq_true Hn]. injection Ht as <-. simpl.
  by exists t.
Qed.

(** A sweep writes only what dl-tool owns at the swept engine, whatever the
    engine lists: a row of another engine, without a handle or in a terminal
    state is left exactly as it is, no row appears for a foreign transfer, and
    a queued row - the admission pass's - keeps its state and its mark. *)
Theorem sweepEngine_respects_ownership name o (w : world E) :
  w_tx w = None ->
  let d := w_db w in
  let d' := w_db (sweepEngine name o w).2 in
  (forall id, d_tasks d !! id = None -> d_tasks d' !! id = None) /\
  (forall id t, d_tasks d !! id = Some t ->
     t_engine t <> name \/ t_engine_ref t = None \/ nonterminal (t_state t) = false ->
     d_tasks d' !! id = Some t) /\
  (forall id, stays_queued id d d').
Proof.
  intros Hw d d'.
  assert (Hcases : d' = d \/ exists known, (forall ref r, known !! ref = Some r ->
      exists t, d_tasks d !! r_id r = Some t /\ t_engine t = name /\ t_engine_ref t = Some ref /\
        nonterminal (t_state t) = true /\ r_state r = t_state t) /\ swept known d d').
  { subst d'. unfold sweepEngine. rewrite bind_run. unfold attempt, call.
    destruct (eng_List name (w_eng w)) as [listed e]. set (w1 := set_eng e w). simpl.
    destruct listed as [er|listed].
    { left. rewrite bind_run. by destruct (ctx_done_run o w1) as [[-> _]|(w2 & -> & Hd & _)]. }
    rewrite bind_run. unfold ListNonTerminalByEngine. rewrite bind_run. unfold query.
    destruct (o_io o (w_n w1)); [|by left..].
    set (w2 := bump w1). right. rewrite ret_run. change (current w1) with (default (w_db w) (w_tx w)).
    rewrite Hw. simpl default. set (known := fill _). exists known. split.
    - intros ref r. apply known_rows.
    - assert (Hs : sweeps known (seen ← sweep_listed name known listed ∅;
        sweep_vanished name (vanished known seen))).
      { apply always_bind; [apply _|apply listed_sweeps|]. intros seen. apply vanished_sweeps.
        intros ref r Hin. unfold vanished in Hin. rewrite merge_sort_Permutation in Hin.
        apply elem_of_filter_bool in Hin as [_ Hin]. by apply elem_of_map_to_list. }
      by apply (Hs o w2). }
  destruct Hcases as [->|(known & Hk & Hsw)].
  { split; [done|]. split; [done|]. intros id t ??. eauto. }
  split; [|split].
  - intros id Hid. rewrite (proj1 (Hsw id)); [done|]. intros ref r Hr <-.
    destruct (Hk _ _ Hr) as (t & Ht & _). congruence.
  - intros id t Ht Hn. rewrite (proj1 (Hsw id)); [done|]. intros ref r Hr <-.
    destruct (Hk _ _ Hr) as (t' & Ht' & He & Href & Hnt & _). simplify_eq.
    destruct Hn as [?|[?|?]]; congruence.
  - intros id t Ht Hq. destruct (Hsw id) as [_ Hs]. apply Hs; [|done|done].
    intros ref r Hr <-. destruct (Hk _ _ Hr) as (t' & Ht' & _ & _ & _ & ->). by simplify_eq.
Qed.
End Owned.

(** ** Disk-full reports *)

Section DiskFull.
Context {E : Type} `{!EngineApi E}.

(** Row [id] keeps its state, or is parked from a state a disk-full pause may
    land from. *)
Definition parks (id : string) (d d' : db) : Prop := forall t, d_tasks d !! id = Some t ->
  exists t', d_tasks d' !! id = Some t' /\
    (t_state t' = t_state t \/
     t_state t' = StatePaused /\ t_state t ∈ diskFullPauseSources).

#[local] Instance parks_pre id : PreOrder (parks id).
Proof.
  split; [intros d t Ht; eauto|]. intros a b c H1 H2 t Ht.
  destruct (H1 t Ht) as (u & Hu & Hs1). destruct (H2 u Hu) as (v & Hv & Hs2). exists v.
  split; [done|]. destruct Hs1 as [E1|[E1 M1]], Hs2 as [E2|[E2 M2]].
  - left. congruence.
  - right. by rewrite <- E1.
  - right. split; [congruence|done].
  - rewrite E1 in M2. set_solver.
Qed.

Lemma update_parks id guard f ok :
  (forall t, guard t = true -> t_state (f t) = t_state t \/
     t_state (f t) = StatePaused /\ t_state t ∈ diskFullPauseSources) ->
  stmt_keeps (parks id) (update_where id guard f ok).
Proof.
  intros Hf d d' k [(-> & _)|(t & Ht & Hg & _ & _ & ->)]%update_where_inv; [intros u; eauto|].
  intros u Hu. simplify_eq. simpl. rewrite lookup_insert_eq. eauto.
Qed.

Lemma event_parks id e : stmt_keeps (parks id) (queryInsertTaskEvent e).
Proof. intros d d' k. unfold queryInsertTaskEvent. intros Hq. break_all Hq. intros u ?. eauto. Qed.

#[local] Hint Resolve event_parks : dltool.
#[local] Hint Extern 1 (stmt_keeps (parks _) _) => apply update_parks; by left : dltool.

Lemma disk_full_parks r info : ti_ErrorCode info = disk_full ->
  always (tables (parks (r_id r)) (E := E)) (writeBack r info).
Proof.
  intros Hc.
  assert (Hcall : forall A (f : E -> res A * E), always (tables (parks (r_id r))) (call f)).
  { intros A f o w. unfold call. destruct (f (w_eng w)). by apply (tables_same (parks (r_id r))). }
  assert (Hp : always (keeps (parks (r_id r)) (E := E)) (PauseWithCode (r_id r)
    (MkCodedPause CodeTaskPaused pauseDiskFullEventMessage disk_full diskFullMessage
       diskFullPauseSources))).
  { unfold PauseWithCode, insertTaskEvent. walk; auto with dltool.
    apply update_parks. intros u Hg%contains_spec. by right. }
  unfold writeBack, routeDiskFull, PauseDiskFull, pauseEngineSide. rewrite Hc. simpl.
  walk; auto; apply tables_keeps; try done.
  - unfold UpdateProgress. walk; auto with dltool.
  - unfold Get. walk.
  - unfold SetErrorCodeIfState. walk; auto with dltool.
Qed.

(** A disk-full report is never adopted as the engine's error: whatever the
    driver and the engine answer, writing it back leaves the row's state as it
    was or parks it, and parks it only from an active state. *)
Theorem disk_full_report_never_errors (r : Reconcilable) (info : TaskInfo) (t : task) o (w : world E) :
  ti_ErrorCode info = disk_full -> w_tx w = None -> d_tasks (w_db w) !! r_id r = Some t ->
  exists t', d_tasks (w_db (writeBack r info o w).2) !! r_id r = Some t' /\
    (t_state t' = t_state t \/
     t_state t' = StatePaused /\ t_state t ∈ diskFullPauseSources).
Proof.
  intros Hc Hw Ht. apply (tables_db (parks (r_id r))) with (w := w); [|done|done].
  by apply disk_full_parks.
Qed.
End DiskFull.

(** ** A sweep, concretely *)

(** An engine row whose transfer the engine no longer lists, and one of
    another engine. *)
Definition started (engine ref : string) : task :=
  MkTask engine (Some ref) "http" (Some "http://h/f"%string) None "f" None None StateDownloading None
    None "/data" None None (Some 10%Z) 0 0 0 0 None 0 None None 0 0 None None None 0 1 None None 1 1.

(** The engine lists a foreign transfer; the vanished transfer is added again. *)
Definition one_of_each : world (list string) :=
  start (tables_of [("a"%string, started "aria2" "aria2:1"); ("b"%string, started "yt-dlp" "yt-dlp:1")]).

Lemma Boot_safe_witness :
  db_step (w_db one_of_each) (w_db (Boot healthy one_of_each).2) /\
  t_engine_ref <$> d_tasks (w_db (Boot healthy one_of_each).2) !! "a"%string = Some (Some "g0"%string).
Proof.
  split; [|by vm_compute]. exact (Boot_safe healthy one_of_each eq_refl).
Defined.

Lemma sweepEngine_respects_ownership_witness :
  let d' := w_db (sweepEngine "aria2" healthy one_of_each).2 in
  d_tasks d' !! "b"%string = Some (started "yt-dlp" "yt-dlp:1") /\
  d_tasks d' !! "a"%string <> Some (started "aria2" "aria2:1").
Proof.
  assert (H := proj1 (proj2 (sweepEngine_respects_ownership "aria2" healthy one_of_each eq_refl))).
  split; [|by vm_compute].
  apply (H "b"%string (started "yt-dlp" "yt-dlp:1")); [done|]. by left.
Defined.

(** A disk-full report on the downloading row. *)
Definition full_report : TaskInfo :=
  MkInfo "aria2:1" "aria2" "f" StateError None 0 0 0 0 None "/data" EmptyString disk_full
    "no space left on device" EmptyString EmptyString None None None None None.

Lemma disk_full_report_never_errors_witness :
  let d' := w_db (writeBack (MkReconcilable "a" "1" StateDownloading None None "/data" None 0 0)
    full_report healthy one_of_each).2 in
  exists t', d_tasks d' !! "a"%string = Some t' /\
    (t_state t' = StateDownloading \/
     t_state t' = StatePaused /\ StateDownloading ∈ diskFullPauseSources).
Proof.
  exact (disk_full_report_never_errors
    (MkReconcilable "a" "1" StateDownloading None None "/data" None 0 0) full_report
    (started "aria2" "aria2:1") healthy one_of_each eq_refl eq_refl eq_refl).
Defined.
