(* ===== verification/Governor.v ===== *)
(** * The bandwidth governor ([internal/engine/bandwidth.go])

    The precedence chain of the rate limits, their fan-out to the registered
    engines, and the schedule modes: a No Download cell parks the running and
    queued tasks, every other cell pushes a pair and releases the parked set.
    The read-backs after a successful push only log and are left out; the
    fan-out's goroutines are walked in name order. *)

From S2P Require Import Prelude TaskState Schema Lease World Store Engine Admission Reconcile.

Definition settingDownloadRateLimit : string := "download_rate_limit".
Definition settingUploadRateLimit : string := "upload_rate_limit".
Definition settingAltDownloadRateLimit : string := "alt_download_rate_limit".
Definition settingAltUploadRateLimit : string := "alt_upload_rate_limit".
Definition defaultAltDownloadRateLimit : Z := 5242880.
Definition defaultAltUploadRateLimit : Z := 1048576.

Record RateLimits := MkRates { Down : Z; Up : Z }.

(** [Mode]; [ModeUnset] is the zero value before the first apply. *)
Inductive Mode := ModeUnset | ModeNoDownload | ModeDefault | ModeAlternative.

#[global] Instance Mode_eq_dec : EqDecision Mode.
Proof. solve_decision. Defined.

(** One iteration of the loop of [Effective]. *)
Definition lower (rate term : Z) : Z :=
  if (0 <? term)%Z && ((rate =? 0)%Z || (term <? rate)%Z) then term else rate.

(** [Effective]: the rate and whether the cell is a pause. *)
Definition Effective (mode : Mode) (cell global task : Z) : Z * bool :=
  if bool_decide (mode = ModeNoDownload) then (0%Z, true)
  else (fold_left lower [cell; global; task] 0%Z, false).

(** [Governor]'s state; [has_tasks] is whether [WithTasks] attached a store. *)
Record Gov := MkGov { has_settings : bool; has_tasks : bool; current : RateLimits; mode : Mode }.

Definition set_current (l : RateLimits) (g : Gov) : Gov :=
  MkGov (has_settings g) (has_tasks g) l (mode g).
Definition set_mode (m : Mode) (g : Gov) : Gov :=
  MkGov (has_settings g) (has_tasks g) (current g) m.

(** [effectiveLimits]; [None] is its panic. *)
Definition effectiveLimits (m : Mode) (cell global : RateLimits) : option RateLimits :=
  if bool_decide (m = ModeNoDownload) then None
  else Some (MkRates (Effective m (Down cell) (Down global) 0).1
                     (Effective m (Up cell) (Up global) 0).1).

Record pausableTask := MkPausable { pt_engine : string; pt_ref : option string; pt_live : bool }.

Definition colon : Ascii.ascii := Ascii.ascii_of_nat 58.

Section Governor.
Context {E : Type} `{!EngineApi E}.
Abbreviation M := (M E).

(** [errors.Join]: nil when nothing failed; the first error stands for the
    join. *)
Definition join_errs (errs : list err) : res unit :=
  match errs with [] => inr tt | e :: _ => inl e end.

(** The fan-out loop of [applyGlobal]. *)
Fixpoint fan_out (names : list string) (l : RateLimits) : M (list err) :=
  match names with
  | [] => mret []
  | name :: names =>
    r ← attempt (call (eng_SetRateLimits name EmptyString (Some (Down l)) (Some (Up l))));
    errs ← fan_out names l;
    mret (match r with
          | inl e => if errors_is e EngErrNotSupported then errs else e :: errs
          | inr _ => errs
          end)
  end.

(** [applyGlobal]. *)
Definition applyGlobal (g : Gov) (l : RateLimits) : M (res unit * Gov) :=
  errs ← fan_out Names l;
  mret (join_errs errs, if bool_decide (errs = []) then set_current l g else g).

(** [loadLimits]. *)
Definition loadLimits (g : Gov) (downKey upKey : string) (downDef upDef : Z) : M RateLimits :=
  if negb (has_settings g) then fail ErrArgument
  else
    down ← GetInt64 downKey downDef;
    up ← GetInt64 upKey upDef;
    mret (MkRates down up).

Definition loadGlobal (g : Gov) : M RateLimits :=
  loadLimits g settingDownloadRateLimit settingUploadRateLimit 0 0.

(** [cellLimits]. *)
Definition cellLimits (g : Gov) (m : Mode) : M RateLimits :=
  if bool_decide (m = ModeAlternative)
  then loadLimits g settingAltDownloadRateLimit settingAltUploadRateLimit
         defaultAltDownloadRateLimit defaultAltUploadRateLimit
  else loadGlobal g.

(** An outcome the parked set tolerates: the row vanished or moved on. *)
Definition moved_on (e : err) : bool :=
  errors_is e ErrNotFound || errors_is e ErrIllegalTransition || errors_is e ErrTransitionConflict.

(** The loop of [resumeParked]. *)
Fixpoint resume_ids (ids : list string) : M (list err) :=
  match ids with
  | [] => mret []
  | id :: ids =>
    r ← attempt (Transition id StateQueued CodeTaskScheduleResumed "resumed by the download schedule");
    errs ← resume_ids ids;
    mret (match r with inl e => if moved_on e then errs else e :: errs | inr _ => errs end)
  end.

(** [resumeParked]. *)
Definition resumeParked (g : Gov) : M unit :=
  if negb (has_tasks g) then mret tt
  else
    ids ← ListScheduleParked;
    errs ← resume_ids ids;
    of_res (join_errs errs).

(** [applyCellLimits]. *)
Definition applyCellLimits (g : Gov) (m : Mode) : M (res unit * Gov) :=
  loaded ← attempt (cell ← cellLimits g m; global ← loadGlobal g; mret (cell, global));
  match loaded with
  | inl e => mret (inl e, g)
  | inr (cell, global) =>
    match effectiveLimits m cell global with
    | None => fail ErrPanic
    | Some l =>
      applied ← applyGlobal g l;
      match applied with
      | (inl e, g) => mret (inl e, g)
      | (inr _, g) => r ← attempt (resumeParked g); mret (r, g)
      end
    end
  end.

(** [ApplyGlobal]. *)
Definition ApplyGlobal (g : Gov) (l : RateLimits) : M (res unit * Gov) :=
  match mode g with
  | ModeNoDownload => mret (inr tt, g)
  | ModeAlternative => applyCellLimits g ModeAlternative
  | _ => applyGlobal g l
  end.

(** [LoadAndApply]. *)
Definition LoadAndApply (g : Gov) : M (res unit * Gov) :=
  l ← attempt (loadGlobal g);
  match l with inl e => mret (inl e, g) | inr l => ApplyGlobal g l end.

(** The queued half of [pausableTasks]. *)
Definition pausable_queued (l : list Candidate) : gmap string pausableTask :=
  fold_left (fun m c =>
    if bool_decide (c_state c <> StateQueued) then m
    else <[c_id c := MkPausable (c_engine c) (c_engine_ref c) (negb (c_admission_pending c =? 0)%Z)]> m)
    l ∅.

(** One engine's rows in [pausableTasks]. *)
Definition pausable_running (name : string) (known : gmap string Reconcilable)
    (m : gmap string pausableTask) : gmap string pausableTask :=
  fold_left (fun m p =>
    if contains [StateDownloading; StateChecking] (r_state p.2)
    then <[r_id p.2 := MkPausable name (Some (r_engine_ref p.2)) true]> m else m)
    (map_to_list known) m.

Fixpoint pausable_engines (names : list string) (m : gmap string pausableTask)
  : M (gmap string pausableTask) :=
  match names with
  | [] => mret m
  | name :: names =>
    known ← ListNonTerminalByEngine name;
    pausable_engines names (pausable_running name known m)
  end.

(** [pausableTasks]. *)
Definition pausableTasks : M (gmap string pausableTask) :=
  queued ← SelectQueuedCandidates 0;
  pausable_engines Names (pausable_queued queued).

(** [parkOne]. *)
Definition parkOne (id : string) (t : pausableTask) : M unit :=
  (match pt_ref t with
   | Some ref =>
     if pt_live t then
       if negb (registry_get (pt_engine t)) then fail EngErrUnavailable
       else
         r ← attempt (call (eng_Pause (pt_engine t) (namespacedHandle (pt_engine t) ref)));
         match r with
         | inl e => if errors_is e EngErrNotFound then mret tt else fail e
         | inr _ => mret tt
         end
     else mret tt
   | None => mret tt
   end) ;;
  r ← attempt (ScheduleParked id);
  match r with
  | inl e => if moved_on e then mret tt else fail e
  | inr _ => mret tt
  end.

(** The loop of [parkAll]. *)
Fixpoint park_ids (l : list (string * pausableTask)) : M (list err) :=
  match l with
  | [] => mret []
  | (id, t) :: l =>
    r ← attempt (parkOne id t);
    errs ← park_ids l;
    mret (match r with inl e => e :: errs | inr _ => errs end)
  end.

(** [parkAll]. *)
Definition parkAll (g : Gov) : M unit :=
  if negb (has_tasks g) then fail ErrArgument
  else
    pausable ← pausableTasks;
    errs ← park_ids (map_to_list pausable);
    of_res (join_errs errs).

(** [ApplyMode]. *)
Definition ApplyMode (g : Gov) (m : Mode) : M (res unit * Gov) :=
  if bool_decide (mode g = m) then mret (inr tt, g)
  else
    r ← (match m with
         | ModeNoDownload => r ← attempt (parkAll g); mret (r, g)
         | ModeDefault | ModeAlternative => applyCellLimits g m
         | ModeUnset => mret (inl ErrArgument, g)
         end);
    mret (match r with
          | (inl e, g) => (inl e, g)
          | (inr _, g) => (inr tt, set_mode m g)
          end).

(** [Resolve], with [fallbackLimits]. *)
Definition Resolve (g : Gov) (t : task) : M (RateLimits * bool) :=
  if bool_decide (mode g = ModeNoDownload) then mret (MkRates 0 0, true)
  else
    global ← attempt (loadGlobal g);
    let global := match global with inl _ => current g | inr l => l end in
    cell ← (if bool_decide (mode g = ModeAlternative)
            then c ← attempt (cellLimits g ModeAlternative);
                 mret (match c with inl _ => current g | inr l => l end)
            else mret global);
    let down := Effective (mode g) (Down cell) (Down global) (t_dl_limit t) in
    let up := Effective (mode g) (Up cell) (Up global) (t_ul_limit t) in
    mret (MkRates down.1 up.1, down.2 || up.2).

(** [queuedAdmissionPending]. *)
Definition queuedAdmissionPending (id : string) : M bool :=
  candidates ← SelectQueuedCandidates 0;
  mret (match List.find (fun c => bool_decide (c_id c = id)) candidates with
        | Some c => negb (c_admission_pending c =? 0)%Z
        | None => true
        end).

(** [parkTask]. *)
Definition parkTask (g : Gov) (id : string) (t : task) : M unit :=
  if negb (has_tasks g) then fail ErrArgument
  else
    let live := contains [StateDownloading; StateChecking] (t_state t) in
    live ← (if negb live && bool_decide (t_state t = StateQueued)
               && bool_decide (t_engine_ref t <> None)
            then queuedAdmissionPending id else mret live);
    parkOne id (MkPausable (t_engine t) (t_engine_ref t) live).

(** The package-level [ApplyTask]. *)
Definition ApplyTask (engineTaskID : string) (down up : option Z) : M unit :=
  match down, up with
  | None, None => mret tt
  | _, _ =>
    match cut_byte colon engineTaskID with
    | Some (String _ _ as name, String _ _ as ref) =>
      if negb (registry_get name) then fail EngErrUnavailable
      else call (eng_SetRateLimits name ref down up)
    | _ => fail ErrArgument
    end
  end.

(** [Governor.ApplyTask]. *)
Definition GovApplyTask (g : Gov) (id : string) (t : task) : M unit :=
  r ← Resolve g t;
  if r.2 : bool then parkTask g id t
  else match t_engine_ref t with
       | None => mret tt
       | Some ref => ApplyTask (namespacedHandle (t_engine t) ref) (Some (Down r.1)) (Some (Up r.1))
       end.
End Governor.
