(* ===== verification/GovernorProps.v ===== *)
(** * What the bandwidth governor guarantees

    The precedence chain is a minimum, applies are safe for the tables and
    idempotent per mode, and the parked set a failed No Download cell leaves
    behind. *)

From S2P Require Import Prelude TaskState Schema Lease World Frame Store StoreProps Engine.
From S2P Require Import Scenario Admission AdmissionSafety Reconcile Governor.

Section Chain.
Local Open Scope Z_scope.

(** [rate] is the smallest positive element of [l], or 0 when there is none. *)
Definition least_positive (l : list Z) (rate : Z) : Prop :=
  (rate = 0 <-> forall x, x ∈ l -> x <= 0) /\ (rate <> 0 -> 0 < rate /\ rate ∈ l) /\
  (forall x, x ∈ l -> 0 < x -> 0 < rate <= x).

Lemma lower_least l rate term : least_positive l rate -> least_positive (l ++ [term]) (lower rate term).
Proof.
  intros (Hz & Hp & Hl). unfold lower, least_positive. setoid_rewrite elem_of_app.
  setoid_rewrite elem_of_list_singleton || setoid_rewrite list_elem_of_singleton.
  destruct (Z.ltb_spec 0 term); cbn [andb].
  - destruct (Z.eqb_spec rate 0); cbn [orb].
    + split; [split; [lia|intros H'; specialize (H' term); intuition lia]|].
      split; [intros; split; [lia|by right]|].
      intros x [Hx| ->] ?; [|lia]. apply Hz in Hx; [lia|done].
    + destruct (Z.ltb_spec term rate).
      * split; [split; [lia|intros H'; specialize (H' term); intuition lia]|].
        split; [intros; split; [lia|by right]|].
        intros x [Hx| ->] ?; [|lia]. specialize (Hl x Hx). lia.
      * destruct Hp as [Hpos Hin]; [done|].
        split; [split; [lia|intros H'; specialize (H' term); intuition lia]|].
        split; [intros; split; [lia|by left]|].
        intros x [Hx| ->] ?; [|lia]. by apply Hl.
  - split; [|split].
    + rewrite Hz. split; [intros H' x [?| ->]; [auto|lia]|intros H' x Hx; apply H'; by left].
    + intros Hr. destruct (Hp Hr). split; [done|by left].
    + intros x [Hx| ->] ?; [by apply Hl|lia].
Qed.

(** The rate a cell resolves to is the smallest limit that is set: it is zero
    (unlimited) exactly when no term is positive, otherwise it is one of the
    three terms and exceeds none of the positive ones; and only a No Download
    cell is a pause, which carries no rate. *)
Theorem Effective_is_minimum m cell global task :
  let '(rate, pause) := Effective m cell global task in
  (pause = true <-> m = ModeNoDownload) /\
  (m = ModeNoDownload -> rate = 0) /\
  (m <> ModeNoDownload -> least_positive [cell; global; task] rate).
Proof.
  unfold Effective. destruct (bool_decide (m = ModeNoDownload)) eqn:Hm.
  { apply bool_decide_eq_true in Hm. simpl. tauto. }
  apply bool_decide_eq_false in Hm. split; [split; [done|tauto]|]. split; [tauto|]. intros _.
  apply (lower_least [cell; global]), (lower_least [cell]), (lower_least []).
  split; [split; [intros _ x Hx; by apply elem_of_nil in Hx|done]|].
  split; [done|]. intros x Hx. by apply elem_of_nil in Hx.
Qed.
End Chain.

(** ** Safety *)

Section Safety.
Context {E : Type} `{!EngineApi E}.
Abbreviation safe m := (always (tables db_step (E := E)) m).

Lemma call_safe {A} (f : E -> res A * E) : safe (call f).
Proof. apply sf_call. Qed.

Lemma io_safe {A} (m : M E A) : always (keeps db_step) m -> safe m.
Proof. apply tables_keeps. Qed.

#[local] Hint Resolve call_safe : dltool.

Lemma settings_safe g a b c d : safe (loadLimits g a b c d).
Proof. apply io_safe. unfold loadLimits, GetInt64. walk. Qed.

Lemma fan_out_safe names l : safe (fan_out names l).
Proof. induction names as [|n names IH]; simpl; walk; auto with dltool. Qed.

Lemma applyGlobal_safe g l : safe (applyGlobal g l).
Proof. unfold applyGlobal. walk; auto using fan_out_safe. Qed.

Lemma resumeParked_safe g : safe (resumeParked g).
Proof.
  apply io_safe.
  assert (H : forall ids, always (keeps db_step) (resume_ids (E := E) ids)).
  { induction ids as [|i ids IH]; simpl; walk; auto using Transition_keeps. }
  unfold resumeParked, ListScheduleParked. walk; auto.
Qed.

Lemma applyCellLimits_safe g m : safe (applyCellLimits g m).
Proof.
  unfold applyCellLimits, cellLimits, loadGlobal.
  walk; auto using settings_safe, applyGlobal_safe, resumeParked_safe.
Qed.

Lemma parkOne_safe id t : safe (parkOne id t).
Proof.
  unfold parkOne. walk; auto with dltool; apply io_safe, ScheduleParked_keeps.
Qed.

Lemma parkAll_safe g : safe (parkAll g).
Proof.
  assert (H1 : forall l, safe (park_ids l)).
  { induction l as [|[i t] l IH]; simpl; walk; auto using parkOne_safe. }
  assert (H2 : forall names m, always (keeps db_step) (pausable_engines (E := E) names m)).
  { induction names as [|n names IH]; intros m; simpl; unfold ListNonTerminalByEngine; walk; auto. }
  unfold parkAll, pausableTasks, SelectQueuedCandidates. walk; auto with dltool.
  all: try (apply io_safe; auto with dltool).
Qed.

Lemma ApplyMode_tables g m : safe (ApplyMode g m).
Proof. unfold ApplyMode. walk; auto using parkAll_safe, applyCellLimits_safe. Qed.

(** Applying a mode, or a global pair, keeps the store's guarantees whatever
    fails on the way; re-applying the mode in force touches nothing at all -
    no row, no engine - and an apply that reports an error never records its
    mode. *)
Theorem ApplyMode_safe g m l o (w : world E) :
  w_tx w = None ->
  db_step (w_db w) (w_db (ApplyMode g m o w).2) /\
  db_step (w_db w) (w_db (ApplyGlobal g l o w).2) /\
  (mode g = m -> ApplyMode g m o w = (inr (inr tt, g), w)) /\
  (forall e g' w', ApplyMode g m o w = (inr (inl e, g'), w') -> mode g' = mode g).
Proof.
  intros Hw. split; [|split; [|split]].
  - apply (tables_db db_step); [apply ApplyMode_tables|done].
  - apply (tables_db db_step); [|done].
    assert (H : safe (ApplyGlobal g l)); [|apply H].
    unfold ApplyGlobal. walk; auto using applyCellLimits_safe, applyGlobal_safe.
  - intros Hm. unfold ApplyMode. by rewrite bool_decide_true.
  - assert (Hg : forall g0 l0 r g1 w0 w1, applyGlobal (E := E) g0 l0 o w0 = (inr (r, g1), w1) ->
      mode g1 = mode g0).
    { intros g0 l0 r g1 w0 w1. unfold applyGlobal. rewrite bind_run.
      destruct (fan_out Names l0 o w0) as [[?|errs] ?]; [done|]. rewrite ret_run.
      case_bool_decide; intros; by simplify_eq/=. }
    assert (Hc : forall r g1 w1, applyCellLimits (E := E) g m o w = (inr (r, g1), w1) -> mode g1 = mode g).
    { intros r g1 w1. unfold applyCellLimits. rewrite bind_run. unfold attempt at 1.
      destruct ((cellLimits g m ≫= _) o w) as [[e|[c gl]] w2]; [rewrite ret_run; intros; by simplify_eq|].
      destruct (effectiveLimits m c gl) as [l'|]; [|done]. rewrite bind_run.
      destruct (applyGlobal g l' o w2) as [[e|[[e|[]] g2]] w3] eqn:Ha; [done| |];
        apply Hg in Ha; [rewrite ret_run; intros; by simplify_eq|].
      rewrite bind_run. unfold attempt. destruct (resumeParked g2 o w3). rewrite ret_run.
      intros; by simplify_eq. }
    intros e g' w'. unfold ApplyMode. destruct (bool_decide (mode g = m)); [done|].
    rewrite bind_run. destruct m.
    + unfold mret, M_ret. intros; by simplify_eq/=.
    + rewrite bind_run. unfold attempt. destruct (parkAll g o w) as [[?|?] ?]; unfold mret, M_ret;
        intros; by simplify_eq/=.
    + destruct (applyCellLimits g ModeDefault o w) as [[?|[[?|?] ?]] ?] eqn:Ha; [done| |done].
      simpl. intros. simplify_eq. by eapply Hc.
    + destruct (applyCellLimits g ModeAlternative o w) as [[?|[[?|?] ?]] ?] eqn:Ha; [done| |done].
      simpl. intros. simplify_eq. by eapply Hc.
Qed.
End Safety.

Definition default_gov : Gov := MkGov true true (MkRates 0 0) ModeDefault.

Lemma ApplyMode_safe_witness :
  let r := ApplyMode default_gov ModeNoDownload healthy (start two_queued) in
  db_step two_queued (w_db r.2) /\
  t_state <$> d_tasks (w_db r.2) !! "a"%string = Some StatePaused /\
  t_state <$> d_tasks (w_db r.2) !! "b"%string = Some StatePaused.
Proof.
  split; [|split; by vm_compute].
  exact (proj1 (ApplyMode_safe default_gov ModeNoDownload (MkRates 0 0) healthy (start two_queued) eq_refl)).
Defined.

(** ** A failed No Download cell *)

(** Successive minute ticks that resolve to one mode. *)
Fixpoint ticks (n : nat) (m : Mode) (g : Gov) (w : world (list string)) : world (list string) :=
  match n with
  | O => w
  | S n =>
    match ApplyMode g m healthy w with
    | (inr (_, g'), w') => ticks n m g' w'
    | (inl _, w') => w'
    end
  end.

(** A No Download cell that fails for one task has parked the others but its
    mode is not recorded; when the schedule returns to the Default cell before
    a retry succeeds, every later tick sees the mode it already applied and
    does nothing, so the parked task stays paused however long the cell that
    should release it lasts. *)
Theorem failed_no_download_strands :
  let '(r, w) := ApplyMode default_gov ModeNoDownload (failing 7 IoFail) (start two_queued) in
  exists g, r = inr (inl ErrDriver, g) /\ mode g = ModeDefault /\
    forall n, let d := w_db (ticks n ModeDefault g w) in
      "b"%string ∈ queryListScheduleParked d /\
      t_state <$> d_tasks d !! "b"%string = Some StatePaused.
Proof.
  destruct (ApplyMode default_gov ModeNoDownload (failing 7 IoFail) (start two_queued)) as [r w] eqn:Hr.
  assert (Hw : queryListScheduleParked (w_db w) = ["b"%string] /\
    t_state <$> d_tasks (w_db w) !! "b"%string = Some StatePaused /\
    r = inr (inl ErrDriver, default_gov)).
  { split; [|split].
    - replace w with (ApplyMode default_gov ModeNoDownload (failing 7 IoFail) (start two_queued)).2
        by (by rewrite Hr). by vm_compute.
    - replace w with (ApplyMode default_gov ModeNoDownload (failing 7 IoFail) (start two_queued)).2
        by (by rewrite Hr). by vm_compute.
    - replace r with (ApplyMode default_gov ModeNoDownload (failing 7 IoFail) (start two_queued)).1
        by (by rewrite Hr). by vm_compute. }
  destruct Hw as (Hq & Hs & Hres). exists default_gov. split; [done|]. split; [done|].
  assert (Hn : forall n, ticks n ModeDefault default_gov w = w) by (induction n; done).
  intros n. simpl. rewrite Hn, Hq, Hs. split; [by left|done].
Qed.
