(* ===== verification/Feed.v ===== *)
(** * The live-update feed ([internal/sync], [internal/api/sse.go])

    Snapshots of the task list, the diff between two of them, the ring of the
    last deltas with its coalescing read, the hub that numbers deltas and fans
    them out at most once a second, the publishing loop, and the reducer of the
    web client ([web/src/store/useTasks.ts]) the deltas are meant for.

    A JSON object is the map of its members; [json.RawMessage] is the object
    its bytes spell. *)

From stdpp Require Import fin_maps sorting pretty.
From Stdlib Require Import SpecFloat.
From S2P Require Import Prelude GoStrings.

Open Scope Z_scope.

(** ** Snapshots *)

(** The scalars [Project] emits. *)
Inductive scalar :=
  | SNull | SBool (b : bool) | SInt (n : Z) | SFloat (x : spec_float) | SString (s : string).

#[global] Instance spec_float_eq_dec' : EqDecision spec_float.
Proof. solve_decision. Defined.
#[global] Instance scalar_eq_dec : EqDecision scalar.
Proof. solve_decision. Defined.

Abbreviation fields := (gmap string scalar).

(** [Snapshot]; a nil map reads like the empty one. *)
Abbreviation Snapshot := (gmap string fields).

Record Stats := MkStats { SpeedDown : Z; SpeedUp : Z; Active : Z; Queued : Z }.

#[global] Instance Stats_eq_dec : EqDecision Stats.
Proof. solve_decision. Defined.

Definition zeroStats : Stats := MkStats 0 0 0 0.

(** [activeStates] and [taskStateQueued]. *)
Definition activeStates : list string := ["downloading"; "seeding"]%string.
Definition taskStateQueued : string := "queued".

(** [intField]: 0 unless the member is an int64. *)
Definition intField (f : fields) (name : string) : Z :=
  match f !! name with Some (SInt n) => n | _ => 0 end.

(** The type assertion [fields["state"].(string)]. *)
Definition stateField (f : fields) : string :=
  match f !! "state"%string with Some (SString s) => s | _ => EmptyString end.

(** One iteration of [Aggregate]'s loop. *)
Definition aggregate_one (_ : string) (f : fields) (s : Stats) : Stats :=
  let state := stateField f in
  MkStats (wrap64 (SpeedDown s + intField f "download_rate"))
    (wrap64 (SpeedUp s + intField f "upload_rate"))
    (if contains activeStates state then Active s + 1 else Active s)
    (if bool_decide (state = taskStateQueued) then Queued s + 1 else Queued s).

(** [Aggregate]. *)
Definition Aggregate (s : Snapshot) : Stats := map_fold aggregate_one zeroStats s.

(** The patch of a task in both snapshots: the members whose value changed. *)
Definition patch_of (before after : fields) : fields :=
  filter (fun p => before !! p.1 <> Some p.2) after.

(** One iteration of [Diff]'s first loop; [None] leaves the task out. *)
Definition changed_of (prev : Snapshot) (id : string) (after : fields) : option fields :=
  match prev !! id with
  | None => Some after
  | Some before =>
    let patch := patch_of before after in
    if bool_decide (patch = ∅) then None else Some patch
  end.

(** [Diff]. *)
Definition Diff (prev next : Snapshot) : gmap string fields * list string :=
  (map_imap (changed_of prev) next,
   merge_sort id_le
     (map_fold (fun id _ removed => if next !! id then removed else id :: removed) [] prev)).

(** ** Deltas *)

Record Delta := MkDelta {
  RID : Z; FullUpdate : bool;
  Tasks : gmap string fields; TasksRemoved : list string;
  Categories : gmap string fields; CategoriesRemoved : list string;
  d_stats : Stats; SeqGap : bool }.

(** [newDelta]; also the zero value of an unused ring slot. *)
Definition newDelta : Delta := MkDelta 0 false ∅ [] ∅ [] zeroStats false.

Definition set_rid (n : Z) (d : Delta) : Delta :=
  MkDelta n (FullUpdate d) (Tasks d) (TasksRemoved d) (Categories d) (CategoriesRemoved d)
    (d_stats d) (SeqGap d).

(** [mergePatch]: the later patch's members win. *)
Definition mergePatch (previous : option fields) (next : fields) : fields :=
  match previous with None => next | Some previous => next ∪ previous end.

(** [slices.DeleteFunc] of one id. *)
Definition drop_id (id : string) (l : list string) : list string :=
  List.filter (fun v => negb (bool_decide (v = id))) l.

(** [union]. *)
Definition union_ids (dst addition : list string) : list string :=
  fold_left (fun dst v => if contains dst v then dst else dst ++ [v]) addition dst.

Definition delete_ids {A} (ids : list string) (m : gmap string A) : gmap string A :=
  fold_left (fun m id => delete id m) ids m.

(** The merge of one side - tasks, or categories - of [coalesceInto]. *)
Definition merge_one (id : string) (patch : fields) (dst : gmap string fields * list string) :
    gmap string fields * list string :=
  (<[id := mergePatch (dst.1 !! id) patch]> dst.1, drop_id id dst.2).

Definition merge_side (dst next : gmap string fields * list string) :
    gmap string fields * list string :=
  let '(m, removed) := map_fold merge_one dst next.1 in
  (delete_ids next.2 m, union_ids removed next.2).

(** [coalesceInto]. *)
Definition coalesceInto (dst next : Delta) : Delta :=
  let dst := if FullUpdate next then newDelta else dst in
  let t := merge_side (Tasks dst, TasksRemoved dst) (Tasks next, TasksRemoved next) in
  let c := merge_side (Categories dst, CategoriesRemoved dst) (Categories next, CategoriesRemoved next) in
  MkDelta (RID dst) (FullUpdate dst || FullUpdate next) t.1 t.2 c.1 c.2 (d_stats next) (SeqGap dst).

(** [finalizeRemovals]. *)
Definition finalizeRemovals (d : Delta) : Delta :=
  MkDelta (RID d) (FullUpdate d) (delete_ids (TasksRemoved d) (Tasks d)) (TasksRemoved d)
    (delete_ids (CategoriesRemoved d) (Categories d)) (CategoriesRemoved d) (d_stats d) (SeqGap d).

(** ** The ring *)

Definition RingDepth : Z := 300.

(** [Ring]; an index absent from [buf] is a slot still at its zero value. *)
Record Ring := MkRing { buf : gmap Z Delta; newest : Z; count : Z }.

Definition NewRing : Ring := MkRing ∅ 0 0.

Definition slot (r : Ring) (i : Z) : Delta := default newDelta (buf r !! (Z.rem i RingDepth)).

(** [Append]. *)
Definition Append (d : Delta) (r : Ring) : Ring :=
  MkRing (<[Z.rem (RID d) RingDepth := d]> (buf r)) (RID d)
    (if count r <? RingDepth then count r + 1 else count r).

(** [oldest]. *)
Definition oldest (r : Ring) : Z := newest r - count r + 1.

(** [Since]; [None] is the miss. *)
Definition Since (rid : Z) (r : Ring) : option Delta :=
  if (count r =? 0) || (rid <? oldest r) || (newest r <? rid) then None
  else
    let d := fold_left (fun d i => coalesceInto d (slot r i)) (seqZ (rid + 1) (newest r - rid)) newDelta in
    let d := finalizeRemovals d in
    Some (MkDelta (newest r) (FullUpdate d) (Tasks d) (TasksRemoved d) (Categories d)
            (CategoriesRemoved d) (d_stats (slot r (newest r))) (SeqGap d)).

(** ** The reader's position *)

(** [parseRID]. *)
Definition parseRID (lastEventID : string) : Z :=
  match ParseInt (TrimSpace (bytes_of lastEventID)) with
  | Some rid => if rid <? 0 then 0 else rid
  | None => 0
  end.

(** The id line of one SSE message: absent for rid 0, the number otherwise. *)
Definition id_line (rid : Z) : string := if rid =? 0 then EmptyString else pretty rid.

(** ** The hub *)

Definition publishInterval : Z := 1000000000.   (* nanoseconds *)
Definition subscriberBuffer : nat := 8.

(** A subscriber's channel: the buffered deltas, and whether it was closed (a
    closed channel still hands out what it buffers). *)
Record chan := MkChan { queue : list Delta; closed : bool }.
Definition no_chan : chan := MkChan [] true.

(** [Hub] with the channels it made, each under its subscriber's number; [timer] is
    whether the window's flush is armed, and [lastSend] is [None] before the
    first window. *)
Record Hub := MkHub {
  ring : Ring; rid : Z; subs : list Z; nextSub : Z; chans : gmap Z chan;
  pending : Delta; lastSend : option Z; timer : bool }.

(** [NewHub]. *)
Definition NewHub : Hub := MkHub NewRing 0 [] 0 ∅ newDelta None false.

Definition chan_at (c : gmap Z chan) (id : Z) : chan := default no_chan (c !! id).
Definition close (ch : chan) : chan := MkChan (queue ch) true.
Definition push (d : Delta) (ch : chan) : chan := MkChan (queue ch ++ [d]) (closed ch).

(** The loop of [deliverLocked]: the subscribers that stay and the channels. *)
Fixpoint send_all (d : Delta) (ids : list Z) (c : gmap Z chan) : list Z * gmap Z chan :=
  match ids with
  | [] => ([], c)
  | id :: ids =>
    let ch := chan_at c id in
    if Nat.ltb (length (queue ch)) subscriberBuffer then
      let '(kept, c) := send_all d ids (<[id := push d ch]> c) in (id :: kept, c)
    else send_all d ids (<[id := close ch]> c)
  end.

(** [deliverLocked]. *)
Definition deliverLocked (now : Z) (h : Hub) : Hub :=
  match subs h with
  | [] => MkHub (ring h) (rid h) (subs h) (nextSub h) (chans h) newDelta (lastSend h) (timer h)
  | ids =>
    let '(kept, c) := send_all (finalizeRemovals (pending h)) ids (chans h) in
    MkHub (ring h) (rid h) kept (nextSub h) c newDelta (Some now) (timer h)
  end.

Definition set_timer (b : bool) (h : Hub) : Hub :=
  MkHub (ring h) (rid h) (subs h) (nextSub h) (chans h) (pending h) (lastSend h) b.

(** [armLocked]. *)
Definition armLocked (now : Z) (h : Hub) : Hub :=
  if timer h then h
  else if match lastSend h with None => true | Some t => publishInterval <=? now - t end
  then deliverLocked now h
  else set_timer true h.

(** [flush]. *)
Definition flush (now : Z) (h : Hub) : Hub := deliverLocked now (set_timer false h).

(** [Publish]. *)
Definition Publish (d : Delta) (now : Z) (h : Hub) : Z * Hub :=
  let n := rid h + 1 in
  let d := set_rid n d in
  let h := MkHub (Append d (ring h)) n (subs h) (nextSub h) (chans h)
             (set_rid n (coalesceInto (pending h) d)) (lastSend h) (timer h) in
  (n, armLocked now h).

(** [Snapshot] of the hub, over the seed its caller supplies: the answer to a
    miss, and the whole, as it runs under the hub's lock. *)
Definition full_answer (cur : Z) (full : Delta) : Delta :=
  MkDelta cur true (Tasks full) (TasksRemoved full) (Categories full) (CategoriesRemoved full)
    (d_stats full) true.
Definition HubSnapshot (n : Z) (full : Delta) (h : Hub) : Delta :=
  match Since n (ring h) with
  | Some d => d
  | None => full_answer (rid h) full
  end.

(** [Subscribe]: the new subscriber's number. *)
Definition Subscribe (lastEventID : string) (full : Delta) (h : Hub) : Z * Hub :=
  let seed := HubSnapshot (parseRID lastEventID) full h in
  let id := nextSub h + 1 in
  (id, MkHub (ring h) (rid h) (id :: subs h) id (<[id := MkChan [seed] false]> (chans h))
         (pending h) (lastSend h) (timer h)).

(** [remove]. *)
Definition remove (id : Z) (h : Hub) : Hub :=
  if contains (subs h) id then
    MkHub (ring h) (rid h) (List.filter (fun i => negb (i =? id)) (subs h)) (nextSub h)
      (<[id := close (chan_at (chans h) id)]> (chans h)) (pending h) (lastSend h) (timer h)
  else h.

(** ** The loop and the endpoints *)

(** [seedDelta], over the last snapshot the source produced. *)
Definition seedDelta (latest : option Snapshot) : Delta :=
  match latest with
  | None => newDelta
  | Some s => MkDelta 0 false (Diff ∅ s).1 [] ∅ [] (Aggregate s) false
  end.

(** The variables of [Loop]. *)
Record LoopState := MkLoop { prev : Snapshot; lastStats : Stats }.

(** The delta [Loop] publishes for [next], [None] when nothing moved. *)
Definition tick_delta (l : LoopState) (next : Snapshot) : option Delta :=
  let '(changed, removed) := Diff (prev l) next in
  let stats := Aggregate next in
  if bool_decide (changed = ∅) && bool_decide (removed = []) && bool_decide (stats = lastStats l)
  then None
  else Some (MkDelta 0 false changed removed ∅ [] stats false).

(** ** The reader *)

(** [applySync]'s task map. *)
Definition applySync (msg : Delta) (source : Snapshot) : Snapshot :=
  let tasks := if FullUpdate msg || SeqGap msg then ∅ else source in
  let tasks := map_fold (fun id patch tasks =>
    <[id := match source !! id with Some previous => patch ∪ previous | None => patch end]> tasks)
    tasks (Tasks msg) in
  delete_ids (TasksRemoved msg) tasks.
