(* ===== verification/FeedProps.v ===== *)
(** * The delta algebra of the feed

    What a delta does to one task of a reader ([act]), how coalescing composes
    those actions, what a diff makes of them, and what the ring hands out. *)

From stdpp Require Import fin_maps sorting.
From S2P Require Import Prelude GoStrings Feed.

Open Scope Z_scope.

(** ** Lists of ids *)

Lemma lookup_delete_ids {A} ids (m : gmap string A) id :
  delete_ids ids m !! id = if decide (id ∈ ids) then None else m !! id.
Proof.
  revert m. induction ids as [|i ids IH]; intros m; [done|].
  unfold delete_ids in *. simpl. rewrite IH.
  destruct (decide (id ∈ ids)) as [Hi|Hi].
  - rewrite decide_True; [done|by right].
  - destruct (decide (id = i)) as [->|Hne].
    + by rewrite lookup_delete_eq, decide_True by left.
    + rewrite lookup_delete_ne by congruence. by rewrite decide_False by set_solver.
Qed.

Lemma elem_of_drop_id v id l : v ∈ drop_id id l <-> v ∈ l /\ v <> id.
Proof.
  unfold drop_id. rewrite elem_of_filter_bool, negb_true_iff, bool_decide_eq_false. tauto.
Qed.

Lemma elem_of_union_ids v l l' : v ∈ union_ids l l' <-> v ∈ l \/ v ∈ l'.
Proof.
  unfold union_ids. revert l. induction l' as [|a l' IH]; intros l; simpl; [set_solver|].
  rewrite IH. destruct (contains l a) eqn:Hc; [apply contains_spec in Hc|]; set_solver.
Qed.

(** One side of a merge, member by member. *)
Lemma merge_fold next m r :
  let out := map_fold merge_one (m, r) next in
  (forall id, out.1 !! id =
     match next !! id with Some p => Some (mergePatch (m !! id) p) | None => m !! id end) /\
  (forall v, v ∈ out.2 <-> v ∈ r /\ next !! v = None).
Proof.
  apply (map_fold_weak_ind (fun out (next : gmap string fields) =>
    (forall id, out.1 !! id =
       match next !! id with Some p => Some (mergePatch (m !! id) p) | None => m !! id end) /\
    (forall v, v ∈ out.2 <-> v ∈ r /\ next !! v = None))).
  - split; [done|]. intros v. simpl. split; [by intros|tauto].
  - intros i p next' out Hi [H1 H2]. unfold merge_one. simpl. split.
    + intros id. destruct (decide (id = i)) as [->|Hne].
      * by rewrite !lookup_insert_eq, H1, Hi.
      * by rewrite !lookup_insert_ne by congruence.
    + intros v. rewrite elem_of_drop_id, H2. destruct (decide (v = i)) as [->|Hne].
      * rewrite lookup_insert_eq. split; [tauto|]. by intros [_ ?].
      * rewrite lookup_insert_ne by congruence. tauto.
Qed.

(** ** Actions *)

(** What a delta does to one task of its reader. *)
Inductive act := Keep | Gone | Patch (p : fields).

Definition act_of (d : Delta) (id : string) : act :=
  if decide (id ∈ TasksRemoved d) then Gone
  else match Tasks d !! id with Some p => Patch p | None => Keep end.

Definition run (a : act) (x : option fields) : option fields :=
  match a with
  | Keep => x
  | Gone => None
  | Patch p => Some (p ∪ default ∅ x)
  end.

(** First [a], then [b]. *)
Definition comb (a b : act) : act :=
  match b with
  | Keep => a
  | Gone => Gone
  | Patch p => match a with Patch q => Patch (p ∪ q) | _ => Patch p end
  end.

(** No id is both updated and removed. *)
Definition clean (d : Delta) : Prop := forall id, id ∈ TasksRemoved d -> Tasks d !! id = None.

(** A plain delta: neither a full update nor a gap. *)
Definition plain (d : Delta) : Prop := FullUpdate d = false /\ SeqGap d = false /\ clean d.

Lemma apply_plain d X id : plain d -> applySync d X !! id = run (act_of d id) (X !! id).
Proof.
  intros (Hf & Hg & _). unfold applySync, act_of. rewrite Hf, Hg. simpl.
  rewrite lookup_delete_ids. destruct (decide _); [done|].
  set (f := fun id patch tasks => _).
  assert (H : forall m, map_fold f X m !! id =
    match m !! id with Some p => Some (p ∪ default ∅ (X !! id)) | None => X !! id end).
  { intros m. revert id n.
    apply (map_fold_weak_ind (fun (out : Snapshot) (m : gmap string fields) =>
      forall id, id ∉ TasksRemoved d -> out !! id =
        match m !! id with Some p => Some (p ∪ default ∅ (X !! id)) | None => X !! id end)); [done|].
    intros i p m' out Hi IH id Hn. unfold f. destruct (decide (id = i)) as [->|Hne].
    - rewrite !lookup_insert_eq. destruct (X !! i); simpl; [done|]. by rewrite map_union_empty.
    - rewrite !lookup_insert_ne by congruence. by apply IH. }
  rewrite H. by destruct (Tasks d !! id).
Qed.

Lemma act_coalesce d e id : clean d -> plain e ->
  act_of (coalesceInto d e) id = comb (act_of d id) (act_of e id).
Proof.
  intros Hd (Hf & _ & He). unfold coalesceInto. rewrite Hf. unfold act_of at 1. simpl. unfold merge_side. simpl.
  destruct (merge_fold (Tasks e) (Tasks d) (TasksRemoved d)) as [H1 H2].
  destruct (map_fold merge_one _ _) as [m r]. simpl in *.
  unfold act_of. destruct (decide (id ∈ TasksRemoved e)) as [Hr|Hr].
  - rewrite decide_True; [done|]. apply elem_of_union_ids. by right.
  - rewrite lookup_delete_ids, (decide_False (P := id ∈ TasksRemoved e)), H1 by done.
    destruct (Tasks e !! id) as [p|] eqn:Hp; simpl.
    + rewrite decide_False.
      * destruct (decide (id ∈ TasksRemoved d)) as [Hx|Hx]; [by rewrite (Hd _ Hx)|].
        by destruct (Tasks d !! id).
      * rewrite elem_of_union_ids, H2, Hp. intros [[_ ?]|?]; done.
    + destruct (decide (id ∈ TasksRemoved d)) as [Hx|Hx].
      * rewrite decide_True; [done|]. apply elem_of_union_ids. left. by apply H2.
      * rewrite decide_False; [done|]. rewrite elem_of_union_ids, H2. tauto.
Qed.

Lemma plain_coalesce d e : plain d -> plain e -> plain (coalesceInto d e).
Proof.
  intros (Hf & Hg & Hd) (Hf' & _ & He). unfold coalesceInto. rewrite Hf'. unfold plain, clean. simpl.
  rewrite Hf. split; [done|]. split; [done|]. unfold merge_side. simpl.
  destruct (merge_fold (Tasks e) (Tasks d) (TasksRemoved d)) as [H1 H2].
  destruct (map_fold merge_one _ _) as [m r]. simpl in *.
  intros id Hid. rewrite lookup_delete_ids. destruct (decide _) as [|Hn]; [done|].
  apply elem_of_union_ids in Hid as [[Hr Hx]%H2|]; [|done]. by rewrite H1, Hx, (Hd _ Hr).
Qed.

Lemma act_finalize d id : act_of (finalizeRemovals d) id = act_of d id.
Proof.
  unfold act_of. simpl. destruct (decide _) as [|Hn]; [done|].
  by rewrite lookup_delete_ids, decide_False.
Qed.

Lemma plain_finalize d : plain d -> plain (finalizeRemovals d).
Proof.
  intros (Hf & Hg & Hc). split; [done|]. split; [done|]. intros id Hid. simpl.
  by rewrite lookup_delete_ids, decide_True.
Qed.

Lemma plain_new : plain newDelta.
Proof. done. Qed.

Lemma act_new id : act_of newDelta id = Keep.
Proof. done. Qed.

(** ** Diffs *)

(** What the diff of two states of a task does to it. *)
Definition diff_act (s l : option fields) : act :=
  match s, l with
  | None, None => Keep
  | None, Some l => Patch l
  | Some _, None => Gone
  | Some b, Some l => if decide (patch_of b l = ∅) then Keep else Patch (patch_of b l)
  end.

(** The delta [Loop] makes of a diff. *)
Definition diff_delta (prev next : Snapshot) : Delta :=
  MkDelta 0 false (Diff prev next).1 (Diff prev next).2 ∅ [] (Aggregate next) false.

Lemma diff_removed prev next id :
  id ∈ (Diff prev next).2 <-> is_Some (prev !! id) /\ next !! id = None.
Proof.
  unfold Diff. cbn [snd]. rewrite merge_sort_Permutation.
  apply (map_fold_weak_ind (fun (out : list string) (m : Snapshot) =>
    id ∈ out <-> is_Some (m !! id) /\ next !! id = None)).
  - rewrite lookup_empty. split; [by intros ?%elem_of_nil|]. by intros [[] ].
  - intros i f m out Hi IH. destruct (decide (id = i)) as [->|Hne].
    + rewrite lookup_insert_eq. destruct (next !! i) eqn:Hn.
      * rewrite IH. split; by intros [].
      * split; [eauto|]. by left.
    + rewrite lookup_insert_ne by congruence. destruct (next !! i); [done|].
      rewrite elem_of_cons, IH. tauto.
Qed.

Lemma diff_changed prev next id :
  (Diff prev next).1 !! id = next !! id ≫= changed_of prev id.
Proof. unfold Diff. simpl. by rewrite map_lookup_imap. Qed.

Lemma act_diff prev next id n :
  act_of (set_rid n (diff_delta prev next)) id = diff_act (prev !! id) (next !! id).
Proof.
  unfold act_of, set_rid, diff_delta. cbn [Tasks TasksRemoved]. rewrite diff_changed.
  destruct (decide (id ∈ (Diff prev next).2)) as [Hr|Hr]; rewrite diff_removed in Hr.
  - destruct Hr as [[b ->] ->]. done.
  - destruct (prev !! id) as [b|] eqn:Hb, (next !! id) as [l|] eqn:Hl; simpl;
      unfold changed_of; rewrite ?Hb; simpl.
    + destruct (decide (patch_of b l = ∅)) as [E|E];
        [by rewrite bool_decide_true|by rewrite bool_decide_false].
    + exfalso. apply Hr. eauto.
    + done.
    + done.
Qed.

Lemma plain_diff prev next n : plain (set_rid n (diff_delta prev next)).
Proof.
  split; [done|]. split; [done|]. intros id. cbn [set_rid diff_delta Tasks TasksRemoved].
  rewrite diff_removed, diff_changed. by intros [_ ->].
Qed.

Lemma patch_of_lookup b l f :
  patch_of b l !! f = match l !! f with
                      | Some v => if decide (b !! f = Some v) then None else Some v
                      | None => None end.
Proof.
  unfold patch_of. destruct (l !! f) as [v|] eqn:Hl.
  - destruct (decide (b !! f = Some v)) as [E|E].
    + apply map_lookup_filter_None. right. intros w ?. simplify_eq. simpl. tauto.
    + apply map_lookup_filter_Some. done.
  - apply map_lookup_filter_None. by left.
Qed.

Lemma patch_of_sub b l : patch_of b l ⊆ l.
Proof. apply map_filter_subseteq. Qed.

(** A patch turns the old members into the new ones. *)
Lemma patch_of_apply b l : dom b ⊆ dom l -> patch_of b l ∪ b = l.
Proof.
  intros Hd. apply map_eq. intros f. rewrite lookup_union, patch_of_lookup.
  destruct (l !! f) as [v|] eqn:Hl.
  - destruct (decide (b !! f = Some v)) as [->|E]; [done|]. by destruct (b !! f).
  - assert (b !! f = None) as ->; [|done].
    apply not_elem_of_dom. intros Hf%Hd%elem_of_dom. rewrite Hl in Hf. by destruct Hf.
Qed.

(** ** One task *)

(** The reader shows [x]; the next delta is the diff of [s] and [l]. *)
Definition settles (s l x : option fields) : Prop := run (diff_act s l) x = l.

(** Everything [a] says is true of [s]. *)
Definition conforms (a : act) (s : option fields) : Prop :=
  match a with
  | Keep => True
  | Gone => s = None
  | Patch p => exists f, s = Some f /\ p ⊆ f
  end.

Section Fixed.
(** The member names of the projection. *)
Context (F : gset string).

Definition full (x : option fields) : Prop := forall f, x = Some f -> dom f = F.
Definition within (x : option fields) : Prop := forall f, x = Some f -> dom f ⊆ F.

Lemma full_within x : full x -> within x.
Proof. intros H f Hf. by rewrite (H f Hf). Qed.

Lemma union_absorb (p q : fields) : dom q ⊆ dom p -> p ∪ q = p.
Proof.
  intros Hd. apply map_eq. intros f. rewrite lookup_union.
  destruct (p !! f) as [v|] eqn:Hp; [by destruct (q !! f)|].
  assert (q !! f = None) as ->; [|done].
  apply not_elem_of_dom. intros Hf%Hd%elem_of_dom. rewrite Hp in Hf. by destruct Hf.
Qed.

Lemma diff_settles s l : full s -> full l -> settles s l s.
Proof.
  intros Hs Hl. unfold settles, diff_act. destruct s as [b|], l as [l|]; [| done | |done].
  - assert (Hp : patch_of b l ∪ b = l) by (apply patch_of_apply; by rewrite (Hs b), (Hl l)).
    destruct (decide _) as [E|E]; simpl; [|by rewrite Hp]. by rewrite E, map_empty_union in Hp; subst.
  - simpl. by rewrite map_union_empty.
Qed.

Lemma diff_self l : diff_act l l = Keep.
Proof.
  unfold diff_act. destruct l as [l|]; [|done]. apply decide_True. apply map_eq. intros f.
  rewrite patch_of_lookup, lookup_empty. destruct (l !! f) eqn:?; [by rewrite decide_True|done].
Qed.

Lemma diff_conforms s l : conforms (diff_act s l) l.
Proof.
  unfold diff_act. destruct s as [b|], l as [l|]; simpl; try done.
  - destruct (decide _); simpl; [done|]. exists l. split; [done|]. apply patch_of_sub.
  - by exists l.
Qed.

Lemma run_within a x s : within x -> conforms a s -> full s -> within (run a x).
Proof.
  intros Hx Ha Hs. destruct a as [| |p]; simpl; [done|by intros ?|].
  destruct Ha as (f & -> & Hp). intros g [= <-]. rewrite dom_union.
  apply subseteq_dom in Hp. rewrite (Hs f) in Hp by done.
  destruct x as [y|]; simpl; [specialize (Hx y eq_refl); set_solver|].
  rewrite dom_empty. set_solver.
Qed.

(** An action that is true of [s] does not disturb a reader the next diff
    brings to [l]. *)
Lemma settles_absorb a s l x :
  full s -> full l -> within x -> conforms a s -> settles s l x -> settles s l (run a x).
Proof.
  intros Hs Hl Hx Ha Hset. destruct a as [| |p]; simpl; [done| |].
  - simpl in Ha. subst s. unfold settles, diff_act in *. destruct l as [l|]; [|done].
    simpl. by rewrite map_union_empty.
  - destruct Ha as (b & -> & Hp). unfold settles, diff_act in *. destruct l as [l|]; [|done].
    assert (Hsub : forall f v, p !! f = Some v -> b !! f = Some v)
      by (intros; by eapply lookup_weaken).
    destruct (decide (patch_of b l = ∅)) as [E|E]; simpl in *; injection Hset as Hset || idtac.
    + subst x. simpl. f_equal. apply map_eq. intros f. rewrite lookup_union.
      destruct (p !! f) as [v|] eqn:Hf; [|by destruct (l !! f)].
      assert (Hb := Hsub _ _ Hf). assert (Hpl : patch_of b l ∪ b = l).
      { apply patch_of_apply. by rewrite (Hs b), (Hl l). }
      rewrite E, map_empty_union in Hpl. subst l. rewrite Hb. done.
    + f_equal. rewrite <- Hset at 2. apply map_eq. intros f. rewrite !lookup_union.
      rewrite patch_of_lookup. destruct (l !! f) as [v|] eqn:Hlf.
      * destruct (decide (b !! f = Some v)) as [Hbf|Hbf].
        -- destruct (p !! f) as [w|] eqn:Hpf.
           ++ assert (Hb := Hsub _ _ Hpf). simplify_eq.
              assert (Hw : l !! f = Some v) by done. rewrite <- Hset in Hw.
              rewrite lookup_union, patch_of_lookup, Hlf, decide_True in Hw by done.
              destruct (default ∅ x !! f); [by injection Hw as ->|done].
           ++ by destruct (default ∅ x !! f).
        -- by destruct (p !! f), (default ∅ x !! f).
      * destruct (p !! f) as [w|] eqn:Hpf; [|by destruct (default ∅ x !! f)].
        exfalso. assert (Hf : f ∈ dom b) by (apply elem_of_dom; eauto).
        rewrite (Hs b), <- (Hl l) in Hf by done. apply elem_of_dom in Hf as [? Hf]. congruence.
Qed.

(** Composition with the next diff. *)
Lemma run_comb a s l x : full s -> full l -> within x -> conforms a s ->
  run (comb a (diff_act s l)) x = run (diff_act s l) (run a x).
Proof.
  intros Hs Hl Hx Ha. unfold comb.
  destruct (diff_act s l) as [| |p] eqn:Hd; [done|done|].
  destruct a as [| |q]; simpl; [done| |].
  - simpl in Ha. subst s. unfold diff_act in Hd. destruct l as [l|]; [|done]. injection Hd as <-.
    rewrite map_union_empty. f_equal. apply union_absorb. rewrite (Hl l) by done.
    destruct x as [y|]; simpl; [by apply Hx|]. by rewrite dom_empty.
  - by rewrite (assoc_L (∪)).
Qed.

Lemma comb_conforms a s l : full s -> full l -> conforms a s ->
  conforms (comb a (diff_act s l)) l.
Proof.
  intros Hs Hl Ha. pose proof (diff_conforms s l) as Hd.
  assert (Hk : diff_act s l = Keep -> s = l).
  { unfold diff_act. destruct s as [b|], l as [l|]; try done.
    destruct (decide _) as [E|E]; [|done]. intros _. f_equal.
    rewrite <- (map_empty_union b), <- E. apply patch_of_apply. by rewrite (Hs b), (Hl l). }
  unfold comb. destruct (diff_act s l) as [| |p] eqn:He; [by rewrite <- Hk|done|].
  destruct a as [| |q]; [done|done|]. destruct Ha as (b & -> & Hq).
  unfold diff_act in He. destruct l as [l|]; [|done].
  destruct (decide _) as [E|E]; [done|]. injection He as <-. exists l. split; [done|].
  apply map_subseteq_spec. intros f v. rewrite lookup_union_Some_raw.
  intros [Hp|[Hp Hqf]]; [by eapply lookup_weaken; [|apply patch_of_sub]|].
  rewrite patch_of_lookup in Hp. assert (Hb : b !! f = Some v) by by eapply lookup_weaken.
  assert (Hf : f ∈ dom b) by (apply elem_of_dom; eauto).
  rewrite (Hs b), <- (Hl l) in Hf by done. apply elem_of_dom in Hf as [w Hw]. rewrite Hw in Hp |- *.
  destruct (decide _) as [E'|]; [congruence|done].
Qed.
End Fixed.

(** ** The ring *)

(** The answer for a reader that has seen the first [k] of [ds]. *)
Definition catch_up (k : nat) (ds : list Delta) : Delta :=
  let d := finalizeRemovals (fold_left coalesceInto (drop k ds) newDelta) in
  MkDelta (Z.of_nat (length ds)) (FullUpdate d) (Tasks d) (TasksRemoved d) (Categories d)
    (CategoriesRemoved d) (d_stats (default newDelta (list.last ds))) (SeqGap d).

(** [r] retains the end of the published deltas [ds], numbered from 1. *)
Record holds (r : Ring) (ds : list Delta) : Prop := {
  h_newest : newest r = Z.of_nat (length ds);
  h_count : count r = Z.of_nat (length ds) `min` RingDepth;
  h_slot : forall i d, ds !! i = Some d -> (length ds <= i + 300)%nat -> slot r (Z.of_nat i + 1) = d }.

Lemma holds_new : holds NewRing [].
Proof. by split. Qed.

Lemma rem_distinct a b : 0 <= a -> a < b -> b < a + 300 -> Z.rem a 300 <> Z.rem b 300.
Proof. intros. rewrite !Z.rem_mod_nonneg by lia. Z.div_mod_to_equations. lia. Qed.

Lemma holds_append r ds d : holds r ds -> RID d = Z.of_nat (length ds) + 1 ->
  holds (Append d r) (ds ++ [d]).
Proof.
  intros [Hn Hc Hs] Hd. unfold Append, RingDepth in *. split; cbn [newest count].
  - rewrite length_app. simpl. lia.
  - rewrite length_app, Hc. cbn [length]. unfold RingDepth. destruct (Z.ltb_spec (Z.of_nat (length ds) `min` 300) 300); lia.
  - rewrite length_app. simpl. intros i e Hi Hlen. unfold slot, RingDepth. simpl.
    apply lookup_snoc_Some in Hi as [[Hlt Hi]|[-> <-]].
    + rewrite lookup_insert_ne; [by apply Hs; [|lia]|]. rewrite Hd.
      apply not_eq_sym, rem_distinct; lia.
    + by rewrite Hd, lookup_insert_eq.
Qed.

Lemma slots_drop r ds k : holds r ds -> (length ds <= k + 300)%nat ->
  slot r <$> seqZ (Z.of_nat k + 1) (Z.of_nat (length ds) - Z.of_nat k) = drop k ds.
Proof.
  intros Hh Hk. apply list_eq. intros i. rewrite list_lookup_fmap, lookup_drop.
  destruct (ds !! (k + i)%nat) as [d|] eqn:Hd.
  - assert (Hlt := lookup_lt_Some _ _ _ Hd). rewrite lookup_seqZ_lt by lia. simpl. f_equal.
    rewrite <- (h_slot r ds Hh (k + i) d) by (done || lia). f_equal. lia.
  - apply lookup_ge_None in Hd. by rewrite lookup_seqZ_ge by lia.
Qed.

Lemma fold_slots r ds k : holds r ds -> (length ds <= k + 300)%nat ->
  fold_left (fun d i => coalesceInto d (slot r i))
    (seqZ (Z.of_nat k + 1) (Z.of_nat (length ds) - Z.of_nat k)) newDelta =
  fold_left coalesceInto (drop k ds) newDelta.
Proof.
  intros Hh Hk. rewrite <- (slots_drop r ds k Hh Hk).
  generalize newDelta, (seqZ (Z.of_nat k + 1) (Z.of_nat (length ds) - Z.of_nat k)).
  intros d l. revert d. induction l as [|i l IH]; intros d; [done|]. simpl. apply IH.
Qed.

Lemma last_slot r ds : holds r ds -> ds <> [] ->
  slot r (Z.of_nat (length ds)) = default newDelta (list.last ds).
Proof.
  intros Hh Hne. destruct (exists_last Hne) as (ds' & d & ->). rewrite last_snoc. simpl.
  rewrite length_app. simpl.
  replace (Z.of_nat (length ds' + 1)) with (Z.of_nat (length ds') + 1) by lia.
  apply (h_slot _ _ Hh); [by apply list_lookup_middle|]. rewrite length_app. simpl. lia.
Qed.

(** The positions the ring can serve. *)
Definition retained (n k : Z) : bool := (0 <? n) && (1 `max` (n - 299) <=? k) && (k <=? n).

Lemma Since_holds r ds k : holds r ds ->
  Since k r = if retained (Z.of_nat (length ds)) k then Some (catch_up (Z.to_nat k) ds) else None.
Proof.
  intros Hh. unfold Since, retained, oldest. rewrite (h_newest _ _ Hh), (h_count _ _ Hh).
  unfold RingDepth. destruct (_ || _ || _) eqn:Hm.
  - destruct (_ && _ && _) eqn:Hr; [exfalso; lia|done].
  - destruct (_ && _ && _) eqn:Hr; [|exfalso; lia]. f_equal. unfold catch_up.
    rewrite (last_slot r ds Hh) by (intros ->; simpl in *; lia).
    rewrite <- (fold_slots r ds (Z.to_nat k) Hh) by lia. by rewrite Z2Nat.id by lia.
Qed.

(** The ring after publishing [ds], as [Publish] numbers and appends them. *)
Definition ring_of (ds : list Delta) : Ring :=
  fold_left (fun r d => Append (set_rid (newest r + 1) d) r) ds NewRing.

Definition numbered (ds : list Delta) : list Delta :=
  imap (fun i d => set_rid (Z.of_nat i + 1) d) ds.

Lemma ring_of_holds ds : holds (ring_of ds) (numbered ds).
Proof.
  induction ds as [|d ds IH] using rev_ind; [apply holds_new|].
  unfold ring_of, numbered in *. rewrite fold_left_app, imap_app. simpl.
  rewrite (h_newest _ _ IH), length_imap, Nat.add_0_r. apply holds_append; [done|].
  by rewrite length_imap.
Qed.

(** The ring is exact: after any number of publishes it serves the positions
    of the last 300 deltas and no other, and what it serves is the coalescing
    of precisely the deltas after the position, at the newest number and with
    the newest stats. *)
Theorem Since_spec (ds : list Delta) (k : Z) :
  Since k (ring_of ds) =
    if retained (Z.of_nat (length ds)) k then Some (catch_up (Z.to_nat k) (numbered ds)) else None.
Proof.
  rewrite (Since_holds _ _ _ (ring_of_holds ds)). unfold numbered. by rewrite length_imap.
Qed.
