(* ===== verification/FeedSystem.v ===== *)
(** * The feed as a system

    The publishing loop, the hub's timer, and any number of readers that
    connect, read, drop, reconnect or poll, in any interleaving.  Every event
    is one critical section of the code: the two halves of a loop iteration -
    the source stores its snapshot, the loop publishes it - are separate
    events, so readers can be seeded from a snapshot that is not published
    yet, and so are the three reads of a poll, which takes no lock: the ring,
    then the number, then the stored snapshot.  The invariant [feed_inv] is
    kept by every event. *)

From stdpp Require Import fin_maps sorting.
From S2P Require Import Prelude GoStrings Feed FeedProps.

Open Scope Z_scope.

(** ** States and events *)

(** A reader: what it shows, the last number it saw, and its channel. *)
Record client := MkClient { shown : Snapshot; at_rid : Z; conn : option Z }.

(** How far a poll got that missed the ring: what [cur] holds, once read. *)
Inductive poll := Missed | Cursor (cur : Z).

(** [inflight] is the snapshot [Loop] holds between the source's return and
    the end of its iteration. *)
Record sys := MkSys {
  hub : Hub; loop : LoopState; latest : option Snapshot; inflight : option Snapshot;
  clients : gmap nat client; polls : gmap nat poll }.

Definition init : sys := MkSys NewHub (MkLoop ∅ zeroStats) None None ∅ ∅.

Inductive event :=
  | EvSnap (next : Snapshot)             (* the source returns, and stores the copy *)
  | EvPublish (now : Z)                  (* the rest of the iteration *)
  | EvFlush (now : Z)                    (* the window's timer fires *)
  | EvOpen (c : nat)                     (* a new reader *)
  | EvSubscribe (c : nat) (line : string) (* GET /events with this Last-Event-ID *)
  | EvRecv (c : nat)                     (* the reader takes one delta *)
  | EvEnd (c : nat)                      (* it finds the channel closed *)
  | EvDrop (c : nat)                     (* it goes away *)
  | EvPoll (c : nat)                     (* GET /sync: the ring *)
  | EvCursor (c : nat)                   (* ... missed: the number *)
  | EvFull (c : nat).                    (* ... and the snapshot *)

Definition set_hub (h : Hub) (s : sys) : sys :=
  MkSys h (loop s) (latest s) (inflight s) (clients s) (polls s).
Definition set_client (c : nat) (cl : client) (s : sys) : sys :=
  MkSys (hub s) (loop s) (latest s) (inflight s) (<[c := cl]> (clients s)) (polls s).
Definition set_polls (m : gmap nat poll) (s : sys) : sys :=
  MkSys (hub s) (loop s) (latest s) (inflight s) (clients s) m.
Definition set_chan (id : Z) (ch : chan) (h : Hub) : Hub :=
  MkHub (ring h) (rid h) (subs h) (nextSub h) (<[id := ch]> (chans h)) (pending h) (lastSend h) (timer h).

(** The second half of one iteration of [Loop]. *)
Definition publish_next (now : Z) (next : Snapshot) (s : sys) : sys :=
  match tick_delta (loop s) next with
  | None => MkSys (hub s) (loop s) (latest s) None (clients s) (polls s)
  | Some d =>
    MkSys (Publish d now (hub s)).2 (MkLoop next (d_stats d)) (latest s) None (clients s) (polls s)
  end.

(** The reader takes the first delta of its channel. *)
Definition recv (c : nat) (cl : client) (id : Z) (s : sys) : option sys :=
  let ch := chan_at (chans (hub s)) id in
  match queue ch with
  | [] => None
  | d :: q =>
    Some (set_client c (MkClient (applySync d (shown cl)) (RID d) (conn cl))
            (set_hub (set_chan id (MkChan q (closed ch)) (hub s)) s))
  end.

(** One event; [None] when it cannot happen in this state. *)
Definition fire (ev : event) (s : sys) : option sys :=
  match ev with
  | EvSnap next =>
    match inflight s with
    | None => Some (MkSys (hub s) (loop s) (Some next) (Some next) (clients s) (polls s))
    | Some _ => None
    end
  | EvPublish now =>
    match inflight s with Some next => Some (publish_next now next s) | None => None end
  | EvFlush now => if timer (hub s) then Some (set_hub (flush now (hub s)) s) else None
  | EvOpen c =>
    match clients s !! c with None => Some (set_client c (MkClient ∅ 0 None) s) | Some _ => None end
  | EvSubscribe c line =>
    match clients s !! c, polls s !! c with
    | Some (MkClient x n None), None =>
      if parseRID line =? n then
        let '(id, h) := Subscribe line (seedDelta (latest s)) (hub s) in
        Some (set_client c (MkClient x n (Some id)) (set_hub h s))
      else None
    | _, _ => None
    end
  | EvRecv c =>
    match clients s !! c with
    | Some cl => match conn cl with Some id => recv c cl id s | None => None end
    | None => None
    end
  | EvEnd c =>
    match clients s !! c with
    | Some (MkClient x n (Some id)) =>
      match chan_at (chans (hub s)) id with
      | MkChan [] true => Some (set_client c (MkClient x n None) s)
      | _ => None
      end
    | _ => None
    end
  | EvDrop c =>
    match clients s !! c with
    | Some (MkClient x n (Some id)) =>
      Some (set_client c (MkClient x n None) (set_hub (remove id (hub s)) s))
    | Some (MkClient x n None) => Some (set_polls (delete c (polls s)) s)
    | None => None
    end
  | EvPoll c =>
    match clients s !! c, polls s !! c with
    | Some (MkClient x n None), None =>
      match Since n (ring (hub s)) with
      | Some d => Some (set_client c (MkClient (applySync d x) (RID d) None) s)
      | None => Some (set_polls (<[c := Missed]> (polls s)) s)
      end
    | _, _ => None
    end
  | EvCursor c =>
    match polls s !! c with
    | Some Missed => Some (set_polls (<[c := Cursor (rid (hub s))]> (polls s)) s)
    | _ => None
    end
  | EvFull c =>
    match clients s !! c, polls s !! c with
    | Some (MkClient x n None), Some (Cursor cur) =>
      let d := full_answer cur (seedDelta (latest s)) in
      Some (set_client c (MkClient (applySync d x) (RID d) None) (set_polls (delete c (polls s)) s))
    | _, _ => None
    end
  end.

Fixpoint fire_all (evs : list event) (s : sys) : option sys :=
  match evs with [] => Some s | ev :: evs => fire ev s ≫= fire_all evs end.

(** What an undisturbed reader ends up with: its queue, then the open window. *)
Definition drained (cl : client) (id : Z) (s : sys) : Snapshot :=
  applySync (finalizeRemovals (pending (hub s)))
    (fold_left (fun x d => applySync d x) (queue (chan_at (chans (hub s)) id)) (shown cl)).

(** ** The invariant *)

Section Invariant.
(** The projection's member names. *)
Context (F : gset string).

Definition snap_full (x : Snapshot) : Prop := forall id, full F (x !! id).
Definition snap_within (x : Snapshot) : Prop := forall id, within F (x !! id).

(** A published history: [S 0 = ∅], the published snapshots [S 1 .. S n], and
    the newest one the source produced, [S (n+1)]. *)
Implicit Types (S : nat -> Snapshot) (n k : nat).

Definition D S k : Delta := set_rid (Z.of_nat k + 1) (diff_delta (S k) (S (k + 1)%nat)).

(** A reader at position [k]: the next diff brings it to the next snapshot. *)
Definition good S k (x : Snapshot) : Prop :=
  forall id, settles (S k !! id) (S (k + 1)%nat !! id) (x !! id).

(** What a reader at position [k] is still owed, in one delta; [caught]: it
    brings the reader to where the newest diff applies. *)
Definition owed S n k : Delta := fold_left coalesceInto (D S <$> seq k (n - k)) newDelta.
Definition caught S n k (x : Snapshot) : Prop := forall id,
  settles (S n !! id) (S (n + 1)%nat !! id) (run (act_of (owed S n k) id) (x !! id)).

(** A reader at [r] with the deltas [q] still to read. *)
Fixpoint chain S n (r : Z) (x : Snapshot) (q : list Delta) : Prop :=
  (0 <= r <= Z.of_nat n /\ caught S n (Z.to_nat r) x /\ snap_within x) /\
  match q with [] => True | d :: q => chain S n (RID d) (applySync d x) q end.

Record hub_inv S n (h : Hub) : Prop := {
  hi_rid : rid h = Z.of_nat n;
  hi_ring : holds (ring h) (D S <$> seq 0 n);
  hi_plain : plain (pending h);
  hi_conforms : forall id, conforms (act_of (pending h) id) (S n !! id);
  hi_subs : NoDup (subs h) /\ forall id, id ∈ subs h -> id <= nextSub h }.

(** Between two critical sections a delta waits exactly while the flush is
    armed. *)
Definition armed n (h : Hub) : Prop :=
  if timer h then RID (pending h) = Z.of_nat n else pending h = newDelta.

(** A connected reader. *)
Record conn_inv S n (h : Hub) (x : Snapshot) (r id : Z) : Prop := {
  ci_id : id <= nextSub h;
  ci_chain : chain S n r x (queue (chan_at (chans h) id));
  ci_open : id ∈ subs h -> forall i,
    settles (S n !! i) (S (n + 1)%nat !! i)
      (run (act_of (pending h) i)
         (fold_left (fun x d => applySync d x) (queue (chan_at (chans h) id)) x !! i)) }.

Definition client_inv S n (h : Hub) (cl : client) : Prop :=
  chain S n (at_rid cl) (shown cl) [] /\
  forall id, conn cl = Some id -> conn_inv S n h (shown cl) (at_rid cl) id.

Record feed_inv S n (s : sys) : Prop := {
  fi_start : S 0%nat = ∅;
  fi_full : forall k, (k <= n + 1)%nat -> snap_full (S k);
  fi_prev : prev (loop s) = S n;
  fi_latest : default ∅ (latest s) = S (n + 1)%nat;
  fi_inflight : match inflight s with
                | None => S (n + 1)%nat = S n
                | Some x => S (n + 1)%nat = x /\ latest s = Some x end;
  fi_hub : hub_inv S n (hub s);
  fi_armed : armed n (hub s);
  fi_clients : forall c cl, clients s !! c = Some cl -> client_inv S n (hub s) cl;
  fi_own : forall c c' cl cl' id, clients s !! c = Some cl -> clients s !! c' = Some cl' ->
    conn cl = Some id -> conn cl' = Some id -> c = c';
  fi_polls : forall c cur, polls s !! c = Some (Cursor cur) -> 0 <= cur <= Z.of_nat n }.

(** ** Seeds *)

Lemma plain_D S k : plain (D S k).
Proof. apply plain_diff. Qed.

Lemma act_D S k id : act_of (D S k) id = diff_act (S k !! id) (S (k + 1)%nat !! id).
Proof. apply act_diff. Qed.

Section Histories.
Context (S : nat -> Snapshot) (n : nat) (Hfull : forall k, (k <= n + 1)%nat -> snap_full (S k)).

Lemma good_self : good S n (S n).
Proof. intros id. apply (diff_settles F); apply Hfull; lia. Qed.

(** The next snapshot is settled as well. *)
Lemma good_next : good S n (S (n + 1)%nat).
Proof.
  intros id. unfold settles, diff_act.
  destruct (S n !! id) as [b|] eqn:Hb, (S (n + 1)%nat !! id) as [l|] eqn:Hl; [| done | |done].
  - destruct (decide _); simpl; [done|]. f_equal.
    apply map_eq. intros f. rewrite lookup_union, patch_of_lookup.
    destruct (l !! f) as [v|]; [|done]. by destruct (decide _).
  - simpl. f_equal. by apply union_absorb.
Qed.

Lemma within_full k : (k <= n + 1)%nat -> snap_within (S k).
Proof. intros Hk id. apply full_within, Hfull, Hk. Qed.

(** Coalescing a run of diffs. *)
Lemma coalesce_range m k d : (k + m <= n)%nat ->
  plain d -> (forall id, conforms (act_of d id) (S k !! id)) ->
  let e := fold_left coalesceInto (D S <$> seq k m) d in
  plain e /\ (forall id, conforms (act_of e id) (S (k + m)%nat !! id)) /\
  (m <> O -> forall x id, within F x ->
     settles (S k !! id) (S (k + 1)%nat !! id) (run (act_of d id) x) ->
     run (act_of e id) x = S (k + m)%nat !! id).
Proof.
  revert k d. induction m as [|m IH]; intros k d Hle Hp Hc; cbn zeta.
  { rewrite Nat.add_0_r. simpl. done. }
  cbn [seq fmap list_fmap fold_left].
  assert (Hp' : plain (coalesceInto d (D S k))) by (apply plain_coalesce; [done|apply plain_D]).
  assert (Ha : forall id, act_of (coalesceInto d (D S k)) id =
    comb (act_of d id) (diff_act (S k !! id) (S (k + 1)%nat !! id))).
  { intros id. rewrite act_coalesce; [by rewrite act_D|apply Hp|apply plain_D]. }
  assert (Hc' : forall id, conforms (act_of (coalesceInto d (D S k)) id) (S (k + 1)%nat !! id)).
  { intros id. rewrite Ha. apply (comb_conforms F); [apply Hfull; lia..|done]. }
  replace (k + Datatypes.S m)%nat with (k + 1 + m)%nat in * by lia.
  destruct (IH (k + 1)%nat (coalesceInto d (D S k))) as (IH1 & IH2 & IH3); [lia|done|done|].
  replace (Datatypes.S k) with (k + 1)%nat by lia. split; [done|]. split; [done|].
  intros _ x id Hx Hs.
  assert (Hr : run (act_of (coalesceInto d (D S k)) id) x = S (k + 1)%nat !! id).
  { rewrite Ha, (run_comb F); [done|apply Hfull; lia..|done|done]. }
  destruct m as [|m]; [by rewrite Nat.add_0_r|]. apply IH3; [done|done|].
  rewrite Hr. apply (diff_settles F); apply Hfull; lia.
Qed.

Lemma drop_D k : (k <= n)%nat -> drop k (D S <$> seq 0 n) = D S <$> seq k (n - k).
Proof. intros Hk. by rewrite <- fmap_drop, drop_seq. Qed.

(** Nothing is owed at the newest position. *)
Lemma owed_now : owed S n n = newDelta.
Proof. unfold owed. by rewrite Nat.sub_diag. Qed.

Lemma caught_now x : caught S n n x <-> good S n x.
Proof. unfold caught. by rewrite owed_now. Qed.

Lemma owed_spec k : (k <= n)%nat ->
  plain (owed S n k) /\ forall id, conforms (act_of (owed S n k) id) (S n !! id).
Proof.
  intros Hk. destruct (coalesce_range (n - k) k newDelta) as (Hp & Hc & _); [lia|done|done|].
  split; [exact Hp|]. intros id. specialize (Hc id).
  replace (k + (n - k))%nat with n in Hc by lia. exact Hc.
Qed.

Lemma good_caught k x : (k <= n)%nat -> good S k x -> snap_within x -> caught S n k x.
Proof.
  intros Hk Hg Hx. destruct (decide (k = n)) as [->|Hne]; [by apply caught_now|].
  destruct (coalesce_range (n - k) k newDelta) as (_ & _ & Hr); [lia|done|done|]. intros id.
  specialize (Hr ltac:(lia) (x !! id) id (Hx id) (Hg id)).
  replace (k + (n - k))%nat with n in Hr by lia. unfold owed. rewrite Hr. apply good_self.
Qed.

(** A seed of the newest snapshot is caught up from every position: what it is
    owed is true of the snapshot already. *)
Lemma newest_caught k : (k <= n)%nat -> caught S n k (S (n + 1)%nat).
Proof.
  intros Hk id. destruct (owed_spec k Hk) as [_ Hc].
  apply (settles_absorb F); [apply Hfull; lia..|apply within_full; lia|apply Hc|apply good_next].
Qed.

Lemma catch_up_good k x : (k <= n)%nat -> caught S n k x -> snap_within x ->
  let d := catch_up k (D S <$> seq 0 n) in
  RID d = Z.of_nat n /\ good S n (applySync d x) /\ snap_within (applySync d x).
Proof.
  intros Hk Hg Hx d. destruct (owed_spec k Hk) as [Hp Hc].
  assert (Hd : forall id, applySync d x !! id = run (act_of (owed S n k) id) (x !! id)).
  { intros id. rewrite apply_plain.
    - rewrite <- (act_finalize (owed S n k)). unfold d, catch_up. by rewrite drop_D by lia.
    - apply plain_finalize in Hp. unfold d, catch_up. by rewrite drop_D by lia. }
  split; [unfold d; simpl; by rewrite length_fmap, length_seq|]. split; intros id; rewrite Hd.
  - apply Hg.
  - apply (run_within F _ _ (S n !! id)); [done|apply Hc|apply Hfull; lia].
Qed.

(** A full seed replaces whatever the reader showed. *)
Lemma full_seed latest r x : default ∅ latest = S (n + 1)%nat -> snap_within x ->
  applySync (full_answer r (seedDelta latest)) x = S (n + 1)%nat.
Proof.
  intros Hl Hx. unfold applySync, full_answer. cbn [FullUpdate SeqGap Tasks TasksRemoved orb].
  assert (Hr : TasksRemoved (seedDelta latest) = []) by by destruct latest.
  assert (Ht : Tasks (seedDelta latest) = S (n + 1)%nat).
  { apply map_eq. intros id. rewrite <- Hl. destruct latest as [s|]; [|done].
    simpl. rewrite map_lookup_imap. unfold changed_of. rewrite lookup_empty. by destruct (s !! id). }
  rewrite Hr, Ht. simpl. apply map_eq. intros id.
  set (f := fun id patch tasks => _).
  transitivity (match S (n + 1)%nat !! id with
                | Some p => Some (p ∪ default ∅ (x !! id)) | None => None end).
  - apply (map_fold_weak_ind (fun (out : Snapshot) (m : gmap string fields) =>
      out !! id = match m !! id with Some p => Some (p ∪ default ∅ (x !! id)) | None => None end)); [done|].
    intros i p m out Hi IH. unfold f. destruct (decide (id = i)) as [->|Hne].
    + rewrite !lookup_insert_eq. destruct (x !! i); simpl; [done|]. by rewrite map_union_empty.
    + by rewrite !lookup_insert_ne by congruence.
  - destruct (S (n + 1)%nat !! id) as [p|] eqn:Hp; [|done]. f_equal. apply union_absorb.
    rewrite (Hfull (n + 1)%nat (le_n _) id p Hp). destruct (x !! id) as [y|] eqn:Hy; simpl.
    + by apply (Hx id).
    + rewrite dom_empty. set_solver.
Qed.

(** What a reader makes of the hub's answer at its position. *)
Lemma snapshot_good h latest r x : hub_inv S n h -> default ∅ latest = S (n + 1)%nat ->
  0 <= r <= Z.of_nat n -> caught S n (Z.to_nat r) x -> snap_within x ->
  let d := HubSnapshot r (seedDelta latest) h in
  RID d = Z.of_nat n /\ good S n (applySync d x) /\ snap_within (applySync d x).
Proof.
  intros Hh Hl Hr Hg Hx. cbn zeta. unfold HubSnapshot.
  rewrite (Since_holds _ _ _ (hi_ring _ _ _ Hh)).
  destruct (retained _ _) eqn:Hret.
  - apply catch_up_good; [lia|done|done].
  - rewrite (full_seed latest (rid h) x Hl Hx). simpl. split; [apply Hh|].
    split; [apply good_next|by apply within_full].
Qed.
End Histories.

(** ** Delivery *)

Lemma send_all_spec d ids : forall c, NoDup ids ->
  let out := send_all d ids c in
  out.1 `sublist_of` ids /\
  forall id, (id ∈ out.1 /\ queue (chan_at out.2 id) = queue (chan_at c id) ++ [d]) \/
             (id ∉ out.1 /\ queue (chan_at out.2 id) = queue (chan_at c id)).
Proof.
  induction ids as [|i ids IH]; intros c Hnd; cbn [send_all].
  { split; [done|]. intros id. right. split; [apply not_elem_of_nil|done]. }
  apply list.NoDup_cons in Hnd as [Hi Hnd].
  assert (Hother : forall c' id, id <> i -> chan_at (<[i := c']> c) id = chan_at c id).
  { intros. unfold chan_at. by rewrite lookup_insert_ne by congruence. }
  assert (Hsame : forall c', chan_at (<[i := c']> c) i = c').
  { intros. unfold chan_at. by rewrite lookup_insert_eq. }
  destruct (Nat.ltb _ _).
  - specialize (IH (<[i := push d (chan_at c i)]> c) Hnd).
    destruct (send_all _ _ _) as [kept c']. simpl in *. destruct IH as [Hsub IH].
    assert (Hk : i ∉ kept) by (intros Hk; apply Hi; by eapply elem_of_sublist).
    split; [by apply sublist_skip|]. intros id. destruct (decide (id = i)) as [->|Hne].
    + left. split; [by left|]. destruct (IH i) as [[? _]|[_ ->]]; [done|]. by rewrite Hsame.
    + destruct (IH id) as [[H1 H2]|[H1 H2]]; rewrite Hother in H2 by done; [left|right].
      * split; [by right|done].
      * split; [|done]. by apply not_elem_of_cons.
  - destruct (IH (<[i := close (chan_at c i)]> c) Hnd) as [Hsub IH'].
    split; [by apply sublist_cons|]. intros id. destruct (decide (id = i)) as [->|Hne].
    + right. destruct (IH' i) as [[Hin _]|[Hn Hq]].
      * exfalso. apply Hi. by eapply elem_of_sublist.
      * split; [done|]. by rewrite Hq, Hsame.
    + destruct (IH' id) as [[H1 H2]|[H1 H2]]; rewrite Hother in H2 by done; [left|right]; done.
Qed.

Lemma chain_app S n q d r x : chain S n r x q ->
  let y := fold_left (fun x d => applySync d x) q x in
  0 <= RID d <= Z.of_nat n -> caught S n (Z.to_nat (RID d)) (applySync d y) ->
  snap_within (applySync d y) -> chain S n r x (q ++ [d]).
Proof.
  revert r x. induction q as [|e q IH]; intros r x Hc; simpl in *; intros ???.
  - split; [apply Hc|]. done.
  - destruct Hc as [Hc1 Hc2]. split; [done|]. by apply IH.
Qed.

Lemma chain_end S n q r x : chain S n r x q ->
  snap_within (fold_left (fun x d => applySync d x) q x).
Proof. revert r x. induction q as [|d q IH]; intros r x [Hc1 Hc2]; [apply Hc1|]. by eapply IH. Qed.

Lemma chain_impl S n S' n' r x q : (n <= n')%nat ->
  (forall k y, (k <= n)%nat -> snap_within y -> caught S n k y -> caught S' n' k y) ->
  chain S n r x q -> chain S' n' r x q.
Proof.
  intros Hn Hg. revert r x. induction q as [|d q IH]; intros r x [(Hr & Hx & Hw) Hc]; simpl.
  - split; [|done]. split; [lia|]. split; [|done]. apply Hg; [lia|done..].
  - split; [|by apply IH]. split; [lia|]. split; [|done]. apply Hg; [lia|done..].
Qed.

Section Delivery.
Context (S : nat -> Snapshot) (n : nat) (Hfull : forall k, (k <= n + 1)%nat -> snap_full (S k)).

Lemma deliver_hub now h : hub_inv S n h -> timer h = false ->
  hub_inv S n (deliverLocked now h) /\ armed n (deliverLocked now h).
Proof.
  intros Hh Ht. unfold deliverLocked, armed. destruct (subs h) as [|i ids] eqn:Hs.
  - destruct Hh as [? ? ? ? [Hnd Hle]]. rewrite Hs in *. simpl. rewrite Ht. split; [|done].
    by split.
  - pose proof (send_all_spec (finalizeRemovals (pending h)) (i :: ids) (chans h)) as Hk.
    destruct Hh as [? ? ? ? [Hnd Hle]]. rewrite Hs in *. destruct (Hk Hnd) as [Hsub _].
    destruct (send_all _ _ _) as [kept c]. simpl in *. rewrite Ht. split; [|done].
    split; try done. simpl. split; [by eapply sublist_NoDup|].
    intros id Hid. apply Hle. by eapply elem_of_sublist.
Qed.

Lemma deliver_conn now h x r id : hub_inv S n h -> RID (pending h) = Z.of_nat n ->
  conn_inv S n h x r id -> conn_inv S n (deliverLocked now h) x r id.
Proof.
  intros Hh Hr [Hid Hc Ho]. unfold deliverLocked. destruct (subs h) as [|i ids] eqn:Hs.
  { split; [done|done|]. simpl. by intros ?%elem_of_nil. }
  pose proof (hi_subs _ _ _ Hh) as [Hnd Hle]. rewrite Hs in Hnd.
  destruct (send_all_spec (finalizeRemovals (pending h)) _ (chans h) Hnd) as [Hsub Hk].
  destruct (send_all _ _ _) as [kept c]. simpl in *. destruct (Hk id) as [[Hin Hq]|[Hn Hq]].
  - assert (Hid' : id ∈ i :: ids) by by eapply elem_of_sublist.
    set (y := fold_left _ (queue (chan_at (chans h) id)) x) in *. specialize (Ho Hid').
    assert (Hy : forall j, applySync (finalizeRemovals (pending h)) y !! j =
      run (act_of (pending h) j) (y !! j)).
    { intros j. rewrite apply_plain by apply plain_finalize, Hh. by rewrite act_finalize. }
    assert (Hyw : snap_within y) by by eapply chain_end.
    split; [done| |]; simpl; rewrite Hq.
    + apply chain_app; [done|..]; fold y; simpl; rewrite ?Hr; [lia|..].
      * rewrite Nat2Z.id. apply caught_now. intros j. rewrite Hy. apply Ho.
      * intros j. rewrite Hy. apply (run_within F _ _ (S n !! j)); [apply Hyw|apply Hh|apply Hfull; lia].
    + intros _ j. rewrite fold_left_app. simpl. fold y. rewrite Hy. apply Ho.
  - split; simpl; rewrite ?Hq; [done|done|]. by intros ?.
Qed.

Lemma arm_hub now h : hub_inv S n h -> RID (pending h) = Z.of_nat n ->
  hub_inv S n (armLocked now h) /\ armed n (armLocked now h) /\
  forall x r id, conn_inv S n h x r id -> conn_inv S n (armLocked now h) x r id.
Proof.
  intros Hh Hr. unfold armLocked. destruct (timer h) eqn:Ht.
  { split; [done|]. split; [|done]. unfold armed. by rewrite Ht. }
  destruct (match lastSend h with None => true | Some t => _ end).
  - destruct (deliver_hub now h Hh Ht). split; [done|]. split; [done|].
    intros x r id. by apply deliver_conn.
  - split; [by destruct Hh; split|]. split; [done|]. intros x r id [? ? ?]. by split.
Qed.

Lemma flush_hub now h : hub_inv S n h -> armed n h -> timer h = true ->
  hub_inv S n (flush now h) /\ armed n (flush now h) /\
  forall x r id, conn_inv S n h x r id -> conn_inv S n (flush now h) x r id.
Proof.
  intros Hh Ha Ht. unfold armed in Ha. rewrite Ht in Ha. unfold flush.
  assert (Hh' : hub_inv S n (set_timer false h)) by (destruct Hh; by split).
  destruct (deliver_hub now _ Hh' eq_refl). split; [done|]. split; [done|].
  intros x r id [? ? ?]. apply deliver_conn; [done|done|]. by split.
Qed.
End Delivery.

(** ** Every event keeps the invariant *)

(** The history after the source returned [next], and after it was published. *)
Definition set_latest S n (next : Snapshot) : nat -> Snapshot :=
  fun k => if decide (k = n + 1)%nat then next else S k.
Definition publish_latest S n : nat -> Snapshot :=
  fun k => if decide (k <= n + 1)%nat then S k else S (n + 1)%nat.

Lemma D_ext S S' n k : (forall j, (j <= n)%nat -> S j = S' j) -> (k < n)%nat -> D S k = D S' k.
Proof. intros He Hk. unfold D. by rewrite !He by lia. Qed.

Lemma ring_ext S S' n : (forall j, (j <= n)%nat -> S j = S' j) ->
  D S <$> seq 0 n = D S' <$> seq 0 n.
Proof.
  intros He. apply list_fmap_ext. intros i k Hk.
  apply lookup_seq in Hk as [-> Hk]. by apply (D_ext _ _ n).
Qed.

Lemma owed_ext S S' n k : (forall j, (j <= n)%nat -> S j = S' j) -> (k <= n)%nat ->
  owed S n k = owed S' n k.
Proof.
  intros He Hk. unfold owed. f_equal. apply list_fmap_ext. intros i j Hj.
  apply lookup_seq in Hj as [-> Hj]. apply (D_ext _ _ n); [done|lia].
Qed.

(** With nothing in flight a reader that is caught up shows the newest snapshot,
    once it has what it is owed, whatever comes next. *)
Lemma caught_latest S n next k y : (forall j, (j <= n + 1)%nat -> snap_full (S j)) ->
  snap_full next -> S (n + 1)%nat = S n -> (k <= n)%nat -> caught S n k y ->
  caught (set_latest S n next) n k y.
Proof.
  intros Hf Hn He Hk Hg id. specialize (Hg id).
  assert (Hs : forall j, (j <= n)%nat -> S j = set_latest S n next j)
    by (intros; unfold set_latest; by rewrite decide_False by lia).
  rewrite <- (owed_ext S _ n k Hs Hk), <- Hs by lia.
  unfold settles in Hg at 1. rewrite He, diff_self in Hg. cbn [run] in Hg. rewrite Hg.
  unfold set_latest. rewrite decide_True by done. apply (diff_settles F); [apply Hf; lia|apply Hn].
Qed.

(** A publish adds one diff to what every reader is owed. *)
Lemma caught_publish S n k y : (forall j, (j <= n + 1)%nat -> snap_full (S j)) ->
  (k <= n)%nat -> snap_within y -> caught S n k y -> caught (publish_latest S n) (n + 1) k y.
Proof.
  intros Hf Hk Hy Hg id. specialize (Hg id).
  assert (Hs : forall j, (j <= n + 1)%nat -> S j = publish_latest S n j)
    by (intros; unfold publish_latest; by rewrite decide_True).
  assert (Ho : owed (publish_latest S n) (n + 1) k = coalesceInto (owed S n k) (D S n)).
  { rewrite <- (owed_ext S _ (n + 1) k Hs) by lia. unfold owed.
    replace (n + 1 - k)%nat with (n - k + 1)%nat by lia.
    rewrite seq_app, fmap_app, fold_left_app. simpl. by replace (k + (n - k))%nat with n by lia. }
  destruct (owed_spec S n Hf k Hk) as [[_ [_ Hp]] Hc].
  rewrite Ho, act_coalesce, act_D by (done || apply plain_D).
  rewrite <- (Hs (n + 1)%nat) by lia. unfold publish_latest. rewrite decide_False by lia.
  unfold settles. rewrite diff_self. cbn [run].
  rewrite (run_comb F); [exact Hg|apply Hf; lia..|apply Hy|apply Hc].
Qed.

Lemma inv_snap S n s next : snap_full next -> inflight s = None -> feed_inv S n s ->
  feed_inv (set_latest S n next) n
    (MkSys (hub s) (loop s) (Some next) (Some next) (clients s) (polls s)).
Proof.
  intros Hn Hi [H0 Hf Hp Hl Hin Hh Ha Hc Ho Hq]. rewrite Hi in Hin.
  set (S' := set_latest S n next).
  assert (He : forall j, (j <= n)%nat -> S j = S' j)
    by (intros; unfold S', set_latest; by rewrite decide_False by lia).
  assert (Hnew : S' (n + 1)%nat = next) by (unfold S', set_latest; by rewrite decide_True).
  assert (Hg : forall k y, (k <= n)%nat -> snap_within y -> caught S n k y -> caught S' n k y)
    by (intros; by apply caught_latest).
  split; simpl.
  - rewrite <- He by lia. done.
  - intros k Hk. destruct (decide (k = n + 1)%nat) as [->|]; [by rewrite Hnew|].
    rewrite <- He by lia. apply Hf. lia.
  - by rewrite <- He by lia.
  - done.
  - done.
  - destruct Hh as [? Hr ? Hcf ?]. split; try done; [by rewrite <- (ring_ext S) by done|].
    intros id. rewrite <- He by lia. apply Hcf.
  - done.
  - intros c cl Hcl. destruct (Hc c cl Hcl) as [H1 H2]. split; [by eapply chain_impl|].
    intros id Hid. destruct (H2 id Hid) as [Hci Hch Hop]. split; [done|by eapply chain_impl|].
    intros Hsub i. specialize (Hop Hsub i). rewrite <- He, Hnew by lia.
    unfold settles in Hop at 1. rewrite Hin, diff_self in Hop. cbn [run] in Hop. rewrite Hop.
    apply (diff_settles F); [apply Hf; lia|apply Hn].
  - done.
  - done.
Qed.

Lemma diff_empty (p q : Snapshot) : snap_full p -> snap_full q ->
  (Diff p q).1 = ∅ -> (Diff p q).2 = [] -> p = q.
Proof.
  intros Hp Hq H1 H2. apply map_eq. intros id.
  pose proof (diff_settles F _ _ (Hp id) (Hq id)) as Hs. unfold settles in Hs.
  rewrite <- (act_diff p q id 0) in Hs. unfold act_of, diff_delta, set_rid in Hs.
  cbn [Tasks TasksRemoved] in Hs.
  rewrite H1, H2, lookup_empty in Hs. by rewrite decide_False in Hs by apply not_elem_of_nil.
Qed.

Lemma publish_hub S n h : (forall k, (k <= n + 1)%nat -> snap_full (S k)) ->
  hub_inv S n h ->
  let S' := publish_latest S n in
  let d := D S n in
  let h' := MkHub (Append d (ring h)) (Z.of_nat n + 1) (subs h) (nextSub h) (chans h)
              (set_rid (Z.of_nat n + 1) (coalesceInto (pending h) d)) (lastSend h) (timer h) in
  hub_inv S' (n + 1) h' /\
  (forall x r id, conn_inv S n h x r id -> conn_inv S' (n + 1) h' x r id).
Proof.
  intros Hf [Hr Hring Hpl Hcf Hs]. cbn zeta. set (S' := publish_latest S n).
  assert (He : forall j, (j <= n + 1)%nat -> S j = S' j)
    by (intros; unfold S', publish_latest; by rewrite decide_True).
  assert (Hlast : S' (n + 1 + 1)%nat = S (n + 1)%nat)
    by (unfold S', publish_latest; by rewrite decide_False by lia).
  assert (Ha : forall id, act_of (coalesceInto (pending h) (D S n)) id =
    comb (act_of (pending h) id) (diff_act (S n !! id) (S (n + 1)%nat !! id))).
  { intros id. rewrite act_coalesce; [by rewrite act_D|apply Hpl|apply plain_D]. }
  split.
  - split; simpl; [lia| | | |done].
    + replace (D S' <$> seq 0 (n + 1)) with ((D S <$> seq 0 n) ++ [D S n]).
      * apply holds_append; [done|]. simpl. by rewrite length_fmap, length_seq.
      * rewrite seq_app, fmap_app. simpl. f_equal; [by apply ring_ext; intros; apply He; lia|].
        f_equal. apply (D_ext S S' (n + 1)); [done|lia].
    + by apply (plain_coalesce _ (D S n)); [|apply plain_D].
    + intros id. change (act_of (set_rid _ ?d) id) with (act_of d id). rewrite Ha, <- He by lia.
      apply (comb_conforms F); [apply Hf; lia..|apply Hcf].
  - intros x r id [Hid Hc Hop]. split; simpl; [done| |].
    + apply (chain_impl S n); [lia| |done]. intros. by apply caught_publish.
    + intros Hsub i. change (act_of (set_rid _ ?d) i) with (act_of d i).
      rewrite Ha, Hlast, <- He by lia. unfold settles. rewrite diff_self. simpl.
      rewrite (run_comb F); [by apply Hop|apply Hf; lia..|by apply (chain_end S n _ r x)|apply Hcf].
Qed.

Lemma inv_publish S n s now next : inflight s = Some next -> feed_inv S n s ->
  exists S' n', feed_inv S' n' (publish_next now next s).
Proof.
  intros Hi [H0 Hf Hp Hl Hin Hh Ha Hc Ho Hq]. rewrite Hi in Hin. destruct Hin as [Hnext Hlat].
  unfold publish_next, tick_delta. destruct (Diff _ _) as [changed removed] eqn:Hd.
  destruct (_ && _ && _) eqn:Hskip.
  - exists S, n. apply andb_true_iff in Hskip as [[Hch%bool_decide_eq_true
      Hrm%bool_decide_eq_true]%andb_true_iff _].
    assert (Heq : S n = next).
    { rewrite <- Hp. apply diff_empty.
      - rewrite Hp. apply Hf. lia.
      - rewrite <- Hnext. apply Hf. lia.
      - by rewrite Hd.
      - by rewrite Hd. }
    split; try done. simpl. congruence.
  - exists (publish_latest S n), (n + 1)%nat.
    assert (Hdd : MkDelta 0 false changed removed ∅ [] (Aggregate next) false = diff_delta (S n) (S (n + 1)%nat)).
    { unfold diff_delta. by rewrite <- Hp, Hnext, Hd. }
    unfold Publish. cbn [fst snd hub loop latest inflight clients polls d_stats]. rewrite Hdd, (hi_rid _ _ _ Hh).
    change (set_rid (Z.of_nat n + 1) (diff_delta (S n) (S (n + 1)%nat))) with (D S n).
    destruct (publish_hub S n (hub s) Hf Hh) as [Hh' Hconn]. set (h' := MkHub _ _ _ _ _ _ _ _) in *.
    assert (Hf' : forall k, (k <= n + 1 + 1)%nat -> snap_full (publish_latest S n k)).
    { intros k Hk. unfold publish_latest. destruct (decide _); apply Hf; lia. }
    destruct (arm_hub _ _ Hf' now h' Hh') as (Harm & Ha' & Hk); [simpl; lia|].
    split; try done.
    + simpl. unfold publish_latest. by rewrite decide_True by lia.
    + simpl. unfold publish_latest. rewrite decide_False by lia. done.
    + simpl. unfold publish_latest. by rewrite decide_False, decide_True by lia.
    + intros c cl Hcl. destruct (Hc c cl Hcl) as [H1 H2]. split.
      * apply (chain_impl S n); [lia| |done]. intros. by apply caught_publish.
      * intros id Hid. apply Hk, Hconn, H2, Hid.
    + intros c cur Hcur. specialize (Hq c cur Hcur). lia.
Qed.

Section Readers.
Context (S : nat -> Snapshot) (n : nat) (s : sys) (Hinv : feed_inv S n s).

Lemma inv_flush now : timer (hub s) = true -> feed_inv S n (set_hub (flush now (hub s)) s).
Proof.
  intros Ht. destruct Hinv as [H0 Hf Hp Hl Hin Hh Ha Hc Ho Hq].
  destruct (flush_hub S n Hf now _ Hh Ha Ht) as (Hh' & Ha' & Hk). split; try done.
  intros c cl Hcl. destruct (Hc c cl Hcl) as [H1 H2]. split; [done|]. intros id Hid. by apply Hk, H2.
Qed.

(** A reader changes, and the hub in a way the other readers do not notice. *)
Lemma inv_reader c cl h : hub_inv S n h -> armed n h -> client_inv S n h cl ->
  (forall c' cl' id, c' <> c -> clients s !! c' = Some cl' -> conn cl' = Some id ->
     conn cl <> Some id /\
     (conn_inv S n (hub s) (shown cl') (at_rid cl') id -> conn_inv S n h (shown cl') (at_rid cl') id)) ->
  feed_inv S n (set_client c cl (set_hub h s)).
Proof.
  intros Hh Ha Hcl Hother. destruct Hinv as [H0 Hf Hp Hl Hin _ _ Hc Ho Hq]. split; try done; simpl.
  - intros c' cl' [[<- <-]|[Hne Hc']]%lookup_insert_Some; [done|].
    destruct (Hc c' cl' Hc') as [H1 H2]. split; [done|]. intros id Hid.
    apply (Hother c' cl' id); [congruence|done|done|]. by apply H2.
  - intros c1 c2 cl1 cl2 id H1 H2 E1 E2.
    apply lookup_insert_Some in H1 as [[<- <-]|[Hn1 H1]];
      apply lookup_insert_Some in H2 as [[<- <-]|[Hn2 H2]]; [done| | |by eapply Ho].
    + by destruct (Hother c2 cl2 id ltac:(congruence) H2 E2) as [? _].
    + by destruct (Hother c1 cl1 id ltac:(congruence) H1 E1) as [? _].
Qed.

Lemma set_hub_same : set_hub (hub s) s = s.
Proof. by destruct s. Qed.

(** A reader without a channel. *)
Lemma inv_idle c x r : chain S n r x [] -> feed_inv S n (set_client c (MkClient x r None) s).
Proof.
  intros Hc. rewrite <- set_hub_same at 1. apply inv_reader; [apply Hinv|apply Hinv| |].
  - split; [done|]. intros id [=].
  - intros c' cl' id _ _ _. by split.
Qed.

Lemma inv_open c : feed_inv S n (set_client c (MkClient ∅ 0 None) s).
Proof.
  apply inv_idle. assert (Hw : snap_within ∅) by (intros id f; by rewrite lookup_empty).
  split; [|done]. split; [lia|]. split; [|done]. pose proof (fi_full _ _ _ Hinv) as Hf.
  apply good_caught; [done|lia| |done]. change (Z.to_nat 0) with O. intros id.
  replace ((∅ : Snapshot) !! id) with (S O !! id) by (by rewrite (fi_start _ _ _ Hinv)). apply (diff_settles F); apply Hf; lia.
Qed.

(** A poll goes on: the table of polls changes, and nothing else. *)
Lemma inv_polls m : (forall c cur, m !! c = Some (Cursor cur) -> 0 <= cur <= Z.of_nat n) ->
  feed_inv S n (set_polls m s).
Proof. intros Hm. by destruct Hinv. Qed.

(** A poll the ring answers. *)
Lemma inv_hit c x r d : clients s !! c = Some (MkClient x r None) ->
  Since r (ring (hub s)) = Some d ->
  feed_inv S n (set_client c (MkClient (applySync d x) (RID d) None) s).
Proof.
  intros Hcl Hd. destruct (fi_clients _ _ _ Hinv _ _ Hcl) as [[(Hr & Hg & Hw) _] _].
  destruct (snapshot_good S n (fi_full _ _ _ Hinv) (hub s) (latest s) r x) as (H1 & H2 & H3);
    [apply Hinv|apply Hinv|done..|].
  unfold HubSnapshot in *. rewrite Hd in *. apply inv_idle. split; [|done].
  rewrite H1, Nat2Z.id. split; [lia|]. split; [by apply caught_now|done].
Qed.

(** A poll that missed: the snapshot it reads last is at least as new as the
    number it read before. *)
Lemma inv_full c x r cur : clients s !! c = Some (MkClient x r None) ->
  polls s !! c = Some (Cursor cur) ->
  let d := full_answer cur (seedDelta (latest s)) in
  feed_inv S n (set_client c (MkClient (applySync d x) (RID d) None) s).
Proof.
  intros Hcl Hcur. destruct (fi_clients _ _ _ Hinv _ _ Hcl) as [[(Hr & Hg & Hw) _] _].
  pose proof (fi_polls _ _ _ Hinv _ _ Hcur) as Hle. pose proof (fi_full _ _ _ Hinv) as Hf.
  cbn zeta. rewrite (full_seed S n Hf) by (done || apply Hinv).
  apply inv_idle. split; [|done]. split; [done|]. cbn [RID full_answer].
  split; [apply newest_caught; [done|lia]|by apply (within_full S n)].
Qed.

Lemma chan_insert c (m : gmap Z chan) id id' :
  chan_at (<[id := c]> m) id' = if decide (id = id') then c else chan_at m id'.
Proof. unfold chan_at. destruct (decide _) as [->|]; [by rewrite lookup_insert_eq|by rewrite lookup_insert_ne]. Qed.

Lemma inv_subscribe c x r line : clients s !! c = Some (MkClient x r None) -> parseRID line = r ->
  let '(id, h) := Subscribe line (seedDelta (latest s)) (hub s) in
  feed_inv S n (set_client c (MkClient x r (Some id)) (set_hub h s)).
Proof.
  intros Hcl Hline. unfold Subscribe. rewrite Hline.
  destruct (fi_clients _ _ _ Hinv _ _ Hcl) as [[(Hr & Hg & Hw) _] _].
  pose proof (fi_hub _ _ _ Hinv) as Hh. pose proof (fi_full _ _ _ Hinv) as Hf.
  destruct (snapshot_good S n Hf (hub s) (latest s) r x) as (H1 & H2 & H3);
    [done|apply Hinv|done..|].
  set (d := HubSnapshot _ _ _) in *. pose proof (hi_subs _ _ _ Hh) as [Hnd Hle].
  apply inv_reader.
  - destruct Hh. split; try done. simpl. split.
    + apply list.NoDup_cons. split; [|done]. intros Hin%Hle. lia.
    + intros id [->|Hin]%elem_of_cons; [lia|]. apply Hle in Hin. lia.
  - apply Hinv.
  - split; [split; [|done]; done|]. simpl. intros id [= <-]. split; simpl; [lia| |].
    + rewrite chan_insert, decide_True by done. simpl. split; [done|]. split; [|done].
      rewrite H1, Nat2Z.id. split; [lia|]. split; [by apply caught_now|done].
    + intros _ i. rewrite chan_insert, decide_True by done. simpl. rewrite ?H1.
      apply (settles_absorb F); [apply Hf; lia..|apply H3|apply Hh|apply H2].
  - intros c' cl' id _ Hcl' Hconn. destruct (fi_clients _ _ _ Hinv _ _ Hcl') as [_ Hci].
    pose proof (ci_id _ _ _ _ _ _ (Hci id Hconn)) as Hid. split; [simpl; injection; lia|].
    intros [_ Hch Hop]. split; simpl; [lia| |]; rewrite chan_insert, decide_False by lia; [done|].
    intros [->|Hin]%elem_of_cons; [lia|]. by apply Hop.
Qed.

Lemma inv_recv c cl id s' : clients s !! c = Some cl -> conn cl = Some id ->
  recv c cl id s = Some s' -> feed_inv S n s'.
Proof.
  intros Hcl Hconn. unfold recv. destruct (fi_clients _ _ _ Hinv _ _ Hcl) as [_ Hci].
  destruct (Hci id Hconn) as [Hid Hch Hop].
  destruct (queue (chan_at (chans (hub s)) id)) as [|d q] eqn:Hq; [done|]. intros [= <-].
  destruct Hch as [_ Hch]. apply inv_reader.
  - destruct (fi_hub _ _ _ Hinv). by split.
  - apply Hinv.
  - assert (Hd : chain S n (RID d) (applySync d (shown cl)) []) by (destruct q; split; [apply Hch|done..|apply Hch|done]).
    split; [done|]. simpl. rewrite Hconn. intros id' [= <-].
    split; simpl; rewrite ?chan_insert, ?decide_True by done; done.
  - intros c' cl' id' Hne Hcl' Hconn'.
    assert (Hid' : id' <> id).
    { intros ->. apply Hne. by eapply (fi_own _ _ _ Hinv). }
    split; [simpl; congruence|]. intros [? ? ?].
    split; simpl; rewrite ?chan_insert, ?decide_False by congruence; done.
Qed.

Lemma remove_spec id h : hub_inv S n h -> armed n h ->
  hub_inv S n (remove id h) /\ armed n (remove id h) /\
  forall x r id', conn_inv S n h x r id' -> conn_inv S n (remove id h) x r id'.
Proof.
  intros Hh Ha. unfold remove. destruct (contains (subs h) id) eqn:Hc; [|done].
  split; [|split; [done|]].
  - destruct Hh as [? ? ? ? [Hnd Hle]]. split; try done. simpl. split.
    + clear -Hnd. induction (subs h) as [|i l IH]; simpl; [constructor|].
      apply list.NoDup_cons in Hnd as [Hi Hnd]. destruct (negb _); [|by apply IH].
      apply list.NoDup_cons. split; [|by apply IH]. by intros [_ ?]%elem_of_filter_bool.
    + intros j [_ Hj]%elem_of_filter_bool. by apply Hle.
  - intros x r id' [? Hch Hop]. split; simpl; [done| |]; rewrite chan_insert;
      destruct (decide (id = id')) as [<-|]; try done.
    + intros [Hn _]%elem_of_filter_bool. by rewrite Z.eqb_refl in Hn.
    + intros [_ Hin]%elem_of_filter_bool. by apply Hop.
Qed.

Lemma inv_drop c x r id : clients s !! c = Some (MkClient x r (Some id)) ->
  feed_inv S n (set_client c (MkClient x r None) (set_hub (remove id (hub s)) s)).
Proof.
  intros Hcl. destruct (fi_clients _ _ _ Hinv _ _ Hcl) as [Hch _].
  destruct (remove_spec id (hub s)) as (Hh & Ha & Hk); [apply Hinv..|].
  apply inv_reader; [done|done| |].
  - split; [done|]. intros id' [=].
  - intros c' cl' id' _ _ _. split; [done|]. apply Hk.
Qed.
End Readers.

(** Every snapshot an event brings carries the projection's members. *)
Definition event_ok (ev : event) : Prop :=
  match ev with EvSnap next => snap_full next | _ => True end.

Lemma feed_inv_init : feed_inv (fun _ => ∅) 0 init.
Proof.
  assert (Hh : hub_inv (fun _ => ∅) 0 NewHub).
  { split; try done. split; [constructor|]. by intros id ?%elem_of_nil. }
  by split.
Qed.

Lemma inv_fire ev S n s s' : event_ok ev -> feed_inv S n s -> fire ev s = Some s' ->
  exists S' n', feed_inv S' n' s'.
Proof.
  intros Hok Hinv Hf. destruct ev as [next|now|now|c|c line|c|c|c|c|c|c]; simpl in Hf.
  - destruct (inflight s) eqn:Hi; [done|]. simplify_eq. eexists _, n. by apply inv_snap.
  - destruct (inflight s) as [next|] eqn:Hi; [|done]. simplify_eq. by eapply inv_publish.
  - destruct (timer (hub s)) eqn:Ht; [|done]. simplify_eq. exists S, n. by apply inv_flush.
  - destruct (clients s !! c); [done|]. simplify_eq. exists S, n. by apply inv_open.
  - destruct (clients s !! c) as [[x r []]|] eqn:Hc; try done. destruct (polls s !! c); [done|].
    destruct (parseRID line =? r) eqn:Hl; [|done]. exists S, n.
    pose proof (inv_subscribe S n s Hinv c x r line Hc (proj1 (Z.eqb_eq _ _) Hl)) as Hs.
    unfold Subscribe in Hs. by simplify_eq.
  - destruct (clients s !! c) as [cl|] eqn:Hc; [|done]. destruct (conn cl) as [id|] eqn:Hid; [|done].
    exists S, n. by eapply inv_recv.
  - destruct (clients s !! c) as [[x r [id|]]|] eqn:Hc; try done.
    destruct (chan_at _ _) as [[|] []]; simplify_eq. exists S, n.
    apply inv_idle; [done|]. apply (fi_clients _ _ _ Hinv _ _ Hc).
  - destruct (clients s !! c) as [[x r [id|]]|] eqn:Hc; simplify_eq; exists S, n; [by apply inv_drop|].
    apply inv_polls; [done|]. intros c' cur [_ H]%lookup_delete_Some. by apply (fi_polls _ _ _ Hinv c').
  - destruct (clients s !! c) as [[x r []]|] eqn:Hc; try done. destruct (polls s !! c); [done|].
    exists S, n. destruct (Since r (ring (hub s))) as [d|] eqn:Hd; simplify_eq; [by apply (inv_hit S n s Hinv c x r)|].
    apply inv_polls; [done|]. intros c' cur [[_ [=]]|[_ H]]%lookup_insert_Some.
    by apply (fi_polls _ _ _ Hinv c').
  - destruct (polls s !! c) as [[]|] eqn:Hp; simplify_eq. exists S, n. apply inv_polls; [done|].
    intros c' cur [[_ [= <-]]|[_ H]]%lookup_insert_Some; [|by apply (fi_polls _ _ _ Hinv c')].
    rewrite (hi_rid _ _ _ (fi_hub _ _ _ Hinv)). lia.
  - destruct (clients s !! c) as [[x r []]|] eqn:Hc; try done.
    destruct (polls s !! c) as [[|cur]|] eqn:Hp; simplify_eq. exists S, n.
    refine (inv_polls S n _ (inv_full S n s Hinv c x r cur Hc Hp) (delete c (polls s)) _).
    intros c' cur' [_ H]%lookup_delete_Some. by apply (fi_polls _ _ _ Hinv c').
Qed.

Lemma inv_fire_all evs s' : Forall event_ok evs -> fire_all evs init = Some s' ->
  exists S n, feed_inv S n s'.
Proof.
  assert (H : forall S n s, feed_inv S n s -> Forall event_ok evs -> fire_all evs s = Some s' ->
    exists S n, feed_inv S n s').
  { induction evs as [|ev evs IH]; intros S n s Hi Hok Hf; simpl in Hf; [simplify_eq; eauto|].
    apply list.Forall_cons in Hok as [Hev Hok]. apply bind_Some in Hf as (s1 & H1 & H2).
    destruct (inv_fire ev S n s s1 Hev Hi H1) as (S' & n' & Hi'). by eapply IH. }
  intros. by eapply H; [apply feed_inv_init|..].
Qed.
End Invariant.
