(* ===== verification/FeedTheorems.v ===== *)
(** * What the feed promises its readers *)

From stdpp Require Import fin_maps sorting pretty.
From S2P Require Import Prelude GoStrings Feed FeedProps FeedSystem.

Open Scope Z_scope.

(** A diff is exact: applied by the web client to the old snapshot it yields
    the new one - changed members only, removals and arrivals included. *)
Theorem Diff_roundtrip (F : gset string) (p q : Snapshot) :
  snap_full F p -> snap_full F q -> applySync (diff_delta p q) p = q.
Proof.
  intros Hp Hq. apply map_eq. intros id.
  rewrite (apply_plain _ _ _ (plain_diff p q 0)), (act_diff p q id 0).
  by apply (diff_settles F).
Qed.

(** One task in a state, and another. *)
Definition row (st : string) : fields := {["state"%string := SString st]}.
Definition demo_fields : gset string := {["state"%string]}.
Definition demo_1 : Snapshot := {["a"%string := row "queued"]}.
Definition demo_2 : Snapshot := <["a"%string := row "downloading"]> {["b"%string := row "queued"]}.

Lemma rows_full (x : Snapshot) : map_Forall (fun _ f => dom f = demo_fields) x -> snap_full demo_fields x.
Proof. intros H id f Hf. by apply (H id f). Qed.

Lemma demo_full : snap_full demo_fields demo_1 /\ snap_full demo_fields demo_2.
Proof. split; apply rows_full; by apply (bool_decide_unpack _); vm_compute. Qed.

Lemma Diff_roundtrip_witness : applySync (diff_delta demo_1 demo_2) demo_1 = demo_2.
Proof. apply (Diff_roundtrip demo_fields); apply demo_full. Defined.

Section Promises.
Context (F : gset string) (evs : list event) (s : sys).
Context (Hok : Forall (event_ok F) evs) (Hrun : fire_all evs init = Some s).

Lemma settled S n x : feed_inv F S n s -> inflight s = None ->
  (forall i, settles (S n !! i) (S (n + 1)%nat !! i) (x !! i)) -> x = default ∅ (latest s).
Proof.
  intros Hinv Hi Hx. pose proof (fi_inflight _ _ _ _ Hinv) as Hin. rewrite Hi in Hin.
  rewrite (fi_latest _ _ _ _ Hinv), Hin. apply map_eq. intros i. specialize (Hx i).
  unfold settles in Hx. by rewrite Hin, diff_self in Hx.
Qed.

(** C11: However publishes, window flushes, subscriptions, slow readers, evictions,
    drops and the reads of polls interleave, a reader that stays subscribed loses nothing:
    what it shows, once it has read its channel and the open window, is the
    newest snapshot; and with no window open and nothing left to read it shows
    it already. *)
Theorem live_reader_converges c cl id :
  clients s !! c = Some cl -> conn cl = Some id -> id ∈ subs (hub s) -> inflight s = None ->
  drained cl id s = default ∅ (latest s) /\
  (timer (hub s) = false -> queue (chan_at (chans (hub s)) id) = [] ->
   shown cl = default ∅ (latest s)).
Proof.
  intros Hcl Hconn Hsub Hi. destruct (inv_fire_all F evs s Hok Hrun) as (S & n & Hinv).
  destruct (fi_clients _ _ _ _ Hinv _ _ Hcl) as [_ Hci].
  pose proof (ci_open _ _ _ _ _ _ _ (Hci id Hconn) Hsub) as Hopen.
  pose proof (fi_hub _ _ _ _ Hinv) as Hh. split.
  - apply (settled S n); [done|done|]. intros i. unfold drained.
    rewrite apply_plain by apply plain_finalize, Hh. rewrite act_finalize. apply Hopen.
  - intros Ht Hq. pose proof (fi_armed _ _ _ _ Hinv) as Ha. unfold armed in Ha. rewrite Ht in Ha.
    apply (settled S n); [done|done|]. intros i. specialize (Hopen i). by rewrite Hq, Ha in Hopen.
Qed.

(** C17: Resuming is lossless within one process: whatever position a reader of
    this process stopped at - evicted with unread deltas, dropped inside a
    window, answered by a poll whose three reads had publishes between them, or
    never connected - the hub's answer to that position, a coalesced diff or a
    full seed, turns what it shows into the newest snapshot. *)
Theorem resume_is_lossless c cl :
  clients s !! c = Some cl -> inflight s = None ->
  applySync (HubSnapshot (at_rid cl) (seedDelta (latest s)) (hub s)) (shown cl) =
    default ∅ (latest s).
Proof.
  intros Hcl Hi. destruct (inv_fire_all F evs s Hok Hrun) as (S & n & Hinv).
  destruct (fi_clients _ _ _ _ Hinv _ _ Hcl) as [[(Hr & Hg & Hw) _] _].
  destruct (snapshot_good F S n (fi_full _ _ _ _ Hinv) (hub s) (latest s) (at_rid cl) (shown cl))
    as (_ & H & _); [apply Hinv|apply Hinv|done..|].
  by apply (settled S n).
Qed.
End Promises.

(** A reader subscribes before the first publish and takes only its seed; the
    second snapshot is published inside the open window. *)
Definition demo_evs : list event :=
  [EvOpen 0; EvSubscribe 0 EmptyString; EvSnap demo_1; EvPublish 0; EvRecv 0; EvSnap demo_2; EvPublish 5].
Definition demo_run : sys := default init (fire_all demo_evs init).

Lemma demo_ok : Forall (event_ok demo_fields) demo_evs.
Proof. repeat constructor; apply demo_full. Qed.

Lemma demo_fires : fire_all demo_evs init = Some demo_run.
Proof. by vm_compute. Qed.

Lemma live_reader_converges_witness :
  shown <$> clients demo_run !! 0%nat = Some ∅ /\
  drained (MkClient ∅ 0 (Some 1)) 1 demo_run = default ∅ (latest demo_run) /\
  latest demo_run = Some demo_2.
Proof.
  assert (Hc : clients demo_run !! 0%nat = Some (MkClient ∅ 0 (Some 1))) by by vm_compute.
  assert (Hs : 1 ∈ subs (hub demo_run)) by (apply contains_spec; by vm_compute).
  assert (Hi : inflight demo_run = None) by by vm_compute.
  split; [by rewrite Hc|]. split; [|by vm_compute].
  exact (proj1 (live_reader_converges demo_fields demo_evs demo_run demo_ok demo_fires 0%nat
    (MkClient ∅ 0 (Some 1)) 1 Hc eq_refl Hs Hi)).
Defined.

(** A poll reads the number 1 and, after another publish, the snapshot of 2:
    the deltas it will be given next are ones it already shows. *)
Definition race_evs : list event :=
  [EvOpen 0; EvPoll 0; EvSnap demo_1; EvPublish 0; EvCursor 0; EvSnap demo_2; EvPublish 5; EvFull 0].
Definition race_run : sys := default init (fire_all race_evs init).

Lemma race_ok : Forall (event_ok demo_fields) race_evs.
Proof. repeat constructor; apply demo_full. Qed.

Lemma race_fires : fire_all race_evs init = Some race_run.
Proof. by vm_compute. Qed.

Lemma resume_is_lossless_witness :
  Since 1 (ring (hub race_run)) <> None /\
  applySync (HubSnapshot 1 (seedDelta (latest race_run)) (hub race_run)) demo_2 = demo_2.
Proof.
  assert (Hc : clients race_run !! 0%nat = Some (MkClient demo_2 1 None)) by by vm_compute.
  assert (Hi : inflight race_run = None) by by vm_compute.
  assert (Hl : default ∅ (latest race_run) = demo_2) by by vm_compute.
  split; [by vm_compute|]. rewrite <- Hl at 2.
  exact (resume_is_lossless demo_fields race_evs race_run race_ok race_fires 0%nat
    (MkClient demo_2 1 None) Hc Hi).
Defined.

(** ** A restarted server *)

Definition before_restart : list event :=
  [EvSnap demo_1; EvPublish 0; EvOpen 0; EvPoll 0; EvCursor 0; EvFull 0].
Definition after_restart : list event :=
  [EvSnap {["b"%string := row "queued"]}; EvPublish 0;
   EvSnap {["b"%string := row "paused"]}; EvPublish 0].

Definition old_run : sys := default init (fire_all before_restart init).
Definition new_run : sys := default init (fire_all after_restart init).

(** The ring and the numbers start over with the process.  A reader of the old
    process that comes back once the new one has published as many deltas is
    answered from the new ring as if it had seen those deltas: no gap is
    signalled, and it keeps a task that no longer exists. *)
Theorem restart_is_not_noticed :
  exists cl, fire_all before_restart init = Some old_run /\ clients old_run !! 0%nat = Some cl /\
    fire_all after_restart init = Some new_run /\
    let d := HubSnapshot (at_rid cl) (seedDelta (latest new_run)) (hub new_run) in
    SeqGap d = false /\ FullUpdate d = false /\
    applySync d (shown cl) !! "a"%string = Some (row "queued") /\
    default ∅ (latest new_run) !! "a"%string = None.
Proof. exists (MkClient demo_1 1 None). by vm_compute. Qed.

(** ** The position header *)

(** The number a message is framed with comes back from the reconnecting
    browser as the same position. *)
Theorem id_line_roundtrip n : 0 <= n < 2 ^ 63 -> parseRID (id_line n) = n.
Proof.
  intros Hn. unfold id_line. destruct (n =? 0) eqn:H0; [apply Z.eqb_eq in H0; by subst|].
  unfold parseRID. destruct (decimal_reads n Hn) as (Hd & Hne & Hp). rewrite TrimSpace_digits by done.
  destruct (bytes_of (pretty n)) as [|b l]; [done|]. rewrite Hp. destruct (_ <? 0) eqn:?; lia.
Qed.

Lemma id_line_roundtrip_witness : parseRID (id_line 4711) = 4711.
Proof. apply id_line_roundtrip. lia. Defined.
