(* ===== verification/Queue.v ===== *)
(** * The download queue ([ReorderQueue] of [internal/store/tasks.go])

    The four queue moves as the code computes them - stable partitions, and
    in-place swaps over a slice - and the transaction that renumbers the queue
    densely from 1. *)

From stdpp Require Import fin_maps sorting.
From S2P Require Import Prelude TaskState Schema Lease World Store Engine Scenario.

(** [QueueMove]. *)
Inductive QueueMove := QueueMoveTop | QueueMoveUp | QueueMoveDown | QueueMoveBottom.

(** [stablePartition]: [head] and [tail] grow as the loop runs. *)
Definition stablePartition (order : list string) (keep : string -> bool) : list string :=
  let '(head, tail) := fold_left (fun acc id =>
    let '(head, tail) := acc in
    if keep id then (head ++ [id], tail) else (head, tail ++ [id])) order ([], []) in
  head ++ tail.

(** One iteration of the [QueueMoveUp] loop. *)
Definition up_step (selected : string -> bool) (next : list string) (i : nat) : list string :=
  match next !! (i - 1), next !! i with
  | Some a, Some b =>
    if selected b && negb (selected a) then <[i := a]> (<[i - 1 := b]> next) else next
  | _, _ => next
  end.

(** One iteration of the [QueueMoveDown] loop. *)
Definition down_step (selected : string -> bool) (next : list string) (i : nat) : list string :=
  match next !! i, next !! (i + 1) with
  | Some a, Some b =>
    if selected a && negb (selected b) then <[i + 1 := a]> (<[i := b]> next) else next
  | _, _ => next
  end.

(** [reorderQueueMembers]. *)
Definition reorderQueueMembers (order : list string) (selected : string -> bool) (move : QueueMove) :
    list string :=
  match move with
  | QueueMoveTop => stablePartition order selected
  | QueueMoveBottom => stablePartition order (fun id => negb (selected id))
  | QueueMoveUp => fold_left (up_step selected) (seq 1 (length order - 1)) order
  | QueueMoveDown => fold_left (down_step selected) (reverse (seq 0 (length order - 1))) order
  end.

(** [ORDER BY queue_position, id]. *)
Definition queue_le (p q : Z * string) : Prop :=
  (p.1 < q.1)%Z \/ (p.1 = q.1 /\ String.leb p.2 q.2 = true).

#[global] Instance queue_le_dec p q : Decision (queue_le p q).
Proof. unfold queue_le. apply _. Defined.

Definition queued_at (p : string * task) : option (Z * string) :=
  (fun n => (n, p.1)) <$> t_queue_position p.2.

Definition queryQueueMembers (d : db) : list string :=
  snd <$> merge_sort queue_le (omap queued_at (map_to_list (d_tasks d))).

Section Reorder.
Context {E : Type}.

(** The renumbering loop. *)
Fixpoint write_positions (position : Z) (now : Z) (order : list string) : M E unit :=
  match order with
  | [] => mret tt
  | id :: order =>
    exec (querySetQueuePosition (position + 1) now id) ;;
    write_positions (position + 1) now order
  end.

(** [ReorderQueue]: the requested ids that are not in the queue. *)
Definition ReorderQueue (ids : list string) (move : QueueMove) : M E (list string) :=
  with_tx (
    order ← query queryQueueMembers;
    now ← unix_milli;
    write_positions 0 now (reorderQueueMembers order (contains ids) move) ;;
    commit ;;
    mret (List.filter (fun id => negb (contains order id)) ids)).
End Reorder.

(** ** The moves *)

(** [next] is [order] with neither group reordered. *)
Definition shuffled (selected : string -> bool) (order next : list string) : Prop :=
  next ≡ₚ order /\
  List.filter selected next = List.filter selected order /\
  List.filter (fun id => negb (selected id)) next =
    List.filter (fun id => negb (selected id)) order.

Section Moves.
Context (selected : string -> bool).

Lemma shuffled_refl l : shuffled selected l l.
Proof. done. Qed.

Lemma shuffled_trans a b c : shuffled selected a b -> shuffled selected b c -> shuffled selected a c.
Proof. intros (P & F & G) (P' & F' & G'). split; [by etransitivity|]. split; congruence. Qed.

Lemma partition_spec l keep : stablePartition l keep =
  List.filter keep l ++ List.filter (fun id => negb (keep id)) l.
Proof.
  unfold stablePartition.
  assert (H : forall h t, fold_left (fun acc id =>
      let '(head, tail) := acc in
      if keep id then (head ++ [id], tail) else (head, tail ++ [id])) l (h, t) =
    (h ++ List.filter keep l, t ++ List.filter (fun id => negb (keep id)) l)).
  { induction l as [|a l IH]; intros h t; simpl; [by rewrite !app_nil_r|].
    destruct (keep a); simpl; rewrite IH, <- app_assoc; done. }
  by rewrite H.
Qed.

Lemma filter_filter_same (f : string -> bool) l : List.filter f (List.filter f l) = List.filter f l.
Proof. induction l as [|a l IH]; simpl; [done|]. destruct (f a) eqn:Ha; simpl; [rewrite Ha|]; congruence. Qed.

Lemma filter_filter_not (f : string -> bool) l :
  List.filter f (List.filter (fun x => negb (f x)) l) = [] /\
  List.filter (fun x => negb (f x)) (List.filter f l) = [].
Proof.
  induction l as [|a l [IH1 IH2]]; simpl; [done|].
  destruct (f a) eqn:Ha; simpl; rewrite ?Ha; simpl; done.
Qed.

Lemma filter_perm (f : string -> bool) l :
  List.filter f l ++ List.filter (fun x => negb (f x)) l ≡ₚ l.
Proof.
  induction l as [|a l IH]; simpl; [done|]. destruct (f a); simpl; [by rewrite IH|].
  rewrite <- Permutation_middle. by rewrite IH.
Qed.

(** Swapping neighbours of different groups. *)
Lemma swap_shuffled l1 a b l2 : selected a <> selected b ->
  shuffled selected (l1 ++ a :: b :: l2) (l1 ++ b :: a :: l2).
Proof.
  intros Hne. split; [by rewrite (perm_swap a b)|]. rewrite !filter_app. simpl.
  destruct (selected a), (selected b); simpl; done.
Qed.

Lemma step_split (l : list string) i a b : l !! i = Some a -> l !! S i = Some b ->
  exists l1 l2, l = l1 ++ a :: b :: l2 /\ length l1 = i.
Proof.
  intros Ha Hb. exists (take i l), (drop (S (S i)) l). split.
  - rewrite <- (take_drop i l) at 1. f_equal. rewrite (drop_S _ _ _ Ha). f_equal. by apply drop_S.
  - rewrite length_take. apply lookup_lt_Some in Ha. lia.
Qed.

Lemma swap_at l1 (a b : string) l2 :
  <[S (length l1) := a]> (<[length l1 := b]> (l1 ++ a :: b :: l2)) = l1 ++ b :: a :: l2.
Proof. induction l1 as [|x l1 IH]; simpl; [done|]. by rewrite IH. Qed.

Lemma up_shuffled l i : 0 < i -> shuffled selected l (up_step selected l i).
Proof.
  intros Hi. unfold up_step. destruct (l !! (i - 1)) as [a|] eqn:Ha; [|done].
  destruct (l !! i) as [b|] eqn:Hb; [|done]. destruct (_ && _) eqn:Hs; [|done].
  apply andb_true_iff in Hs as [Hb' Ha'%negb_true_iff].
  destruct i as [|i]; [lia|]. simpl in *. rewrite Nat.sub_0_r in *.
  destruct (step_split l i a b Ha Hb) as (l1 & l2 & -> & <-). rewrite swap_at.
  apply swap_shuffled. congruence.
Qed.

Lemma down_shuffled l i : shuffled selected l (down_step selected l i).
Proof.
  unfold down_step. destruct (l !! i) as [a|] eqn:Ha; [|done].
  destruct (l !! (i + 1)) as [b|] eqn:Hb; [|done]. destruct (_ && _) eqn:Hs; [|done].
  apply andb_true_iff in Hs as [Ha' Hb'%negb_true_iff]. rewrite Nat.add_1_r in *.
  destruct (step_split l i a b Ha Hb) as (l1 & l2 & -> & <-). rewrite swap_at.
  apply swap_shuffled. congruence.
Qed.

Lemma fold_shuffled (step : list string -> nat -> list string) js l : (forall l i, i ∈ js -> shuffled selected l (step l i)) ->
  shuffled selected l (fold_left step js l).
Proof.
  revert l. induction js as [|i js IH]; intros l Hs; simpl; [done|].
  eapply shuffled_trans; [apply Hs; by left|]. apply IH. intros. apply Hs. by right.
Qed.

Lemma reorder_shuffled order move : shuffled selected order (reorderQueueMembers order selected move).
Proof.
  destruct move; simpl.
  - rewrite partition_spec. split; [apply filter_perm|]. rewrite !filter_app.
    destruct (filter_filter_not selected order) as [-> ->].
    rewrite filter_filter_same, (filter_filter_same (fun id => negb (selected id))).
    by rewrite app_nil_r.
  - apply fold_shuffled. intros l i [H _]%elem_of_seq. apply up_shuffled. lia.
  - apply fold_shuffled. intros l i _. apply down_shuffled.
  - rewrite partition_spec. set (ns := fun id => negb (selected id)).
    assert (Hn : forall l, List.filter (fun id => negb (ns id)) l = List.filter selected l).
    { intros l. apply filter_ext. intros a. unfold ns. by rewrite negb_involutive. }
    rewrite Hn. split.
    { rewrite (Permutation_app_comm _ _). apply filter_perm. }
    rewrite !filter_app. destruct (filter_filter_not selected order) as [E1 E2].
    fold ns in E1, E2. fold ns. rewrite E1, E2, filter_filter_same, (filter_filter_same ns). by rewrite app_nil_r.
Qed.
End Moves.

(** ** One slot at a time *)

Section Bubble.
Context (selected : string -> bool).

(** One pass over [l] with [a] in hand. *)
Fixpoint bubble (a : string) (l : list string) : list string :=
  match l with
  | [] => [a]
  | b :: l => if selected b && negb (selected a) then b :: bubble a l else a :: bubble b l
  end.

Lemma up_bubble pre a l :
  fold_left (up_step selected) (seq (S (length pre)) (length l)) (pre ++ a :: l) = pre ++ bubble a l.
Proof.
  revert pre a. induction l as [|b l IH]; intros pre a; [done|].
  cbn [length seq fold_left bubble].
  assert (Hstep : up_step selected (pre ++ a :: b :: l) (S (length pre)) =
    if selected b && negb (selected a) then pre ++ b :: a :: l else pre ++ a :: b :: l).
  { unfold up_step. simpl. rewrite Nat.sub_0_r, list_lookup_middle by done.
    rewrite (lookup_app_r pre) by lia. rewrite Nat.sub_succ_l, Nat.sub_diag by lia. simpl.
    destruct (_ && _); [|done]. apply swap_at. }
  assert (Hmid : forall (x : string) (m : list string), pre ++ x :: m = (pre ++ [x]) ++ m)
    by (intros; by rewrite <- app_assoc).
  assert (Hlen : forall x : string, S (S (length pre)) = S (length (pre ++ [x])))
    by (intros; rewrite length_app; simpl; lia).
  rewrite Hstep. destruct (_ && _).
  - rewrite (Hmid b (a :: l)), (Hlen b), IH. by rewrite <- app_assoc.
  - rewrite (Hmid a (b :: l)), (Hlen a), IH. by rewrite <- app_assoc.
Qed.

Lemma down_bubble l a post :
  fold_left (down_step selected) (reverse (seq 0 (length l))) (l ++ a :: post) =
    reverse (bubble a (reverse l)) ++ post.
Proof.
  revert a post. induction l as [|b l IH] using rev_ind; intros a post; [done|].
  rewrite length_app. cbn [length]. rewrite seq_app, reverse_app. cbn [seq reverse app fold_left].
  rewrite reverse_app. simpl.
  assert (Hstep : down_step selected ((l ++ [b]) ++ a :: post) (length l) =
    if selected b && negb (selected a) then l ++ a :: b :: post else l ++ b :: a :: post).
  { rewrite <- app_assoc. simpl. unfold down_step. rewrite list_lookup_middle by done.
    rewrite (lookup_app_r l) by lia. replace (length l + 1 - length l) with 1 by lia. simpl.
    rewrite Nat.add_1_r. destruct (_ && _); [|done]. apply swap_at. }
  rewrite Hstep. destruct (_ && _); rewrite IH, reverse_cons, <- app_assoc; done.
Qed.

Lemma bubble_run u r l : selected u = false -> Forall (fun x => selected x = true) r ->
  bubble u (r ++ l) = r ++ bubble u l.
Proof.
  intros Hu. induction r as [|x r IH]; intros Hr; simpl; [done|].
  apply list.Forall_cons in Hr as [Hx Hr]. rewrite Hx, Hu. simpl. f_equal. by apply IH.
Qed.

(** A block of the queue: an unselected task and the selected run behind it. *)
Definition block_ok (b : string * list string) : Prop :=
  selected b.1 = false /\ Forall (fun x => selected x = true) b.2.
Definition before_up (bs : list (string * list string)) : list string :=
  flat_map (fun b => b.1 :: b.2) bs.
Definition after_up (bs : list (string * list string)) : list string :=
  flat_map (fun b => b.2 ++ [b.1]) bs.

Lemma bubble_blocks u r bs : block_ok (u, r) -> Forall block_ok bs ->
  bubble u (r ++ before_up bs) = after_up ((u, r) :: bs).
Proof.
  revert u r. induction bs as [|[u' r'] bs IH]; intros u r [Hu Hr] Hbs; simpl in *.
  - rewrite bubble_run by done. by rewrite app_nil_r.
  - apply list.Forall_cons in Hbs as [[Hu' Hr'] Hbs]. rewrite bubble_run by done. simpl in *.
    rewrite Hu'. simpl. rewrite (IH u' r') by done. simpl. by rewrite <- !app_assoc.
Qed.

Definition move_up (l : list string) : list string :=
  match l with [] => [] | a :: l => bubble a l end.

Lemma up_exact order : reorderQueueMembers order selected QueueMoveUp = move_up order.
Proof.
  destruct order as [|a l]; [done|]. simpl. rewrite Nat.sub_0_r. apply (up_bubble []).
Qed.

Lemma down_exact order :
  reorderQueueMembers order selected QueueMoveDown = reverse (move_up (reverse order)).
Proof.
  destruct order as [|b order _] using rev_ind; [done|].
  rewrite reverse_app. simpl. rewrite length_app, Nat.add_sub. rewrite down_bubble.
  by rewrite app_nil_r.
Qed.

Lemma move_up_prefix p l : Forall (fun x => selected x = true) p -> move_up (p ++ l) = p ++ move_up l.
Proof.
  induction p as [|a p IH]; intros Hp; [done|]. apply list.Forall_cons in Hp as [Ha Hp].
  simpl. rewrite <- IH by done. destruct (p ++ l) as [|b l']; [done|].
  cbn [bubble move_up]. by rewrite Ha, andb_false_r.
Qed.

Lemma move_up_blocks p bs : Forall (fun x => selected x = true) p -> Forall block_ok bs ->
  move_up (p ++ before_up bs) = p ++ after_up bs.
Proof.
  intros Hp Hbs. rewrite move_up_prefix by done. destruct bs as [|[u r] bs]; [done|].
  apply list.Forall_cons in Hbs as [Hb Hbs]. f_equal. by apply bubble_blocks.
Qed.
End Bubble.

(** Every move is a permutation that keeps the order inside the moved and the
    unmoved group.  Top and bottom bring the moved group to that end; up lets
    every unmoved task fall behind the run of moved tasks that follows it - a
    run advances one slot as a block, and a run already at the front stays -
    and down is its mirror image. *)
Theorem reorder_moves (selected : string -> bool) (order : list string) :
  (forall move, shuffled selected order (reorderQueueMembers order selected move)) /\
  reorderQueueMembers order selected QueueMoveTop =
    List.filter selected order ++ List.filter (fun id => negb (selected id)) order /\
  reorderQueueMembers order selected QueueMoveBottom =
    List.filter (fun id => negb (selected id)) order ++ List.filter selected order /\
  (forall p bs, Forall (fun x => selected x = true) p -> Forall (block_ok selected) bs ->
     order = p ++ before_up bs ->
     reorderQueueMembers order selected QueueMoveUp = p ++ after_up bs) /\
  reorderQueueMembers order selected QueueMoveDown =
    reverse (reorderQueueMembers (reverse order) selected QueueMoveUp).
Proof.
  split; [apply reorder_shuffled|]. split; [apply partition_spec|]. split; [|split].
  - simpl. rewrite partition_spec. f_equal. apply filter_ext. intros a. by rewrite negb_involutive.
  - intros p bs Hp Hbs ->. rewrite up_exact. by apply move_up_blocks.
  - by rewrite down_exact, up_exact.
Qed.

(** The run b, c passes a; d stays at the front. *)
Lemma reorder_moves_witness :
  reorderQueueMembers ["d"; "a"; "b"; "c"] (contains ["b"; "c"; "d"]) QueueMoveUp
    = ["d"; "b"; "c"; "a"]%string.
Proof.
  apply (reorder_moves (contains ["b"; "c"; "d"]%string) ["d"; "a"; "b"; "c"]%string)
    with (p := ["d"%string]) (bs := [("a", ["b"; "c"])]%string); [|repeat constructor|done].
  by repeat constructor.
Defined.

(** ** The transaction *)

(** The rows after numbering [order] from [position + 1]. *)
Fixpoint numbered_rows (position now : Z) (order : list string) (m : gmap string task) :
    gmap string task :=
  match order with
  | [] => m
  | id :: order =>
    numbered_rows (position + 1) now order
      (alter (fun t => set_updated_at now (set_queue_position (Some (position + 1)%Z) t)) id m)
  end.

Definition renumbered (now : Z) (order : list string) (d : db) : db :=
  with_tasks (numbered_rows 0 now order (d_tasks d)) d.

Lemma write_positions_run {E} position now order o (w : world E) d : w_tx w = Some d ->
  let '(r, w') := write_positions position now order o w in
  w_db w' = w_db w /\ w_fired w' = w_fired w /\
  match r with
  | inr _ => w_tx w' = Some (with_tasks (numbered_rows position now order (d_tasks d)) d)
  | inl e => e = ErrDriver
  end.
Proof.
  revert position w d. induction order as [|id order IH]; intros position w d Hw.
  { simpl. rewrite Hw. by destruct d. }
  cbn [write_positions numbered_rows]. rewrite bind_run. unfold exec.
  change (current w) with (default (w_db w) (w_tx w)). rewrite Hw. simpl default.
  assert (Hq : exists d' k, querySetQueuePosition (position + 1) now id d = Some (d', k) /\
    d' = with_tasks (alter (fun t => set_updated_at now
           (set_queue_position (Some (position + 1)%Z) t)) id (d_tasks d)) d).
  { unfold querySetQueuePosition, update_where, any_row, no_check.
    destruct (d_tasks d !! id) as [t|] eqn:Ht; eexists _, _; (split; [done|]).
    - f_equal. apply map_eq. intros j. destruct (decide (j = id)) as [->|].
      + by rewrite lookup_insert_eq, lookup_alter_eq, Ht.
      + by rewrite lookup_insert_ne, lookup_alter_ne.
    - destruct d. unfold with_tasks. simpl in *. f_equal. apply map_eq. intros j.
      destruct (decide (j = id)) as [->|]; [by rewrite lookup_alter_eq, Ht|by rewrite lookup_alter_ne]. }
  destruct Hq as (d' & k & -> & ->). destruct (o_io o (w_n w)); [|done|].
  - unfold put_current. rewrite Hw. set (w1 := bump _).
    specialize (IH (position + 1)%Z w1 _ eq_refl).
    destruct (write_positions _ _ _ o w1) as [r w']. by destruct d.
  - unfold put_current. by rewrite Hw.
Qed.

Lemma numbered_other position now order m id : id ∉ order ->
  numbered_rows position now order m !! id = m !! id.
Proof.
  revert position m. induction order as [|i order IH]; intros position m Hn; [done|].
  apply not_elem_of_cons in Hn as [Hne Hn]. simpl. rewrite IH by done. by rewrite lookup_alter_ne.
Qed.

Lemma numbered_member position now order m i id t : NoDup order -> order !! i = Some id ->
  m !! id = Some t ->
  numbered_rows position now order m !! id =
    Some (set_updated_at now (set_queue_position (Some (position + Z.of_nat i + 1)%Z) t)).
Proof.
  revert position m i. induction order as [|j order IH]; intros position m i Hnd Hi Ht; [done|].
  apply list.NoDup_cons in Hnd as [Hj Hnd]. simpl. destruct i as [|i]; simpl in Hi.
  - simplify_eq. rewrite numbered_other by done. rewrite lookup_alter_eq, Ht. simpl. do 3 f_equal.
    f_equal. lia.
  - rewrite (IH _ _ i); [do 3 f_equal; f_equal; lia|done|done|].
    rewrite lookup_alter_ne; [done|]. intros ->. apply Hj. by eapply list_elem_of_lookup_2.
Qed.

#[local] Instance queue_le_total : base.Total queue_le.
Proof.
  intros [a s] [b t]. unfold queue_le. simpl. destruct (Z.lt_trichotomy a b) as [|[->|]]; [by do 2 left| |by right; left].
  destruct (String.leb_total s t); [left|right]; by right.
Qed.

#[local] Instance queue_le_trans : Transitive queue_le.
Proof.
  intros [a s] [b t] [c u]. unfold queue_le. simpl.
  intros [H1|[-> H1]] [H2|[-> H2]]; [left; lia|by left|by left|].
  right. split; [done|]. by apply (string_leb_trans s t u).
Qed.

Lemma queue_member (m : gmap string task) n id :
  (n, id) ∈ omap queued_at (map_to_list m) <->
  exists t, m !! id = Some t /\ t_queue_position t = Some n.
Proof.
  rewrite list_elem_of_omap. split.
  - intros ([i t] & Hin & Hq). apply elem_of_map_to_list in Hin. unfold queued_at in Hq. simpl in Hq.
    destruct (t_queue_position t) eqn:Hp; [|done]. simplify_eq/=. eauto.
  - intros (t & Ht & Hp). exists (id, t). rewrite elem_of_map_to_list. split; [done|].
    unfold queued_at. simpl. by rewrite Hp.
Qed.

Lemma queue_nodup (m : gmap string task) : NoDup (omap queued_at (map_to_list m)).*2.
Proof.
  pose proof (NoDup_fst_map_to_list m) as Hd. revert Hd.
  induction (map_to_list m) as [|[i t] l IH]; intros Hd; [constructor|]. simpl in *.
  apply list.NoDup_cons in Hd as [Hi Hd]. unfold queued_at at 1. simpl.
  destruct (t_queue_position t); simpl; [|by apply IH]. apply list.NoDup_cons. split; [|by apply IH].
  intros ([n j] & -> & Hin)%list_elem_of_fmap. apply Hi.
  apply list_elem_of_omap in Hin as ([j' u] & Hin & Hq). unfold queued_at in Hq. simpl in Hq.
  destruct (t_queue_position u); simplify_eq/=. apply list_elem_of_fmap. by exists (j, u).
Qed.

Lemma members_spec d id : id ∈ queryQueueMembers d <->
  exists t n, d_tasks d !! id = Some t /\ t_queue_position t = Some n.
Proof.
  unfold queryQueueMembers. rewrite merge_sort_Permutation, list_elem_of_fmap. split.
  - intros ([n i] & -> & (t & Ht & Hn)%queue_member). eauto.
  - intros (t & n & Ht & Hn). exists (n, id). split; [done|]. apply queue_member. eauto.
Qed.

Lemma members_nodup d : NoDup (queryQueueMembers d).
Proof. unfold queryQueueMembers. rewrite merge_sort_Permutation. apply queue_nodup. Qed.

(** The queue's rows in their new order. *)
Definition positions (order : list string) : list (Z * string) :=
  imap (fun i id => (Z.of_nat i + 1, id)%Z) order.

Lemma positions_snd order : (positions order).*2 = order.
Proof.
  induction order as [|a l IH] using rev_ind; [done|]. unfold positions in *.
  rewrite imap_app, fmap_app, IH. done.
Qed.

Lemma positions_elem order n id : (n, id) ∈ positions order <->
  exists i, order !! i = Some id /\ n = (Z.of_nat i + 1)%Z.
Proof.
  unfold positions. rewrite list_elem_of_lookup. split.
  - intros [i Hi]. rewrite list_lookup_imap in Hi. destruct (order !! i) eqn:Ho; [|done].
    simplify_eq/=. eauto.
  - intros (i & Hi & ->). exists i. by rewrite list_lookup_imap, Hi.
Qed.

Lemma positions_sorted k order :
  StronglySorted queue_le (imap (fun i id => (Z.of_nat (k + i) + 1, id)%Z) order).
Proof.
  revert k. induction order as [|id order IH]; intros k; simpl; constructor.
  - specialize (IH (S k)). erewrite imap_ext; [exact IH|]. intros i x _. simpl. f_equal. f_equal. lia.
  - apply list.Forall_forall. intros [n i] Hin. apply list_elem_of_lookup in Hin as [j Hj].
    rewrite list_lookup_imap in Hj. destruct (order !! j); [|done]. simplify_eq/=.
    left. simpl. lia.
Qed.

(** Renumbering makes the given order the queue's order. *)
Lemma members_renumbered now next d : next ≡ₚ queryQueueMembers d ->
  queryQueueMembers (renumbered now next d) = next.
Proof.
  intros Hperm. assert (Hnd : NoDup next) by (rewrite Hperm; apply members_nodup).
  assert (Hel : forall n id, (n, id) ∈ omap queued_at (map_to_list (d_tasks (renumbered now next d))) <->
    (n, id) ∈ positions next).
  { intros n id. rewrite queue_member, positions_elem. simpl. split.
    - intros (t & Ht & Hn). destruct (decide (id ∈ next)) as [Hin|Hin].
      + assert (Hm := Hin). rewrite Hperm in Hm. apply members_spec in Hm as (u & k & Hu & _).
        apply list_elem_of_lookup in Hin as [i Hi].
        rewrite (numbered_member _ _ _ _ i _ u Hnd Hi Hu) in Ht. simplify_eq/=. exists i. split; [done|lia].
      + exfalso. apply Hin. rewrite Hperm. apply members_spec. rewrite numbered_other in Ht by done. eauto.
    - intros (i & Hi & ->). assert (Hm : id ∈ next) by by eapply list_elem_of_lookup_2.
      rewrite Hperm in Hm. apply members_spec in Hm as (u & k & Hu & _). eexists.
      split; [by apply (numbered_member _ _ _ _ i _ u)|]. simpl. f_equal. }
  assert (Hndp : NoDup (positions next)).
  { apply (NoDup_fmap_1 snd). by rewrite positions_snd. }
  assert (Hperm' : omap queued_at (map_to_list (d_tasks (renumbered now next d))) ≡ₚ positions next).
  { apply NoDup_Permutation; [by eapply NoDup_fmap_1, queue_nodup|done|]. by intros [n id]. }
  assert (Hsort : merge_sort queue_le (omap queued_at (map_to_list (d_tasks (renumbered now next d)))) =
    positions next).
  { apply (StronglySorted_unique_strong queue_le).
    - intros [n i] [n' i'] H1 H2. rewrite merge_sort_Permutation, Hperm' in H1.
      apply positions_elem in H1 as (k & Hk & ->), H2 as (k' & Hk' & ->).
      unfold queue_le. simpl. intros H3 H4. assert (k = k') as -> by (destruct H3, H4; lia).
      congruence.
    - apply StronglySorted_merge_sort; apply _.
    - apply (positions_sorted 0).
    - by rewrite merge_sort_Permutation. }
  unfold queryQueueMembers. rewrite Hsort. apply positions_snd.
Qed.

(** A reorder commits entirely or not at all: on success the queue's order is
    the computed one, numbered densely from 1, the rows outside the queue are
    untouched and the requested ids that are not queued are reported in request
    order; on a driver failure the rows are as before, or - when only the
    commit's answer was lost - as after. *)
Theorem ReorderQueue_spec {E} ids move o (w : world E) : w_tx w = None ->
  let '(r, w') := ReorderQueue ids move o w in
  let d := w_db w in
  let next := reorderQueueMembers (queryQueueMembers d) (contains ids) move in
  let moved := exists now, w_db w' = renumbered now next d /\ queryQueueMembers (w_db w') = next /\
    (forall id, id ∉ next -> d_tasks (w_db w') !! id = d_tasks d !! id) /\
    (forall i id, next !! i = Some id ->
       t_queue_position <$> d_tasks (w_db w') !! id = Some (Some (Z.of_nat i + 1)%Z)) in
  match r with
  | inr absent => moved /\ absent = List.filter (fun id => negb (contains (queryQueueMembers d) id)) ids
  | inl e => e = ErrDriver /\ (w_db w' = d \/ moved)
  end.
Proof.
  intros Hw. unfold ReorderQueue. rewrite with_tx_run.
  destruct (o_io o (w_n w)); [|by auto..]. rewrite bind_run. unfold query.
  set (w1 := bump _). destruct (o_io o (w_n w1)); [|by auto..].
  change (current w1) with (w_db w). rewrite bind_run. cbn [unix_milli]. rewrite bind_run.
  set (w2 := bump (bump w1)). set (now := o_now o _). set (next := reorderQueueMembers _ _ _).
  pose proof (write_positions_run 0 now next o w2 (w_db w) eq_refl) as Hrun.
  destruct (write_positions _ _ _ o w2) as [[e|[]] w3]; destruct Hrun as (Hdb & _ & Hr); [by auto|].
  assert (Hnext : next ≡ₚ queryQueueMembers (w_db w)) by apply reorder_shuffled.
  set (d' := renumbered now next (w_db w)).
  assert (Hmoved : exists now, d' = renumbered now next (w_db w) /\ queryQueueMembers d' = next /\
    (forall id, id ∉ next -> d_tasks d' !! id = d_tasks (w_db w) !! id) /\
    (forall i id, next !! i = Some id ->
       t_queue_position <$> d_tasks d' !! id = Some (Some (Z.of_nat i + 1)%Z))).
  { exists now. split; [done|]. split; [by apply members_renumbered|]. split.
    - intros id Hn. by apply numbered_other.
    - intros i id Hi. assert (Hin : id ∈ next) by by eapply list_elem_of_lookup_2.
      rewrite Hnext in Hin. apply members_spec in Hin as (t & n & Ht & _).
      unfold d'. simpl. rewrite (numbered_member _ _ _ _ i _ t); [done| |done|done].
      rewrite Hnext. apply members_nodup. }
  rewrite bind_run. unfold commit. change (current w3) with (default (w_db w3) (w_tx w3)).
  rewrite Hr. simpl default. destruct (o_io o (w_n w3)); simpl; [by auto| |by auto].
  split; [done|]. left. by rewrite Hdb.
Qed.

Definition queued_row (n : Z) : task := set_queue_position (Some n) (http_task StateQueued n).

(** Three queued rows with a gap in their numbers; c moves up. *)
Definition queue_db : db :=
  tables_of [("a", queued_row 1); ("b", queued_row 4); ("c", queued_row 9)]%string.

Lemma ReorderQueue_spec_witness :
  let '(r, w') := ReorderQueue ["c"; "x"]%string QueueMoveUp healthy (start queue_db) in
  r = inr ["x"%string] /\ queryQueueMembers (w_db w') = ["a"; "c"; "b"]%string.
Proof.
  pose proof (ReorderQueue_spec ["c"; "x"]%string QueueMoveUp healthy (start queue_db) eq_refl) as H.
  destruct (ReorderQueue _ _ _ _) as [r w'] eqn:Hr.
  assert (Hx : r = inr ["x"%string]).
  { change r with (r, w').1. rewrite <- Hr. by vm_compute. }
  rewrite Hx in H |- *. destruct H as [(now & _ & Hq & _) _]. split; [done|].
  rewrite Hq. by vm_compute.
Defined.
