(* ===== verification/StoreCalls.v ===== *)
(** * What one call of the task store may do

    Every call that writes a task row or its log, as one alphabet, with its
    licence: the rows it may touch, the state it may put them in and from which
    states, whether it may learn hashes, create or delete.  Every call keeps its
    licence whatever the driver answers, and so does every call of a history. *)

From stdpp Require Import fin_maps.
From S2P Require Import Prelude GoStrings TaskState Schema Lease World Frame Store Engine Scenario.
From S2P Require Import StoreProps Hash Infohash Queue.

(** ** The calls and their licences *)

(** The write interface on tasks and events. *)
Inductive call :=
  | Base (c : op)
  | CallDelete (id : string)
  | CallReorderQueue (ids : list string) (move : QueueMove)
  | CallSetInfohashes (id v1 v2 : string)
  | CallPauseDuplicate (id : string)
  | CallResolveInfohashes (engine ref v1 v2 : string).

(** What a call may do.  [born] is the state of a row it may create. *)
Record licence := MkLicence {
  hits : string -> bool; target : option TaskState; sources : TaskState -> bool;
  learns : bool; born : option TaskState; gone : string -> bool }.

Definition nothing : licence :=
  MkLicence (fun _ => false) None (fun _ => false) false None (fun _ => false).

(** One row's columns other than its state and hashes. *)
Definition columns (id : string) : licence :=
  MkLicence (fun i => bool_decide (i = id)) None (fun _ => false) false None (fun _ => false).

(** One row's state, to [next]. *)
Definition moving (id : string) (next : TaskState) (from : TaskState -> bool) : licence :=
  MkLicence (fun i => bool_decide (i = id)) (Some next) from false None (fun _ => false).

(** A new row in the state asked for. *)
Definition creating (st : string) : licence :=
  MkLicence (fun _ => false) None (fun _ => false) false
    (if bool_decide (st = EmptyString) then Some StateQueued else parse_state st) (fun _ => false).

Definition op_licence (c : op) : licence :=
  match c with
  | OpCreate _ st _ | OpCreateLogged _ st _ => creating st
  | OpAppendEvent _ _ _ _ _ => nothing
  | OpTransition id next _ _ => moving id next (fun s => transitionLegal s next)
  | OpMarkRemoved id _ => moving id StateRemoved (fun s => transitionLegal s StateRemoved)
  | OpScheduleParked id => moving id StatePaused (contains scheduleParkSources)
  | OpPauseWithCode id p => moving id StatePaused (contains (FromStates p))
  | OpUpdateProgress id _ | OpSetEngineRef id _ | OpSetErrorCodeIfState id _ _ _
  | OpSetErrorCode id _ _ | OpClearHoldCode id | OpClearPausedHoldCode id
  | OpClaimParkedDiskFull id | OpMarkAdmissionPending id | OpSetSelectionIntent id _
  | OpUpdate id _ | OpSetExtractProgress id _ => columns id
  end.

Definition licence_of (c : call) : licence :=
  match c with
  | Base c => op_licence c
  | CallDelete id =>
    MkLicence (fun _ => false) None (fun _ => false) false None (fun i => bool_decide (i = id))
  | CallReorderQueue _ _ =>
    MkLicence (fun _ => true) None (fun _ => false) false None (fun _ => false)
  | CallSetInfohashes id _ _ =>
    MkLicence (fun i => bool_decide (i = id)) None (fun _ => false) true None (fun _ => false)
  | CallPauseDuplicate id => moving id StatePaused (contains duplicatePauseFromStates)
  | CallResolveInfohashes _ _ _ _ =>
    MkLicence (fun _ => true) (Some StatePaused) (contains duplicatePauseFromStates) true None
      (fun _ => false)
  end.

(** A call that creates neither moves nor deletes. *)
Definition licence_ok (P : licence) : Prop :=
  is_Some (born P) -> target P = None /\ forall id, gone P id = false.

Lemma licence_of_ok c : licence_ok (licence_of c).
Proof. destruct c as [[]| | | | |]; unfold licence_ok; simpl; intros []; done. Qed.

(** ** Rows under a licence *)

(** A hash once stored stays. *)
Definition learned_text (a b : option string) : Prop :=
  textOrEmpty a = EmptyString \/ textOrEmpty b = textOrEmpty a.

Record row_kept (P : licence) (id : string) (t t' : task) : Prop := {
  rk_other : hits P id = false -> t' = t;
  rk_engine : t_engine t' = t_engine t;
  rk_kind : t_source_kind t' = t_source_kind t;
  rk_uri : t_source_uri t' = t_source_uri t;
  rk_dest : t_destination t' = t_destination t;
  rk_added : t_added_at t' = t_added_at t;
  rk_hash : learns P = false ->
    t_infohash_v1 t' = t_infohash_v1 t /\ t_infohash_v2 t' = t_infohash_v2 t;
  rk_learn : learned_text (t_infohash_v1 t) (t_infohash_v1 t') /\
    learned_text (t_infohash_v2 t) (t_infohash_v2 t');
  rk_state : t_state t' = t_state t \/
    target P = Some (t_state t') /\ sources P (t_state t) = true }.

(** The rows of two tables under a licence. *)
Record frame (P : licence) (d d' : db) : Prop := {
  fr_rows : forall id t, d_tasks d !! id = Some t ->
    match d_tasks d' !! id with Some t' => row_kept P id t t' | None => gone P id = true end;
  fr_new : forall id t', d_tasks d !! id = None -> d_tasks d' !! id = Some t' ->
    born P = Some (t_state t') }.

(** What a call did: its licence is kept, and besides a state that changed went
    along one edge of the transition table, the log lost the events of deleted
    rows only, and the tables stay well-formed. *)
Record call_kept (c : call) (d d' : db) : Prop := {
  ck_frame : frame (licence_of c) d d';
  ck_edge : forall id t t', d_tasks d !! id = Some t -> d_tasks d' !! id = Some t' ->
    t_state t' = t_state t \/ transitionLegal (t_state t) (t_state t') = true;
  ck_log : d_events d `prefix_of` d_events d' \/
    exists id, gone (licence_of c) id = true /\ d_tasks d' !! id = None /\
      d_events d' = List.filter (fun e => bool_decide (ev_task e <> id)) (d_events d);
  ck_wf : db_wf d -> db_wf d' }.

#[global] Instance row_kept_pre P id : PreOrder (row_kept P id).
Proof.
  split; [intros t; split; first [done|by left|by split; right]|].
  intros t u v [O1 E1 K1 U1 D1 A1 H1 [L1 L1'] S1] [O2 E2 K2 U2 D2 A2 H2 [L2 L2'] S2].
  split; try congruence.
  - intros Hh. by rewrite O2, O1.
  - intros Hl. destruct (H1 Hl), (H2 Hl). split; congruence.
  - unfold learned_text in *. intuition congruence.
  - destruct S1 as [H|[? ?]], S2 as [H'|[? ?]]; rewrite ?H', <- ?H in *; auto.
Qed.

#[local] Instance frame_pre c : PreOrder (frame (licence_of c)).
Proof.
  pose proof (licence_of_ok c) as Hok. set (P := licence_of c) in *. clearbody P. split.
  - intros d. split; intros id t Ht; [rewrite Ht; reflexivity|intros Hn; congruence].
  - intros d e f [R1 N1] [R2 N2]. split.
    + intros id t Ht. specialize (R1 id t Ht). specialize (N2 id). specialize (R2 id).
      destruct (d_tasks e !! id) as [u|].
      * specialize (R2 u eq_refl). destruct (d_tasks f !! id); [by etransitivity|done].
      * destruct (d_tasks f !! id) as [v|]; [|done]. specialize (N2 v eq_refl eq_refl).
        destruct (Hok (mk_is_Some _ _ N2)) as [_ Hg]. by rewrite Hg in R1.
    + intros id t' Hn Ht'. specialize (N1 id). specialize (R2 id). specialize (N2 id t').
      destruct (d_tasks e !! id) as [u|]; [|auto]. specialize (R2 u eq_refl). rewrite Ht' in R2.
      specialize (N1 u Hn eq_refl). destruct (rk_state _ _ _ _ R2) as [->|[Ht _]]; [done|].
      destruct (Hok (mk_is_Some _ _ N1)) as [Hnone _]. congruence.
Qed.

(** Without a created, moved or deleted row. *)
Lemma frame_same P d d' : d_tasks d' = d_tasks d -> frame P d d'.
Proof.
  intros Ht. split; intros id t; rewrite Ht; [|congruence]. intros ->. reflexivity.
Qed.

Lemma frame_insert P d id t t' :
  d_tasks d !! id = Some t -> row_kept P id t t' ->
  frame P d (with_tasks (<[id := t']> (d_tasks d)) d).
Proof.
  intros Ht Hr. split; intros j u; simpl; destruct (decide (j = id)) as [->|Hne].
  - rewrite lookup_insert_eq. congruence.
  - rewrite lookup_insert_ne by done. intros ->. reflexivity.
  - congruence.
  - rewrite lookup_insert_ne by done. congruence.
Qed.

Lemma update_frame P id guard f ok :
  (forall t, guard t = true -> row_kept P id t (f t)) ->
  stmt_keeps (frame P) (update_where id guard f ok).
Proof.
  intros Hf d d' k [(-> & _)|(t & Ht & Hg & _ & _ & ->)]%update_where_inv; [by apply frame_same|].
  by apply (frame_insert _ _ _ t); [|apply Hf].
Qed.

Lemma event_frame P e : stmt_keeps (frame P) (queryInsertTaskEvent e).
Proof.
  intros d d' k. unfold queryInsertTaskEvent. intros Hq. by break_all Hq; apply frame_same.
Qed.

Lemma create_frame P id t : born P = Some (t_state t) -> stmt_keeps (frame P) (queryCreateTask id t).
Proof.
  intros Hb d d' k. unfold queryCreateTask. intros Hq. break_all Hq. split; intros j u; simpl.
  - intros Hj. rewrite lookup_insert_ne by congruence. rewrite Hj. reflexivity.
  - intros Hj. destruct (decide (j = id)) as [->|Hne].
    + rewrite lookup_insert_eq. by intros [= <-].
    + rewrite lookup_insert_ne by done. congruence.
Qed.

(** Closes [row_kept] for an update that leaves state and hashes. *)
Ltac row_columns :=
  split; simpl; first [done|by rewrite bool_decide_eq_true_2|by left|by split; right|idtac].

Lemma patch_frame id p t now : row_kept (columns id) id t (set_updated_at now (apply_patch p t)).
Proof. destruct p as [[] [] [] [] [] [] []], t; row_columns. Qed.

#[local] Hint Resolve event_frame keeps_fire : dltool.

(** ** Every call inside its licence *)

Section Calls.
Context {UT : UnicodeTables} {E : Type}.
Implicit Types w : world E.

(** [CallDelete] and the calls behind a hash resolution answer to the caller
    like [run_op]. *)
Definition run_call (c : call) : M E unit :=
  match c with
  | Base c => run_op c
  | CallDelete id => ignore (Delete id)
  | CallReorderQueue ids move => ignore (ReorderQueue ids move)
  | CallSetInfohashes id v1 v2 => ignore (SetInfohashes id v1 v2)
  | CallPauseDuplicate id => ignore (PauseDuplicate id)
  | CallResolveInfohashes engine ref v1 v2 => ignore (ResolveInfohashes engine ref v1 v2)
  end.

Fixpoint run_calls (l : list call) : M E unit :=
  match l with [] => mret tt | c :: l => run_call c ;; run_calls l end.

Abbreviation framed c m := (always (keeps (frame (licence_of c)) (E := E)) m).

Ltac column_walk := walk; first [apply update_frame; intros; row_columns | auto with dltool].

Lemma insertTaskEvent_frame c id lv code msg dt now : framed c (insertTaskEvent id lv code msg dt now).
Proof. unfold insertTaskEvent. column_walk. Qed.

#[local] Hint Resolve insertTaskEvent_frame : dltool.

Lemma prepareNewTask_born id st t o w row : (prepareNewTask id st t o w).1 = inr row ->
  born (creating st) = Some (t_state row.2).
Proof.
  unfold prepareNewTask. simpl. rewrite bind_run.
  destruct (bool_decide (id = EmptyString)); [unfold NewID; unfold_cmd|]; simpl;
    (destruct (if bool_decide (st = EmptyString) then _ else _) as [s|]; [|done]);
    simpl; by intros [= <-].
Qed.

Lemma prepareNewTask_frame c id st t : framed c (prepareNewTask id st t).
Proof. unfold prepareNewTask. walk. Qed.

(** The row a create inserts is the one [prepareNewTask] made. *)
Lemma prepared_frame c id st t (k : string * task -> M E (string * task)) :
  (forall row, born (creating st) = Some (t_state row.2) -> framed c (k row)) ->
  framed c (prepareNewTask id st t ≫= k).
Proof.
  intros Hk o w. rewrite bind_run. pose proof (prepareNewTask_frame c id st t o w) as Hp.
  pose proof (prepareNewTask_born id st t o w) as Hb.
  destruct (prepareNewTask id st t o w) as [[e|row] w1]; [done|].
  etransitivity; [exact Hp|]. by apply Hk, Hb.
Qed.

Lemma create_row_frame c id st t : born (licence_of c) = born (creating st) ->
  born (creating st) = Some (t_state t) -> stmt_keeps (frame (licence_of c)) (queryCreateTask id t).
Proof. intros Hc Hb. apply create_frame. congruence. Qed.

Lemma Create_frame id st t : framed (Base (OpCreate id st t)) (Create id st t).
Proof.
  unfold Create. apply prepared_frame. intros row Hb. walk. by apply create_row_frame with (st := st).
Qed.

Lemma CreateLogged_frame id st t : framed (Base (OpCreateLogged id st t)) (CreateLogged id st t).
Proof.
  unfold CreateLogged. apply prepared_frame. intros row Hb.
  walk; auto with dltool. by apply create_row_frame with (st := st).
Qed.

(** The row was in the state read, and the move from there is licensed. *)
Lemma move_frame id next from guard f ok :
  (forall t, guard t = true -> from (t_state t) = true) ->
  (forall t, row_kept (moving id next from) id t (set_state (t_state t) (f t)) /\ t_state (f t) = next) ->
  stmt_keeps (frame (moving id next from)) (update_where id guard f ok).
Proof.
  intros Hg Hf. apply update_frame. intros t Ht. destruct (Hf t) as [[] Hs]. simpl in *.
  split; simpl; try assumption; [by rewrite bool_decide_eq_true_2|]. right. by rewrite Hs, Hg.
Qed.

Lemma run_op_frame c : framed (Base c) (run_op c).
Proof.
  destruct c; cbn [run_op]; (apply always_ignore; [apply _|]);
    [apply Create_frame|apply CreateLogged_frame|..].
  - unfold AppendEvent. column_walk.
  - unfold UpdateProgress. column_walk.
  - unfold SetEngineRef. walk; first [intros d; apply update_frame; intros; row_columns|auto with dltool].
  - unfold Transition. walk; auto with dltool. apply move_frame.
    + intros u ->%bool_decide_eq_true. by apply negb_false_iff.
    + intros u. split; [row_columns|done].
  - unfold MarkRemoved. walk; auto with dltool. apply move_frame.
    + intros u ->%bool_decide_eq_true. by apply negb_false_iff.
    + intros u. split; [row_columns|done].
  - unfold ScheduleParked. walk; auto with dltool. apply move_frame; [done|].
    intros u. split; [row_columns|done].
  - unfold PauseWithCode. walk; auto with dltool. apply move_frame; [done|].
    intros u. split; [row_columns|done].
  - unfold SetErrorCodeIfState. column_walk.
  - unfold SetErrorCode. column_walk.
  - unfold ClearHoldCode. column_walk.
  - unfold ClearPausedHoldCode. column_walk.
  - unfold ClaimParkedDiskFull. column_walk.
  - unfold MarkAdmissionPending. column_walk.
  - unfold SetSelectionIntent. column_walk.
  - unfold Update. walk. apply update_frame. intros. apply patch_frame.
  - unfold SetExtractProgress. column_walk.
Qed.

(** *** The edge of the table *)

(** From a row that is not removed, or whose removal is final, a licensed state
    is the old one or one edge away. *)
Lemma licensed_edge c s s' : target (licence_of c) = Some s' -> sources (licence_of c) s = true ->
  reachable s s' \/ s <> StateRemoved -> s' = s \/ transitionLegal s s' = true.
Proof.
  intros Ht Hs Hr.
  assert (Hp : s' = StatePaused -> s' = s \/ transitionLegal s s' = true).
  { intros ->. destruct (decide (s = StatePaused)) as [->|]; [by left|]. right.
    apply transitionLegal_universal; [|done|by left]. intros ->.
    destruct Hr as [Hr%reachable_removed|]; done. }
  destruct c as [[]| | | | |]; simpl in *; simplify_eq; auto.
Qed.

(** A call that keeps [db_step] too. *)
Lemma step_kept c d d' : frame (licence_of c) d d' -> db_step d d' -> call_kept c d d'.
Proof.
  intros Hf [Hr He Hw]. split; [done| |by left|done].
  intros id t t' Ht Ht'. pose proof (fr_rows _ _ _ Hf id t Ht) as Hk. rewrite Ht' in Hk.
  destruct (Hr id t Ht) as (u & Hu & Hs). rewrite Ht' in Hu. injection Hu as <-.
  destruct (rk_state _ _ _ _ Hk) as [?|[Htg Hsrc]]; [by left|].
  apply (licensed_edge c); [done|done|left; apply Hs].
Qed.

Lemma kept_refl c d : call_kept c d d.
Proof.
  split; [reflexivity|intros id t t' Ht Ht'; left; congruence|by left|done].
Qed.

(** *** The calls *)

Abbreviation kept_run c o w := (w_tx w = None -> db_wf (w_db w) ->
  w_tx (run_call c o w).2 = None /\ call_kept c (w_db w) (w_db (run_call c o w).2)).

Lemma base_kept c o w : kept_run (Base c) o w.
Proof.
  intros Hw _. pose proof (run_op_frame c o w) as Hf. pose proof (run_op_keeps (E := E) c o w) as Hk.
  split; [by apply (k_none _ _ _ Hk)|].
  apply step_kept; [apply (k_db _ _ _ Hf)|apply (k_db _ _ _ Hk)]; unfold tx_ok; by rewrite Hw.
Qed.

Lemma write_positions_keeps p now order :
  always (keeps db_step (E := E)) (write_positions p now order) /\
  forall ids move, framed (CallReorderQueue ids move) (write_positions p now order).
Proof.
  revert p. induction order as [|id order IH]; intros p; cbn [write_positions]; [split; intros; walk|].
  destruct (IH (p + 1)%Z) as [H1 H2]. split; intros; walk; auto with dltool.
  apply update_frame. intros. row_columns.
Qed.

Lemma reorder_kept ids move o w : kept_run (CallReorderQueue ids move) o w.
Proof.
  intros Hw _. assert (Hk : always (keeps db_step (E := E)) (run_call (CallReorderQueue ids move))).
  { apply always_ignore; [apply _|]. unfold ReorderQueue. walk. apply write_positions_keeps. }
  assert (Hf : framed (CallReorderQueue ids move) (run_call (CallReorderQueue ids move))).
  { apply always_ignore; [apply _|]. unfold ReorderQueue. walk. apply write_positions_keeps. }
  split; [by apply (k_none _ _ _ (Hk o w))|].
  apply step_kept; [apply (k_db _ _ _ (Hf o w))|apply (k_db _ _ _ (Hk o w))]; unfold tx_ok; by rewrite Hw.
Qed.

Lemma pause_duplicate_keeps id : always (keeps db_step (E := E)) (PauseDuplicate id).
Proof. unfold PauseDuplicate. walk. apply PauseWithCode_keeps. Qed.

Lemma pause_duplicate_frame c id : hits (licence_of c) id = true ->
  target (licence_of c) = Some StatePaused -> sources (licence_of c) = contains duplicatePauseFromStates ->
  framed c (PauseDuplicate id).
Proof.
  intros Hh Ht Hs. unfold PauseDuplicate, PauseWithCode. walk; auto with dltool.
  apply update_frame. intros u Hg. split; simpl; try done; [congruence|by split; right|].
  right. by rewrite Ht, Hs.
Qed.

Lemma pause_duplicate_kept id o w : kept_run (CallPauseDuplicate id) o w.
Proof.
  intros Hw _. assert (Hk : always (keeps db_step (E := E)) (run_call (CallPauseDuplicate id))).
  { apply always_ignore; [apply _|]. apply pause_duplicate_keeps. }
  assert (Hf : framed (CallPauseDuplicate id) (run_call (CallPauseDuplicate id))).
  { apply always_ignore; [apply _|]. apply pause_duplicate_frame; [|done..]. by apply bool_decide_eq_true_2. }
  split; [by apply (k_none _ _ _ (Hk o w))|].
  apply step_kept; [apply (k_db _ _ _ (Hf o w))|apply (k_db _ _ _ (Hk o w))]; unfold tx_ok; by rewrite Hw.
Qed.

Lemma delete_wf d d' k id : queryDeleteTask id d = Some (d', k) -> db_wf d -> db_wf d'.
Proof.
  unfold queryDeleteTask. intros Hq [Wm Wc Wh We]. break_all Hq; [|done].
  split; simpl; [by apply map_Forall_delete|by apply map_Forall_delete|..].
  - intros i j a b. simpl. intros [_ Ha]%lookup_delete_Some [_ Hb]%lookup_delete_Some. by apply Wh.
  - apply list.Forall_forall. intros e [Hne%bool_decide_eq_true He]%elem_of_filter_bool.
    rewrite lookup_delete_ne by done. by apply (proj1 (list.Forall_forall _ _) We).
Qed.

Lemma delete_kept_at d d' k id : queryDeleteTask id d = Some (d', k) -> call_kept (CallDelete id) d d'.
Proof.
  intros Hq. pose proof (delete_wf _ _ _ _ Hq) as Hwf. unfold queryDeleteTask in Hq.
  destruct (d_tasks d !! id) as [t|]; [|simplify_eq; apply kept_refl]. injection Hq as <- <-.
  split; simpl; [| |right; exists id|done].
  - split; intros j u; simpl; destruct (decide (j = id)) as [->|Hne].
    + by rewrite lookup_delete_eq, bool_decide_eq_true_2.
    + rewrite lookup_delete_ne by done. intros ->. reflexivity.
    + by rewrite lookup_delete_eq.
    + rewrite lookup_delete_ne by done. congruence.
  - intros j u u' Hu [_ Hu']%lookup_delete_Some. left. congruence.
  - rewrite lookup_delete_eq. by rewrite bool_decide_eq_true_2.
Qed.

Lemma delete_kept id o w : kept_run (CallDelete id) o w.
Proof.
  intros Hw _. destruct w as [d tx n ? ? ? ? ?]. simpl in Hw. subst tx. simpl.
  unfold ignore, Delete. rewrite bind_run. unfold attempt. rewrite bind_run. unfold exec.
  unfold current. simpl. pose proof (kept_refl (CallDelete id) d) as Hr.
  destruct (queryDeleteTask id d) as [[d' k]|] eqn:Hq; [|by destruct (o_io o n)].
  pose proof (delete_kept_at _ _ _ _ Hq) as Hk.
  destruct (o_io o n); [destruct (k =? 0)%Z|..]; done.
Qed.

Lemma text_nullable n : textOrEmpty (nullableText n) = n.
Proof. unfold nullableText. by case_bool_decide. Qed.

Lemma next_hash_learned c v n : next_hash (textOrEmpty c) v = Some n -> learned_text c (nullableText n).
Proof.
  unfold next_hash, learned_text. rewrite text_nullable. intros Hn.
  destruct (decide (textOrEmpty c = EmptyString)); [by left|right].
  rewrite (bool_decide_eq_true_2 (_ <> EmptyString)) in Hn by done.
  repeat case_bool_decide; simplify_eq/=; congruence.
Qed.

(** What a write of hashes did, on one row. *)
Definition rehash_kept (c : call) (d d' : db) : Prop :=
  frame (licence_of c) d d' /\ d_events d `prefix_of` d_events d' /\ (db_wf d -> db_wf d').

Lemma rehash_refl c d : rehash_kept c d d.
Proof. by split_and!. Qed.

Lemma rehashed_kept c id n1 n2 v1 v2 now t d :
  learns (licence_of c) = true -> hits (licence_of c) id = true ->
  d_tasks d !! id = Some t -> next_pair t v1 v2 = Some (n1, n2) ->
  rehash_kept c d (rehashed id n1 n2 now t d).
Proof.
  intros Hl Hh Ht Hp. unfold rehashed. split_and!; [|done|].
  - apply (frame_insert _ _ _ t); [done|]. unfold next_pair in Hp.
    destruct (next_hash (textOrEmpty (t_infohash_v1 t)) v1) as [m1|] eqn:E1; [|done]. simpl in Hp.
    destruct (next_hash (textOrEmpty (t_infohash_v2 t)) v2) as [m2|] eqn:E2; [|done].
    injection Hp as -> ->.
    split; simpl; try done; [congruence|congruence|split; by eapply next_hash_learned|by left].
  - apply (update_wf _ _ t); [done|constructor|done..|by left].
Qed.

Lemma set_outcome_kept c id v1 v2 d d' r :
  learns (licence_of c) = true -> hits (licence_of c) id = true ->
  set_outcome id v1 v2 d d' r -> rehash_kept c d d'.
Proof.
  intros Hl Hh. destruct r as [[]|]; simpl; try done.
  - intros [_ ->]. apply rehash_refl.
  - intros (? & ? & ? & ? & ? & _ & _ & _ & _ & _ & ->). apply rehash_refl.
  - intros [->|(t & n1 & n2 & now & Ht & Hp & _ & ->)]; [apply rehash_refl|]. by eapply rehashed_kept.
  - intros (? & _ & _ & ->). apply rehash_refl.
  - intros (t & n1 & n2 & Ht & Hp & [[_ ->]|(_ & _ & now & ->)]); [apply rehash_refl|].
    by eapply rehashed_kept.
Qed.

Lemma SetInfohashes_kept c id v1 v2 o w :
  learns (licence_of c) = true -> hits (licence_of c) id = true ->
  w_tx w = None -> db_wf (w_db w) ->
  w_tx (SetInfohashes id v1 v2 o w).2 = None /\ rehash_kept c (w_db w) (w_db (SetInfohashes id v1 v2 o w).2).
Proof.
  intros Hl Hh Hw Hd.
  destruct (normalise v1) as [e|v1n] eqn:Hn1.
  { unfold SetInfohashes. rewrite Hn1. split; [done|apply rehash_refl]. }
  destruct (normalise v2) as [e|v2n] eqn:Hn2.
  { unfold SetInfohashes. rewrite Hn1, Hn2, bind_of_res. split; [done|apply rehash_refl]. }
  pose proof (SetInfohashes_run id v1 v2 v1n v2n o w Hn1 Hn2 Hw (wf_handles _ Hd)) as H.
  destruct (SetInfohashes id v1 v2 o w) as [r w']. destruct H as [Hw' Ho].
  split; [done|]. by eapply set_outcome_kept.
Qed.

Lemma rehash_call c d d' : sources (licence_of c) StateRemoved = false ->
  rehash_kept c d d' -> call_kept c d d'.
Proof.
  intros Hs (Hf & He & Hw). split; [done| |by left|done]. intros id t t' Ht Ht'.
  pose proof (fr_rows _ _ _ Hf id t Ht) as Hk. rewrite Ht' in Hk.
  destruct (rk_state _ _ _ _ Hk) as [?|[Htg Hsrc]]; [by left|].
  apply (licensed_edge c); [done..|right]. intros Hr. congruence.
Qed.

Lemma set_kept id v1 v2 o w : kept_run (CallSetInfohashes id v1 v2) o w.
Proof.
  intros Hw Hd. destruct (SetInfohashes_kept (CallSetInfohashes id v1 v2) id v1 v2 o w) as [Ht Hk];
    [done|by apply bool_decide_eq_true_2|done..|].
  change (run_call (CallSetInfohashes id v1 v2) o w) with (ignore (SetInfohashes id v1 v2) o w).
  unfold ignore. rewrite bind_run. unfold attempt. destruct (SetInfohashes id v1 v2 o w) as [r w'].
  split; [done|]. by apply rehash_call.
Qed.

Lemma resolve_kept engine ref v1 v2 o w : kept_run (CallResolveInfohashes engine ref v1 v2) o w.
Proof.
  set (c := CallResolveInfohashes engine ref v1 v2). intros Hw Hd.
  assert (H : w_tx (ResolveInfohashes engine ref v1 v2 o w).2 = None /\
    rehash_kept c (w_db w) (w_db (ResolveInfohashes engine ref v1 v2 o w).2)).
  { unfold ResolveInfohashes.
    destruct (normalise v1) as [e|v1n]; [by split; [|apply rehash_refl]|]. rewrite bind_of_res.
    destruct (normalise v2) as [e|v2n]; [by split; [|apply rehash_refl]|]. rewrite bind_of_res.
    destruct (_ && _); [by split; [|apply rehash_refl]|]. rewrite bind_run. unfold query.
    destruct (o_io o (w_n w)); [|by split; [|apply rehash_refl]..].
    destruct (queryTaskIDByEngineRef _ _ _) as [[id t0]|]; [|by split; [|apply rehash_refl]].
    destruct (SetInfohashes_kept c id v1n v2n o (bump w)) as [Ht Hk]; [done..|].
    rewrite bind_run. unfold attempt. destruct (SetInfohashes id v1n v2n o (bump w)) as [r w1].
    simpl in Ht, Hk. destruct r as [e|]; [|done].
    destruct (decide (e = ErrDuplicateInfohash)) as [->|Hne]; [|by destruct e].
    rewrite bind_run. pose proof (pause_duplicate_keeps id o w1) as Hs.
    pose proof (pause_duplicate_frame c id eq_refl eq_refl eq_refl o w1) as Hf.
    assert (Htx : tx_ok db_step w1) by (unfold tx_ok; by rewrite Ht).
    assert (Htf : tx_ok (frame (licence_of c)) w1) by (unfold tx_ok; by rewrite Ht).
    apply (k_db _ _ _ Hs) in Htx as [_ He Hwf]. apply (k_db _ _ _ Hf) in Htf.
    pose proof (k_none _ _ _ Hs Ht) as Ht2. destruct Hk as (Hf1 & He1 & Hw1).
    assert (Hall : rehash_kept c (w_db w) (w_db (PauseDuplicate id o w1).2)).
    { split_and!; [by etransitivity|by etransitivity|auto]. }
    by destruct (PauseDuplicate id o w1) as [[e|] w2]. }
  change (run_call c o w) with (ignore (ResolveInfohashes engine ref v1 v2) o w).
  unfold ignore. rewrite bind_run. unfold attempt.
  destruct (ResolveInfohashes engine ref v1 v2 o w) as [r w']. destruct H as [Ht Hk].
  split; [done|]. by apply rehash_call.
Qed.

Lemma call_runs c o w : kept_run c o w.
Proof.
  destruct c; [apply base_kept|apply delete_kept|apply reorder_kept|apply set_kept|
    apply pause_duplicate_kept|apply resolve_kept].
Qed.

(** The error of a call is its caller's. *)
Lemma run_call_ok c o w : run_call c o w = (inr tt, (run_call c o w).2).
Proof.
  assert (H : forall A (m : M E A), ignore m o w = (inr tt, (ignore m o w).2)).
  { intros A m. unfold ignore. rewrite bind_run. unfold attempt. by destruct (m o w). }
  destruct c as [[]| | | | |]; apply H.
Qed.

Lemma run_calls_cons c l o w : run_calls (c :: l) o w = run_calls l o (run_call c o w).2.
Proof. cbn [run_calls]. rewrite bind_run. by rewrite run_call_ok. Qed.

Lemma run_calls_app l1 l2 o w : run_calls (l1 ++ l2) o w = run_calls l2 o (run_calls l1 o w).2.
Proof.
  revert w. induction l1 as [|c l1 IH]; intros w; [done|]. cbn [app].
  by rewrite !run_calls_cons, IH.
Qed.

Lemma run_calls_wf l o w : w_tx w = None -> db_wf (w_db w) ->
  w_tx (run_calls l o w).2 = None /\ db_wf (w_db (run_calls l o w).2).
Proof.
  revert w. induction l as [|c l IH]; intros w Hw Hd; [done|]. rewrite run_calls_cons.
  destruct (call_runs c o w Hw Hd) as [Hw' Hk]. apply IH; [done|]. by apply (ck_wf _ _ _ Hk).
Qed.

(** C5: Whatever the driver answers - failures before and after a commit
    landed included - and whatever was called before, a call of the store keeps
    its licence: it leaves every row it is not licensed for untouched, creates
    and deletes rows only if it is a create or the delete, changes a state only
    to its own target from its own sources and along one edge of the transition
    table, never changes a task's engine, source, destination or queue age nor
    replaces a stored hash, only appends to the log (the delete drops the
    events of its row), and keeps the tables well-formed: marks on queued rows
    only, codes in the vocabulary, live handles distinct, events of existing
    tasks. *)
Theorem store_history_safe (l : list call) (o : oracle) w :
  w_tx w = None -> db_wf (w_db w) ->
  db_wf (w_db (run_calls l o w).2) /\
  forall l1 c l2, l = l1 ++ c :: l2 ->
    let w1 := (run_calls l1 o w).2 in
    let w2 := (run_call c o w1).2 in
    call_kept c (w_db w1) (w_db w2) /\ run_calls l o w = run_calls l2 o w2.
Proof.
  intros Hw Hd. split; [by apply run_calls_wf|]. intros l1 c l2 -> w1 w2.
  destruct (run_calls_wf l1 o w Hw Hd) as [Hw1 Hd1].
  split; [by apply call_runs|]. by rewrite run_calls_app, run_calls_cons.
Qed.
End Calls.

Lemma two_queued_wf : db_wf two_queued.
Proof.
  assert (Hl : forall i t, d_tasks two_queued !! i = Some t ->
    t = http_task StateQueued 1 \/ t = http_task StateQueued 2).
  { intros i t Hi. apply elem_of_map_to_list, elem_of_list_to_map_2 in Hi || apply elem_of_list_to_map_2 in Hi.
    rewrite !elem_of_cons in Hi. destruct Hi as [[= -> ->]|[[= -> ->]|[]%not_elem_of_nil]]; auto. }
  split; [| | |constructor].
  - intros i t Hi. by destruct (Hl i t Hi) as [->| ->].
  - intros i t Hi. by destruct (Hl i t Hi) as [->| ->].
  - intros i j t u Hi Hj Hs. by destruct (Hl i t Hi) as [->| ->], (Hl j u Hj) as [->| ->].
Qed.

(** A failed write, a legal move, an illegal one and a deletion. *)
Definition demo_calls : list call :=
  [Base (OpSetEngineRef "a" "aria2:g"); Base (OpTransition "a" StateDownloading EmptyString EmptyString);
   Base (OpTransition "b" StateMoving EmptyString EmptyString)].

Lemma store_history_safe_witness :
  let o := failing 1 IoFail in
  let w1 := (@run_calls ascii_tables (list string) demo_calls o (start two_queued)).2 in
  let w2 := (@run_call ascii_tables (list string) (CallDelete "b") o w1).2 in
  call_kept (CallDelete "b") (w_db w1) (w_db w2) /\
  t_engine_ref <$> d_tasks (w_db w1) !! "a" = Some None /\
  t_state <$> d_tasks (w_db w1) !! "a" = Some StateDownloading /\
  t_state <$> d_tasks (w_db w1) !! "b" = Some StateQueued /\
  d_tasks (w_db w2) !! "b" = None.
Proof.
  intros o w1 w2. split; [|by vm_compute].
  exact (proj1 (proj2 (@store_history_safe ascii_tables (list string) (demo_calls ++ [CallDelete "b"]) o
    (start two_queued) eq_refl two_queued_wf) demo_calls (CallDelete "b") [] eq_refl)).
Defined.
