(* ===== verification/Jobs.v ===== *)
(** * The durable job queue ([internal/store/jobs.go], [internal/jobs/worker.go])

    The jobs table with its statements, the retry ladder, and the worker pool
    as a system: workers claim, run a handler and write its outcome; a write
    can fail, or land without its answer; the process can die at any point and
    come back.  The other statements of the program on the table are events of
    the system as well: the enqueues, the resets of the post-processing chain
    ([jobs/postprocess.go]), the rows of searches ([store/search.go]), the
    nightly prune ([store/maintenance.go]) and the cascade of a deleted task. *)

From stdpp Require Import fin_maps fin_map_dom.
From S2P Require Import Prelude World.

Open Scope Z_scope.

(** ** Rows and statements *)

Inductive job_state := JobPending | JobRunning | JobDone | JobFailed.

#[global] Instance job_state_eq_dec : EqDecision job_state.
Proof. solve_decision. Defined.

(** [Job]; the id is the key of its row. *)
Record Job := MkJob {
  Kind : string; TaskID : option string; PayloadJSON : string; JState : job_state;
  Attempts : Z; MaxAttempts : Z; RunAfter : Z; LockedAt : option Z; LastError : option string;
  JCreatedAt : Z; JUpdatedAt : Z }.

Abbreviation jobs := (gmap string Job).

Definition backoffBaseDelayMS : Z := 5000.
Definition backoffMaxDelayMS : Z := 600000.
Definition backoffMaxShift : Z := 7.

(** [Backoff]. *)
Definition Backoff (now attempts : Z) : Z :=
  let attempts := if attempts <? 0 then 0 else attempts in
  if backoffMaxShift <=? attempts then wrap64 (now + backoffMaxDelayMS)
  else wrap64 (now + wrap64 (Z.shiftl backoffBaseDelayMS attempts)).

(** The DDL default of [max_attempts]. *)
Definition default_max_attempts : Z := 5.

(** [queryEnqueueJob], with the DDL defaults. *)
Definition queryEnqueueJob (id kind : string) (taskID : option string) (payload : string)
    (runAfter now : Z) (t : jobs) : jobs :=
  <[id := MkJob kind taskID payload JobPending 0 default_max_attempts runAfter None None now now]> t.

(** [queryEnqueueSearchJob]: a search is not retried. *)
Definition queryEnqueueSearchJob (id payload : string) (runAfter now : Z) (t : jobs) : jobs :=
  <[id := MkJob "search" None payload JobPending 0 1 runAfter None None now now]> t.

Definition eligible (now : Z) (j : Job) : bool :=
  bool_decide (JState j = JobPending) && (RunAfter j <=? now).

(** The subquery of the claim may answer [id]: an eligible row that no other
    eligible row precedes. *)
Definition oldest_eligible (now : Z) (t : jobs) (id : string) : bool :=
  match t !! id with
  | Some j =>
    eligible now j &&
    forallb (fun p => negb (eligible now p.2) || (RunAfter j <=? RunAfter p.2)) (map_to_list t)
  | None => false
  end.

Definition claimed (now : Z) (j : Job) : Job :=
  MkJob (Kind j) (TaskID j) (PayloadJSON j) JobRunning (Attempts j + 1) (MaxAttempts j) (RunAfter j)
    (Some now) (LastError j) (JCreatedAt j) now.

(** [queryClaimJob], on the row its subquery answered. *)
Definition queryClaimJob (now : Z) (id : string) (t : jobs) : jobs := alter (claimed now) id t.

(** [queryCompleteJob]. *)
Definition queryCompleteJob (now : Z) (id : string) (t : jobs) : jobs :=
  alter (fun j => MkJob (Kind j) (TaskID j) (PayloadJSON j) JobDone (Attempts j) (MaxAttempts j)
    (RunAfter j) (LockedAt j) (LastError j) (JCreatedAt j) now) id t.

(** [queryRescheduleJob] and [queryFailJob]. *)
Definition queryRescheduleJob (lastErr : string) (runAfter now : Z) (id : string) (t : jobs) : jobs :=
  alter (fun j => MkJob (Kind j) (TaskID j) (PayloadJSON j) JobPending (Attempts j) (MaxAttempts j)
    runAfter None (Some lastErr) (JCreatedAt j) now) id t.
Definition queryFailJob (lastErr : string) (now : Z) (id : string) (t : jobs) : jobs :=
  alter (fun j => MkJob (Kind j) (TaskID j) (PayloadJSON j) JobFailed (Attempts j) (MaxAttempts j)
    (RunAfter j) (LockedAt j) (Some lastErr) (JCreatedAt j) now) id t.

(** [queryRecoverRunningJobs]. *)
Definition recovered (j : Job) : Job :=
  if bool_decide (JState j = JobRunning) then
    MkJob (Kind j) (TaskID j) (PayloadJSON j) JobPending (Attempts j) (MaxAttempts j)
      (RunAfter j) None (LastError j) (JCreatedAt j) (JUpdatedAt j)
  else j.
Definition queryRecoverRunningJobs (t : jobs) : jobs := recovered <$> t.

(** [FailJob]: reschedule, or the terminal row. *)
Definition FailJob (id : string) (attempts maxAttempts : Z) (lastErr : string) (now : Z) (t : jobs) :
    jobs :=
  if maxAttempts <=? attempts then queryFailJob lastErr now id t
  else queryRescheduleJob lastErr (Backoff now attempts) now id t.

(** ** The statements of the post-processing chain and of the searches *)

Definition JobKindExtract : string := "extract".
Definition JobKindMove : string := "move".
Definition of_task (kind taskID : string) (j : Job) : bool :=
  bool_decide (Kind j = kind) && bool_decide (TaskID j = Some taskID).

(** A row as the resets leave it. *)
Definition reset_job (payload : string) (now : Z) (j : Job) : Job :=
  MkJob (Kind j) (TaskID j) payload JobPending 0 (MaxAttempts j) now None None (JCreatedAt j) now.
(** The rows they touch: a failed extraction; a move that is over, or waits with
    another payload. *)
Definition failed_extract (taskID : string) (j : Job) : bool :=
  of_task JobKindExtract taskID j && bool_decide (JState j = JobFailed).
Definition stale_move (taskID payload : string) (j : Job) : bool :=
  of_task JobKindMove taskID j &&
  (bool_decide (JState j = JobDone) || bool_decide (JState j = JobFailed)
   || bool_decide (JState j = JobPending) && bool_decide (PayloadJSON j <> payload)).

(** [queryPruneDoneJobs]. *)
Definition done_before (cutoff : Z) (j : Job) : bool := bool_decide (JState j = JobDone) && (JUpdatedAt j <? cutoff).
(** [queryDeleteSearchQueueRow]; [names]: the payload names the search, by
    SQLite's [json_extract]. *)
Definition of_search (names : string -> bool) (j : Job) : bool := bool_decide (Kind j = "search"%string) && names (PayloadJSON j).

(** What a write leaves behind, by the driver's answer. *)
Definition written (a : io) (before after : jobs) : jobs :=
  match a with IoFail => before | _ => after end.

(** ** The pool *)

(** The claimed columns [execute] works from. *)
Record held := MkHeld { h_id : string; h_kind : string; h_attempts : Z; h_max : Z }.

(** How a handler ends; a panic is an error ([runSafely]). *)
Inductive outcome := HandlerOk | HandlerErr (text : string).

(** What a history did to its jobs: how often each was claimed and reset, and
    the ones whose handler succeeded since they were last reset. *)
Record tally := MkTally { claims : gmap string nat; resets : gmap string nat; succeeded : gset string }.
Definition count_of (m : gmap string nat) (id : string) : nat := default 0%nat (m !! id).

(** [Worker] over its table.  The last three fields are a record of the past:
    the ids ever used, the tally, and the process starts. *)
Record pool := MkPool {
  table : jobs; busy : gmap nat held; handlers : gset string;
  used : gset string; tallied : tally; starts : nat }.

Definition set_table (t : jobs) (s : pool) : pool :=
  MkPool t (busy s) (handlers s) (used s) (tallied s) (starts s).
Definition set_busy (b : gmap nat held) (s : pool) : pool :=
  MkPool (table s) b (handlers s) (used s) (tallied s) (starts s).
Definition set_tallied (g : tally) (s : pool) : pool :=
  MkPool (table s) (busy s) (handlers s) (used s) g (starts s).

Definition counted_claim (id : string) (g : tally) : tally :=
  MkTally (<[id := S (count_of (claims g) id)]> (claims g)) (resets g) (succeeded g).
Definition counted_success (id : string) (g : tally) : tally :=
  MkTally (claims g) (resets g) ({[id]} ∪ succeeded g).
Definition counted_resets (t : jobs) (g : tally) : tally :=
  MkTally (claims g) (map_imap (fun id _ => Some (S (count_of (resets g) id))) t ∪ resets g) (succeeded g ∖ dom t).

(** A reset of the rows the guard selects. *)
Definition queryResetJobs (guard : Job -> bool) (f : Job -> Job) (t : jobs) : jobs :=
  (fun j => if guard j then f j else j) <$> t.
Definition reset_rows (guard : Job -> bool) (f : Job -> Job) (s : pool) : pool :=
  MkPool (queryResetJobs guard f (table s)) (busy s) (handlers s) (used s)
    (counted_resets (filter (fun p => guard p.2 = true) (table s)) (tallied s)) (starts s).
Definition delete_rows (guard : Job -> bool) (s : pool) : pool :=
  set_table (filter (fun p => guard p.2 = false) (table s)) s.

(** The kinds are plain words: [%q] only puts them between quotes. *)
Definition quote_mark : string := String (Ascii.ascii_of_nat 34) EmptyString.
Definition errNoHandler (kind : string) : string :=
  "jobs: no handler registered for kind " +:+ quote_mark +:+ kind +:+ quote_mark.

(** The rest of [execute] once the handler - if there is one - has ended with
    [r]: the outcome row, on whose write the driver answers [a]. *)
Definition execute (h : held) (r : outcome) (now : Z) (a : io) (s : pool) : pool :=
  if bool_decide (h_kind h ∈ handlers s) then
    match r with
    | HandlerErr text =>
      set_table (written a (table s) (FailJob (h_id h) (h_attempts h) (h_max h) text now (table s))) s
    | HandlerOk =>
      set_tallied (counted_success (h_id h) (tallied s))
        (set_table (written a (table s) (queryCompleteJob now (h_id h) (table s))) s)
    end
  else
    set_table (written a (table s)
      (FailJob (h_id h) (h_max h) (h_max h) (errNoHandler (h_kind h)) now (table s))) s.

Inductive job_event :=
  | JEnqueue (id kind : string) (taskID : option string) (payload : string) (runAfter now : Z)
  | JEnqueueSearch (id payload : string) (runAfter now : Z)
  | JClaim (w : nat) (id : string) (now : Z)        (* ClaimJob answers the row *)
  | JClaimLost (id : string) (now : Z)              (* it landed; the answer did not arrive *)
  | JFinish (w : nat) (r : outcome) (now : Z) (a : io)
  | JResetExtract (taskID : string) (now : Z)       (* enqueueExtract: the failed row *)
  | JResetMove (taskID payload : string) (now : Z)  (* enqueueMove: the stale row *)
  | JPrune (cutoff : Z)                             (* the nightly maintenance *)
  | JSearchDeleted (names : string -> bool)         (* DELETE /search/{id} *)
  | JTaskDeleted (taskID : string)                  (* the cascade of the foreign key *)
  | JRestart (registered : gset string) (a : io).   (* the process dies; Run recovers *)

(** One event; [None] when it cannot happen in this state. *)
Definition job_step (ev : job_event) (s : pool) : option pool :=
  match ev with
  | JEnqueue id kind taskID payload runAfter now =>
    if bool_decide (id ∈ used s) then None
    else Some (MkPool (queryEnqueueJob id kind taskID payload runAfter now (table s)) (busy s)
                 (handlers s) ({[id]} ∪ used s) (tallied s) (starts s))
  | JEnqueueSearch id payload runAfter now =>
    if bool_decide (id ∈ used s) then None
    else Some (MkPool (queryEnqueueSearchJob id payload runAfter now (table s)) (busy s)
                 (handlers s) ({[id]} ∪ used s) (tallied s) (starts s))
  | JClaim w id now =>
    match busy s !! w, table s !! id with
    | None, Some j =>
      if oldest_eligible now (table s) id then
        Some (set_busy (<[w := MkHeld id (Kind j) (Attempts j + 1) (MaxAttempts j)]> (busy s))
                (set_tallied (counted_claim id (tallied s)) (set_table (queryClaimJob now id (table s)) s)))
      else None
    | _, _ => None
    end
  | JClaimLost id now =>
    if oldest_eligible now (table s) id
    then Some (set_tallied (counted_claim id (tallied s)) (set_table (queryClaimJob now id (table s)) s)) else None
  | JFinish w r now a =>
    match busy s !! w with
    | Some h => Some (set_busy (delete w (busy s)) (execute h r now a s))
    | None => None
    end
  | JResetExtract taskID now =>
    Some (reset_rows (failed_extract taskID) (fun j => reset_job (PayloadJSON j) now j) s)
  | JResetMove taskID payload now => Some (reset_rows (stale_move taskID payload) (reset_job payload now) s)
  | JPrune cutoff => Some (delete_rows (done_before cutoff) s)
  | JSearchDeleted names => Some (delete_rows (of_search names) s)
  | JTaskDeleted taskID => Some (delete_rows (fun j => bool_decide (TaskID j = Some taskID)) s)
  | JRestart registered a =>
    Some (MkPool (written a (table s) (queryRecoverRunningJobs (table s))) ∅ registered
            (used s) (tallied s) (S (starts s)))
  end.

Fixpoint job_run (evs : list job_event) (s : pool) : option pool :=
  match evs with [] => Some s | ev :: evs => job_step ev s ≫= job_run evs end.

(** A fresh database before the first start. *)
Definition empty_pool : pool := MkPool ∅ ∅ ∅ ∅ (MkTally ∅ ∅ ∅) 0.
