(* ===== verification/JobsProps.v ===== *)
(** * Properties of the job queue *)

From stdpp Require Import fin_maps fin_map_dom.
From S2P Require Import Prelude World Jobs.

Open Scope Z_scope.

(** The retry ladder is [now + min(600000, 5000 * 2^attempts)] over the
    integers, a negative count reading as 0. *)
Theorem Backoff_spec now attempts :
  in_int64 now -> in_int64 (now + 600000) ->
  Backoff now attempts = now + 600000 `min` (5000 * 2 ^ (0 `max` attempts)).
Proof.
  intros Hn Hm. unfold Backoff, backoffMaxShift, backoffBaseDelayMS, backoffMaxDelayMS.
  set (a := if attempts <? 0 then 0 else attempts).
  assert (Ha : a = 0 `max` attempts) by (subst a; destruct (attempts <? 0) eqn:?; lia).
  rewrite <- Ha. destruct (7 <=? a) eqn:H7.
  - rewrite wrap64_id by done. assert (2 ^ 7 <= 2 ^ a) by (apply Z.pow_le_mono_r; lia). lia.
  - assert (Hc : a = 0 \/ a = 1 \/ a = 2 \/ a = 3 \/ a = 4 \/ a = 5 \/ a = 6) by lia.
    rewrite Z.shiftl_mul_pow2 by lia. unfold in_int64, int64_min, int64_max in *.
    assert (Hp : 1 <= 2 ^ a <= 64) by (destruct Hc as [->|[->|[->|[->|[->|[->| ->]]]]]]; by vm_compute).
    rewrite (wrap64_id (5000 * 2 ^ a)) by (unfold in_int64, int64_min, int64_max; lia).
    rewrite wrap64_id by (unfold in_int64, int64_min, int64_max; lia). lia.
Qed.

Lemma Backoff_spec_witness : Backoff 1000 3 = 1000 + 600000 `min` (5000 * 2 ^ (0 `max` 3)).
Proof. apply Backoff_spec; split; vm_compute; congruence. Defined.

(** ** The invariant *)

(** What one row may say after [n] process starts. *)
Definition row_inv (n : Z) (done : Prop) (j : Job) : Prop :=
  0 <= Attempts j /\ 0 < MaxAttempts j /\
  match JState j with
  | JobPending => Attempts j < MaxAttempts j + n
  | JobRunning => Attempts j <= MaxAttempts j + n
  | JobDone => Attempts j <= MaxAttempts j + n /\ done
  | JobFailed => Attempts j <= MaxAttempts j + n /\
      (MaxAttempts j <= Attempts j \/ LastError j = Some (errNoHandler (Kind j)))
  end.

(** A worker and the row it works on. *)
Definition holds_row (h : held) (j : Job) : Prop :=
  JState j = JobRunning /\ Attempts j = h_attempts h /\ MaxAttempts j = h_max h /\ Kind j = h_kind h.

Record pool_inv (s : pool) : Prop := {
  pi_used : forall id, is_Some (table s !! id) -> id ∈ used s;
  pi_known : forall w h, busy s !! w = Some h -> h_id h ∈ used s;
  pi_row : forall id j, table s !! id = Some j -> row_inv (Z.of_nat (starts s)) (id ∈ succeeded (tallied s)) j;
  pi_held : forall w h j, busy s !! w = Some h -> table s !! h_id h = Some j -> holds_row h j;
  pi_excl : forall w w' h h', busy s !! w = Some h -> busy s !! w' = Some h' ->
    h_id h = h_id h' -> w = w' }.

Lemma row_inv_mono n n' (P Q : Prop) j : n <= n' -> (P -> Q) -> row_inv n P j -> row_inv n' Q j.
Proof. unfold row_inv. intros Hn HP (H1 & H2 & H3). destruct (JState j); repeat split; try tauto; lia. Qed.

Lemma oldest_row now t id : oldest_eligible now t id = true ->
  exists j, t !! id = Some j /\ JState j = JobPending /\ RunAfter j <= now /\
    forall id' j', t !! id' = Some j' -> JState j' = JobPending -> RunAfter j' <= now ->
      RunAfter j <= RunAfter j'.
Proof.
  unfold oldest_eligible. destruct (t !! id) as [j|]; [|done].
  intros [He Hall]%andb_true_iff. unfold eligible in *.
  apply andb_true_iff in He as [Hs%bool_decide_eq_true Hr]. exists j.
  split; [done|]. split; [done|]. split; [lia|]. intros id' j' Hj Hs' Hr'.
  rewrite forallb_forall in Hall. specialize (Hall (id', j')). simpl in Hall.
  rewrite Hs', bool_decide_true in Hall by done.
  assert (Hin : In (id', j') (map_to_list t)) by by apply list_elem_of_In, elem_of_map_to_list.
  specialize (Hall Hin). lia.
Qed.

(** An outcome written on the held row, or nothing. *)
Lemma outcome_inv s w h f (g : tally) :
  pool_inv s -> busy s !! w = Some h -> succeeded (tallied s) ⊆ succeeded g ->
  (forall j, table s !! h_id h = Some j -> row_inv (Z.of_nat (starts s)) (h_id h ∈ succeeded g) (f j)) ->
  forall a, pool_inv (MkPool (written a (table s) (alter f (h_id h) (table s)))
    (delete w (busy s)) (handlers s) (used s) g (starts s)).
Proof.
  intros [Hu Hk Hr Hh He] Hw Hg Hf a.
  assert (Hothers : forall w' h', delete w (busy s) !! w' = Some h' ->
    busy s !! w' = Some h' /\ h_id h' <> h_id h).
  { intros w' h' [Hne Hb]%lookup_delete_Some. split; [done|]. intros E. apply Hne.
    symmetry. by eapply He. }
  set (t := written a _ _).
  assert (Ht : forall id j, t !! id = Some j ->
    (table s !! id = Some j) \/ (id = h_id h /\ exists j', table s !! id = Some j' /\ j = f j')).
  { intros id j Hj. subst t. destruct a; simpl in Hj; [|by left|];
      (destruct (decide (id = h_id h)) as [->|];
       [rewrite lookup_alter_eq in Hj; apply fmap_Some in Hj as (j' & Hj' & ->); eauto|
        rewrite lookup_alter_ne in Hj by congruence; by left]). }
  split; simpl.
  - intros id [j [Hj|(_ & j' & Hj & _)]%Ht]; eauto.
  - intros w' h' [Hb _]%Hothers. eauto.
  - intros id j [Hj|(-> & j' & Hj & ->)]%Ht; [|by apply Hf].
    eapply row_inv_mono; [| |by apply Hr]; [lia|set_solver].
  - intros w' h' j [Hb Hne]%Hothers [Hj|(E & _)]%Ht; [by eapply Hh|done].
  - intros w1 w2 h1 h2 [Hb1 _]%Hothers [Hb2 _]%Hothers. by apply He.
Qed.

Lemma claim_inv s id j now : pool_inv s -> table s !! id = Some j -> JState j = JobPending ->
  row_inv (Z.of_nat (starts s)) (id ∈ succeeded (tallied s)) (claimed now j) /\
  forall w h, busy s !! w = Some h -> h_id h <> id.
Proof.
  intros Hinv Hj Hs. split.
  - pose proof (pi_row _ Hinv _ _ Hj) as (H1 & H2 & H3). rewrite Hs in H3.
    unfold row_inv. simpl. lia.
  - intros w h Hw <-. destruct (pi_held _ Hinv _ _ _ Hw Hj) as [Hr _]. congruence.
Qed.

Lemma claim_table s id j now b g : succeeded g = succeeded (tallied s) ->
  pool_inv s -> table s !! id = Some j -> JState j = JobPending ->
  (b = busy s \/ exists w, busy s !! w = None /\
     b = <[w := MkHeld id (Kind j) (Attempts j + 1) (MaxAttempts j)]> (busy s)) ->
  pool_inv (MkPool (queryClaimJob now id (table s)) b (handlers s) (used s) g (starts s)).
Proof.
  intros Hg Hinv Hj Hs Hb. destruct (claim_inv s id j now Hinv Hj Hs) as [Hrow Hfree].
  destruct Hinv as [Hu Hk Hr Hh He].
  assert (Ht : forall i k, queryClaimJob now id (table s) !! i = Some k ->
    (i <> id /\ table s !! i = Some k) \/ (i = id /\ k = claimed now j)).
  { intros i k Hi. unfold queryClaimJob in Hi. destruct (decide (i = id)) as [->|Hne].
    - rewrite lookup_alter_eq, Hj in Hi. simplify_eq/=. by right.
    - rewrite lookup_alter_ne in Hi by congruence. by left. }
  assert (Hbusy : forall w h, b !! w = Some h -> busy s !! w = Some h \/
    (busy s !! w = None /\ h = MkHeld id (Kind j) (Attempts j + 1) (MaxAttempts j))).
  { intros w h Hw. destruct Hb as [->|(w0 & Hw0 & ->)]; [by left|].
    apply lookup_insert_Some in Hw as [[<- <-]|[_ Hw]]; [by right|by left]. }
  split; simpl.
  - intros i [k [[_ Hi]|[-> _]]%Ht]; eauto.
  - intros w h [Hw|[_ ->]]%Hbusy; [eauto|]. simpl. apply Hu. eauto.
  - rewrite Hg. intros i k [[_ Hi]|[-> ->]]%Ht; [by apply Hr|done].
  - intros w h k [Hw|[_ ->]]%Hbusy [[Hne Hi]|[Hi ->]]%Ht; [by eapply Hh| | |done].
    + by destruct (Hfree w h Hw).
    + done.
  - intros w w' h h' Hw Hw' Hid.
    destruct Hb as [->|(w0 & Hw0 & ->)]; [by eapply He|].
    apply lookup_insert_Some in Hw as [[<- <-]|[Hn Hw]];
      apply lookup_insert_Some in Hw' as [[<- <-]|[Hn' Hw']]; [done| | |by eapply He].
    + by destruct (Hfree _ _ Hw').
    + by destruct (Hfree _ _ Hw).
Qed.

(** A new row. *)
Lemma enqueue_inv s id j : pool_inv s -> id ∉ used s -> JState j = JobPending -> Attempts j = 0 -> 0 < MaxAttempts j ->
  pool_inv (MkPool (<[id := j]> (table s)) (busy s) (handlers s) ({[id]} ∪ used s) (tallied s) (starts s)).
Proof.
  intros [Hu Hk Hr Hh He] Hid Hs Ha Hm. split; simpl.
  - intros i [j' [[<- _]|[_ Hj]]%lookup_insert_Some]; [set_solver|]. assert (i ∈ used s) by eauto. set_solver.
  - intros w h Hw. specialize (Hk w h Hw). set_solver.
  - intros i j' [[<- <-]|[_ Hj]]%lookup_insert_Some; [|by apply Hr]. unfold row_inv. rewrite Hs. lia.
  - intros w h j' Hw [[E _]|[_ Hj]]%lookup_insert_Some; [|by eapply Hh]. destruct Hid. rewrite E. eauto.
  - done.
Qed.

(** Rows that no worker is at, put back to the start. *)
Lemma reset_inv s guard f : pool_inv s ->
  (forall j, guard j = true -> JState j <> JobRunning /\ JState (f j) = JobPending /\ Attempts (f j) = 0 /\ MaxAttempts (f j) = MaxAttempts j) ->
  pool_inv (reset_rows guard f s).
Proof.
  intros [Hu Hk Hr Hh He] Hf. unfold reset_rows, queryResetJobs.
  assert (Ht : forall i j, ((fun j => if guard j then f j else j) <$> table s) !! i = Some j ->
    exists k, table s !! i = Some k /\ (guard k = true /\ j = f k \/ guard k = false /\ j = k)).
  { intros i j. rewrite lookup_fmap. intros (k & Hi & ->)%fmap_Some. exists k. split; [done|]. destruct (guard k); auto. }
  split; simpl; try done.
  - intros i [j (k & Hi & _)%Ht]. eauto.
  - intros i j (k & Hi & Hj)%Ht. specialize (Hr _ _ Hi). destruct Hj as [[Hg ->]|[Hg ->]].
    + destruct (Hf k Hg) as (_ & E & Ea & Em). unfold row_inv in *. rewrite E, Ea, Em. lia.
    + eapply row_inv_mono; [reflexivity| |exact Hr]. intros Hin. apply elem_of_difference. split; [done|].
      intros (k' & [Hi' Hg']%map_lookup_filter_Some)%elem_of_dom. simplify_eq/=. congruence.
  - intros w h j Hw (k & Hi & Hj)%Ht. specialize (Hh _ _ _ Hw Hi). destruct Hj as [[Hg ->]|[_ ->]]; [|done].
    destruct (Hf k Hg) as [Hn _]. by destruct Hh.
Qed.

Lemma delete_inv s guard : pool_inv s -> pool_inv (delete_rows guard s).
Proof.
  intros [Hu Hk Hr Hh He]. split; simpl.
  - intros i [j [Hj _]%map_lookup_filter_Some]. eauto.
  - done.
  - intros i j [Hj _]%map_lookup_filter_Some. by apply Hr.
  - intros w h j Hw [Hj _]%map_lookup_filter_Some. by eapply Hh.
  - done.
Qed.

Lemma failed_extract_resets taskID now j : failed_extract taskID j = true ->
  let j' := reset_job (PayloadJSON j) now j in
  JState j <> JobRunning /\ JState j' = JobPending /\ Attempts j' = 0 /\ MaxAttempts j' = MaxAttempts j.
Proof. unfold failed_extract. intros [_ Hs%bool_decide_eq_true]%andb_true_iff. by rewrite Hs. Qed.
Lemma stale_move_resets taskID payload now j : stale_move taskID payload j = true ->
  let j' := reset_job payload now j in
  JState j <> JobRunning /\ JState j' = JobPending /\ Attempts j' = 0 /\ MaxAttempts j' = MaxAttempts j.
Proof. unfold stale_move. intros [_ Hs]%andb_true_iff. split; [|done]. intros E. by rewrite E in Hs. Qed.

Lemma job_step_inv ev s s' : pool_inv s -> job_step ev s = Some s' -> pool_inv s'.
Proof.
  intros Hinv Hstep.
  destruct ev as [id kind tid pl ra now|id pl ra now|w id now|id now|w r now a|tid now|tid pl now|cut|names|tid|reg a]; simpl in Hstep.
  - case_bool_decide as Hid; [done|]. simplify_eq. by apply enqueue_inv.
  - case_bool_decide as Hid; [done|]. simplify_eq. by apply enqueue_inv.
  - destruct (busy s !! w) eqn:Hw; [done|]. destruct (table s !! id) as [j|] eqn:Hj; [|done].
    destruct (oldest_eligible _ _ _) eqn:Ho; [|done]. simplify_eq.
    apply oldest_row in Ho as (j' & Hj' & Hs & _). simplify_eq.
    apply (claim_table s id j); eauto.
  - destruct (oldest_eligible _ _ _) eqn:Ho; [|done]. simplify_eq.
    apply oldest_row in Ho as (j & Hj & Hs & _). apply (claim_table s id j); eauto.
  - destruct (busy s !! w) as [h|] eqn:Hw; [|done]. simplify_eq.
    pose proof (pi_row _ Hinv) as Hr. pose proof (pi_held _ Hinv w h) as Hh.
    unfold execute. case_bool_decide; [destruct r as [|text]|]; unfold set_busy, set_table; simpl.
    + apply (outcome_inv s w h _ (counted_success (h_id h) (tallied s))); [done|done|simpl; set_solver|].
      intros j Hj. destruct (Hr _ _ Hj) as (H1 & H2 & H3). destruct (Hh j Hw Hj) as (E & _).
      rewrite E in H3. unfold row_inv. simpl. repeat split; [lia..|set_solver].
    + unfold FailJob. destruct (_ <=? _) eqn:Hmax; apply outcome_inv; try done;
        intros j Hj; destruct (Hr _ _ Hj) as (H1 & H2 & H3);
        destruct (Hh j Hw Hj) as (E & Ea & Em & _); rewrite E in H3; unfold row_inv; simpl;
        [|lia]. repeat split; [lia..|]. left. lia.
    + unfold FailJob. rewrite Z.leb_refl. apply outcome_inv; try done. intros j Hj.
      destruct (Hr _ _ Hj) as (H1 & H2 & H3). destruct (Hh j Hw Hj) as (E & Ea & Em & Ek).
      rewrite E in H3. unfold row_inv. simpl. repeat split; [lia..|]. right. by rewrite Ek.
  - simplify_eq. apply reset_inv; [done|apply failed_extract_resets].
  - simplify_eq. apply reset_inv; [done|apply stale_move_resets].
  - simplify_eq. by apply delete_inv.
  - simplify_eq. by apply delete_inv.
  - simplify_eq. by apply delete_inv.
  - simplify_eq. destruct Hinv as [Hu Hk Hr Hh He].
    assert (Ht : forall i j, written a (table s) (queryRecoverRunningJobs (table s)) !! i = Some j ->
      exists k, table s !! i = Some k /\ (j = k \/ j = recovered k)).
    { intros i j Hj. destruct a; simpl in Hj; [|by eauto|];
        unfold queryRecoverRunningJobs in Hj; rewrite lookup_fmap in Hj;
        apply fmap_Some in Hj as (k & Hk' & ->); eauto. }
    split; simpl; try done.
    + intros i [j (k & Hk' & _)%Ht]. eauto.
    + intros i j (k & Hk' & Hj)%Ht. specialize (Hr _ _ Hk').
      destruct Hj as [->| ->]; [eapply row_inv_mono; [| |exact Hr]; [lia|done]|].
      unfold recovered. case_bool_decide as E; [|eapply row_inv_mono; [| |exact Hr]; [lia|done]].
      destruct Hr as (H1 & H2 & H3). rewrite E in H3. unfold row_inv. simpl. lia.
Qed.

(** ** How often a job is attempted *)

(** The claims of a row: those of the rounds before its last reset, and the ones
    its column counts. *)
Record tally_inv (s : pool) : Prop := {
  ti_fresh : forall id, id ∉ used s -> count_of (claims (tallied s)) id = 0%nat;
  ti_claims : forall id j, table s !! id = Some j ->
    Z.of_nat (count_of (claims (tallied s)) id) <=
      Z.of_nat (count_of (resets (tallied s)) id) * (MaxAttempts j + Z.of_nat (starts s)) + Attempts j }.

Lemma tally_keep s s' : tally_inv s -> used s ⊆ used s' -> (starts s <= starts s')%nat ->
  claims (tallied s') = claims (tallied s) -> resets (tallied s') = resets (tallied s) ->
  (forall id j, table s' !! id = Some j -> ((id ∉ used s) /\ Attempts j = 0 /\ 0 < MaxAttempts j) \/
    exists k, table s !! id = Some k /\ MaxAttempts j = MaxAttempts k /\ Attempts j = Attempts k) -> tally_inv s'.
Proof.
  intros [Hf Hc] Hu Hs Ecl Ere Ht. split; rewrite ?Ecl, ?Ere.
  - intros id Hid. apply Hf. set_solver.
  - intros id j [(Hid & Ha & Hm)|(k & Hk & Em & Ea)]%Ht; [rewrite (Hf id Hid), Ha; nia|].
    specialize (Hc _ _ Hk). rewrite Em, Ea. nia.
Qed.

Lemma count_insert m id id' n : count_of (<[id := n]> m) id' = if decide (id = id') then n else count_of m id'.
Proof. unfold count_of. destruct (decide _) as [->|]; [by rewrite lookup_insert_eq|by rewrite lookup_insert_ne]. Qed.

Lemma claim_tally s id now b : pool_inv s -> tally_inv s -> oldest_eligible now (table s) id = true ->
  tally_inv (MkPool (queryClaimJob now id (table s)) b (handlers s) (used s) (counted_claim id (tallied s)) (starts s)).
Proof.
  intros Hinv [Hf Hc] (j & Hj & _)%oldest_row. unfold queryClaimJob. split; simpl.
  - intros i Hi. rewrite count_insert. case_decide; [|by apply Hf]. subst i. destruct Hi. apply (pi_used _ Hinv). eauto.
  - intros i k Hi. rewrite count_insert. case_decide as He.
    + subst i. rewrite lookup_alter_eq, Hj in Hi. simplify_eq/=. specialize (Hc _ _ Hj). lia.
    + rewrite lookup_alter_ne in Hi by done. by apply Hc.
Qed.

Lemma reset_tally s guard f : pool_inv s -> tally_inv s ->
  (forall j, guard j = true -> JState j <> JobRunning /\ JState (f j) = JobPending /\ Attempts (f j) = 0 /\ MaxAttempts (f j) = MaxAttempts j) ->
  tally_inv (reset_rows guard f s).
Proof.
  intros Hinv [Hf Hc] Hg. unfold reset_rows, queryResetJobs. split; simpl; [done|]. intros i j.
  rewrite lookup_fmap. intros (k & Hi & ->)%fmap_Some. specialize (Hc _ _ Hi).
  unfold count_of at 2. rewrite lookup_union, map_lookup_imap.
  destruct (guard k) eqn:Hk.
  - rewrite (proj2 (map_lookup_filter_Some _ _ _ _) (conj Hi Hk)). simpl. rewrite union_Some_l. simpl.
    destruct (Hg k Hk) as (_ & _ & -> & ->). pose proof (pi_row _ Hinv _ _ Hi) as (H1 & H2 & H3).
    assert (Attempts k <= MaxAttempts k + Z.of_nat (starts s)) by (destruct (JState k); lia). lia.
  - assert (filter (fun p => guard p.2 = true) (table s) !! i = None) as ->.
    { apply map_lookup_filter_None. right. intros k' Hk'. simplify_eq/=. congruence. }
    simpl. rewrite (left_id_L None _). exact Hc.
Qed.

Lemma job_step_tally ev s s' : pool_inv s -> tally_inv s -> job_step ev s = Some s' -> tally_inv s'.
Proof.
  intros Hinv Hti Hstep.
  assert (Halter : forall i f a k j, (forall j, MaxAttempts (f j) = MaxAttempts j /\ Attempts (f j) = Attempts j) ->
    written a (table s) (alter f i (table s)) !! k = Some j ->
    exists j0, table s !! k = Some j0 /\ MaxAttempts j = MaxAttempts j0 /\ Attempts j = Attempts j0).
  { intros i f a k j Hf Hj. destruct a; simpl in Hj; [|by exists j|]; rewrite lookup_alter in Hj;
      (case_decide; [apply fmap_Some in Hj as (j0 & Hj0 & ->); exists j0; split; [by subst|apply Hf]|by exists j]). }
  destruct ev as [id kind tid pl ra now|id pl ra now|w id now|id now|w r now a|tid now|tid pl now|cut|names|tid|reg a]; simpl in Hstep.
  - case_bool_decide as Hid; [done|]. simplify_eq. apply (tally_keep s); [done|set_solver|done..|]. simpl. unfold queryEnqueueJob, queryEnqueueSearchJob.
    intros i j [[<- <-]|[_ Hj]]%lookup_insert_Some; [by left|right; eauto].
  - case_bool_decide as Hid; [done|]. simplify_eq. apply (tally_keep s); [done|set_solver|done..|]. simpl. unfold queryEnqueueJob, queryEnqueueSearchJob.
    intros i j [[<- <-]|[_ Hj]]%lookup_insert_Some; [by left|right; eauto].
  - destruct (busy s !! w); [done|]. destruct (table s !! id); [|done].
    destruct (oldest_eligible _ _ _) eqn:Ho; [|done]. simplify_eq.
    by apply (claim_tally s id now).
  - destruct (oldest_eligible _ _ _) eqn:Ho; [|done]. simplify_eq.
    by apply (claim_tally s id now).
  - destruct (busy s !! w) as [h|]; [|done]. simplify_eq.
    assert (exists f g, execute h r now a s = MkPool (written a (table s) (alter f (h_id h) (table s))) (busy s) (handlers s) (used s) g (starts s) /\
      (forall j, MaxAttempts (f j) = MaxAttempts j /\ Attempts (f j) = Attempts j) /\
      claims g = claims (tallied s) /\ resets g = resets (tallied s)) as (f & g & -> & Hf & Hcl & Hre).
    { unfold execute, FailJob, queryFailJob, queryRescheduleJob, queryCompleteJob.
      case_bool_decide; [destruct r|]; try destruct (_ <=? _); do 2 eexists; by split_and!. }
    apply (tally_keep s); simpl; try done. intros i j Hj. right. by eapply Halter.
  - simplify_eq. apply reset_tally; [done|done|apply failed_extract_resets].
  - simplify_eq. apply reset_tally; [done|done|apply stale_move_resets].
  - simplify_eq. apply (tally_keep s); try done. intros i j [Hj _]%map_lookup_filter_Some. right. eauto.
  - simplify_eq. apply (tally_keep s); try done. intros i j [Hj _]%map_lookup_filter_Some. right. eauto.
  - simplify_eq. apply (tally_keep s); try done. intros i j [Hj _]%map_lookup_filter_Some. right. eauto.
  - simplify_eq. apply (tally_keep s); [done|done|simpl; lia|done..|]. simpl. intros i j Hj. right. destruct a; simpl in Hj; [|by eauto|];
      unfold queryRecoverRunningJobs in Hj; rewrite lookup_fmap in Hj; apply fmap_Some in Hj as (k & Hk & ->);
      exists k; (split; [done|]); unfold recovered; by case_bool_decide.
Qed.

Lemma job_run_invs evs s' : job_run evs empty_pool = Some s' -> pool_inv s' /\ tally_inv s'.
Proof.
  assert (H : forall s, pool_inv s -> tally_inv s -> job_run evs s = Some s' -> pool_inv s' /\ tally_inv s').
  { induction evs as [|ev evs IH]; intros s Hi Ht Hr; simpl in Hr; [by simplify_eq|].
    apply bind_Some in Hr as (s1 & H1 & H2). eapply IH; [by eapply job_step_inv|by eapply job_step_tally|done]. }
  apply H; [|by split]. split; try done; intros; try (by rewrite lookup_empty in * ).
  by destruct H0.
Qed.

Lemma job_run_inv evs s' : job_run evs empty_pool = Some s' -> pool_inv s'.
Proof. by intros [? _]%job_run_invs. Qed.

(** ** Theorems *)

(** C18: In every history - failed and lost writes, crashes at any point, cascaded
    deletions - no two workers of a process work on the same job, and the row
    of a job being worked on is running with the attempt its worker counted. *)
Theorem jobs_exclusive evs s : job_run evs empty_pool = Some s ->
  (forall w w' h h', busy s !! w = Some h -> busy s !! w' = Some h' -> h_id h = h_id h' -> w = w') /\
  (forall w h j, busy s !! w = Some h -> table s !! h_id h = Some j -> holds_row h j).
Proof. intros Hrun%job_run_inv. split; [apply (pi_excl _ Hrun)|apply (pi_held _ Hrun)]. Qed.

(** C19: A row is done only if its handler succeeded since it was last reset, failed
    only once its attempts are spent or no handler exists for its kind.  Its
    column counts at most [max_attempts] attempts plus one for every start of
    the process, and over its whole life the row is claimed at most that often
    for its creation and that often again for each time the post-processing
    chain put it back. *)
Theorem jobs_outcomes evs s id j : job_run evs empty_pool = Some s -> table s !! id = Some j ->
  Attempts j <= MaxAttempts j + Z.of_nat (starts s) /\
  Z.of_nat (count_of (claims (tallied s)) id) <=
    (1 + Z.of_nat (count_of (resets (tallied s)) id)) * (MaxAttempts j + Z.of_nat (starts s)) /\
  (JState j = JobDone -> id ∈ succeeded (tallied s)) /\
  (JState j = JobFailed -> MaxAttempts j <= Attempts j \/ LastError j = Some (errNoHandler (Kind j))).
Proof.
  intros [Hrun Hti]%job_run_invs Hj. destruct (pi_row _ Hrun _ _ Hj) as (H1 & H2 & H3).
  pose proof (ti_claims _ Hti _ _ Hj) as Hc.
  assert (Ha : Attempts j <= MaxAttempts j + Z.of_nat (starts s)) by (destruct (JState j); lia).
  split; [done|]. split; [lia|]. destruct (JState j); split; try done; tauto.
Qed.

Definition terminal (j : Job) : Prop := JState j = JobDone \/ JState j = JobFailed.

(** Every event but the resets of the chain. *)
Definition no_reset (ev : job_event) : Prop :=
  match ev with JResetExtract _ _ | JResetMove _ _ _ => False | _ => True end.

Lemma deleted_row guard s id j : table s !! id = Some j ->
  table (delete_rows guard s) !! id = Some j \/ table (delete_rows guard s) !! id = None.
Proof.
  intros Hj. simpl. destruct (filter _ _ !! id) eqn:Hf; [|by right].
  apply map_lookup_filter_Some in Hf as [Hf _]. left. congruence.
Qed.

Lemma terminal_step ev s s' id j : no_reset ev -> pool_inv s -> job_step ev s = Some s' ->
  table s !! id = Some j -> terminal j -> table s' !! id = Some j \/ table s' !! id = None.
Proof.
  intros Hno Hinv Hstep Hj Ht.
  assert (Halter : forall i f a, (forall w h, busy s !! w = Some h -> h_id h = i -> i <> id) ->
    (exists w h, busy s !! w = Some h /\ h_id h = i) ->
    written a (table s) (alter f i (table s)) !! id = Some j).
  { intros i f a Hne (w & h & Hw & Hi). specialize (Hne w h Hw Hi).
    destruct a; simpl; [|done|]; by rewrite lookup_alter_ne. }
  assert (Hclaim : forall i now, oldest_eligible now (table s) i = true ->
    queryClaimJob now i (table s) !! id = Some j).
  { intros i now (k & Hk & Hs & _)%oldest_row. unfold queryClaimJob.
    rewrite lookup_alter_ne; [done|]. intros ->. simplify_eq. destruct Ht; congruence. }
  assert (Hfree : forall w h i, busy s !! w = Some h -> h_id h = i -> i <> id).
  { intros w h i Hw <- E. rewrite <- E in Hj. destruct (pi_held _ Hinv _ _ _ Hw Hj) as [Hr _].
    destruct Ht; congruence. }
  assert (Hnew : forall i k, i ∉ used s -> <[i := k]> (table s) !! id = Some j).
  { intros i k Hi. rewrite lookup_insert_ne; [done|]. intros ->. apply Hi. apply (pi_used _ Hinv). eauto. }
  destruct ev as [i kind tid pl ra now|i pl ra now|w i now|i now|w r now a|tid now|tid pl now|cut|names|tid|reg a]; simpl in Hstep.
  - case_bool_decide as Hi; [done|]. simplify_eq. left. by apply Hnew.
  - case_bool_decide as Hi; [done|]. simplify_eq. left. by apply Hnew.
  - destruct (busy s !! w); [done|]. destruct (table s !! i); [|done].
    destruct (oldest_eligible _ _ _) eqn:Ho; [|done]. simplify_eq. left. by apply Hclaim.
  - destruct (oldest_eligible _ _ _) eqn:Ho; [|done]. simplify_eq. left. by apply Hclaim.
  - destruct (busy s !! w) as [h|] eqn:Hw; [|done]. simplify_eq. left.
    unfold execute, FailJob, queryFailJob, queryRescheduleJob, queryCompleteJob.
    case_bool_decide; [destruct r|]; try destruct (_ <=? _);
      simpl; (apply Halter; [intros w' h'; apply Hfree|by exists w, h]).
  - done.
  - done.
  - simplify_eq. by apply deleted_row.
  - simplify_eq. by apply deleted_row.
  - simplify_eq. by apply deleted_row.
  - simplify_eq. left. simpl.
    assert (Hrec : queryRecoverRunningJobs (table s) !! id = Some j).
    { unfold queryRecoverRunningJobs. rewrite lookup_fmap, Hj. simpl. unfold recovered.
      rewrite bool_decide_false; [done|]. destruct Ht; congruence. }
    by destruct a.
Qed.

(** An id is used once: no event brings a row back. *)
Lemma absent_step ev s s' id : id ∈ used s -> table s !! id = None -> job_step ev s = Some s' ->
  id ∈ used s' /\ table s' !! id = None.
Proof.
  intros Hu Hn Hs. destruct ev as [i kind tid pl ra now|i pl ra now|w i now|i now|w r now a|tid now|tid pl now|cut|names|tid|reg a]; simpl in Hs.
  - case_bool_decide as E; [done|]. simplify_eq. simpl. split; [set_solver|].
    unfold queryEnqueueJob. rewrite lookup_insert_ne; [done|]. by intros ->.
  - case_bool_decide as E; [done|]. simplify_eq. simpl. split; [set_solver|].
    unfold queryEnqueueSearchJob. rewrite lookup_insert_ne; [done|]. by intros ->.
  - destruct (busy s !! w); [done|]. destruct (table s !! i); [|done].
    destruct (oldest_eligible _ _ _); [|done]. simplify_eq. split; [done|]. simpl.
    unfold queryClaimJob. by rewrite lookup_alter_None.
  - destruct (oldest_eligible _ _ _); [|done]. simplify_eq. split; [done|]. simpl.
    unfold queryClaimJob. by rewrite lookup_alter_None.
  - destruct (busy s !! w); [|done]. simplify_eq.
    unfold execute, FailJob, queryFailJob, queryRescheduleJob, queryCompleteJob.
    case_bool_decide; [destruct r|]; try destruct (_ <=? _); (split; [done|]); simpl;
      destruct a; simpl; by rewrite ?lookup_alter_None.
  - simplify_eq. split; [done|]. simpl. unfold queryResetJobs. by rewrite lookup_fmap, Hn.
  - simplify_eq. split; [done|]. simpl. unfold queryResetJobs. by rewrite lookup_fmap, Hn.
  - simplify_eq. split; [done|]. simpl. apply map_lookup_filter_None. by left.
  - simplify_eq. split; [done|]. simpl. apply map_lookup_filter_None. by left.
  - simplify_eq. split; [done|]. simpl. apply map_lookup_filter_None. by left.
  - simplify_eq. split; [done|]. simpl. destruct a; simpl; [|done|];
      unfold queryRecoverRunningJobs; by rewrite lookup_fmap, Hn.
Qed.
Lemma absent_run evs s s' id : id ∈ used s -> table s !! id = None -> job_run evs s = Some s' -> table s' !! id = None.
Proof.
  revert s. induction evs as [|ev evs IH]; intros s Hu Hn Hr; simpl in Hr; [by simplify_eq|].
  apply bind_Some in Hr as (s1 & H1 & H2). destruct (absent_step _ _ _ _ Hu Hn H1). by eapply IH.
Qed.
Lemma used_step ev s s' : job_step ev s = Some s' -> used s ⊆ used s'.
Proof.
  destruct ev; simpl; intros; repeat case_match; simplify_eq; simpl; try done; try set_solver.
  unfold execute. case_bool_decide; [by destruct r|done].
Qed.

(** A done or failed row is the record of its job until the chain resets it:
    nothing else, a restart included, changes it; it only goes away - with its
    task or its search, or to the prune. *)
Theorem jobs_terminal evs evs' s s' id j :
  job_run evs empty_pool = Some s -> job_run evs' s = Some s' -> Forall no_reset evs' ->
  table s !! id = Some j -> terminal j ->
  table s' !! id = Some j \/ table s' !! id = None.
Proof.
  intros Hrun%job_run_inv Hrun' Hno Hj Ht.
  revert s Hrun Hrun' Hj. induction Hno as [|ev evs' Hev Hno IH]; intros s Hi Hr Hj; simpl in Hr.
  { simplify_eq. by left. }
  apply bind_Some in Hr as (s1 & H1 & H2). assert (Hi1 := job_step_inv _ _ _ Hi H1).
  destruct (terminal_step _ _ _ _ _ Hev Hi H1 Hj Ht) as [Hj1|Hn]; [by eapply IH|].
  right. eapply (absent_run evs' s1); [|done..]. apply (used_step _ _ _ H1), (pi_used _ Hi). eauto.
Qed.

Lemma oldest_exists (l : list (string * Job)) : l <> [] ->
  exists p, p ∈ l /\ forall q, q ∈ l -> RunAfter p.2 <= RunAfter q.2.
Proof.
  induction l as [|a l IH]; [done|]. intros _. destruct l as [|b l'].
  - exists a. split; [by left|]. intros q [->|Hq]%elem_of_cons; [lia|by apply elem_of_nil in Hq].
  - destruct IH as (p & Hp & Hmin); [done|].
    destruct (Z.le_gt_cases (RunAfter a.2) (RunAfter p.2)).
    + exists a. split; [by left|]. intros q [->|Hq]%elem_of_cons; [lia|]. specialize (Hmin q Hq). lia.
    + exists p. split; [by right|]. intros q [->|Hq]%elem_of_cons; [lia|]. by apply Hmin.
Qed.

(** A due job never waits behind the table: whenever some row is due an idle
    worker can claim one, and any claim takes a row due no later than every
    other due row. *)
Theorem claims_progress s w now id j :
  busy s !! w = None -> table s !! id = Some j -> eligible now j = true ->
  (exists id' s', job_step (JClaim w id' now) s = Some s') /\
  (forall id' s', job_step (JClaim w id' now) s = Some s' ->
     exists k, table s !! id' = Some k /\ JState k = JobPending /\ RunAfter k <= RunAfter j).
Proof.
  intros Hw Hj He. split.
  - destruct (oldest_exists (List.filter (fun p => eligible now p.2) (map_to_list (table s))))
      as ([i k] & Hin & Hmin).
    { intros E. assert (Hx : (id, j) ∈ List.filter (fun p => eligible now p.2) (map_to_list (table s))).
      { apply elem_of_filter_bool. split; [done|]. by apply elem_of_map_to_list. }
      rewrite E in Hx. by apply elem_of_nil in Hx. }
    apply elem_of_filter_bool in Hin as [Hk Hin]. apply elem_of_map_to_list in Hin. simpl in *.
    assert (Ho : oldest_eligible now (table s) i = true).
    { unfold oldest_eligible. rewrite Hin, Hk. simpl. apply forallb_forall.
      intros [i' k'] Hi'%list_elem_of_In. simpl. destruct (eligible now k') eqn:Hk'; [|done]. simpl.
      apply Z.leb_le, (Hmin (i', k')). by apply elem_of_filter_bool. }
    exists i. simpl. rewrite Hw, Hin, Ho. eauto.
  - intros id' s'. simpl. rewrite Hw. destruct (table s !! id') as [k|] eqn:Hk; [|done].
    destruct (oldest_eligible _ _ _) eqn:Ho; [|done]. intros _.
    apply oldest_row in Ho as (k' & Hk' & Hs & _ & Hmin). simplify_eq. exists k.
    split; [done|]. split; [done|]. unfold eligible in He.
    apply andb_true_iff in He as [He%bool_decide_eq_true Hr]. apply (Hmin id j); [done|done|lia].
Qed.

(** A restart whose recovery lands strands nothing: every row is still there,
    none is running, what was running is pending and unlocked, and every other
    row is unchanged. *)
Theorem restart_recovers s s' registered :
  job_step (JRestart registered IoOk) s = Some s' ->
  busy s' = ∅ /\
  forall id, match table s !! id with
    | None => table s' !! id = None
    | Some j => exists j', table s' !! id = Some j' /\ JState j' <> JobRunning /\
        (JState j <> JobRunning -> j' = j) /\
        (JState j = JobRunning -> JState j' = JobPending /\ LockedAt j' = None /\ Attempts j' = Attempts j)
    end.
Proof.
  simpl. intros [= <-]. split; [done|]. intros id. simpl. unfold queryRecoverRunningJobs.
  rewrite lookup_fmap. destruct (table s !! id) as [j|]; [|done]. simpl. exists (recovered j).
  split; [done|]. unfold recovered. case_bool_decide as E; simpl; [|done]. by repeat split.
Qed.

(** ** A short history *)

(** Two jobs; one worker dies with the process, the other job is retried. *)
Definition job_story : list job_event :=
  [JRestart {["move"%string]} IoOk; JEnqueueSearch "j3" "{}" 90 1;
   JEnqueue "j1" "move" (Some "a"%string) "{}" 10 1; JEnqueue "j2" "move" None "{}" 20 2;
   JClaim 0 "j1" 30; JClaim 1 "j2" 30; JFinish 1 (HandlerErr "disk") 40 IoOk;
   JRestart {["move"%string]} IoOk; JClaim 0 "j1" 50; JFinish 0 HandlerOk 60 IoOk].
Definition story_end : pool := default empty_pool (job_run job_story empty_pool).

Lemma story_runs : job_run job_story empty_pool = Some story_end.
Proof. by vm_compute. Qed.

Definition story_mid : pool := default empty_pool (job_run (take 6 job_story) empty_pool).

Lemma jobs_exclusive_witness :
  exists h h', busy story_mid !! 0%nat = Some h /\ busy story_mid !! 1%nat = Some h' /\ h_id h <> h_id h'.
Proof.
  exists (MkHeld "j1" "move" 1 5), (MkHeld "j2" "move" 1 5).
  assert (H : job_run (take 6 job_story) empty_pool = Some story_mid) by by vm_compute.
  destruct (jobs_exclusive _ _ H) as [He _].
  split; [by vm_compute|]. split; [by vm_compute|]. intros E.
  by assert (0%nat = 1%nat) by (eapply He; [by vm_compute|by vm_compute|done]).
Defined.

(** The chain puts the finished move back; it runs again. *)
Definition story_again : list job_event := job_story ++ [JResetMove "a" "{2}" 70; JClaim 0 "j1" 80; JFinish 0 HandlerOk 90 IoOk].
Definition again_end : pool := default empty_pool (job_run story_again empty_pool).

Lemma jobs_outcomes_witness :
  exists j, table again_end !! "j1"%string = Some j /\ JState j = JobDone /\ Attempts j = 1 /\
    count_of (claims (tallied again_end)) "j1" = 3%nat /\ count_of (resets (tallied again_end)) "j1" = 1%nat /\
    Z.of_nat (count_of (claims (tallied again_end)) "j1") <=
      (1 + Z.of_nat (count_of (resets (tallied again_end)) "j1")) * (MaxAttempts j + Z.of_nat (starts again_end)) /\
    "j1"%string ∈ succeeded (tallied again_end).
Proof.
  assert (Hrun : job_run story_again empty_pool = Some again_end) by by vm_compute.
  exists (MkJob "move" (Some "a"%string) "{2}" JobDone 1 5 70 (Some 80) None 1 90).
  assert (Hj : table again_end !! "j1"%string =
    Some (MkJob "move" (Some "a"%string) "{2}" JobDone 1 5 70 (Some 80) None 1 90)) by by vm_compute.
  destruct (jobs_outcomes story_again again_end _ _ Hrun Hj) as (_ & Hc & Hs & _).
  split; [done|]. split; [done|]. split; [done|]. split; [by vm_compute|]. split; [by vm_compute|].
  split; [exact Hc|by apply Hs].
Defined.

Lemma jobs_terminal_witness :
  table (default empty_pool (job_run [JRestart ∅ IoFail] story_end)) !! "j1"%string =
    Some (MkJob "move" (Some "a"%string) "{}" JobDone 2 5 10 (Some 50) None 1 60).
Proof.
  assert (Hj : table story_end !! "j1"%string =
    Some (MkJob "move" (Some "a"%string) "{}" JobDone 2 5 10 (Some 50) None 1 60)) by by vm_compute.
  destruct (jobs_terminal job_story [JRestart ∅ IoFail] story_end
    (default empty_pool (job_run [JRestart ∅ IoFail] story_end)) "j1" _ story_runs eq_refl
    (list.Forall_cons_2 no_reset (JRestart ∅ IoFail) [] I (list.Forall_nil_2 _)) Hj (or_introl eq_refl)) as [H|H]; [exact H|]. exfalso. by vm_compute in H.
Defined.

Lemma claims_progress_witness :
  exists id s', job_step (JClaim 0 id 10040) story_end = Some s'.
Proof.
  assert (Hj : table story_end !! "j2"%string =
    Some (MkJob "move" None "{}" JobPending 1 5 10040 None (Some "disk"%string) 2 40)) by by vm_compute.
  assert (Hw : busy story_end !! 0%nat = None) by by vm_compute.
  exact (proj1 (claims_progress story_end 0 10040 "j2" _ Hw Hj eq_refl)).
Defined.

Definition story_restarted : pool := default empty_pool (job_step (JRestart ∅ IoOk) story_mid).

Lemma restart_recovers_witness :
  exists j, table story_restarted !! "j1"%string = Some j /\ JState j <> JobRunning.
Proof.
  assert (Hs : job_step (JRestart ∅ IoOk) story_mid = Some story_restarted) by by vm_compute.
  destruct (restart_recovers story_mid story_restarted ∅ Hs) as [_ H]. specialize (H "j1"%string).
  assert (Hj : table story_mid !! "j1"%string =
    Some (MkJob "move" (Some "a"%string) "{}" JobRunning 1 5 10 (Some 30) None 1 30)) by by vm_compute.
  rewrite Hj in H. destruct H as (j' & Hj' & Hn & _). exists j'. exact (conj Hj' Hn).
Defined.
