(* ===== verification/Actions.v ===== *)
(** * The task actions ([internal/api/tasks_actions.go], [tasks_delete.go], [internal/fsx/delete.go])

    [POST /tasks/actions] applies one of nine actions to a list of ids and
    answers with one outcome per id; [DELETE /tasks/{id}] is the six-step
    removal with the shared executor [DeleteData].  The handlers compose the
    store's methods, the engines, the task-operation lease and the disk; they
    run here in the command monad, one request at a time.  Log records and the
    JSON shapes are left out; PATCH is not modelled. *)

From stdpp Require Import sorting fin_maps pretty.
From S2P Require Import Prelude GoStrings TaskState Schema Lease World Store Engine SafePath SafeJoin Confine Queue Admission.

(** ** Outcomes *)

Inductive slug :=
  | SlugNotFound | SlugValidationFailed | SlugEngineUnavailable | SlugPathRejected
  | SlugConcurrencyLimit | SlugSSRFBlocked | SlugInternal.
#[global] Instance slug_eq_dec : EqDecision slug.
Proof. solve_decision. Defined.

(** [Problem]. *)
Record problem := MkProblem { p_slug : slug; p_status : Z; p_detail : string }.

(** [ActionResult]. *)
Record ActionResult := MkResult { ID : string; Ok : bool; Type_ : option slug; Detail : string }.

Definition success (id : string) : ActionResult := MkResult id true None EmptyString.

(** [actionFailure]. *)
Definition actionFailure (id : string) (s : slug) (detail : string) : ActionResult :=
  MkResult id false (Some s) detail.

Definition internal : problem := MkProblem SlugInternal 500 "an internal error occurred".

Definition detailTaskNotFound : string := "the task does not exist".
Definition detailEngineFailed : string := "the engine did not accept the action".
Definition detailUnsupportedAction : string := "the engine does not support this action".
Definition detailIllegalState : string := "the task's state does not allow this action".
Definition detailSSRFBlockedAction : string :=
  "the task's uri was refused by the ssrf guard; remove it and submit a different uri".
Definition detailNotInQueue : string := "the task is not in the queue".
Definition detailActionFailed : string := "the action could not be applied".
Definition detailTaskOpBusy : string := "another task operation is in progress; retry".
Definition emptyIDsDetail : string := "ids is required; send between 1 and 500 task ids".
Definition bothDeleteFlagsDetail : string := "delete_data and force_complete are mutually exclusive".
Definition tooManyIDs (n : nat) : string :=
  "ids holds " +:+ pretty n +:+ " entries; send between 1 and 500".
Definition pathRejectedDetail (n : nat) : string :=
  pretty n +:+ " recorded path(s) resolve outside every configured data root".

(** ** The vocabulary *)

Definition taskActions : list string :=
  ["pause"; "resume"; "remove"; "recheck"; "force_complete"; "queue_top"; "queue_up"; "queue_down";
   "queue_bottom"]%string.
Definition unknownAction (action : string) : string :=
  "action " +:+ quote action +:+ " is not one of pause,resume,remove,recheck,force_complete,queue_top,queue_up,queue_down,queue_bottom".
Definition maxActionIDs : nat := 500.
Definition errorCodeSSRFBlocked : string := "ssrf_blocked".

(** [actionTask]. *)
Record actionTask := MkActionTask {
  at_ID : string; at_Engine : string; at_EngineRef : option string; at_State : TaskState;
  at_ErrorCode : option string; at_Destination : string }.

Definition action_task (id : string) (t : task) : actionTask :=
  MkActionTask id (t_engine t) (t_engine_ref t) (t_state t) (t_error_code t) (t_destination t).

(** [queryActionTasks], keyed on the id. *)
Definition queryActionTasks (ids : list string) (d : db) : gmap string actionTask :=
  map_imap (fun id t => if contains ids id then Some (action_task id t) else None) (d_tasks d).

(** [queueMove]. *)
Definition queueMove (action : string) : option QueueMove :=
  if bool_decide (action = "queue_top"%string) then Some QueueMoveTop
  else if bool_decide (action = "queue_up"%string) then Some QueueMoveUp
  else if bool_decide (action = "queue_down"%string) then Some QueueMoveDown
  else if bool_decide (action = "queue_bottom"%string) then Some QueueMoveBottom
  else None.

(** [actionOutcome]: target state, event code and message. *)
Definition actionOutcome (action : string) : TaskState * string * string :=
  if bool_decide (action = "pause"%string)
  then (StatePaused, "task.paused", "paused by user request")%string
  else if bool_decide (action = "resume"%string)
  then (StateQueued, "task.resumed", "resumed by user request")%string
  else if bool_decide (action = "remove"%string)
  then (StateRemoved, "task.removed", "removed by user request")%string
  else (StateCompleted, "task.force_completed", "completed by user request")%string.

(** ** The recorded files *)

(** [queryListTaskFiles], in [file_index] order. *)
Definition index_le (p q : Z * TaskFile) : Prop := (p.1 <= q.1)%Z.
#[global] Instance index_le_dec p q : Decision (index_le p q).
Proof. unfold index_le. apply _. Defined.

Definition queryListTaskFiles (id : string) (d : db) : list TaskFile :=
  snd <$> merge_sort index_le
    (omap (fun p => if bool_decide (p.1.1 = id) then Some (p.1.2, p.2) else None) (map_to_list (d_files d))).

(** [fsx.Target]. *)
Record Target := MkTarget { Path : list Z; Bytes : Z }.

(** [filepath.Dir]. *)
Definition Dir (p : list Z) : list Z := Clean (Split p).1.

(** [recordedTargets]. *)
Definition recordedTargets (destination : string) (files : list TaskFile) : list Target :=
  (fun f => MkTarget (PathJoin (bytes_of destination) (bytes_of (f_path f))) (f_size_bytes f)) <$> files.

(** [ownDir]. *)
Definition ownDir (destination : string) (targets : list Target) : list Z :=
  match targets with
  | [] => []
  | t :: targets =>
    let dir := Dir (Path t) in
    if forallb (fun u => bool_decide (Dir (Path u) = dir)) targets then
      if bool_decide (dir = Clean (bytes_of destination)) then [] else dir
    else []
  end.

(** ** The disk *)

Inductive removal := Removed | NotExist | RemoveFailed.

(** The file system the executor works on, as part of the environment: the
    working directory, what a path resolves to, [os.Remove]. *)
Class Disk (E : Type) := {
  disk_Getwd : E -> option (list Z);
  disk_EvalSymlinks : E -> list Z -> option (list Z);
  disk_Remove : list Z -> E -> removal * E }.

(** The optional capability of an engine that can re-verify data. *)
Class Recheckable (E : Type) := {
  recheckable : string -> bool;
  eng_Recheck : string -> string -> E -> res unit * E }.

Section Handlers.
Context {E : Type} `{!EngineApi E, !Disk E, !Recheckable E}.
(** The configured data roots. *)
Context (roots : list (list Z)).
Abbreviation M := (M E).

(** Whether a path resolves inside a root now. *)
Definition resolves (e : E) (p : list Z) : bool :=
  bool_decide (is_Some (ResolveDestination (disk_Getwd e) (disk_EvalSymlinks e) roots p)).

Definition Remove (p : list Z) : M removal := fun o w =>
  let (r, e) := disk_Remove p (w_eng w) in (inr r, set_eng e w).

(** [DeleteResult]: files unlinked, their bytes, files already gone. *)
Record DeleteResult := MkDeleted { FilesUnlinked : Z; BytesUnlinked : Z; Missing : Z }.

(** The unlink loop. *)
Fixpoint unlink_all (targets : list Target) (result : DeleteResult) : M DeleteResult :=
  match targets with
  | [] => mret result
  | t :: targets =>
    r ← Remove (Path t);
    unlink_all targets
      match r with
      | Removed => MkDeleted (FilesUnlinked result + 1) (wrap64 (BytesUnlinked result + Bytes t)) (Missing result)
      | NotExist => MkDeleted (FilesUnlinked result) (BytesUnlinked result) (Missing result + 1)
      | RemoveFailed => result
      end
  end.

(** [removeTaskDir]. *)
Definition removeTaskDir (taskDir : list Z) : M unit :=
  if bool_decide (taskDir = []) then mret tt
  else
    inside ← gets (fun w => resolves (w_eng w) taskDir);
    if inside : bool then _ ← Remove taskDir; mret tt else mret tt.

(** [DeleteData]; [ErrFs] is [ErrPathRejected]. *)
Definition DeleteData (taskDir : list Z) (targets : list Target) : M DeleteResult :=
  cancelled ← ctx_done;
  if cancelled : bool then fail ErrContext
  else
    inside ← gets (fun w => forallb (fun t => resolves (w_eng w) (Path t)) targets);
    if negb inside then fail ErrFs
    else
      result ← unlink_all targets (MkDeleted 0 0 0);
      removeTaskDir taskDir ;;
      mret result.

(** ** The engines and the store, per id *)

(** [engineFor] with [engineTaskID]: the handle to call, nothing to call, or
    an engine that is not registered. *)
Definition engineFor (t : actionTask) : res (option string) :=
  match at_EngineRef t with
  | None => inr None
  | Some ref =>
    if registry_get (at_Engine t) then inr (Some (namespacedHandle (at_Engine t) ref))
    else inl EngErrUnavailable
  end.

Definition reach (t : actionTask) (f : string -> string -> E -> res unit * E) : M (res unit) :=
  match engineFor t with
  | inl e => mret (inl e)
  | inr None => mret (inr tt)
  | inr (Some handle) => attempt (call (f (at_Engine t) handle))
  end.

(** [engineFailure]. *)
Definition engineFailure (id : string) (e : err) : ActionResult :=
  if errors_is e EngErrUnavailable then actionFailure id SlugEngineUnavailable detailEngineFailed
  else if errors_is e EngErrNotSupported then actionFailure id SlugValidationFailed detailUnsupportedAction
  else actionFailure id SlugInternal detailActionFailed.

(** The per-id outcome of a store error. *)
Definition storeFailure (id : string) (e : err) : ActionResult :=
  if errors_is e ErrNotFound then actionFailure id SlugNotFound detailTaskNotFound
  else if errors_is e ErrIllegalTransition || errors_is e ErrTransitionConflict
  then actionFailure id SlugValidationFailed detailIllegalState
  else actionFailure id SlugInternal detailActionFailed.

(** [transitionAction]. *)
Definition transitionAction (t : actionTask) (target : TaskState) (code message : string) : M ActionResult :=
  if bool_decide (at_State t = target) then mret (success (at_ID t))
  else
    r ← attempt (Transition (at_ID t) target code message);
    mret match r with inr _ => success (at_ID t) | inl e => storeFailure (at_ID t) e end.

(** [AcquireTaskOp] in mode [TaskOpWait] under the pause budget.  Requests do
    not interleave here, so a wait that is not granted at once runs out. *)
Definition wait_lease (id : string) : M (option Lease.closure) := fun o w =>
  match Lease.AcquireTaskOp (w_n w) id Lease.TaskOpWait (w_leases w) with
  | (Lease.Granted c, r) => (inr (Some c), set_regw r w)
  | (Lease.Busy, r) => (inr None, set_regw r w)
  | (Lease.Parked c, r) => let (granted, r) := Lease.cancelWait c r in (inr granted, set_regw r w)
  end.

(** [pauseAction] under the lease. *)
Definition pause_leased (id : string) : M ActionResult :=
  let '(target, code, message) := actionOutcome "pause" in
  current ← attempt (Get id);
  match current with
  | inl e => mret (if errors_is e ErrNotFound then actionFailure id SlugNotFound detailTaskNotFound
                   else actionFailure id SlugInternal detailActionFailed)
  | inr row =>
    let reloaded := action_task id row in
    paused ← (if bool_decide (at_State reloaded = target) then mret (success id)
      else
        stopped ← reach reloaded eng_Pause;
        match stopped with
        | inl e => mret (engineFailure id e)
        | inr _ => transitionAction reloaded target code message
        end);
    if negb (Ok paused) then mret paused
    else
      cleared ← attempt (ClearPausedHoldCode id);
      mret match cleared with
           | inr _ => success id
           | inl e => if errors_is e ErrNotFound then actionFailure id SlugNotFound detailTaskNotFound
                      else actionFailure id SlugInternal detailActionFailed
           end
  end.

(** [pauseAction]. *)
Definition pauseAction (t : actionTask) : M ActionResult :=
  lease ← wait_lease (at_ID t);
  match lease with
  | None => mret (actionFailure (at_ID t) SlugValidationFailed detailTaskOpBusy)
  | Some c =>
    outcome ← pause_leased (at_ID t);
    release_lease c ;;
    mret outcome
  end.

(** [concurrencySnapshot]. *)
Record concurrencySnapshot := MkSnapshot { snap_counts : ActiveCounts; snap_limits : Limits }.

Definition settingMaxActiveTotal : string := "max_active_total".
Definition settingMaxActivePerEngine : string := "max_active_per_engine".
Definition defaultMaxActiveTotal : Z := 5.
Definition defaultMaxActivePerEngine : Z := 3.

(** The rows of [queryConcurrencySettings] read into limits. *)
Definition read_limit (d : db) (key : string) (def : Z) : option Z :=
  match d_settings d !! key with
  | None => Some def
  | Some None => None
  | Some (Some v) => if (v <? 0)%Z then None else Some v
  end.
Definition concurrency_limits (d : db) : option Limits :=
  total ← read_limit d settingMaxActiveTotal defaultMaxActiveTotal;
  perEngine ← read_limit d settingMaxActivePerEngine defaultMaxActivePerEngine;
  Some (MkLimits total perEngine).

(** [loadConcurrencySnapshot]. *)
Definition loadConcurrencySnapshot : M concurrencySnapshot :=
  counts ← CountActive;
  limits ← query_checked concurrency_limits;
  mret (MkSnapshot counts limits).

(** [resumeAction]; the snapshot is updated in place. *)
Definition resumeAction (t : actionTask) (target : TaskState) (code message : string)
    (snap : option concurrencySnapshot) : M (ActionResult * option concurrencySnapshot) :=
  match snap with
  | None => mret (actionFailure (at_ID t) SlugInternal detailActionFailed, snap)
  | Some s =>
    moved ← (if bool_decide (at_State t = target) then mret (success (at_ID t))
             else transitionAction t target code message);
    if negb (Ok moved) then mret (moved, snap)
    else match Blocked (snap_limits s) (snap_counts s) (at_Engine t) with
    | Some detail => mret (actionFailure (at_ID t) SlugConcurrencyLimit detail, snap)
    | None => mret (success (at_ID t),
                Some (MkSnapshot (Reserve (at_Engine t) (snap_counts s)) (snap_limits s)))
    end
  end.

(** [recheck]. *)
Definition recheck (t : actionTask) : M ActionResult :=
  match engineFor t with
  | inl e => mret (engineFailure (at_ID t) e)
  | inr None => mret (actionFailure (at_ID t) SlugValidationFailed detailUnsupportedAction)
  | inr (Some handle) =>
    if negb (recheckable (at_Engine t))
    then mret (actionFailure (at_ID t) SlugValidationFailed detailUnsupportedAction)
    else
      r ← attempt (call (eng_Recheck (at_Engine t) handle));
      match r with
      | inl e => mret (engineFailure (at_ID t) e)
      | inr _ => transitionAction t StateChecking "task.rechecking" "recheck requested by user"
      end
  end.

(** [actionEngineCall]; resume and pause do not get here. *)
Definition actionEngineCall (action : string) : option (string -> string -> E -> res unit * E) :=
  if bool_decide (action = "pause"%string) then Some eng_Pause
  else if contains ["remove"; "force_complete"]%string action then Some eng_Remove
  else None.

(** [applyAction]. *)
Definition applyAction (t : actionTask) (action : string) (snap : option concurrencySnapshot) :
    M (ActionResult * option concurrencySnapshot) :=
  let keep (m : M ActionResult) : M (ActionResult * option concurrencySnapshot) := r ← m; mret (r, snap) in
  if bool_decide (at_ErrorCode t = Some errorCodeSSRFBlocked) && bool_decide (action <> "remove"%string)
  then mret (actionFailure (at_ID t) SlugSSRFBlocked detailSSRFBlockedAction, snap)
  else if bool_decide (action = "recheck"%string) then keep (recheck t)
  else if bool_decide (action = "pause"%string) then keep (pauseAction t)
  else
    let '(target, code, message) := actionOutcome action in
    if bool_decide (action = "resume"%string) then resumeAction t target code message snap
    else if bool_decide (at_State t = target) then mret (success (at_ID t), snap)
    else
      called ← (match actionEngineCall action with Some f => reach t f | None => mret (inr tt) end);
      match called with
      | inl e => mret (engineFailure (at_ID t) e, snap)
      | inr _ => keep (transitionAction t target code message)
      end.

(** [stopTaskAtEngine]. *)
Definition stopTaskAtEngine (t : actionTask) : M (res unit) :=
  paused ← reach t eng_Pause;
  match paused with
  | inl e => mret (inl e)
  | inr _ => reach t eng_Remove
  end.

(** [rejectedPaths]. *)
Definition rejectedPaths (targets : list Target) (e : E) : list (list Z) :=
  List.filter (fun p => negb (resolves e p)) (Path <$> targets).

(** [ListFiles]. *)
Definition ListFiles (id : string) : M (list TaskFile) := query (queryListTaskFiles id).

(** [removeWithData]. *)
Definition removeWithData (t : actionTask) : M ActionResult :=
  let id := at_ID t in
  files ← attempt (ListFiles id);
  match files with
  | inl _ => mret (actionFailure id SlugInternal detailActionFailed)
  | inr files =>
    let targets := recordedTargets (at_Destination t) files in
    rejected ← gets (fun w => rejectedPaths targets (w_eng w));
    if bool_decide (rejected <> []) then
      mret (actionFailure id SlugPathRejected (pathRejectedDetail (length rejected)))
    else
      stopped ← stopTaskAtEngine t;
      match stopped with
      | inl e => mret (engineFailure id e)
      | inr _ =>
        deleted ← attempt (DeleteData (ownDir (at_Destination t) targets) targets);
        match deleted with
        | inl e => if errors_is e ErrFs
                   then text ← err_text e; mret (actionFailure id SlugPathRejected text)
                   else mret (actionFailure id SlugInternal detailActionFailed)
        | inr result =>
          marked ← attempt (MarkRemoved id (Some (DeletedData (FilesUnlinked result) (BytesUnlinked result))));
          mret match marked with inr _ => success id | inl e => storeFailure id e end
        end
      end
  end.

(** [queueActions]. *)
Definition queueActions (ids : list string) (tasks : gmap string actionTask) (move : QueueMove) :
    M (problem + list ActionResult) :=
  absent ← attempt (ReorderQueue ids move);
  mret match absent with
  | inl _ => inl internal
  | inr absent => inr ((fun id =>
      match tasks !! id with
      | None => actionFailure id SlugNotFound detailTaskNotFound
      | Some _ => if contains absent id then actionFailure id SlugValidationFailed detailNotInQueue
                  else success id
      end) <$> ids)
  end.

(** The batch loop of [Actions]. *)
Fixpoint action_loop (tasks : gmap string actionTask) (action : string) (deleteData : bool)
    (ids : list string) (snap : option concurrencySnapshot) : M (list ActionResult) :=
  match ids with
  | [] => mret []
  | id :: ids =>
    r ← (match tasks !! id with
      | None => mret (actionFailure id SlugNotFound detailTaskNotFound, snap)
      | Some t =>
        if bool_decide (action = "remove"%string) && deleteData
        then r ← removeWithData t; mret (r, snap)
        else applyAction t action snap
      end);
    rest ← action_loop tasks action deleteData ids r.2;
    mret (r.1 :: rest)
  end.

(** [Actions]. *)
Definition Actions (ids : list string) (action : string) (deleteData : bool) :
    M (problem + list ActionResult) :=
  if bool_decide (ids = []) then mret (inl (MkProblem SlugValidationFailed 422 emptyIDsDetail))
  else if (maxActionIDs <? length ids)%nat
  then mret (inl (MkProblem SlugValidationFailed 422 (tooManyIDs (length ids))))
  else if negb (contains taskActions action)
  then mret (inl (MkProblem SlugValidationFailed 422 (unknownAction action)))
  else
    tasks ← attempt (query (queryActionTasks ids));
    match tasks with
    | inl _ => mret (inl internal)
    | inr tasks =>
      match queueMove action with
      | Some move => queueActions ids tasks move
      | None =>
        snap ← (if bool_decide (action = "resume"%string)
                then s ← attempt loadConcurrencySnapshot;
                     mret match s with inl e => inl e | inr s => inr (Some s) end
                else mret (inr None));
        match snap with
        | inl _ => mret (inl internal)
        | inr snap =>
          results ← action_loop tasks action deleteData ids snap;
          mret (inr results)
        end
      end
    end.

(** ** [DELETE /tasks/{id}] *)

(** [DeleteTaskOutput]. *)
Record DeleteTaskOutput := MkDeleteOutput { out_removed : bool; out_data : bool; out_result : DeleteResult }.

Definition nothing_deleted : DeleteResult := MkDeleted 0 0 0.

(** [engineFailureProblem] and [removalProblem]. *)
Definition engineFailureProblem (e : err) : problem :=
  if errors_is e EngErrUnavailable then MkProblem SlugEngineUnavailable 503 detailEngineFailed else internal.
Definition removalProblem (e : err) : problem :=
  if errors_is e ErrNotFound then MkProblem SlugNotFound 404 detailTaskNotFound
  else if errors_is e ErrIllegalTransition || errors_is e ErrTransitionConflict
  then MkProblem SlugValidationFailed 422 detailIllegalState
  else internal.

(** [removeEngineHandle]; [pause] is [detachAfterPause]. *)
Definition removeEngineHandle (t : actionTask) (pause : bool) : M (option problem) :=
  paused ← (if pause then reach t eng_Pause else mret (inr tt));
  match paused with
  | inl e => mret (Some (engineFailureProblem e))
  | inr _ =>
    removed ← reach t eng_Remove;
    mret match removed with inl e => Some (engineFailureProblem e) | inr _ => None end
  end.

(** [forceCompleteTask]. *)
Definition forceCompleteTask (t : actionTask) : M (problem + DeleteTaskOutput) :=
  detached ← removeEngineHandle t false;
  match detached with
  | Some p => mret (inl p)
  | None =>
    moved ← (if bool_decide (at_State t = StateCompleted) then mret (inr tt)
             else attempt (Transition (at_ID t) StateCompleted "task.force_completed" "completed by user request"));
    mret match moved with
         | inl e => inl (removalProblem e)
         | inr _ => inr (MkDeleteOutput false false nothing_deleted)
         end
  end.

(** Steps 5 and 6 of [DeleteTask]. *)
Definition mark_deleted (id : string) (deleted : option DeleteResult) : M (problem + DeleteTaskOutput) :=
  marked ← attempt (MarkRemoved id
    ((fun r => DeletedData (FilesUnlinked r) (BytesUnlinked r)) <$> deleted));
  mret match marked with
       | inl e => inl (removalProblem e)
       | inr _ => inr (MkDeleteOutput true (bool_decide (is_Some deleted)) (default nothing_deleted deleted))
       end.

(** Steps 2 to 6 with delete_data. *)
Definition delete_with_data (t : actionTask) (targets : list Target) : M (problem + DeleteTaskOutput) :=
  failures ← gets (fun w => rejectedPaths targets (w_eng w));
  if bool_decide (failures <> []) then
    mret (inl (MkProblem SlugPathRejected 403 (pathRejectedDetail (length failures))))
  else
    detached ← removeEngineHandle t true;
    match detached with
    | Some p => mret (inl p)
    | None =>
      deleted ← attempt (DeleteData (ownDir (at_Destination t) targets) targets);
      match deleted with
      | inl e => if errors_is e ErrFs
                 then text ← err_text e; mret (inl (MkProblem SlugPathRejected 403 text))
                 else mret (inl internal)
      | inr result => mark_deleted (at_ID t) (Some result)
      end
    end.

(** [DeleteTask]. *)
Definition DeleteTask (id : string) (deleteData forceComplete : bool) : M (problem + DeleteTaskOutput) :=
  if deleteData && forceComplete
  then mret (inl (MkProblem SlugValidationFailed 422 bothDeleteFlagsDetail))
  else
    row ← attempt (Get id);
    match row with
    | inl e => mret (inl (if errors_is e ErrNotFound then MkProblem SlugNotFound 404 detailTaskNotFound
                          else internal))
    | inr row =>
      let t := action_task id row in
      if forceComplete then forceCompleteTask t
      else
        files ← attempt (ListFiles id);
        match files with
        | inl _ => mret (inl internal)
        | inr files =>
          if deleteData then delete_with_data t (recordedTargets (at_Destination t) files)
          else
            detached ← removeEngineHandle t true;
            match detached with
            | Some p => mret (inl p)
            | None => mark_deleted id None
            end
        end
    end.
End Handlers.
