(* ===== verification/ActionProps.v ===== *)
(** * Properties of the task actions

    The batch answers for every id in order, keeps the store's guarantees and
    promises no more slots than are free; an operator pause takes the row over
    from the admission pass; the irreversible delete touches the disk only
    after every path was validated and the engine let go, and removes the
    recorded files only. *)

From stdpp Require Import sorting fin_maps pretty.
From S2P Require Import Prelude GoStrings TaskState Schema Lease World Frame Store Engine SafePath SafeJoin Confine Queue Admission Scenario StoreProps AdmissionProps AdmissionSafety Actions.

(** ** Commands that always answer *)

Section Answers.
Context {E : Type}.

Definition answers {A} (m : M E A) : Prop := forall o w, exists x w', m o w = (inr x, w').

Lemma answers_ret {A} (x : A) : answers (mret x).
Proof. intros o w. by eexists _, _. Qed.

Lemma answers_bind {A B} (m : M E A) (k : A -> M E B) :
  answers m -> (forall x, answers (k x)) -> answers (m ≫= k).
Proof.
  intros Hm Hk o w. destruct (Hm o w) as (x & w' & Hx). rewrite bind_run, Hx. apply Hk.
Qed.

Lemma answers_attempt {A} (m : M E A) : answers (attempt m).
Proof. intros o w. unfold attempt. destruct (m o w). by eexists _, _. Qed.

Lemma answers_gets {A} (f : world E -> A) : answers (gets f).
Proof. intros o w. by eexists _, _. Qed.

Lemma answers_err_text e : answers (err_text (E := E) e).
Proof. intros o w. by eexists _, _. Qed.

Lemma answers_wait id : answers (wait_lease (E := E) id).
Proof.
  intros o w. unfold wait_lease. destruct (Lease.AcquireTaskOp _ _ _ _) as [[c| |c] r]; [by eexists _, _..|].
  destruct (Lease.cancelWait c r). by eexists _, _.
Qed.

Lemma answers_release c : answers (release_lease (E := E) c).
Proof. intros o w. by eexists _, _. Qed.
End Answers.

#[export] Hint Resolve answers_ret answers_bind answers_attempt answers_gets answers_err_text
  answers_wait answers_release : dltool.

(** One [answers] lemma per layer. *)
Ltac answer :=
  repeat match goal with
  | |- answers (_ ≫= _) => apply answers_bind; [|intros ?]
  | |- answers (match ?x with _ => _ end) => destruct x
  | |- answers _ => solve [auto with dltool nocore]
  end.

(** ** The batch *)

Section Batch.
Context {E : Type} `{!EngineApi E, !Disk E, !Recheckable E} (roots : list (list Z)).

Lemma answers_reach (t : actionTask) f : answers (reach (E := E) t f).
Proof. unfold reach. answer. Qed.
Hint Resolve answers_reach : dltool.

Lemma answers_transition (t : actionTask) target code msg : answers (transitionAction (E := E) t target code msg).
Proof. unfold transitionAction. answer. Qed.
Hint Resolve answers_transition : dltool.

Lemma answers_pause (t : actionTask) : answers (pauseAction (E := E) t).
Proof. unfold pauseAction, pause_leased. destruct (actionOutcome "pause") as [[target code] msg]. answer. Qed.
Hint Resolve answers_pause : dltool.

Lemma answers_recheck (t : actionTask) : answers (recheck (E := E) t).
Proof. unfold recheck. answer. Qed.
Hint Resolve answers_recheck : dltool.

Lemma answers_resume (t : actionTask) target code msg snap :
  answers (resumeAction (E := E) t target code msg snap).
Proof. unfold resumeAction. answer. Qed.
Hint Resolve answers_resume : dltool.

Lemma answers_apply (t : actionTask) action snap : answers (applyAction (E := E) t action snap).
Proof. unfold applyAction. destruct (actionOutcome action) as [[target code] msg]. answer. Qed.

Lemma answers_remove (t : actionTask) : answers (removeWithData (E := E) roots t).
Proof. unfold removeWithData, stopTaskAtEngine. answer. Qed.
Hint Resolve answers_apply answers_remove : dltool.

(** Whose outcome a command computes. *)
Definition about {A} (f : A -> string) (id : string) (m : M E A) : Prop :=
  forall o w x w', m o w = (inr x, w') -> f x = id.

Lemma about_ret {A} (f : A -> string) id x : f x = id -> about f id (mret x).
Proof. by intros Hx o w y w' [= <- _]. Qed.

Lemma about_bind {A B} (f : B -> string) id (m : M E A) k :
  (forall x, about f id (k x)) -> about f id (m ≫= k).
Proof.
  intros Hk o w y w'. rewrite bind_run. destruct (m o w) as [[e|x] w1]; [done|]. apply Hk.
Qed.

Lemma about_bind_id {A B} (g : A -> string) (f : B -> string) id (m : M E A) k :
  about g id m -> (forall x, g x = id -> about f id (k x)) -> about f id (m ≫= k).
Proof.
  intros Hm Hk o w y w'. rewrite bind_run. destruct (m o w) as [[e|x] w1] eqn:Hx; [done|]. apply Hk.
  by eapply Hm.
Qed.

Ltac says :=
  repeat match goal with
  | |- about _ _ (mret _) => apply about_ret; cbn
  | |- about _ _ (match ?x with _ => _ end) => destruct x
  | |- ID (match ?x with _ => _ end) = _ => destruct x
  | |- ID (storeFailure _ _) = _ => unfold storeFailure
  | |- ID (engineFailure _ _) = _ => unfold engineFailure
  | |- _ = _ => reflexivity
  | |- about _ _ (_ ≫= _) => apply about_bind; intros ?
  end.

Lemma transition_about (t : actionTask) target code msg : about ID (at_ID t) (transitionAction (E := E) t target code msg).
Proof. unfold transitionAction. says. Qed.

Lemma pause_about (t : actionTask) : about ID (at_ID t) (pauseAction (E := E) t).
Proof.
  unfold pauseAction. apply about_bind. intros [c|]; [|by says].
  eapply about_bind_id with (g := ID); [|intros; apply about_bind; intros; by apply about_ret].
  unfold pause_leased. destruct (actionOutcome "pause") as [[target code] msg]. apply about_bind.
  intros [e|row]; [says|]. eapply about_bind_id with (g := ID); [|intros; by says].
  destruct (bool_decide _); [by says|]. apply about_bind. intros [e|]; [says|].
  apply (transition_about (action_task (at_ID t) row)).
Qed.

Lemma resume_about (t : actionTask) target code msg snap :
  about (fun r => ID r.1) (at_ID t) (resumeAction (E := E) t target code msg snap).
Proof.
  unfold resumeAction. destruct snap as [s|]; [|by says]. eapply about_bind_id with (g := ID).
  - destruct (bool_decide _); [by says|apply transition_about].
  - intros r Hr. destruct (negb _); [by apply about_ret|]. destruct (Blocked _ _ _); by apply about_ret.
Qed.

Lemma apply_about (t : actionTask) action snap :
  about (fun r => ID r.1) (at_ID t) (applyAction (E := E) t action snap).
Proof.
  assert (Hkeep : forall m : M E ActionResult, about ID (at_ID t) m ->
    about (fun r => ID r.1) (at_ID t) (r ← m; mret (r, snap))).
  { intros m Hm. eapply about_bind_id; [done|]. intros r Hr. by apply about_ret. }
  unfold applyAction. cbv zeta. destruct (actionOutcome action) as [[target code] msg].
  destruct (_ && _); [by apply about_ret|].
  destruct (bool_decide (action = "recheck"%string)).
  { apply Hkeep. unfold recheck. destruct (engineFor t) as [e|[h|]]; [by says| |by says].
    destruct (negb _); [by says|]. apply about_bind. intros [e|]; [by says|apply transition_about]. }
  destruct (bool_decide (action = "pause"%string)); [apply Hkeep, pause_about|].
  destruct (bool_decide (action = "resume"%string)); [apply resume_about|].
  destruct (bool_decide (at_State t = target)); [by apply about_ret|].
  apply about_bind. intros [e|]; [|apply Hkeep, transition_about].
  apply about_ret. cbn. unfold engineFailure. by repeat case_match.
Qed.

Lemma remove_about (t : actionTask) : about ID (at_ID t) (removeWithData (E := E) roots t).
Proof.
  unfold removeWithData. apply about_bind. intros [e|files]; [by says|]. apply about_bind. intros rejected.
  destruct (bool_decide _); [by says|]. apply about_bind. intros [e|]; [by says|].
  apply about_bind. intros [e|result]; [|by says]. destruct (errors_is e ErrFs); by says.
Qed.

Definition keyed (tasks : gmap string actionTask) : Prop := forall id t, tasks !! id = Some t -> at_ID t = id.

Lemma loaded_keyed ids d : keyed (queryActionTasks ids d).
Proof.
  intros id t. unfold queryActionTasks. rewrite map_lookup_imap.
  destruct (d_tasks d !! id); [|done]. simpl. destruct (contains _ _); [|done]. by intros [= <-].
Qed.

(** One turn of the loop answers, and for its own id. *)
Definition one_action (tasks : gmap string actionTask) (action : string) (deleteData : bool)
    (id : string) (snap : option concurrencySnapshot) : M E (ActionResult * option concurrencySnapshot) :=
  match tasks !! id with
  | None => mret (actionFailure id SlugNotFound detailTaskNotFound, snap)
  | Some t =>
    if bool_decide (action = "remove"%string) && deleteData
    then r ← removeWithData roots t; mret (r, snap)
    else applyAction t action snap
  end.

Lemma one_action_answers tasks action dd id snap : answers (one_action tasks action dd id snap).
Proof. unfold one_action. answer. Qed.

Lemma one_action_about tasks action dd id snap : keyed tasks ->
  about (fun r => ID r.1) id (one_action tasks action dd id snap).
Proof.
  intros Hk. unfold one_action. destruct (tasks !! id) as [t|] eqn:Ht; [|by apply about_ret].
  rewrite <- (Hk id t Ht). destruct (_ && _); [|apply apply_about].
  eapply about_bind_id; [apply remove_about|]. intros r Hr. by apply about_ret.
Qed.

Lemma loop_answers tasks action dd ids snap o w : keyed tasks -> exists results w',
  action_loop roots tasks action dd ids snap o w = (inr results, w') /\ ID <$> results = ids.
Proof.
  intros Hk. revert snap w. induction ids as [|id ids IH]; intros snap w; [by exists [], w|].
  cbn [action_loop]. fold (one_action tasks action dd id snap). rewrite bind_run.
  destruct (one_action_answers tasks action dd id snap o w) as (r & w1 & Hr). rewrite Hr.
  pose proof (one_action_about tasks action dd id snap Hk o w r w1 Hr) as Hid. simpl in Hid.
  rewrite bind_run. destruct (IH r.2 w1) as (rest & w2 & -> & Hrest).
  exists (r.1 :: rest), w2. split; [done|]. by rewrite fmap_cons, Hid, Hrest.
Qed.

(** A request the handler refuses as a whole. *)
Definition malformed (ids : list string) (action : string) : Prop :=
  ids = [] \/ (maxActionIDs < length ids)%nat \/ action ∉ taskActions.

Ltac refused := eexists _, _; (split; [reflexivity|]); cbn; by eauto 7.

(** a batch is always answered: a malformed one with a 422 before anything is
    read or called, any other with one outcome per requested id, in request
    order, or - when the rows or the limits could not be read, or the queue not
    written - with one internal failure. *)
Theorem Actions_answers ids action dd o (w : world E) : exists reply w',
  Actions roots ids action dd o w = (inr reply, w') /\
  match reply with
  | inl p => p = internal \/ malformed ids action /\ p_status p = 422%Z /\ w' = w
  | inr results => ID <$> results = ids /\ ~ malformed ids action
  end.
Proof.
  unfold Actions, malformed. destruct (bool_decide_reflect (ids = [])) as [->|Hne]; [refused|].
  destruct (Nat.ltb_spec maxActionIDs (length ids)) as [Hlen|Hlen]; [refused|].
  destruct (contains taskActions action) eqn:Hc;
    [apply contains_spec in Hc|apply contains_false in Hc; refused].
  cbn [negb]. rewrite bind_run.
  assert (Hwell : ~ (ids = [] \/ (maxActionIDs < length ids)%nat \/ action ∉ taskActions)) by (intros [|[|]]; [done|lia|done]).
  unfold attempt, query at 1. destruct (o_io o (w_n w)); [|refused..].
  pose proof (loaded_keyed ids (current w)) as Hk. set (tasks := queryActionTasks ids (current w)) in *.
  destruct (queueMove action) as [move|].
  { unfold queueActions. rewrite bind_run. unfold attempt.
    destruct (ReorderQueue ids move o _) as [[e|absent] w2]; eexists _, _; (split; [done|]); [by left|].
    split; [|done]. rewrite <- list_fmap_compose. rewrite <- (list_fmap_id ids) at 2.
    apply list_fmap_ext. intros i id _. unfold compose. by repeat case_match. }
  rewrite bind_run. destruct (bool_decide (action = "resume"%string)).
  - rewrite bind_run. unfold attempt. destruct (loadConcurrencySnapshot o _) as [[e|s] w2]; [refused|].
    cbn. rewrite bind_run.
    destruct (loop_answers tasks action dd ids (Some s) o w2 Hk) as (results & w3 & -> & Hid). refused.
  - cbn. rewrite bind_run. set (w1 := bump w).
    destruct (loop_answers tasks action dd ids None o w1 Hk) as (results & w3 & -> & Hid). refused.
Qed.
End Batch.

(** ** The tables *)

Section Safety.
Context {E : Type} `{!EngineApi E, !Disk E, !Recheckable E} (roots : list (list Z)).
Abbreviation safe m := (always (tables db_step (E := E)) m).

Lemma gets_safe {A} (f : world E -> A) : safe (gets f).
Proof. apply always_gets. apply _. Qed.

Lemma Remove_safe p : safe (Remove p).
Proof. intros o w. unfold Remove. destruct (disk_Remove p (w_eng w)). by apply tables_same; [apply _| |]. Qed.

Lemma Get_safe id : safe (Get id).
Proof. apply Get_kept. apply _. Qed.

Lemma mark_removed_safe id data : safe (MarkRemoved id data).
Proof. apply tables_keeps, MarkRemoved_keeps. Qed.

Lemma clear_hold_safe id : safe (ClearPausedHoldCode id).
Proof. apply tables_keeps, ClearPausedHoldCode_keeps. Qed.

Lemma wait_safe id : safe (wait_lease id).
Proof.
  intros o w. unfold wait_lease. destruct (Lease.AcquireTaskOp _ _ _ _) as [[c| |c] r];
    [by apply tables_same; [apply _| |]..|].
  destruct (Lease.cancelWait c r). by apply tables_same; [apply _| |].
Qed.

Lemma positions_keep position now order : always (keeps db_step) (write_positions (E := E) position now order).
Proof.
  revert position. induction order as [|id order IH]; intros position; simpl; [apply always_ret; apply _|].
  apply always_bind; [apply _|apply keeps_exec; [apply _|apply queue_position_ok]|]. intros _. apply IH.
Qed.

Lemma reorder_safe ids move : safe (ReorderQueue ids move).
Proof. apply tables_keeps. unfold ReorderQueue. walk; auto using positions_keep with dltool. Qed.

Hint Resolve gets_safe Remove_safe Get_safe mark_removed_safe clear_hold_safe wait_safe reorder_safe
  release_lease_safe : dltool.

Lemma reach_safe (t : actionTask) f : safe (reach t f).
Proof. unfold reach. walk. Qed.
Hint Resolve reach_safe : dltool.

Lemma transition_safe (t : actionTask) target code msg : safe (transitionAction t target code msg).
Proof. unfold transitionAction. walk. Qed.
Hint Resolve transition_safe : dltool.

Lemma unlink_safe targets result : safe (unlink_all targets result).
Proof. revert result. induction targets as [|t targets IH]; intros result; simpl; walk. Qed.
Hint Resolve unlink_safe : dltool.

Lemma DeleteData_safe dir targets : safe (DeleteData roots dir targets).
Proof. unfold DeleteData, removeTaskDir. walk. Qed.
Hint Resolve DeleteData_safe : dltool.

Lemma pause_safe (t : actionTask) : safe (pauseAction t).
Proof. unfold pauseAction, pause_leased. destruct (actionOutcome "pause") as [[target code] msg]. walk. Qed.

Lemma resume_safe (t : actionTask) target code msg snap : safe (resumeAction t target code msg snap).
Proof. unfold resumeAction. walk. Qed.

Lemma recheck_safe (t : actionTask) : safe (recheck t).
Proof. unfold recheck. walk. Qed.
Hint Resolve pause_safe resume_safe recheck_safe : dltool.

Lemma apply_safe (t : actionTask) action snap : safe (applyAction t action snap).
Proof. unfold applyAction. destruct (actionOutcome action) as [[target code] msg]. walk. Qed.

Lemma remove_data_safe (t : actionTask) : safe (removeWithData roots t).
Proof. unfold removeWithData, stopTaskAtEngine, ListFiles. walk. Qed.
Hint Resolve apply_safe remove_data_safe : dltool.

Lemma action_loop_safe tasks action dd ids snap : safe (action_loop roots tasks action dd ids snap).
Proof. revert snap. induction ids as [|id ids IH]; intros snap; simpl; walk. Qed.
Hint Resolve action_loop_safe : dltool.

Lemma detach_safe (t : actionTask) pause : safe (removeEngineHandle t pause).
Proof. unfold removeEngineHandle. walk. Qed.

Lemma mark_deleted_safe id deleted : safe (mark_deleted id deleted).
Proof. unfold mark_deleted. walk. Qed.
Hint Resolve detach_safe mark_deleted_safe : dltool.

(** a batch of actions and a delete are safe whatever the driver, the
    engines, the disk and the context answer: rows stay, move only along the
    transition table and keep their identities, the event log only grows and
    the tables stay well-formed. *)
Theorem Actions_safe ids action dd o (w : world E) : w_tx w = None ->
  db_step (w_db w) (w_db (Actions roots ids action dd o w).2) /\
  forall id data force, db_step (w_db w) (w_db (DeleteTask roots id data force o w).2).
Proof.
  intros Hw. split.
  - apply (tables_db db_step); [|done]. assert (H : safe (Actions roots ids action dd)); [|apply H].
    unfold Actions, queueActions, loadConcurrencySnapshot, CountActive. walk.
  - intros id data force. apply (tables_db db_step); [|done].
    assert (H : safe (DeleteTask roots id data force)); [|apply H].
    unfold DeleteTask, forceCompleteTask, delete_with_data, ListFiles. walk.
Qed.
End Safety.

(** ** The slots a resume batch promises *)

Section Headroom.
Context {E : Type} `{!EngineApi E, !Disk E, !Recheckable E} (roots : list (list Z)).
Local Open Scope Z_scope.

(** The ids of a batch answered ok whose task runs on an engine that [sel]
    selects. *)
Definition granted (tasks : gmap string actionTask) (sel : string -> bool) (r : ActionResult) : bool :=
  Ok r && match tasks !! ID r with Some t => sel (at_Engine t) | None => false end.

(** How many slots the selected engines hold, and how many they may hold. *)
Definition held_of (name : option string) (c : ActiveCounts) : Z :=
  match name with None => Total c | Some n => by_engine c n end.
Definition cap_of (name : option string) (l : Limits) : Z :=
  match name with None => MaxActiveTotal l | Some _ => MaxActivePerEngine l end.
Definition selects (name : option string) (engine : string) : bool :=
  match name with None => true | Some n => bool_decide (engine = n) end.

Lemma reserve_held name engine c :
  held_of name (Reserve engine c) = held_of name c + (if selects name engine then 1 else 0).
Proof.
  destruct name as [n|]; simpl; [|done]. unfold by_engine. simpl. case_bool_decide as Hn.
  - subst. by rewrite lookup_insert_eq.
  - rewrite lookup_insert_ne by done. lia.
Qed.

Lemma unblocked_room name l c engine : Blocked l c engine = None -> selects name engine = true ->
  0 < cap_of name l -> held_of name c < cap_of name l.
Proof.
  unfold Blocked. destruct ((0 <? MaxActiveTotal l) && (MaxActiveTotal l <=? Total c)) eqn:H1; [done|].
  destruct ((0 <? MaxActivePerEngine l) && (MaxActivePerEngine l <=? by_engine c engine)) eqn:H2; [done|].
  intros _. destruct name as [n|]; simpl; [intros <-%bool_decide_eq_true|intros _]; lia.
Qed.

Lemma resume_one (t : actionTask) s o w r snap w' :
  applyAction (E := E) t "resume" (Some s) o w = (inr (r, snap), w') ->
  exists s', snap = Some s' /\ snap_limits s' = snap_limits s /\
    if Ok r then Blocked (snap_limits s) (snap_counts s) (at_Engine t) = None /\
                 snap_counts s' = Reserve (at_Engine t) (snap_counts s)
    else s' = s.
Proof.
  unfold applyAction. cbv zeta. destruct (bool_decide (at_ErrorCode t = _) && _).
  { intros [= <- <- _]. by exists s. }
  rewrite !bool_decide_eq_false_2 by done. rewrite bool_decide_eq_true_2 by done. cbn -[resumeAction].
  unfold resumeAction. destruct (actionOutcome "resume") as [[target code] msg]. rewrite bind_run. 
  set (m := if bool_decide (at_State t = target) then _ else _). destruct (m o w) as [[e|moved] w1]; [done|].
  destruct (Ok moved) eqn:Hm; cbn [negb]; [|intros [= <- <- _]; exists s; by rewrite Hm].
  destruct (Blocked _ _ _) eqn:Hb; intros [= <- <- _]; [by exists s|by eexists].
Qed.

Lemma resume_loop name tasks dd ids s o w results w' : keyed tasks ->
  action_loop (E := E) roots tasks "resume" dd ids (Some s) o w = (inr results, w') ->
  0 < cap_of name (snap_limits s) ->
  held_of name (snap_counts s) + Z.of_nat (length (List.filter (granted tasks (selects name)) results))
    <= Z.max (cap_of name (snap_limits s)) (held_of name (snap_counts s)).
Proof.
  intros Hk. revert s w results w'. induction ids as [|id ids IH]; intros s w results w'.
  { intros [= <- _] _. simpl. lia. }
  cbn [action_loop]. fold (one_action roots tasks "resume" dd id (Some s)). rewrite bind_run.
  destruct (one_action roots tasks "resume" dd id (Some s) o w) as [[e|[r snap]] w1] eqn:Hone; [done|].
  pose proof (one_action_about roots tasks "resume" dd id (Some s) Hk o w _ w1 Hone) as Hid. simpl in Hid.
  rewrite bind_run. cbn [fst snd].
  destruct (action_loop roots tasks "resume" dd ids snap o w1) as [[e|rest] w2] eqn:Hrest; [done|].
  intros [= <- _] Hcap. cbn [List.filter].
  assert (Hs : exists s', snap = Some s' /\ snap_limits s' = snap_limits s /\
    held_of name (snap_counts s') = held_of name (snap_counts s) + (if granted tasks (selects name) r then 1 else 0) /\
    (granted tasks (selects name) r = true -> held_of name (snap_counts s) < cap_of name (snap_limits s)) /\
    held_of name (snap_counts s) <= held_of name (snap_counts s')).
  { unfold one_action in Hone. unfold granted. rewrite Hid. destruct (tasks !! id) as [t|] eqn:Ht.
    - cbn in Hone. apply resume_one in Hone as (s' & -> & Hl & Hr). exists s'. split; [done|]. split; [done|].
      destruct (Ok r); simpl.
      + destruct Hr as [Hb ->]. rewrite reserve_held. destruct (selects name (at_Engine t)) eqn:Hsel.
        * split; [done|]. split; [|lia]. intros _. by eapply unblocked_room.
        * split; [done|]. split; [done|lia].
      + subst s'. split; [lia|]. split; [done|lia].
    - injection Hone as <- <- _. exists s. rewrite andb_false_r. split_and!; try done; lia. }
  destruct Hs as (s' & -> & Hl & Hheld & Hroom & _).
  specialize (IH s' w1 rest w2 Hrest). rewrite Hl in IH. specialize (IH Hcap).
  destruct (granted tasks (selects name) r); cbn [length]; [specialize (Hroom eq_refl)|]; lia.
Qed.

Lemma snapshot_run o (w : world E) s w' : loadConcurrencySnapshot o w = (inr s, w') ->
  exists limits, s = MkSnapshot (countRows (queryCountActive (current w))) limits /\
    concurrency_limits (current w) = Some limits.
Proof.
  unfold loadConcurrencySnapshot, CountActive. rewrite !bind_run. unfold query at 1.
  destruct (o_io o (w_n w)); [|done..]. rewrite ret_run, bind_run. unfold query_checked.
  change (current (bump w)) with (current w).
  destruct (o_io o (w_n (bump w))); [|done..].
  destruct (concurrency_limits (current w)) as [limits|]; [|done]. intros [= <- _]. by exists limits.
Qed.

(** a resume batch promises no more slots than the limits leave: the ids it
    answers ok, together with the tasks counted active when it started, stay
    within the total limit and, per engine, within the engine's - or none is
    promised where the limit was already exceeded.  Zero means unlimited. *)
Theorem resume_batch_respects_headroom ids dd o (w : world E) results w' :
  Actions roots ids "resume" dd o w = (inr (inr results), w') ->
  exists counts limits,
    counts = countRows (queryCountActive (current w)) /\ concurrency_limits (current w) = Some limits /\
    forall name, 0 < cap_of name limits ->
      held_of name counts
        + Z.of_nat (length (List.filter (granted (queryActionTasks ids (current w)) (selects name)) results))
      <= Z.max (cap_of name limits) (held_of name counts).
Proof.
  unfold Actions. destruct (bool_decide (ids = [])); [done|]. destruct (_ <? _)%nat; [done|].
  cbn [contains]. destruct (negb _); [done|]. rewrite bind_run. unfold attempt at 1, query.
  destruct (o_io o (w_n w)); [|done..]. change (queueMove "resume") with (@None QueueMove). cbn match.
  rewrite bind_run. rewrite bool_decide_eq_true_2 by done. rewrite bind_run. unfold attempt.
  destruct (loadConcurrencySnapshot o (bump w)) as [[e|snap] w1] eqn:Hsnap; [done|].
  apply snapshot_run in Hsnap as (limits & -> & Hl). change (current (bump w)) with (current w) in *.
  cbn. rewrite bind_run.
  destruct (action_loop _ _ _ _ _ _ _ _) as [[e|rs] w2] eqn:Hloop; [done|]. intros [= <- _].
  eexists _, limits. split; [done|]. split; [done|]. intros name Hcap.
  by eapply (resume_loop name _ dd ids (MkSnapshot _ limits)); [apply loaded_keyed|..].
Qed.
End Headroom.

(** ** The operator's pause *)

Section Pause.
Context {E : Type} `{!EngineApi E, !Disk E, !Recheckable E}.

Lemma reach_same (t : actionTask) f o (w : world E) : exists r e, reach t f o w = (inr r, set_eng e w).
Proof.
  assert (Hid : w = set_eng (w_eng w) w) by by destruct w.
  unfold reach. destruct (engineFor t) as [err|[h|]]; [exists (inl err), (w_eng w); by rewrite <- Hid| |
    exists (inr tt), (w_eng w); by rewrite <- Hid].
  unfold attempt, call. destruct (f (at_Engine t) h (w_eng w)) as [r e]. by exists r, e.
Qed.

Lemma Get_same id o (w : world E) : w_tx w = None -> exists w', w_db w' = w_db w /\ w_tx w' = None /\
  w_leases w' = w_leases w /\ w_eng w' = w_eng w /\
  (Get id o w = (inl ErrDriver, w') \/
   Get id o w = (match d_tasks (w_db w) !! id with Some t => inr t | None => inl ErrNotFound end, w')).
Proof.
  intros Hw. exists (bump w). split_and!; try done. unfold Get. rewrite bind_run. unfold query.
  destruct (o_io o (w_n w)); [|by left..]. right. unfold queryGetTask, current. rewrite Hw. simpl.
  by destruct (d_tasks (w_db w) !! id).
Qed.

(** The row is paused and no admission pass picks it up. *)
Definition taken_over (id : string) (d : db) : Prop := exists t,
  d_tasks d !! id = Some t /\ t_state t = StatePaused /\ id ∉ c_id <$> querySelectQueuedCandidates d.

Lemma cleared_taken id o (w : world E) wiped w' t : w_tx w = None ->
  d_tasks (w_db w) !! id = Some t -> t_state t = StatePaused ->
  ClearPausedHoldCode id o w = (inr wiped, w') -> taken_over id (w_db w').
Proof.
  intros Hw Ht Hs Hc. pose proof (ClearPausedHoldCode_run id o w Hw) as H. rewrite Hc in H.
  destruct H as (u & u' & Hu & Hu' & Hsame & _ & Hcand & _). rewrite Ht in Hu. simplify_eq.
  exists u'. split; [done|]. split; [congruence|auto].
Qed.

Lemma pause_leased_takes id o (w : world E) r w' : w_tx w = None ->
  pause_leased id o w = (inr r, w') -> Ok r = true -> taken_over id (w_db w').
Proof.
  intros Hw. unfold pause_leased. destruct (actionOutcome "pause") as [[target code] msg] eqn:Hout.
  assert (target = StatePaused) as -> by by vm_compute in Hout; simplify_eq.
  rewrite bind_run. unfold attempt at 1.
  destruct (Get_same id o w Hw) as (w1 & Hdb & Hw1 & _ & _ & [->| ->]); [by intros [= <- _]|].
  destruct (d_tasks (w_db w) !! id) as [row|] eqn:Hrow; [|by intros [= <- _]].
  rewrite bind_run. set (m := if bool_decide _ then _ else _).
  assert (Hm : exists p w2, m o w1 = (inr p, w2) /\ (Ok p = true -> w_tx w2 = None /\
    exists t, d_tasks (w_db w2) !! id = Some t /\ t_state t = StatePaused)).
  { subst m. cbn [action_task at_State]. destruct (bool_decide_reflect (t_state row = StatePaused)) as [Hs|Hs].
    { eexists _, w1. split; [done|]. intros _. split; [done|]. exists row. by rewrite Hdb. }
    rewrite bind_run. destruct (reach_same (action_task id row) eng_Pause o w1) as (x & e & ->).
    destruct x as [err|[]].
    { eexists _, _. split; [done|]. unfold engineFailure. by repeat case_match. }
    unfold transitionAction. cbn [action_task at_State at_ID]. rewrite bool_decide_eq_false_2 by done.
    rewrite bind_run. unfold attempt.
    pose proof (Transition_run id StatePaused code msg o (set_eng e w1) Hw1) as Ht.
    destruct (Transition id StatePaused code msg o (set_eng e w1)) as [[err|[]] w2].
    { eexists _, _. split; [done|]. unfold storeFailure. by repeat case_match. }
    eexists _, w2. split; [done|]. intros _. destruct Ht as [Hnone (t & evid & now & _ & _ & Hd & _)].
    split; [done|]. eexists. cbn [snd] in Hd. rewrite Hd. split; [apply lookup_insert_eq|done]. }
  destruct Hm as (p & w2 & -> & Hp). destruct (Ok p) eqn:Hok; cbn [negb]; [|by intros [= <- _] ?; congruence].
  destruct (Hp eq_refl) as (Hw2 & t & Ht & Hs). rewrite bind_run. unfold attempt.
  destruct (ClearPausedHoldCode id o w2) as [[err|wiped] w3] eqn:Hc.
  { intros [= <- _]. by destruct (errors_is err ErrNotFound). }
  intros [= _ <-] _. by eapply cleared_taken.
Qed.

Lemma wait_granted id o (w : world E) c w1 : wait_lease id o w = (inr (Some c), w1) ->
  w_tx w1 = w_tx w /\ w_db w1 = w_db w.
Proof.
  unfold wait_lease. destruct (Lease.AcquireTaskOp _ _ _ _) as [[k| |k] r]; [by intros [= _ <-]|done|].
  destruct (Lease.cancelWait k r) as [g r']. by intros [= _ <-].
Qed.

Lemma wait_refused id o (w : world E) w1 : wait_lease id o w = (inr None, w1) ->
  w_tx w1 = w_tx w /\ w_db w1 = w_db w /\ w_eng w1 = w_eng w.
Proof.
  unfold wait_lease. destruct (Lease.AcquireTaskOp _ _ _ _) as [[k| |k] r]; [done|by intros [= <-]|].
  destruct (Lease.cancelWait k r) as [g r']. by intros [= _ <-].
Qed.

(** an operator pause that answers ok leaves the row paused and out of reach of
    the admission pass, whatever hold stamp it carried and whoever held it
    before; one that did not get the lease touches neither tables nor
    engines. *)
Theorem pauseAction_takes_over (t : actionTask) o (w : world E) : w_tx w = None ->
  let '(r, w') := pauseAction t o w in
  exists outcome, r = inr outcome /\
    (Ok outcome = true -> taken_over (at_ID t) (w_db w')) /\
    ((wait_lease (at_ID t) o w).1 = inr None ->
       outcome = actionFailure (at_ID t) SlugValidationFailed detailTaskOpBusy /\
       w_db w' = w_db w /\ w_eng w' = w_eng w).
Proof.
  intros Hw. destruct (answers_pause t o w) as (r & w' & Hr). rewrite Hr. exists r. split; [done|].
  revert Hr. unfold pauseAction. rewrite bind_run.
  destruct (wait_lease (at_ID t) o w) as [[e|[c|]] w1] eqn:Hwait; [done| |].
  - rewrite bind_run. apply wait_granted in Hwait as [Htx Hdb]. rewrite Hw in Htx.
    destruct (pause_leased (at_ID t) o w1) as [[e|p] w2] eqn:Hp; [done|]. intros [= <- <-]. split; [|done].
    intros Hok. by apply (pause_leased_takes (at_ID t) o w1 p w2).
  - intros [= <- <-]. apply wait_refused in Hwait as (_ & Hdb & He). by split.
Qed.
End Pause.

(** ** The irreversible delete *)

Section Delete.
Context {E : Type} `{!EngineApi E, !Disk E, !Recheckable E} (roots : list (list Z)).
Implicit Types (w : world E) (e : E).

(** The environment after [os.Remove] of each path in turn. *)
Definition remove_seq (ps : list (list Z)) e : E := fold_left (fun e p => (disk_Remove p e).2) ps e.

(** The engines after step 3, and what they answered. *)
Definition detach (pause : bool) (t : actionTask) e : res unit * E :=
  match engineFor (E := E) t with
  | inl err => (inl err, e)
  | inr None => (inr tt, e)
  | inr (Some h) =>
    if pause then
      match eng_Pause (at_Engine t) h e with
      | (inl err, e) => (inl err, e)
      | (inr _, e) => eng_Remove (at_Engine t) h e
      end
    else eng_Remove (at_Engine t) h e
  end.

Lemma attempt_run {A} (m : M E A) o w : attempt m o w = let (r, w') := m o w in (inr r, w').
Proof. done. Qed.
Lemma set_eng_twice e1 e2 w : set_eng e2 (set_eng e1 w) = set_eng e2 w.
Proof. by destruct w. Qed.
Lemma set_eng_id w : set_eng (w_eng w) w = w.
Proof. by destruct w. Qed.

Lemma detach_run (t : actionTask) pause o w :
  removeEngineHandle t pause o w =
    (inr (match (detach pause t (w_eng w)).1 with inl err => Some (engineFailureProblem err) | inr _ => None end),
     set_eng (detach pause t (w_eng w)).2 w).
Proof.
  unfold removeEngineHandle, detach. rewrite bind_run. unfold reach.
  destruct (engineFor t) as [err|[h|]]; destruct pause; cbn; rewrite ?bind_run; cbn; rewrite ?set_eng_id; try done.
  - unfold attempt, call. destruct (eng_Pause _ _ _) as [[err|[]] e1]; [done|]. cbn. rewrite bind_run.
    destruct (eng_Remove _ _ _) as [[err|[]] e2]; cbn; by rewrite set_eng_twice.
  - unfold attempt, call. by destruct (eng_Remove _ _ _) as [[err|[]] e2].
Qed.

Lemma unlink_run targets result o w : exists result',
  unlink_all targets result o w = (inr result', set_eng (remove_seq (Path <$> targets) (w_eng w)) w).
Proof.
  revert result w. induction targets as [|t targets IH]; intros result w.
  { exists result. simpl. by rewrite set_eng_id. }
  cbn [unlink_all]. rewrite bind_run. unfold Remove. destruct (disk_Remove (Path t) (w_eng w)) as [r e] eqn:Hr.
  set (result1 := match r with Removed => _ | NotExist => _ | RemoveFailed => _ end).
  destruct (IH result1 (set_eng e w)) as [result' ->]. exists result'. rewrite set_eng_twice.
  rewrite fmap_cons. unfold remove_seq. cbn [fold_left]. by rewrite Hr.
Qed.

(** The paths the executor removes: the recorded ones in order, then the
    task's own directory if it is one and still resolves. *)
Definition removed_paths (dir : list Z) (targets : list Target) e : list (list Z) :=
  (Path <$> targets) ++
  (if bool_decide (dir <> []) && resolves roots (remove_seq (Path <$> targets) e) dir then [dir] else []).

Lemma ctx_done_same o w : exists b w1, ctx_done o w = (inr b, w1) /\ w_eng w1 = w_eng w /\ w_db w1 = w_db w /\ w_tx w1 = w_tx w.
Proof. unfold ctx_done. destruct (w_cancel w) as [[|k]|]; by eexists _, _. Qed.

Lemma task_dir_run dir o w : removeTaskDir roots dir o w =
  (inr tt, set_eng (remove_seq (if bool_decide (dir <> []) && resolves roots (w_eng w) dir then [dir] else []) (w_eng w)) w).
Proof.
  unfold removeTaskDir. destruct (bool_decide_reflect (dir = [])) as [->|Hd].
  { simpl. by rewrite set_eng_id. }
  rewrite (bool_decide_eq_true_2 (dir <> [])) by done. rewrite bind_run. cbn [gets].
  destruct (resolves roots (w_eng w) dir); cbn; [|by rewrite set_eng_id].
  unfold Remove. rewrite bind_run. by destruct (disk_Remove dir (w_eng w)).
Qed.

Lemma remove_seq_app ps qs e : remove_seq (ps ++ qs) e = remove_seq qs (remove_seq ps e).
Proof. apply fold_left_app. Qed.

Lemma DeleteData_run dir targets o w : let '(r, w') := DeleteData roots dir targets o w in
  w_db w' = w_db w /\ w_tx w' = w_tx w /\
  match r with
  | inl _ => w_eng w' = w_eng w
  | inr _ => forallb (fun t => resolves roots (w_eng w) (Path t)) targets = true /\
      w_eng w' = remove_seq (removed_paths dir targets (w_eng w)) (w_eng w)
  end.
Proof.
  unfold DeleteData. rewrite bind_run.
  destruct (ctx_done_same o w) as (cancelled & w1 & -> & He & Hd & Ht). destruct cancelled; [done|].
  rewrite bind_run. cbn [gets]. rewrite He.
  destruct (forallb _ targets) eqn:Hall; cbn [negb]; [|done].
  rewrite bind_run. destruct (unlink_run targets (MkDeleted 0 0 0) o w1) as [result ->].
  rewrite bind_run, task_dir_run. rewrite ret_run. rewrite He. destruct w1. simpl in *. split_and!; try done.
  unfold removed_paths. by rewrite remove_seq_app.
Qed.

Lemma mark_deleted_same id deleted o w : w_eng (mark_deleted id deleted o w).2 = w_eng w.
Proof.
  assert (H : always (keeps db_step (E := E)) (mark_deleted id deleted)); [|by apply H].
  unfold mark_deleted. walk; auto using MarkRemoved_keeps with dltool.
Qed.

(** What a delete request did to the engines and the disk: nothing, the
    engine's part only, or the engine's part and then the recorded removals. *)
Definition delete_trace (id : string) (data : bool) (d : db) e e' : Prop :=
  e' = e \/ exists row, d_tasks d !! id = Some row /\ let t := action_task id row in
    (exists pause, e' = (detach pause t e).2) \/
    data = true /\
    let targets := recordedTargets (t_destination row) (queryListTaskFiles id d) in
    let e1 := (detach true t e).2 in
    (detach true t e).1 = inr tt /\
    (forall p, p ∈ Path <$> targets -> resolves roots e p = true /\ resolves roots e1 p = true) /\
    e' = remove_seq (removed_paths (ownDir (t_destination row) targets) targets e1) e1.

Lemma no_failures targets e : bool_decide (rejectedPaths roots targets e <> []) = false ->
  forall p, p ∈ Path <$> targets -> resolves roots e p = true.
Proof.
  intros Hn%bool_decide_eq_false%dec_stable p Hp. destruct (resolves roots e p) eqn:Hr; [done|].
  assert (Hin : p ∈ rejectedPaths roots targets e); [|rewrite Hn in Hin; by apply not_elem_of_nil in Hin].
  unfold rejectedPaths. apply list_elem_of_In, filter_In. split; [by apply list_elem_of_In|]. by rewrite Hr.
Qed.

Lemma delete_with_data_trace (t : actionTask) targets o w :
  let e' := w_eng (delete_with_data roots t targets o w).2 in
  e' = w_eng w \/ e' = (detach true t (w_eng w)).2 \/
  let e1 := (detach true t (w_eng w)).2 in
  (detach true t (w_eng w)).1 = inr tt /\
  (forall p, p ∈ Path <$> targets -> resolves roots (w_eng w) p = true /\ resolves roots e1 p = true) /\
  e' = remove_seq (removed_paths (ownDir (at_Destination t) targets) targets e1) e1.
Proof.
  cbv zeta. unfold delete_with_data. rewrite bind_run. cbn [gets].
  destruct (bool_decide (rejectedPaths roots targets (w_eng w) <> [])) eqn:Hrej; [by left|]. right.
  pose proof (no_failures _ _ Hrej) as Hin. rewrite bind_run, detach_run.
  destruct (detach true t (w_eng w)) as [[err|[]] e1]; cbn [fst snd]; [by left|].
  rewrite bind_run. unfold attempt.
  pose proof (DeleteData_run (ownDir (at_Destination t) targets) targets o (set_eng e1 w)) as Hdel.
  destruct (DeleteData _ _ _ o (set_eng e1 w)) as [[err|result] w2]; destruct Hdel as (_ & _ & Hdel).
  - left. destruct (errors_is err ErrFs); [|exact Hdel]. rewrite bind_run. exact Hdel.
  - destruct Hdel as [Hall Hw2]. right. rewrite mark_deleted_same. split; [done|]. split; [|done].
    intros p Hp. split; [by apply Hin|]. apply list_elem_of_fmap in Hp as (u & -> & Hu).
    rewrite forallb_forall in Hall. by apply Hall, list_elem_of_In.
Qed.

(** C7: the irreversible delete touches the disk only with delete_data, only
    after every recorded path was seen to resolve inside a root - once before
    the engine is called and once more after it let the task go - and then
    removes exactly the recorded files, in order, and the task's own directory
    at most.  On every other path the disk and the engines see the engine's
    pause and remove at most. *)
Theorem DeleteTask_removes_recorded_only id data force o w : w_tx w = None ->
  delete_trace id data (w_db w) (w_eng w) (w_eng (DeleteTask roots id data force o w).2).
Proof.
  intros Hw. unfold DeleteTask, delete_trace. destruct (data && force); [by left|]. rewrite bind_run, attempt_run.
  destruct (Get_same id o w Hw) as (w1 & Hd1 & Hw1 & _ & He1 & [->| ->]); [by left|].
  destruct (d_tasks (w_db w) !! id) as [row|] eqn:Hrow; [|by left]. rewrite <- He1. cbv beta iota zeta.
  destruct force.
  { right. exists row. split; [done|]. left. exists false. unfold forceCompleteTask. rewrite bind_run, detach_run.
    destruct (detach false _ _) as [[err|[]] e1]; cbn [fst snd]; [done|].
    set (m := _ ≫= _). assert (H : always (keeps db_step (E := E)) m); [|by apply H].
    subst m. walk; auto using Transition_keeps with dltool. }
  rewrite bind_run, attempt_run. unfold ListFiles, query. destruct (o_io o (w_n w1)); [|by left..].
  assert (Hcur : current w1 = w_db w) by (unfold current; by rewrite Hw1). rewrite Hcur.
  change (w_eng w1) with (w_eng (bump w1)). set (w2 := bump w1). destruct data.
  - pose proof (delete_with_data_trace (action_task id row) (recordedTargets (t_destination row) (queryListTaskFiles id (w_db w))) o w2) as H.
    cbv zeta in H. cbn [action_task at_Destination] in H |- *. destruct H as [->|[->|H]]; [by left|right..]; exists row; (split; [done|]).
    + left. by exists true.
    + right. split; [done|exact H].
  - right. exists row. split; [done|]. left. exists true. rewrite bind_run, detach_run.
    destruct (detach true _ _) as [[err|[]] e1]; cbn [fst snd]; [done|]. by rewrite mark_deleted_same.
Qed.
End Delete.

(** ** Concrete requests *)

(** The disk of the demo world: no symlinks, and every removal works and is
    logged. *)
#[global] Instance demo_disk : Disk (list string) := {|
  disk_Getwd := fun _ => Some [slash];
  disk_EvalSymlinks := fun _ p => Some (Clean p);
  disk_Remove := fun p l => (Removed, l ++ ["rm " +:+ string_of p]) |}.
#[global] Instance demo_recheck : Recheckable (list string) := {|
  recheckable := fun _ => false;
  eng_Recheck := fun _ _ l => (inr tt, l) |}.

Definition data_roots : list (list Z) := [bytes_of "/data"].

(** A task the engine holds, with one recorded file in a directory of its
    own. *)
Definition with_file (path : string) (row : task) : db :=
  MkDb {["a" := row]} [] {[("a", 0%Z) := MkFile "f" path 7 7 1 None 0 0]} ∅ ∅.
Definition running_file : db :=
  with_file "iso/disc.iso" (set_engine_ref (Some "g0"%string) (http_task StateDownloading 1)).

Lemma Actions_safe_witness :
  (exists r, (Actions data_roots ["a"] "remove" true healthy (start running_file)).1 = inr (inr [r]) /\ Ok r = true) /\
  db_step running_file (w_db (Actions data_roots ["a"] "remove" true healthy (start running_file)).2).
Proof.
  split; [eexists; split; [by vm_compute|done]|].
  exact (proj1 (Actions_safe data_roots ["a"%string] "remove" true healthy (start running_file) eq_refl)).
Defined.

(** Two paused tasks and room for one: the first is promised a slot, the
    second is told to wait. *)
Definition two_paused : db :=
  MkDb (list_to_map [("a"%string, http_task StatePaused 1); ("b"%string, http_task StatePaused 2)]) [] ∅ ∅
    {["max_active_total" := Some 1%Z]}.

Lemma resume_batch_respects_headroom_witness : exists results w' counts limits,
  Actions data_roots ["a"; "b"] "resume" false healthy (start two_paused) = (inr (inr results), w') /\
  Ok <$> results = [true; false] /\
  (held_of None counts + Z.of_nat (length (List.filter
     (granted (queryActionTasks ["a"; "b"] (current (start two_paused))) (selects None)) results))
   <= Z.max (cap_of None limits) (held_of None counts))%Z.
Proof.
  destruct (Actions data_roots ["a"; "b"]%string "resume" false healthy (start two_paused)) as [[e|[p|results]] w'] eqn:Hrun;
    [by vm_compute in Hrun|by vm_compute in Hrun|].
  destruct (resume_batch_respects_headroom data_roots _ _ _ _ _ _ Hrun) as (counts & limits & _ & Hl & Hcap).
  exists results, w', counts, limits. split; [done|]. split.
  - assert (Hr : results = match (Actions data_roots ["a"; "b"]%string "resume" false healthy (start two_paused)).1 with
                          inr (inr rs) => rs | _ => [] end) by by rewrite Hrun.
    rewrite Hr. by vm_compute.
  - apply Hcap. vm_compute in Hl. by simplify_eq.
Defined.

(** A task parked by a full disk, paused by the operator. *)
Lemma pauseAction_takes_over_witness :
  c_id <$> querySelectQueuedCandidates parked_full = ["a"%string] /\
  let '(r, w') := pauseAction (action_task "a" (http_task StatePaused 1)) healthy (start parked_full) in
  r = inr (success "a") /\ taken_over "a" (w_db w').
Proof.
  split; [by vm_compute|].
  pose proof (pauseAction_takes_over (action_task "a" (http_task StatePaused 1)) healthy (start parked_full) eq_refl) as H.
  destruct (pauseAction _ _ _) as [r w'] eqn:Hr.
  assert (Hx : r = inr (success "a")) by (change r with (r, w').1; rewrite <- Hr; by vm_compute).
  subst r. split; [done|]. destruct H as (outcome & [= <-] & Htaken & _). by apply Htaken.
Defined.

(** Pause, remove, then the file and its emptied directory. *)
Lemma DeleteTask_removes_recorded_only_witness :
  w_eng (DeleteTask data_roots "a" true false healthy (start running_file)).2 =
    ["pause"; "remove"; "rm /data/iso/disc.iso"; "rm /data/iso"]%string /\
  delete_trace data_roots "a" true running_file []
    (w_eng (DeleteTask data_roots "a" true false healthy (start running_file)).2).
Proof.
  split; [by vm_compute|].
  exact (DeleteTask_removes_recorded_only data_roots "a" true false healthy (start running_file) eq_refl).
Defined.

(** A recorded path that escapes stops the request before the engine hears of
    it. *)
Example escaping_path_rejected :
  let '(r, w) := DeleteTask data_roots "a" true false healthy (start (with_file "../etc/passwd"
    (set_engine_ref (Some "g0"%string) (http_task StateDownloading 1)))) in
  r = inr (inl (MkProblem SlugPathRejected 403 (pathRejectedDetail 1))) /\ w_eng w = [].
Proof. by vm_compute. Qed.

(** A delete with data of a task removed earlier unlinks its files, answers 422
    and records nothing. *)
Example second_delete_unlinks_unrecorded :
  let '(r, w) := DeleteTask data_roots "a" true false healthy
    (start (with_file "disc.iso" (http_task StateRemoved 1))) in
  r = inr (inl (MkProblem SlugValidationFailed 422 detailIllegalState)) /\
  w_eng w = ["rm /data/disc.iso"%string] /\ d_events (w_db w) = [].
Proof. by vm_compute. Qed.

(** A removal decided on the row as it was before a pass admitted it: the row
    is removed, no engine was asked to drop the transfer the pass started, and
    no later sweep looks at it. *)
Example stale_remove_strands_transfer :
  let t := queryActionTasks ["a"%string] two_queued !! "a"%string in
  let w := (Pass (MkPolicy (MkLimits 5 3) ∅ ["/data"%string]) healthy (start two_queued)).2 in
  match t with
  | None => False
  | Some t =>
    let '(r, w') := applyAction t "remove" None healthy w in
    (match r with inr x => Ok x.1 | inl _ => false end) = true /\
    ((fun t => (t_state t, t_engine_ref t)) <$> d_tasks (w_db w') !! "a"%string) = Some (StateRemoved, Some "g0"%string) /\
    w_eng w = ["add"; "add"]%string /\ w_eng w' = w_eng w /\
    contains (r_id <$> queryListNonTerminalByEngine "aria2" (w_db w')) "a"%string = false
  end.
Proof. by vm_compute. Qed.
