(* ===== verification/Disk.v ===== *)
(** * A disk: directory trees, system calls that can fail, and what is durable

    The file operations that move a payload run against this disk.  Paths are
    the lists of their elements ([SafeJoin.render] writes one out).  Every call
    is one tick: the environment may refuse it, shorten it, or - for a removal
    - leave part of the work done, and the disk it leaves is recorded, so that
    a theorem can speak of every instant at which the process may die.  A
    file's bytes are durable once the file was synced after the last write, a
    name once its directory was synced after the name appeared. *)

From stdpp Require Import gmap sorting.
From S2P Require Import Prelude GoStrings SafePath SafeJoin Manifest.

Open Scope Z_scope.

Abbreviation path := (list (list Z)).

(** What a name stands for; a symlink and the other special files are told
    apart by [Lstat] only. *)
Inductive entry := Regular (data : list Z) | Directory | Symlink | Special.

#[global] Instance entry_eq_dec : EqDecision entry.
Proof. solve_decision. Defined.

Abbreviation fs := (gmap (list (list Z)) entry).

(** [q] is [p] or lies under it. *)
Abbreviation below p q := (prefix p q).

(** [filepath.Dir] of an absolute path. *)
Definition dir_of (p : path) : path := take (length p - 1) p.

(** The parent of every entry is a directory. *)
Definition closed (f : fs) : Prop :=
  f !! [] = Some Directory /\ forall p x, is_Some (f !! (p ++ [x])) -> f !! p = Some Directory.

(** ** Errors *)

(** What the environment may answer to any call. *)
Inductive fault := EXDEV | ENOSPC | EACCES | EPERM | EIO | EEXIST.

(** The sentinels of an error chain. *)
Inductive cause :=
  | Errno (e : fault) | NotExist | NotEmpty | Refused | CtxDone | VerifyFailed
  | OutOfFuel.  (* not an error of the code: a walk or copy that did not end *)

#[global] Instance fault_eq_dec : EqDecision fault.
Proof. solve_decision. Defined.
#[global] Instance cause_eq_dec : EqDecision cause.
Proof. solve_decision. Defined.

(** An error value is the causes [errors.Is] finds in it; [errors.Join] puts
    them together. *)
Abbreviation errs := (list cause).

(** ** The disk and the environment *)

Record disk := MkDisk {
  files : fs;
  wet_data : gset (list (list Z));     (* bytes not yet durable *)
  wet_name : gset (list (list Z)) }.   (* names not yet durable *)

Record answers := MkAnswers {
  a_fault : nat -> option fault;
  a_cut : nat -> nat;                       (* the length of a short read or write *)
  a_left : nat -> path -> bool;             (* what an interrupted removal leaves *)
  a_follow : nat -> path -> option entry;   (* what a symlink leads to *)
  a_cancel : option nat;                    (* when the context ends *)
  a_now : nat -> Z }.

(** The state of a command: the calls so far, the disk, the disks the calls
    left, and the caller's own state, which only its callback sees. *)
Record state (X : Type) := State {
  tick : nat; cur : disk; past : list disk; user : X }.
Arguments State {X}. Arguments tick {X}. Arguments cur {X}. Arguments past {X}. Arguments user {X}.

Definition D (X A : Type) : Type := answers -> state X -> (errs + A) * state X.

#[global] Instance D_ret X : MRet (D X) := fun A x a s => (inr x, s).
#[global] Instance D_bind X : MBind (D X) := fun A B k m a s =>
  match m a s with
  | (inl e, s) => (inl e, s)
  | (inr x, s) => k x a s
  end.

Section Calls.
Context {X : Type}.
Abbreviation D := (D X).

Definition throw {A} (e : errs) : D A := fun a s => (inl e, s).
Definition try_ {A} (m : D A) : D (errs + A) := fun a s => let (r, s) := m a s in (inr r, s).

(** One call: the answer and the disk it leaves. *)
Definition call {A} (k : answers -> nat -> disk -> (errs + A) * disk) : D A := fun a s =>
  let '(r, d) := k a (tick s) (cur s) in (r, State (S (tick s)) d (d :: past s) (user s)).

(** A call the environment may refuse. *)
Definition guarded {A} (k : answers -> nat -> disk -> (errs + A) * disk) : D A :=
  call (fun a n d => match a_fault a n with Some e => (inl [Errno e], d) | None => k a n d end).

Definition pure_call {A} (k : answers -> nat -> fs -> errs + A) : D A :=
  guarded (fun a n d => (k a n (files d), d)).

(** [ctx.Err() != nil]. *)
Definition ctx_over : D bool := fun a s =>
  (inr (match a_cancel a with Some n => (n <=? tick s)%nat | None => false end), s).

(** [time.Now()]. *)
Definition clock : D Z := call (fun a n d => (inr (a_now a n), d)).

(** [os.Lstat] and [os.Stat]. *)
Definition found (o : option entry) : errs + entry :=
  match o with Some e => inr e | None => inl [NotExist] end.
Definition Lstat (p : path) : D entry := pure_call (fun _ _ f => found (f !! p)).
Definition Stat (p : path) : D entry := pure_call (fun a n f =>
  found (match f !! p with Some Symlink => a_follow a n p | o => o end)).

(** [os.Mkdir]. *)
Definition Mkdir (p : path) : D unit := guarded (fun _ _ d =>
  if bool_decide (is_Some (files d !! p)) then (inl [Refused], d)
  else if bool_decide (files d !! dir_of p = Some Directory)
  then (inr tt, MkDisk (<[p := Directory]> (files d)) (wet_data d) ({[p]} ∪ wet_name d))
  else (inl [NotExist], d)).

(** [os.Chmod]; modes are not kept. *)
Definition Chmod (p : path) : D unit := pure_call (fun _ _ f => match f !! p with Some _ => inr tt | None => inl [NotExist] end).

(** [os.Open] of a file or a directory, and [Close]. *)
Definition Open (p : path) : D unit := pure_call (fun _ _ f => match f !! p with Some _ => inr tt | None => inl [NotExist] end).
Definition Close (p : path) : D unit := pure_call (fun _ _ _ => inr tt).

(** [os.OpenFile] with [O_WRONLY|O_CREATE|O_EXCL]. *)
Definition Create (p : path) : D unit := guarded (fun _ _ d =>
  if bool_decide (is_Some (files d !! p)) then (inl [Refused], d)
  else if bool_decide (files d !! dir_of p = Some Directory)
  then (inr tt, MkDisk (<[p := Regular []]> (files d)) ({[p]} ∪ wet_data d) ({[p]} ∪ wet_name d))
  else (inl [NotExist], d)).

(** [Read] of at most [cap] bytes at an offset; no bytes is the end of the
    file. *)
Definition Read (p : path) (offset : nat) (cap : Z) : D (list Z) := pure_call (fun a n f =>
  match f !! p with
  | Some (Regular data) => inr (take (Z.to_nat (Z.min cap (Z.of_nat (S (a_cut a n))))) (drop offset data))
  | _ => inl [Refused]
  end).

(** [Write] at the end of the file: how many bytes went out, and the error
    when that is not all of them. *)
Definition append (p : path) (bytes : list Z) (d : disk) : disk :=
  match files d !! p with
  | Some (Regular data) => MkDisk (<[p := Regular (data ++ bytes)]> (files d)) ({[p]} ∪ wet_data d) (wet_name d)
  | _ => d
  end.
Definition Write (p : path) (bytes : list Z) : D (nat * errs) := call (fun a n d =>
  match a_fault a n with
  | None => (inr (length bytes, []), append p bytes d)
  | Some e => let part := take (a_cut a n) bytes in (inr (length part, [Errno e]), append p part d)
  end).

(** [Sync] of a file. *)
Definition Sync (p : path) : D unit := guarded (fun _ _ d =>
  (inr tt, MkDisk (files d) (wet_data d ∖ {[p]}) (wet_name d))).

(** [Sync] of a directory makes the names in it durable. *)
Definition SyncDir (p : path) : D unit := guarded (fun _ _ d =>
  (inr tt, MkDisk (files d) (wet_data d) (filter (fun q => dir_of q <> p) (wet_name d)))).

(** [os.ReadDir]: the names with their kinds, in byte order. *)
Definition name_le (a b : list Z * entry) : Prop := lex_le a.1 b.1.
#[global] Instance name_le_dec : RelDecision name_le.
Proof. unfold name_le. intros a b. apply _. Defined.
Definition children (p : path) (f : fs) : list (list Z * entry) :=
  merge_sort name_le (omap (fun e =>
    match drop (length p) e.1 with
    | [x] => if bool_decide (below p e.1) then Some (x, e.2) else None
    | _ => None
    end) (map_to_list f)).
Definition ReadDir (p : path) : D (list (list Z * entry)) := pure_call (fun _ _ f => inr (children p f)).

(** Where a rename of [a] to [b] takes the path [p] from. *)
Definition moved_from (a b p : path) : option path :=
  if bool_decide (below b p) then Some (a ++ drop (length b) p)
  else if bool_decide (below a p) then None else Some p.
Definition move_path (a b p : path) : path :=
  if bool_decide (below a p) then b ++ drop (length a) p else p.
Definition move_files (a b : path) (f : fs) : fs :=
  let kept := filter (fun e => ~ below b e.1) f in
  list_to_map ((fun e => (move_path a b e.1, e.2)) <$> map_to_list kept).
Definition move_marks (a b : path) (g : gset path) : gset path :=
  set_map (move_path a b) (filter (fun p => ~ below b p) g).

(** [os.Rename]: the kernel's conditions, then one atomic step. *)
Definition rename_check (a b : path) (f : fs) : errs + unit :=
  match f !! a with
  | None => inl [NotExist]
  | Some e =>
    if bool_decide (below a b) then inl [Refused]
    else if bool_decide (f !! dir_of b = Some Directory) then
      match f !! b, e with
      | None, _ => inr tt
      | Some Directory, Directory =>
        if bool_decide (children b f = []) then inr tt else inl [NotEmpty]
      | Some Directory, _ | Some _, Directory => inl [Refused]
      | Some _, _ => inr tt
      end
    else inl [NotExist]
  end.
Definition Rename (a b : path) : D unit := guarded (fun _ _ d =>
  if bool_decide (a = b) then (match files d !! a with Some _ => inr tt | None => inl [NotExist] end, d)
  else match rename_check a b (files d) with
  | inl e => (inl e, d)
  | inr _ => (inr tt, MkDisk (move_files a b (files d)) (move_marks a b (wet_data d))
                        ({[b]} ∪ move_marks a b (wet_name d)))
  end).

(** [os.RemoveAll]: a failure leaves any part of the tree behind, and so does
    a crash in the middle. *)
Definition without (keep : path -> bool) (p : path) (d : disk) : disk :=
  MkDisk (filter (fun e => ~ below p e.1 \/ keep e.1 = true) (files d)) (wet_data d) (wet_name d).
Definition RemoveAll (p : path) : D unit :=
  part ← try_ (call (fun a n d =>
    (match a_fault a n with Some e => inl [Errno e] | None => inr tt end, without (a_left a n) p d)));
  match part with
  | inl e => throw e
  | inr _ => call (fun _ _ d => (inr tt, without (fun _ => false) p d))
  end.

(** [filepath.WalkDir]: the callback threads what its closure captures and
    says whether to go on ([SkipAll]). *)
Fixpoint each {T} (visit : T -> path -> entry -> D (T * bool)) (p : path) (acc : T)
    (names : list (list Z * entry)) : D (T * bool) :=
  match names with
  | [] => mret (acc, true)
  | n :: names =>
    r ← visit acc (p ++ [n.1]) n.2;
    if (r.2 : bool) then each visit p r.1 names else mret r
  end.
Fixpoint walk {T} (fuel : nat) (fn : T -> path -> entry -> D (T * bool)) (acc : T) (p : path) (e : entry) :
    D (T * bool) :=
  match fuel with
  | O => throw [OutOfFuel]
  | S fuel =>
    r ← fn acc p e;
    if negb r.2 then mret r
    else match e with
    | Directory => names ← ReadDir p; each (walk fuel fn) p r.1 names
    | _ => mret r
    end
  end.
Definition depth (f : fs) : nat := S (max_list (length <$> (map_to_list f).*1)).
Definition WalkDir {T} (root : path) (acc : T) (fn : T -> path -> entry -> D (T * bool)) : D T := fun a s =>
  let fuel := depth (files (cur s)) in
  (e ← Lstat root; r ← walk fuel fn acc root e; (mret r.1 : D T)) a s.
End Calls.
