(* ===== verification/DiskProps.v ===== *)
(** * Reasoning about commands on the disk

    [triple I P m Q Z]: run from a disk in [P], every disk a call of [m]
    leaves is in [I] - so whatever the process dies in - the result and the
    last disk are in [Q], and the error and the last disk in [Z].  The rule
    for [walk] is the induction the tree walks share. *)

From stdpp Require Import gmap sorting.
From S2P Require Import Prelude GoStrings SafePath SafeJoin Manifest Disk.

Section Triples.
Context {X : Type} (a : answers).
Abbreviation D := (D X).

Definition triple {A} (I P : disk -> Prop) (m : D A) (Q : A -> disk -> Prop) (Z : errs -> disk -> Prop) : Prop :=
  forall s, P (cur s) -> exists trace, past (m a s).2 = trace ++ past s /\ Forall I trace /\
    match (m a s).1 with inr x => Q x (cur (m a s).2) | inl e => Z e (cur (m a s).2) end.

Variable I : disk -> Prop.

Lemma triple_ret {A} P (x : A) (Q : A -> disk -> Prop) Z : (forall d, P d -> Q x d) -> triple I P (mret x) Q Z.
Proof. intros HQ s HP. exists []. split_and!; [done|by constructor|by apply HQ]. Qed.

Lemma triple_throw {A} P e (Q : A -> disk -> Prop) (Z : errs -> disk -> Prop) :
  (forall d, P d -> Z e d) -> triple I P (throw e) Q Z.
Proof. intros HZ s HP. exists []. split_and!; [done|by constructor|by apply HZ]. Qed.

Lemma triple_bind {A B} P (m : D A) (k : A -> D B) R Q Z :
  triple I P m R Z -> (forall x, triple I (R x) (k x) Q Z) -> triple I P (m ≫= k) Q Z.
Proof.
  intros Hm Hk s HP. destruct (Hm s HP) as (t1 & Ht1 & HI1 & Hr1). unfold mbind, D_bind.
  destruct (m a s) as [[e|x] s1]; simpl in *; [by exists t1|].
  destruct (Hk x s1 Hr1) as (t2 & Ht2 & HI2 & Hr2). exists (t2 ++ t1).
  rewrite Ht2, Ht1, app_assoc. split_and!; [done|by apply Forall_app|done].
Qed.

Lemma triple_try {A} P (m : D A) (Q : A -> disk -> Prop) (Z : errs -> disk -> Prop) Z' :
  triple I P m Q Z -> triple I P (try_ m) (fun r d => match r with inr x => Q x d | inl e => Z e d end) Z'.
Proof. intros Hm s HP. destruct (Hm s HP) as (t & ?). unfold try_. destruct (m a s) as [[?|?] ?]; by exists t. Qed.

Lemma triple_weaken {A} (P P' : disk -> Prop) (m : D A) (Q Q' : A -> disk -> Prop) (Z Z' : errs -> disk -> Prop) :
  triple I P m Q Z -> (forall d, P' d -> P d) -> (forall x d, Q x d -> Q' x d) ->
  (forall e d, Z e d -> Z' e d) -> triple I P' m Q' Z'.
Proof.
  intros Hm HP HQ HZ s Hs. destruct (Hm s (HP _ Hs)) as (t & ? & ? & Hr). exists t.
  split_and!; [done..|]. destruct (m a s) as [[?|?] ?]; simpl in *; auto.
Qed.

(** A precondition without the disk in it. *)
Lemma triple_pure {A} (P : disk -> Prop) (H : Prop) (m : D A) Q Z :
  (forall d, P d -> H) -> (H -> triple I P m Q Z) -> triple I P m Q Z.
Proof. intros HH Hm s HP. by apply (Hm (HH _ HP)). Qed.

Lemma triple_ex {A B} (P : B -> disk -> Prop) (m : D A) Q Z :
  (forall x, triple I (P x) m Q Z) -> triple I (fun d => exists x, P x d) m Q Z.
Proof. intros Hm s [x HP]. by apply (Hm x). Qed.

(** One call. *)
Lemma triple_call {A} (P : disk -> Prop) k (Q : A -> disk -> Prop) Z :
  (forall n d, P d -> I (k a n d).2 /\
    match (k a n d).1 with inr x => Q x (k a n d).2 | inl e => Z e (k a n d).2 end) ->
  triple I P (call k) Q Z.
Proof.
  intros Hk s HP. destruct (Hk (tick s) (cur s) HP) as [HI Hr]. unfold call.
  destruct (k a (tick s) (cur s)) as [r d]. exists [d]. simpl in *. split_and!; [done|by constructor|done].
Qed.

Lemma triple_guarded {A} (P : disk -> Prop) k (Q : A -> disk -> Prop) Z :
  (forall n d e, P d -> a_fault a n = Some e -> I d /\ Z [Errno e] d) ->
  (forall n d, P d -> I (k a n d).2 /\
    match (k a n d).1 with inr x => Q x (k a n d).2 | inl e => Z e (k a n d).2 end) ->
  triple I P (guarded k) Q Z.
Proof.
  intros HF Hk. apply triple_call. intros n d HP. destruct (a_fault a n) as [e|] eqn:He; simpl; [|by apply Hk].
  by apply (HF n).
Qed.

Lemma triple_pure_call {A} (P : disk -> Prop) k (Q : A -> disk -> Prop) Z :
  (forall d, P d -> I d) ->
  (forall n d e, P d -> a_fault a n = Some e -> Z [Errno e] d) ->
  (forall n d, P d -> match k a n (files d) with inr x => Q x d | inl e => Z e d end) ->
  triple I P (pure_call k) Q Z.
Proof.
  intros HI HF Hk. apply triple_guarded; simpl.
  - intros n d e HP He. split; [by apply HI|by eapply HF].
  - intros n d HP. split; [by apply HI|by apply Hk].
Qed.

Lemma triple_ctx P (Q : bool -> disk -> Prop) Z :
  (forall d, P d -> Q false d) -> (forall d, P d -> a_cancel a <> None -> Q true d) ->
  triple I P (ctx_over (X := X)) Q Z.
Proof.
  intros Hf Ht s HP. exists []. simpl. split_and!; [done|by constructor|].
  destruct (a_cancel a) eqn:Hc; [|by apply Hf]. destruct (_ <=? _)%nat; [apply Ht; [done|]|apply Hf]; congruence.
Qed.
End Triples.

(** ** Directories *)

Lemma dir_of_snoc p x : dir_of (p ++ [x]) = p.
Proof. unfold dir_of. rewrite length_app. simpl. replace (length p + 1 - 1)%nat with (length p) by lia. apply take_app_length. Qed.

Lemma dir_of_app p r : r <> [] -> dir_of (p ++ r) = p ++ dir_of r.
Proof.
  intros Hr. destruct (exists_last Hr) as (q & x & ->). by rewrite app_assoc, !dir_of_snoc.
Qed.

Lemma below_app (p r : path) : below p (p ++ r).
Proof. by exists r. Qed.

Lemma below_trans (p q r : path) : below p q -> below q r -> below p r.
Proof. intros. by etransitivity. Qed.

Lemma below_total (p q r : path) : below p r -> below q r -> below p q \/ below q p.
Proof. apply prefix_weak_total. Qed.

Lemma below_antisym (p q : path) : below p q -> below q p -> p = q.
Proof.
  intros [r ->] [k Hk]. destruct r; [by rewrite app_nil_r|]. exfalso. apply (f_equal length) in Hk. rewrite !length_app in Hk. simpl in Hk. lia.
Qed.

Lemma drop_below (p q : path) : below p q -> p ++ drop (length p) q = q.
Proof. intros [r ->]. by rewrite drop_app_length. Qed.

Lemma app_longer (p : path) x r : p <> p ++ x :: r.
Proof. intros Heq. apply (f_equal length) in Heq. rewrite length_app in Heq. simpl in Heq. lia. Qed.

Lemma closed_parent f p q : closed f -> below p q -> p <> q -> is_Some (f !! q) -> f !! p = Some Directory.
Proof.
  intros [_ Hc] [r ->] Hne. revert p Hne. induction r as [|x r IH]; intros p Hne Hq; [by rewrite app_nil_r in Hne|].
  apply (Hc p x). destruct r as [|y r]; [done|]. change (p ++ x :: y :: r) with (p ++ [x] ++ y :: r) in Hq.
  rewrite app_assoc in Hq. rewrite (IH (p ++ [x])); [done|apply app_longer|done].
Qed.

Lemma closed_absent f p q : closed f -> below p q -> f !! p = None -> f !! q = None.
Proof.
  intros Hc Hb Hp. destruct (decide (p = q)) as [->|Hne]; [done|].
  destruct (f !! q) eqn:Hq; [|done]. rewrite (closed_parent f p q) in Hp; by try done.
Qed.

Lemma elem_of_children p f x e : (x, e) ∈ children p f <-> f !! (p ++ [x]) = Some e.
Proof.
  unfold children. rewrite merge_sort_Permutation, list_elem_of_omap. split.
  - intros ([q e'] & Hin%elem_of_map_to_list & Hq). simpl in Hq.
    destruct (drop (length p) q) as [|y [|? ?]] eqn:Hd; try done.
    case_bool_decide as Hb; [|done]. simplify_eq. by rewrite <- Hd, drop_below.
  - intros Hf. exists (p ++ [x], e). split; [by apply elem_of_map_to_list|]. simpl.
    rewrite drop_app_length, bool_decide_eq_true_2; [done|]. apply below_app.
Qed.

Lemma omap_nodup {A B C} (f : A -> option (B * C)) l : NoDup l ->
  (forall x y u v, x ∈ l -> y ∈ l -> f x = Some u -> f y = Some v -> u.1 = v.1 -> x = y) ->
  NoDup (omap f l).*1.
Proof.
  intros Hl Hf. induction Hl as [|x l Hx Hl IH]; simpl; [by constructor|].
  assert (NoDup (omap f l).*1) by (apply IH; intros; eapply Hf; [by right|by right|done..]).
  destruct (f x) as [u|] eqn:Hu; [|done]. rewrite fmap_cons. constructor; [|done].
  intros ([w v] & Heq & (y & Hy & Hyv)%list_elem_of_omap)%list_elem_of_fmap.
  rewrite (Hf x y u (w, v)) in Hx; [done|by left|by right|done..].
Qed.

Lemma children_nodup p f : NoDup (children p f).*1.
Proof.
  unfold children. rewrite merge_sort_Permutation. apply omap_nodup; [apply NoDup_map_to_list|].
  intros [q e] [q' e'] [x ?] [y ?] Hin Hin' Hx Hy ?. simpl in *. subst y.
  apply elem_of_map_to_list in Hin, Hin'.
  destruct (drop (length p) q) as [|x' [|? ?]] eqn:Hq; try done.
  destruct (drop (length p) q') as [|y' [|? ?]] eqn:Hq'; try done.
  destruct (bool_decide_reflect (below p q)) as [Hb|], (bool_decide_reflect (below p q')) as [Hb'|]; try done.
  assert (q = q') as <-.
  { apply drop_below in Hb, Hb'. rewrite Hq in Hb. rewrite Hq' in Hb'. congruence. }
  congruence.
Qed.

(** ** Walking *)

Lemma depth_bound f p : is_Some (f !! p) -> (length p < depth f)%nat.
Proof.
  intros [e He]. unfold depth. assert (length p <= max_list (length <$> (map_to_list f).*1))%nat; [|lia].
  apply max_list_elem_of_le, list_elem_of_fmap. exists p. split; [done|].
  apply list_elem_of_fmap. exists (p, e). split; [done|]. by apply elem_of_map_to_list.
Qed.

Section Walk.
Context {X T : Type} (a : answers) (I : disk -> Prop).
Abbreviation D := (D X).
(** The tree that is walked, and what holds of the disk when [done] has been
    visited and the closure captured [acc]. *)
Context (f0 : fs) (root : path) (J : list path -> T -> disk -> Prop).
(** What a callback that stops leaves, and what a failure leaves. *)
Context (Stop : T -> disk -> Prop) (Er : errs -> disk -> Prop).
Context (fn : T -> path -> entry -> D (T * bool)).

Hypothesis J_closed : forall p q, below root p -> below p q -> p <> q -> is_Some (f0 !! q) ->
  f0 !! p = Some Directory.
Hypothesis J_visited : forall done acc d, J done acc d -> I d.
Hypothesis J_same : forall done acc d q, J done acc d -> below root q -> files d !! q = f0 !! q.
Hypothesis J_fault : forall done acc d n e, J done acc d -> a_fault a n = Some e -> Er [Errno e] d.
Hypothesis J_step : forall done acc q e, below root q -> f0 !! q = Some e -> q ∉ done ->
  q = root \/ dir_of q ∈ done ->
  triple a I (J done acc) (fn acc q e)
    (fun r d => if r.2 : bool then J (q :: done) r.1 d else Stop r.1 d) Er.

(** The visited names after the subtree of [p]: those before and all of it. *)
Definition covers (done : list path) (p : path) (done' : list path) : Prop :=
  done ⊆ done' /\ (forall q, q ∈ done' -> q ∈ done \/ below p q) /\
  (forall q, below p q -> is_Some (f0 !! q) -> q ∈ done').

Definition walked (done : list path) (p : path) (r : T * bool) (d : disk) : Prop :=
  if r.2 then exists done', covers done p done' /\ J done' r.1 d else Stop r.1 d.

(** What [ReadDir] of [p] lists. *)
Definition listing (p : path) (names : list (list Z * entry)) : Prop :=
  NoDup names.*1 /\ forall x e, (x, e) ∈ names <-> f0 !! (p ++ [x]) = Some e.

Lemma leaf_covers done p e : below root p -> f0 !! p = Some e -> e <> Directory -> covers done p (p :: done).
Proof.
  intros Hr Hp He. split_and!; [set_solver|set_solver|]. intros q Hb Hq.
  destruct (decide (p = q)) as [->|Hne]; [by left|].
  rewrite (J_closed p q) in Hp; by try done; congruence.
Qed.

Lemma each_rule (visit : T -> path -> entry -> D (T * bool)) p names done acc :
  (forall done acc x e, (x, e) ∈ names -> (forall q, q ∈ done -> ~ below (p ++ [x]) q) -> p ∈ done ->
     triple a I (J done acc) (visit acc (p ++ [x]) e) (walked done (p ++ [x])) Er) ->
  NoDup names.*1 -> (forall x e q, (x, e) ∈ names -> q ∈ done -> ~ below (p ++ [x]) q) -> p ∈ done ->
  triple a I (J done acc) (each visit p acc names)
    (fun r d => if r.2 then exists done', done ⊆ done' /\
        (forall q, q ∈ done' -> q ∈ done \/ exists x, x ∈ names.*1 /\ below (p ++ [x]) q) /\
        (forall x q, x ∈ names.*1 -> below (p ++ [x]) q -> is_Some (f0 !! q) -> q ∈ done') /\ J done' r.1 d
      else Stop r.1 d) Er.
Proof.
  revert done acc. induction names as [|[x e] names IH]; intros done acc Hvisit Hnd Hnew Hp; cbn [each].
  { apply triple_ret. intros d HJ. exists done. split_and!; [done|by left|set_solver|done]. }
  rewrite fmap_cons in Hnd. apply list.NoDup_cons in Hnd as [Hx Hnd]. simpl in Hx.
  eapply triple_bind. { apply (Hvisit done acc x e); [by left|intros q; apply (Hnew x e); by left|done]. }
  intros [acc' []]; cbn [fst snd]; [|by apply triple_ret]. unfold walked. cbn [fst snd].
  apply triple_ex. intros done1. apply (triple_pure _ _ _ (covers done (p ++ [x]) done1)); [by intros d [? _]|].
  intros (Hsub & Hin & Hall).
  assert (Hdisj : forall y e' q, (y, e') ∈ names -> q ∈ done1 -> ~ below (p ++ [y]) q).
  { intros y e' q Hy Hq Hb. destruct (Hin q Hq) as [Hd|Hbx]; [by apply (Hnew y e' q); [right| |]|].
    assert (y = x) as ->; [|apply Hx, list_elem_of_fmap; by exists (x, e')].
    destruct Hb as [k1 ->], Hbx as [k2 Hk]. rewrite <- !app_assoc in Hk. by simplify_list_eq. }
  eapply triple_weaken.
  { apply (IH done1 acc'); [|done|done|by apply Hsub]. intros. apply (Hvisit _ _ x0 e0); [by right|done..]. }
  - by intros d [_ HJ].
  - intros [acc2 go] d. cbn [fst snd]. destruct go; [|done].
    intros (done2 & Hsub2 & Hin2 & Hall2 & HJ2). exists done2. split_and!; [set_solver|..|done].
    + intros q Hq. rewrite fmap_cons. destruct (Hin2 q Hq) as [Hq1|(y & Hy & Hb)].
      * destruct (Hin q Hq1); [by left|right]. exists x. split; [left|done].
      * right. exists y. split; [by right|done].
    + intros y q Hy Hb Hq. rewrite fmap_cons in Hy. apply elem_of_cons in Hy as [->|Hy]; [|by eapply Hall2].
      apply Hsub2, Hall; done.
  - done.
Qed.

Lemma walk_rule fuel done acc p e :
  below root p -> f0 !! p = Some e -> (forall q, q ∈ done -> ~ below p q) ->
  p = root \/ dir_of p ∈ done ->
  (forall q, below p q -> is_Some (f0 !! q) -> (length q < fuel + length p)%nat) ->
  triple a I (J done acc) (walk fuel fn acc p e) (walked done p) Er.
Proof.
  revert done acc p e. induction fuel as [|fuel IH]; intros done acc p e Hroot Hp Hnew Hparent Hfuel.
  { exfalso. specialize (Hfuel p). rewrite Hp in Hfuel. specialize (Hfuel ltac:(done) ltac:(done)). lia. }
  cbn [walk]. eapply triple_bind.
  { apply J_step; [done..| |done]. intros Hin. by apply (Hnew p). }
  intros [acc' go]. cbn [fst snd]. destruct go; cbn [negb].
  2: { apply triple_ret. done. }
  destruct (decide (e = Directory)) as [->|He].
  2: { assert (triple a I (J (p :: done) acc') (mret (acc', true) : D (T * bool)) (walked done p) Er) as Hleaf.
       { apply triple_ret. intros d Hd. exists (p :: done). split; [by eapply leaf_covers|done]. }
       by destruct e. }
  eapply triple_bind.
  { apply (triple_pure_call _ _ (J (p :: done) acc') _
      (fun names d => listing p names /\ J (p :: done) acc' d)).
    - intros d. apply J_visited.
    - intros n d e. apply J_fault.
    - intros n d HJ. split; [|done]. split; [apply children_nodup|]. intros x e.
      rewrite elem_of_children. rewrite (J_same _ _ _ _ HJ); [done|].
      by eapply below_trans; [exact Hroot|apply below_app]. }
  intros names. apply (triple_pure _ _ _ (listing p names)); [by intros d [? _]|]. intros [Hnd Hnames].
  eapply triple_weaken; [apply (each_rule (walk fuel fn) p names (p :: done) acc')|..].
  - intros done' acc2 x e Hx Hnew' Hin. apply Hnames in Hx. apply IH; [|done|done|by rewrite dir_of_snoc; right|].
    + by eapply below_trans; [exact Hroot|apply below_app].
    + intros q Hq Hs. rewrite length_app. cbn [length].
      specialize (Hfuel q ltac:(eapply below_trans; [apply below_app|exact Hq]) Hs). lia.
  - done.
  - intros x e q _ Hq Hb. apply elem_of_cons in Hq as [->|Hq].
    + destruct Hb as [k Hk]. rewrite <- app_assoc in Hk. by apply app_longer in Hk.
    + apply (Hnew q Hq). eapply below_trans; [apply below_app|exact Hb].
  - by left.
  - by intros d [_ HJ].
  - intros [acc2 go] d. unfold walked. cbn [fst snd]. destruct go; [|done].
    intros (done' & Hsub & Hin & Hall & HJ). exists done'. split; [|done]. split_and!; [set_solver|..].
    + intros q Hq. destruct (Hin q Hq) as [[->|Hd]%elem_of_cons|(x & _ & Hb)]; [by right|by left|right].
      eapply below_trans; [apply below_app|exact Hb].
    + intros q [k ->] Hq. destruct k as [|x k]; [rewrite app_nil_r; apply Hsub; by left|].
      assert (Hpx : p ++ x :: k = (p ++ [x]) ++ k) by by rewrite <- app_assoc.
      rewrite Hpx in *. apply (Hall x); [|apply below_app|done].
      destruct Hq as [e' Hq]. 
      assert (exists e0, f0 !! (p ++ [x]) = Some e0) as [e0 He0].
      { destruct k; [rewrite app_nil_r in Hq; by eexists|].
        eexists. eapply J_closed; [eapply below_trans; [exact Hroot|apply below_app]|apply below_app|apply app_longer|by eexists]. }
      apply list_elem_of_fmap. exists (x, e0). split; [done|]. by apply Hnames.
  - done.
Qed.

(** The whole walk: the fuel it is given is enough. *)
Lemma WalkDir_rule acc :
  (forall d, J [] acc d -> f0 !! root = None -> Er [NotExist] d) ->
  triple a I (J [] acc) (WalkDir root acc fn)
    (fun x d => (exists done, (forall q, below root q -> is_Some (f0 !! q) -> q ∈ done) /\ J done x d) \/
                Stop x d) Er.
Proof.
  intros Hmissing s HJ. unfold WalkDir. set (fuel := depth _).
  assert (Hfuel : forall q, below root q -> is_Some (f0 !! q) -> (length q < fuel + length root)%nat).
  { intros q Hb Hq. rewrite <- (J_same _ _ _ _ HJ Hb) in Hq. apply depth_bound in Hq. unfold fuel. lia. }
  clearbody fuel. revert s HJ. change (triple a I (J [] acc)
    (e ← Lstat root; r ← walk fuel fn acc root e; (mret r.1 : D T)) (fun x d =>
      (exists done, (forall q, below root q -> is_Some (f0 !! q) -> q ∈ done) /\ J done x d) \/ Stop x d) Er).
  eapply triple_bind.
  { apply (triple_pure_call _ _ _ _ (fun e d => f0 !! root = Some e /\ J [] acc d)).
    - intros d. apply J_visited.
    - intros n d e. apply J_fault.
    - intros n d HJ. rewrite (J_same _ _ _ _ HJ) by done.
      destruct (f0 !! root) eqn:He; simpl; [done|by apply Hmissing]. }
  intros e. apply (triple_pure _ _ _ (f0 !! root = Some e)); [by intros d [? _]|]. intros He.
  eapply triple_bind.
  { eapply triple_weaken; [apply (walk_rule fuel [] acc root e)|by intros d [_ ?]|..]; try done; [set_solver|by left]. }
  intros [x go]. unfold walked. cbn [fst snd]. apply triple_ret. intros d.
  destruct go; [|by right]. intros (done' & (_ & _ & Hall) & HJ). left. by exists done'.
Qed.
End Walk.
