(* ===== verification/Move.v ===== *)
(** * Moving a payload ([internal/fsx/move.go])

    [Move] renames, and across file systems stages a copy beside the
    destination, verifies it, syncs it, renames it into place and only then
    removes the source. *)

From stdpp Require Import gmap.
From S2P Require Import Prelude GoStrings SafePath SafeJoin Manifest Disk.

Open Scope Z_scope.

(** [moveCopyBuffer] and [progressInterval] (milliseconds). *)
Definition moveCopyBuffer : Z := Z.shiftl 4 20.
Definition progressInterval : Z := 1000.

(** [moveProgress] without its callback. *)
Record moveProgress := MkProgress { total : Z; copied : Z; last : option Z }.

Section Move.
Context {X : Type}.
Abbreviation D := (D X).
(** The [Progress] callback: it only sees the caller's state. *)
Context (fn : option (Z -> Z -> X -> X)).

Definition report (f : Z -> Z -> X -> X) (copied total : Z) : D unit := fun a s =>
  (inr tt, State (tick s) (cur s) (past s) (f copied total (user s))).

(** [moveProgress.add]. *)
Definition add (p : moveProgress) (n : nat) : D moveProgress :=
  let c := wrap64 (copied p + Z.of_nat n) in
  match fn with
  | None => mret (MkProgress (total p) c (last p))
  | Some f =>
    due ← (match last p with
           | None => mret true
           | Some t => now ← clock; mret (progressInterval <=? now - t)
           end);
    if due : bool then
      now ← clock;
      report f c (total p) ;;
      mret (MkProgress (total p) c (Some now))
    else mret (MkProgress (total p) c (last p))
  end.

(** The read-write loop of [copyRegularFile]: the progress and the error it
    broke off with. *)
Fixpoint copy_loop (fuel : nat) (src dst : path) (offset : nat) (p : moveProgress) : D (moveProgress * errs) :=
  match fuel with
  | O => mret (p, [OutOfFuel])
  | S fuel =>
    cancelled ← ctx_over;
    if cancelled : bool then mret (p, [CtxDone])
    else
      chunk ← try_ (Read src offset moveCopyBuffer);
      match chunk with
      | inl e => mret (p, e)
      | inr [] => mret (p, [])
      | inr bytes =>
        w ← Write dst bytes;
        p ← add p w.1;
        if bool_decide (w.2 = []) then copy_loop fuel src dst (offset + length bytes) p
        else mret (p, w.2)
      end
  end.

(** The size a file has when its copy starts. *)
Definition size_of (f : fs) (p : path) : nat :=
  match f !! p with Some (Regular data) => length data | _ => O end.

(** A deferred [Close], its error joined to the result. *)
Definition with_close {A} (p : path) (m : D A) : D A :=
  r ← try_ m;
  c ← try_ (Close p);
  match r, c with
  | inr x, inr _ => mret x
  | inl e, inr _ | inr _, inl e => throw e
  | inl e, inl e' => throw (e ++ e')
  end.

(** [copyRegularFile]: what follows the open of the source. *)
Definition copy_into (src dst : path) (p : moveProgress) : D moveProgress := fun a s =>
  let fuel := S (size_of (files (cur s)) src) in
  (Create dst ;;
   r ← with_close dst (
     r ← copy_loop fuel src dst 0 p;
     if bool_decide (r.2 = []) then Sync dst ;; mret r.1 else throw r.2);
   Chmod dst ;;
   mret r) a s.
Definition copyRegularFile (src dst : path) (p : moveProgress) : D moveProgress :=
  Open src ;; with_close src (copy_into src dst p).

(** [filepath.Rel] below the walked root. *)
Definition rel (root p : path) : path := drop (length root) p.

(** [copyTree]. *)
Definition copy_entry (src staging : path) (p : moveProgress) (q : path) (e : entry) : D (moveProgress * bool) :=
  cancelled ← ctx_over;
  if cancelled : bool then throw [CtxDone]
  else if bool_decide (q = src) then mret (p, true)
  else
    let target := staging ++ rel src q in
    match e with
    | Directory => Mkdir target ;; Chmod target ;; mret (p, true)
    | Regular _ => p ← copyRegularFile q target p; mret (p, true)
    | _ => mret (p, true)
    end.
Definition copyTree (src staging : path) (p : moveProgress) : D moveProgress :=
  Mkdir staging ;;
  Chmod staging ;;
  WalkDir src p (copy_entry src staging).

(** [sumMoveBytes]. *)
Definition entry_size (e : entry) : Z := match e with Regular data => Z.of_nat (length data) | _ => 0 end.
Definition sumMoveBytes (src : path) : D Z :=
  WalkDir src 0 (fun t q e =>
    cancelled ← ctx_over;
    if cancelled : bool then throw [CtxDone]
    else match e with
    | Regular _ => info ← Lstat q; mret (wrap64 (t + entry_size info), true)
    | _ => mret (t, true)
    end).

(** [verifyMovedTree] and [verifyMovedFile]. *)
Definition verify_entry (src staging : path) (_ : unit) (q : path) (e : entry) : D (unit * bool) :=
  if bool_decide (q = src) then mret (tt, true)
  else match e with
  | Regular _ =>
    srcInfo ← Lstat q;
    stagedInfo ← Stat (staging ++ rel src q);
    if entry_size stagedInfo =? entry_size srcInfo then mret (tt, true) else throw [VerifyFailed]
  | _ => mret (tt, true)
  end.
Definition verifyMovedTree (src staging : path) : D unit :=
  WalkDir src tt (verify_entry src staging).
Definition verifyMovedFile (src staged : path) : D unit :=
  srcInfo ← Stat src;
  stagedInfo ← Stat staged;
  if entry_size stagedInfo =? entry_size srcInfo then mret tt else throw [VerifyFailed].

(** [syncDir] and [syncStagedDirs]. *)
Definition syncDir (dir : path) : D unit := Open dir ;; with_close dir (SyncDir dir).
Definition sync_all (dirs : list path) : D unit :=
  fold_right (fun dir rest => syncDir dir ;; rest) (mret tt) dirs.
Definition syncStagedDirs (root : path) : D unit :=
  dirs ← WalkDir root [] (fun dirs q e =>
    mret (match e with Directory => dirs ++ [q] | _ => dirs end, true));
  sync_all (reverse dirs).

(** [mapMoveError]. *)
Definition mapMoveError (e : errs) : errs := if bool_decide (Errno ENOSPC ∈ e) then [Errno ENOSPC] else e.

(** [errors.Join(mapMoveError(err), removeMoveStaging(path))]. *)
Definition discard {A} (p : path) (e : errs) : D A :=
  removed ← try_ (RemoveAll p);
  throw (mapMoveError e ++ match removed with inl e' => e' | inr _ => [] end).
Definition or_discard {A} (p : path) (m : D A) : D A :=
  r ← try_ m;
  match r with inl e => discard p e | inr x => mret x end.

(** [moveAcrossFilesystems]; [ulid] is the fresh suffix of the staging name. *)
Definition staging_prefix : list Z := bytes_of ".dl-tool-move-".
Definition staging_of (dst : path) (ulid : list Z) : path := dir_of dst ++ [staging_prefix ++ ulid].
Definition stage (src staging : path) (isDir : bool) (p : moveProgress) : D unit :=
  _ ← or_discard staging (if isDir then copyTree src staging p else copyRegularFile src staging p);
  or_discard staging (if isDir then verifyMovedTree src staging else verifyMovedFile src staging) ;;
  if isDir then or_discard staging (syncStagedDirs staging) else mret tt.
Definition deliver (src staging dst : path) : D unit :=
  or_discard staging (Rename staging dst) ;;
  or_discard dst (syncDir (dir_of dst)) ;;
  RemoveAll src.
Definition copy_across (ulid : list Z) (src dst : path) (isDir : bool) : D unit :=
  total ← sumMoveBytes src;
  let staging := staging_of dst ulid in
  stage src staging isDir (MkProgress total 0 None) ;;
  deliver src staging dst.
Definition moveAcrossFilesystems (ulid : list Z) (src dst : path) : D unit :=
  srcInfo ← Stat src;
  match srcInfo with
  | Regular _ | Directory =>
    linfo ← try_ (Lstat src);
    if bool_decide (linfo = inr Symlink) then throw [Refused]
    else copy_across ulid src dst (bool_decide (srcInfo = Directory))
  | _ => throw [Refused]
  end.

(** [Move]. *)
Definition Move (ulid : list Z) (src dst : path) : D unit :=
  cancelled ← ctx_over;
  if cancelled : bool then throw [CtxDone]
  else
    r ← try_ (Rename src dst);
    match r with
    | inr _ => mret tt
    | inl e => if bool_decide (Errno EXDEV ∈ e) then moveAcrossFilesystems ulid src dst else throw e
    end.
End Move.
