(* ===== verification/MoveProps.v ===== *)
(** * A move loses nothing ([internal/fsx/move.go])

    At every instant of a move - whatever call fails, wherever the process
    dies - the payload is whole at its source or whole and durable at its
    destination.  The second part is the frame of every file operation. *)

From stdpp Require Import gmap sorting.
From S2P Require Import Prelude GoStrings SafePath SafeJoin Manifest Disk DiskProps Move.



(** ** Renaming *)

Lemma move_path_inj a b p q : ~ below a b -> ~ below b p -> ~ below b q ->
  move_path a b p = move_path a b q -> p = q.
Proof.
  unfold move_path. intros Hab Hp Hq Heq.
  destruct (bool_decide_reflect (below a p)) as [[k ->]|Hap], (bool_decide_reflect (below a q)) as [[k' ->]|Haq];
    rewrite ?drop_app_length in Heq; simplify_list_eq; try done.
  - destruct Hq. apply below_app.
  - destruct Hp. apply below_app.
Qed.

Lemma lookup_move a b f p : ~ below a b -> ~ below b a ->
  move_files a b f !! p =
    if bool_decide (below b p) then f !! (a ++ drop (length b) p)
    else if bool_decide (below a p) then None else f !! p.
Proof.
  intros Hab Hba. unfold move_files. set (kept := filter _ f). set (l := _ <$> map_to_list kept).
  assert (Hkept : forall q e, kept !! q = Some e <-> f !! q = Some e /\ ~ below b q).
  { intros q e. unfold kept. by rewrite map_lookup_filter_Some. }
  assert (Hl : forall q e, (q, e) ∈ l <-> exists q0, q = move_path a b q0 /\ f !! q0 = Some e /\ ~ below b q0).
  { intros q e. unfold l. rewrite list_elem_of_fmap. split.
    - intros ([q0 e0] & [= -> ->] & Hin%elem_of_map_to_list). exists q0. split; [done|]. by apply Hkept.
    - intros (q0 & -> & Hq). exists (q0, e). split; [done|]. by apply elem_of_map_to_list, Hkept. }
  assert (Hnd : NoDup l.*1).
  { unfold l. rewrite <- list_fmap_compose. apply NoDup_fmap_2_strong; [|apply NoDup_map_to_list].
    intros [q e] [q' e'] Hq%elem_of_map_to_list Hq'%elem_of_map_to_list Heq. simpl in Heq.
    apply Hkept in Hq as [Hq Hb], Hq' as [Hq' Hb']. apply move_path_inj in Heq; [|done..]. subst. by simplify_eq. }
  assert (Hsome : forall q e, list_to_map (M := fs) l !! q = Some e <-> (q, e) ∈ l).
  { intros q e. symmetry. by apply elem_of_list_to_map. }
  apply option_eq. intros e. rewrite Hsome, Hl. unfold move_path.
  destruct (bool_decide_reflect (below b p)) as [[r ->]|Hbp].
  - rewrite drop_app_length. split.
    + intros (q0 & Heq & Hf & Hb). destruct (bool_decide_reflect (below a q0)) as [[k Hk]|]; [subst q0|].
      * rewrite drop_app_length in Heq. by simplify_list_eq.
      * subst q0. destruct Hb. apply below_app.
    + intros Hf. exists (a ++ r). rewrite bool_decide_eq_true_2 by apply below_app. rewrite drop_app_length.
      split_and!; [done|done|]. intros Hb. destruct (below_total a b (a ++ r) (below_app _ _) Hb); done.
  - destruct (bool_decide_reflect (below a p)) as [Hap|Hap].
    + split; [|done]. intros (q0 & -> & Hf & Hb). destruct (bool_decide_reflect (below a q0)) as [[k Hk]|]; [subst q0|]; [|done].
      destruct Hbp. rewrite drop_app_length. apply below_app.
    + split.
      * intros (q0 & -> & Hf & Hb). destruct (bool_decide_reflect (below a q0)) as [[k Hk]|]; [subst q0|]; [|done].
        destruct Hbp. rewrite drop_app_length. apply below_app.
      * intros Hf. exists p. by rewrite bool_decide_eq_false_2.
Qed.

Lemma moved_mark a b g r : ~ below a b -> b ++ r ∈ move_marks a b g -> a ++ r ∈ g.
Proof.
  unfold move_marks. intros Hab (q & Heq & [Hb Hq]%elem_of_filter)%elem_of_map. unfold move_path in Heq.
  destruct (bool_decide_reflect (below a q)) as [[k Hk]|Ha]; [subst q|].
  - rewrite drop_app_length in Heq. by simplify_list_eq.
  - subst q. destruct Hb. apply below_app.
Qed.

(** ** The staged copy *)

(** An environment that refuses nothing. *)
Definition healthy (a : answers) : Prop := a_cancel a = None /\ forall n, a_fault a n = None.

(** What a copy takes along: links and special files are left behind. *)
Definition kept (e : option entry) : option entry :=
  match e with Some (Regular _) | Some Directory => e | _ => None end.

(** A deferred close adds its own failure to the outcome. *)
Lemma close_rule {X A} a (I P : disk -> Prop) p (m : D X A) (Q : A -> disk -> Prop) (Er : errs -> disk -> Prop) :
  triple a I P m Q Er -> (forall x d, Q x d -> I d) -> (forall e d, Er e d -> I d) ->
  (forall x d n e, Q x d -> a_fault a n = Some e -> Er [Errno e] d) ->
  (forall e e' d, Er e d -> Er (e ++ e') d) -> triple a I P (with_close p m) Q Er.
Proof.
  intros Hm HQ HE HF HJ. unfold with_close.
  eapply triple_bind; [eapply (triple_try _ _ _ _ _ _ Er), Hm|]. intros r. cbn beta.
  eapply triple_bind.
  { eapply (triple_try _ _ _ _ (fun _ d => match r with inr x => Q x d | inl e => Er e d end)
      (fun e' d => match r with inr x => Er e' d | inl e => Er e d end)).
    apply triple_pure_call; [|intros n d e; destruct r; [done|apply HF]|done].
    intros d. destruct r; [apply HE|apply HQ]. }
  intros [e'|[]]; destruct r as [e|x].
  - apply triple_throw. intros d. apply HJ.
  - by apply triple_throw.
  - by apply triple_throw.
  - by apply triple_ret.
Qed.

(** Discarding a path keeps what removing parts of it keeps. *)
Lemma RemoveAll_rule {X} a (I P : disk -> Prop) p (Er : errs -> disk -> Prop) (Q : unit -> disk -> Prop) :
  (forall d, P d -> I d) -> (forall keep d, P d -> P (without keep p d)) ->
  (forall n e d, P d -> a_fault a n = Some e -> Er [Errno e] d) ->
  (forall d, P d -> Q tt (without (fun _ => false) p d) /\ I (without (fun _ => false) p d)) ->
  triple a I P (RemoveAll (X := X) p) Q Er.
Proof.
  intros HI HP HF HQ. unfold RemoveAll.
  eapply triple_bind with (R := fun r d => match r with inr _ => P d | inl e => Er e d end).
  - eapply triple_weaken; [eapply (triple_try _ _ P _ (fun _ d => P d) Er Er)|done|by intros [?|?]|done].
    apply triple_call. intros n d Hd. destruct (a_fault a n) as [e|] eqn:He; simpl.
    + split; [by apply HI, HP|]. eapply HF; [by apply HP|done].
    + split; [by apply HI, HP|by apply HP].
  - intros [e|?]; [by apply triple_throw|]. apply triple_call. intros n d Hd. simpl. split; by apply HQ.
Qed.

Lemma discard_keeps {X A} a (I P : disk -> Prop) p e (Q : A -> disk -> Prop) :
  (forall d, P d -> I d) -> (forall keep d, P d -> P (without keep p d)) ->
  triple a I P (discard (X := X) p e) Q (fun _ d => P d).
Proof.
  intros HI HP. unfold discard. eapply triple_bind with (R := fun _ d => P d).
  - eapply triple_weaken; [eapply (triple_try _ _ P _ (fun _ d => P d) (fun _ d => P d) (fun _ d => P d))|done|intros [?|?] d Hd; exact Hd|done].
    apply RemoveAll_rule; [done|done|done|]. intros d Hd. split; [by apply HP|by apply HI, HP].
  - intros r. by apply triple_throw.
Qed.

Section Moving.
Context {X : Type} (a : answers) (fn : option (Z -> Z -> X -> X)).
Context (f0 : fs) (src dst : path) (ulid : list Z).
Abbreviation staging := (staging_of dst ulid).
Hypothesis Hclosed : closed f0.
Hypothesis Hsrc : is_Some (f0 !! src).
Hypothesis Hfresh : f0 !! staging = None.
Hypothesis Happart : ~ below src dst.

(** Nothing outside the staging tree has changed. *)
Definition aside (d : disk) : Prop := forall p, ~ below staging p -> files d !! p = f0 !! p.

(** The conditions under which the copy cannot fail. *)
Definition clear_path : Prop := healthy a /\ f0 !! dir_of dst = Some Directory.
Definition failed (e : errs) (d : disk) : Prop := aside d /\ ~ clear_path.

Lemma fault_failed d n e : aside d -> a_fault a n = Some e -> failed [Errno e] d.
Proof. intros Hd Hn. split; [done|]. intros [[_ Hh] _]. by rewrite Hh in Hn. Qed.

Lemma staging_not_in_src : ~ below src staging.
Proof.
  intros Hb. unfold staging_of in Hb. destruct Hb as [k Hk]. destruct k as [|x k _] using rev_ind.
  - rewrite app_nil_r in Hk. destruct Hsrc as [e He]. rewrite <- Hk in He. unfold staging_of in Hfresh. congruence.
  - rewrite app_assoc in Hk. apply app_inj_tail in Hk as [Hk _]. apply Happart. exists (k ++ drop (length dst - 1) dst).
    rewrite app_assoc, <- Hk. unfold dir_of. by rewrite take_drop.
Qed.

Lemma src_not_staged r : ~ below staging (src ++ r).
Proof.
  intros Hb. destruct (below_total staging src _ Hb (below_app _ _)) as [Hs|Hs].
  - destruct Hsrc as [e He]. by rewrite (closed_absent f0 staging src Hclosed Hs Hfresh) in He.
  - by apply staging_not_in_src.
Qed.

Lemma aside_src d r : aside d -> files d !! (src ++ r) = f0 !! (src ++ r).
Proof. intros Hd. apply Hd, src_not_staged. Qed.

Lemma unstaged d r : aside d -> src ++ r <> staging ++ r.
Proof. intros _ Heq. apply (src_not_staged r). rewrite Heq. apply below_app. Qed.

(** The name [src ++ r] has its copy, bytes and all. *)
Definition staged (r : path) (d : disk) : Prop :=
  files d !! (staging ++ r) = kept (f0 !! (src ++ r)) /\
  forall c, f0 !! (src ++ r) = Some (Regular c) -> staging ++ r ∉ wet_data d.

(** The copy of the visited names is there and nothing else is. *)
Definition mirrored (done : list path) (d : disk) : Prop :=
  aside d /\ forall r, if decide (r = [] \/ src ++ r ∈ done) then staged r d
                       else files d !! (staging ++ r) = None.
(** The same for every name but [r0]. *)
Definition mirrored_but (r0 : path) (done : list path) (d : disk) : Prop :=
  aside d /\ forall r, r <> r0 -> if decide (r = [] \/ src ++ r ∈ done) then staged r d
                                  else files d !! (staging ++ r) = None.

Lemma with_close_rule {A} (P : disk -> Prop) p (m : D X A) (Q : A -> disk -> Prop) :
  triple a aside P m Q failed -> (forall x d, Q x d -> aside d) ->
  triple a aside P (with_close p m) Q failed.
Proof.
  intros Hm HQ. apply close_rule; [done|done|by intros e d []|..].
  - intros x d n e Hx. by apply fault_failed, (HQ x).
  - by intros e e' d [].
Qed.

(** *** One file *)
Section File.
Variable K : disk -> Prop.
Variable r : path.
Variable c : list Z.
Abbreviation target := (staging ++ r).
Hypothesis Hc : f0 !! (src ++ r) = Some (Regular c).
Hypothesis K_aside : forall d, K d -> aside d.
(** [K] does not look at the file. *)
Hypothesis K_stable : forall d d', K d -> (forall p, p <> target -> files d' !! p = files d !! p) ->
  (forall p, p <> target -> p ∈ wet_data d' -> p ∈ wet_data d) -> K d'.

Lemma aside_but d d' : aside d -> (forall p, p <> target -> files d' !! p = files d !! p) -> aside d'.
Proof. intros Hd Hp p Hb. rewrite Hp; [by apply Hd|]. intros ->. by destruct Hb; apply below_app. Qed.

Definition written (o : nat) (d : disk) : Prop := K d /\ files d !! target = Some (Regular (take o c)).

Lemma add_rule (P : disk -> Prop) p n Er : (forall d, P d -> aside d) ->
  triple a aside P (add fn p n) (fun _ d => P d) Er.
Proof.
  intros HP. unfold add. destruct fn as [f|]; [|by apply triple_ret].
  eapply triple_bind with (R := fun _ d => P d).
  { destruct (last p); [|by apply triple_ret]. eapply triple_bind with (R := fun _ d => P d).
    - apply triple_call. intros m d Hd. split; [by apply HP|done].
    - intros now. by apply triple_ret. }
  intros due. destruct due; [|by apply triple_ret]. eapply triple_bind with (R := fun _ d => P d).
  - apply triple_call. intros m d Hd. split; [by apply HP|done].
  - intros now. eapply triple_bind with (R := fun _ d => P d); [|intros; by apply triple_ret].
    intros s Hs. exists []. split_and!; [done|by constructor|done].
Qed.

Lemma append_written d o bytes : written o d -> bytes = take (length bytes) (drop o c) ->
  written (o + length bytes) (append target bytes d).
Proof.
  intros [HK Hf] Hb. unfold written, append. rewrite Hf. simpl. split.
  - eapply K_stable; [done|..]; simpl.
    + intros p Hp. by rewrite lookup_insert_ne.
    + set_solver.
  - rewrite lookup_insert_eq. do 2 f_equal. rewrite Hb at 1. by rewrite take_take_drop.
Qed.

Definition copy_post (r : moveProgress * errs) (d : disk) : Prop :=
  K d /\ if decide (r.2 = []) then files d !! target = Some (Regular c) else ~ clear_path.

Lemma read_prefix k o : take k (drop o c) = take (length (take k (drop o c))) (drop o c).
Proof. rewrite length_take. destruct (decide (k <= length (drop o c))%nat); [by rewrite Nat.min_l|].
  rewrite Nat.min_r by lia. rewrite (take_ge _ k), firstn_all by lia. done. Qed.

Lemma append_kept d o bytes : written o d -> K (append target bytes d).
Proof.
  intros [HK Hf]. unfold append. rewrite Hf. eapply K_stable; [done|..]; simpl.
  - intros p Hp. by rewrite lookup_insert_ne.
  - set_solver.
Qed.

Lemma copy_loop_rule fuel o p : (o <= length c)%nat -> (length c - o < fuel)%nat ->
  triple a aside (written o) (copy_loop fn fuel (src ++ r) target o p) copy_post (fun _ _ => False).
Proof.
  revert o p. induction fuel as [|fuel IH]; intros o p Ho Hfuel; [lia|]. cbn [copy_loop].
  assert (Hfail : forall e, e <> [] -> forall d, written o d -> ~ clear_path -> copy_post (p, e) d).
  { intros e He d [HK _] Hn. split; [done|]. simpl. by rewrite decide_False. }
  eapply triple_bind with (R := fun b d => written o d /\ (b = true -> ~ clear_path)).
  { apply triple_ctx; [done|]. intros d Hd Hc'. split; [done|]. intros _ [[Hh _] _]. by rewrite Hh in Hc'. }
  intros []. { apply triple_ret. intros d [Hd Hn]. apply Hfail; auto. }
  eapply triple_bind.
  { eapply (triple_try _ _ _ _ (fun bytes d => written o d /\ exists k, (0 < k)%nat /\ bytes = take k (drop o c))
              (fun e d => e <> [] /\ written o d /\ ~ clear_path)).
    apply triple_pure_call.
    - intros d [[HK _] _]. by apply K_aside.
    - intros n d e [Hd _] Hn. split_and!; [done|done|]. eapply fault_failed; [|done]. by apply K_aside, Hd.
    - intros n d [[HK Hf] _]. rewrite aside_src, Hc by by apply K_aside. split; [done|].
      eexists; split; [|done]. assert (0 < moveCopyBuffer)%Z by done. lia. }
  intros [e|bytes].
  { apply triple_ret. intros d (He & Hd & Hn). by apply Hfail. }
  destruct bytes as [|b0 bytes'].
  { apply triple_ret. intros d [[HK Hf] (k & Hk & Hnil)]. split; [done|]. rewrite decide_True by done.
    rewrite Hf. do 2 f_equal. apply take_ge. symmetry in Hnil.
    apply (f_equal length) in Hnil. rewrite length_take, length_drop in Hnil. simpl in Hnil. lia. }
  set (bytes := b0 :: bytes'). eapply triple_bind with (R := fun w d =>
    w.1 = length bytes /\ w.2 = [] /\ written (o + length bytes) d /\ (o + length bytes <= length c)%nat \/
    w.2 <> [] /\ K d /\ ~ clear_path).
  { apply triple_call. intros n d [Hd (k & _ & Hb)]. destruct (a_fault a n) as [e|] eqn:He; simpl.
    - split; [by eapply K_aside, append_kept|]. right. split_and!; [done|by eapply append_kept|].
      intros [[_ Hh] _]. by rewrite Hh in He.
    - split; [by eapply K_aside, append_kept|]. left. split_and!; [done|done|..].
      + apply append_written; [done|]. unfold bytes in *. rewrite Hb. apply read_prefix.
      + apply (f_equal length) in Hb. rewrite length_take, length_drop in Hb. subst bytes. simpl in Hb. lia. }
  intros w. eapply triple_bind.
  { apply (add_rule (fun d => w.1 = length bytes /\ w.2 = [] /\ written (o + length bytes) d /\
      (o + length bytes <= length c)%nat \/ w.2 <> [] /\ K d /\ ~ clear_path)).
    intros d [(_ & _ & [HK _] & _)|(_ & HK & _)]; by apply K_aside. }
  intros p'. cbn beta. destruct (bool_decide_reflect (w.2 = [])) as [Hw|Hw].
  - apply (triple_pure _ _ _ (o + length bytes <= length c)%nat). { intros d [(_ & _ & _ & ?)|(? & _)]; done. }
    intros Hle. eapply triple_weaken; [apply (IH (o + length bytes)%nat p'); [done|]|..]; try done.
    + unfold bytes in *. simpl in *. lia.
    + intros d [(_ & _ & Hd & _)|(? & _)]; done.
  - apply triple_ret. intros d [(_ & ? & _)|(_ & HK & Hn)]; [done|]. split; [done|]. by rewrite decide_False.
Qed.
Hypothesis K_parent : forall d, K d -> clear_path -> files d !! dir_of target = Some Directory.

Definition copied (d : disk) : Prop :=
  K d /\ files d !! target = Some (Regular c) /\ target ∉ wet_data d.

Lemma copy_into_rule p :
  triple a aside (fun d => K d /\ files d !! target = None) (copy_into fn (src ++ r) target p)
    (fun _ d => copied d) failed.
Proof.
  intros s [HK Hnone]. unfold copy_into. unfold size_of. rewrite aside_src, Hc by by apply K_aside.
  assert (H0 : K (cur s) /\ files (cur s) !! target = None) by done. clear HK Hnone. revert s H0.
  change (triple a aside (fun d => K d /\ files d !! target = None)
    (Create target ;;
     r' ← with_close target (
       r' ← copy_loop fn (S (length c)) (src ++ r) target 0 p;
       if bool_decide (r'.2 = []) then Sync target ;; mret r'.1 else throw r'.2);
     Chmod target ;; mret r') (fun _ d => copied d) failed).
  eapply triple_bind with (R := fun _ d => written 0 d).
  { apply triple_guarded.
    - intros n d e [HK _] Hn. split; [by apply K_aside|]. eapply fault_failed; [by apply K_aside|done].
    - intros n d [HK Hnone]. rewrite bool_decide_eq_false_2 by (rewrite Hnone; by intros [? ?]).
      destruct (bool_decide_reflect (files d !! dir_of target = Some Directory)) as [Hdir|Hdir]; simpl.
      + assert (Hw : written 0 (MkDisk (<[target := Regular []]> (files d)) ({[target]} ∪ wet_data d)
                                 ({[target]} ∪ wet_name d))).
        { split; [|by simpl; rewrite lookup_insert_eq]. eapply K_stable; [done|..]; simpl.
          - intros q Hq. by rewrite lookup_insert_ne.
          - set_solver. }
        split; [|done]. by apply K_aside, Hw.
      + split; [by apply K_aside|]. split; [by apply K_aside|]. intros Hcl. by apply Hdir, K_parent. }
  intros _. eapply triple_bind.
  { apply (with_close_rule _ _ _ (fun _ d => copied d)); [|by intros _ d [HK _]; apply K_aside].
    eapply triple_bind.
    { eapply triple_weaken; [apply (copy_loop_rule (S (length c)) 0 p); lia|done|done|done]. }
    intros [p' e]. unfold copy_post. cbn [fst snd].
    destruct (bool_decide_reflect (e = [])) as [->|He].
    2: { apply triple_throw. intros d [HK Hn]. rewrite decide_False in Hn by done. split; [by apply K_aside|done]. }
    eapply triple_bind with (R := fun _ d => copied d); [|intros; by apply triple_ret].
    apply triple_guarded.
    - intros n d e [HK _] Hn. split; [by apply K_aside|]. eapply fault_failed; [by apply K_aside|done].
    - intros n d [HK Hf]. simpl.
      assert (Hk : K (MkDisk (files d) (wet_data d ∖ {[target]}) (wet_name d))).
      { eapply K_stable; [done|done|]. simpl. set_solver. }
      split; [by apply K_aside|]. split_and!; [done|done|]. simpl. set_solver. }
  intros p'. eapply triple_bind with (R := fun _ d => copied d); [|intros; by apply triple_ret].
  apply triple_pure_call.
  - intros d [HK _]. by apply K_aside.
  - intros n d e [HK _] Hn. eapply fault_failed; [by apply K_aside|done].
  - intros n d Hd. pose proof Hd as (_ & -> & _). done.
Qed.

Lemma copyRegularFile_rule p :
  triple a aside (fun d => K d /\ files d !! target = None) (copyRegularFile fn (src ++ r) target p)
    (fun _ d => copied d) failed.
Proof.
  unfold copyRegularFile. eapply triple_bind with (R := fun _ d => K d /\ files d !! target = None).
  - apply triple_pure_call.
    + intros d [HK _]. by apply K_aside.
    + intros n d e [HK _] Hn. eapply fault_failed; [by apply K_aside|done].
    + intros n d [HK Hn]. rewrite aside_src, Hc by by apply K_aside. done.
  - intros _. apply with_close_rule; [apply copy_into_rule|]. intros _ d [HK _]. by apply K_aside.
Qed.
End File.

(** *** A tree *)

Definition all_staged (d : disk) : Prop := aside d /\ forall r, staged r d.
Definition unstarted (d : disk) : Prop := aside d /\ forall r, files d !! (staging ++ r) = None.

Lemma but_stable r0 done d d' : mirrored_but r0 done d ->
  (forall p, p <> staging ++ r0 -> files d' !! p = files d !! p) ->
  (forall p, p <> staging ++ r0 -> p ∈ wet_data d' -> p ∈ wet_data d) -> mirrored_but r0 done d'.
Proof.
  intros [Ha Hm] Hf Hw. split; [by eapply aside_but|]. intros r Hr. specialize (Hm r Hr).
  assert (staging ++ r <> staging ++ r0) by (by intros ?%app_inv_head).
  destruct (decide _); [|by rewrite Hf]. destruct Hm as [Hs Hd]. split; [by rewrite Hf|].
  intros c Hc Hin. apply (Hd c Hc). by apply Hw.
Qed.

Lemma but_open r done d : mirrored done d -> r <> [] -> src ++ r ∉ done ->
  mirrored_but r done d /\ files d !! (staging ++ r) = None.
Proof.
  intros [Ha Hm] Hr Hnew. split; [by split; [|intros; apply Hm]|]. specialize (Hm r).
  by rewrite decide_False in Hm by (by intros [|]).
Qed.

Lemma but_close r done d : mirrored_but r done d -> staged r d -> mirrored ((src ++ r) :: done) d.
Proof.
  intros [Ha Hm] Hs. split; [done|]. intros r'. destruct (decide (r' = r)) as [->|Hne].
  { rewrite decide_True; [done|]. right. by left. }
  specialize (Hm r' Hne). destruct (decide (r' = [] \/ src ++ r' ∈ done)) as [Hd|Hd].
  - rewrite decide_True; [done|]. destruct Hd; [by left|right; by right].
  - rewrite decide_False; [done|]. intros [->|Hin]; [by apply Hd; left|].
    apply elem_of_cons in Hin as [Heq|Hin]; [by apply app_inv_head in Heq|apply Hd; by right].
Qed.

Lemma parent_staged r done d e : r <> [] -> f0 !! (src ++ r) = Some e ->
  src ++ r = src \/ dir_of (src ++ r) ∈ done -> mirrored_but r done d ->
  files d !! dir_of (staging ++ r) = Some Directory.
Proof.
  intros Hr He Hparent [_ Hm]. rewrite dir_of_app in * by done.
  destruct (exists_last Hr) as (r1 & x & ->). rewrite dir_of_snoc in *.
  assert (Hd : f0 !! (src ++ r1) = Some Directory).
  { destruct Hclosed as [_ Hcl]. apply (Hcl _ x). rewrite <- app_assoc, He. by eexists. }
  specialize (Hm r1 ltac:(by intros ?%app_longer)). rewrite decide_True in Hm.
  - destruct Hm as [-> _]. by rewrite Hd.
  - destruct Hparent as [Heq|Hin]; [|by right]. exfalso.
    rewrite <- (app_nil_r src) in Heq at 2. by apply app_inv_head in Heq.
Qed.

Lemma copy_entry_rule done acc q e :
  below src q -> f0 !! q = Some e -> q ∉ done -> q = src \/ dir_of q ∈ done ->
  triple a aside (mirrored done) (copy_entry fn src staging acc q e)
    (fun r d => if r.2 : bool then mirrored (q :: done) d else False) failed.
Proof.
  intros [r ->] He Hnew Hparent. unfold copy_entry.
  eapply triple_bind with (R := fun b d => mirrored done d /\ (b = true -> ~ clear_path)).
  { apply triple_ctx; [done|]. intros d Hd Hc. split; [done|]. intros _ [[Hh _] _]. by rewrite Hh in Hc. }
  intros []; [apply triple_throw; intros d [[Ha _] Hn]; split; [done|by apply Hn]|].
  destruct (bool_decide_reflect (src ++ r = src)) as [Heq|Hne].
  { apply triple_ret. intros d [[Ha Hm] _]. simpl. split; [done|]. intros r'. specialize (Hm r').
    assert (r = []) as ->. { rewrite <- (app_nil_r src) in Heq at 2. by apply app_inv_head in Heq. }
    destruct (decide (r' = [] \/ src ++ r' ∈ done)) as [Hd|Hd].
    - rewrite decide_True; [done|]. destruct Hd; [by left|right; by right].
    - rewrite decide_False; [done|]. intros [->|Hin]; [by apply Hd; left|].
      apply elem_of_cons in Hin as [Heq'|Hin]; [|apply Hd; by right].
      apply app_inv_head in Heq'. subst. apply Hd. by left. }
  assert (Hr : r <> []) by (intros ->; by rewrite app_nil_r in Hne).
  unfold rel. rewrite drop_app_length.
  assert (Hpre : forall d, mirrored done d /\ (false = true -> ~ clear_path) ->
            mirrored_but r done d /\ files d !! (staging ++ r) = None).
  { intros d [Hm _]. by apply but_open. }
  assert (Hskip : kept (f0 !! (src ++ r)) = None -> triple a aside
            (fun d => mirrored done d /\ (false = true -> ~ clear_path)) (mret (acc, true) : D X _)
            (fun r0 d => if r0.2 : bool then mirrored ((src ++ r) :: done) d else False) failed).
  { intros Hk. apply triple_ret. intros d Hd. apply Hpre in Hd as [Hb Hn]. simpl. apply but_close; [done|].
    split; [by rewrite Hk|]. intros c Hc. by rewrite Hc in Hk. }
  destruct e as [c| | |]; [| |by apply Hskip; rewrite He..].
  - eapply triple_bind with (R := fun _ d => mirrored ((src ++ r) :: done) d); [|intros; by apply triple_ret].
    eapply triple_weaken; [apply (copyRegularFile_rule (mirrored_but r done) r c He)|exact Hpre|..].
    + by intros d [Ha _].
    + apply but_stable.
    + intros d Hd _. by eapply parent_staged.
    + intros p' d (Hb & Hf & Hw). cbn. apply but_close; [done|]. split; [by rewrite He|done].
    + done.
  - eapply triple_bind with (R := fun _ d => mirrored ((src ++ r) :: done) d).
    { eapply triple_weaken; [|exact Hpre|intros ? ? H; exact H|intros ? ? H; exact H].
      apply triple_guarded.
      - intros n d e0 [[Ha _] _] Hn. split; [done|]. by eapply fault_failed.
      - intros n d [Hb Hnone]. rewrite bool_decide_eq_false_2 by (rewrite Hnone; by intros [? ?]).
        rewrite bool_decide_eq_true_2 by by eapply parent_staged. simpl.
        assert (Hm : mirrored ((src ++ r) :: done) (MkDisk (<[staging ++ r := Directory]> (files d)) (wet_data d)
                       ({[staging ++ r]} ∪ wet_name d))); [|by split; [apply Hm|]].
        apply but_close.
        + eapply but_stable; [done|..]; simpl; [|done]. intros p Hp. by rewrite lookup_insert_ne.
        + split; [simpl; by rewrite lookup_insert_eq, He|]. intros c Hc. congruence. }
    intros _. eapply triple_bind with (R := fun _ d => mirrored ((src ++ r) :: done) d); [|intros; by apply triple_ret].
    apply triple_pure_call.
    + by intros d [Ha _].
    + intros n d e0 [Ha _]. by apply fault_failed.
    + intros n d Hm. pose proof Hm as [_ Hs]. specialize (Hs r). rewrite decide_True in Hs by (right; by left).
      destruct Hs as [-> _]. by rewrite He.
Qed.

(** *** The walks over the source *)

Lemma src_closed p q : below src p -> below p q -> p <> q -> is_Some (f0 !! q) -> f0 !! p = Some Directory.
Proof. intros _. by apply closed_parent. Qed.

(** A walk over the source that keeps a disk condition. *)
Lemma src_walk {T} (P : disk -> Prop) (acc : T) (visit : T -> path -> entry -> D X (T * bool)) :
  (forall d, P d -> aside d) ->
  (forall acc q e, below src q -> f0 !! q = Some e ->
     triple a aside P (visit acc q e) (fun r d => P d /\ r.2 = true) failed) ->
  triple a aside P (WalkDir src acc visit) (fun _ d => P d) failed.
Proof.
  intros HP Hvisit. eapply triple_weaken; [eapply (WalkDir_rule a aside f0 src (fun _ _ d => P d)
    (fun _ _ => False) failed)|..]; try done.
  - exact src_closed.
  - intros _ _ d q Hd Hb. destruct Hb as [r ->]. by apply aside_src, HP.
  - intros _ _ d n e Hd. by apply fault_failed, HP.
  - intros done_ acc' q e Hq He _ _. eapply triple_weaken; [by apply Hvisit|done|..|done].
    intros [x go] d [Hd Hgo]. simpl in *. by subst go.
  - intros d Hd Hnone. destruct Hsrc. congruence.
  - intros x d [(? & _ & Hd)|[]]. done.
Qed.

Lemma sum_rule (P : disk -> Prop) : (forall d, P d -> aside d) ->
  triple a aside P (sumMoveBytes (X := X) src) (fun _ d => P d) failed.
Proof.
  intros HP. apply src_walk; [done|]. intros t q e [r ->] He.
  eapply triple_bind with (R := fun b d => P d /\ (b = true -> ~ clear_path)).
  { apply triple_ctx; [done|]. intros d Hd Hc. split; [done|]. intros _ [[Hh _] _]. by rewrite Hh in Hc. }
  intros []; [apply triple_throw; intros d [Hd Hn]; split; [by apply HP|by apply Hn]|].
  destruct e; try (by apply triple_ret; intros d [? _]).
  eapply triple_bind with (R := fun _ d => P d); [|intros; by apply triple_ret].
  apply triple_pure_call.
  - intros d [? _]. by apply HP.
  - intros n d e [Hd _]. by apply fault_failed, HP.
  - intros n d [Hd _]. rewrite aside_src, He by by apply HP. done.
Qed.

Lemma copyTree_rule p : f0 !! src = Some Directory ->
  triple a aside unstarted (copyTree fn src staging p) (fun _ d => all_staged d) failed.
Proof.
  intros Hdir. unfold copyTree. eapply triple_bind with (R := fun _ d => mirrored [] d).
  { apply triple_guarded.
    - intros n d e [Ha _] Hn. split; [done|]. by eapply fault_failed.
    - intros n d [Ha Hn]. rewrite <- (app_nil_r staging), Hn. rewrite bool_decide_eq_false_2 by by intros [? ?].
      rewrite app_nil_r. destruct (bool_decide_reflect (files d !! dir_of staging = Some Directory)) as [Hp|Hp]; simpl.
      + split; [|split].
        * intros q Hq. simpl. rewrite lookup_insert_ne; [by apply Ha|]. intros <-. by apply Hq.
        * intros q Hq. simpl. rewrite lookup_insert_ne; [by apply Ha|]. intros <-. by apply Hq.
        * intros r. destruct (decide _) as [[->|Hin]|Hr]; [|by apply elem_of_nil in Hin|].
          -- split; [simpl; by rewrite !app_nil_r, lookup_insert_eq, Hdir|]. intros c. rewrite app_nil_r. congruence.
          -- simpl. rewrite lookup_insert_ne; [by apply Hn|]. intros Heq.
             rewrite <- (app_nil_r staging) in Heq at 1. apply app_inv_head in Heq. subst. apply Hr. by left.
      + split; [done|]. split; [done|]. intros [_ Hcl]. apply Hp. unfold staging_of. rewrite dir_of_snoc, Ha; [done|].
        unfold staging_of. intros [k Hk]. rewrite <- app_assoc in Hk. by apply app_longer in Hk. }
  intros _. eapply triple_bind with (R := fun _ d => mirrored [] d).
  { apply triple_pure_call.
    - by intros d [Ha _].
    - intros n d e [Ha _]. by apply fault_failed.
    - intros n d Hm. pose proof Hm as [_ Hs]. specialize (Hs []). rewrite decide_True in Hs by by left.
      destruct Hs as [Hs _]. rewrite !app_nil_r, Hdir in Hs. by rewrite Hs. }
  intros _. eapply triple_weaken; [eapply (WalkDir_rule a aside f0 src (fun done _ d => mirrored done d)
    (fun _ _ => False) failed)|..]; try done.
  - exact src_closed.
  - by intros _ _ d [Ha _].
  - intros ? ? d q [Ha _] [r ->]. by apply aside_src.
  - intros ? ? d n e [Ha _]. by apply fault_failed.
  - intros done_ acc q e Hq He Hn Hp. by apply copy_entry_rule.
  - intros d _ Hnone. congruence.
  - intros x d [(done_ & Hall & [Ha Hm])|[]]. split; [done|]. intros r. specialize (Hm r).
    destruct (decide _) as [_|Hr] in Hm; [done|].
    assert (Hnone : f0 !! (src ++ r) = None).
    { destruct (f0 !! (src ++ r)) eqn:He; [|done]. exfalso. apply Hr. right. apply Hall; [apply below_app|]. by eexists. }
    split; [by rewrite Hm, Hnone|]. intros c. congruence.
Qed.

Lemma copyFile_rule p c : f0 !! src = Some (Regular c) ->
  triple a aside unstarted (copyRegularFile fn src staging p) (fun _ d => all_staged d) failed.
Proof.
  intros Hfile.
  assert (Hbelow : forall r, r <> [] -> f0 !! (src ++ r) = None).
  { intros [|x r] Hr; [done|]. destruct (f0 !! (src ++ x :: r)) eqn:He; [|done].
    assert (Hd : f0 !! src = Some Directory); [|congruence].
    eapply (closed_parent f0 src (src ++ x :: r)); [done|apply below_app|apply app_longer|]. rewrite He. by eexists. }
  pose proof (copyRegularFile_rule (fun d => aside d /\ forall r, r <> [] -> files d !! (staging ++ r) = None)
    [] c) as Hcopy. rewrite !app_nil_r in Hcopy.
  eapply triple_weaken; [apply Hcopy|..]; try done.
  - by intros d [Ha _].
  - intros d d' [Ha Hn] Hf Hw. split; [eapply (aside_but []); [done|]; by rewrite app_nil_r|].
    intros r Hr. rewrite Hf; [by apply Hn|]. intros Heq.
    rewrite <- (app_nil_r staging) in Heq at 2. by apply app_inv_head in Heq.
  - intros d [Ha _] [_ Hcl]. unfold staging_of. rewrite dir_of_snoc, Ha; [done|].
    unfold staging_of. intros [k Hk]. rewrite <- app_assoc in Hk. by apply app_longer in Hk.
  - intros d [Ha Hn]. split; [by split|]. specialize (Hn []). by rewrite app_nil_r in Hn.
  - intros _ d ([Ha Hn] & Hf & Hw). split; [done|]. intros r. destruct (decide (r = [])) as [->|Hr].
    + split; [by rewrite Hf, app_nil_r, Hfile|done].
    + split; [by rewrite Hn, Hbelow|]. intros c'. by rewrite Hbelow.
Qed.

(** *** Verification *)

Lemma all_aside d : all_staged d -> aside d.
Proof. by intros [? _]. Qed.

Lemma stat_staged r c : f0 !! (src ++ r) = Some (Regular c) ->
  triple a aside all_staged (Stat (X := X) (staging ++ r)) (fun e d => all_staged d /\ e = Regular c) failed.
Proof.
  intros Hc. apply triple_pure_call.
  - exact all_aside.
  - intros n d e Hd. by apply fault_failed, all_aside.
  - intros n d Hd. pose proof Hd as [_ Hs]. destruct (Hs r) as [-> _]. by rewrite Hc.
Qed.

Lemma lstat_src r c : f0 !! (src ++ r) = Some (Regular c) ->
  triple a aside all_staged (Lstat (X := X) (src ++ r)) (fun e d => all_staged d /\ e = Regular c) failed.
Proof.
  intros Hc. apply triple_pure_call.
  - exact all_aside.
  - intros n d e Hd. by apply fault_failed, all_aside.
  - intros n d Hd. rewrite aside_src, Hc by by apply all_aside. done.
Qed.

Lemma verifyTree_rule : triple a aside all_staged (verifyMovedTree (X := X) src staging) (fun _ d => all_staged d) failed.
Proof.
  apply src_walk; [exact all_aside|]. intros acc q e [r ->] He. unfold verify_entry.
  destruct (bool_decide (src ++ r = src)); [by apply triple_ret|].
  destruct e; try (by apply triple_ret).
  eapply triple_bind; [by apply lstat_src|]. intros i. apply (triple_pure _ _ _ (i = Regular data)); [by intros d [_ ?]|].
  intros ->. unfold rel. rewrite drop_app_length.
  eapply triple_bind; [eapply triple_weaken; [by eapply stat_staged|by intros d [? _]|..]; done|].
  intros j. apply (triple_pure _ _ _ (j = Regular data)); [by intros d [_ ?]|]. intros ->. rewrite Z.eqb_refl.
  apply triple_ret. by intros d [? _].
Qed.

Lemma verifyFile_rule c : f0 !! src = Some (Regular c) ->
  triple a aside all_staged (verifyMovedFile (X := X) src staging) (fun _ d => all_staged d) failed.
Proof.
  intros Hc. unfold verifyMovedFile. eapply triple_bind with (R := fun e d => all_staged d /\ e = Regular c).
  { apply triple_pure_call; [exact all_aside|intros n d e Hd; by apply fault_failed, all_aside|].
    intros n d Hd. pose proof (aside_src d [] (all_aside d Hd)) as Hs. rewrite app_nil_r in Hs. by rewrite Hs, Hc. }
  intros i. apply (triple_pure _ _ _ (i = Regular c)); [by intros d [_ ?]|]. intros ->.
  pose proof (stat_staged [] c) as Hst. rewrite !app_nil_r in Hst.
  eapply triple_bind; [eapply triple_weaken; [by apply Hst|by intros d [? _]|..]; done|].
  intros j. apply (triple_pure _ _ _ (j = Regular c)); [by intros d [_ ?]|]. intros ->. rewrite Z.eqb_refl.
  apply triple_ret. by intros d [? _].
Qed.

(** *** Durability *)

Definition staged_dir (q : path) : Prop := exists r, q = staging ++ r /\ f0 !! (src ++ r) = Some Directory.
Definition synced (qs : list path) (d : disk) : Prop :=
  all_staged d /\ forall p, dir_of p ∈ qs -> p ∉ wet_name d.

Lemma staged_dir_there q d : staged_dir q -> all_staged d -> files d !! q = Some Directory.
Proof. intros (r & -> & Hr) [_ Hs]. destruct (Hs r) as [-> _]. by rewrite Hr. Qed.

Lemma same_files_staged d w n : all_staged d -> w ⊆ wet_data d -> all_staged (MkDisk (files d) w n).
Proof.
  intros [Ha Hs] Hw. split; [done|]. intros r. destruct (Hs r) as [Hf Hd]. split; [done|].
  intros c Hc Hin. apply (Hd c Hc). by apply Hw.
Qed.

Lemma syncDir_rule q qs : staged_dir q ->
  triple a aside (synced qs) (syncDir (X := X) q) (fun _ d => synced (q :: qs) d) failed.
Proof.
  intros Hq. unfold syncDir. eapply triple_bind with (R := fun _ d => synced qs d).
  - apply triple_pure_call.
    + by intros d [[Ha _] _].
    + intros n d e [[Ha _] _]. by apply fault_failed.
    + intros n d Hd. rewrite (staged_dir_there q) by first [done|apply Hd]. done.
  - intros u. apply with_close_rule; [|by intros _ d [[Ha _] _]]. apply triple_guarded.
    + intros n d e [[Ha _] _] Hn. split; [done|]. by eapply fault_failed.
    + intros n d [Hs Hd]. simpl. split; [apply Hs|]. split; [by apply same_files_staged|].
      simpl. intros p Hp [Hne Hw]%elem_of_filter. apply elem_of_cons in Hp as [Heq|Hp]; [done|by eapply Hd].
Qed.

Lemma sync_all_rule qs done_ : (forall q, q ∈ qs -> staged_dir q) ->
  triple a aside (synced done_) (sync_all (X := X) qs) (fun _ d => synced (reverse qs ++ done_) d) failed.
Proof.
  revert done_. induction qs as [|q qs IH]; intros done_ Hqs; cbn [sync_all fold_right]; [by apply triple_ret|].
  eapply triple_bind; [apply syncDir_rule, Hqs; by left|]. intros u.
  eapply triple_weaken; [apply (IH (q :: done_)); intros; apply Hqs; by right|done|..|done].
  intros x d. cbn beta. by rewrite reverse_cons, <- app_assoc.
Qed.

(** Everything is staged and every name under the staging directory is
    durable. *)
Definition ready (d : disk) : Prop :=
  all_staged d /\ forall r, r <> [] -> is_Some (kept (f0 !! (src ++ r))) -> staging ++ r ∉ wet_name d.

Lemma kept_parent r x : is_Some (kept (f0 !! (src ++ r ++ [x]))) -> f0 !! (src ++ r) = Some Directory.
Proof.
  rewrite app_assoc. intros Hk. destruct Hclosed as [_ Hc]. apply (Hc _ x).
  destruct (f0 !! ((src ++ r) ++ [x])); [by eexists|by destruct Hk].
Qed.

Lemma kept_closed p q : below staging p -> below p q -> p <> q ->
  (exists r, q = staging ++ r /\ is_Some (kept (f0 !! (src ++ r)))) ->
  exists r, p = staging ++ r /\ f0 !! (src ++ r) = Some Directory.
Proof.
  intros [r ->] [k ->] Hne (r' & Heq & Hk). exists r. split; [done|]. rewrite <- app_assoc in Heq.
  apply app_inv_head in Heq. subst r'. destruct k as [|x k]; [by rewrite app_nil_r in Hne|].
  apply (closed_parent f0 _ (src ++ r ++ x :: k)); [done|rewrite app_assoc; apply below_app|..].
  - rewrite app_assoc. apply app_longer.
  - destruct (f0 !! (src ++ r ++ x :: k)); [by eexists|by destruct Hk].
Qed.

Definition listed (g : fs) (done dirs : list path) (d : disk) : Prop :=
  (all_staged d /\ files d = g) /\ (forall q, q ∈ dirs -> staged_dir q) /\
  (forall q, q ∈ done -> staged_dir q -> q ∈ dirs).

Lemma dirs_rule g : (forall r, g !! (staging ++ r) = kept (f0 !! (src ++ r))) -> f0 !! src = Some Directory ->
  triple a aside (listed g [] [])
    (WalkDir (X := X) staging [] (fun dirs q e => mret (match e with Directory => dirs ++ [q] | _ => dirs end, true)))
    (fun dirs d => all_staged d /\ (forall q, q ∈ dirs -> staged_dir q) /\ (forall q, staged_dir q -> q ∈ dirs))
    failed.
Proof.
  intros Hg Hdir. assert (Hroot : g !! staging = Some Directory).
  { specialize (Hg []). by rewrite !app_nil_r, Hdir in Hg. }
  assert (Hin : forall q e, below staging q -> g !! q = Some e ->
            exists r, q = staging ++ r /\ is_Some (kept (f0 !! (src ++ r)))).
  { intros q e [r ->] Hq. exists r. split; [done|]. rewrite <- Hg, Hq. by eexists. }
  eapply triple_weaken; [eapply (WalkDir_rule a aside g staging (listed g) (fun _ _ => False) failed)|..]; try done.
  - intros p q Hp Hpq Hne [e Hq]. destruct (kept_closed p q) as (r & -> & Hr); try done.
    { eapply Hin; [by eapply below_trans|done]. }
    by rewrite Hg, Hr.
  - by intros _ _ d [[[Ha _] _] _].
  - intros _ _ d q [[_ <-] _] _. done.
  - intros _ _ d n e [[[Ha _] _] _]. by apply fault_failed.
  - intros done_ dirs q e Hq He _ _. apply triple_ret. intros d (Hd & Hsound & Hall). cbn [fst snd].
    assert (Hstaged : staged_dir q <-> e = Directory).
    { destruct Hq as [r ->]. rewrite Hg in He. split.
      - intros (r' & Heq & Hr'). apply app_inv_head in Heq. subst r'. rewrite Hr' in He. by injection He.
      - intros ->. exists r. split; [done|]. by destruct (f0 !! (src ++ r)) as [[]|]. }
    split; [done|]. split.
    + intros p Hp. destruct e; try by apply Hsound. apply elem_of_app in Hp as [Hp|Hp]; [by apply Hsound|].
      apply list_elem_of_singleton in Hp. subst p. by apply Hstaged.
    + intros p Hp Hs. apply elem_of_cons in Hp as [->|Hp].
      * apply Hstaged in Hs. subst e. apply elem_of_app. right. by left.
      * specialize (Hall p Hp Hs). destruct e; try done. apply elem_of_app. by left.
  - intros d _ Hnone. congruence.
  - intros dirs d [(done_ & Hall & (Hs & _) & Hsound & Hd)|[]]. split_and!; [done|done|].
    intros q Hq. apply Hd; [|done]. destruct Hq as (r & -> & Hr). apply Hall; [apply below_app|].
    rewrite Hg, Hr. by eexists.
Qed.

Lemma syncStaged_rule : f0 !! src = Some Directory ->
  triple a aside all_staged (syncStagedDirs (X := X) staging) (fun _ d => ready d) failed.
Proof.
  intros Hdir. unfold syncStagedDirs. eapply triple_bind.
  - intros s Hs. refine (dirs_rule (files (cur s)) (fun r => proj1 (proj2 Hs r)) Hdir s _).
    split_and!; [done|done|set_solver|set_solver].
  - intros dirs. apply (triple_pure _ _ _ (forall q, q ∈ dirs <-> staged_dir q)); [intros d (_ & H1 & H2) q; split; auto|].
    intros Hdirs. eapply triple_weaken; [apply (sync_all_rule (reverse dirs) [])|..].
    + intros q Hq. by apply Hdirs, elem_of_reverse.
    + intros d (Hs & _). split; [done|]. set_solver.
    + intros _ d [Hs Hw]. split; [done|]. intros r Hr Hk. apply Hw. rewrite app_nil_r, reverse_involutive, Hdirs.
      destruct (exists_last Hr) as (r1 & x & ->). exists r1. rewrite app_assoc, dir_of_snoc. split; [done|].
      by eapply kept_parent.
    + done.
Qed.

(** *** Staging as a whole *)

Lemma aside_without keep d : aside d -> aside (without keep staging d).
Proof.
  intros Hd p Hp. simpl. rewrite map_lookup_filter. rewrite Hd by done.
  destruct (f0 !! p); simpl; [|done]. by rewrite option_guard_True by by left.
Qed.

Lemma discard_rule {A} (B : Prop) e (Q : A -> disk -> Prop) :
  triple a aside (fun d => aside d /\ B) (discard (X := X) staging e) Q (fun _ d => aside d /\ B).
Proof.
  apply discard_keeps; [by intros d []|]. intros keep d []. split; [by apply aside_without|done].
Qed.

Lemma or_discard_rule {A} P (m : D X A) (Q : A -> disk -> Prop) (B : Prop) :
  triple a aside P m Q (fun _ d => aside d /\ B) ->
  triple a aside P (or_discard staging m) Q (fun _ d => aside d /\ B).
Proof.
  intros Hm. unfold or_discard. eapply triple_bind; [eapply (triple_try _ _ _ _ _ _ (fun _ d => aside d /\ B)), Hm|].
  intros [e|x]; [apply discard_rule|by apply triple_ret].
Qed.

Lemma stage_rule e p : f0 !! src = Some e -> kept (Some e) = Some e ->
  triple a aside unstarted (stage fn src staging (bool_decide (e = Directory)) p) (fun _ d => ready d) failed.
Proof.
  intros He Hk. unfold stage. destruct e as [c| | |]; try done.
  - rewrite bool_decide_eq_false_2 by done. eapply triple_bind; [by eapply or_discard_rule, copyFile_rule|]. intros ?.
    eapply triple_bind; [by eapply or_discard_rule, verifyFile_rule|]. intros ?. apply triple_ret.
    intros d Hd. split; [done|]. intros [|y r] Hr Hkept; [done|]. exfalso.
    assert (Hd0 : f0 !! src = Some Directory); [|congruence].
    apply (closed_parent f0 src (src ++ y :: r)); [done|apply below_app|apply app_longer|].
    destruct (f0 !! (src ++ y :: r)); [by eexists|by destruct Hkept].
  - rewrite bool_decide_eq_true_2 by done. eapply triple_bind; [by eapply or_discard_rule, copyTree_rule|]. intros ?.
    eapply triple_bind; [eapply or_discard_rule, verifyTree_rule|]. intros ?.
    by apply or_discard_rule, syncStaged_rule.
Qed.

(** ** Delivery *)

Hypothesis Hname : dst <> [].
Hypothesis Hnew : staging <> dst.

(** Every other name is as it was, the source has gained nothing, and the
    destination holds what it held or what the source held. *)
Definition untouched (d : disk) : Prop :=
  (forall p, ~ below src p -> ~ below dst p -> ~ below staging p -> files d !! p = f0 !! p) /\
  (forall r e, files d !! (src ++ r) = Some e -> f0 !! (src ++ r) = Some e) /\
  (forall r e, files d !! (dst ++ r) = Some e -> f0 !! (dst ++ r) = Some e \/ f0 !! (src ++ r) = Some e).
(** The payload is where it was. *)
Definition intact (d : disk) : Prop := forall r, files d !! (src ++ r) = f0 !! (src ++ r).
(** The payload is at the destination and would survive a crash. *)
Definition delivered (d : disk) : Prop := forall r,
  files d !! (dst ++ r) = kept (f0 !! (src ++ r)) /\
  (is_Some (kept (f0 !! (src ++ r))) -> dst ++ r ∉ wet_name d) /\
  (forall c, f0 !! (src ++ r) = Some (Regular c) -> dst ++ r ∉ wet_data d).
(** The payload, links and all, was renamed to the destination. *)
Definition renamed (d : disk) : Prop := forall r, files d !! (dst ++ r) = f0 !! (src ++ r).
Definition vacated (p : path) (d : disk) : Prop := forall r, files d !! (p ++ r) = None.

Definition safe (d : disk) : Prop := untouched d /\ (intact d \/ delivered d \/ renamed d).

(** Nothing stands in the way of a copy. *)
Definition smooth : Prop := clear_path /\ f0 !! dst = None /\ kept (f0 !! src) = f0 !! src.
Definition stopped (e : errs) (d : disk) : Prop := safe d /\ ~ smooth.
Definition moved (d : disk) : Prop :=
  untouched d /\ (delivered d \/ renamed d) /\ vacated src d /\ vacated staging d.

Lemma length_staging : length staging = length dst.
Proof.
  unfold staging_of, dir_of. rewrite length_app, length_take. simpl. destruct dst; [done|]. simpl. lia.
Qed.

Lemma below_staging_dst p : below staging p -> below p dst -> False.
Proof.
  intros [k ->] [k' Hk']. apply (f_equal length) in Hk' as Hl. rewrite !length_app, length_staging in Hl.
  destruct k, k'; simpl in Hl; try lia. apply Hnew. by rewrite !app_nil_r in Hk'.
Qed.

Lemma dst_not_staged r : ~ below staging (dst ++ r).
Proof.
  intros Hb. destruct (below_total staging dst _ Hb (below_app _ _)) as [Hs|Hs].
  - by apply (below_staging_dst staging).
  - destruct Hs as [k Hk]. apply (f_equal length) in Hk as Hl. rewrite length_app, length_staging in Hl.
    destruct k; simpl in Hl; [|lia]. apply Hnew. by rewrite app_nil_r in Hk.
Qed.

Lemma dst_staging_apart : ~ below staging dst /\ ~ below dst staging.
Proof.
  split; [by intros ?; apply (below_staging_dst staging)|]. intros [k Hk].
  apply (f_equal length) in Hk as Hl. rewrite length_app, length_staging in Hl.
  destruct k; simpl in Hl; [|lia]. apply Hnew. by rewrite app_nil_r in Hk.
Qed.

Lemma src_not_below_dst r : ~ below src (dst ++ r) \/ below dst src.
Proof.
  destruct (decide (below src (dst ++ r))) as [Hb|]; [|by left].
  destruct (below_total src dst _ Hb (below_app _ _)); [done|by right].
Qed.

Lemma aside_safe d : aside d -> safe d.
Proof.
  intros Hd. assert (Hi : intact d) by (intros r; by apply aside_src).
  split; [|by left]. split_and!; [intros p _ _; apply Hd|intros r e; by rewrite Hi|].
  intros r e. rewrite Hd by apply dst_not_staged. by left.
Qed.

Lemma kept_some e e' : kept e = Some e' -> e = Some e'.
Proof. by destruct e as [[]|]. Qed.

Lemma untouched_at_dst d : (forall p, ~ below src p -> ~ below dst p -> ~ below staging p -> files d !! p = f0 !! p) ->
  (forall r e, files d !! (src ++ r) = Some e -> f0 !! (src ++ r) = Some e) ->
  (forall r e, files d !! (dst ++ r) = Some e -> f0 !! (src ++ r) = Some e) -> untouched d.
Proof. intros Ho Hs Hd. split_and!; [done..|]. intros r e He. right. by apply Hd. Qed.

Lemma without_lookup keep p d q e : files (without keep p d) !! q = Some e -> files d !! q = Some e.
Proof. simpl. by intros [? _]%map_lookup_filter_Some. Qed.

Lemma without_other keep p d q : ~ below p q -> files (without keep p d) !! q = files d !! q.
Proof.
  intros Hp. simpl. rewrite map_lookup_filter. destruct (files d !! q); simpl; [|done].
  by rewrite option_guard_True by by left.
Qed.

Lemma untouched_without keep p d : untouched d -> p = src \/ p = dst -> untouched (without keep p d).
Proof.
  intros (Ho & Hs & Hd) Hp. split_and!.
  - intros q Hq1 Hq2 Hq3. rewrite without_other; [by apply Ho|]. by destruct Hp as [->| ->].
  - intros r e He%without_lookup. by apply Hs.
  - intros r e He%without_lookup. by apply Hd.
Qed.

(** A rename the kernel accepts does not replace an ancestor of something. *)
Lemma rename_spares x b c f : rename_check x b f = inr tt -> is_Some (f !! c) -> c <> b ->
  (forall p, below b p -> below p c -> p <> c -> f !! p = Some Directory) -> ~ below b c.
Proof.
  intros Hcheck Hc Hne Hdirs Hb. unfold rename_check in Hcheck.
  destruct (f !! x) as [e|]; [|done]. case_bool_decide; [done|]. case_bool_decide; [|done].
  rewrite (Hdirs b) in Hcheck; [|done|done|by apply not_eq_sym].
  destruct e; try done. case_bool_decide as Hnil; [|done].
  destruct Hb as [[|y k] ->]; [by rewrite app_nil_r in Hne|].
  assert (exists e0, f !! (b ++ [y]) = Some e0) as [e0 He0].
  { destruct k as [|z k]; [by destruct Hc; eexists|]. exists Directory. apply Hdirs; [apply below_app|..].
    - exists (z :: k). by rewrite <- app_assoc.
    - change (b ++ y :: z :: k) with (b ++ [y] ++ z :: k). rewrite app_assoc. apply app_longer. }
  apply elem_of_children in He0. rewrite Hnil in He0. by apply elem_of_nil in He0.
Qed.

(** The deliver rename has landed; its name is not durable yet. *)
Definition landed (d : disk) : Prop :=
  untouched d /\ intact d /\ vacated staging d /\ ~ below dst src /\ forall r,
    files d !! (dst ++ r) = kept (f0 !! (src ++ r)) /\
    (r <> [] -> is_Some (kept (f0 !! (src ++ r))) -> dst ++ r ∉ wet_name d) /\
    (forall c, f0 !! (src ++ r) = Some (Regular c) -> dst ++ r ∉ wet_data d).

Lemma deliver_lands d : ready d -> rename_check staging dst (files d) = inr tt ->
  landed (MkDisk (move_files staging dst (files d)) (move_marks staging dst (wet_data d))
            ({[dst]} ∪ move_marks staging dst (wet_name d))).
Proof.
  intros [[Ha Hs] Hnames] Hcheck. destruct dst_staging_apart as [Hsd Hds].
  assert (Hspare : ~ below dst src).
  { apply (rename_spares staging dst src (files d) Hcheck).
    - pose proof (aside_src d [] Ha) as H0. rewrite app_nil_r in H0. by rewrite H0.
    - intros ->. by apply Happart.
    - intros p Hp Hps Hne. rewrite Ha.
      + by apply (closed_parent f0 p src).
      + intros Hb. apply (src_not_staged []). rewrite app_nil_r. by eapply below_trans. }
  assert (Hover : forall p q, ~ below dst p -> ~ below p dst -> ~ below dst (p ++ q)).
  { intros p q Hp Hp' Hb. by destruct (below_total dst p _ Hb (below_app _ _)). }
  assert (Hint : forall r, move_files staging dst (files d) !! (src ++ r) = f0 !! (src ++ r)).
  { intros r. rewrite lookup_move by done. rewrite !bool_decide_eq_false_2.
    - by apply aside_src.
    - apply src_not_staged.
    - by apply Hover. }
  assert (Hdst : forall r, move_files staging dst (files d) !! (dst ++ r) = kept (f0 !! (src ++ r))).
  { intros r. rewrite lookup_move by done. rewrite bool_decide_eq_true_2 by apply below_app.
    rewrite drop_app_length. apply Hs. }
  split_and!; [|exact Hint|..|done|]; simpl.
  - apply untouched_at_dst; simpl.
    + intros p Hp1 Hp2 Hp3. rewrite lookup_move, !bool_decide_eq_false_2 by done. by apply Ha.
    + intros r e. by rewrite Hint.
    + intros r e. rewrite Hdst. apply kept_some.
  - intros r. simpl. rewrite lookup_move by done. rewrite bool_decide_eq_false_2 by by apply Hover.
    by rewrite bool_decide_eq_true_2 by apply below_app.
  - intros r. split_and!; [by apply Hdst|..].
    + intros Hr Hk [Heq%elem_of_singleton|Hin%moved_mark]%elem_of_union; [|by apply (Hnames r)|done].
      destruct r; [done|]. symmetry in Heq. by apply app_longer in Heq.
    + intros c Hc Hin%moved_mark; [|done]. by apply (proj2 (Hs r) c).
Qed.

Lemma ready_aside d : ready d -> aside d.
Proof. by intros [[? _] _]. Qed.

Lemma deliver_rule :
  triple a safe ready (Rename (X := X) staging dst) (fun _ d => landed d) (fun _ d => aside d /\ ~ smooth).
Proof.
  apply triple_guarded.
  - intros n d e Hd Hn. apply ready_aside in Hd. split; [by apply aside_safe|]. split; [done|].
    intros ([[_ Hh] _] & _). by rewrite Hh in Hn.
  - intros n d Hd. rewrite bool_decide_eq_false_2 by done.
    pose proof (ready_aside d Hd) as Ha. destruct (rename_check staging dst (files d)) as [e|[]] eqn:Hcheck; simpl.
    + split; [by apply aside_safe|]. split; [done|]. intros ([_ Hdir] & Hnone & Hkept).
      destruct Hd as [[_ Hs] _]. destruct (Hs []) as [Hroot _]. rewrite !app_nil_r, Hkept in Hroot.
      unfold rename_check in Hcheck. destruct Hsrc as [e0 He0]. rewrite Hroot, He0 in Hcheck.
      destruct dst_staging_apart as [Hsd _]. rewrite bool_decide_eq_false_2 in Hcheck by done.
      pose proof (dst_not_staged []) as Hns. rewrite app_nil_r in Hns.
      rewrite (Ha dst), Hnone in Hcheck by done. rewrite Ha, Hdir in Hcheck; [|].
      * by rewrite bool_decide_eq_true_2 in Hcheck.
      * intros Hb. apply Hns. eapply below_trans; [exact Hb|]. exists (drop (length dst - 1) dst).
        unfold dir_of. by rewrite take_drop.
    + pose proof (deliver_lands d Hd Hcheck) as Hl. split; [|done].
      destruct Hl as (? & ? & _). split; [done|by left].
Qed.

Lemma landed_safe d : landed d -> safe d.
Proof. intros (? & ? & _). split; [done|by left]. Qed.

Lemma landed_delivered d : landed d -> dst ∉ wet_name d -> delivered d.
Proof.
  intros (_ & _ & _ & _ & Hd) Hn r. destruct (Hd r) as (Hf & Hw & Hc). split_and!; [done| |done].
  intros Hk. destruct (decide (r = [])) as [->|]; [by rewrite app_nil_r|by apply Hw].
Qed.

Lemma parent_rule :
  triple a safe landed (syncDir (X := X) (dir_of dst)) (fun _ d => landed d /\ dst ∉ wet_name d)
    (fun _ d => landed d /\ ~ smooth).
Proof.
  assert (HF : forall n e, a_fault a n = Some e -> ~ smooth).
  { intros n e Hn ([[_ Hh] _] & _). by rewrite Hh in Hn. }
  unfold syncDir. eapply triple_bind with (R := fun _ d => landed d).
  - apply triple_pure_call; [exact landed_safe|intros n d e Hd Hn; split; [done|by eapply HF]|].
    intros n d Hd. destruct (files d !! dir_of dst) eqn:Hp; [done|]. split; [done|]. intros ([_ Hdir] & _).
    destruct Hd as ((Hu & _) & _). rewrite Hu in Hp; [congruence|..].
    + intros Hb. apply Happart. eapply below_trans; [exact Hb|]. exists (drop (length dst - 1) dst).
      unfold dir_of. by rewrite take_drop.
    + unfold dir_of. intros [k Hk]. apply (f_equal length) in Hk. rewrite length_take, length_app in Hk.
      destruct dst; [done|]. simpl in Hk. lia.
    + unfold staging_of. intros [k Hk]. rewrite <- app_assoc in Hk. by apply app_longer in Hk.
  - intros u. apply close_rule; [|by intros x d [? _]; apply landed_safe|by intros e d [? _]; apply landed_safe|..].
    + apply triple_guarded; [intros n d e Hd Hn; split; [by apply landed_safe|split; [done|by eapply HF]]|].
      intros n d Hd. simpl.
      assert (Hl : landed (MkDisk (files d) (wet_data d) (filter (fun q => dir_of q <> dir_of dst) (wet_name d)))).
      { destruct Hd as (H1 & H2 & H3 & H4 & Hd). split_and!; [done..|]. intros r. destruct (Hd r) as (Hf & Hw & Hc).
        split_and!; [done| |done]. simpl. intros Hr Hk [_ Hin]%elem_of_filter. by apply Hw. }
      split; [by apply landed_safe|]. split; [done|]. simpl. by intros [? _]%elem_of_filter.
    + intros x d n e [Hd _] Hn. split; [done|by eapply HF].
    + done.
Qed.

(** The copy is durable: only the source is left to go. *)
Definition released (d : disk) : Prop :=
  untouched d /\ delivered d /\ vacated staging d /\ ~ below dst src.

Lemma released_safe d : released d -> safe d.
Proof. intros (? & ? & _). split; [done|by right; left]. Qed.

Lemma without_src keep d : released d -> released (without keep src d).
Proof.
  intros (Hu & Hd & Hv & Hspare). split_and!; [apply untouched_without; [done|by left]| | |done].
  - intros r. destruct (Hd r) as (Hf & Hw & Hc). split_and!; [|done|done]. rewrite without_other; [done|].
    by destruct (src_not_below_dst r).
  - intros r. simpl. by rewrite map_lookup_filter, Hv.
Qed.

Lemma source_rule : triple a safe released (RemoveAll (X := X) src) (fun _ d => moved d) stopped.
Proof.
  apply RemoveAll_rule; [exact released_safe|exact without_src|..].
  - intros n e d Hd Hn. split; [by apply released_safe|]. intros ([[_ Hh] _] & _). by rewrite Hh in Hn.
  - intros d Hd. pose proof (without_src (fun _ => false) d Hd) as Hr. split; [|by apply released_safe].
    destruct Hr as (Hu & Hdel & Hv & _). split_and!; [done|by left| |done].
    intros r. simpl. apply map_lookup_filter_None. right. intros x _ [Hn|]; [|done]. apply Hn, below_app.
Qed.

Lemma weaken_safe {A} P (m : D X A) (Q : A -> disk -> Prop) Er : triple a aside P m Q Er -> triple a safe P m Q Er.
Proof.
  intros Hm s Hs. destruct (Hm s Hs) as (t & ? & HI & ?). exists t. split_and!; [done| |done].
  eapply list.Forall_impl; [exact HI|]. apply aside_safe.
Qed.

Lemma failed_stopped e d : failed e d -> stopped e d.
Proof. intros [Ha Hn]. split; [by apply aside_safe|]. by intros [? _]. Qed.

Lemma start_unstarted d : files d = f0 -> unstarted d.
Proof.
  intros Hd. split; [intros p _; by rewrite Hd|]. intros r. rewrite Hd.
  eapply closed_absent; [done|apply below_app|done].
Qed.

(** From the staged copy on. *)
Definition undelivered (d : disk) : Prop := untouched d /\ intact d /\ ~ below dst src /\ ~ smooth.

Lemma without_dst keep d : undelivered d -> undelivered (without keep dst d).
Proof.
  intros (Hu & Hi & Hspare & Hn).
  split_and!; [apply untouched_without; [done|by right]|..|done|done].
  intros r. rewrite without_other; [by apply Hi|]. intros Hb. by destruct (below_total dst src _ Hb (below_app _ _)).
Qed.

Lemma undelivered_safe d : undelivered d -> safe d.
Proof. intros (? & ? & _). split; [done|by left]. Qed.

Lemma deliver_all : triple a safe ready (deliver (X := X) src staging dst) (fun _ d => moved d) stopped.
Proof.
  unfold deliver. eapply triple_bind with (R := fun _ d => landed d).
  { unfold or_discard. eapply triple_bind; [eapply (triple_try _ _ _ _ _ _ stopped), deliver_rule|].
    intros [e|x]; [|by apply triple_ret]. eapply triple_weaken.
    - apply weaken_safe, (discard_rule (~ smooth)).
    - intros d Hd. exact Hd.
    - intros x d Hd; exact Hd.
    - intros e' d [Ha Hn]. split; [by apply aside_safe|done]. }
  intros u. eapply triple_bind with (R := fun _ d => released d); [|intros v; apply source_rule].
  unfold or_discard. eapply triple_bind; [eapply (triple_try _ _ _ _ _ _ stopped), parent_rule|].
  intros [e|x].
  - eapply triple_weaken; [apply (discard_keeps a safe undelivered dst e (fun _ d => released d))|..].
    + exact undelivered_safe.
    + exact without_dst.
    + intros d [(? & ? & _ & ? & _) ?]. by split_and!.
    + done.
    + intros e' d Hd. split; [by apply undelivered_safe|apply Hd].
  - apply triple_ret. intros d [Hl Hn]. pose proof (landed_delivered d Hl Hn).
    by destruct Hl as (? & _ & ? & ? & _).
Qed.

Lemma copy_across_rule e : f0 !! src = Some e -> kept (Some e) = Some e ->
  triple a safe (fun d => files d = f0) (copy_across fn ulid src dst (bool_decide (e = Directory)))
    (fun _ d => moved d) stopped.
Proof.
  intros He Hk. unfold copy_across. eapply triple_bind with (R := fun _ d => files d = f0).
  { eapply triple_weaken; [apply weaken_safe, (sum_rule (fun d => files d = f0))|done|done|apply failed_stopped].
    intros d Hd. by apply start_unstarted. }
  intros total. cbn zeta. eapply triple_bind with (R := fun _ d => ready d); [|intros u; apply deliver_all].
  eapply triple_weaken; [exact (weaken_safe _ _ _ _ (stage_rule e _ He Hk))|apply start_unstarted|done|apply failed_stopped].
Qed.

(** The copy path from the unchanged disk. *)
Lemma across_rule : f0 !! src <> Some Symlink ->
  triple a safe (fun d => files d = f0) (moveAcrossFilesystems fn ulid src dst) (fun _ d => moved d) stopped.
Proof.
  intros Hplain. destruct Hsrc as [e0 He0].
  assert (Hlook : forall d, files d = f0 -> files d !! src = Some e0) by (by intros d ->).
  assert (Hstart : forall d, files d = f0 -> aside d) by (intros d Hd; by apply start_unstarted).
  unfold moveAcrossFilesystems. eapply triple_bind with (R := fun e d => files d = f0 /\ e = e0).
  { apply triple_pure_call.
    - by intros d ?%Hstart%aside_safe.
    - intros n d e Hd Hn. eapply failed_stopped, fault_failed; [by apply Hstart|done].
    - intros n d Hd. rewrite (Hlook d Hd). by destruct e0. }
  intros e. apply (triple_pure _ _ _ (e = e0)); [by intros d [_ ?]|]. intros ->.
  destruct (decide (kept (Some e0) = Some e0)) as [Hk|Hk].
  2: { assert (triple a safe (fun d => files d = f0 /\ e0 = e0)
            (throw (X := X) (A := unit) [Refused]) (fun _ d => moved d) stopped); [|by destruct e0].
       apply triple_throw. intros d [Hd _]. split; [by apply aside_safe, Hstart|]. intros (_ & _ & Hkept).
       by rewrite He0 in Hkept. }
  assert (Hgo : triple a safe (fun d => files d = f0 /\ e0 = e0)
    (linfo ← try_ (Lstat src);
     if bool_decide (linfo = inr Symlink) then throw [Refused]
     else copy_across fn ulid src dst (bool_decide (e0 = Directory))) (fun _ d => moved d) stopped);
    [|by destruct e0].
  eapply triple_bind with (R := fun r d => files d = f0 /\ r <> inr Symlink).
  { eapply triple_weaken; [eapply (triple_try _ _ _ _ (fun e d => files d = f0 /\ e <> Symlink)
      (fun _ d => files d = f0) stopped)|intros d Hd; exact Hd| |done].
    - apply triple_pure_call; [by intros d [?%Hstart%aside_safe _]|by intros n d e [? _]|].
      intros n d [Hd _]. rewrite (Hlook d Hd). simpl. split; [done|]. congruence.
    - intros [e|e] d; [by intros Hd|]. intros [Hd He]. split; [done|]. by intros [= ->]. }
  intros linfo. apply (triple_pure _ _ _ (linfo <> inr Symlink)); [by intros d [_ ?]|]. intros Hlink.
  rewrite bool_decide_eq_false_2 by done.
  eapply triple_weaken; [by apply copy_across_rule|by intros d [? _]|done|done].
Qed.

(** [Move]. *)
Lemma rename_moves d : files d = f0 -> rename_check src dst (files d) = inr tt ->
  moved (MkDisk (move_files src dst (files d)) (move_marks src dst (wet_data d))
           ({[dst]} ∪ move_marks src dst (wet_name d))).
Proof.
  intros -> Hcheck.
  assert (Hspare : ~ below dst src).
  { apply (rename_spares src dst src f0 Hcheck); [done|intros Heq; apply Happart; by rewrite Heq|].
    intros p _ Hps Hne. by apply (closed_parent f0 p src). }
  assert (Hdst : forall r, move_files src dst f0 !! (dst ++ r) = f0 !! (src ++ r)).
  { intros r. rewrite lookup_move by done.
    rewrite bool_decide_eq_true_2 by apply below_app. by rewrite drop_app_length. }
  assert (Hgone : forall r, move_files src dst f0 !! (src ++ r) = None).
  { intros r. rewrite lookup_move by done. rewrite bool_decide_eq_false_2.
    - by rewrite bool_decide_eq_true_2 by apply below_app.
    - intros Hb. by destruct (below_total dst src _ Hb (below_app _ _)). }
  split_and!; simpl; [|by right|exact Hgone|].
  - apply untouched_at_dst; simpl.
    + intros p Hp1 Hp2 _. by rewrite lookup_move, !bool_decide_eq_false_2 by done.
    + intros r e. by rewrite Hgone.
    + intros r e. by rewrite Hdst.
  - intros r. simpl. rewrite lookup_move by done. rewrite !bool_decide_eq_false_2.
    + eapply closed_absent; [done|apply below_app|done].
    + intros Hb. destruct (below_total src staging _ Hb (below_app _ _)) as [Hs|Hs].
      * by apply staging_not_in_src.
      * apply (src_not_staged []). by rewrite app_nil_r.
    + intros Hb. destruct dst_staging_apart as [H1 H2].
      by destruct (below_total dst staging _ Hb (below_app _ _)).
Qed.

Lemma moved_safe d : moved d -> safe d.
Proof. intros (? & ? & _). split; [done|by right]. Qed.

Lemma move_rule : f0 !! src <> Some Symlink ->
  triple a safe (fun d => files d = f0) (Move fn ulid src dst) (fun _ d => moved d) (fun _ d => safe d).
Proof.
  intros Hplain. assert (Hstart : forall d, files d = f0 -> safe d).
  { intros d Hd. by apply aside_safe, start_unstarted. }
  unfold Move. eapply triple_bind with (R := fun _ d => files d = f0); [by apply triple_ctx|].
  intros []; [by apply triple_throw|].
  eapply triple_bind with (R := fun r d => match r with inr _ => moved d | inl _ => files d = f0 end).
  - eapply triple_weaken; [eapply (triple_try _ _ _ _ (fun _ d => moved d) (fun _ d => files d = f0) (fun _ d => safe d))
      |intros d Hd; exact Hd|intros [?|?] d Hd; exact Hd|done].
    apply triple_guarded; [by intros n d e Hd _; split; [apply Hstart|]|]. intros n d Hd.
    rewrite bool_decide_eq_false_2 by (intros Heq; apply Happart; by rewrite Heq).
    destruct (rename_check src dst (files d)) as [e|[]] eqn:Hcheck; simpl; [by split; [apply Hstart|]|].
    pose proof (rename_moves d Hd Hcheck) as Hm. split; [by apply moved_safe|done].
  - intros [e|[]]; [|by apply triple_ret]. case_bool_decide; [|by apply triple_throw].
    eapply triple_weaken; [by apply across_rule|done|done|by intros e' d [? _]].
Qed.
End Moving.

(** What a move is asked: an existing payload that is not itself a link, a
    destination that is not inside it, and a staging name nobody uses. *)
Definition movable (f0 : fs) (src dst : path) (ulid : list Z) : Prop :=
  closed f0 /\ is_Some (f0 !! src) /\ f0 !! src <> Some Symlink /\ ~ below src dst /\ dst <> [] /\
  f0 !! staging_of dst ulid = None /\ staging_of dst ulid <> dst.



(** ** A small disk *)

Definition elems (ws : list string) : path := bytes_of <$> ws.
Definition demo_fs : fs := list_to_map
  [(elems [], Directory); (elems ["d"%string], Directory); (elems ["m"%string], Directory);
   (elems ["d"; "p"]%string, Directory); (elems ["d"; "p"; "a"]%string, Regular [1; 2; 3]%Z);
   (elems ["d"; "p"; "b"]%string, Regular [4]%Z); (elems ["d"; "l"]%string, Symlink)].
Definition demo_disk : state unit := State 0 (MkDisk demo_fs ∅ ∅) [] tt.
Definition demo_src : path := elems ["d"; "p"]%string.
Definition demo_dst : path := elems ["m"; "p"]%string.
Definition demo_ulid : list Z := bytes_of "01J".

(** The environment refuses the calls of [faults] and answers the rest. *)
Definition demo_env (faults : list (nat * fault)) (left_over : path -> bool) : answers :=
  MkAnswers (fun n => snd <$> List.find (fun p => bool_decide (p.1 = n)) faults) (fun _ => 1%nat)
    (fun _ => left_over) (fun _ _ => Some Directory) None (fun n => Z.of_nat n).

(** An executable [closed]. *)
Definition closedb (f : fs) : bool :=
  bool_decide (f !! [] = Some Directory) &&
  forallb (fun e => bool_decide (e.1 = []) || bool_decide (f !! dir_of e.1 = Some Directory)) (map_to_list f).
Lemma closedb_closed f : closedb f = true -> closed f.
Proof.
  intros [Hr Hall]%andb_prop. apply bool_decide_eq_true in Hr. split; [done|]. intros p x [e He].
  rewrite forallb_forall in Hall. specialize (Hall (p ++ [x], e)).
  cbn [fst] in Hall. rewrite dir_of_snoc in Hall.
  destruct (orb_prop _ _ (Hall ltac:(by apply list_elem_of_In, elem_of_map_to_list))) as [H|H];
    apply bool_decide_eq_true in H; [by destruct p|done].
Qed.

Lemma demo_movable : movable demo_fs demo_src demo_dst demo_ulid.
Proof.
  split_and!; [by apply closedb_closed; vm_compute|by eexists|done|..|done|by vm_compute|done].
  apply (bool_decide_unpack _). by vm_compute.
Qed.



(** A run over the small disk: the tree arrives with its bytes. *)
Example demo_move :
  let (r, s) := Move None demo_ulid demo_src demo_dst (demo_env [(0%nat, EXDEV)] (fun _ => false)) demo_disk in
  bool_decide (r = inr tt /\ files (cur s) !! elems ["m"; "p"; "a"]%string = Some (Regular [1; 2; 3]%Z) /\
    files (cur s) !! demo_src = None /\ size (files (cur s)) = 7%nat) = true.
Proof. by vm_compute. Qed.

(** A link whose [Lstat] fails is not refused: the target's kind is copied as
    an empty directory and the link is removed. *)
Example unreadable_link_is_dropped :
  let (r, s) := Move None demo_ulid (elems ["d"; "l"]%string) (elems ["m"; "l"]%string)
    (demo_env [(0%nat, EXDEV); (2%nat, EIO)] (fun _ => false)) demo_disk in
  bool_decide (r = inr tt /\ files (cur s) !! elems ["d"; "l"]%string = None /\
    files (cur s) !! elems ["m"; "l"]%string = Some Directory) = true.
Proof. by vm_compute. Qed.

(** A removal that breaks off leaves an error and part of the source. *)
Example failed_removal_leaves_part :
  let (r, s) := Move None demo_ulid demo_src demo_dst
    (demo_env [(0%nat, EXDEV); (46%nat, EIO)] (fun p => bool_decide (p <> elems ["d"; "p"; "a"]%string))) demo_disk in
  bool_decide (r = inl [Errno EIO] /\ files (cur s) !! elems ["d"; "p"; "a"]%string = None /\
    files (cur s) !! elems ["d"; "p"; "b"]%string = Some (Regular [4]%Z)) = true.
Proof. by vm_compute. Qed.

(** * What every file operation keeps

    [upholds I R m]: from a disk in [I], every disk a command leaves is in
    [I], and the caller's own state moves along [R] - the frame of a command
    whose callback writes elsewhere.  Reading calls uphold any [I]; all calls
    uphold being a directory tree.  The walk over the code is the tactic
    [uphold]. *)

(** A removal that breaks off has removed children before their parents. *)
Definition tree_left (a : answers) : Prop :=
  forall n p x, a_left a n (p ++ [x]) = true -> a_left a n p = true.

(** ** Calls *)

Lemma closed_insert f p e : closed f -> p <> [] -> f !! dir_of p = Some Directory -> f !! p = None \/ (exists o, f !! p = Some (Regular o)) ->
  closed (<[p := e]> f).
Proof.
  intros [Hroot Hc] Hp Hdir Hold. split; [by rewrite lookup_insert_ne|].
  assert (Hnodir : f !! p <> Some Directory) by (destruct Hold as [-> | [o ->]]; done).
  intros q x [e' He']. destruct (decide (q = p)) as [->|Hne].
  { rewrite lookup_insert_ne in He' by apply app_longer.
    destruct Hnodir. apply (Hc p x). by eexists. }
  rewrite lookup_insert_ne by done. apply lookup_insert_Some in He' as [[Heq _]|[_ He']].
  - subst p. by rewrite dir_of_snoc in Hdir.
  - apply (Hc q x). by eexists.
Qed.

Lemma closed_fresh f p e : closed f -> f !! p = None -> f !! dir_of p = Some Directory -> closed (<[p := e]> f).
Proof. intros Hc Hp Hd. apply closed_insert; [done|intros ->; by destruct Hc; congruence|done|by left]. Qed.

Lemma closed_append p bytes d : closed (files d) -> closed (files (append p bytes d)).
Proof.
  intros Hc. unfold append. destruct (files d !! p) as [[data| | |]|] eqn:Hp; simpl; try done.
  apply closed_insert; [done|intros ->; destruct Hc; congruence| |right; by eexists].
  destruct (exists_last (l := p)) as (q & x & ->); [intros ->; destruct Hc; congruence|].
  rewrite dir_of_snoc. apply (proj2 Hc q x). by eexists.
Qed.

Lemma closed_without keep p d : closed (files d) -> p <> [] -> (forall q x, keep (q ++ [x]) = true -> keep q = true) ->
  closed (files (without keep p d)).
Proof.
  intros [Hr Hc] Hp Hk. split.
  - rewrite without_other; [done|]. intros [k Hk0]. by destruct p.
  - intros q x [e [He Hin]%map_lookup_filter_Some]. simpl.
    apply map_lookup_filter_Some. simpl in *. split; [by eapply Hc; eexists|].
    destruct Hin as [Hin|Hin]; [left|right; by eapply Hk].
    intros Hb. apply Hin. eapply below_trans; [exact Hb|apply below_app].
Qed.

Lemma closed_rename a b f : closed f -> a <> b -> rename_check a b f = inr tt -> closed (move_files a b f).
Proof.
  intros Hc Hne Hcheck. assert (Hspare : ~ below b a).
  { apply (rename_spares a b a f Hcheck); [|done|].
    - unfold rename_check in Hcheck. destruct (f !! a); [by eexists|done].
    - intros p _ Hb Hp. apply (closed_parent f p a); [done..|].
      unfold rename_check in Hcheck. destruct (f !! a); [by eexists|done]. }
  unfold rename_check in Hcheck. destruct (f !! a) as [e|] eqn:Ha; [|done].
  case_bool_decide as Hab; [done|]. case_bool_decide as Hdir; [|done].
  assert (Hb : b <> []). { intros ->. apply Hspare. by exists a. }
  destruct Hc as [Hr Hc]. split.
  - rewrite lookup_move by done. rewrite !bool_decide_eq_false_2; [done|..].
    + intros [k Hk]. destruct a; [|done]. apply Hab. by exists b.
    + intros [k Hk]. by destruct b.
  - intros p x. rewrite !lookup_move by done. destruct (decide (below b (p ++ [x]))) as [Hpx|Hpx].
    + rewrite bool_decide_eq_true_2 by done. destruct (decide (b = p ++ [x])) as [->|Hlong].
      { intros _. rewrite dir_of_snoc in Hdir. rewrite bool_decide_eq_false_2.
        - rewrite bool_decide_eq_false_2; [done|]. intros Hap. apply Hab. eapply below_trans; [exact Hap|apply below_app].
        - intros [k Hk]. rewrite <- app_assoc in Hk. by apply app_longer in Hk. }
      assert (below b p) as Hbp.
      { destruct Hpx as [k Hk]. destruct k as [|y k] using rev_ind; [by rewrite app_nil_r in Hk; subst|].
        rewrite app_assoc in Hk. apply app_inj_tail in Hk as [-> _]. apply below_app. }
      rewrite bool_decide_eq_true_2 by done. destruct Hbp as [k ->]. rewrite <- app_assoc, !drop_app_length, app_assoc.
      apply Hc.
    + assert (~ below b p) by (intros Hbp; apply Hpx; eapply below_trans; [exact Hbp|apply below_app]).
      rewrite !(bool_decide_eq_false_2 (below b _)) by done.
      destruct (decide (below a (p ++ [x]))) as [Hap|Hap]; [rewrite bool_decide_eq_true_2 by done; by intros []|].
      assert (~ below a p) by (intros Hbp; apply Hap; eapply below_trans; [exact Hbp|apply below_app]).
      rewrite !bool_decide_eq_false_2 by done. apply Hc.
Qed.

(** ** The frame of a command *)

Section Upholds.
Context {X : Type} (a : answers) (I : disk -> Prop) (R : X -> X -> Prop) `{!PreOrder R}.
Abbreviation D := (D X).

Definition upholds {A} (m : D A) : Prop := forall s, I (cur s) ->
  exists trace, past (m a s).2 = trace ++ past s /\ Forall I trace /\
    I (cur (m a s).2) /\ R (user s) (user (m a s).2).

Lemma upholds_ret {A} (x : A) : upholds (mret x).
Proof. intros s Hs. exists []. by split_and!. Qed.

Lemma upholds_throw {A} e : upholds (throw (A := A) e).
Proof. intros s Hs. exists []. by split_and!. Qed.

Lemma upholds_ctx : upholds (ctx_over (X := X)).
Proof. intros s Hs. exists []. by split_and!. Qed.

Lemma upholds_bind {A B} (m : D A) (k : A -> D B) : upholds m -> (forall x, upholds (k x)) -> upholds (m ≫= k).
Proof.
  intros Hm Hk s Hs. destruct (Hm s Hs) as (t & Ht & HI & Hc & Hu). unfold mbind, D_bind.
  destruct (m a s) as [[e|x] s1]; simpl in *; [by exists t|].
  destruct (Hk x s1 Hc) as (t' & Ht' & HI' & Hc' & Hu'). exists (t' ++ t). rewrite Ht', Ht, app_assoc.
  split_and!; [done|by apply Forall_app|done|by etransitivity].
Qed.

Lemma upholds_try {A} (m : D A) : upholds m -> upholds (try_ m).
Proof. intros Hm s Hs. destruct (Hm s Hs) as (t & ?). unfold try_. destruct (m a s). by exists t. Qed.

Lemma upholds_call {A} k : (forall n d, I d -> I (k a n d).2) -> upholds (call (A := A) k).
Proof.
  intros Hk s Hs. specialize (Hk (tick s) (cur s) Hs). unfold call. destruct (k a (tick s) (cur s)) as [r d].
  exists [d]. split_and!; [done|by constructor|done|reflexivity].
Qed.

Lemma upholds_guarded {A} k : (forall n d, I d -> I (k a n d).2) -> upholds (guarded (A := A) k).
Proof. intros Hk. apply upholds_call. intros n d Hd. by destruct (a_fault a n); [|apply Hk]. Qed.

Lemma upholds_pure {A} k : upholds (pure_call (A := A) k).
Proof. by apply upholds_guarded. Qed.

Lemma upholds_clock : upholds (clock (X := X)).
Proof. by apply upholds_call. Qed.

Lemma upholds_each {T} visit p acc names : (forall acc q e, upholds (visit acc q e)) ->
  upholds (each (T := T) visit p acc names).
Proof.
  intros Hv. revert acc. induction names as [|n names IH]; intros acc; [apply upholds_ret|].
  apply upholds_bind; [apply Hv|]. intros [t []]; [apply IH|apply upholds_ret].
Qed.

Lemma upholds_walk {T} fuel fn acc p e : (forall acc q e, upholds (fn acc q e)) ->
  upholds (walk (T := T) fuel fn acc p e).
Proof.
  intros Hf. revert acc p e. induction fuel as [|fuel IH]; intros acc p e; [apply upholds_throw|].
  apply upholds_bind; [apply Hf|]. intros [t go]. simpl. destruct go; [|apply upholds_ret].
  destruct e; try apply upholds_ret. apply upholds_bind; [apply upholds_pure|].
  intros names. apply upholds_each. apply IH.
Qed.

Lemma upholds_WalkDir {T} root acc fn : (forall acc q e, upholds (fn acc q e)) ->
  upholds (WalkDir (T := T) root acc fn).
Proof.
  intros Hf s. unfold WalkDir. generalize (depth (files (cur s))). intros fuel. revert s.
  change (upholds (e ← Lstat root; r ← walk fuel fn acc root e; (mret r.1 : D T))).
  apply upholds_bind; [apply upholds_pure|]. intros e. apply upholds_bind; [by apply upholds_walk|].
  intros r. apply upholds_ret.
Qed.

Lemma upholds_with_close {A} p (m : D A) : upholds m -> upholds (with_close p m).
Proof.
  intros Hm. apply upholds_bind; [by apply upholds_try|]. intros r. apply upholds_bind; [apply upholds_try, upholds_pure|].
  intros c. destruct r, c; first [apply upholds_ret|apply upholds_throw].
Qed.

End Upholds.

(** ** Directory trees *)

Definition tree (d : disk) : Prop := closed (files d).

Section Trees.
Context {X : Type} (a : answers) (R : X -> X -> Prop) `{!PreOrder R}.
Abbreviation D := (D X).
Abbreviation upholds := (upholds a tree R).

Lemma upholds_Mkdir p : upholds (Mkdir p).
Proof.
  apply upholds_guarded; [done|]. intros n d Hd. case_bool_decide as Hp; [done|]. case_bool_decide; [|done].
  apply closed_fresh; [done|by apply eq_None_not_Some|done].
Qed.

Lemma upholds_Create p : upholds (Create p).
Proof.
  apply upholds_guarded; [done|]. intros n d Hd. case_bool_decide as Hp; [done|]. case_bool_decide; [|done].
  apply closed_fresh; [done|by apply eq_None_not_Some|done].
Qed.

Lemma upholds_Write p bytes : upholds (Write p bytes).
Proof. apply upholds_call; [done|]. intros n d Hd. destruct (a_fault a n); by apply closed_append. Qed.

Lemma upholds_Sync p : upholds (Sync p).
Proof. by apply upholds_guarded; [done|]. Qed.

Lemma upholds_SyncDir p : upholds (SyncDir p).
Proof. by apply upholds_guarded; [done|]. Qed.

Lemma upholds_Rename p q : upholds (Rename p q).
Proof.
  apply upholds_guarded; [done|]. intros n d Hd. case_bool_decide; [done|].
  destruct (rename_check p q (files d)) as [|[]] eqn:Hr; [done|]. by apply closed_rename.
Qed.

Hypothesis Hleft : tree_left a.

Lemma upholds_RemoveAll p : p <> [] -> upholds (RemoveAll p).
Proof.
  intros Hp. apply upholds_bind; [done|..].
  - apply upholds_try, upholds_call; [done|]. intros n d Hd. apply closed_without; [done..|]. apply Hleft.
  - intros [e|[]]; [by apply upholds_throw|]. apply upholds_call; [done|]. intros n d Hd. by apply closed_without.
Qed.

Lemma upholds_or_discard {A} p (m : D A) : p <> [] -> upholds m -> upholds (or_discard p m).
Proof.
  intros Hp Hm. apply upholds_bind; [done|by apply upholds_try|]. intros [e|x]; [|by apply upholds_ret].
  apply upholds_bind; [done|by apply upholds_try, upholds_RemoveAll|]. intros r. by apply upholds_throw.
Qed.
End Trees.

Create HintDb disk.
#[export] Hint Resolve upholds_ret upholds_throw upholds_ctx upholds_pure upholds_clock upholds_Mkdir
  upholds_Create upholds_Write upholds_Sync upholds_SyncDir upholds_Rename upholds_RemoveAll : disk.

(** Walks a command over the disk. *)
Ltac uphold :=
  repeat match goal with
  | |- upholds _ _ _ (_ ≫= _) => apply upholds_bind; [apply _| |intros ?]
  | |- upholds _ _ _ (try_ _) => apply upholds_try
  | |- upholds _ _ _ (with_close _ _) => apply upholds_with_close; [apply _|]
  | |- upholds _ _ _ (or_discard _ _) => apply upholds_or_discard; [apply _|done|done|]
  | |- upholds _ _ _ (WalkDir _ _ _) => apply upholds_WalkDir; [apply _|intros ???]
  | |- upholds _ _ _ (match ?x with _ => _ end) => destruct x eqn:?
  | |- upholds _ _ _ _ => solve [eauto with disk nocore typeclass_instances]
  end.

(** ** The move *)

Section Move.
Context {X : Type} (a : answers) (R : X -> X -> Prop) `{!PreOrder R}.
Hypothesis Hleft : tree_left a.
Context (fn : option (Z -> Z -> X -> X)).
Hypothesis Hfn : forall f c t x, fn = Some f -> R x (f c t x).

Lemma add_upholds p n : upholds a tree R (add fn p n).
Proof.
  unfold add. destruct fn as [f|] eqn:Hf; [|uphold]. uphold. intros s Hs. exists [].
  split_and!; [done|by constructor|done|]. simpl. by apply Hfn.
Qed.

Lemma copy_loop_upholds fuel src dst o p : upholds a tree R (copy_loop fn fuel src dst o p).
Proof.
  revert o p. induction fuel as [|fuel IH]; intros o p; cbn [copy_loop]; [uphold|].
  uphold; apply add_upholds.
Qed.

Lemma copyRegularFile_upholds src dst p : upholds a tree R (copyRegularFile fn src dst p).
Proof.
  unfold copyRegularFile. uphold. intros s. unfold copy_into.
  generalize (S (size_of (files (cur s)) src)). intros fuel. revert s.
  change (upholds a tree R (Create dst ;;
   r ← with_close dst (
     r ← copy_loop fn fuel src dst 0 p;
     if bool_decide (r.2 = []) then Sync dst ;; mret r.1 else throw r.2);
   Chmod dst ;;
   (mret r : D X moveProgress))). uphold. apply copy_loop_upholds.
Qed.

Lemma copyTree_upholds src staging p : upholds a tree R (copyTree fn src staging p).
Proof. unfold copyTree, copy_entry. uphold. apply copyRegularFile_upholds. Qed.

Lemma syncDir_upholds p : upholds a tree R (syncDir p).
Proof. unfold syncDir. uphold. Qed.

Lemma sync_all_upholds l : upholds a tree R (sync_all l).
Proof.
  induction l; unfold sync_all; simpl; [uphold|]. apply upholds_bind; [done|apply syncDir_upholds|by intros ?].
Qed.

Lemma copy_across_upholds ulid src dst b : src <> [] -> dst <> [] -> upholds a tree R (copy_across fn ulid src dst b).
Proof.
  intros Hs Hd. assert (Hst : staging_of dst ulid <> []) by (unfold staging_of; by destruct (dir_of dst)).
  unfold copy_across, stage, deliver. apply upholds_bind; [done| |intros t].
  { unfold sumMoveBytes. uphold. }
  uphold; first [apply copyTree_upholds|apply copyRegularFile_upholds|apply syncDir_upholds
    |unfold verifyMovedTree, verify_entry, verifyMovedFile, syncStagedDirs; uphold; apply sync_all_upholds].
Qed.

Lemma Move_upholds ulid src dst : src <> [] -> dst <> [] -> upholds a tree R (Move fn ulid src dst).
Proof. intros Hs Hd. unfold Move, moveAcrossFilesystems. uphold; by apply copy_across_upholds. Qed.
End Move.
