(* ===== verification/MoveHandler.v ===== *)
(** * The move job ([internal/jobs/handlers_move.go])

    The handler claims the row, looks at both ends, asks for headroom when the
    move has to copy, runs [fsx.Move] and writes what became of it.  It works
    on two states at once: the store, whose calls the [oracle] answers, and
    the disk behind [Drive], whose calls [env] answers.  A copy's progress
    callback writes to the store in the middle of the move. *)

From stdpp Require Import gmap.
From S2P Require Import Prelude GoStrings TaskState Schema Lease World Fsx SafePath SafeJoin Manifest Disk Move Jobs Store.

Open Scope Z_scope.

(** Where the disk is kept in the state behind the interfaces. *)
Class Drive (E : Type) := {
  drive : E -> state unit;
  set_drive : state unit -> E -> E;
  drive_set : forall s e, drive (set_drive s e) = s }.

(** [movePayload]. *)
Record movePayload := MkPayload { mp_task : string; mp_src : string; mp_dst : string }.

Definition eventMoveStarted : string := "postprocess.move.started".
Definition eventMoveCompleted : string := "postprocess.move.completed".
Definition eventMoveFailed : string := "postprocess.move.failed".
Definition codeMoveDiskFull : string := "disk_full".
Definition moveDiskFullMessage : string := "no space left on device; the task resumes once space returns".
Definition moveDiskFullEventMessage : string := "paused by the disk-space guard: no space left on device".

(** The elements of an absolute path. *)
Definition pathOf (s : string) : path := List.filter (fun w => bool_decide (w <> [])) (split SafeJoin.slash (bytes_of s)).

(** [querySetMoveContentPath]. *)
Definition set_content_path : option string -> task -> task := ltac:(setter t_content_path).
Definition querySetMoveContentPath (path : string) (now : Z) (id : string) : stmt :=
  update_where id any_row (fun t => set_updated_at now (set_content_path (Some path) t)) no_check.

(** [rootOwns] and [owningRoot]. *)
Definition rootOwns (path root : string) : bool :=
  if bool_decide (root = "/"%string) then has_prefix "/" path
  else bool_decide (path = root) || has_prefix (root +:+ "/") path.
Definition owningRoot (roots : list string) (path : string) : string :=
  fold_left (fun best root =>
    let trimmed := trim_right_byte Prelude.slash root in
    let trimmed := if bool_decide (trimmed = EmptyString) then "/"%string else trimmed in
    if (String.length best <? String.length trimmed)%nat && rootOwns path trimmed then trimmed else best)
    roots EmptyString.

(** [moveErrorCode]. *)
Definition moveErrorCode (e : errs) : string :=
  if bool_decide (NotExist ∈ e) then "file_not_exist"
  else if bool_decide (Errno EACCES ∈ e) || bool_decide (Errno EPERM ∈ e) then "destination_denied"
  else "unknown".

(** [IsENOSPC]. *)
Definition IsENOSPC (e : errs) : bool := bool_decide (Errno ENOSPC ∈ e).

(** ** Comparing trees ([handlers_extract.go]) *)

Section Trees.
Context {X : Type}.
Abbreviation D := (Disk.D X).

(** The comparison of two entries: their kinds, and the sizes of files. *)
Definition same_entry (e e' : entry) : bool :=
  match e, e' with
  | Regular a, Regular b => bool_decide (length a = length b)
  | Directory, Directory | Symlink, Symlink | Special, Special => true
  | _, _ => false
  end.

(** [containedInTree]. *)
Definition contained_entry (src dst : path) (same : bool) (q : path) (e : entry) : D (bool * bool) :=
  if bool_decide (q = src) then mret (same, true)
  else
    srcInfo ← Lstat q;
    dstInfo ← try_ (Lstat (dst ++ rel src q));
    match dstInfo with
    | inr dstInfo => if same_entry srcInfo dstInfo then mret (same, true) else mret (false, false)
    | inl _ => mret (false, false)
    end.
Definition containedInTree (src dst : path) : D bool := WalkDir src true (contained_entry src dst).

(** [sameExtractedTree]. *)
Definition sameExtractedTree (staged dir : path) : D bool :=
  info ← Lstat dir;
  if negb (bool_decide (info = Directory)) then mret false
  else
    same ← containedInTree staged dir;
    if (same : bool) then containedInTree dir staged else mret false.

(** [samePayload]. *)
Definition samePayload (srcInfo dstInfo : entry) (src dst : path) : D bool :=
  match srcInfo with
  | Directory => if negb (bool_decide (dstInfo = Directory)) then mret false else sameExtractedTree src dst
  | _ =>
    mret (match dstInfo with Regular _ => entry_size dstInfo =? entry_size srcInfo | _ => false end)
  end.

(** [dirSizeBytes]. *)
Definition dirSizeBytes (dir : path) : D Z :=
  WalkDir dir 0 (fun t q _ =>
    info ← Lstat q;
    mret (match info with Regular _ => wrap64 (t + entry_size info) | _ => t end, true)).
End Trees.

(** ** The handler *)

Section Handler.
Context {E : Type} `{!Drive E}.
Abbreviation M := (M E).
Abbreviation world := (world E).
(** The disk's answers, [json.Unmarshal] of a payload, the decoded
    [min_free_space] row ([None]: no row, [Some None]: malformed), an error's
    text, [os.SameFile] of two entries, and the configured roots. *)
Context (env : answers) (decode : string -> option movePayload)
  (min_free_row : db -> option (option (gmap string Z))) (error_text : errs -> string)
  (same_file : path -> path -> bool) (roots : list string).

(** Runs a command on the disk; its callback sees the world and keeps what
    its closure captured, [lastTotal]. *)
Definition on_disk {A} (m : oracle -> D (Z * world) A) : M ((errs + A) * Z) := fun o w =>
  let s := drive (w_eng w) in
  let (r, s) := m o env (State (tick s) (cur s) (past s) (0, w)) in
  let w := (user s).2 in
  (inr (r, (user s).1), set_eng (set_drive (State (tick s) (cur s) (past s) tt) (w_eng w)) w).
Definition disk_call {A} (m : D (Z * world) A) : M (errs + A) :=
  r ← on_disk (fun _ => m); mret r.1.

(** [filesystemIDOfPath] and [SameFilesystem]. *)
Definition filesystemIDOfPath (path : string) : M string :=
  st ← os_stat path;
  FilesystemID (match st with StatFile _ => Prelude.Dir path | _ => path end).
Definition SameFilesystem (a b : string) : M bool :=
  aID ← filesystemIDOfPath a;
  bID ← filesystemIDOfPath b;
  mret (bool_decide (aID = bID)).

(** [minFreeSpace]. *)
Definition minFreeSpace : M (gmap string Z) :=
  row ← query min_free_row;
  mret (match row with Some (Some floors) => floors | _ => ∅ end).

(** [destinationAdmits]. *)
Fixpoint committed_on (fsID : string) (rows : list (string * Z)) (acc : Z) : M Z :=
  match rows with
  | [] => mret acc
  | (destination, remaining) :: rows =>
    id ← attempt (FilesystemID destination);
    committed_on fsID rows (if bool_decide (id = inr fsID) then wrap64 (acc + remaining) else acc)
  end.
Definition destinationAdmits (dst : string) (total : Z) : M bool :=
  fsID ← attempt (FilesystemID dst);
  match fsID with
  | inl _ => mret true
  | inr fsID =>
    space ← attempt (FreeSpace dst);
    match space with
    | inl _ => mret true
    | inr space =>
      perDestination ← SumRemainingByDestination;
      committed ← committed_on fsID (map_to_list perDestination) 0;
      minFree ← minFreeSpace;
      mret (Admits (MkReservation fsID (FreeBytes space) committed (Floor minFree (owningRoot roots dst))) total)
    end
  end.

(** The three answers of a row that moved on. *)
Definition answered_elsewhere (e : err) : bool :=
  errors_is e ErrNotFound || errors_is e ErrIllegalTransition || errors_is e ErrTransitionConflict.
Definition unless_answered (r : res unit) : M unit :=
  match r with inl e => if answered_elsewhere e then mret tt else fail e | inr _ => mret tt end.

(** [pauseDiskFull]. *)
Definition pauseDiskFull (taskID : string) : M unit :=
  r ← attempt (PauseWithCode taskID (MkCodedPause CodeTaskPaused moveDiskFullEventMessage
        codeMoveDiskFull moveDiskFullMessage [StateMoving]));
  unless_answered r.

(** [fail]. *)
Definition fail_move (taskID : string) (e : errs) (text : string) : M unit :=
  task ← attempt (Get taskID);
  match task with
  | inl err => if errors_is err ErrNotFound then mret tt else fail err
  | inr task =>
    if bool_decide (t_state task <> StateMoving) then mret tt
    else
      codeErr ← attempt (SetErrorCode taskID (moveErrorCode e) text);
      transitionErr ← attempt (Transition taskID StateError eventMoveFailed text);
      match transitionErr, codeErr with
      | inl err, _ => if errors_is err ErrIllegalTransition then of_res codeErr else fail err
      | inr _, codeErr => of_res codeErr
      end
  end.

(** [setContentPath] and [settle]. *)
Definition setContentPath (taskID path : string) : M unit :=
  now ← unix_milli; _ ← exec (querySetMoveContentPath path now taskID); mret tt.
Definition settle (taskID : string) (task : task) (dst : string) : M unit :=
  (if bool_decide (t_content_path task = Some dst) then mret tt else setContentPath taskID dst) ;;
  if bool_decide (t_state task <> StateMoving) then mret tt
  else
    r ← attempt (Transition taskID StateCompleted eventMoveCompleted "payload moved to destination");
    unless_answered r.

(** [forwardProgress], and the callback [Handle] passes to [Move]. *)
Definition forwardProgress (taskID : string) (copied total uploaded : Z) : M unit :=
  ignore (UpdateProgress taskID (MkProgress (Some total) copied uploaded 0 0 None)).
Definition onProgress (o : oracle) (taskID : string) (uploaded copied total : Z) (u : Z * world) : Z * world :=
  (total, (forwardProgress taskID copied total uploaded o u.2).2).

(** The move itself and what its end means; the staging suffix is fresh. *)
Definition relocate_as (ulid taskID : string) (task : task) (src dst : string) : M unit :=
  r ← on_disk (A := unit) (fun o => Move.Move (Some (onProgress o taskID (t_uploaded_bytes task)))
        (bytes_of ulid) (pathOf src) (pathOf dst));
  let lastTotal := r.2 in
  match r.1 with
  | inr _ =>
    (if 0 <? lastTotal then forwardProgress taskID lastTotal lastTotal (t_uploaded_bytes task) else mret tt) ;;
    settle taskID task dst
  | inl e =>
    over ← disk_call (A := bool) ctx_over;
    if bool_decide (over = inr true) then fail ErrContext
    else if IsENOSPC e then pauseDiskFull taskID
    else fail_move taskID e (error_text e)
  end.
Definition relocate (taskID : string) (task : task) (src dst : string) : M unit :=
  ulid ← NewID EmptyString; relocate_as ulid taskID task src dst.

(** The pre-check of a move that will copy. *)
Definition transfer (taskID : string) (task : task) (src dst : string) : M unit :=
  same ← attempt (SameFilesystem src dst);
  if bool_decide (same = inr false) then
    total ← disk_call (dirSizeBytes (pathOf src));
    match total with
    | inl e => fail_move taskID e ("measure payload: " +:+ error_text e)
    | inr total =>
      admitted ← destinationAdmits dst total;
      if (admitted : bool) then relocate taskID task src dst else pauseDiskFull taskID
    end
  else relocate taskID task src dst.

(** Both ends exist. *)
Definition collide (taskID : string) (task : task) (src dst : string) (srcInfo dstInfo : entry) : M unit :=
  same ← disk_call (samePayload srcInfo dstInfo (pathOf src) (pathOf dst));
  match same with
  | inl _ => fail ErrFs
  | inr true =>
    if same_file (pathOf src) (pathOf dst) then settle taskID task dst
    else
      removed ← disk_call (RemoveAll (pathOf src));
      match removed with inl _ => fail ErrFs | inr _ => settle taskID task dst end
  | inr false => fail_move taskID [] ("destination " +:+ dst +:+ " already exists with different content")
  end.

(** The claim of the row: whether the job goes on. *)
Definition claim (taskID : string) (task : task) : M bool :=
  if bool_decide (t_state task = StateMoving) then mret true
  else
    r ← attempt (Transition taskID StateMoving eventMoveStarted "moving payload to destination");
    match r with
    | inr _ => mret true
    | inl e => if answered_elsewhere e then mret false else fail e
    end.

Definition missing (r : errs + entry) : bool :=
  match r with inl e => bool_decide (NotExist ∈ e) | inr _ => false end.
Definition exists_ (r : errs + entry) : bool := match r with inr _ => true | inl _ => false end.

(** [Handle], from its decoded payload on. *)
Definition move_task (taskID : string) (task : task) (src dst : string) : M unit :=
  srcInfo ← disk_call (Stat (pathOf src));
  dstInfo ← disk_call (Stat (pathOf dst));
  if missing srcInfo && exists_ dstInfo then settle taskID task dst
  else if negb (exists_ srcInfo) && negb (missing srcInfo) then fail ErrFs
  else if negb (exists_ dstInfo) && negb (missing dstInfo) then fail ErrFs
  else if bool_decide (t_state task = StateSeeding) then mret tt
  else
    claimed ← claim taskID task;
    if negb claimed then mret tt
    else
      let task := set_state StateMoving task in
      match srcInfo, dstInfo with
      | inr srcInfo, inr dstInfo => collide taskID task src dst srcInfo dstInfo
      | _, _ => transfer taskID task src dst
      end.

(** [Handle]. *)
Definition Handle (job : Job) : M unit :=
  match decode (PayloadJSON job) with
  | None => fail ErrArgument
  | Some (MkPayload taskID src dst) =>
    let taskID := if bool_decide (taskID = EmptyString) then default EmptyString (TaskID job) else taskID in
    if bool_decide (taskID = EmptyString) || bool_decide (src = EmptyString) || bool_decide (dst = EmptyString)
    then fail ErrArgument
    else
      task ← attempt (Get taskID);
      match task with
      | inl e => if errors_is e ErrNotFound then mret tt else fail e
      | inr task =>
        if negb (contains [StateCompleted; StateMoving; StateSeeding] (t_state task)) then mret tt
        else if bool_decide (src = dst) then mret tt
        else move_task taskID task src dst
      end
  end.
End Handler.
