(* ===== verification/MoveHandlerProps.v ===== *)
(** * The move job never loses the payload

    [holds] is what every instant of every run keeps: the payload is whole at
    the source or at the destination, and neither place holds anything else.
    The store only says the payload is at the destination once it is. *)

From stdpp Require Import gmap.
From S2P Require Import Prelude GoStrings TaskState Schema Lease World Frame Fsx SafePath SafeJoin Manifest Disk DiskProps Move MoveProps Jobs Store StoreProps MoveHandler.

Open Scope Z_scope.

Lemma triple_instants {X A} a (I I' P : disk -> Prop) (m : D X A) Q Er :
  (forall d, I d -> I' d) -> triple a I P m Q Er -> triple a I' P m Q Er.
Proof.
  intros HI Hm s Hs. destruct (Hm s Hs) as (t & ? & Ht & ?). exists t. split_and!; [done| |done].
  eapply list.Forall_impl; [exact Ht|exact HI].
Qed.

(** ** Comparing trees *)

Section Compare.
Context {X : Type} (a : answers) (f0 : fs).
Hypothesis Hc : closed f0.
Abbreviation here := (fun d : disk => files d = f0).

(** Every name under [src] has its like under [dst]. *)
Definition fits (src dst : path) : Prop := forall r e, r <> [] -> f0 !! (src ++ r) = Some e ->
  exists e', f0 !! (dst ++ r) = Some e' /\ same_entry e e' = true.

Lemma lookup_rule p (Q : entry -> disk -> Prop) (Er : errs -> disk -> Prop) :
  (forall e d, here d -> f0 !! p = Some e -> Q e d) -> (forall e d, here d -> Er e d) ->
  triple a here here (Lstat (X := X) p) Q Er.
Proof.
  intros HQ HE. apply triple_pure_call; [done|by intros; apply HE|]. intros n d Hd. rewrite Hd.
  destruct (f0 !! p) eqn:He; simpl; [by apply HQ|by apply HE].
Qed.

Lemma contained_rule src dst :
  triple a here here (containedInTree (X := X) src dst) (fun b d => here d /\ (b = true -> fits src dst))
    (fun _ d => here d).
Proof.
  eapply triple_weaken; [apply (WalkDir_rule a here f0 src (fun done acc d => here d /\ acc = true /\
      forall q e, q ∈ done -> q <> src -> f0 !! q = Some e ->
        exists e', f0 !! (dst ++ rel src q) = Some e' /\ same_entry e e' = true)
      (fun acc d => here d /\ acc = false) (fun _ d => here d))|..].
  - intros p q _ Hb Hne Hq. by apply (closed_parent f0 p q).
  - by intros vis acc d [? _].
  - by intros vis acc d q [-> _].
  - by intros vis acc d n e [? _].
  - intros vis acc q e Hb Hq _ _. unfold contained_entry.
    apply (triple_pure _ _ _ (acc = true /\ forall q e, q ∈ vis -> q <> src -> f0 !! q = Some e ->
        exists e', f0 !! (dst ++ rel src q) = Some e' /\ same_entry e e' = true)); [by intros d [_ ?]|].
    intros [-> Hdone]. case_bool_decide as Hroot.
    + subst q. apply triple_ret. intros d [Hd _]. split_and!; [done..|]. intros q e' [->|Hin]%elem_of_cons Hne; [done|].
      by apply Hdone.
    + eapply triple_weaken with (P := here) (Z := fun _ d => here d); [|by intros d [? _]|intros x d Hd; exact Hd|done].
      eapply triple_bind with (R := fun e' d => here d /\ e' = e); [apply lookup_rule; [|done]; intros; split; congruence|].
      intros e'. apply (triple_pure _ _ _ (e' = e)); [by intros d [_ ?]|]. intros ->.
      eapply triple_bind with (R := fun r d => here d /\ forall e', r = inr e' -> f0 !! (dst ++ rel src q) = Some e').
      { eapply triple_weaken; [eapply (triple_try _ _ here _ (fun e d => here d /\ f0 !! (dst ++ rel src q) = Some e)
          (fun _ d => here d) (fun _ d => here d)), lookup_rule|by intros d [? _]|..]; try done.
        intros [e1|e1] d; [by intros ?|]. intros [? ?]. split; [done|]. by intros ? [= <-]. }
      intros [e1|e1]; [apply triple_ret; by intros d [? _]|].
      destruct (same_entry e e1) eqn:Hsame; apply triple_ret; cbn [fst snd]; [|by intros d [? _]].
      intros d [Hd He1]. split_and!; [done..|]. intros q' e' [->|Hin]%elem_of_cons Hne Hq'; [|by apply Hdone].
      exists e1. split; [by apply He1|]. congruence.
  - by intros d [? _].
  - intros d Hd. split_and!; [done..|]. set_solver.
  - intros b d [(vis & Hall & Hd & -> & Hdone)|[Hd ->]]; [|done]. split; [done|]. intros _ r e Hr Hq.
    destruct (Hdone (src ++ r) e) as (e' & He' & ?); [|destruct r; [done|by apply not_eq_sym, app_longer]|done|].
    + apply Hall; [apply below_app|by eexists].
    + exists e'. split; [|done]. unfold rel in He'. by rewrite drop_app_length in He'.
  - done.
Qed.

Lemma sameExtracted_rule src dst :
  triple a here here (sameExtractedTree (X := X) src dst)
    (fun b d => here d /\ (b = true -> f0 !! dst = Some Directory /\ fits src dst /\ fits dst src)) (fun _ d => here d).
Proof.
  unfold sameExtractedTree. eapply triple_bind with (R := fun info d => here d /\ f0 !! dst = Some info);
    [by apply lookup_rule|]. intros info. apply (triple_pure _ _ _ (f0 !! dst = Some info)); [by intros d [_ ?]|].
  intros Hinfo. case_bool_decide as Hdir; simpl; [subst info|by apply triple_ret; intros d [? _]].
  eapply triple_bind with (R := fun b d => here d /\ (b = true -> fits src dst)).
  { eapply triple_weaken; [apply contained_rule|by intros d [? _]|done|done]. }
  intros same. apply (triple_pure _ _ _ (same = true -> fits src dst)); [by intros d [_ ?]|]. intros Hfits.
  destruct same; [|by apply triple_ret; intros d [? _]].
  eapply triple_weaken; [apply contained_rule|by intros d [? _]|..|done].
  intros b d [? Hb]. split; [done|]. intros Htrue. by split_and!; [|apply Hfits|apply Hb].
Qed.

(** What [samePayload] has seen when it says yes. *)
Definition alike (src dst : path) : Prop :=
  f0 !! dst = Some Directory /\ fits src dst \/
  exists x y, f0 !! src <> Some Directory /\ f0 !! src = Some x /\ f0 !! dst = Some (Regular y) /\
    entry_size x = Z.of_nat (length y).

Lemma samePayload_rule src dst e e' : f0 !! src = Some e -> f0 !! dst = Some e' ->
  triple a here here (samePayload (X := X) e e' src dst) (fun b d => here d /\ (b = true -> alike src dst))
    (fun _ d => here d).
Proof.
  intros He He'. unfold samePayload.
  assert (Hfile : e <> Directory -> triple a here here (mret (match e' with
      Regular _ => entry_size e' =? entry_size e | _ => false end) : D X bool)
      (fun b d => here d /\ (b = true -> alike src dst)) (fun _ d => here d)).
  { intros Hd. apply triple_ret. intros d ?. split; [done|]. destruct e'; try done. intros Heq. right.
    exists e, data. split_and!; [congruence|done..|]. simpl in Heq. lia. }
  destruct e; try by apply Hfile. case_bool_decide as Hdir; simpl; [|by apply triple_ret].
  eapply triple_weaken; [apply sameExtracted_rule|done| |done].
  intros b d [? Hb]. split; [done|]. intros Htrue. left. by destruct (Hb Htrue) as (? & ? & _).
Qed.
End Compare.

(** ** The payload *)

Section Payload.
(** The payload by relative path, and the two ends. *)
Context (c : path -> option entry) (src dst : path).

Record job_ok : Prop := {
  jo_root : is_Some (c []);
  jo_plain : kept (c []) = c [];       (* a file or a directory *)
  jo_in : ~ below src dst;
  jo_out : ~ below dst src }.
Hypothesis Hjob : job_ok.

Definition at_src (d : disk) : Prop := forall r, files d !! (src ++ r) = c r.
(** Renamed as it was, or copied: a copy takes files and directories along. *)
Definition at_dst (d : disk) : Prop :=
  (forall r, files d !! (dst ++ r) = c r) \/ (forall r, files d !! (dst ++ r) = kept (c r)).
Definition holds (d : disk) : Prop :=
  (forall r e, files d !! (src ++ r) = Some e -> c r = Some e) /\
  (forall r e, files d !! (dst ++ r) = Some e -> c r = Some e) /\
  (at_src d \/ at_dst d).

Lemma src_nonempty : src <> [].
Proof. intros Hs. apply (jo_in Hjob). rewrite Hs. apply prefix_nil. Qed.
Lemma dst_nonempty : dst <> [].
Proof. intros Hd. apply (jo_out Hjob). rewrite Hd. apply prefix_nil. Qed.

Lemma ends_apart r : ~ below src (dst ++ r) /\ ~ below dst (src ++ r).
Proof.
  destruct Hjob. split; intros Hb; [destruct (below_total src dst _ Hb (below_app _ _))|
    destruct (below_total dst src _ Hb (below_app _ _))]; done.
Qed.

(** With a free destination the payload is at the source. *)
Lemma free_at_src d : holds d -> files d !! dst = None -> at_src d.
Proof.
  intros (_ & _ & [Hs|Hd]) Hfree; [done|]. destruct (jo_root Hjob) as [e He].
  destruct Hd as [Hd|Hd]; specialize (Hd []); rewrite app_nil_r, Hfree in Hd; [congruence|].
  rewrite (jo_plain Hjob) in Hd. congruence.
Qed.

(** Without a source the payload is at the destination. *)
Lemma vacant_at_dst d : holds d -> files d !! src = None -> at_dst d.
Proof.
  intros (_ & _ & [Hs|Hd]) Hfree; [|done]. destruct (jo_root Hjob) as [e He].
  specialize (Hs []). rewrite app_nil_r in Hs. congruence.
Qed.

(** Alike ends are the same: nothing else is at the destination. *)
Lemma alike_at_dst d : closed (files d) -> holds d -> alike (files d) src dst -> at_dst d.
Proof.
  intros Hc (Hs & Hd & [Hat|]) Hal; [|done]. left. intros r.
  destruct (files d !! (dst ++ r)) as [e|] eqn:Hr; [symmetry; by apply Hd|].
  destruct (c r) as [e|] eqn:Hcr; [|done]. exfalso. rewrite <- Hat in Hcr.
  destruct Hal as [[Hdir Hfits]|(x & y & Hnd & Hx & Hy & _)].
  - destruct r as [|x r]; [by rewrite app_nil_r in Hr; congruence|].
    destruct (Hfits (x :: r) e) as (e' & He' & _); [done..|congruence].
  - destruct r as [|z r]; [by rewrite app_nil_r in Hr; congruence|].
    apply Hnd, (closed_parent (files d) src (src ++ z :: r)); [done|apply below_app|apply app_longer|by eexists].
Qed.

Lemma holds_without keep d : holds d -> at_dst d -> holds (without keep src d) /\ at_dst (without keep src d).
Proof.
  intros (Hs & Hd & _) Hat.
  assert (Hat' : at_dst (without keep src d)).
  { destruct Hat as [Hat|Hat]; [left|right]; intros r; rewrite without_other; try done; by apply ends_apart. }
  split; [|done]. split_and!; [|..|by right]; intros r e He%without_lookup; first [by apply Hs|by apply Hd].
Qed.

Lemma remove_rule {X} a :
  triple a holds (fun d => holds d /\ at_dst d) (RemoveAll (X := X) src) (fun _ d => holds d /\ at_dst d)
    (fun _ d => holds d).
Proof.
  apply RemoveAll_rule.
  - by intros d [? _].
  - intros keep d [? ?]. by apply holds_without.
  - by intros n e d [? _].
  - intros d [? ?]. destruct (holds_without (fun _ => false) d) as [? ?]; done.
Qed.

(** What the move leaves is the payload at one of the ends. *)
Section Start.
Context (d0 : disk) (ulid : list Z).
Hypothesis Hclosed : closed (files d0).
Hypothesis Hat : at_src d0.
Hypothesis Hfree : files d0 !! dst = None.

Lemma free_below r : files d0 !! (dst ++ r) = None.
Proof. eapply closed_absent; [done|apply below_app|done]. Qed.

Lemma arrived_at_dst d : delivered (files d0) src dst d \/ renamed (files d0) src dst d -> at_dst d.
Proof.
  intros [Hd|Hd]; [right|left]; intros r; specialize (Hd r); rewrite Hat in Hd; [by destruct Hd|done].
Qed.

Lemma untouched_holds d : untouched (files d0) src dst ulid d -> at_src d \/ at_dst d -> holds d.
Proof.
  intros (_ & Hs & Hd) Hor. split_and!; [..|done]; intros r e He; rewrite <- Hat; [by apply Hs|].
  destruct (Hd r e He) as [Hn|]; [by rewrite free_below in Hn|done].
Qed.

Lemma safe_holds d : safe (files d0) src dst ulid d -> holds d.
Proof.
  intros [Hu Hor]. apply untouched_holds; [done|]. destruct Hor as [Hi|Hor]; [left|right].
  - intros r. by rewrite <- Hat, Hi.
  - by apply arrived_at_dst.
Qed.

Lemma moved_holds d : moved (files d0) src dst ulid d -> holds d /\ at_dst d.
Proof.
  intros (Hu & Hor & _). assert (at_dst d) by by apply arrived_at_dst. split; [|done].
  apply untouched_holds; [done|by right].
Qed.

Lemma Move_holds {X} a (fn : option (Z -> Z -> X -> X)) :
  files d0 !! staging_of dst ulid = None -> staging_of dst ulid <> dst ->
  triple a holds (fun d => d = d0) (Move fn ulid src dst) (fun _ d => holds d /\ at_dst d) (fun _ d => holds d).
Proof.
  intros Hfresh Hnew. destruct Hjob as [[e He] Hplain Hin Hout].
  assert (Hroot : files d0 !! src = Some e) by (specialize (Hat []); rewrite app_nil_r in Hat; congruence).
  eapply triple_instants; [apply safe_holds|]. eapply triple_weaken.
  - apply (move_rule a fn (files d0) src dst ulid); [done|by eexists|done|done|by apply dst_nonempty|done|].
    rewrite Hroot. intros [= ->]. by rewrite He in Hplain.
  - by intros d ->.
  - intros x d. apply moved_holds.
  - intros e' d. apply safe_holds.
Qed.
End Start.
End Payload.

(** ** What the store's part keeps *)

(** No row changes its content path. *)
Definition same_paths (d d' : db) : Prop := forall id t', d_tasks d' !! id = Some t' ->
  exists t, d_tasks d !! id = Some t /\ t_content_path t' = t_content_path t.

#[global] Instance same_paths_pre : PreOrder same_paths.
Proof.
  split; [intros d id t Ht; by exists t|]. intros d e f H1 H2 id t (u & Hu & Hc)%H2.
  destruct (H1 id u Hu) as (v & ? & ?). exists v. split; [done|congruence].
Qed.

Lemma update_paths id guard f ok : (forall t, t_content_path (f t) = t_content_path t) ->
  stmt_keeps same_paths (update_where id guard f ok).
Proof.
  intros Hf d d' k [(-> & _)|(t & Ht & _ & _ & _ & ->)]%update_where_inv; [reflexivity|].
  intros j u. simpl. intros [[<- <-]|[_ Hu]]%lookup_insert_Some; [by exists t|by exists u].
Qed.

Lemma insert_event_paths e : stmt_keeps same_paths (queryInsertTaskEvent e).
Proof.
  intros d d' k. unfold queryInsertTaskEvent. destruct (d_tasks d !! _); [|done]. case_match; [|done].
  intros [= <- _]. by intros j u Hu; exists u.
Qed.

Definition quiet (d d' : db) : Prop := db_step d d' /\ same_paths d d'.

#[global] Instance quiet_pre : PreOrder quiet.
Proof. split; [done|]. intros d e f [] []. split; by etransitivity. Qed.

Lemma keeps_both (S S' : db -> db -> Prop) {E A} (m : M E A) :
  always (keeps S) m -> always (keeps S') m -> always (keeps (fun d d' => S d d' /\ S' d d')) m.
Proof.
  intros H1 H2 o w. destruct (H1 o w) as [T1 D1 N ? ? ?], (H2 o w) as [T2 D2 _ _ _ _].
  assert (Htx : forall v : world E, tx_ok (fun d d' => S d d' /\ S' d d') v <-> tx_ok S v /\ tx_ok S' v).
  { intros v. unfold tx_ok. destruct (w_tx v); naive_solver. }
  split; rewrite ?Htx; naive_solver.
Qed.

Ltac walk_paths := walk; try (by apply update_paths); auto with dltool.

Section Quiet.
Context {E : Type}.
Abbreviation quietly m := (always (keeps quiet (E := E)) m).

#[local] Hint Resolve insert_event_paths : dltool.

Lemma insertTaskEvent_paths id lv code msg dt now : always (keeps same_paths (E := E)) (insertTaskEvent id lv code msg dt now).
Proof. unfold insertTaskEvent. walk_paths. Qed.

#[local] Hint Resolve insertTaskEvent_paths : dltool.

Lemma quiet_UpdateProgress id p : quietly (UpdateProgress id p).
Proof. apply keeps_both; [apply UpdateProgress_keeps|]. unfold UpdateProgress. walk_paths. Qed.

Lemma quiet_Transition id next code msg : quietly (Transition id next code msg).
Proof. apply keeps_both; [apply Transition_keeps|]. unfold Transition. walk_paths. Qed.

Lemma quiet_SetErrorCode id code msg : quietly (SetErrorCode id code msg).
Proof. apply keeps_both; [apply SetErrorCode_keeps|]. unfold SetErrorCode. walk_paths. Qed.

Lemma quiet_PauseWithCode id p : quietly (PauseWithCode id p).
Proof. apply keeps_both; [apply PauseWithCode_keeps|]. unfold PauseWithCode. walk_paths. Qed.

Lemma quiet_Get id : quietly (Get id).
Proof. unfold Get. walk. Qed.

Lemma quiet_climb fuel p : quietly (climb fuel p).
Proof. revert p. induction fuel; intros p; cbn [climb]; walk. Qed.

Lemma quiet_existingAncestor p : quietly (existingAncestor p).
Proof. unfold existingAncestor. walk. apply quiet_climb. Qed.

#[local] Hint Resolve quiet_UpdateProgress quiet_Transition quiet_SetErrorCode quiet_PauseWithCode quiet_Get
  quiet_existingAncestor : dltool.

Lemma quiet_FilesystemID p : quietly (FilesystemID p).
Proof. unfold FilesystemID. walk. Qed.

Lemma quiet_FreeSpace p : quietly (FreeSpace p).
Proof. unfold FreeSpace. walk. Qed.

#[local] Hint Resolve quiet_FilesystemID quiet_FreeSpace : dltool.

Lemma quiet_SameFilesystem a b : quietly (SameFilesystem a b).
Proof. unfold SameFilesystem, filesystemIDOfPath. walk. Qed.

Lemma quiet_committed_on fs rows acc : quietly (committed_on fs rows acc).
Proof. revert acc. induction rows as [|[? ?] rows IH]; intros acc; cbn [committed_on]; walk. Qed.

#[local] Hint Resolve quiet_committed_on : dltool.

Lemma quiet_destinationAdmits row roots dst n : quietly (destinationAdmits row roots dst n).
Proof. unfold destinationAdmits, SumRemainingByDestination, minFreeSpace. walk. Qed.

Lemma quiet_unless_answered r : quietly (unless_answered r).
Proof. unfold unless_answered. walk. Qed.

#[local] Hint Resolve quiet_unless_answered : dltool.

Lemma quiet_pauseDiskFull id : quietly (pauseDiskFull id).
Proof. unfold pauseDiskFull. walk. Qed.

Lemma quiet_of_res {A} (r : res A) : quietly (of_res r).
Proof. apply always_of_res. apply _. Qed.

#[local] Hint Resolve quiet_of_res : dltool.

Lemma quiet_fail_move id e text : quietly (fail_move id e text).
Proof. unfold fail_move. walk. Qed.

Lemma quiet_claim id t : quietly (claim id t).
Proof. unfold claim. walk. Qed.

Lemma quiet_forwardProgress id a b c : quietly (forwardProgress id a b c).
Proof. unfold forwardProgress. walk. Qed.
End Quiet.

(** ** Runs over both states *)

Section Runs.
Context {E : Type} `{!Drive E} (o : oracle).
Abbreviation M := (M E).
Abbreviation world := (world E).
Implicit Types w : world.

Definition dsk w : state unit := drive (w_eng w).

Lemma dsk_set s w e : dsk (set_eng (set_drive s e) w) = s.
Proof. apply drive_set. Qed.

(** [runs I P m Q]: [triple] for a command over both states. *)
Definition runs {A} (I : disk -> Prop) (P : world -> Prop) (m : M A) (Q : res A -> world -> Prop) : Prop :=
  forall w, P w -> exists trace, past (dsk (m o w).2) = trace ++ past (dsk w) /\ Forall I trace /\
    Q (m o w).1 (m o w).2.

Variable I : disk -> Prop.

Lemma runs_ret {A} P (x : A) (Q : res A -> world -> Prop) : (forall w, P w -> Q (inr x) w) -> runs I P (mret x) Q.
Proof. intros HQ w Hw. exists []. split_and!; [done|by constructor|by apply HQ]. Qed.

Lemma runs_fail {A} P e (Q : res A -> world -> Prop) : (forall w, P w -> Q (inl e) w) -> runs I P (fail e) Q.
Proof. intros HQ w Hw. exists []. split_and!; [done|by constructor|by apply HQ]. Qed.

Lemma runs_weaken {A} (P P' : world -> Prop) (m : M A) (Q Q' : res A -> world -> Prop) :
  runs I P m Q -> (forall w, P' w -> P w) -> (forall r w, Q r w -> Q' r w) -> runs I P' m Q'.
Proof. intros Hm HP HQ w Hw. destruct (Hm w (HP w Hw)) as (t & ? & ? & ?). exists t. split_and!; [done..|by apply HQ]. Qed.

Lemma runs_bind {A B} P (m : M A) (k : A -> M B) (R : res A -> world -> Prop) Q :
  runs I P m R -> (forall e w, R (inl e) w -> Q (inl e) w) -> (forall x, runs I (R (inr x)) (k x) Q) ->
  runs I P (m ≫= k) Q.
Proof.
  intros Hm He Hk w Hw. destruct (Hm w Hw) as (t & Ht & HI & Hr). rewrite bind_run.
  destruct (m o w) as [[e|x] w1]; simpl in *; [exists t; split_and!; [done..|by apply He]|].
  destruct (Hk x w1 Hr) as (t' & Ht' & HI' & Hr'). exists (t' ++ t). rewrite Ht', Ht, app_assoc.
  split_and!; [done|by apply Forall_app|done].
Qed.

Lemma runs_attempt {A} P (m : M A) (Q : res A -> world -> Prop) :
  runs I P m Q -> runs I P (attempt m) (fun r w => match r with inl _ => False | inr r => Q r w end).
Proof. intros Hm w Hw. destruct (Hm w Hw) as (t & ?). unfold attempt. destruct (m o w). by exists t. Qed.

(** The tables are in [T], no transaction is open, and the disk is a tree in
    [P]. *)
Definition at_ (T : db -> Prop) (P : disk -> Prop) (w : world) : Prop :=
  w_tx w = None /\ T (w_db w) /\ tree (cur (dsk w)) /\ P (cur (dsk w)).

(** [T] outlives a quiet call. *)
Definition stable (T : db -> Prop) : Prop := forall d d', T d -> quiet d d' -> T d'.

Lemma at_weaken (T T' : db -> Prop) (P P' : disk -> Prop) w :
  at_ T P w -> (forall d, T d -> T' d) -> (forall d, tree d -> P d -> P' d) -> at_ T' P' w.
Proof. intros (? & ? & ? & ?) HT HP. unfold at_. auto. Qed.

(** A call that leaves the disk alone. *)
Lemma runs_quiet {A} T P (m : M A) : stable T -> always (keeps quiet) m -> runs I (at_ T P) m (fun _ => at_ T P).
Proof.
  intros HT Hm w (Htx & Hq & Ht & HP). destruct (Hm o w) as [_ Hdb Hnone _ Heng _].
  exists []. unfold at_, dsk. rewrite Heng. split_and!; [done|by constructor|by apply Hnone| |done..].
  eapply HT; [exact Hq|]. apply Hdb. unfold tx_ok. by rewrite Htx.
Qed.

Lemma runs_quietly {A B} T P (m : M A) (k : A -> M B) Q :
  stable T -> always (keeps quiet) m -> (forall e w, at_ T P w -> Q (inl e) w) -> (forall x, runs I (at_ T P) (k x) Q) ->
  runs I (at_ T P) (m ≫= k) Q.
Proof. intros HT Hm He Hk. eapply runs_bind; [by apply runs_quiet|done|done]. Qed.

(** A command on the disk. *)
Definition beside (u u' : Z * world) : Prop := keeps quiet u.2 u'.2.

#[global] Instance beside_pre : PreOrder beside.
Proof. split; [intros u; unfold beside; reflexivity|]. intros u v x; unfold beside. apply transitivity. Qed.

Lemma runs_on_disk {A} env T (P : disk -> Prop) (m : oracle -> D (Z * world) A) Q Er :
  stable T -> upholds env tree beside (m o) -> triple env I P (m o) Q Er ->
  runs (fun d => tree d /\ I d) (at_ T P) (on_disk env m)
    (fun r w => match r with inl _ => False | inr (inr x, _) => at_ T (Q x) w | inr (inl e, _) => at_ T (Er e) w end).
Proof.
  intros HT Hup Htr w (Htx & Hq & Ht & HP). unfold on_disk.
  set (s0 := State (tick (drive (w_eng w))) (cur (drive (w_eng w))) (past (drive (w_eng w))) (0, w)).
  destruct (Hup s0 Ht) as (t & Hpast & Htree & Hcl & Hu). destruct (Htr s0 HP) as (t' & Hpast' & HI & Hr).
  destruct (m o env s0) as [r s1] eqn:Hm. cbn [fst snd] in *.
  assert (t' = t) as ->. { rewrite Hpast in Hpast'. by apply app_inv_tail in Hpast'. }
  exists t. cbn [fst snd]. rewrite dsk_set.
  split_and!; [done|by apply Forall_and|].
  assert (Hat : forall P1 : disk -> Prop, P1 (cur s1) -> at_ T P1 (set_eng (set_drive (State (tick s1) (cur s1) (past s1) tt) (w_eng (user s1).2)) (user s1).2)).
  { intros P1 HP1. destruct Hu as [_ Hdb Hnone _ _ _]. split_and!; simpl.
    - by apply Hnone.
    - eapply HT; [exact Hq|]. apply Hdb. unfold tx_ok, s0. simpl. by rewrite Htx.
    - by rewrite dsk_set.
    - by rewrite dsk_set. }
  destruct r; by apply Hat.
Qed.

Lemma runs_disk_call {A B} env T (P : disk -> Prop) (m : D (Z * world) A) (k : errs + A -> M B) Q Er R :
  stable T -> upholds env tree beside m -> triple env I P m Q Er ->
  (forall e, runs (fun d => tree d /\ I d) (at_ T (Er e)) (k (inl e)) R) ->
  (forall x, runs (fun d => tree d /\ I d) (at_ T (Q x)) (k (inr x)) R) ->
  runs (fun d => tree d /\ I d) (at_ T P) (disk_call env m ≫= k) R.
Proof.
  intros HT Hup Htr He Hx w Hw. unfold disk_call.
  destruct (runs_on_disk env T P (fun _ => m) Q Er HT Hup Htr w Hw) as (t & Ht & HI & Hr).
  rewrite bind_run, bind_run. destruct (on_disk env (fun _ => m) o w) as [[?|[r z]] w1]; [done|].
  cbn [fst snd] in *. rewrite ret_run.
  assert (Hk : exists t', past (dsk (k r o w1).2) = t' ++ past (dsk w1) /\ Forall (fun d => tree d /\ I d) t' /\
    R (k r o w1).1 (k r o w1).2) by (destruct r; [by apply He|by apply Hx]).
  destruct Hk as (t' & Ht' & HI' & HR). exists (t' ++ t). rewrite Ht', Ht, app_assoc.
  split_and!; [done|by apply Forall_app|done].
Qed.
End Runs.

(** ** The handler *)

Section Handler.
Context {E : Type} `{!Drive E} (o : oracle) (env : answers) (decode : string -> option movePayload)
  (min_free_row : db -> option (option (gmap string Z))) (error_text : errs -> string)
  (same_file : path -> path -> bool) (roots : list string).
Abbreviation M := (M E).
Abbreviation world := (world E).
Context (c : path -> option entry) (taskID s_src s_dst : string).
Abbreviation src := (pathOf s_src).
Abbreviation dst := (pathOf s_dst).
Abbreviation holds := (holds c src dst).
Abbreviation at_dst := (at_dst c dst).
Hypothesis Hjob : job_ok c src dst.
Hypothesis Hleft : tree_left env.

(** Rows keep their content path, except that the job's may point to the
    destination. *)
Definition toward (d d' : db) : Prop := db_step d d' /\ forall id t', d_tasks d' !! id = Some t' ->
  exists t, d_tasks d !! id = Some t /\
    (t_content_path t' = t_content_path t \/ id = taskID /\ t_content_path t' = Some s_dst).

Lemma toward_quiet d0 : stable (toward d0).
Proof.
  intros d d' [Hs Hp] [Hs' Hp']. split; [by etransitivity|]. intros id t' (t & Ht & Heq)%Hp'.
  destruct (Hp id t Ht) as (u & ? & ?). exists u. split; [done|by rewrite Heq].
Qed.

Lemma quiet_quiet d0 : stable (quiet d0).
Proof. intros d d' Hd Hd'. by etransitivity. Qed.

Lemma quiet_toward d d' : quiet d d' -> toward d d'.
Proof. intros [Hs Hp]. split; [done|]. intros id t' (t & ? & ?)%Hp. exists t. split; [done|by left]. Qed.

(** How a run ends: the payload is kept, and a row was only redirected when
    the payload is at the destination. *)
Definition ended (d0 : db) (w : world) : Prop :=
  at_ (quiet d0) holds w \/ at_ (toward d0) (fun d => holds d /\ at_dst d) w.

Abbreviation instant := (fun d => tree d /\ holds d).

#[local] Hint Resolve quiet_UpdateProgress quiet_Transition quiet_SetErrorCode quiet_PauseWithCode quiet_Get
  quiet_destinationAdmits quiet_unless_answered quiet_pauseDiskFull quiet_of_res quiet_fail_move quiet_claim
  quiet_forwardProgress quiet_SameFilesystem toward_quiet quiet_quiet : dltool.

Lemma content_path_step p now id : stmt_keeps db_step (querySetMoveContentPath p now id).
Proof. apply update_where_ok. intros. upd_columns. Qed.

Lemma content_path_toward d0 now d d' k : quiet d0 d ->
  querySetMoveContentPath s_dst now taskID d = Some (d', k) -> toward d0 d'.
Proof.
  intros [Hs Hp] Hq. split; [etransitivity; [exact Hs|by eapply content_path_step]|].
  apply update_where_inv in Hq as [(-> & _)|(t & Ht & _ & _ & _ & ->)].
  - intros id t' (t & ? & ?)%Hp. exists t. split; [done|by left].
  - intros id t'. simpl. intros [[<- <-]|[_ Hu]]%lookup_insert_Some.
    + destruct (Hp taskID t Ht) as (u & ? & _). exists u. split; [done|by right].
    + destruct (Hp id t' Hu) as (u & ? & ?). exists u. split; [done|by left].
Qed.

Lemma redirect_rule d0 now I P :
  runs o I (at_ (quiet d0) P) (exec (E := E) (querySetMoveContentPath s_dst now taskID)) (fun _ => at_ (toward d0) P).
Proof.
  intros w (Htx & Hq & Ht & HP). exists [].
  destruct (keeps_exec_at db_step (querySetMoveContentPath s_dst now taskID) o w) as [_ _ Hnone _ Heng _].
  { intros d k. apply content_path_step. }
  unfold at_, dsk. rewrite Heng. split_and!; [done|by constructor|by apply Hnone| |done..].
  unfold exec, current, put_current. rewrite Htx. cbn [default].
  destruct (o_io o (w_n w)), (querySetMoveContentPath s_dst now taskID (w_db w)) as [[d' k]|] eqn:Hd;
    solve [by apply quiet_toward|by eapply content_path_toward].
Qed.

Lemma settle_rule d0 task :
  runs o instant (at_ (quiet d0) (fun d => holds d /\ at_dst d)) (settle (E := E) taskID task s_dst)
    (fun _ => ended d0).
Proof.
  assert (Hgo : forall T, stable T -> (forall d, T d -> toward d0 d) ->
    runs o instant (at_ T (fun d => holds d /\ at_dst d))
      (if bool_decide (t_state task <> StateMoving) then mret tt
       else r ← attempt (Transition taskID StateCompleted eventMoveCompleted "payload moved to destination");
            (unless_answered r : M unit)) (fun _ => ended d0)).
  { intros T HT Hto. eapply runs_weaken; [apply (runs_quiet o instant T (fun d => holds d /\ at_dst d) _ HT); walk|intros w Hw; exact Hw|].
    intros r w Hw. right. eapply at_weaken; [exact Hw|done|done]. }
  unfold settle. destruct (bool_decide (t_content_path task = Some s_dst)).
  - exact (Hgo (quiet d0) (quiet_quiet d0) (fun d => quiet_toward d0 d)).
  - eapply runs_bind with (R := fun _ => at_ (toward d0) (fun d => holds d /\ at_dst d));
      [|intros e w Hw; by right|intros _; apply Hgo; [apply toward_quiet|done]].
    eapply runs_quietly; [apply quiet_quiet|walk| |].
    + intros e w Hw. eapply at_weaken; [exact Hw|apply quiet_toward|done].
    + intros now. eapply runs_bind; [apply redirect_rule|done|]. intros k. by apply runs_ret.
Qed.

(** A command that touches neither the disk nor the content paths ends well. *)
Lemma quiet_rule d0 P (m : M unit) : (forall d, P d -> holds d) -> always (keeps quiet) m ->
  runs o instant (at_ (quiet d0) P) m (fun _ => ended d0).
Proof.
  intros HP Hm. eapply runs_weaken; [apply (runs_quiet o instant _ P _ (quiet_quiet d0) Hm)|done|].
  intros r w Hw. left. eapply at_weaken; [exact Hw|done|auto].
Qed.

Lemma done_rule d0 (P : disk -> Prop) (x : unit) : (forall d, P d -> holds d) ->
  runs o instant (at_ (quiet d0) P) (mret x : M unit) (fun _ => ended d0).
Proof. intros HP. apply runs_ret. intros w Hw. left. eapply at_weaken; [exact Hw|done|auto]. Qed.

Lemma fail_rule d0 (P : disk -> Prop) e : (forall d, P d -> holds d) ->
  runs o instant (at_ (quiet d0) P) (fail e : M unit) (fun _ => ended d0).
Proof. intros HP. apply runs_fail. intros w Hw. left. eapply at_weaken; [exact Hw|done|auto]. Qed.

Lemma onProgress_beside uploaded copied total u : beside (E := E) u (onProgress o taskID uploaded copied total u).
Proof. apply quiet_forwardProgress. Qed.

(** The destination is free on [d], and no fresh staging name is taken. *)
Definition startable (d : disk) : Prop := files d !! dst = None /\
  forall n, files d !! staging_of dst (bytes_of (o_id o n)) = None /\ staging_of dst (bytes_of (o_id o n)) <> dst.

Lemma relocate_as_rule d0 d1 ulid task :
  tree d1 -> holds d1 -> files d1 !! dst = None ->
  files d1 !! staging_of dst (bytes_of ulid) = None -> staging_of dst (bytes_of ulid) <> dst ->
  runs o instant (at_ (quiet d0) (fun d => d = d1)) (relocate_as env error_text ulid taskID task s_src s_dst)
    (fun _ => ended d0).
Proof.
  intros Ht Hh Hfree Hs1 Hs2. unfold relocate_as.
  eapply runs_bind.
  - apply (runs_on_disk _ _ _ _ _ _ (fun _ d => holds d /\ at_dst d) (fun _ d => holds d)); [apply quiet_quiet|..].
    + apply Move_upholds; [apply _|done|intros f n t x [= <-]; apply onProgress_beside|..];
        [by eapply src_nonempty|by eapply dst_nonempty].
    + apply Move_holds; [done|exact Ht|by apply (free_at_src c src dst)|done..].
  - done.
  - intros [[e|[]] last]; cbn [fst snd]; cbn zeta.
    + eapply (runs_disk_call o holds env (quiet d0) holds (ctx_over) _ (fun _ => holds) (fun _ => holds));
        [apply quiet_quiet|apply upholds_ctx; apply _|by apply triple_ctx|..].
      all: intros b; case_bool_decide; [by apply fail_rule|]; destruct (IsENOSPC e); apply quiet_rule; auto with dltool.
    + eapply runs_quietly; [apply quiet_quiet|destruct (0 <? last); walk| |intros _; apply settle_rule].
      intros e w Hw. left. eapply at_weaken; [exact Hw|done|by intros d _ [? _]].
Qed.

Lemma relocate_rule d0 task :
  runs o instant (at_ (quiet d0) (fun d => holds d /\ startable d))
    (relocate env error_text taskID task s_src s_dst) (fun _ => ended d0).
Proof.
  intros w (Htx & Hq & Ht & Hh & Hfree & Hstage). destruct (Hstage (w_n w)) as [Hs1 Hs2].
  exact (relocate_as_rule d0 (cur (dsk w)) (EmptyString +:+ o_id o (w_n w)) task Ht Hh Hfree Hs1 Hs2 (bump w)
    (conj Htx (conj Hq (conj Ht eq_refl)))).
Qed.

(** Fixes what is on the disk. *)
Lemma at_files {A} T P (m : M A) Q :
  (forall f0, closed f0 -> (forall d, files d = f0 -> P d) -> runs o instant (at_ T (fun d => files d = f0)) m Q) ->
  (forall d d', files d = files d' -> P d -> P d') ->
  runs o instant (at_ T P) m Q.
Proof.
  intros Hm HP w (? & ? & Ht & Hw). eapply (Hm (files (cur (dsk w)))); [done| |by split_and!].
  intros d Hd. by eapply HP.
Qed.

Lemma holds_files d d' : files d = files d' -> holds d -> holds d'.
Proof. intros Heq. unfold MoveHandlerProps.holds, at_src, MoveHandlerProps.at_dst. by rewrite Heq. Qed.

(** A reading command on the disk. *)
Lemma upholds_triple {X A} (I : disk -> Prop) (m : D X A) :
  upholds env I (fun _ _ => True) m -> triple env I I m (fun _ => I) (fun _ => I).
Proof. intros Hm s Hs. destruct (Hm s Hs) as (t & ? & ? & ? & _). exists t. split_and!; [done..|]. by destruct (m env s) as [[?|?] ?]. Qed.

Lemma transfer_rule d0 task :
  runs o instant (at_ (quiet d0) (fun d => holds d /\ startable d))
    (transfer env min_free_row error_text roots taskID task s_src s_dst) (fun _ => ended d0).
Proof.
  assert (Hh : forall d, holds d /\ startable d -> holds d) by by intros d [? _].
  unfold transfer. eapply runs_quietly; [apply quiet_quiet|walk|intros e w Hw; left; by eapply at_weaken; [exact Hw|..]; auto|].
  intros same. case_bool_decide; [|apply relocate_rule].
  eapply (runs_disk_call o holds env (quiet d0) _ (dirSizeBytes src) _ (fun _ d => holds d /\ startable d)
    (fun _ d => holds d /\ startable d)); [apply quiet_quiet|unfold dirSizeBytes; uphold|..].
  - eapply triple_instants; [exact Hh|]. apply upholds_triple.
    assert (PreOrder (fun _ _ : Z * world => True)) by done. unfold dirSizeBytes. uphold.
  - intros e. apply quiet_rule; auto with dltool.
  - intros total. eapply runs_quietly; [apply quiet_quiet|walk|intros e w Hw; left; by eapply at_weaken; [exact Hw|..]; auto|].
    intros []; [apply relocate_rule|]. apply quiet_rule; auto with dltool.
Qed.

Lemma collide_rule d0 task f0 e e' : closed f0 -> (forall d, files d = f0 -> holds d) ->
  f0 !! src = Some e -> f0 !! dst = Some e' ->
  runs o instant (at_ (quiet d0) (fun d => files d = f0))
    (collide env same_file taskID task s_src s_dst e e') (fun _ => ended d0).
Proof.
  intros Hc Hh He He'. unfold collide.
  eapply (runs_disk_call o holds env (quiet d0) _ (samePayload e e' src dst) _
    (fun b d => files d = f0 /\ (b = true -> alike f0 src dst)) (fun _ d => files d = f0));
    [apply quiet_quiet|unfold samePayload, sameExtractedTree, containedInTree, contained_entry; uphold|..].
  - eapply triple_instants; [exact Hh|]. by apply samePayload_rule.
  - intros err. by apply fail_rule.
  - intros []; [|apply quiet_rule; [by intros d [? _]; auto|auto with dltool]].
    assert (Hat : forall d, files d = f0 /\ (true = true -> alike f0 src dst) -> holds d /\ at_dst d).
    { intros d [Hd Hal]. specialize (Hal eq_refl). split; [by apply Hh|].
      rewrite <- Hd in Hal, Hc. eapply alike_at_dst; [exact Hc|by apply Hh|exact Hal]. }
    eapply runs_weaken with (P := at_ (quiet d0) (fun d => holds d /\ at_dst d));
      [|intros w Hw; eapply at_weaken; [exact Hw|done|by intros d _; apply Hat]|intros r w Hw; exact Hw].
    destruct (same_file src dst); [apply settle_rule|].
    eapply (runs_disk_call o holds env (quiet d0) _ (RemoveAll src)); [apply quiet_quiet| |by apply remove_rule|..].
    + apply upholds_RemoveAll; [apply _|done|by eapply src_nonempty].
    + intros err. by apply fail_rule.
    + intros u. apply settle_rule.
Qed.

Lemma at_pure {A} T P (H : Prop) (m : M A) Q : (forall d, P d -> H) ->
  (H -> runs o instant (at_ T P) m Q) -> runs o instant (at_ T P) m Q.
Proof. intros HP Hm w Hw. apply Hm; [|done]. by apply (HP (cur (dsk w))), Hw. Qed.

(** What [Stat] of a place that holds no link has seen. *)
Definition seen (f0 : fs) (p : path) (r : errs + entry) : Prop :=
  match r with inr e => f0 !! p = Some e | inl e => NotExist ∈ e -> f0 !! p = None end.

Lemma stat_rule f0 p T k Q : (forall d, files d = f0 -> holds d) -> f0 !! p <> Some Symlink -> stable T ->
  (forall r, seen f0 p r -> runs o instant (at_ T (fun d => files d = f0)) (k r) Q) ->
  runs o instant (at_ T (fun d => files d = f0)) (disk_call env (Stat p) ≫= k : M unit) Q.
Proof.
  intros Hh Hlink HT Hk.
  eapply (runs_disk_call o holds env T _ (Stat p) _ (fun e d => files d = f0 /\ seen f0 p (inr e))
    (fun e d => files d = f0 /\ seen f0 p (inl e))); [done|unfold Stat; uphold|..].
  - eapply triple_instants; [exact Hh|]. apply triple_pure_call; [done|..].
    + intros n d e Hd _. split; [done|]. simpl. intros Hin. apply list_elem_of_singleton in Hin. done.
    + intros n d Hd. rewrite Hd. unfold seen. destruct (f0 !! p) as [[]|] eqn:Hp; simpl; by try done.
  - intros e. apply (at_pure _ _ (seen f0 p (inl e))); [by intros d [_ ?]|]. intros Hs.
    intros w Hw. apply (Hk _ Hs). eapply at_weaken; [exact Hw|done|by intros d _ [? _]].
  - intros e. apply (at_pure _ _ (seen f0 p (inr e))); [by intros d [_ ?]|]. intros Hs.
    intros w Hw. apply (Hk _ Hs). eapply at_weaken; [exact Hw|done|by intros d _ [? _]].
Qed.

Lemma no_link d p : holds d -> p = src \/ p = dst -> files d !! p <> Some Symlink.
Proof.
  intros (Hs & Hd & _) Hp Hl. assert (Hc : c [] = Some Symlink).
  { destruct Hp as [-> | ->]; [apply Hs|apply Hd]; by rewrite app_nil_r. }
  pose proof (jo_plain _ _ _ Hjob) as Hk. by rewrite Hc in Hk.
Qed.

(** No fresh staging name is taken. *)
Definition fresh (d : disk) : Prop :=
  forall n, files d !! staging_of dst (bytes_of (o_id o n)) = None /\ staging_of dst (bytes_of (o_id o n)) <> dst.

Lemma move_task_rule d0 task :
  runs o instant (at_ (quiet d0) (fun d => holds d /\ fresh d))
    (move_task env min_free_row error_text same_file roots taskID task s_src s_dst) (fun _ => ended d0).
Proof.
  apply at_files.
  2: { intros d d' Heq [? Hf]. split; [by eapply holds_files|]. intros n. rewrite <- Heq. apply Hf. }
  intros f0 Hc HP. assert (Hh : forall d, files d = f0 -> holds d) by (intros d Hd; by apply HP).
  assert (Hlink : forall p, p = src \/ p = dst -> f0 !! p <> Some Symlink).
  { intros p Hp. apply (no_link (MkDisk f0 ∅ ∅) p); [by apply Hh|done]. }
  unfold move_task. apply stat_rule; [done|by apply Hlink; left|apply quiet_quiet|]. intros srcInfo Hsrc.
  apply stat_rule; [done|by apply Hlink; right|apply quiet_quiet|]. intros dstInfo Hdst.
  destruct (missing srcInfo && exists_ dstInfo) eqn:Hrecover.
  { apply andb_prop in Hrecover as [Hm _]. destruct srcInfo as [e|]; [|done]. apply bool_decide_eq_true in Hm.
    eapply runs_weaken; [apply settle_rule| |intros r w Hw; exact Hw].
    intros w Hw. eapply at_weaken; [exact Hw|done|]. intros d _ Hd. split; [by apply Hh|].
    eapply vacant_at_dst; [exact Hjob|by apply Hh|]. rewrite Hd. by apply Hsrc. }
  destruct (negb (exists_ srcInfo) && negb (missing srcInfo)) eqn:Hs1; [by apply fail_rule|].
  destruct (negb (exists_ dstInfo) && negb (missing dstInfo)) eqn:Hs2; [by apply fail_rule|].
  case_bool_decide; [by apply done_rule|].
  eapply runs_quietly; [apply quiet_quiet|walk|intros e w Hw; left; eapply at_weaken; [exact Hw|done|auto]|].
  intros []; simpl; [|by apply done_rule].
  destruct dstInfo as [e'|e'].
  - assert (Hgo : runs o instant (at_ (quiet d0) (fun d => files d = f0))
      (transfer env min_free_row error_text roots taskID (set_state StateMoving task) s_src s_dst) (fun _ => ended d0));
      [|by destruct srcInfo].
    eapply runs_weaken; [apply transfer_rule| |intros r w Hw; exact Hw].
    intros w Hw. eapply at_weaken; [exact Hw|done|]. intros d _ Hd. destruct (HP d Hd) as [? Hf]. split; [done|].
    split; [|exact Hf]. rewrite Hd. apply Hdst. apply negb_false_iff in Hs2. by apply bool_decide_eq_true in Hs2.
  - destruct srcInfo as [e|e]; simpl in *; [|by apply collide_rule].
    rewrite andb_true_r in Hrecover. by rewrite Hrecover in Hs1.
Qed.

Lemma Handle_rule d0 job : decode (PayloadJSON job) = Some (MkPayload taskID s_src s_dst) -> taskID <> EmptyString ->
  runs o instant (at_ (quiet d0) (fun d => holds d /\ fresh d))
    (Handle env decode min_free_row error_text same_file roots job) (fun _ => ended d0).
Proof.
  intros Hdec Hid. assert (Hh : forall d, holds d /\ fresh d -> holds d) by by intros d [? _].
  unfold Handle. rewrite Hdec. rewrite (bool_decide_eq_false_2 (taskID = _)) by done.
  destruct (_ || _ || _); [by apply fail_rule|].
  eapply runs_quietly; [apply quiet_quiet|walk|intros e w Hw; left; eapply at_weaken; [exact Hw|done|auto]|].
  intros [e|task]; [destruct (errors_is e ErrNotFound); [by apply done_rule|by apply fail_rule]|].
  destruct (negb _); [by apply done_rule|]. destruct (bool_decide (s_src = s_dst)); [by apply done_rule|].
  apply move_task_rule.
Qed.
End Handler.

(** The codes the failure path records are in the vocabulary, so recording
    one never panics. *)
Lemma moveErrorCode_known e : contains taskErrorCodes (moveErrorCode e) = true.
Proof. unfold moveErrorCode. repeat case_match; by vm_compute. Qed.
