(* ===== verification/MoveHandlerTheorems.v ===== *)
(** * The move job: its theorems, and runs that show its limits

    The rules of [MoveHandlerProps] put together, histories of attempts, and
    concrete runs over the small disk of [MoveProps]. *)

From stdpp Require Import gmap.
From S2P Require Import Prelude GoStrings TaskState Schema Lease World Frame Fsx SafePath SafeJoin Manifest Disk DiskProps Move MoveProps Jobs Store StoreProps MoveHandler MoveHandlerProps Scenario.

Open Scope Z_scope.

(** ** The theorems *)

Section Theorems.
Context {E : Type} `{!Drive E} (decode : string -> option movePayload)
  (min_free_row : db -> option (option (gmap string Z))) (error_text : errs -> string)
  (same_file : path -> path -> bool) (roots : list string).
Abbreviation world := (world E).

(** C10: As long as neither end holds anything foreign when the run starts ([holds]:
    each end is part of the payload and one is the whole), neither path is below
    the other and the staging names are unused, then whatever the driver, the
    disk, the file systems and the context answer, a run of the move job keeps
    the payload whole at one of the ends at every instant, keeps the store's
    guarantees, and points the row at the destination only when the payload is
    whole there (as it was, or copied without links and special files). *)
Theorem Handle_follows_payload (o : oracle) env job c taskID s_src s_dst (w : world) :
  decode (PayloadJSON job) = Some (MkPayload taskID s_src s_dst) -> taskID <> EmptyString ->
  job_ok c (pathOf s_src) (pathOf s_dst) -> tree_left env -> w_tx w = None ->
  tree (cur (dsk w)) -> holds c (pathOf s_src) (pathOf s_dst) (cur (dsk w)) -> fresh o s_dst (cur (dsk w)) ->
  let w' := (Handle env decode min_free_row error_text same_file roots job o w).2 in
  (exists trace, past (dsk w') = trace ++ past (dsk w) /\
     Forall (fun d => tree d /\ holds c (pathOf s_src) (pathOf s_dst) d) trace) /\
  tree (cur (dsk w')) /\ holds c (pathOf s_src) (pathOf s_dst) (cur (dsk w')) /\
  db_step (w_db w) (w_db w') /\
  forall id t', d_tasks (w_db w') !! id = Some t' -> exists t, d_tasks (w_db w) !! id = Some t /\
    (t_content_path t' = t_content_path t \/
     id = taskID /\ t_content_path t' = Some s_dst /\ at_dst c (pathOf s_dst) (cur (dsk w'))).
Proof.
  intros Hdec Hid Hjob Hleft Htx Ht Hh Hf w'.
  destruct (Handle_rule o env decode min_free_row error_text same_file roots c taskID s_src s_dst Hjob Hleft (w_db w)
    job Hdec Hid w) as (trace & Hp & HI & Hend); [by split_and!|].
  split; [by exists trace|]. destruct Hend as [(_ & [Hs Hq] & Ht' & Hh')|(_ & [Hs Hq] & Ht' & Hh' & Hat)];
    split_and!; try done; intros id t' (t & Hl & Hc)%Hq; exists t; split; try done; [by left|].
  destruct Hc as [Hc|[? ?]]; [by left|by right].
Qed.

(** A history of attempts at one job: each runs over any tables, driver and
    environment, from the disk the one before left - when it ended, or at the
    instant the process died. *)
Inductive attempts (s_src s_dst : string) (d : disk) : disk -> Prop :=
  | no_attempt : attempts s_src s_dst d d
  | attempt_again o env job taskID (w : world) d' trace :
      attempts s_src s_dst d (cur (dsk w)) -> w_tx w = None -> tree_left env -> fresh o s_dst (cur (dsk w)) ->
      decode (PayloadJSON job) = Some (MkPayload taskID s_src s_dst) -> taskID <> EmptyString ->
      let w' := (Handle env decode min_free_row error_text same_file roots job o w).2 in
      past (dsk w') = trace ++ past (dsk w) -> d' ∈ trace \/ d' = cur (dsk w') ->
      attempts s_src s_dst d d'.

Lemma attempts_hold s_src s_dst d d' c : job_ok c (pathOf s_src) (pathOf s_dst) -> tree d ->
  holds c (pathOf s_src) (pathOf s_dst) d -> attempts s_src s_dst d d' ->
  tree d' /\ holds c (pathOf s_src) (pathOf s_dst) d'.
Proof.
  intros Hjob Ht Hh Hrun. induction Hrun as [|o env job taskID w d' trace _ [IHt IHh] Htx Hleft Hf Hdec Hid w' Hp Hd']; [done|].
  destruct (Handle_rule o env decode min_free_row error_text same_file roots c taskID s_src s_dst Hjob Hleft (w_db w)
    job Hdec Hid w) as (trace' & Hp' & HI & Hend); [by split_and!|].
  assert (trace' = trace) as ->. { subst w'. rewrite Hp in Hp'. by apply app_inv_tail in Hp'. }
  destruct Hd' as [Hd'| ->]; [by apply (proj1 (list.Forall_forall _ _) HI)|].
  by destruct Hend as [(_ & _ & ? & ?)|(_ & _ & ? & ? & _)].
Qed.

(** C8: Starting from a payload - a file or a directory - at the source and nothing
    at the destination (no foreign file, neither path below the other), with
    nothing but the job writing to the two places and its staging names unused,
    and however often the move job is retried after failures and crashes, the
    payload is whole at the source or at the destination (a copy leaves links
    and special files behind), and neither place holds any byte that is not
    the payload's. *)
Theorem retries_lose_nothing s_src s_dst d d' :
  tree d -> is_Some (files d !! pathOf s_src) -> kept (files d !! pathOf s_src) = files d !! pathOf s_src ->
  ~ below (pathOf s_src) (pathOf s_dst) -> ~ below (pathOf s_dst) (pathOf s_src) ->
  files d !! pathOf s_dst = None -> attempts s_src s_dst d d' ->
  holds (fun r => files d !! (pathOf s_src ++ r)) (pathOf s_src) (pathOf s_dst) d'.
Proof.
  intros Ht Hs Hk Hin Hout Hfree Hrun. eapply attempts_hold; [| |..|exact Hrun]; [|done|].
  - split; rewrite ?app_nil_r; done.
  - split_and!; [done| |by left]. intros r e. rewrite (closed_absent _ (pathOf s_dst)); [done..|apply below_app|done].
Qed.
End Theorems.

(** ** A small machine *)

#[global] Instance demo_drive : Drive (state unit) := {|
  drive := fun s => s; set_drive := fun s _ => s; drive_set := fun _ _ => eq_refl |}.

(** A completed task whose payload is [/d/p], to be moved to [/m/p]. *)
Definition demo_job : Job := MkJob "move" None EmptyString JobRunning 1 5 0 None None 0 0.
Definition demo_decode (_ : string) : option movePayload := Some (MkPayload "a" "/d/p" "/m/p").
Definition demo_row : task := set_content_path (Some "/d/p"%string) (http_task StateCompleted 1).
Definition demo_world (f : fs) : world (state unit) :=
  World (tables_of [("a"%string, demo_row)]) None 0 None false [] Lease.NewRegistry (State 0 (MkDisk f ∅ ∅) [] tt).
Definition demo_run (env : answers) (w : world (state unit)) : res unit * world (state unit) :=
  Handle env demo_decode (fun _ => None) (fun _ => EmptyString) (fun _ _ => false) ["/m"%string] demo_job healthy w.

Lemma demo_fresh : fresh healthy "/m/p" (cur (dsk (demo_world demo_fs))).
Proof.
  intros n. change (pathOf "/m/p") with demo_dst. unfold staging_of. generalize (bytes_of (o_id healthy n)). intros x.
  change (dir_of demo_dst) with (elems ["m"%string]). split; [|done]. simpl. unfold demo_fs. simpl.
  by rewrite !lookup_insert_ne.
Qed.

Lemma demo_apart : ~ below (pathOf "/d/p") (pathOf "/m/p") /\ ~ below (pathOf "/m/p") (pathOf "/d/p").
Proof. by split; apply (bool_decide_unpack _); vm_compute. Qed.

Lemma demo_tree : tree (cur (dsk (demo_world demo_fs))).
Proof. by apply closedb_closed; vm_compute. Qed.

Lemma left_nothing faults : tree_left (demo_env faults (fun _ => false)).
Proof. done. Qed.

(** The payload of the small disk. *)
Definition demo_payload (r : path) : option entry := demo_fs !! (pathOf "/d/p" ++ r).

Lemma demo_job_ok : job_ok demo_payload (pathOf "/d/p") (pathOf "/m/p").
Proof. split; [by vm_compute; eexists|by vm_compute|apply demo_apart|apply demo_apart]. Qed.

Lemma demo_holds : holds demo_payload (pathOf "/d/p") (pathOf "/m/p") (cur (dsk (demo_world demo_fs))).
Proof.
  split_and!; [done| |by left]. intros r e. change (files (cur (dsk (demo_world demo_fs)))) with demo_fs.
  rewrite (closed_absent _ (pathOf "/m/p")); [done|exact demo_tree|apply below_app|by vm_compute].
Qed.

Lemma Handle_follows_payload_witness :
  let w' := (demo_run (demo_env [(2%nat, EXDEV)] (fun _ => false)) (demo_world demo_fs)).2 in
  t_content_path <$> d_tasks (w_db w') !! "a"%string = Some (Some "/m/p"%string) /\
  at_dst demo_payload (pathOf "/m/p") (cur (dsk w')).
Proof.
  cbn zeta. set (env := demo_env _ _).
  destruct (Handle_follows_payload demo_decode (fun _ => None) (fun _ => EmptyString) (fun _ _ => false) ["/m"%string]
    healthy env demo_job demo_payload "a" "/d/p" "/m/p" (demo_world demo_fs) eq_refl ltac:(done) demo_job_ok
    (left_nothing _) eq_refl demo_tree demo_holds demo_fresh) as (_ & _ & _ & _ & Hpath).
  assert (Hcp : t_content_path <$> d_tasks (w_db (demo_run env (demo_world demo_fs)).2) !! "a"%string = Some (Some "/m/p"%string))
    by by vm_compute.
  split; [exact Hcp|]. unfold demo_run in *.
  destruct (d_tasks _ !! "a"%string) as [t'|] eqn:Ht; [|done].
  destruct (Hpath "a"%string t' Ht) as (t & Hl & [Heq|(_ & _ & ?)]); [|done].
  exfalso. change (w_db (demo_world demo_fs)) with (tables_of [("a"%string, demo_row)]) in Hl.
  assert (t = demo_row) as -> by (vm_compute in Hl |- *; congruence). injection Hcp as Hcp. rewrite Heq in Hcp. by vm_compute in Hcp.
Defined.

Lemma retries_lose_nothing_witness :
  let d := cur (dsk (demo_world demo_fs)) in
  let d' := cur (dsk (demo_run (demo_env [(2%nat, EXDEV); (48%nat, EIO)] (fun _ => false)) (demo_world demo_fs)).2) in
  tree d /\ holds (fun r => files d !! (pathOf "/d/p" ++ r)) (pathOf "/d/p") (pathOf "/m/p") d'.
Proof.
  cbn zeta. set (env := demo_env _ _). split; [exact demo_tree|].
  apply (retries_lose_nothing (E := state unit) demo_decode (fun _ => None) (fun _ => EmptyString) (fun _ _ => false) ["/m"%string]
    "/d/p" "/m/p" (cur (dsk (demo_world demo_fs)))); [exact demo_tree|by vm_compute; eexists|by vm_compute|
    apply demo_apart|apply demo_apart|by vm_compute|].
  eapply (attempt_again _ _ _ _ _ _ _ _ healthy env demo_job "a" (demo_world demo_fs)); [apply no_attempt|done| |exact demo_fresh|done|done| |by right].
  - apply left_nothing.
  - cbn zeta. unfold dsk at 2. simpl past at 2. by rewrite app_nil_r.
Defined.

(** The rows of a world. *)
Definition row_of (w : world (state unit)) : option (TaskState * option string) :=
  (fun t => (t_state t, t_content_path t)) <$> d_tasks (w_db w) !! "a"%string.

(** The machine restarted on a disk, its row still in moving. *)
Definition restarted (d : disk) : world (state unit) :=
  World (tables_of [("a"%string, set_state StateMoving demo_row)]) None 0 None false [] Lease.NewRegistry (State 0 d [] tt).

(** The run that dies at its [n]-th call. *)
Definition dying (n : nat) (left_over : path -> bool) : option disk :=
  reverse (past (dsk (demo_run (demo_env [(2%nat, EXDEV)] left_over) (demo_world demo_fs)).2)) !! n.

(** An undisturbed run copies the payload and completes the row. *)
Example move_completes :
  let (r, w) := demo_run (demo_env [(2%nat, EXDEV)] (fun _ => false)) (demo_world demo_fs) in
  bool_decide (r = inr tt /\ row_of w = Some (StateCompleted, Some "/m/p"%string) /\
    files (cur (dsk w)) !! elems ["m"; "p"; "a"]%string = Some (Regular [1; 2; 3]) /\
    files (cur (dsk w)) !! demo_src = None) = true.
Proof. by vm_compute. Qed.

(** A process that dies between the rename and the sync of its directory: the
    next attempt removes the source although the destination's name is not
    durable yet. *)
Example rerun_skips_the_sync :
  let after := (fun d => (demo_run (demo_env [] (fun _ => false)) (restarted d)).2) <$> dying 47 (fun _ => false) in
  bool_decide ((row_of <$> after) = Some (Some (StateCompleted, Some "/m/p"%string)) /\
    ((fun w => files (cur (dsk w)) !! demo_src) <$> after) = Some None /\
    ((fun w => bool_decide (demo_dst ∈ wet_name (cur (dsk w)))) <$> after) = Some true) = true.
Proof. by vm_compute. Qed.

(** A process that dies while the source is removed: the next attempt finds
    the whole payload at the destination and reports a collision. *)
Example rerun_fails_after_part_removal :
  let part := dying 51 (fun p => bool_decide (p <> elems ["d"; "p"; "a"]%string)) in
  let after := (fun d => (demo_run (demo_env [] (fun _ => false)) (restarted d)).2) <$> part in
  bool_decide (((fun d => files d !! elems ["m"; "p"; "a"]%string) <$> part) = Some (Some (Regular [1; 2; 3])) /\
    (row_of <$> after) = Some (Some (StateError, Some "/d/p"%string))) = true.
Proof. by vm_compute. Qed.

(** A file of the payload's size at the destination is taken for the payload:
    the source is removed and its bytes are gone. *)
Example equal_size_is_taken_for_the_payload :
  let f := <[elems ["m"; "p"]%string := Regular [9]]> (list_to_map
    [(elems [], Directory); (elems ["d"%string], Directory); (elems ["m"%string], Directory);
     (elems ["d"; "p"]%string, Regular [4])]) : fs in
  let (r, w) := demo_run (demo_env [] (fun _ => false)) (demo_world f) in
  bool_decide (r = inr tt /\ row_of w = Some (StateCompleted, Some "/m/p"%string) /\
    files (cur (dsk w)) !! demo_src = None /\ files (cur (dsk w)) !! demo_dst = Some (Regular [9])) = true.
Proof. by vm_compute. Qed.
