(* ===== verification/Archive.v ===== *)
(** * What an archive declares ([internal/jobs/handlers_extract.go], pass 1)

    The listing of [7zz l -slt] is read into members, and the members are
    held against the caps, the name rules and the declared modes before
    anything is written.  Text is bytes, as everywhere in the path code. *)

From S2P Require Import Prelude GoStrings SafePath SafeJoin.

Open Scope Z_scope.

Inductive archive_err :=
  | ErrInvalidArchive | ErrCapExceeded | ErrWrongPassword | ErrDiskFull | ErrExtractor.

#[global] Instance archive_err_eq_dec : EqDecision archive_err.
Proof. solve_decision. Defined.

Definition defaultMemberCount : Z := 10000.
Definition defaultSingleMemberBytes : Z := Z.shiftl 4 30.
Definition defaultMemberDepth : Z := 32.
Definition maxTotalUncompressed : Z := Z.shiftl 20 30.
Definition totalUncompressedFactor : Z := 10.
Definition parseMemberBound : Z := defaultMemberCount * 10.
Definition maxMemberLineBytes : Z := Z.shiftl 1 20.

(** [Caps], but for the wall clock. *)
Record Caps := MkCaps {
  TotalUncompressedBytes : Z; MemberCount : Z; SingleMemberBytes : Z; Depth : Z }.

(** [withDefaults]. *)
Definition withDefaults (c : Caps) (archiveSize : Z) : Caps :=
  let or (v d : Z) := if v =? 0 then d else v in
  MkCaps
    (if TotalUncompressedBytes c =? 0 then
       let t := wrap64 (archiveSize * totalUncompressedFactor) in
       if maxTotalUncompressed <? t then maxTotalUncompressed else t
     else TotalUncompressedBytes c)
    (or (MemberCount c) defaultMemberCount) (or (SingleMemberBytes c) defaultSingleMemberBytes)
    (or (Depth c) defaultMemberDepth).

(** [Member]. *)
Record Member := MkMember { Path : list Z; Size : Z; Attributes : list Z }.

(** ** Text helpers of the Go library *)

(** [strings.Cut] at the first occurrence of a separator. *)
Fixpoint cut (sep l : list Z) : option (list Z * list Z) :=
  match strip_prefix sep l with
  | Some rest => Some ([], rest)
  | None =>
    match l with
    | [] => None
    | b :: l => match cut sep l with Some (p, q) => Some (b :: p, q) | None => None end
    end
  end.

(** [strings.Contains]. *)
Definition Contains (l sep : list Z) : bool := match cut sep l with Some _ => true | None => false end.

(** [strings.FieldsFunc] for separators among the ASCII bytes; [word] is the
    field being read. *)
Fixpoint fields_by (sep : Z -> bool) (word l : list Z) : list (list Z) :=
  let flush rest := match word with [] => rest | _ => word :: rest end in
  match l with
  | [] => flush []
  | b :: l => if sep b then flush (fields_by sep [] l) else fields_by sep (word ++ [b]) l
  end.

(** [strings.Fields]; every round of the loop eats at least one byte, so the
    length is enough fuel. *)
Fixpoint fields (fuel : nat) (word l : list Z) : list (list Z) :=
  let flush rest := match word with [] => rest | _ => word :: rest end in
  match fuel with
  | O => flush []
  | S fuel =>
    match strip_space false l with
    | Some l => flush (fields fuel [] l)
    | None =>
      match l with
      | [] => flush []
      | b :: l => fields fuel (word ++ [b]) l
      end
    end
  end.
Definition Fields (l : list Z) : list (list Z) := fields (S (length l)) [] l.

(** [bufio.ScanLines]: a line loses its break and one carriage return, and
    an empty rest is no line. *)
Fixpoint raw_lines (acc l : list Z) : list (list Z) :=
  match l with
  | [] => match acc with [] => [] | _ => [acc] end
  | b :: l => if b =? 10 then acc :: raw_lines [] l else raw_lines (acc ++ [b]) l
  end.
Definition drop_cr (l : list Z) : list Z :=
  match reverse l with 13 :: rest => reverse rest | _ => l end.

(** ** The listing *)

Definition unixModeLink : list Z := bytes_of "lrwxrwxrwx".
Definition kv_sep : list Z := bytes_of " = ".

(** The variables of [parseMembers]. *)
Record parser := MkParser { members : list Member; member : option Member; link : bool }.

(** The closure [flush]. *)
Definition flush (p : parser) : parser :=
  match member p with
  | None => p
  | Some m =>
    let m := if link p then MkMember (Path m) (Size m) (TrimSpace (Attributes m ++ [32] ++ unixModeLink)) else m in
    MkParser (members p ++ [m]) None false
  end.

Definition parse_key (key value : list Z) (m : Member) (p : parser) : archive_err + parser :=
  if bool_decide (key = bytes_of "Size") then
    let trimmed := TrimSpace value in
    if bool_decide (trimmed = []) then inr p
    else match ParseInt trimmed with
         | Some size =>
           if size <? 0 then inl ErrInvalidArchive
           else inr (MkParser (members p) (Some (MkMember (Path m) size (Attributes m))) (link p))
         | None => inl ErrInvalidArchive
         end
  else if bool_decide (key = bytes_of "Attributes") || bool_decide (key = bytes_of "Mode") then
    inr (MkParser (members p) (Some (MkMember (Path m) (Size m) (TrimSpace (Attributes m ++ [32] ++ value)))) (link p))
  else if contains [bytes_of "Symbolic Link"; bytes_of "Hard Link"; bytes_of "Copy Link"] key then
    let v := TrimSpace value in
    inr (if bool_decide (v <> []) && bool_decide (v <> [45])
         then MkParser (members p) (member p) true else p)
  else inr p.

(** One line of the loop. *)
Definition parse_line (raw : list Z) (p : parser) : archive_err + parser :=
  if maxMemberLineBytes <=? Z.of_nat (length raw) then inl ErrInvalidArchive
  else
    let line := TrimRight (drop_cr raw) [13; 10] in
    if bool_decide (line = []) then inr (flush p)
    else match cut kv_sep line with
    | None => inr p
    | Some (key, value) =>
      if bool_decide (key = bytes_of "Path") then
        let p := flush p in
        if parseMemberBound <? Z.of_nat (length (members p)) + 1 then inl ErrCapExceeded
        else inr (MkParser (members p) (Some (MkMember value 0 [])) false)
      else match member p with
      | None => inr p
      | Some m => parse_key key value m p
      end
    end.

Fixpoint parse_lines (raw : list (list Z)) (p : parser) : archive_err + parser :=
  match raw with
  | [] => inr p
  | line :: raw => match parse_line line p with inl e => inl e | inr p => parse_lines raw p end
  end.

(** [parseMembers]. *)
Definition parseMembers (out : list Z) : archive_err + list Member :=
  match parse_lines (raw_lines [] out) (MkParser [] None false) with
  | inl e => inl e
  | inr p => inr (members (flush p))
  end.

(** ** The rules *)

(** [memberHostile]. *)
Definition kinds : list Z := bytes_of "-dlpscbh".
Definition at_byte (l : list Z) (i : nat) : Z := default 0 (l !! i).
Definition hostile_field (field : list Z) : bool :=
  if negb (bool_decide (length field = 10%nat)) || negb (contains kinds (at_byte field 0)) then false
  else if negb (contains [45; 100] (at_byte field 0)) then true
  else contains [115; 83] (at_byte field 3) || contains [115; 83] (at_byte field 6).
Definition memberHostile (attributes : list Z) : bool := existsb hostile_field (Fields attributes).

Section Rules.
Context `{!UnicodeTables} (NFC : list Z -> list Z).

Definition path_separator (b : Z) : bool := (b =? 47) || (b =? 92).

(** The segments of [validateMemberName]: how many count. *)
Fixpoint count_segments (segments : list (list Z)) (depth : Z) : option Z :=
  match segments with
  | [] => Some depth
  | s :: segments =>
    if bool_decide (s = []) || bool_decide (s = [46]) then count_segments segments depth
    else if bool_decide (s = dotdot) then None
    else if bool_decide (SanitiseSegment NFC s <> s) then None
    else count_segments segments (depth + 1)
  end.

(** [validateMemberName]: whether the name is accepted. *)
Definition validateMemberName (name : list Z) (caps : Caps) : bool :=
  if bool_decide (name = []) || IsAbs name then false
  else match count_segments (fields_by path_separator [] name) 0 with
       | Some depth => negb ((depth =? 0) || (Depth caps <? depth))
       | None => false
       end.

(** The loop of [validate]. *)
Fixpoint validate_from (total : Z) (members : list Member) (caps : Caps) : option archive_err :=
  match members with
  | [] => None
  | m :: members =>
    if negb (validateMemberName (Path m) caps) then Some ErrInvalidArchive
    else if memberHostile (Attributes m) then Some ErrInvalidArchive
    else if SingleMemberBytes caps <? Size m then Some ErrCapExceeded
    else
      let total := wrap64 (total + Size m) in
      if TotalUncompressedBytes caps <? total then Some ErrCapExceeded
      else validate_from total members caps
  end.

(** [validate] and [Validate]. *)
Definition validate (members : list Member) (caps : Caps) : option archive_err :=
  if MemberCount caps <? Z.of_nat (length members) then Some ErrCapExceeded
  else validate_from 0 members caps.
Definition Validate (members : list Member) (archiveSize : Z) : option archive_err :=
  validate members (withDefaults (MkCaps 0 0 0 0) archiveSize).

(** [sumMemberBytes]. *)
Definition sumMemberBytes (members : list Member) : Z :=
  fold_left (fun total m => wrap64 (total + Size m)) members 0.

(** ** What the extractor says *)

(** [strings.Lines]: breaks stay on their lines. *)
Definition Lines (text : list Z) : list (list Z) := raw_lines [] text.

(** [diagnosticMatch]; the trim takes the break away. *)
Definition diagnosticMatch (text signature : list Z) : bool :=
  existsb (fun line =>
    let line := ToLower (TrimSpace line) in
    HasPrefix line signature || HasPrefix line (bytes_of "error:") && Contains line signature) (Lines text).

(** [classifySevenzipError]. *)
Definition classifySevenzipError (stderr stdout : list Z) : archive_err :=
  let said s := diagnosticMatch stderr (bytes_of s) || diagnosticMatch stdout (bytes_of s) in
  if said "wrong password" || said "cannot open encrypted archive" then ErrWrongPassword
  else if said "no space" then ErrDiskFull
  else if said "unexpected end of archive" || said "is not archive"
       || said "cannot open the file as archive" || said "headers error" then ErrInvalidArchive
  else ErrExtractor.

(** [archiveExt] and [gzipWrapped]. *)
Definition archiveExtensions : list (list Z) := bytes_of <$> [".zip"; ".tar"; ".gz"; ".tgz"; ".rar"; ".7z"]%string.
Definition archiveExt (name : list Z) : list Z :=
  default [] (List.find (fun ext => HasSuffix (ToLower name) ext) archiveExtensions).
Definition gzipWrapped (name : list Z) : bool :=
  bool_decide (archiveExt name = bytes_of ".gz") || bool_decide (archiveExt name = bytes_of ".tgz").
End Rules.

(** [extractErrorCode] of the first sentinel in a chain. *)
Definition extractErrorCode (e : list archive_err) : string :=
  if bool_decide (ErrWrongPassword ∈ e) then "extract_failed_wrong_password"
  else if bool_decide (ErrInvalidArchive ∈ e) then "extract_failed_invalid_archive"
  else if bool_decide (ErrCapExceeded ∈ e) then "extract_failed_quota_reached"
  else if bool_decide (ErrDiskFull ∈ e) then "extract_failed_disk_full"
  else "extract_failed".

(** ** Passwords ([passwords.go]) *)

Definition MaxCandidates : nat := 16.

(** The closure [add] of [Candidates]. *)
Definition add_candidate (candidates : list string) (pw : string) : list string :=
  if (MaxCandidates <? length candidates)%nat then candidates
  else if contains candidates pw then candidates
  else candidates ++ [pw].

(** [Candidates], from the task's own password and the shared list. *)
Definition Candidates (own : string) (shared : list string) : list string :=
  fold_left add_candidate shared (add_candidate [EmptyString] own).
