(* ===== verification/ArchiveProps.v ===== *)
(** * What a listing that passes pass 1 is worth

    Exactness of the rules over the integers, the shape of accepted names,
    the round trip of the listing format, and the password candidates. *)

From stdpp Require Import pretty.
From S2P Require Import Prelude GoStrings Schema SafePath SafeJoin Hash Archive.

Open Scope Z_scope.

(** ** Segments *)

Lemma fields_by_words sep word l w : w ∈ fields_by sep word l ->
  Forall (fun b => sep b = false) word ->
  w <> [] /\ Forall (fun b => sep b = false) w /\ (forall b, b ∈ w -> b ∈ word \/ b ∈ l).
Proof.
  revert word. induction l as [|b l IH]; intros word Hw Hword; simpl in Hw.
  - destruct word as [|c word]; [by apply elem_of_nil in Hw|]. apply list_elem_of_singleton in Hw as ->.
    split_and!; [done|done|by left].
  - destruct (sep b) eqn:Hb.
    + destruct word as [|c word].
      * destruct (IH [] Hw) as (? & ? & Hin); [by constructor|]. split_and!; [done..|].
        intros x Hx. right. right. destruct (Hin x Hx) as [Hn|]; [by apply elem_of_nil in Hn|done].
      * apply elem_of_cons in Hw as [->|Hw]; [split_and!; [done|done|by left]|].
        destruct (IH [] Hw) as (? & ? & Hin); [by constructor|]. split_and!; [done..|].
        intros x Hx. right. right. destruct (Hin x Hx) as [Hn|]; [by apply elem_of_nil in Hn|done].
    + destruct (IH (word ++ [b]) Hw) as (? & ? & Hin); [apply Forall_app; split; [done|by constructor]|].
      split_and!; [done..|]. intros x Hx. destruct (Hin x Hx) as [[?|Hy]%elem_of_app|?]; [by left| |by right; right].
      apply list_elem_of_singleton in Hy as ->. right. by left.
Qed.

(** ** Words of an attribute text *)

Lemma strip_prefix_refl p l : strip_prefix p (p ++ l) = Some l.
Proof. induction p as [|a p IH]; simpl; [done|]. by rewrite Z.eqb_refl. Qed.

(** No encoding of a space is inside another, or starts like a later byte of one. *)
Lemma encodings_apart : Forall (fun e => match e with [] => False | b :: k =>
  Forall (fun c => 128 <= c < 192) k /\ ~ 128 <= b < 192 end) space_encodings.
Proof. unfold space_encodings. repeat constructor; simpl; lia. Qed.

Lemma encodings_overlap e e' l k : e ∈ space_encodings -> e' ∈ space_encodings -> e ++ l = e' ++ k -> e = e' /\ l = k.
Proof.
  intros He He' Heq. pose proof encodings_apart as Ha. rewrite list.Forall_forall in Ha.
  assert (Hpre : forall a b, a ∈ space_encodings -> b ∈ space_encodings -> a `prefix_of` b -> a = b).
  { assert (Hd : Forall (fun a => Forall (fun b => a `prefix_of` b -> a = b) space_encodings) space_encodings)
      by (apply (bool_decide_unpack _); vm_compute; exact I).
    intros a b Ha' Hb. rewrite list.Forall_forall in Hd. specialize (Hd a Ha'). rewrite list.Forall_forall in Hd. by apply Hd. }
  assert (H : e `prefix_of` e' \/ e' `prefix_of` e)
    by (apply (prefix_weak_total e e' (e ++ l)); [by exists l|by exists k]).
  assert (e = e') as ->; [|split; [done|by apply app_inv_head in Heq]].
  destruct H as [H|H]; [by apply Hpre|symmetry; by apply Hpre].
Qed.

Lemma strip_space_enc e l : e ∈ space_encodings -> strip_space false (e ++ l) = Some l.
Proof.
  intros He. destruct (strip_space false (e ++ l)) as [k|] eqn:Hs.
  - apply strip_space_app in Hs as (e' & He' & Heq). simpl in Heq. by destruct (encodings_overlap e e' l k He He' Heq) as [_ ->].
  - exfalso. revert He Hs. unfold strip_space. induction space_encodings as [|e' es IH]; simpl; [by intros ?%elem_of_nil|].
    destruct (strip_prefix e' (e ++ l)) eqn:Hp; [done|]. intros [->|He]%elem_of_cons; [by rewrite strip_prefix_refl in Hp|by apply IH].
Qed.

(** A space after [a] does not change how [a] is read. *)
Lemma strip_space_before a e l : a <> [] -> e ∈ space_encodings ->
  strip_space false (a ++ e ++ l) = (fun k => k ++ e ++ l) <$> strip_space false a.
Proof.
  intros Hne He. destruct (strip_space false a) as [k|] eqn:Ha; simpl.
  { apply strip_space_app in Ha as (e' & He' & ->). simpl. by rewrite <- app_assoc, strip_space_enc. }
  destruct (strip_space false (a ++ e ++ l)) as [k|] eqn:Hs; [|done]. exfalso.
  apply strip_space_app in Hs as (e' & He' & Heq). simpl in Heq. pose proof encodings_apart as Hap. rewrite list.Forall_forall in Hap.
  apply app_eq_inv in Heq as [(q & Hq & Hk)|(q & Hq & Hk)].
  - rewrite Hq, strip_space_enc in Ha by done. done.
  - destruct a as [|x a]; [done|]. pose proof (Hap e' He') as He1. rewrite Hq in He1. simpl in He1. destruct He1 as [Htail _].
    pose proof (Hap e He) as He2. destruct e as [|b e]; [done|]. destruct He2 as [_ Hb].
    destruct q as [|c q]; [rewrite app_nil_r in Hq; rewrite <- Hq in Ha; by rewrite <- (app_nil_r e'), strip_space_enc in Ha|].
    simpl in Hk. injection Hk as <- _. apply Hb. apply list.Forall_app in Htail as [_ Htail]. by apply list.Forall_cons in Htail as [? _].
Qed.

Lemma fields_fuel n m word l : (length l < n)%nat -> (length l < m)%nat -> fields n word l = fields m word l.
Proof.
  revert m word l. induction n as [|n IH]; intros [|m] word l Hn Hm; try lia. cbn [fields].
  destruct (strip_space false l) as [k|] eqn:Hs.
  - apply strip_space_app in Hs as (e & He & ->). simpl in *. rewrite length_app in *.
    assert (length e <> 0%nat) by (intros H0; apply length_zero_iff_nil in H0 as ->; pose proof encodings_apart as Ha;
      rewrite list.Forall_forall in Ha; by apply Ha in He). rewrite (IH m) by lia. done.
  - destruct l as [|b l]; [done|]. simpl in *. apply IH; lia.
Qed.

Lemma fields_split a e b word n : e ∈ space_encodings -> (length (a ++ e ++ b) < n)%nat ->
  fields n word (a ++ e ++ b) = fields n word a ++ fields n [] b.
Proof.
  intros He. revert a word. induction n as [|n IH]; intros a word Hn; [lia|].
  assert (Hpos : forall e, e ∈ space_encodings -> (0 < length e)%nat).
  { intros e' He'. pose proof encodings_apart as Ha. rewrite list.Forall_forall in Ha. apply Ha in He'. destruct e'; [done|simpl; lia]. }
  rewrite !length_app in Hn. pose proof (Hpos e He). destruct (decide (a = [])) as [->|Hne].
  - simpl in Hn |- *. rewrite strip_space_enc by done. rewrite (fields_fuel n (S n) [] b) by lia. by destruct word.
  - cbn [fields]. rewrite strip_space_before by done. destruct (strip_space false a) as [k|] eqn:Hs; simpl.
    + apply strip_space_app in Hs as (e' & He' & ->). simpl in Hn. rewrite length_app in Hn. specialize (Hpos e' He').
      rewrite IH by (rewrite !length_app; lia). rewrite (fields_fuel n (S n) [] b) by lia. by destruct word.
    + destruct a as [|x a]; [done|]. simpl in Hn. simpl. rewrite IH by (rewrite !length_app; lia).
      by rewrite (fields_fuel n (S n) [] b) by lia.
Qed.

Lemma Fields_split a e b : e ∈ space_encodings -> Fields (a ++ e ++ b) = Fields a ++ Fields b.
Proof.
  intros He. unfold Fields. rewrite fields_split by (done || lia).
  f_equal; apply fields_fuel; rewrite ?length_app; lia.
Qed.

Lemma Fields_trim_left n l : Fields (trim n false l) = Fields l.
Proof.
  revert l. induction n as [|n IH]; intros l; [done|]. simpl. destruct (strip_space false l) as [k|] eqn:Hs; [|done].
  apply strip_space_app in Hs as (e & He & ->). simpl. rewrite IH. by rewrite <- (app_nil_l (e ++ k)), Fields_split.
Qed.

Lemma Fields_trim_right n l : Fields (reverse (trim n true l)) = Fields (reverse l).
Proof.
  revert l. induction n as [|n IH]; intros l; [done|]. simpl. destruct (strip_space true l) as [k|] eqn:Hs; [|done].
  apply strip_space_app in Hs as (e & He & ->). simpl. rewrite IH, reverse_app, reverse_involutive.
  by rewrite <- (app_nil_r (reverse k ++ e)), <- app_assoc, Fields_split, app_nil_r by done.
Qed.

(** Trimming changes no word, and a space between two texts keeps the words of
    both. *)
Lemma Fields_joined a b : Fields (TrimSpace (a ++ [32] ++ b)) = Fields a ++ Fields b.
Proof.
  unfold TrimSpace. rewrite Fields_trim_right, reverse_involutive, Fields_trim_left. apply Fields_split.
  unfold space_encodings. rewrite !elem_of_cons. tauto.
Qed.

Section Rules.
Context `{!UnicodeTables} (NFC : list Z -> list Z).

(** The segments that count. *)
Definition segments (name : list Z) : list (list Z) :=
  List.filter (fun s => negb (bool_decide (s = [46]))) (fields_by path_separator [] name).

Definition plain_segment (s : list Z) : Prop := s <> dotdot /\ SanitiseSegment NFC s = s.

Lemma count_segments_spec l d : Forall (fun s => s <> []) l ->
  let kept := List.filter (fun s => negb (bool_decide (s = [46]))) l in
  match count_segments NFC l d with
  | Some n => n = d + Z.of_nat (length kept) /\ Forall plain_segment kept
  | None => ~ Forall plain_segment kept
  end.
Proof.
  intros Hl. revert d. induction Hl as [|s l Hs Hl IH]; intros d; simpl; [split; [lia|constructor]|].
  rewrite (bool_decide_eq_false_2 (s = [])) by done. cbn [orb].
  destruct (decide (s = [46])) as [Hdot|Hdot].
  { rewrite bool_decide_eq_true_2 by done. simpl. apply IH. }
  rewrite bool_decide_eq_false_2 by done. cbn [negb].
  destruct (decide (s = dotdot)) as [->|Hdd].
  { rewrite bool_decide_eq_true_2 by done. intros [[Hn _] _]%list.Forall_cons. by apply Hn. }
  rewrite (bool_decide_eq_false_2 (s = dotdot)) by done.
  case_bool_decide as Hsan; [intros [[_ Hn] _]%list.Forall_cons; by apply Hsan|].
  specialize (IH (d + 1)). destruct (count_segments NFC l (d + 1)) as [n|].
  - destruct IH as [-> Hk]. split; [simpl; lia|]. by apply list.Forall_cons.
  - intros [_ Hk]%list.Forall_cons. by apply IH.
Qed.

(** An accepted name, as the rule states it. *)
Definition name_ok (name : list Z) (depth : Z) : Prop :=
  IsAbs name = false /\ 1 <= Z.of_nat (length (segments name)) <= depth /\ Forall plain_segment (segments name).

Lemma validateMemberName_iff name caps : validateMemberName NFC name caps = true <-> name_ok name (Depth caps).
Proof.
  unfold validateMemberName, name_ok, segments. destruct (decide (name = [])) as [->|Hne].
  { simpl. split; [done|]. intros (_ & ? & _). simpl in *. lia. }
  rewrite bool_decide_eq_false_2 by done. cbn [orb]. destruct (IsAbs name); [by split; [|intros [? _]]|].
  pose proof (count_segments_spec (fields_by path_separator [] name) 0) as Hspec. cbn zeta in Hspec.
  destruct (count_segments NFC _ 0) as [n|].
  - destruct Hspec as [-> Hk]; [apply list.Forall_forall; intros s Hs; by eapply fields_by_words; [exact Hs|constructor]|].
    split; [intros Hb%negb_true_iff; split_and!; [done|..|done]; lia|]. intros (_ & ? & _). lia.
  - split; [done|]. intros (_ & _ & Hk). exfalso. apply Hspec; [|done].
    apply list.Forall_forall. intros s Hs. by eapply fields_by_words; [exact Hs|constructor].
Qed.

(** Each counted segment is a safe name. *)
Lemma plain_safe s : plain_segment s -> safe_name s.
Proof. intros [_ Heq]. rewrite <- Heq. apply sanitised_is_safe. Qed.

(** ** The caps *)

Definition declared (members : list Member) : Z := foldr (fun m total => Size m + total) 0 members.

Definition caps_ok (caps : Caps) : Prop :=
  0 <= TotalUncompressedBytes caps /\ 0 <= SingleMemberBytes caps /\
  TotalUncompressedBytes caps + SingleMemberBytes caps <= int64_max.

(** What a member must be by itself. *)
Definition member_ok (caps : Caps) (m : Member) : Prop :=
  name_ok (Path m) (Depth caps) /\ memberHostile (Attributes m) = false /\ Size m <= SingleMemberBytes caps.

Lemma declared_nonneg l : Forall (fun m => 0 <= Size m) l -> 0 <= declared l.
Proof. induction 1; simpl; lia. Qed.

Lemma validate_from_spec caps l total : caps_ok caps -> 0 <= total <= TotalUncompressedBytes caps ->
  Forall (fun m => 0 <= Size m) l ->
  match validate_from NFC total l caps with
  | None => Forall (member_ok caps) l /\ total + declared l <= TotalUncompressedBytes caps
  | Some _ => ~ (Forall (member_ok caps) l /\ total + declared l <= TotalUncompressedBytes caps)
  end.
Proof.
  intros Hcaps Ht Hl. revert total Ht. induction Hl as [|m l Hm Hl IH]; intros total Ht; simpl.
  { split; [constructor|lia]. }
  pose proof (declared_nonneg l Hl) as Hd. pose proof (validateMemberName_iff (Path m) caps) as Hname.
  destruct (validateMemberName NFC (Path m) caps); cbn [negb].
  2: { intros [[[Hn _] _]%list.Forall_cons _]. by apply Hname in Hn. }
  destruct (memberHostile (Attributes m)) eqn:Hh.
  { intros [[(_ & Hn & _) _]%list.Forall_cons _]. congruence. }
  destruct (SingleMemberBytes caps <? Size m) eqn:Hs.
  { intros [[(_ & _ & Hn) _]%list.Forall_cons _]. lia. }
  destruct Hcaps as (? & ? & ?). rewrite wrap64_id by (unfold in_int64, int64_min, int64_max in *; lia).
  destruct (TotalUncompressedBytes caps <? total + Size m) eqn:Htot; [intros [_ Hn]; lia|].
  specialize (IH (total + Size m) ltac:(lia)).
  replace (total + (Size m + declared l)) with (total + Size m + declared l) by lia.
  assert (member_ok caps m) by (split_and!; [by apply Hname|done|lia]).
  destruct (validate_from NFC _ l caps); rewrite list.Forall_cons; tauto.
Qed.

Lemma validate_iff caps l : caps_ok caps -> Forall (fun m => 0 <= Size m) l ->
  validate NFC l caps = None <->
    Z.of_nat (length l) <= MemberCount caps /\ Forall (member_ok caps) l /\ declared l <= TotalUncompressedBytes caps.
Proof.
  intros Hcaps Hl. unfold validate. destruct (_ <? _) eqn:Hc; [split; [done|lia]|].
  pose proof (validate_from_spec caps l 0 Hcaps ltac:(destruct Hcaps; lia) Hl) as Hfrom.
  destruct (validate_from NFC 0 l caps); rewrite Z.add_0_l in Hfrom; split; try done; [intros (_ & ? & ?); by destruct Hfrom|].
  intros _. split; [lia|done].
Qed.

(** The rules decide exactly what they say: over declared sizes and caps in
    range the accumulated total never wraps, and a listing passes when and
    only when its members are few enough, each has an acceptable name, mode
    and size, and together they stay within the total. *)
Theorem validate_exact caps l : caps_ok caps -> Forall (fun m => 0 <= Size m) l ->
  validate NFC l caps = None <->
    Z.of_nat (length l) <= MemberCount caps /\ Forall (member_ok caps) l /\ declared l <= TotalUncompressedBytes caps.
Proof. apply validate_iff. Qed.

(** ** The parser *)

Definition sized (p : parser) : Prop :=
  Forall (fun m => 0 <= Size m) (members p) /\ match member p with Some m => 0 <= Size m | None => True end.

Lemma flush_sized p : sized p -> sized (flush p).
Proof.
  intros [Hms Hm]. unfold flush. destruct (member p) as [m|] eqn:Hmem; [|by split; rewrite ?Hmem].
  split; [|done]. simpl. apply Forall_app. split; [done|]. constructor; [|done]. by destruct (link p).
Qed.

Lemma parse_key_sized key value m p p' : sized p -> member p = Some m ->
  parse_key key value m p = inr p' -> sized p'.
Proof.
  intros [Hms Hm] Hmem. rewrite Hmem in Hm. unfold parse_key.
  repeat case_match; intros [= <-]; split; simpl; rewrite ?Hmem; try done. lia.
Qed.

Lemma parse_line_sized line p p' : sized p -> parse_line line p = inr p' -> sized p'.
Proof.
  intros Hp. unfold parse_line. destruct (_ <=? _); [done|]. case_bool_decide; [intros [= <-]; by apply flush_sized|].
  destruct (cut _ _) as [[key value]|]; [|by intros [= <-]]. case_bool_decide.
  - destruct (_ <? _); [done|]. intros [= <-]. by destruct (flush_sized p Hp).
  - destruct (member p) eqn:Hm; [by apply parse_key_sized|by intros [= <-]].
Qed.

Lemma parseMembers_sizes out l : parseMembers out = inr l -> Forall (fun m => 0 <= Size m) l.
Proof.
  unfold parseMembers. assert (Hrun : forall raw p p', sized p -> parse_lines raw p = inr p' -> sized p').
  { induction raw as [|line raw IH]; simpl; intros p p' Hp; [by intros [= <-]|].
    destruct (parse_line line p) eqn:Hl; [done|]. apply IH. by eapply parse_line_sized. }
  specialize (Hrun (raw_lines [] out) (MkParser [] None false)).
  destruct (parse_lines _ _) as [e|p] eqn:Hp; [done|]. intros [= <-].
  apply flush_sized. by apply (Hrun p); [split|].
Qed.

(** ** Links and modes, line by line *)

(** A word that reads as a unix mode is the mode of a plain file or directory
    without the setuid and setgid bits. *)
Definition mode_plain (f : list Z) : Prop :=
  length f = 10%nat -> (exists k, f !! 0%nat = Some k /\ k ∈ bytes_of "-dlpscbh") ->
  (f !! 0%nat = Some 45 \/ f !! 0%nat = Some 100) /\
  forall i, i = 3%nat \/ i = 6%nat -> f !! i <> Some 115 /\ f !! i <> Some 83.

Lemma hostile_plain f : hostile_field f = false -> mode_plain f.
Proof.
  unfold hostile_field, mode_plain, at_byte. intros Hf Hlen (k & Hk & Hkind).
  rewrite (bool_decide_true _ Hlen), Hk in Hf. cbn [negb orb default from_option id] in Hf.
  rewrite (proj2 (contains_spec kinds k) Hkind) in Hf. cbn [negb] in Hf.
  destruct (contains [45; 100] k) eqn:Hc; [|done]. cbn [negb] in Hf. apply contains_spec in Hc.
  apply orb_false_iff in Hf as [H3%contains_false H6%contains_false]. rewrite Hk. split.
  - rewrite !elem_of_cons in Hc. destruct Hc as [->|[->|Hn]]; [by left|by right|by apply elem_of_nil in Hn].
  - intros i [->| ->]; split; intros Hi; rewrite Hi in *; (apply H3 || apply H6); simpl; set_solver.
Qed.

Definition plain_modes (m : Member) : Prop := Forall mode_plain (Fields (Attributes m)).
Lemma not_hostile m : memberHostile (Attributes m) = false -> plain_modes m.
Proof.
  unfold memberHostile, plain_modes. induction (Fields _) as [|f l IH]; simpl; [constructor|].
  intros [Hf Hl]%orb_false_iff. constructor; [by apply hostile_plain|by apply IH].
Qed.

(** The text of a line, the line that opens a member, and the lines that stay
    with it. *)
Definition text (raw : list Z) : list Z := TrimRight (drop_cr raw) [13; 10].
Definition says (raw : list Z) (key : string) (value : list Z) : Prop := text raw = bytes_of key ++ bytes_of " = " ++ value.
Definition opens (raw : list Z) : Prop := exists name, says raw "Path" name.
Definition goes_on (raw : list Z) : Prop := text raw <> [] /\ ~ opens raw.

Lemma cut_sound sep l x y : cut sep l = Some (x, y) -> l = x ++ sep ++ y.
Proof.
  revert x. induction l as [|b l IH]; intros x; cbn [cut]; destruct (strip_prefix sep _) as [rest|] eqn:Hs;
    try (intros [= <- <-]; by apply strip_prefix_app in Hs); try done.
  destruct (cut sep l) as [[p q]|]; [|done]. intros [= <- ->]. simpl. f_equal. by apply IH.
Qed.

Lemma cut_key key value : key ∈ ["Path"; "Symbolic Link"; "Hard Link"; "Copy Link"; "Attributes"; "Mode"]%string ->
  cut kv_sep (bytes_of key ++ bytes_of " = " ++ value) = Some (bytes_of key, value).
Proof. rewrite !list.elem_of_cons, list.elem_of_nil. intros Hk. by repeat destruct Hk as [->|Hk]. Qed.
Lemma line_not_blank (key : string) (value : list Z) : bytes_of key ++ bytes_of " = " ++ value <> [].
Proof. by destruct (bytes_of key). Qed.

(** A member that will be refused for its modes. *)
Definition doomed (p : parser) : Prop :=
  (exists m, m ∈ members p /\ ~ plain_modes m) \/ exists m, member p = Some m /\ (link p = true \/ ~ plain_modes m).

Lemma modes_joined m s a : plain_modes (MkMember (Path m) s (TrimSpace (Attributes m ++ [32] ++ a))) <->
  plain_modes m /\ Forall mode_plain (Fields a).
Proof. unfold plain_modes. cbn [Attributes]. by rewrite Fields_joined, list.Forall_app. Qed.

Lemma link_is_hostile : ~ Forall mode_plain (Fields unixModeLink).
Proof.
  assert (Hf : Fields unixModeLink = [unixModeLink]) by by vm_compute. rewrite Hf. intros [Hm _]%list.Forall_cons.
  destruct Hm as [[?|?] _]; [done| |done..]. exists 108. split; [done|]. by apply contains_spec.
Qed.

Lemma doomed_flush p : doomed p -> exists m, m ∈ members (flush p) /\ ~ plain_modes m.
Proof.
  unfold flush. intros [(m & Hin & Hm)|(m & Hp & Hm)].
  - exists m. split; [|done]. destruct (member p); [|done]. simpl. apply elem_of_app. by left.
  - rewrite Hp. eexists. split; [simpl; apply elem_of_app; right; by apply list_elem_of_singleton|].
    destruct (link p); [|by destruct Hm]. by intros [_ ?%link_is_hostile]%modes_joined.
Qed.

Lemma doomed_key key value m p p' : member p = Some m -> doomed p -> parse_key key value m p = inr p' -> doomed p'.
Proof.
  intros Hp [(m' & Hin & Hm)|(m' & Hp' & Hm)]; unfold parse_key.
  - intros Hk. left. exists m'. split; [|done]. by repeat case_match; simplify_eq/=.
  - rewrite Hp in Hp'. injection Hp' as <-. intros Hk. right. repeat case_match; simplify_eq/=; eauto;
      (eexists; split; [done|]; destruct Hm as [Hm|Hm]; [by left|right]; try done).
    by intros [? _]%modes_joined.
Qed.

Lemma doomed_line raw p p' : doomed p -> parse_line raw p = inr p' -> doomed p'.
Proof.
  intros Hd. unfold parse_line. destruct (_ <=? _); [done|]. pose proof (doomed_flush p Hd) as Hf.
  case_bool_decide; [intros [= <-]; by left|]. destruct (cut _ _) as [[key value]|]; [|by intros [= <-]].
  case_bool_decide; [destruct (_ <? _); [done|]; intros [= <-]; by left|].
  destruct (member p) as [m|] eqn:Hm; [by apply doomed_key|by intros [= <-]].
Qed.

Lemma doomed_lines raw p p' : doomed p -> parse_lines raw p = inr p' -> doomed p'.
Proof.
  revert p. induction raw as [|r raw IH]; intros p Hd; simpl; [by intros [= <-]|].
  destruct (parse_line r p) as [e|p1] eqn:Hl; [done|]. apply IH. by eapply doomed_line.
Qed.

Lemma parse_lines_app a b p p' : parse_lines (a ++ b) p = inr p' -> exists p1, parse_lines a p = inr p1 /\ parse_lines b p1 = inr p'.
Proof.
  revert p. induction a as [|r a IH]; intros p; simpl; [by exists p|]. destruct (parse_line r p); [done|apply IH].
Qed.

Lemma path_opens raw p p' : opens raw -> parse_line raw p = inr p' -> is_Some (member p').
Proof.
  intros [name Hr]. unfold says in Hr. unfold parse_line. fold (text raw). rewrite Hr. destruct (_ <=? _); [done|].
  rewrite bool_decide_false by apply line_not_blank. rewrite cut_key by left. rewrite bool_decide_true by done.
  destruct (_ <? _); [done|]. intros [= <-]. by eexists.
Qed.

Lemma goes_on_keeps raw p p' : Forall goes_on raw -> is_Some (member p) -> parse_lines raw p = inr p' -> is_Some (member p').
Proof.
  intros Hr. revert p. induction Hr as [|r raw [Hne Hno] _ IH]; intros p Hp; simpl; [by intros [= <-]|].
  destruct (parse_line r p) as [e|p1] eqn:Hl; [done|]. apply IH. revert Hl. unfold parse_line. fold (text r).
  destruct (_ <=? _); [done|]. rewrite bool_decide_false by done.
  destruct (cut kv_sep (text r)) as [[key value]|] eqn:Hc; [|by intros [= <-]]. apply cut_sound in Hc.
  case_bool_decide as Hk; [subst key; destruct Hno; by exists value|].
  destruct Hp as [m Hm]. rewrite Hm. unfold parse_key. intros Hk'.
  by repeat case_match; simplify_eq/=; eauto.
Qed.

(** A line of an open member that declares a link, or a mode that is not plain. *)
Definition declares (raw : list Z) : Prop := exists key value, says raw key value /\
  (key ∈ ["Symbolic Link"; "Hard Link"; "Copy Link"]%string /\ TrimSpace value <> [] /\ TrimSpace value <> [45] \/
   key ∈ ["Attributes"; "Mode"]%string /\ ~ Forall mode_plain (Fields value)).

Lemma declared_dooms raw p p' : declares raw -> is_Some (member p) -> parse_line raw p = inr p' -> doomed p'.
Proof.
  intros (key & value & Hs & Hd) [m Hm]. unfold says in Hs. unfold parse_line. fold (text raw). rewrite Hs.
  destruct (_ <=? _); [done|]. rewrite bool_decide_false by apply line_not_blank. rewrite cut_key by set_solver.
  rewrite bool_decide_false by (intros He; apply (inj bytes_of key "Path"%string) in He as ->; set_solver). rewrite Hm.
  unfold parse_key. rewrite bool_decide_false by (intros He; apply (inj bytes_of key "Size"%string) in He as ->; set_solver).
  rewrite !list.elem_of_cons, list.elem_of_nil in Hd. destruct Hd as [(Hk & H1 & H2)|(Hk & Hv)].
  - assert (Hkey : contains [bytes_of "Symbolic Link"; bytes_of "Hard Link"; bytes_of "Copy Link"] (bytes_of key) = true)
      by (apply contains_spec; rewrite !elem_of_cons; by repeat destruct Hk as [->|Hk]; auto).
    assert (Hno : bool_decide (bytes_of key = bytes_of "Attributes") || bool_decide (bytes_of key = bytes_of "Mode") = false)
      by by repeat destruct Hk as [->|Hk].
    rewrite Hno, Hkey. cbn zeta. rewrite !bool_decide_true by done. intros [= <-]. right. exists m. split; [done|by left].
  - assert (Hyes : bool_decide (bytes_of key = bytes_of "Attributes") || bool_decide (bytes_of key = bytes_of "Mode") = true)
      by by repeat destruct Hk as [->|Hk].
    rewrite Hyes. intros [= <-]. right. eexists. split; [done|]. right. by intros [_ ?]%modes_joined.
Qed.

(** The listing of [before], an opened member, more of its lines, and a line that
    declares what it must not. *)
Lemma declared_is_refused out l before path between raw after :
  parseMembers out = inr l -> raw_lines [] out = before ++ path :: between ++ raw :: after ->
  opens path -> Forall goes_on between -> declares raw -> exists m, m ∈ l /\ ~ plain_modes m.
Proof.
  unfold parseMembers. intros Hp Hr Ho Hb Hd. rewrite Hr in Hp. destruct (parse_lines _ _) as [e|p] eqn:Hl; [done|].
  injection Hp as <-. apply doomed_flush.
  apply parse_lines_app in Hl as (p1 & _ & Hl). cbn [parse_lines] in Hl. destruct (parse_line path p1) as [e|p2] eqn:H2; [done|].
  apply parse_lines_app in Hl as (p3 & H3 & Hl). cbn [parse_lines] in Hl. destruct (parse_line raw p3) as [e|p4] eqn:H4; [done|].
  eapply doomed_lines, Hl. eapply declared_dooms; [done| |done]. eapply goes_on_keeps; [done| |done]. by eapply path_opens.
Qed.

(** ** What an accepted archive is *)

Lemma defaults_ok archiveSize : 0 <= archiveSize <= int64_max ->
  let caps := withDefaults (MkCaps 0 0 0 0) archiveSize in
  TotalUncompressedBytes caps <= Z.min (totalUncompressedFactor * archiveSize) maxTotalUncompressed /\
  (0 <= TotalUncompressedBytes caps -> caps_ok caps) /\ MemberCount caps = 10000 /\ Depth caps = 32 /\
  SingleMemberBytes caps = 4294967296.
Proof.
  intros Hs. cbn [withDefaults TotalUncompressedBytes MemberCount Depth SingleMemberBytes Z.eqb].
  unfold caps_ok. cbn [TotalUncompressedBytes SingleMemberBytes].
  assert (Hmax : maxTotalUncompressed = 21474836480) by done.
  assert (Hfac : totalUncompressedFactor = 10) by done. rewrite !Hfac. unfold int64_max in *.
  assert (Hle : wrap64 (archiveSize * 10) <= 10 * archiveSize).
  { unfold wrap64. Z.div_mod_to_equations. lia. }
  rewrite Hmax. split_and!; [| |done..].
  - destruct (21474836480 <? _) eqn:Hcmp; lia.
  - intros ?. split_and!; [done|done|]. unfold withDefaults. cbn [TotalUncompressedBytes SingleMemberBytes Z.eqb].
    rewrite !Hfac, Hmax. change defaultSingleMemberBytes with 4294967296.
    destruct (21474836480 <? _) eqn:Hcmp; lia.
Qed.

(** C28: An archive that passes pass 1, whatever bytes the lister printed: at most
    10,000 members, each with a relative name of one to 32 safe segments that
    sanitising leaves alone, at most 4 GiB, and together no more than ten times
    the archive and 20 GiB.  Every word of a member's attributes that reads as a
    unix mode is that of a plain file or directory without setuid and setgid,
    and so is every mode line of the listing: no line between a member's [Path]
    and the blank line that ends it declares a link or another mode. *)
Theorem accepted_archive_is_safe out archiveSize l : 0 <= archiveSize <= int64_max ->
  parseMembers out = inr l -> Validate NFC l archiveSize = None -> l <> [] ->
  Z.of_nat (length l) <= 10000 /\
  declared l <= Z.min (totalUncompressedFactor * archiveSize) maxTotalUncompressed /\
  Forall (fun m => IsAbs (Path m) = false /\ 1 <= Z.of_nat (length (segments (Path m))) <= 32 /\
    Forall safe_name (segments (Path m)) /\ Forall mode_plain (Fields (Attributes m)) /\
    0 <= Size m <= 4294967296) l /\
  forall before path between raw after, raw_lines [] out = before ++ path :: between ++ raw :: after ->
    opens path -> Forall goes_on between -> ~ declares raw.
Proof.
  intros Hs Hp Hv Hne. apply parseMembers_sizes in Hp as Hsize. unfold Validate in Hv.
  destruct (defaults_ok archiveSize Hs) as (Htot & Hok & Hcount & Hdepth & Hsingle).
  set (caps := withDefaults _ _) in *. clearbody caps.
  assert (Hcaps : caps_ok caps).
  { apply Hok. destruct (Z.le_gt_cases 0 (TotalUncompressedBytes caps)) as [|Hneg]; [done|]. exfalso.
    unfold validate in Hv. destruct (_ <? _); [done|]. destruct l as [|m l]; [done|]. simpl in Hv.
    destruct (negb _); [done|]. destruct (memberHostile _); [done|]. destruct (_ <? Size m) eqn:Hm; [done|].
    apply list.Forall_cons in Hsize as [Hm0 _].
    rewrite wrap64_id in Hv by (rewrite Hsingle in Hm; unfold in_int64, int64_min, int64_max; lia).
    destruct (TotalUncompressedBytes caps <? 0 + Size m) eqn:Ht; [done|lia]. }
  apply validate_iff in Hv as (Hlen & Hall & Hsum); [|done|done]. split_and!; [lia|lia| |].
  2: { intros before path between raw after Hraw Ho Hb Hd.
    destruct (declared_is_refused out l before path between raw after Hp Hraw Ho Hb Hd) as (m & Hm & Hbad).
    rewrite list.Forall_forall in Hall. destruct (Hall m Hm) as (_ & Hh & _). by apply Hbad, not_hostile. }
  apply list.Forall_forall. intros m Hm. rewrite list.Forall_forall in Hall, Hsize.
  destruct (Hall m Hm) as ((Habs & Hd & Hsegs) & Hh & Hsz). specialize (Hsize m Hm). apply not_hostile in Hh. split_and!; try done; try lia.
  eapply list.Forall_impl; [exact Hsegs|]. apply plain_safe.
Qed.
End Rules.

(** ** The listing format *)

(** One member as [7zz l -slt] prints it. *)
Definition print_member (m : Member) : list Z :=
  bytes_of "Path = " ++ Path m ++ [10] ++ bytes_of "Size = " ++ bytes_of (pretty (Size m)) ++ [10] ++
  bytes_of "Attributes = " ++ Attributes m ++ [10; 10].
Definition print_members (l : list Member) : list Z := concat (print_member <$> l).

(** What the format can carry: no line breaks, short lines, a size of 63 bits
    and attributes without outer space. *)
Definition one_line (l : list Z) : Prop :=
  (10 ∉ l) /\ (list.last l <> Some 13) /\ Z.of_nat (length l) < 1048000.
Definition printable (m : Member) : Prop :=
  one_line (Path m) /\ 0 <= Size m < 2 ^ 63 /\
  one_line (Attributes m) /\ TrimSpace (32 :: Attributes m) = Attributes m.

Lemma raw_lines_break acc l rest : 10 ∉ l -> raw_lines acc (l ++ 10 :: rest) = (acc ++ l) :: raw_lines [] rest.
Proof.
  revert acc. induction l as [|b l IH]; intros acc Hl; simpl; [by rewrite app_nil_r|].
  rewrite (proj2 (Z.eqb_neq b 10)); [|intros ->; apply Hl; by left].
  rewrite IH by (intros Hin; apply Hl; by right). by rewrite <- app_assoc.
Qed.

Lemma last_rev (l : list Z) b k : reverse l = b :: k -> list.last l = Some b.
Proof.
  intros Hr. apply (f_equal reverse) in Hr. rewrite reverse_involutive, reverse_cons in Hr.
  subst l. by rewrite last_app.
Qed.

(** A line without breaks at its end is read as it is. *)
Lemma line_reads l : (forall b, list.last l = Some b -> b <> 10 /\ b <> 13) -> TrimRight (drop_cr l) [13; 10] = l.
Proof.
  intros Hl. assert (Hcr : drop_cr l = l).
  { unfold drop_cr. destruct (reverse l) as [|b k] eqn:Hr; [done|]. destruct (Hl b (last_rev l b k Hr)) as [_ Hb].
    destruct (decide (b = 13)) as [->|]; [done|]. destruct b as [|p|p]; [done| |done].
    do 4 (destruct p as [p|p|]; try done). }
  rewrite Hcr. unfold TrimRight. destruct (reverse l) as [|b k] eqn:Hr.
  { apply (f_equal reverse) in Hr. by rewrite reverse_involutive in Hr. }
  destruct (Hl b (last_rev l b k Hr)) as [H10 H13]. simpl.
  assert (contains [13; 10] b = false) as ->.
  { apply contains_false. rewrite !elem_of_cons. intros [?|[?|Hn]]; [done..|]. by apply elem_of_nil in Hn. }
  by rewrite <- Hr, reverse_involutive.
Qed.

Lemma last_ends (p l : list Z) b : list.last p = Some b -> b <> 10 -> b <> 13 -> one_line l ->
  forall b', list.last (p ++ l) = Some b' -> b' <> 10 /\ b' <> 13.
Proof.
  intros Hp H10 H13 (Hn & Hcr & _) b'. rewrite last_app. destruct (list.last l) as [c|] eqn:Hl.
  - intros [= <-]. split; [|congruence]. intros ->. apply Hn. by apply last_Some_elem_of.
  - rewrite Hp. by intros [= <-].
Qed.

Lemma digits_one_line l : Forall is_digit l -> (length l <= 20)%nat -> one_line l.
Proof.
  intros Hd Hlen. rewrite list.Forall_forall in Hd. split_and!; [|..|lia].
  - intros Hin. specialize (Hd _ Hin). unfold is_digit in Hd. lia.
  - intros Hl. apply last_Some_elem_of in Hl. specialize (Hd _ Hl). unfold is_digit in Hd. lia.
Qed.

Lemma pretty_go_length k x s : (x < 10 ^ N.of_nat k)%N ->
  (String.length (pretty_N_go x s) <= k + String.length s)%nat.
Proof.
  revert x s. induction k as [|k IH]; intros x s Hx.
  { simpl in Hx. assert (x = 0%N) as -> by lia. by rewrite pretty_N_go_0. }
  destruct (decide (x = 0%N)) as [->|Hne]; [rewrite pretty_N_go_0; lia|].
  rewrite pretty_N_go_step by lia. etransitivity; [apply IH|simpl; lia].
  rewrite Nat2N.inj_succ, N.pow_succ_r' in Hx. apply N.Div0.div_lt_upper_bound. lia.
Qed.

Lemma decimal_length n : 0 <= n < 2 ^ 63 -> (length (bytes_of (pretty n)) <= 20)%nat.
Proof.
  intros Hn. rewrite bytes_length. destruct n as [|p|p]; [simpl; lia| |lia].
  change (pretty (Z.pos p)) with (pretty_N_go (N.pos p) EmptyString).
  etransitivity; [apply (pretty_go_length 20)|simpl; lia]. change (10 ^ N.of_nat 20)%N with 100000000000000000000%N. lia.
Qed.

(** One printed line is one read line. *)
Lemma read_line key l rest p : one_line l -> 10 ∉ key -> list.last key = Some 32 -> Z.of_nat (length key) < 100 ->
  parse_lines (raw_lines [] (key ++ l ++ 10 :: rest)) p =
  match parse_line (key ++ l) p with inl e => inl e | inr p => parse_lines (raw_lines [] rest) p end /\
  (maxMemberLineBytes <=? Z.of_nat (length (key ++ l))) = false /\ TrimRight (drop_cr (key ++ l)) [13; 10] = key ++ l.
Proof.
  intros Hl Hk Hlast Hlen. pose proof Hl as (Hn & _ & Hlong). split_and!.
  - rewrite app_assoc, raw_lines_break; [done|]. intros [|]%elem_of_app; done.
  - rewrite length_app. change maxMemberLineBytes with 1048576. apply Z.leb_gt. lia.
  - apply line_reads. by eapply last_ends.
Qed.

Lemma read_blank rest p : parse_lines (raw_lines [] (10 :: rest)) p = parse_lines (raw_lines [] rest) (flush p).
Proof. done. Qed.

Lemma read_member ms m rest : printable m -> Z.of_nat (length ms) + 1 <= parseMemberBound ->
  parse_lines (raw_lines [] (print_member m ++ rest)) (MkParser ms None false) =
  parse_lines (raw_lines [] rest) (MkParser (ms ++ [m]) None false).
Proof.
  intros (Hpath & Hsize & Hattr & Htrim) Hbound. destruct m as [path size attrs]. cbn [Path Size Attributes] in *.
  destruct (decimal_reads size Hsize) as (Hd & Hne & Hread).
  pose proof (digits_one_line _ Hd (decimal_length size Hsize)) as Hdec.
  unfold print_member. cbn [Path Size Attributes]. rewrite <- !app_assoc.
  destruct (read_line (bytes_of "Path = ") path (bytes_of "Size = " ++ bytes_of (pretty size) ++ [10] ++
    bytes_of "Attributes = " ++ attrs ++ [10; 10] ++ rest) (MkParser ms None false) Hpath) as (H1 & L1 & T1);
    [by apply (bool_decide_unpack _); vm_compute|done|done|].
  cbn [app] in H1 |- *. rewrite H1. clear H1. unfold parse_line at 1. rewrite L1, T1.
  change (cut kv_sep (bytes_of "Path = " ++ path)) with (Some (bytes_of "Path", path)).
  rewrite bool_decide_eq_false_2 by done. cbn iota beta. rewrite bool_decide_eq_true_2 by done.
  cbn [flush member members]. rewrite (proj2 (Z.ltb_ge _ _)) by lia.
  destruct (read_line (bytes_of "Size = ") (bytes_of (pretty size)) (bytes_of "Attributes = " ++ attrs ++ 10 :: 10 :: rest)
    (MkParser ms (Some (MkMember path 0 [])) false) Hdec) as (H2 & L2 & T2);
    [by apply (bool_decide_unpack _); vm_compute|done|done|].
  rewrite H2. clear H2. unfold parse_line at 1. rewrite L2, T2.
  change (cut kv_sep (bytes_of "Size = " ++ bytes_of (pretty size))) with (Some (bytes_of "Size", bytes_of (pretty size))).
  rewrite bool_decide_eq_false_2 by done. cbn iota beta. rewrite bool_decide_eq_false_2 by done. cbn [member].
  unfold parse_key at 1. rewrite bool_decide_eq_true_2 by done. rewrite TrimSpace_digits by done.
  rewrite bool_decide_eq_false_2 by done. rewrite Hread, (proj2 (Z.ltb_ge size 0)) by lia. cbn [members Path Attributes link].
  destruct (read_line (bytes_of "Attributes = ") attrs (10 :: rest)
    (MkParser ms (Some (MkMember path size [])) false) Hattr) as (H3 & L3 & T3);
    [by apply (bool_decide_unpack _); vm_compute|done|done|].
  rewrite H3. clear H3. unfold parse_line at 1. rewrite L3, T3.
  change (cut kv_sep (bytes_of "Attributes = " ++ attrs)) with (Some (bytes_of "Attributes", attrs)).
  rewrite bool_decide_eq_false_2 by done. cbn iota beta. rewrite bool_decide_eq_false_2 by done. cbn [member].
  unfold parse_key at 1. rewrite bool_decide_eq_false_2 by done. rewrite bool_decide_eq_true_2 by done.
  cbn [orb members Path Size Attributes link app]. rewrite Htrim. apply read_blank.
Qed.

(** The parser reads back what the lister prints. *)
Theorem listing_roundtrip l : Forall printable l -> Z.of_nat (length l) <= parseMemberBound ->
  parseMembers (print_members l) = inr l.
Proof.
  intros Hl Hlen. unfold parseMembers.
  assert (Hgo : forall ms, Z.of_nat (length ms) + Z.of_nat (length l) <= parseMemberBound ->
    parse_lines (raw_lines [] (print_members l)) (MkParser ms None false) = inr (MkParser (ms ++ l) None false)).
  { clear Hlen. induction Hl as [|m l Hm Hl IH]; intros ms Hms; [by rewrite app_nil_r|].
    change (print_members (m :: l)) with (print_member m ++ print_members l). cbn [length] in Hms.
    rewrite read_member by (done || lia). rewrite IH by (rewrite length_app; simpl; lia). by rewrite <- app_assoc. }
  by rewrite Hgo.
Qed.

(** ** Errors and passwords *)

(** Every code a failed extraction records is in the vocabulary of the row. *)
Lemma extractErrorCode_known e : contains taskErrorCodes (extractErrorCode e) = true.
Proof. unfold extractErrorCode. repeat case_match; by vm_compute. Qed.

Lemma add_candidate_spec c pw : NoDup c -> (length c <= S MaxCandidates)%nat ->
  let c' := add_candidate c pw in
  NoDup c' /\ (length c' <= S MaxCandidates)%nat /\ c `prefix_of` c' /\
  (forall x, x ∈ c' -> x ∈ c \/ x = pw) /\ (pw ∈ c' \/ length c' = S MaxCandidates).
Proof.
  intros Hnd Hlen. unfold add_candidate. destruct (MaxCandidates <? length c)%nat eqn:Hl; cbn zeta.
  { apply Nat.ltb_lt in Hl. split_and!; [done|lia|done|by left|right; lia]. }
  apply Nat.ltb_ge in Hl. destruct (contains c pw) eqn:Hc.
  { unfold contains in Hc. apply bool_decide_eq_true in Hc. by split_and!; [..|by left|left]. }
  unfold contains in Hc. apply bool_decide_eq_false in Hc. rewrite length_app. simpl. split_and!.
  - apply list.NoDup_app. split_and!; [done| |apply list.NoDup_singleton]. intros x Hx ->%list_elem_of_singleton. done.
  - lia.
  - by exists [pw].
  - intros x [| ->%list_elem_of_singleton]%elem_of_app; auto.
  - left. apply elem_of_app. right. by left.
Qed.

(** The candidates are the empty password, then the task's own and the shared
    ones in order, each once, at most sixteen; none is left out before that. *)
Theorem Candidates_spec own shared : let c := Candidates own shared in
  NoDup c /\ (length c <= S MaxCandidates)%nat /\ list.head c = Some EmptyString /\
  (forall x, x ∈ c -> x = EmptyString \/ x = own \/ x ∈ shared) /\
  (forall x, x = own \/ x ∈ shared -> x ∈ c \/ length c = S MaxCandidates).
Proof.
  cbn zeta. unfold Candidates.
  assert (Hgo : forall l c, NoDup c -> (length c <= S MaxCandidates)%nat ->
    let c' := fold_left add_candidate l c in
    NoDup c' /\ (length c' <= S MaxCandidates)%nat /\ c `prefix_of` c' /\ (forall x, x ∈ c' -> x ∈ c \/ x ∈ l) /\
    (forall x, x ∈ l -> x ∈ c' \/ length c' = S MaxCandidates)).
  { induction l as [|pw l IH]; intros c Hnd Hlen; simpl; [split_and!; [done..|by left|]; intros x Hx; by apply elem_of_nil in Hx|].
    destruct (add_candidate_spec c pw Hnd Hlen) as (Hnd1 & Hlen1 & Hpre1 & Hin1 & Hpw).
    destruct (IH _ Hnd1 Hlen1) as (Hnd2 & Hlen2 & Hpre2 & Hin2 & Hall). split_and!; [done|done|by etransitivity|..].
    - intros x [[| ->]%Hin1|]%Hin2; [by left|right; by left|right; by right].
    - intros x [->|Hx]%elem_of_cons; [|by apply Hall]. destruct Hpw as [Hpw|Hpw].
      + left. destruct Hpre2 as [k ->]. apply elem_of_app. by left.
      + right. destruct Hpre2 as [k Hk]. rewrite Hk, length_app in Hlen2 |- *. lia. }
  destruct (add_candidate_spec [EmptyString] own) as (Hnd1 & Hlen1 & Hpre1 & Hin1 & Hown); [apply list.NoDup_singleton|simpl; lia|].
  destruct (Hgo shared _ Hnd1 Hlen1) as (Hnd2 & Hlen2 & Hpre2 & Hin2 & Hall). split_and!; [done|done|..].
  - destruct Hpre1 as [k1 Hk1], Hpre2 as [k2 ->]. by rewrite Hk1.
  - intros x [[->%list_elem_of_singleton| ->]%Hin1|]%Hin2; auto.
  - intros x [->|Hx]; [|by apply Hall]. destruct Hown as [Hown|Hown].
    + left. destruct Hpre2 as [k ->]. apply elem_of_app. by left.
    + right. destruct Hpre2 as [k Hk]. rewrite Hk, length_app in Hlen2 |- *. lia.
Qed.

(** ** Small listings *)

Definition demo_member : Member := MkMember (bytes_of "a/b.txt") 12 (bytes_of "-rw-r--r--").

Lemma demo_printable : printable demo_member.
Proof. split_and!; try (apply (bool_decide_unpack _); by vm_compute); done. Qed.

Lemma listing_roundtrip_witness : parseMembers (print_members [demo_member; demo_member]) = inr [demo_member; demo_member].
Proof. apply listing_roundtrip; [repeat constructor; apply demo_printable|done]. Defined.

Lemma validate_exact_witness :
  caps_ok (MkCaps 100 3 50 4) /\ validate (H := ascii_tables) id [demo_member] (MkCaps 100 3 50 4) = None /\
  declared [demo_member] = 12.
Proof.
  split; [done|]. split; [|done].
  apply (validate_exact (H := ascii_tables) id (MkCaps 100 3 50 4) [demo_member]); [done|repeat constructor; done|].
  split_and!; [done| |done]. repeat constructor; try (by vm_compute); try done.
Defined.

Lemma accepted_archive_is_safe_witness :
  declared [demo_member] <= 10000 /\ 1 <= Z.of_nat (length (segments (Path demo_member))) <= 32.
Proof.
  destruct (accepted_archive_is_safe (H := ascii_tables) id (print_members [demo_member]) 1000 [demo_member])
    as (_ & Hd & Hall & _); [done|by vm_compute|by vm_compute|done|].
  apply list.Forall_cons in Hall as [(_ & Hs & _) _]. split; [etransitivity; [exact Hd|by vm_compute]|done].
Defined.

(** A traversal, a link and a setuid program are refused. *)
Example hostile_members : Forall (fun m => validate (H := ascii_tables) id [m] (MkCaps 100 3 50 4) = Some ErrInvalidArchive)
  [MkMember (bytes_of "a/../../x") 1 []; MkMember (bytes_of "/etc/passwd") 1 [];
   MkMember (bytes_of "a") 1 (bytes_of "A_ lrwxrwxrwx"); MkMember (bytes_of "a") 1 (bytes_of "-rwsr-xr-x");
   MkMember (bytes_of "a\..\x") 1 []].
Proof. repeat constructor; by vm_compute. Qed.
