(* ===== verification/Extract.v ===== *)
(** * The verified delivery of an extraction

    The staged tree of [jobs/handlers_extract.go]: its verification against
    the listing and its delivery. *)

From stdpp Require Import gmap.
From S2P Require Import Prelude GoStrings Schema SafePath SafeJoin Manifest Disk DiskProps Move MoveProps MoveHandler MoveHandlerProps Archive.

Open Scope Z_scope.

Section Extract.
Context {X : Type} `{!UnicodeTables}.
Abbreviation D := (Disk.D X).
(** [stat.Nlink > 1] of a regular file. *)
Context (linked : path -> bool).

(** The callback of [verifyAndMove]: the count and the verdict that ends the
    walk. *)
Definition verify_written (tmp : path) (caps : Caps) (acc : Z * option archive_err) (q : path) (e : entry) :
    D ((Z * option archive_err) * bool) :=
  if bool_decide (q = tmp) then mret (acc, true)
  else
    let count := acc.1 + 1 in
    if MemberCount caps <? count then mret ((count, Some ErrCapExceeded), false)
    else
      info ← Lstat q;
      match info with
      | Directory => Chmod q ;; mret ((count, None), true)
      | Regular _ =>
        if linked q then mret ((count, Some ErrInvalidArchive), false)
        else Chmod q ;; mret ((count, None), true)
      | _ => mret ((count, Some ErrInvalidArchive), false)
      end.

(** [verifyAndMove]: the verdict on the tree, or an error of the disk. *)
Definition verifyAndMove (tmp target : path) (caps : Caps) : D (option archive_err) :=
  acc ← WalkDir tmp (0, None) (verify_written tmp caps);
  match acc.2 with
  | Some e => mret (Some e)
  | None =>
    Chmod tmp ;;
    renamed ← try_ (Rename tmp target);
    match renamed with
    | inr _ => mret None
    | inl e =>
      if bool_decide (NotEmpty ∈ e) || bool_decide (Errno EEXIST ∈ e) then
        same ← try_ (sameExtractedTree tmp target);
        if bool_decide (same = inr true) then RemoveAll tmp ;; mret None else throw e
      else throw e
    end
  end.

(** The end of [run]: what is not delivered is discarded, and an error of
    that is joined to the verdict. *)
Definition deliver_tree (tmp target : path) (caps : Caps) : D ((errs + option archive_err) * errs) :=
  r ← try_ (verifyAndMove tmp target caps);
  if bool_decide (r = inr None) then mret (r, [])
  else
    removed ← try_ (RemoveAll tmp);
    mret (r, match removed with inl e' => e' | inr _ => [] end).

(** [soleInnerArchive]. *)
Definition soleInnerArchive (tmp : path) : D (option path) :=
  entries ← try_ (ReadDir tmp);
  mret match entries with
  | inr [(name, Regular _)] => if bool_decide (archiveExt name = []) then None else Some (tmp ++ [name])
  | _ => None
  end.
End Extract.

(** * A delivered tree holds plain files and directories only

    Over every behaviour of the disk and whatever tree the extractor left in
    its staging directory. *)

Section Deliver.
Context {X : Type} (a : answers) (linked : path -> bool) (f0 : fs) (tmp target : path) (caps : Caps).
Abbreviation here := (fun d : disk => files d = f0).
Hypothesis Hclosed : closed f0.
Hypothesis Htmp : f0 !! tmp = Some Directory.
Hypothesis Hin : ~ below tmp target.
Hypothesis Hout : ~ below target tmp.

(** A directory, or a file with a single link. *)
Definition fine (q : path) (e : entry) : Prop :=
  e = Directory \/ (exists data, e = Regular data) /\ linked q = false.

(** The tree at [tmp] is one that may be delivered. *)
Definition acceptable : Prop :=
  (forall r e, r <> [] -> f0 !! (tmp ++ r) = Some e -> fine (tmp ++ r) e) /\
  forall l, NoDup l -> (forall r, r ∈ l -> r <> [] /\ is_Some (f0 !! (tmp ++ r))) ->
    Z.of_nat (length l) <= Z.max 0 (MemberCount caps).

(** What the walk has established of the names it has visited. *)
Definition checked (vis : list path) (acc : Z * option archive_err) (d : disk) : Prop :=
  here d /\ acc.2 = None /\ acc.1 <= Z.max 0 (MemberCount caps) /\
  exists l, NoDup l /\ acc.1 = Z.of_nat (length l) /\
    (forall q, q ∈ l <-> q ∈ vis /\ q <> tmp) /\ forall q e, q ∈ l -> f0 !! q = Some e -> fine q e.

Lemma checked_more vis acc q e d : checked vis acc d -> q ∉ vis -> q <> tmp -> f0 !! q = Some e -> fine q e ->
  acc.1 + 1 <= MemberCount caps -> checked (q :: vis) (acc.1 + 1, None) d.
Proof.
  intros (Hd & _ & Hle & l & Hnd & Hlen & Hl & Hf) Hq Hne He Hfine Hcap. split_and!; [done|done|simpl; lia|].
  exists (q :: l). split_and!.
  - constructor; [|done]. by intros [? _]%Hl.
  - simpl. lia.
  - intros p. rewrite !elem_of_cons, Hl. split; [intros [->|[? ?]]; auto|]. intros [[->|?] ?]; auto.
  - intros p e' [->|Hp]%elem_of_cons He'; [by simplify_eq|by eapply Hf].
Qed.

Lemma check_rule vis acc q e : below tmp q -> f0 !! q = Some e -> q ∉ vis ->
  triple a here (checked vis acc) (verify_written (X := X) linked tmp caps acc q e)
    (fun r d => if r.2 : bool then checked (q :: vis) r.1 d else here d /\ r.1.2 <> None) (fun _ d => here d).
Proof.
  intros Hb He Hq. unfold verify_written. case_bool_decide as Hroot.
  { subst q. apply triple_ret. intros d (Hd & Hn & Hle & l & Hnd & Hlen & Hl & Hf). split_and!; [done..|].
    exists l. split_and!; [done|done| |done]. intros p. rewrite Hl, elem_of_cons. naive_solver. }
  destruct (_ <? _) eqn:Hcap; [by apply triple_ret; intros d [? _]|]. apply Z.ltb_ge in Hcap.
  eapply triple_bind with (R := fun info d => checked vis acc d /\ info = e).
  { apply triple_pure_call; [by intros d [? _]|by intros n d e' [? _]|]. intros n d Hd. pose proof Hd as [Hh _].
    rewrite Hh, He. by split. }
  intros info. apply (triple_pure _ _ _ (info = e)); [by intros d [_ ?]|]. intros ->.
  assert (Hgo : fine q e -> triple a here (fun d => checked vis acc d /\ e = e)
    (Chmod q ;; mret ((acc.1 + 1, None), true) : D X ((Z * option archive_err) * bool))
    (fun r d => if r.2 : bool then checked (q :: vis) r.1 d else here d /\ r.1.2 <> None) (fun _ d => here d)).
  { intros Hf. eapply triple_bind with (R := fun _ d => checked vis acc d).
    - apply triple_pure_call; [by intros d [[? _] _]|by intros n d e' [[? _] _]|]. intros n d [Hd _].
      pose proof Hd as [Hh _]. by rewrite Hh, He.
    - intros u. apply triple_ret. intros d Hd. cbn [fst snd]. by eapply checked_more. }
  assert (Hno : triple a here (fun d => checked vis acc d /\ e = e)
    (mret ((acc.1 + 1, Some ErrInvalidArchive), false) : D X ((Z * option archive_err) * bool))
    (fun r d => if r.2 : bool then checked (q :: vis) r.1 d else here d /\ r.1.2 <> None) (fun _ d => here d)).
  { apply triple_ret. by intros d [[? _] _]. }
  destruct e; [|apply Hgo; by left|done|done].
  destruct (linked q) eqn:Hl; [done|]. apply Hgo. right. split; [by eexists|done].
Qed.

Lemma checked_all vis acc d : (forall q, below tmp q -> is_Some (f0 !! q) -> q ∈ vis) -> checked vis acc d -> acceptable.
Proof.
  intros Hall (_ & _ & Hle & l & Hnd & Hlen & Hl & Hf). split.
  - intros r e Hr He. eapply Hf; [|done]. apply Hl. split; [apply Hall; [apply below_app|by eexists]|].
    destruct r as [|x r]; [done|]. by apply not_eq_sym, app_longer.
  - intros k Hk Hin'. transitivity (Z.of_nat (length l)); [|lia]. apply inj_le.
    rewrite <- (length_fmap (fun r => tmp ++ r) k). apply submseteq_length, NoDup_submseteq.
    + apply NoDup_fmap_2; [|done]. intros r r'. apply app_inv_head.
    + intros q (r & -> & Hr)%list_elem_of_fmap. destruct (Hin' r Hr) as [Hne Hs]. apply Hl.
      split; [apply Hall; [apply below_app|done]|]. destruct r as [|x r]; [done|]. by apply not_eq_sym, app_longer.
Qed.

Lemma walk_checks :
  triple a here here (WalkDir (X := X) tmp (0, None) (verify_written linked tmp caps))
    (fun acc d => here d /\ (acc.2 = None -> acceptable)) (fun _ d => here d).
Proof.
  eapply triple_weaken; [apply (WalkDir_rule a here f0 tmp checked (fun acc d => here d /\ acc.2 <> None)
    (fun _ d => here d))|..].
  - intros p q _ Hb Hne Hq. by apply (closed_parent f0 p q).
  - by intros vis acc d [? _].
  - by intros vis acc d q [-> _].
  - by intros vis acc d n e [? _].
  - intros vis acc q e Hb He Hq _. by apply check_rule.
  - by intros d [? _].
  - intros d Hd. split_and!; [done|done|simpl; lia|]. exists []. split_and!; [constructor|done| |].
    + intros q. split; [intros Hq; by apply elem_of_nil in Hq|]. intros [Hq _]. by apply elem_of_nil in Hq.
    + intros q e Hq. by apply elem_of_nil in Hq.
  - intros acc d [(vis & Hall & Hc)|[? ?]]; [|by split; [|intros ?]].
    split; [by destruct Hc as [? _]|]. intros _. by eapply checked_all.
  - done.
Qed.

(** ** Delivery *)

Lemma target_apart r : ~ below tmp (target ++ r).
Proof. intros Hb. by destruct (below_total tmp target _ Hb (below_app _ _)). Qed.

Definition elsewhere (d : disk) : Prop :=
  forall p, ~ below tmp p -> ~ below target p -> files d !! p = f0 !! p.
(** The target is as it was. *)
Definition before (d : disk) : Prop := elsewhere d /\ forall r, files d !! (target ++ r) = f0 !! (target ++ r).
(** The staged tree is at the target, and it was acceptable. *)
Definition after (d : disk) : Prop :=
  elsewhere d /\ acceptable /\ (forall r, files d !! (target ++ r) = f0 !! (tmp ++ r)) /\
  forall r, files d !! (tmp ++ r) = None.
(** The target held such a tree already. *)
Definition same_already (d : disk) : Prop :=
  before d /\ acceptable /\ f0 !! target = Some Directory /\ fits f0 tmp target /\ fits f0 target tmp /\
  forall r, files d !! (tmp ++ r) = None.
Definition calm (d : disk) : Prop := before d \/ after d.

Lemma here_before d : here d -> before d.
Proof. intros Hd. split; [intros p _ _|intros r]; by rewrite Hd. Qed.

Lemma before_without keep d : before d -> before (without keep tmp d).
Proof.
  intros [Ho Ht]. split; [intros p Hp1 Hp2|intros r]; rewrite without_other; auto. apply target_apart.
Qed.

Lemma discard_tmp (Q : Prop) : triple a calm (fun d => before d /\ Q) (RemoveAll (X := X) tmp)
  (fun _ d => before d /\ Q /\ forall r, files d !! (tmp ++ r) = None) (fun _ d => before d).
Proof.
  apply RemoveAll_rule.
  - intros d [? _]. by left.
  - intros keep d [? ?]. split; [by apply before_without|done].
  - by intros n e d [? _].
  - intros d [Hd HQ]. pose proof (before_without (fun _ => false) d Hd). split; [|by left].
    split_and!; [done|done|]. intros r. simpl. apply map_lookup_filter_None. right. intros x _ [Hn|]; [|done].
    apply Hn, below_app.
Qed.

Lemma rename_rule : acceptable ->
  triple a calm here (Rename (X := X) tmp target) (fun _ d => after d) (fun _ d => here d).
Proof.
  intros Hok. apply triple_guarded.
  - intros n d e Hd _. split; [left; by apply here_before|done].
  - intros n d Hd. rewrite bool_decide_eq_false_2 by (intros Heq; apply Hin; by rewrite Heq).
    destruct (rename_check tmp target (files d)) as [e|[]]; simpl; [split; [left; by apply here_before|done]|].
    assert (Ha : after (MkDisk (move_files tmp target (files d)) (move_marks tmp target (wet_data d))
      ({[target]} ∪ move_marks tmp target (wet_name d)))); [|by split; [right|]].
    rewrite Hd. split_and!; [|done|..]; simpl.
    + intros p Hp1 Hp2. simpl. rewrite lookup_move by done. by rewrite !bool_decide_eq_false_2 by done.
    + intros r. rewrite lookup_move by done. rewrite bool_decide_eq_true_2 by apply below_app. by rewrite drop_app_length.
    + intros r. rewrite lookup_move by done. rewrite bool_decide_eq_false_2.
      * by rewrite bool_decide_eq_true_2 by apply below_app.
      * intros Hb. by destruct (below_total target tmp _ Hb (below_app _ _)).
Qed.

Lemma here_calm {A} P (m : D X A) Q Er : triple a here P m Q Er -> triple a calm P m Q Er.
Proof. apply triple_instants. intros d Hd. left. by apply here_before. Qed.

Lemma verify_rule :
  triple a calm here (verifyAndMove (X := X) linked tmp target caps)
    (fun v d => match v with Some _ => here d | None => after d \/ same_already d end) (fun _ d => before d).
Proof.
  unfold verifyAndMove. eapply triple_bind.
  { eapply triple_weaken; [apply here_calm, walk_checks|done|done|intros e d Hd; by apply here_before]. }
  intros acc. apply (triple_pure _ _ _ (acc.2 = None -> acceptable)); [by intros d [_ ?]|]. intros Hok.
  destruct acc.2 as [v|]; [apply triple_ret; by intros d [? _]|]. specialize (Hok eq_refl).
  eapply triple_bind with (R := fun _ d => here d).
  { apply triple_pure_call; [intros d [? _]; left; by apply here_before|intros n d e [? _] _; by apply here_before|].
    intros n d [Hd _]. by rewrite Hd, Htmp. }
  intros u. eapply triple_bind with (R := fun r d => match r with inr _ => after d | inl _ => here d end).
  { eapply triple_weaken; [eapply (triple_try _ _ _ _ (fun _ d => after d) (fun _ d => here d) (fun _ d => before d)),
      rename_rule, Hok|done|by intros [?|?]|done]. }
  intros [e|[]]; [|apply triple_ret; by left].
  assert (Hthrow : triple a calm here (throw (X := X) (A := option archive_err) e)
    (fun v d => match v with Some _ => here d | None => after d \/ same_already d end) (fun _ d => before d)).
  { apply triple_throw. intros d Hd. by apply here_before. }
  destruct (_ || _); [|done].
  eapply triple_bind with (R := fun r d => here d /\ (r = inr true -> f0 !! target = Some Directory /\ fits f0 tmp target /\ fits f0 target tmp)).
  { eapply triple_weaken; [eapply (triple_try _ _ here _ (fun b d => here d /\ (b = true ->
      f0 !! target = Some Directory /\ fits f0 tmp target /\ fits f0 target tmp)) (fun _ d => here d) (fun _ d => before d)),
      here_calm, sameExtracted_rule, Hclosed|done| |done].
    intros [e'|b] d; [by intros Hd; split|]. intros [Hd Hb]. split; [done|]. intros [= ->]. by apply Hb. }
  intros r. apply (triple_pure _ _ _ (r = inr true -> f0 !! target = Some Directory /\ fits f0 tmp target /\ fits f0 target tmp));
    [by intros d [_ ?]|]. intros Hsame.
  case_bool_decide as Hr.
  - specialize (Hsame Hr). eapply triple_bind with (R := fun _ d => before d /\ True /\ forall r, files d !! (tmp ++ r) = None).
    { eapply triple_weaken; [apply (discard_tmp True)|intros d [Hd _]; split; [by apply here_before|done]|done|done]. }
    intros u'. apply triple_ret. intros d (Hb & _ & Hv). right. destruct Hsame as (? & ? & ?). by split_and!.
  - eapply triple_weaken; [exact Hthrow|by intros d [? _]|done|done].
Qed.

Lemma deliver_tree_rule :
  triple a calm here (deliver_tree (X := X) linked tmp target caps)
    (fun r d => if bool_decide (r.1 = inr None) then after d \/ same_already d else before d) (fun _ _ => False).
Proof.
  unfold deliver_tree. eapply triple_bind.
  { eapply (triple_try _ _ _ _ _ _ (fun _ _ => False)), verify_rule. }
  intros r. case_bool_decide as Hr.
  { subst r. apply triple_ret. intros d Hd. by rewrite bool_decide_eq_true_2. }
  eapply triple_bind with (R := fun _ d => before d).
  - eapply triple_weaken; [eapply (triple_try _ _ _ _ _ _ (fun _ _ => False)), (discard_tmp True)|..|done].
    + intros d Hd. split; [|done]. destruct r as [e|[v|]]; [done|by apply here_before|done].
    + intros [e'|x] d; [done|by intros (? & _)].
  - intros x. apply triple_ret. intros d Hd. by rewrite bool_decide_eq_false_2.
Qed.
End Deliver.

(** C29: Whatever tree the extractor left and whatever fails, every other name is
    untouched at every instant, and the target is either as it was or the
    whole staged tree.  A delivery that succeeds leaves nothing staged, and
    what is at the target holds directories and singly linked plain files
    only, no more of them than the cap allows. *)
Theorem deliver_tree_safe {X} a linked tmp target caps (s : state X) :
  let f0 := files (cur s) in
  closed f0 -> f0 !! tmp = Some Directory -> ~ below tmp target -> ~ below target tmp ->
  let (r, s') := deliver_tree linked tmp target caps a s in
  (exists trace, past s' = trace ++ past s /\ Forall (calm linked f0 tmp target caps) trace) /\
  exists v, r = inr v /\
    if bool_decide (v.1 = inr None) then
      after linked f0 tmp target caps (cur s') \/ same_already linked f0 tmp target caps (cur s')
    else before f0 tmp target (cur s').
Proof.
  intros f0 Hc Htmp Hin Hout.
  pose proof (deliver_tree_rule (X := X) a linked f0 tmp target caps Hc Htmp Hin Hout s eq_refl) as (t & Hp & HI & Hr).
  destruct (deliver_tree linked tmp target caps a s) as [[e|v] s']; [done|]. split; [by exists t|]. by exists v.
Qed.

(** ** A small tree *)

Definition staged_fs (kids : list (list Z * entry)) : fs := list_to_map
  ([([], Directory); ([[116]], Directory)] ++ ((fun k => ([[116]; k.1], k.2)) <$> kids)).
Definition staged (kids : list (list Z * entry)) : state unit := State 0 (MkDisk (staged_fs kids) ∅ ∅) [] tt.
Definition quiet_env : answers := demo_env [] (fun _ => false).
Definition small_caps : Caps := MkCaps 10 2 10 4.

Lemma deliver_tree_safe_witness :
  let '(r, s') := deliver_tree (fun _ => false) [[116]] [[117]] small_caps quiet_env (staged [([97], Regular [1; 2])]) in
  r = inr (inr None, []) /\ files (cur s') !! [[117]; [97]] = Some (Regular [1; 2]) /\ files (cur s') !! [[116]] = None.
Proof.
  pose proof (deliver_tree_safe quiet_env (fun _ => false) [[116]] [[117]] small_caps (staged [([97], Regular [1; 2])])) as Hsafe.
  cbn zeta in Hsafe. destruct (deliver_tree _ _ _ _ _ _) as [r s'] eqn:Hrun.
  assert (Hr : r = inr (inr None, [])) by (change r with (r, s').1; rewrite <- Hrun; by vm_compute).
  destruct Hsafe as [_ (v & Hv & Hd)]; [by apply closedb_closed; vm_compute|by vm_compute|
    by apply (bool_decide_unpack _); vm_compute|by apply (bool_decide_unpack _); vm_compute|].
  split; [done|]. rewrite Hr in Hv. injection Hv as <-. rewrite bool_decide_eq_true_2 in Hd by done.
  destruct Hd as [(_ & _ & Ht & Hg)|(_ & _ & Hn & _)]; [|by vm_compute in Hn].
  split; [apply (Ht [[97]])|apply (Hg [])].
Defined.

(** A link, a second hard link and a crowd are refused, and nothing stays. *)
Example refused_trees :
  let verdict linked kids :=
    let '(r, s) := deliver_tree linked [[116]] [[117]] small_caps quiet_env (staged kids) in
    (r, bool_decide (files (cur s) !! [[116]] = None), bool_decide (files (cur s) !! [[117]] = None)) in
  verdict (fun _ => false) [([97], Symlink)] = (inr (inr (Some ErrInvalidArchive), []), true, true) /\
  verdict (fun _ => true) [([97], Regular [1])] = (inr (inr (Some ErrInvalidArchive), []), true, true) /\
  verdict (fun _ => false) [([97], Regular []); ([98], Regular []); ([99], Regular [])] =
    (inr (inr (Some ErrCapExceeded), []), true, true).
Proof. by vm_compute. Qed.

(** The bytes are not counted again: a tree that was written between two
    samples of the poll is delivered whatever its size. *)
Example unsampled_bytes_are_delivered :
  let '(r, s) := deliver_tree (fun _ => false) [[116]] [[117]] (MkCaps 1 2 1 4) quiet_env
    (staged [([97], Regular [1; 2; 3; 4; 5])]) in
  bool_decide (r = inr (inr None, []) /\ files (cur s) !! [[117]; [97]] = Some (Regular [1; 2; 3; 4; 5])) = true.
Proof. by vm_compute. Qed.
