(* ===== verification/Chain.v ===== *)
(** * The post-processing chain ([internal/jobs/postprocess.go], [hook.go])

    What happens to a task that reached completed: the extraction and the move
    it is owed are dispatched through the jobs table, its event is fanned out
    to the notification channels ([handlers_notify.go]), the completion hook
    runs, and the row may be removed.  The jobs table lies behind [JobTable];
    the driver's answers are those of the [oracle]. *)

From stdpp Require Import fin_maps pretty.
From S2P Require Import Prelude GoStrings TaskState Schema Lease World Store Jobs SafePath Archive MoveHandler.

Open Scope Z_scope.

(** ** The jobs table as a client sees it *)

(** The committed rows and the copy of an open transaction. *)
Record job_store := MkJobStore { committed : jobs; working : option jobs }.

(** Where the table is kept in the state behind the interfaces. *)
Class JobTable (E : Type) := {
  job_table : E -> job_store;
  set_job_table : job_store -> E -> E;
  job_table_set : forall s e, job_table (set_job_table s e) = s }.

(** A statement on the table: the rows it leaves and how many it matched, or
    [None] when a constraint refuses it.  It sees the tasks its foreign key
    points to. *)
Definition job_stmt : Type := db -> jobs -> option (jobs * Z).

Section Table.
Context {E : Type} `{!JobTable E}.
Abbreviation M := (M E).
Abbreviation world := (world E).

Definition store_of (w : world) : job_store := job_table (w_eng w).
Definition with_store (s : job_store) (w : world) : world := set_eng (set_job_table s (w_eng w)) w.
Definition rows (w : world) : jobs := default (committed (store_of w)) (working (store_of w)).
Definition put_rows (t : jobs) (w : world) : world :=
  with_store (match working (store_of w) with
    | Some _ => MkJobStore (committed (store_of w)) (Some t)
    | None => MkJobStore t None
    end) w.

(** [ExecContext] and [GetContext]. *)
Definition exec_jobs (q : job_stmt) : M Z := fun o w =>
  match o_io o (w_n w), q (current w) (rows w) with
  | IoFail, _ => (inl ErrDriver, bump w)
  | _, None => (inl ErrConstraint, bump w)
  | IoOk, Some (t, k) => (inr k, bump (put_rows t w))
  | IoFailLanded, Some (t, _) => (inl ErrDriver, bump (put_rows t w))
  end.
Definition query_jobs {A} (q : jobs -> A) : M A := fun o w =>
  match o_io o (w_n w) with
  | IoOk => (inr (q (rows w)), bump w)
  | _ => (inl ErrDriver, bump w)
  end.

(** A transaction that writes this table only. *)
Definition publish (w : world) : world := with_store (MkJobStore (rows w) None) w.
Definition discard (w : world) : world := with_store (MkJobStore (committed (store_of w)) None) w.
Definition begin_jobs : M unit := fun o w =>
  match o_io o (w_n w) with
  | IoOk => (inr tt, bump (with_store (MkJobStore (committed (store_of w)) (Some (committed (store_of w)))) w))
  | _ => (inl ErrDriver, bump w)
  end.
Definition commit_jobs : M unit := fun o w =>
  match o_io o (w_n w) with
  | IoOk => (inr tt, bump (publish w))
  | IoFail => (inl ErrDriver, bump (discard w))
  | IoFailLanded => (inl ErrDriver, bump (publish w))
  end.
Definition job_rolled_back {A} (body : M A) : M A := fun o w => let (r, w) := body o w in (r, discard w).
Definition with_job_tx {A} (body : M A) : M A := begin_jobs ;; job_rolled_back body.

(** The commit of a transaction that deleted tasks: the foreign key takes
    their jobs along. *)
Definition orphan (d : db) (j : Job) : bool :=
  match TaskID j with Some id => bool_decide (d_tasks d !! id = None) | None => false end.
Definition cascade (w : world) : world :=
  let kept := filter (fun p => orphan (w_db w) p.2 = false) in
  with_store (MkJobStore (kept (committed (store_of w))) (kept <$> working (store_of w))) w.
Definition commit_cascading : M unit := fun o w => let (r, w) := commit o w in (r, cascade w).
End Table.

(** ** Statements *)

(** [UPDATE jobs SET .. WHERE guard]. *)
Definition update_jobs (guard : Job -> bool) (f : Job -> Job) : job_stmt := fun _ t =>
  Some ((fun j => if guard j then f j else j) <$> t, Z.of_nat (size (filter (fun p => guard p.2 = true) t))).

(** [INSERT .. SELECT .. WHERE NOT EXISTS (SELECT 1 FROM jobs WHERE present)]. *)
Definition exists_job (present : Job -> bool) (t : jobs) : bool := existsb (fun p => present p.2) (map_to_list t).
Definition insert_unless (present : Job -> bool) (id : string) (j : Job) : job_stmt := fun d t =>
  if exists_job present t then Some (t, 0)
  else if orphan d j || bool_decide (is_Some (t !! id)) then None
  else Some (<[id := j]> t, 1).

Definition JobKindWebhook : string := "webhook".

(** A row as the inserts of the chain make it. *)
Definition new_job (kind : string) (taskID : option string) (payload : string) (now : Z) : Job :=
  MkJob kind taskID payload JobPending 0 default_max_attempts now None None now now.

(** [ORDER BY created_at DESC LIMIT 1]. *)
Definition newest_job (sel : Job -> bool) (t : jobs) : option Job :=
  foldr (fun p acc => match acc with
      | Some j => if JCreatedAt p.2 <? JCreatedAt j then Some j else Some p.2
      | None => Some p.2
      end) None (List.filter (fun p => sel p.2) (map_to_list t)).

(** ** Paths *)

(** [filepath.Join] of two elements and [filepath.Base]. *)
Definition Join (a b : string) : string :=
  if bool_decide (a = EmptyString) then (if bool_decide (b = EmptyString) then EmptyString else Clean b)
  else Clean (a +:+ "/" +:+ b).
Definition Base (path : string) : string :=
  if bool_decide (path = EmptyString) then "."
  else
    let trimmed := trim_right_byte slash path in
    let base := List.last (split_byte slash trimmed) EmptyString in
    if bool_decide (base = EmptyString) then "/" else base.

(** ** Notification events *)

(** [Event], but for the detail, which the chain leaves out. *)
Record Event := MkNotice { EvCode : string; EvTaskID : string; EvName : string; EvState : TaskState;
  EvMessage : string; EvAt : Z }.

(** The columns of [notification_channels] the fan-out reads; [None] is an
    event mask that is not a JSON string array. *)
Record Channel := MkChannel { ch_id : string; ch_enabled : Z; ch_event_mask : option (list string) }.

(** [Matches]. *)
Definition Matches (mask : list string) (code : string) : bool := contains mask "*"%string || contains mask code.

(** [webhookPayload]. *)
Record webhookPayload := MkWebhook { ChannelID : string; wh_event : Event }.

(** ** The completion hook *)

Definition hookOutputCap : Z := Z.shiftl 8 10.

(** [hookBuffer.Write]: what is kept of one chunk. *)
Definition hook_write (buf p : list Z) : list Z :=
  let remaining := hookOutputCap - Z.of_nat (length buf) in
  if 0 <? remaining then
    if remaining <? Z.of_nat (length p) then buf ++ take (Z.to_nat remaining) p else buf ++ p
  else buf.

(** How [cmd.Run] ended: whether the run's own deadline has passed, its error
    with the exit status - if the child produced one - and its text, and the
    chunks written to each stream. *)
Record child := MkChild {
  deadline_exceeded : bool; run_err : option (option Z * string); out_chunks : list (list Z); err_chunks : list (list Z) }.

(** [hookEnv] and the argument vector. *)
Definition hookPathEnv : string := "PATH=/usr/local/bin:/usr/bin:/bin".
Definition hookEnv (id : string) (t : task) : list string :=
  [hookPathEnv; "DLTOOL_TASK_ID=" +:+ id; "DLTOOL_TASK_NAME=" +:+ t_name t;
   "DLTOOL_TASK_STATE=" +:+ state_string (t_state t); "DLTOOL_TASK_DESTINATION=" +:+ t_destination t;
   "DLTOOL_TASK_CONTENT_PATH=" +:+ default EmptyString (t_content_path t);
   "DLTOOL_TASK_TOTAL_BYTES=" +:+ default EmptyString (pretty <$> t_total_bytes t)]%string.
Definition hookArgs (id : string) (t : task) : list string :=
  [id; state_string (t_state t); t_name t; t_destination t; default EmptyString (t_content_path t)].

Definition hookFilename : string := "on-complete".
Definition HookPath (configDir : string) : string := Clean (configDir +:+ "/hooks/" +:+ hookFilename).
Definition HookTimeoutSeconds : Z := 60.
Definition eventHookCompleted : string := "postprocess.hook.completed".
Definition eventHookFailed : string := "postprocess.hook.failed".
Definition eventHookSkipped : string := "postprocess.hook.skipped".

(** [hookFailureMessage]. *)
Definition hookFailureMessage (e : option Z * string) : string :=
  match e.1 with
  | Some code => if 0 <=? code then "completion hook exited with status " +:+ pretty code
                 else "completion hook failed: " +:+ e.2
  | None => "completion hook failed: " +:+ e.2
  end.

(** ** The chain *)

Section Chain.
Context {E : Type} `{!JobTable E} `{!UnicodeTables}.
Abbreviation M := (M E).
Abbreviation world := (world E).
(** The decoded boolean rows of the settings ([None]: no row, [Some None]:
    malformed), the channels, [json.Marshal] of the payloads, and the file
    and the process behind the hook: what [os.Stat] says of the file (whether
    it is regular), what [access] says, and how the child ends. *)
Context (bool_row : db -> string -> option (option bool)) (channels : db -> list Channel)
  (encode_extract : string -> string) (encode_move : movePayload -> string) (encode_webhook : webhookPayload -> string)
  (hook_stat : nat -> option bool) (hook_access : nat -> bool) (hook_child : nat -> list string -> list string -> child).
(** Whether a notifier is attached, and the config directory. *)
Context (notifier : bool) (configDir : string).

(** [boolSetting]. *)
Definition boolSetting (key : string) : M bool :=
  raw ← query (fun d => bool_row d key);
  mret (match raw with Some (Some value) => value | _ => false end).

(** [extractJobState] and [extractSettled]. *)
Definition extractJobState (taskID : string) : M (option job_state) :=
  query_jobs (fun t => JState <$> newest_job (of_task JobKindExtract taskID) t).
Definition extractSettled (taskID : string) : M bool :=
  state ← extractJobState taskID;
  mret (bool_decide (state = Some JobRunning) || bool_decide (state = Some JobDone)).

(** [enqueueExtract]. *)
Definition enqueueExtract (taskID : string) : M unit :=
  now ← unix_milli;
  _ ← exec_jobs (update_jobs (failed_extract taskID)
        (fun j => reset_job (PayloadJSON j) now j));
  id ← NewID "job_";
  _ ← exec_jobs (insert_unless (of_task JobKindExtract taskID) id
        (new_job JobKindExtract (Some taskID) (encode_extract taskID) now));
  mret tt.

(** [moveSettled]. *)
Definition moveSettled (taskID : string) : M bool :=
  state ← query_jobs (fun t => JState <$> newest_job (of_task JobKindMove taskID) t);
  mret (bool_decide (state = Some JobRunning)).

(** [enqueueMove]. *)
Definition enqueueMove (taskID src dst : string) : M unit :=
  now ← unix_milli;
  let payload := encode_move (MkPayload taskID src dst) in
  with_job_tx (
    _ ← exec_jobs (update_jobs (stale_move taskID payload) (reset_job payload now));
    id ← NewID "job_";
    _ ← exec_jobs (insert_unless (of_task JobKindMove taskID) id (new_job JobKindMove (Some taskID) payload now));
    commit_jobs).

(** [Fanout]. *)
Definition queryEnqueueWebhook (id payload : string) (now : Z) : job_stmt :=
  insert_unless (fun j => bool_decide (Kind j = JobKindWebhook) && bool_decide (PayloadJSON j = payload)) id
    (new_job JobKindWebhook None payload now).
Fixpoint fanout_loop (now : Z) (ev : Event) (l : list Channel) : M unit :=
  match l with
  | [] => mret tt
  | ch :: l =>
    if ch_enabled ch =? 0 then fanout_loop now ev l
    else match ch_event_mask ch with
    | None => fanout_loop now ev l
    | Some mask =>
      if negb (Matches mask (EvCode ev)) then fanout_loop now ev l
      else
        id ← NewID "job_";
        _ ← exec_jobs (queryEnqueueWebhook id (encode_webhook (MkWebhook (ch_id ch) ev)) now);
        fanout_loop now ev l
    end
  end.
Definition Fanout (ev : Event) : M unit :=
  l ← query channels;
  now ← unix_milli;
  fanout_loop now ev l.

(** [discoverHook]: present and runnable. *)
Definition discoverHook : M (bool * bool) := fun o w =>
  (inr match hook_stat (w_n w) with
   | None => (false, false)
   | Some false => (true, false)
   | Some true => (true, hook_access (w_n w))
   end, bump w).

(** [Hook.Run]. *)
Definition run_child (id : string) (t : task) : M child := fun o w =>
  (inr (hook_child (w_n w) (hookArgs id t) (hookEnv id t)), bump w).
Definition Run (id : string) (t : task) : M unit :=
  c ← run_child id t;
  let detail := HookDetail (HookPath configDir) (fold_left hook_write (out_chunks c) []) (fold_left hook_write (err_chunks c) []) in
  over ← (if deadline_exceeded c then ctx_done else mret true);
  if deadline_exceeded c && negb over then
    AppendEvent id "warn" eventHookFailed ("completion hook exceeded the " +:+ pretty HookTimeoutSeconds +:+ "s wall clock")
      (Some (detail None true EmptyString)) ;;
    fail ErrHookTimeout
  else match run_err c with
  | Some e =>
    AppendEvent id "warn" eventHookFailed (hookFailureMessage e)
      (Some match e.1 with
       | Some code => if 0 <=? code then detail (Some code) false EmptyString else detail None false e.2
       | None => detail None false e.2
       end)
  | None => AppendEvent id "info" eventHookCompleted "completion hook finished" (Some (detail (Some 0) false EmptyString))
  end.

(** [runHook]; [NewHook] is its first look at the file. *)
Definition runHook (id : string) (t : task) : M unit :=
  if bool_decide (configDir = EmptyString) then mret tt
  else
    hook ← discoverHook;
    if hook.2 : bool then
      r ← attempt (Run id t);
      match r with
      | inl e => if errors_is e ErrHookTimeout then mret tt else fail e
      | inr _ => mret tt
      end
    else
      again ← discoverHook;
      if again.1 : bool then
        AppendEvent id "warn" eventHookSkipped ("completion hook " +:+ HookPath configDir +:+ " is present but not executable")
          (Some (HookPresent (HookPath configDir)))
      else mret tt.

(** [maybeAutoRemove]. *)
Definition eventAutoRemoved : string := "postprocess.autoremoved".
Definition remove_task (taskID : string) : M unit :=
  with_tx (
    exists_ ← query (queryGetTask taskID);
    match exists_ with
    | None => mret tt
    | Some _ =>
      now ← unix_milli;
      insertTaskEvent taskID "info" eventAutoRemoved "removed automatically after completion" None now ;;
      _ ← exec (queryDeleteTask taskID);
      commit_cascading
    end).
Definition maybeAutoRemove (taskID : string) : M unit :=
  remove ← boolSetting "auto_remove_on_complete";
  if negb remove then mret tt else remove_task taskID.

(** The two conditions of [OnCompleted]. *)
Definition is_archive (t : task) : bool :=
  match t_content_path t with Some p => negb (bool_decide (archiveExt (bytes_of p) = [])) | None => false end.
Definition owes_move (t : task) : option (string * string) :=
  match t_content_path t with
  | Some src =>
    if bool_decide (src <> EmptyString) && bool_decide (t_destination t <> EmptyString)
       && bool_decide (Dir src <> Clean (t_destination t))
    then Some (src, Join (t_destination t) (Base src)) else None
  | None => None
  end.

(** The steps after the move, the steps after the extraction, and
    [OnCompleted]. *)
Definition CodeTaskCompleted : string := "task.completed".
Definition notify (taskID : string) (t : task) : M unit :=
  if notifier then
    now ← unix_milli;
    Fanout (MkNotice CodeTaskCompleted taskID (t_name t) (t_state t) "download finished" (default now (t_completed_at t)))
  else mret tt.
Definition tail (taskID : string) (t : task) : M unit :=
  notify taskID t ;; runHook taskID t ;; maybeAutoRemove taskID.
Definition after_extract (taskID : string) (t : task) : M unit :=
  match owes_move t with
  | Some (src, dst) =>
    settled ← moveSettled taskID;
    if (settled : bool) then tail taskID t else enqueueMove taskID src dst
  | None => tail taskID t
  end.
Definition OnCompleted (taskID : string) : M unit :=
  r ← attempt (Get taskID);
  match r with
  | inl e => if errors_is e ErrNotFound then mret tt else fail e
  | inr t =>
    extract ← (if is_archive t then boolSetting "auto_extract" else mret false);
    if (extract : bool) then
      settled ← extractSettled taskID;
      if (settled : bool) then after_extract taskID t else enqueueExtract taskID
    else after_extract taskID t
  end.
End Chain.
