(* ===== verification/ChainProps.v ===== *)
(** * The post-processing chain: what a pass may do

    [jobs_step] is what a pass may do to the jobs table, [calm] the frame of
    the steps that leave the task in place; the removal at the end and the
    dispatch of an owed move are described on top of them. *)

From stdpp Require Import fin_maps.
From S2P Require Import Prelude GoStrings TaskState Schema Lease World Frame Store StoreProps Jobs SafePath Archive MoveHandler Chain.

Open Scope Z_scope.

(** ** The jobs table *)

(** The two kinds a task has at most one row of. *)
Definition dispatched (kind : string) : Prop := kind = JobKindExtract \/ kind = JobKindMove.

Definition one_each (t : jobs) : Prop := forall i i' j j',
  t !! i = Some j -> t !! i' = Some j' -> dispatched (Kind j) -> Kind j = Kind j' ->
  TaskID j <> None -> TaskID j = TaskID j' -> i = i'.

(** A row waiting for its first run: of the task, or of a channel. *)
Definition fresh_job (taskID : string) (j : Job) : Prop :=
  JState j = JobPending /\ Attempts j = 0 /\ MaxAttempts j = default_max_attempts /\ LockedAt j = None /\
  (dispatched (Kind j) /\ TaskID j = Some taskID \/ Kind j = JobKindWebhook /\ TaskID j = None).

(** What a pass may do to a row: nothing, or put it back to the start - an
    extraction that failed, a move that is not under way. *)
Definition rearmed (taskID : string) (j j' : Job) : Prop :=
  j' = j \/
  (TaskID j = Some taskID /\ (exists payload now, j' = reset_job payload now j) /\
   (Kind j = JobKindExtract /\ JState j = JobFailed \/ Kind j = JobKindMove /\ JState j <> JobRunning)).

(** The foreign key: a row's task exists. *)
Definition linked (m : gmap string task) (t : jobs) : Prop := forall i j id,
  t !! i = Some j -> TaskID j = Some id -> is_Some (m !! id).

Record jobs_step (m : gmap string task) (taskID : string) (t t' : jobs) : Prop := {
  js_linked : linked m t -> linked m t';
  js_old : forall i j, t !! i = Some j -> exists j', t' !! i = Some j' /\ rearmed taskID j j';
  js_new : forall i j', t !! i = None -> t' !! i = Some j' -> fresh_job taskID j';
  js_one : one_each t -> one_each t' }.

Lemma reset_twice p p' n n' j : reset_job p' n' (reset_job p n j) = reset_job p' n' j.
Proof. done. Qed.

Lemma rearmed_trans taskID j j' j'' : rearmed taskID j j' -> rearmed taskID j' j'' -> rearmed taskID j j''.
Proof.
  intros [-> |(Ht & (p & n & ->) & Hk)] [-> |(Ht' & (p' & n' & ->) & Hk')]; [by left|by right; eauto 6|by right; eauto 6|].
  right. split; [done|]. split; [by exists p', n'|done].
Qed.

Lemma rearmed_fresh taskID j j' : fresh_job taskID j -> rearmed taskID j j' -> fresh_job taskID j'.
Proof.
  intros (Hs & Ha & Hm & Hl & Hk) [-> |(Ht & (p & n & ->) & _)]; [done|]. split_and!; [done..|].
  destruct Hk as [Hk|[_ Hk]]; [by left|congruence].
Qed.

#[global] Instance jobs_step_pre m taskID : PreOrder (jobs_step m taskID).
Proof.
  split.
  - intros t. split; [done| |congruence|done]. intros i j Hj. exists j. split; [done|by left].
  - intros t u v [L1 Ho1 Hn1 H1] [L2 Ho2 Hn2 H2]. split; [tauto| | |tauto].
    + intros i j (j1 & Hj1 & Hr1)%Ho1. destruct (Ho2 _ _ Hj1) as (j2 & Hj2 & Hr2).
      exists j2. split; [done|by eapply rearmed_trans].
    + intros i j Ht Hv. destruct (u !! i) as [ju|] eqn:Hu; [|by eapply Hn2].
      destruct (Ho2 _ _ Hu) as (j2 & Hj2 & Hr). replace j with j2 by congruence.
      eapply rearmed_fresh; [by eapply Hn1|done].
Qed.

(** A running row is left alone, whatever it is. *)
Lemma jobs_step_running m taskID t t' i j : jobs_step m taskID t t' -> t !! i = Some j ->
  JState j = JobRunning -> t' !! i = Some j.
Proof.
  intros [_ Ho _ _] Hj Hs. destruct (Ho _ _ Hj) as (j' & Hj' & [-> |(_ & _ & [[_ Hf]|[_ Hf]])]); congruence.
Qed.

Lemma exists_job_false present t : exists_job present t = false <-> forall i j, t !! i = Some j -> present j = false.
Proof.
  unfold exists_job. split.
  - intros Hx i j Hj. destruct (present j) eqn:Hp; [|done]. exfalso. rewrite <- not_true_iff_false in Hx. apply Hx.
    apply existsb_exists. exists (i, j). split; [|done]. apply list_elem_of_In. by apply elem_of_map_to_list.
  - intros Hx. apply not_true_iff_false. intros ([i j] & Hin & Hp)%existsb_exists.
    apply list_elem_of_In, elem_of_map_to_list in Hin. simpl in Hp. by rewrite (Hx _ _ Hin) in Hp.
Qed.

Lemma of_task_spec kind taskID j : of_task kind taskID j = true <-> Kind j = kind /\ TaskID j = Some taskID.
Proof. unfold of_task. rewrite andb_true_iff, !bool_decide_eq_true. done. Qed.

Lemma of_task_false kind taskID j : of_task kind taskID j = false -> Kind j = kind -> TaskID j <> Some taskID.
Proof. intros Ho Hk Ht. by rewrite (proj2 (of_task_spec _ _ _)) in Ho. Qed.

Lemma newest_job_in sel t j : newest_job sel t = Some j -> exists i, t !! i = Some j /\ sel j = true.
Proof.
  unfold newest_job. assert (Hin : forall l, (forall p, In p l -> t !! p.1 = Some p.2) ->
    foldr (fun p acc => match acc with Some j => if JCreatedAt p.2 <? JCreatedAt j then Some j else Some p.2 | None => Some p.2 end)
      None (List.filter (fun p => sel p.2) l) = Some j -> exists i, t !! i = Some j /\ sel j = true).
  { induction l as [|[i x] l IH]; intros Hl; [done|]. simpl. specialize (IH (fun p Hp => Hl p (or_intror Hp))).
    destruct (sel x) eqn:Hx; [|done]. simpl. destruct (foldr _ _ _) as [b|]; [destruct (_ <? _); [done|]|];
      intros [= <-]; exists i; (split; [apply (Hl (i, x)); by left|done]). }
  apply Hin. intros [i x] Hp%list_elem_of_In%elem_of_map_to_list. done.
Qed.

(** The two statements stay inside [jobs_step]. *)
Lemma update_jobs_step taskID guard f d t t' k :
  (forall j, guard j = true -> rearmed taskID j (f j)) ->
  update_jobs guard f d t = Some (t', k) -> jobs_step (d_tasks d) taskID t t'.
Proof.
  intros Hg [= <- <-].
  assert (Hr : forall j, rearmed taskID j (if guard j then f j else j)) by (intros j; destruct (guard j) eqn:?; [by apply Hg|by left]).
  assert (Hsame : forall j, Kind (if guard j then f j else j) = Kind j /\ TaskID (if guard j then f j else j) = TaskID j).
  { intros j. destruct (Hr j) as [-> |(_ & (p & n & ->) & _)]; done. }
  split.
  - intros Hl i j id. rewrite lookup_fmap. destruct (t !! i) as [ji|] eqn:Hi; [|by intros].
    intros [= <-]. rewrite (proj2 (Hsame ji)). by apply Hl with (i := i).
  - intros i j Hj. exists (if guard j then f j else j). rewrite lookup_fmap, Hj. by split.
  - intros i j Hn. rewrite lookup_fmap, Hn. by intros [=].
  - intros Ho i i' j j'. rewrite !lookup_fmap.
    destruct (t !! i) as [ji|] eqn:Hi; [|by intros]. destruct (t !! i') as [ji'|] eqn:Hi'; [|by intros].
    intros [= <-] [= <-]. destruct (Hsame ji) as [-> ->], (Hsame ji') as [-> ->]. by apply Ho.
Qed.

Lemma insert_unless_step taskID present i0 j0 d t t' k :
  fresh_job taskID j0 -> (dispatched (Kind j0) -> present = of_task (Kind j0) taskID) ->
  insert_unless present i0 j0 d t = Some (t', k) -> jobs_step (d_tasks d) taskID t t'.
Proof.
  intros Hf Hp. unfold insert_unless. destruct (exists_job present t) eqn:Hx; [intros; simplify_eq; reflexivity|].
  destruct (_ || _) eqn:Hc; [done|]. intros [= <- <-]. apply orb_false_iff in Hc as [Horph Hi0].
  apply bool_decide_eq_false, eq_None_not_Some in Hi0. rewrite exists_job_false in Hx. split.
  - intros Hl i j id [[<- <-]|[Hne Hi]]%lookup_insert_Some Ht; [|by eapply Hl].
    unfold orphan in Horph. rewrite Ht in Horph. by apply bool_decide_eq_false, not_eq_None_Some in Horph.
  - intros i j Hj. exists j. split; [|by left]. rewrite lookup_insert_ne; [done|congruence].
  - intros i j Hn. destruct (decide (i = i0)) as [-> |]; [rewrite lookup_insert_eq; by intros [= <-]|].
    rewrite lookup_insert_ne by done. congruence.
  - assert (Hnone : forall i j, t !! i = Some j -> dispatched (Kind j0) -> Kind j = Kind j0 -> TaskID j <> Some taskID).
    { intros i j Hj Hd Hk. specialize (Hx i j Hj). rewrite (Hp Hd) in Hx. by eapply of_task_false. }
    assert (Hown : dispatched (Kind j0) -> TaskID j0 = Some taskID).
    { destruct Hf as (_ & _ & _ & _ & [[_ ?]|[Hw _]]); [done|]. intros [Hd|Hd]; by rewrite Hd in Hw. }
    intros Ho i i' j j' [[<- <-]|[Hne Hi]]%lookup_insert_Some [[<- <-]|[Hne' Hi']]%lookup_insert_Some Hd Hk Hn Ht; [done|..].
    + exfalso. eapply (Hnone i' j'); [done..|]. rewrite <- Ht. by apply Hown.
    + exfalso. rewrite Hk in Hd. eapply (Hnone i j); [done..|]. rewrite Ht. by apply Hown.
    + by eapply Ho.
Qed.

(** ** The frame of the steps before the removal *)

(** What the tables may do meanwhile: the log grows by events of the task. *)
Record hook_step (taskID : string) (d d' : db) : Prop := {
  hs_tables : d_tasks d' = d_tasks d /\ d_files d' = d_files d /\ d_categories d' = d_categories d /\ d_settings d' = d_settings d;
  hs_events : exists l, d_events d' = d_events d ++ l /\ Forall (fun e => ev_task e = taskID) l }.

#[global] Instance hook_step_pre taskID : PreOrder (hook_step taskID).
Proof.
  split; [intros d; split; [done|exists []; by rewrite app_nil_r]|].
  intros d e f [(T1 & F1 & C1 & S1) (l & El & Fl)] [(T2 & F2 & C2 & S2) (k & Ek & Fk)].
  split; [split_and!; congruence|]. exists (l ++ k). rewrite Ek, El, app_assoc. split; [done|by apply list.Forall_app].
Qed.

Section Frame.
Context {E : Type} `{!JobTable E} (taskID : string).
Abbreviation M := (M E).
Abbreviation world := (world E).
Implicit Types w : world.

Definition rest w : Prop := w_tx w = None /\ working (store_of w) = None.

(** Between resting worlds. *)
Definition calm w w' : Prop := rest w -> rest w' /\
  hook_step taskID (w_db w) (w_db w') /\ jobs_step (d_tasks (w_db w)) taskID (committed (store_of w)) (committed (store_of w')).

#[global] Instance calm_pre : PreOrder calm.
Proof.
  split; [intros w Hw; by split_and!|]. intros u v w Huv Hvw Hu.
  destruct (Huv Hu) as (Hv & Hd & ?). destruct (Hvw Hv) as (? & ? & Hj).
  rewrite (proj1 (hs_tables _ _ _ Hd)) in Hj. split; [done|]. split; by etransitivity.
Qed.

Lemma calm_same w w' : w_db w' = w_db w -> w_tx w' = w_tx w -> w_eng w' = w_eng w -> calm w w'.
Proof. unfold calm, rest, store_of. intros -> -> ->. done. Qed.

Lemma store_with s w : store_of (with_store s w) = s.
Proof. unfold store_of, with_store. simpl. apply job_table_set. Qed.

Lemma store_bump w : store_of (bump w) = store_of w.
Proof. done. Qed.

Lemma calm_query {A} (q : db -> A) : always calm (query (E := E) q).
Proof. intros o w. unfold query. destruct (o_io o _); by apply calm_same. Qed.
Lemma calm_query_jobs {A} (q : jobs -> A) : always calm (query_jobs (E := E) q).
Proof. intros o w. unfold query_jobs. destruct (o_io o _); by apply calm_same. Qed.
Lemma calm_unix_milli : always calm (unix_milli (E := E)).
Proof. intros o w. by apply calm_same. Qed.
Lemma calm_NewID p : always calm (NewID (E := E) p).
Proof. intros o w. by apply calm_same. Qed.
Lemma calm_ctx_done : always calm (ctx_done (E := E)).
Proof. intros o w. unfold ctx_done. destruct (w_cancel w) as [[|]|]; by apply calm_same. Qed.

Lemma calm_put w t : rest w -> jobs_step (d_tasks (w_db w)) taskID (committed (store_of w)) t -> calm w (bump (put_rows t w)).
Proof.
  intros [_ Hw] Hs (? & ?). unfold put_rows. rewrite Hw.
  set (w' := with_store _ w). assert (Hst : store_of (bump w') = MkJobStore t None).
  { change (store_of (bump w')) with (store_of w'). apply store_with. }
  unfold rest. rewrite Hst. by split_and!.
Qed.

Lemma calm_exec_jobs q : (forall d t t' k, q d t = Some (t', k) -> jobs_step (d_tasks d) taskID t t') ->
  always calm (exec_jobs (E := E) q).
Proof.
  intros Hq o w Hw. unfold exec_jobs. assert (Hr : rows w = committed (store_of w)).
  { unfold rows. by rewrite (proj2 Hw). }
  destruct (o_io o _), (q (current w) (rows w)) as [[t k]|] eqn:He; try by apply calm_same; [..|done].
  all: rewrite Hr in He; unfold current in He; rewrite (proj1 Hw) in He; apply calm_put; [done|by eapply Hq|done].
Qed.

Lemma put_rows_inside w t t0 : working (store_of w) = Some t0 ->
  put_rows t w = with_store (MkJobStore (committed (store_of w)) (Some t)) w.
Proof. unfold put_rows. by intros ->. Qed.

(** The body of a jobs transaction works on the copy [t] of the rows [c]. *)
Definition mid (d : db) (c : jobs) w : Prop := w_tx w = None /\ w_db w = d /\ committed (store_of w) = c /\
  exists t, working (store_of w) = Some t /\ jobs_step (d_tasks d) taskID c t.
Definition ended (d : db) (c : jobs) w : Prop := w_tx w = None /\ w_db w = d /\
  jobs_step (d_tasks d) taskID c (committed (store_of w)).

Lemma mid_ended d c w : mid d c w -> ended d c w.
Proof. intros (Ht & Hd & Hc & _). split_and!; [done..|]. rewrite Hc. reflexivity. Qed.

Lemma mid_same d c w w' : w_db w' = w_db w -> w_tx w' = w_tx w -> w_eng w' = w_eng w -> mid d c w -> mid d c w'.
Proof. unfold mid, store_of. by intros -> -> ->. Qed.

Lemma mid_exec_jobs o d c q : (forall d t t' k, q d t = Some (t', k) -> jobs_step (d_tasks d) taskID t t') ->
  spec o (mid d c) (exec_jobs q) (fun _ => mid d c).
Proof.
  intros Hq w Hm. pose proof Hm as (Ht & Hd & Hc & t0 & Hw & H0). unfold exec_jobs.
  assert (Hr : rows w = t0) by (unfold rows; by rewrite Hw).
  destruct (o_io o _), (q (current w) (rows w)) as [[t k]|] eqn:He; try by eapply mid_same, Hm.
  all: unfold current in He; rewrite Hr, Ht in He; apply Hq in He; rewrite (put_rows_inside _ _ _ Hw); unfold mid;
    cbn [snd]; rewrite !store_bump, !store_with; split_and!; try done; exists t; (split; [done|]).
  all: rewrite <- Hd in *; by transitivity t0.
Qed.

Lemma mid_commit o d c : spec o (mid d c) commit_jobs (fun _ => ended d c).
Proof.
  intros w Hm. pose proof Hm as (Ht & Hd & Hc & t0 & Hw & H0). unfold commit_jobs.
  assert (Hr : rows w = t0) by (unfold rows; by rewrite Hw).
  destruct (o_io o _); unfold ended; cbn [snd]; rewrite store_bump; unfold publish, discard; rewrite store_with;
    cbn [committed]; rewrite ?Hr, ?Hc; split_and!; try done; reflexivity.
Qed.

Lemma calm_job_tx {A} (body : M A) : (forall o d c, spec o (mid d c) body (fun _ => ended d c)) ->
  always calm (with_job_tx body).
Proof.
  intros Hb o w Hw. unfold with_job_tx, begin_jobs, job_rolled_back. rewrite bind_run.
  destruct (o_io o _); [|by apply calm_same..]. cbn beta iota.
  set (w1 := bump _). specialize (Hb o (w_db w) (committed (store_of w)) w1).
  destruct (body o w1) as [r w2]. cbn [fst snd] in *. destruct Hb as (Ht & Hd & Hj).
  { unfold w1, mid. rewrite store_bump, store_with. split_and!; [apply Hw|done..|]. eexists; split; [done|reflexivity]. }
  unfold rest, discard. rewrite store_with. split_and!; [done..| |].
  - change (w_db (with_store _ w2)) with (w_db w2). rewrite Hd. reflexivity.
  - done.
Qed.

(** ** The steps before the removal *)

Lemma calm_keeps {A} (m : M A) : always (keeps (hook_step taskID)) m -> always calm m.
Proof.
  intros Hm o w [Ht Hw]. destruct (Hm o w) as [_ Hd Hn _ He _]. unfold rest, store_of. rewrite He.
  split_and!; [by apply Hn|done| |reflexivity]. apply Hd. unfold tx_ok. by rewrite Ht.
Qed.

Lemma insert_event_step e : ev_task e = taskID -> stmt_keeps (hook_step taskID) (queryInsertTaskEvent e).
Proof.
  intros He d d' k. unfold queryInsertTaskEvent. destruct (d_tasks d !! _); [|done]. destruct (contains _ _); [|done].
  intros [= <- <-]. split; [done|]. exists [e]. split; [done|]. by apply list.Forall_singleton.
Qed.

Lemma calm_AppendEvent lv code msg dt : always calm (AppendEvent (E := E) taskID lv code msg dt).
Proof.
  apply calm_keeps. unfold AppendEvent, insertTaskEvent. walk; try apply _. by apply insert_event_step.
Qed.
End Frame.

#[export] Hint Resolve calm_query calm_query_jobs calm_unix_milli calm_NewID calm_ctx_done : dltool.

#[export] Hint Resolve calm_AppendEvent : dltool.

(** The channel's delivery is in the table. *)
Definition announced (t : jobs) (payload : string) : Prop :=
  exists i j, t !! i = Some j /\ Kind j = JobKindWebhook /\ PayloadJSON j = payload.

Lemma announced_step m taskID t t' p : jobs_step m taskID t t' -> announced t p -> announced t' p.
Proof.
  intros [_ Ho _ _] (i & j & Hj & Hk & Hp). destruct (Ho _ _ Hj) as (j' & Hj' & [-> |(_ & _ & [[Hk' _]|[Hk' _]])]);
    [by exists i, j|by rewrite Hk in Hk'..].
Qed.

(** ** The steps of a pass *)

Section Steps.
Context {E : Type} `{!JobTable E} `{!UnicodeTables} (bool_row : db -> string -> option (option bool)) (channels : db -> list Channel)
  (encode_extract : string -> string) (encode_move : movePayload -> string) (encode_webhook : webhookPayload -> string)
  (hook_stat : nat -> option bool) (hook_access : nat -> bool) (hook_child : nat -> list string -> list string -> child)
  (notifier : bool) (configDir : string) (taskID : string).
Abbreviation M := (M E).
Abbreviation world := (world E).
Implicit Types w : world.
Abbreviation calm := (calm taskID).

Lemma fresh_of_task kind payload now : dispatched kind -> fresh_job taskID (new_job kind (Some taskID) payload now).
Proof. intros Hk. split_and!; try done. by left. Qed.

Lemma calm_boolSetting key : always calm (boolSetting (E := E) bool_row key).
Proof. unfold boolSetting. walk. Qed.

Lemma calm_moveSettled : always calm (moveSettled (E := E) taskID).
Proof. unfold moveSettled. walk. Qed.

Lemma calm_extractSettled : always calm (extractSettled (E := E) taskID).
Proof. unfold extractSettled, extractJobState. walk. Qed.

Lemma calm_enqueueExtract : always calm (enqueueExtract (E := E) encode_extract taskID).
Proof.
  unfold enqueueExtract. walk; apply calm_exec_jobs; intros d t t' k.
  - apply update_jobs_step. intros j [[Hk Ht]%of_task_spec Hs%bool_decide_eq_true]%andb_true_iff.
    right. split; [done|]. split; [by eexists _, _|]. by left.
  - apply insert_unless_step; [apply fresh_of_task; by left|done].
Qed.

Lemma stale_rearmed payload now j : stale_move taskID payload j = true -> rearmed taskID j (reset_job payload now j).
Proof.
  unfold stale_move. intros [[Hk Ht]%of_task_spec Hs]%andb_true_iff.
  right. split; [done|]. split; [by eexists _, _|]. right. split; [done|].
  intros Hr. rewrite Hr in Hs. by rewrite !bool_decide_eq_false_2 in Hs by done.
Qed.

Lemma calm_enqueueMove src dst : always calm (enqueueMove (E := E) encode_move taskID src dst).
Proof.
  unfold enqueueMove. walk. apply calm_job_tx. intros o d c.
  eapply spec_bind; [apply mid_exec_jobs; intros d' t t' k; apply update_jobs_step, stale_rearmed|by intros; apply mid_ended|intros ?].
  eapply spec_bind with (Q1 := fun _ => mid taskID d c); [|by intros; apply mid_ended|intros id].
  { intros w Hw. by eapply mid_same, Hw. }
  eapply spec_bind; [apply mid_exec_jobs; intros d' t t' k; apply insert_unless_step; [apply fresh_of_task; by right|done]|
    by intros; apply mid_ended|intros ?].
  apply mid_commit.
Qed.

Lemma webhook_step id payload now d t t' k :
  queryEnqueueWebhook id payload now d t = Some (t', k) -> jobs_step (d_tasks d) taskID t t'.
Proof. apply insert_unless_step; [split_and!; try done; by right|by intros [Hk|Hk]]. Qed.

Lemma calm_fanout_loop now ev l : always calm (fanout_loop (E := E) encode_webhook now ev l).
Proof.
  induction l as [|ch l IH]; cbn [fanout_loop]; [apply always_ret; apply _|].
  destruct (_ =? 0); [done|]. destruct (ch_event_mask ch); [|done]. destruct (negb _); [done|].
  walk. apply calm_exec_jobs. intros d t t' k. apply webhook_step.
Qed.

Lemma calm_Fanout ev : always calm (Fanout (E := E) channels encode_webhook ev).
Proof. unfold Fanout. walk. apply calm_fanout_loop. Qed.

Lemma calm_discoverHook : always calm (discoverHook (E := E) hook_stat hook_access).
Proof. intros o w. by apply calm_same. Qed.
Lemma calm_run_child t : always calm (run_child (E := E) hook_child taskID t).
Proof. intros o w. by apply calm_same. Qed.

Lemma calm_Run t : always calm (Run (E := E) hook_child configDir taskID t).
Proof. unfold Run. walk; try apply calm_run_child. Qed.

Lemma calm_runHook t : always calm (runHook (E := E) hook_stat hook_access hook_child configDir taskID t).
Proof. unfold runHook. walk; first [apply calm_discoverHook|apply calm_Run|idtac]. Qed.

Lemma calm_notify t : always calm (notify (E := E) channels encode_webhook notifier taskID t).
Proof. unfold notify. walk. apply calm_Fanout. Qed.

(** An insert that is answered leaves the delivery in the table. *)
Lemma webhook_announced id payload now o w k w' : rest w ->
  exec_jobs (queryEnqueueWebhook id payload now) o w = (inr k, w') -> announced (committed (store_of w')) payload.
Proof.
  intros [Htx Hw]. unfold exec_jobs. assert (Hr : rows w = committed (store_of w)) by (unfold rows; by rewrite Hw).
  destruct (o_io o _), (queryEnqueueWebhook id payload now (current w) (rows w)) as [[t n]|] eqn:Hq; try done.
  intros [= <- <-]. rewrite store_bump. unfold put_rows. rewrite Hw, store_with. cbn [committed].
  revert Hq. unfold queryEnqueueWebhook, insert_unless. destruct (exists_job _ _) eqn:Hx.
  - intros [= <- _]. apply existsb_exists in Hx as ([i j] & Hin & Hp).
    apply list_elem_of_In, elem_of_map_to_list in Hin. simpl in Hp.
    apply andb_true_iff in Hp as [Hk%bool_decide_eq_true Hp%bool_decide_eq_true]. by exists i, j.
  - destruct (_ || _); [done|]. intros [= <- _]. eexists id, _. split; [apply lookup_insert_eq|done].
Qed.

Definition selects (ev : Event) (ch : Channel) : Prop :=
  ch_enabled ch <> 0 /\ exists mask, ch_event_mask ch = Some mask /\ Matches mask (EvCode ev) = true.

Lemma fanout_loop_announces now ev l o : forall w, rest w ->
  let (r, w') := fanout_loop encode_webhook now ev l o w in r = inr tt ->
  forall ch, ch ∈ l -> selects ev ch -> announced (committed (store_of w')) (encode_webhook (MkWebhook (ch_id ch) ev)).
Proof.
  induction l as [|ch0 l IH]; intros w Hw; cbn [fanout_loop]; [intros _ ch Hch; by apply list.not_elem_of_nil in Hch|].
  assert (Hskip : ~ selects ev ch0 -> let (r, w') := fanout_loop encode_webhook now ev l o w in r = inr tt ->
    forall ch, ch ∈ ch0 :: l -> selects ev ch ->
    announced (committed (store_of w')) (encode_webhook (MkWebhook (ch_id ch) ev))).
  { intros Hn. specialize (IH w Hw). destruct (fanout_loop _ _ _ _ _ _) as [r w']. intros Hr ch [-> |Hch]%list.elem_of_cons Hs; [done|].
    by apply IH. }
  destruct (ch_enabled ch0 =? 0) eqn:He; [apply Hskip; intros [Hz _]; lia|].
  destruct (ch_event_mask ch0) as [mask|] eqn:Hm; [|apply Hskip; intros (_ & m & ? & _); congruence].
  destruct (Matches mask _) eqn:Hx; simpl; [|apply Hskip; intros (_ & m & ? & ?); congruence]. clear Hskip.
  rewrite bind_run. cbn [NewID]. rewrite bind_run.
  set (w1 := bump w). assert (Hw1 : rest w1) by done.
  match goal with |- context [exec_jobs ?q o w1] => pose proof (calm_exec_jobs taskID q (webhook_step _ _ _) o w1 Hw1) as Hstep end.
  destruct (exec_jobs _ o w1) as [[e|k] w2] eqn:Hexec; [done|].
  destruct Hstep as (Hw2 & _). cbn [snd] in Hw2. apply webhook_announced in Hexec; [|done].
  specialize (IH w2 Hw2). pose proof (calm_fanout_loop now ev l o w2 Hw2) as (_ & _ & Hjs).
  destruct (fanout_loop _ _ _ _ _ _) as [r w3]. intros Hr ch [-> |Hch]%list.elem_of_cons Hs; [|by apply IH].
  by eapply announced_step.
Qed.
End Steps.

(** ** The move closes the loop *)

Section PathFacts.
Local Open Scope string_scope.

Definition no_slash (e : string) : Prop := slash ∉ String.list_ascii_of_string e.
Definition plain (e : string) : Prop := no_slash e /\ e <> EmptyString /\ e <> "." /\ e <> "..".

Lemma split_byte_cons c s t : split_byte c (s +:+ String c t) = (split_byte c s ++ split_byte c t)%list.
Proof.
  induction s as [|a s IH].
  { change (EmptyString +:+ String c t) with (String c t). cbn [split_byte]. by rewrite bool_decide_true. }
  change (String a s +:+ String c t) with (String a (s +:+ String c t)). cbn [split_byte]. rewrite IH.
  case_bool_decide; [done|]. pose proof (split_byte_size c s) as Hs. by destruct (split_byte c s).
Qed.

Lemma split_byte_plain e : no_slash e -> split_byte slash e = [e].
Proof.
  unfold no_slash. induction e as [|a e IH]; intros Hn; [done|]. simpl in Hn.
  apply not_elem_of_cons in Hn as [Ha He]. cbn [split_byte]. by rewrite bool_decide_false, IH by done.
Qed.

Lemma split_byte_no_slash s : Forall no_slash (split_byte slash s).
Proof.
  induction s as [|a s IH]; cbn [split_byte]; [constructor; [by apply not_elem_of_nil|done]|].
  case_bool_decide as Ha; [constructor; [by apply not_elem_of_nil|done]|].
  destruct (split_byte slash s) as [|e l]; [constructor; [|done]|].
  - apply not_elem_of_cons. split; [congruence|by apply not_elem_of_nil].
  - apply list.Forall_cons in IH as [He Hl]. constructor; [|done]. apply not_elem_of_cons. by split; [congruence|].
Qed.

Lemma clean_elems_app l k stack :
  clean_elems true (l ++ k)%list stack = clean_elems true k (reverse (clean_elems true l stack)).
Proof.
  revert stack. induction l as [|e l IH]; intros stack; cbn [clean_elems app]; [by rewrite reverse_involutive|].
  destruct (_ || _); [apply IH|]. destruct (bool_decide (e = "..")); [|apply IH].
  destruct stack as [|top stack]; [apply IH|]. destruct (bool_decide _); apply IH.
Qed.

Lemma clean_elems_plain l stack : Forall plain l -> clean_elems true l stack = (reverse stack ++ l)%list.
Proof.
  revert stack. induction l as [|e l IH]; intros stack Hl; cbn [clean_elems]; [by rewrite app_nil_r|].
  apply list.Forall_cons in Hl as [(_ & H1 & H2 & H3) Hl].
  rewrite !bool_decide_false by done. cbn [orb]. rewrite IH by done. by rewrite reverse_cons, <- app_assoc.
Qed.

Lemma clean_elems_all_plain l stack : Forall no_slash l -> Forall plain stack -> Forall plain (clean_elems true l stack).
Proof.
  revert stack. induction l as [|e l IH]; intros stack Hl Hs; cbn [clean_elems]; [by apply Forall_reverse|].
  apply list.Forall_cons in Hl as [He Hl]. destruct (_ || _) eqn:H1; [by apply IH|].
  apply orb_false_iff in H1 as [H1%bool_decide_eq_false H2%bool_decide_eq_false].
  case_bool_decide as H3; [|apply IH; [done|by constructor]].
  destruct stack as [|top stack]; [by apply IH|]. apply list.Forall_cons in Hs as [Ht Hs].
  rewrite bool_decide_false by apply Ht. by apply IH.
Qed.

Lemma append_assoc (s t u : string) : (s +:+ t) +:+ u = s +:+ t +:+ u.
Proof. induction s as [|a s IH]; [done|]. change (String a ((s +:+ t) +:+ u) = String a (s +:+ t +:+ u)). by rewrite IH. Qed.

Lemma join_snoc l e : l <> [] -> join "/" (l ++ [e])%list = join "/" l +:+ String slash e.
Proof.
  induction l as [|a l IH]; [done|]. intros _. destruct l as [|b l]; [done|].
  change (join "/" ((a :: b :: l) ++ [e])%list) with (a +:+ "/" +:+ join "/" ((b :: l) ++ [e])%list).
  rewrite IH by done. change (join "/" (a :: b :: l)) with (a +:+ "/" +:+ join "/" (b :: l)).
  by rewrite !append_assoc.
Qed.

Lemma split_of_join l : Forall no_slash l -> l <> [] -> split_byte slash (join "/" l) = l.
Proof.
  induction l as [|a l IH]; [done|]. intros [Ha Hl]%list.Forall_cons _. destruct l as [|b l]; [by apply split_byte_plain|].
  change (join "/" (a :: b :: l)) with (a +:+ String slash (join "/" (b :: l))).
  by rewrite split_byte_cons, split_byte_plain, IH.
Qed.

Lemma Clean_of_abs p : IsAbs p = true -> Clean p = String slash (join "/" (clean_elems true (split_byte slash p) [])).
Proof. intros Hp. unfold Clean. rewrite Hp. by destruct p. Qed.

Lemma dir_prefix_app s b : no_slash b -> dir_prefix (s +:+ String slash b) = s +:+ String slash EmptyString.
Proof.
  intros Hb. assert (Hd : dir_prefix b = EmptyString).
  { unfold no_slash in Hb. induction b as [|a b IH]; [done|]. simpl in Hb. apply not_elem_of_cons in Hb as [Ha Hb].
    cbn [dir_prefix]. by rewrite IH, bool_decide_false. }
  induction s as [|a s IH].
  { change (EmptyString +:+ String slash b) with (String slash b). cbn [dir_prefix]. by rewrite Hd, bool_decide_true. }
  change (String a s +:+ String slash b) with (String a (s +:+ String slash b)). cbn [dir_prefix].
  rewrite IH. by destruct s.
Qed.

Lemma Dir_Join dest b : IsAbs dest = true -> plain b -> Dir (Join dest b) = Clean dest.
Proof.
  intros Habs Hb. unfold Join. rewrite bool_decide_false by (by intros ->).
  assert (Habs' : IsAbs (dest +:+ "/" +:+ b) = true) by (by apply IsAbs_cons in Habs as [q ->]).
  rewrite (Clean_of_abs _ Habs'), (Clean_of_abs _ Habs). change (dest +:+ "/" +:+ b) with (dest +:+ String slash b).
  rewrite split_byte_cons, (split_byte_plain b), clean_elems_app by apply Hb.
  assert (He : Forall plain (clean_elems true (split_byte slash dest) [])) by (apply clean_elems_all_plain; [apply split_byte_no_slash|done]).
  set (l := clean_elems true (split_byte slash dest) []) in *. rewrite (clean_elems_plain [b]), reverse_involutive by (by constructor).
  unfold Dir. destruct (decide (l = [])) as [-> |Hl].
  - cbn [app join]. change (String slash b) with (EmptyString +:+ String slash b). by rewrite dir_prefix_app by apply Hb.
  - rewrite join_snoc by done. change (String slash (join "/" l +:+ String slash b)) with (String slash (join "/" l) +:+ String slash b).
    rewrite dir_prefix_app by apply Hb. rewrite Clean_of_abs by done. f_equal. f_equal.
    change (String slash (join "/" l) +:+ String slash EmptyString) with (EmptyString +:+ String slash (join "/" l +:+ String slash EmptyString)).
    rewrite !split_byte_cons, split_of_join by (first [done|eapply list.Forall_impl; [exact He|by intros ? []]]).
    change (split_byte slash EmptyString) with [EmptyString]. cbn [app clean_elems]. rewrite bool_decide_true by done. cbn [orb].
    rewrite clean_elems_app, (clean_elems_plain l) by done. cbn [reverse app]. cbn [clean_elems].
    rewrite bool_decide_true by done. apply reverse_involutive.
Qed.

Lemma Base_plain src : Base src ∉ ["."; ".."; "/"] -> plain (Base src).
Proof.
  unfold Base. destruct (bool_decide (src = EmptyString)); [intros Hn; exfalso; apply Hn; by left|].
  set (l := split_byte slash _). assert (Hl : Forall no_slash l) by apply split_byte_no_slash. clearbody l.
  case_bool_decide as Hb; [intros Hn; exfalso; apply Hn; right; right; by left|]. intros Hn. split_and!; [|done|..].
  - assert (Hne : l <> []) by (intros Hnil; by rewrite Hnil in Hb). apply (proj1 (list.Forall_forall _ _) Hl), list_elem_of_In.
    destruct (List.exists_last Hne) as (l' & x & Hx). rewrite Hx, List.last_last. apply List.in_or_app. right. by left.
  - intros He. apply Hn. rewrite He. by left.
  - intros He. apply Hn. rewrite He. right. by left.
Qed.
End PathFacts.

(** Once the row points at the payload's new place, no move is owed. *)
Lemma owes_move_done task src dst : IsAbs (t_destination task) = true -> owes_move task = Some (src, dst) ->
  Base src ∉ ["."; ".."; "/"]%string -> owes_move (set_content_path (Some dst) task) = None.
Proof.
  unfold owes_move. destruct (t_content_path task) as [p|]; [|done]. destruct (_ && _); [|done].
  intros Habs [= -> <-] Hb. change (t_content_path (set_content_path (Some ?d) task)) with (Some d).
  change (t_destination (set_content_path ?d task)) with (t_destination task).
  cbn iota beta. rewrite Dir_Join by (first [done|by apply Base_plain]). rewrite (bool_decide_eq_false_2 (Clean _ <> _)) by (by intros []).
  by rewrite andb_false_r.
Qed.

(** ** What the hook's streams keep *)

Lemma hook_write_take buf p : Z.of_nat (length buf) <= hookOutputCap ->
  hook_write buf p = take (Z.to_nat hookOutputCap) (buf ++ p).
Proof.
  unfold hook_write. change hookOutputCap with 8192. intros Hb. rewrite take_app.
  rewrite (take_ge buf) by lia. destruct (0 <? _) eqn:Hr.
  - destruct (_ <? Z.of_nat (length p)) eqn:Hp; f_equal; [f_equal; lia|]. rewrite take_ge; [done|lia].
  - replace (_ - _)%nat with 0%nat by lia. by rewrite take_0, app_nil_r.
Qed.

(** However the child cuts its output into writes, the buffer holds its head. *)
Lemma hook_stream chunks : fold_left hook_write chunks [] = take (Z.to_nat hookOutputCap) (concat chunks).
Proof.
  assert (H : forall buf, Z.of_nat (length buf) <= hookOutputCap ->
    fold_left hook_write chunks buf = take (Z.to_nat hookOutputCap) (buf ++ concat chunks)).
  { induction chunks as [|p chunks IH]; intros buf Hb; simpl.
    - rewrite app_nil_r, take_ge; [done|change hookOutputCap with 8192 in *; lia].
    - rewrite hook_write_take by done. rewrite IH.
      + rewrite app_assoc. generalize (buf ++ p). intros l. rewrite !take_app, length_take, take_take, Nat.min_id. f_equal. f_equal. lia.
      + rewrite length_take. change hookOutputCap with 8192. lia. }
  by apply H.
Qed.
