(* ===== verification/ChainTheorems.v ===== *)
(** * The post-processing chain: its theorems

    What a pass does for any answers of the driver and the hook, what it does
    for an owed move when the driver answers, how the move closes the loop,
    and runs that show what the removal and the fan-out leave behind. *)

From stdpp Require Import fin_maps pretty.
From S2P Require Import Prelude GoStrings TaskState Schema Lease World Frame Store StoreProps Jobs SafePath Archive MoveHandler Chain ChainProps Scenario.

Open Scope Z_scope.

Section Chain.
Context {E : Type} `{!JobTable E} `{!UnicodeTables} (bool_row : db -> string -> option (option bool)) (channels : db -> list Channel)
  (encode_extract : string -> string) (encode_move : movePayload -> string) (encode_webhook : webhookPayload -> string)
  (hook_stat : nat -> option bool) (hook_access : nat -> bool) (hook_child : nat -> list string -> list string -> child)
  (notifier : bool) (configDir : string) (taskID : string).
Abbreviation M := (M E).
Abbreviation world := (world E).
Implicit Types w : world.
Abbreviation calm := (calm taskID).
Abbreviation OnCompleted := (OnCompleted bool_row channels encode_extract encode_move encode_webhook
  hook_stat hook_access hook_child notifier configDir taskID).
Abbreviation tail := (tail bool_row channels encode_webhook hook_stat hook_access hook_child notifier configDir taskID).

(** ** The removal *)

Definition of_others (p : string * Job) : Prop := TaskID p.2 <> Some taskID.

Definition removal w w' : Prop :=
  bool_row (w_db w) "auto_remove_on_complete" = Some (Some true) /\
  d_tasks (w_db w') = delete taskID (d_tasks (w_db w)) /\
  d_events (w_db w') = List.filter (fun e => bool_decide (ev_task e <> taskID)) (d_events (w_db w)) /\
  committed (store_of w') = filter of_others (committed (store_of w)).

Lemma cascade_linked w : rest w -> linked (d_tasks (w_db w)) (committed (store_of w)) ->
  store_of (cascade w) = store_of w.
Proof.
  intros [_ Hw] Hl. unfold cascade. rewrite store_with. destruct (store_of w) as [c wk]. cbn [committed working] in *.
  subst wk. cbn [fmap option_fmap option_map]. f_equal. apply map_filter_id. intros i j Hj. unfold orphan. simpl.
  destruct (TaskID j) as [id|] eqn:Ht; [|done]. apply bool_decide_eq_false, not_eq_None_Some. by eapply Hl.
Qed.

Lemma cascade_removed w m : w_db w = m -> working (store_of w) = None ->
  forall m0, linked m0 (committed (store_of w)) -> d_tasks m = delete taskID m0 ->
  committed (store_of (cascade w)) = filter of_others (committed (store_of w)).
Proof.
  intros Hd Hw m0 Hl Hm. unfold cascade. rewrite store_with. cbn [committed]. apply map_filter_ext. intros i j Hj.
  unfold orphan, of_others. simpl. rewrite Hd, Hm. destruct (TaskID j) as [id|] eqn:Ht; [|done].
  rewrite bool_decide_eq_false. destruct (decide (id = taskID)) as [-> |Hne]; [by rewrite lookup_delete_eq|].
  rewrite lookup_delete_ne by done. pose proof (Hl i j id Hj Ht) as [x Hx]. rewrite Hx. split; [congruence|done].
Qed.

Lemma filter_removed l e : ev_task e = taskID ->
  List.filter (fun e => bool_decide (ev_task e <> taskID)) (l ++ [e]) =
  List.filter (fun e => bool_decide (ev_task e <> taskID)) l.
Proof.
  intros He. rewrite List.filter_app. simpl. rewrite bool_decide_eq_false_2 by (by intros []). apply app_nil_r.
Qed.

(** Leaving the transaction with the tables as they were, or without the task. *)
Lemma back_at_rest w w2 : rest w -> w_db w2 = w_db w -> store_of w2 = store_of w -> rest (set_tx None w2) /\ calm w (set_tx None w2).
Proof.
  intros Hw Hd Hs. assert (Hs' : store_of (set_tx None w2) = store_of w) by done.
  assert (Hr : rest (set_tx None w2)) by (split; [done|by rewrite Hs', (proj2 Hw)]).
  split; [done|]. intros _. rewrite Hs'. cbn [set_tx w_db]. rewrite Hd. by split_and!.
Qed.

Lemma unpublished w w5 : rest w -> linked (d_tasks (w_db w)) (committed (store_of w)) ->
  w_db w5 = w_db w -> w_tx w5 = None -> w_eng w5 = w_eng w ->
  rest (set_tx None (cascade w5)) /\ calm w (set_tx None (cascade w5)).
Proof.
  intros Hw Hl Hd Hn He. assert (Hs : store_of w5 = store_of w) by (unfold store_of; by rewrite <- He).
  apply back_at_rest; [done..|]. rewrite cascade_linked; [done|by split; rewrite ?Hs; [done|apply Hw]|by rewrite Hd, Hs].
Qed.

Lemma published w w5 events : rest w -> linked (d_tasks (w_db w)) (committed (store_of w)) ->
  bool_row (w_db w) "auto_remove_on_complete" = Some (Some true) -> w_eng w5 = w_eng w ->
  w_db w5 = MkDb (delete taskID (d_tasks (w_db w))) (List.filter (fun e => bool_decide (ev_task e <> taskID)) events)
    (filter (fun p => p.1.1 <> taskID) (d_files (w_db w))) (d_categories (w_db w)) (d_settings (w_db w)) ->
  List.filter (fun e => bool_decide (ev_task e <> taskID)) events =
  List.filter (fun e => bool_decide (ev_task e <> taskID)) (d_events (w_db w)) ->
  rest (set_tx None (cascade w5)) /\ removal w (set_tx None (cascade w5)).
Proof.
  intros Hw Hl Hb He Hd Hev. assert (Hs : store_of w5 = store_of w) by (unfold store_of; by rewrite <- He).
  change (store_of (set_tx None (cascade w5))) with (store_of (cascade w5)).
  split; [split; [done|]|].
  - change (store_of (set_tx None (cascade w5))) with (store_of (cascade w5)). unfold cascade.
    by rewrite store_with, Hs, (proj2 Hw).
  - unfold removal. change (store_of (set_tx None (cascade w5))) with (store_of (cascade w5)).
    change (w_db (set_tx None (cascade w5))) with (w_db w5). rewrite Hd. split_and!; [done..|].
    rewrite (cascade_removed w5 (w_db w5)) with (m0 := d_tasks (w_db w)); rewrite ?Hs, ?Hd; try done. apply Hw.
Qed.

Lemma remove_task_spec o w : rest w -> linked (d_tasks (w_db w)) (committed (store_of w)) ->
  bool_row (w_db w) "auto_remove_on_complete" = Some (Some true) ->
  let w' := (remove_task taskID o w).2 in rest w' /\ (calm w w' \/ removal w w').
Proof.
  cbn zeta. intros Hw Hl Hb. unfold remove_task. rewrite with_tx_run.
  destruct (o_io o _); [|split; [done|left; by apply calm_same]..].
  set (w1 := bump (set_tx _ _)). rewrite bind_run. unfold query.
  assert (Hrolled : forall w2, w_db w2 = w_db w -> w_eng w2 = w_eng w -> rest (set_tx None w2) /\ (calm w (set_tx None w2) \/ removal w (set_tx None w2))).
  { intros w2 Hd He. destruct (back_at_rest w w2 Hw Hd); [unfold store_of; by rewrite He|]. by split; [|left]. }
  destruct (o_io o _); [|by apply Hrolled..]. change (current w1) with (w_db w). unfold queryGetTask.
  destruct (d_tasks (w_db w) !! taskID) as [t|] eqn:Ht; [|by apply Hrolled].
  unfold insertTaskEvent. rewrite !bind_run. cbn [unix_milli]. rewrite !bind_run. cbn [NewID]. rewrite bind_run.
  set (w2 := bump (bump (bump w1))). set (e := MkEvent _ _ _ _ _ _ _).
  unfold exec. change (current w2) with (w_db w).
  assert (Hins : queryInsertTaskEvent e (w_db w) = Some (with_events (d_events (w_db w) ++ [e]) (w_db w), 1)).
  { unfold queryInsertTaskEvent. cbn [ev_task e]. by rewrite Ht. }
  rewrite Hins. destruct (o_io o (w_n w2)); [|by apply Hrolled..].
  rewrite ret_run, bind_run. set (w3 := bump (put_current _ w2)).
  change (current w3) with (with_events (d_events (w_db w) ++ [e]) (w_db w)). unfold queryDeleteTask. cbn [d_tasks with_events].
  rewrite Ht. destruct (o_io o (w_n w3)); [|by apply Hrolled..].
  assert (Hev := filter_removed (d_events (w_db w)) e eq_refl).
  unfold commit_cascading, commit. destruct (o_io o _); cbn beta iota;
    match goal with |- context [cascade ?X] =>
      first [destruct (published w X (d_events (w_db w) ++ [e]) Hw Hl Hb eq_refl eq_refl Hev) as [? ?]; by split; [|right]
            |destruct (unpublished w X Hw Hl eq_refl eq_refl eq_refl) as [? ?]; by split; [|left]]
    end.
Qed.

(** What the reads answer. *)
Lemma boolSetting_run key o w : w_tx w = None ->
  boolSetting bool_row key o w = (inl ErrDriver, bump w) \/
  boolSetting bool_row key o w =
    (inr (match bool_row (w_db w) key with Some (Some value) => value | _ => false end), bump w).
Proof.
  intros Hw. unfold boolSetting. rewrite bind_run. unfold query, current. rewrite Hw.
  destruct (o_io o _); [by right|by left..].
Qed.

Lemma query_jobs_run {A B} (q : jobs -> A) (f : A -> B) o w : rest w ->
  (x ← query_jobs q; mret (f x)) o w = (inl ErrDriver, bump w) \/
  (x ← query_jobs q; mret (f x)) o w = (inr (f (q (committed (store_of w)))), bump w).
Proof.
  intros [_ Hw]. rewrite bind_run. unfold query_jobs, rows. rewrite Hw. destruct (o_io o _); [by right|by left..].
Qed.

Lemma maybeAutoRemove_spec o w : rest w -> linked (d_tasks (w_db w)) (committed (store_of w)) ->
  let w' := (maybeAutoRemove bool_row taskID o w).2 in rest w' /\ (calm w w' \/ removal w w').
Proof.
  cbn zeta. intros Hw Hl. unfold maybeAutoRemove. rewrite bind_run.
  destruct (boolSetting_run "auto_remove_on_complete" o w (proj1 Hw)) as [-> | ->];
    [split; [done|left; by apply calm_same]|].
  destruct (bool_row _ _) as [[[]|]|] eqn:Hb; try (split; [done|left; by apply calm_same]). cbn [negb].
  destruct (remove_task_spec o (bump w) Hw Hl Hb) as [Hr Hd]. split; [exact Hr|]. destruct Hd as [Hd|Hd]; [left|by right].
  exact Hd.
Qed.

(** ** A pass *)

(** Every delivery the event owes is in the table. *)
Definition all_announced (d : db) (t : jobs) (task : task) : Prop := notifier = true -> exists time,
  let ev := MkNotice CodeTaskCompleted taskID (t_name task) (t_state task) "download finished" time in
  forall ch, ch ∈ channels d -> selects ev ch -> announced t (encode_webhook (MkWebhook (ch_id ch) ev)).

Lemma notify_announces o w task : rest w ->
  let (r, w') := notify channels encode_webhook notifier taskID task o w in
  r = inr tt -> all_announced (w_db w) (committed (store_of w')) task.
Proof.
  intros Hw. unfold notify. destruct notifier eqn:Hn; [|intros _; unfold all_announced; congruence]. rewrite bind_run. cbn [unix_milli].
  unfold Fanout. rewrite bind_run. unfold query. set (w1 := bump w). change (current w1) with (current w).
  unfold current. rewrite (proj1 Hw). destruct (o_io o _); try done. rewrite bind_run. cbn [unix_milli].
  set (ev := MkNotice _ _ _ _ _ _). set (w2 := bump (bump w1)).
  pose proof (fanout_loop_announces encode_webhook taskID (o_now o (w_n (bump w1))) ev (channels (w_db w)) o w2 Hw) as Hf.
  change (from_option id (w_db w1) None) with (w_db w).
  destruct (fanout_loop _ _ _ _ _ _) as [r w3]. intros Hr _. exists (EvAt ev). exact (Hf Hr).
Qed.

(** The end of a pass: the task stays, or it was owed nothing any more. *)
Definition pass_end w w' : Prop := calm w w' \/
  exists task w1, d_tasks (w_db w) !! taskID = Some task /\ calm w w1 /\ removal w1 w' /\
    all_announced (w_db w) (committed (store_of w1)) task.

Lemma tail_spec o w task : rest w -> linked (d_tasks (w_db w)) (committed (store_of w)) ->
  d_tasks (w_db w) !! taskID = Some task ->
  let w' := (tail task o w).2 in rest w' /\ pass_end w w'.
Proof.
  cbn zeta. intros Hw Hl Ht. unfold Chain.tail. rewrite bind_run.
  pose proof (notify_announces o w task Hw) as Hann.
  pose proof (calm_notify channels encode_webhook notifier taskID task o w Hw) as Hn.
  destruct (notify _ _ _ _ _ _ _) as [[e|[]] w1]; cbn [snd] in *; [split; [apply Hn|left; by intros _]|].
  specialize (Hann eq_refl). destruct Hn as (Hw1 & Hd1 & Hj1). rewrite bind_run.
  pose proof (calm_runHook hook_stat hook_access hook_child configDir taskID task o w1 Hw1) as Hh.
  destruct (runHook _ _ _ _ _ _ _ _) as [[e|[]] w2]; cbn [snd] in *; destruct Hh as (Hw2 & Hd2 & Hj2);
    rewrite (proj1 (hs_tables _ _ _ Hd1)) in Hj2.
  { split; [done|left]. intros _. split_and!; [done|by etransitivity|by etransitivity]. }
  destruct (maybeAutoRemove_spec o w2 Hw2) as [Hr Hend].
  { rewrite (proj1 (hs_tables _ _ _ Hd2)), (proj1 (hs_tables _ _ _ Hd1)). eapply js_linked; [exact Hj2|].
    by eapply js_linked. }
  assert (Hc : calm w w2) by (intros _; split_and!; [done|by etransitivity|by etransitivity]).
  split; [done|]. destruct Hend as [Hend|Hend]; [left; by etransitivity|right]. exists task, w2. split_and!; try done.
  intros Hon. destruct (Hann Hon) as (time & Hall). exists time. cbn zeta. intros ch Hch Hs. eapply announced_step; [exact Hj2|by apply Hall].
Qed.

(** The invariant of the jobs table: rows name existing tasks, a task has one
    row of each dispatched kind, and deliveries belong to no task. *)
Record table_ok (m : gmap string task) (t : jobs) : Prop := {
  tk_linked : linked m t;
  tk_one : one_each t;
  tk_unbound : forall i j, t !! i = Some j -> Kind j = JobKindWebhook -> TaskID j = None }.

Lemma table_ok_step m t t' : jobs_step m taskID t t' -> table_ok m t -> table_ok m t'.
Proof.
  intros [Hl Ho Hn H1] [L O U]. split; [by apply Hl|by apply H1|]. intros i j Hj Hk.
  destruct (t !! i) as [j0|] eqn:Hi.
  - destruct (Ho _ _ Hi) as (j' & Hj' & Hr). assert (j' = j) as -> by congruence.
    destruct Hr as [-> |(_ & (p & n & ->) & Hk')]; [by eapply U|]. simpl in Hk.
    destruct Hk' as [[Hk' _]|[Hk' _]]; by rewrite Hk in Hk'.
  - destruct (Hn _ _ Hi Hj) as (_ & _ & _ & _ & [[[Hd|Hd] _]|[_ ?]]); [by rewrite Hd in Hk..|done].
Qed.

Lemma table_ok_removed m t : table_ok m t -> table_ok (delete taskID m) (filter of_others t).
Proof.
  intros [L O U]. split.
  - intros i j id [Hj Ho]%map_lookup_filter_Some Ht. unfold of_others in Ho. simpl in Ho.
    rewrite lookup_delete_ne by congruence. by eapply L.
  - intros i i' j j' [Hj _]%map_lookup_filter_Some [Hj' _]%map_lookup_filter_Some. by apply O.
  - intros i j [Hj _]%map_lookup_filter_Some. by eapply U.
Qed.

Lemma announced_removed m t p : table_ok m t -> announced t p -> announced (filter of_others t) p.
Proof.
  intros Hok (i & j & Hj & Hk & Hp). exists i, j. split_and!; [|done..]. apply map_lookup_filter_Some. split; [done|].
  unfold of_others. simpl. by rewrite (tk_unbound _ _ Hok i j Hj Hk).
Qed.

(** What the task is owed no more. *)
Definition extraction_settled (d : db) (t : jobs) (task : task) : Prop :=
  is_archive task = true -> bool_row d "auto_extract" = Some (Some true) ->
  exists j, newest_job (of_task JobKindExtract taskID) t = Some j /\ (JState j = JobRunning \/ JState j = JobDone).
Definition move_settled (t : jobs) (task : task) : Prop :=
  is_Some (owes_move task) -> exists j, newest_job (of_task JobKindMove taskID) t = Some j /\ JState j = JobRunning.

Lemma after_extract_spec o w task : rest w -> linked (d_tasks (w_db w)) (committed (store_of w)) ->
  d_tasks (w_db w) !! taskID = Some task ->
  let w' := (after_extract bool_row channels encode_move encode_webhook hook_stat hook_access hook_child notifier configDir
    taskID task o w).2 in rest w' /\ (calm w w' \/ pass_end w w' /\ move_settled (committed (store_of w)) task).
Proof.
  cbn zeta. intros Hw Hl Ht. unfold after_extract. destruct (owes_move task) as [[src dst]|] eqn:Hm.
  - rewrite bind_run. unfold moveSettled.
    destruct (query_jobs_run (fun t => JState <$> newest_job (of_task JobKindMove taskID) t)
      (fun state => bool_decide (state = Some JobRunning)) o w Hw) as [-> | ->]; [split; [done|left; by apply calm_same]|].
    case_bool_decide as Hs.
    + destruct (tail_spec o (bump w) task Hw Hl Ht) as [Hr He]. split; [exact Hr|]. right. split; [exact He|]. intros _.
      destruct (newest_job _ _) as [j|]; [|done]. exists j. split; [done|]. by injection Hs.
    + pose proof (calm_enqueueMove encode_move taskID src dst o (bump w)) as Hc. split; [by apply Hc|left]. exact Hc.
  - destruct (tail_spec o w task Hw Hl Ht) as [Hr He]. split; [done|]. right. split; [done|].
    unfold move_settled. rewrite Hm. by intros [? ?].
Qed.

Lemma OnCompleted_spec o w : rest w -> linked (d_tasks (w_db w)) (committed (store_of w)) ->
  let w' := (OnCompleted o w).2 in rest w' /\ (calm w w' \/ pass_end w w' /\
    forall task, d_tasks (w_db w) !! taskID = Some task ->
      extraction_settled (w_db w) (committed (store_of w)) task /\ move_settled (committed (store_of w)) task).
Proof.
  cbn zeta. intros Hw Hl. unfold Chain.OnCompleted. rewrite bind_run. unfold attempt, Get. rewrite bind_run.
  unfold query, current, queryGetTask. rewrite (proj1 Hw). cbn [default].
  destruct (o_io o _); [|split; [done|left; by apply calm_same]..].
  change (d_tasks (default (w_db w) None)) with (d_tasks (w_db w)).
  destruct (d_tasks (w_db w) !! taskID) as [task|] eqn:Ht; [|split; [done|left; by apply calm_same]].
  rewrite ret_run. set (w1 := bump w).
  assert (Hafter : forall w2, w_db w2 = w_db w -> w_tx w2 = w_tx w -> w_eng w2 = w_eng w ->
    extraction_settled (w_db w) (committed (store_of w)) task ->
    let w' := (after_extract bool_row channels encode_move encode_webhook hook_stat hook_access hook_child notifier configDir
      taskID task o w2).2 in rest w' /\ (calm w w' \/ pass_end w w' /\ forall t, Some task = Some t ->
      extraction_settled (w_db w) (committed (store_of w)) t /\ move_settled (committed (store_of w)) t)).
  { intros w2 Hd Htx He Hx. cbn zeta. assert (Hs : store_of w2 = store_of w) by (unfold store_of; by rewrite He).
    assert (Hw2 : rest w2) by (unfold rest; by rewrite Hs, Htx).
    destruct (after_extract_spec o w2 task Hw2) as [Hr Hend]; [by rewrite Hd, Hs|by rewrite Hd|].
    assert (H2 : calm w w2) by by apply calm_same.
    split; [done|]. destruct Hend as [Hend|[Hend Hm]]; [left; by transitivity w2|right]. rewrite Hs in Hm. split; [|by intros ? [= <-]].
    destruct Hend as [Hend|(t1 & w3 & Ht1 & Hc & Hrem & Hann)]; [left; by transitivity w2|right].
    exists t1, w3. rewrite Hd in Ht1, Hann. split_and!; [done|by transitivity w2|done..]. }
  rewrite bind_run. destruct (is_archive task) eqn:Har.
  - destruct (boolSetting_run "auto_extract" o w1 (proj1 Hw)) as [-> | ->]; [split; [done|left; by apply calm_same]|].
    change (w_db w1) with (w_db w). destruct (bool_row (w_db w) _) as [[[]|]|] eqn:Hb;
      try (apply Hafter; [done..|]; intros _; congruence).
    rewrite bind_run. unfold extractSettled, extractJobState.
    destruct (query_jobs_run (fun t => JState <$> newest_job (of_task JobKindExtract taskID) t)
      (fun state => bool_decide (state = Some JobRunning) || bool_decide (state = Some JobDone)) o (bump w1) Hw) as [-> | ->];
      [split; [done|left; by apply calm_same]|].
    destruct (_ || _) eqn:Hs.
    + apply Hafter; [done..|]. intros _ _. change (store_of (bump w1)) with (store_of w) in Hs.
      destruct (newest_job _ _) as [j|]; [|done]. exists j. split; [done|].
      apply orb_true_iff in Hs as [[= ?]%bool_decide_eq_true|[= ?]%bool_decide_eq_true]; auto.
    + pose proof (calm_enqueueExtract encode_extract taskID o (bump (bump w1))) as Hc. split; [by apply Hc|left]. exact Hc.
  - rewrite ret_run. apply Hafter; [done..|]. intros Ha. congruence.
Qed.

(** C22: Whatever the driver, the clock and the hook answer, a pass keeps the jobs
    table in order: no row that is running is touched, a row is put back to
    the start only when its run failed or its move is still owed, new rows
    wait for their first run.  It removes the task only when that is switched
    on, no extraction or move is owed and every delivery of its event is in
    the table - and those deliveries outlive the task. *)
Theorem OnCompleted_safe o w : rest w -> table_ok (d_tasks (w_db w)) (committed (store_of w)) ->
  let w' := (OnCompleted o w).2 in
  rest w' /\ table_ok (d_tasks (w_db w')) (committed (store_of w')) /\
  (calm w w' \/ exists task w1, calm w w1 /\ removal w1 w' /\ d_tasks (w_db w) !! taskID = Some task /\
     extraction_settled (w_db w) (committed (store_of w)) task /\ move_settled (committed (store_of w)) task /\
     all_announced (w_db w) (committed (store_of w')) task).
Proof.
  cbn zeta. intros Hw Hok. destruct (OnCompleted_spec o w Hw (tk_linked _ _ Hok)) as [Hr Hend]. split; [done|].
  assert (Hcalm : forall w1, calm w w1 -> rest w1 /\ d_tasks (w_db w1) = d_tasks (w_db w) /\ table_ok (d_tasks (w_db w1)) (committed (store_of w1))).
  { intros w1 Hc. destruct (Hc Hw) as (Hr1 & Hd & Hj). rewrite (proj1 (hs_tables _ _ _ Hd)). split_and!; [done..|].
    by eapply table_ok_step. }
  destruct Hend as [Hc|[[Hc|(task & w1 & Ht & Hc & Hrem & Hann)] Hset]]; [split; [by apply Hcalm|by left]..|].
  destruct (Hcalm w1 Hc) as (Hr1 & Hd1 & Hok1). pose proof Hrem as (_ & Hd' & _ & Hj'). rewrite Hd', Hj'.
  split; [by apply table_ok_removed|right]. exists task, w1. destruct (Hset task Ht) as [Hx Hm]. split_and!; try done.
  intros Hon. destruct (Hann Hon) as (time & Hall). exists time. cbn zeta. intros ch Hch Hs.
  eapply announced_removed; [exact Hok1|by apply Hall].
Qed.

(** ** An owed move, over a driver that answers *)

(** The table after the dispatch. *)
Definition dispatch_move (payload : string) (id : string) (now : Z) (t : jobs) : jobs :=
  let t := (fun j : Job => if stale_move taskID payload j then reset_job payload now j else j) <$> t in
  if exists_job (of_task JobKindMove taskID) t then t
  else <[id := new_job JobKindMove (Some taskID) payload now]> t.

Lemma enqueueMove_run o w src dst : io_ok o -> rest w -> is_Some (d_tasks (w_db w) !! taskID) ->
  (forall n, committed (store_of w) !! ("job_" +:+ o_id o n) = None) ->
  exists id now w', enqueueMove encode_move taskID src dst o w = (inr tt, w') /\ rest w' /\ w_db w' = w_db w /\
    committed (store_of w') = dispatch_move (encode_move (MkPayload taskID src dst)) id now (committed (store_of w)) /\
    committed (store_of w) !! id = None.
Proof.
  intros Hok Hw [task Ht] Hfresh. unfold enqueueMove. rewrite bind_run. cbn [unix_milli]. set (w1 := bump w).
  set (now := o_now o _). set (payload := encode_move _). unfold with_job_tx, begin_jobs, job_rolled_back. rewrite bind_run, Hok.
  cbn beta iota. set (w2 := bump (with_store _ w1)). rewrite bind_run. unfold exec_jobs. rewrite !Hok.
  assert (Hr2 : rows w2 = committed (store_of w)) by (unfold rows, w2; by rewrite store_bump, store_with).
  unfold update_jobs. rewrite Hr2. set (t1 := _ <$> committed (store_of w)). rewrite bind_run. cbn [NewID].
  set (w3 := bump (put_rows t1 w2)). rewrite bind_run, Hok. set (id := "job_" +:+ _).
  assert (Hid : committed (store_of w) !! id = None) by apply Hfresh.
  assert (Hr3 : rows (bump w3) = t1).
  { unfold rows, w3. rewrite !store_bump. unfold put_rows, w2. rewrite !store_bump, !store_with. done. }
  assert (Hins : exists k, insert_unless (of_task JobKindMove taskID) id (new_job JobKindMove (Some taskID) payload now)
     (current (bump w3)) (rows (bump w3)) = Some (dispatch_move payload id now (committed (store_of w)), k)).
  { rewrite Hr3. unfold insert_unless, dispatch_move. fold t1. destruct (exists_job _ _); [by eexists|].
    assert (Hcur : current (bump w3) = w_db w) by (change (current w = w_db w); unfold current; by rewrite (proj1 Hw)).
    rewrite Hcur. unfold orphan. cbn [TaskID new_job].
    rewrite Ht, (bool_decide_eq_false_2 (Some task = None)) by done.
    rewrite bool_decide_eq_false_2; [by eexists|]. unfold t1. rewrite lookup_fmap, Hid. by intros [? ?]. }
  destruct Hins as [k ->]. unfold commit_jobs. rewrite Hok. cbn beta iota.
  exists id, now. eexists. split; [done|]. unfold discard, publish. unfold rest. rewrite !store_with.
  split_and!; [apply Hw|done|done| |apply Hfresh]. cbn [committed]. rewrite store_bump, store_with. cbn [committed].
  unfold rows. rewrite !store_bump. unfold put_rows. rewrite store_with. unfold w3. rewrite store_bump. unfold put_rows, w2.
  by rewrite store_bump, !store_with, store_bump, store_with.
Qed.

(** One row of the task's move, waiting with the payload. *)
Lemma dispatch_move_waits payload id now t : one_each t -> t !! id = None ->
  (forall i j, t !! i = Some j -> of_task JobKindMove taskID j = true -> JState j <> JobRunning) ->
  exists i j, dispatch_move payload id now t !! i = Some j /\ Kind j = JobKindMove /\ TaskID j = Some taskID /\
    PayloadJSON j = payload /\ JState j = JobPending /\
    forall i' j', dispatch_move payload id now t !! i' = Some j' -> of_task JobKindMove taskID j' = true -> i' = i.
Proof.
  intros Hone Hid Hrun. unfold dispatch_move. set (t1 := _ <$> t).
  assert (Hsame : forall i' j', t1 !! i' = Some j' -> of_task JobKindMove taskID j' = true -> exists j, t !! i' = Some j /\
    of_task JobKindMove taskID j = true /\ (j' = j \/ j' = reset_job payload now j) /\ PayloadJSON j' = payload /\ JState j' = JobPending).
  { intros i' j'. unfold t1. rewrite lookup_fmap. destruct (t !! i') as [j|] eqn:Hj; [|by intros].
    intros [= <-] Hof. exists j. split; [done|]. destruct (stale_move taskID payload j) eqn:Hs.
    - pose proof Hs as [Hof' _]%andb_true_iff. split_and!; [done|by right|done..].
    - split_and!; [done|by left|..]; unfold stale_move in Hs; rewrite Hof in Hs; simpl in Hs; specialize (Hrun i' j Hj Hof);
        destruct (JState j) eqn:Hst; try done; rewrite !bool_decide_eq_false_2 in Hs by done; simpl in Hs;
        case_bool_decide as Hp; try done; by destruct (decide (PayloadJSON j = payload)). }
  destruct (exists_job _ t1) eqn:Hx.
  - apply existsb_exists in Hx as ([i j] & Hin & Hof). apply list_elem_of_In, elem_of_map_to_list in Hin. simpl in Hof.
    destruct (Hsame i j Hin Hof) as (j0 & Hj0 & Hof0 & _ & Hp & Hst). exists i, j. pose proof Hof as [Hk Ht]%of_task_spec.
    split_and!; try done. intros i' j' Hj' Hof'. destruct (Hsame i' j' Hj' Hof') as (j1 & Hj1 & Hof1 & _).
    apply of_task_spec in Hof0 as [Hk0 Ht0], Hof1 as [Hk1 Ht1]. eapply Hone; [done..|right; congruence|congruence|congruence|congruence].
  - rewrite exists_job_false in Hx. exists id, (new_job JobKindMove (Some taskID) payload now). rewrite lookup_insert_eq.
    split_and!; try done. intros i' j' [[<- _]|[_ Hj']]%lookup_insert_Some Hof; [done|]. by rewrite (Hx i' j' Hj') in Hof.
Qed.

(** The move was dispatched and nothing else happened. *)
Definition sent w (src dst : string) (out : res unit * world) : Prop := exists w', out = (inr tt, w') /\ w_db w' = w_db w /\
  exists id now, committed (store_of w') = dispatch_move (encode_move (MkPayload taskID src dst)) id now (committed (store_of w)) /\
    committed (store_of w) !! id = None.

Section Dispatch.
Context (o : oracle) (w : world) (task : task) (src dst : string) (Hok : io_ok o) (Hw : rest w)
  (Ht : d_tasks (w_db w) !! taskID = Some task) (Hm : owes_move task = Some (src, dst))
  (Hrun : forall i j, committed (store_of w) !! i = Some j -> of_task JobKindMove taskID j = true -> JState j <> JobRunning)
  (Hfresh : forall n, committed (store_of w) !! ("job_" +:+ o_id o n) = None).

Lemma after_extract_sends w2 : w_db w2 = w_db w -> w_tx w2 = w_tx w -> w_eng w2 = w_eng w ->
  sent w src dst (after_extract bool_row channels encode_move encode_webhook hook_stat hook_access hook_child notifier configDir
    taskID task o w2).
Proof using Hok Hw Ht Hm Hrun Hfresh.
  intros Hd Htx He. assert (Hs : store_of w2 = store_of w) by (unfold store_of; by rewrite He).
  assert (Hw2 : rest w2) by (unfold rest; by rewrite Hs, Htx). unfold after_extract. rewrite Hm, bind_run.
  unfold moveSettled. rewrite bind_run. unfold query_jobs. rewrite Hok, ret_run. unfold rows. rewrite (proj2 Hw2), Hs. cbn [default from_option].
  rewrite bool_decide_eq_false_2.
  - destruct (enqueueMove_run o (bump w2) src dst) as (id & now & w' & Hr & _ & Hd' & Hc & Hid);
      [done|exact Hw2|cbn [w_db bump]; rewrite Hd, Ht; by eexists|intros n; rewrite store_bump, Hs; apply Hfresh|].
    exists w'. rewrite Hr. split_and!; [done|by rewrite Hd'|]. exists id, now. by rewrite store_bump, Hs in Hc, Hid.
  - intros Hn. destruct (newest_job _ _) as [j|] eqn:Hj; [|done]. apply newest_job_in in Hj as (i & Hj & Hof).
    by apply (Hrun i j Hj Hof); injection Hn.
Qed.

Lemma OnCompleted_sends : extraction_settled (w_db w) (committed (store_of w)) task -> sent w src dst (OnCompleted o w).
Proof using Hok Hw Ht Hm Hrun Hfresh.
  intros Hx. unfold Chain.OnCompleted. rewrite bind_run. unfold attempt, Get. rewrite bind_run. unfold query, current, queryGetTask.
  rewrite (proj1 Hw), Hok. change (d_tasks (default (w_db w) None)) with (d_tasks (w_db w)). rewrite Ht, ret_run, bind_run.
  destruct (is_archive task) eqn:Har; [|rewrite ret_run; by apply after_extract_sends]. unfold boolSetting. rewrite bind_run.
  unfold query, current. cbn [w_tx bump]. rewrite (proj1 Hw), Hok, ret_run. cbn [default w_db bump].
  destruct (bool_row _ _) as [[[]|]|] eqn:Hb; try by apply after_extract_sends. rewrite bind_run. unfold extractSettled, extractJobState.
  rewrite bind_run. unfold query_jobs. rewrite Hok, ret_run.
  destruct (Hx Har Hb) as (j & Hj & Hst). unfold rows. rewrite !store_bump, (proj2 Hw). cbn [default from_option]. rewrite Hj. simpl.
  destruct Hst as [-> | ->]; by apply after_extract_sends.
Qed.
End Dispatch.

(** C23: Over a driver that answers, take a completed task whose payload lies outside
    its destination, with no extraction left to do (not an archive, extraction
    off, or an extract job running or done) and no move job running.  The pass
    ends with exactly one row for its move, waiting for a worker with the
    payload as it is now; the tables are left alone, and the chain stops there.
    Once the row points at the place the payload names, no move is owed any
    more. *)
Theorem owed_move_is_dispatched o w task src dst :
  io_ok o -> rest w -> table_ok (d_tasks (w_db w)) (committed (store_of w)) ->
  d_tasks (w_db w) !! taskID = Some task -> owes_move task = Some (src, dst) ->
  extraction_settled (w_db w) (committed (store_of w)) task ->
  (forall i j, committed (store_of w) !! i = Some j -> of_task JobKindMove taskID j = true -> JState j <> JobRunning) ->
  (forall n, committed (store_of w) !! ("job_" +:+ o_id o n) = None) ->
  let (r, w') := OnCompleted o w in
  r = inr tt /\ w_db w' = w_db w /\ exists i j, committed (store_of w') !! i = Some j /\
    Kind j = JobKindMove /\ TaskID j = Some taskID /\ JState j = JobPending /\
    PayloadJSON j = encode_move (MkPayload taskID src dst) /\
    (forall i' j', committed (store_of w') !! i' = Some j' -> of_task JobKindMove taskID j' = true -> i' = i) /\
    (IsAbs (t_destination task) = true -> Base src ∉ ["."; ".."; "/"]%string ->
     owes_move (set_content_path (Some dst) task) = None).
Proof.
  intros Hok Hw Htab Ht Hm Hx Hrun Hfresh.
  destruct (OnCompleted_sends o w task src dst Hok Hw Ht Hm Hrun Hfresh Hx) as (w' & -> & Hd & id & now & Hc & Hid).
  split_and!; [done..|]. rewrite Hc.
  destruct (dispatch_move_waits (encode_move (MkPayload taskID src dst)) id now _ (tk_one _ _ Htab) Hid Hrun)
    as (i & j & ? & ? & ? & ? & ? & ?). exists i, j. split_and!; try done. intros ? ?. by eapply owes_move_done.
Qed.
End Chain.

(** ** No write of the store sets [completed_at] *)

(** The fan-out takes the time of the event from the row when it is set, so
    that a second pass rebuilds the same payload. *)
Definition same_completed (d d' : db) : Prop := forall id t, d_tasks d !! id = Some t ->
  exists t', d_tasks d' !! id = Some t' /\ t_completed_at t' = t_completed_at t.

#[global] Instance same_completed_pre : PreOrder same_completed.
Proof.
  split; [intros d id t Ht; by exists t|]. intros d e f H1 H2 id t (t1 & Ht1 & Hc1)%H1.
  destruct (H2 _ _ Ht1) as (t2 & Ht2 & Hc2). exists t2. split; [done|congruence].
Qed.

Lemma update_same_completed id guard f ok : (forall t, t_completed_at (f t) = t_completed_at t) ->
  stmt_keeps same_completed (update_where id guard f ok).
Proof.
  intros Hf d d' k [(-> & _)|(t & Ht & _ & _ & _ & ->)]%update_where_inv; [reflexivity|]. intros j u Hu. simpl.
  destruct (decide (j = id)) as [-> |]; [|rewrite lookup_insert_ne by done; by exists u].
  rewrite lookup_insert_eq. replace u with t by congruence. by exists (f t).
Qed.

Lemma insert_same_completed e : stmt_keeps same_completed (queryInsertTaskEvent e).
Proof.
  intros d d' k. unfold queryInsertTaskEvent. destruct (d_tasks d !! _); [|done]. destruct (contains _ _); [|done].
  intros [= <- <-] i u Hu. by exists u.
Qed.

Lemma create_same_completed id t : stmt_keeps same_completed (queryCreateTask id t).
Proof.
  intros d d' k. unfold queryCreateTask. destruct (d_tasks d !! id) eqn:Hid; [done|]. destruct (_ && _); [|done].
  intros [= <- <-] j u Hu. exists u. simpl. rewrite lookup_insert_ne; [done|congruence].
Qed.

Lemma patch_same_completed p t : t_completed_at (apply_patch p t) = t_completed_at t.
Proof. destruct p as [[] [] [] [] [] [] []]; reflexivity. Qed.

Lemma run_op_same_completed {E} c : always (keeps same_completed (E := E)) (run_op c).
Proof.
  destruct c; apply always_ignore; try apply _; unfold Create, CreateLogged, prepareNewTask, AppendEvent, UpdateProgress,
    SetEngineRef, Transition, MarkRemoved, ScheduleParked, PauseWithCode, SetErrorCodeIfState, SetErrorCode, ClearHoldCode,
    ClearPausedHoldCode, ClaimParkedDiskFull, MarkAdmissionPending, SetSelectionIntent, Update, SetExtractProgress, insertTaskEvent, fire_completed;
    walk.
  all: first [apply create_same_completed|apply insert_same_completed|apply update_same_completed; first [reflexivity|intros; apply patch_same_completed]|idtac].
Qed.

(** No history of store calls gives an existing row a completion time. *)
Lemma completed_at_never_written {E} ops o (w : world E) id t : w_tx w = None -> d_tasks (w_db w) !! id = Some t ->
  exists t', d_tasks (w_db (run_ops ops o w).2) !! id = Some t' /\ t_completed_at t' = t_completed_at t.
Proof.
  intros Hw Ht. assert (Hk : always (keeps same_completed (E := E)) (run_ops ops)).
  { induction ops as [|c ops IH]; simpl; [apply always_ret; apply _|].
    apply always_bind; [apply _|apply run_op_same_completed|done]. }
  apply (k_db _ _ _ (Hk o w)); [|done]. unfold tx_ok. by rewrite Hw.
Qed.

(** ** A small machine *)

#[global] Instance demo_jobs : JobTable job_store := {|
  job_table := fun s => s; set_job_table := fun s _ => s; job_table_set := fun _ _ => eq_refl |}.

(** A completed task whose payload is at [path], bound for [/m]. *)
Definition finished (path : string) : task :=
  set_content_path (Some path) (http_task StateCompleted 1).

(** Auto-remove on or off, everything else at its default. *)
Definition demo_settings (auto_remove : bool) (_ : db) (key : string) : option (option bool) :=
  if bool_decide (key = "auto_remove_on_complete"%string) then Some (Some auto_remove) else None.
(** One channel that listens, one with a broken mask, one that is off. *)
Definition demo_channels (_ : db) : list Channel :=
  [MkChannel "c1" 1 (Some ["*"%string]); MkChannel "c2" 1 None; MkChannel "c3" 0 (Some ["*"%string])].
Definition demo_encode_move (p : movePayload) : string := mp_src p +:+ ">" +:+ mp_dst p.
Definition demo_encode_webhook (p : webhookPayload) : string := ChannelID p +:+ "@" +:+ pretty (EvAt (wh_event p)).

Definition demo_start (path : string) (t : jobs) : world job_store :=
  World (tables_of [("a"%string, finished path)]) None 0 None true [] Lease.NewRegistry (MkJobStore t None).
Definition demo_pass (auto_remove : bool) (o : oracle) (w : world job_store) : res unit * world job_store :=
  OnCompleted (H := ascii_tables) (demo_settings auto_remove) demo_channels id demo_encode_move demo_encode_webhook
    (fun _ => Some true) (fun _ => true) (fun _ _ _ => MkChild false None [] []) true "/config" "a" o w.

Definition failed_move : Job := MkJob JobKindMove (Some "a"%string) "old" JobFailed 5 5 1 None (Some "x"%string) 1 1.
Definition with_failed_move : jobs := {["j1"%string := failed_move]}.

Lemma demo_table_ok path : table_ok (d_tasks (w_db (demo_start path with_failed_move))) with_failed_move.
Proof.
  unfold with_failed_move. split.
  - intros i j id [<- <-]%lookup_singleton_Some [= <-]. by eexists.
  - intros i i' j j' [<- <-]%lookup_singleton_Some [<- <-]%lookup_singleton_Some. done.
  - by intros i j [<- <-]%lookup_singleton_Some.
Qed.

Lemma OnCompleted_safe_witness :
  let w' := (demo_pass true healthy (demo_start "/data/f" with_failed_move)).2 in
  d_tasks (w_db w') = ∅ /\ committed (store_of w') !! "j1"%string = None /\
  table_ok (d_tasks (w_db w')) (committed (store_of w')).
Proof.
  cbn zeta. set (w' := (demo_pass _ _ _).2). split; [by vm_compute|]. split; [by vm_compute|].
  apply (OnCompleted_safe (H := ascii_tables) (demo_settings true) demo_channels id demo_encode_move demo_encode_webhook
    (fun _ => Some true) (fun _ => true) (fun _ _ _ => MkChild false None [] []) true "/config" "a" healthy
    (demo_start "/data/f" with_failed_move)); [done|apply demo_table_ok].
Defined.

Lemma owed_move_is_dispatched_witness :
  let w' := (demo_pass true healthy (demo_start "/in/f" with_failed_move)).2 in
  exists i j, committed (store_of w') !! i = Some j /\ JState j = JobPending /\ PayloadJSON j = "/in/f>/data/f"%string.
Proof.
  cbn zeta. pose proof (owed_move_is_dispatched (H := ascii_tables) (demo_settings true) demo_channels id demo_encode_move
    demo_encode_webhook (fun _ => Some true) (fun _ => true) (fun _ _ _ => MkChild false None [] []) true "/config" "a" healthy
    (demo_start "/in/f" with_failed_move) (finished "/in/f") "/in/f" "/data/f" healthy_io ltac:(done) (demo_table_ok _)
    ltac:(by vm_compute) ltac:(by vm_compute) ltac:(by intros Ha; vm_compute in Ha)) as Hd.
  unfold demo_pass. destruct (OnCompleted _ _ _ _ _ _ _ _ _ _ _ _ _) as [r w'].
  destruct Hd as (_ & _ & i & j & Hj & _ & _ & Hs & Hp & _).
  - change (committed (store_of (demo_start "/in/f" with_failed_move))) with ({["j1"%string := failed_move]} : jobs).
    by intros i j [<- <-]%lookup_singleton_Some _.
  - intros n. change (committed (store_of (demo_start "/in/f" with_failed_move))) with ({["j1"%string := failed_move]} : jobs).
    apply lookup_singleton_None. intros Heq. by destruct (pretty n) in Heq.
  - by exists i, j.
Defined.

(** The event that says why the row went is written and goes with it: no
    reader can ever see it. *)
Example removal_event_is_lost :
  let '(r, w') := demo_pass true healthy (demo_start "/data/f" ∅) in
  bool_decide (r = inr tt /\ d_tasks (w_db w') = ∅ /\ d_events (w_db w') = []) = true.
Proof. by vm_compute. Qed.

(** The row carries no completion time, so a pass that comes again takes a new
    time and the channel is told twice. *)
Example second_pass_delivers_again :
  let w1 := (demo_pass false healthy (demo_start "/data/f" ∅)).2 in
  let w2 := (demo_pass false healthy w1).2 in
  (size (committed (store_of w1)), size (committed (store_of w2))) = (1%nat, 2%nat).
Proof. by vm_compute. Qed.
