(* ===== verification/Throttle.v ===== *)
(** * The login throttle ([internal/api/auth.go])

    The per-account ladder and the per-source token bucket behind the login
    and the setup.  Every method is one critical section, so a history of the
    throttle is a sequence of calls.  Times are nanoseconds of one monotonic
    clock; the differences the code takes are only compared with minutes, so
    the saturation of [time.Sub] is never reached. *)

From stdpp Require Import gmap.
From S2P Require Import Prelude GoStrings.

Open Scope Z_scope.

Definition second : Z := 1000000000.
Definition throttleSourceCapacity : Z := 10.
Definition throttleSourceWindow : Z := 5 * 60 * second.
Definition throttleBackoffStart : Z := 1 * second.
Definition throttleBackoffCap : Z := 15 * 60 * second.
Definition throttleBackoffMaxShift : Z := 10.
Definition throttleSweepFloor : nat := 1024.
Definition attemptCost : Z := throttleSourceWindow `quot` throttleSourceCapacity.

(** [sourceBucket] and [loginThrottle]. *)
Record sourceBucket := MkBucket { credit : Z; at_ : Z }.
Abbreviation key := (list Z).
Record loginThrottle := MkThrottle {
  accounts : gmap key Z; failures : gmap key Z; sources : gmap key sourceBucket }.

(** [newLoginThrottle]. *)
Definition newLoginThrottle : loginThrottle := MkThrottle ∅ ∅ ∅.

(** [accountKey]. *)
Definition accountKey (username : list Z) : key :=
  Map (fun r => Some (if (65 <=? r) && (r <=? 90) then r + 32 else r)) username.

Definition forget (u : key) (t : loginThrottle) : loginThrottle :=
  MkThrottle (delete u (accounts t)) (delete u (failures t)) (sources t).

(** [sweepLocked]. *)
Definition idle_account (now : Z) (eligible : Z) : bool := throttleBackoffCap <=? now - eligible.
Definition idle_source (now : Z) (b : sourceBucket) : bool := throttleSourceWindow <=? now - at_ b.
Definition sweepLocked (now : Z) (t : loginThrottle) : loginThrottle :=
  MkThrottle (filter (fun p => idle_account now p.2 = false) (accounts t))
    (filter (fun p => from_option (idle_account now) false (accounts t !! p.1) = false) (failures t))
    (filter (fun p => idle_source now p.2 = false) (sources t)).

(** [checkAccount]: the wait, when there is one. *)
Definition checkAccount (username : list Z) (now : Z) (t : loginThrottle) : option Z * loginThrottle :=
  let u := accountKey username in
  match accounts t !! u with
  | None => (None, t)
  | Some eligible =>
    let t := if idle_account now eligible then forget u t else t in
    if eligible <=? now then (None, t) else (Some (eligible - now), t)
  end.

(** [checkSource]. *)
Definition refilled (now : Z) (b : sourceBucket) : sourceBucket :=
  if at_ b <? now
  then MkBucket (credit b + Z.min (now - at_ b) (throttleSourceWindow - credit b)) now
  else b.
Definition checkSource (ip : key) (now : Z) (t : loginThrottle) : option Z * loginThrottle :=
  let bucket := refilled now (default (MkBucket throttleSourceWindow now) (sources t !! ip)) in
  if credit bucket <? attemptCost
  then (Some (attemptCost - credit bucket), MkThrottle (accounts t) (failures t) (<[ip := bucket]> (sources t)))
  else
    let t := MkThrottle (accounts t) (failures t) (<[ip := MkBucket (credit bucket - attemptCost) (at_ bucket)]> (sources t)) in
    (None, if (throttleSweepFloor <? size (sources t))%nat then sweepLocked now t else t).

(** [recordFailure] and [recordSuccess]. *)
Definition recordFailure (username : list Z) (now : Z) (t : loginThrottle) : loginThrottle :=
  let u := accountKey username in
  let n := Z.min (default 0 (failures t !! u) + 1) (throttleBackoffMaxShift + 1) in
  let delay := Z.min (Z.shiftl throttleBackoffStart (n - 1)) throttleBackoffCap in
  let t := MkThrottle (<[u := now + delay]> (accounts t)) (<[u := n]> (failures t)) (sources t) in
  if (throttleSweepFloor <? size (accounts t))%nat then sweepLocked now t else t.
Definition recordSuccess (username : list Z) (t : loginThrottle) : loginThrottle := forget (accountKey username) t.

(** One login as the throttle sees it: the source pays, the ladder is asked,
    and the verdict of the password check is recorded. *)
Record guess := MkGuess { a_ip : key; a_user : list Z; a_now : Z; a_ok : bool }.
Inductive answer := Limited (wait : Z) | Judged (ok : bool).
Definition login (a : guess) (t : loginThrottle) : answer * loginThrottle :=
  match checkSource (a_ip a) (a_now a) t with
  | (Some wait, t) => (Limited wait, t)
  | (None, t) =>
    match checkAccount (a_user a) (a_now a) t with
    | (Some wait, t) => (Limited wait, t)
    | (None, t) => (Judged (a_ok a), if a_ok a then recordSuccess (a_user a) t else recordFailure (a_user a) (a_now a) t)
    end
  end.
Fixpoint logins (l : list guess) (t : loginThrottle) : list answer * loginThrottle :=
  match l with
  | [] => ([], t)
  | a :: l => let (r, t) := login a t in let (rs, t) := logins l t in (r :: rs, t)
  end.
