(* ===== verification/ThrottleProps.v ===== *)
(** * The login throttle: what it lets through

    A source is bounded by its bucket in every interleaving of calls, an
    account by its ladder, and forgetting idle entries changes no answer. *)

From stdpp Require Import gmap functions.
From S2P Require Import Prelude GoStrings Throttle.

Open Scope Z_scope.

(** ** Calls in any order *)

Inductive throttle_call :=
  | CallSource (ip : key) (now : Z) | CallAccount (username : list Z) (now : Z)
  | CallFailure (username : list Z) (now : Z) | CallSuccess (username : list Z) (now : Z).
Definition call_time (c : throttle_call) : Z :=
  match c with CallSource _ now | CallAccount _ now | CallFailure _ now | CallSuccess _ now => now end.
Definition run_call (c : throttle_call) (t : loginThrottle) : option Z * loginThrottle :=
  match c with
  | CallSource ip now => checkSource ip now t
  | CallAccount u now => checkAccount u now t
  | CallFailure u now => (None, recordFailure u now t)
  | CallSuccess u _ => (None, recordSuccess u t)
  end.

(** The calls of a source that were let through. *)
Fixpoint admitted (ip : key) (l : list throttle_call) (t : loginThrottle) : Z :=
  match l with
  | [] => 0
  | c :: l =>
    let (r, t') := run_call c t in
    (match c, r with CallSource ip' _, None => if bool_decide (ip' = ip) then 1 else 0 | _, _ => 0 end) + admitted ip l t'
  end.

(** The clock does not go back. *)
Fixpoint ordered (from to : Z) (l : list Z) : Prop :=
  match l with [] => from <= to | now :: l => from <= now /\ ordered now to l end.

Lemma ordered_le from to l : ordered from to l -> from <= to.
Proof. revert from. induction l as [|n l IH]; simpl; [done|]. intros from [? Ho%IH]. lia. Qed.

(** ** The bucket *)

Definition full (now : Z) : sourceBucket := MkBucket throttleSourceWindow now.
Definition bucket_ok (now : Z) (b : sourceBucket) : Prop := 0 <= credit b <= throttleSourceWindow /\ at_ b <= now.
Definition sources_ok (now : Z) (t : loginThrottle) : Prop := map_Forall (fun _ => bucket_ok now) (sources t).

(** The bucket of a source as a call at [now] finds it. *)
Definition view (now : Z) (t : loginThrottle) (ip : key) : sourceBucket :=
  refilled now (default (full now) (sources t !! ip)).

Lemma window_value : throttleSourceWindow = 300000000000.
Proof. done. Qed.
Lemma cost_value : attemptCost = 30000000000.
Proof. done. Qed.
Lemma cap_value : throttleBackoffCap = 900000000000.
Proof. done. Qed.

Lemma refilled_ok now b : bucket_ok now b -> bucket_ok now (refilled now b) /\ at_ (refilled now b) = now.
Proof.
  unfold bucket_ok, refilled. intros [Hc Ha]. destruct (at_ b <? now) eqn:Hn; simpl; lia.
Qed.

Lemma full_ok now : bucket_ok now (full now).
Proof. unfold bucket_ok. simpl. rewrite window_value. lia. Qed.

Lemma found_ok now t ip : sources_ok now t -> bucket_ok now (default (full now) (sources t !! ip)).
Proof. intros Hok. destruct (sources t !! ip) as [b|] eqn:Hb; [by apply (Hok ip)|apply full_ok]. Qed.

Lemma view_ok now t ip : sources_ok now t -> bucket_ok now (view now t ip) /\ at_ (view now t ip) = now.
Proof. intros Hok. by apply refilled_ok, found_ok. Qed.

Lemma sources_ok_later now now' t : now <= now' -> sources_ok now t -> sources_ok now' t.
Proof. intros Hn Hok ip b Hb. destruct (Hok ip b Hb). split; [done|lia]. Qed.

(** Waiting refills no more than the time that passed. *)
Lemma view_later now now' t ip : now <= now' -> sources_ok now t ->
  credit (view now' t ip) <= credit (view now t ip) + (now' - now).
Proof.
  intros Hn Hok. pose proof (found_ok now t ip Hok) as Hb. unfold view, refilled in *.
  destruct (sources t !! ip) as [b|]; simpl in *.
  - destruct Hb. destruct (at_ b <? now) eqn:?, (at_ b <? now') eqn:?; simpl; lia.
  - rewrite !Z.ltb_irrefl. simpl. lia.
Qed.

(** An idle bucket is full again. *)
Lemma idle_is_full now b : bucket_ok now b -> idle_source now b = true -> refilled now b = full now.
Proof.
  unfold idle_source, refilled, full. intros [? ?] Hi. rewrite window_value in *.
  destruct (at_ b <? now) eqn:?; [|lia]. f_equal. lia.
Qed.

Lemma idle_later now now' b : now <= now' -> idle_source now b = true -> idle_source now' b = true.
Proof. unfold idle_source. lia. Qed.

Lemma view_sweep now now' t ip : now <= now' -> sources_ok now t ->
  view now' (sweepLocked now t) ip = view now' t ip.
Proof.
  intros Hn Hok. unfold view, sweepLocked. cbn [sources]. destruct (sources t !! ip) as [b|] eqn:Hb.
  - destruct (idle_source now b) eqn:Hi.
    + rewrite (proj2 (map_lookup_filter_None _ _ _)); [|right; intros x Hx; simpl; congruence]. simpl.
      rewrite (idle_is_full now' b); [|by apply (sources_ok_later now now' t Hn Hok ip)|by eapply idle_later].
      unfold refilled, full. simpl. by rewrite Z.ltb_irrefl.
    + by rewrite (proj2 (map_lookup_filter_Some _ _ _ b)) by done.
  - rewrite (proj2 (map_lookup_filter_None _ _ _)); [done|by left].
Qed.

Lemma sweep_ok now now' t : sources_ok now t -> sources_ok now (sweepLocked now' t).
Proof. intros Hok ip b [Hb _]%map_lookup_filter_Some. by apply (Hok ip). Qed.

(** What one call of a source leaves. *)
Lemma checkSource_view ip now t : sources_ok now t ->
  let (r, t') := checkSource ip now t in
  sources_ok now t' /\ (forall ip', ip' <> ip -> forall now', now <= now' -> view now' t' ip' = view now' t ip') /\
  match r with
  | Some wait => credit (view now t ip) < attemptCost /\ wait = attemptCost - credit (view now t ip) /\ view now t' ip = view now t ip
  | None => attemptCost <= credit (view now t ip) /\ view now t' ip = MkBucket (credit (view now t ip) - attemptCost) now
  end.
Proof.
  intros Hok. unfold checkSource. fold (full now). fold (view now t ip).
  destruct (view_ok now t ip Hok) as [Hv Hat]. set (v := view now t ip) in *.
  assert (Hins : forall b, bucket_ok now b -> at_ b = now -> let t1 := MkThrottle (accounts t) (failures t) (<[ip := b]> (sources t)) in
    sources_ok now t1 /\ (forall ip', ip' <> ip -> forall now', view now' t1 ip' = view now' t ip') /\ view now t1 ip = b).
  { intros b Hb Ha. cbn zeta. split_and!.
    - intros j x Hj. cbn [sources] in Hj. apply lookup_insert_Some in Hj as [[<- <-]|[_ Hj]]; [done|by apply (Hok j)].
    - intros ip' Hne now'. unfold view. cbn [sources]. by rewrite lookup_insert_ne.
    - unfold view. cbn [sources]. rewrite lookup_insert_eq. simpl. unfold refilled. rewrite Ha, Z.ltb_irrefl. done. }
  destruct (credit v <? attemptCost) eqn:Hc.
  - destruct (Hins v Hv Hat) as (H1 & H2 & H3). split_and!; [done|by intros; apply H2|lia|done|done].
  - destruct (Hins (MkBucket (credit v - attemptCost) (at_ v))) as (H1 & H2 & H3); [|done|].
    { destruct Hv. split; simpl; rewrite cost_value in *; lia. }
    set (t1 := MkThrottle _ _ _) in *. rewrite Hat in H3.
    destruct (_ <? _)%nat; [|split_and!; [done|by intros; apply H2|lia|done]].
    split_and!; [by apply sweep_ok| |lia|by rewrite view_sweep by done].
    intros ip' Hne now' Hn. rewrite view_sweep by done. by apply H2.
Qed.

Lemma forget_sources u t : sources (forget u t) = sources t.
Proof. done. Qed.

(** The other calls leave every bucket as it was. *)
Lemma other_call_view c t : sources_ok (call_time c) t -> (forall ip now, c <> CallSource ip now) ->
  sources_ok (call_time c) (run_call c t).2 /\
  forall ip now', call_time c <= now' -> view now' (run_call c t).2 ip = view now' t ip.
Proof.
  intros Hok Hc. destruct c as [ip now|u now|u now|u now]; [by destruct (Hc ip now)| | |]; cbn [run_call call_time] in *.
  - unfold checkAccount. destruct (accounts t !! _) as [e|]; [|done]. destruct (idle_account now e), (e <=? now); done.
  - unfold recordFailure. set (t1 := MkThrottle _ _ _). cbn [snd].
    destruct (_ <? _)%nat; [|done]. split; [by apply sweep_ok|]. intros ip now' Hn. by rewrite view_sweep.
  - done.
Qed.

(** The budget: from any state, in any interleaving. *)
Lemma admitted_bound ip to l : forall from t, sources_ok from t -> ordered from to (call_time <$> l) ->
  admitted ip l t * attemptCost <= credit (view from t ip) + (to - from).
Proof.
  induction l as [|c l IH]; intros from t Hok Hl; simpl in Hl |- *.
  - destruct (view_ok from t ip Hok) as [[? ?] _]. lia.
  - destruct Hl as [Hn Hl]. pose proof (view_later from (call_time c) t ip Hn Hok) as Hv.
    apply (sources_ok_later _ _ _ Hn) in Hok. destruct c as [ip' now|u now|u now|u now].
    + cbn [run_call call_time] in *. pose proof (checkSource_view ip' now t Hok) as Hs.
      destruct (checkSource ip' now t) as [r t']. destruct Hs as (Hok' & Hother & Hr). specialize (IH now t' Hok' Hl).
      destruct (decide (ip' = ip)) as [-> |Hne].
      * destruct r as [wait|]; [destruct Hr as (_ & _ & He)|destruct Hr as [_ He]]; rewrite He in IH;
          rewrite ?bool_decide_true by done; simpl in IH; rewrite cost_value in *; lia.
      * rewrite (Hother ip) in IH by (done || lia). destruct r; rewrite ?bool_decide_false by done; rewrite cost_value in *; lia.
    + destruct (other_call_view (CallAccount u now) t Hok) as [Hok' Hview]; [done|].
      specialize (Hview ip now). cbn [call_time] in *. destruct (run_call _ t) as [r t'] eqn:Hr.
      specialize (IH now t' Hok' Hl). cbn [snd] in Hview. rewrite Hview in IH by lia. destruct r; rewrite cost_value in *; lia.
    + destruct (other_call_view (CallFailure u now) t Hok) as [Hok' Hview]; [done|]. specialize (Hview ip now).
      cbn [call_time run_call snd] in *. specialize (IH now _ Hok' Hl). rewrite Hview in IH by lia. rewrite cost_value in *. lia.
    + destruct (other_call_view (CallSuccess u now) t Hok) as [Hok' Hview]; [done|]. specialize (Hview ip now).
      cbn [call_time run_call snd] in *. specialize (IH now _ Hok' Hl). rewrite Hview in IH by lia. rewrite cost_value in *. lia.
Qed.

(** However calls of all sources and accounts interleave, a source is let
    through at most ten times at once and once more per thirty seconds: in
    any stretch of the history no more than ten plus the elapsed half
    minutes. *)
Theorem source_budget ip from to l t : sources_ok from t -> ordered from to (call_time <$> l) ->
  admitted ip l t <= throttleSourceCapacity + (to - from) / attemptCost.
Proof.
  intros Hok Hl. pose proof (admitted_bound ip to l from t Hok Hl) as Hb. pose proof (ordered_le _ _ _ Hl).
  destruct (view_ok from t ip Hok) as [[[_ Hw] _] _]. rewrite window_value in Hw. rewrite cost_value in *.
  change throttleSourceCapacity with 10.
  assert (admitted ip l t - 10 <= (to - from) `div` 30000000000) by (apply Z.div_le_lower_bound; lia). lia.
Qed.

(** ** Forgetting changes no answer

    The throttle drops entries to bound its memory: a success and an idle
    check delete, and the sweeps delete behind the caller's back.  The
    reference keeps one ladder per account and one bucket per source and never
    drops anything. *)

Definition rung : Type := Z * Z.
Record reference := MkRef { r_ladder : key -> option rung; r_bucket : key -> option sourceBucket }.
Definition empty_reference : reference := MkRef (fun _ => None) (fun _ => None).

(** A rung counts while it is not idle. *)
Definition live (now : Z) (r : option rung) : option rung :=
  match r with Some (eligible, n) => if idle_account now eligible then None else r | None => None end.

Definition backoff (n : Z) : Z := Z.min (Z.shiftl throttleBackoffStart (n - 1)) throttleBackoffCap.
Definition next_rung (now : Z) (r : option rung) : rung :=
  let n := Z.min (match r with Some (_, n) => n | None => 0 end + 1) (throttleBackoffMaxShift + 1) in (now + backoff n, n).

Definition ref_login (a : guess) (r : reference) : answer * reference :=
  let u := accountKey (a_user a) in
  let b := refilled (a_now a) (default (full (a_now a)) (r_bucket r (a_ip a))) in
  if credit b <? attemptCost then (Limited (attemptCost - credit b), MkRef (r_ladder r) (<[a_ip a := Some b]> (r_bucket r)))
  else
    let bs := <[a_ip a := Some (MkBucket (credit b - attemptCost) (at_ b))]> (r_bucket r) in
    let ladder := live (a_now a) (r_ladder r u) in
    match ladder with
    | Some (eligible, _) => if a_now a <? eligible then (Limited (eligible - a_now a), MkRef (r_ladder r) bs)
      else (Judged (a_ok a), MkRef (<[u := if a_ok a then None else Some (next_rung (a_now a) ladder)]> (r_ladder r)) bs)
    | None => (Judged (a_ok a), MkRef (<[u := if a_ok a then None else Some (next_rung (a_now a) ladder)]> (r_ladder r)) bs)
    end.
Fixpoint ref_logins (l : list guess) (r : reference) : list answer * reference :=
  match l with [] => ([], r) | a :: l => let (x, r) := ref_login a r in let (xs, r) := ref_logins l r in (x :: xs, r) end.

(** What the throttle knows of an account at [now]. *)
Definition rung_of (now : Z) (t : loginThrottle) (u : key) : option rung :=
  live now (match accounts t !! u with Some e => Some (e, default 0 (failures t !! u)) | None => None end).
Definition paired (t : loginThrottle) : Prop := forall u, accounts t !! u = None -> failures t !! u = None.

Record agrees (now : Z) (t : loginThrottle) (r : reference) : Prop := {
  ag_sources : sources_ok now t;
  ag_paired : paired t;
  ag_bucket : forall ip now', now <= now' -> view now' t ip = refilled now' (default (full now') (r_bucket r ip));
  ag_ladder : forall u now', now <= now' -> rung_of now' t u = live now' (r_ladder r u) }.

Lemma agrees_later now now' t r : now <= now' -> agrees now t r -> agrees now' t r.
Proof.
  intros Hn [Hs Hp Hb Hl]. split; [by eapply sources_ok_later|done| |]; intros; [apply Hb|apply Hl]; lia.
Qed.

Lemma idle_account_later now now' e : now <= now' -> idle_account now e = true -> idle_account now' e = true.
Proof. unfold idle_account. lia. Qed.

Lemma rung_sweep now now' t u : now <= now' -> rung_of now' (sweepLocked now t) u = rung_of now' t u.
Proof.
  intros Hn. unfold rung_of, sweepLocked. cbn [accounts failures].
  destruct (accounts t !! u) as [e|] eqn:He.
  - destruct (idle_account now e) eqn:Hi.
    + rewrite (proj2 (map_lookup_filter_None _ _ _)); [|right; intros x Hx; simpl; congruence].
      simpl. by rewrite (idle_account_later now now' e).
    + rewrite (proj2 (map_lookup_filter_Some _ _ _ e)) by done.
      destruct (failures t !! u) as [n|] eqn:Hf.
      * rewrite (proj2 (map_lookup_filter_Some _ _ _ n)); [done|]. simpl. by rewrite He.
      * rewrite (proj2 (map_lookup_filter_None _ _ _)); [done|by left].
  - rewrite (proj2 (map_lookup_filter_None _ _ _)); [done|by left].
Qed.

Lemma paired_sweep now t : paired t -> paired (sweepLocked now t).
Proof.
  intros Hp u Hu. cbn [sweepLocked accounts failures] in *. apply map_lookup_filter_None in Hu.
  apply map_lookup_filter_None. destruct (accounts t !! u) as [e|] eqn:He; [|left; by apply Hp].
  destruct Hu as [Hu|Hu]; [done|]. right. intros n _. simpl. rewrite He. simpl. specialize (Hu e eq_refl). simpl in Hu.
  by destruct (idle_account now e).
Qed.

Lemma agrees_sweep now t r : agrees now t r -> agrees now (sweepLocked now t) r.
Proof.
  intros [Hs Hp Hb Hl]. split; [by apply sweep_ok|by apply paired_sweep| |].
  - intros ip now' Hn. rewrite view_sweep by done. by apply Hb.
  - intros u now' Hn. rewrite rung_sweep by done. by apply Hl.
Qed.

(** No idle entry is left for the account. *)
Definition dropped (u : list Z) (now : Z) (t : loginThrottle) : Prop :=
  forall e, accounts t !! accountKey u = Some e -> idle_account now e = false.

(** The account check asks the rung and, where it is idle, drops it. *)
Lemma checkAccount_rung u now t r : agrees now t r ->
  let (x, t') := checkAccount u now t in agrees now t' r /\ dropped u now t' /\
  x = match live now (r_ladder r (accountKey u)) with Some (e, _) => if e <=? now then None else Some (e - now) | None => None end.
Proof.
  intros Hag. pose proof Hag as [Hs Hp Hb Hl]. specialize (Hl (accountKey u) now (Z.le_refl _)) as Hr. rewrite <- Hr.
  unfold checkAccount, rung_of, dropped. destruct (accounts t !! accountKey u) as [e|] eqn:He; [|split_and!; [done| |done]; congruence]. simpl.
  destruct (idle_account now e) eqn:Hi; [|destruct (e <=? now); split_and!; [done| |done|done| |done]; congruence].
  assert ((e <=? now) = true) as -> by (unfold idle_account in Hi; rewrite cap_value in Hi; lia).
  split; [|split; [intros e'; simpl; by rewrite lookup_delete_eq|done]]. split; [done| |done|].
  - intros v. simpl. destruct (decide (accountKey u = v)) as [<- |Hne]; [by rewrite !lookup_delete_eq|].
    rewrite !lookup_delete_ne by done. apply Hp.
  - intros v now' Hn. rewrite <- (Hl v now' Hn). unfold rung_of. simpl.
    destruct (decide (accountKey u = v)) as [<- |Hne]; [|by rewrite !lookup_delete_ne].
    rewrite lookup_delete_eq, He. simpl. by rewrite (idle_account_later now now' e).
Qed.

(** Recording a verdict rewrites one rung. *)
Lemma agrees_rung now t r v rung (t' := MkThrottle (partial_alter (fun _ => fst <$> rung) v (accounts t))
    (partial_alter (fun _ => snd <$> rung) v (failures t)) (sources t)) :
  agrees now t r -> agrees now t' (MkRef (<[v := rung]> (r_ladder r)) (r_bucket r)).
Proof.
  intros [Hs Hp Hb Hl]. split; [done| |done|].
  - intros u. subst t'. simpl. destruct (decide (v = u)) as [<- |Hne].
    + rewrite !lookup_partial_alter_eq. by destruct rung.
    + rewrite !lookup_partial_alter_ne by done. apply Hp.
  - intros u now' Hn. subst t'. unfold rung_of. simpl. destruct (decide (v = u)) as [<- |Hne].
    + rewrite !lookup_partial_alter_eq, fn_lookup_insert. by destruct rung as [[e n]|].
    + rewrite !lookup_partial_alter_ne, fn_lookup_insert_ne by done. by apply Hl.
Qed.

Lemma agrees_success u now t r : agrees now t r ->
  agrees now (recordSuccess u t) (MkRef (<[accountKey u := None]> (r_ladder r)) (r_bucket r)).
Proof. apply (agrees_rung now t r (accountKey u) None). Qed.

Lemma agrees_failure u now t r : agrees now t r ->
  dropped u now t ->
  agrees now (recordFailure u now t)
    (MkRef (<[accountKey u := Some (next_rung now (live now (r_ladder r (accountKey u))))]> (r_ladder r)) (r_bucket r)).
Proof.
  intros Hag Hlive. pose proof Hag as [_ Hp _ Hl].
  assert (Hn : default 0 (failures t !! accountKey u) = match live now (r_ladder r (accountKey u)) with Some (_, n) => n | None => 0 end).
  { rewrite <- (Hl _ now (Z.le_refl _)). unfold rung_of. destruct (accounts t !! accountKey u) as [e|] eqn:He; [|by rewrite (Hp _ He)].
    simpl. by rewrite (Hlive e He). }
  pose proof (agrees_rung now t r (accountKey u) (Some (next_rung now (live now (r_ladder r (accountKey u))))) Hag) as Hr.
  unfold recordFailure, next_rung, backoff in *. cbn [fmap option_fmap option_map fst snd] in Hr. rewrite Hn.
  destruct (_ <? _)%nat; [by apply agrees_sweep|done].
Qed.

(** The source check is the reference's. *)
Lemma checkSource_bucket ip now t r : agrees now t r ->
  let b := refilled now (default (full now) (r_bucket r ip)) in
  let (x, t') := checkSource ip now t in
  if credit b <? attemptCost
  then x = Some (attemptCost - credit b) /\ agrees now t' (MkRef (r_ladder r) (<[ip := Some b]> (r_bucket r)))
  else x = None /\ agrees now t' (MkRef (r_ladder r) (<[ip := Some (MkBucket (credit b - attemptCost) (at_ b))]> (r_bucket r))).
Proof.
  intros Hag b. pose proof Hag as [Hs Hp Hb Hl].
  assert (Hv : refilled now (default (MkBucket throttleSourceWindow now) (sources t !! ip)) = b) by apply (Hb ip now (Z.le_refl _)).
  destruct (refilled_ok now _ (found_ok now t ip Hs)) as [[Hok1 Hok2] Hat]. change (full now) with (MkBucket throttleSourceWindow now) in Hok1, Hok2, Hat. rewrite Hv in Hok1, Hok2, Hat.
  unfold checkSource. rewrite Hv.
  assert (Hput : forall b', bucket_ok now b' -> agrees now (MkThrottle (accounts t) (failures t) (<[ip := b']> (sources t)))
    (MkRef (r_ladder r) (<[ip := Some b']> (r_bucket r)))).
  { intros b' Hb'. split; [|done| |done].
    - intros j x Hj. cbn [sources] in Hj. apply lookup_insert_Some in Hj as [[<- <-]|[_ Hj]]; [done|by apply (Hs j)].
    - intros j now' Hn. unfold view. cbn [sources r_bucket]. destruct (decide (ip = j)) as [<- |Hne].
      + by rewrite lookup_insert_eq, fn_lookup_insert.
      + rewrite lookup_insert_ne, fn_lookup_insert_ne by done. by apply Hb. }
  destruct (credit b <? attemptCost) eqn:Hc; (split; [done|]); [by apply Hput|].
  assert (bucket_ok now (MkBucket (credit b - attemptCost) (at_ b))) by (split; simpl; rewrite cost_value in *; lia).
  destruct (_ <? _)%nat; [by apply agrees_sweep, Hput|by apply Hput].
Qed.

Lemma login_agrees a t r : agrees (a_now a) t r ->
  (login a t).1 = (ref_login a r).1 /\ agrees (a_now a) (login a t).2 (ref_login a r).2.
Proof.
  intros Hag. unfold login, ref_login. pose proof (checkSource_bucket (a_ip a) (a_now a) t r Hag) as Hs. cbn zeta in Hs.
  destruct (checkSource (a_ip a) (a_now a) t) as [x t1]. destruct (credit _ <? attemptCost); destruct Hs as [-> Hs]; [done|].
  pose proof (checkAccount_rung (a_user a) (a_now a) t1 _ Hs) as Ha. destruct (checkAccount _ _ t1) as [y t2].
  destruct Ha as (Ha & Hd & Hy). cbn [r_ladder] in Hy. pose proof (agrees_failure (a_user a) (a_now a) t2 _ Ha Hd) as Hf.
  pose proof (agrees_success (a_user a) (a_now a) t2 _ Ha) as Hk. cbn [r_ladder r_bucket] in Hf, Hk.
  destruct (live (a_now a) (r_ladder r (accountKey (a_user a)))) as [[e n]|]; rewrite Hy.
  - destruct (Z.leb_spec e (a_now a)).
    + rewrite (proj2 (Z.ltb_ge _ _)) by done. split; [done|]. by destruct (a_ok a).
    + rewrite (proj2 (Z.ltb_lt _ _)) by done. done.
  - split; [done|]. by destruct (a_ok a).
Qed.

Lemma logins_agree l : forall from to t r, agrees from t r -> ordered from to (a_now <$> l) ->
  (logins l t).1 = (ref_logins l r).1 /\ agrees to (logins l t).2 (ref_logins l r).2.
Proof.
  induction l as [|a l IH]; intros from to t r Hag Hl; [split; [done|exact (agrees_later _ _ _ _ Hl Hag)]|].
  destruct Hl as [Hn Hl]. fold (fmap a_now l) in Hl.
  destruct (login_agrees a t r (agrees_later _ _ _ _ Hn Hag)) as [Hr Ht]. simpl.
  destruct (login a t) as [x t'], (ref_login a r) as [x' r']. simpl in *. subst x'.
  destruct (IH _ _ _ _ Ht Hl) as [IH1 IH2]. destruct (logins l t'), (ref_logins l r'). simpl in *. split; [by f_equal|done].
Qed.

Lemma new_agrees now : agrees now newLoginThrottle empty_reference.
Proof. split; [intros ip b Hb; simpl in Hb; by apply lookup_empty_Some in Hb|done|done|done]. Qed.

(** C27: The memory bound costs nothing: for any history of logins, whatever the
    sweeps, the idle checks and the successes dropped on the way, the answers
    are those of a throttle that keeps one entry per name and never drops
    any. *)
Theorem forgetting_is_invisible from to l : ordered from to (a_now <$> l) ->
  (logins l newLoginThrottle).1 = (ref_logins l empty_reference).1.
Proof. intros Hl. by apply (logins_agree l from to _ _ (new_agrees from)). Qed.

(** ** The ladder *)

Lemma backoff_bounds n : 1 <= n -> 0 < backoff n <= throttleBackoffCap.
Proof.
  intros Hn. unfold backoff. rewrite Z.shiftl_mul_pow2 by lia. change throttleBackoffStart with 1000000000.
  rewrite cap_value. assert (0 < 2 ^ (n - 1)) by (apply Z.pow_pos_nonneg; lia). nia.
Qed.

(** The answers a history of logins got. *)
Definition history : Type := list (guess * answer).

(** The failures of an account in a row: when the last was judged and how
    many there were.  A success ends the row, a refusal does not count, and a
    failure a quarter of an hour after the wait ended starts a new row. *)
Definition delay (k : Z) : Z := Z.min (2 ^ (k - 1) * second) throttleBackoffCap.
Definition in_a_row (u : key) (h : history) : option (Z * Z) :=
  foldl (fun acc p =>
    if bool_decide (accountKey (a_user p.1) = u) then
      match p.2 with
      | Limited _ => acc
      | Judged true => None
      | Judged false => Some (a_now p.1,
          match acc with Some (last, k) => if throttleBackoffCap <=? a_now p.1 - (last + delay k) then 1 else k + 1 | None => 1 end)
      end
    else acc) None h.

Definition rung_for (row : option (Z * Z)) : option rung :=
  (fun p => (p.1 + delay p.2, Z.min p.2 (throttleBackoffMaxShift + 1))) <$> row.

(** The clamped shift loses nothing: from the eleventh failure on both are the cap. *)
Lemma backoff_delay k : 1 <= k -> backoff (Z.min k (throttleBackoffMaxShift + 1)) = delay k.
Proof.
  intros Hk. unfold backoff, delay. change (throttleBackoffMaxShift + 1) with 11. rewrite Z.shiftl_mul_pow2 by lia.
  change throttleBackoffStart with second. destruct (Z.le_gt_cases k 11); [by rewrite (Z.min_l k 11), Z.mul_comm by done|].
  rewrite (Z.min_r k 11) by lia. assert (2 ^ 10 <= 2 ^ (k - 1)) by (apply Z.pow_le_mono_r; lia).
  rewrite cap_value. change second with 1000000000. change (2 ^ (11 - 1)) with 1024. change (2 ^ 10) with 1024 in *. lia.
Qed.

Lemma ref_login_row a r u row : r_ladder r u = rung_for row -> (forall last k, row = Some (last, k) -> 1 <= k) ->
  let row' := if bool_decide (accountKey (a_user a) = u) then
      match (ref_login a r).1 with
      | Limited _ => row
      | Judged true => None
      | Judged false => Some (a_now a,
          match row with Some (last, k) => if throttleBackoffCap <=? a_now a - (last + delay k) then 1 else k + 1 | None => 1 end)
      end
    else row in
  r_ladder (ref_login a r).2 u = rung_for row' /\ (forall last k, row' = Some (last, k) -> 1 <= k).
Proof.
  intros Hr Hk. unfold ref_login. destruct (credit _ <? attemptCost); [by case_bool_decide|].
  assert (Hother : accountKey (a_user a) <> u -> forall x, (<[accountKey (a_user a) := x]> (r_ladder r)) u = rung_for row)
    by (intros; by rewrite fn_lookup_insert_ne).
  assert (Hclimb : accountKey (a_user a) = u -> Some (next_rung (a_now a) (live (a_now a) (r_ladder r u))) =
    rung_for (Some (a_now a, match row with Some (last, k) => if throttleBackoffCap <=? a_now a - (last + delay k) then 1 else k + 1 | None => 1 end))).
  { intros _. unfold next_rung, rung_for. rewrite Hr. destruct row as [[last k]|]; simpl; [|by rewrite backoff_delay].
    specialize (Hk last k eq_refl). unfold idle_account. destruct (_ <=? _); simpl; [by rewrite backoff_delay|].
    rewrite <- (backoff_delay (k + 1)) by lia. change (throttleBackoffMaxShift + 1) with 11. f_equal. f_equal; [f_equal; f_equal|]; lia. }
  assert (Hone : forall last k, Some (a_now a, match row with Some (last, k) => if throttleBackoffCap <=? a_now a - (last + delay k) then 1 else k + 1 | None => 1 end)
    = Some (last, k) -> 1 <= k).
  { intros last k [= _ <-]. destruct row as [[last' k']|]; [specialize (Hk _ _ eq_refl); destruct (_ <=? _)|]; lia. }
  case_bool_decide as Hu.
  - rewrite Hu. specialize (Hclimb Hu). destruct (live _ _) as [[e n]|]; [destruct (a_now a <? e); [done|]|]; simpl;
      rewrite fn_lookup_insert; (destruct (a_ok a); (split; [first [exact Hclimb|done]|first [exact Hone|done]])).
  - destruct (live (a_now a) (r_ladder r (accountKey (a_user a)))) as [[e n]|]; [destruct (a_now a <? e); [by split|]|]; simpl; by rewrite Hother.
Qed.

Lemma ref_logins_row u l : forall r h, r_ladder r u = rung_for (in_a_row u h) ->
  (forall last k, in_a_row u h = Some (last, k) -> 1 <= k) ->
  let row := in_a_row u (h ++ zip l (ref_logins l r).1) in
  r_ladder (ref_logins l r).2 u = rung_for row /\ (forall last k, row = Some (last, k) -> 1 <= k).
Proof.
  induction l as [|a l IH]; intros r h Hr Hk; simpl; [by rewrite app_nil_r|].
  destruct (ref_login_row a r u (in_a_row u h) Hr Hk) as [Hr' Hk']. destruct (ref_login a r) as [x r'] eqn:Hx. simpl in Hr', Hk'.
  assert (Hrow : in_a_row u (h ++ [(a, x)]) = if bool_decide (accountKey (a_user a) = u) then
      match x with Limited _ => in_a_row u h | Judged true => None
      | Judged false => Some (a_now a, match in_a_row u h with Some (last, k) => if throttleBackoffCap <=? a_now a - (last + delay k) then 1 else k + 1 | None => 1 end) end
    else in_a_row u h) by (unfold in_a_row; by rewrite foldl_app).
  rewrite <- Hrow in Hr', Hk'. specialize (IH r' (h ++ [(a, x)]) Hr' Hk').
  destruct (ref_logins l r') as [xs r'']. simpl in *. by rewrite <- app_assoc in IH.
Qed.

Lemma in_a_row_in u h last k : in_a_row u h = Some (last, k) -> exists p, p ∈ h /\ last = a_now p.1.
Proof.
  revert last k. induction h as [|p h IH] using rev_ind; intros last k; [done|]. unfold in_a_row. rewrite foldl_app. fold (in_a_row u h).
  simpl. assert (Hin : in_a_row u h = Some (last, k) -> exists q, q ∈ h ++ [p] /\ last = a_now q.1).
  { intros (q & Hq & Hl)%IH. exists q. split; [set_solver|done]. }
  case_bool_decide; [|done]. destruct p as [a [w|[]]]; [done|done|]. intros [= <- _]. exists (a, Judged false). set_solver.
Qed.

Lemma ordered_upto from to l t : ordered from to l -> t ∈ l -> t <= to.
Proof.
  revert from. induction l as [|x l IH]; intros from; simpl; [by intros _ Hi%elem_of_nil|].
  intros [Hx Ho] [-> |Hi]%elem_of_cons; [by eapply ordered_le|by eapply IH].
Qed.

(** What the account check answers after any history, from any sources, for
    any accounts: one second after a first failure, doubled with every further
    one in a row, at most a quarter of an hour - and once the wait has passed
    the account is let in again, however many failures there were. *)
Theorem account_backoff from to l u now : ordered from to (a_now <$> l) -> to <= now ->
  let (answers, t) := logins l newLoginThrottle in
  (checkAccount u now t).1 =
    match in_a_row (accountKey u) (zip l answers) with
    | Some (last, k) => if last + delay k <=? now then None else Some (last + delay k - now)
    | None => None
    end /\
  (forall w, (checkAccount u now t).1 = Some w -> 0 < w <= throttleBackoffCap /\ (checkAccount u (now + w) t).1 = None).
Proof.
  intros Hl Hn. destruct (logins_agree l from to _ _ (new_agrees from) Hl) as [Hans Hag].
  destruct (ref_logins_row (accountKey u) l empty_reference [] eq_refl ltac:(done)) as [Hrow Hk].
  destruct (logins l newLoginThrottle) as [answers t], (ref_logins l empty_reference) as [answers' r]. simpl in *. subst answers'.
  assert (Hcheck : forall at_, to <= at_ -> (checkAccount u at_ t).1 =
    match in_a_row (accountKey u) (zip l answers) with
    | Some (last, k) => if last + delay k <=? at_ then None else Some (last + delay k - at_)
    | None => None end).
  { intros at_ Hat. pose proof (checkAccount_rung u at_ t r (agrees_later _ _ _ _ Hat Hag)) as Hc.
    destruct (checkAccount u at_ t) as [x t']. destruct Hc as (_ & _ & ->). simpl. rewrite Hrow.
    destruct (in_a_row _ _) as [[last k]|]; [|done]. simpl. destruct (idle_account at_ _) eqn:Hi; [|done].
    unfold idle_account in Hi. rewrite cap_value in Hi. by rewrite (proj2 (Z.leb_le _ _)) by lia. }
  split; [by apply Hcheck|]. intros w. rewrite Hcheck by done. destruct (in_a_row _ _) as [[last k]|] eqn:Hr; [|done].
  destruct (in_a_row_in _ _ _ _ Hr) as ([a x] & Hin%elem_of_zip_l & ->). cbn [fst] in *.
  assert (a_now a <= to) by (apply (ordered_upto _ _ _ _ Hl); apply list_elem_of_fmap; by exists a).
  assert (delay k <= throttleBackoffCap) by (unfold delay; lia).
  destruct (Z.leb_spec (a_now a + delay k) now); [done|]. intros [= <-]. split; [lia|].
  rewrite Hcheck by lia. by rewrite (proj2 (Z.leb_le _ _)) by lia.
Qed.
