(* ===== verification/Password.v ===== *)
(** * Password hashes ([internal/secure/hash.go])

    PHC strings and their verification; argon2 is a parameter. *)

From stdpp Require Import pretty.
From S2P Require Import Prelude GoStrings SafeJoin.

Open Scope Z_scope.

(** ** [base64.RawStdEncoding] *)

Definition b64_char (v : Z) : Z :=
  if v <? 26 then 65 + v else if v <? 52 then 71 + v else if v <? 62 then v - 4 else if v =? 62 then 43 else 47.
Definition b64_value (c : Z) : option Z :=
  if between 65 90 c then Some (c - 65)
  else if between 97 122 c then Some (c - 71)
  else if between 48 57 c then Some (c + 4)
  else if c =? 43 then Some 62
  else if c =? 47 then Some 63
  else None.

(** [EncodeToString], three bytes at a time. *)
Fixpoint sextets (l : list Z) : list Z :=
  match l with
  | a :: b :: c :: l => [a / 4; a mod 4 * 16 + b / 16; b mod 16 * 4 + c / 64; c mod 64] ++ sextets l
  | [a; b] => [a / 4; a mod 4 * 16 + b / 16; b mod 16 * 4]
  | [a] => [a / 4; a mod 4 * 16]
  | [] => []
  end.
Definition base64_EncodeToString (l : list Z) : list Z := b64_char <$> sextets l.

(** [DecodeString]: line breaks are skipped, surplus bits dropped, and a lone
    last digit is an error. *)
Fixpoint octets (l : list Z) : option (list Z) :=
  match l with
  | a :: b :: c :: d :: l => (fun r => [a * 4 + b / 16; b mod 16 * 16 + c / 4; c mod 4 * 64 + d] ++ r) <$> octets l
  | [a; b; c] => Some [a * 4 + b / 16; b mod 16 * 16 + c / 4]
  | [a; b] => Some [a * 4 + b / 16]
  | [_] => None
  | [] => Some []
  end.
Definition base64_DecodeString (s : list Z) : option (list Z) :=
  mapM b64_value (List.filter (fun c => negb ((c =? 10) || (c =? 13))) s) ≫= octets.

(** ** The PHC string *)

Definition argonMemoryKiB : Z := 19456.
Definition argonTime : Z := 2.
Definition argonThreads : Z := 1.
Definition argonSaltLen : Z := 16.
Definition argonKeyLen : Z := 32.
Definition argonAlgorithm : list Z := bytes_of "argon2id".
Definition argonVersion : Z := 19.
Definition phcFieldCount : nat := 6.
Definition maxVerifyMemoryKiB : Z := Z.shiftl 1 21.
Definition maxVerifyTime : Z := 32.
Definition maxVerifyThreads : Z := 32.
Definition maxVerifyKeyLen : Z := 128.

(** [strconv.Itoa]. *)
Definition Itoa (n : Z) : list Z := bytes_of (pretty n).

(** [phcString]. *)
Definition phcString (memoryKiB timeParam threads : Z) (salt hash : list Z) : list Z :=
  bytes_of "$" ++ argonAlgorithm ++ bytes_of "$v=" ++ Itoa argonVersion ++
  bytes_of "$m=" ++ Itoa memoryKiB ++ bytes_of ",t=" ++ Itoa timeParam ++ bytes_of ",p=" ++ Itoa threads ++
  bytes_of "$" ++ base64_EncodeToString salt ++ bytes_of "$" ++ base64_EncodeToString hash.

(** [strings.Cut] at one byte. *)
Fixpoint cut (c : Z) (l : list Z) : option (list Z * list Z) :=
  match l with
  | [] => None
  | b :: l => if b =? c then Some ([], l) else (fun p => (b :: p.1, p.2)) <$> cut c l
  end.

(** [parsePHCIntField]; [None] is its error. *)
Definition phc_number (value : list Z) : option Z :=
  n ← ParseInt value; if n <=? 0 then None else Some n.
Definition parsePHCIntField (field name : list Z) : option Z :=
  foldr (fun assignment rest =>
    match cut 61 assignment with
    | Some (k, value) => if bool_decide (k = name) then phc_number value else rest
    | None => rest
    end) None (split 44 field).

Section Argon.
(** [argon2.IDKey password salt time memory threads keyLen]. *)
Context (IDKey : list Z -> list Z -> Z -> Z -> Z -> Z -> list Z).

(** [HashPassword], over what [rand.Read] filled the salt with. *)
Definition HashPassword (salt password : list Z) : list Z :=
  phcString argonMemoryKiB argonTime argonThreads salt
    (IDKey password salt argonTime argonMemoryKiB argonThreads argonKeyLen).

(** [VerifyPassword]: [None] is its error. *)
Definition VerifyPassword (phc password : list Z) : option (bool * bool) :=
  match split 36 phc with
  | [_; alg; ver; params; b64salt; b64hash] =>
    if bool_decide (alg <> argonAlgorithm) then None else
    version ← parsePHCIntField ver (bytes_of "v");
    if bool_decide (version <> argonVersion) then None else
    memoryKiB ← parsePHCIntField params (bytes_of "m");
    timeParam ← parsePHCIntField params (bytes_of "t");
    threads ← parsePHCIntField params (bytes_of "p");
    salt ← base64_DecodeString b64salt;
    hash ← base64_DecodeString b64hash;
    let saltLen := Z.of_nat (length salt) in
    let keyLen := Z.of_nat (length hash) in
    if (saltLen =? 0) || (keyLen =? 0) then None else
    if (maxVerifyMemoryKiB <? memoryKiB) || (maxVerifyTime <? timeParam) || (maxVerifyThreads <? threads)
      || (memoryKiB <? 8 * threads) || (maxVerifyKeyLen <? keyLen) then None else
    let derived := IDKey password salt timeParam memoryKiB threads keyLen in
    let ok := bool_decide (derived = hash) in
    Some (ok, ok && ((memoryKiB <? argonMemoryKiB) || (timeParam <? argonTime) || (threads <? argonThreads)
      || (saltLen <? argonSaltLen) || (keyLen <? argonKeyLen)))
  | _ => None
  end.
End Argon.

(** * Password hashes: what verification guarantees

    A hash the code mints verifies its own password and no other that derives
    a different key; a stored string that is tampered with never reaches the
    key derivation with parameters outside the ceilings. *)

(** ** Base64 *)

Lemma list_ind3 {A} (P : list A -> Prop) : P [] -> (forall a, P [a]) -> (forall a b, P [a; b]) ->
  (forall a b c l, P l -> P (a :: b :: c :: l)) -> forall l, P l.
Proof.
  intros H0 H1 H2 H3. assert (H : forall n l, (length l <= n)%nat -> P l).
  { induction n as [|n IH]; intros [|a [|b [|c l]]] Hn; simpl in Hn; try lia; auto. apply H3, IH. lia. }
  intros l. by apply (H (length l)).
Qed.

Definition sextet (v : Z) : Prop := 0 <= v < 64.

Lemma sextets_range l : Forall is_byte l -> Forall sextet (sextets l).
Proof.
  unfold is_byte, sextet. induction l as [|a|a b|a b c l IH] using list_ind3; intros Hl; simpl; [done|..];
    repeat match goal with Hx : Forall _ (_ :: _) |- _ => apply list.Forall_cons in Hx as [? Hx] end.
  1-2: repeat constructor; (apply Z.div_pos || apply Z.div_lt_upper_bound || idtac); Z.to_euclidean_division_equations; lia.
  repeat (constructor; [Z.to_euclidean_division_equations; lia|]). by apply IH.
Qed.

Lemma octets_sextets l : Forall is_byte l -> octets (sextets l) = Some l.
Proof.
  unfold is_byte. induction l as [|a|a b|a b c l IH] using list_ind3; intros Hl; cbn [sextets app octets]; [done|..];
    repeat match goal with Hx : Forall _ (_ :: _) |- _ => apply list.Forall_cons in Hx as [? Hx] end.
  1-2: f_equal; repeat (f_equal; try (Z.to_euclidean_division_equations; lia)).
  rewrite IH by done. simpl. f_equal. repeat (f_equal; try (Z.to_euclidean_division_equations; lia)).
Qed.

Definition b64_plain (c : Z) : Prop := between 65 90 c = true \/ between 97 122 c = true \/ between 48 57 c = true \/ c = 43 \/ c = 47.

Lemma b64_char_value v : sextet v -> b64_value (b64_char v) = Some v /\ b64_plain (b64_char v).
Proof.
  unfold sextet, b64_value, b64_char, b64_plain, between. intros Hv.
  destruct (Z.ltb_spec v 26); [|destruct (Z.ltb_spec v 52); [|destruct (Z.ltb_spec v 62); [|destruct (Z.eqb_spec v 62)]]];
    repeat match goal with |- context [?x <=? ?y] => destruct (Z.leb_spec x y); try lia end; simpl; (split; [f_equal; lia|tauto || lia]).
Qed.

Lemma base64_plain l : Forall is_byte l -> Forall b64_plain (base64_EncodeToString l).
Proof.
  intros Hl%sextets_range. unfold base64_EncodeToString. apply list.Forall_fmap.
  eapply list.Forall_impl; [exact Hl|]. intros v Hv. by apply b64_char_value.
Qed.

Lemma plain_not c d : b64_plain c -> d = 10 \/ d = 13 \/ d = 36 -> c <> d.
Proof. unfold b64_plain, between. lia. Qed.

Lemma base64_roundtrip l : Forall is_byte l -> base64_DecodeString (base64_EncodeToString l) = Some l.
Proof.
  intros Hl. unfold base64_DecodeString.
  assert (Hf : List.filter (fun c => negb ((c =? 10) || (c =? 13))) (base64_EncodeToString l) = base64_EncodeToString l).
  { apply forallb_filter_id, forallb_forall. intros c Hc%list_elem_of_In.
    pose proof (proj1 (list.Forall_forall _ _) (base64_plain l Hl) c Hc) as Hp.
    pose proof (plain_not c 10 Hp). pose proof (plain_not c 13 Hp). lia. }
  rewrite Hf. unfold base64_EncodeToString. apply sextets_range in Hl as Hs.
  assert (Hm : mapM b64_value (b64_char <$> sextets l) = Some (sextets l)).
  { apply mapM_Some. apply Forall2_fmap_l, Forall_Forall2_diag. eapply list.Forall_impl; [exact Hs|].
    intros v Hv. by apply b64_char_value. }
  rewrite Hm. simpl. by apply octets_sextets.
Qed.

(** ** The fields *)

Lemma cut_at c a l : c ∉ a -> cut c (a ++ c :: l) = Some (a, l).
Proof.
  induction a as [|b a IH]; simpl; intros Hc; [by rewrite Z.eqb_refl|].
  rewrite not_elem_of_cons in Hc. destruct Hc as [Hb Hc]. rewrite (proj2 (Z.eqb_neq b c)) by congruence. by rewrite IH.
Qed.

Lemma Itoa_plain n c : 0 <= n < 2 ^ 63 -> c ∈ Itoa n -> is_digit c.
Proof. intros Hn Hc. destruct (decimal_reads n Hn) as [Hd _]. by apply (proj1 (list.Forall_forall _ _) Hd). Qed.

Lemma phc_number_Itoa n : 0 < n < 2 ^ 63 -> phc_number (Itoa n) = Some n.
Proof.
  intros Hn. unfold phc_number, Itoa. destruct (decimal_reads n) as (_ & _ & ->); [lia|]. simpl.
  by rewrite (proj2 (Z.leb_gt n 0)) by lia.
Qed.

Lemma number_without n c : 0 <= n < 2 ^ 63 -> c = 36 \/ c = 44 \/ c = 61 -> c ∉ Itoa n.
Proof. intros Hn Hc Hin%Itoa_plain; [|done]. unfold is_digit in Hin. lia. Qed.

Lemma phcString_fields m t p salt hash : phcString m t p salt hash =
  join 36 [[]; argonAlgorithm; bytes_of "v=" ++ Itoa argonVersion;
    join 44 [bytes_of "m=" ++ Itoa m; bytes_of "t=" ++ Itoa t; bytes_of "p=" ++ Itoa p];
    base64_EncodeToString salt; base64_EncodeToString hash].
Proof. unfold phcString. cbn [join]. rewrite <- ?app_assoc. simpl. rewrite <- ?app_assoc. done. Qed.

Lemma phcString_split m t p salt hash : 0 < m < 2 ^ 63 -> 0 < t < 2 ^ 63 -> 0 < p < 2 ^ 63 ->
  Forall is_byte salt -> Forall is_byte hash ->
  split 36 (phcString m t p salt hash) = [[]; argonAlgorithm; bytes_of "v=" ++ Itoa argonVersion;
    join 44 [bytes_of "m=" ++ Itoa m; bytes_of "t=" ++ Itoa t; bytes_of "p=" ++ Itoa p];
    base64_EncodeToString salt; base64_EncodeToString hash].
Proof.
  intros Hm Ht Hp Hs Hh. rewrite phcString_fields, split_join; [done| |done].
  assert (Hb : forall l, Forall is_byte l -> 36 ∉ base64_EncodeToString l).
  { intros l Hl Hin. pose proof (proj1 (list.Forall_forall _ _) (base64_plain l Hl) 36 Hin) as Hc. by apply (plain_not 36 36 Hc); auto. }
  pose proof (number_without m 36 ltac:(lia) ltac:(auto)). pose proof (number_without t 36 ltac:(lia) ltac:(auto)).
  pose proof (number_without p 36 ltac:(lia) ltac:(auto)).
  repeat (apply list.Forall_cons; split); [by apply not_elem_of_nil| | | |by apply Hb|by apply Hb|done].
  - by apply (bool_decide_unpack _); vm_compute.
  - by apply (bool_decide_unpack _); vm_compute.
  - simpl. repeat (rewrite elem_of_cons || rewrite elem_of_app). intuition (first [lia|discriminate]).
Qed.

Lemma phc_params m t p : 0 < m < 2 ^ 63 -> 0 < t < 2 ^ 63 -> 0 < p < 2 ^ 63 ->
  let field := join 44 [bytes_of "m=" ++ Itoa m; bytes_of "t=" ++ Itoa t; bytes_of "p=" ++ Itoa p] in
  parsePHCIntField field (bytes_of "m") = Some m /\ parsePHCIntField field (bytes_of "t") = Some t /\
  parsePHCIntField field (bytes_of "p") = Some p.
Proof.
  intros Hm Ht Hp. cbv zeta. unfold parsePHCIntField. rewrite split_join; [| |done].
  - assert (Hc : forall k n, cut 61 (k :: 61 :: n) = if k =? 61 then Some ([], 61 :: n) else Some ([k], n)) by (intros; simpl; by destruct (k =? 61)).
    cbn [foldr]. change (bytes_of "m=" ++ Itoa m) with (109 :: 61 :: Itoa m). change (bytes_of "t=" ++ Itoa t) with (116 :: 61 :: Itoa t).
    change (bytes_of "p=" ++ Itoa p) with (112 :: 61 :: Itoa p). rewrite !Hc. cbn -[phc_number].
    rewrite !phc_number_Itoa by done. done.
  - pose proof (number_without m 44 ltac:(lia) ltac:(auto)). pose proof (number_without t 44 ltac:(lia) ltac:(auto)).
    pose proof (number_without p 44 ltac:(lia) ltac:(auto)).
    repeat (apply list.Forall_cons; split); [..|done]; simpl; rewrite !elem_of_cons; intuition (first [lia|discriminate]).
Qed.

(** ** Verification *)

(** What the documentation of argon2 promises of a derived key. *)
Definition derives (IDKey : list Z -> list Z -> Z -> Z -> Z -> Z -> list Z) : Prop :=
  forall password salt time memory threads keyLen, 0 < keyLen ->
    Forall is_byte (IDKey password salt time memory threads keyLen) /\
    Z.of_nat (length (IDKey password salt time memory threads keyLen)) = keyLen.

(** A hash the code mints is read back whole: it verifies exactly the
    passwords that derive the same key with the current parameters, and asks
    for no rehash. *)
Theorem hash_verifies IDKey salt password guess : derives IDKey -> Forall is_byte salt -> Z.of_nat (length salt) = argonSaltLen ->
  VerifyPassword IDKey (HashPassword IDKey salt password) guess =
  Some (bool_decide (IDKey guess salt argonTime argonMemoryKiB argonThreads argonKeyLen =
    IDKey password salt argonTime argonMemoryKiB argonThreads argonKeyLen), false).
Proof.
  intros Hd Hs Hl. unfold VerifyPassword, HashPassword.
  destruct (Hd password salt argonTime argonMemoryKiB argonThreads argonKeyLen) as [Hb Hk]; [done|].
  set (k := IDKey password _ _ _ _ _) in *. rewrite phcString_split by done.
  rewrite (bool_decide_false (argonAlgorithm <> argonAlgorithm)) by (by intros Hx; apply Hx).
  destruct (phc_params argonMemoryKiB argonTime argonThreads) as (Hm & Ht & Hp); [done..|].
  assert (Hv : parsePHCIntField (bytes_of "v=" ++ Itoa argonVersion) (bytes_of "v") = Some argonVersion) by by vm_compute.
  rewrite Hv. cbn [mbind option_bind].
  rewrite (bool_decide_false (argonVersion <> argonVersion)) by (by intros Hx; apply Hx).
  rewrite Hm, Ht, Hp. cbn [mbind option_bind]. rewrite !base64_roundtrip by done. cbn [mbind option_bind]. cbv zeta. rewrite Hl, Hk.
  by case_bool_decide.
Qed.

(** The arguments the verification ever derives a key with, whatever string
    it is handed: within the ceilings, positive, with a salt and a key to
    compare. *)
Definition tame (salt : list Z) (time memory threads keyLen : Z) : Prop :=
  salt <> [] /\ 0 < time <= maxVerifyTime /\ 0 < threads <= maxVerifyThreads /\
  8 * threads <= memory <= maxVerifyMemoryKiB /\ 0 < keyLen <= maxVerifyKeyLen.

Lemma parsePHCIntField_positive field name n : parsePHCIntField field name = Some n -> 0 < n.
Proof.
  unfold parsePHCIntField. induction (split 44 field) as [|w ws IH]; simpl; [done|].
  destruct (cut 61 w) as [[k v]|]; [|done]. case_bool_decide; [|done]. unfold phc_number.
  destruct (ParseInt v) as [x|]; simpl; [|done]. destruct (Z.leb_spec x 0); [done|]. by intros [= <-].
Qed.

(** No stored string makes a login run away: two key derivations that agree
    on the tame arguments give the same verdict on every string. *)
Theorem verify_stays_tame f g phc password :
  (forall salt time memory threads keyLen, tame salt time memory threads keyLen ->
     f password salt time memory threads keyLen = g password salt time memory threads keyLen) ->
  VerifyPassword f phc password = VerifyPassword g phc password.
Proof.
  intros Hfg. unfold VerifyPassword. destruct (split 36 phc) as [|? [|? [|ver [|params [|b64salt [|b64hash []]]]]]]; try done.
  case_bool_decide; [done|]. destruct (parsePHCIntField ver _) as [v|]; simpl; [|done]. case_bool_decide; [done|].
  destruct (parsePHCIntField params (bytes_of "m")) as [m|] eqn:Hm; simpl; [|done].
  destruct (parsePHCIntField params (bytes_of "t")) as [t|] eqn:Ht; simpl; [|done].
  destruct (parsePHCIntField params (bytes_of "p")) as [p|] eqn:Hp; simpl; [|done].
  destruct (base64_DecodeString b64salt) as [salt|]; simpl; [|done]. destruct (base64_DecodeString b64hash) as [hash|]; simpl; [|done].
  apply parsePHCIntField_positive in Hm, Ht, Hp.
  destruct (_ || _) eqn:E0; [done|]. destruct (_ || _ || _ || _ || _) eqn:E1; [done|]. bool_hyps.
  rewrite Hfg; [done|]. unfold tame. destruct salt; simpl in *; split_and!; try done; lia.
Qed.
