(* ===== verification/Auth.v ===== *)
(** * Accounts and sessions ([internal/store/users.go], [internal/secure/session.go])

    The three tables behind authentication and the statements on them, one
    driver call each, and the minting and hashing of secrets.  The commands
    run in the monad of [World] with the whole service as its state; clock
    readings, random bytes and the token file's file system come from
    [environment]. *)

From stdpp Require Import fin_maps.
From S2P Require Import Prelude GoStrings TaskState Schema Lease World Manifest Hash Password Throttle.

Open Scope Z_scope.

(** ** The rows *)

(** [store.User], [store.Session] and [store.APIToken], keyed by their ids. *)
Record User := MkUser {
  Username : string; PasswordHash : string; Enabled : bool; Locale : string;
  LastLoginAt : option Z; CreatedAt : Z; UpdatedAt : Z }.
Record Session := MkSession {
  S_UserID : string; S_TokenHash : string; CSRFToken : string; S_ExpiresAt : Z; LastSeenAt : Z }.
Record APIToken := MkToken {
  T_UserID : string; T_Name : string; T_TokenHash : string; T_Prefix : string; LastUsedAt : option Z;
  T_ExpiresAt : option Z; RevokedAt : option Z; T_CreatedAt : Z; T_UpdatedAt : Z }.

Record authdb := MkAuthdb {
  users : gmap string User; sessions : gmap string Session; api_tokens : gmap string APIToken }.

Definition set_users (u : gmap string User) (d : authdb) : authdb := MkAuthdb u (sessions d) (api_tokens d).
Definition set_sessions (s : gmap string Session) (d : authdb) : authdb := MkAuthdb (users d) s (api_tokens d).
Definition set_tokens (t : gmap string APIToken) (d : authdb) : authdb := MkAuthdb (users d) (sessions d) t.

(** ** The service *)

(** The tables, [authService]'s fields and the token file in the configuration
    directory. *)
Record service := MkService {
  tables : authdb; setupDone : bool; setupToken : string; token_file : option string; throttle : loginThrottle }.

Definition set_tables (d : authdb) (s : service) : service := MkService d (setupDone s) (setupToken s) (token_file s) (throttle s).
Definition set_done (b : bool) (s : service) : service := MkService (tables s) b (setupToken s) (token_file s) (throttle s).
Definition set_token (t : string) (s : service) : service := MkService (tables s) (setupDone s) t (token_file s) (throttle s).
Definition set_file (f : option string) (s : service) : service := MkService (tables s) (setupDone s) (setupToken s) f (throttle s).
Definition set_throttle (t : loginThrottle) (s : service) : service := MkService (tables s) (setupDone s) (setupToken s) (token_file s) t.

Abbreviation M := (M service).
Abbreviation world := (world service).

Definition svc (w : world) : service := w_eng w.
Definition tables_of (w : world) : authdb := tables (svc w).
Definition on_service (f : service -> service) : M unit := fun o w => (inr tt, set_eng (f (svc w)) w).
Definition ask {A} (f : service -> A) : M A := gets (fun w => f (svc w)).

(** [ExecContext] and [GetContext] on the three tables. *)
Definition auth_stmt : Type := authdb -> option (authdb * Z).
Definition exec_auth (q : auth_stmt) : M Z := fun o w =>
  match o_io o (w_n w), q (tables_of w) with
  | IoFail, _ => (inl ErrDriver, bump w)
  | _, None => (inl ErrConstraint, bump w)
  | IoOk, Some (d, k) => (inr k, bump (set_eng (set_tables d (svc w)) w))
  | IoFailLanded, Some (d, _) => (inl ErrDriver, bump (set_eng (set_tables d (svc w)) w))
  end.
Definition query_auth {A} (q : authdb -> A) : M A := fun o w =>
  match o_io o (w_n w) with
  | IoOk => (inr (q (tables_of w)), bump w)
  | _ => (inl ErrDriver, bump w)
  end.

(** ** Statements *)

(** The first row a predicate selects, with its id. *)
Definition pick {A} (sel : A -> bool) (m : gmap string A) : option (string * A) :=
  head (List.filter (fun p => sel p.2) (map_to_list m)).
Definition touch {A} (id : string) (guard : A -> bool) (f : A -> A) (m : gmap string A) : gmap string A * Z :=
  match m !! id with
  | Some x => if guard x then (<[id := f x]> m, 1) else (m, 0)
  | None => (m, 0)
  end.
Definition always_true {A} (_ : A) : bool := true.

(** SQLite's NOCASE: bytes, ASCII letters folded. *)
Definition nocase (s : string) : list Z := lower_byte <$> bytes_of s.
Definition same_name (a b : string) : bool := bool_decide (nocase a = nocase b).

Definition queryCountUsers (d : authdb) : Z := Z.of_nat (size (users d)).
Definition queryUserByID (id : string) (d : authdb) : option User := users d !! id.
Definition queryUserByUsername (name : string) (d : authdb) : option (string * User) :=
  pick (fun u => same_name (Username u) name) (users d).
Definition queryCreateUser (id : string) (u : User) : auth_stmt := fun d =>
  if bool_decide (is_Some (users d !! id)) || bool_decide (is_Some (pick (fun v => same_name (Username v) (Username u)) (users d)))
  then None else Some (set_users (<[id := u]> (users d)) d, 1).
Definition update_user (id : string) (f : User -> User) : auth_stmt := fun d =>
  let (m, k) := touch id always_true f (users d) in Some (set_users m d, k).
Definition queryTouchLastLogin (id : string) (now : Z) : auth_stmt :=
  update_user id (fun u => MkUser (Username u) (PasswordHash u) (Enabled u) (Locale u) (Some now) (CreatedAt u) now).
Definition queryUpdatePasswordHash (id hash : string) (now : Z) : auth_stmt :=
  update_user id (fun u => MkUser (Username u) hash (Enabled u) (Locale u) (LastLoginAt u) (CreatedAt u) now).

(** The UNIQUE index refuses a name another row has. *)
Definition name_taken (id name : string) (m : gmap string User) : bool :=
  bool_decide (is_Some (pick (fun u => same_name (Username u) name) (delete id m))).
Definition queryUpdateUserProfile (id name locale : string) (now : Z) : auth_stmt := fun d =>
  if bool_decide (is_Some (users d !! id)) && name_taken id name (users d) then None
  else update_user id (fun u => MkUser name (PasswordHash u) (Enabled u) locale (LastLoginAt u) (CreatedAt u) now) d.

Definition queryCreateSession (id : string) (s : Session) : auth_stmt := fun d =>
  if bool_decide (is_Some (sessions d !! id)) || negb (bool_decide (is_Some (users d !! S_UserID s)))
     || bool_decide (is_Some (pick (fun x => bool_decide (S_TokenHash x = S_TokenHash s)) (sessions d)))
  then None else Some (set_sessions (<[id := s]> (sessions d)) d, 1).
Definition enabled_user (id : string) (d : authdb) : bool := from_option Enabled false (users d !! id).
Definition querySessionByTokenHash (hash : string) (now : Z) (d : authdb) : option (string * Session * User) :=
  p ← pick (fun s => bool_decide (S_TokenHash s = hash) && (now <? S_ExpiresAt s) && enabled_user (S_UserID s) d) (sessions d);
  u ← users d !! S_UserID p.2;
  Some (p, u).
Definition queryTouchSession (id : string) (now : Z) : auth_stmt := fun d =>
  let (m, k) := touch id always_true (fun s => MkSession (S_UserID s) (S_TokenHash s) (CSRFToken s) (S_ExpiresAt s) now) (sessions d) in
  Some (set_sessions m d, k).
Definition delete_sessions (gone : string * Session -> bool) : auth_stmt := fun d =>
  Some (set_sessions (filter (fun p => gone p = false) (sessions d)) d,
    Z.of_nat (size (filter (fun p => gone p = true) (sessions d)))).
Definition queryDeleteSession (id : string) : auth_stmt := delete_sessions (fun p => bool_decide (p.1 = id)).
Definition queryDeleteExpiredSessions (now : Z) : auth_stmt := delete_sessions (fun p => S_ExpiresAt p.2 <=? now).
Definition queryDeleteOtherSessions (userID except : string) : auth_stmt :=
  delete_sessions (fun p => bool_decide (S_UserID p.2 = userID) && negb (bool_decide (p.1 = except))).

Definition live_token (now : Z) (t : APIToken) : bool :=
  bool_decide (RevokedAt t = None) && match T_ExpiresAt t with Some e => now <? e | None => true end.
Definition queryUserByAPITokenHash (hash : string) (now : Z) (d : authdb) : option (string * (string * User)) :=
  p ← pick (fun t => bool_decide (T_TokenHash t = hash) && live_token now t && enabled_user (T_UserID t) d) (api_tokens d);
  u ← users d !! T_UserID p.2;
  Some (p.1, (T_UserID p.2, u)).
Definition queryTouchAPIToken (id : string) (at_ : Z) (before : Z) : auth_stmt := fun d =>
  let (m, k) := touch id (fun t => bool_decide (RevokedAt t = None) && match LastUsedAt t with Some l => l <? before | None => true end)
    (fun t => MkToken (T_UserID t) (T_Name t) (T_TokenHash t) (T_Prefix t) (Some at_) (T_ExpiresAt t) (RevokedAt t) (T_CreatedAt t) at_) (api_tokens d) in
  Some (set_tokens m d, k).
Definition queryCreateAPIToken (id : string) (t : APIToken) : auth_stmt := fun d =>
  if bool_decide (is_Some (api_tokens d !! id)) || negb (bool_decide (is_Some (users d !! T_UserID t)))
     || bool_decide (is_Some (pick (fun x => bool_decide (T_TokenHash x = T_TokenHash t)) (api_tokens d)))
  then None else Some (set_tokens (<[id := t]> (api_tokens d)) d, 1).
Definition queryRevokeAPIToken (id userID : string) (now : Z) : auth_stmt := fun d =>
  let (m, k) := touch id (fun t => bool_decide (T_UserID t = userID) && bool_decide (RevokedAt t = None))
    (fun t => MkToken (T_UserID t) (T_Name t) (T_TokenHash t) (T_Prefix t) (LastUsedAt t) (T_ExpiresAt t) (Some now) (T_CreatedAt t) now) (api_tokens d) in
  Some (set_tokens m d, k).

(** ** The store's functions *)

(** What the [n]-th interaction is answered: the clock in nanoseconds,
    [rand.Read] of a number of bytes, and the token file's calls. *)
Record environment := MkEnv {
  e_clock : nat -> Z; e_rand : nat -> nat -> option (list Z); e_fs : nat -> bool; e_left : nat -> option string }.

Definition millisecond : Z := 1000000.

Section Store.
Context (env : environment).

(** [time.Now()] and its [UnixMilli]. *)
Definition time_now : M Z := fun o w => (inr (e_clock env (w_n w)), bump w).
Definition milli (t : Z) : Z := t / millisecond.
Definition now_ms : M Z := t ← time_now; mret (milli t).

Definition or_not_found (m : M Z) : M unit :=
  k ← m; if k =? 0 then fail ErrNotFound else mret tt.
Definition dropping (m : M Z) : M unit := m ;; mret tt.
Definition found {A} (m : M (option A)) : M A :=
  r ← m; match r with Some x => mret x | None => fail ErrNotFound end.

Definition CountUsers : M Z := query_auth queryCountUsers.
Definition UserByID (id : string) : M User := found (query_auth (queryUserByID id)).
Definition UserByUsername (name : string) : M (string * User) := found (query_auth (queryUserByUsername name)).
Definition CreateUser (id : string) (u : User) : M unit :=
  now ← now_ms;
  dropping (exec_auth (queryCreateUser id
    (MkUser (Username u) (PasswordHash u) (Enabled u) (Locale u) (LastLoginAt u) now now))).
Definition TouchLastLogin (id : string) (now : Z) : M unit := dropping (exec_auth (queryTouchLastLogin id now)).
Definition CreateSession (id : string) (s : Session) : M unit := now_ms ;; dropping (exec_auth (queryCreateSession id s)).
Definition SessionByTokenHash (hash : string) : M (string * Session * User) :=
  now ← now_ms; found (query_auth (querySessionByTokenHash hash now)).
Definition TouchSession (id : string) (now : Z) : M unit := dropping (exec_auth (queryTouchSession id now)).
Definition DeleteSession (id : string) : M unit := dropping (exec_auth (queryDeleteSession id)).
Definition DeleteExpiredSessions (now : Z) : M Z := exec_auth (queryDeleteExpiredSessions now).
Definition UpdateUserProfile (id name locale : string) : M unit :=
  now ← now_ms; or_not_found (exec_auth (queryUpdateUserProfile id name locale now)).
Definition UpdatePasswordHash (id hash : string) : M unit :=
  now ← now_ms; or_not_found (exec_auth (queryUpdatePasswordHash id hash now)).
Definition DeleteOtherSessions (userID except : string) : M Z := exec_auth (queryDeleteOtherSessions userID except).

Definition apiTokenTouchIntervalMS : Z := 60 * second / millisecond.
Definition TouchAPIToken (id : string) (at_ : Z) : M unit :=
  dropping (exec_auth (queryTouchAPIToken id at_ (at_ - apiTokenTouchIntervalMS))).
Definition UserByAPITokenHash (hash : string) : M (string * User) :=
  now ← now_ms;
  row ← found (query_auth (queryUserByAPITokenHash hash now));
  TouchAPIToken row.1 now ;; mret row.2.
Definition CreateAPIToken (id : string) (t : APIToken) : M unit :=
  dropping (exec_auth (queryCreateAPIToken id (MkToken (T_UserID t) (T_Name t) (T_TokenHash t) (T_Prefix t) (LastUsedAt t)
    (T_ExpiresAt t) (RevokedAt t) (T_CreatedAt t) (T_CreatedAt t)))).
Definition RevokeAPIToken (userID id : string) : M unit :=
  now ← now_ms; or_not_found (exec_auth (queryRevokeAPIToken id userID now)).

(** ** Secrets *)

(** [rand.Read]. *)
Definition rand_read (n : nat) : M (list Z) := fun o w =>
  match e_rand env (w_n w) n with Some l => (inr l, bump w) | None => (inl ErrFs, bump w) end.

(** [base64.RawURLEncoding] and [NewToken]. *)
Definition url_char (v : Z) : Z := if v =? 62 then 45 else if v =? 63 then 95 else b64_char v.
Definition tokenByteCount : nat := 32.
Definition NewToken : M string := b ← rand_read tokenByteCount; mret (string_of (url_char <$> sextets b)).

(** [EqualToken]. *)
Definition EqualToken (a b : string) : bool := bool_decide (a = b).

(** [newAPITokenValue]. *)
Definition apiTokenPrefix : string := "dlt_".
Definition apiTokenSecretBytes : nat := 16.
Definition newAPITokenValue : M string :=
  b ← rand_read apiTokenSecretBytes; mret (apiTokenPrefix +:+ string_of (EncodeToString b)).
End Store.

(** [HashToken], over [sha256.Sum256]. *)
Definition HashToken (Sum256 : list Z -> list Z) (token : string) : string :=
  string_of (EncodeToString (Sum256 (bytes_of token))).
