(* ===== verification/AuthHandlers.v ===== *)
(** * Authentication ([internal/api/auth.go], [account.go], [tokens.go])

    The gate in front of every route and the handlers behind it: first-run
    setup, login, logout, the account and the API tokens.  A handler answers a
    problem or its output; the store's errors reach it as values.  Log records,
    the JSON shapes and the RFC 3339 rendering of timestamps are left out. *)

From stdpp Require Import fin_maps.
From S2P Require Import Prelude GoStrings TaskState Schema Lease World SafeJoin Manifest Hash Password Throttle Auth.

Open Scope Z_scope.

(** ** Answers *)

Inductive authSlug :=
  | SlugSetupRequired | SlugUnauthenticated | SlugForbidden | SlugCSRFTokenMissing | SlugNotFound
  | SlugSetupAlreadyComplete | SlugValidationFailed | SlugRateLimited | SlugInternal.

(** [Problem]; the [Retry-After] header of [rateLimited]. *)
Record authProblem := MkAuthProblem {
  ap_slug : authSlug; ap_status : Z; ap_detail : string; ap_retry_after : option Z }.
Definition Problem (s : authSlug) (status : Z) (detail : string) : authProblem := MkAuthProblem s status detail None.

Definition loginRejectionDetail : string := "the username or password is not accepted".
Definition setupRequiredDetail : string :=
  "the operator account has not been created yet; complete first-run setup first".
Definition setupCompleteDetail : string := "the operator account already exists; first-run setup cannot run again".
Definition setupTokenDetail : string := "the setup token is not valid".
Definition rateLimitedDetail : string := "too many attempts; retry after the delay in Retry-After".
Definition noCredentialDetail : string := "no credential was presented".
Definition accountWrongCurrentDetail : string := "the current password does not match".
Definition accountEmptyUsernameDetail : string := "username must not be empty".
Definition accountEmptyLocaleDetail : string := "locale must not be empty".
Definition accountNeedsCurrentDetail : string := "changing the password requires current_password in the same body".

Definition internalFailure : authProblem := Problem SlugInternal 500 "an internal error occurred".
Definition unauthenticated (detail : string) : authProblem := Problem SlugUnauthenticated 401 detail.
Definition FromStore (e : err) : authProblem :=
  if errors_is e ErrNotFound then Problem SlugNotFound 404 "the addressed row does not exist"
  else Problem SlugInternal 500 "an internal error occurred".

(** [rateLimited]: whole seconds, rounded up, at least one. *)
Definition rateLimited (wait : Z) : authProblem :=
  MkAuthProblem SlugRateLimited 429 rateLimitedDetail (Some (Z.max 1 (- (- wait / second)))).

(** ** Commands that can answer a problem *)

Abbreviation H A := (M (authProblem + A)%type).
Definition answer_problem {A} (p : authProblem) : H A := mret (inl p).
Definition answer_with {A} (x : A) : H A := mret (inr x).
Definition and_then {A B} (m : H A) (k : A -> H B) : H B :=
  r ← m; match r with inl p => answer_problem p | inr x => k x end.
Notation "x <~ m ; k" := (and_then m (fun x => k)) (at level 100, m at level 99, k at level 200, right associativity).
Notation "'refuse!' b 'with' p ; k" := (if b : bool then answer_problem p else k)
  (at level 100, b at level 99, p at level 99, k at level 200, right associativity).

(** A store call whose error is answered by [f]. *)
Definition answering {A} (f : err -> authProblem) (m : M A) : H A :=
  r ← attempt m; mret (match r with inl e => inl (f e) | inr x => inr x end).
Definition or_internal {A} (m : M A) : H A := answering (fun _ => internalFailure) m.
Definition lift {A} (m : M A) : H A := x ← m; answer_with x.

(** ** Requests *)

(** The headers and the connection a request brings; [rq_cookie] is the
    session cookie, an absent header is empty. *)
Record request := MkRequest {
  Method : string; URLPath : string; Authorization : string; rq_cookie : option string; CSRFHeader : string;
  Origin : string; Referer : string; Host : string; PeerIP : string; TLS : bool }.

(** [config.Config], as far as it is used. *)
Record Config := MkConfig { BasePath : string; SessionTTL : Z; TokenPath : string }.

(** [Identity]: the user with its id. *)
Inductive authMethod := authMethodSession | authMethodToken.
#[global] Instance authMethod_eq_dec : EqDecision authMethod.
Proof. solve_decision. Defined.
Record Identity := MkIdentity {
  UserID : string; IdUser : User; IdMethod : authMethod; CSRF : string; SessionID : string }.

(** [NewSessionCookie]: value, path, Secure and Max-Age in seconds, rounded
    up. *)
Record Cookie := MkCookie { C_Value : string; C_Path : string; C_Secure : bool; MaxAge : Z }.
Definition NewSessionCookie (cfg : Config) (value : string) (tls : bool) : Cookie :=
  MkCookie value (BasePath cfg +:+ "/") tls (- (- SessionTTL cfg / second)).

(** [operationKey]. *)
Definition apiV1Path : string := "/api/v1".
Definition opAuthSetup : string := "POST /auth/setup".
Definition opAuthLogin : string := "POST /auth/login".
Definition operationKey (cfg : Config) (r : request) : string :=
  Method r +:+ " " +:+ trim_prefix (BasePath cfg +:+ apiV1Path) (URLPath r).

(** [isMutatingMethod]. *)
Definition isMutatingMethod (method : string) : bool :=
  contains ["POST"; "PUT"; "PATCH"; "DELETE"]%string method.

(** [newUserBody] and [authEnvelope]. *)
Record userBody := MkUserBody {
  UB_ID : string; UB_Username : string; UB_Enabled : bool; UB_Locale : string; UB_LastLoginAt : option Z; UB_CreatedAt : Z }.
Definition newUserBody (id : string) (u : User) : userBody :=
  MkUserBody id (Username u) (Enabled u) (Locale u) (LastLoginAt u) (CreatedAt u).
Record authEnvelope := MkEnvelope { AE_User : userBody; AE_CSRFToken : string }.

Definition with_login (now : Z) (u : User) : User :=
  MkUser (Username u) (PasswordHash u) (Enabled u) (Locale u) (Some now) (CreatedAt u) (UpdatedAt u).

Section Handlers.
Context (env : environment) (cfg : Config).
(** [sha256.Sum256] and [argon2.IDKey]. *)
Context (Sum256 : list Z -> list Z) (IDKey : list Z -> list Z -> Z -> Z -> Z -> Z -> list Z).
(** [url.Parse] of a header, down to its host, and the fold orbits
    [strings.EqualFold] compares two runes by. *)
Context (ParseHost : string -> option string) (SimpleFold : Z -> Z -> bool).

(** [strings.EqualFold]. *)
Definition rune_fold (a b : Z) : bool :=
  (a =? b) || (if (a <? 128) && (b <? 128) then lower_byte a =? lower_byte b else SimpleFold a b).
Definition EqualFold (s t : string) : bool :=
  let a := runes (bytes_of s) in let b := runes (bytes_of t) in
  (length a =? length b)%nat && forallb (fun p => rune_fold p.1 p.2) (zip a b).

(** ** The gate *)

(** [setupComplete]. *)
Definition setupComplete : M bool :=
  known ← ask setupDone;
  if known : bool then mret true
  else
    count ← CountUsers;
    if 0 <? count then on_service (set_done true) ;; mret true else mret false.

Definition space : Ascii.ascii := Ascii.ascii_of_nat 32.

(** [resolveBearer]. *)
Definition resolveBearer (header : string) : H Identity :=
  let (scheme, token) := default (header, EmptyString) (cut_byte space header) in
  refuse! negb (EqualFold scheme "Bearer") || bool_decide (drop_prefix apiTokenPrefix token = None)
    with unauthenticated "the Authorization header is not a dl-tool bearer token";
  u <~ answering (fun e => if errors_is e ErrNotFound then unauthenticated "the bearer token is unknown, expired or revoked" else internalFailure)
    (UserByAPITokenHash env (HashToken Sum256 token));
  answer_with (MkIdentity u.1 u.2 authMethodToken EmptyString EmptyString).

(** [resolveSession]. *)
Definition sessionTouchInterval : Z := 60 * second.
Definition resolveSession (cookieValue : string) : H Identity :=
  row <~ answering (fun e => if errors_is e ErrNotFound then unauthenticated "the session is unknown or has expired" else internalFailure)
    (SessionByTokenHash env (HashToken Sum256 cookieValue));
  let '(id, s, u) := row in
  since <~ lift (now ← time_now env; mret (now - LastSeenAt s * millisecond));
  _ <~ lift (if sessionTouchInterval <=? since then now ← now_ms env; ignore (TouchSession id now) else mret tt);
  answer_with (MkIdentity (S_UserID s) u authMethodSession (CSRFToken s) id).

(** [resolveIdentity]. *)
Definition resolveIdentity (r : request) : H Identity :=
  if bool_decide (Authorization r <> EmptyString) then resolveBearer (Authorization r)
  else match rq_cookie r with
       | None => answer_problem (unauthenticated "no credential was presented")
       | Some value => resolveSession value
       end.

(** [originHostMismatch]. *)
Definition originHostMismatch (r : request) : bool :=
  let source := if bool_decide (Origin r = EmptyString) then Referer r else Origin r in
  if bool_decide (source = EmptyString) then false
  else match ParseHost source with
       | None => true
       | Some host => if bool_decide (host = EmptyString) then true else negb (EqualFold host (Host r))
       end.

(** [csrfProblem]. *)
Definition csrfProblem (r : request) (identity : Identity) : option authProblem :=
  if originHostMismatch r
  then Some (Problem SlugCSRFTokenMissing 403 "the Origin or Referer host does not match the request host")
  else if negb (bool_decide (IdMethod identity = authMethodSession)) || negb (isMutatingMethod (Method r)) then None
  else if bool_decide (CSRF identity = EmptyString) || negb (EqualToken (CSRFHeader r) (CSRF identity))
  then Some (Problem SlugCSRFTokenMissing 403 "a cookie-authenticated mutation needs a matching X-DLTOOL-CSRF header")
  else None.

(** [middleware]: [next] runs with the identity on its context, or none on the
    two routes that authenticate by body. *)
Definition middleware {A} (next : option Identity -> H A) (r : request) : H A :=
  let operation := operationKey cfg r in
  complete <~ (if bool_decide (operation = opAuthSetup) then answer_with true else or_internal setupComplete);
  refuse! negb complete with Problem SlugSetupRequired 401 setupRequiredDetail;
  if bool_decide (operation = opAuthSetup) || bool_decide (operation = opAuthLogin) then next None
  else
    identity <~ resolveIdentity r;
    match csrfProblem r identity with
    | Some p => answer_problem p
    | None => next (Some identity)
    end.

(** ** The handlers *)

(** [issueSession]. *)
Definition issueSession (userID : string) (u : User) (now : Z) : H (authEnvelope * string) :=
  cookieValue <~ or_internal (NewToken env);
  csrfToken <~ or_internal (NewToken env);
  id <~ lift (NewID "ses_");
  _ <~ or_internal (CreateSession env id
    (MkSession userID (HashToken Sum256 cookieValue) csrfToken (milli (now + SessionTTL cfg)) (milli now)));
  answer_with (MkEnvelope (newUserBody userID u) csrfToken, cookieValue).

(** [os.Remove] and [os.WriteFile] of the token file. *)
Definition remove_token : M (option bool) := fun o w =>
  if e_fs env (w_n w) then
    (inr (Some (bool_decide (is_Some (token_file (svc w))))), bump (set_eng (set_file None (svc w)) w))
  else (inr None, bump w).
Definition write_token (token : string) : M bool := fun o w =>
  if e_fs env (w_n w) then (inr true, bump (set_eng (set_file (Some token) (svc w)) w))
  else (inr false, bump (set_eng (set_file (e_left env (w_n w)) (svc w)) w)).

(** [setupInput], [loginInput], [PatchAccountInput] and [CreateTokenInput]. *)
Record setupInput := MkSetup { SI_SetupToken : string; SI_Username : string; SI_Password : string; SI_Locale : string }.
Record patchInput := MkPatch {
  PI_Username : option string; PI_Locale : option string; PI_Password : option string; PI_CurrentPassword : option string }.

(** [secure.HashPassword] and [secure.VerifyPassword]. *)
Definition hash_password (password : string) : M string :=
  salt ← rand_read env (Z.to_nat argonSaltLen);
  mret (string_of (HashPassword IDKey salt (bytes_of password))).
Definition verify_password (phc password : string) : option (bool * bool) :=
  VerifyPassword IDKey (bytes_of phc) (bytes_of password).

(** The throttle's methods on the service. *)
Definition throttled {A} (f : loginThrottle -> A * loginThrottle) : M A :=
  t ← ask throttle;
  on_service (set_throttle (f t).2) ;; mret (f t).1.
Definition check_source (ip : string) (now : Z) : M (option Z) := throttled (checkSource (bytes_of ip) now).
Definition check_account (name : string) (now : Z) : M (option Z) := throttled (checkAccount (bytes_of name) now).
Definition record_failure (name : string) (now : Z) : M unit := throttled (fun t => (tt, recordFailure (bytes_of name) now t)).
Definition record_success (name : string) : M unit := throttled (fun t => (tt, recordSuccess (bytes_of name) t)).
Definition not_limited (m : M (option Z)) : H unit :=
  wait ← m; match wait with Some w => answer_problem (rateLimited w) | None => answer_with tt end.

(** [handleSetup]; the mutex makes it one critical section. *)
Definition handleSetup (r : request) (input : setupInput) : H (Cookie * authEnvelope) :=
  complete <~ or_internal setupComplete;
  refuse! complete with Problem SlugSetupAlreadyComplete 409 setupCompleteDetail;
  now <~ lift (time_now env);
  _ <~ not_limited (check_source (PeerIP r) now);
  token <~ lift (ask setupToken);
  refuse! negb (EqualToken (SI_SetupToken input) token) with unauthenticated setupTokenDetail;
  hash <~ or_internal (hash_password (SI_Password input));
  id <~ lift (NewID "usr_");
  let user := MkUser (SI_Username input) hash true (SI_Locale input) None 0 0 in
  _ <~ or_internal (CreateUser env id user);
  removed <~ lift remove_token;
  refuse! bool_decide (removed = None) with internalFailure;
  _ <~ lift (on_service (fun s => set_done true (set_token EmptyString s)));
  let user := MkUser (SI_Username input) hash true (SI_Locale input) None (milli now) 0 in
  e <~ issueSession id user now;
  answer_with (NewSessionCookie cfg e.2 (TLS r), e.1).

(** [loginRejected]. *)
Definition loginRejected {A} (name : string) (now : Z) : H A :=
  record_failure name now ;; answer_problem (unauthenticated loginRejectionDetail).

(** [handleLogin]. *)
Definition handleLogin (r : request) (name password : string) : H (Cookie * authEnvelope) :=
  now <~ lift (time_now env);
  _ <~ not_limited (check_source (PeerIP r) now);
  _ <~ not_limited (check_account name now);
  user ← attempt (UserByUsername name);
  match user with
  | inl e => if errors_is e ErrNotFound then loginRejected name now else answer_problem internalFailure
  | inr (id, u) =>
    match verify_password (PasswordHash u) password with
    | None => answer_problem internalFailure
    | Some (ok, needsRehash) =>
      if negb ok || negb (Enabled u) then loginRejected name now
      else
        _ <~ lift (record_success name);
        _ <~ or_internal (TouchLastLogin id (milli now));
        e <~ issueSession id (with_login (milli now) u) now;
        answer_with (NewSessionCookie cfg e.2 (TLS r), e.1)
    end
  end.

(** The guard on the wiring. *)
Definition identified {A} (identity : option Identity) (k : Identity -> H A) : H A :=
  match identity with None => answer_problem (unauthenticated noCredentialDetail) | Some i => k i end.

(** [handleLogout] and [handleMe]. *)
Definition handleLogout (r : request) (identity : option Identity) : H (option Cookie) := identified identity (fun i =>
  if bool_decide (IdMethod i = authMethodSession) then
    _ <~ or_internal (DeleteSession (SessionID i));
    let expired := NewSessionCookie cfg EmptyString (TLS r) in
    answer_with (Some (MkCookie (C_Value expired) (C_Path expired) (C_Secure expired) (-1)))
  else answer_with None).
Definition handleMe (identity : option Identity) : H authEnvelope := identified identity (fun i =>
  answer_with (MkEnvelope (newUserBody (UserID i) (IdUser i)) (CSRF i))).

(** [GetAccount] and [PatchAccount]. *)
Definition GetAccount (identity : option Identity) : H userBody := identified identity (fun i =>
  answer_with (newUserBody (UserID i) (IdUser i))).

Definition trimmed_field (given : option string) (stored : string) (detail : string) : H string :=
  match given with
  | None => answer_with stored
  | Some raw =>
    let value := string_of (TrimSpace (bytes_of raw)) in
    refuse! bool_decide (value = EmptyString) with Problem SlugValidationFailed 422 detail;
    answer_with value
  end.

Definition PatchAccount (input : patchInput) (identity : option Identity) : H userBody := identified identity (fun i =>
  refuse! bool_decide (is_Some (PI_Password input)) && bool_decide (PI_CurrentPassword input = None)
    with Problem SlugValidationFailed 422 accountNeedsCurrentDetail;
  _ <~ match PI_CurrentPassword input with
       | None => answer_with tt
       | Some current =>
         match verify_password (PasswordHash (IdUser i)) current with
         | None => answer_problem internalFailure
         | Some (matches, _) => refuse! negb matches with Problem SlugForbidden 403 accountWrongCurrentDetail; answer_with tt
         end
       end;
  _ <~ (if bool_decide (is_Some (PI_Username input)) || bool_decide (is_Some (PI_Locale input)) then
          username <~ trimmed_field (PI_Username input) (Username (IdUser i)) accountEmptyUsernameDetail;
          locale <~ trimmed_field (PI_Locale input) (Locale (IdUser i)) accountEmptyLocaleDetail;
          answering FromStore (UpdateUserProfile env (UserID i) username locale)
        else answer_with tt);
  _ <~ match PI_Password input with
       | None => answer_with tt
       | Some password =>
         hash <~ or_internal (hash_password password);
         _ <~ or_internal (DeleteOtherSessions (UserID i) (SessionID i));
         answering FromStore (UpdatePasswordHash env (UserID i) hash)
       end;
  updated <~ or_internal (UserByID (UserID i));
  answer_with (newUserBody (UserID i) updated)).

(** [TokenHandlers.Create] and [Revoke]: the id and the value, revealed once. *)
Definition Create (name : string) (expiresAt : option Z) (identity : option Identity) : H (string * string) := identified identity (fun i =>
  value <~ or_internal (newAPITokenValue env);
  id <~ lift (NewID "tok_");
  now <~ lift (now_ms env);
  _ <~ or_internal (CreateAPIToken id
    (MkToken (UserID i) name (HashToken Sum256 value) (String.substring 0 8 value) None (milli <$> expiresAt) None now 0));
  answer_with (id, value)).
Definition Revoke (id : string) (identity : option Identity) : H unit := identified identity (fun i =>
  answering FromStore (RevokeAPIToken env (UserID i) id)).

(** ** Boot *)

(** [writeSetupToken] and [newAuthService] over the tables at boot. *)
Definition writeSetupToken (token : string) : M unit :=
  removed ← remove_token;
  if bool_decide (removed = None) then fail ErrFs
  else written ← write_token token; if written : bool then mret tt else fail ErrFs.
Definition newAuthService : M unit :=
  if SessionTTL cfg <=? 0 then fail ErrArgument
  else
    on_service (fun s => MkService (tables s) false EmptyString (token_file s) newLoginThrottle) ;;
    count ← CountUsers;
    if 0 <? count then on_service (set_done true)
    else
      token ← NewToken env;
      writeSetupToken token ;;
      on_service (set_token token).

(** ** The routes *)

(** A call with its body; [CallOther] is any further route under /api/v1,
    whose handler leaves these tables alone. *)
Inductive call :=
  | CallSetup (input : setupInput) | CallLogin (name password : string) | CallLogout | CallMe
  | CallGetAccount | CallPatchAccount (input : patchInput)
  | CallCreateToken (name : string) (expiresAt : option Z) | CallRevokeToken (id : string) | CallOther.

(** What the client is told. *)
Inductive reply :=
  | ReplySession (c : Cookie) (e : authEnvelope) | ReplyLogout (c : option Cookie) | ReplyMe (e : authEnvelope)
  | ReplyAccount (b : userBody) | ReplyToken (id value : string) | ReplyDone.

(** The method and the path under the API base a call is routed by. *)
Definition route (c : call) : option (string * string) :=
  match c with
  | CallSetup _ => Some ("POST", "/auth/setup") | CallLogin _ _ => Some ("POST", "/auth/login")
  | CallLogout => Some ("POST", "/auth/logout") | CallMe => Some ("GET", "/auth/me")
  | CallGetAccount => Some ("GET", "/account") | CallPatchAccount _ => Some ("PATCH", "/account")
  | CallCreateToken _ _ => Some ("POST", "/api-tokens") | CallRevokeToken id => Some ("DELETE", "/api-tokens/" +:+ id)
  | CallOther => None
  end%string.
Definition routed (r : request) (c : call) : Prop :=
  match route c with
  | Some (m, p) => Method r = m /\ URLPath r = BasePath cfg +:+ apiV1Path +:+ p
  | None => operationKey cfg r <> opAuthSetup /\ operationKey cfg r <> opAuthLogin
  end.

Definition handler (r : request) (c : call) (identity : option Identity) : H reply :=
  match c with
  | CallSetup input => p <~ handleSetup r input; answer_with (ReplySession p.1 p.2)
  | CallLogin name password => p <~ handleLogin r name password; answer_with (ReplySession p.1 p.2)
  | CallLogout => c <~ handleLogout r identity; answer_with (ReplyLogout c)
  | CallMe => e <~ handleMe identity; answer_with (ReplyMe e)
  | CallGetAccount => b <~ GetAccount identity; answer_with (ReplyAccount b)
  | CallPatchAccount input => b <~ PatchAccount input identity; answer_with (ReplyAccount b)
  | CallCreateToken name expiresAt => p <~ Create name expiresAt identity; answer_with (ReplyToken p.1 p.2)
  | CallRevokeToken id => _ <~ Revoke id identity; answer_with ReplyDone
  | CallOther => identified identity (fun _ => answer_with ReplyDone)
  end.
Definition serve (r : request) (c : call) : H reply := middleware (handler r c) r.
End Handlers.
