(* ===== verification/AuthProps.v ===== *)
(** * Authentication: rules for the handlers

    Frames of handlers as relations on the service ([moves]), and their
    specifications under one oracle ([hspec]); a handler never fails, it
    answers.  The gate's contract is proved on top of them. *)

From stdpp Require Import fin_maps.
From S2P Require Import Prelude GoStrings TaskState Schema Lease World Frame SafeJoin Manifest Hash Password Throttle Auth AuthHandlers.

Open Scope Z_scope.

(** ** Frames *)

Section Moves.
Context (S : service -> service -> Prop) `{!PreOrder S}.
Definition moves (w w' : world) : Prop := S (svc w) (svc w').

#[global] Instance moves_pre : PreOrder moves.
Proof. split; [intros w; unfold moves; reflexivity|intros u v w; unfold moves; apply transitivity]. Qed.

Lemma moves_same {A} (m : M A) : (forall o w, svc (m o w).2 = svc w) -> always moves m.
Proof. intros Hm o w. unfold moves. rewrite Hm. reflexivity. Qed.

Lemma moves_query {A} (q : authdb -> A) : always moves (query_auth q).
Proof. apply moves_same. intros o w. unfold query_auth. by destruct (o_io o (w_n w)). Qed.
Lemma moves_time env : always moves (time_now env).
Proof. by apply moves_same. Qed.
Lemma moves_rand env n : always moves (rand_read env n).
Proof. apply moves_same. intros o w. unfold rand_read. by destruct (e_rand env (w_n w) n). Qed.
Lemma moves_NewID p : always moves (NewID p).
Proof. by apply moves_same. Qed.
Lemma moves_ask {A} (f : service -> A) : always moves (ask f).
Proof. by apply moves_same. Qed.
Lemma moves_fail {A} e : always moves (fail (A := A) e).
Proof. apply always_fail. apply _. Qed.
Lemma moves_ret {A} (x : A) : always moves (mret x).
Proof. apply always_ret. apply _. Qed.
Lemma moves_bind {A B} (m : M A) (k : A -> M B) : always moves m -> (forall x, always moves (k x)) -> always moves (m ≫= k).
Proof. apply always_bind. apply _. Qed.
Lemma moves_attempt {A} (m : M A) : always moves m -> always moves (attempt m).
Proof. apply always_attempt. Qed.

(** A statement and a field write stay inside [S]. *)
Definition stmt_moves (q : auth_stmt) : Prop := forall s d k, q (tables s) = Some (d, k) -> S s (set_tables d s).
Lemma moves_exec q : stmt_moves q -> always moves (exec_auth q).
Proof.
  intros Hq o w. unfold exec_auth, moves, tables_of. specialize (Hq (svc w)).
  destruct (o_io o (w_n w)), (q (tables (svc w))) as [[d k]|] eqn:Hd; simpl; try reflexivity; by eapply Hq.
Qed.
Lemma moves_on_service f : (forall s, S s (f s)) -> always moves (on_service f).
Proof. intros Hf o w. apply Hf. Qed.
Lemma moves_remove env : (forall s, S s (set_file None s)) -> always moves (remove_token env).
Proof. intros Hf o w. unfold remove_token. destruct (e_fs env (w_n w)); [apply Hf|unfold moves; reflexivity]. Qed.

Lemma moves_answer {A} (x : A) : always moves (answer_with x).
Proof. apply moves_ret. Qed.
Lemma moves_problem {A} p : always moves (answer_problem (A := A) p).
Proof. apply moves_ret. Qed.
Lemma moves_and_then {A B} (m : H A) (k : A -> H B) : always moves m -> (forall x, always moves (k x)) -> always moves (and_then m k).
Proof. intros Hm Hk. apply moves_bind; [done|]. intros [p|x]; [apply moves_problem|apply Hk]. Qed.
Lemma moves_answering {A} f (m : M A) : always moves m -> always moves (answering f m).
Proof. intros Hm. apply moves_bind; [by apply moves_attempt|]. intros. apply moves_ret. Qed.
Lemma moves_lift {A} (m : M A) : always moves m -> always moves (lift m).
Proof. intros Hm. apply moves_bind; [done|]. intros. apply moves_answer. Qed.
Lemma moves_if {A} (b : bool) (m k : M A) : always moves m -> always moves k -> always moves (if b then m else k).
Proof. by destruct b. Qed.
End Moves.

(** Follows a command to its statements and field writes. *)
Ltac unfold_auth := unfold or_internal, dropping, or_not_found, found, now_ms, throttled, check_source, check_account,
  record_failure, record_success, not_limited, NewToken, newAPITokenValue, hash_password, identified, trimmed_field, ignore,
  CountUsers, UserByID, UserByUsername, CreateUser, TouchLastLogin, CreateSession, SessionByTokenHash, TouchSession,
  DeleteSession, UpdateUserProfile, UpdatePasswordHash, DeleteOtherSessions, TouchAPIToken, UserByAPITokenHash,
  CreateAPIToken, RevokeAPIToken, setupComplete, resolveBearer, resolveSession, resolveIdentity, issueSession, loginRejected.
Ltac moves_step := first
  [ progress intros | progress unfold_auth
  | apply moves_query | apply moves_time | apply moves_rand | apply moves_NewID | apply moves_ask | apply moves_fail
  | apply moves_answer | apply moves_problem | apply moves_and_then | apply moves_answering | apply moves_lift
  | apply moves_ret | apply moves_bind | apply moves_attempt | apply moves_exec | apply moves_on_service | apply moves_remove
  | match goal with |- always _ (match ?x with _ => _ end) => destruct x end
  | apply _ | match goal with |- PreOrder _ => apply _ end ].
Ltac moves_walk := repeat moves_step.

(** ** Taking a success apart *)

Lemma and_then_inv {A B} (m : H A) (k : A -> H B) o w y w' : and_then m k o w = (inr (inr y), w') ->
  exists x w1, m o w = (inr (inr x), w1) /\ k x o w1 = (inr (inr y), w').
Proof. unfold and_then. rewrite bind_run. destruct (m o w) as [[e|[p|x]] w1]; [done|done|]. intros Hk. by exists x, w1. Qed.
Lemma answering_inv {A} f (m : M A) o w x w' : answering f m o w = (inr (inr x), w') -> m o w = (inr x, w').
Proof. unfold answering, attempt. rewrite !bind_run. destruct (m o w) as [[e|y] w1]; [done|]. by intros [= -> ->]. Qed.
Lemma lift_inv {A} (m : M A) o w x w' : lift m o w = (inr (inr x), w') -> m o w = (inr x, w').
Proof. unfold lift. rewrite !bind_run. destruct (m o w) as [[e|y] w1]; [done|]. by intros [= -> ->]. Qed.
Lemma bind_inv {A B} (m : M A) (k : A -> M B) o w y w' : (m ≫= k) o w = (inr y, w') ->
  exists x w1, m o w = (inr x, w1) /\ k x o w1 = (inr y, w').
Proof. rewrite bind_run. destruct (m o w) as [[e|x] w1]; [done|]. intros Hk. by exists x, w1. Qed.
Lemma exec_inv q o w k w' : exec_auth q o w = (inr k, w') ->
  exists d, q (tables_of w) = Some (d, k) /\ svc w' = set_tables d (svc w).
Proof.
  unfold exec_auth. destruct (o_io o (w_n w)), (q (tables_of w)) as [[d n]|]; try done. intros [= <- <-]. by exists d.
Qed.
Lemma query_inv {A} (q : authdb -> A) o w x w' : query_auth q o w = (inr x, w') -> x = q (tables_of w) /\ svc w' = svc w.
Proof. unfold query_auth. destruct (o_io o (w_n w)); try done. by intros [= <- <-]. Qed.
Lemma dropping_inv (m : M Z) o w w' : dropping m o w = (inr tt, w') -> exists k, m o w = (inr k, w').
Proof. unfold dropping. intros (k & w1 & Hm & Hr)%bind_inv. exists k. by injection Hr as <-. Qed.
Lemma or_not_found_inv (m : M Z) o w w' : or_not_found m o w = (inr tt, w') -> exists k, m o w = (inr k, w') /\ k <> 0.
Proof.
  unfold or_not_found. intros (k & w1 & Hm & Hr)%bind_inv. destruct (Z.eqb_spec k 0); [done|]. injection Hr as <-. by exists k.
Qed.
Lemma found_inv {A} (q : authdb -> option A) o w x w' : found (query_auth q) o w = (inr x, w') -> q (tables_of w) = Some x /\ svc w' = svc w.
Proof.
  unfold found. intros (y & w1 & [-> Hs]%query_inv & Hr)%bind_inv. destruct (q (tables_of w)) as [z|]; [|done]. injection Hr as <- <-. done.
Qed.
Lemma time_inv env o w t w' : time_now env o w = (inr t, w') -> svc w' = svc w.
Proof. by intros [= _ <-]. Qed.
Lemma now_inv env o w t w' : now_ms env o w = (inr t, w') -> svc w' = svc w.
Proof. by intros [= _ <-]. Qed.
Lemma rand_inv env n o w l w' : rand_read env n o w = (inr l, w') -> svc w' = svc w.
Proof. unfold rand_read. destruct (e_rand env (w_n w) n); [|done]. by intros [= _ <-]. Qed.
Lemma NewID_inv p o w x w' : NewID (E := service) p o w = (inr x, w') -> svc w' = svc w.
Proof. by intros [= _ <-]. Qed.
Lemma NewToken_inv env o w x w' : NewToken env o w = (inr x, w') -> svc w' = svc w.
Proof. unfold NewToken. intros (l & w1 & Hr & He)%bind_inv. injection He as _ <-. by eapply rand_inv. Qed.
Lemma throttled_inv {A} (f : loginThrottle -> A * loginThrottle) o w x w' : throttled f o w = (inr x, w') -> tables_of w' = tables_of w.
Proof. unfold throttled. intros (t & w1 & He & Hk)%bind_inv. injection He as <- <-. by injection Hk as _ <-. Qed.
Lemma not_limited_inv f o w x w' : not_limited (throttled f) o w = (inr (inr x), w') -> tables_of w' = tables_of w.
Proof. unfold not_limited. intros (y & w1 & Hf%throttled_inv & Hk)%bind_inv. destruct y; [done|]. by injection Hk as _ <-. Qed.
Lemma refuse_inv {A} (b : bool) p (k : H A) o w y w' : (refuse! b with p; k) o w = (inr (inr y), w') -> b = false /\ k o w = (inr (inr y), w').
Proof. by destruct b. Qed.

(** ** Handlers answer *)

Definition answers {A} (m : M A) : Prop := forall o w, exists x, (m o w).1 = inr x.

Lemma replies_ret {A} (x : A) : answers (mret x).
Proof. intros o w. by exists x. Qed.
Lemma replies_problem {A} p : answers (answer_problem (A := A) p).
Proof. apply replies_ret. Qed.
Lemma replies_with {A} (x : A) : answers (answer_with x).
Proof. apply replies_ret. Qed.
Lemma replies_bind {A B} (m : M A) (k : A -> M B) : answers m -> (forall x, answers (k x)) -> answers (m ≫= k).
Proof. intros Hm Hk o w. rewrite bind_run. destruct (Hm o w) as [x Hx]. destruct (m o w) as [r w']. simpl in Hx. subst r. apply Hk. Qed.
Lemma replies_attempt {A} (m : M A) : answers (attempt m).
Proof. intros o w. unfold attempt. destruct (m o w) as [r w']. by exists r. Qed.
Lemma replies_and_then {A B} (m : H A) (k : A -> H B) : answers m -> (forall x, answers (k x)) -> answers (and_then m k).
Proof. intros Hm Hk. apply replies_bind; [done|]. intros [p|x]; [apply replies_problem|apply Hk]. Qed.
Lemma replies_answering {A} f (m : M A) : answers (answering f m).
Proof. apply replies_bind; [apply replies_attempt|]. intros. apply replies_ret. Qed.
Lemma replies_lift {A} (m : M A) : answers m -> answers (lift m).
Proof. intros Hm. apply replies_bind; [done|]. intros. apply replies_with. Qed.
Lemma replies_time env : answers (time_now env).
Proof. intros o w. by eexists. Qed.
Lemma replies_ask {A} (f : service -> A) : answers (ask f).
Proof. intros o w. by eexists. Qed.
Lemma replies_NewID p : answers (NewID (E := service) p).
Proof. intros o w. by eexists. Qed.
Lemma replies_on_service f : answers (on_service f).
Proof. intros o w. by eexists. Qed.
Lemma replies_remove env : answers (remove_token env).
Proof. intros o w. unfold remove_token. destruct (e_fs env (w_n w)); by eexists. Qed.

(** ** Specifications under one oracle *)

Section Specs.
Variable o : oracle.
Implicit Types (P : world -> Prop).

Definition hspec P {A} (m : H A) (Q : authProblem + A -> world -> Prop) : Prop :=
  spec o P m (fun r w => match r with inl _ => False | inr a => Q a w end).

Lemma hspec_weaken P P' {A} (m : H A) (Q Q' : authProblem + A -> world -> Prop) :
  hspec P m Q -> (forall w, P' w -> P w) -> (forall a w, Q a w -> Q' a w) -> hspec P' m Q'.
Proof. intros Hm HP HQ. eapply spec_weaken; [exact Hm|done|]. intros [e|a] w; [done|apply HQ]. Qed.

Lemma hspec_answer P {A} (x : A) (Q : authProblem + A -> world -> Prop) :
  (forall w, P w -> Q (inr x) w) -> hspec P (answer_with x) Q.
Proof. intros Hx. by apply spec_ret. Qed.
Lemma hspec_problem P {A} p (Q : authProblem + A -> world -> Prop) :
  (forall w, P w -> Q (inl p) w) -> hspec P (answer_problem p) Q.
Proof. intros Hx. by apply spec_ret. Qed.
Lemma hspec_and_then P {A B} (m : H A) (k : A -> H B) Q1 (Q : authProblem + B -> world -> Prop) :
  hspec P m Q1 -> (forall p w, Q1 (inl p) w -> Q (inl p) w) -> (forall x, hspec (Q1 (inr x)) (k x) Q) ->
  hspec P (and_then m k) Q.
Proof.
  intros Hm Hp Hk. unfold and_then. eapply spec_bind; [exact Hm|done|]. intros [p|x]; [|apply Hk].
  apply hspec_problem. by apply Hp.
Qed.
Lemma hspec_answering P {A} f (m : M A) Q :
  spec o P m Q -> hspec P (answering f m) (fun a w => match a with inl p => exists e, p = f e /\ Q (inl e) w | inr x => Q (inr x) w end).
Proof.
  intros Hm. unfold answering. eapply spec_bind; [by apply spec_attempt|done|]. intros [e|x]; apply spec_ret; intros w Hw; [by exists e|done].
Qed.
Lemma hspec_lift P {A} (m : M A) (Q : A -> world -> Prop) :
  spec o P m (fun r w => match r with inl _ => False | inr x => Q x w end) ->
  hspec P (lift m) (fun a w => match a with inl _ => False | inr x => Q x w end).
Proof. intros Hm. unfold lift. eapply spec_bind; [exact Hm|done|]. intros x. by apply hspec_answer. Qed.

Lemma hspec_pure (F : Prop) P {A} (m : H A) Q : (F -> hspec P m Q) -> hspec (fun w => P w /\ F) m Q.
Proof. intros Hm w [Hw HF]. by apply Hm. Qed.

(** A command that stays inside a frame and cannot fail, with the value it
    answers. *)
Lemma hspec_lift_moves S `{!PreOrder S} s {A B} (m : M A) (k : A -> H B) (F : A -> Prop) (Q : authProblem + B -> world -> Prop) :
  always (moves S) m -> (forall w, S s (svc w) -> exists x, (m o w).1 = inr x /\ F x) ->
  (forall x, F x -> hspec (fun w => S s (svc w)) (k x) Q) -> hspec (fun w => S s (svc w)) (and_then (lift m) k) Q.
Proof.
  intros Hm Hx Hk w Hw. destruct (Hx w Hw) as (x & He & HF). specialize (Hm o w). unfold and_then, lift. rewrite !bind_run.
  destruct (m o w) as [r w']. simpl in *. subst r. apply (Hk x HF). etransitivity; [exact Hw|exact Hm].
Qed.

(** A step inside a frame whose problem ends the handler. *)
Lemma hspec_step_moves S `{!PreOrder S} s {A B} f (m : M A) (k : A -> H B) (F : A -> Prop) (Q : authProblem + B -> world -> Prop) :
  always (moves S) m -> (forall w x, S s (svc w) -> (m o w).1 = inr x -> F x) -> (forall p w, S s (svc w) -> Q (inl p) w) ->
  (forall x, F x -> hspec (fun w => S s (svc w)) (k x) Q) -> hspec (fun w => S s (svc w)) (and_then (answering f m) k) Q.
Proof.
  intros Hm HF Hp Hk w Hw. specialize (HF w). specialize (Hm o w). unfold and_then, answering, attempt. rewrite !bind_run.
  destruct (m o w) as [[e|x] w']; simpl in *; assert (S s (svc w')) by (etransitivity; [exact Hw|exact Hm]); [by apply Hp|].
  apply (Hk x); [by apply HF|done].
Qed.

(** The end of a handler inside a frame. *)
Lemma hspec_ends S {A} (m : H A) (F : service -> Prop) (Q : authProblem + A -> world -> Prop) :
  always (moves S) m -> answers m -> (forall a w w', F (svc w) -> S (svc w) (svc w') -> Q a w') ->
  hspec (fun w => F (svc w)) m Q.
Proof.
  intros Hm Ha HQ w Hw. specialize (Hm o w). destruct (Ha o w) as [x Hx]. destruct (m o w) as [r w']. simpl in *. subst r.
  by apply (HQ x w w').
Qed.

(** A handler step inside a frame. *)
Lemma hspec_moves S `{!PreOrder S} {A} (m : H A) w0 :
  always (moves S) m -> (forall w e w', m o w <> (inl e, w')) -> hspec (fun w => S (svc w0) (svc w)) m (fun _ w => S (svc w0) (svc w)).
Proof.
  intros Hm He w Hw. specialize (Hm o w). specialize (He w). destruct (m o w) as [[e|a] w']; [by destruct (He e w')|].
  simpl in *. unfold moves in Hm. simpl in Hm. etransitivity; [exact Hw|exact Hm].
Qed.
End Specs.

Ltac replies_step := first
  [ progress intros | apply replies_time | apply replies_NewID | apply replies_ask | apply replies_with | apply replies_problem
  | apply replies_answering | apply replies_and_then | apply replies_lift | apply replies_remove | apply replies_on_service
  | apply replies_attempt | apply replies_ret | apply replies_bind
  | match goal with |- answers (match ?x with _ => _ end) => destruct x end
  | progress unfold or_internal, throttled, check_source, check_account, record_failure, record_success, not_limited, now_ms, ignore,
      identified, trimmed_field, issueSession, loginRejected, resolveBearer, resolveSession, resolveIdentity ].
Ltac replies_walk := repeat replies_step.

(** ** The gate by itself *)

Section Gate.
Context (env : environment) (cfg : Config) (Sum256 : list Z -> list Z)
  (ParseHost : string -> option string) (SimpleFold : Z -> Z -> bool).
Abbreviation middleware := (middleware env cfg Sum256 ParseHost SimpleFold).

(** The gate decides before the handler runs. *)
Definition gate (r : request) : H (option Identity) := middleware answer_with r.

Lemma bind_cong {A B} (m : M A) (k k' : A -> M B) o w : (forall x w', k x o w' = k' x o w') -> (m ≫= k) o w = (m ≫= k') o w.
Proof. intros Hk. rewrite !bind_run. destruct (m o w) as [[e|x] w']; [done|apply Hk]. Qed.
Lemma bind_assoc {A B C} (m : M A) (k : A -> M B) (k' : B -> M C) o w : ((m ≫= k) ≫= k') o w = (m ≫= fun x => k x ≫= k') o w.
Proof. rewrite !bind_run. destruct (m o w) as [[e|x] w']; [done|]. by rewrite bind_run. Qed.

Lemma and_then_assoc {A B C} (m : H A) (k : A -> H B) (k' : B -> H C) o w :
  and_then (and_then m k) k' o w = and_then m (fun x => and_then (k x) k') o w.
Proof. unfold and_then. rewrite bind_assoc. apply bind_cong. by intros [p|x] w'. Qed.
Lemma and_then_cong {A B} (m : H A) (k k' : A -> H B) o w : (forall x w', k x o w' = k' x o w') -> and_then m k o w = and_then m k' o w.
Proof. intros Hk. unfold and_then. apply bind_cong. intros [p|x] w'; [done|apply Hk]. Qed.

Lemma middleware_gate {A} (next : option Identity -> H A) r o w : middleware next r o w = and_then (gate r) next o w.
Proof.
  unfold gate, AuthHandlers.middleware. rewrite and_then_assoc. apply and_then_cong. intros complete w1.
  destruct (negb complete); [done|]. destruct (_ || _); [done|]. rewrite and_then_assoc. apply and_then_cong. intros i w2.
  by destruct (csrfProblem _ _ _ _).
Qed.
End Gate.
