(* ===== verification/AuthGate.v ===== *)
(** * Authentication: the contract of the gate

    A request reaches its handler only through [gate]; what the gate lets
    pass carries a live credential of an enabled account, and whatever it
    decides it writes nothing but usage stamps. *)

From stdpp Require Import fin_maps.
From S2P Require Import Prelude GoStrings TaskState Schema Lease World Frame SafeJoin Manifest Hash Password Throttle Auth AuthHandlers AuthProps.

Open Scope Z_scope.

(** ** What the gate writes *)

Definition unseen (s : Session) : Session := MkSession (S_UserID s) (S_TokenHash s) (CSRFToken s) (S_ExpiresAt s) 0.
Definition unused (t : APIToken) : APIToken :=
  MkToken (T_UserID t) (T_Name t) (T_TokenHash t) (T_Prefix t) None (T_ExpiresAt t) (RevokedAt t) (T_CreatedAt t) 0.

(** Nothing but the stamps of last use, and the cached verdict that an account
    exists. *)
Record quiet (s s' : service) : Prop := {
  qt_users : users (tables s') = users (tables s);
  qt_sessions : unseen <$> sessions (tables s') = unseen <$> sessions (tables s);
  qt_tokens : unused <$> api_tokens (tables s') = unused <$> api_tokens (tables s);
  qt_token : setupToken s' = setupToken s;
  qt_file : token_file s' = token_file s;
  qt_throttle : throttle s' = throttle s;
  qt_done : setupDone s' = setupDone s \/ setupDone s' = true /\ users (tables s) <> ∅ }.

#[global] Instance quiet_pre : PreOrder quiet.
Proof.
  split; [intros s; split; auto|].
  intros s t u [] []. split; try congruence.
  destruct qt_done1 as [-> |[? Hu]]; [done|]. right. split; [done|congruence].
Qed.

Lemma touch_view {A B} id guard (f : A -> A) (v : A -> B) m : (forall x, v (f x) = v x) -> v <$> (touch id guard f m).1 = v <$> m.
Proof.
  intros Hv. unfold touch. destruct (m !! id) as [x|] eqn:Hx; [|done]. destruct (guard x); [|done]. simpl.
  rewrite fmap_insert, Hv. apply insert_id. by rewrite lookup_fmap, Hx.
Qed.

Lemma touch_session_quiet id now : stmt_moves quiet (queryTouchSession id now).
Proof.
  intros s d k. unfold queryTouchSession.
  pose proof (touch_view id always_true (fun s => MkSession (S_UserID s) (S_TokenHash s) (CSRFToken s) (S_ExpiresAt s) now) unseen (sessions (tables s)) ltac:(done)) as Ht.
  destruct (touch _ _ _ _) as [m n]. intros [= <- _]. split; simpl in *; auto.
Qed.
Lemma touch_token_quiet id at_ before : stmt_moves quiet (queryTouchAPIToken id at_ before).
Proof.
  intros s d k. unfold queryTouchAPIToken. match goal with |- context [touch id ?g ?f ?m] =>
    pose proof (touch_view id g f unused m ltac:(done)) as Ht; destruct (touch id g f m) as [m' n] end.
  intros [= <- _]. split; simpl in *; auto.
Qed.

Lemma quiet_session s s' id row : quiet s s' -> sessions (tables s') !! id = Some row ->
  exists row', sessions (tables s) !! id = Some row' /\ unseen row' = unseen row.
Proof.
  intros Hq Hr. pose proof (f_equal (.!! id) (qt_sessions _ _ Hq)) as He. rewrite !lookup_fmap, Hr in He. simpl in He.
  destruct (sessions (tables s) !! id) as [row'|]; [|done]. injection He as He1 He2 He3 He4. exists row'.
  split; [done|]. unfold unseen. congruence.
Qed.
Lemma quiet_token s s' id row : quiet s s' -> api_tokens (tables s') !! id = Some row ->
  exists row', api_tokens (tables s) !! id = Some row' /\ unused row' = unused row.
Proof.
  intros Hq Hr. pose proof (f_equal (.!! id) (qt_tokens _ _ Hq)) as He. rewrite !lookup_fmap, Hr in He. simpl in He.
  destruct (api_tokens (tables s) !! id) as [row'|]; [|done]. injection He as He1 He2 He3 He4 He5 He6 He7. exists row'.
  split; [done|]. unfold unused. congruence.
Qed.

Lemma pick_Some {A} (sel : A -> bool) m p : pick sel m = Some p -> m !! p.1 = Some p.2 /\ sel p.2 = true.
Proof.
  unfold pick. destruct (List.filter _ _) as [|q l] eqn:Hf; [done|]. intros [= ->].
  assert (Hin : In p (List.filter (fun p => sel p.2) (map_to_list m))) by (rewrite Hf; by left).
  apply filter_In in Hin as [Hin Hs]. split; [|done]. apply list_elem_of_In in Hin. destruct p. by apply elem_of_map_to_list in Hin.
Qed.
Lemma pick_None {A} (sel : A -> bool) m : pick sel m = None -> forall id x, m !! id = Some x -> sel x = false.
Proof.
  unfold pick. destruct (List.filter _ _) as [|q l] eqn:Hf; [|done]. intros _ id x Hx.
  destruct (sel x) eqn:Hs; [|done]. exfalso. assert (Hin : In (id, x) (List.filter (fun p => sel p.2) (map_to_list m))).
  { apply filter_In. split; [|done]. apply list_elem_of_In. by apply elem_of_map_to_list. }
  by rewrite Hf in Hin.
Qed.

Section Gate.
Context (env : environment) (cfg : Config) (Sum256 : list Z -> list Z)
  (ParseHost : string -> option string) (SimpleFold : Z -> Z -> bool).

(** ** Credentials *)

(** The request carries the cookie of a live session. *)
Definition by_session (r : request) (i : Identity) (d : authdb) (now : Z) : Prop :=
  IdMethod i = authMethodSession /\ Authorization r = EmptyString /\ exists cookie row,
    rq_cookie r = Some cookie /\ sessions d !! SessionID i = Some row /\ S_TokenHash row = HashToken Sum256 cookie /\
    now < S_ExpiresAt row /\ S_UserID row = UserID i /\ CSRFToken row = CSRF i.
(** It carries a live token in its Authorization header. *)
Definition by_token (r : request) (i : Identity) (d : authdb) (now : Z) : Prop :=
  IdMethod i = authMethodToken /\ exists scheme token id row,
    cut_byte space (Authorization r) = Some (scheme, apiTokenPrefix +:+ token) /\ EqualFold SimpleFold scheme "Bearer" = true /\
    api_tokens d !! id = Some row /\ T_TokenHash row = HashToken Sum256 (apiTokenPrefix +:+ token) /\
    live_token now row = true /\ T_UserID row = UserID i.
Definition credential (r : request) (i : Identity) (d : authdb) : Prop :=
  users d !! UserID i = Some (IdUser i) /\ Enabled (IdUser i) = true /\
  exists n, by_session r i d (milli (e_clock env n)) \/ by_token r i d (milli (e_clock env n)).

Lemma credential_quiet r i s s' : quiet s s' -> credential r i (tables s') -> credential r i (tables s).
Proof.
  intros Hq (Hu & He & n & Hc). split; [by rewrite <- (qt_users _ _ Hq)|]. split; [done|]. exists n.
  destruct Hc as [(Hm & Ha & cookie & row & H1 & H2 & H3 & H4 & H5 & H6)|(Hm & scheme & token & id & row & H1 & H2 & H3 & H4 & H5 & H6)].
  - left. split_and!; [done..|]. destruct (quiet_session _ _ _ _ Hq H2) as (row' & Hr & [= E1 E2 E3 E4]).
    exists cookie, row'. split_and!; congruence.
  - right. split; [done|]. destruct (quiet_token _ _ _ _ Hq H3) as (row' & Hr & [= E1 E2 E3 E4 E5 E6 E7]).
    exists scheme, token, id, row'. split_and!; try congruence. unfold live_token in *. by rewrite E5, E6.
Qed.

(** ** Resolving an identity *)

Lemma spec_run o P {A} (m : M A) (Q : res A -> world -> Prop) : (forall w, P w -> Q (m o w).1 (m o w).2) -> spec o P m Q.
Proof. done. Qed.

Definition at_service (s : service) (w : world) : Prop := quiet s (svc w).

Lemma time_spec o s : spec o (at_service s) (time_now env) (fun r w => (exists n, r = inr (e_clock env n)) /\ at_service s w).
Proof. intros w Hw. split; [by eexists|done]. Qed.
Lemma now_spec o s : spec o (at_service s) (now_ms env) (fun r w => (exists n, r = inr (milli (e_clock env n))) /\ at_service s w).
Proof. intros w Hw. split; [by eexists|done]. Qed.
Lemma query_spec o s {A} (q : authdb -> A) : spec o (at_service s) (query_auth q)
  (fun r w => at_service s w /\ match r with inl e => e = ErrDriver | inr x => x = q (tables_of w) end).
Proof. intros w Hw. unfold query_auth. by destruct (o_io o (w_n w)). Qed.
Lemma exec_spec o s q : stmt_moves quiet q -> spec o (at_service s) (exec_auth q) (fun _ w => at_service s w).
Proof. intros Hq w Hw. unfold at_service. etransitivity; [exact Hw|apply (moves_exec quiet q Hq)]. Qed.

Lemma setupComplete_spec o s : spec o (fun w => svc w = s) setupComplete (fun r w =>
  match r with
  | inl _ => svc w = s
  | inr b => quiet s (svc w) /\ if b : bool then setupDone s = true \/ users (tables s) <> ∅ else svc w = s /\ setupDone s = false /\ users (tables s) = ∅
  end).
Proof.
  intros w Hw. unfold setupComplete. rewrite bind_run. unfold ask, gets. cbv beta iota. rewrite Hw. destruct (setupDone s) eqn:Hd.
  { simpl. rewrite Hw. split; [reflexivity|by left]. }
  unfold CountUsers. rewrite bind_run. unfold query_auth. destruct (o_io o (w_n w)); [|done..].
  unfold tables_of. rewrite Hw. unfold queryCountUsers. destruct (Z.ltb_spec 0 (Z.of_nat (size (users (tables s))))) as [Hc|Hc].
  - assert (Hn : users (tables s) <> ∅) by (intros He; rewrite He, map_size_empty in Hc; lia).
    simpl. unfold svc in *. simpl. rewrite Hw. split; [split; simpl; auto|by right].
  - simpl. change (w_eng w) with (svc w). rewrite Hw. split; [reflexivity|]. split_and!; [done..|]. apply map_size_empty_inv. lia.
Qed.

(** A lookup at the current time, whose miss and whose failure are answered. *)
Lemma lookup_spec o s {A} (q : Z -> authdb -> option A) : spec o (at_service s) (now ← now_ms env; found (query_auth (q now)))
  (fun r w => at_service s w /\ match r with inl _ => True | inr x => exists n w1, at_service s w1 /\ q (milli (e_clock env n)) (tables_of w1) = Some x end).
Proof.
  intros w Hw. unfold now_ms, time_now, found. rewrite !bind_run. set (now := e_clock env (w_n w)). simpl. rewrite !bind_run.
  set (w1 := bump w). assert (Hw1 : at_service s w1) by done. unfold query_auth. destruct (o_io o (w_n w1)); [|done..].
  destruct (q (milli now) (tables_of w1)) as [x|] eqn:Hx; [|done]. split; [done|]. by exists (w_n w), w1.
Qed.

Lemma token_lookup_spec o s hash : spec o (at_service s) (UserByAPITokenHash env hash) (fun r w => at_service s w /\
  match r with inl _ => True
  | inr u => exists n w1 id, at_service s w1 /\ queryUserByAPITokenHash hash (milli (e_clock env n)) (tables_of w1) = Some (id, u) end).
Proof.
  intros w Hw. unfold UserByAPITokenHash, now_ms, time_now, found. rewrite !bind_run. set (now := e_clock env (w_n w)). simpl. rewrite !bind_run.
  set (w1 := bump w). assert (Hw1 : at_service s w1) by done. unfold query_auth. destruct (o_io o (w_n w1)); [|done..].
  destruct (queryUserByAPITokenHash hash (milli now) (tables_of w1)) as [[id u]|] eqn:Hx; [|done].
  rewrite ret_run, bind_run. set (w2 := bump w1). assert (Hw2 : at_service s w2) by done.
  unfold TouchAPIToken, dropping. rewrite bind_run.
  pose proof (exec_spec o s (queryTouchAPIToken id (milli now) (milli now - apiTokenTouchIntervalMS)) (touch_token_quiet _ _ _) w2 Hw2) as Ht.
  simpl in Ht |- *. destruct (exec_auth _ o w2) as [[e|k] w3]; [done|]. split; [done|]. by exists (w_n w), w1, id.
Qed.

(** What a row found under a hash makes of the request. *)
Lemma session_row r value s w1 n id row u : rq_cookie r = Some value -> Authorization r = EmptyString -> at_service s w1 ->
  querySessionByTokenHash (HashToken Sum256 value) (milli (e_clock env n)) (tables_of w1) = Some (id, row, u) ->
  credential r (MkIdentity (S_UserID row) u authMethodSession (CSRFToken row) id) (tables s).
Proof.
  intros Hr Ha Hw Hq. unfold querySessionByTokenHash in Hq. destruct (pick _ _) as [[id' row']|] eqn:Hp; [|done].
  apply pick_Some in Hp as [Hrow Hsel]. simpl in Hq, Hrow, Hsel. destruct (users (tables_of w1) !! S_UserID row') as [u'|] eqn:Hu; [|done].
  injection Hq as -> -> ->. rewrite !andb_true_iff, bool_decide_eq_true in Hsel. destruct Hsel as [[Hh He] Hen].
  unfold enabled_user in Hen. rewrite Hu in Hen. simpl in Hen. eapply credential_quiet; [exact Hw|].
  split; [done|]. split; [done|]. exists n. left. split_and!; [done..|]. exists value, row. split_and!; try done. simpl. lia.
Qed.
Lemma token_row r scheme token s w1 n id u : cut_byte space (Authorization r) = Some (scheme, apiTokenPrefix +:+ token) ->
  EqualFold SimpleFold scheme "Bearer" = true -> at_service s w1 ->
  queryUserByAPITokenHash (HashToken Sum256 (apiTokenPrefix +:+ token)) (milli (e_clock env n)) (tables_of w1) = Some (id, u) ->
  credential r (MkIdentity u.1 u.2 authMethodToken EmptyString EmptyString) (tables s).
Proof.
  intros Hc Hb Hw Hq. unfold queryUserByAPITokenHash in Hq. destruct (pick _ _) as [[id' row]|] eqn:Hp; [|done].
  apply pick_Some in Hp as [Hrow Hsel]. simpl in Hq, Hrow, Hsel. destruct (users (tables_of w1) !! T_UserID row) as [u'|] eqn:Hu; [|done].
  injection Hq as -> <-. rewrite !andb_true_iff, bool_decide_eq_true in Hsel. destruct Hsel as [[Hh Hl] Hen].
  unfold enabled_user in Hen. rewrite Hu in Hen. simpl in Hen. eapply credential_quiet; [exact Hw|].
  split; [done|]. split; [done|]. exists n. right. split; [done|]. exists scheme, token, id, row. by split_and!.
Qed.

Lemma resolveSession_spec o s value r : rq_cookie r = Some value -> Authorization r = EmptyString ->
  hspec o (at_service s) (resolveSession env Sum256 value) (fun a w => at_service s w /\
    match a with inl _ => True | inr i => credential r i (tables s) end).
Proof.
  intros Hr Ha. unfold resolveSession.
  eapply hspec_and_then with (Q1 := fun a w => at_service s w /\ match a with
    | inl _ => True
    | inr row => credential r (MkIdentity (S_UserID row.1.2) row.2 authMethodSession (CSRFToken row.1.2) row.1.1) (tables s) end).
  - eapply hspec_weaken; [apply hspec_answering with (Q := fun x w => at_service s w /\ match x with
      | inl _ => True
      | inr row => credential r (MkIdentity (S_UserID row.1.2) row.2 authMethodSession (CSRFToken row.1.2) row.1.1) (tables s) end)| |].
    + eapply spec_weaken; [apply (lookup_spec o s (querySessionByTokenHash (HashToken Sum256 value)))|done|].
      intros [e|[[id row] u]] w [Hw Hx]; [done|]. split; [done|]. destruct Hx as (n & w1 & Hw1 & Hx). by eapply session_row.
    + done.
    + intros [p|row] w; [|done]. intros (e & _ & Hw & _). by split.
  - done.
  - intros [[id row] u]. eapply hspec_and_then with (Q1 := fun _ w => at_service s w /\ credential r (MkIdentity (S_UserID row) u authMethodSession (CSRFToken row) id) (tables s)).
    + intros w [Hw Hc]. unfold lift. rewrite !bind_run. unfold time_now. simpl. by split.
    + by intros p w [].
    + intros since. eapply hspec_and_then with (Q1 := fun _ w => at_service s w /\ credential r (MkIdentity (S_UserID row) u authMethodSession (CSRFToken row) id) (tables s)).
      * intros w [Hw Hc]. unfold lift. rewrite bind_run. destruct (sessionTouchInterval <=? since); [|by split].
        rewrite bind_run. unfold now_ms, time_now. rewrite bind_run. simpl. unfold ignore, TouchSession, dropping, attempt.
        rewrite !bind_run. set (w' := bump w). assert (Hw' : at_service s w') by done.
        pose proof (exec_spec o s (queryTouchSession id (milli (e_clock env (w_n w)))) (touch_session_quiet _ _) w' Hw') as Ht.
        simpl in Ht. destruct (exec_auth _ o w') as [[e|k] w'']; simpl in *; by split.
      * by intros p w [].
      * intros []. apply hspec_answer. by intros w [].
Qed.

Lemma resolveBearer_spec o s r :
  hspec o (at_service s) (resolveBearer env Sum256 SimpleFold (Authorization r)) (fun a w => at_service s w /\
    match a with inl _ => True | inr i => credential r i (tables s) end).
Proof.
  unfold resolveBearer. destruct (cut_byte space (Authorization r)) as [[scheme token]|] eqn:Hc; simpl default; cbv iota beta.
  2: { rewrite bool_decide_true by done. rewrite orb_true_r. apply hspec_problem. auto. }
  destruct (EqualFold SimpleFold scheme "Bearer") eqn:Hb; [|by apply hspec_problem; auto]. cbn [negb orb].
  case_bool_decide as Hp; [by apply hspec_problem; auto|].
  destruct (drop_prefix apiTokenPrefix token) as [rest|] eqn:Hd; [|done]. apply drop_prefix_Some in Hd as ->.
  set (tok := apiTokenPrefix +:+ rest) in *.
  eapply hspec_and_then with (Q1 := fun a w => at_service s w /\ match a with
    | inl _ => True | inr u => credential r (MkIdentity u.1 u.2 authMethodToken EmptyString EmptyString) (tables s) end).
  - eapply hspec_weaken; [apply hspec_answering with (Q := fun x w => at_service s w /\ match x with
      | inl _ => True
      | inr u => credential r (MkIdentity u.1 u.2 authMethodToken EmptyString EmptyString) (tables s) end)|done|].
    2: { intros [p|u] w; [|done]. intros (e & _ & Hw & _). by split. }
    eapply spec_weaken; [apply token_lookup_spec|done|]. intros [e|u] w [Hw Hx]; [done|]. split; [done|].
    destruct Hx as (n & w1 & id & Hw1 & Hx). by eapply token_row.
  - by intros p w [].
  - intros u. apply hspec_answer. by intros w [].
Qed.

Lemma resolveIdentity_spec o s r :
  hspec o (at_service s) (resolveIdentity env Sum256 SimpleFold r) (fun a w => at_service s w /\
    match a with inl _ => True | inr i => credential r i (tables s) end).
Proof.
  unfold resolveIdentity. case_bool_decide as Ha; [apply resolveBearer_spec|].
  destruct (rq_cookie r) as [value|] eqn:Hr; [by apply resolveSession_spec|]. apply hspec_problem. auto.
Qed.

(** ** The contract *)

(** What a handler is entitled to when it runs with this identity. *)
Definition admitted_as (r : request) (s : service) (identity : option Identity) : Prop :=
  let key := operationKey cfg r in
  match identity with
  | None => key = opAuthSetup \/ key = opAuthLogin /\ (setupDone s = true \/ users (tables s) <> ∅)
  | Some i => (setupDone s = true \/ users (tables s) <> ∅) /\ credential r i (tables s) /\
      originHostMismatch ParseHost SimpleFold r = false /\
      (IdMethod i = authMethodSession -> isMutatingMethod (Method r) = true -> CSRFHeader r = CSRF i /\ CSRF i <> EmptyString)
  end.

Lemma csrfProblem_none r i : csrfProblem ParseHost SimpleFold r i = None -> originHostMismatch ParseHost SimpleFold r = false /\
  (IdMethod i = authMethodSession -> isMutatingMethod (Method r) = true -> CSRFHeader r = CSRF i /\ CSRF i <> EmptyString).
Proof.
  unfold csrfProblem. destruct (originHostMismatch _ _ r); [done|]. intros Hc. split; [done|]. intros Hm Hmut.
  rewrite bool_decide_true, Hmut in Hc by done. simpl in Hc. unfold EqualToken in Hc. case_bool_decide; [done|]. by case_bool_decide.
Qed.

Lemma gate_spec o s r : hspec o (fun w => svc w = s) (gate env cfg Sum256 ParseHost SimpleFold r) (fun a w => quiet s (svc w) /\
  match a with inl _ => True | inr identity => admitted_as r s identity end).
Proof.
  unfold gate, middleware. set (key := operationKey cfg r).
  eapply hspec_and_then with (Q1 := fun a w => quiet s (svc w) /\ match a with
    | inl _ => True | inr b => b = true -> key = opAuthSetup \/ setupDone s = true \/ users (tables s) <> ∅ end).
  - case_bool_decide as Hk.
    + apply hspec_answer. intros w ->. split; [reflexivity|auto].
    + eapply hspec_weaken; [apply hspec_answering, (setupComplete_spec o s)|intros w0 Hw0; exact Hw0|]. intros [p|b] w; simpl.
      * intros (e & _ & ->). split; [reflexivity|done].
      * intros [Hq Hb]. split; [done|]. intros ->. by right.
  - done.
  - intros []; simpl; [|by apply hspec_problem; intros w []]. destruct (bool_decide (key = opAuthSetup) || bool_decide (key = opAuthLogin)) eqn:Hx.
    + apply hspec_answer. intros w [Hq Hk]. split; [done|]. unfold admitted_as. fold key. specialize (Hk eq_refl).
      apply orb_true_iff in Hx as [Hx|Hx]; apply bool_decide_eq_true in Hx; [by left|]. right. split; [done|].
      destruct Hk as [Hk|]; [|done]. by rewrite Hx in Hk.
    + apply orb_false_iff in Hx as [Hx _]. apply bool_decide_eq_false in Hx.
      eapply hspec_and_then with (Q1 := fun a w => quiet s (svc w) /\ match a with inl _ => True
        | inr i => (setupDone s = true \/ users (tables s) <> ∅) /\ credential r i (tables s) end).
      * intros w [Hq Hk]. destruct (Hk eq_refl) as [?|Hk']; [done|].
        pose proof (resolveIdentity_spec o s r w Hq) as Hi. simpl in Hi. destruct (resolveIdentity _ _ _ _ o w) as [[e|[p|i]] w']; simpl in *; tauto.
      * by intros p w [].
      * intros i. destruct (csrfProblem _ _ r i) eqn:Hc; [by apply hspec_problem; intros w []|]. apply hspec_answer. intros w (Hq & Hd & Hi). split; [done|].
        apply csrfProblem_none in Hc as [Ho Hc]. by split_and!.
Qed.

(** C24: Whatever the driver answers, a request either is refused at the gate -
    nothing written but usage stamps - or runs its handler: the first-run
    setup; the login, once an account exists; and any other route only with
    an account, with the cookie of an unexpired session or an unrevoked,
    unexpired token of an enabled user, from the request's own host, and for
    a mutation by cookie with that session's synchroniser token. *)
Theorem gate_admits {A} (next : option Identity -> H A) r o w :
  (exists p w', middleware env cfg Sum256 ParseHost SimpleFold next r o w = (inr (inl p), w') /\ quiet (svc w) (svc w')) \/
  (exists identity w', middleware env cfg Sum256 ParseHost SimpleFold next r o w = next identity o w' /\
     quiet (svc w) (svc w') /\ admitted_as r (svc w) identity).
Proof.
  pose proof (gate_spec o (svc w) r w eq_refl) as Hg. rewrite middleware_gate. unfold and_then at 1 2. rewrite !bind_run.
  destruct (gate _ _ _ _ _ r o w) as [[e|[p|i]] w']; simpl in Hg; [done|..]; destruct Hg as [Hq Ha].
  - left. by exists p, w'.
  - right. by exists i, w'.
Qed.
End Gate.
