(* ===== verification/AuthTheorems.v ===== *)
(** * Accounts, logins and a session

    What the handlers of [AuthHandlers] guarantee over histories of requests. *)

From stdpp Require Import fin_maps.
From stdpp Require Import fin_maps pretty.
From S2P Require Import Prelude GoStrings TaskState Schema Lease World Frame SafeJoin Manifest Hash Throttle ThrottleProps Password Auth AuthHandlers AuthProps AuthGate.

Open Scope Z_scope.

Definition accounts_of (s : service) : gset string := dom (users (tables s)).
Definition same_accounts (s s' : service) : Prop := accounts_of s' = accounts_of s.
#[global] Instance same_accounts_pre : PreOrder same_accounts.
Proof. split; [done|intros u v w; unfold same_accounts; congruence]. Qed.

Lemma touch_dom {A} id guard (f : A -> A) m : dom (touch id guard f m).1 = dom m.
Proof.
  unfold touch. destruct (m !! id) as [x|] eqn:Hx; [|done]. destruct (guard x); [|done]. simpl.
  rewrite dom_insert_L. apply subseteq_union_1_L, singleton_subseteq_l. apply elem_of_dom. by exists x.
Qed.

Lemma update_user_accounts id f : stmt_moves same_accounts (update_user id f).
Proof.
  intros s d k. unfold update_user. pose proof (touch_dom id always_true f (users (tables s))) as Ht.
  destruct (touch _ _ _ _) as [m n]. by intros [= <- _].
Qed.
Lemma keep_users_accounts q : (forall d d' k, q d = Some (d', k) -> users d' = users d) -> stmt_moves same_accounts q.
Proof. intros Hq s d k Hd. unfold same_accounts, accounts_of. simpl. by erewrite Hq. Qed.

Ltac users_kept := apply keep_users_accounts; intros ? ? ?; unfold queryCreateSession, queryTouchSession, queryDeleteSession,
  delete_sessions, queryDeleteOtherSessions, queryTouchAPIToken, queryCreateAPIToken, queryRevokeAPIToken;
  repeat case_match; by intros [= <- _].

Lemma profile_accounts id name locale now : stmt_moves same_accounts (queryUpdateUserProfile id name locale now).
Proof.
  intros s d k. unfold queryUpdateUserProfile. destruct (_ && _); [done|]. apply update_user_accounts.
Qed.

Lemma create_session_users id row d d' k : queryCreateSession id row d = Some (d', k) -> users d' = users d.
Proof. unfold queryCreateSession. case_match; [done|]. by intros [= <- _]. Qed.

Section Accounts.
Context (env : environment) (cfg : Config) (Sum256 : list Z -> list Z)
  (IDKey : list Z -> list Z -> Z -> Z -> Z -> Z -> list Z) (ParseHost : string -> option string) (SimpleFold : Z -> Z -> bool).
Abbreviation handler := (handler env cfg Sum256 IDKey).
Abbreviation serve := (serve env cfg Sum256 IDKey ParseHost SimpleFold).

Ltac accounts_walk := moves_walk; first [by apply update_user_accounts|by apply profile_accounts|users_kept|done|idtac].

Lemma handler_accounts r c i : (forall input, c <> CallSetup input) -> always (moves same_accounts) (handler r c i).
Proof.
  intros Hc. destruct c as [input|name password| | | |input|name expiresAt|id|]; [by destruct (Hc input)| | | | | | | |]; cbn [AuthHandlers.handler].
  all: try unfold handleLogin, handleLogout, handleMe, GetAccount, PatchAccount, Create, Revoke.
  all: accounts_walk.
Qed.

(** ** The one account *)

(** Up to the insert the setup changes neither the accounts nor the token. *)
Definition waiting (s s' : service) : Prop := users (tables s') = users (tables s) /\ setupToken s' = setupToken s.
#[global] Instance waiting_pre : PreOrder waiting.
Proof. split; [done|]. intros u v w [] []. split; congruence. Qed.
(** After it the users are left alone. *)
Definition same_users (s s' : service) : Prop := users (tables s') = users (tables s).
#[global] Instance same_users_pre : PreOrder same_users.
Proof. split; [done|]. intros u v w. unfold same_users. congruence. Qed.

(** What a setup that created the account leaves. *)
Definition founded (input : setupInput) (s s' : service) : Prop :=
  setupDone s = false /\ users (tables s) = ∅ /\ SI_SetupToken input = setupToken s /\
  exists id u salt, users (tables s') = {[id := u]} /\ Username u = SI_Username input /\ Enabled u = true /\
    PasswordHash u = string_of (HashPassword IDKey salt (bytes_of (SI_Password input))).

Lemma pick_empty {A} (sel : A -> bool) : pick sel ∅ = None.
Proof. unfold pick. by rewrite map_to_list_empty. Qed.

Lemma CreateUser_spec o id u s : users (tables s) = ∅ -> spec o (fun w => waiting s (svc w)) (CreateUser env id u) (fun r w =>
  (exists u', users (tables_of w) = {[id := u']} /\ Username u' = Username u /\ Enabled u' = Enabled u /\ PasswordHash u' = PasswordHash u) \/
  match r with inl _ => waiting s (svc w) | inr _ => False end).
Proof.
  intros He w Hw. unfold CreateUser, now_ms, time_now, dropping. rewrite !bind_run. simpl. rewrite !bind_run. unfold exec_auth, queryCreateUser. set (w1 := bump w).
  assert (Hu : users (tables_of w1) = ∅) by (rewrite <- He; apply Hw). rewrite Hu, lookup_empty, pick_empty. rewrite !bool_decide_false by (by intros []). simpl.
  destruct (o_io o (S (w_n w))); simpl; [left|right; exact Hw|left]; eexists; unfold tables_of, svc; simpl; by rewrite <- insert_empty.
Qed.

Lemma handleSetup_founds o s r input : hspec o (fun w => svc w = s) (handleSetup env cfg Sum256 IDKey r input)
  (fun _ w => same_accounts s (svc w) \/ founded input s (svc w)).
Proof.
  unfold handleSetup. set (Q := fun (_ : authProblem + (Cookie * authEnvelope)) w => same_accounts s (svc w) \/ founded input s (svc w)).
  assert (Hstay : forall a w, waiting s (svc w) -> Q a w).
  { intros a w [Hu _]. left. unfold same_accounts, accounts_of. by rewrite Hu. }
  eapply hspec_and_then; [eapply hspec_weaken; [apply hspec_answering, (setupComplete_spec o s)|intros w0 Hw0; exact Hw0|intros a w Ha; exact Ha]| |].
  { intros p w (e & _ & Hw). left. simpl in Hw. by rewrite Hw. }
  intros [|]; [apply hspec_problem; intros w [Hq _]; left; unfold same_accounts, accounts_of; by rewrite (qt_users _ _ Hq)|].
  simpl. eapply hspec_weaken with (P := fun w => waiting s (svc w) /\ (setupDone s = false /\ users (tables s) = ∅)) (Q := Q);
    [|intros w (_ & -> & Hd & Hu); by split_and!|done].
  apply hspec_pure. intros [Hd Hu].
  apply (hspec_lift_moves o waiting s) with (F := fun _ => True); [apply moves_time; apply _|by eexists|]. intros now _.
  eapply hspec_and_then with (Q1 := fun _ w => waiting s (svc w)).
  { intros w Hw. unfold not_limited, check_source, throttled. rewrite !bind_run. simpl. by destruct (checkSource _ _ _) as [[wait|] t]. }
  { by intros; apply Hstay. }
  intros _. apply (hspec_lift_moves o waiting s) with (F := fun t => t = setupToken s); [apply moves_ask; apply _| |].
  { intros w [_ Ht]. by eexists. }
  intros token ->. unfold EqualToken. case_bool_decide as Htok; simpl negb; cbv iota; [|by apply hspec_problem; intros w Hw; apply Hstay].
  apply (hspec_step_moves o waiting s) with (F := fun h => exists salt, h = string_of (HashPassword IDKey salt (bytes_of (SI_Password input)))).
  { moves_walk. } { intros w x Hw. unfold hash_password. rewrite bind_run. destruct (rand_read _ _ o w) as [[e|salt] w']; [done|].
    intros [= <-]. by eexists. } { by intros; apply Hstay. }
  intros hash [salt ->]. apply (hspec_lift_moves o waiting s) with (F := fun _ => True); [apply moves_NewID; apply _|by eexists|]. intros id _.
  set (u := MkUser _ _ _ _ _ _ _) at 1.
  eapply hspec_and_then with (Q1 := fun a w => founded input s (svc w) \/ match a with inl _ => waiting s (svc w) | inr _ => False end).
  - eapply hspec_weaken; [apply hspec_answering, (CreateUser_spec o id u s Hu)|done|].
    intros [p|x] w; [intros (e & _ & Hx)|intros Hx]; (destruct Hx as [(u' & H1 & H2 & H3 & H4)|Hx]; [left|by right]);
      (split_and!; [done..|]; by exists id, u', salt).
  - intros p w [Hf|Hw]; [by right|by apply Hstay].
  - intros []. eapply hspec_weaken with (P := fun w => founded input s (svc w)) (Q := Q); [|by intros w [?|[]]|done].
    apply (hspec_ends o same_users _ (founded input s)); [|replies_walk|].
    + moves_walk; try (by intros d k Hs; eapply create_session_users); done.
    + intros a w w' Hf Hs. right. unfold founded in *. by rewrite Hs.
Qed.

(** ** Theorems *)

Lemma quiet_accounts s s' : quiet s s' -> same_accounts s s'.
Proof. intros Hq. unfold same_accounts, accounts_of. by rewrite (qt_users _ _ Hq). Qed.

Lemma quiet_founded input s s' s'' : quiet s s' -> founded input s' s'' -> founded input s s''.
Proof.
  intros Hq (Hd & Hu & Ht & Hf). split_and!; [|by rewrite <- (qt_users _ _ Hq)|by rewrite <- (qt_token _ _ Hq)|done].
  destruct (qt_done _ _ Hq) as [He|[He _]]; congruence.
Qed.

Lemma serve_accounts r c o w : same_accounts (svc w) (svc (serve r c o w).2) \/
  exists input, c = CallSetup input /\ founded input (svc w) (svc (serve r c o w).2).
Proof.
  unfold AuthHandlers.serve. destruct (gate_admits env cfg Sum256 ParseHost SimpleFold (handler r c) r o w)
    as [(p & w' & He & Hq)|(i & w' & He & Hq & Hi)]; rewrite He; [left; by apply quiet_accounts|].
  destruct (match c with CallSetup input => Some input | _ => None end) as [input|] eqn:Hc.
  - assert (c = CallSetup input) as -> by (destruct c; by simplify_eq).
    pose proof (handleSetup_founds o (svc w') r input w' eq_refl) as Hs. unfold AuthHandlers.handler, and_then. rewrite bind_run.
    destruct (handleSetup _ _ _ _ r input o w') as [[e|a] w'']; simpl in Hs; [done|].
    assert (Hend : same_accounts (svc w) (svc w'') \/ exists input', CallSetup input = CallSetup input' /\ founded input' (svc w) (svc w'')).
    { destruct Hs as [Hs|Hs]; [left|right; exists input; split; [done|by eapply quiet_founded]].
      etransitivity; [by eapply quiet_accounts|done]. }
    by destruct a.
  - left. assert (Hn : forall input, c <> CallSetup input) by (intros input ->; done).
    pose proof (handler_accounts r c i Hn o w') as Hs. etransitivity; [by eapply quiet_accounts|exact Hs].
Qed.

(** Requests one after the other; what runs concurrently shares the clock and
    the driver's answers. *)
Fixpoint serve_all (l : list (request * call)) (o : oracle) (w : world) : world :=
  match l with [] => w | q :: l => serve_all l o (serve q.1 q.2 o w).2 end.

Lemma accounts_settled l o w : accounts_of (svc w) <> ∅ -> accounts_of (svc (serve_all l o w)) = accounts_of (svc w).
Proof.
  revert w. induction l as [|[r c] l IH]; intros w Hn; [done|]. simpl.
  destruct (serve_accounts r c o w) as [Hs|(input & _ & _ & Hu & _)]; [by rewrite IH; rewrite Hs|].
  destruct Hn. unfold accounts_of. by rewrite Hu, dom_empty_L.
Qed.

(** C25: Whatever requests arrive and whatever the driver and the file system
    answer, there is never a second account: the accounts stay what they
    were, or - when there was none - one is created, by a setup that
    presented the token the service held, for the name and password of that
    request. *)
Theorem account_founded_once l o w : accounts_of (svc (serve_all l o w)) = accounts_of (svc w) \/
  accounts_of (svc w) = ∅ /\ exists l1 r input l2 id, l = l1 ++ (r, CallSetup input) :: l2 /\
    accounts_of (svc (serve_all l1 o w)) = ∅ /\ SI_SetupToken input = setupToken (svc (serve_all l1 o w)) /\
    founded input (svc (serve_all l1 o w)) (svc (serve_all (l1 ++ [(r, CallSetup input)]) o w)) /\
    accounts_of (svc (serve_all l o w)) = {[id]}.
Proof.
  destruct (decide (accounts_of (svc w) = ∅)) as [He|Hn]; [|left; by apply accounts_settled].
  revert w He. induction l as [|[r c] l IH]; intros w He; [by left|]. simpl.
  destruct (serve_accounts r c o w) as [Hs|(input & -> & Hf)].
  - rewrite <- Hs. destruct (IH (serve r c o w).2) as [Hx|(_ & l1 & r' & input & l2 & id & -> & Hx)]; [by rewrite Hs|by left|].
    right. split; [by rewrite Hs|]. by exists ((r, c) :: l1), r', input, l2, id.
  - right. split; [done|]. pose proof Hf as (_ & _ & Ht & id & u & _ & Hu & _).
    assert (Ha : accounts_of (svc (serve r (CallSetup input) o w).2) = {[id]}) by (unfold accounts_of; by rewrite Hu, dom_singleton_L).
    exists [], r, input, l, id. split_and!; [done..|]. rewrite accounts_settled; [done|]. rewrite Ha. set_solver.
Qed.
End Accounts.

(** * Authentication: the login, the sessions and the password change
 *)

(** ** One name, one ladder *)

Lemma lower_high lo hi b : 128 <= lo -> between lo hi (lower_byte b) = between lo hi b.
Proof. unfold lower_byte, between. intros Hlo. destruct ((65 <=? b) && (b <=? 90)) eqn:Hb; [|done]. lia. Qed.
Lemma lower_eq c b : 128 <= c -> (lower_byte b =? c) = (b =? c).
Proof. unfold lower_byte, between. intros Hlo. destruct ((65 <=? b) && (b <=? 90)) eqn:Hb; [|done]. lia. Qed.
Lemma lower_ascii b : (lower_byte b <? 128) = (b <? 128).
Proof. unfold lower_byte, between. destruct ((65 <=? b) && (b <=? 90)) eqn:Hb; [|done]. lia. Qed.
Lemma lower_above b : (b <? 128) = false -> lower_byte b = b.
Proof. unfold lower_byte, between. intros Hb. destruct ((65 <=? b) && (b <=? 90)) eqn:He; [|done]. lia. Qed.

Lemma two_ok_lower a b : two_ok (lower_byte a) (lower_byte b) = two_ok a b.
Proof. unfold two_ok, tail_byte. fold (between 128 191 b). fold (between 128 191 (lower_byte b)). by rewrite !lower_high. Qed.
Lemma three_ok_lower a b c : three_ok (lower_byte a) (lower_byte b) (lower_byte c) = three_ok a b c.
Proof. unfold three_ok, tail_byte. fold (between 128 191 b) (between 128 191 c) (between 128 191 (lower_byte b)) (between 128 191 (lower_byte c)). by rewrite !lower_high, !lower_eq. Qed.
Lemma four_ok_lower a b c d : four_ok (lower_byte a) (lower_byte b) (lower_byte c) (lower_byte d) = four_ok a b c d.
Proof.
  unfold four_ok, tail_byte. fold (between 128 191 b) (between 128 191 c) (between 128 191 d)
    (between 128 191 (lower_byte b)) (between 128 191 (lower_byte c)) (between 128 191 (lower_byte d)). by rewrite !lower_high, !lower_eq.
Qed.

Lemma tail_high b : tail_byte b = true -> (b <? 128) = false.
Proof. unfold tail_byte. lia. Qed.

(** Folding leaves every rune outside ASCII alone. *)
Lemma runes_lower l : runes (lower_byte <$> l) = lower_byte <$> runes l.
Proof.
  unfold runes. remember (length l) as n eqn:Hn. revert l Hn. induction (lt_wf n) as [n _ IH]. intros l ->.
  destruct l as [|a l]; [done|]. assert (Hrec : forall k, (length k <= length l)%nat ->
    default RuneError <$> (chunks (lower_byte <$> k)).*1 = lower_byte <$> (default RuneError <$> (chunks k).*1)).
  { intros k Hk. apply (IH (length k)); [simpl; lia|done]. }
  rewrite fmap_cons. cbn [chunks]. rewrite lower_ascii. destruct (a <? 128) eqn:Ha; [rewrite !fmap_cons; simpl; f_equal; by apply Hrec|].
  assert (Hbad : default RuneError <$> ((None, [lower_byte a]) :: chunks (lower_byte <$> l)).*1 = lower_byte <$> (default RuneError <$> ((None, [a]) :: chunks l).*1)).
  { rewrite !fmap_cons. f_equal. by apply Hrec. }
  destruct l as [|b l]; [done|]. rewrite fmap_cons. rewrite two_ok_lower.
  destruct (two_ok a b) eqn:H2.
  { rewrite !fmap_cons. simpl. f_equal; [|apply Hrec; simpl; lia]. unfold two_ok, tail_byte, between in H2.
    rewrite (lower_above a Ha), (lower_above b) by lia. symmetry. apply lower_above. lia. }
  destruct l as [|c l]; [done|]. rewrite fmap_cons. rewrite three_ok_lower. destruct (three_ok a b c) eqn:H3.
  { rewrite !fmap_cons. simpl. f_equal; [|apply Hrec; simpl; lia]. unfold three_ok, tail_byte, between in H3.
    rewrite (lower_above a Ha), (lower_above b), (lower_above c) by lia. symmetry. apply lower_above. lia. }
  destruct l as [|d l]; [done|]. rewrite fmap_cons. rewrite four_ok_lower. destruct (four_ok a b c d) eqn:H4; [|done].
  rewrite !fmap_cons. simpl. f_equal; [|apply Hrec; simpl; lia]. unfold four_ok, tail_byte, between in H4.
  rewrite (lower_above a Ha), (lower_above b), (lower_above c), (lower_above d) by lia. symmetry. apply lower_above. lia.
Qed.

Lemma accountKey_runes l : accountKey l = concat (encode_rune <$> (lower_byte <$> runes l)).
Proof.
  unfold accountKey, Map. f_equal.
Qed.
Lemma lower_twice b : lower_byte (lower_byte b) = lower_byte b.
Proof. unfold lower_byte, between. destruct ((65 <=? b) && (b <=? 90)) eqn:Hb; [|by rewrite Hb]. assert ((65 <=? b + 32) && (b + 32 <=? 90) = false) as -> by lia. done. Qed.

(** Two spellings that the users table takes for one account climb one
    ladder. *)
Theorem spellings_share_the_ladder a b : same_name a b = true -> accountKey (bytes_of a) = accountKey (bytes_of b).
Proof.
  unfold same_name, nocase. rewrite bool_decide_eq_true. intros Hn.
  assert (Hk : forall l, accountKey (lower_byte <$> l) = accountKey l).
  { intros l. rewrite !accountKey_runes, runes_lower. f_equal. f_equal. rewrite <- list_fmap_compose. apply list_fmap_ext. intros i x _. apply lower_twice. }
  by rewrite <- Hk, Hn, Hk.
Qed.

Section Login.
Context (env : environment) (cfg : Config) (Sum256 : list Z -> list Z)
  (IDKey : list Z -> list Z -> Z -> Z -> Z -> Z -> list Z).
Abbreviation handleLogin := (handleLogin env cfg Sum256 IDKey).
Abbreviation verify_password := (verify_password IDKey).

(** ** Refusals *)

(** The login is not accepted: an unknown name, a wrong password, a disabled
    account. *)
Definition not_accepted (name password : string) (d : authdb) : Prop :=
  match queryUserByUsername name d with
  | None => True
  | Some (_, u) => exists ok needsRehash, verify_password (PasswordHash u) password = Some (ok, needsRehash) /\ ok && Enabled u = false
  end.

Definition with_tables (d : authdb) (w : world) : world := set_eng (set_tables d (svc w)) w.

(** A refused login, without the tables. *)
Definition refusal (r : request) (name : string) : H (Cookie * authEnvelope) :=
  now <~ lift (time_now env);
  _ <~ not_limited (check_source (PeerIP r) now);
  _ <~ not_limited (check_account name now);
  _ <~ or_internal (query_auth (fun _ => tt));
  loginRejected name now.

Lemma refused_run r name password o d w : not_accepted name password d ->
  handleLogin r name password o (with_tables d w) = let (a, w') := refusal r name o w in (a, with_tables d w').
Proof.
  intros Hd. unfold AuthHandlers.handleLogin, refusal, lift, not_limited, check_source, check_account, throttled, and_then, answer_with, answer_problem.
  rewrite !bind_run. unfold time_now at 1 2. rewrite !ret_run, !bind_run. simpl.
  destruct (checkSource _ _ _) as [[wait|] t1]; [done|]. simpl. rewrite !bind_run. simpl.
  destruct (checkAccount _ _ _) as [[wait|] t2]; [done|]. simpl. rewrite !bind_run.
  unfold UserByUsername, found, attempt, or_internal, answering, query_auth. rewrite !bind_run. unfold attempt. simpl.
  destruct (o_io o (S (w_n w))); [|done..]. unfold tables_of. simpl. unfold not_accepted in Hd. rewrite ?bind_run.
  destruct (queryUserByUsername name d) as [[id u]|]; simpl; [|done].
  destruct Hd as (ok & nr & -> & Ho). by destruct ok, (Enabled u).
Qed.

(** A refused login tells nothing apart: over any two sets of tables that do
    not accept it - the name unknown in one, the password wrong or the account
    disabled in the other - the client gets the same answer, the throttle
    moves the same way, and neither table is written. *)
Theorem refusals_look_alike r name password o w d1 d2 :
  not_accepted name password d1 -> not_accepted name password d2 ->
  let run d := handleLogin r name password o (with_tables d w) in
  (run d1).1 = (run d2).1 /\ throttle (svc (run d1).2) = throttle (svc (run d2).2) /\
  tables_of (run d1).2 = d1 /\ tables_of (run d2).2 = d2 /\ w_n (run d1).2 = w_n (run d2).2.
Proof.
  intros H1 H2. cbv beta zeta. rewrite (refused_run r name password o d1 w H1), (refused_run r name password o d2 w H2).
  by destruct (refusal r name o w) as [a w'].
Qed.

(** ** Acceptance *)

Lemma tables_svc w w' : svc w' = svc w -> tables_of w' = tables_of w.
Proof. unfold tables_of. by intros ->. Qed.

(** A session issued: one new row, under the hash of the value the client
    gets and no other row has. *)
Lemma issueSession_inv userID u now o w e cookie w' : issueSession env cfg Sum256 userID u now o w = (inr (inr (e, cookie)), w') ->
  exists sid, let row := MkSession userID (HashToken Sum256 cookie) (AE_CSRFToken e) (milli (now + SessionTTL cfg)) (milli now) in
    sessions (tables_of w) !! sid = None /\ is_Some (users (tables_of w) !! userID) /\
    (forall id x, sessions (tables_of w) !! id = Some x -> S_TokenHash x <> S_TokenHash row) /\
    tables_of w' = set_sessions (<[sid := row]> (sessions (tables_of w))) (tables_of w) /\ AE_User e = newUserBody userID u.
Proof.
  unfold issueSession. intros (value & w1 & H1%answering_inv%NewToken_inv & Hk)%and_then_inv.
  apply and_then_inv in Hk as (csrf & w2 & H2%answering_inv%NewToken_inv & Hk).
  apply and_then_inv in Hk as (sid & w3 & H3%lift_inv%NewID_inv & Hk).
  apply and_then_inv in Hk as ([] & w4 & H4%answering_inv & Hk). injection Hk as <- <- <-.
  unfold CreateSession in H4. apply bind_inv in H4 as (t & w5 & H5%now_inv & (k & H4)%dropping_inv).
  apply exec_inv in H4 as (d & Hq & Hs). assert (Ht : tables_of w5 = tables_of w) by (apply tables_svc; congruence).
  rewrite Ht in Hq. unfold queryCreateSession in Hq. destruct (_ || _) eqn:Hc; [done|]. rewrite !orb_false_iff, negb_false_iff in Hc.
  destruct Hc as [[Hn Hu] Hp]. apply bool_decide_eq_false in Hn, Hp. apply bool_decide_eq_true in Hu.
  injection Hq as <- _. exists sid. cbn [AE_CSRFToken AE_User S_TokenHash S_UserID]. split_and!; [by apply eq_None_not_Some|exact Hu| | |done].
  - intros id x Hx. destruct (pick _ _) as [p|] eqn:Hpk; [by destruct Hp|].
    pose proof (pick_None _ _ Hpk id x Hx) as Hb. simpl in Hb. by apply bool_decide_eq_false in Hb.
  - unfold tables_of at 1. by rewrite Hs.
Qed.

(** What a fresh session row answers to: its own cookie, until it expires. *)
Lemma fresh_session_found d sid row t u : sessions d !! sid = Some row -> users d !! S_UserID row = Some u -> Enabled u = true ->
  (forall id x, sessions d !! id = Some x -> S_TokenHash x = S_TokenHash row -> id = sid) ->
  querySessionByTokenHash (S_TokenHash row) t d = if t <? S_ExpiresAt row then Some (sid, row, u) else None.
Proof.
  intros Hr Hu He Huniq. unfold querySessionByTokenHash.
  destruct (pick _ _) as [[id x]|] eqn:Hp.
  - apply pick_Some in Hp as [Hx Hs]. simpl in Hx, Hs. rewrite !andb_true_iff, bool_decide_eq_true in Hs. destruct Hs as [[Hh Ht] _].
    pose proof (Huniq id x Hx Hh) as ->. rewrite Hr in Hx. injection Hx as <-. rewrite Ht. simpl. by rewrite Hu.
  - pose proof (pick_None _ _ Hp sid row Hr) as Hs. simpl in Hs. rewrite bool_decide_true in Hs by done.
    unfold enabled_user in Hs. rewrite Hu in Hs. simpl in Hs. rewrite He, andb_true_r in Hs. by rewrite Hs.
Qed.

Lemma rejected_inv {A} name now o w (y : A) w' : loginRejected name now o w = (inr (inr y), w') -> False.
Proof. unfold loginRejected. by intros (? & ? & _ & Hk)%bind_inv. Qed.

(** A login that succeeds had the password: the account has that name, is
    enabled, and its stored hash verifies.  The cookie it hands out resolves
    to that account with the synchroniser token of the body until the session
    expires, and no longer. *)
Theorem login_opens_a_session r name password o w c e w' :
  handleLogin r name password o w = (inr (inr (c, e)), w') ->
  exists u sid row needsRehash, users (tables_of w') !! UB_ID (AE_User e) = Some u /\ same_name (Username u) name = true /\ Enabled u = true /\
    verify_password (PasswordHash u) password = Some (true, needsRehash) /\ CSRFToken row = AE_CSRFToken e /\
    forall t, querySessionByTokenHash (HashToken Sum256 (C_Value c)) t (tables_of w') =
      if t <? S_ExpiresAt row then Some (sid, row, u) else None.
Proof.
  unfold AuthHandlers.handleLogin. intros (now & w1 & H1%lift_inv%time_inv & Hk)%and_then_inv.
  apply and_then_inv in Hk as ([] & w2 & H2%not_limited_inv & Hk). apply and_then_inv in Hk as ([] & w3 & H3%not_limited_inv & Hk).
  apply bind_inv in Hk as (user & w4 & H4 & Hk). unfold attempt in H4. destruct (UserByUsername name o w3) as [ru w5] eqn:Hu. injection H4 as <- <-.
  destruct ru as [er|[id u]]; [destruct (errors_is er ErrNotFound); [by apply rejected_inv in Hk|done]|].
  apply found_inv in Hu as [Hu Hs5]. destruct (verify_password (PasswordHash u) password) as [[ok nr]|] eqn:Hv; [|done].
  destruct ok; [|by apply rejected_inv in Hk].
  destruct (Enabled u) eqn:He; [|by apply rejected_inv in Hk].
  simpl negb in Hk. cbn [orb] in Hk. apply and_then_inv in Hk as (v6 & w6 & H6 & Hk). apply lift_inv in H6. unfold record_success in H6. apply throttled_inv in H6.
  apply and_then_inv in Hk as ([] & w7 & H7%answering_inv & Hk). unfold TouchLastLogin in H7. apply dropping_inv in H7 as (k & H7).
  apply exec_inv in H7 as (d & Hq & Hs7). apply and_then_inv in Hk as ([e' cookie] & w8 & H8 & Hk). injection Hk as <- <- <-.
  apply issueSession_inv in H8 as (sid & Hnone & _ & Huniq & Ht8 & Hbody). apply pick_Some in Hu as [Hrow Hname]. simpl in Hrow, Hname.
  assert (Hrow6 : users (tables_of w6) !! id = Some u) by (rewrite H6; apply tables_svc in Hs5; by rewrite Hs5).
  unfold queryTouchLastLogin, update_user, touch in Hq. rewrite Hrow6 in Hq. simpl in Hq. injection Hq as <- _.
  set (u' := MkUser _ _ _ _ (Some (milli now)) _ _) in *.
  assert (Ht7 : tables_of w7 = set_users (<[id := u']> (users (tables_of w6))) (tables_of w6)) by (unfold tables_of at 1; by rewrite Hs7).
  rewrite Ht7 in *. rewrite Hbody, Ht8. cbn [UB_ID newUserBody users sessions set_sessions set_users] in *. rewrite lookup_insert_eq.
  set (row := MkSession _ _ _ _ _) in *. exists u', sid, row, nr. split_and!; try done.
  intros t. apply (fresh_session_found _ sid row t u'); [by apply lookup_insert_eq|by apply lookup_insert_eq|done|].
  intros i x Hx Hh. cbn [sessions set_sessions set_users] in Hx. apply lookup_insert_Some in Hx as [[<- <-]|[_ Hx]]; [done|]. by destruct (Huniq i x Hx).
Qed.

(** ** The password change *)

Abbreviation PatchAccount := (PatchAccount env IDKey).

(** Of the account's sessions only the caller's may be left. *)
Definition evicted (userID except : string) (d : authdb) : Prop :=
  forall id x, sessions d !! id = Some x -> S_UserID x = userID -> id = except.

(** The passwords, the sessions and the tokens are as they were. *)
Record same_secrets (s s' : service) : Prop := {
  ss_hash : forall id, PasswordHash <$> users (tables s') !! id = PasswordHash <$> users (tables s) !! id;
  ss_sessions : sessions (tables s') = sessions (tables s);
  ss_tokens : api_tokens (tables s') = api_tokens (tables s) }.
#[global] Instance same_secrets_pre : PreOrder same_secrets.
Proof.
  split; [by intros s; split|]. intros s t u [H1 H2 H3] [G1 G2 G3]. split; [|congruence..]. intros id. by rewrite G1.
Qed.

(** A password change under way: every other session of the account is gone,
    and no hash but the account's has moved. *)
Record changing (i : Identity) (password : string) (s s' : service) : Prop := {
  ch_evicted : evicted (UserID i) (SessionID i) (tables s');
  ch_sessions : sessions (tables s') ⊆ sessions (tables s);
  ch_tokens : api_tokens (tables s') = api_tokens (tables s);
  ch_hash : forall id, PasswordHash <$> users (tables s') !! id = PasswordHash <$> users (tables s) !! id \/
    id = UserID i /\ exists salt, PasswordHash <$> users (tables s') !! id = Some (string_of (HashPassword IDKey salt (bytes_of password))) }.

Definition entitled (input : patchInput) (i : Identity) (password : string) : Prop :=
  PI_Password input = Some password /\ exists current needsRehash, PI_CurrentPassword input = Some current /\
    verify_password (PasswordHash (IdUser i)) current = Some (true, needsRehash).

Definition patched (input : patchInput) (i : Identity) (s s' : service) : Prop :=
  same_secrets s s' \/ exists password, entitled input i password /\ changing i password s s'.

Lemma touch_hash id (f : User -> User) m : (forall u, PasswordHash (f u) = PasswordHash u) ->
  forall j, PasswordHash <$> (touch id always_true f m).1 !! j = PasswordHash <$> m !! j.
Proof.
  intros Hf j. unfold touch. destruct (m !! id) as [u|] eqn:Hu; [|done]. simpl.
  destruct (decide (id = j)) as [<- |Hne]; [by rewrite lookup_insert_eq, Hu; simpl; rewrite Hf|by rewrite lookup_insert_ne].
Qed.

Lemma profile_secrets id name locale now : stmt_moves same_secrets (queryUpdateUserProfile id name locale now).
Proof.
  intros s d k. unfold queryUpdateUserProfile, update_user. destruct (_ && _); [done|].
  match goal with |- context [touch id ?g ?f ?m] => pose proof (touch_hash id f m ltac:(done)) as Ht; destruct (touch id g f m) as [m' n] end.
  intros [= <- _]. by split.
Qed.

(** The eviction. *)
Lemma evicting o s i : spec o (fun w => same_secrets s (svc w)) (DeleteOtherSessions (UserID i) (SessionID i)) (fun r w =>
  (forall password, changing i password s (svc w)) \/ match r with inl _ => same_secrets s (svc w) | inr _ => False end).
Proof.
  intros w [Hh Hs Ht]. unfold DeleteOtherSessions, exec_auth, queryDeleteOtherSessions, delete_sessions.
  assert (Hgone : forall w', svc w' = set_tables (set_sessions (filter (fun p => (bool_decide (S_UserID p.2 = UserID i) && negb (bool_decide (p.1 = SessionID i))) = false)
    (sessions (tables_of w))) (tables_of w)) (svc w) -> forall password, changing i password s (svc w')).
  { intros w' -> password. split; cbn [set_tables tables set_sessions sessions api_tokens users].
    - intros id x [_ Hx]%map_lookup_filter_Some Hu. simpl in Hx. rewrite bool_decide_true in Hx by done. simpl in Hx.
      apply negb_false_iff, bool_decide_eq_true in Hx. done.
    - unfold tables_of. rewrite Hs. apply map_filter_subseteq.
    - done.
    - intros id. left. apply Hh. }
  destruct (o_io o (w_n w)); [left; by apply Hgone|right; by split|left; by apply Hgone].
Qed.

(** The rotation, once the others are gone. *)
Lemma rotating o s i salt password : spec o (fun w => forall p, changing i p s (svc w))
  (UpdatePasswordHash env (UserID i) (string_of (HashPassword IDKey salt (bytes_of password)))) (fun r w =>
  changing i password s (svc w) /\ match r with inl _ => True
    | inr _ => PasswordHash <$> users (tables_of w) !! UserID i = Some (string_of (HashPassword IDKey salt (bytes_of password))) end).
Proof.
  intros w Hw. destruct (Hw password) as [He Hs Ht Hh]. unfold UpdatePasswordHash, now_ms, time_now, or_not_found. rewrite !bind_run. simpl. rewrite !bind_run.
  unfold exec_auth, queryUpdatePasswordHash, update_user, touch. set (w1 := bump w).
  set (h := string_of (HashPassword IDKey salt (bytes_of password))) in *.
  assert (Hsame : changing i password s (set_tables (set_users (users (tables_of w)) (tables_of w)) (svc w))) by by split.
  assert (Hnew : forall u now, let s' := set_tables (set_users (<[UserID i := MkUser (Username u) h (Enabled u) (Locale u) (LastLoginAt u)
      (CreatedAt u) now]> (users (tables_of w))) (tables_of w)) (svc w) in
    changing i password s s' /\ PasswordHash <$> users (tables s') !! UserID i = Some h).
  { intros u now s'. assert (Hi : PasswordHash <$> users (tables s') !! UserID i = Some h) by (subst s'; cbn [set_tables tables set_users users]; by rewrite lookup_insert_eq).
    split; [|exact Hi]. split; try done. intros id. destruct (decide (UserID i = id)) as [<- |Hne]; [right; split; [done|by exists salt]|].
    subst s'. cbn [set_tables tables set_users users]. rewrite lookup_insert_ne by done. destruct (Hh id) as [?|[-> _]]; [by left|done]. }
  change (tables_of w1) with (tables_of w). destruct (users (tables_of w) !! UserID i) as [u|] eqn:Hu; simpl.
  - destruct (o_io o (S (w_n w))); simpl; [exact (Hnew u _)|by split|split; [exact (proj1 (Hnew u _))|done]].
  - destruct (o_io o (S (w_n w))); simpl; (split; [first [exact Hsame|by split]|done]).
Qed.

Definition renewed (input : patchInput) (i : Identity) (d : authdb) : Prop :=
  forall password, PI_Password input = Some password -> evicted (UserID i) (SessionID i) d /\
    exists salt, PasswordHash <$> users d !! UserID i = Some (string_of (HashPassword IDKey salt (bytes_of password))).

Lemma PatchAccount_patches o s input i : hspec o (fun w => svc w = s) (PatchAccount input (Some i)) (fun a w =>
  patched input i s (svc w) /\ match a with inl _ => True | inr _ => renewed input i (tables_of w) end).
Proof.
  unfold AuthHandlers.PatchAccount, identified. set (Q := fun (a : authProblem + userBody) w => patched input i s (svc w) /\ match a with inl _ => True | inr _ => renewed input i (tables_of w) end).
  assert (Hstop : forall p w, same_secrets s (svc w) -> Q (inl p) w) by (intros p w Hw; split; [by left|done]).
  eapply hspec_weaken with (P := fun w => same_secrets s (svc w)) (Q := Q); [|intros w ->; reflexivity|done].
  destruct (_ && _) eqn:Hneed; [by apply hspec_problem; auto|].
  eapply hspec_and_then with (Q1 := fun a w => same_secrets s (svc w) /\ match a with inl _ => True
    | inr _ => forall password, PI_Password input = Some password -> entitled input i password end).
  { destruct (PI_CurrentPassword input) as [current|] eqn:Hcur.
    - destruct (verify_password _ _) as [[ok nr]|] eqn:Hv; [|by apply hspec_problem; auto].
      destruct ok; simpl negb; cbv iota; [apply hspec_answer|by apply hspec_problem; auto]. intros w Hw. split; [done|].
      intros password Hp. split; [done|]. by exists current, nr.
    - apply hspec_answer. intros w Hw. split; [done|]. intros password Hp. rewrite Hp in Hneed. by rewrite !bool_decide_true in Hneed. }
  { intros p w [Hw _]. by apply Hstop. }
  intros _. apply hspec_pure. intros Hent. eapply hspec_and_then with (Q1 := fun _ w => same_secrets s (svc w)).
  { destruct (_ || _); [|by apply hspec_answer]. apply (hspec_ends o same_secrets _ (same_secrets s)); [|replies_walk|].
    - moves_walk; try apply profile_secrets; done.
    - intros a w w' Hw Hs. by etransitivity. }
  { by intros p w Hw; apply Hstop. }
  intros _. eapply hspec_and_then with (Q1 := fun a w => patched input i s (svc w) /\ match a with inl _ => True | inr _ => renewed input i (tables_of w) end).
  - destruct (PI_Password input) as [password|] eqn:Hp; [|apply hspec_answer; intros w Hw; split; [by left|intros p Hx; congruence]].
    specialize (Hent password eq_refl).
    apply (hspec_step_moves o same_secrets s) with (F := fun h => exists salt, h = string_of (HashPassword IDKey salt (bytes_of password))).
    { moves_walk. }
    { intros w x Hw. unfold hash_password. rewrite bind_run. destruct (rand_read _ _ o w) as [[e|salt] w']; [done|]. intros [= <-]. by eexists. }
    { intros p w Hw. split; [by left|done]. }
    intros h [salt ->]. eapply hspec_and_then with (Q1 := fun a w => (forall p, changing i p s (svc w)) \/ match a with inl _ => same_secrets s (svc w) | inr _ => False end).
    + eapply hspec_weaken; [apply hspec_answering, (evicting o s i)|done|]. intros [p|x] w; [intros (e & _ & Hx)|intros Hx]; exact Hx.
    + intros p w [Hc|Hs]; (split; [|done]); [right|by left]. by exists password.
    + intros n. eapply hspec_weaken with (P := fun w => forall p, changing i p s (svc w)); [apply hspec_answering, (rotating o s i salt password)|by intros w [?|[]]|].
      intros [p|x] w; [intros (e & _ & [Hc _])|intros [Hc Hh]]; (split; [right; by exists password|]); [done|].
      intros p' Hp'. assert (p' = password) as -> by congruence. split; [apply Hc|by exists salt].
  - intros p w [Hw _]. by split.
  - intros []. apply (hspec_ends o eq _ (fun s' => patched input i s s' /\ renewed input i (tables s'))).
    + moves_walk.
    + replies_walk.
    + intros a w w' [H1 H2] Hs. unfold Q, tables_of. rewrite <- Hs. split; [done|by destruct a].
Qed.

(** C26: Whatever the driver answers, a password change is never half done the
    dangerous way: the stored hash moves only with the current password
    verified against the identity's and every other session of the account
    gone; a change that is answered with success has stored the new one.  The
    API tokens stay. *)
Theorem password_change_evicts input i o w :
  let (a, w') := PatchAccount input (Some i) o w in
  (forall id, PasswordHash <$> users (tables_of w') !! id <> PasswordHash <$> users (tables_of w) !! id ->
     id = UserID i /\ evicted (UserID i) (SessionID i) (tables_of w') /\ exists password, entitled input i password) /\
  sessions (tables_of w') ⊆ sessions (tables_of w) /\ api_tokens (tables_of w') = api_tokens (tables_of w) /\
  (forall b, a = inr (inr b) -> renewed input i (tables_of w')).
Proof.
  pose proof (PatchAccount_patches o (svc w) input i w eq_refl) as Hp. destruct (PatchAccount input (Some i) o w) as [[e|a] w']; simpl in Hp; [done|].
  destruct Hp as [Hp Hr]. split_and!.
  - intros id Hne. destruct Hp as [Hs|(password & Hent & Hc)]; [by destruct Hne; apply Hs|].
    destruct (ch_hash _ _ _ _ Hc id) as [|[-> _]]; [done|]. split; [done|]. split; [apply Hc|by exists password].
  - destruct Hp as [Hs|(password & _ & Hc)]; [unfold tables_of; by rewrite (ss_sessions _ _ Hs)|apply Hc].
  - destruct Hp as [Hs|(password & _ & Hc)]; [apply Hs|apply Hc].
  - intros b [= ->]. exact Hr.
Qed.
End Login.

(** * Authentication: concrete runs

    A first run from an empty table through setup, login, the account routes
    and logout, the checked inputs of the theorems, and two interleavings. *)

(** A key derivation that pads the password with the salt, a hash that is the
    identity, a clock that ticks a second per interaction. *)
Definition toy_key (password salt : list Z) (time memory threads keyLen : Z) : list Z :=
  take (Z.to_nat keyLen) ((fun b => b mod 256) <$> (password ++ salt ++ replicate (Z.to_nat keyLen) 0)).
Lemma toy_derives : derives toy_key.
Proof.
  intros password salt time memory threads keyLen Hk. unfold toy_key. split.
  - apply list.Forall_take, list.Forall_fmap, list.Forall_forall. intros b _. unfold is_byte. simpl. apply Z.mod_pos_bound. lia.
  - rewrite length_take, length_fmap, !length_app, length_replicate. lia.
Qed.

Definition toy_env : environment := MkEnv (fun n => Z.of_nat n * second) (fun n k => Some (replicate k (Z.of_nat n mod 256))) (fun _ => true) (fun _ => None).
Definition toy_oracle : oracle := Oracle (fun _ => IoOk) (fun _ => 0) (fun n => pretty n) (fun _ _ => StatFailed) (fun _ _ => None) (fun _ => ∅) (fun _ => EmptyString).
Definition toy_cfg : Config := MkConfig "" (3600 * second) "/config/setup-token".
Definition toy_host (s : string) : option string := Some s.
Definition no_fold (_ _ : Z) : bool := false.
Definition toy_sum (l : list Z) : list Z := l.

Definition empty_service : service := MkService (MkAuthdb ∅ ∅ ∅) false EmptyString None newLoginThrottle.
Definition world_of (s : service) : world := World (MkDb ∅ [] ∅ ∅ ∅) None 0 None false [] Lease.NewRegistry s.

(** ** A first run *)

Definition booted : world := (newAuthService toy_env toy_cfg toy_oracle (world_of empty_service)).2.
Definition ask_for (method path : string) (cookie : option string) (csrf : string) : request :=
  MkRequest method ("/api/v1" +:+ path) "" cookie csrf "" "" "dl.home" "10.0.0.7" false.
Definition call_api (r : request) (c : call) (w : world) : res (authProblem + reply) * world :=
  serve toy_env toy_cfg toy_sum toy_key toy_host no_fold r c toy_oracle w.

(** What a client sees of an answer: the problem's status, or success. *)
Definition status (a : res (authProblem + reply)) : Z :=
  match a with inl _ => 0 | inr (inl p) => ap_status p | inr (inr _) => 200 end.
Definition cookie_of (a : res (authProblem + reply)) : option (string * string) :=
  match a with inr (inr (ReplySession c e)) => Some (C_Value c, AE_CSRFToken e) | _ => None end.

Definition setup_call (token : string) : call := CallSetup (MkSetup token "ada" "correct horse" "en").
Definition POST_setup : request := ask_for "POST" "/auth/setup" None "".
Definition POST_login : request := ask_for "POST" "/auth/login" None "".
Definition founded_world : world := (call_api POST_setup (setup_call (setupToken (svc booted))) booted).2.
Definition login_call (password : string) : call := CallLogin "ADA" password.
Definition logged_in : res (authProblem + reply) * world := call_api POST_login (login_call "correct horse") founded_world.
Definition session_cookie : string * string := default ("", "")%string (cookie_of logged_in.1).
Definition with_cookie (method path csrf : string) : request := ask_for method path (Some session_cookie.1) csrf.

(** Only the setup is served before the account exists; the token has to
    match; the second setup is a conflict. *)
Example first_run :
  status (call_api (ask_for "GET" "/auth/me" None "") CallMe booted).1 = 401 /\
  status (call_api POST_login (login_call "correct horse") booted).1 = 401 /\
  status (call_api POST_setup (setup_call "guess") booted).1 = 401 /\
  status (call_api POST_setup (setup_call (setupToken (svc booted))) booted).1 = 200 /\
  status (call_api POST_setup (setup_call "guess") founded_world).1 = 409 /\
  token_file (svc founded_world) = None.
Proof. by vm_compute. Qed.

(** The name is folded like the table folds it; a wrong password is refused;
    the cookie serves, a mutation needs the synchroniser
    token, and the logout ends the session. *)
Example a_session :
  status logged_in.1 = 200 /\
  status (call_api (with_cookie "GET" "/auth/me" "") CallMe logged_in.2).1 = 200 /\
  status (call_api (with_cookie "POST" "/auth/logout" "") CallLogout logged_in.2).1 = 403 /\
  (let (a, w) := call_api (with_cookie "POST" "/auth/logout" session_cookie.2) CallLogout logged_in.2 in
   status a = 200 /\ status (call_api (with_cookie "GET" "/auth/me" "") CallMe w).1 = 401) /\
  (let (a, w) := call_api POST_login (login_call "wrong") founded_world in
   status a = 401 /\ status (call_api POST_login (login_call "wrong") w).1 = 401).
Proof. by vm_compute. Qed.

(** ** Checked inputs *)

Lemma hash_verifies_witness :
  let salt := replicate 16 7 in
  VerifyPassword toy_key (HashPassword toy_key salt (bytes_of "correct horse")) (bytes_of "wrong") = Some (false, false) /\
  VerifyPassword toy_key (HashPassword toy_key salt (bytes_of "correct horse")) (bytes_of "correct horse") = Some (true, false).
Proof.
  assert (Hs : Forall is_byte (replicate 16 7)) by (repeat constructor; done).
  cbv zeta. split; (etransitivity; [apply hash_verifies; [apply toy_derives|exact Hs|done]|by vm_compute]).
Defined.

(** A derivation that differs outside the ceilings only. *)
Definition wild_key (password salt : list Z) (time memory threads keyLen : Z) : list Z :=
  if maxVerifyTime <? time then [] else toy_key password salt time memory threads keyLen.
Lemma verify_stays_tame_witness :
  wild_key [] [] 99 8 1 4 <> toy_key [] [] 99 8 1 4 /\
  VerifyPassword wild_key (phcString 19456 99 1 (replicate 16 7) (replicate 32 9)) [1] =
  VerifyPassword toy_key (phcString 19456 99 1 (replicate 16 7) (replicate 32 9)) [1].
Proof.
  split; [by vm_compute|]. apply verify_stays_tame. intros salt time memory threads keyLen (_ & [_ Ht] & _).
  unfold wild_key. by rewrite (proj2 (Z.ltb_ge _ _)).
Defined.

Lemma spellings_share_the_ladder_witness : "Ada"%string <> "aDA"%string /\ accountKey (bytes_of "Ada") = accountKey (bytes_of "aDA").
Proof. split; [done|]. apply spellings_share_the_ladder. by vm_compute. Defined.

(** Twelve calls of one source at once, and one half a minute later. *)
Definition burst : list throttle_call := replicate 12 (CallSource [1] 0) ++ [CallSource [1] (30 * second)].
Lemma source_budget_witness : admitted [1] burst newLoginThrottle = 11 /\
  admitted [1] burst newLoginThrottle <= throttleSourceCapacity + (30 * second - 0) / attemptCost.
Proof.
  split; [by vm_compute|]. apply source_budget; [|repeat (split; [done|]); done].
  intros ip b Hb. simpl in Hb. by apply lookup_empty_Some in Hb.
Defined.

Definition guesses : list guess :=
  [MkGuess [1] [65] 0 false; MkGuess [2] [97] (second / 2) false; MkGuess [2] [97] second false;
   MkGuess [1] [65] (3 * second) true; MkGuess [1] [65] (4 * second) false].
Lemma guesses_ordered : ordered 0 (4 * second) (a_now <$> guesses).
Proof. repeat (split; [done|]). done. Qed.

Lemma forgetting_is_invisible_witness :
  (logins guesses newLoginThrottle).1 = [Judged false; Limited (second / 2); Judged false; Judged true; Judged false] /\
  (logins guesses newLoginThrottle).1 = (ref_logins guesses empty_reference).1.
Proof. split; [by vm_compute|]. apply (forgetting_is_invisible 0 (4 * second)), guesses_ordered. Defined.

Lemma account_backoff_witness :
  (checkAccount [97] (4 * second) (logins guesses newLoginThrottle).2).1 = Some second /\
  (checkAccount [97] (5 * second) (logins guesses newLoginThrottle).2).1 = None.
Proof.
  pose proof (account_backoff 0 (4 * second) guesses [97] (4 * second) guesses_ordered (Z.le_refl _)) as Hb.
  destruct (logins guesses newLoginThrottle) as [answers t] eqn:Hl. destruct Hb as [Hw Hr].
  assert (answers = [Judged false; Limited (second / 2); Judged false; Judged true; Judged false]) as -> by (apply (f_equal fst) in Hl; by vm_compute in Hl).
  assert (Hs : (checkAccount [97] (4 * second) t).1 = Some second) by (rewrite Hw; by vm_compute).
  split; [exact Hs|]. apply (Hr _ Hs).
Defined.

Lemma refusals_look_alike_witness :
  let run d := handleLogin toy_env toy_cfg toy_sum toy_key POST_login "ada" "wrong" toy_oracle (with_tables d founded_world) in
  queryUserByUsername "ada" (tables_of founded_world) <> None /\
  (run (tables_of founded_world)).1 = (run (MkAuthdb ∅ ∅ ∅)).1.
Proof.
  cbv zeta. split; [by vm_compute|]. apply refusals_look_alike; [|done]. unfold not_accepted.
  destruct (queryUserByUsername "ada" (tables_of founded_world)) as [[id u]|] eqn:Hq; [|done]. exists false, false.
  vm_compute in Hq. injection Hq as <- <-. split; [by vm_compute|done].
Defined.

Lemma login_opens_a_session_witness :
  exists c e w', handleLogin toy_env toy_cfg toy_sum toy_key POST_login "ADA" "correct horse" toy_oracle founded_world = (inr (inr (c, e)), w') /\
  exists u sid row needsRehash, users (tables_of w') !! UB_ID (AE_User e) = Some u /\ same_name (Username u) "ADA" = true /\ Enabled u = true /\
    verify_password toy_key (PasswordHash u) "correct horse" = Some (true, needsRehash) /\ CSRFToken row = AE_CSRFToken e /\
    forall t, querySessionByTokenHash (HashToken toy_sum (C_Value c)) t (tables_of w') = if t <? S_ExpiresAt row then Some (sid, row, u) else None.
Proof.
  destruct (handleLogin toy_env toy_cfg toy_sum toy_key POST_login "ADA" "correct horse" toy_oracle founded_world) as [[er|[p|[c e]]] w'] eqn:Hl;
    [by vm_compute in Hl|by vm_compute in Hl|]. exists c, e, w'. split; [done|]. by eapply login_opens_a_session.
Defined.

(** ** Interleavings *)

(** The account's password is "correct horse"; its owner changes it, and
    someone who knows the old one logs in between the eviction and the
    rotation: the handler's two statements, with a login in between. *)
Definition owner_id : string := match map_to_list (users (tables_of founded_world)) with (id, _) :: _ => id | [] => EmptyString end.
Definition owner_session : string := match map_to_list (sessions (tables_of founded_world)) with (id, _) :: _ => id | [] => EmptyString end.
Definition after_eviction : world := (DeleteOtherSessions owner_id owner_session toy_oracle founded_world).2.
Definition intruder : res (authProblem + reply) * world := call_api POST_login (login_call "correct horse") after_eviction.
Definition after_rotation : world :=
  (UpdatePasswordHash toy_env owner_id (string_of (HashPassword toy_key (replicate 16 3) (bytes_of "battery staple"))) toy_oracle intruder.2).2.
Example login_slips_through :
  let cookie := default ("", "")%string (cookie_of intruder.1) in
  status (call_api POST_login (login_call "correct horse") after_rotation).1 = 401 /\
  status (call_api (ask_for "GET" "/auth/me" (Some cookie.1) "") CallMe after_rotation).1 = 200.
Proof. by vm_compute. Qed.
