(* ===== verification/Regex.v ===== *)
(** * Regular expressions the way package [regexp] matches them

    The fragment the code writes itself: classes, greedy repetition of a
    class, sequence, ordered choice, groups, the ASCII word boundary and the
    two ends of the text.  The matcher is the leftmost-first one of the
    package, as a backtracking search over the runes of the text; [matches] is
    the language of an expression, which the matcher decides. *)

From S2P Require Import Prelude GoStrings.

Open Scope Z_scope.

(** ** Expressions *)

Inductive re :=
  | REmpty
  | RSet (p : Z -> bool)                              (* one rune of a class *)
  | RRep (p : Z -> bool) (lo : nat) (hi : option nat) (* [lo] to [hi] runes of a class, the longest first *)
  | RSeq (a b : re)
  | RAlt (a b : re)
  | RGroup (n : nat) (a : re)
  | RWord                                             (* \b *)
  | RBegin | REnd.                                    (* ^ and $ without the m flag *)

(** A position: the rune before it, its byte offset, and the runes after it
    with their widths. *)
Record pos := MkPos { before : option Z; off : nat; rest : list (Z * nat) }.
Definition eat (x : Z * nat) (t : list (Z * nat)) (s : pos) : pos := MkPos (Some x.1) (off s + x.2)%nat t.

(** The captured groups, the newest first. *)
Definition caps : Type := list (nat * (nat * nat)).

Definition word_rune (r : Z) : bool := between 48 57 r || between 65 90 r || between 97 122 r || (r =? 95).
Definition word_boundary (s : pos) : bool :=
  negb (Bool.eqb (from_option word_rune false (before s)) (from_option (fun x => word_rune x.1) false (head (rest s)))).
Definition at_begin (s : pos) : bool := bool_decide (before s = None).
Definition at_end (s : pos) : bool := bool_decide (rest s = []).

Definition may_more (hi : option nat) : bool := match hi with Some O => false | _ => true end.
Definition one_less (hi : option nat) : option nat := pred <$> hi.

Section Match.
Context {A : Type}.

(** The repetition of a class, given what follows it. *)
Fixpoint rep (p : Z -> bool) (lo : nat) (hi : option nat) (k : pos -> option A) (prev : option Z) (o : nat) (l : list (Z * nat)) : option A :=
  let stop := if bool_decide (lo = O) then k (MkPos prev o l) else None in
  match l with
  | [] => stop
  | x :: t =>
    if may_more hi && p x.1 then
      match rep p (pred lo) (one_less hi) k (Some x.1) (o + x.2)%nat t with
      | Some y => Some y
      | None => stop
      end
    else stop
  end.

(** The search: the first way to match, in the order of preference, that
    [k] accepts. *)
Fixpoint search (r : re) (k : pos -> caps -> option A) (s : pos) (c : caps) : option A :=
  match r with
  | REmpty => k s c
  | RSet p => match rest s with x :: t => if p x.1 then k (eat x t s) c else None | [] => None end
  | RRep p lo hi => rep p lo hi (fun s => k s c) (before s) (off s) (rest s)
  | RSeq a b => search a (search b k) s c
  | RAlt a b => match search a k s c with Some y => Some y | None => search b k s c end
  | RGroup n a => search a (fun s' c' => k s' ((n, (off s, off s')) :: c')) s c
  | RWord => if word_boundary s then k s c else None
  | RBegin => if at_begin s then k s c else None
  | REnd => if at_end s then k s c else None
  end.
End Match.

(** The leftmost match from a position on: its start, its end, its groups. *)
Fixpoint find_from (r : re) (prev : option Z) (o : nat) (l : list (Z * nat)) : option (nat * nat * caps) :=
  match search r (fun s c => Some (o, off s, c)) (MkPos prev o l) [] with
  | Some y => Some y
  | None => match l with [] => None | x :: t => find_from r (Some x.1) (o + x.2)%nat t end
  end.

(** The runes of a text; an undecodable byte is U+FFFD. *)
Definition cells (text : list Z) : list (Z * nat) := (fun c => (default RuneError c.1, length c.2)) <$> chunks text.
Definition find (r : re) (text : list Z) : option (nat * nat * caps) := find_from r None O (cells text).

(** [MatchString], [FindStringIndex] and a group of [FindStringSubmatch]: a
    group that took no part is empty. *)
Definition MatchString (r : re) (text : list Z) : bool := bool_decide (is_Some (find r text)).
Definition FindStringIndex (r : re) (text : list Z) : option (nat * nat) := fst <$> find r text.
Definition slice (text : list Z) (i j : nat) : list Z := take (j - i) (drop i text).
Definition group (c : caps) (text : list Z) (n : nat) : list Z :=
  match list_find (fun p => p.1 = n) c with Some (_, (_, (i, j))) => slice text i j | None => [] end.
Definition FindStringSubmatch (r : re) (text : list Z) : option (nat -> list Z) :=
  (fun m => group m.2 text) <$> find r text.

(** ** Case folding

    [(?i)]: two runes match when [unicode.SimpleFold] links them.  Below
    U+0080 the orbits are those of the ASCII letters, with U+017F in that of
    s and U+212A in that of k; the table gives the others. *)
Class FoldTable := { table_fold : Z -> Z -> bool }.
Definition no_folds : FoldTable := {| table_fold := fun _ _ => false |}.
Definition ascii_lower (r : Z) : Z := if between 65 90 r then r + 32 else r.
Definition fold_key (r : Z) : Z := if r =? 383 then 115 else if r =? 8490 then 107 else ascii_lower r.
Definition same_fold `{!FoldTable} (a b : Z) : bool := (fold_key a =? fold_key b) || table_fold a b.

(** A literal rune, a digit, anything else, and what [.] takes. *)
Definition lit (ci : bool) `{!FoldTable} (a : Z) : Z -> bool := fun b => if ci then same_fold a b else a =? b.
Definition is_d (r : Z) : bool := between 48 57 r.
Definition not_d (r : Z) : bool := negb (is_d r).
Definition any_rune (r : Z) : bool := negb (r =? 10).
Definition seq_of (l : list re) : re := foldr RSeq REmpty l.
Definition opt_of (p : Z -> bool) : re := RRep p 0 (Some 1%nat).
Definition text_re (ci : bool) `{!FoldTable} (s : string) : re := seq_of ((fun c => RSet (lit ci c)) <$> runes (bytes_of s)).

(** ** The language of an expression *)

Inductive reps (p : Z -> bool) : nat -> pos -> pos -> Prop :=
  | reps_0 s : reps p 0 s s
  | reps_S n x t s s' : rest s = x :: t -> p x.1 = true -> reps p n (eat x t s) s' -> reps p (S n) s s'.

Definition within_count (lo : nat) (hi : option nat) (n : nat) : Prop :=
  (lo <= n)%nat /\ match hi with Some h => (n <= h)%nat | None => True end.

Inductive matches : re -> pos -> pos -> Prop :=
  | M_empty s : matches REmpty s s
  | M_set p x t s : rest s = x :: t -> p x.1 = true -> matches (RSet p) s (eat x t s)
  | M_rep p lo hi n s s' : reps p n s s' -> within_count lo hi n -> matches (RRep p lo hi) s s'
  | M_seq a b s1 s2 s3 : matches a s1 s2 -> matches b s2 s3 -> matches (RSeq a b) s1 s3
  | M_left a b s s' : matches a s s' -> matches (RAlt a b) s s'
  | M_right a b s s' : matches b s s' -> matches (RAlt a b) s s'
  | M_group n a s s' : matches a s s' -> matches (RGroup n a) s s'
  | M_word s : word_boundary s = true -> matches RWord s s
  | M_begin s : at_begin s = true -> matches RBegin s s
  | M_end s : at_end s = true -> matches REnd s s.
#[export] Hint Constructors matches reps : dltool.

(** The positions of a text. *)
Inductive reaches : pos -> pos -> Prop :=
  | R_here s : reaches s s
  | R_next x t s s' : rest s = x :: t -> reaches (eat x t s) s' -> reaches s s'.

(** ** The search decides the language *)

Section Decides.
Context {A : Type}.

Lemma rep_sound p lo hi (k : pos -> option A) prev o l y : rep p lo hi k prev o l = Some y ->
  exists n s', reps p n (MkPos prev o l) s' /\ within_count lo hi n /\ k s' = Some y.
Proof.
  unfold within_count. revert lo hi prev o. induction l as [|x t IH]; intros lo hi prev o; cbn [rep].
  - case_bool_decide; [|done]. intros Hk. exists O, (MkPos prev o []). split_and!; [constructor|lia|by destruct hi; lia|done].
  - assert (Hstop : (if bool_decide (lo = O) then k (MkPos prev o (x :: t)) else None) = Some y ->
      exists n s', reps p n (MkPos prev o (x :: t)) s' /\ ((lo <= n)%nat /\ match hi with Some h => (n <= h)%nat | None => True end) /\ k s' = Some y).
    { case_bool_decide; [|done]. intros Hk. exists O, (MkPos prev o (x :: t)). split_and!; [constructor|lia|by destruct hi; lia|done]. }
    destruct (may_more hi && p x.1) eqn:Hp; [|done]. apply andb_true_iff in Hp as [Hm Hp].
    destruct (rep p (pred lo) (one_less hi) k (Some x.1) _ t) as [z|] eqn:Hr; [|done].
    intros [= ->]. apply IH in Hr as (n & s' & Hn & [Hlo Hhi] & Hk). exists (S n), s'. split_and!; [by econstructor|lia| |done].
    unfold one_less in Hhi. destruct hi as [[|h]|]; simpl in *; [done|lia|done].
Qed.

Lemma rep_complete p n s s' (k : pos -> option A) y : reps p n s s' -> k s' = Some y ->
  forall lo hi, within_count lo hi n -> exists z, rep p lo hi k (before s) (off s) (rest s) = Some z.
Proof.
  intros Hr Hk. induction Hr as [s|n x t s s' Hs Hp Hr IH]; intros lo hi [Hlo Hhi].
  - destruct s as [prev o l]. simpl. assert (lo = O) as -> by lia. destruct l as [|x t]; cbn [rep]; rewrite bool_decide_true by done; [by exists y|].
    destruct (may_more hi && p x.1); [|by exists y]. destruct (rep p _ _ k _ _ t); by eexists.
  - destruct s as [prev o l]. simpl in Hs. subst l. simpl. rewrite Hp.
    destruct (IH Hk (pred lo) (one_less hi)) as [z Hz].
    { split; [lia|]. unfold one_less. destruct hi; simpl in *; lia. }
    assert (may_more hi = true) as -> by (destruct hi as [[|h]|]; [lia|done..]). cbn [andb].
    simpl in Hz. rewrite Hz. by exists z.
Qed.

Lemma search_sound r (k : pos -> caps -> option A) s c y : search r k s c = Some y ->
  exists s' c', matches r s s' /\ k s' c' = Some y.
Proof.
  revert k s c. induction r as [|p|p lo hi|a IHa b IHb|a IHa b IHb|n a IHa| | |]; intros k s c; simpl.
  - intros Hk. by eauto with dltool.
  - destruct (rest s) as [|x t] eqn:Hs; [done|]. destruct (p x.1) eqn:Hp; [|done]. intros Hk. exists (eat x t s), c. by split; [constructor|].
  - destruct s as [prev o l]. simpl. intros (n & s' & Hn & Hc & Hk)%rep_sound. exists s', c. by split; [econstructor|].
  - intros (s1 & c1 & Ha & Hk)%IHa. apply IHb in Hk as (s2 & c2 & Hb & Hk). exists s2, c2. by split; [econstructor|].
  - destruct (search a k s c) eqn:Ha.
    + intros [= ->]. apply IHa in Ha as (s' & c' & Hm & Hk). exists s', c'. by split; [apply M_left|].
    + intros (s' & c' & Hm & Hk)%IHb. exists s', c'. by split; [apply M_right|].
  - intros (s' & c' & Hm & Hk)%IHa. eexists s', _. by split; [constructor|exact Hk].
  - destruct (word_boundary s) eqn:Hw; [|done]. intros Hk. exists s, c. by split; [constructor|].
  - destruct (at_begin s) eqn:Hw; [|done]. intros Hk. exists s, c. by split; [constructor|].
  - destruct (at_end s) eqn:Hw; [|done]. intros Hk. exists s, c. by split; [constructor|].
Qed.

Lemma search_complete r s s' : matches r s s' -> forall (k : pos -> caps -> option A),
  (forall c, is_Some (k s' c)) -> forall c, is_Some (search r k s c).
Proof.
  intros Hm. induction Hm as [s|p x t s Hs Hp|p lo hi n s s' Hr Hc|a b s1 s2 s3 Ha IHa Hb IHb|a b s s' Ha IHa|a b s s' Hb IHb
    |n a s s' Ha IHa|s Hw|s Hw|s Hw]; intros k Hk c; simpl; rewrite ?Hw; try done.
  - rewrite Hs, Hp. apply Hk.
  - destruct (Hk c) as [y Hy]. destruct (rep_complete p n s s' (fun s => k s c) y Hr Hy lo hi Hc) as [z Hz]. by exists z.
  - apply IHa. intros c1. by apply IHb.
  - destruct (IHa k Hk c) as [y Hy]. rewrite Hy. by exists y.
  - destruct (search a k s c); [by eexists|]. by apply IHb.
  - apply IHa. intros c1. apply Hk.
Qed.
End Decides.

(** Some part of the text from a position on is in the language. *)
Definition occurs (r : re) (s : pos) : Prop := exists s1 s2, reaches s s1 /\ matches r s1 s2.

Lemma find_from_spec r prev o l : is_Some (find_from r prev o l) <-> occurs r (MkPos prev o l).
Proof.
  revert prev o. induction l as [|x t IH]; intros prev o; cbn [find_from];
    match goal with |- context [search r ?k ?s []] => destruct (search r k s []) as [y|] eqn:Hs end.
  - split; [|by eexists]. intros _. apply search_sound in Hs as (s' & c' & Hm & _). eexists _, s'. by split; [apply R_here|].
  - split; [by intros []|]. intros (s1 & s2 & Hr & Hm). inversion Hr; subst; [|done].
    destruct (search_complete r _ s2 Hm (fun s c => Some (o, off s, c)) ltac:(by eexists) []) as [z Hz]. by rewrite Hs in Hz.
  - split; [|by eexists]. intros _. apply search_sound in Hs as (s' & c' & Hm & _). eexists _, s'. by split; [apply R_here|].
  - rewrite IH. split.
    + intros (s1 & s2 & Hr & Hm). exists s1, s2. split; [|done]. by eapply R_next.
    + intros (s1 & s2 & Hr & Hm). inversion Hr; subst.
      * destruct (search_complete r _ s2 Hm (fun s c => Some (o, off s, c)) ltac:(by eexists) []) as [z Hz]. by rewrite Hs in Hz.
      * simpl in *. simplify_eq. by exists s1, s2.
Qed.

(** [MatchString] decides the occurrence of the language in the text. *)
Lemma MatchString_spec r text : MatchString r text = true <-> occurs r (MkPos None O (cells text)).
Proof. unfold MatchString, find. rewrite bool_decide_eq_true. apply find_from_spec. Qed.
