(* ===== verification/Uri.v ===== *)
(** * Download URIs ([internal/uri/normalize.go], [magnet.go], [obfuscated.go])

    The forms a pasted link may take - plain, magnet, or wrapped in the base64
    of a download manager - and the one classified form the rest of the
    program sees.  [url.Parse] is a parameter; base64 is decoded here, the
    bytes a failed decoding leaves included. *)


From S2P Require Import Prelude GoStrings TaskState Schema Lease World Engine SafePath SafeJoin Manifest Hash Archive Regex.

Import Router.
Open Scope Z_scope.

(** ** [encoding/base64], padded, not strict *)

(** The two alphabets, by the characters of 62 and 63. *)
Definition StdEncoding : Z * Z := (43, 47).
Definition URLEncoding : Z * Z := (45, 95).
Definition b64_digit (enc : Z * Z) (c : Z) : option Z :=
  if between 65 90 c then Some (c - 65) else if between 97 122 c then Some (c - 71)
  else if between 48 57 c then Some (c + 4) else if c =? enc.1 then Some 62 else if c =? enc.2 then Some 63 else None.
Definition line_break (c : Z) : bool := (c =? 10) || (c =? 13).
Definition pad : Z := 61.

(** The bytes of one quantum of two, three or four digits. *)
Definition b64_0 (a b : Z) : Z := a * 4 + b / 16.
Definition b64_1 (b c : Z) : Z := b * 16 mod 256 + c / 4.
Definition b64_2 (c d : Z) : Z := c * 64 mod 256 + d.
Definition quantum_bytes (ds : list Z) : list Z :=
  match ds with
  | [a; b; c; d] => [b64_0 a b; b64_1 b c; b64_2 c d]
  | [a; b; c] => [b64_0 a b; b64_1 b c]
  | [a; b] => [b64_0 a b]
  | _ => []
  end.

(** [DecodeString]: the bytes and whether there was no error; [ds] are the
    digits of the quantum being read. *)
Fixpoint skip_breaks (l : list Z) : list Z :=
  match l with c :: l' => if line_break c then skip_breaks l' else l | [] => [] end.
Definition padded_end (ds l : list Z) : list Z * bool :=
  match ds with
  | [_; _] =>
    match skip_breaks l with
    | c :: l => if c =? pad then (quantum_bytes ds, bool_decide (skip_breaks l = [])) else ([], false)
    | [] => ([], false)
    end
  | [_; _; _] => (quantum_bytes ds, bool_decide (skip_breaks l = []))
  | _ => ([], false)
  end.
Fixpoint b64_decode (enc : Z * Z) (ds l : list Z) : list Z * bool :=
  match l with
  | [] => ([], bool_decide (ds = []))
  | c :: l =>
    match b64_digit enc c with
    | Some d =>
      let ds := ds ++ [d] in
      if (length ds =? 4)%nat then
        let (more, ok) := b64_decode enc [] l in (quantum_bytes ds ++ more, ok)
      else b64_decode enc ds l
    | None =>
      if line_break c then b64_decode enc ds l
      else if c =? pad then padded_end ds l
      else ([], false)
    end
  end.
Definition DecodeString (enc : Z * Z) (s : list Z) : list Z * bool := b64_decode enc [] s.

(** ** Text *)

Definition TrimPrefix (s p : list Z) : list Z := if HasPrefix s p then drop (length p) s else s.
Definition TrimSuffix (s p : list Z) : list Z := if HasSuffix s p then take (length s - length p) s else s.

(** [hasControlChar]: C0, DEL and the C1 range. *)
Definition control_rune (r : Z) : bool := (r <? 32) || between 127 159 r.
Definition hasControlChar (s : list Z) : bool := existsb control_rune (runes s).

Section Uri.
Context `{!UnicodeTables}.

(** [schemeOf]. *)
Definition schemeOf (raw : list Z) : list Z :=
  match cut [58] raw with Some (scheme, _) => ToLower scheme | None => [] end.

(** ** Obfuscated links *)

Definition thunderPrefix : list Z := bytes_of "AA".
Definition thunderSuffix : list Z := bytes_of "ZZ".
Definition flashgetMarker : list Z := bytes_of "[FLASHGET]".
Definition plainSchemes : list (list Z) :=
  bytes_of <$> ["http://"; "https://"; "ftp://"; "ftps://"; "sftp://"; "ed2k://"]%string.

(** The payload as it is decoded: what follows an ampersand is cut, a slash
    that makes the length impossible is dropped, padding is restored. *)
Definition repadded (payload : list Z) : list Z :=
  let payload := TrimSpace payload in
  let payload := match cut [38] payload with Some (p, _) => p | None => payload end in
  let payload := if (length payload mod 4 =? 1)%nat then TrimSuffix payload [47] else payload in
  let rem := (length payload mod 4)%nat in
  if (rem =? 0)%nat then payload else payload ++ replicate (4 - rem) pad.
Definition lenient (payload : list Z) : list Z :=
  let (decoded, ok) := DecodeString StdEncoding payload in
  if ok then decoded
  else
    let (alt, alt_ok) := DecodeString URLEncoding payload in
    if alt_ok || (length decoded <? length alt)%nat then alt else decoded.
Definition unwrapped (scheme decoded : list Z) : list Z :=
  TrimSpace
    (if bool_decide (scheme = bytes_of "thunder") then TrimSuffix (TrimPrefix decoded thunderPrefix) thunderSuffix
     else if bool_decide (scheme = bytes_of "flashget") then TrimSuffix (TrimPrefix decoded flashgetMarker) flashgetMarker
     else decoded).
Definition DecodeObfuscated (raw : list Z) : option (list Z) :=
  match cut (bytes_of "://") raw with
  | None => None
  | Some (scheme, payload) =>
    let scheme := ToLower (TrimSpace scheme) in
    if negb (contains (bytes_of <$> ["thunder"; "flashget"; "qqdl"]%string) scheme) then None
    else
      let decoded := lenient (repadded payload) in
      if bool_decide (decoded = []) then None
      else
        let plain := unwrapped scheme decoded in
        if hasControlChar plain then None
        else if existsb (HasPrefix (ToLower plain)) plainSchemes then Some plain else None
  end.

(** ** Normalisation *)

(** [url.URL], as far as it is read: [String()] once the user information is
    dropped, and the decoded query. *)
Record url := MkUrl {
  url_Scheme : list Z; url_User : bool; url_Hostname : list Z; url_Path : list Z; url_Bare : list Z;
  url_Query : list Z -> list (list Z) }.
Context (url_Parse : list Z -> option url).

(** [Normalized]. *)
Record NormalizedURI := MkNormURI {
  NKind : Kind; NURI : list Z; OriginalScheme : list Z; DisplayName : list Z; InfohashV1 : list Z; InfohashV2 : list Z;
  Trackers : list (list Z); PeerHints : list (list Z) }.
Definition with_scheme (scheme : list Z) (n : NormalizedURI) : NormalizedURI :=
  MkNormURI (NKind n) (NURI n) scheme (DisplayName n) (InfohashV1 n) (InfohashV2 n) (Trackers n) (PeerHints n).

(** [ParseMagnet]. *)
Definition btihPrefix : list Z := bytes_of "urn:btih:".
Definition btmhPrefix : list Z := bytes_of "urn:btmh:".
Definition query_get (u : url) (k : string) : list Z := default [] (head (url_Query u (bytes_of k))).
Definition query_values (u : url) (k : string) : option (list (list Z)) :=
  let values := List.filter (fun v => negb (bool_decide (v = []))) (url_Query u (bytes_of k)) in
  if existsb hasControlChar values then None else Some values.
Fixpoint exact_topics (l : list (list Z)) (v1 v2 : list Z) : option (list Z * list Z) :=
  match l with
  | [] => Some (v1, v2)
  | xt :: l =>
    let lower := ToLower xt in
    if HasPrefix lower btihPrefix then v1 ← parseBTIH (drop (length btihPrefix) xt); exact_topics l v1 v2
    else if HasPrefix lower btmhPrefix then
      exact_topics l v1 (default v2 (parseBTMH (drop (length btmhPrefix) lower)))
    else exact_topics l v1 v2
  end.
Definition ParseMagnet (raw : list Z) : option NormalizedURI :=
  u ← url_Parse (TrimSpace raw);
  if negb (bool_decide (url_Scheme u = bytes_of "magnet")) then None
  else
    let dn := query_get u "dn" in
    if hasControlChar dn then None
    else
      trackers ← query_values u "tr";
      peers ← query_values u "x.pe";
      hashes ← exact_topics (url_Query u (bytes_of "xt")) [] [];
      if bool_decide (hashes = ([], [])) then None
      else Some (MkNormURI KindMagnet (TrimSpace raw) [] dn hashes.1 hashes.2 trackers peers).

(** [classifyTransport] of a link that came wrapped in [scheme], or not. *)
Definition classifyTransport (uri scheme : list Z) (kind : Kind) : option NormalizedURI :=
  u ← url_Parse uri;
  let uri := if url_User u then url_Bare u else uri in
  if bool_decide (url_Hostname u = []) then None
  else
    let path := ToLower (url_Path u) in
    let kind :=
      if HasSuffix path (bytes_of ".torrent") then KindTorrent
      else if HasSuffix path (bytes_of ".metalink") || HasSuffix path (bytes_of ".meta4") then KindMetalink
      else kind in
    Some (MkNormURI kind uri scheme [] [] [] [] []).

(** [Normalize]; [None] is its error. *)
Definition is_scheme (scheme : list Z) (l : list string) : bool := contains (bytes_of <$> l) scheme.
Definition Normalize (raw : list Z) : option NormalizedURI :=
  let raw := TrimSpace raw in
  if bool_decide (raw = []) then None
  else
    let '(uri, original) := match DecodeObfuscated raw with
      | Some plain => (plain, schemeOf raw)
      | None => (raw, [])
      end in
    let scheme := schemeOf uri in
    if is_scheme scheme ["magnet"]%string then with_scheme original <$> ParseMagnet uri
    else if is_scheme scheme ["http"; "https"]%string then classifyTransport uri original KindHTTP
    else if is_scheme scheme ["ftp"; "ftps"]%string then classifyTransport uri original KindFTP
    else if is_scheme scheme ["sftp"]%string then classifyTransport uri original KindSFTP
    else None.

(** What the router reads. *)
Definition routable (n : NormalizedURI) : Normalized := MkNormalized (NKind n) (string_of (NURI n)).

(** ** ed2k links *)

Record ED2K := MkED2K { Filename_ : list Z; SizeBytes_ : Z; Hash_ : list Z }.
Definition ed2kHashChars : nat := 32.
Definition EqualFold `{!FoldTable} (s t : list Z) : bool :=
  let a := runes s in let b := runes t in
  (length a =? length b)%nat && forallb (fun p => same_fold p.1 p.2) (zip a b).
Fixpoint split_pipe (acc l : list Z) : list (list Z) :=
  match l with
  | [] => [acc]
  | c :: l => if c =? 124 then acc :: split_pipe [] l else split_pipe (acc ++ [c]) l
  end.
Definition ParseED2K `{!FoldTable} (raw : list Z) : option ED2K :=
  match split_pipe [] (TrimSpace raw) with
  | p0 :: p1 :: p2 :: p3 :: p4 :: _ =>
    if negb (EqualFold p0 (bytes_of "ed2k://")) || negb (bool_decide (p1 = bytes_of "file")) then None
    else
      size ← ParseInt p3;
      let hash := ToLower p4 in
      if negb (length hash =? ed2kHashChars)%nat || negb (hex_decodes hash) || hasControlChar p2 then None
      else Some (MkED2K p2 size hash)
  | _ => None
  end.
End Uri.

(** * Links wrapped by download managers

    [DecodeObfuscated] against the wrapping it undoes: the base64 of the link
    between the markers of each manager. *)

(** ** Padded base64 *)

Definition b64_char (enc : Z * Z) (d : Z) : Z :=
  if d <? 26 then d + 65 else if d <? 52 then d + 71 else if d <? 62 then d - 4 else if d =? 62 then enc.1 else enc.2.
Fixpoint b64_encode (enc : Z * Z) (l : list Z) : list Z :=
  let char := b64_char enc in
  match l with
  | [] => []
  | [a] => [char (a / 4); char (a mod 4 * 16); pad; pad]
  | [a; b] => [char (a / 4); char (a mod 4 * 16 + b / 16); char (b mod 16 * 4); pad]
  | a :: b :: c :: l => char (a / 4) :: char (a mod 4 * 16 + b / 16) :: char (b mod 16 * 4 + c / 64) :: char (c mod 64) :: b64_encode enc l
  end.

Lemma list_ind_3 {A} (P : list A -> Prop) : P [] -> (forall a, P [a]) -> (forall a b, P [a; b]) ->
  (forall a b c l, P l -> P (a :: b :: c :: l)) -> forall l, P l.
Proof.
  intros H0' H1' H2' H3' l. assert (Hn : forall n l, (length l <= n)%nat -> P l); [|by apply (Hn (length l))].
  induction n as [|n IH]; intros [|a [|b [|c k]]] Hl; cbn in Hl; try done; try lia. apply H3', IH. lia.
Qed.

Lemma digit_char enc d : enc = StdEncoding \/ enc = URLEncoding -> 0 <= d < 64 -> b64_digit enc (b64_char enc d) = Some d.
Proof.
  intros He Hd. assert (Hall : forallb (fun d => bool_decide (b64_digit StdEncoding (b64_char StdEncoding d) = Some d) &&
    bool_decide (b64_digit URLEncoding (b64_char URLEncoding d) = Some d)) (seqZ 0 64) = true) by by vm_compute.
  rewrite forallb_forall in Hall. specialize (Hall d ltac:(by apply list_elem_of_In, elem_of_seqZ)).
  apply andb_true_iff in Hall as [Hs%bool_decide_eq_true Hu%bool_decide_eq_true]. by destruct He as [->| ->].
Qed.
Lemma char_plain d : 0 <= d < 64 -> 43 <= b64_char StdEncoding d < 127.
Proof. unfold b64_char. cbn. intros Hd. repeat case_match; lia. Qed.

Ltac by_quanta l := pattern l; revert l; apply list_ind_3; [done|intros x|intros x y|intros x y z k IH]; intros Hl;
  repeat (apply list.Forall_cons in Hl as [? Hl]); unfold is_byte in *; cbn [b64_encode b64_decode].

(** The bytes of a quantum from the digits they were cut into. *)
Lemma quantum_0 a y : 0 <= a -> 0 <= y < 16 -> b64_0 (a / 4) (a mod 4 * 16 + y) = a.
Proof. unfold b64_0. intros Ha Hy. rewrite Z.div_add_l, (Z.div_small y) by lia. pose proof (Z.div_mod a 4). lia. Qed.
Lemma quantum_1 x b z : 0 <= b < 256 -> 0 <= z < 4 -> b64_1 (x * 16 + b / 16) (b mod 16 * 4 + z) = b.
Proof.
  unfold b64_1. intros Hb Hz. replace ((x * 16 + b / 16) * 16) with (b / 16 * 16 + x * 256) by ring. rewrite Z.mod_add by lia.
  rewrite Z.mod_small by bytes_lia. rewrite Z.div_add_l, (Z.div_small z) by lia. pose proof (Z.div_mod b 16). lia.
Qed.
Lemma quantum_2 y c : 0 <= c < 256 -> b64_2 (y * 4 + c / 64) (c mod 64) = c.
Proof.
  unfold b64_2. intros Hc. replace ((y * 4 + c / 64) * 64) with (c / 64 * 64 + y * 256) by ring. rewrite Z.mod_add by lia.
  rewrite Z.mod_small by bytes_lia. pose proof (Z.div_mod c 64). lia.
Qed.

Lemma decode_encode enc l : enc = StdEncoding \/ enc = URLEncoding -> Forall is_byte l -> DecodeString enc (b64_encode enc l) = (l, true).
Proof.
  intros He. unfold DecodeString. assert (Hpad : b64_digit enc pad = None) by by destruct He as [->| ->].
  by_quanta l; rewrite !digit_char by (done || bytes_lia); cbn -[b64_digit]; rewrite ?Hpad, ?IH by done; cbn -[b64_digit]; rewrite ?Hpad; cbn.
  - pose proof (quantum_0 x 0) as Q. rewrite Z.add_0_r in Q. by rewrite Q by lia.
  - pose proof (quantum_1 (x mod 4) y 0) as Q. rewrite Z.add_0_r in Q. by rewrite quantum_0, Q by bytes_lia.
  - by rewrite quantum_0, quantum_1, quantum_2 by bytes_lia.
Qed.

Lemma encode_plain l : Forall is_byte l -> Forall (fun b => 43 <= b < 127) (b64_encode StdEncoding l).
Proof.
  by_quanta l; repeat (apply list.Forall_cons; split; [first [apply char_plain; bytes_lia|unfold pad; lia]|]); [done..|by apply IH].
Qed.
Lemma encode_length enc l : (length (b64_encode enc l) mod 4 = 0)%nat.
Proof.
  pattern l. revert l. apply list_ind_3; [done|done|done|]. intros a b c l IH. cbn [b64_encode length].
  by replace (S (S (S (S (length (b64_encode enc l)))))) with (length (b64_encode enc l) + 1 * 4)%nat by lia; rewrite Nat.Div0.mod_add.
Qed.

(** ** Wrapped links *)

Section Wrapped.
Context `{!UnicodeTables}.

Definition marked (scheme : string) (l : list Z) : list Z :=
  if bool_decide (scheme = "thunder"%string) then thunderPrefix ++ l ++ thunderSuffix
  else if bool_decide (scheme = "flashget"%string) then flashgetMarker ++ l ++ flashgetMarker else l.
Definition obfuscated (scheme : string) (l : list Z) : list Z := bytes_of scheme ++ bytes_of "://" ++ b64_encode StdEncoding (marked scheme l).

Lemma cut_absent sep c l : Forall (fun b => b <> c) l -> cut (c :: sep) l = None.
Proof.
  induction 1 as [|b l Hb Hl IH]; [done|]. cbn [cut strip_prefix]. destruct (Z.eqb_spec c b); [congruence|]. by rewrite IH.
Qed.
Lemma trim_prefix_back p l : TrimPrefix (p ++ l) p = l.
Proof. unfold TrimPrefix. rewrite (proj2 (HasPrefix_spec _ _)) by by eexists. by rewrite drop_app_length. Qed.
Lemma trim_suffix_back p l : TrimSuffix (l ++ p) p = l.
Proof.
  unfold TrimSuffix, HasSuffix. rewrite reverse_app, (proj2 (HasPrefix_spec _ _)) by by eexists. rewrite length_app.
  replace (length l + length p - length p)%nat with (length l) by lia. by rewrite take_app_length.
Qed.

(** Base64 as it stands needs no repair. *)
Lemma repadded_whole l : Forall is_byte l -> repadded (b64_encode StdEncoding l) = b64_encode StdEncoding l.
Proof.
  intros Hl. unfold repadded. pose proof (encode_plain l Hl) as Hp. rewrite trim_nonspace by (eapply list.Forall_impl; [exact Hp|]; simpl; lia).
  rewrite cut_absent by (eapply list.Forall_impl; [exact Hp|]; simpl; lia). cbv zeta. rewrite encode_length. cbn [Nat.eqb]. by rewrite encode_length.
Qed.

(** C39: A link of a plain scheme, wrapped by any of the three download managers,
    is recovered byte for byte. *)
Theorem obfuscated_links_decode scheme l : contains ["thunder"; "flashget"; "qqdl"]%string scheme = true ->
  Forall is_byte l -> TrimSpace l = l -> hasControlChar l = false -> existsb (HasPrefix (ToLower l)) plainSchemes = true ->
  DecodeObfuscated (obfuscated scheme l) = Some l.
Proof.
  intros Hs Hl Htrim Hctl Hplain. apply contains_spec in Hs.
  assert (Hb : Forall is_byte (marked scheme l)).
  { unfold marked. repeat case_bool_decide; rewrite ?Forall_app; split_and?; try done; apply bytes_are_bytes. }
  assert (Hne : marked scheme l <> []).
  { unfold marked. repeat case_bool_decide; try done. by intros ->. }
  unfold obfuscated, DecodeObfuscated.
  assert (Hcut : forall x, cut (bytes_of "://") (bytes_of scheme ++ bytes_of "://" ++ x) = Some (bytes_of scheme, x)).
  { intros x. revert Hs. rewrite !list.elem_of_cons, list.elem_of_nil. by intros [->|[->|[->|[]]]]. }
  rewrite Hcut.
  assert (Hlow : ToLower (TrimSpace (bytes_of scheme)) = bytes_of scheme).
  { revert Hs. rewrite !list.elem_of_cons, list.elem_of_nil. by intros [->|[->|[->|[]]]]. }
  rewrite Hlow, repadded_whole by done. unfold lenient. rewrite decode_encode by (done || by left).
  assert (Hun : unwrapped (bytes_of scheme) (marked scheme l) = l).
  { unfold unwrapped, marked. revert Hs. rewrite !list.elem_of_cons, list.elem_of_nil.
    intros [->|[->|[->|[]]]].
    - change (TrimSpace (TrimSuffix (TrimPrefix (thunderPrefix ++ l ++ thunderSuffix) thunderPrefix) thunderSuffix) = l).
      by rewrite trim_prefix_back, trim_suffix_back.
    - change (TrimSpace (TrimSuffix (TrimPrefix (flashgetMarker ++ l ++ flashgetMarker) flashgetMarker) flashgetMarker) = l).
      by rewrite trim_prefix_back, trim_suffix_back.
    - exact Htrim. }
  assert (Hc : contains (bytes_of <$> ["thunder"; "flashget"; "qqdl"]%string) (bytes_of scheme) = true).
  { apply contains_spec. by apply list_elem_of_fmap_2. }
  rewrite Hc, (bool_decide_false (_ = [])) by done. cbn [negb]. cbv zeta. by rewrite Hun, Hctl, Hplain.
Qed.
End Wrapped.

Lemma obfuscated_links_decode_witness : let link := bytes_of "http://host/file" in
  string_of (obfuscated "thunder" link) = "thunder://QUFodHRwOi8vaG9zdC9maWxlWlo="%string /\ DecodeObfuscated (H := ascii_tables) (obfuscated "thunder" link) = Some link.
Proof.
  cbv zeta. split; [by vm_compute|]. apply (obfuscated_links_decode (H := ascii_tables) "thunder" (bytes_of "http://host/file"));
    [by vm_compute|apply bytes_are_bytes|by vm_compute|by vm_compute|by vm_compute].
Defined.
