(* ===== verification/Settings.v ===== *)
(** * The configuration tables ([internal/store/settings.go], [internal/jobs/cron.go])

    The settings rows with their JSON values, the schedule grid, the interface
    preferences, engines, categories, tags, notification channels and watch
    folders, and every statement and method over them; then the schedule tick
    that hands the active cell to the governor.  The commands run in the monad
    of [World]; the state behind the interfaces is [conf R]: the tables, and
    [R] for everything else.  Message texts are dropped, so an error is its
    sentinel. *)

From stdpp Require Import fin_maps sorting.
From S2P Require Import Prelude GoStrings Schema Lease World Engine SafeJoin Uri Json Governor.

Open Scope Z_scope.

(** ** Rows *)

Record SettingRow := MkSettingRow { ValueJSON : string; SR_CreatedAt : Z; SR_UpdatedAt : Z }.
(** [store.Engine] with the flag and the two times its model omits. *)
Record EngineRow := MkEngineRow {
  ER_Kind : string; ER_Name : string; ER_Enabled : bool; ER_URL : option string; ER_Version : option string;
  ER_LastSeenAt : option Z; ER_LastError : option string; ER_CreatedAt : Z; ER_UpdatedAt : Z }.
Record CategoryRow := MkCategoryRow { CR_Name : string; SavePath : string; CR_CreatedAt : Z; CR_UpdatedAt : Z }.
Record TagRow := MkTagRow { TR_Name : string; TR_CreatedAt : Z; TR_UpdatedAt : Z }.
(** The columns of a task these statements read or clear. *)
Record TaskRef := MkTaskRef { TK_CategoryID : option string; TK_Removed : bool; TK_ExtractPassword : option string }.
Record ScheduleCell := MkCell { Cell_Mode : string; Cell_UpdatedAt : Z }.
Record NotificationChannel := MkNotificationChannel {
  NC_Kind : string; NC_Name : string; NC_Enabled : Z; NC_ConfigJSON : string; SecretEnc : option string; NC_EventMask : string;
  LastSendAt : option Z; NC_LastError : option string; NC_CreatedAt : Z; NC_UpdatedAt : Z }.
Record WatchFolderRow := MkWatchFolderRow {
  WF_Path : string; WF_Enabled : Z; WF_Destination : string; WF_CategoryID : option string; DeleteAfterLoad : Z;
  PollIntervalS : Z; LastScanAt : option Z; WF_LastError : option string; WF_CreatedAt : Z; WF_UpdatedAt : Z }.

Record confdb := MkConfdb {
  c_settings : gmap string SettingRow;                 (* by key *)
  c_engines : gmap string EngineRow; c_categories : gmap string CategoryRow; c_tags : gmap string TagRow;
  c_tasks : gmap string TaskRef; c_task_tags : gset (string * string);   (* (task, tag) *)
  c_accounts : gset string; c_prefs : gmap (string * string) string;     (* (user, key) *)
  c_schedule : gmap (Z * Z) ScheduleCell;                                (* (day, hour) *)
  c_channels : gmap string NotificationChannel; c_folders : gmap string WatchFolderRow }.

Definition put_settings t d := MkConfdb t (c_engines d) (c_categories d) (c_tags d) (c_tasks d) (c_task_tags d) (c_accounts d) (c_prefs d) (c_schedule d) (c_channels d) (c_folders d).
Definition put_engines t d := MkConfdb (c_settings d) t (c_categories d) (c_tags d) (c_tasks d) (c_task_tags d) (c_accounts d) (c_prefs d) (c_schedule d) (c_channels d) (c_folders d).
Definition put_categories t d := MkConfdb (c_settings d) (c_engines d) t (c_tags d) (c_tasks d) (c_task_tags d) (c_accounts d) (c_prefs d) (c_schedule d) (c_channels d) (c_folders d).
Definition put_tags t d := MkConfdb (c_settings d) (c_engines d) (c_categories d) t (c_tasks d) (c_task_tags d) (c_accounts d) (c_prefs d) (c_schedule d) (c_channels d) (c_folders d).
Definition put_task_refs t d := MkConfdb (c_settings d) (c_engines d) (c_categories d) (c_tags d) t (c_task_tags d) (c_accounts d) (c_prefs d) (c_schedule d) (c_channels d) (c_folders d).
Definition put_links t d := MkConfdb (c_settings d) (c_engines d) (c_categories d) (c_tags d) (c_tasks d) t (c_accounts d) (c_prefs d) (c_schedule d) (c_channels d) (c_folders d).
Definition put_prefs t d := MkConfdb (c_settings d) (c_engines d) (c_categories d) (c_tags d) (c_tasks d) (c_task_tags d) (c_accounts d) t (c_schedule d) (c_channels d) (c_folders d).
Definition put_schedule t d := MkConfdb (c_settings d) (c_engines d) (c_categories d) (c_tags d) (c_tasks d) (c_task_tags d) (c_accounts d) (c_prefs d) t (c_channels d) (c_folders d).
Definition put_channels t d := MkConfdb (c_settings d) (c_engines d) (c_categories d) (c_tags d) (c_tasks d) (c_task_tags d) (c_accounts d) (c_prefs d) (c_schedule d) t (c_folders d).
Definition put_folders t d := MkConfdb (c_settings d) (c_engines d) (c_categories d) (c_tags d) (c_tasks d) (c_task_tags d) (c_accounts d) (c_prefs d) (c_schedule d) (c_channels d) t.

(** ** The driver *)

(** The constraint that refuses a statement: a UNIQUE index ([isUniqueViolation])
    or another one. *)
Inductive refusal := Unique | OtherConstraint.
(** A statement: what it leaves and how many rows it matched. *)
Definition conf_stmt : Type := confdb -> refusal + (confdb * Z).
Definition refused (r : refusal) : err := match r with Unique => ErrUnique | OtherConstraint => ErrConstraint end.

Record conf (R : Type) := MkConf { conf_committed : confdb; conf_working : option confdb; beyond : R }.
Arguments MkConf {R}. Arguments conf_committed {R}. Arguments conf_working {R}. Arguments beyond {R}.

Section Driver.
Context {R : Type}.
Abbreviation M := (M (conf R)).
Abbreviation world := (world (conf R)).

Definition seen_conf (s : conf R) : confdb := default (conf_committed s) (conf_working s).
Definition conf_of (w : world) : confdb := seen_conf (w_eng w).
Definition put_conf (d : confdb) (w : world) : world :=
  set_eng (match conf_working (w_eng w) with
    | Some _ => MkConf (conf_committed (w_eng w)) (Some d) (beyond (w_eng w))
    | None => MkConf d None (beyond (w_eng w))
    end) w.
(** [ExecContext]: the rows it affected. *)
Definition exec_conf (q : conf_stmt) : M Z := fun o w =>
  match o_io o (w_n w), q (conf_of w) with
  | IoFail, _ => (inl ErrDriver, bump w)
  | _, inl r => (inl (refused r), bump w)
  | IoOk, inr (d, k) => (inr k, bump (put_conf d w))
  | IoFailLanded, inr (d, _) => (inl ErrDriver, bump (put_conf d w))
  end.
(** [GetContext], [SelectContext]. *)
Definition query_conf {A} (q : confdb -> A) : M A := fun o w =>
  match o_io o (w_n w) with
  | IoOk => (inr (q (conf_of w)), bump w)
  | _ => (inl ErrDriver, bump w)
  end.
Definition leave_conf (d : confdb) (w : world) : world := set_eng (MkConf d None (beyond (w_eng w))) w.
Definition begin_conf : M unit := fun o w =>
  match o_io o (w_n w) with
  | IoOk => (inr tt, bump (set_eng (MkConf (conf_committed (w_eng w)) (Some (conf_committed (w_eng w))) (beyond (w_eng w))) w))
  | _ => (inl ErrDriver, bump w)
  end.
Definition commit_conf : M unit := fun o w =>
  match o_io o (w_n w) with
  | IoOk => (inr tt, bump (leave_conf (conf_of w) w))
  | IoFail => (inl ErrDriver, bump (leave_conf (conf_committed (w_eng w)) w))
  | IoFailLanded => (inl ErrDriver, bump (leave_conf (conf_of w) w))
  end.
(** A method's transaction, with its deferred [Rollback]. *)
Definition conf_rolled_back {A} (body : M A) : M A := fun o w =>
  let (r, w) := body o w in (r, leave_conf (conf_committed (w_eng w)) w).
Definition conf_tx {A} (body : M A) : M A := begin_conf ;; conf_rolled_back body.

Definition conf_row {A} (q : confdb -> option A) : M A :=
  r ← query_conf q;
  match r with Some x => mret x | None => fail ErrNotFound end.
(** [RowsAffected]: zero is [ErrNotFound]. *)
Definition some_row (q : conf_stmt) : M unit :=
  k ← exec_conf q;
  if k =? 0 then fail ErrNotFound else mret tt.
(** [isUniqueViolation] turned into [ErrConflict]. *)
Definition conflict {A} (m : M A) : M A :=
  r ← attempt m;
  match r with
  | inl ErrUnique => fail ErrConflict
  | inl e => fail e
  | inr x => mret x
  end.
End Driver.

(** ** Statements over one row *)

(** [UPDATE ... WHERE id = ?]. *)
Definition touch_row {A} (id : string) (f : A -> A) (t : gmap string A) : gmap string A * Z :=
  match t !! id with Some x => (<[id := f x]> t, 1) | None => (t, 0) end.
(** The row of a name, by its UNIQUE column. *)
Definition named {A} (name : A -> string) (n : string) (t : gmap string A) : option (string * A) :=
  head (List.filter (fun p => bool_decide (name p.2 = n)) (map_to_list t)).
Definition other_named {A} (name : A -> string) (id n : string) (t : gmap string A) : bool :=
  bool_decide (is_Some (named name n (delete id t))).

(** ** Engines *)

Definition EngineIDPrefix : string := "eng_".
Definition queryListEngines (d : confdb) : list (string * EngineRow) := sort_by (less (by_text (fun p => ER_Kind p.2))) (map_to_list (c_engines d)).
Definition queryEnsureEngine (id kind name url : string) (at_ : Z) : conf_stmt := fun d =>
  if negb (contains engine_names kind) then inl OtherConstraint
  else match c_engines d !! id with
  | Some e => inr (put_engines (<[id := MkEngineRow (ER_Kind e) name (ER_Enabled e) (Some url) (ER_Version e) (ER_LastSeenAt e)
                (ER_LastError e) (ER_CreatedAt e) at_]> (c_engines d)) d, 1)
  | None =>
    if bool_decide (is_Some (named ER_Kind kind (c_engines d))) then inl Unique
    else inr (put_engines (<[id := MkEngineRow kind name true (Some url) None None None at_ at_]> (c_engines d)) d, 1)
  end.
(** The two statements of [TouchEngine]: a failed probe keeps what is known of
    the last successful one. *)
Definition probed (version lastErr : option string) (at_ : Z) (e : EngineRow) : EngineRow :=
  match lastErr with
  | Some text => MkEngineRow (ER_Kind e) (ER_Name e) (ER_Enabled e) (ER_URL e) (ER_Version e) (ER_LastSeenAt e) (Some text) (ER_CreatedAt e) at_
  | None => MkEngineRow (ER_Kind e) (ER_Name e) (ER_Enabled e) (ER_URL e) (match version with Some v => Some v | None => ER_Version e end)
              (Some at_) None (ER_CreatedAt e) at_
  end.
Definition queryTouchEngine (id : string) (version lastErr : option string) (at_ : Z) : conf_stmt := fun d =>
  let (t, k) := touch_row id (probed version lastErr at_) (c_engines d) in inr (put_engines t d, k).

(** ** Categories and tags *)

Definition category_tasks (id : string) (d : confdb) : Z :=
  Z.of_nat (size (filter (fun p => TK_CategoryID p.2 = Some id /\ TK_Removed p.2 = false) (c_tasks d))).
Definition queryListCategories (d : confdb) : list (string * CategoryRow * Z) :=
  (fun p => (p, category_tasks p.1 d)) <$> sort_by (less (by_text (fun p => CR_Name p.2))) (map_to_list (c_categories d)).
Definition queryCategoryByName (name : string) (d : confdb) : option (string * CategoryRow * Z) :=
  (fun p => (p, category_tasks p.1 d)) <$> named CR_Name name (c_categories d).
Definition queryCreateCategory (id name path : string) (now : Z) : conf_stmt := fun d =>
  if bool_decide (is_Some (c_categories d !! id)) || bool_decide (is_Some (named CR_Name name (c_categories d))) then inl Unique
  else inr (put_categories (<[id := MkCategoryRow name path now now]> (c_categories d)) d, 1).
Definition queryUpdateCategory (name : string) (newName savePath : option string) (now : Z) : conf_stmt := fun d =>
  match named CR_Name name (c_categories d) with
  | None => inr (d, 0)
  | Some (id, c) =>
    let name' := default (CR_Name c) newName in
    if other_named CR_Name id name' (c_categories d) then inl Unique
    else inr (put_categories (<[id := MkCategoryRow name' (default (SavePath c) savePath) (CR_CreatedAt c) now]> (c_categories d)) d, 1)
  end.
(** ON DELETE SET NULL in [tasks] and [watch_folders]. *)
Definition uncategorised (id : string) (c : option string) : option string := if bool_decide (c = Some id) then None else c.
Definition task_loses (id : string) (t : TaskRef) : TaskRef := MkTaskRef (uncategorised id (TK_CategoryID t)) (TK_Removed t) (TK_ExtractPassword t).
Definition folder_loses (id : string) (f : WatchFolderRow) : WatchFolderRow :=
  MkWatchFolderRow (WF_Path f) (WF_Enabled f) (WF_Destination f) (uncategorised id (WF_CategoryID f)) (DeleteAfterLoad f) (PollIntervalS f)
    (LastScanAt f) (WF_LastError f) (WF_CreatedAt f) (WF_UpdatedAt f).
Definition queryDeleteCategory (name : string) : conf_stmt := fun d =>
  match named CR_Name name (c_categories d) with
  | None => inr (d, 0)
  | Some (id, _) =>
    inr (put_categories (delete id (c_categories d))
          (put_folders (folder_loses id <$> c_folders d) (put_task_refs (task_loses id <$> c_tasks d) d)), 1)
  end.

Definition tag_tasks (id : string) (d : confdb) : Z :=
  Z.of_nat (size (filter (fun p => (p.1, id) ∈ c_task_tags d /\ TK_Removed p.2 = false) (c_tasks d))).
Definition queryListTags (d : confdb) : list (string * TagRow * Z) :=
  (fun p => (p, tag_tasks p.1 d)) <$> sort_by (less (by_text (fun p => TR_Name p.2))) (map_to_list (c_tags d)).
Definition queryTagByName (name : string) (d : confdb) : option (string * TagRow * Z) :=
  (fun p => (p, tag_tasks p.1 d)) <$> named TR_Name name (c_tags d).
Definition queryRenameTag (name newName : string) (now : Z) : conf_stmt := fun d =>
  match named TR_Name name (c_tags d) with
  | None => inr (d, 0)
  | Some (id, t) =>
    if other_named TR_Name id newName (c_tags d) then inl Unique
    else inr (put_tags (<[id := MkTagRow newName (TR_CreatedAt t) now]> (c_tags d)) d, 1)
  end.
Definition links_of (tag : string) (l : gset (string * string)) : gset (string * string) := filter (fun p => p.2 = tag) l.
Definition queryDetachTag (name : string) : conf_stmt := fun d =>
  match named TR_Name name (c_tags d) with
  | None => inr (d, 0)
  | Some (id, _) => inr (put_links (c_task_tags d ∖ links_of id (c_task_tags d)) d, Z.of_nat (size (links_of id (c_task_tags d))))
  end.
(** The row goes with the links that still name it ([ON DELETE CASCADE]). *)
Definition queryDeleteTagRow (name : string) : conf_stmt := fun d =>
  match named TR_Name name (c_tags d) with
  | None => inr (d, 0)
  | Some (id, _) => inr (put_tags (delete id (c_tags d)) (put_links (c_task_tags d ∖ links_of id (c_task_tags d)) d), 1)
  end.

Section Catalogues.
Context {R : Type}.
Abbreviation M := (M (conf R)).

Definition ListEngines : M (list (string * EngineRow)) := query_conf queryListEngines.
Definition EnsureEngine (id kind name url : string) (at_ : Z) : M unit := exec_conf (queryEnsureEngine id kind name url at_) ;; mret tt.
Definition TouchEngine (id : string) (version lastErr : option string) (at_ : Z) : M unit := some_row (queryTouchEngine id version lastErr at_).
Definition EngineByID (id : string) : M EngineRow := conf_row (fun d => c_engines d !! id).

Definition ListCategories : M (list (string * CategoryRow * Z)) := query_conf queryListCategories.
Definition CategoryByName (name : string) : M (string * CategoryRow * Z) := conf_row (queryCategoryByName name).
Definition CreateCategory (id name path : string) : M unit :=
  now ← unix_milli; conflict (exec_conf (queryCreateCategory id name path now)) ;; mret tt.
Definition UpdateCategory (name : string) (newName savePath : option string) : M unit :=
  now ← unix_milli; conflict (some_row (queryUpdateCategory name newName savePath now)).
Definition DeleteCategory (name : string) : M unit := some_row (queryDeleteCategory name).

Definition ListTags : M (list (string * TagRow * Z)) := query_conf queryListTags.
Definition TagByName (name : string) : M (string * TagRow * Z) := conf_row (queryTagByName name).
Definition RenameTag (name newName : string) : M unit := now ← unix_milli; conflict (some_row (queryRenameTag name newName now)).
Definition DeleteTag (name : string) : M unit :=
  conf_tx (exec_conf (queryDetachTag name) ;; some_row (queryDeleteTagRow name) ;; commit_conf).
End Catalogues.

(** ** Notification channels *)

Definition channel_kinds : list string := ["webhook"; "ntfy"; "gotify"; "apprise"]%string.
Definition flag (z : Z) : bool := (z =? 0) || (z =? 1).
Definition queryListNotificationChannels (d : confdb) : list (string * NotificationChannel) :=
  sort_by (less (by_text (fun p => NC_Name p.2))) (map_to_list (c_channels d)).
Definition queryTouchNotificationChannel (id : string) (lastErr : option string) (at_ : Z) : conf_stmt := fun d =>
  let (t, k) := touch_row id (fun c => MkNotificationChannel (NC_Kind c) (NC_Name c) (NC_Enabled c) (NC_ConfigJSON c) (SecretEnc c)
    (NC_EventMask c) (Some at_) lastErr (NC_CreatedAt c) at_) (c_channels d) in
  inr (put_channels t d, k).
Definition queryCreateNotificationChannel (id : string) (c : NotificationChannel) (now : Z) : conf_stmt := fun d =>
  if negb (contains channel_kinds (NC_Kind c) && flag (NC_Enabled c)) then inl OtherConstraint
  else if bool_decide (is_Some (c_channels d !! id)) || bool_decide (is_Some (named NC_Name (NC_Name c) (c_channels d))) then inl Unique
  else inr (put_channels (<[id := MkNotificationChannel (NC_Kind c) (NC_Name c) (NC_Enabled c) (NC_ConfigJSON c) (SecretEnc c)
    (NC_EventMask c) None None now now]> (c_channels d)) d, 1).
Record NotificationChannelPatch := MkNotificationChannelPatch {
  NP_Name : option string; NP_Enabled : option Z; NP_ConfigJSON : option string; SecretSet : bool; NP_SecretEnc : option string;
  NP_EventMask : option string }.
Definition channel_patched (p : NotificationChannelPatch) (now : Z) (c : NotificationChannel) : NotificationChannel :=
  MkNotificationChannel (NC_Kind c) (default (NC_Name c) (NP_Name p)) (default (NC_Enabled c) (NP_Enabled p))
    (default (NC_ConfigJSON c) (NP_ConfigJSON p)) (if SecretSet p then NP_SecretEnc p else SecretEnc c)
    (default (NC_EventMask c) (NP_EventMask p)) (LastSendAt c) (NC_LastError c) (NC_CreatedAt c) now.
Definition queryUpdateNotificationChannel (id : string) (p : NotificationChannelPatch) (now : Z) : conf_stmt := fun d =>
  match c_channels d !! id with
  | None => inr (d, 0)
  | Some c =>
    let c' := channel_patched p now c in
    if negb (flag (NC_Enabled c')) then inl OtherConstraint
    else if other_named NC_Name id (NC_Name c') (c_channels d) then inl Unique
    else inr (put_channels (<[id := c']> (c_channels d)) d, 1)
  end.
Definition queryDeleteNotificationChannel (id : string) : conf_stmt := fun d =>
  match c_channels d !! id with None => inr (d, 0) | Some _ => inr (put_channels (delete id (c_channels d)) d, 1) end.

(** *** Sealed secrets *)

(** AES-256-GCM under the key HKDF derives from a secret. *)
Class AEAD := { aead_Seal : string -> list Z -> list Z -> list Z; aead_Open : string -> list Z -> list Z -> option (list Z); NonceSize : nat }.
(** [SealNotificationSecret]; [nonce] is what [rand.Read] filled. *)
Definition SealNotificationSecret `{!AEAD} (nonce : list Z) (key plain : string) : res (option string) :=
  if bool_decide (plain = EmptyString) then inr None
  else if bool_decide (key = EmptyString) then inl ErrArgument
  else inr (Some (string_of (b64_encode StdEncoding (nonce ++ aead_Seal key nonce (bytes_of plain))))).
(** [OpenNotificationSecret]. *)
Definition OpenNotificationSecret `{!AEAD} (key : string) (enc : option string) : res string :=
  match enc with
  | None => inr EmptyString
  | Some text =>
    if bool_decide (text = EmptyString) then inr EmptyString
    else if bool_decide (key = EmptyString) then inl ErrArgument
    else
      let (raw, ok) := Uri.DecodeString StdEncoding (bytes_of text) in
      if negb ok || (length raw <? NonceSize)%nat then inl ErrArgument
      else match aead_Open key (take NonceSize raw) (drop NonceSize raw) with
           | Some plain => inr (string_of plain)
           | None => inl ErrArgument
           end
  end.

Section Channels.
Context {R : Type}.
Abbreviation M := (M (conf R)).

Definition ListNotificationChannels : M (list (string * NotificationChannel)) := query_conf queryListNotificationChannels.
Definition GetNotificationChannel (id : string) : M NotificationChannel := conf_row (fun d => c_channels d !! id).
Definition TouchNotificationChannel (id : string) (lastErr : option string) (at_ : Z) : M unit := some_row (queryTouchNotificationChannel id lastErr at_).
Definition CreateNotificationChannel (id : string) (c : NotificationChannel) : M unit :=
  now ← unix_milli; conflict (exec_conf (queryCreateNotificationChannel id c now)) ;; mret tt.
Definition UpdateNotificationChannel (id : string) (p : NotificationChannelPatch) : M unit :=
  now ← unix_milli; conflict (some_row (queryUpdateNotificationChannel id p now)).
Definition DeleteNotificationChannel (id : string) : M unit := some_row (queryDeleteNotificationChannel id).
End Channels.

(** ** Watch folders *)

Definition folder_order : string * WatchFolderRow -> string * WatchFolderRow -> comparison := then_by (by_Z (fun p => WF_CreatedAt p.2)) (by_text fst).
(** A row with the name of its category joined in. *)
Definition joined_folder (d : confdb) (p : string * WatchFolderRow) : string * WatchFolderRow * option string :=
  (p, c ← WF_CategoryID p.2; CR_Name <$> c_categories d !! c).
Definition queryListWatchFolders (d : confdb) : list (string * WatchFolderRow * option string) :=
  joined_folder d <$> sort_by (less folder_order) (map_to_list (c_folders d)).
Definition queryListEnabledWatchFolders (d : confdb) : list (string * WatchFolderRow * option string) :=
  joined_folder d <$> sort_by (less folder_order) (List.filter (fun p => WF_Enabled p.2 =? 1) (map_to_list (c_folders d))).
Definition queryWatchFolderByID (id : string) (d : confdb) : option (WatchFolderRow * option string) :=
  f ← c_folders d !! id; Some (f, (joined_folder d (id, f)).2).
Definition NULLIF (s : string) : option string := if bool_decide (s = EmptyString) then None else Some s.
Definition queryTouchWatchFolder (id : string) (at_ : Z) (lastErr : string) : conf_stmt := fun d =>
  let (t, k) := touch_row id (fun f => MkWatchFolderRow (WF_Path f) (WF_Enabled f) (WF_Destination f) (WF_CategoryID f) (DeleteAfterLoad f)
    (PollIntervalS f) (Some at_) (NULLIF lastErr) (WF_CreatedAt f) at_) (c_folders d) in
  inr (put_folders t d, k).
(** [ON CONFLICT(path) DO NOTHING]. *)
Definition querySeedWatchFolder (id path destination : string) (now : Z) : conf_stmt := fun d =>
  if bool_decide (is_Some (named WF_Path path (c_folders d))) then inr (d, 0)
  else if bool_decide (is_Some (c_folders d !! id)) then inl Unique
  else inr (put_folders (<[id := MkWatchFolderRow path 1 destination None 0 10 None None now now]> (c_folders d)) d, 1).
Definition folder_refused (f : WatchFolderRow) (d : confdb) : bool :=
  negb (flag (WF_Enabled f) && flag (DeleteAfterLoad f)) ||
  match WF_CategoryID f with Some c => negb (bool_decide (is_Some (c_categories d !! c))) | None => false end.
Definition queryCreateWatchFolder (id : string) (f : WatchFolderRow) (categoryID : option string) (now : Z) : conf_stmt := fun d =>
  let f' := MkWatchFolderRow (WF_Path f) (WF_Enabled f) (WF_Destination f) categoryID (DeleteAfterLoad f) (PollIntervalS f) None None now now in
  if negb (flag (WF_Enabled f) && flag (DeleteAfterLoad f)) then inl OtherConstraint
  else if bool_decide (is_Some (c_folders d !! id)) || bool_decide (is_Some (named WF_Path (WF_Path f) (c_folders d))) then inl Unique
  else if folder_refused f' d then inl OtherConstraint
  else inr (put_folders (<[id := f']> (c_folders d)) d, 1).
Record WatchFolderPatch := MkWatchFolderPatch {
  WP_Path : option string; WP_Enabled : option Z; WP_Destination : option string; CategorySet : bool; WP_CategoryID : option string;
  WP_DeleteAfterLoad : option Z; WP_PollIntervalS : option Z }.
Definition folder_patched (p : WatchFolderPatch) (now : Z) (f : WatchFolderRow) : WatchFolderRow :=
  MkWatchFolderRow (default (WF_Path f) (WP_Path p)) (default (WF_Enabled f) (WP_Enabled p)) (default (WF_Destination f) (WP_Destination p))
    (if CategorySet p then WP_CategoryID p else WF_CategoryID f) (default (DeleteAfterLoad f) (WP_DeleteAfterLoad p))
    (default (PollIntervalS f) (WP_PollIntervalS p)) (LastScanAt f) (WF_LastError f) (WF_CreatedAt f) now.
Definition queryUpdateWatchFolder (id : string) (p : WatchFolderPatch) (now : Z) : conf_stmt := fun d =>
  match c_folders d !! id with
  | None => inr (d, 0)
  | Some f =>
    let f' := folder_patched p now f in
    if negb (flag (WF_Enabled f') && flag (DeleteAfterLoad f')) then inl OtherConstraint
    else if other_named WF_Path id (WF_Path f') (c_folders d) then inl Unique
    else if folder_refused f' d then inl OtherConstraint
    else inr (put_folders (<[id := f']> (c_folders d)) d, 1)
  end.
Definition queryDeleteWatchFolder (id : string) : conf_stmt := fun d =>
  match c_folders d !! id with None => inr (d, 0) | Some _ => inr (put_folders (delete id (c_folders d)) d, 1) end.

(** ** Settings rows *)

Definition querySettingValue (key : string) (d : confdb) : option string := ValueJSON <$> c_settings d !! key.
Definition queryUpsertSetting (key value : string) (now : Z) : conf_stmt := fun d =>
  inr (put_settings (<[key := MkSettingRow value (from_option SR_CreatedAt now (c_settings d !! key)) now]> (c_settings d)) d, 1).

(** A [null] is an error: it leaves the pointer nil. *)
Definition settingValue {A} (decode : json -> option (option A)) (valueJSON : string) : res A :=
  match Unmarshal decode (bytes_of valueJSON) with Some (Some x) => inr x | _ => inl ErrDecode end.
Definition settingInt : string -> res Z := settingValue decode_int64.
Definition settingBool : string -> res bool := settingValue decode_bool.
Definition settingString (v : string) : res string :=
  match settingValue decode_string v with inr s => inr (string_of s) | inl e => inl e end.
Definition settingStringSlice (v : string) : res (list string) :=
  match settingValue decode_strings v with inr l => inr (string_of <$> l) | inl e => inl e end.
Definition settingIntMap (v : string) : res (gmap (list Z) Z) := settingValue decode_int_map v.

Definition settingDefaultDestination : string := "default_destination".
Definition settingMinFreeSpace : string := "min_free_space".
Definition settingMaxActiveTotal : string := "max_active_total".
Definition settingMaxActivePerEngine : string := "max_active_per_engine".
Definition settingProcessOrder : string := "process_order".
Definition settingRSSEnabled : string := "rss_enabled".
Definition settingRSSIntervalS : string := "rss_interval_s".
Definition settingAutoExtract : string := "auto_extract".
Definition settingConfirmOnDelete : string := "confirm_on_delete".
Definition settingExtractPasswords : string := "extract_passwords".
Definition settingScheduleEnabled : string := "schedule_enabled".
Definition settingsKeys : list string :=
  [settingDownloadRateLimit; settingUploadRateLimit; settingAltDownloadRateLimit; settingAltUploadRateLimit;
   settingScheduleEnabled; settingDefaultDestination; settingMinFreeSpace; settingMaxActiveTotal; settingMaxActivePerEngine;
   settingProcessOrder; settingRSSEnabled; settingRSSIntervalS; settingAutoExtract; settingExtractPasswords; settingConfirmOnDelete].
Definition processOrderByDateCreated : string := "by_date_created".
Definition rssIntervalSFloor : Z := 300.
Definition math_MaxInt32 : Z := 2147483647.

(** [store.Settings]; [int] is 64 bits wide, so the narrowing conversions
    keep every value. *)
Record Settings := MkSettings {
  DownloadRateLimit : Z; UploadRateLimit : Z; AltDownloadRate : Z; AltUploadRate : Z; ScheduleEnabledField : bool;
  DefaultDestinationField : string; MinFreeSpace : gmap (list Z) Z; MaxActiveTotal : Z; MaxActivePerEngine : Z;
  ProcessOrder : string; RSSEnabled : bool; RSSIntervalS : Z; AutoExtract : bool; ExtractPasswordsField : list string;
  ConfirmOnDelete : bool }.
(** The documented defaults. *)
Definition default_settings : Settings :=
  MkSettings 0 0 5242880 1048576 false EmptyString ∅ 5 3 processOrderByDateCreated true 1800 false [] true.

(** One round of [GetSettings]' loop: the row of a key decoded into its
    field. *)
Definition read_row (s : Settings) (key v : string) : res Settings :=
  let '(MkSettings a b c d e f g h i j k l m n p) := s in
  let get {A} (r : res A) (put : A -> Settings) : res Settings := match r with inl x => inl x | inr y => inr (put y) end in
  if bool_decide (key = settingDownloadRateLimit) then get (settingInt v) (fun x => MkSettings x b c d e f g h i j k l m n p)
  else if bool_decide (key = settingUploadRateLimit) then get (settingInt v) (fun x => MkSettings a x c d e f g h i j k l m n p)
  else if bool_decide (key = settingAltDownloadRateLimit) then get (settingInt v) (fun x => MkSettings a b x d e f g h i j k l m n p)
  else if bool_decide (key = settingAltUploadRateLimit) then get (settingInt v) (fun x => MkSettings a b c x e f g h i j k l m n p)
  else if bool_decide (key = settingScheduleEnabled) then get (settingBool v) (fun x => MkSettings a b c d x f g h i j k l m n p)
  else if bool_decide (key = settingDefaultDestination) then get (settingString v) (fun x => MkSettings a b c d e x g h i j k l m n p)
  else if bool_decide (key = settingMinFreeSpace) then get (settingIntMap v) (fun x => MkSettings a b c d e f x h i j k l m n p)
  else if bool_decide (key = settingMaxActiveTotal) then get (settingInt v) (fun x => MkSettings a b c d e f g x i j k l m n p)
  else if bool_decide (key = settingMaxActivePerEngine) then get (settingInt v) (fun x => MkSettings a b c d e f g h x j k l m n p)
  else if bool_decide (key = settingProcessOrder) then get (settingString v) (fun x => MkSettings a b c d e f g h i x k l m n p)
  else if bool_decide (key = settingRSSEnabled) then get (settingBool v) (fun x => MkSettings a b c d e f g h i j x l m n p)
  else if bool_decide (key = settingRSSIntervalS) then get (settingInt v) (fun x => MkSettings a b c d e f g h i j k x m n p)
  else if bool_decide (key = settingAutoExtract) then get (settingBool v) (fun x => MkSettings a b c d e f g h i j k l x n p)
  else if bool_decide (key = settingExtractPasswords) then get (settingStringSlice v) (fun x => MkSettings a b c d e f g h i j k l m x p)
  else if bool_decide (key = settingConfirmOnDelete) then get (settingBool v) (fun x => MkSettings a b c d e f g h i j k l m n x)
  else inl ErrArgument.
Fixpoint read_rows (s : Settings) (rows : list (string * string)) : res Settings :=
  match rows with
  | [] => inr s
  | (key, v) :: rows => match read_row s key v with inl e => inl e | inr s => read_rows s rows end
  end.
(** The documented keys only. *)
Definition queryAllSettings (d : confdb) : list (string * string) :=
  (fun p => (p.1, ValueJSON p.2)) <$> List.filter (fun p => contains settingsKeys p.1) (map_to_list (c_settings d)).

Definition redacted : list Z := bytes_of "__redacted__".
Definition quoted_redacted : list Z := 34 :: redacted ++ [34].
Definition canonical_path (p : list Z) : bool := SafeJoin.IsAbs p && bool_decide (SafeJoin.Clean p = p).
Definition rendered (v : json) : res (string * bool) := inr (string_of (render v), false).
Definition outOfRange : res (string * bool) := inl ErrSettingOutOfRange.
(** [canonicalSetting]: the stored text of one member, and whether it is
    skipped. *)
Definition canonicalSetting (key : string) (raw : string) : res (string * bool) :=
  let bounded lo hi := match settingInt raw with
    | inr n => if (n <? lo) || (hi <? n) then outOfRange else rendered (of_int64 n)
    | inl _ => outOfRange
    end in
  if contains [settingDownloadRateLimit; settingUploadRateLimit; settingAltDownloadRateLimit; settingAltUploadRateLimit] key
  then bounded 0 int64_max
  else if contains [settingMaxActiveTotal; settingMaxActivePerEngine] key then bounded 0 math_MaxInt32
  else if bool_decide (key = settingRSSIntervalS) then bounded rssIntervalSFloor int64_max
  else if contains [settingScheduleEnabled; settingRSSEnabled; settingAutoExtract; settingConfirmOnDelete] key then
    match settingBool raw with inr b => rendered (JBool b) | inl _ => outOfRange end
  else if bool_decide (key = settingProcessOrder) then
    match settingString raw with
    | inr v => if bool_decide (v = processOrderByDateCreated) then rendered (JString (bytes_of processOrderByDateCreated)) else outOfRange
    | inl _ => outOfRange
    end
  else if bool_decide (key = settingDefaultDestination) then
    match settingValue decode_string raw with
    | inr v => if bool_decide (v = []) || bool_decide (v = redacted) || negb (canonical_path v) then outOfRange else rendered (JString v)
    | inl _ => outOfRange
    end
  else if bool_decide (key = settingMinFreeSpace) then
    match settingIntMap raw with
    | inr m => if forallb (fun p => canonical_path p.1 && (0 <=? p.2)) (map_to_list m) then rendered (of_int_map m) else outOfRange
    | inl _ => outOfRange
    end
  else if bool_decide (key = settingExtractPasswords) then
    if bool_decide (bytes_of raw = quoted_redacted) then inr (EmptyString, true)
    else match settingValue decode_strings raw with inr l => rendered (of_strings l) | inl _ => outOfRange end
  else inl ErrUnknownSettingKey.

(** The first loop of [PutSettings]. *)
Fixpoint canonical_members (patch : list (string * string)) : res (list (string * string)) :=
  match patch with
  | [] => inr []
  | (key, raw) :: patch =>
    match canonicalSetting key raw with
    | inl e => inl e
    | inr (encoded, skip) =>
      match canonical_members patch with
      | inl e => inl e
      | inr writes => inr (if skip : bool then writes else (key, encoded) :: writes)
      end
    end
  end.

(** What is kept when a list is appended to and capped: the newest. *)
Definition MaxExtractPasswords : nat := 16.
Definition MaxWatchFolderLoaded : nat := Z.to_nat 4096.
Definition last_n {A} (n : nat) (l : list A) : list A := drop (length l - n) l.
Definition appended {A} (cap : nat) (l : list A) (x : A) : list A := last_n cap (l ++ [x]).
Definition watchFolderLoadedKey (folderID : string) : string := "watch_folder_loaded_" +:+ folderID.
(** [json.Unmarshal] into a list: [null] is the empty one. *)
Definition stored_list (v : string) : res (list (list Z)) :=
  match Unmarshal decode_strings (bytes_of v) with Some l => inr (default [] l) | None => inl ErrDecode end.

Section SettingRows.
Context {R : Type}.
Abbreviation M := (M (conf R)).

Definition GetInt64 (key : string) (def : Z) : M Z :=
  row ← query_conf (querySettingValue key);
  match row with None => mret def | Some v => of_res (settingInt v) end.
Definition SetInt64 (key : string) (v : Z) : M unit :=
  now ← unix_milli; exec_conf (queryUpsertSetting key (string_of (FormatInt v)) now) ;; mret tt.
Definition DefaultDestination : M string :=
  row ← query_conf (querySettingValue settingDefaultDestination);
  match row with
  | None => mret EmptyString
  | Some v =>
    if bool_decide (v = EmptyString) then mret EmptyString
    else match Unmarshal decode_string (bytes_of v) with Some s => mret (string_of (default [] s)) | None => fail ErrDecode end
  end.
Definition GetSettings : M Settings := rows ← query_conf queryAllSettings; of_res (read_rows default_settings rows).

Fixpoint write_members (writes : list (string * string)) (now : Z) : M unit :=
  match writes with
  | [] => mret tt
  | (key, encoded) :: writes => exec_conf (queryUpsertSetting key encoded now) ;; write_members writes now
  end.
Definition PutSettings (patch : gmap string string) : M Settings :=
  writes ← of_res (canonical_members (map_to_list patch));
  (if bool_decide (writes = []) then mret tt
   else conf_tx (now ← unix_milli; write_members writes now ;; commit_conf)) ;;
  GetSettings.

Definition ExtractPasswords : M (list (list Z)) :=
  row ← query_conf (querySettingValue settingExtractPasswords);
  match row with None => mret [] | Some v => of_res (stored_list v) end.
(** The body [AppendExtractPassword] and [MarkWatchFolderLoaded] share. *)
Definition append_capped (key : string) (cap : nat) (x : list Z) : M unit :=
  conf_tx (
    row ← query_conf (querySettingValue key);
    l ← match row with None => mret [] | Some v => of_res (stored_list v) end;
    if contains l x then mret tt
    else
      now ← unix_milli;
      exec_conf (queryUpsertSetting key (string_of (render (of_strings (appended cap l x)))) now) ;; commit_conf).
Definition AppendExtractPassword (pw : list Z) : M unit := append_capped settingExtractPasswords MaxExtractPasswords pw.
Definition ExtractPassword (id : string) : M string :=
  p ← conf_row (fun d => TK_ExtractPassword <$> c_tasks d !! id); mret (default EmptyString p).

Definition WatchFolderLoaded (folderID : string) (infohash : list Z) : M bool :=
  row ← query_conf (querySettingValue (watchFolderLoadedKey folderID));
  match row with None => mret false | Some v => l ← of_res (stored_list v); mret (contains l infohash) end.
Definition MarkWatchFolderLoaded (folderID : string) (infohash : list Z) : M unit :=
  append_capped (watchFolderLoadedKey folderID) MaxWatchFolderLoaded infohash.

Definition ListWatchFolders : M (list (string * WatchFolderRow * option string)) := query_conf queryListWatchFolders.
Definition ListEnabledWatchFolders : M (list (string * WatchFolderRow * option string)) := query_conf queryListEnabledWatchFolders.
Definition GetWatchFolder (id : string) : M (WatchFolderRow * option string) := conf_row (queryWatchFolderByID id).
Definition TouchWatchFolder (id : string) (at_ : Z) (lastErr : string) : M unit := some_row (queryTouchWatchFolder id at_ lastErr).
Definition SeedWatchFolder (path destination : string) : M bool :=
  now ← unix_milli; id ← NewID "wfd_"; k ← exec_conf (querySeedWatchFolder id path destination now); mret (k =? 1).
Definition CreateWatchFolder (id : string) (f : WatchFolderRow) (categoryID : option string) : M unit :=
  now ← unix_milli; conflict (exec_conf (queryCreateWatchFolder id f categoryID now)) ;; mret tt.
Definition UpdateWatchFolder (id : string) (p : WatchFolderPatch) : M unit :=
  now ← unix_milli; conflict (some_row (queryUpdateWatchFolder id p now)).
Definition DeleteWatchFolder (id : string) : M unit := some_row (queryDeleteWatchFolder id).
End SettingRows.

(** ** Preferences *)

Section Prefs.
Context {R V : Type} (Marshal : V -> option string) (Unmarshal_any : string -> option V).
Abbreviation M := (M (conf R)).

(** [Marshal] and [Unmarshal_any] are package json on [any], whose numbers are
    floats. *)
Definition queryPrefs (user : string) (d : confdb) : list (string * string) :=
  (fun p => (p.1.2, p.2)) <$> List.filter (fun p => bool_decide (p.1.1 = user)) (map_to_list (c_prefs d)).
Definition queryDeletePrefs (user : string) : conf_stmt := fun d =>
  let gone := filter (fun p => p.1.1 = user) (c_prefs d) in
  inr (put_prefs (c_prefs d ∖ gone) d, Z.of_nat (size gone)).
Definition queryInsertPref (user key value : string) : conf_stmt := fun d =>
  if bool_decide (is_Some (c_prefs d !! (user, key))) then inl Unique
  else if negb (bool_decide (user ∈ c_accounts d)) then inl OtherConstraint
  else inr (put_prefs (<[(user, key) := value]> (c_prefs d)) d, 1).
Fixpoint decode_prefs (doc : gmap string V) (rows : list (string * string)) : res (gmap string V) :=
  match rows with
  | [] => inr doc
  | (key, v) :: rows => match Unmarshal_any v with Some x => decode_prefs (<[key := x]> doc) rows | None => inl ErrDecode end
  end.
Definition Prefs (user : string) : M (gmap string V) := rows ← query_conf (queryPrefs user); of_res (decode_prefs ∅ rows).
Fixpoint insert_prefs (user : string) (doc : list (string * V)) : M unit :=
  match doc with
  | [] => mret tt
  | (key, x) :: doc =>
    match Marshal x with
    | None => fail ErrDecode
    | Some v => exec_conf (queryInsertPref user key v) ;; insert_prefs user doc
    end
  end.
Definition PutPrefs (user : string) (doc : gmap string V) : M unit :=
  conf_tx (exec_conf (queryDeletePrefs user) ;; unix_milli ;; insert_prefs user (map_to_list doc) ;; commit_conf).
End Prefs.

(** ** The schedule *)

Definition ScheduleNoDownload : string := "no_download".
Definition ScheduleDefault : string := "default".
Definition ScheduleAlternative : string := "alternative".
Definition schedule_modes : list string := [ScheduleNoDownload; ScheduleDefault; ScheduleAlternative].
Definition cell_index (day hour : Z) : nat := Z.to_nat (day * 24 + hour).
(** [ORDER BY day, hour]. *)
Definition querySchedule (d : confdb) : list (Z * Z * string) :=
  (fun p => (p.1, Cell_Mode p.2)) <$> sort_by (less (then_by (by_Z (fun p => p.1.1)) (by_Z (fun p => p.1.2)))) (map_to_list (c_schedule d)).
Fixpoint decode_cells (cells : list string) (rows : list (Z * Z * string)) : res (list string) :=
  match rows with
  | [] => inr cells
  | (day, hour, mode) :: rows =>
    if (day <? 0) || (6 <? day) || (hour <? 0) || (23 <? hour) then inl ErrDecode
    else if negb (contains schedule_modes mode) then inl ErrDecode
    else if negb (bool_decide (cells !! cell_index day hour = Some EmptyString)) then inl ErrDecode
    else decode_cells (<[cell_index day hour := mode]> cells) rows
  end.
Definition queryReplaceScheduleCell (mode : string) (now day hour : Z) : conf_stmt := fun d =>
  match c_schedule d !! (day, hour) with
  | None => inr (d, 0)
  | Some _ =>
    if negb (contains schedule_modes mode) then inl OtherConstraint
    else inr (put_schedule (<[(day, hour) := MkCell mode now]> (c_schedule d)) d, 1)
  end.

Section ScheduleRows.
Context {R : Type}.
Abbreviation M := (M (conf R)).

Definition scheduleCells : M (list string) :=
  rows ← query_conf querySchedule;
  if negb (length rows =? 168)%nat then fail ErrDecode else of_res (decode_cells (replicate 168 EmptyString) rows).
Definition scheduleEnabled : M bool :=
  row ← query_conf (querySettingValue settingScheduleEnabled);
  match row with None => mret false | Some v => of_res (settingBool v) end.
Definition Schedule : M (list string) := scheduleCells.
Definition ScheduleEnabled : M bool := scheduleEnabled.
Definition ScheduleSnapshot : M (list string * bool) :=
  conf_tx (cells ← scheduleCells; enabled ← scheduleEnabled; commit_conf ;; mret (cells, enabled)).
Fixpoint write_cells (i : Z) (cells : list string) (now : Z) : M unit :=
  match cells with
  | [] => mret tt
  | mode :: cells =>
    k ← exec_conf (queryReplaceScheduleCell mode now (i / 24) (i mod 24));
    if k =? 1 then write_cells (i + 1) cells now else fail ErrArgument
  end.
(** [cells] is a Go array of 168 modes. *)
Definition ReplaceSchedule (enabled : bool) (cells : list string) : M unit :=
  if negb (forallb (contains schedule_modes) cells) then fail ErrArgument
  else conf_tx (
    now ← unix_milli;
    exec_conf (queryUpsertSetting settingScheduleEnabled (string_of (render (JBool enabled))) now) ;;
    write_cells 0 cells now ;; commit_conf).
End ScheduleRows.

(** ** The schedule tick *)

Section Tick.
(** [now.In(time.Local)]: the weekday, Sunday 0, and the hour. *)
Context {R : Type} `{!EngineApi (conf R)} (local : Z -> Z * Z).
Abbreviation M := (M (conf R)).

Definition activeCell (cells : list string) (now : Z) : string :=
  let (weekday, hour) := local now in
  default EmptyString (cells !! cell_index ((weekday + 6) mod 7) hour).
Definition mode_of (cell : string) : option Mode :=
  if bool_decide (cell = ScheduleNoDownload) then Some ModeNoDownload
  else if bool_decide (cell = ScheduleDefault) then Some ModeDefault
  else if bool_decide (cell = ScheduleAlternative) then Some ModeAlternative
  else None.
(** [EvaluateSchedule] with a governor attached. *)
Definition EvaluateSchedule (g : Gov) (now : Z) : M (res unit * Gov) :=
  s ← attempt ScheduleSnapshot;
  match s with
  | inl e => mret (inl e, g)
  | inr (cells, enabled) =>
    if negb enabled then mret (inr tt, g)
    else match mode_of (activeCell cells now) with
    | None => mret (inl ErrArgument, g)
    | Some m => ApplyMode g m
    end
  end.
End Tick.
