(* ===== verification/SettingsProps.v ===== *)
(** * What the configuration store guarantees

    Rules for its statements and transactions; a patch of the settings and a
    replacement of the schedule land whole or not at all and read back; capped
    lists; deletions; sealed secrets. *)

From stdpp Require Import fin_maps sorting pretty.
From S2P Require Import Prelude GoStrings Schema Lease World Store Scenario Engine SafeJoin Uri Json Governor Settings.

Open Scope Z_scope.

Section Rules.
Context {R : Type}.
Abbreviation M := (M (conf R)).
Abbreviation world := (world (conf R)).
Implicit Types (o : oracle) (w : world).

(** No transaction is open over the tables. *)
Definition at_rest (w : world) : Prop := conf_working (w_eng w) = None.
Definition saved (w : world) : confdb := conf_committed (w_eng w).

(** ** Inside a transaction *)

(** A command before the commit: the copy moves as [Q] says, nothing else. *)
Definition during {A} (m : M A) (Q : confdb -> A -> confdb -> Prop) : Prop := forall o w d t r,
  w_eng w = MkConf d (Some t) r ->
  exists t', w_eng (m o w).2 = MkConf d (Some t') r /\ forall x, (m o w).1 = inr x -> Q t x t'.
(** The rest of a transaction, commit included: what is committed then. *)
Definition ending {A} (m : M A) (P : confdb -> confdb -> A -> confdb -> Prop) : Prop := forall o w d t r,
  w_eng w = MkConf d (Some t) r ->
  exists c, (w_eng (m o w).2 = MkConf c None r \/ exists t', w_eng (m o w).2 = MkConf c (Some t') r) /\
    (c = d \/ exists x, P d t x c) /\ forall x, (m o w).1 = inr x -> P d t x c.

Lemma during_weaken {A} (m : M A) (Q Q' : confdb -> A -> confdb -> Prop) :
  during m Q -> (forall t x t', Q t x t' -> Q' t x t') -> during m Q'.
Proof. intros Hm Hq o w d t r Hw. destruct (Hm o w d t r Hw) as (t' & He & Hx). exists t'. eauto. Qed.
Lemma during_ret {A} (x : A) : during (mret x) (fun t y t' => t' = t /\ y = x).
Proof. intros o w d t r Hw. exists t. split; [done|]. by intros y [= <-]. Qed.
Lemma during_fail {A} e : during (fail (A := A) e) (fun _ _ _ => False).
Proof. intros o w d t r Hw. by exists t. Qed.
Lemma during_of_res {A} (r : res A) : during (of_res r) (fun t x t' => t' = t /\ r = inr x).
Proof. destruct r as [e|x]; cbn [of_res]; [eapply during_weaken; [apply during_fail|done]|]. eapply during_weaken; [apply during_ret|]. by intros t y t' [-> ->]. Qed.
Lemma during_bind {A B} (m : M A) (k : A -> M B) Q K :
  during m Q -> (forall x, during (k x) (K x)) -> during (m ≫= k) (fun t y t' => exists x t1, Q t x t1 /\ K x t1 y t').
Proof.
  intros Hm Hk o w d t r Hw. destruct (Hm o w d t r Hw) as (t1 & He & Hx). unfold mbind, M_bind.
  destruct (m o w) as [[e|x] w1]; cbn [fst snd] in *; [by exists t1|].
  destruct (Hk x o w1 d t1 r He) as (t2 & He2 & Hy). exists t2. split; [done|]. intros y Hr. exists x, t1. auto.
Qed.
Lemma during_clock : during unix_milli (fun t _ t' => t' = t).
Proof. intros o w d t r Hw. exists t. by split. Qed.
Lemma during_query {A} (q : confdb -> A) : during (query_conf q) (fun t x t' => t' = t /\ x = q t).
Proof.
  intros o w d t r Hw. exists t. unfold query_conf, conf_of. rewrite Hw. destruct (o_io o (w_n w)); (split; [done|]); [|done..]. by intros x [= <-].
Qed.
Lemma during_exec q : during (exec_conf q) (fun t k t' => q t = inr (t', k)).
Proof.
  intros o w d t r Hw. unfold exec_conf, conf_of, put_conf. rewrite Hw. cbn [seen_conf conf_working conf_committed default from_option id].
  destruct (q t) as [f|[t' k]] eqn:Hq; destruct (o_io o (w_n w)); cbn [fst snd w_eng bump set_eng]; try by exists t.
  - exists t'. split; [done|]. by intros x [= <-].
  - by exists t'.
Qed.
Lemma during_some_row q : during (some_row q) (fun t _ t' => exists k, q t = inr (t', k) /\ k <> 0).
Proof.
  unfold some_row. eapply during_weaken; [apply during_bind; [apply during_exec|intros k]|].
  - instantiate (1 := fun k t _ t' => t' = t /\ k <> 0). cbn. destruct (Z.eqb_spec k 0).
    + eapply during_weaken; [apply during_fail|done].
    + eapply during_weaken; [apply during_ret|]. by intros t y t' [-> _].
  - intros t [] t' (k & t1 & Hq & -> & Hk). eauto.
Qed.

Lemma ending_weaken {A} (m : M A) (P P' : confdb -> confdb -> A -> confdb -> Prop) :
  ending m P -> (forall d t x c, P d t x c -> P' d t x c) -> ending m P'.
Proof.
  intros Hm Hp o w d t r Hw. destruct (Hm o w d t r Hw) as (c & He & Hc & Hx). exists c. split_and!; [done| |eauto].
  destruct Hc as [|[x Hc]]; [by left|right; eauto].
Qed.
Lemma ending_commit {A} (x : A) : ending (commit_conf ;; mret x) (fun d t y c => c = t /\ y = x).
Proof.
  intros o w d t r Hw. unfold commit_conf, mbind, M_bind, conf_of, leave_conf. rewrite Hw. cbn [seen_conf conf_working conf_committed default from_option id beyond].
  destruct (o_io o (w_n w)); cbn; [exists t|exists d|exists t];
    (split_and!; [by left|first [by left|by right; exists x]|first [done|by intros y [= <-]]]).
Qed.
Lemma ending_commit_only : ending commit_conf (fun d t _ c => c = t).
Proof.
  intros o w d t r Hw. unfold commit_conf, conf_of, leave_conf. rewrite Hw. cbn [seen_conf conf_working conf_committed default from_option id beyond].
  destruct (o_io o (w_n w)); cbn; [exists t|exists d|exists t];
    (split_and!; [by left|first [by left|by right; exists tt]|done]).
Qed.
Lemma ending_ret {A} (x : A) : ending (mret x) (fun d t y c => c = d /\ y = x).
Proof. intros o w d t r Hw. exists d. split_and!; [right; eauto|by left|]. by intros y [= <-]. Qed.
Lemma ending_bind {A B} (m : M A) (k : A -> M B) Q K :
  during m Q -> (forall x, ending (k x) (K x)) -> ending (m ≫= k) (fun d t y c => exists x t1, Q t x t1 /\ K x d t1 y c).
Proof.
  intros Hm Hk o w d t r Hw. destruct (Hm o w d t r Hw) as (t1 & He & Hx). unfold mbind, M_bind.
  destruct (m o w) as [[e|x] w1]; cbn [fst snd] in *; [exists d; split_and!; [right; eauto|by left|done]|].
  specialize (Hx x eq_refl). destruct (Hk x o w1 d t1 r He) as (c & Hc & Hp & Hy). exists c. split_and!; [done| |].
  - destruct Hp as [|[y Hp]]; [by left|right; eauto 10].
  - intros y Hr. eauto 10.
Qed.

(** A transaction is all or nothing, whatever the driver answers. *)
Lemma conf_tx_ending {A} (body : M A) P o w : ending body P -> at_rest w ->
  exists c, w_eng (conf_tx body o w).2 = MkConf c None (beyond (w_eng w)) /\
    (c = saved w \/ exists x, P (saved w) (saved w) x c) /\ forall x, (conf_tx body o w).1 = inr x -> P (saved w) (saved w) x c.
Proof.
  unfold at_rest, saved. intros Hb Hw. unfold conf_tx. rewrite bind_run. unfold begin_conf.
  destruct (w_eng w) as [d t r] eqn:He. cbn [conf_working conf_committed beyond] in *. subst t.
  destruct (o_io o (w_n w)); cbn [fst snd]; [|exists d; by split_and!; [|left|]..].
  set (w1 := bump _). destruct (Hb o w1 d d r) as (c & Hc & Hp & Hx); [done|]. unfold conf_rolled_back.
  destruct (body o w1) as [res w2]. cbn [fst snd] in *. exists c. split_and!; [|done..].
  unfold leave_conf. by destruct Hc as [Hc|[t' Hc]]; rewrite Hc.
Qed.
End Rules.

(** ** Values: what is written reads back *)

Lemma settingValue_text {A} (decode : json -> option (option A)) text x :
  Forall is_byte text -> Unmarshal decode text = Some (Some x) -> settingValue decode (string_of text) = inr x.
Proof. intros Hb Hx. unfold settingValue. by rewrite bytes_of_string, Hx. Qed.
Lemma settingValue_decoded {A} (decode : json -> option (option A)) raw x :
  settingValue decode raw = inr x -> Unmarshal decode (bytes_of raw) = Some (Some x).
Proof. unfold settingValue. destruct (Unmarshal _ _) as [[y|]|]; [|done..]. by intros [= ->]. Qed.
Lemma int_written n : in_int64 n -> settingInt (string_of (render (of_int64 n))) = inr n.
Proof. intros Hn. apply settingValue_text; [apply bytes_are_bytes|by apply int64_roundtrip]. Qed.
Lemma bool_written b : settingBool (string_of (render (JBool b))) = inr b.
Proof. by destruct b. Qed.
Lemma text_written s : utf8_text s -> settingValue decode_string (string_of (render (JString s))) = inr s.
Proof. intros Hs. apply settingValue_text; [by apply quote_bytes|by apply string_roundtrip]. Qed.
Lemma texts_written l : Forall utf8_text l -> settingValue decode_strings (string_of (render (of_strings l))) = inr l.
Proof. intros Hl. apply settingValue_text; [by apply strings_bytes|by apply strings_roundtrip]. Qed.
Lemma map_written m : map_texts m -> settingIntMap (string_of (render (of_int_map m))) = inr m.
Proof. intros Hm. apply settingValue_text; [by apply int_map_bytes|by apply int_map_roundtrip]. Qed.

(** An accepted member is stored as a text its key's decoder reads as the
    client's own. *)
Definition same_reading (key x y : string) : Prop := forall s, exists s', read_row s key x = inr s' /\ read_row s key y = inr s'.
Ltac settle key_in :=
  repeat (apply list.elem_of_cons in key_in as [->|key_in]); [..|by apply not_elem_of_nil in key_in];
  intros s; destruct s; eexists; unfold read_row; cbn -[settingInt settingBool settingString settingStringSlice settingIntMap].

Lemma canonical_reads key raw enc : canonicalSetting key raw = inr (enc, false) -> key ∈ settingsKeys /\ same_reading key enc raw.
Proof.
  unfold canonicalSetting, outOfRange, rendered. set (ks := settingsKeys).
  assert (Hks : forall l, Forall (.∈ settingsKeys) l -> key ∈ l -> key ∈ ks) by (intros l Hl Hk; by rewrite list.Forall_forall in Hl; apply Hl).
  assert (Hint : forall lo hi l, Forall (.∈ settingsKeys) l -> (forall e n, settingInt e = inr n -> settingInt raw = inr n -> same_reading key e raw) ->
    key ∈ l -> match settingInt raw with inr n => if (n <? lo) || (hi <? n) then inl ErrSettingOutOfRange else inr (string_of (render (of_int64 n)), false)
      | inl _ => inl ErrSettingOutOfRange end = inr (enc, false) -> key ∈ ks /\ same_reading key enc raw).
  { intros lo hi l Hl Hs Hk. destruct (settingInt raw) as [|n] eqn:Hn; [done|]. destruct (_ || _); [done|]. intros [= <-].
    split; [by eapply Hks|]. eapply Hs; [|done]. apply int_written. eapply decoded_int64, settingValue_decoded, Hn. }
  destruct (contains _ key) eqn:Hk; [apply contains_spec in Hk|clear Hk].
  { eapply Hint; [|intros e n He Hn; settle Hk; rewrite He, Hn; by split|done]. repeat constructor; set_solver. }
  destruct (contains _ key) eqn:Hk; [apply contains_spec in Hk|clear Hk].
  { eapply Hint; [|intros e n He Hn; settle Hk; rewrite He, Hn; by split|done]. repeat constructor; set_solver. }
  destruct (bool_decide (key = _)) eqn:Hk; [apply bool_decide_eq_true, list_elem_of_singleton in Hk|clear Hk].
  { eapply Hint; [|intros e n He Hn; settle Hk; rewrite He, Hn; by split|done]. repeat constructor; set_solver. }
  clear Hint. destruct (contains _ key) eqn:Hk; [apply contains_spec in Hk|clear Hk].
  { destruct (settingBool raw) as [|b] eqn:Hb; [done|]. intros [= Henc]. assert (He : settingBool enc = inr b) by (rewrite <- Henc; apply bool_written).
    split; [eapply Hks, Hk; repeat constructor; set_solver|]. settle Hk; rewrite He, Hb; by split. }
  destruct (bool_decide (key = _)) eqn:Hk; [apply bool_decide_eq_true, list_elem_of_singleton in Hk|clear Hk].
  { destruct (settingString raw) as [|v] eqn:Hv; [done|]. case_bool_decide; [|done]. subst v. intros [= Henc].
    assert (He : settingString enc = inr processOrderByDateCreated) by (rewrite <- Henc; by vm_compute).
    split; [eapply Hks, Hk; repeat constructor; set_solver|]. settle Hk; rewrite He, Hv; by split. }
  destruct (bool_decide (key = _)) eqn:Hk; [apply bool_decide_eq_true, list_elem_of_singleton in Hk|clear Hk].
  { destruct (settingValue decode_string raw) as [|v] eqn:Hv; [done|]. destruct (_ || _); [done|]. intros [= Henc].
    assert (He : settingValue decode_string enc = inr v) by (rewrite <- Henc; by eapply text_written, decoded_string, settingValue_decoded).
    split; [eapply Hks, Hk; repeat constructor; set_solver|]. settle Hk; unfold settingString; rewrite He, Hv; by split. }
  destruct (bool_decide (key = _)) eqn:Hk; [apply bool_decide_eq_true, list_elem_of_singleton in Hk|clear Hk].
  { destruct (settingIntMap raw) as [|m] eqn:Hm; [done|]. destruct (forallb _ _); [|done]. intros [= Henc].
    assert (He : settingIntMap enc = inr m) by (rewrite <- Henc; by eapply map_written, decoded_int_map, settingValue_decoded).
    split; [eapply Hks, Hk; repeat constructor; set_solver|]. settle Hk; rewrite He, Hm; by split. }
  destruct (bool_decide (key = _)) eqn:Hk; [apply bool_decide_eq_true, list_elem_of_singleton in Hk|done].
  case_bool_decide; [done|]. destruct (settingValue decode_strings raw) as [|l] eqn:Hl; [done|]. intros [= Henc].
  assert (He : settingValue decode_strings enc = inr l) by (rewrite <- Henc; by eapply texts_written, decoded_strings, settingValue_decoded).
  split; [eapply Hks, Hk; repeat constructor; set_solver|]. settle Hk; unfold settingStringSlice; rewrite He, Hl; by split.
Qed.

(** ** The settings a document of texts stands for *)

(** The field of a key, [def] when the key has no text. *)
Definition field {A} (get : string -> res A) (key : string) (def : A) (m : gmap string string) : res A :=
  match m !! key with Some v => get v | None => inr def end.
(** Every documented key under its own decoder, over the values of [s]. *)
Definition settings_over (s : Settings) (m : gmap string string) : res Settings :=
  match field settingInt settingDownloadRateLimit (DownloadRateLimit s) m, field settingInt settingUploadRateLimit (UploadRateLimit s) m,
    field settingInt settingAltDownloadRateLimit (AltDownloadRate s) m, field settingInt settingAltUploadRateLimit (AltUploadRate s) m,
    field settingBool settingScheduleEnabled (ScheduleEnabledField s) m, field settingString settingDefaultDestination (DefaultDestinationField s) m,
    field settingIntMap settingMinFreeSpace (MinFreeSpace s) m, field settingInt settingMaxActiveTotal (MaxActiveTotal s) m,
    field settingInt settingMaxActivePerEngine (MaxActivePerEngine s) m, field settingString settingProcessOrder (ProcessOrder s) m,
    field settingBool settingRSSEnabled (RSSEnabled s) m, field settingInt settingRSSIntervalS (RSSIntervalS s) m,
    field settingBool settingAutoExtract (AutoExtract s) m, field settingStringSlice settingExtractPasswords (ExtractPasswordsField s) m,
    field settingBool settingConfirmOnDelete (ConfirmOnDelete s) m
  with
  | inr a, inr b, inr c, inr d, inr e, inr f, inr g, inr h, inr i, inr j, inr k, inr l, inr x, inr y, inr z =>
    inr (MkSettings a b c d e f g h i j k l x y z)
  | _, _, _, _, _, _, _, _, _, _, _, _, _, _, _ => inl ErrDecode
  end.

Lemma value_error {A} (decode : json -> option (option A)) v e : settingValue decode v = inl e -> e = ErrDecode.
Proof. unfold settingValue. destruct (Unmarshal _ _) as [[]|]; by intros [= <-]. Qed.
Lemma string_error v e : settingString v = inl e -> e = ErrDecode.
Proof. unfold settingString. destruct (settingValue _ v) eqn:Hv; [|done]. intros [= <-]. by eapply value_error. Qed.
Lemma slice_error v e : settingStringSlice v = inl e -> e = ErrDecode.
Proof. unfold settingStringSlice. destruct (settingValue _ v) eqn:Hv; [|done]. intros [= <-]. by eapply value_error. Qed.

Lemma settings_over_empty s : settings_over s ∅ = inr s.
Proof. by destruct s. Qed.
Lemma field_insert {A} (get : string -> res A) key def v m : field get key def (<[key := v]> m) = get v.
Proof. unfold field. by rewrite lookup_insert_eq. Qed.
Lemma field_insert_ne {A} (get : string -> res A) key key' def v m : key' <> key -> field get key def (<[key' := v]> m) = field get key def m.
Proof. intros Hk. unfold field. by rewrite lookup_insert_ne. Qed.
Lemma field_none {A} (get : string -> res A) key def m : m !! key = None -> field get key def m = inr def.
Proof. intros Hk. unfold field. by rewrite Hk. Qed.
Ltac known_key :=
  repeat match goal with |- context [if bool_decide ?P then _ else _] =>
    first [rewrite (bool_decide_true P) by done|rewrite (bool_decide_false P) by done] end.
(** The texts may be read in any order: no two keys share a field. *)
Lemma settings_over_insert s key v m : key ∈ settingsKeys -> m !! key = None ->
  settings_over s (<[key := v]> m) = match read_row s key v with inr s' => settings_over s' m | inl _ => inl ErrDecode end.
Proof.
  intros Hk Hm. destruct s. unfold settings_over at 1.
  repeat (apply list.elem_of_cons in Hk as [->|Hk]); [..|by apply not_elem_of_nil in Hk];
    rewrite field_insert, !field_insert_ne by done; unfold read_row;
    known_key;
    (lazymatch goal with |- _ = match match ?g with _ => _ end with _ => _ end => destruct g end;
    [repeat lazymatch goal with |- match ?x with _ => _ end = _ => destruct x; try reflexivity end; try reflexivity
    |unfold settings_over; cbn -[settingInt settingBool settingString settingStringSlice settingIntMap field]; by rewrite (field_none _ _ _ _ Hm)]).
Qed.

Lemma read_rows_over rows s : NoDup rows.*1 -> Forall (.∈ settingsKeys) rows.*1 ->
  settings_over s (list_to_map rows) = match read_rows s rows with inr s' => inr s' | inl _ => inl ErrDecode end.
Proof.
  revert s. induction rows as [|[key v] rows IH]; intros s Hn Hk; [apply settings_over_empty|]. cbn in *.
  apply list.NoDup_cons in Hn as [Hkey Hn]. apply list.Forall_cons in Hk as [Hin Hk].
  rewrite settings_over_insert by (done || by apply not_elem_of_list_to_map_1).
  destruct (read_row s key v) as [e|s']; [done|]. by apply IH.
Qed.
(** The documented texts of the tables. *)
Definition documented (m : gmap string string) : gmap string string := filter (fun p => p.1 ∈ settingsKeys) m.
Definition texts_of (d : confdb) : gmap string string := ValueJSON <$> c_settings d.
Definition settings_of (m : gmap string string) : res Settings := settings_over default_settings (documented m).

Lemma settings_of_rows m rows : rows ≡ₚ map_to_list (documented m) ->
  settings_of m = match read_rows default_settings rows with inr s => inr s | inl _ => inl ErrDecode end.
Proof.
  intros Hp. unfold settings_of. assert (Hn : NoDup rows.*1) by (rewrite Hp; apply NoDup_fst_map_to_list).
  rewrite <- read_rows_over; [|done|].
  - f_equal. symmetry. rewrite <- (list_to_map_to_list (documented m)). by apply list_to_map_proper.
  - rewrite Hp. apply list.Forall_fmap, list.Forall_forall. intros [k v] Hk%elem_of_map_to_list. by apply map_lookup_filter_Some in Hk as [_ ?].
Qed.
Lemma read_all d : settings_of (texts_of d) = match read_rows default_settings (queryAllSettings d) with inr s => inr s | inl _ => inl ErrDecode end.
Proof.
  apply settings_of_rows. unfold queryAllSettings, documented, texts_of. apply NoDup_Permutation; [|apply NoDup_map_to_list|].
  - apply (NoDup_fmap_1 fst). rewrite <- list_fmap_compose. eapply sublist_NoDup; [apply (NoDup_fst_map_to_list (c_settings d))|].
    apply (fmap_sublist fst). induction (map_to_list (c_settings d)) as [|p l IH]; [constructor|]. cbn [List.filter].
    destruct (contains _ _); [by apply sublist_skip|by apply sublist_cons].
  - intros [k v]. rewrite elem_of_map_to_list, map_lookup_filter_Some, lookup_fmap, list_elem_of_fmap. split.
    + intros ([k' row] & Heq & Hin). apply elem_of_filter_bool in Hin as [Hk Hin%elem_of_map_to_list]. simplify_eq/=.
      apply contains_spec in Hk. by rewrite Hin.
    + intros [Hv Hk]. destruct (c_settings d !! k) as [row|] eqn:Hr; [|done]. simplify_eq/=. exists (k, row). split; [done|].
      apply elem_of_filter_bool. split; [by apply contains_spec|]. by apply elem_of_map_to_list.
Qed.

(** Two documents whose texts read alike stand for the same settings. *)
Definition reads_alike (m m' : gmap string string) : Prop := forall key, key ∈ settingsKeys ->
  match m !! key, m' !! key with
  | Some x, Some y => x = y \/ same_reading key x y
  | None, None => True
  | _, _ => False
  end.
Lemma settings_of_alike m m' : reads_alike m m' -> settings_of m = settings_of m'.
Proof.
  intros Ha. set (rows := map_to_list (documented m)).
  assert (Hp : (fun p => (p.1, default EmptyString (m' !! p.1))) <$> rows ≡ₚ map_to_list (documented m')).
  { apply NoDup_Permutation; [|apply NoDup_map_to_list|].
    - apply (NoDup_fmap_1 fst). rewrite <- list_fmap_compose. apply NoDup_fst_map_to_list.
    - intros [k v]. rewrite list_elem_of_fmap, elem_of_map_to_list. unfold rows, documented. rewrite map_lookup_filter_Some. split.
      + intros ([k' x] & Heq & Hin%elem_of_map_to_list). apply map_lookup_filter_Some in Hin as [Hx Hk]. simplify_eq/=.
        specialize (Ha k' Hk). rewrite Hx in Ha. by destruct (m' !! k').
      + intros [Hv Hk]. specialize (Ha k Hk). rewrite Hv in Ha. destruct (m !! k) as [x|] eqn:Hx; [|done].
        exists (k, x). simpl. rewrite Hv. split; [done|]. apply elem_of_map_to_list. by apply map_lookup_filter_Some. }
  rewrite (settings_of_rows m rows) by done. rewrite (settings_of_rows m' _ Hp). clear Hp.
  assert (Hrows : Forall (fun p => p.1 ∈ settingsKeys /\ m !! p.1 = Some p.2) rows).
  { apply list.Forall_forall. intros [k x] Hin%elem_of_map_to_list. apply map_lookup_filter_Some in Hin as [Hx Hk]. by split. }
  clearbody rows. generalize default_settings as s. induction Hrows as [|[k x] rows [Hk Hx] Hrows IH]; intros s; [done|]. simpl in *.
  specialize (Ha k Hk). rewrite Hx in Ha. destruct (m' !! k) as [y|]; [|done]. simpl. destruct Ha as [<-|Hs].
  - destruct (read_row s k x); [done|]. by rewrite IH.
  - destruct (Hs s) as (s' & -> & ->). by rewrite IH.
Qed.

(** ** A patch of the settings *)

(** The member a client sends back unchanged. *)
Definition placeholder (key raw : string) : Prop := key = settingExtractPasswords /\ bytes_of raw = quoted_redacted.
#[export] Instance placeholder_dec key raw : Decision (placeholder key raw).
Proof. unfold placeholder. apply _. Defined.
(** The members of a patch that write. *)
Definition live (patch : gmap string string) : gmap string string := filter (fun p => ~ placeholder p.1 p.2) patch.
Definition acceptable (patch : gmap string string) : Prop :=
  forall key raw, patch !! key = Some raw -> placeholder key raw \/ exists enc, canonicalSetting key raw = inr (enc, false).

Lemma canonical_skip key raw enc : canonicalSetting key raw = inr (enc, true) -> placeholder key raw.
Proof.
  unfold canonicalSetting, outOfRange, rendered. repeat case_match; try done. intros _. split; by eapply bool_decide_eq_true_1.
Qed.
Lemma canonical_placeholder key raw : placeholder key raw -> canonicalSetting key raw = inr (EmptyString, true).
Proof.
  intros [-> Hr]. unfold canonicalSetting.
  repeat match goal with |- context [if ?b then _ else _] =>
    lazymatch b with context [raw] => fail | _ => let v := eval vm_compute in b in change b with v; cbn iota end end.
  by rewrite bool_decide_true.
Qed.
Lemma canonical_error key raw e : canonicalSetting key raw = inl e -> e = ErrUnknownSettingKey \/ e = ErrSettingOutOfRange.
Proof. unfold canonicalSetting, outOfRange, rendered. repeat case_match; intros [= <-]; auto. Qed.

Lemma canonical_members_spec patch : 
  match canonical_members patch with
  | inl e => (e = ErrUnknownSettingKey \/ e = ErrSettingOutOfRange) /\ exists key raw, (key, raw) ∈ patch /\ canonicalSetting key raw = inl e
  | inr writes => sublist writes.*1 patch.*1 /\
      (forall key enc, (key, enc) ∈ writes <-> exists raw, (key, raw) ∈ patch /\ canonicalSetting key raw = inr (enc, false)) /\
      forall key raw, (key, raw) ∈ patch -> exists r, canonicalSetting key raw = inr r
  end.
Proof.
  induction patch as [|[key raw] patch IH]; cbn.
  - split_and!; [constructor| |by intros ? ? ?%not_elem_of_nil]. intros k e. rewrite list.elem_of_nil. split; [done|]. intros (? & ?%not_elem_of_nil & _). done.
  - destruct (canonicalSetting key raw) as [e|[enc skip]] eqn:Hc.
    { split; [by eapply canonical_error|]. exists key, raw. split; [by left|done]. }
    destruct (canonical_members patch) as [e|writes].
    { destruct IH as (He & k & r & Hin & Hx). split; [done|]. exists k, r. split; [by right|done]. }
    destruct IH as (Hs & Hw & Hall). split_and!.
    + destruct skip; cbn; [by apply sublist_cons|by apply sublist_skip].
    + intros k e. transitivity ((skip = false /\ (k, e) = (key, enc)) \/ (k, e) ∈ writes).
      { destruct skip; [naive_solver|]. rewrite list.elem_of_cons. naive_solver. }
      rewrite Hw. split.
      * intros [[-> [= -> ->]]|(r & Hin & Hx)]; [exists raw; split; [by left|done]|exists r; split; [by right|done]].
      * intros (r & [[= -> ->]|Hin]%list.elem_of_cons & Hx); [left; rewrite Hc in Hx; by simplify_eq|right; eauto].
    + intros k r [[= -> ->]|Hin]%list.elem_of_cons; eauto.
Qed.

Definition upserted (writes : list (string * string)) (now : Z) (t : gmap string SettingRow) : gmap string SettingRow :=
  foldl (fun t p => <[p.1 := MkSettingRow p.2 (from_option SR_CreatedAt now (t !! p.1)) now]> t) t writes.
Lemma upserted_texts writes now t : NoDup writes.*1 ->
  ValueJSON <$> upserted writes now t = list_to_map writes ∪ (ValueJSON <$> t).
Proof.
  revert t. induction writes as [|[k v] writes IH]; intros t Hn; [symmetry; apply map_empty_union|].
  apply list.NoDup_cons in Hn as [Hk Hn]. cbn [fst] in Hk.
  change (upserted ((k, v) :: writes) now t) with (upserted writes now (<[k := MkSettingRow v (from_option SR_CreatedAt now (t !! k)) now]> t)).
  rewrite IH, fmap_insert by done. cbn [ValueJSON list_to_map uncurry].
  apply not_elem_of_list_to_map_1 in Hk. rewrite <- insert_union_r by done. by rewrite insert_union_l.
Qed.

Section Patch.
Context {R : Type}.
Abbreviation world := (world (conf R)).
Implicit Types (o : oracle) (w : world).

Lemma during_write_members writes now :
  during (R := R) (write_members writes now) (fun t _ t' => t' = put_settings (upserted writes now (c_settings t)) t).
Proof.
  induction writes as [|[k v] writes IH]; cbn [write_members].
  - eapply during_weaken; [apply during_ret|]. intros t [] t' [-> _]. by destruct t.
  - eapply during_weaken; [apply during_bind; [apply during_exec|intros n; exact IH]|].
    intros t [] t' (n & t1 & [= <- _] & ->). done.
Qed.

(** What a patch leaves when it lands: its live members under their keys, and
    nothing else moved. *)
Definition patched (patch : gmap string string) (d c : confdb) : Prop :=
  c = put_settings (c_settings c) d /\ reads_alike (texts_of c) (live patch ∪ texts_of d) /\
  forall key, live patch !! key = None -> texts_of c !! key = texts_of d !! key.

Lemma writes_alike patch writes d : canonical_members (map_to_list patch) = inr writes ->
  acceptable patch /\ (writes = [] <-> live patch = ∅) /\ NoDup writes.*1 /\
  forall now, patched patch d (put_settings (upserted writes now (c_settings d)) d).
Proof.
  intros Hc. pose proof (canonical_members_spec (map_to_list patch)) as Hs. rewrite Hc in Hs. destruct Hs as (Hsub & Hw & Hall).
  assert (Hn : NoDup writes.*1) by (eapply sublist_NoDup; [apply (NoDup_fst_map_to_list patch)|exact Hsub]).
  assert (Hlook : forall key, match (list_to_map writes : gmap string string) !! key, live patch !! key with
    | Some enc, Some raw => canonicalSetting key raw = inr (enc, false) | None, None => True | _, _ => False end).
  { intros key. destruct (list_to_map writes !! key) as [enc|] eqn:He.
    - apply elem_of_list_to_map_2 in He. apply Hw in He as (raw & Hin%elem_of_map_to_list & Hx).
      assert (live patch !! key = Some raw) as ->; [|done]. apply map_lookup_filter_Some. split; [done|]. cbn. intros Hp%canonical_placeholder. by rewrite Hx in Hp.
    - apply not_elem_of_list_to_map_2 in He. destruct (live patch !! key) as [raw|] eqn:Hr; [|done].
      apply map_lookup_filter_Some in Hr as [Hr Hp]. apply elem_of_map_to_list in Hr. destruct (Hall _ _ Hr) as [[enc skip] Hx].
      destruct skip; [by apply canonical_skip in Hx|]. apply He, list_elem_of_fmap. exists (key, enc). split; [done|]. apply Hw. eauto. }
  split_and!; [| |done|].
  - intros key raw Hr%elem_of_map_to_list. destruct (Hall _ _ Hr) as [[enc []] Hx]; [left; by eapply canonical_skip|right; eauto].
  - split.
    + intros ->. apply map_empty. intros key. specialize (Hlook key). cbn in Hlook. rewrite lookup_empty in Hlook. by destruct (live patch !! key).
    + intros He. destruct writes as [|[k v] writes]; [done|]. specialize (Hlook k). cbn in Hlook. by rewrite lookup_insert_eq, He, lookup_empty in Hlook.
  - intros now. unfold patched, texts_of. cbn. rewrite upserted_texts by done. split_and!; [done| |].
    + intros key Hk. specialize (Hlook key). rewrite !lookup_union.
      destruct (list_to_map writes !! key) as [enc|], (live patch !! key) as [raw|]; try done; rewrite ?union_Some_l, ?(left_id_L None _).
      * right. by apply canonical_reads.
      * destruct (_ !! key); [by left|done].
    + intros key Hk. specialize (Hlook key). rewrite Hk in Hlook. rewrite lookup_union. by destruct (list_to_map writes !! key); [|rewrite (left_id_L None _)].
Qed.

Lemma PutSettings_lands patch o w : at_rest w ->
  let (r, w') := PutSettings patch o w in
  at_rest w' /\ beyond (w_eng w') = beyond (w_eng w) /\
  (saved w' = saved w \/ acceptable patch /\ patched patch (saved w) (saved w')) /\
  (forall s, r = inr s -> acceptable patch /\ patched patch (saved w) (saved w') /\
    settings_of (live patch ∪ texts_of (saved w)) = inr s /\ settings_of (texts_of (saved w')) = inr s) /\
  (~ acceptable patch -> saved w' = saved w /\ (r = inl ErrUnknownSettingKey \/ r = inl ErrSettingOutOfRange)).
Proof.
  intros Hw. unfold PutSettings. destruct (canonical_members (map_to_list patch)) as [e|writes] eqn:Hc.
  { pose proof (canonical_members_spec (map_to_list patch)) as Hs. rewrite Hc in Hs. destruct Hs as (He & key & raw & Hin%elem_of_map_to_list & Hx).
    cbn. split_and!; [done|done|by left|done|]. intros _. split; [done|]. destruct He as [->| ->]; auto. }
  destruct (writes_alike patch writes (saved w) Hc) as (Hacc & Hempty & _ & Hland).
  cbn [of_res]. rewrite bind_run, ret_run, bind_run.
  set (tx := if bool_decide (writes = []) then _ else _).
  assert (Htx : exists c, w_eng (tx o w).2 = MkConf c None (beyond (w_eng w)) /\ (c = saved w \/ patched patch (saved w) c) /\
    ((tx o w).1 = inr tt -> patched patch (saved w) c)).
  { unfold tx. case_bool_decide as Hnil.
    - exists (saved w). subst writes. destruct Hempty as [He _]. specialize (He eq_refl). unfold patched.
      assert (Hp : patched patch (saved w) (saved w)).
      { split_and!; [by destruct (saved w)| |done]. rewrite He, (left_id_L ∅ (∪)). intros key _. destruct (_ !! key); auto. }
      cbn. split_and!; [|by left|done]. unfold saved, at_rest in *. by destruct (w_eng w) as [? [] ?].
    - destruct (conf_tx_ending (R := R) (now ← unix_milli; write_members writes now ;; commit_conf)
        (fun d t _ c => exists now, c = put_settings (upserted writes now (c_settings t)) t) o w) as (c & He & Hor & Hr); [|done|].
      + eapply ending_weaken; [apply ending_bind; [apply during_clock|intros now; apply ending_bind; [apply during_write_members|intros; apply ending_commit_only]]|].
        intros d t [] c (now & t1 & -> & [] & t2 & -> & ->). by exists now.
      + exists c. split_and!; [done| |].
        * destruct Hor as [|[_ [now ->]]]; [by left|right]. apply Hland.
        * intros Hx. destruct (Hr tt Hx) as [now ->]. apply Hland. }
  destruct Htx as (c & He & Hor & Hr). clearbody tx. destruct (tx o w) as [[e|[]] w1]; cbn [fst snd] in *.
  { unfold at_rest, saved. rewrite He. cbn. split_and!; [done|done| |done|done]. destruct Hor; auto. }
  specialize (Hr eq_refl). unfold GetSettings. rewrite bind_run. unfold query_conf, conf_of. rewrite He. cbn [seen_conf conf_working conf_committed default].
  assert (Hout : w_eng (bump w1) = MkConf c None (beyond (w_eng w))) by done.
  destruct (o_io o (w_n w1)); unfold at_rest, saved; cbn [of_res]; rewrite ?Hout; cbn [conf_working conf_committed beyond]; try (split_and!; [done|done|by auto|done|done]).
  pose proof (read_all c) as Hread. destruct (read_rows _ _) as [e|s]; cbn; rewrite He; cbn; (split_and!; [done|done|by auto| |done]); [done|].
  intros s' [= <-]. split_and!; [done..| |done]. destruct Hr as (_ & Ha & _). by etransitivity; [symmetry; apply (settings_of_alike _ _ Ha)|].
Qed.

(** C33: A patch of the settings is all or nothing, whatever the driver answers: it
    is refused with no table touched, or the tables become the old document
    with the client's own texts laid over it; an answered document is the one
    those texts stand for. *)
Theorem settings_patch_lands_whole patch o w : at_rest w ->
  let (r, w') := PutSettings patch o w in
  at_rest w' /\ beyond (w_eng w') = beyond (w_eng w) /\
  (saved w' = saved w \/ acceptable patch /\ patched patch (saved w) (saved w')) /\
  (forall s, r = inr s -> acceptable patch /\ patched patch (saved w) (saved w') /\
    settings_of (live patch ∪ texts_of (saved w)) = inr s /\ settings_of (texts_of (saved w')) = inr s) /\
  (~ acceptable patch -> saved w' = saved w /\ (r = inl ErrUnknownSettingKey \/ r = inl ErrSettingOutOfRange)).
Proof. apply PutSettings_lands. Qed.
End Patch.

(** ** The rows as the rest of the program reads them *)

(** The settings column of [Schema.db]: integers, or a value that is none. *)
Definition int_view (d : confdb) : gmap string (option Z) :=
  (fun row => match settingInt (ValueJSON row) with inr n => Some n | inl _ => None end) <$> c_settings d.
(** The keys read as integers. *)
Definition int_keys : list string :=
  [settingDownloadRateLimit; settingUploadRateLimit; settingAltDownloadRateLimit; settingAltUploadRateLimit;
   settingMaxActiveTotal; settingMaxActivePerEngine; settingRSSIntervalS].

Lemma int_key_reads key x y : key ∈ int_keys -> same_reading key x y -> exists n, settingInt x = inr n /\ settingInt y = inr n.
Proof.
  intros Hk Hs. destruct (Hs default_settings) as (s' & Hx & Hy). unfold read_row, default_settings in Hx, Hy. revert Hx Hy.
  repeat (apply list.elem_of_cons in Hk as [->|Hk]); [..|by apply not_elem_of_nil in Hk];
    known_key; destruct (settingInt x), (settingInt y); try done; intros Hx Hy; rewrite <- Hy in Hx; injection Hx as ->; eauto.
Qed.

(** What the documentation accepts under each of them. *)
Definition int_range (key : string) : Z * Z :=
  if contains ["max_active_total"; "max_active_per_engine"]%string key then (0, 2 ^ 31 - 1)
  else if contains ["rss_interval_s"]%string key then (300, 2 ^ 63 - 1)
  else (0, 2 ^ 63 - 1).

Lemma canonical_int key n : key ∈ int_keys -> in_int64 n -> canonicalSetting key (pretty n) =
  if ((int_range key).1 <=? n) && (n <=? (int_range key).2) then inr (pretty n, false) else inl ErrSettingOutOfRange.
Proof.
  intros Hk Hn. assert (Hs : settingInt (pretty n) = inr n).
  { rewrite <- (string_of_bytes (pretty n)). exact (int_written n Hn). }
  assert (Hb : forall lo hi, (if (n <? lo) || (hi <? n) then outOfRange else rendered (of_int64 n)) =
    if (lo <=? n) && (n <=? hi) then inr (pretty n, false) else inl ErrSettingOutOfRange).
  { intros lo hi. unfold rendered, of_int64. cbn [render]. unfold FormatInt. rewrite string_of_bytes.
    destruct (Z.ltb_spec n lo), (Z.ltb_spec hi n), (Z.leb_spec lo n), (Z.leb_spec n hi); cbn [negb orb andb]; first [lia|reflexivity]. }
  unfold canonicalSetting. rewrite Hs. unfold int_keys in Hk.
  repeat (apply list.elem_of_cons in Hk as [->|Hk]); [..|by apply not_elem_of_nil in Hk]; apply Hb.
Qed.

(** A row of integers, read by the store's method and by the admission pass. *)
Lemma row_is_read {R E : Type} (w : world (conf R)) (v : world E) key def n o row : io_ok o -> c_settings (conf_of w) !! key = Some row ->
  settingInt (ValueJSON row) = inr n -> (Settings.GetInt64 key def o w).1 = inr n /\
  (d_settings (World.current v) = int_view (conf_of w) -> (Store.GetInt64 key def o v).1 = inr n).
Proof.
  intros Ho Hr Hn. unfold Settings.GetInt64, Store.GetInt64. rewrite !bind_run. unfold query_conf, query, querySettingValue. rewrite !Ho, Hr.
  cbn. rewrite Hn. split; [done|]. intros ->. unfold int_view. by rewrite lookup_fmap, Hr; cbn; rewrite Hn.
Qed.

(** The row a landed patch left under a key it sent an integer for. *)
Lemma patched_int patch d c key n : patched patch d c -> acceptable patch -> patch !! key = Some (pretty n) -> key ∈ int_keys -> in_int64 n ->
  exists row, c_settings c !! key = Some row /\ settingInt (ValueJSON row) = inr n.
Proof.
  intros (_ & Ha & _) Hacc Hr Hk Hn.
  assert (Hint : settingInt (pretty n) = inr n) by (rewrite <- (string_of_bytes (pretty n)); exact (int_written n Hn)).
  assert (Hks : key ∈ settingsKeys) by (revert Hk; unfold int_keys, settingsKeys; set_solver).
  assert (Hx : key <> settingExtractPasswords) by (intros ->; revert Hk; by apply (bool_decide_unpack _)).
  specialize (Ha key Hks). rewrite lookup_union in Ha. assert (live patch !! key = Some (pretty n)) as Hl.
  { apply map_lookup_filter_Some. split; [done|]. by intros [? _]. }
  rewrite Hl, union_Some_l in Ha. unfold texts_of in Ha. rewrite lookup_fmap in Ha.
  destruct (c_settings c !! key) as [row|]; [|done]. exists row. split; [done|]. cbn in Ha. destruct Ha as [->|Ha]; [done|].
  destruct (int_key_reads key _ _ Hk Ha) as (n' & -> & Hn'). congruence.
Qed.


(** ** The schedule grid *)

(** The table holds every cell of the week, once, with a known mode. *)
Definition in_week (p : Z * Z) : Prop := 0 <= p.1 <= 6 /\ 0 <= p.2 <= 23.
Definition grid (d : confdb) : Prop :=
  (forall p, is_Some (c_schedule d !! p) <-> in_week p) /\ forall p c, c_schedule d !! p = Some c -> Cell_Mode c ∈ schedule_modes.
Definition slot (i : nat) : Z * Z := (Z.of_nat i / 24, Z.of_nat i mod 24).
(** The cells as the array the code passes around. *)
Definition cells_of (d : confdb) : list string := (fun i => from_option Cell_Mode EmptyString (c_schedule d !! slot i)) <$> seq 0 168.

Lemma slot_index i : (i < 168)%nat -> in_week (slot i) /\ cell_index (slot i).1 (slot i).2 = i.
Proof. intros Hi. unfold in_week, slot, cell_index. cbn. pose proof (Z.div_mod (Z.of_nat i) 24). pose proof (Z.mod_pos_bound (Z.of_nat i) 24). lia. Qed.
Lemma index_slot p : in_week p -> (cell_index p.1 p.2 < 168)%nat /\ slot (cell_index p.1 p.2) = p.
Proof.
  destruct p as [day hour]. unfold in_week, slot, cell_index. cbn. intros [Hd Hh]. split; [lia|].
  rewrite Z2Nat.id by lia. f_equal; [rewrite Z.div_add_l by lia; rewrite Z.div_small by lia; lia|].
  rewrite Z.add_comm, Z_mod_plus_full. by rewrite Z.mod_small by lia.
Qed.
Lemma cells_of_lookup d i : (i < 168)%nat -> cells_of d !! i = Some (from_option Cell_Mode EmptyString (c_schedule d !! slot i)).
Proof. intros Hi. unfold cells_of. rewrite list_lookup_fmap, lookup_seq_lt by done. done. Qed.

Lemma decode_cells_run rows cells : NoDup ((fun r : Z * Z * string => cell_index r.1.1 r.1.2) <$> rows) ->
  Forall (fun r : Z * Z * string => in_week r.1 /\ r.2 ∈ schedule_modes /\ cells !! cell_index r.1.1 r.1.2 = Some EmptyString) rows ->
  decode_cells cells rows = inr (foldl (fun cs r => <[cell_index r.1.1 r.1.2 := r.2]> cs) cells rows).
Proof.
  revert cells. induction rows as [|[[day hour] mode] rows IH]; intros cells Hn Hr; [done|]. cbn in *.
  apply list.NoDup_cons in Hn as [Hi Hn]. apply list.Forall_cons in Hr as [([Hd Hh] & Hm & Hc) Hr]. cbn in *.
  replace ((day <? 0) || (6 <? day) || (hour <? 0) || (23 <? hour)) with false by lia.
  rewrite (proj2 (contains_spec _ _) Hm), bool_decide_true by done. cbn. apply IH; [done|].
  apply list.Forall_forall. intros r Hin. rewrite list.Forall_forall in Hr. destruct (Hr r Hin) as (Hw & Hm' & Hc'). split_and!; [done..|].
  rewrite list_lookup_insert_ne; [done|]. intros Heq. apply Hi, list_elem_of_fmap. by exists r.
Qed.
Abbreviation row_index r := (cell_index r.1.1 r.1.2) (only parsing).
Lemma fold_cells_keep (rows : list (Z * Z * string)) (cells : list string) i : i ∉ (fun r : Z * Z * string => row_index r) <$> rows ->
  foldl (fun cs r => <[row_index r := r.2]> cs) cells rows !! i = cells !! i.
Proof.
  revert cells. induction rows as [|r rows IH]; intros cells Hi; [done|]. cbn in *. apply list.not_elem_of_cons in Hi as [Hr Hi].
  rewrite IH by done. by rewrite list_lookup_insert_ne.
Qed.
Lemma fold_cells_lookup rows (cells : list string) r : NoDup ((fun r : Z * Z * string => row_index r) <$> rows) -> r ∈ rows -> (row_index r < length cells)%nat ->
  foldl (fun cs r => <[row_index r := r.2]> cs) cells rows !! row_index r = Some r.2.
Proof.
  revert cells. induction rows as [|x rows IH]; intros cells Hn Hin Hi; [by apply not_elem_of_nil in Hin|]. cbn in *.
  apply list.NoDup_cons in Hn as [Hfresh Hn]. apply list.elem_of_cons in Hin as [->|Hin]; [|by apply IH; [| |rewrite length_insert]].
  rewrite fold_cells_keep by done. by apply list_lookup_insert_eq.
Qed.

Lemma grid_rows d : grid d -> let rows := querySchedule d in
  length rows = 168%nat /\ NoDup ((fun r : Z * Z * string => row_index r) <$> rows) /\
  Forall (fun r : Z * Z * string => in_week r.1 /\ r.2 ∈ schedule_modes) rows /\
  forall p c, c_schedule d !! p = Some c -> (p, Cell_Mode c) ∈ rows.
Proof.
  intros [Hdom Hmode] rows.
  assert (Hp : rows ≡ₚ (fun p => (p.1, Cell_Mode p.2)) <$> map_to_list (c_schedule d)) by (unfold rows, querySchedule; by rewrite sort_by_Permutation).
  assert (Hidx : (fun r : Z * Z * string => row_index r) <$> rows ≡ₚ seq 0 168).
  { rewrite Hp, <- list_fmap_compose. apply NoDup_Permutation; [|apply NoDup_seq|].
    - apply (NoDup_fmap_1 slot). rewrite <- list_fmap_compose. erewrite (list_fmap_ext _ fst); [apply NoDup_fst_map_to_list|].
      intros i [p c] Hin%list_elem_of_lookup_2%elem_of_map_to_list. cbn. apply index_slot, Hdom. eauto.
    - intros i. rewrite list_elem_of_fmap, elem_of_seq. split.
      + intros ([p c] & -> & Hin%elem_of_map_to_list). cbn. split; [lia|]. apply index_slot, Hdom. eauto.
      + intros [_ Hi]. destruct (slot_index i Hi) as [Hw He]. apply Hdom in Hw as [c Hc]. exists (slot i, c). split; [done|].
        by apply elem_of_map_to_list. }
  split_and!.
  - rewrite <- (length_fmap (fun r : Z * Z * string => row_index r)), Hidx. apply length_seq.
  - rewrite Hidx. apply NoDup_seq.
  - rewrite Hp. apply list.Forall_fmap, list.Forall_forall. intros [p c] Hin%elem_of_map_to_list. cbn. split; [apply Hdom; eauto|by eapply Hmode].
  - intros p c Hc. rewrite Hp. apply list_elem_of_fmap. exists (p, c). split; [done|]. by apply elem_of_map_to_list.
Qed.
(** Reading the grid gives its cells. *)
Lemma grid_reads d : grid d -> length (querySchedule d) = 168%nat /\ decode_cells (replicate 168 EmptyString) (querySchedule d) = inr (cells_of d).
Proof.
  intros Hg. destruct (grid_rows d Hg) as (Hlen & Hn & Hrows & Hin). split; [done|]. rewrite decode_cells_run; [f_equal|done|].
  - apply list_eq_same_length with 168%nat.
    + unfold cells_of. by rewrite length_fmap, length_seq.
    + assert (Hl : forall rows (cells : list string), length (foldl (fun cs r => <[row_index r := r.2]> cs) cells rows) = length cells).
      { induction rows as [|r rows IH]; intros cells; [done|]. cbn. by rewrite IH, length_insert. }
      by rewrite Hl, length_replicate.
    + intros i x y Hi. rewrite cells_of_lookup by done. destruct (slot_index i Hi) as [Hw He]. destruct Hg as [Hdom _].
      pose proof (proj2 (Hdom _) Hw) as [c Hc]. pose proof (fold_cells_lookup (querySchedule d) (replicate 168 EmptyString) (slot i, Cell_Mode c) Hn (Hin _ _ Hc)) as Hf.
      cbn [fst snd] in Hf. rewrite He, length_replicate in Hf. rewrite Hf, Hc by done. intros [= <-] [= <-]. done.
  - eapply list.Forall_impl; [exact Hrows|]. intros r [Hw Hm]. split_and!; [done..|]. apply lookup_replicate. split; [done|]. by apply index_slot.
Qed.

Section Grid.
Context {R : Type}.
Abbreviation world := (world (conf R)).
Implicit Types (o : oracle) (w : world).

(** What a loop over the cells leaves: the cells from [i] on, the rest kept. *)
Definition cells_written (i : nat) (cells : list string) (d c : confdb) : Prop :=
  c = put_schedule (c_schedule c) d /\ (forall p, is_Some (c_schedule c !! p) <-> is_Some (c_schedule d !! p)) /\
  (forall j mode, cells !! j = Some mode -> Cell_Mode <$> c_schedule c !! slot (i + j) = Some mode) /\
  forall p, (forall j, (j < length cells)%nat -> p <> slot (i + j)) -> c_schedule c !! p = c_schedule d !! p.

Lemma slot_inj i j : (i < 168)%nat -> (j < 168)%nat -> slot i = slot j -> i = j.
Proof. intros Hi Hj He. destruct (slot_index i Hi) as [_ Hx], (slot_index j Hj) as [_ Hy]. by rewrite <- Hx, <- Hy, He. Qed.
Lemma during_write_cells cells i now : (i + length cells <= 168)%nat ->
  during (R := R) (write_cells (Z.of_nat i) cells now) (fun t _ t' => cells_written i cells t t').
Proof.
  revert i. induction cells as [|mode cells IH]; intros i Hi; cbn [write_cells].
  - eapply during_weaken; [apply during_ret|]. intros t [] t' [-> _]. split_and!; [by destruct t|done|done|done].
  - cbn in Hi. eapply during_weaken.
    { apply during_bind; [apply during_exec|]. intros k. instantiate (1 := fun k t _ t' => k = 1 /\ cells_written (S i) cells t t'). cbn.
      destruct (Z.eqb_spec k 1) as [->|]; [|eapply during_weaken; [apply during_fail|done]].
      replace (Z.of_nat i + 1) with (Z.of_nat (S i)) by lia. eapply during_weaken; [apply IH; lia|]. by intros t [] t' Ht. }
    intros t [] t' (k & t1 & Hq & -> & Hs & Hd & Hc & Hk). unfold queryReplaceScheduleCell in Hq. fold (slot i) in Hq.
    destruct (c_schedule t !! slot i) as [c0|] eqn:Hc0; [|by simplify_eq]. destruct (contains _ mode); [|done]. cbn in Hq. injection Hq as <-. cbn in *.
    assert (Hfresh : forall j, (j < length cells)%nat -> slot i <> slot (S i + j)) by (intros j Hj He; apply slot_inj in He; lia).
    split_and!.
    + by rewrite Hs.
    + intros p. rewrite Hd, lookup_insert_is_Some. destruct (decide (slot i = p)) as [<-|]; [rewrite Hc0|]; naive_solver.
    + intros [|j] m Hj; cbn in Hj; [simplify_eq; rewrite Nat.add_0_r, Hk by done; by rewrite lookup_insert_eq|]. specialize (Hc j m Hj). by rewrite Nat.add_succ_r.
    + intros p Hp. rewrite Hk; [|intros j Hj; specialize (Hp (S j)); rewrite Nat.add_succ_r in Hp; apply Hp; cbn; lia].
      apply lookup_insert_ne. intros <-. apply (Hp 0%nat); [cbn; lia|by rewrite Nat.add_0_r].
Qed.

(** The whole replacement, as the tables hold it. *)
Definition schedule_landed (enabled : bool) (cells : list string) (d c : confdb) : Prop :=
  grid c /\ cells_of c = cells /\ querySettingValue settingScheduleEnabled c = Some (string_of (render (JBool enabled))) /\
  c = put_schedule (c_schedule c) (put_settings (c_settings c) d) /\
  forall key, key <> settingScheduleEnabled -> c_settings c !! key = c_settings d !! key.

Lemma written_whole enabled cells now d c : grid d -> length cells = 168%nat -> Forall (.∈ schedule_modes) cells ->
  cells_written 0 cells (put_settings (<[settingScheduleEnabled := MkSettingRow (string_of (render (JBool enabled)))
    (from_option SR_CreatedAt now (c_settings d !! settingScheduleEnabled)) now]> (c_settings d)) d) c -> schedule_landed enabled cells d c.
Proof.
  intros [Hdom Hmode] Hlen Hcells (Hs & Hd & Hc & _). cbn in *. assert (Hdom' : forall p, is_Some (c_schedule c !! p) <-> in_week p) by (intros p; by rewrite Hd).
  assert (Hcell : forall i, (i < 168)%nat -> exists m, cells !! i = Some m /\ Cell_Mode <$> c_schedule c !! slot i = Some m).
  { intros i Hi. destruct (lookup_lt_is_Some_2 cells i) as [m Hm]; [by rewrite Hlen|]. exists m. split; [done|]. by apply (Hc i). }
  split_and!.
  - split; [done|]. intros p x Hx. assert (Hw : in_week p) by (apply Hdom'; eauto). destruct (index_slot p Hw) as [Hi He].
    destruct (Hcell _ Hi) as (m & Hm & Hp). rewrite He, Hx in Hp. cbn in Hp. simplify_eq. rewrite list.Forall_forall in Hcells.
    by eapply Hcells, list_elem_of_lookup_2.
  - apply list_eq_same_length with 168%nat; [done|unfold cells_of; by rewrite length_fmap, length_seq|]. intros i x y Hi.
    rewrite cells_of_lookup by done. destruct (Hcell i Hi) as (m & Hm & Hp). destruct (c_schedule c !! slot i); [|done]. cbn in *. intros. by simplify_eq.
  - rewrite Hs. unfold querySettingValue. cbn. by rewrite lookup_insert_eq.
  - rewrite Hs. cbn. by destruct d.
  - intros key Hk. rewrite Hs. cbn. by rewrite lookup_insert_ne.
Qed.
Lemma replaced enabled cells o w : at_rest w -> grid (saved w) -> length cells = 168%nat ->
  exists c, w_eng (ReplaceSchedule enabled cells o w).2 = MkConf c None (beyond (w_eng w)) /\
    (c = saved w \/ schedule_landed enabled cells (saved w) c) /\
    ((ReplaceSchedule enabled cells o w).1 = inr tt -> schedule_landed enabled cells (saved w) c).
Proof.
  intros Hw Hg Hlen. unfold ReplaceSchedule. destruct (forallb _ cells) eqn:Hf; cbn [negb].
  2:{ exists (saved w). unfold at_rest, saved in *. cbn. split_and!; [by destruct (w_eng w) as [? [] ?]|by left|done]. }
  assert (Hcells : Forall (.∈ schedule_modes) cells).
  { apply list.Forall_forall. intros m Hm%list_elem_of_In. rewrite forallb_forall in Hf. by apply contains_spec, Hf. }
  match goal with |- context [conf_tx ?b o w] => destruct (conf_tx_ending b (fun d t _ c => t = d -> grid d -> schedule_landed enabled cells d c) o w) as (c & He & Hor & Hr) end.
  - eapply ending_weaken.
    { apply ending_bind; [apply during_clock|intros now]. apply ending_bind; [apply during_exec|intros k].
      apply ending_bind; [by apply (during_write_cells cells 0); rewrite Hlen|intros; apply ending_commit_only]. }
    intros d t [] c (now & t1 & -> & k & t2 & Hq & [] & t3 & Hc & ->) -> Hgd. unfold queryUpsertSetting in Hq. injection Hq as <- _.
    by apply (written_whole _ _ now).
  - done.
  - exists c. split_and!; [done|destruct Hor as [|[_ Hx]]; [by left|right; by apply Hx]|]. intros Hx. by apply (Hr tt).
Qed.

(** The same world some interactions later. *)
Definition later (k : nat) (w : world) : world := Nat.iter k bump w.
Lemma snapshot_reads o w enabled : io_ok o -> at_rest w -> grid (saved w) ->
  querySettingValue settingScheduleEnabled (saved w) = Some (string_of (render (JBool enabled))) ->
  ScheduleSnapshot o w = (inr (cells_of (saved w), enabled), later 4 w).
Proof.
  unfold at_rest, saved. intros Ho Hw Hg Hf. pose proof (bool_written enabled) as Hb. generalize dependent (string_of (render (JBool enabled))). intros text Hf Hb.
  destruct w as [db tx n cancel hook fired leases [c t r]]. cbn in *. subst t. destruct (grid_reads _ Hg) as [Hlen Hrows].
  unfold ScheduleSnapshot, conf_tx, conf_rolled_back, begin_conf, scheduleCells, scheduleEnabled, query_conf, commit_conf.
  rewrite !bind_run. cbn [w_n w_eng]. rewrite Ho. cbn [conf_committed bump set_eng w_n w_eng beyond].
  rewrite !bind_run. cbn [bump set_eng w_n w_eng]. rewrite Ho. unfold conf_of. cbn [seen_conf conf_working default from_option id bump set_eng w_n w_eng].
  rewrite Hlen. cbn [negb Nat.eqb]. rewrite Hrows. cbn [of_res]. rewrite ret_run. rewrite !bind_run. cbn [bump set_eng w_n w_eng]. rewrite Ho.
  cbn [seen_conf conf_working default from_option id]. rewrite Hf, Hb. cbn [of_res]. rewrite ret_run. rewrite !bind_run.
  cbn [bump set_eng w_n w_eng]. by rewrite Ho.
Qed.

(** C34: A replacement of the schedule is all or nothing, keeps the grid whole, and
    once it succeeded the next tick over a driver that answers applies the mode
    of the cell the wall clock is in - or nothing, when it disabled the
    schedule. *)
Theorem schedule_reaches_the_governor `{!EngineApi (conf R)} (local : Z -> Z * Z) enabled cells o w :
  at_rest w -> grid (saved w) -> length cells = 168%nat ->
  let (r, w') := ReplaceSchedule enabled cells o w in
  at_rest w' /\ grid (saved w') /\
  (saved w' = saved w \/ schedule_landed enabled cells (saved w) (saved w')) /\
  (r = inr tt -> forall o' g now weekday hour, io_ok o' -> local now = (weekday, hour) -> 0 <= weekday <= 6 -> 0 <= hour <= 23 ->
     exists mode, cells !! Z.to_nat ((weekday + 6) mod 7 * 24 + hour) = Some mode /\ exists m, mode_of mode = Some m /\
     EvaluateSchedule local g now o' w' = if enabled then ApplyMode g m o' (later 4 w') else (inr (inr tt, g), later 4 w')).
Proof.
  intros Hw Hg Hlen. destruct (replaced enabled cells o w Hw Hg Hlen) as (c & He & Hor & Hr).
  destruct (ReplaceSchedule enabled cells o w) as [r w']. cbn [fst snd] in *.
  assert (Hw' : at_rest w') by (unfold at_rest; by rewrite He). assert (Hs : saved w' = c) by (unfold saved; by rewrite He). rewrite Hs.
  split_and!; [done|destruct Hor as [->|[? _]]; done|done|].
  intros Hok o' g now weekday hour Ho Hl Hd Hh. destruct (Hr Hok) as (Hgc & Hcells & Hf & _). rewrite <- Hs in *.
  assert (Hi : (Z.to_nat ((weekday + 6) mod 7 * 24 + hour) < 168)%nat) by (pose proof (Z.mod_pos_bound (weekday + 6) 7); lia).
  destruct (lookup_lt_is_Some_2 cells _ ltac:(by rewrite Hlen)) as [mode Hm]. exists mode. split; [done|].
  assert (Hmode : mode ∈ schedule_modes).
  { rewrite <- Hcells, cells_of_lookup in Hm by done. destruct (slot_index _ Hi) as [Hwk _]. destruct Hgc as [Hdom Hmodes].
    apply Hdom in Hwk as [x Hx]. rewrite Hx in Hm. injection Hm as <-. by eapply Hmodes. }
  assert (exists m, mode_of mode = Some m) as [m Hmm].
  { unfold schedule_modes in Hmode. rewrite !list.elem_of_cons, list.elem_of_nil in Hmode. destruct Hmode as [->|[->|[->|[]]]]; eexists; reflexivity. }
  exists m. split; [done|]. unfold EvaluateSchedule. rewrite bind_run. unfold attempt. rewrite (snapshot_reads _ _ enabled) by done.
  rewrite Hcells. destruct enabled; cbn [negb]; [|done]. unfold activeCell. rewrite Hl. unfold cell_index. by rewrite Hm; cbn [default from_option id]; rewrite Hmm.
Qed.
End Grid.

(** ** Capped lists *)

Definition list_of (key : string) (d : confdb) : res (list (list Z)) :=
  match querySettingValue key d with None => inr [] | Some v => stored_list v end.
Lemma stored_texts v l : stored_list v = inr l -> Forall utf8_text l.
Proof.
  unfold stored_list. destruct (Unmarshal _ _) as [[k|]|] eqn:Hu; [| |done]; intros [= <-]; [by eapply decoded_strings|constructor].
Qed.
Lemma stored_written l : Forall utf8_text l -> stored_list (string_of (render (of_strings l))) = inr l.
Proof. intros Hl. unfold stored_list. by rewrite bytes_of_string, strings_roundtrip by (done || by apply strings_bytes). Qed.
Lemma list_of_texts key d l : list_of key d = inr l -> Forall utf8_text l.
Proof. unfold list_of. destruct (querySettingValue key d); [apply stored_texts|]. intros [= <-]. constructor. Qed.

Lemma last_n_suffix {A} n (l : list A) : exists k, l = k ++ last_n n l.
Proof. exists (take (length l - n) l). unfold last_n. by rewrite take_drop. Qed.
Lemma last_n_all {A} n (l : list A) : (length l <= n)%nat -> last_n n l = l.
Proof. intros Hl. unfold last_n. by replace (length l - n)%nat with 0%nat by lia. Qed.
Lemma appended_spec {A} cap (l : list A) x : (0 < cap)%nat ->
  (length (appended cap l x) <= cap)%nat /\ x ∈ appended cap l x /\ exists k, l ++ [x] = k ++ appended cap l x.
Proof.
  intros Hc. destruct (last_n_suffix cap (l ++ [x])) as [k Hk]. unfold appended. split_and!; [| |by exists k].
  - unfold last_n. rewrite length_drop. lia.
  - unfold last_n. rewrite length_app. cbn. rewrite drop_app_le by lia. apply elem_of_app. right. by left.
Qed.
Lemma appended_grows {A} cap (l : list A) x : (length l < cap)%nat -> appended cap l x = l ++ [x].
Proof. intros Hl. apply last_n_all. rewrite length_app. cbn. lia. Qed.

(** What one append leaves: a member already there writes nothing. *)
Definition appended_to (key : string) (cap : nat) (x : list Z) (d c : confdb) : Prop := exists l, list_of key d = inr l /\
  ((x ∈ l /\ c = d) \/
   ((x ∉ l) /\ list_of key c = inr (appended cap l x) /\ c = put_settings (c_settings c) d /\
    forall k, k <> key -> c_settings c !! k = c_settings d !! k)).
Lemma append_lands {R} key cap x o (w : world (conf R)) : at_rest w -> utf8_text x ->
  exists c, w_eng (append_capped key cap x o w).2 = MkConf c None (beyond (w_eng w)) /\
    (c = saved w \/ appended_to key cap x (saved w) c) /\ ((append_capped key cap x o w).1 = inr tt -> appended_to key cap x (saved w) c).
Proof.
  intros Hw Hx. unfold append_capped.
  match goal with |- context [conf_tx ?b o w] => destruct (conf_tx_ending b (fun d t _ c => t = d -> appended_to key cap x d c) o w) as (c & He & Hor & Hr) end;
    [|done|exists c; split_and!; [done|destruct Hor as [|[_ Hc]]; [by left|right; by apply Hc]|intros Hok; by apply (Hr tt)]].
  eapply ending_weaken.
  { apply ending_bind; [apply during_query|intros row].
    apply (ending_bind _ _ (fun t l t' => t' = t /\ (match row with None => inr [] | Some v => stored_list v end) = inr l)
      (fun l d t _ c => (x ∈ l /\ c = d) \/ ((x ∉ l) /\ exists now,
        c = put_settings (<[key := MkSettingRow (string_of (render (of_strings (appended cap l x)))) (from_option SR_CreatedAt now (c_settings t !! key)) now]> (c_settings t)) t))).
    { destruct row as [v|]; [apply during_of_res|]. eapply during_weaken; [apply during_ret|]. by intros t l t' [-> ->]. }
    intros l. destruct (contains l x) eqn:Hc; [apply contains_spec in Hc|apply contains_false in Hc].
    - eapply ending_weaken; [apply ending_ret|]. intros d t [] c [-> _]. by left.
    - eapply ending_weaken; [apply ending_bind; [apply during_clock|intros now; apply ending_bind; [apply during_exec|intros; apply ending_commit_only]]|].
      intros d t [] c (now & t1 & -> & k & t2 & Hq & ->). injection Hq as <- _. right. split; [done|]. by exists now. }
  intros d t [] c (row & t1 & [-> ->] & l & t2 & [-> Hl] & Hc) ->. exists l. split; [exact Hl|].
  destruct Hc as [Hc|[Hn [now ->]]]; [by left|right]. split_and!; [done| |done|].
  - unfold list_of, querySettingValue. cbn. rewrite lookup_insert_eq. cbn. apply stored_written.
    pose proof (list_of_texts key d l Hl) as Ht. destruct (last_n_suffix cap (l ++ [x])) as [k Hk]. fold (appended cap l x) in Hk.
    assert (Hall : Forall utf8_text (l ++ [x])) by (apply list.Forall_app; split; [done|by apply list.Forall_singleton]).
    rewrite Hk in Hall. by apply list.Forall_app in Hall as [_ ?].
  - intros k Hk. cbn. by rewrite lookup_insert_ne.
Qed.

(** ** Deletions *)

(** Every link names a tag that exists. *)
Definition linked (d : confdb) : Prop := forall p, p ∈ c_task_tags d -> is_Some (c_tags d !! p.2).
Definition tag_dropped (name : string) (d c : confdb) : Prop := exists id t, named TR_Name name (c_tags d) = Some (id, t) /\
  c = put_tags (delete id (c_tags d)) (put_links (filter (fun p => p.2 <> id) (c_task_tags d)) d).

Lemma links_without id l : l ∖ links_of id l = filter (fun p => p.2 <> id) l.
Proof. unfold links_of. set_solver. Qed.
Lemma tag_delete_lands {R} name o (w : world (conf R)) : at_rest w ->
  let (r, w') := DeleteTag name o w in at_rest w' /\ beyond (w_eng w') = beyond (w_eng w) /\
  (saved w' = saved w \/ tag_dropped name (saved w) (saved w')) /\ (r = inr tt -> tag_dropped name (saved w) (saved w')).
Proof.
  intros Hw. destruct (conf_tx_ending (R := R) (exec_conf (queryDetachTag name) ;; some_row (queryDeleteTagRow name) ;; commit_conf)
    (fun d t _ c => tag_dropped name t c) o w) as (c & He & Hor & Hr); [|done|].
  - eapply ending_weaken; [apply ending_bind; [apply during_exec|intros k; apply ending_bind; [apply during_some_row|intros; apply ending_commit_only]]|].
    intros d t [] c (k & t1 & Hq & [] & t2 & (n & Hd & Hn) & ->). unfold queryDetachTag in Hq. unfold queryDeleteTagRow in Hd.
    destruct (named TR_Name name (c_tags t)) as [[id x]|] eqn:Hx.
    + injection Hq as <- _. cbn in Hd. rewrite Hx in Hd. injection Hd as <- _. exists id, x. split; [done|]. cbn.
      unfold put_tags, put_links. cbn. f_equal. rewrite links_without. unfold links_of. set_solver.
    + injection Hq as <- _. rewrite Hx in Hd. by injection Hd as _ <-.
  - unfold DeleteTag. destruct (conf_tx _ o w) as [r w']. cbn [fst snd] in *. unfold at_rest, saved. rewrite He. cbn.
    split_and!; [done|done|destruct Hor as [|[[] ?]]; auto|intros Hx; by apply (Hr tt)].
Qed.

(** Deleting a tag or a category touches no task's row but to uncategorise it:
    no task goes, and no link to a tag that is gone is ever committed. *)
Theorem deletions_spare_tasks {R} name o (w : world (conf R)) : at_rest w ->
  (let w' := (DeleteTag name o w).2 in
   c_tasks (saved w') = c_tasks (saved w) /\ (linked (saved w) -> linked (saved w')) /\
   (forall p, p ∈ c_task_tags (saved w) -> p ∈ c_task_tags (saved w') \/ c_tags (saved w') !! p.2 = None)) /\
  (let w' := (DeleteCategory name o w).2 in
   dom (c_tasks (saved w')) = dom (c_tasks (saved w)) /\ c_task_tags (saved w') = c_task_tags (saved w) /\
   forall task t, c_tasks (saved w) !! task = Some t -> exists t', c_tasks (saved w') !! task = Some t' /\
     TK_Removed t' = TK_Removed t /\ TK_ExtractPassword t' = TK_ExtractPassword t /\
     (TK_CategoryID t' = TK_CategoryID t \/ TK_CategoryID t' = None /\ exists id c, named CR_Name name (c_categories (saved w)) = Some (id, c) /\ TK_CategoryID t = Some id)).
Proof.
  intros Hw. split.
  - pose proof (tag_delete_lands name o w Hw) as Hd. destruct (DeleteTag name o w) as [r w']. cbn [snd].
    destruct Hd as (_ & _ & [->|(id & t & Hn & ->)] & _); [by split_and!; [done|done|left]|]. cbn. split_and!; [done| |].
    + intros Hl p [Hne Hin]%elem_of_filter. cbn in *. rewrite lookup_delete_ne by done. by apply Hl.
    + intros p Hp. destruct (decide (p.2 = id)) as [->|Hne]; [right; apply lookup_delete_eq|left; by apply elem_of_filter].
  - cbn zeta. unfold DeleteCategory, some_row, exec_conf. rewrite bind_run. unfold queryDeleteCategory, conf_of, saved, at_rest, put_conf in *.
    destruct (w_eng w) as [d t r] eqn:He. cbn in Hw. subst t. cbn [seen_conf conf_working conf_committed default].
    assert (Hsame : forall task t, c_tasks d !! task = Some t -> exists t', c_tasks d !! task = Some t' /\ TK_Removed t' = TK_Removed t /\
      TK_ExtractPassword t' = TK_ExtractPassword t /\ (TK_CategoryID t' = TK_CategoryID t \/ TK_CategoryID t' = None /\
      exists id c, named CR_Name name (c_categories d) = Some (id, c) /\ TK_CategoryID t = Some id)) by (intros task t Ht; exists t; auto).
    destruct (named CR_Name name (c_categories d)) as [[id c]|] eqn:Hn; destruct (o_io o (w_n w)); cbn; rewrite ?He; cbn; try done;
      (split_and!; [apply dom_fmap_L|done|]); intros task t Ht; rewrite lookup_fmap, Ht; eexists; (split; [done|]); cbn;
      unfold uncategorised; (split_and!; [done|done|]); case_bool_decide; eauto 10.
Qed.

(** ** Sealed secrets *)

(** What is sealed under a key opens under it, and only the empty secret is
    stored as NULL. *)
Theorem sealed_secret_opens `{!AEAD} nonce key plain enc :
  (forall k n p, aead_Open k n (aead_Seal k n p) = Some p) -> (forall k n p, Forall is_byte p -> Forall is_byte (aead_Seal k n p)) ->
  length nonce = NonceSize -> (0 < NonceSize)%nat -> Forall is_byte nonce ->
  SealNotificationSecret nonce key plain = inr enc ->
  OpenNotificationSecret key enc = inr plain /\ (enc = None <-> plain = EmptyString) /\ (forall text, enc = Some text -> text <> EmptyString).
Proof.
  intros Hopen Hbytes Hlen Hpos Hn. unfold SealNotificationSecret. case_bool_decide as Hp; [intros [= <-]; by subst|].
  case_bool_decide as Hk; [done|]. intros [= <-]. set (raw := nonce ++ aead_Seal key nonce (bytes_of plain)).
  assert (Hraw : Forall is_byte raw) by (apply list.Forall_app; split; [done|apply Hbytes, bytes_are_bytes]).
  assert (Hb : Forall is_byte (b64_encode StdEncoding raw)).
  { eapply list.Forall_impl; [by apply encode_plain|]. unfold is_byte. simpl. lia. }
  assert (Hne : string_of (b64_encode StdEncoding raw) <> EmptyString).
  { intros He. apply (f_equal bytes_of) in He. rewrite bytes_of_string in He by done. unfold raw in He.
    destruct nonce as [|a [|b [|c nonce]]]; [cbn in Hlen; lia|..]; cbn in He; [destruct (aead_Seal _ _ _) as [|? []]; done|destruct (aead_Seal _ _ _); done|done]. }
  unfold OpenNotificationSecret. rewrite !bool_decide_false by done. rewrite bytes_of_string by done. rewrite decode_encode by (done || by left).
  cbn [negb orb]. rewrite (proj2 (Nat.ltb_ge _ _)) by (unfold raw; rewrite length_app; lia).
  unfold raw. rewrite take_app_length', drop_app_length' by done. rewrite Hopen, string_of_bytes. split_and!; [done|done|]. by intros text [= <-].
Qed.

(** ** A concrete store *)

(** The engines of a world behind the tables. *)
#[export] Instance engines_beyond {R} `{!EngineApi R} : EngineApi (conf R) :=
  let lift {A} (f : R -> res A * R) (s : conf R) := let (x, r) := f (beyond s) in (x, MkConf (conf_committed s) (conf_working s) r) in {|
  registered := registered; Capabilities := Capabilities;
  eng_Add := fun n q => lift (eng_Add n q); eng_List := fun n => lift (eng_List n); eng_Get := fun n h => lift (eng_Get n h);
  eng_Files := fun n h => lift (eng_Files n h); eng_Pause := fun n h => lift (eng_Pause n h); eng_Resume := fun n h => lift (eng_Resume n h);
  eng_Remove := fun n h => lift (eng_Remove n h); eng_SetFiles := fun n h i p => lift (eng_SetFiles n h i p);
  eng_SetRateLimits := fun n h d u => lift (eng_SetRateLimits n h d u) |}.

Definition weekly : gmap (Z * Z) ScheduleCell := list_to_map ((fun i => (slot i, MkCell ScheduleDefault 0)) <$> seq 0 168).
Definition shop : confdb := MkConfdb
  {["max_active_total"%string := MkSettingRow "5" 0 0; "watch_folder_loaded_f"%string := MkSettingRow "[]" 0 0]}
  ∅ {["c"%string := MkCategoryRow "films" "/data/films" 0 0]} {["t"%string := MkTagRow "hd" 0 0]}
  {["a"%string := MkTaskRef (Some "c"%string) false None]} {[("a", "t")%string]} ∅ ∅ weekly ∅ ∅.
Definition shop_world : world (conf (list string)) := World (MkDb ∅ [] ∅ ∅ ∅) None 0 None false [] Lease.NewRegistry (MkConf shop None []).

(** A pair of caps, the placeholder, and a floor given as [null]. *)
Definition member_text (k v : string) : string := string_of (123 :: quote (bytes_of k) ++ 58 :: bytes_of v ++ [125]).
Definition some_patch : gmap string string :=
  {["download_rate_limit"%string := " 1000 "%string; "extract_passwords"%string := string_of quoted_redacted;
    "min_free_space"%string := member_text "/data" "null"]}.

Lemma settings_patch_lands_whole_witness :
  exists s w', PutSettings some_patch healthy shop_world = (inr s, w') /\ settings_of (texts_of (saved w')) = inr s /\
    DownloadRateLimit s = 1000 /\ MinFreeSpace s = {[bytes_of "/data" := 0]} /\
    saved (PutSettings (<["rss_interval_s"%string := "299"%string]> some_patch) healthy shop_world).2 = shop.
Proof.
  pose proof (settings_patch_lands_whole some_patch healthy shop_world eq_refl) as H1.
  pose proof (settings_patch_lands_whole (<["rss_interval_s"%string := "299"%string]> some_patch) healthy shop_world eq_refl) as H2.
  assert (Hok : exists s, (PutSettings some_patch healthy shop_world).1 = inr s /\ DownloadRateLimit s = 1000 /\ MinFreeSpace s = {[bytes_of "/data" := 0]})
    by (eexists; vm_compute; split_and!; reflexivity).
  destruct (PutSettings some_patch healthy shop_world) as [r w']. destruct Hok as (s & Hs & Hd & Hm). exists s, w'.
  cbn [fst] in Hs. destruct H1 as (_ & _ & _ & Hr & _). destruct (Hr s Hs) as (_ & _ & _ & Hx). split_and!; [by rewrite Hs|done..|].
  destruct (PutSettings _ healthy shop_world) as [r2 w2]. destruct H2 as (_ & _ & _ & _ & Hn). apply Hn. clear.
  intros Ha. destruct (Ha "rss_interval_s"%string "299"%string) as [[? _]|[enc He]]; [by vm_compute|done|by vm_compute in He].
Defined.

Definition int_patch : gmap string string := <["max_active_total"%string := "7"%string]> some_patch.

Lemma week_is_a_grid : grid shop.
Proof.
  unfold grid, shop. cbn [c_schedule]. assert (Hw : forall p x, weekly !! p = Some x -> in_week p /\ x = MkCell ScheduleDefault 0).
  { intros p x Hx%elem_of_list_to_map_2. apply list_elem_of_fmap in Hx as (i & [= -> ->] & [_ Hi]%elem_of_seq). split; [|done]. by apply slot_index. }
  split.
  - intros p. split; [intros [x Hx]; by apply (Hw p x)|]. intros Hp. destruct (index_slot p Hp) as [Hi He].
    assert (Hin : (p, MkCell ScheduleDefault 0) ∈ (fun i => (slot i, MkCell ScheduleDefault 0)) <$> seq 0 168).
    { apply list_elem_of_fmap. exists (cell_index p.1 p.2). split; [by rewrite He|]. apply elem_of_seq. lia. }
    exists (MkCell ScheduleDefault 0). apply elem_of_list_to_map_1; [|exact Hin]. apply (bool_decide_unpack (NoDup _)). vm_compute. exact I.
  - intros p x Hx. destruct (Hw p x Hx) as [_ ->]. apply (bool_decide_unpack (ScheduleDefault ∈ schedule_modes)). vm_compute. exact I.
Qed.
(** A No Download night, and the tick on a Sunday at three. *)
Definition nights : list string := concat (replicate 7 (replicate 6 ScheduleNoDownload ++ replicate 18 ScheduleAlternative)).
Lemma schedule_reaches_the_governor_witness : exists w',
  ReplaceSchedule true nights healthy shop_world = (inr tt, w') /\
  EvaluateSchedule (fun _ => (0, 3)) (MkGov true true (MkRates 0 0) ModeUnset) 0 healthy w' =
  ApplyMode (MkGov true true (MkRates 0 0) ModeUnset) ModeNoDownload healthy (later 4 w').
Proof.
  pose proof (schedule_reaches_the_governor (fun _ => (0, 3)) true nights healthy shop_world eq_refl week_is_a_grid eq_refl) as Hs.
  assert (Hok : (ReplaceSchedule true nights healthy shop_world).1 = inr tt) by by vm_compute.
  destruct (ReplaceSchedule true nights healthy shop_world) as [r w']. cbn [fst] in Hok. exists w'. destruct Hs as (_ & _ & _ & Ht).
  split; [by rewrite Hok|].
  destruct (Ht Hok healthy (MkGov true true (MkRates 0 0) ModeUnset) 0 0 3 healthy_io eq_refl ltac:(lia) ltac:(lia)) as (mode & Hm & m & Hmode & ->).
  vm_compute in Hm. injection Hm as <-. vm_compute in Hmode. by injection Hmode as <-.
Defined.

(** A [null] floor is stored as zero, which switches the floor off. *)
Fact null_floor_is_stored_as_zero :
  canonicalSetting settingMinFreeSpace (member_text "/data" "null") = inr (member_text "/data" "0", false).
Proof. by vm_compute. Qed.
(** The shared passwords are stored as they are typed. *)
Fact passwords_are_stored_in_clear :
  querySettingValue settingExtractPasswords (saved (AppendExtractPassword (bytes_of "hunter2") healthy shop_world).2) =
  Some (string_of (render (of_strings [bytes_of "hunter2"]))).
Proof. by vm_compute. Qed.
