(* ===== verification/Watch.v ===== *)
(** * The watch-folder loader ([internal/jobs/watch.go])

    One sweep of a folder - what is read, what is handed to the task creator,
    what is marked, unlinked and reported - over the configuration tables and a
    disk of folders.  The creation path behind [TaskCreator] is a parameter that
    writes to none of these folders; it is wrapped so that it logs what it
    accepted.  A sweep holds its folder's lock throughout, so sweeps of one
    folder are sequences here; the goroutines and tickers that start them are
    not modelled, nor is the partial report of a sweep that fails.  Then: what
    a sweep may unlink, and that no history of sweeps loads a torrent twice. *)

From stdpp Require Import fin_maps sorting.
From S2P Require Import Prelude GoStrings Schema Lease World Scenario SafePath SafeJoin Bencode Manifest Json Settings SettingsProps.

Open Scope Z_scope.

Inductive SkipReason := SkipNotATorrent | SkipAlreadyLoaded | SkipUnreadable | SkipDuplicate | SkipPathRejected.
#[global] Instance SkipReason_eq_dec : EqDecision SkipReason.
Proof. solve_decision. Defined.
Record ScanResult := MkScan { Scanned : Z; ScanCreated : list string; Skipped : list (string * SkipReason) }.
Definition torrentFileSuffix : string := ".torrent".
Definition defaultWatchPollInterval : Z := 10.
(** [pollInterval], in seconds. *)
Definition pollInterval (f : WatchFolderRow) : Z := if PollIntervalS f <? 1 then defaultWatchPollInterval else PollIntervalS f.

(** ** The folders on disk *)

(** The type [readdir] reports, what [lstat] finds, and the bytes. *)
Inductive dirent := DTRegular | DTUnknown | DTOther.
#[global] Instance dirent_eq_dec : EqDecision dirent.
Proof. solve_decision. Defined.
Record DirEntry := MkEntry { de_type : dirent; de_regular : bool; de_bytes : list Z }.
#[global] Instance DirEntry_eq_dec : EqDecision DirEntry.
Proof. solve_decision. Defined.

(** What the creator accepted: the folder's row, the file's name and bytes. *)
Record accepted := MkAccepted { ac_folder : string; ac_name : string; ac_blob : list Z; ac_task : string }.
Record loader (C : Type) := MkLoader { on_disk : gmap string (gmap string DirEntry); creator : C; log : list accepted }.
Arguments MkLoader {C}. Arguments on_disk {C}. Arguments creator {C}. Arguments log {C}.

Section Watch.
Context `{!UnicodeTables} (sha1Sum sha256Sum : list Z -> list Z) (Unmarshal_info : list Z -> option Info).
Context {C : Type}.
(** [CreateFromTorrent] of the injected creator, at the n-th interaction:
    name, bytes, destination and category. *)
Context (create : nat -> C -> string -> list Z -> string -> string -> res string * C).
Abbreviation M := (M (conf (loader C))).
Abbreviation world := (world (conf (loader C))).

Definition loader_of (w : world) : loader C := beyond (w_eng w).
Definition put_loader (l : loader C) (w : world) : world := set_eng (MkConf (conf_committed (w_eng w)) (conf_working (w_eng w)) l) w.
Definition dirs_of (w : world) : gmap string (gmap string DirEntry) := on_disk (loader_of w).

(** [os.ReadDir] sorts by name. *)
Definition os_ReadDir (path : string) : M (list (string * DirEntry)) := fun o w =>
  (match o_io o (w_n w), dirs_of w !! path with
   | IoOk, Some m => inr (sort_by (less (by_text fst)) (map_to_list m))
   | _, _ => inl ErrFs
   end, bump w).
(** [entry.Info]. *)
Definition entry_Info (e : DirEntry) : M bool := fun o w =>
  (match o_io o (w_n w) with IoOk => inr (de_regular e) | _ => inl ErrFs end, bump w).
Definition os_ReadFile (dir name : string) : M (list Z) := fun o w =>
  (match o_io o (w_n w), dirs_of w !! dir ≫= (.!! name) with
   | IoOk, Some e => inr (de_bytes e)
   | _, _ => inl ErrFs
   end, bump w).
Definition unlinked (dir name : string) (l : loader C) : loader C := MkLoader (alter (delete name) dir (on_disk l)) (creator l) (log l).
Definition os_Remove (dir name : string) : M unit := fun o w =>
  match o_io o (w_n w), dirs_of w !! dir ≫= (.!! name) with
  | IoOk, Some _ => (inr tt, bump (put_loader (unlinked dir name (loader_of w)) w))
  | IoFailLanded, Some _ => (inl ErrFs, bump (put_loader (unlinked dir name (loader_of w)) w))
  | _, _ => (inl ErrFs, bump w)
  end.
Definition CreateFromTorrent (folderID name : string) (blob : list Z) (dest category : string) : M string := fun o w =>
  let l := loader_of w in
  let (r, c) := create (w_n w) (creator l) name blob dest category in
  (r, bump (put_loader (MkLoader (on_disk l) c
    (match r with inr id => log l ++ [MkAccepted folderID name blob id] | inl _ => log l end)) w)).

(** ** One sweep *)

(** [strings.HasSuffix]. *)
Definition HasSuffix (s suffix : string) : bool := bool_decide (drop (length (bytes_of s) - length (bytes_of suffix)) (bytes_of s) = bytes_of suffix).

(** The identity the loaded set is keyed on. *)
Definition load_key (m : Manifest) : list Z := if bool_decide (m_InfohashV1 m = []) then m_InfohashV2 m else m_InfohashV1 m.
Definition infohash_of (blob : list Z) : option (list Z) := load_key <$> InspectTorrent sha1Sum sha256Sum Unmarshal_info blob.

Definition watchLastErrorMax : nat := Z.to_nat 4096.
(** The text [touch] stores: cut on a rune boundary. *)
Definition touch_text (text : list Z) : list Z :=
  if (watchLastErrorMax <? length text)%nat then take (rune_cut text watchLastErrorMax) text ++ bytes_of "..." else text.
(** [touch]; its own failure is only logged.  [errors.Join] puts one message
    per line. *)
Definition touch_folder (folderID : string) (lastErr : list (list Z)) : M unit :=
  now ← unix_milli; ignore (TouchWatchFolder folderID now (string_of (touch_text (SafeJoin.join 10 lastErr)))).
(** [fmt.Errorf] over the message of an error. *)
Definition message (before : string) (e : err) : M (list Z) := t ← err_text e; mret (bytes_of (before +:+ t)).

(** What the body of the loop does with one entry. *)
Inductive fate := Skip (r : SkipReason) | Loaded (taskID : string) | HandOffFailed.

(** The body of [ScanOnce]'s loop, without its context check: the fate of the
    entry and the messages it adds to [lastErr]. *)
Definition scan_entry (folderID : string) (f : WatchFolderRow) (category : string) (p : string * DirEntry) : M (fate * list (list Z)) :=
  let (name, entry) := p in
  if negb (HasSuffix name torrentFileSuffix) then mret (Skip SkipNotATorrent, [])
  else
    regular ← (if bool_decide (de_type entry = DTRegular) then mret true
               else i ← attempt (entry_Info entry); mret (match i with inr b => b | inl _ => false end));
    if negb regular then mret (Skip SkipUnreadable, [])
    else
      blob ← attempt (os_ReadFile (WF_Path f) name);
      match blob with
      | inl _ => mret (Skip SkipUnreadable, [])
      | inr blob =>
        match infohash_of blob with
        | None => mret (Skip SkipNotATorrent, [])
        | Some infohash =>
          loaded ← attempt (WatchFolderLoaded folderID infohash);
          match loaded with
          | inl e => t ← err_text e; touch_folder folderID [bytes_of t] ;; fail e
          | inr true => mret (Skip SkipAlreadyLoaded, [])
          | inr false =>
            created ← attempt (CreateFromTorrent folderID name blob (WF_Destination f) category);
            match created with
            | inr taskID =>
              marked ← attempt (MarkWatchFolderLoaded folderID infohash);
              e1 ← (match marked with
                    | inl e => t ← message ("record loaded infohash of " +:+ name +:+ ": ") e; mret [t]
                    | inr _ => mret [] end);
              e2 ← (if DeleteAfterLoad f =? 0 then mret []
                    else removed ← attempt (os_Remove (WF_Path f) name);
                         match removed with
                         | inl e => t ← message ("unlink " +:+ name +:+ ": ") e; mret [t]
                         | inr _ => mret [] end);
              mret (Loaded taskID, e1 ++ e2)
            | inl e =>
              if errors_is e ErrDestinationRejected then mret (Skip SkipPathRejected, [])
              else if errors_is e ErrTorrentDuplicate then mret (Skip SkipDuplicate, [])
              else t ← message (name +:+ ": ") e; mret (HandOffFailed, [t])
            end
          end
        end
      end.

(** What one entry adds to the result. *)
Definition reported (acc : ScanResult) (name : string) (x : fate) : ScanResult :=
  MkScan (Scanned acc + 1)
    (match x with Loaded id => ScanCreated acc ++ [id] | _ => ScanCreated acc end)
    (match x with Skip r => Skipped acc ++ [(name, r)] | _ => Skipped acc end).
Fixpoint scan_entries (folderID : string) (f : WatchFolderRow) (category : string) (entries : list (string * DirEntry))
    (acc : ScanResult) (lastErr : list (list Z)) : M (ScanResult * list (list Z)) :=
  match entries with
  | [] => mret (acc, lastErr)
  | p :: entries =>
    d ← ctx_done;
    if d : bool then fail ErrContext
    else x ← scan_entry folderID f category p;
         scan_entries folderID f category entries (reported acc p.1 x.1) (lastErr ++ x.2)
  end.

(** [ScanOnce] with a creator attached. *)
Definition ScanOnce (folderID : string) : M ScanResult :=
  row ← GetWatchFolder folderID;
  let (f, category) := row : WatchFolderRow * option string in
  entries ← attempt (os_ReadDir (WF_Path f));
  match entries with
  | inl e => t ← err_text e; touch_folder folderID [bytes_of t] ;; fail e
  | inr entries =>
    r ← scan_entries folderID f (default EmptyString category) entries (MkScan 0 [] []) [];
    touch_folder folderID r.2 ;; mret r.1
  end.
(** [scanLogged]: the loop of a folder drops the error. *)
Definition scanLogged (folderID : string) : M unit := ignore (ScanOnce folderID).
End Watch.

(** ** The text of an identity *)

Lemma hex_text l : Forall is_byte l -> utf8_text (EncodeToString l).
Proof.
  intros Hl. exists (EncodeToString l). assert (Hp : Forall (fun c => 48 <= c < 128) (EncodeToString l)).
  { unfold EncodeToString. induction Hl as [|b l Hb Hl IH]; [constructor|]. cbn. unfold is_byte in Hb.
    assert (Hd : forall d, 0 <= d < 16 -> 48 <= hex_digit d < 128) by (intros d; unfold hex_digit; destruct (Z.ltb_spec d 10); lia).
    pose proof (Z.div_mod b 16). pose proof (Z.mod_pos_bound b 16). repeat constructor; [apply Hd; lia..|exact IH]. }
  induction Hp as [|c k Hc Hk [IHv IHs]]; [by split; [constructor|]|].
  assert (Hv : valid_rune c = true) by (unfold valid_rune, between; lia). split; [by constructor|].
  unfold spelled in *. cbn. rewrite <- IHs. unfold encode_rune. rewrite Hv. by destruct (Z.ltb_spec c 128); [|lia].
Qed.

Section WatchProps.
Context `{!UnicodeTables} (sha1Sum sha256Sum : list Z -> list Z) (Unmarshal_info : list Z -> option Info).
Context {C : Type} (create : nat -> C -> string -> list Z -> string -> string -> res string * C).
Abbreviation world := (world (conf (loader C))).
Abbreviation M := (M (conf (loader C))).
Abbreviation identity := (infohash_of sha1Sum sha256Sum Unmarshal_info).
Abbreviation scan_entry := (scan_entry sha1Sum sha256Sum Unmarshal_info create).
Abbreviation scan_entries := (scan_entries sha1Sum sha256Sum Unmarshal_info create).
Abbreviation ScanOnce := (ScanOnce sha1Sum sha256Sum Unmarshal_info create).
Implicit Types (o : oracle) (w : world).
(** Digests are arrays of bytes. *)
Definition byte_digest (sum : list Z -> list Z) : Prop := forall l, Forall is_byte (sum l).

Definition file_at w (dir name : string) : option DirEntry := dirs_of w !! dir ≫= (.!! name).
Definition accepted_log w : list accepted := log (loader_of w).
Definition loaded_list (folderID : string) w : res (list (list Z)) := list_of (watchFolderLoadedKey folderID) (saved w).

Lemma identity_text blob h : byte_digest sha1Sum -> byte_digest sha256Sum -> identity blob = Some h -> utf8_text h.
Proof.
  intros H1 H2. unfold infohash_of, InspectTorrent. intros (m & Hm & ->)%fmap_Some.
  destruct (infoDictBytes blob) as [raw| |]; [|done..]. apply bind_Some in Hm as (info & _ & Hm). revert Hm. unfold manifestFromInfo.
  assert (He : utf8_text []) by (exists []; split; [constructor|done]).
  match goal with |- context [let '(_, _) := ?x in _] => assert (Ht : utf8_text x.1 /\ utf8_text x.2); [|destruct x as [h1 h2]] end.
  { destruct (_ && _); [|destruct (_ =? 2)]; cbn; split; try done; by apply hex_text. }
  intros (fs & _ & (n & _ & [= <-])%bind_Some)%bind_Some. unfold load_key. cbn in *. case_bool_decide; apply Ht.
Qed.

(** ** What an interaction leaves alone *)

(** The settings, the disk and the log are as they were. *)
Definition still w w' : Prop := at_rest w ->
  at_rest w' /\ c_settings (saved w') = c_settings (saved w) /\ dirs_of w' = dirs_of w /\ accepted_log w' = accepted_log w.
#[local] Instance still_pre : PreOrder still.
Proof.
  split; [by intros w|]. intros w w1 w2 H1 H2 Hw. destruct (H1 Hw) as (Hr & Hs & Hd & Hl).
  destruct (H2 Hr) as (Hr2 & Hs2 & Hd2 & Hl2). split_and!; [done|by rewrite Hs2|by rewrite Hd2|by rewrite Hl2].
Qed.

Lemma still_query {A} (q : confdb -> A) : always still (query_conf q).
Proof. intros o w Hw. unfold query_conf. by destruct (o_io o (w_n w)). Qed.
Lemma still_touch folderID at_ text : always still (TouchWatchFolder folderID at_ text).
Proof.
  intros o w Hw. unfold TouchWatchFolder, some_row, exec_conf, queryTouchWatchFolder. rewrite bind_run.
  unfold at_rest, saved, accepted_log, dirs_of, loader_of, conf_of, put_conf in *. destruct (w_eng w) as [d t r] eqn:He. cbn in *. subst t.
  destruct (touch_row _ _ _) as [t k]. destruct (o_io o (w_n w)); cbn [fst snd]; [destruct (k =? 0)|..]; cbn; by rewrite ?He.
Qed.
Lemma still_clock : always still unix_milli.
Proof. by intros o w Hw. Qed.
Lemma still_ctx : always still ctx_done.
Proof. intros o w Hw. unfold ctx_done. destruct (w_cancel w) as [[|k]|]; done. Qed.
Lemma still_text e : always still (err_text e).
Proof. by intros o w Hw. Qed.
Lemma still_info e : always still (entry_Info e).
Proof. by intros o w Hw. Qed.
Lemma still_dir path : always still (os_ReadDir path).
Proof. by intros o w Hw. Qed.
Lemma still_read dir name : always still (os_ReadFile dir name).
Proof. by intros o w Hw. Qed.
Lemma still_loaded folderID h : always still (WatchFolderLoaded folderID h).
Proof. apply always_bind; [apply still_pre|apply still_query|]. intros [v|]; [|apply always_ret, _]. apply always_bind; [apply _|apply always_of_res, _|]. intros. apply always_ret, _. Qed.
Lemma still_note folderID texts : always still (touch_folder folderID texts).
Proof. apply always_bind; [apply _|apply still_clock|]. intros. apply always_ignore; [apply _|apply still_touch]. Qed.

(** ** One entry *)

Lemma loaded_reads folderID h o w : at_rest w -> (WatchFolderLoaded folderID h o w).1 = inr false ->
  exists l, loaded_list folderID w = inr l /\ (h ∉ l).
Proof.
  unfold at_rest, WatchFolderLoaded, loaded_list, list_of, saved. intros Hw. rewrite bind_run. unfold query_conf, conf_of, seen_conf. rewrite Hw. cbn [default from_option id].
  destruct (o_io o (w_n w)); [|done..]. destruct (querySettingValue _ _) as [v|]; [|intros _; exists []; split; [done|apply not_elem_of_nil]].
  rewrite bind_run. destruct (stored_list v) as [e|l]; cbn; [done|]. intros [= Hc%contains_false]. by exists l.
Qed.
Lemma append_answers key cap x l o w : io_ok o -> at_rest w -> list_of key (saved w) = inr l -> (append_capped key cap x o w).1 = inr tt.
Proof.
  intros Ho Hw Hl. unfold at_rest, saved, append_capped, conf_tx, begin_conf, conf_rolled_back, query_conf, exec_conf, commit_conf in *.
  destruct (w_eng w) as [d t r] eqn:He. cbn in Hw, Hl. subst t. rewrite bind_run, Ho, He. cbn [conf_committed bump set_eng w_n w_eng beyond].
  rewrite bind_run. cbn [bump set_eng w_n w_eng]. rewrite Ho. unfold conf_of. cbn [seen_conf conf_working default from_option id w_eng bump set_eng].
  unfold list_of in Hl. destruct (querySettingValue key d) as [v|]; rewrite bind_run; [rewrite Hl|injection Hl as <-]; cbn [of_res]; rewrite ret_run;
    (destruct (contains _ x); [done|]); rewrite bind_run; unfold unix_milli; rewrite bind_run; cbn; by repeat (rewrite Ho; cbn).
Qed.
Lemma marked folderID h l o w : utf8_text h -> at_rest w -> loaded_list folderID w = inr l -> (h ∉ l) ->
  let w' := (MarkWatchFolderLoaded folderID h o w).2 in
  at_rest w' /\ dirs_of w' = dirs_of w /\ accepted_log w' = accepted_log w /\
  (loaded_list folderID w' = inr (appended MaxWatchFolderLoaded l h) \/ loaded_list folderID w' = inr l /\ ~ io_ok o).
Proof.
  intros Ht Hw Hl Hn. cbn zeta. unfold MarkWatchFolderLoaded.
  destruct (append_lands (watchFolderLoadedKey folderID) MaxWatchFolderLoaded h o w Hw Ht) as (c & He & Hor & Hr).
  pose proof (fun Ho => append_answers _ MaxWatchFolderLoaded h l o w Ho Hw Hl) as Hok.
  assert (Hto : forall c', appended_to (watchFolderLoadedKey folderID) MaxWatchFolderLoaded h (saved w) c' ->
    list_of (watchFolderLoadedKey folderID) c' = inr (appended MaxWatchFolderLoaded l h)).
  { intros c' (l' & Hl' & [[Hin _]|(_ & Hx & _)]); unfold loaded_list in Hl; rewrite Hl in Hl'; injection Hl' as <-; [by destruct Hn|done]. }
  destruct (append_capped _ _ _ o w) as [r w']. cbn [fst snd] in *. unfold at_rest, loaded_list, dirs_of, accepted_log, loader_of, saved in *. rewrite He. cbn.
  split_and!; [done..|]. destruct Hor as [->|Hto']; [|left; by apply Hto]. 
  destruct (decide (r = inr tt)) as [Hrt|Hrt]; [left; by apply Hto, Hr|right]. split; [done|]. intros Ho. by apply Hrt, Hok.
Qed.
Lemma removed dir name o w : at_rest w -> let w' := (os_Remove dir name o w).2 in
  at_rest w' /\ c_settings (saved w') = c_settings (saved w) /\ accepted_log w' = accepted_log w /\
  (dirs_of w' = dirs_of w \/ dirs_of w' = alter (delete name) dir (dirs_of w)).
Proof. intros Hw. unfold os_Remove. cbn zeta. destruct (o_io o (w_n w)), (dirs_of w !! dir ≫= (.!! name)); cbn; auto 10. Qed.

(** What a hand-over leaves: the file was there with these bytes, its identity
    was not in the list, and it is gone only from a folder that says so. *)
Definition handed_over (folderID : string) (f : WatchFolderRow) o (name id : string) w w' : Prop := exists e h l,
  file_at w (WF_Path f) name = Some e /\ identity (de_bytes e) = Some h /\ loaded_list folderID w = inr l /\ (h ∉ l) /\
  at_rest w' /\ accepted_log w' = accepted_log w ++ [MkAccepted folderID name (de_bytes e) id] /\
  (dirs_of w' = dirs_of w \/ DeleteAfterLoad f <> 0 /\ dirs_of w' = alter (delete name) (WF_Path f) (dirs_of w)) /\
  (loaded_list folderID w' = inr (appended MaxWatchFolderLoaded l h) \/ loaded_list folderID w' = inr l /\ ~ io_ok o).

Lemma still_list folderID w w' : c_settings (saved w') = c_settings (saved w) -> loaded_list folderID w' = loaded_list folderID w.
Proof. unfold loaded_list, list_of, querySettingValue. by intros ->. Qed.
Lemma still_file w w' dir name : dirs_of w' = dirs_of w -> file_at w' dir name = file_at w dir name.
Proof. unfold file_at. by intros ->. Qed.

(** After the creator accepted: the mark and the removal, then the answer. *)
Lemma after_accept folderID f name id e h l o w w1 : utf8_text h ->
  file_at w (WF_Path f) name = Some e -> identity (de_bytes e) = Some h -> loaded_list folderID w = inr l -> (h ∉ l) ->
  at_rest w1 -> c_settings (saved w1) = c_settings (saved w) -> dirs_of w1 = dirs_of w ->
  accepted_log w1 = accepted_log w ++ [MkAccepted folderID name (de_bytes e) id] ->
  let (r, w') := (marked ← attempt (MarkWatchFolderLoaded folderID h);
    e1 ← (match marked with
          | inl e => t ← message ("record loaded infohash of " +:+ name +:+ ": ") e; mret [t]
          | inr _ => mret [] end);
    e2 ← (if DeleteAfterLoad f =? 0 then mret []
          else removed ← attempt (os_Remove (WF_Path f) name);
               match removed with
               | inl e => t ← message ("unlink " +:+ name +:+ ": ") e; mret [t]
               | inr _ => mret [] end);
    mret (Loaded id, e1 ++ e2)) o w1 in
  handed_over folderID f o name id w w' /\ exists texts, r = inr (Loaded id, texts).
Proof.
  intros Ht He Hi Hl Hn Hw1 Hs Hd Hlog. pose proof (marked folderID h l o w1 Ht Hw1) as Hm. rewrite (still_list folderID w w1 Hs) in Hm.
  specialize (Hm Hl Hn). rewrite bind_run. unfold attempt at 1. destruct (MarkWatchFolderLoaded folderID h o w1) as [m w2]. cbn zeta in Hm. cbn [snd] in Hm.
  destruct Hm as (Hw2 & Hd2 & Hlog2 & Hl2).
  assert (Hdone : forall e1 w3, at_rest w3 -> c_settings (saved w3) = c_settings (saved w2) -> accepted_log w3 = accepted_log w2 ->
    (dirs_of w3 = dirs_of w2 \/ DeleteAfterLoad f <> 0 /\ dirs_of w3 = alter (delete name) (WF_Path f) (dirs_of w2)) ->
    handed_over folderID f o name id w w3 /\ exists texts, (inr (Loaded id, e1) : res (fate * list (list Z))) = inr (Loaded id, texts)).
  { intros e1 w3 Hw3 Hs3 Hlog3 Hd3. split; [|by exists e1]. exists e, h, l. rewrite (still_list folderID w2 w3 Hs3), Hlog3, Hlog2, Hlog.
    rewrite Hd2, Hd in Hd3. split_and!; done. }
  destruct (Z.eqb_spec (DeleteAfterLoad f) 0) as [Hz|Hz].
  - destruct m as [em|u]; cbn; apply Hdone; auto.
  - assert (Hrm : forall e1, let (r, w') := (e2 ← (removed ← attempt (os_Remove (WF_Path f) name);
               match removed with
               | inl e => t ← message ("unlink " +:+ name +:+ ": ") e; mret [t]
               | inr _ => mret [] end);
    mret (Loaded id, e1 ++ e2)) o w2 in handed_over folderID f o name id w w' /\ exists texts, r = inr (Loaded id, texts)).
    { intros e1. rewrite !bind_run. unfold attempt. pose proof (removed (WF_Path f) name o w2 Hw2) as Hrm.
      destruct (os_Remove _ _ o w2) as [x w3]. cbn zeta in Hrm. cbn [snd] in Hrm. destruct Hrm as (? & ? & ? & ?).
      destruct x; cbn; apply Hdone; intuition auto. }
    destruct m as [em|u]; [|apply Hrm]. rewrite bind_run. cbn [message]. rewrite bind_run. cbn. apply Hrm.
Qed.

Lemma still_ret {A} (x : A) : always still (mret x).
Proof. apply always_ret, _. Qed.
Lemma created folderID name blob dest category o w : at_rest w ->
  let (r, w1) := CreateFromTorrent create folderID name blob dest category o w in
  at_rest w1 /\ c_settings (saved w1) = c_settings (saved w) /\ dirs_of w1 = dirs_of w /\
  accepted_log w1 = accepted_log w ++ match r with inr id => [MkAccepted folderID name blob id] | inl _ => [] end.
Proof. intros Hw. unfold CreateFromTorrent. destruct (create _ _ _ _ _ _) as [[e|id] c]; cbn; split_and!; try done. by rewrite app_nil_r. Qed.

(** One entry: nothing is touched, or it was handed over. *)
Lemma entry_spec folderID f category p o w : byte_digest sha1Sum -> byte_digest sha256Sum -> at_rest w ->
  let (r, w') := scan_entry folderID f category p o w in
  still w w' /\ (forall x, r = inr x -> forall id, x.1 <> Loaded id) \/
  exists id texts, r = inr (Loaded id, texts) /\ handed_over folderID f o p.1 id w w'.
Proof.
  intros Hh1 Hh2 Hw. destruct p as [name entry]. unfold Watch.scan_entry. cbn [fst].
  destruct (negb _); [left; by split; [|intros x [= <-]]|]. rewrite bind_run.
  set (typed := if bool_decide _ then _ else _). assert (Ht : always still typed).
  { unfold typed. case_bool_decide; [apply still_ret|]. apply always_bind; [apply _|apply always_attempt, still_info|]. intros; apply still_ret. }
  specialize (Ht o w). destruct (typed o w) as [[e|[]] w1]; cbn [snd] in Ht; [by left; split|cbn [negb]|left; by split; [|intros x [= <-]]].
  clear typed. destruct (Ht Hw) as (Hw1 & Hs1 & Hd1 & Hl1). rewrite bind_run. unfold attempt at 1. unfold os_ReadFile at 1.
  set (w2 := bump w1). assert (Hw2 : at_rest w2) by done. assert (Ht2 : still w w2) by (intros _; by split_and!).
  assert (Hskip : forall s, (mret (Skip s, []) : M (fate * list (list Z))) o w2 = (inr (Skip s, []), w2)) by done.
  destruct (o_io o (w_n w1)); [|left; by split; [|intros x [= <-]]..].
  destruct (dirs_of w1 !! WF_Path f ≫= (.!! name)) as [e|] eqn:He; [|left; by split; [|intros x [= <-]]].
  destruct (identity (de_bytes e)) as [h|] eqn:Hi; [|left; by split; [|intros x [= <-]]].
  rewrite bind_run. unfold attempt at 1. pose proof (still_loaded folderID h o w2) as Hst. pose proof (loaded_reads folderID h o w2 Hw2) as Hread.
  destruct (WatchFolderLoaded folderID h o w2) as [[e3|[]] w3]; cbn [fst snd] in Hst, Hread.
  - rewrite bind_run. unfold err_text. cbn beta iota. rewrite bind_run. pose proof (still_note folderID [bytes_of (o_text o e3)] o w3) as Hnote.
    destruct (touch_folder folderID _ o w3) as [[e4|[]] w4]; cbn [snd fail] in *; left; (split; [by transitivity w2; [|transitivity w3]|done]).
  - left. split; [by transitivity w2|by intros x [= <-]].
  - destruct (Hst Hw2) as (Hw3 & Hs3 & Hd3 & Hl3). destruct (Hread eq_refl) as (l & Hl & Hn). clear Hread Hst.
    rewrite bind_run. unfold attempt at 1. pose proof (created folderID name (de_bytes e) (WF_Destination f) category o w3 Hw3) as Hc.
    destruct (CreateFromTorrent _ _ _ _ _ _ o w3) as [[e4|id] w4]; destruct Hc as (Hw4 & Hs4 & Hd4 & Hl4).
    + rewrite app_nil_r in Hl4. assert (still w w4) by (transitivity w2; [done|]; intros _; split_and!; congruence).
      destruct (errors_is e4 _); [left; by split; [|intros x [= <-]]|]. destruct (errors_is e4 _); [left; by split; [|intros x [= <-]]|].
      rewrite bind_run. cbn. left. by split; [|intros x [= <-]].
    + assert (Hf : file_at w (WF_Path f) name = Some e) by (unfold file_at; by rewrite <- Hd1).
      rewrite (still_list folderID w w2 Hs1) in Hl. change (dirs_of w2 = dirs_of w) in Hd1. change (c_settings (saved w2) = c_settings (saved w)) in Hs1.
      change (accepted_log w2 = accepted_log w) in Hl1.
      pose proof (after_accept folderID f name id e h l o w w4 (identity_text _ _ Hh1 Hh2 Hi) Hf Hi Hl Hn Hw4 ltac:(congruence) ltac:(congruence) ltac:(congruence)) as Ha.
      match goal with |- let (_, _) := ?m in _ => destruct m as [r w'] end. destruct Ha as [Ha [texts ->]]. right. by exists id, texts.
Qed.

(** ** A sweep *)

(** What a sweep of the folder leaves, [new] being what was accepted. *)
Definition swept (folderID : string) (f : WatchFolderRow) o w w' (new : list accepted) : Prop :=
  at_rest w' /\ accepted_log w' = accepted_log w ++ new /\
  (forall dir name, file_at w' dir name = file_at w dir name \/
     file_at w' dir name = None /\ dir = WF_Path f /\ DeleteAfterLoad f <> 0 /\
     exists e id, file_at w dir name = Some e /\ MkAccepted folderID name (de_bytes e) id ∈ new) /\
  (forall l, loaded_list folderID w = inr l -> (length l + length new <= MaxWatchFolderLoaded)%nat ->
     exists k, loaded_list folderID w' = inr (l ++ k) /\ (length k <= length new)%nat /\
       Forall (fun a => exists h, identity (ac_blob a) = Some h /\ h ∉ l) new /\
       (io_ok o -> identity <$> (ac_blob <$> new) = Some <$> k /\ NoDup k)).

Lemma swept_still folderID f o w w' : still w w' -> at_rest w -> swept folderID f o w w' [].
Proof.
  intros Hs Hw. destruct (Hs Hw) as (Hr & Hset & Hd & Hl). split_and!; [done|by rewrite app_nil_r|intros; left; by apply still_file|].
  intros l Hll _. exists []. rewrite app_nil_r, (still_list folderID w w' Hset). split_and!; [done|done|constructor|]. split; [done|constructor].
Qed.
Lemma swept_one folderID f o name id w w' : handed_over folderID f o name id w w' ->
  exists a, ac_task a = id /\ swept folderID f o w w' [a].
Proof.
  intros (e & h & l & He & Hi & Hl & Hn & Hw' & Hlog & Hd & Hll). exists (MkAccepted folderID name (de_bytes e) id). split; [done|]. split_and!; [done|done| |].
  - intros dir n. unfold file_at in *. destruct Hd as [->|[Hz ->]]; [by left|]. destruct (decide (dir = WF_Path f)) as [->|Hne].
    2:{ left. by rewrite lookup_alter_ne. }
    rewrite lookup_alter_eq. destruct (dirs_of w !! WF_Path f) as [m|] eqn:Hm; [|by left]. cbn in *.
    destruct (decide (n = name)) as [->|Hne]; [right|left; by rewrite lookup_delete_ne]. rewrite lookup_delete_eq. split_and!; [done..|].
    exists e, id. split; [done|]. by left.
  - intros l' Hl' Hmax. rewrite Hl in Hl'. injection Hl' as <-. cbn in Hmax. rewrite appended_grows in Hll by lia.
    assert (Hall : Forall (fun a => exists h, identity (ac_blob a) = Some h /\ (h ∉ l)) [MkAccepted folderID name (de_bytes e) id]).
    { apply list.Forall_singleton. cbn. eauto. }
    destruct Hll as [Hll|[Hll Hio]]; [exists [h]|exists []; rewrite app_nil_r]; (split_and!; [done|cbn; lia|done|]); [|done].
    intros _. cbn. rewrite Hi. split; [done|apply NoDup_singleton].
Qed.
Lemma swept_trans folderID f o w w1 w2 n1 n2 : swept folderID f o w w1 n1 -> swept folderID f o w1 w2 n2 -> swept folderID f o w w2 (n1 ++ n2).
Proof.
  intros (Hw1 & Hl1 & Hf1 & Hs1) (Hw2 & Hl2 & Hf2 & Hs2). split_and!; [done|by rewrite Hl2, Hl1, app_assoc| |].
  - intros dir name. destruct (Hf2 dir name) as [->|(Hn & -> & Hz & e & id & He & Hin)].
    + destruct (Hf1 dir name) as [|(Hn & ? & ? & e & id & He & Hin)]; [by left|right]. split_and!; [done..|]. exists e, id. split; [done|]. apply elem_of_app. by left.
    + right. destruct (Hf1 (WF_Path f) name) as [Hsame|(Hn1 & _)]; [|congruence]. split_and!; [done..|]. exists e, id. split; [congruence|]. apply elem_of_app. by right.
  - intros l Hl Hmax. rewrite length_app in Hmax. destruct (Hs1 l Hl ltac:(lia)) as (k1 & Hk1 & Hn1 & Ha1 & Ho1).
    destruct (Hs2 _ Hk1 ltac:(rewrite length_app; lia)) as (k2 & Hk2 & Hn2 & Ha2 & Ho2). exists (k1 ++ k2). rewrite app_assoc, !length_app.
    split_and!; [done|lia| |].
    + apply list.Forall_app. split; [done|]. eapply list.Forall_impl; [exact Ha2|]. intros a (h & Hh & Hn). exists h. split; [done|]. set_solver.
    + intros Ho. destruct (Ho1 Ho) as [He1 Hd1], (Ho2 Ho) as [He2 Hd2]. rewrite !fmap_app, He1, He2. split; [done|].
      apply list.NoDup_app. split_and!; [done| |done]. intros h Hh1 Hh2. assert (Some h ∈ identity <$> (ac_blob <$> n2)) as Hin by (rewrite He2; by apply list_elem_of_fmap_2).
      rewrite <- list_fmap_compose in Hin. apply list_elem_of_fmap in Hin as (a & Ha & Hin). rewrite list.Forall_forall in Ha2.
      destruct (Ha2 a Hin) as (h' & Hh' & Hn). cbn in Ha. rewrite <- Ha in Hh'. injection Hh' as <-. set_solver.
Qed.

Lemma scanned_spec folderID f category entries acc texts o w : byte_digest sha1Sum -> byte_digest sha256Sum -> at_rest w ->
  let (r, w') := scan_entries folderID f category entries acc texts o w in
  exists new, swept folderID f o w w' new /\ forall x, r = inr x ->
    ScanCreated x.1 = ScanCreated acc ++ (ac_task <$> new) /\ Scanned x.1 = Scanned acc + Z.of_nat (length entries).
Proof.
  intros Hh1 Hh2. revert acc texts w. induction entries as [|p entries IH]; intros acc texts w Hw; cbn [Watch.scan_entries].
  { cbn. exists []. split; [by apply swept_still|]. intros x [= <-]. cbn. rewrite app_nil_r. split; [done|lia]. }
  rewrite bind_run. pose proof (still_ctx o w) as Hctx. destruct (ctx_done o w) as [[e|d] w1]; cbn [snd] in Hctx.
  { exists []. split; [by apply swept_still|done]. }
  destruct (Hctx Hw) as (Hw1 & _). pose proof (swept_still folderID f o w w1 Hctx Hw) as H0. destruct d; [exists []; by split|]. rewrite bind_run.
  pose proof (entry_spec folderID f category p o w1 Hh1 Hh2 Hw1) as He. destruct (scan_entry folderID f category p o w1) as [[e|[x t]] w2].
  { destruct He as [[He _]|(id & t & [=] & _)]. exists []. split; [|done]. apply (swept_trans _ _ _ _ w1 _ [] []); [done|by apply swept_still]. }
  assert (Hone : exists n, swept folderID f o w1 w2 n /\ forall acc, ScanCreated (reported acc p.1 x) = ScanCreated acc ++ (ac_task <$> n)).
  { destruct He as [[He Hx]|(id & t' & [= -> ->] & Hh)].
    - exists []. split; [by apply swept_still|]. intros a. cbn. rewrite app_nil_r. destruct x as [s|id|]; [done| |done]. by destruct (Hx _ eq_refl id).
    - apply swept_one in Hh as (a & <- & Ha). by exists [a]. }
  destruct Hone as (n & Hsw & Hrep). assert (Hw2 : at_rest w2) by apply Hsw. specialize (IH (reported acc p.1 x) (texts ++ t) w2 Hw2).
  cbn [fst snd]. destruct (scan_entries _ _ _ _ _ _ o w2) as [r w3]. destruct IH as (n' & Hsw' & Hr). exists ([] ++ n ++ n').
  split; [by eapply swept_trans; [|eapply swept_trans]|]. intros y Hy. destruct (Hr y Hy) as [-> ->]. rewrite Hrep. cbn. rewrite fmap_app, app_assoc.
  split; [done|lia].
Qed.

Lemma sweep_spec folderID o w : byte_digest sha1Sum -> byte_digest sha256Sum -> at_rest w ->
  let (r, w') := ScanOnce folderID o w in
  exists new, (new = [] /\ still w w' /\ (forall x, r <> inr x) \/
    exists f category, queryWatchFolderByID folderID (saved w) = Some (f, category) /\ swept folderID f o w w' new /\
      forall x, r = inr x -> ScanCreated x = ac_task <$> new /\ exists m, dirs_of w !! WF_Path f = Some m /\ Scanned x = Z.of_nat (size m)).
Proof.
  intros Hh1 Hh2 Hw. unfold Watch.ScanOnce, GetWatchFolder, conf_row. rewrite !bind_run. unfold query_conf at 1, conf_of at 1, seen_conf at 1.
  replace (conf_working (w_eng w)) with (@None confdb) by done. cbn [default from_option id]. fold (saved w).
  assert (Hb : still w (bump w)) by (by intros _). destruct (o_io o (w_n w)); [|exists []; left; by split_and!..].
  destruct (queryWatchFolderByID folderID (saved w)) as [[f category]|] eqn:Hf; [|exists []; left; by split_and!]. cbn beta iota. rewrite ret_run. cbn beta iota.
  set (w1 := bump w) in *. assert (Hw1 : at_rest w1) by done.
  rewrite bind_run. unfold attempt at 1. pose proof (still_dir (WF_Path f) o w1) as Hdir. unfold os_ReadDir in *. cbn [snd] in Hdir. set (w2 := bump w1) in *.
  assert (Hs : forall w3, still w2 w3 -> still w w3) by (intros w3 H3; transitivity w1; [done|by transitivity w2]).
  assert (Hfail : forall e, let (r, w') := (t ← err_text e; touch_folder folderID [bytes_of t] ;; fail (A := ScanResult) e) o w2 in still w w' /\ forall x, r <> inr x).
  { intros e. rewrite bind_run. unfold err_text. cbn beta iota. rewrite bind_run. pose proof (still_note folderID [bytes_of (o_text o e)] o w2) as Hn.
    destruct (touch_folder _ _ o w2) as [[e'|[]] w3]; (split; [by apply Hs|done]). }
  assert (Hout : forall e, let (r, w') := (t ← err_text e; touch_folder folderID [bytes_of t] ;; fail (A := ScanResult) e) o w2 in
    exists new, (new = [] /\ still w w' /\ (forall x, r <> inr x) \/ exists f' category', Some (f, category) = Some (f', category') /\
      swept folderID f' o w w' new /\ forall x, r = inr x -> ScanCreated x = ac_task <$> new /\ exists m, dirs_of w !! WF_Path f' = Some m /\ Scanned x = Z.of_nat (size m))).
  { intros e. specialize (Hfail e). match goal with |- let (_, _) := ?m in _ => destruct m as [r w'] end. exists []. left. by split. }
  destruct (o_io o (w_n w1)); [|apply Hout..]. destruct (dirs_of w1 !! WF_Path f) as [m|] eqn:Hm; [|apply Hout].
  rewrite bind_run. match goal with |- context [Watch.scan_entries _ _ _ _ _ _ ?c ?es ?a ?t o w2] => pose proof (scanned_spec folderID f c es a t o w2 Hh1 Hh2 Hw1) as He end.
  destruct (scan_entries _ _ _ _ _ _ o w2) as [[e|[acc texts]] w3]; destruct He as (new & Hsw & Hr).
  - exists new. right. exists f, category. split_and!; [done| |done]. apply (swept_trans _ _ _ _ w2 _ [] new); [apply swept_still; [by apply Hs|done]|done].
  - cbn beta iota. rewrite bind_run. pose proof (still_note folderID texts o w3) as Hn. cbn [snd].
    assert (Hw3 : at_rest w3) by apply Hsw. destruct (touch_folder _ _ o w3) as [[e|[]] w4]; cbn [snd] in Hn; exists new; right; exists f, category; (split; [done|]);
      (assert (Hall : swept folderID f o w w4 new);
        [replace new with ([] ++ new ++ []) by (by rewrite app_nil_r);
         eapply swept_trans; [apply swept_still; [apply Hs; reflexivity|done]|eapply swept_trans; [exact Hsw|by apply swept_still]]|split; [done|]]); [done|].
    intros x [= <-]. destruct (Hr _ eq_refl) as [Hc Hsc]. cbn in Hc, Hsc. split; [done|]. exists m. split; [done|]. rewrite Hsc.
    rewrite sort_by_Permutation. by rewrite length_map_to_list.
Qed.

(** C36: A sweep unlinks a file only in a folder that asks for it and after the
    creator accepted exactly its bytes; it touches no other file, and its
    report lists what the creator accepted - whatever the driver and the disk
    answer and wherever the sweep stops. *)
Theorem files_go_only_once_accepted folderID o w : byte_digest sha1Sum -> byte_digest sha256Sum -> at_rest w ->
  let (r, w') := ScanOnce folderID o w in
  at_rest w' /\ exists new, accepted_log w' = accepted_log w ++ new /\
  (forall dir name, file_at w' dir name = file_at w dir name \/
    file_at w' dir name = None /\ exists f category e id, queryWatchFolderByID folderID (saved w) = Some (f, category) /\
      WF_Path f = dir /\ DeleteAfterLoad f <> 0 /\ file_at w dir name = Some e /\ MkAccepted folderID name (de_bytes e) id ∈ new) /\
  (forall x, r = inr x -> ScanCreated x = ac_task <$> new /\ exists f category m,
    queryWatchFolderByID folderID (saved w) = Some (f, category) /\ dirs_of w !! WF_Path f = Some m /\ Scanned x = Z.of_nat (size m)).
Proof.
  intros Hh1 Hh2 Hw. pose proof (sweep_spec folderID o w Hh1 Hh2 Hw) as Hs. destruct (ScanOnce folderID o w) as [r w'].
  destruct Hs as (new & [(-> & Hs & Hr)|(f & category & Hf & (Hw' & Hl & Hfs & _) & Hr)]).
  - destruct (Hs Hw) as (Hw' & _ & Hd & Hl). split; [done|]. exists []. split_and!; [by rewrite app_nil_r|intros; left; by apply still_file|].
    intros x Hx. by destruct (Hr x).
  - split; [done|]. exists new. split_and!; [done| |].
    + intros dir name. destruct (Hfs dir name) as [|(Hn & -> & Hz & e & id & He & Hin)]; [by left|right]. split; [done|]. by exists f, category, e, id.
    + intros x Hx. destruct (Hr x Hx) as (Hc & m & Hm & Hsz). split; [done|]. by exists f, category, m.
Qed.

(** ** Histories *)

(** Files dropped into the folders between two sweeps. *)
Definition dropped_in (disk : gmap string (gmap string DirEntry)) w : world :=
  put_loader (MkLoader disk (creator (loader_of w)) (accepted_log w)) w.
Fixpoint sweeps (folderID : string) (history : list (gmap string (gmap string DirEntry) * oracle)) w : world :=
  match history with
  | [] => w
  | (disk, o) :: history => sweeps folderID history (ScanOnce folderID o (dropped_in disk w)).2
  end.
(** The loaded list is the identities of what was accepted, each once. *)
Definition tracked (folderID : string) w : Prop := at_rest w /\ exists k, loaded_list folderID w = inr k /\
  identity <$> (ac_blob <$> accepted_log w) = Some <$> k /\ NoDup k.

Lemma sweep_tracked folderID o w : byte_digest sha1Sum -> byte_digest sha256Sum -> io_ok o -> at_rest w ->
  let w' := (ScanOnce folderID o w).2 in at_rest w' /\ (length (accepted_log w) <= length (accepted_log w'))%nat /\
  ((length (accepted_log w') <= MaxWatchFolderLoaded)%nat -> tracked folderID w -> tracked folderID w').
Proof.
  intros Hh1 Hh2 Ho Hw. pose proof (sweep_spec folderID o w Hh1 Hh2 Hw) as Hs. destruct (ScanOnce folderID o w) as [r w'].
  assert (Hsw : exists f new, swept folderID f o w w' new).
  { destruct Hs as (new & [(-> & Hs & _)|(f & _ & _ & Hs & _)]); [|by exists f, new].
    exists (MkWatchFolderRow EmptyString 0 EmptyString None 0 0 None None 0 0), []. by apply swept_still. }
  destruct Hsw as (f & new & Hw' & Hl & _ & Hll). cbn zeta. cbn [snd]. rewrite Hl, length_app. split_and!; [done|lia|].
  intros Hmax (_ & k & Hk & Hid & Hn). split; [done|]. assert (Hlen : length k = length (accepted_log w)).
  { apply (f_equal length) in Hid. rewrite !length_fmap in Hid. done. }
  destruct (Hll k Hk ltac:(lia)) as (k' & Hk' & _ & Hnew & Hok). destruct (Hok Ho) as [Hid' Hn']. exists (k ++ k').
  rewrite Hl, !fmap_app, Hid, Hid'. split_and!; [done|done|]. apply list.NoDup_app. split_and!; [done| |done]. intros h Hh Hh'.
  assert (Hin : Some h ∈ identity <$> (ac_blob <$> new)) by (rewrite Hid'; by apply list_elem_of_fmap_2).
  rewrite <- list_fmap_compose in Hin. apply list_elem_of_fmap in Hin as (a & Ha & Hin). rewrite list.Forall_forall in Hnew.
  destruct (Hnew a Hin) as (h' & Hh1' & Hn1). cbn in Ha. rewrite <- Ha in Hh1'. by injection Hh1' as <-.
Qed.

Lemma sweeps_tracked folderID history w : byte_digest sha1Sum -> byte_digest sha256Sum -> Forall (fun p => io_ok p.2) history -> at_rest w ->
  let w' := sweeps folderID history w in at_rest w' /\ (length (accepted_log w) <= length (accepted_log w'))%nat /\
  ((length (accepted_log w') <= MaxWatchFolderLoaded)%nat -> tracked folderID w -> tracked folderID w').
Proof.
  intros Hh1 Hh2 Hok. revert w. induction Hok as [|[disk o] history Ho Hok IH]; intros w Hw; cbn [sweeps]; [by split_and!|].
  pose proof (sweep_tracked folderID o (dropped_in disk w) Hh1 Hh2 Ho Hw) as Hs. cbn zeta in Hs.
  set (w1 := (ScanOnce folderID o (dropped_in disk w)).2) in *. destruct Hs as (Hw1 & Hlen & Hkeep).
  destruct (IH w1 Hw1) as (Hw' & Hlen' & Hkeep'). change (accepted_log (dropped_in disk w)) with (accepted_log w) in Hlen.
  split_and!; [done|lia|]. intros Hmax Ht. apply Hkeep'; [done|]. apply Hkeep; [lia|exact Ht].
Qed.

(** C35: However often a folder is swept and whatever is dropped into it between
    sweeps, over a driver that answers: while it accepted no more torrents than
    the loaded set holds, the creator accepted none of them twice, and the set
    is exactly their identities.  A torrent the creator refused is handed to it
    again by the next sweep. *)
Theorem no_torrent_loaded_twice folderID history w : byte_digest sha1Sum -> byte_digest sha256Sum ->
  Forall (fun p => io_ok p.2) history -> tracked folderID w ->
  let w' := sweeps folderID history w in
  (length (accepted_log w') <= MaxWatchFolderLoaded)%nat ->
  NoDup (identity <$> (ac_blob <$> accepted_log w')) /\
  exists k, loaded_list folderID w' = inr k /\ identity <$> (ac_blob <$> accepted_log w') = Some <$> k.
Proof.
  cbn zeta. intros Hh1 Hh2 Hok Ht Hmax. destruct (sweeps_tracked folderID history w Hh1 Hh2 Hok (proj1 Ht)) as (_ & _ & Hkeep).
  destruct (Hkeep Hmax Ht) as (_ & k & Hk & Hid & Hn). split; [|by exists k]. rewrite Hid. by apply (NoDup_fmap_2 _).
Qed.
End WatchProps.

(** ** A folder at work *)

Section Scene.
(** A decoder for the one dictionary of the scene. *)
Definition one_info (raw : list Z) : option Info :=
  Some {| BestName := raw; Private := None; MetaVersion := 0; Pieces := [0]; Files := []; Length := 5; Tree := Node false 0 [] |}.
(** The payload itself as its digest, so that two dictionaries differ. *)
Definition raw_digest (raw : list Z) : list Z := (fun b => b mod 256) <$> raw.
Definition torrent (name : string) : list Z := bytes_of ("d4:infod4:name1:" +:+ name +:+ "ee")%string.
(** A creator that accepts and numbers what it is given. *)
Definition numbering (_ : nat) (k : nat) (_ : string) (_ : list Z) (_ _ : string) : res string * nat := (inr "task"%string, S k).
Definition drop_box : gmap string (gmap string DirEntry) :=
  {["/in"%string := {["a.torrent"%string := MkEntry DTRegular true (torrent "a"); "b.torrent"%string := MkEntry DTUnknown true (torrent "a");
     "c.torrent"%string := MkEntry DTRegular true (torrent "c"); "notes.txt"%string := MkEntry DTRegular true []]}]}.
Definition boxed : confdb := put_folders {["f"%string := MkWatchFolderRow "/in" 1 "/data" None 1 10 None None 0 0]} shop.
Definition box_world : world (conf (loader nat)) :=
  World (MkDb ∅ [] ∅ ∅ ∅) None 0 None false [] Lease.NewRegistry (MkConf boxed None (MkLoader drop_box 0%nat [])).
Lemma raw_digest_bytes : byte_digest raw_digest.
Proof. intros l. apply list.Forall_forall. intros x (b & -> & _)%list_elem_of_fmap. unfold is_byte. apply Z.mod_pos_bound. lia. Qed.
End Scene.

Abbreviation box_scan := (@Watch.ScanOnce ascii_tables raw_digest raw_digest one_info nat numbering).
Lemma box_tracked : @tracked ascii_tables raw_digest raw_digest one_info nat "f" box_world.
Proof. split; [done|]. exists []. split_and!; [vm_compute; reflexivity|done|constructor]. Qed.

(** One sweep loads two of the four files - the copy and the note stay. *)
Lemma files_go_only_once_accepted_witness : exists x w', box_scan "f" healthy box_world = (inr x, w') /\
  ScanCreated x = ["task"; "task"]%string /\ Skipped x = [("b.torrent"%string, SkipAlreadyLoaded); ("notes.txt"%string, SkipNotATorrent)] /\
  file_at w' "/in" "a.torrent" = None /\ exists id, MkAccepted "f" "a.torrent" (torrent "a") id ∈ accepted_log w'.
Proof.
  pose proof (@files_go_only_once_accepted ascii_tables raw_digest raw_digest one_info nat numbering "f" healthy box_world raw_digest_bytes raw_digest_bytes eq_refl) as Hs.
  set (x := MkScan 4 ["task"; "task"]%string [("b.torrent"%string, SkipAlreadyLoaded); ("notes.txt"%string, SkipNotATorrent)]).
  assert (Hok : (box_scan "f" healthy box_world).1 = inr x) by (vm_compute; reflexivity).
  assert (Hgone : file_at (box_scan "f" healthy box_world).2 "/in" "a.torrent" = None) by (vm_compute; reflexivity).
  assert (Hfile : file_at box_world "/in" "a.torrent" = Some (MkEntry DTRegular true (torrent "a"))) by (vm_compute; reflexivity).
  destruct (box_scan "f" healthy box_world) as [r w']. cbn [fst snd] in Hok, Hgone. subst r. exists x, w'.
  destruct Hs as (_ & new & Hlog & Hf & _). split_and!; [reflexivity..|exact Hgone|].
  destruct (Hf "/in"%string "a.torrent"%string) as [Hsame|(_ & f & c & e & id & _ & _ & _ & He & Hin)]; [rewrite Hgone, Hfile in Hsame; discriminate|].
  exists id. rewrite Hfile in He. injection He as <-. rewrite Hlog. apply elem_of_app. right. exact Hin.
Defined.
(** Dropping the same files in again loads nothing again. *)
Lemma no_torrent_loaded_twice_witness :
  let w' := @sweeps ascii_tables raw_digest raw_digest one_info nat numbering "f" [(drop_box, healthy); (drop_box, healthy)] box_world in
  length (accepted_log w') = 2%nat /\ NoDup (infohash_of (H := ascii_tables) raw_digest raw_digest one_info <$> (ac_blob <$> accepted_log w')).
Proof.
  pose proof (@no_torrent_loaded_twice ascii_tables raw_digest raw_digest one_info nat numbering "f" [(drop_box, healthy); (drop_box, healthy)] box_world
    raw_digest_bytes raw_digest_bytes) as Ht.
  assert (Hlen : length (accepted_log (@sweeps ascii_tables raw_digest raw_digest one_info nat numbering "f" [(drop_box, healthy); (drop_box, healthy)] box_world)) = 2%nat) by (vm_compute; reflexivity).
  cbn zeta in Ht |- *. revert Ht Hlen. generalize (@sweeps ascii_tables raw_digest raw_digest one_info nat numbering "f" [(drop_box, healthy); (drop_box, healthy)] box_world).
  intros w' Ht Hlen. split; [exact Hlen|]. apply Ht; [|exact box_tracked|rewrite Hlen; unfold MaxWatchFolderLoaded; lia].
  repeat constructor; exact healthy_io.
Defined.
