(* ===== verification/RssDoc.v ===== *)
(** * Rule documents and episodes ([internal/rss/ruledoc.go], [episode.go])

    The document with its defaults, its validation, the patterns of its match
    block and the episode filter; then the seasons and episodes of a title.  A
    pattern the operator writes in regex mode is compiled by package [regexp],
    which is a parameter; wildcard and plain patterns are built here. *)

From Stdlib Require Import SpecFloat.
From stdpp Require Import pretty.
From S2P Require Import Prelude GoStrings SafePath SafeJoin Manifest Archive Regex.

Open Scope Z_scope.

(** [regexp.Compile] of an operator's pattern: what [FindStringIndex] of the
    compiled expression finds in a text. *)
Definition matcher : Type := list Z -> option (nat * nat).
Class Regexp := { regexp_Compile : string -> option matcher }.
Definition found_in (m : matcher) (text : list Z) : bool := bool_decide (is_Some (m text)).

(** ** The document *)

Definition MatchModeWildcard : string := "wildcard".
Definition MatchModeRegex : string := "regex".
Definition MatchModePlain : string := "plain".
Definition contentLayoutOriginal : string := "original".
Definition contentLayoutSubfolder : string := "subfolder".
Definition contentLayoutNoSubfolder : string := "no_subfolder".
Definition matchFieldTitle : string := "title".
Definition maxPatternBytes : nat := 1024.
Definition maxScoreFormats : nat := 32.

Record MatchSpec := MkMatch {
  Mode : string; CaseSensitive : bool; MFields : list string; AnyOf : list string; NoneOf : list string;
  MinSize : string; MaxSize : string; PublishedAfter : string }.
Record EpisodeSpec := MkEpisode { Smart : bool; EFilter : string; AllowRepackProper : option bool }.
Record ScoreFormat := MkFormat { SF_Name : string; SF_Pattern : string; SF_Weight : Z }.
Record ScoreSpec := MkScore { SMinimum : Z; Formats : list ScoreFormat }.
Record ActionSpec := MkAction {
  A_Destination : string; A_Category : string; A_Tags : list string; A_Paused : bool; A_ContentLayout : string; A_Engine : string }.
Record ThrottleSpec := MkThrottleSpec { CooldownDays : Z; MaxPerRun : Z }.
Record RuleDoc := MkDoc {
  D_Name : string; D_Enabled : option bool; D_Priority : Z; D_Feeds : list string; D_Match : MatchSpec;
  D_Episode : option EpisodeSpec; D_Score : option ScoreSpec; D_Action : ActionSpec; D_Throttle : ThrottleSpec }.

(** [RuleDoc.ApplyDefaults]. *)
Definition or_else (s d : string) : string := if bool_decide (s = EmptyString) then d else s.
Definition or_title (fields : list string) : list string := if bool_decide (fields = []) then [matchFieldTitle] else fields.
Definition default_match (m : MatchSpec) : MatchSpec :=
  MkMatch (or_else (Mode m) MatchModeWildcard) (CaseSensitive m) (or_title (MFields m)) (AnyOf m) (NoneOf m)
    (MinSize m) (MaxSize m) (PublishedAfter m).
Definition default_episode (e : EpisodeSpec) : EpisodeSpec :=
  MkEpisode (Smart e) (EFilter e) (Some (default true (AllowRepackProper e))).
Definition ApplyDefaults (d : RuleDoc) : RuleDoc :=
  MkDoc (D_Name d) (Some (default true (D_Enabled d))) (D_Priority d) (D_Feeds d) (default_match (D_Match d))
    (default_episode <$> D_Episode d) (D_Score d) (D_Action d) (D_Throttle d).

(** ** Patterns *)

(** [regexp.Compile] of the text [compileMatchPattern] builds, with the
    [(?i)] that [compileClause] puts before it: a wildcard entry is its runes
    with [*] and [?] taken as [.*] and [.]; a plain entry is its own text,
    which has to be UTF-8. *)
Section Patterns.
Context `{!FoldTable} `{!Regexp}.

Definition wildcard_rune (ci : bool) (r : Z) : re :=
  if r =? 42 then RRep any_rune 0 None else if r =? 63 then RSet any_rune else RSet (lit ci r).
Definition wildcard_re (ci : bool) (entry : string) : re := seq_of (wildcard_rune ci <$> runes (bytes_of entry)).
Definition compileMatchPattern (mode entry : string) : option matcher :=
  if bool_decide (mode = MatchModeRegex) then regexp_Compile entry
  else if bool_decide (mode = MatchModeWildcard) then Some (FindStringIndex (wildcard_re false entry))
  else if valid_utf8 (bytes_of entry) then Some (FindStringIndex (text_re false entry)) else None.
Definition compile_folded (mode entry : string) : option matcher :=
  if bool_decide (mode = MatchModeRegex) then regexp_Compile ("(?i)" +:+ entry)
  else if bool_decide (mode = MatchModeWildcard) then Some (FindStringIndex (wildcard_re true entry))
  else if valid_utf8 (bytes_of entry) then Some (FindStringIndex (text_re true entry)) else None.

(** ** Sizes *)

Context `{!UnicodeTables} (ParseFloat : list Z -> option spec_float).

Definition iecUnits : list (list Z * Z) :=
  [(bytes_of "eib", 60); (bytes_of "pib", 50); (bytes_of "tib", 40); (bytes_of "gib", 30); (bytes_of "mib", 20);
   (bytes_of "kib", 10); (bytes_of "b", 0)].
Definition f64 (z : Z) : spec_float := binary_normalize 53 1024 z 0 false.
(** [int64] of a float that fits: towards zero. *)
Definition int_of_float (f : spec_float) : Z :=
  match f with
  | S754_finite s m e => let v := if 0 <=? e then Zpos m * 2 ^ e else Zpos m / 2 ^ (- e) in if s then - v else v
  | _ => 0
  end.
Definition parseIECSize (s : string) : option Z :=
  let trimmed := ToLower (TrimSpace (bytes_of s)) in
  match List.find (fun u => HasSuffix trimmed u.1) iecUnits with
  | None => None
  | Some (suffix, shift) =>
    value ← ParseFloat (TrimSpace (take (length trimmed - length suffix) trimmed));
    let product := SFmul 53 1024 value (f64 (2 ^ shift)) in
    if SFleb (f64 0) value && SFltb product (f64 (2 ^ 63 - 1)) then Some (int_of_float product) else None
  end.

(** ** Episode filters *)

(** [EpisodeToken] and [EpisodeFilter]. *)
Record EpisodeToken := MkEpToken { From : Z; To : Z; Open_ : bool }.
Record EpisodeFilter := MkFilter { Season : Z; FTokens : list EpisodeToken }.
Definition IsZero (f : EpisodeFilter) : bool := (Season f =? 0) && bool_decide (FTokens f = []).

Definition episodeFilterPattern : re :=
  seq_of [RBegin; RGroup 1 (RRep is_d 1 (Some 4%nat)); RSet (lit false 120);
          RGroup 2 (RSeq (RRep any_rune 0 None) (RSet (lit false 59))); REnd].
Definition stripLeadingZeros (s : list Z) : list Z :=
  let stripped := drop_while (fun b => b =? 48) s in
  if bool_decide (stripped = []) && negb (bool_decide (s = [])) then [48] else stripped.

(** [strconv.Atoi], on 64-bit platforms. *)
Definition Atoi : list Z -> option Z := ParseInt.
Definition parseEpisodeToken (token : string) : option EpisodeToken :=
  match cut_byte (Ascii.ascii_of_nat 45) token with
  | None => from ← Atoi (stripLeadingZeros (bytes_of token)); Some (MkEpToken from 0 false)
  | Some (f, t) =>
    from ← Atoi (stripLeadingZeros (bytes_of f));
    if bool_decide (t = EmptyString) then Some (MkEpToken from (-1) true)
    else
      to ← Atoi (stripLeadingZeros (bytes_of t));
      if to <? from then None else Some (MkEpToken from to false)
  end.
Definition ParseEpisodeFilter (s : string) : option EpisodeFilter :=
  if bool_decide (s = EmptyString) then Some (MkFilter 0 [])
  else
    groups ← FindStringSubmatch episodeFilterPattern (bytes_of s);
    season ← Atoi (stripLeadingZeros (groups 1%nat));
    Some (MkFilter season (omap (fun token => if bool_decide (token = EmptyString) then None else parseEpisodeToken token)
      (split_byte (Ascii.ascii_of_nat 59) (string_of (groups 2%nat))))).

(** ** Validation *)

(** [FieldError]: the location, without its message. *)
Definition FieldError : Type := string * option nat.
Definition checkPattern (location : FieldError) (mode entry : string) : list FieldError :=
  if bool_decide (entry = EmptyString) then [location]
  else if (maxPatternBytes <? String.length entry)%nat then [location]
  else match compileMatchPattern mode entry with Some _ => [] | None => [location] end.
Definition each {A} (f : nat -> A -> list FieldError) (l : list A) : list FieldError := concat (imap f l).
Definition when (b : bool) (location : string) : list FieldError := if b then [(location, None)] else [].

Context (Parse_RFC3339 : string -> option Z).

Definition bad_size (s : string) : bool := negb (bool_decide (s = EmptyString)) && bool_decide (parseIECSize s = None).
Definition inverted (m : MatchSpec) : bool :=
  negb (bool_decide (MinSize m = EmptyString)) && negb (bool_decide (MaxSize m = EmptyString)) &&
  match parseIECSize (MinSize m), parseIECSize (MaxSize m) with Some lo, Some hi => hi <? lo | _, _ => false end.
Definition bad_filter (e : EpisodeSpec) : bool :=
  negb (bool_decide (EFilter e = EmptyString)) && match ParseEpisodeFilter (EFilter e) with Some f => IsZero f | None => true end.
Definition Validate (d : RuleDoc) : list FieldError :=
  let m := D_Match d in
  when (bool_decide (D_Name d = EmptyString)) "name" ++
  when (negb (contains [EmptyString; MatchModeWildcard; MatchModeRegex; MatchModePlain] (Mode m))) "match.mode" ++
  each (fun i field => if bool_decide (field = matchFieldTitle) then [] else [("match.fields"%string, Some i)]) (MFields m) ++
  each (fun i entry => checkPattern ("match.any_of"%string, Some i) (Mode m) entry) (AnyOf m) ++
  each (fun i entry => checkPattern ("match.none_of"%string, Some i) (Mode m) entry) (NoneOf m) ++
  when (bad_size (MinSize m)) "match.min_size" ++ when (bad_size (MaxSize m)) "match.max_size" ++
  when (inverted m) "match.max_size" ++
  when (negb (bool_decide (PublishedAfter m = EmptyString)) && bool_decide (Parse_RFC3339 (PublishedAfter m) = None)) "match.published_after" ++
  when (from_option bad_filter false (D_Episode d)) "episode.filter" ++
  match D_Score d with
  | Some s =>
    when (maxScoreFormats <? length (Formats s))%nat "score.formats" ++
    each (fun i format => checkPattern ("score.formats"%string, Some i) MatchModeRegex (SF_Pattern format)) (Formats s)
  | None => []
  end ++
  when (CooldownDays (D_Throttle d) <? 0) "throttle.cooldown_days" ++
  when (MaxPerRun (D_Throttle d) <? 0) "throttle.max_per_run" ++
  when (negb (contains [EmptyString; contentLayoutOriginal; contentLayoutSubfolder; contentLayoutNoSubfolder] (A_ContentLayout (D_Action d))))
    "action.content_layout".
End Patterns.

(** * Seasons and episodes in titles ([internal/rss/episode.go])

    The title parsers, the episode filter's tokens and the key under which a
    rule remembers an episode. *)

Section Episodes.
Context `{!FoldTable} `{!UnicodeTables}.

(** ** The patterns *)

(** A rune of the text under [(?i)], and [[ -_.]]: the runes from the space to
    the underscore, the full stop among them, and what folds into them. *)
Definition ci (c : Z) : re := RSet (lit true c).
Definition space_to_underscore (r : Z) : bool :=
  between 32 95 r || between 97 122 r || (r =? 383) || (r =? 8490) || existsb (fun x => table_fold x r) (seqZ 32 64).
Definition zero_one : re := opt_of (lit true 48).
Definition digits_1_4 : re := RRep is_d 1 (Some 4%nat).
(** [0?\d{1,4}] *)
Definition zero_digits : re := RSeq zero_one digits_1_4.
(** [(?:\D|\b)] *)
Definition ends_number : re := RAlt (RSet not_d) RWord.

Definition partialPattern1 : re :=
  seq_of [RWord; ci 115; zero_one; RGroup 1 digits_1_4; opt_of space_to_underscore; ci 101; RGroup 2 zero_digits; ends_number].
Definition partialPattern2 : re := seq_of [RWord; RGroup 1 digits_1_4; ci 120; RGroup 2 zero_digits; ends_number].

Definition some_digits (n : nat) : re := RGroup n (RRep is_d 1 None).
Definition dot_or_dash (r : Z) : bool := (r =? 46) || (r =? 45).
Definition digits_1_2 : re := RRep is_d 1 (Some 2%nat).
Definition digits_4 : re := RRep is_d 4 (Some 4%nat).
Definition under_or_word : re := RAlt (ci 95) RWord.
Definition smartKeyPattern : re :=
  seq_of [under_or_word;
    RAlt (seq_of [ci 115; some_digits 1; ci 101; some_digits 2])
   (RAlt (seq_of [some_digits 3; ci 120; some_digits 4])
   (RAlt (RGroup 5 (seq_of [digits_4; RSet dot_or_dash; digits_1_2; RSet dot_or_dash; digits_1_2]))
         (RGroup 6 (seq_of [digits_1_2; RSet dot_or_dash; digits_1_2; RSet dot_or_dash; digits_4]))));
    under_or_word].

(** ** The functions *)

Definition number_of (l : list Z) : Z := default 0 (Atoi l).
Fixpoint first_of (patterns : list re) (title : list Z) : option (Z * Z) :=
  match patterns with
  | [] => None
  | p :: patterns =>
    match FindStringSubmatch p title with
    | Some groups => Some (number_of (groups 1%nat), number_of (groups 2%nat))
    | None => first_of patterns title
    end
  end.
Definition ParseSeasonEpisode (title : list Z) : option (Z * Z) := first_of [partialPattern1; partialPattern2] title.

Definition numeral (n : Z) : re := text_re true (pretty n).
Definition singleEpisodePattern (season episode : Z) : re :=
  seq_of [RWord;
    RAlt (seq_of [ci 115; zero_one; numeral season; opt_of space_to_underscore; ci 101; zero_one; numeral episode])
         (seq_of [numeral season; ci 120; zero_one; numeral episode]);
    ends_number].

Definition tokenMatches (f : EpisodeFilter) (token : EpisodeToken) (title : list Z) : bool :=
  if Open_ token then
    match ParseSeasonEpisode title with
    | Some (season, episode) => (Season f <? season) || (season =? Season f) && (From token <=? episode)
    | None => false
    end
  else if negb (To token =? 0) then
    match ParseSeasonEpisode title with
    | Some (season, episode) => (season =? Season f) && (From token <=? episode) && (episode <=? To token)
    | None => false
    end
  else MatchString (singleEpisodePattern (Season f) (From token)) title.

(** [EpisodeFilter.Match]. *)
Definition Match_ (f : EpisodeFilter) (title : list Z) : bool :=
  if IsZero f then true else existsb (fun token => tokenMatches f token title) (FTokens f).

Fixpoint join (sep : string) (parts : list string) : string :=
  match parts with
  | [] => EmptyString
  | [p] => p
  | p :: parts => p +:+ sep +:+ join sep parts
  end.
Definition key_part (group : list Z) : option string :=
  if bool_decide (group = []) then None
  else Some (match Atoi group with Some n => pretty n | None => string_of group end).
Definition SmartKey (title : list Z) : option string :=
  groups ← FindStringSubmatch smartKeyPattern title;
  Some (join "x" (omap (fun n => key_part (groups n)) (seq 1 6))).

Definition RepackVariants (key : string) (title : list Z) : list string :=
  let upper := ToUpper title in
  (if Contains upper (bytes_of "REPACK") then [key +:+ "-REPACK"] else []) ++
  (if Contains upper (bytes_of "PROPER") then [key +:+ "-PROPER"] else []).
End Episodes.

(** ** The worked examples of docs/08 sections 6.3 and 6.4 *)

Section Worked.
#[local] Existing Instance no_folds.
#[local] Existing Instance ascii_tables.
Let filter_matches (f title : string) : bool :=
  match ParseEpisodeFilter f with Some f => Match_ f (bytes_of title) | None => false end.

Example filters_of_the_manual :
  filter_matches "1x01-;" "Show.S01E01.1080p" && filter_matches "1x01-;" "Show.S03E07.1080p" &&
  negb (filter_matches "1x01-;" "Show 1x00 Pilot") && filter_matches "2x5;9;12-14;" "Show.S02E09" &&
  filter_matches "2x5;9;12-14;" "Show 2x13" && negb (filter_matches "2x5;9;12-14;" "Show.S03E13") &&
  negb (filter_matches "1x;" "Show 1x05") && bool_decide (ParseEpisodeFilter "1x01" = None) &&
  filter_matches "01x05;" "Show 1x05" && filter_matches "" "anything" = true.
Proof. by vm_compute. Qed.

Example keys_of_the_manual :
  SmartKey (bytes_of "Show.S01E05.1080p") = Some "1x5"%string /\ SmartKey (bytes_of "Show 1x05 1080p") = Some "1x5"%string /\
  SmartKey (bytes_of "Show.2017.01.01") = Some "2017.01.01"%string /\ SmartKey (bytes_of "Ubuntu desktop amd64") = None.
Proof. by vm_compute. Qed.
End Worked.
