(* ===== verification/RssStore.v ===== *)
(** * The feed and rule tables ([internal/store/feeds.go], [rules.go])

    The five tables behind the feed automation, with the constraints and
    cascades of [migrations/00001_init.sql], and every statement on them.  The
    commands run in the monad of [World]; the state behind the interfaces is
    [rss R]: the tables, and [R] for everything a grabbed item is handed to. *)

From stdpp Require Import fin_maps.
From S2P Require Import Prelude GoStrings Schema Lease World.

Open Scope Z_scope.

(** ** Rows *)

(** [store.Feed] without [UnreadCount], which is no column. *)
Record Feed := MkFeed {
  F_URL : string; F_Title : option string; F_Enabled : bool; F_RefreshIntervalS : Z; F_ItemCap : Z; F_Priority : Z;
  F_ETag : option string; F_LastModified : option string; F_TTLMinutes : option Z; F_LastFetchAt : option Z;
  F_LastSuccessAt : option Z; F_NextFetchAt : Z; F_EscalationLevel : Z; F_DisabledTill : option Z;
  F_LastError : option string; F_CreatedAt : Z; F_UpdatedAt : Z }.

(** [store.FeedItem]. *)
Record FeedItem := MkItem {
  I_FeedID : string; I_GUID : option string; I_Identity : string; I_Title : string; I_TitleNorm : string;
  I_Link : option string; I_DownloadURL : option string; I_InfoHash : option string; I_SizeBytes : option Z;
  I_PublishedAt : option Z; I_Read : bool; I_FirstSeenAt : Z; I_RawJSON : option string; I_CreatedAt : Z; I_UpdatedAt : Z }.

(** [store.Rule]. *)
Record Rule := MkRule {
  R_Name : string; R_Enabled : bool; R_Priority : Z; R_DefinitionJSON : string; R_LastMatchAt : option Z;
  R_CreatedAt : Z; R_UpdatedAt : Z }.

(** A row of [rule_matches]. *)
Inductive match_status := matchQueued | matchSent | matchFailed | matchFallback.
#[global] Instance match_status_eq_dec : EqDecision match_status.
Proof. solve_decision. Defined.
Record RuleMatch := MkMatchRow {
  M_RuleID : option string; M_FeedItemID : option string; M_TaskID : option string; M_InfoHash : option string;
  M_ContentKey : string; M_Title : string; M_Status : match_status; M_Reason : option string; M_Score : Z;
  M_MatchedAt : Z; M_CreatedAt : Z; M_UpdatedAt : Z }.

(** A row with its id. *)
Abbreviation row A := (string * A)%type.

Record rssdb := MkRssdb {
  feeds : gmap string Feed; feed_items : gmap string FeedItem; rules : gmap string Rule;
  rule_matches : gmap string RuleMatch; rule_seen_episodes : gmap (string * string) Z }.
Definition set_feeds (t : gmap string Feed) (d : rssdb) : rssdb := MkRssdb t (feed_items d) (rules d) (rule_matches d) (rule_seen_episodes d).
Definition set_items (t : gmap string FeedItem) (d : rssdb) : rssdb := MkRssdb (feeds d) t (rules d) (rule_matches d) (rule_seen_episodes d).
Definition set_rules (t : gmap string Rule) (d : rssdb) : rssdb := MkRssdb (feeds d) (feed_items d) t (rule_matches d) (rule_seen_episodes d).
Definition set_matches (t : gmap string RuleMatch) (d : rssdb) : rssdb := MkRssdb (feeds d) (feed_items d) (rules d) t (rule_seen_episodes d).
Definition set_seen (t : gmap (string * string) Z) (d : rssdb) : rssdb := MkRssdb (feeds d) (feed_items d) (rules d) (rule_matches d) t.

(** ** The driver *)

Record rss (R : Type) := MkRss { rss_committed : rssdb; rss_working : option rssdb; outside : R }.
Arguments MkRss {R}. Arguments rss_committed {R}. Arguments rss_working {R}. Arguments outside {R}.

(** A statement on the tables: what it leaves and how many rows it matched,
    or [None] when a constraint refuses it. *)
Definition rss_stmt : Type := rssdb -> option (rssdb * Z).

Section Driver.
Context {R : Type}.
Abbreviation M := (M (rss R)).
Abbreviation world := (world (rss R)).

Definition seen_tables (s : rss R) : rssdb := default (rss_committed s) (rss_working s).
Definition rss_tables (w : world) : rssdb := seen_tables (w_eng w).
Definition put_tables (d : rssdb) (w : world) : world :=
  set_eng (match rss_working (w_eng w) with
    | Some _ => MkRss (rss_committed (w_eng w)) (Some d) (outside (w_eng w))
    | None => MkRss d None (outside (w_eng w))
    end) w.
Definition exec_rss (q : rss_stmt) : M Z := fun o w =>
  match o_io o (w_n w), q (rss_tables w) with
  | IoFail, _ => (inl ErrDriver, bump w)
  | _, None => (inl ErrConstraint, bump w)
  | IoOk, Some (d, k) => (inr k, bump (put_tables d w))
  | IoFailLanded, Some (d, _) => (inl ErrDriver, bump (put_tables d w))
  end.
Definition query_rss {A} (q : rssdb -> A) : M A := fun o w =>
  match o_io o (w_n w) with
  | IoOk => (inr (q (rss_tables w)), bump w)
  | _ => (inl ErrDriver, bump w)
  end.
Definition leave_tx (d : rssdb) (w : world) : world := set_eng (MkRss d None (outside (w_eng w))) w.
Definition begin_rss : M unit := fun o w =>
  match o_io o (w_n w) with
  | IoOk => (inr tt, bump (set_eng (MkRss (rss_committed (w_eng w)) (Some (rss_committed (w_eng w))) (outside (w_eng w))) w))
  | _ => (inl ErrDriver, bump w)
  end.
Definition commit_rss : M unit := fun o w =>
  match o_io o (w_n w) with
  | IoOk => (inr tt, bump (leave_tx (rss_tables w) w))
  | IoFail => (inl ErrDriver, bump (leave_tx (rss_committed (w_eng w)) w))
  | IoFailLanded => (inl ErrDriver, bump (leave_tx (rss_tables w) w))
  end.
(** The deferred [Rollback]. *)
Definition rss_rolled_back {A} (body : M A) : M A := fun o w => let (r, w) := body o w in (r, leave_tx (rss_committed (w_eng w)) w).
Definition with_rss_tx {A} (body : M A) : M A := begin_rss ;; rss_rolled_back body.

Definition found_row {A} (q : rssdb -> option A) : M A :=
  r ← query_rss q;
  match r with Some x => mret x | None => fail ErrNotFound end.
(** [RowsAffected]: zero is [ErrNotFound]. *)
Definition affected (q : rss_stmt) : M unit :=
  k ← exec_rss q;
  if k =? 0 then fail ErrNotFound else mret tt.
End Driver.

(** ** Rules *)

Definition rule_order : row Rule -> row Rule -> comparison := then_by (by_Z (fun p => R_Priority p.2)) (by_text (fun p => R_Name p.2)).
Definition queryListRules (enabledOnly : bool) (d : rssdb) : list (row Rule) :=
  sort_by (less rule_order) (List.filter (fun p => negb enabledOnly || R_Enabled p.2) (map_to_list (rules d))).
Definition queryRuleByName (name : string) (d : rssdb) : option (row Rule) :=
  head (List.filter (fun p => bool_decide (R_Name p.2 = name)) (map_to_list (rules d))).
Definition name_used (name : string) (t : gmap string Rule) : bool :=
  existsb (fun p => bool_decide (R_Name p.2 = name)) (map_to_list t).
Definition queryCreateRule (id : string) (r : Rule) (now : Z) : rss_stmt := fun d =>
  if bool_decide (is_Some (rules d !! id)) || name_used (R_Name r) (rules d) then None
  else Some (set_rules (<[id := MkRule (R_Name r) (R_Enabled r) (R_Priority r) (R_DefinitionJSON r) None now now]> (rules d)) d, 1).
Definition update_row {A} (id : string) (f : A -> A) (t : gmap string A) : gmap string A * Z :=
  match t !! id with Some x => (<[id := f x]> t, 1) | None => (t, 0) end.
Definition queryUpdateRule (id : string) (r : Rule) (now : Z) : rss_stmt := fun d =>
  if bool_decide (is_Some (rules d !! id)) && name_used (R_Name r) (delete id (rules d)) then None
  else
    let (t, k) := update_row id (fun x => MkRule (R_Name r) (R_Enabled r) (R_Priority r) (R_DefinitionJSON r)
      (R_LastMatchAt x) (R_CreatedAt x) now) (rules d) in
    Some (set_rules t d, k).
(** The foreign keys: a match loses its rule, a seen episode goes with it. *)
Definition forget_rule (id : string) (m : RuleMatch) : RuleMatch :=
  MkMatchRow (if bool_decide (M_RuleID m = Some id) then None else M_RuleID m) (M_FeedItemID m) (M_TaskID m) (M_InfoHash m)
    (M_ContentKey m) (M_Title m) (M_Status m) (M_Reason m) (M_Score m) (M_MatchedAt m) (M_CreatedAt m) (M_UpdatedAt m).
Definition queryDeleteRule (id : string) : rss_stmt := fun d =>
  match rules d !! id with
  | None => Some (d, 0)
  | Some _ => Some (MkRssdb (feeds d) (feed_items d) (delete id (rules d)) (forget_rule id <$> rule_matches d)
                      (filter (fun p => p.1.1 <> id) (rule_seen_episodes d)), 1)
  end.
Definition advanced (at_ now : Z) (r : Rule) : Rule :=
  MkRule (R_Name r) (R_Enabled r) (R_Priority r) (R_DefinitionJSON r) (Some (Z.max (default at_ (R_LastMatchAt r)) at_)) (R_CreatedAt r)
    (match R_LastMatchAt r with Some l => if l <? at_ then now else R_UpdatedAt r | None => now end).
Definition querySetRuleLastMatchAt (id : string) (at_ now : Z) : rss_stmt := fun d =>
  let (t, k) := update_row id (advanced at_ now) (rules d) in Some (set_rules t d, k).

(** ** Feeds and their items *)

Definition unread_count (id : string) (d : rssdb) : Z :=
  Z.of_nat (size (filter (fun p => I_FeedID p.2 = id /\ I_Read p.2 = false) (feed_items d))).
(** NULL sorts before every title. *)
Definition by_title (a b : row Feed) : comparison :=
  match F_Title a.2, F_Title b.2 with
  | None, None => Eq | None, Some _ => Lt | Some _, None => Gt
  | Some s, Some t => String.compare s t
  end.
Definition querySelectFeeds (d : rssdb) : list (row Feed * Z) :=
  (fun p => (p, unread_count p.1 d)) <$> sort_by (less (then_by by_title (by_text fst))) (map_to_list (feeds d)).
Definition queryFeedByID (id : string) (d : rssdb) : option (Feed * Z) := f ← feeds d !! id; Some (f, unread_count id d).
Definition url_used (url : string) (t : gmap string Feed) : bool :=
  existsb (fun p => bool_decide (F_URL p.2 = url)) (map_to_list t).
Definition queryCreateFeed (id : string) (f : Feed) (now : Z) : rss_stmt := fun d =>
  if bool_decide (is_Some (feeds d !! id)) || url_used (F_URL f) (feeds d) then None
  else Some (set_feeds (<[id := MkFeed (F_URL f) (F_Title f) (F_Enabled f) (F_RefreshIntervalS f) (F_ItemCap f) (F_Priority f)
      None None None None None (F_NextFetchAt f) 0 None None now now]> (feeds d)) d, 1).
Definition queryUpdateFeed (id : string) (f : Feed) (now : Z) : rss_stmt := fun d =>
  if bool_decide (is_Some (feeds d !! id)) && url_used (F_URL f) (delete id (feeds d)) then None
  else
    let (t, k) := update_row id (fun x => MkFeed (F_URL f) (F_Title f) (F_Enabled f) (F_RefreshIntervalS f) (F_ItemCap f) (F_Priority f)
      (F_ETag x) (F_LastModified x) (F_TTLMinutes x) (F_LastFetchAt x) (F_LastSuccessAt x) (F_NextFetchAt x) (F_EscalationLevel x)
      (F_DisabledTill x) (F_LastError x) (F_CreatedAt x) now) (feeds d) in
    Some (set_feeds t d, k).
(** An item that goes leaves its matches without it. *)
Definition forget_items (gone : string -> bool) (m : RuleMatch) : RuleMatch :=
  MkMatchRow (M_RuleID m) (id ← M_FeedItemID m; if gone id then None else Some id) (M_TaskID m) (M_InfoHash m)
    (M_ContentKey m) (M_Title m) (M_Status m) (M_Reason m) (M_Score m) (M_MatchedAt m) (M_CreatedAt m) (M_UpdatedAt m).
Definition drop_items (gone : string -> bool) (d : rssdb) : rssdb :=
  MkRssdb (feeds d) (filter (fun p => gone p.1 = false) (feed_items d)) (rules d) (forget_items gone <$> rule_matches d) (rule_seen_episodes d).
Definition of_feed (feedID : string) (d : rssdb) (id : string) : bool :=
  match feed_items d !! id with Some i => bool_decide (I_FeedID i = feedID) | None => false end.
Definition queryDeleteFeed (id : string) : rss_stmt := fun d =>
  match feeds d !! id with
  | None => Some (d, 0)
  | Some _ => Some (drop_items (of_feed id d) (set_feeds (delete id (feeds d)) d), 1)
  end.
Definition due (now : Z) (f : Feed) : bool :=
  F_Enabled f && (F_NextFetchAt f <=? now) && match F_DisabledTill f with Some t => t <=? now | None => true end.
Definition queryDueFeeds (now : Z) (limit : nat) (d : rssdb) : list (row Feed) :=
  take limit (sort_by (less (then_by (by_Z (fun p => F_NextFetchAt p.2)) (by_text fst)))
    (List.filter (fun p => due now p.2) (map_to_list (feeds d)))).
Definition fetch_state (f : Feed) (now : Z) (x : Feed) : Feed :=
  MkFeed (F_URL x) (F_Title x) (F_Enabled x) (F_RefreshIntervalS x) (F_ItemCap x) (F_Priority x) (F_ETag f) (F_LastModified f)
    (F_TTLMinutes f) (F_LastFetchAt f) (F_LastSuccessAt f) (F_NextFetchAt f) (F_EscalationLevel f) (F_DisabledTill f) (F_LastError f)
    (F_CreatedAt x) now.
Definition queryUpdateFeedFetchState (id : string) (f : Feed) (now : Z) : rss_stmt := fun d =>
  let (t, k) := update_row id (fetch_state f now) (feeds d) in Some (set_feeds t d, k).

Definition same_entry (feedID identity : string) (i : FeedItem) : bool :=
  bool_decide (I_FeedID i = feedID) && bool_decide (I_Identity i = identity).
Definition entry_row (feedID identity : string) (d : rssdb) : option (row FeedItem) :=
  head (List.filter (fun p => same_entry feedID identity p.2) (map_to_list (feed_items d))).
Definition retitled (title : string) (now : Z) (i : FeedItem) : FeedItem :=
  MkItem (I_FeedID i) (I_GUID i) (I_Identity i) title (I_TitleNorm i) (I_Link i) (I_DownloadURL i) (I_InfoHash i) (I_SizeBytes i)
    (I_PublishedAt i) (I_Read i) (I_FirstSeenAt i) (I_RawJSON i) (I_CreatedAt i) now.
Definition new_item (i : FeedItem) (firstSeen now : Z) : FeedItem :=
  MkItem (I_FeedID i) (I_GUID i) (I_Identity i) (I_Title i) (I_TitleNorm i) (I_Link i) (I_DownloadURL i) (I_InfoHash i) (I_SizeBytes i)
    (I_PublishedAt i) (I_Read i) firstSeen (I_RawJSON i) now now.
Definition queryUpsertFeedItem (id : string) (i : FeedItem) (firstSeen now : Z) : rss_stmt := fun d =>
  match entry_row (I_FeedID i) (I_Identity i) d with
  | Some (known, x) =>
    if bool_decide (I_Title x = I_Title i) then Some (d, 0)
    else Some (set_items (<[known := retitled (I_Title i) now x]> (feed_items d)) d, 1)
  | None =>
    if bool_decide (is_Some (feed_items d !! id)) || bool_decide (feeds d !! I_FeedID i = None) then None
    else Some (set_items (<[id := new_item i firstSeen now]> (feed_items d)) d, 1)
  end.
Definition queryFeedItemIdentities (feedID : string) (identities : list string) (d : rssdb) : list (string * string) :=
  List.filter (fun k => contains identities k.2 && bool_decide (k.1 = feedID)) ((fun p => (I_FeedID p.2, I_Identity p.2)) <$> map_to_list (feed_items d)).

(** [COALESCE(published_at, first_seen_at) DESC, id DESC]. *)
Definition feedItemSortKey (i : FeedItem) : Z := default (I_FirstSeenAt i) (I_PublishedAt i).
Definition newest_first : row FeedItem -> row FeedItem -> comparison :=
  descending (then_by (by_Z (fun p => feedItemSortKey p.2)) (by_text fst)).
Definition queryTrimFeedItems (feedID : string) (cap : nat) : rss_stmt := fun d =>
  let own := sort_by (less newest_first) (List.filter (fun p => bool_decide (I_FeedID p.2 = feedID)) (map_to_list (feed_items d))) in
  let kept := (take cap own).*1 in
  Some (drop_items (fun id => of_feed feedID d id && negb (contains kept id)) d, Z.of_nat (length (drop cap own))).

Definition mark_read (read : bool) (now : Z) (i : FeedItem) : FeedItem :=
  MkItem (I_FeedID i) (I_GUID i) (I_Identity i) (I_Title i) (I_TitleNorm i) (I_Link i) (I_DownloadURL i) (I_InfoHash i) (I_SizeBytes i)
    (I_PublishedAt i) read (I_FirstSeenAt i) (I_RawJSON i) (I_CreatedAt i) now.
Definition update_items (sel : row FeedItem -> bool) (f : FeedItem -> FeedItem) : rss_stmt := fun d =>
  Some (set_items (map_imap (fun id i => Some (if sel (id, i) then f i else i)) (feed_items d)) d,
    Z.of_nat (size (filter (fun p => sel p = true) (feed_items d)))).
Definition querySetFeedItemsRead (feedID : string) (ids : list string) (read : bool) (now : Z) : rss_stmt :=
  update_items (fun p => bool_decide (I_FeedID p.2 = feedID) && negb (Bool.eqb (I_Read p.2) read) && contains ids p.1) (mark_read read now).
Definition queryMarkAllFeedItemsRead (feedID : string) (now : Z) : rss_stmt :=
  update_items (fun p => bool_decide (I_FeedID p.2 = feedID) && negb (I_Read p.2)) (mark_read true now).

(** ** Methods *)

Section Methods.
Context {R : Type}.
Abbreviation M := (M (rss R)).

Definition ListRules (enabledOnly : bool) : M (list (row Rule)) := query_rss (queryListRules enabledOnly).
Definition RuleByID (id : string) : M Rule := found_row (fun d => rules d !! id).
Definition RuleByName (name : string) : M (row Rule) := found_row (queryRuleByName name).
Definition CreateRule (id : string) (r : Rule) : M unit := now ← unix_milli; _ ← exec_rss (queryCreateRule id r now); mret tt.
Definition UpdateRule (id : string) (r : Rule) : M unit := now ← unix_milli; affected (queryUpdateRule id r now).
Definition DeleteRule (id : string) : M unit := affected (queryDeleteRule id).
Definition SetRuleLastMatchAt (id : string) (at_ : Z) : M unit := now ← unix_milli; affected (querySetRuleLastMatchAt id at_ now).

Definition ListFeeds : M (list (row Feed * Z)) := query_rss querySelectFeeds.
Definition FeedByID (id : string) : M (Feed * Z) := found_row (queryFeedByID id).
Definition CreateFeed (id : string) (f : Feed) : M unit := now ← unix_milli; _ ← exec_rss (queryCreateFeed id f now); mret tt.
Definition UpdateFeed (id : string) (f : Feed) : M unit := now ← unix_milli; affected (queryUpdateFeed id f now).
Definition DeleteFeed (id : string) : M unit := affected (queryDeleteFeed id).
Definition DueFeeds (now limit : Z) : M (list (row Feed)) :=
  if limit <? 1 then mret [] else query_rss (queryDueFeeds now (Z.to_nat limit)).
Definition UpdateFeedFetchState (id : string) (f : Feed) : M unit := now ← unix_milli; affected (queryUpdateFeedFetchState id f now).

(** [feedItemIdentities], one query for every feed of the batch. *)
Fixpoint read_identities (batch : list FeedItem) (l : list string) : M (list (string * string)) :=
  match l with
  | [] => mret []
  | feedID :: l =>
    known ← query_rss (queryFeedItemIdentities feedID (I_Identity <$> List.filter (fun i => bool_decide (I_FeedID i = feedID)) batch));
    more ← read_identities batch l;
    mret (known ++ more)
  end.
Definition feedItemIdentities (batch : list FeedItem) : M (list (string * string)) :=
  read_identities batch (remove_dups (I_FeedID <$> batch)).
Fixpoint upsert_loop (now : Z) (existing seen : list (string * string)) (inserted : Z) (batch : list (row FeedItem)) : M Z :=
  match batch with
  | [] => mret inserted
  | (given, item) :: batch =>
    let key := (I_FeedID item, I_Identity item) in
    id ← (if bool_decide (given = EmptyString) then NewID "itm_" else mret given);
    let firstSeen := if I_FirstSeenAt item =? 0 then now else I_FirstSeenAt item in
    _ ← exec_rss (queryUpsertFeedItem id item firstSeen now);
    upsert_loop now existing (key :: seen) (if contains seen key || contains existing key then inserted else inserted + 1) batch
  end.
Definition UpsertFeedItems (batch : list (row FeedItem)) (now : Z) : M Z :=
  if bool_decide (batch = []) then mret 0
  else with_rss_tx (
    existing ← feedItemIdentities batch.*2;
    inserted ← upsert_loop now existing [] 0 batch;
    commit_rss ;; mret inserted).
Definition TrimFeedItems (feedID : string) (cap : Z) : M Z :=
  if cap <=? 0 then mret 0 else exec_rss (queryTrimFeedItems feedID (Z.to_nat cap)).
Definition SetFeedItemsRead (feedID : string) (ids : list string) (read : bool) (now : Z) : M Z :=
  if bool_decide (ids = []) then mret 0 else exec_rss (querySetFeedItemsRead feedID ids read now).
Definition MarkAllFeedItemsRead (feedID : string) (now : Z) : M Z := exec_rss (queryMarkAllFeedItemsRead feedID now).

(** ** Pages of items *)

(** The cursor's hash of the filter. *)
Context {Hash : Type} `{!EqDecision Hash} (feedItemFilterHash : list string -> bool -> Hash).

Definition feedItemsDefaultLimit : Z := 50.
Definition feedItemsMaxLimit : Z := 200.
(** [FeedItemFilter] and the page token. *)
Record feedItemCursor := MkCursor { cur_Hash : Hash; cur_LastID : string; cur_Value : Z }.
Inductive item_token := NoToken | Token (c : feedItemCursor) | BadToken.
Record FeedItemFilter := MkItemFilter { FeedIDs : list string; UnreadOnly : bool; Limit : Z; Cursor_ : item_token }.

Definition item_selected (f : FeedItemFilter) (p : row FeedItem) : bool :=
  (bool_decide (FeedIDs f = []) || contains (FeedIDs f) (I_FeedID p.2)) && (negb (UnreadOnly f) || negb (I_Read p.2)).
Definition item_after (c : feedItemCursor) (p : row FeedItem) : bool :=
  (feedItemSortKey p.2 <? cur_Value c) || (feedItemSortKey p.2 =? cur_Value c) && less (by_text id) p.1 (cur_LastID c).
Definition count_items (f : FeedItemFilter) (d : rssdb) : Z := Z.of_nat (length (List.filter (item_selected f) (map_to_list (feed_items d)))).
Definition item_page (f : FeedItemFilter) (from : option feedItemCursor) (limit : nat) (d : rssdb) : list (row FeedItem) :=
  take (S limit) (sort_by (less newest_first)
    (List.filter (fun p => item_selected f p && from_option (fun c => item_after c p) true from) (map_to_list (feed_items d)))).
Definition ListFeedItems (f : FeedItemFilter) : M (list (row FeedItem) * item_token * Z) :=
  let limit := if Limit f =? 0 then feedItemsDefaultLimit else Limit f in
  if (limit <? 1) || (feedItemsMaxLimit <? limit) then fail ErrArgument
  else
    let hash := feedItemFilterHash (FeedIDs f) (UnreadOnly f) in
    from ← match Cursor_ f with
      | NoToken => mret None
      | BadToken => fail ErrArgument
      | Token c => if bool_decide (cur_Hash c = hash) then mret (Some c) else fail ErrArgument
      end;
    total ← query_rss (count_items f);
    items ← query_rss (item_page f from (Z.to_nat limit));
    if (length items <=? Z.to_nat limit)%nat then mret (items, NoToken, total)
    else
      let items := take (Z.to_nat limit) items in
      mret (items, match items !! pred (length items) with
        | Some p => Token (MkCursor hash p.1 (feedItemSortKey p.2))
        | None => NoToken
        end, total).
End Methods.
Arguments feedItemCursor : clear implicits. Arguments item_token : clear implicits. Arguments FeedItemFilter : clear implicits.
Arguments NoToken {Hash}. Arguments BadToken {Hash}.

(** [ListItemMatchedRules]: the rules that matched each of the items, in
    evaluation order. *)
Definition matched_rules (ids : list string) (d : rssdb) : list (string * row Rule) :=
  sort_by (less (fun a b => rule_order a.2 b.2))
    (omap (fun p => item ← M_FeedItemID p.2; rule ← M_RuleID p.2; r ← rules d !! rule;
       if contains ids item then Some (item, (rule, r)) else None) (map_to_list (rule_matches d))).
Definition ListItemMatchedRules {R} (ids : list string) : M (rss R) (list (string * row Rule)) :=
  if bool_decide (ids = []) then mret [] else query_rss (matched_rules ids).
