(* ===== verification/RssMatch.v ===== *)
(** * Matching feed items against a rule ([internal/rss/match.go])

    A rule document prepared for one pass, the verdict on one item - the ten
    reasons of docs/08 section 5.1, or a candidate - and the resolution of the
    candidates of a run.  The pass asks what was grabbed before through
    [State]; nothing is written. *)

From Stdlib Require Import SpecFloat.
From S2P Require Import Prelude GoStrings SafePath SafeJoin Manifest Archive TaskState Schema Lease World Engine Regex Uri RssDoc RssStore.

Open Scope Z_scope.

(** ** Decisions and candidates *)

(** The reason codes, with what [ReasonDetail] renders. *)
Inductive Reason :=
  | ReasonCooldown (days last_match_at : Z)
  | ReasonExcluded (i : nat) (entry : string)
  | ReasonNoMatch (i : nat) (token : string)
  | ReasonSize (size : Z) (bound : string)
  | ReasonEpisodeFilter (filter : string)
  | ReasonUnparseableEpisode
  | ReasonDuplicateEpisode (key : string)
  | ReasonDuplicateInfoHash (hash : string)
  | ReasonAlreadyHave (key : string) (score : Z)
  | ReasonBelowMinimumScore (score minimum : Z).

Record Decision := MkDecision {
  ItemID : string; Matched : bool; Score : Z; MatchedBy : option string; DReason : option Reason; Highlight : nat * nat }.
Record Candidate := MkCandidate {
  C_Item : row FeedItem; C_FeedURL : string; C_FeedPriority : Z; C_Score : Z; C_ContentKey : string; C_EpisodeKey : string;
  C_Engine : string; C_Norm : NormalizedURI; C_MatchedBy : option string; stagedKeys : list string }.
Record FeedRef := MkFeedRef { FR_URL : string; FR_Priority : Z }.

(** [State]: what the dedup ladder asks. *)
Record State (E : Type) := MkState {
  HasInfoHash : string -> M E bool;
  SeenEpisode : string -> string -> M E bool;
  BestScoreForContentKey : string -> M E (option Z) }.
Arguments HasInfoHash {E}. Arguments SeenEpisode {E}. Arguments BestScoreForContentKey {E}.

(** [StatelessState] of [dryrun.go]. *)
Definition StatelessState (E : Type) : State E :=
  MkState E (fun _ => mret false) (fun _ _ => mret false) (fun _ => mret None).

(** ** Clauses *)

Record matchClause := MkClause { raw_entry : string; parts : list string; tokens : list matcher }.

Section Rules.
Context `{!FoldTable} `{!Regexp} `{!UnicodeTables} (ParseFloat : list Z -> option spec_float) (Parse_RFC3339 : string -> option Z).

Definition compile_part (mode : string) (caseSensitive : bool) (part : string) : option matcher :=
  m ← compileMatchPattern mode part;
  if caseSensitive then Some m else compile_folded mode part.
Definition compileClause (mode entry : string) (caseSensitive tokenise : bool) : option matchClause :=
  let parts := if tokenise && negb (bool_decide (mode = MatchModeRegex)) then string_of <$> Fields (bytes_of entry) else [entry] in
  tokens ← mapM (compile_part mode caseSensitive) parts;
  Some (MkClause entry parts tokens).

(** [ruleEval]. *)
Record ruleEval := MkEval {
  e_doc : RuleDoc; e_id : string; e_last_match : option Z; noneOf : list matchClause; anyOf : list matchClause;
  minSize : option Z; maxSize : option Z; publishedAfter : option Z; e_filter : option EpisodeFilter; smart : bool; allowRep : bool;
  scoreClauses : list (matcher * Z); scoreMinimum : Z; cooldownMs : Z }.
Definition millisPerDay : Z := 24 * 60 * 60 * 1000.

(** An optional member: absent, or parsed. *)
Definition optional {A} (parse : string -> option A) (s : string) : option (option A) :=
  if bool_decide (s = EmptyString) then Some None else Some <$> parse s.
Definition selecting_filter (s : string) : option EpisodeFilter :=
  f ← ParseEpisodeFilter s; if IsZero f then None else Some f.
Definition compile_format (f : ScoreFormat) : option (matcher * Z) :=
  m ← regexp_Compile ("(?i)" +:+ SF_Pattern f); Some (m, SF_Weight f).
Definition newRuleEval (doc : RuleDoc) (rule : row Rule) : option ruleEval :=
  let m := D_Match doc in
  let mode := or_else (Mode m) MatchModeWildcard in
  let fields := or_title (MFields m) in
  let doc' := MkDoc (D_Name doc) (D_Enabled doc) (D_Priority doc) (D_Feeds doc)
    (MkMatch mode (CaseSensitive m) fields (AnyOf m) (NoneOf m) (MinSize m) (MaxSize m) (PublishedAfter m))
    (D_Episode doc) (D_Score doc) (D_Action doc) (D_Throttle doc) in
  if negb (forallb (fun field => bool_decide (field = matchFieldTitle)) fields) then None
  else
    none ← mapM (fun entry => compileClause mode entry (CaseSensitive m) false) (NoneOf m);
    any ← mapM (fun entry => compileClause mode entry (CaseSensitive m) true) (AnyOf m);
    lo ← optional (parseIECSize ParseFloat) (MinSize m);
    hi ← optional (parseIECSize ParseFloat) (MaxSize m);
    floor ← optional Parse_RFC3339 (PublishedAfter m);
    filter ← from_option (fun e => optional selecting_filter (EFilter e)) (Some None) (D_Episode doc);
    formats ← from_option (fun s => mapM compile_format (Formats s)) (Some []) (D_Score doc);
    Some (MkEval doc' rule.1 (R_LastMatchAt rule.2) none any lo hi floor filter
      (from_option Smart false (D_Episode doc))
      (from_option (fun e => default true (AllowRepackProper e)) false (D_Episode doc))
      formats (from_option SMinimum 0 (D_Score doc)) (wrap64 (CooldownDays (D_Throttle doc) * millisPerDay))).

(** ** One item *)

Definition buildHaystack (title : string) (fields : list string) : list Z :=
  bytes_of (join (String (Ascii.ascii_of_nat 10) EmptyString)
    ((fun _ => title) <$> List.filter (fun f => bool_decide (f = matchFieldTitle)) fields)).

(** The first clause of a list with its index. *)
Definition first_clause (f : matchClause -> bool) (l : list matchClause) : option (nat * matchClause) :=
  head (List.filter (fun p => f p.2) (zip (seq 0 (length l)) l)).
Definition all_tokens (haystack : list Z) (c : matchClause) : bool := forallb (fun m => found_in m haystack) (tokens c).
Definition matchAny (any : list matchClause) (haystack : list Z) : option (nat * matchClause) := first_clause (all_tokens haystack) any.
Definition misses (haystack : list Z) (c : matchClause) : list nat :=
  fst <$> List.filter (fun p => negb (found_in p.2 haystack)) (zip (seq 0 (length (tokens c))) (tokens c)).
(** [closestMiss]: the entry with the fewest tokens missing, and the first of them. *)
Definition closestMiss (any : list matchClause) (haystack : list Z) : option (nat * nat) :=
  (fun r => (r.1.2, r.2)) <$>
  fold_left (fun best p =>
    match misses haystack p.2 with
    | [] => best
    | first :: more =>
      match best with
      | Some (fewest, _, _) => if (S (length more) <? fewest)%nat then Some (S (length more), p.1, first) else best
      | None => Some (S (length more), p.1, first)
      end
    end) (zip (seq 0 (length any)) any) None.
Definition score_of (clauses : list (matcher * Z)) (haystack : list Z) : Z :=
  fold_left (fun total c => if found_in c.1 haystack then wrap64 (total + c.2) else total) clauses 0.
Definition some_text (s : option string) : option string :=
  h ← s; if bool_decide (h = EmptyString) then None else Some h.
Definition contentKeyFor (ruleID episodeKey : string) (i : FeedItem) : string :=
  if negb (bool_decide (episodeKey = EmptyString)) then "ep:" +:+ ruleID +:+ ":" +:+ episodeKey
  else default (I_Identity i) (some_text (I_InfoHash i)).

(** How step 1, step 3 and step 12 leave an item, a rejection, or a
    candidate. *)
Inductive verdict := Dropped | Rejected (d : Decision) | Accepted (d : Decision) (c : Candidate).

Section Item.
Context {E : Type} (st : State E) (e : ruleEval) (url_Parse : list Z -> option url).
Abbreviation M := (M E).

(** Steps 2 and 3. *)
Definition cooldown_reason (i : FeedItem) : option Reason :=
  last ← e_last_match e; published ← I_PublishedAt i;
  if (0 <? cooldownMs e) && (published <? wrap64 (last + cooldownMs e))
  then Some (ReasonCooldown (CooldownDays (D_Throttle (e_doc e))) last) else None.
Definition below_floor (i : FeedItem) : bool :=
  match publishedAfter e, I_PublishedAt i with Some floor, Some p => p <? floor | _, _ => false end.

(** Steps 5 to 8. *)
Definition excluded (haystack : list Z) : option Reason :=
  p ← first_clause (fun c => from_option (fun m => found_in m haystack) false (head (tokens c))) (noneOf e);
  Some (ReasonExcluded p.1 (raw_entry p.2)).
Definition miss_reason (haystack : list Z) : Reason :=
  let '(entry, token) := default (O, O) (closestMiss (anyOf e) haystack) in
  ReasonNoMatch entry (default EmptyString (c ← anyOf e !! entry; parts c !! token)).
(** [tokens[0]] of a clause without tokens is a panic. *)
Definition highlight_of (c : matchClause) (title : string) : M (nat * nat) :=
  match tokens c with
  | m :: _ => mret (default (O, O) (m (bytes_of title)))
  | [] => fail ErrPanic
  end.
Definition size_reason (i : FeedItem) : option Reason :=
  size ← I_SizeBytes i;
  match minSize e with
  | Some lo => if size <? lo then Some (ReasonSize size (MinSize (D_Match (e_doc e)))) else
      hi ← maxSize e; if hi <? size then Some (ReasonSize size (MaxSize (D_Match (e_doc e)))) else None
  | None => hi ← maxSize e; if hi <? size then Some (ReasonSize size (MaxSize (D_Match (e_doc e)))) else None
  end.
Definition filter_reason (i : FeedItem) : option Reason :=
  f ← e_filter e;
  if Match_ f (bytes_of (I_Title i)) then None else Some (ReasonEpisodeFilter (from_option EFilter EmptyString (D_Episode (e_doc e)))).

(** Step 9: the reason, or the episode key and the keys to stage. *)
Fixpoint unseen (l : list string) : M (list string) :=
  match l with
  | [] => mret []
  | v :: l =>
    seen ← SeenEpisode st (e_id e) v;
    more ← unseen l;
    mret (if seen : bool then more else v :: more)
  end.
Definition episode_step (i : FeedItem) : M (Reason + (string * list string)) :=
  if negb (smart e) then mret (inr (EmptyString, []))
  else match SmartKey (bytes_of (I_Title i)) with
  | None => mret (inl ReasonUnparseableEpisode)
  | Some key =>
    seen ← SeenEpisode st (e_id e) key;
    if negb seen then mret (inr (key, [key]))
    else if negb (allowRep e) then mret (inl (ReasonDuplicateEpisode key))
    else match RepackVariants key (bytes_of (I_Title i)) with
    | [] => mret (inl (ReasonDuplicateEpisode key))
    | (first :: _) as variants =>
      pending ← unseen variants;
      match pending with
      | [] => mret (inl (ReasonDuplicateEpisode first))
      | v :: _ => mret (inr (v, pending))
      end
    end
  end.

(** Steps 10 and 11. *)
Definition hash_step (i : FeedItem) : M (option Reason) :=
  match some_text (I_InfoHash i) with
  | None => mret None
  | Some h => dup ← HasInfoHash st h; mret (if dup : bool then Some (ReasonDuplicateInfoHash h) else None)
  end.
Definition content_step (key : string) (score : Z) : M (option Reason) :=
  best ← BestScoreForContentKey st key;
  mret match best with
  | Some best => if score <=? best then Some (ReasonAlreadyHave key best) else None
  | None => None
  end.
Definition score_reason (score : Z) : option Reason :=
  if score <? scoreMinimum e then Some (ReasonBelowMinimumScore score (scoreMinimum e)) else None.

(** Step 12. *)
Definition collect (d : Z -> option string -> nat * nat -> Decision) (p : row FeedItem) (feed : FeedRef) (score : Z)
    (matchedBy : option string) (highlight : nat * nat) (contentKey episodeKey : string) (staged : list string) : M verdict :=
  match I_DownloadURL p.2 with
  | None => fail ErrArgument
  | Some raw =>
    mret match Normalize url_Parse (bytes_of raw) with
    | None => Dropped
    | Some norm =>
      match Router.Route (routable norm) None with
      | None => Dropped
      | Some name => Accepted (d score matchedBy highlight)
          (MkCandidate p (FR_URL feed) (FR_Priority feed) score contentKey episodeKey name norm matchedBy staged)
      end
    end
  end.

Definition reject (p : row FeedItem) (score : Z) (r : Reason) : verdict := Rejected (MkDecision p.1 false score None (Some r) (O, O)).

(** Steps 9 to 12 of an item the text clauses let through. *)
Definition dedup_steps (p : row FeedItem) (feed : FeedRef) (haystack : list Z) (matchedBy : option string) (highlight : nat * nat) : M verdict :=
  step ← episode_step p.2;
  match step with
  | inl r => mret (reject p 0 r)
  | inr (episodeKey, staged) =>
    let score := score_of (scoreClauses e) haystack in
    dup ← hash_step p.2;
    match dup with
    | Some r => mret (reject p score r)
    | None =>
      let contentKey := contentKeyFor (e_id e) episodeKey p.2 in
      have ← content_step contentKey score;
      match have with
      | Some r => mret (reject p score r)
      | None =>
        match score_reason score with
        | Some r => mret (reject p score r)
        | None =>
          collect (fun s by_ h => MkDecision p.1 true s by_ None h) p feed score matchedBy highlight contentKey episodeKey staged
        end
      end
    end
  end.

(** Steps 4 to 8. *)
Definition text_steps (p : row FeedItem) (feed : FeedRef) : M verdict :=
  let haystack := buildHaystack (I_Title p.2) (MFields (D_Match (e_doc e))) in
  match excluded haystack with
  | Some r => mret (reject p 0 r)
  | None =>
    let go matchedBy highlight :=
      match size_reason p.2 with
      | Some r => mret (reject p 0 r)
      | None =>
        match filter_reason p.2 with
        | Some r => mret (reject p 0 r)
        | None => dedup_steps p feed haystack matchedBy highlight
        end
      end in
    if bool_decide (anyOf e = []) then go None (O, O)
    else match matchAny (anyOf e) haystack with
    | None => mret (reject p 0 (miss_reason haystack))
    | Some (_, c) =>
      highlight ← highlight_of c (I_Title p.2);
      go (Some (raw_entry c)) highlight
    end
  end.
Definition evaluateItem (p : row FeedItem) (feed : FeedRef) : M verdict :=
  match cooldown_reason p.2 with
  | Some r => mret (reject p 0 r)
  | None => if below_floor p.2 then mret Dropped else text_steps p feed
  end.
End Item.

(** ** A pass *)

Section Pass.
Context {E : Type} (st : State E) (url_Parse : list Z -> option url).
Abbreviation M := (M E).

(** A feed the map does not hold reads as the zero [FeedRef]. *)
Definition feed_ref (feedByID : gmap string FeedRef) (id : string) : FeedRef := default (MkFeedRef EmptyString 0) (feedByID !! id).
Definition in_scope (doc : RuleDoc) (feed : FeedRef) : bool :=
  bool_decide (D_Feeds doc = []) || contains (D_Feeds doc) (FR_URL feed).
Fixpoint evaluate_loop (e : ruleEval) (doc : RuleDoc) (feedByID : gmap string FeedRef) (items : list (row FeedItem))
    (decisions : list Decision) (cands : list Candidate) : M (list Decision * list Candidate) :=
  match items with
  | [] => mret (decisions, cands)
  | p :: items =>
    let feed := feed_ref feedByID (I_FeedID p.2) in
    if negb (in_scope doc feed) then evaluate_loop e doc feedByID items decisions cands
    else
      v ← evaluateItem st e url_Parse p feed;
      match v with
      | Dropped => evaluate_loop e doc feedByID items decisions cands
      | Rejected d => evaluate_loop e doc feedByID items (decisions ++ [d]) cands
      | Accepted d c => evaluate_loop e doc feedByID items (decisions ++ [d]) (cands ++ [c])
      end
  end.
Definition Evaluate (doc : RuleDoc) (rule : row Rule) (items : list (row FeedItem)) (feedByID : gmap string FeedRef) :
    M (list Decision * list Candidate) :=
  match newRuleEval doc rule with
  | None => fail ErrArgument
  | Some e => evaluate_loop e doc feedByID items [] []
  end.
End Pass.
End Rules.

(** ** The winners of a run *)

Definition publishedAt (c : Candidate) : Z := default 0 (I_PublishedAt (C_Item c).2).
(** [better]: score, then the feed's rank, then the date. *)
Definition better : Candidate -> Candidate -> comparison :=
  then_by (descending (by_Z C_Score)) (then_by (by_Z C_FeedPriority) (descending (by_Z publishedAt))).
Definition content_groups (cands : list Candidate) : list (list Candidate) :=
  (fun key => List.filter (fun c => bool_decide (C_ContentKey c = key)) cands) <$> rev (remove_dups (rev (C_ContentKey <$> cands))).
Definition Resolve (cands : list Candidate) : list Candidate * list Candidate :=
  let groups := sort_by (less better) <$> content_groups cands in
  (sort_by (less better) (omap head groups), concat (drop 1 <$> groups)).
