(* ===== verification/RssGrab.v ===== *)
(** * Grabbing what a rule matched ([internal/rss/grab.go], [dryrun.go])

    The state of the dedup ladder over the tables, the commit of a run's
    winners and runners-up, the two passes that evaluate saved rules and the
    dry run that only reports.  What a grab is handed to is a [TaskCreator]
    over the state [R] behind it. *)

From Stdlib Require Import SpecFloat.
From stdpp Require Import fin_maps pretty.
From S2P Require Import Prelude GoStrings SafePath SafeJoin Manifest Archive TaskState Schema Lease World Engine Regex Uri RssDoc RssStore RssMatch.

Open Scope Z_scope.

(** [GrabRequest]. *)
Record GrabRequest := MkGrab {
  G_URI : string; G_Destination : string; G_Category : string; G_Tags : list string; G_Paused : bool;
  G_ContentLayout : string; G_Engine : string; G_RuleID : string; G_FeedItemID : string }.

(** [TaskCreator], with what the statements here see of the tasks it makes:
    which hashes a task that is not removed holds, and which ids are rows. *)
Class TaskCreator (R : Type) := {
  CreateForRule : GrabRequest -> R -> res string * R;
  holds_v1 : R -> string -> bool; holds_v2 : R -> string -> bool;
  task_row : R -> string -> bool }.

(** [CommitReport]. *)
Record CommitReport := MkReport { Evaluated : Z; RMatched : Z; CreatedTaskIDs : list string; Fallbacks : Z }.

(** ** Statements *)

Definition of_pair (ruleID itemID : string) (m : RuleMatch) : bool :=
  bool_decide (M_RuleID m = Some ruleID) && bool_decide (M_FeedItemID m = Some itemID).
Definition restaged (status : match_status) (c : Candidate) (now : Z) (m : RuleMatch) : RuleMatch :=
  MkMatchRow (M_RuleID m) (M_FeedItemID m) None None (C_ContentKey c) (I_Title (C_Item c).2) status None (C_Score c) now (M_CreatedAt m) now.
Definition update_matches (sel : RuleMatch -> bool) (f : RuleMatch -> RuleMatch) : rss_stmt := fun d =>
  Some (set_matches ((fun m => if sel m then f m else m) <$> rule_matches d) d,
    Z.of_nat (size (filter (fun p => sel p.2 = true) (rule_matches d)))).
Definition match_id (ruleID itemID : string) (d : rssdb) : option string :=
  fst <$> head (List.filter (fun p => of_pair ruleID itemID p.2) (map_to_list (rule_matches d))).
Definition new_match (ruleID : string) (status : match_status) (c : Candidate) (now : Z) : RuleMatch :=
  MkMatchRow (Some ruleID) (Some (C_Item c).1) None None (C_ContentKey c) (I_Title (C_Item c).2) status None (C_Score c) now now now.
Definition insert_match (id ruleID : string) (status : match_status) (c : Candidate) (now : Z) : rss_stmt := fun d =>
  if bool_decide (is_Some (rule_matches d !! id)) || bool_decide (rules d !! ruleID = None) || bool_decide (feed_items d !! (C_Item c).1 = None)
  then None else Some (set_matches (<[id := new_match ruleID status c now]> (rule_matches d)) d, 1).
Definition hash_taken (id : string) (h : option string) (t : gmap string RuleMatch) : bool :=
  match h with None => false | Some h => existsb (fun p => bool_decide (M_InfoHash p.2 = Some h)) (map_to_list (delete id t)) end.
Definition sent_row (taskID : string) (h : option string) (now : Z) (m : RuleMatch) : RuleMatch :=
  MkMatchRow (M_RuleID m) (M_FeedItemID m) (Some taskID) h (M_ContentKey m) (M_Title m) matchSent (M_Reason m) (M_Score m)
    (M_MatchedAt m) (M_CreatedAt m) now.
Definition failed_row (reason : string) (now : Z) (m : RuleMatch) : RuleMatch :=
  MkMatchRow (M_RuleID m) (M_FeedItemID m) (M_TaskID m) (M_InfoHash m) (M_ContentKey m) (M_Title m) matchFailed (Some reason) (M_Score m)
    (M_MatchedAt m) (M_CreatedAt m) now.
Definition mark_sent (id taskID : string) (known : bool) (h : option string) (now : Z) : rss_stmt := fun d =>
  if bool_decide (is_Some (rule_matches d !! id)) && (negb known || hash_taken id h (rule_matches d)) then None
  else let (t, k) := update_row id (sent_row taskID h now) (rule_matches d) in Some (set_matches t d, k).
Definition mark_failed (id reason : string) (now : Z) : rss_stmt := fun d =>
  let (t, k) := update_row id (failed_row reason now) (rule_matches d) in Some (set_matches t d, k).
Definition insert_seen (ruleID key : string) (now : Z) : rss_stmt := fun d =>
  match rule_seen_episodes d !! (ruleID, key) with
  | Some _ => Some (d, 0)
  | None => if bool_decide (rules d !! ruleID = None) then None
            else Some (set_seen (<[(ruleID, key) := now]> (rule_seen_episodes d)) d, 1)
  end.

(** The reads of [dbState]. *)
Definition count_hash (h : string) (d : rssdb) : bool := existsb (fun p => bool_decide (M_InfoHash p.2 = Some h)) (map_to_list (rule_matches d)).
Definition best_sent (key : string) (d : rssdb) : option Z :=
  fold_right (fun s best => Some (match best with Some b => Z.max s b | None => s end)) None
    (omap (fun p => if bool_decide (M_ContentKey p.2 = key) && bool_decide (M_Status p.2 = matchSent) then Some (M_Score p.2) else None)
       (map_to_list (rule_matches d))).

Section Grab.
Context {R : Type} `{!TaskCreator R}.
Abbreviation M := (M (rss R)).

Definition query_tasks {A} (q : R -> A) : M A := fun o w =>
  match o_io o (w_n w) with
  | IoOk => (inr (q (outside (w_eng w))), bump w)
  | _ => (inl ErrDriver, bump w)
  end.
Definition grabInfohashV1Len : nat := 40.
Definition grabInfohashV2Len : nat := 64.
Definition db_HasInfoHash (h : string) : M bool :=
  n ← query_rss (count_hash h);
  if (n : bool) then mret true
  else if (String.length h =? grabInfohashV1Len)%nat then query_tasks (fun r => holds_v1 r h)
  else if (String.length h =? grabInfohashV2Len)%nat then query_tasks (fun r => holds_v2 r h)
  else mret false.
Definition db_SeenEpisode (ruleID key : string) : M bool :=
  query_rss (fun d => bool_decide (is_Some (rule_seen_episodes d !! (ruleID, key)))).
Definition db_BestScore (key : string) : M (option Z) := query_rss (best_sent key).
Definition dbState : State (rss R) := MkState (rss R) db_HasInfoHash db_SeenEpisode db_BestScore.

(** ** One candidate *)

Definition upsertMatch (ruleID : string) (status : match_status) (c : Candidate) (now : Z) : M string :=
  rows ← exec_rss (update_matches (of_pair ruleID (C_Item c).1) (restaged status c now));
  if 0 <? rows then found_row (match_id ruleID (C_Item c).1)
  else
    id ← NewID "mat_";
    _ ← exec_rss (insert_match id ruleID status c now);
    mret id.
Definition queueMatch (ruleID : string) (c : Candidate) (now : Z) : M string :=
  with_rss_tx (id ← upsertMatch ruleID matchQueued c now; commit_rss ;; mret id).
Fixpoint stage_keys (ruleID : string) (now : Z) (keys : list string) : M unit :=
  match keys with
  | [] => mret tt
  | key :: keys => _ ← exec_rss (insert_seen ruleID key now); stage_keys ruleID now keys
  end.
Definition sendMatch (matchID ruleID : string) (c : Candidate) (taskID : string) (now : Z) : M unit :=
  with_rss_tx (
    known ← gets (fun w => task_row (outside (w_eng w)) taskID);
    _ ← exec_rss (mark_sent matchID taskID known (I_InfoHash (C_Item c).2) now);
    stage_keys ruleID now (stagedKeys c) ;;
    commit_rss).
Definition failMatch (matchID reason : string) (now : Z) : M unit := _ ← exec_rss (mark_failed matchID reason now); mret tt.

(** ** The commit of a run *)

Definition grab_request (doc : RuleDoc) (ruleID : string) (c : Candidate) : GrabRequest :=
  let a := D_Action doc in
  MkGrab (default EmptyString (I_DownloadURL (C_Item c).2)) (A_Destination a) (A_Category a) (A_Tags a) (A_Paused a)
    (A_ContentLayout a) (A_Engine a) ruleID (C_Item c).1.
Definition create (g : GrabRequest) : M string := fun o w =>
  let (r, x) := CreateForRule g (outside (w_eng w)) in
  (r, set_eng (MkRss (rss_committed (w_eng w)) (rss_working (w_eng w)) x) w).
Fixpoint write_fallbacks (ruleID : string) (now : Z) (losers : list Candidate) : M unit :=
  match losers with
  | [] => mret tt
  | c :: losers => _ ← upsertMatch ruleID matchFallback c now; write_fallbacks ruleID now losers
  end.
(** One winner: the task, or nothing when it was refused. *)
Definition grab (doc : RuleDoc) (ruleID : string) (now : Z) (c : Candidate) : M (option string) :=
  matchID ← queueMatch ruleID c now;
  r ← attempt (create (grab_request doc ruleID c));
  match r with
  | inl e => reason ← err_text e; failMatch matchID reason now ;; mret None
  | inr taskID => sendMatch matchID ruleID c taskID now ;; mret (Some taskID)
  end.
Definition run_full (doc : RuleDoc) (created : list string) : bool :=
  (0 <? MaxPerRun (D_Throttle doc)) && (MaxPerRun (D_Throttle doc) <=? Z.of_nat (length created)).
Fixpoint grab_winners (doc : RuleDoc) (ruleID : string) (now : Z) (winners : list Candidate) (created : list string) (last : option Z) :
    M (list string * option Z) :=
  match winners with
  | [] => mret (created, last)
  | c :: winners =>
    if run_full doc created then mret (created, last)
    else
      r ← grab doc ruleID now c;
      match r with
      | Some taskID => grab_winners doc ruleID now winners (created ++ [taskID]) (Some (publishedAt c))
      | None => grab_winners doc ruleID now winners created last
      end
  end.
Definition Commit (doc : RuleDoc) (ruleID : string) (cands : list Candidate) (now : Z) : M CommitReport :=
  let '(winners, losers) := Resolve cands in
  write_fallbacks ruleID now losers ;;
  r ← grab_winners doc ruleID now winners [] None;
  match r.2 with
  | Some last => SetRuleLastMatchAt ruleID last
  | None => mret tt
  end ;;
  mret (MkReport 0 (Z.of_nat (length cands)) r.1 (Z.of_nat (length losers))).

(** ** The passes *)

Context {Hash : Type} `{!EqDecision Hash} (feedItemFilterHash : list string -> bool -> Hash).
Context `{!FoldTable} `{!Regexp} `{!UnicodeTables} (ParseFloat : list Z -> option spec_float) (Parse_RFC3339 : string -> option Z)
  (url_Parse : list Z -> option url) (json_Unmarshal : string -> option RuleDoc).

Definition storedRuleDoc (rule : Rule) : M RuleDoc :=
  match json_Unmarshal (R_DefinitionJSON rule) with Some doc => mret (ApplyDefaults doc) | None => fail ErrArgument end.

(** [dryRunFeeds]. *)
Fixpoint named_feeds (byID : list (row Feed)) (seen : list string) (ids : list string) : option (list (row Feed)) :=
  match ids with
  | [] => Some []
  | id :: ids =>
    feed ← List.find (fun p => bool_decide (p.1 = id)) byID;
    more ← named_feeds byID (id :: seen) ids;
    Some (if contains seen id then more else feed :: more)
  end.
Definition dryRunFeeds (ids : list string) (doc : RuleDoc) : M (list (row Feed)) :=
  all ← ListFeeds;
  let all := all.*1 in
  if negb (bool_decide (ids = [])) then
    match named_feeds all [] ids with Some l => mret l | None => fail ErrNotFound end
  else if negb (bool_decide (D_Feeds doc = [])) then mret (List.filter (fun p => contains (D_Feeds doc) (F_URL p.2)) all)
  else mret (List.filter (fun p => F_Enabled p.2) all).

(** [newestFeedItems]: one page more than there are items is enough fuel. *)
Definition dryRunPageLimit : Z := 200.
Fixpoint newest_loop (fuel : nat) (feedID : string) (limit : Z) (items : list (row FeedItem)) (cursor : item_token Hash) :
    M (list (row FeedItem)) :=
  match fuel with
  | O => mret items
  | S fuel =>
    if Z.of_nat (length items) <? limit then
      r ← ListFeedItems feedItemFilterHash
        (MkItemFilter [feedID] false (Z.min (limit - Z.of_nat (length items)) dryRunPageLimit) cursor);
      let items := items ++ r.1.1 in
      match r.1.2 with
      | NoToken => mret items
      | next => newest_loop fuel feedID limit items next
      end
    else mret items
  end.
Definition newestFeedItems (feedID : string) (limit : Z) : M (list (row FeedItem)) :=
  fuel ← gets (fun w => S (size (feed_items (rss_tables w))));
  newest_loop fuel feedID limit [] NoToken.
Fixpoint gather (limit : Z) (l : list (row Feed)) (byID : gmap string FeedRef) (items : list (row FeedItem)) :
    M (gmap string FeedRef * list (row FeedItem)) :=
  match l with
  | [] => mret (byID, items)
  | (id, f) :: l =>
    batch ← newestFeedItems id limit;
    gather limit l (<[id := MkFeedRef (F_URL f) (F_Priority f)]> byID) (items ++ batch)
  end.

Definition MaxInt : Z := 2 ^ 63 - 1.
Definition RunRule (ruleID : string) (limit now : Z) : M CommitReport :=
  rule ← RuleByID ruleID;
  doc ← storedRuleDoc rule;
  l ← dryRunFeeds [] doc;
  g ← gather (if limit <=? 0 then MaxInt else limit) l ∅ [];
  r ← Evaluate ParseFloat Parse_RFC3339 dbState url_Parse doc (ruleID, rule) (sort_by (less newest_first) g.2) g.1;
  report ← Commit doc ruleID r.2 now;
  mret (MkReport (Z.of_nat (length r.1)) (RMatched report) (CreatedTaskIDs report) (Fallbacks report)).

Definition run_stored (rule : row Rule) (items : list (row FeedItem)) (byID : gmap string FeedRef) (now : Z) : M unit :=
  doc ← storedRuleDoc rule.2;
  r ← Evaluate ParseFloat Parse_RFC3339 dbState url_Parse doc rule items byID;
  _ ← Commit doc rule.1 r.2 now;
  mret tt.
Fixpoint run_rules (l : list (row Rule)) (items : list (row FeedItem)) (byID : gmap string FeedRef) (now : Z) (errs : list err) : M (list err) :=
  match l with
  | [] => mret errs
  | rule :: l =>
    r ← attempt (run_stored rule items byID now);
    match r with
    | inl ErrPanic => fail ErrPanic
    | inl e => run_rules l items byID now (errs ++ [e])
    | inr _ => run_rules l items byID now errs
    end
  end.
(** The errors it joins. *)
Definition RunAllRules (feedID : string) (now : Z) : M (list err) :=
  feed ← FeedByID feedID;
  l ← ListRules true;
  items ← newestFeedItems feedID MaxInt;
  run_rules l items {[feedID := MkFeedRef (F_URL feed.1) (F_Priority feed.1)]} now [].

(** ** The dry run *)

Definition dryRunDefaultLimit : Z := 200.
Definition dryRunMaxLimit : Z := 500.
Definition dryRunMaxTitles : nat := 50.
Record DryRunRequest := MkDryRun { Q_Rule : RuleDoc; Q_FeedIDs : list string; Q_Limit : Z; Q_IgnoreState : bool; Q_Titles : list string }.
(** A result row: the verdict with the stored row and its feed's name; a
    tested title has neither. *)
Record DryRunItem := MkDryItem { DI_Feed : option (string * string); DI_Title : string; DI_Decision : Decision }.
Record DryRunReport := MkDryReport { DR_Evaluated : Z; DR_Matched : Z; DR_Results : list DryRunItem }.

(** [synthesizeTitleItems]; the magnet's digits are the SHA-1 of the index and
    the title. *)
Context (sha1_hex : string -> string).
Definition title_item (i : nat) (title : string) : row FeedItem :=
  let id := "titles:" +:+ pretty (Z.of_nat i) in
  (id, MkItem EmptyString None id title EmptyString None
    (Some ("magnet:?xt=urn:btih:" +:+ sha1_hex (pretty (Z.of_nat i) +:+ String Ascii.zero title)))
    None None None false 0 None 0 0).
Definition synthesizeTitleItems (titles : list string) (doc : RuleDoc) : list (row FeedItem) * gmap string FeedRef :=
  (imap title_item titles, {[EmptyString := MkFeedRef (default EmptyString (head (D_Feeds doc))) 0]}).
Definition dry_limit (limit : Z) : Z := Z.min (if limit <=? 0 then dryRunDefaultLimit else limit) dryRunMaxLimit.
Definition dry_row (items : list (row FeedItem)) (names : gmap string string) (titles : bool) (d : Decision) : DryRunItem :=
  let item := List.find (fun p => bool_decide (p.1 = ItemID d)) (rev items) in
  MkDryItem (if titles then None else (fun p => (I_FeedID p.2, default EmptyString (names !! I_FeedID p.2))) <$> item)
    (from_option (fun p => I_Title p.2) EmptyString item) d.
Definition feed_name (f : Feed) : string := default (F_URL f) (F_Title f).
Definition dry_report (items : list (row FeedItem)) (names : gmap string string) (titles : bool) (l : list Decision) : DryRunReport :=
  MkDryReport (Z.of_nat (length l)) (Z.of_nat (length (List.filter Matched l))) (dry_row items names titles <$> l).
Definition unsaved (doc : RuleDoc) : row Rule := (EmptyString, MkRule (D_Name doc) false 0 EmptyString None 0 0).
Definition DryRun (req : DryRunRequest) : M DryRunReport :=
  let doc := ApplyDefaults (Q_Rule req) in
  if negb (bool_decide (Q_Titles req = [])) then
    if (dryRunMaxTitles <? length (Q_Titles req))%nat then fail ErrArgument
    else
      let '(items, byID) := synthesizeTitleItems (Q_Titles req) doc in
      r ← Evaluate ParseFloat Parse_RFC3339 (StatelessState (rss R)) url_Parse doc (unsaved doc) items byID;
      mret (dry_report items ∅ true r.1)
  else
    l ← dryRunFeeds (Q_FeedIDs req) doc;
    g ← gather (dry_limit (Q_Limit req)) l ∅ [];
    let items := sort_by (less newest_first) g.2 in
    r ← Evaluate ParseFloat Parse_RFC3339 (if Q_IgnoreState req then StatelessState (rss R) else dbState) url_Parse doc (unsaved doc) items g.1;
    mret (dry_report items (list_to_map ((fun p => (p.1, feed_name p.2)) <$> l)) false r.1).
End Grab.
