(* ===== verification/RssPoll.v ===== *)
(** * Polling a feed ([internal/rss/poll.go])

    When a feed is fetched next: the effective interval with its jitter, the
    publisher's skip windows and the back-off ladder; and one poll, from the
    answer of the publisher to the rows it leaves.  The publisher's answer,
    the item parser and the poll another instance has in flight are
    parameters; a Go float is a [spec_float]. *)

From Stdlib Require Import SpecFloat.
From stdpp Require Import fin_maps.
From S2P Require Import Prelude GoStrings TaskState Schema Lease World SafePath SafeJoin Ssrf Manifest Archive Regex Uri RssDoc RssStore RssMatch RssGrab.

Open Scope Z_scope.

(** ** Intervals *)

Definition BackoffPeriods : list Z := [0; 60; 300; 900; 1800; 3600; 10800; 21600; 43200; 86400].
Definition maxBody : Z := Z.shiftl 16 20.
Definition startupGrace : Z := 15 * 60 * 1000.
Definition defaultGlobalIntervalS : Z := 1800.
Definition dueFeedLimit : Z := 256.
Definition maxSkipScan : nat := 24 * 7.

(** [FeedMeta]. *)
Record FeedMeta := MkMeta { FM_Title : string; TTLMinutes : Z; ImpliedIntervalS : Z; SkipHours : list Z; SkipDays : list Z }.

(** [fnv.New64a] and [Jitter]. *)
Definition fnv_step (h b : Z) : Z := Z.lxor h b * 1099511628211 mod 2 ^ 64.
Definition fnv1a (l : list Z) : Z := fold_left fnv_step l 14695981039346656037.
Definition f64_add := SFadd 53 1024.
Definition f64_mul := SFmul 53 1024.
Definition f64_div := SFdiv 53 1024.
Definition jitter_of (k : Z) : spec_float := f64_div (f64 (k - 1000)) (f64 10000).
Definition Jitter (feedID : string) : spec_float := jitter_of (fnv1a (bytes_of feedID) mod 2001).

(** [EffectiveInterval] in nanoseconds and [NextFetchAt]. *)
Definition EffectiveInterval (configuredS globalS : Z) (m : FeedMeta) : Z :=
  let seconds := if configuredS =? 0 then globalS else configuredS in
  wrap64 (Z.max (Z.max seconds (wrap64 (TTLMinutes m * 60))) (Z.max (ImpliedIntervalS m) 300) * 1000000000).
Definition milliseconds (d : Z) : Z := Z.quot d 1000000.
Definition scaled (ms : Z) (feedID : string) : Z := int_of_float (f64_mul (f64 ms) (f64_add (f64 1) (Jitter feedID))).
Definition NextFetchAt (now d : Z) (feedID : string) : Z := wrap64 (now + scaled (milliseconds d) feedID).

(** [nextAllowed]: the hour and the weekday of an instant, in UTC. *)
Definition hour_ms : Z := 3600000.
Definition hour_of (t : Z) : Z := t / hour_ms mod 24.
Definition weekday_of (t : Z) : Z := (t / (24 * hour_ms) + 4) mod 7.
Definition skipped (m : FeedMeta) (t : Z) : bool := contains (SkipDays m) (weekday_of t) || contains (SkipHours m) (hour_of t).
Fixpoint skip_scan (fuel : nat) (m : FeedMeta) (t candidate : Z) : Z :=
  match fuel with
  | O => candidate
  | S fuel => if skipped m t then skip_scan fuel m (t + hour_ms) candidate else t
  end.
Definition nextAllowed (candidate : Z) (m : FeedMeta) : Z :=
  if bool_decide (SkipHours m = []) && bool_decide (SkipDays m = []) then candidate else skip_scan maxSkipScan m candidate candidate.

(** [storedMeta]. *)
Definition storedMeta (f : Feed) : FeedMeta := MkMeta EmptyString (default 0 (F_TTLMinutes f)) 0 [] [].

(** ** The poll *)

(** What went wrong, and how the publisher answered: the validators, the
    declared length and the body behind the decompressor - unless that could
    not be set up - with whether reading it fails at the end. *)
Inductive poll_err := PollBusy | RequestFailed | StatusError (code : Z) | BodyTooLarge | DecodeFailed | ReadFailed | NoParser | ParseFailed.
Record response := MkResponse {
  status_code : Z; etag : option string; last_modified : option string; content_length : Z; decoded : option (list Z * bool) }.
(** [Result]. *)
Record Result := MkResult { Fetched : bool; NotModified : bool; ItemsAdded : Z; ResultError : option poll_err }.

(** [readCapped]. *)
Definition readCapped (r : response) : poll_err + list Z :=
  if maxBody <? content_length r then inl BodyTooLarge
  else match decoded r with
  | None => inl DecodeFailed
  | Some (body, fails) =>
    if maxBody <? Z.of_nat (length body) then inl BodyTooLarge
    else match ReadCapped (content_length r) body fails maxBody with
    | Some body => inr body
    | None => inl ReadFailed
    end
  end.

(** The bookkeeping of a feed row. *)
Definition ladder_down (f : Feed) : Z := Z.max (F_EscalationLevel f - 1) 0.
Definition ladder_up (f : Feed) : Z := Z.min (F_EscalationLevel f + 1) (Z.of_nat (length BackoffPeriods) - 1).
Definition with_schedule (f : Feed) (level : Z) (till : option Z) (error : option string) (now : Z) (success : bool) (next : Z) : Feed :=
  MkFeed (F_URL f) (F_Title f) (F_Enabled f) (F_RefreshIntervalS f) (F_ItemCap f) (F_Priority f) (F_ETag f) (F_LastModified f)
    (F_TTLMinutes f) (Some now) (if success then Some now else F_LastSuccessAt f) next level till error (F_CreatedAt f) (F_UpdatedAt f).
Definition with_validators (f : Feed) (r : response) (m : FeedMeta) : Feed :=
  MkFeed (F_URL f) (F_Title f) (F_Enabled f) (F_RefreshIntervalS f) (F_ItemCap f) (F_Priority f) (etag r) (last_modified r)
    (if 0 <? TTLMinutes m then Some (TTLMinutes m) else None) (F_LastFetchAt f) (F_LastSuccessAt f) (F_NextFetchAt f)
    (F_EscalationLevel f) (F_DisabledTill f) (F_LastError f) (F_CreatedAt f) (F_UpdatedAt f).
Definition after_success (f : Feed) (id : string) (now globalS : Z) (m : FeedMeta) : Feed :=
  with_schedule f (ladder_down f) None None now true
    (nextAllowed (NextFetchAt now (EffectiveInterval (F_RefreshIntervalS f) globalS m) id) m).
Definition after_failure (f : Feed) (id : string) (now globalS : Z) (grace : bool) (text : string) : Feed :=
  let level := ladder_up f in
  if grace then
    with_schedule f level None (Some text) now false
      (NextFetchAt now (EffectiveInterval (F_RefreshIntervalS f) globalS (storedMeta f)) id)
  else
    let till := now + default 0 (BackoffPeriods !! Z.to_nat level) * 1000 in
    with_schedule f level (Some till) (Some text) now false till.

Section Poll.
Context {R : Type} `{!TaskCreator R} {Hash : Type} `{!EqDecision Hash} (feedItemFilterHash : list string -> bool -> Hash).
Context `{!FoldTable} `{!Regexp} `{!UnicodeTables} (ParseFloat : list Z -> option spec_float) (Parse_RFC3339 : string -> option Z)
  (url_Parse : list Z -> option url) (json_Unmarshal : string -> option RuleDoc).
(** The poll interval's settings row (no row, or its value if it decodes), the
    text of an error, the publisher, whether another poll of the feed is in
    flight, the parser and whether a creator is attached. *)
Context (interval_row : db -> option (option Z)) (render : poll_err -> string) (fetch : nat -> Feed -> option response)
  (in_flight : nat -> string -> bool) (ParseFeed : option (string -> string -> list Z -> option (FeedMeta * list (row FeedItem))))
  (creator : bool) (startedAt : Z).
Abbreviation M := (M (rss R)).

Definition globalInterval : M Z :=
  r ← query interval_row;
  mret match r with Some (Some seconds) => if seconds <=? 0 then defaultGlobalIntervalS else seconds | _ => defaultGlobalIntervalS end.
Definition recordSuccess (id : string) (f : Feed) (now globalS : Z) (m : FeedMeta) : M unit :=
  UpdateFeedFetchState id (after_success f id now globalS m).
Definition recordFailure (id : string) (f : Feed) (now globalS : Z) (e : poll_err) : M unit :=
  at_ ← unix_milli;
  UpdateFeedFetchState id (after_failure f id now globalS (negb (startupGrace <=? at_ - startedAt)) (render e)).
Definition failed_poll (id : string) (f : Feed) (now globalS : Z) (fetched : bool) (e : poll_err) : M Result :=
  recordFailure id f now globalS e ;; mret (MkResult fetched false 0 (Some e)).

(** [completeFetch]. *)
Definition completeFetch (id : string) (f : Feed) (r : response) (now globalS : Z) : M Result :=
  match readCapped r with
  | inl e => failed_poll id f now globalS true e
  | inr body =>
    match ParseFeed with
    | None => failed_poll id f now globalS true NoParser
    | Some parse =>
      match parse id (F_URL f) body with
      | None => failed_poll id f now globalS true ParseFailed
      | Some (meta, items) =>
        added ← UpsertFeedItems items now;
        _ ← TrimFeedItems id (F_ItemCap f);
        recordSuccess id (with_validators f r meta) now globalS meta ;;
        (if (0 <? added) && creator then
           ignore (RunAllRules feedItemFilterHash ParseFloat Parse_RFC3339 url_Parse json_Unmarshal id now)
         else mret tt) ;;
        mret (MkResult true false added None)
      end
    end
  end.

Definition poll_lock (id : string) : M bool := fun o w => (inr (in_flight (w_n w) id), bump w).
Definition http_get (f : Feed) : M (option response) := fun o w => (inr (fetch (w_n w) f), bump w).
Definition Poll (id : string) (f : Feed) (force : bool) : M Result :=
  now ← unix_milli;
  busy ← poll_lock id;
  if (busy : bool) then mret (MkResult false false 0 (if force then Some PollBusy else None))
  else if negb force && match F_DisabledTill f with Some t => now <? t | None => false end then mret (MkResult false false 0 None)
  else
    globalS ← globalInterval;
    resp ← http_get f;
    match resp with
    | None => failed_poll id f now globalS false RequestFailed
    | Some r =>
      if status_code r =? 304 then recordSuccess id f now globalS (storedMeta f) ;; mret (MkResult true true 0 None)
      else if status_code r =? 200 then completeFetch id f r now globalS
      else failed_poll id f now globalS true (StatusError (status_code r))
    end.

(** [PollDue]: the hosts in the order their feeds are due, each host's feeds
    one after the other. *)
Context (feedHost : string -> string).
Definition host_queues (l : list (row Feed)) : list (list (row Feed)) :=
  (fun host => List.filter (fun p => bool_decide (feedHost (F_URL p.2) = host)) l)
    <$> rev (remove_dups (rev ((fun p => feedHost (F_URL p.2)) <$> l))).
Fixpoint poll_queue (l : list (row Feed)) : M unit :=
  match l with
  | [] => mret tt
  | (id, f) :: l =>
    over ← ctx_done;
    if (over : bool) then mret tt else ignore (Poll id f false) ;; poll_queue l
  end.
Fixpoint poll_hosts (qs : list (list (row Feed))) : M unit :=
  match qs with
  | [] => mret tt
  | q :: qs => poll_queue q ;; poll_hosts qs
  end.
Definition PollDue : M unit :=
  now ← unix_milli;
  l ← DueFeeds now dueFeedLimit;
  poll_hosts (host_queues l).
End Poll.

(** * When a feed is polled

    The skip windows a publisher declares, the interval between two polls and
    the back-off ladder. *)

(** ** Skip windows *)

Section Windows.
Context (m : FeedMeta).

(** The hours a week apart are the same hour. *)
Lemma skipped_week t : skipped m (t + Z.of_nat maxSkipScan * hour_ms) = skipped m t.
Proof.
  unfold skipped, weekday_of, hour_of, hour_ms, maxSkipScan.
  replace ((t + Z.of_nat (24 * 7) * 3600000) / (24 * 3600000)) with (t / (24 * 3600000) + 7).
  2: { replace (t + Z.of_nat (24 * 7) * 3600000) with (t + 7 * (24 * 3600000)) by lia. by rewrite Z.div_add by done. }
  replace ((t + Z.of_nat (24 * 7) * 3600000) / 3600000) with (t / 3600000 + 7 * 24).
  2: { replace (t + Z.of_nat (24 * 7) * 3600000) with (t + (7 * 24) * 3600000) by lia. by rewrite Z.div_add by done. }
  rewrite Z.mod_add by done. by replace (t / (24 * 3600000) + 7 + 4) with (t / (24 * 3600000) + 4 + 1 * 7) by lia; rewrite Z.mod_add.
Qed.
Lemma skipped_weeks t k : skipped m (t + Z.of_nat k * (Z.of_nat maxSkipScan * hour_ms)) = skipped m t.
Proof.
  induction k as [|k IH]; [f_equal; lia|]. rewrite <- IH, <- (skipped_week (t + Z.of_nat k * (Z.of_nat maxSkipScan * hour_ms))). f_equal. rewrite Nat2Z.inj_succ. ring.
Qed.

(** The scan stops at the first hour that is allowed. *)
Lemma skip_scan_spec fuel t c :
  (exists k, (k < fuel)%nat /\ skip_scan fuel m t c = t + Z.of_nat k * hour_ms /\ skipped m (t + Z.of_nat k * hour_ms) = false /\
     forall j, (j < k)%nat -> skipped m (t + Z.of_nat j * hour_ms) = true) \/
  skip_scan fuel m t c = c /\ forall j, (j < fuel)%nat -> skipped m (t + Z.of_nat j * hour_ms) = true.
Proof.
  revert t. induction fuel as [|fuel IH]; intros t; [right; split; [done|lia]|]. cbn [skip_scan]. destruct (skipped m t) eqn:Ht.
  - assert (Hj : forall j, t + hour_ms + Z.of_nat j * hour_ms = t + Z.of_nat (S j) * hour_ms) by (intros j; lia).
    destruct (IH (t + hour_ms)) as [(k & Hk & He & Hn & Hb)|[He Hb]].
    + left. exists (S k). rewrite <- Hj. split_and!; [lia|done|done|]. intros [|j] Hlt; [by rewrite Z.add_0_r|]. rewrite <- Hj. apply Hb. lia.
    + right. split; [done|]. intros [|j] Hlt; [by rewrite Z.add_0_r|]. rewrite <- Hj. apply Hb. lia.
  - left. exists O. rewrite Z.add_0_r. split_and!; [lia|done|done|lia].
Qed.
End Windows.

(** A poll that falls into a skipped hour or day is put off to the first hour
    of the same minute that is allowed - less than a week later; only when
    the publisher skips every hour of every week is the time kept. *)
Theorem nextAllowed_first c m :
  (exists k, (k < maxSkipScan)%nat /\ nextAllowed c m = c + Z.of_nat k * hour_ms /\ skipped m (nextAllowed c m) = false /\
     forall j, (j < k)%nat -> skipped m (c + Z.of_nat j * hour_ms) = true) \/
  nextAllowed c m = c /\ forall n, skipped m (c + Z.of_nat n * hour_ms) = true.
Proof.
  unfold nextAllowed. destruct (_ && _) eqn:Hnone.
  - apply andb_true_iff in Hnone as [Hh%bool_decide_eq_true Hd%bool_decide_eq_true]. left. exists O.
    split_and!; [unfold maxSkipScan; lia|lia|unfold skipped; by rewrite Hh, Hd|lia].
  - destruct (skip_scan_spec m maxSkipScan c c) as [(k & Hk & He & Hn & Hb)|[He Hb]]; rewrite He; [left; exists k; by split_and!|right].
    split; [done|]. intros n. rewrite (Nat.div_mod n maxSkipScan) by (unfold maxSkipScan; lia).
    replace (c + Z.of_nat (maxSkipScan * (n / maxSkipScan) + n mod maxSkipScan) * hour_ms)
      with (c + Z.of_nat (n mod maxSkipScan) * hour_ms + Z.of_nat (n / maxSkipScan) * (Z.of_nat maxSkipScan * hour_ms)) by (rewrite Nat2Z.inj_add, Nat2Z.inj_mul; ring).
    rewrite skipped_weeks. apply Hb, Nat.mod_upper_bound. unfold maxSkipScan. lia.
Qed.

(** ** Intervals and the ladder *)

(** Two polls of a feed are at least five minutes apart, before the jitter;
    what the operator, the publisher's TTL and its own rhythm ask for is
    granted up to the width of a duration. *)
Lemma EffectiveInterval_spec configuredS globalS m :
  0 <= configuredS <= 2 ^ 32 -> 0 <= globalS <= 2 ^ 32 -> 0 <= TTLMinutes m <= 2 ^ 24 -> 0 <= ImpliedIntervalS m <= 2 ^ 32 ->
  let d := EffectiveInterval configuredS globalS m in
  300 * 1000000000 <= d /\ TTLMinutes m * 60 * 1000000000 <= d /\ ImpliedIntervalS m * 1000000000 <= d /\
  (if configuredS =? 0 then globalS else configuredS) * 1000000000 <= d.
Proof.
  intros Hc Hg Ht Hi. unfold EffectiveInterval. cbv zeta. rewrite (wrap64_id (_ * 60)) by (unfold in_int64, int64_min, int64_max; lia).
  rewrite wrap64_id by (unfold in_int64, int64_min, int64_max; destruct (Z.eqb_spec configuredS 0); lia). destruct (Z.eqb_spec configuredS 0); lia.
Qed.

Lemma ladder_in_range f : 0 <= F_EscalationLevel f < Z.of_nat (length BackoffPeriods) ->
  0 <= ladder_up f < Z.of_nat (length BackoffPeriods) /\ 0 <= ladder_down f < Z.of_nat (length BackoffPeriods) /\
  F_EscalationLevel f <= ladder_up f /\ ladder_down f <= F_EscalationLevel f.
Proof. unfold ladder_up, ladder_down. cbn. lia. Qed.
Lemma periods_grow i j : (i <= j < length BackoffPeriods)%nat -> default 0 (BackoffPeriods !! i) <= default 0 (BackoffPeriods !! j).
Proof.
  intros [Hij Hj]. do 10 (destruct j as [|j]; [do 10 (destruct i as [|i]; [cbn; lia|]); lia|]). cbn in Hj. lia.
Qed.

(** After a failure outside the grace period a feed is disabled for the period
    of its new level, at least a minute and at most a day, never shorter than
    the one before; a success brings it back by one level. *)
Lemma failure_backs_off f id now globalS text : 0 <= F_EscalationLevel f < Z.of_nat (length BackoffPeriods) ->
  let f' := after_failure f id now globalS false text in
  exists period, F_DisabledTill f' = Some (now + period * 1000) /\ F_NextFetchAt f' = now + period * 1000 /\ 60 <= period <= 86400 /\
    default 0 (BackoffPeriods !! Z.to_nat (F_EscalationLevel f)) <= period /\
    0 <= F_EscalationLevel f' < Z.of_nat (length BackoffPeriods) /\ F_LastSuccessAt f' = F_LastSuccessAt f /\ F_LastError f' = Some text.
Proof.
  intros Hl. destruct (ladder_in_range f Hl) as (Hu & _ & Hge & _). unfold after_failure. cbv zeta.
  exists (default 0 (BackoffPeriods !! Z.to_nat (ladder_up f))). cbn [F_DisabledTill F_NextFetchAt F_EscalationLevel F_LastSuccessAt F_LastError with_schedule].
  assert (Hone : (1 <= Z.to_nat (ladder_up f))%nat) by (unfold ladder_up in *; cbn in *; lia).
  assert (Hmax : (Z.to_nat (ladder_up f) <= 9)%nat) by (cbn in Hu; lia).
  pose proof (periods_grow 1 (Z.to_nat (ladder_up f)) ltac:(cbn; lia)) as P1. pose proof (periods_grow (Z.to_nat (ladder_up f)) 9 ltac:(cbn; lia)) as P2.
  pose proof (periods_grow (Z.to_nat (F_EscalationLevel f)) (Z.to_nat (ladder_up f)) ltac:(cbn; lia)) as P3. cbn [BackoffPeriods lookup list_lookup default] in P1, P2.
  split_and!; try done; lia.
Qed.

(** The jitter spreads the polls over a tenth of the interval each way. *)
Lemma jitter_band id : SFleb (f64_div (f64 (-1000)) (f64 10000)) (Jitter id) = true /\ SFleb (Jitter id) (f64_div (f64 1000) (f64 10000)) = true.
Proof.
  assert (Hall : forallb (fun k => SFleb (f64_div (f64 (-1000)) (f64 10000)) (jitter_of k) && SFleb (jitter_of k) (f64_div (f64 1000) (f64 10000))) (seqZ 0 2001) = true)
    by by vm_compute.
  rewrite forallb_forall in Hall. apply andb_true_iff. apply Hall. apply list_elem_of_In, elem_of_seqZ.
  pose proof (Z.mod_pos_bound (fnv1a (bytes_of id)) 2001). lia.
Qed.
