(* ===== verification/RssResolve.v ===== *)
(** * Sorting and the winners of a run

    The orders rows and candidates are sorted in, and what [Resolve] of
    [rss/match.go] promises. *)

From stdpp Require Import fin_maps sorting.
From S2P Require Import Prelude GoStrings TaskState Schema Lease World Engine Regex Uri RssDoc RssStore RssMatch.

Open Scope Z_scope.

(** ** The orders of rows and candidates *)

#[export] Typeclasses Opaque better newest_first rule_order.
#[export] Instance better_ord : Ordering better.
Proof. unfold better. apply _. Qed.
#[export] Instance newest_first_ord : Ordering newest_first.
Proof. unfold newest_first. apply _. Qed.
#[export] Instance rule_order_ord : Ordering rule_order.
Proof. unfold rule_order. apply _. Qed.

(** ** Groups *)

Lemma rev_dups_nodup (l : list string) : NoDup (rev (remove_dups (rev l))).
Proof. rewrite <- (Permutation_rev (remove_dups (rev l))). apply NoDup_remove_dups. Qed.
Lemma rev_dups_elem (l : list string) k : k ∈ rev (remove_dups (rev l)) <-> k ∈ l.
Proof. by rewrite <- Permutation_rev, elem_of_remove_dups, <- Permutation_rev. Qed.

(** A list is the concatenation of its groups. *)
Lemma groups_Permutation {A} (key : A -> string) (keys : list string) (l : list A) : NoDup keys -> (forall c, c ∈ l -> key c ∈ keys) ->
  concat ((fun k => List.filter (fun c => bool_decide (key c = k)) l) <$> keys) ≡ₚ l.
Proof.
  intros Hn. revert l. induction Hn as [|k keys Hk Hn IH]; intros l Hl; [|rewrite fmap_cons; cbn [concat]].
  - destruct l as [|c l]; [done|]. specialize (Hl c ltac:(by left)). by apply not_elem_of_nil in Hl.
  - set (others := List.filter (fun c => negb (bool_decide (key c = k))) l).
    assert (Hsame : (fun k => List.filter (fun c => bool_decide (key c = k)) l) <$> keys = (fun k => List.filter (fun c => bool_decide (key c = k)) others) <$> keys).
    { apply list_fmap_ext. intros i k' Hk'. apply list_elem_of_lookup_2 in Hk'. assert (Hne : k' <> k) by by intros ->.
      unfold others. clear -Hne. induction l as [|c l IH]; simpl; [done|]. rewrite IH. repeat case_bool_decide; simpl; repeat case_bool_decide; subst; done. }
    rewrite Hsame, (IH others).
    + unfold others. clear. induction l as [|c l IH]; simpl; [done|]. case_bool_decide; simpl; [by f_equiv|]. by rewrite <- Permutation_middle, IH.
    + unfold others. intros c [Hc Hin]%elem_of_filter_bool. specialize (Hl c Hin). apply list.elem_of_cons in Hl as [Hl|Hl]; [|done].
      apply negb_true_iff, bool_decide_eq_false in Hc. done.
Qed.

Lemma heads_and_tails {A} (g : list (list A)) : omap head g ++ concat (drop 1 <$> g) ≡ₚ concat g.
Proof.
  induction g as [|[|x l] g IH]; simpl; [done|done|]. rewrite <- IH, ?drop_0. apply perm_skip. rewrite !(assoc_L app). apply Permutation_app_tail, Permutation_app_comm.
Qed.

Lemma concat_perm {A} (h : list A -> list A) (g : list (list A)) : (forall l, h l ≡ₚ l) -> concat (h <$> g) ≡ₚ concat g.
Proof. intros Hh. induction g as [|l g IH]; simpl; [done|]. by rewrite Hh, IH. Qed.

Lemma content_groups_spec cands l : l ∈ content_groups cands <->
  exists k, k ∈ C_ContentKey <$> cands /\ l = List.filter (fun c => bool_decide (C_ContentKey c = k)) cands.
Proof.
  unfold content_groups. rewrite list_elem_of_fmap. setoid_rewrite rev_dups_elem. naive_solver.
Qed.

(** The winner of a group, its content key. *)
Lemma group_winner cands g x : g ∈ content_groups cands -> head (sort_by (less better) g) = Some x ->
  x ∈ cands /\ g = List.filter (fun c => bool_decide (C_ContentKey c = C_ContentKey x)) cands /\ forall y, y ∈ g -> better x y <> Gt.
Proof.
  rewrite content_groups_spec. intros (k & Hk & ->) (Hx & Hb)%(sort_by_head better). apply elem_of_filter_bool in Hx as [Hxk Hx].
  apply bool_decide_eq_true in Hxk. subst k. done.
Qed.

Lemma winners_keys cands : C_ContentKey <$> omap head (sort_by (less better) <$> content_groups cands) = rev (remove_dups (rev (C_ContentKey <$> cands))).
Proof.
  unfold content_groups. assert (Hall : forall k, k ∈ rev (remove_dups (rev (C_ContentKey <$> cands))) -> k ∈ C_ContentKey <$> cands)
    by (intros k Hk; by apply rev_dups_elem).
  induction (rev (remove_dups (rev (C_ContentKey <$> cands)))) as [|k keys IH]; [done|]. cbn [fmap list_fmap omap list_omap].
  destruct (head (sort_by (less better) (List.filter _ cands))) as [x|] eqn:Hx.
  - cbn [fmap list_fmap]. rewrite IH by (intros; apply Hall; by right). f_equal.
    apply (sort_by_head better) in Hx as [Hx _]. apply elem_of_filter_bool in Hx as [Hx _]. by apply bool_decide_eq_true in Hx.
  - exfalso. specialize (Hall k ltac:(by left)). apply list_elem_of_fmap in Hall as (c & -> & Hc).
    assert (Hin : c ∈ sort_by (less better) (List.filter (fun c' => bool_decide (C_ContentKey c' = C_ContentKey c)) cands)).
    { rewrite (sort_by_Permutation better). apply elem_of_filter_bool. by rewrite bool_decide_true. }
    destruct (sort_by _ _); [by apply not_elem_of_nil in Hin|done].
Qed.

(** Resolution loses no candidate, keeps one winner for each content, ranks the
    winners, and no candidate of a content beats its winner. *)
Lemma Resolve_spec cands winners losers : Resolve cands = (winners, losers) ->
  winners ++ losers ≡ₚ cands /\ NoDup (C_ContentKey <$> winners) /\ StronglySorted (not_after better) winners /\
  forall c, c ∈ cands -> exists x, x ∈ winners /\ C_ContentKey x = C_ContentKey c /\ better x c <> Gt.
Proof.
  unfold Resolve. intros [= <- <-]. split_and!.
  - rewrite (sort_by_Permutation better), heads_and_tails, (concat_perm _ _ (sort_by_Permutation better)).
    apply (groups_Permutation C_ContentKey); [apply rev_dups_nodup|]. intros c Hc. apply rev_dups_elem. apply list_elem_of_fmap. by exists c.
  - rewrite (sort_by_Permutation better), winners_keys. apply rev_dups_nodup.
  - apply sort_by_sorted. apply _.
  - intros c Hc. set (g := List.filter (fun c' => bool_decide (C_ContentKey c' = C_ContentKey c)) cands).
    assert (Hg : g ∈ content_groups cands) by (apply content_groups_spec; exists (C_ContentKey c); split; [apply list_elem_of_fmap; by exists c|done]).
    assert (Hcg : c ∈ g) by (apply elem_of_filter_bool; by rewrite bool_decide_true).
    destruct (head (sort_by (less better) g)) as [x|] eqn:Hx.
    + destruct (group_winner cands g x Hg Hx) as (Hxc & He & Hb). exists x. split_and!; [|by apply (sort_by_head better) in Hx as [Hx _]; apply elem_of_filter_bool in Hx as [Hx%bool_decide_eq_true _]|by apply Hb].
      rewrite (sort_by_Permutation better). apply list_elem_of_omap. exists (sort_by (less better) g). split; [|done]. apply list_elem_of_fmap. by exists g.
    + pose proof (sort_by_Permutation better g) as Hp. destruct (sort_by (less better) g); [|done]. apply Permutation_nil_l in Hp. rewrite <- Hp in Hcg. by apply not_elem_of_nil in Hcg.
Qed.
