(* ===== verification/RssEvalProps.v ===== *)
(** * A document that validates evaluates

    Validation at save time is meant to keep every error out of the
    evaluation: what [Validate] accepts is prepared by [newRuleEval], and every
    item gets its verdict - unless an entry of [any_of] is blank. *)

From Stdlib Require Import SpecFloat.
From stdpp Require Import fin_maps.
From S2P Require Import Prelude GoStrings TaskState Schema Lease World Engine SafePath SafeJoin Manifest Archive Regex Uri RssDoc RssStore RssMatch.

Open Scope Z_scope.

(** ** The words of a UTF-8 text are UTF-8 *)

(** The runes of [unicode.IsSpace]. *)
Definition space_runes : list Z :=
  [9; 10; 11; 12; 13; 32; 133; 160; 5760; 8192; 8193; 8194; 8195; 8196; 8197; 8198; 8199; 8200; 8201; 8202; 8232; 8233; 8239; 8287; 12288].
Lemma space_encodings_spelled : space_encodings = encode_rune <$> space_runes.
Proof. by vm_compute. Qed.

Lemma strip_space_Some l k : strip_space false l = Some k -> exists enc, enc ∈ space_encodings /\ l = enc ++ k.
Proof.
  unfold strip_space. induction space_encodings as [|enc encs IH]; simpl; [done|].
  destruct (strip_prefix enc l) as [k'|] eqn:He; [intros [= ->]; apply strip_prefix_Some in He; exists enc; by split; [left|]|].
  intros Hk. destruct (IH Hk) as (e & He' & ->). exists e. by split; [right|].
Qed.

(** A space is stripped at the start of a rune only. *)
Lemma strip_space_rune r l : valid_rune r = true -> strip_space false (encode_rune r ++ l) = None \/ strip_space false (encode_rune r ++ l) = Some l.
Proof.
  intros Hr. destruct (strip_space false _) as [k|] eqn:Hs; [right|by left].
  apply strip_space_Some in Hs as (enc & He & Heq). rewrite space_encodings_spelled in He. apply list_elem_of_fmap in He as (r' & -> & Hr').
  assert (Hv : valid_rune r' = true).
  { revert Hr'. unfold space_runes. rewrite !list.elem_of_cons, list.elem_of_nil. by intros Hc; repeat destruct Hc as [->|Hc]. }
  pose proof (chunks_encode r l Hr) as H1. rewrite Heq, (chunks_encode r' k Hv) in H1. injection H1 as _ He _.
  rewrite He in Heq. by apply app_inv_head in Heq as ->.
Qed.
Lemma strip_space_tail b l : 128 <= b < 192 -> strip_space false (b :: l) = None.
Proof.
  intros Hb. destruct (strip_space false (b :: l)) as [k|] eqn:Hs; [|done]. apply strip_space_Some in Hs as (enc & He & Heq). exfalso.
  assert (Hh : forall e, e ∈ space_encodings -> match e with c :: _ => ~ (128 <= c < 192) | [] => False end).
  { apply list.Forall_forall. unfold space_encodings. repeat constructor; simpl; lia. }
  specialize (Hh enc He). destruct enc as [|c enc]; [done|]. simplify_eq/=. lia.
Qed.

Lemma encode_tail r : valid_rune r = true -> exists b t, encode_rune r = b :: t /\ Forall (fun c => 128 <= c < 192) t.
Proof.
  intros Hv. unfold encode_rune. rewrite Hv. cbn [negb].
  repeat case_match; bool_hyps; eexists _, _; (split; [done|]); repeat (apply list.Forall_cons; split; [bytes_lia|]); done.
Qed.

(** Eating the continuation bytes of a rune. *)
Lemma fields_tail t fuel word l : Forall (fun c => 128 <= c < 192) t -> (length t <= fuel)%nat ->
  fields fuel word (t ++ l) = fields (fuel - length t) (word ++ t) l.
Proof.
  intros Ht. revert fuel word. induction Ht as [|b t Hb Ht IH]; intros fuel word Hf; simpl.
  - by rewrite app_nil_r, Nat.sub_0_r.
  - destruct fuel as [|fuel]; [simpl in Hf; lia|]. cbn [fields]. rewrite strip_space_tail by done.
    rewrite IH by (simpl in Hf; lia). rewrite <- (assoc_L app). by simpl.
Qed.

Lemma flush_valid word more : valid_runes word -> (forall p, p ∈ more -> exists rs, valid_runes rs /\ p = spelled rs) ->
  forall p, p ∈ match spelled word with [] => more | _ => spelled word :: more end -> exists rs, valid_runes rs /\ p = spelled rs.
Proof.
  intros Hw Hm p. destruct (spelled word) eqn:Hs; [apply Hm|]. rewrite <- Hs. intros [->|Hp]%list.elem_of_cons; [by exists word|by apply Hm].
Qed.

Lemma fields_spelled rs : valid_runes rs -> forall fuel word, valid_runes word -> (length (spelled rs) < fuel)%nat ->
  forall p, p ∈ fields fuel (spelled word) (spelled rs) -> exists rs', valid_runes rs' /\ p = spelled rs'.
Proof.
  induction 1 as [|r rs Hr Hrs IH]; intros fuel word Hw Hf p.
  - destruct fuel as [|fuel]; [simpl in Hf; lia|]. simpl. apply flush_valid; [done|]. by intros q ?%not_elem_of_nil.
  - change (spelled (r :: rs)) with (encode_rune r ++ spelled rs) in *. rewrite length_app in Hf.
    destruct fuel as [|fuel]; [lia|]. destruct (encode_tail r Hr) as (b & t & He & Ht).
    destruct (strip_space_rune r (spelled rs) Hr) as [Hs|Hs].
    + rewrite He in *. cbn [app fields] in *. rewrite Hs. simpl in Hf. rewrite fields_tail by (done || lia).
      assert (Hwr : (spelled word ++ [b]) ++ t = spelled (word ++ [r])).
      { rewrite spelled_app. change (spelled [r]) with (encode_rune r ++ []). by rewrite He, app_nil_r, <- (assoc_L app). }
      rewrite Hwr. apply IH; [by apply list.Forall_app_2, list.Forall_singleton|lia].
    + cbn [fields]. rewrite Hs. apply flush_valid; [done|]. intros q. apply (IH fuel []); [constructor|]. rewrite He in Hf. simpl in Hf. lia.
Qed.

Lemma Fields_utf8 l p : Forall is_byte l -> valid_utf8 l = true -> p ∈ Fields l -> Forall is_byte p /\ valid_utf8 p = true.
Proof.
  intros Hb Hl Hp. destruct (valid_spelled l Hb Hl) as (rs & Hrs & ->).
  destruct (fields_spelled rs Hrs (S (length (spelled rs))) [] ltac:(constructor) ltac:(lia) p Hp) as (rs' & Hv & ->).
  split; [|by apply spelled_valid]. clear Hp. induction Hv as [|r k Hr Hk IH]; [constructor|]. apply list.Forall_app_2; [|done].
  eapply list.Forall_impl; [apply encode_rune_bytes|]. by intros b [? _].
Qed.

(** ** Validation implies preparation *)

Lemma app_nil_inv {A} (l k : list A) : l ++ k = [] -> l = [] /\ k = [].
Proof. by destruct l. Qed.
Lemma when_nil b s : when b s = [] -> b = false.
Proof. by destruct b. Qed.
Lemma each_nil {A} (f : nat -> A -> list FieldError) l : each f l = [] -> Forall (fun x => exists i, f i x = []) l.
Proof.
  unfold each. revert f. induction l as [|x l IH]; intros f; [constructor|]. rewrite imap_cons. cbn [concat]. intros [Hx Hl]%app_nil_inv.
  constructor; [by exists O|]. apply IH in Hl. eapply list.Forall_impl; [exact Hl|]. intros y [i Hi]. by exists (S i).
Qed.
Ltac nil_apart := repeat match goal with
  | H : _ ++ _ = [] |- _ => apply app_nil_inv in H as [? H]
  | H : when _ _ = [] |- _ => apply when_nil in H
  | H : each _ _ = [] |- _ => apply each_nil in H
  end.

Section Validated.
Context `{!FoldTable} `{!Regexp} `{!UnicodeTables} (ParseFloat : list Z -> option spec_float) (Parse_RFC3339 : string -> option Z).
(** The flag group may stand before any expression. *)
Hypothesis flags_compile : forall p m, regexp_Compile p = Some m -> is_Some (regexp_Compile ("(?i)" +:+ p)).

Lemma compile_part_ok mode part cs : is_Some (compileMatchPattern mode part) -> is_Some (compile_part mode cs part).
Proof.
  unfold compile_part. intros [m Hm]. rewrite Hm. simpl. destruct cs; [by exists m|]. revert Hm. unfold compileMatchPattern, compile_folded.
  repeat case_match; try done; [apply flags_compile|by eexists..].
Qed.

Lemma compileClause_ok location mode entry cs tokenise : mode ∈ [EmptyString; MatchModeWildcard; MatchModeRegex; MatchModePlain] ->
  checkPattern location mode entry = [] -> is_Some (compileClause (or_else mode MatchModeWildcard) entry cs tokenise).
Proof.
  intros Hmode Hc. unfold compileClause.
  assert (Hparts : Forall (fun part => is_Some (compile_part (or_else mode MatchModeWildcard) cs part))
    (if tokenise && negb (bool_decide (or_else mode MatchModeWildcard = MatchModeRegex)) then string_of <$> Fields (bytes_of entry) else [entry])).
  { revert Hc. unfold checkPattern. case_bool_decide; [done|]. case_match; [done|]. destruct (compileMatchPattern mode entry) as [m|] eqn:Hm; [|done]. intros _.
    apply list.Forall_forall. intros part Hp. apply compile_part_ok.
    assert (Hw : forall q, is_Some (compileMatchPattern MatchModeWildcard q)) by by eexists.
    revert Hmode. rewrite !list.elem_of_cons, list.elem_of_nil. intros [->|[->|[->|[->|[]]]]]; [apply Hw..| |].
    - rewrite andb_false_r in Hp. apply list_elem_of_singleton in Hp as ->. by exists m.
    - change (or_else MatchModePlain MatchModeWildcard) with MatchModePlain in *. unfold compileMatchPattern in *. cbn in Hm |- *.
      destruct (valid_utf8 (bytes_of entry)) eqn:Hv; [|done]. destruct tokenise; cbn in Hp.
      + apply list_elem_of_fmap in Hp as (w & -> & Hin). apply Fields_utf8 in Hin as [Hb Hu]; [|apply bytes_are_bytes|done].
        rewrite bytes_of_string, Hu by done. by eexists.
      + apply list_elem_of_singleton in Hp as ->. rewrite Hv. by eexists. }
  apply mapM_is_Some in Hparts as [tokens Ht]. rewrite Ht. by eexists.
Qed.

Lemma optional_ok {A} (parse : string -> option A) s `{dec : base.Decision (parse s = None)} :
  negb (bool_decide (s = EmptyString)) && bool_decide (parse s = None) = false -> is_Some (optional parse s).
Proof. unfold optional. repeat case_bool_decide; simpl; try done; intros _. destruct (parse s); [by eexists|done]. Qed.

Lemma validated_prepares doc rule : Validate ParseFloat Parse_RFC3339 doc = [] -> is_Some (newRuleEval ParseFloat Parse_RFC3339 doc rule).
Proof.
  unfold Validate. intros Hv. nil_apart. unfold newRuleEval.
  match goal with H : negb (contains _ (Mode _)) = false |- _ => apply negb_false_iff, contains_spec in H; rename H into Hmode end.
  assert (Hf : forallb (fun field => bool_decide (field = matchFieldTitle)) (or_title (MFields (D_Match doc))) = true).
  { unfold or_title. destruct (bool_decide (MFields (D_Match doc) = [])); [by vm_compute|]. apply forallb_forall. intros f Hin%list_elem_of_In.
    match goal with H : Forall _ (MFields _) |- _ => eapply list.Forall_forall in H as [i Hi]; [|exact Hin] end. by case_bool_decide. }
  rewrite Hf. cbn [negb].
  assert (Hmany : forall name tok l, Forall (fun entry => exists i, checkPattern (name, Some i) (Mode (D_Match doc)) entry = []) l ->
    is_Some (mapM (fun entry => compileClause (or_else (Mode (D_Match doc)) MatchModeWildcard) entry (CaseSensitive (D_Match doc)) tok) l)).
  { intros name tok l Hl. apply mapM_is_Some. eapply list.Forall_impl; [exact Hl|]. intros entry [i Hi]. by eapply compileClause_ok. }
  destruct (Hmany _ false (NoneOf (D_Match doc)) ltac:(eassumption)) as [none ->].
  destruct (Hmany _ true (AnyOf (D_Match doc)) ltac:(eassumption)) as [any ->].
  cbn [mbind option_bind].
  destruct (optional_ok (parseIECSize ParseFloat) (MinSize (D_Match doc)) ltac:(eassumption)) as [lo ->].
  destruct (optional_ok (parseIECSize ParseFloat) (MaxSize (D_Match doc)) ltac:(eassumption)) as [hi ->].
  destruct (optional_ok Parse_RFC3339 (PublishedAfter (D_Match doc)) ltac:(eassumption)) as [floor ->].
  cbn [mbind option_bind].
  assert (He : is_Some (from_option (fun e => optional selecting_filter (EFilter e)) (Some None) (D_Episode doc))).
  { destruct (D_Episode doc) as [e|]; [|by eexists]. apply (optional_ok selecting_filter (EFilter e)). 
    match goal with H : from_option bad_filter false _ = false |- _ => revert H end. cbn [from_option]. unfold bad_filter, selecting_filter.
    destruct (bool_decide (EFilter e = EmptyString)); [done|]. cbn [negb andb].
    destruct (ParseEpisodeFilter _) as [f|]; simpl; [|done]. destruct (IsZero f); [done|]. intros _. by apply bool_decide_eq_false. }
  destruct He as [filter ->]. cbn [mbind option_bind].
  assert (Hs : is_Some (from_option (fun s => mapM compile_format (Formats s)) (Some []) (D_Score doc))).
  { destruct (D_Score doc) as [s|]; [|by eexists]. simpl. nil_apart. apply mapM_is_Some.
    match goal with H : Forall _ (Formats s) |- _ => eapply list.Forall_impl; [exact H|] end. intros f [i Hi]. revert Hi. unfold checkPattern.
    destruct (bool_decide (SF_Pattern f = EmptyString)); [done|]. destruct (maxPatternBytes <? String.length (SF_Pattern f))%nat; [done|]. 
    destruct (compileMatchPattern MatchModeRegex (SF_Pattern f)) as [m|] eqn:Hm; [|done]. intros _. cbn in Hm.
    destruct (flags_compile _ _ Hm) as [m2 Hm2]. exists (m2, SF_Weight f). unfold compose, compile_format. by rewrite Hm2. }
  destruct Hs as [formats ->]. by eexists.
Qed.
End Validated.

(** * The evaluation of a rule decides every item

    Runs of [Evaluate] over a state that answers, what its decisions say, and
    the blank entry that validation lets through. *)

(** ** Commands that end in a value *)

Definition decides {E A} (o : oracle) (m : M E A) (Q : A -> Prop) : Prop := forall w, exists x, (m o w).1 = inr x /\ Q x.

Section Decides.
Context {E : Type} {o : oracle}.
Lemma decides_ret {A} (x : A) (Q : A -> Prop) : Q x -> decides o (mret x : M E A) Q.
Proof. intros Hx w. by exists x. Qed.
Lemma decides_bind {A B} (m : M E A) (k : A -> M E B) Q1 (Q : B -> Prop) :
  decides o m Q1 -> (forall x, Q1 x -> decides o (k x) Q) -> decides o (m ≫= k) Q.
Proof.
  intros Hm Hk w. rewrite bind_run. destruct (Hm w) as (x & Hx & HQ). destruct (m o w) as [r w']. simpl in Hx. subst r. by apply Hk.
Qed.
Lemma decides_weaken {A} (m : M E A) (Q Q' : A -> Prop) : decides o m Q -> (forall x, Q x -> Q' x) -> decides o m Q'.
Proof. intros Hm HQ w. destruct (Hm w) as (x & Hx & Hq). exists x. auto. Qed.
Lemma decides_then {A B} (m : M E A) (k : A -> M E B) (Q : B -> Prop) :
  decides o m (fun _ => True) -> (forall x, decides o (k x) Q) -> decides o (m ≫= k) Q.
Proof. intros Hm Hk. eapply decides_bind; [exact Hm|]. intros x _. apply Hk. Qed.
End Decides.

(** A state that answers every question, over a driver. *)
Record answering {E} (o : oracle) (st : State E) : Prop := {
  ans_hash h : decides o (HasInfoHash st h) (fun _ => True);
  ans_seen r k : decides o (SeenEpisode st r k) (fun _ => True);
  ans_best k : decides o (BestScoreForContentKey st k) (fun _ => True) }.

Lemma stateless_answers E o : answering o (StatelessState E).
Proof. split; intros; by apply decides_ret. Qed.

Section Items.
Context `{!FoldTable} `{!Regexp} `{!UnicodeTables} (ParseFloat : list Z -> option spec_float) (Parse_RFC3339 : string -> option Z).
Context {E : Type} (o : oracle) (st : State E) (Hst : answering o st) (url_Parse : list Z -> option url).

(** What a verdict says of its item: a decision names it, and is matched
    exactly when there is a candidate. *)
Definition about (p : row FeedItem) (v : verdict) : Prop :=
  match v with
  | Dropped => True
  | Rejected d => ItemID d = p.1 /\ Matched d = false /\ is_Some (DReason d)
  | Accepted d c => ItemID d = p.1 /\ Matched d = true /\ DReason d = None /\ C_Item c = p /\ Score d = C_Score c
  end.
Lemma about_reject p s r : about p (reject p s r).
Proof. split_and!; [done|done|by eexists]. Qed.

Section One.
Context (e : ruleEval) (p : row FeedItem) (feed : FeedRef).

Lemma unseen_decides l : decides o (unseen st e l) (fun _ => True).
Proof.
  induction l as [|v l IH]; simpl; [by apply decides_ret|]. apply decides_then; [apply Hst|]. intros seen.
  apply decides_then; [apply IH|]. intros. by apply decides_ret.
Qed.
Lemma episode_decides i : decides o (episode_step st e i) (fun _ => True).
Proof.
  unfold episode_step. destruct (smart e); cbn [negb]; [|by apply decides_ret]. destruct (SmartKey _) as [key|]; [|by apply decides_ret].
  apply decides_then; [apply Hst|]. intros seen. destruct (negb seen); [by apply decides_ret|]. destruct (negb (allowRep e)); [by apply decides_ret|].
  destruct (RepackVariants _ _) as [|v l]; [by apply decides_ret|]. apply decides_then; [apply unseen_decides|]. intros [|]; by apply decides_ret.
Qed.

Context (Hurl : is_Some (I_DownloadURL p.2)).
Lemma dedup_decides haystack matchedBy highlight : decides o (dedup_steps st e url_Parse p feed haystack matchedBy highlight) (about p).
Proof.
  unfold dedup_steps. apply decides_then; [apply episode_decides|]. intros [r|[key staged]]; [apply decides_ret, about_reject|].
  apply decides_then.
  { unfold hash_step. destruct (some_text _); [|by apply decides_ret]. apply decides_then; [apply Hst|]. intros. by apply decides_ret. }
  intros [r|]; [apply decides_ret, about_reject|]. apply decides_then.
  { unfold content_step. apply decides_then; [apply Hst|]. intros. by apply decides_ret. }
  intros [r|]; [apply decides_ret, about_reject|]. destruct (score_reason e _); [apply decides_ret, about_reject|].
  unfold collect. destruct Hurl as [raw ->]. apply decides_ret. destruct (Normalize _ _) as [n|]; [|done]. by destruct (Router.Route _ _).
Qed.

Context (Htok : Forall (fun c => tokens c <> []) (anyOf e)).
Lemma text_decides : decides o (text_steps st e url_Parse p feed) (about p).
Proof.
  unfold text_steps. destruct (excluded e _); [apply decides_ret, about_reject|].
  assert (Hgo : forall by_ h, decides o (match size_reason e p.2 with Some r => mret (reject p 0 r) | None =>
    match filter_reason e p.2 with Some r => mret (reject p 0 r) | None => dedup_steps st e url_Parse p feed
      (buildHaystack (I_Title p.2) (MFields (D_Match (e_doc e)))) by_ h end end) (about p)).
  { intros. destruct (size_reason e p.2); [apply decides_ret, about_reject|]. destruct (filter_reason e p.2); [apply decides_ret, about_reject|]. apply dedup_decides. }
  destruct (bool_decide (anyOf e = [])); [apply Hgo|]. destruct (matchAny _ _) as [[i c]|] eqn:Hm; [|apply decides_ret, about_reject].
  assert (Hc : c ∈ anyOf e).
  { unfold matchAny, first_clause in Hm. apply head_Some_elem_of, elem_of_filter_bool in Hm as [_ Hm].
    apply list_elem_of_lookup in Hm as [j Hj]. apply lookup_zip_with_Some in Hj as (x & y & [= -> ->] & _ & Hy). by eapply list_elem_of_lookup_2. }
  apply decides_then; [|intros; apply Hgo]. eapply list.Forall_forall in Htok; [|exact Hc]. unfold highlight_of.
  destruct (tokens c); [done|]. by apply decides_ret.
Qed.
Lemma item_decides : decides o (evaluateItem st e url_Parse p feed) (about p).
Proof.
  unfold evaluateItem. destruct (cooldown_reason e p.2); [apply decides_ret, about_reject|]. destruct (below_floor e p.2); [by apply decides_ret|]. apply text_decides.
Qed.
End One.

(** ** A pass *)

(** The decisions name distinct items in their order; the matched ones are
    the candidates'. *)
Definition reports (items : list (row FeedItem)) (r : list RssMatch.Decision * list Candidate) : Prop :=
  (ItemID <$> r.1) `sublist_of` items.*1 /\ (ItemID <$> List.filter Matched r.1) = (C_Item <$> r.2).*1 /\
  (Score <$> List.filter Matched r.1) = (C_Score <$> r.2) /\ (C_Item <$> r.2) `sublist_of` items.

Lemma reports_more seen p ds cs v : about p v -> reports seen (ds, cs) ->
  reports (seen ++ [p]) match v with Dropped => (ds, cs) | Rejected d => (ds ++ [d], cs) | Accepted d c => (ds ++ [d], cs ++ [c]) end.
Proof.
  unfold reports. cbn [fst snd]. intros Hv (Hsub & Hids & Hsc & Hcs). destruct v as [|d|d c]; cbn [fst snd about] in *.
  - split_and!; [rewrite fmap_app; by apply sublist_inserts_r|done|done|by apply sublist_inserts_r].
  - destruct Hv as (Hi & Hm & _). rewrite !fmap_app, List.filter_app. simpl. rewrite Hm, app_nil_r. split_and!; [|done..|by apply sublist_inserts_r].
    rewrite Hi. by apply sublist_app.
  - destruct Hv as (Hi & Hm & _ & Hc & Hs). rewrite !fmap_app, List.filter_app. simpl. rewrite Hm, !fmap_app. simpl. rewrite Hi, Hc, Hs, Hids, Hsc.
    split_and!; [by apply sublist_app|done|done|by apply sublist_app].
Qed.

Lemma loop_decides e doc byID items seen ds cs : Forall (fun c => tokens c <> []) (anyOf e) ->
  Forall (fun p => is_Some (I_DownloadURL p.2)) items -> reports seen (ds, cs) ->
  decides o (evaluate_loop st url_Parse e doc byID items ds cs) (reports (seen ++ items)).
Proof.
  intros Ht Hu. revert seen ds cs. induction Hu as [|p items Hp Hu IH]; intros seen ds cs Hr; cbn [evaluate_loop].
  - rewrite app_nil_r. by apply decides_ret.
  - rewrite cons_middle, (assoc_L app). destruct (negb (in_scope doc _)).
    { apply IH. by apply (reports_more seen p ds cs Dropped). }
    eapply decides_bind; [by apply item_decides|]. intros v Hv. pose proof (reports_more seen p ds cs v Hv Hr) as Hn. by destruct v; apply IH.
Qed.

(** The clauses of a prepared document have tokens, blank entries aside. *)
Definition blank (entry : string) : Prop := Fields (bytes_of entry) = [].
Lemma clause_tokens mode entry cs tok c : ~ blank entry -> compileClause mode entry cs tok = Some c -> tokens c <> [].
Proof.
  unfold compileClause, blank. intros Hb Hc. apply bind_Some in Hc as (ts & Hts & [= <-]). simpl. apply mapM_Some in Hts.
  destruct (tok && _); [|by inversion Hts]. destruct (Fields (bytes_of entry)); [done|]. by inversion Hts.
Qed.
Lemma prepared_tokens doc rule e : newRuleEval ParseFloat Parse_RFC3339 doc rule = Some e -> Forall (fun entry => ~ blank entry) (AnyOf (D_Match doc)) ->
  Forall (fun c => tokens c <> []) (anyOf e).
Proof.
  unfold newRuleEval. destruct (negb _); [done|]. intros He Hb. apply bind_Some in He as (none & _ & He). apply bind_Some in He as (any & Hany & He).
  repeat (apply bind_Some in He as (? & _ & He)). injection He as <-. simpl. apply mapM_Some in Hany.
  clear -Hany Hb. induction Hany as [|entry c l k Hc Hl IH]; [constructor|]. apply list.Forall_cons in Hb as [Hn Hb].
  constructor; [by eapply clause_tokens|by apply IH].
Qed.

Lemma validated_decides doc rule items byID : (forall p m, regexp_Compile p = Some m -> is_Some (regexp_Compile ("(?i)" +:+ p))) ->
  Validate ParseFloat Parse_RFC3339 doc = [] -> Forall (fun entry => ~ blank entry) (AnyOf (D_Match doc)) ->
  Forall (fun p => is_Some (I_DownloadURL p.2)) items ->
  decides o (Evaluate ParseFloat Parse_RFC3339 st url_Parse doc rule items byID) (reports items).
Proof.
  intros Hflags Hv Hb Hu. unfold Evaluate. destruct (validated_prepares ParseFloat Parse_RFC3339 Hflags doc rule Hv) as [e He]. rewrite He.
  apply (loop_decides e doc byID items [] [] []); [by eapply prepared_tokens|done|]. split_and!; [apply sublist_nil_l|done|done|apply sublist_nil_l].
Qed.
End Items.
