(* ===== verification/RssGrabProps.v ===== *)
(** * What a rule has grabbed stays grabbed

    The invariant behind the dedup ladder of [rss/grab.go]: every pair of a
    rule and an item that was handed over is blocked - by its info hash, its
    seen episode or its stored score - and no write of a run lifts a block.
    The creator is wrapped so that it logs what it accepted. *)

From Stdlib Require Import SpecFloat.
From stdpp Require Import fin_maps.
From S2P Require Import Prelude GoStrings TaskState Schema Lease World Frame Engine SafePath SafeJoin Manifest Archive Regex Uri RssDoc RssStore RssMatch RssGrab RssResolve RssEvalProps.

Open Scope Z_scope.

(** ** Runs of commands *)

Lemma bind_ok {E A B} (m : M E A) (k : A -> M E B) o w y w' : (m ≫= k) o w = (inr y, w') ->
  exists x w1, m o w = (inr x, w1) /\ k x o w1 = (inr y, w').
Proof. rewrite bind_run. destruct (m o w) as [[e|x] w1]; [done|]. intros Hk. by exists x, w1. Qed.
Lemma bind_any {E A B} (m : M E A) (k : A -> M E B) o w r w' : (m ≫= k) o w = (r, w') ->
  (exists e, m o w = (inl e, w') /\ r = inl e) \/ exists x w1, m o w = (inr x, w1) /\ k x o w1 = (r, w').
Proof. rewrite bind_run. destruct (m o w) as [[e|x] w1]; [intros [= <- <-]; left; by exists e|]. intros Hk. right. by exists x, w1. Qed.

(** ** A creator that keeps a log *)

#[export] Instance logged {R} `{!TaskCreator R} : TaskCreator (R * list (string * string)) := {|
  CreateForRule g x := let (r, y) := CreateForRule g x.1 in
    (r, (y, match r with inr _ => x.2 ++ [(G_RuleID g, G_FeedItemID g)] | inl _ => x.2 end));
  holds_v1 x h := holds_v1 x.1 h; holds_v2 x h := holds_v2 x.1 h; task_row x id := task_row x.1 id |}.

Section History.
Context {R : Type} `{!TaskCreator R}.
(** A task it created is a row. *)
Hypothesis created_is_row : forall g x id y, CreateForRule g x = (inr id, y) -> task_row y id = true.
Context `{!FoldTable} `{!Regexp} `{!UnicodeTables} (ParseFloat : list Z -> option spec_float) (Parse_RFC3339 : string -> option Z)
  (url_Parse : list Z -> option url) (json_Unmarshal : string -> option RuleDoc).
Abbreviation state := (rss (R * list (string * string))).
Abbreviation M := (M state).
Abbreviation world := (world state).
Implicit Types (w : world) (d : rssdb) (log : list (string * string)).

Definition log_of w : list (string * string) := (outside (w_eng w)).2.

(** ** Blocks *)

Definition doc_of (json : string) : option RuleDoc := ApplyDefaults <$> json_Unmarshal json.
Definition rule_doc d (r : string) : option RuleDoc := rules d !! r ≫= fun rule => doc_of (R_DefinitionJSON rule).
Definition is_smart (doc : RuleDoc) : bool := from_option Smart false (D_Episode doc).
Definition allows (doc : RuleDoc) : bool := from_option (fun e => default true (AllowRepackProper e)) false (D_Episode doc).
Definition clauses_of (doc : RuleDoc) : option (list (matcher * Z)) :=
  from_option (fun s => mapM compile_format (Formats s)) (Some []) (D_Score doc).
Definition score_for (doc : RuleDoc) (i : FeedItem) : Z :=
  score_of (default [] (clauses_of doc)) (buildHaystack (I_Title i) (or_title (MFields (D_Match doc)))).

Definition reads_as_taken d (r : string) (doc : RuleDoc) (i : FeedItem) : Prop :=
  (exists h, some_text (I_InfoHash i) = Some h /\ count_hash h d = true) \/
  (if is_smart doc then exists key, SmartKey (bytes_of (I_Title i)) = Some key /\ is_Some (rule_seen_episodes d !! (r, key))
   else exists best, best_sent (contentKeyFor r EmptyString i) d = Some best /\ score_for doc i <= best).
Definition blocked d (k : string * string) : Prop :=
  forall doc i, rule_doc d k.1 = Some doc -> feed_items d !! k.2 = Some i -> reads_as_taken d k.1 doc i.

(** The rows of a pair, and the pairs that were handed over. *)
Definition pair_of (m : RuleMatch) (k : string * string) : Prop := M_RuleID m = Some k.1 /\ M_FeedItemID m = Some k.2.
Definition spent (m : RuleMatch) : Prop := M_Status m = matchSent \/ M_InfoHash m <> None.
Definition held d log (k : string * string) : Prop :=
  k ∈ log \/ exists id m, rule_matches d !! id = Some m /\ pair_of m k /\ spent m.

(** What the passes are run on: REPACK releases are not re-grabbed by any rule, and
    no item carries an empty hash. *)
Record plain_rules d : Prop := {
  pr_quiet r doc : rule_doc d r = Some doc -> is_smart doc = false \/ allows doc = false;
  pr_hash id i : feed_items d !! id = Some i -> I_InfoHash i <> Some EmptyString }.
Record settled d log : Prop := {
  st_blocked k : held d log k -> blocked d k;
  st_once : NoDup log }.

(** ** What a run may change *)

Record grows d d' : Prop := {
  gr_docs : R_DefinitionJSON <$> rules d' = R_DefinitionJSON <$> rules d;
  gr_items : feed_items d' = feed_items d;
  gr_hash h : count_hash h d = true -> count_hash h d' = true;
  gr_seen k : is_Some (rule_seen_episodes d !! k) -> is_Some (rule_seen_episodes d' !! k);
  gr_best k best : best_sent k d = Some best -> exists b, best_sent k d' = Some b /\ best <= b }.

#[global] Instance grows_pre : PreOrder grows.
Proof.
  split.
  - intros d. split; try done. intros k best Hb. exists best. split; [done|lia].
  - intros a b c [A1 A2 A3 A4 A5] [B1 B2 B3 B4 B5]. split; [congruence|congruence|auto|auto|].
    intros k best (x & Hx & Hle)%A5. apply B5 in Hx as (y & Hy & Hle'). exists y. split; [done|lia].
Qed.

Lemma grows_doc d d' r : grows d d' -> rule_doc d' r = rule_doc d r.
Proof.
  intros Hg. unfold rule_doc. pose proof (gr_docs _ _ Hg) as Hd. apply (f_equal (lookup r)) in Hd. rewrite !lookup_fmap in Hd.
  destruct (rules d' !! r), (rules d !! r); simpl in *; congruence.
Qed.
Lemma grows_blocked d d' k : grows d d' -> blocked d k -> blocked d' k.
Proof.
  intros Hg Hb doc i. rewrite (grows_doc d d') by done. rewrite (gr_items _ _ Hg). intros Hd Hi.
  destruct (Hb doc i Hd Hi) as [(h & Hh & Hc)|Hs]; [left; exists h; split; [done|by apply Hg]|right].
  destruct (is_smart doc).
  - destruct Hs as (key & Hk & Hs). exists key. split; [done|by apply Hg].
  - destruct Hs as (best & Hs & Hle). apply Hg in Hs as (b & Hs & Hle'). exists b. split; [done|lia].
Qed.
Lemma grows_plain d d' : grows d d' -> plain_rules d -> plain_rules d'.
Proof.
  intros Hg [P1 P2]. split.
  - intros r doc. rewrite (grows_doc d d') by done. apply P1.
  - intros id i. rewrite (gr_items _ _ Hg). apply P2.
Qed.

(** The reads of [dbState] in terms of the rows. *)
Lemma count_hash_spec h d : count_hash h d = true <-> exists id m, rule_matches d !! id = Some m /\ M_InfoHash m = Some h.
Proof.
  unfold count_hash. rewrite existsb_exists. split.
  - intros ([id m] & Hin%list_elem_of_In%elem_of_map_to_list & Hh%bool_decide_eq_true). by exists id, m.
  - intros (id & m & Hm & Hh). exists (id, m). split; [by apply list_elem_of_In, elem_of_map_to_list|by apply bool_decide_eq_true].
Qed.

Lemma best_fold l : match fold_right (fun s best => Some (match best with Some b => Z.max s b | None => s end)) None l with
  | Some b => b ∈ l /\ forall s, s ∈ l -> s <= b | None => l = [] end.
Proof.
  induction l as [|s l IH]; [done|]. simpl. destruct (fold_right _ None l) as [b|].
  - destruct IH as [Hb Hmax]. split.
    + destruct (Z.max_spec s b) as [[_ ->]|[_ ->]]; [by right|by left].
    + intros x [->|Hx]%list.elem_of_cons; [lia|]. specialize (Hmax x Hx). lia.
  - subst l. split; [by left|]. intros x [->|Hx]%list.elem_of_cons; [lia|by apply not_elem_of_nil in Hx].
Qed.
Definition sent_for (key : string) (s : Z) d : Prop :=
  exists id m, rule_matches d !! id = Some m /\ M_Status m = matchSent /\ M_ContentKey m = key /\ M_Score m = s.
Lemma best_sent_spec key d : match best_sent key d with
  | Some b => sent_for key b d /\ forall s, sent_for key s d -> s <= b | None => forall s, ~ sent_for key s d end.
Proof.
  unfold best_sent. set (l := omap _ _).
  assert (Hl : forall s, s ∈ l <-> sent_for key s d).
  { intros s. unfold l, sent_for. rewrite list_elem_of_omap. split.
    - intros ([id m] & Hin%elem_of_map_to_list & Hs). simpl in Hs. destruct (_ && _) eqn:Hb; [|done]. apply andb_true_iff in Hb as [Hk%bool_decide_eq_true Hst%bool_decide_eq_true].
      injection Hs as <-. by exists id, m.
    - intros (id & m & Hm & Hst & Hk & Hs). exists (id, m). split; [by apply elem_of_map_to_list|]. simpl. by rewrite !bool_decide_true, Hs. }
  pose proof (best_fold l) as Hb. destruct (fold_right _ None l) as [b|].
  - destruct Hb as [Hb Hmax]. split; [by apply Hl|]. intros s Hs. by apply Hmax, Hl.
  - intros s Hs%Hl. rewrite Hb in Hs. by apply not_elem_of_nil in Hs.
Qed.
Lemma best_sent_grows d d' : (forall key s, sent_for key s d -> exists s', s <= s' /\ sent_for key s' d') ->
  forall key best, best_sent key d = Some best -> exists b, best_sent key d' = Some b /\ best <= b.
Proof.
  intros Hs key best Hb. pose proof (best_sent_spec key d) as Hb1. rewrite Hb in Hb1. destruct Hb1 as [Hb1 _].
  apply Hs in Hb1 as (s' & Hle & Hb1). pose proof (best_sent_spec key d') as Hb2. destruct (best_sent key d') as [b|].
  - destruct Hb2 as [_ Hb2]. exists b. split; [done|]. specialize (Hb2 s' Hb1). lia.
  - by apply Hb2 in Hb1.
Qed.

(** A rewrite of rows that keeps what was sent. *)
Lemma grows_rows d t : (forall id m, rule_matches d !! id = Some m -> spent m -> exists m', t !! id = Some m' /\
    (M_InfoHash m <> None -> M_InfoHash m' = M_InfoHash m) /\
    (M_Status m = matchSent -> M_Status m' = matchSent /\ M_ContentKey m' = M_ContentKey m /\ M_Score m' = M_Score m)) ->
  grows d (set_matches t d).
Proof.
  intros Ht. split; try done.
  - intros h. rewrite !count_hash_spec. intros (id & m & Hm & Hh). destruct (Ht id m Hm) as (m' & Hm' & Hk & _); [right; by rewrite Hh|].
    exists id, m'. split; [done|]. rewrite Hk; [done|by rewrite Hh].
  - apply best_sent_grows. intros key s (id & m & Hm & Hs & Hk & Hsc). destruct (Ht id m Hm) as (m' & Hm' & _ & Hs'); [by left|].
    destruct (Hs' Hs) as (? & ? & ?). exists s. split; [lia|]. exists id, m'. split_and!; [done|done|congruence|congruence].
Qed.

(** Writes that spend no row. *)
Record quietly d d' : Prop := {
  qt_grows : grows d d';
  qt_spent id m : rule_matches d' !! id = Some m -> spent m -> rule_matches d !! id = Some m }.
#[global] Instance quietly_pre : PreOrder quietly.
Proof.
  split; [by intros d; split; [reflexivity|]|]. intros a b c [A1 A2] [B1 B2].
  split; [by etransitivity|by intros id m Hm Hs; apply A2; [apply B2|]].
Qed.
Lemma quietly_held d d' log k : quietly d d' -> held d' log k -> held d log k.
Proof. intros Hq [Hl|(id & m & Hm & Hp & Hs)]; [by left|right]. exists id, m. split_and!; [by eapply qt_spent|done|done]. Qed.
Lemma quietly_settled d d' log : quietly d d' -> settled d log -> settled d' log.
Proof. intros Hq [S1 S2]. split; [|done]. intros k Hk. eapply grows_blocked; [by apply Hq|]. apply S1. by eapply quietly_held. Qed.

(** ** The statements of a grab *)

Lemma of_pair_spec r i m : of_pair r i m = true <-> pair_of m (r, i).
Proof. unfold of_pair, pair_of. by rewrite andb_true_iff, !bool_decide_eq_true. Qed.

Definition pair_free d (k : string * string) : Prop := forall id m, rule_matches d !! id = Some m -> pair_of m k -> ~ spent m.
Lemma unheld_free d log k : ~ held d log k -> pair_free d k.
Proof. intros Hk id m Hm Hp Hs. apply Hk. right. by exists id, m. Qed.

Lemma restage_quiet d r i s c now d' k : pair_free d (r, i) -> s <> matchSent ->
  update_matches (of_pair r i) (restaged s c now) d = Some (d', k) -> quietly d d'.
Proof.
  intros Hfree Hs [= <- _]. split; [|intros id m; simpl].
  - apply grows_rows. intros id m Hm Hsp. exists m. rewrite lookup_fmap, Hm. simpl. destruct (of_pair r i m) eqn:Hp; [|done].
    apply of_pair_spec in Hp. by destruct (Hfree id m Hm Hp).
  - rewrite lookup_fmap. destruct (rule_matches d !! id) as [m0|] eqn:Hm; [|done]. simpl. destruct (of_pair r i m0); [|by intros [= ->]].
    intros [= <-] [Hsp|Hsp]; simpl in Hsp; done.
Qed.
Lemma insert_quiet d id r s c now d' k : s <> matchSent -> insert_match id r s c now d = Some (d', k) ->
  quietly d d' /\ rule_matches d' !! id = Some (new_match r s c now).
Proof.
  unfold insert_match. intros Hs. destruct (_ || _ || _) eqn:Hb; [done|]. apply orb_false_iff in Hb as [[Hb _]%orb_false_iff _].
  apply bool_decide_eq_false in Hb. assert (Hn : rule_matches d !! id = None) by by destruct (rule_matches d !! id); [destruct Hb|].
  intros [= <- _]. split; [|by simpl; rewrite lookup_insert_eq]. split; [|intros id' m; simpl].
  - apply grows_rows. intros id' m Hm _. exists m. rewrite lookup_insert_ne by congruence. done.
  - destruct (decide (id' = id)) as [->|Hne]; [|by rewrite lookup_insert_ne]. rewrite lookup_insert_eq. intros [= <-] [Hsp|Hsp]; simpl in Hsp; done.
Qed.
Lemma failed_quiet d id reason now d' k m : rule_matches d !! id = Some m -> ~ spent m -> mark_failed id reason now d = Some (d', k) -> quietly d d'.
Proof.
  unfold mark_failed, update_row. intros Hm Hsp. rewrite Hm. intros [= <- _]. split; [|intros id' m'; simpl].
  - apply grows_rows. intros id' m' Hm' Hs'. exists m'. rewrite lookup_insert_ne by congruence. done.
  - destruct (decide (id' = id)) as [->|Hne]; [|by rewrite lookup_insert_ne]. rewrite lookup_insert_eq. intros [= <-] [Hs'|Hs']; [done|].
    destruct Hsp. by right.
Qed.

(** The row a staging write leaves. *)
Definition staged_row (r i : string) (s : match_status) (c : Candidate) (m : RuleMatch) : Prop :=
  pair_of m (r, i) /\ M_Status m = s /\ M_InfoHash m = None /\ M_ContentKey m = C_ContentKey c /\ M_Score m = C_Score c.
Lemma staged_unspent r i s c m : s <> matchSent -> staged_row r i s c m -> ~ spent m.
Proof. intros Hs (_ & Hst & Hh & _) [Hsp|Hsp]; congruence. Qed.

Lemma restage_row d r i s c now d' k : update_matches (of_pair r i) (restaged s c now) d = Some (d', k) -> 0 < k ->
  exists id m, match_id r i d' = Some id /\ rule_matches d' !! id = Some m /\ staged_row r i s c m.
Proof.
  intros [= <- <-] Hk. unfold match_id. simpl.
  destruct (List.filter _ (map_to_list _)) as [|[id m] l] eqn:Hl.
  - exfalso. assert (Hsz : (size (filter (fun p : string * RuleMatch => of_pair r i p.2 = true) (rule_matches d)) <> 0)%nat) by lia.
    apply Hsz, map_size_empty_iff, map_empty. intros id. apply map_lookup_filter_None. right. intros m Hm Hp.
    assert (Hin : (id, restaged s c now m) ∈ List.filter (fun p : string * RuleMatch => of_pair r i p.2)
      (map_to_list ((fun m => if of_pair r i m then restaged s c now m else m) <$> rule_matches d))).
    { apply elem_of_filter_bool. split; [by apply of_pair_spec in Hp; apply of_pair_spec|]. apply elem_of_map_to_list.
      rewrite lookup_fmap, Hm. simpl in *. by rewrite Hp. }
    rewrite Hl in Hin. by apply not_elem_of_nil in Hin.
  - exists id, m. split; [done|]. assert (Hin : (id, m) ∈ (id, m) :: l) by by left. rewrite <- Hl in Hin. apply elem_of_filter_bool in Hin as [Hp Hin].
    apply elem_of_map_to_list in Hin. split; [done|]. rewrite lookup_fmap in Hin. destruct (rule_matches d !! id) as [m0|]; [|done]. simpl in *.
    destruct (of_pair r i m0) eqn:Hp0; injection Hin as <-; [|congruence]. apply of_pair_spec in Hp. split_and!; try done; apply Hp.
Qed.
End History.

(** * A run grabs nothing twice

    The invariant of [RssGrabProps] along the commands of a pass: staging,
    the hand-over, the two ways a grab ends, and the passes that evaluate and
    commit rule after rule. *)

(** ** Statements over a driver that answers *)

Section Driver.
Context {R : Type}.
Implicit Types w : world (rss R).

Lemma exec_io o w q : io_ok o -> exec_rss q o w = match q (rss_tables w) with
  | Some (d, k) => (inr k, bump (put_tables d w)) | None => (inl ErrConstraint, bump w) end.
Proof. intros Ho. unfold exec_rss. rewrite Ho. by destruct (q _) as [[d k]|]. Qed.
Lemma query_io {A} o w (q : rssdb -> A) : io_ok o -> query_rss q o w = (inr (q (rss_tables w)), bump w).
Proof. intros Ho. unfold query_rss. by rewrite Ho. Qed.
Lemma tx_io {A} o w (body : M (rss R) A) : io_ok o -> with_rss_tx body o w =
  let w1 := bump (set_eng (MkRss (rss_committed (w_eng w)) (Some (rss_committed (w_eng w))) (outside (w_eng w))) w) in
  ((body o w1).1, leave_tx (rss_committed (w_eng (body o w1).2)) (body o w1).2).
Proof. intros Ho. unfold with_rss_tx, begin_rss, rss_rolled_back. rewrite bind_run, Ho. simpl. by destruct (body o _). Qed.

(** The state behind the interfaces after a write to the tables. *)
Definition with_tables (d : rssdb) (s : rss R) : rss R :=
  match rss_working s with Some _ => MkRss (rss_committed s) (Some d) (outside s) | None => MkRss d None (outside s) end.
Lemma eng_put d w : w_eng (put_tables d w) = with_tables d (w_eng w).
Proof. unfold put_tables, with_tables. by destruct (rss_working (w_eng w)). Qed.
Lemma seen_with d s : seen_tables (with_tables d s) = d.
Proof. unfold with_tables, seen_tables. by destruct (rss_working s) eqn:Hs. Qed.
Lemma with_with d d' s : with_tables d (with_tables d' s) = with_tables d s.
Proof. unfold with_tables. by destruct (rss_working s) eqn:Hs. Qed.
Lemma with_seen s : with_tables (seen_tables s) s = s.
Proof. unfold with_tables, seen_tables. by destruct s as [c [t|] x]. Qed.
Lemma outside_with d s : outside (with_tables d s) = outside s.
Proof. unfold with_tables. by destruct (rss_working s). Qed.
Lemma working_with d s : rss_working s = None -> with_tables d s = MkRss d None (outside s).
Proof. unfold with_tables. by intros ->. Qed.
End Driver.

#[local] Arguments put_tables : simpl never.
#[local] Arguments with_tables : simpl never.
#[local] Arguments seen_tables : simpl never.

Section Runs.
Context {R : Type} `{!TaskCreator R}.
Hypothesis created_is_row : forall g x id y, CreateForRule g x = (inr id, y) -> task_row y id = true.
Context `{!FoldTable} `{!Regexp} `{!UnicodeTables} (ParseFloat : list Z -> option spec_float) (Parse_RFC3339 : string -> option Z)
  (url_Parse : list Z -> option url) (json_Unmarshal : string -> option RuleDoc).
Abbreviation state := (rss (R * list (string * string))).
Abbreviation M := (M state).
Abbreviation world := (world state).
Implicit Types (w : world) (d : rssdb) (log : list (string * string)) (c : Candidate).

Definition row_here d (id : string) (P : RuleMatch -> Prop) : Prop := exists m, rule_matches d !! id = Some m /\ P m.

(** Staging a candidate whose pair was not handed over. *)
Lemma upsert_run o w r s c now : io_ok o -> s <> matchSent -> pair_free (seen_tables (w_eng w)) (r, (C_Item c).1) ->
  let (res, w') := upsertMatch r s c now o w in
  exists d', w_eng w' = with_tables d' (w_eng w) /\ quietly (seen_tables (w_eng w)) d' /\
    match res with inr id => row_here d' id (staged_row r (C_Item c).1 s c) | inl _ => d' = seen_tables (w_eng w) end.
Proof.
  intros Ho Hs Hfree. unfold upsertMatch. rewrite bind_run, exec_io by done.
  destruct (update_matches _ _ (rss_tables w)) as [[d1 k]|] eqn:Hu; [|done].
  pose proof (restage_quiet _ _ _ _ _ _ _ _ Hfree Hs Hu) as Hq. destruct (Z.ltb_spec 0 k) as [Hk|Hk].
  - destruct (restage_row _ _ _ _ _ _ _ _ Hu Hk) as (id & m & Hid & Hm & Hst).
    unfold found_row. rewrite bind_run, query_io by done. unfold rss_tables. cbn [w_eng bump]. rewrite eng_put, seen_with, Hid. cbn.
    exists d1. rewrite eng_put. split_and!; [done|done|by exists m].
  - assert (Hd1 : d1 = rss_tables w).
    { injection Hu as <- Hn. assert (Hz : filter (fun p : string * RuleMatch => of_pair r (C_Item c).1 p.2 = true) (rule_matches (rss_tables w)) = ∅).
      { apply map_size_empty_iff. lia. }
      unfold set_matches. destruct (rss_tables w) as [f i ru ma se]. simpl in *. f_equal. apply map_eq. intros id. rewrite lookup_fmap.
      destruct (ma !! id) as [m|] eqn:Hm; [|done]. simpl. destruct (of_pair r (C_Item c).1 m) eqn:Hp; [|done].
      assert (Hn' : filter (fun p : string * RuleMatch => of_pair r (C_Item c).1 p.2 = true) ma !! id = Some m) by by apply map_lookup_filter_Some.
      rewrite Hz in Hn'. done. }
    subst d1. rewrite bind_run. unfold NewID. cbn. rewrite bind_run, exec_io by done. unfold rss_tables. cbn [w_eng bump]. rewrite eng_put, seen_with.
    destruct (insert_match _ _ _ _ _ _) as [[d2 n]|] eqn:Hi; cbn.
    + apply insert_quiet in Hi as [Hq2 Hm]; [|done]. exists d2. rewrite !eng_put. cbn. rewrite eng_put, with_with. split_and!; [done|done|]. by exists (new_match r s c now).
    + exists (seen_tables (w_eng w)). rewrite eng_put. by split_and!.
Qed.

(** The row of a grab in its own transaction. *)
Lemma queue_run o w r c now : io_ok o -> rss_working (w_eng w) = None -> pair_free (rss_committed (w_eng w)) (r, (C_Item c).1) ->
  let (res, w') := queueMatch r c now o w in
  exists d', w_eng w' = MkRss d' None (outside (w_eng w)) /\ quietly (rss_committed (w_eng w)) d' /\
    match res with inr id => row_here d' id (staged_row r (C_Item c).1 matchQueued c) | inl _ => d' = rss_committed (w_eng w) end.
Proof.
  intros Ho Hw Hfree. unfold queueMatch. rewrite tx_io by done. cbv zeta. set (w1 := bump _).
  rewrite bind_run. pose proof (upsert_run o w1 r matchQueued c now Ho ltac:(done) Hfree) as Hup.
  destruct (upsertMatch _ _ _ _ o w1) as [[e|id] w2]; destruct Hup as (d1 & He & Hq & Hr); cbn.
  - rewrite He. cbn. exists (rss_committed (w_eng w)). by split_and!.
  - unfold commit_rss. rewrite bind_run. cbn. rewrite Ho. cbn. unfold rss_tables. rewrite He. cbn. exists d1. by split_and!.
Qed.

(** A grab that was refused. *)
Lemma fail_run o w id reason now m : io_ok o -> rss_working (w_eng w) = None -> rule_matches (rss_committed (w_eng w)) !! id = Some m -> ~ spent m ->
  exists d' w', failMatch id reason now o w = (inr tt, w') /\ w_eng w' = MkRss d' None (outside (w_eng w)) /\ quietly (rss_committed (w_eng w)) d'.
Proof.
  intros Ho Hw Hm Hsp. unfold failMatch. rewrite bind_run, exec_io by done. unfold rss_tables, seen_tables. rewrite Hw. cbn.
  destruct (mark_failed id reason now _) as [[d' k]|] eqn:Hf.
  - eexists d', _. split; [done|]. cbn. rewrite eng_put, working_with by done. split; [done|]. by eapply failed_quiet.
  - unfold mark_failed in Hf. by destruct (update_row _ _ _).
Qed.

(** The staged keys of a grab, inside its transaction. *)
Record keyed d d' (r : string) (keys : list string) : Prop := {
  ky_matches : rule_matches d' = rule_matches d; ky_rules : rules d' = rules d; ky_items : feed_items d' = feed_items d;
  ky_old k : is_Some (rule_seen_episodes d !! k) -> is_Some (rule_seen_episodes d' !! k);
  ky_new key : key ∈ keys -> is_Some (rule_seen_episodes d' !! (r, key)) }.
Lemma stage_run o w r now keys : io_ok o -> is_Some (rules (seen_tables (w_eng w)) !! r) ->
  exists d' w', stage_keys r now keys o w = (inr tt, w') /\ w_eng w' = with_tables d' (w_eng w) /\ keyed (seen_tables (w_eng w)) d' r keys.
Proof.
  intros Ho. revert w. induction keys as [|key keys IH]; intros w Hr; cbn [stage_keys].
  - exists (seen_tables (w_eng w)), w. rewrite with_seen. split_and!; [done|done|]. split; try done. by intros key ?%not_elem_of_nil.
  - rewrite bind_run, exec_io by done. unfold rss_tables. set (d := seen_tables (w_eng w)) in *.
    assert (Hi : exists d1 k, insert_seen r key now d = Some (d1, k) /\ keyed d d1 r [key]).
    { unfold insert_seen. destruct (rule_seen_episodes d !! (r, key)) as [t|] eqn:Hs.
      - exists d, 0. split; [done|]. split; try done. intros k ->%list_elem_of_singleton. by rewrite Hs.
      - rewrite bool_decide_false by by destruct Hr as [x ->]. eexists _, _. split; [done|]. split; try done; simpl.
        + intros k Hk. destruct (decide (k = (r, key))) as [->|Hne]; [by rewrite Hs in Hk; destruct Hk|by rewrite lookup_insert_ne].
        + intros k ->%list_elem_of_singleton. by rewrite lookup_insert_eq. }
    destruct Hi as (d1 & k & -> & [K1 K2 K3 K4 K5]). cbn.
    assert (Heng : w_eng (bump (put_tables d1 w)) = with_tables d1 (w_eng w)) by apply eng_put.
    destruct (IH (bump (put_tables d1 w))) as (d2 & w2 & Hrun & He & [L1 L2 L3 L4 L5]); [by rewrite Heng, seen_with, K2|].
    rewrite Heng, with_with in He. rewrite Heng, seen_with in L1, L2, L3, L4. exists d2, w2. split; [exact Hrun|]. split; [done|].
    split; [congruence|congruence|congruence|auto|]. intros k' [->|Hk]%list.elem_of_cons; [|by apply L5]. apply L4, K5. by left.
Qed.

(** The rows of a grab that was accepted. *)
Definition sent_facts (r i : string) (c : Candidate) (m : RuleMatch) : Prop :=
  pair_of m (r, i) /\ M_Status m = matchSent /\ M_InfoHash m = I_InfoHash (C_Item c).2 /\ M_ContentKey m = C_ContentKey c /\ M_Score m = C_Score c.
Record sends d d' (r i id : string) (c : Candidate) : Prop := {
  sd_grows : grows d d'; sd_rules : rules d' = rules d; sd_row : row_here d' id (sent_facts r i c);
  sd_other id' m : id' <> id -> rule_matches d' !! id' = Some m -> rule_matches d !! id' = Some m;
  sd_keys key : key ∈ stagedKeys c -> is_Some (rule_seen_episodes d' !! (r, key)) }.

Lemma marked_sends d id taskID r i c now m d1 k d2 : rule_matches d !! id = Some m -> staged_row r i matchQueued c m ->
  mark_sent id taskID true (I_InfoHash (C_Item c).2) now d = Some (d1, k) -> keyed d1 d2 r (stagedKeys c) -> sends d d2 r i id c.
Proof.
  unfold mark_sent, update_row. intros Hm Hst. rewrite Hm. destruct (_ && _); [done|]. intros [= <- _] [K1 K2 K3 K4 K5]. simpl in *.
  destruct Hst as (Hp & Hs & Hh & Hk & Hsc).
  split; [|done|exists (sent_row taskID (I_InfoHash (C_Item c).2) now m)|intros id' m' Hne; rewrite K1|done].
  - transitivity (set_matches (<[id:=sent_row taskID (I_InfoHash (C_Item c).2) now m]> (rule_matches d)) d).
    + apply grows_rows. intros id' m' Hm' Hsp. exists m'. destruct (decide (id' = id)) as [->|Hne]; [|by rewrite lookup_insert_ne].
      exfalso. simplify_eq. destruct Hsp; congruence.
    + split; simpl; [by rewrite K2|done| |done|].
      * intros h. rewrite !count_hash_spec. by rewrite K1.
      * apply best_sent_grows. unfold sent_for. rewrite K1. intros key sc Hx. exists sc. split; [lia|exact Hx].
  - rewrite K1, lookup_insert_eq. split; [done|]. by split_and!.
  - by rewrite lookup_insert_ne.
Qed.

Lemma send_run o w id r i taskID c now m : io_ok o -> rss_working (w_eng w) = None -> rule_matches (rss_committed (w_eng w)) !! id = Some m ->
  staged_row r i matchQueued c m -> task_row (outside (w_eng w)) taskID = true -> is_Some (rules (rss_committed (w_eng w)) !! r) ->
  let (res, w') := sendMatch id r c taskID now o w in
  exists d', w_eng w' = MkRss d' None (outside (w_eng w)) /\
    match res with
    | inr _ => sends (rss_committed (w_eng w)) d' r i id c
    | inl _ => d' = rss_committed (w_eng w) /\ exists h, I_InfoHash (C_Item c).2 = Some h /\ count_hash h d' = true
    end.
Proof.
  intros Ho Hw Hm Hst Hk Hr. unfold sendMatch. rewrite tx_io by done. cbv zeta. set (w1 := bump _).
  rewrite bind_run. unfold gets. cbn beta iota zeta. change (task_row (outside (w_eng w1)) taskID) with (task_row (outside (w_eng w)) taskID). rewrite Hk.
  rewrite bind_run, exec_io by done. change (rss_tables w1) with (rss_committed (w_eng w)).
  destruct (mark_sent id taskID true _ now _) as [[d1 k]|] eqn:Hs; cbn.
  - rewrite bind_run. destruct (stage_run o (bump (put_tables d1 w1)) r now (stagedKeys c) Ho) as (d2 & w2 & -> & He & Hkey).
    { change (w_eng (bump (put_tables d1 w1))) with (w_eng (put_tables d1 w1)). rewrite eng_put, seen_with. unfold mark_sent, update_row in Hs. rewrite Hm in Hs. destruct (_ && _); [done|]. by injection Hs as <- _. }
    change (w_eng (bump (put_tables d1 w1))) with (w_eng (put_tables d1 w1)) in He, Hkey. rewrite eng_put in He, Hkey. rewrite seen_with in Hkey.
    unfold commit_rss. rewrite Ho. cbn. exists d2. unfold rss_tables. rewrite He. split; [done|]. by eapply marked_sends.
  - exists (rss_committed (w_eng w)). split_and!; [done|done|]. unfold mark_sent in Hs. rewrite bool_decide_true in Hs by by exists m.
    simpl in Hs. destruct (hash_taken id (I_InfoHash (C_Item c).2) _) eqn:Ht; [|by destruct (update_row _ _ _)].
    unfold hash_taken in Ht. destruct (I_InfoHash (C_Item c).2) as [h|]; [|done]. exists h. split; [done|]. apply count_hash_spec.
    apply existsb_exists in Ht as ([id' m'] & Hin%list_elem_of_In%elem_of_map_to_list & Hh%bool_decide_eq_true). apply lookup_delete_Some in Hin as [_ Hin]. by exists id', m'.
Qed.

(** ** One candidate *)

Definition tbl w : rssdb := rss_committed (w_eng w).
Abbreviation settled := (settled json_Unmarshal).
Abbreviation blocked := (blocked json_Unmarshal).
Abbreviation plain_rules := (plain_rules json_Unmarshal).
Record ready w : Prop := {
  rd_idle : rss_working (w_eng w) = None; rd_plain : plain_rules (tbl w); rd_settled : settled (tbl w) (log_of w) }.
(** A candidate of the rule [r] the tables know, as an evaluation makes it. *)
Record fits d (r : string) (c : Candidate) : Prop := {
  ft_item : feed_items d !! (C_Item c).1 = Some (C_Item c).2;
  ft_doc : exists doc, rule_doc json_Unmarshal d r = Some doc /\ C_Score c = score_for doc (C_Item c).2 /\
    if is_smart doc then exists key, SmartKey (bytes_of (I_Title (C_Item c).2)) = Some key /\ key ∈ stagedKeys c
    else C_ContentKey c = contentKeyFor r EmptyString (C_Item c).2 }.
Definition key_of (r : string) (c : Candidate) : string * string := (r, (C_Item c).1).

(** What a step of a pass does: nothing is lifted, and only its own pairs are
    handed over. *)
Record advances w w' (ks : list (string * string)) : Prop := {
  ad_ready : ready w'; ad_grows : grows (tbl w) (tbl w');
  ad_held k : held (tbl w') (log_of w') k -> held (tbl w) (log_of w) k \/ k ∈ ks }.

Lemma advances_refl w : ready w -> advances w w [].
Proof. intros Hr. split; [done|reflexivity|by left]. Qed.
Lemma advances_trans w1 w2 w3 ks1 ks2 : advances w1 w2 ks1 -> advances w2 w3 ks2 -> advances w1 w3 (ks1 ++ ks2).
Proof.
  intros [A1 A2 A3] [B1 B2 B3]. split; [done|by etransitivity|]. intros k [Hk|Hk]%B3; [|right; apply elem_of_app; by right].
  destruct (A3 k Hk); [by left|right; apply elem_of_app; by left].
Qed.
Lemma advances_more w w' ks ks' : advances w w' ks -> ks ⊆ ks' -> advances w w' ks'.
Proof. intros [A1 A2 A3] Hs. split; [done|done|]. intros k Hk. destruct (A3 k Hk); [by left|right; set_solver]. Qed.

Lemma quiet_advances w w' : ready w -> w_eng w' = MkRss (tbl w') None (outside (w_eng w)) -> quietly (tbl w) (tbl w') -> advances w w' [].
Proof.
  intros [R1 R2 R3] He Hq. assert (Hl : log_of w' = log_of w) by (unfold log_of; by rewrite He).
  split; [|by apply Hq|intros k; rewrite Hl; intros Hk; left; by eapply quietly_held].
  split; [by rewrite He|by eapply grows_plain; [apply Hq|]|rewrite Hl; by eapply quietly_settled].
Qed.

Lemma fits_grows d d' r c : grows d d' -> fits d r c -> fits d' r c.
Proof. intros Hg [F1 F2]. split; [by rewrite (gr_items _ _ Hg)|]. by rewrite (grows_doc json_Unmarshal d d'). Qed.
Lemma fits_rule d r c : fits d r c -> is_Some (rules d !! r).
Proof. intros [_ (doc & Hd & _)]. unfold rule_doc in Hd. by destruct (rules d !! r). Qed.

(** A sent candidate is blocked; so is one whose hash is known. *)
Lemma sent_blocks d d' r id c : fits d r c -> sends d d' r (C_Item c).1 id c -> blocked d' (key_of r c).
Proof.
  intros [F1 (doc & Hd & Hsc & Hk)] [S1 S2 (m & Hm & Hp & Hst & Hh & Hck & Hs) S4 S5] doc' i. cbn [fst snd key_of].
  rewrite (grows_doc json_Unmarshal d d') by done. rewrite (gr_items _ _ S1). rewrite Hd, F1. intros [= <-] [= <-]. right.
  destruct (is_smart doc).
  - destruct Hk as (key & Hkey & Hin). exists key. split; [done|by apply S5].
  - pose proof (best_sent_spec (contentKeyFor r EmptyString (C_Item c).2) d') as Hb.
    assert (Hsf : sent_for (contentKeyFor r EmptyString (C_Item c).2) (C_Score c) d') by (exists id, m; split_and!; congruence).
    destruct (best_sent _ d') as [b|]; [|by apply Hb in Hsf]. exists b. split; [done|]. rewrite <- Hsc. by apply Hb.
Qed.
Lemma hash_blocks d r c h : plain_rules d -> fits d r c -> I_InfoHash (C_Item c).2 = Some h -> count_hash h d = true -> blocked d (key_of r c).
Proof.
  intros [_ P2] [F1 _] Hh Hc doc i _. cbn [fst snd key_of]. rewrite F1. intros [= <-]. left. exists h. split; [|done].
  unfold some_text. rewrite Hh. cbn. rewrite bool_decide_false; [done|]. intros ->. by eapply P2.
Qed.

Lemma create_run o w g : create g o w =
  let (r, y) := CreateForRule g (outside (w_eng w)).1 in
  (r, set_eng (MkRss (rss_committed (w_eng w)) (rss_working (w_eng w))
    (y, match r with inr _ => log_of w ++ [(G_RuleID g, G_FeedItemID g)] | inl _ => log_of w end)) w).
Proof. unfold create, log_of. cbn. by destruct (CreateForRule g (outside (w_eng w)).1). Qed.

Lemma handed_over w w' r c d1 id taskID now o : io_ok o -> ready w -> fits (tbl w) r c -> ~ held (tbl w) (log_of w) (key_of r c) ->
  quietly (tbl w) d1 -> row_here d1 id (staged_row r (C_Item c).1 matchQueued c) ->
  w_eng w' = MkRss d1 None (outside (w_eng w')) -> log_of w' = log_of w ++ [key_of r c] -> task_row (outside (w_eng w')) taskID = true ->
  advances w (sendMatch id r c taskID now o w').2 [key_of r c].
Proof.
  intros Ho Hrd Hf Hk Hq (m & Hm & Hst) He Hlog Htask. pose proof (rd_settled _ Hrd) as [Hbl Honce].
  assert (Hf1 : fits d1 r c) by (eapply fits_grows; [apply Hq|done]).
  assert (Hp1 : plain_rules d1) by (eapply grows_plain; [apply Hq|apply Hrd]).
  assert (Hw' : rss_committed (w_eng w') = d1) by by rewrite He.
  pose proof (send_run o w' id r (C_Item c).1 taskID c now m Ho ltac:(by rewrite He) ltac:(by rewrite Hw') Hst Htask ltac:(rewrite Hw'; by eapply fits_rule)) as Hsend.
  destruct (sendMatch id r c taskID now o w') as [res w2]. destruct Hsend as (d2 & He2 & Hres). rewrite Hw' in Hres. cbn [snd].
  assert (Hl2 : log_of w2 = log_of w ++ [key_of r c]) by (unfold log_of in *; by rewrite He2).
  assert (Ht2 : tbl w2 = d2) by (unfold tbl; by rewrite He2).
  assert (Hfacts : grows (tbl w) d2 /\ blocked d2 (key_of r c) /\
    forall k, held d2 (log_of w2) k -> held (tbl w) (log_of w) k \/ k = key_of r c).
  { rewrite Hl2. destruct res as [e|[]].
    - destruct Hres as [-> (h & Hh & Hc)]. split_and!; [apply Hq|by eapply hash_blocks|].
      intros k [[Hk1|Hk1]%elem_of_app|Hrow]; [by left; left|right; by apply list_elem_of_singleton in Hk1|].
      left. eapply (quietly_held (tbl w) d1); [done|by right].
    - split_and!; [etransitivity; [apply Hq|apply Hres]|by eapply sent_blocks|].
      intros k [[Hk1|Hk1]%elem_of_app|(id' & m' & Hm' & Hp & Hs)]; [by left; left|right; by apply list_elem_of_singleton in Hk1|].
      destruct (decide (id' = id)) as [->|Hne].
      + right. destruct (sd_row _ _ _ _ _ _ Hres) as (m2 & Hm2 & Hp2 & _). rewrite Hm2 in Hm'. injection Hm' as ->. destruct k as [k1 k2].
        destruct Hp as [P1 P2], Hp2 as [Q1 Q2]. cbn in *. unfold key_of. congruence.
      + left. eapply (quietly_held (tbl w) d1); [done|]. right. exists id', m'. split_and!; [by eapply sd_other|done|done]. }
  destruct Hfacts as (Hg & Hb & Hh). split; [|by rewrite Ht2|intros k; rewrite Ht2; intros Hk2; destruct (Hh k Hk2) as [?| ->]; [by left|right; by left]].
  split; [by rewrite He2|rewrite Ht2; by eapply grows_plain; [|apply Hrd]|rewrite Ht2]. split.
  - intros k Hk2. destruct (Hh k Hk2) as [Hold| ->]; [|done]. by eapply grows_blocked; [|apply Hbl].
  - rewrite Hl2. apply list.NoDup_app. split_and!; [done| |apply NoDup_singleton]. intros k Hin Hs%list_elem_of_singleton. subst k. apply Hk. by left.
Qed.

Lemma grab_run doc o w r c now : io_ok o -> ready w -> fits (tbl w) r c -> ~ held (tbl w) (log_of w) (key_of r c) ->
  advances w (grab doc r now c o w).2 [key_of r c].
Proof.
  intros Ho Hrd Hf Hk. unfold grab. rewrite bind_run.
  pose proof (queue_run o w r c now Ho (rd_idle _ Hrd) (unheld_free _ _ _ Hk)) as Hqueue.
  destruct (queueMatch r c now o w) as [[e|id] w1]; destruct Hqueue as (d1 & He1 & Hq & Hr).
  { cbn. eapply advances_more; [apply quiet_advances; [done|by unfold tbl; rewrite He1|by unfold tbl; rewrite He1]|set_solver]. }
  assert (Hw1 : advances w w1 []) by (apply quiet_advances; [done|by unfold tbl; rewrite He1|by unfold tbl; rewrite He1]).
  rewrite bind_run. unfold attempt. rewrite create_run.
  destruct (CreateForRule _ _) as [[e|taskID] y] eqn:Hc; cbn beta iota zeta.
  - rewrite bind_run. cbn. set (w2 := set_eng _ w1). destruct Hr as (m & Hm & Hst).
    assert (Hw2 : advances w1 w2 []).
    { destruct (ad_ready _ _ _ Hw1) as [R1 R2 R3]. split; [split; [by cbn|done|done]|reflexivity|by left]. }
    destruct (fail_run o w2 id (o_text o e) now m Ho) as (d3 & w3 & Hrun & He3 & Hq3).
    { cbn. by rewrite He1. }
    { cbn. by rewrite He1. }
    { by eapply staged_unspent; [|exact Hst]. }
    rewrite bind_run, Hrun. cbn. change [key_of r c] with ([] ++ [] ++ [key_of r c]). eapply advances_trans; [exact Hw1|]. eapply advances_trans; [exact Hw2|].
    eapply advances_more; [apply quiet_advances; [apply Hw2|by unfold tbl; rewrite He3|by unfold tbl; rewrite He3]|set_solver].
  - set (w2 := set_eng _ w1). rewrite bind_run.
    assert (Hlog : log_of w1 = log_of w) by (unfold log_of; by rewrite He1).
    assert (Hover : advances w (sendMatch id r c taskID now o w2).2 [key_of r c]).
    { apply (handed_over w w2 r c d1 id taskID now o Ho Hrd Hf Hk Hq Hr); [|by rewrite <- Hlog|by eapply created_is_row].
      unfold w2. cbn. by rewrite He1. }
    destruct (sendMatch id r c taskID now o w2) as [[e|[]] w3]; exact Hover.
Qed.

(** ** A run *)

(** The candidates of a rule before it commits: known items, distinct, none
    handed over yet. *)
Record fresh w (r : string) (cands : list Candidate) : Prop := {
  fr_fits : Forall (fits (tbl w) r) cands; fr_once : NoDup (key_of r <$> cands);
  fr_new c : c ∈ cands -> ~ held (tbl w) (log_of w) (key_of r c) }.

Lemma fresh_step w w' r cands ks : fresh w r cands -> advances w w' ks -> (forall c, c ∈ cands -> key_of r c ∉ ks) -> fresh w' r cands.
Proof.
  intros [F1 F2 F3] [A1 A2 A3] Hks. split; [|done|].
  - eapply list.Forall_impl; [exact F1|]. intros c. by apply fits_grows.
  - intros c Hc Hh. destruct (A3 _ Hh) as [Hh'|Hin]; [by eapply F3|by eapply Hks].
Qed.
Lemma fresh_tail w r c cands : fresh w r (c :: cands) -> fresh w r cands /\ forall c', c' ∈ cands -> key_of r c' ∉ [key_of r c].
Proof.
  intros [F1 F2 F3]. apply list.Forall_cons in F1 as [_ F1]. rewrite fmap_cons in F2. apply list.NoDup_cons in F2 as [Hn F2].
  split; [split; [done|done|intros c' Hc; apply F3; by right]|]. intros c' Hc Hin%list_elem_of_singleton. apply Hn. rewrite <- Hin. by apply list_elem_of_fmap_2.
Qed.
Lemma fresh_perm w r l l' : l ≡ₚ l' -> fresh w r l -> fresh w r l'.
Proof. intros Hp [F1 F2 F3]. split; [by rewrite <- Hp|by rewrite <- Hp|]. intros c. rewrite <- Hp. apply F3. Qed.
Lemma fresh_app w r l l' : fresh w r (l ++ l') -> fresh w r l /\ fresh w r l' /\ forall c, c ∈ l' -> key_of r c ∉ key_of r <$> l.
Proof.
  intros [F1 F2 F3]. apply Forall_app in F1 as [F1 F1']. rewrite fmap_app in F2. apply list.NoDup_app in F2 as (N1 & N2 & N3). split_and!.
  - split; [done|done|]. intros c Hc. apply F3. apply elem_of_app. by left.
  - split; [done|done|]. intros c Hc. apply F3. apply elem_of_app. by right.
  - intros c Hc Hin. eapply N2; [exact Hin|]. by apply list_elem_of_fmap_2.
Qed.

Lemma fallbacks_run o w r now losers : io_ok o -> ready w -> fresh w r losers -> advances w (write_fallbacks r now losers o w).2 [].
Proof.
  intros Ho. revert w. induction losers as [|c l IH]; intros w Hrd Hfr; cbn [write_fallbacks]; [by apply advances_refl|].
  rewrite bind_run. assert (Hk : ~ held (tbl w) (log_of w) (key_of r c)) by (apply Hfr; by left).
  pose proof (upsert_run o w r matchFallback c now Ho ltac:(done)) as Hup.
  assert (Hseen : seen_tables (w_eng w) = tbl w) by (unfold seen_tables; by rewrite (rd_idle _ Hrd)). rewrite Hseen in Hup.
  specialize (Hup (unheld_free _ _ _ Hk)). destruct (upsertMatch _ _ _ _ o w) as [res w1]. destruct Hup as (d1 & He & Hq & _).
  rewrite working_with in He by apply Hrd. assert (Ht : tbl w1 = d1) by (unfold tbl; by rewrite He).
  assert (Hw1 : advances w w1 []) by (apply quiet_advances; [done|by rewrite Ht|by rewrite Ht]).
  destruct res as [e|id]; [done|]. apply fresh_tail in Hfr as [Hfr _]. change [] with (@nil (string * string) ++ []). eapply advances_trans; [exact Hw1|].
  apply IH; [apply Hw1|]. eapply fresh_step; [exact Hfr|exact Hw1|set_solver].
Qed.

Lemma winners_run doc o r now winners : io_ok o -> forall w created last, ready w -> fresh w r winners ->
  advances w (grab_winners doc r now winners created last o w).2 (key_of r <$> winners).
Proof.
  intros Ho. induction winners as [|c l IH]; intros w created last Hrd Hfr; cbn [grab_winners]; [by apply advances_refl|].
  destruct (run_full doc created). { eapply advances_more; [by apply advances_refl|set_solver]. }
  assert (Hk : ~ held (tbl w) (log_of w) (key_of r c)) by (apply Hfr; by left).
  assert (Hf : fits (tbl w) r c) by (pose proof (fr_fits _ _ _ Hfr) as Hall; by apply list.Forall_cons in Hall as [? _]).
  pose proof (grab_run doc o w r c now Ho Hrd Hf Hk) as Hg. apply fresh_tail in Hfr as [Hfr Hne]. rewrite bind_run, fmap_cons.
  destruct (grab doc r now c o w) as [[e|[taskID|]] w1]; cbn [snd] in Hg.
  - eapply advances_more; [exact Hg|set_solver].
  - change (key_of r c :: _) with ([key_of r c] ++ (key_of r <$> l)). eapply advances_trans; [exact Hg|]. apply IH; [apply Hg|by eapply fresh_step].
  - change (key_of r c :: _) with ([key_of r c] ++ (key_of r <$> l)). eapply advances_trans; [exact Hg|]. apply IH; [apply Hg|by eapply fresh_step].
Qed.

(** The watermark touches no match and no document. *)
Lemma watermark_run o w r at_ : io_ok o -> ready w -> advances w (SetRuleLastMatchAt r at_ o w).2 [].
Proof.
  intros Ho Hrd. unfold SetRuleLastMatchAt, affected. rewrite bind_run. cbn. rewrite bind_run, exec_io by done.
  unfold rss_tables, seen_tables. cbn. rewrite (rd_idle _ Hrd). fold (tbl w). change (default (tbl w) None) with (tbl w). unfold querySetRuleLastMatchAt, update_row.
  assert (Hadv : forall d' w', w_eng w' = w_eng (put_tables d' (bump w)) -> R_DefinitionJSON <$> rules d' = R_DefinitionJSON <$> rules (tbl w) ->
    feed_items d' = feed_items (tbl w) -> rule_matches d' = rule_matches (tbl w) -> rule_seen_episodes d' = rule_seen_episodes (tbl w) -> advances w w' []).
  { intros d' w' He Hd Hi Hm Hs. rewrite eng_put, working_with in He by apply Hrd. cbn in He. apply quiet_advances; [done|by unfold tbl; rewrite He|].
    unfold tbl at 2. rewrite He. cbn. split; [split; [done|done| | |]|].
    - intros h. rewrite !count_hash_spec. by rewrite Hm.
    - by rewrite Hs.
    - apply best_sent_grows. unfold sent_for. rewrite Hm. intros key sc Hx. exists sc. split; [lia|exact Hx].
    - by rewrite Hm. }
  destruct (rules (tbl w) !! r) as [rule|] eqn:Hr; cbn.
  - apply (Hadv (set_rules (<[r:=advanced at_ (o_now o (w_n w)) rule]> (rules (tbl w))) (tbl w))); [done|cbn|done..]. rewrite fmap_insert. apply map_eq. intros k. destruct (decide (k = r)) as [->|Hne];
      [by rewrite lookup_insert_eq, lookup_fmap, Hr|by rewrite lookup_insert_ne].
  - by apply (Hadv (set_rules (rules (tbl w)) (tbl w))).
Qed.

Lemma commit_run doc o w r cands now : io_ok o -> ready w -> fresh w r cands -> advances w (Commit doc r cands now o w).2 (key_of r <$> cands).
Proof.
  intros Ho Hrd Hfr. unfold Commit. destruct (Resolve cands) as [winners losers] eqn:Hres. apply Resolve_spec in Hres as (Hp & _).
  symmetry in Hp. pose proof (fresh_perm _ _ _ _ Hp Hfr) as Hfr'. apply fresh_app in Hfr' as (Hwin & Hlos & _).
  rewrite bind_run. pose proof (fallbacks_run o w r now losers Ho Hrd Hlos) as Hl.
  assert (Hsub : forall ks, ks = [] ++ (key_of r <$> winners) ++ [] -> ks ⊆ key_of r <$> cands).
  { intros ks ->. rewrite app_nil_r. cbn. intros k (c & -> & Hc)%list_elem_of_fmap. apply list_elem_of_fmap_2. rewrite Hp. apply elem_of_app. by left. }
  destruct (write_fallbacks r now losers o w) as [[e|[]] w1]; cbn [snd] in Hl.
  { eapply advances_more; [exact Hl|set_solver]. }
  rewrite bind_run. pose proof (winners_run doc o r now winners Ho w1 [] None (ad_ready _ _ _ Hl) (fresh_step _ _ _ _ _ Hwin Hl ltac:(set_solver))) as Hw.
  eapply advances_more; [|by apply Hsub]. eapply advances_trans; [exact Hl|].
  destruct (grab_winners doc r now winners [] None o w1) as [[e|[created last]] w2]; cbn [snd] in Hw.
  { eapply advances_more; [exact Hw|set_solver]. }
  eapply advances_trans; [exact Hw|]. cbn beta iota zeta. rewrite bind_run. cbn [snd].
  destruct last as [last|]; [|apply advances_refl, Hw].
  pose proof (watermark_run o w2 r last Ho (ad_ready _ _ _ Hw)) as Hm. by destruct (SetRuleLastMatchAt r last o w2) as [[e|[]] w3].
Qed.
End Runs.
