(* ===== verification/RssPasses.v ===== *)
(** * What an evaluation over the tables accepts

    [Evaluate] with [dbState] writes nothing, and a candidate it returns fits
    the tables and is of no pair that was handed over. *)

From Stdlib Require Import SpecFloat.
From stdpp Require Import fin_maps.
From stdpp Require Import fin_maps sorting.
From S2P Require Import Prelude GoStrings TaskState Schema Lease World Frame Engine SafePath SafeJoin Manifest Archive Regex Uri RssDoc RssStore RssMatch RssGrab RssResolve RssEvalProps RssGrabProps.

Open Scope Z_scope.

(** ** Reads *)

Definition undisturbed {E} (w w' : world E) : Prop := w_eng w' = w_eng w.
#[export] Instance undisturbed_pre {E} : PreOrder (undisturbed (E := E)).
Proof. split; [done|]. intros u v w Huv Hvw. unfold undisturbed in *. congruence. Qed.

Section Reads.
Context {R : Type} `{!TaskCreator R}.
Implicit Types w : world (rss R).

Lemma read_query {A} (q : rssdb -> A) : always undisturbed (query_rss (R := R) q).
Proof. intros o w. unfold query_rss. by destruct (o_io o (w_n w)). Qed.
Lemma read_tasks {A} (q : R -> A) : always undisturbed (query_tasks q).
Proof. intros o w. unfold query_tasks. by destruct (o_io o (w_n w)). Qed.
Lemma query_rss_ok {A} (q : rssdb -> A) o w x w' : query_rss q o w = (inr x, w') -> x = q (rss_tables w) /\ w_eng w' = w_eng w.
Proof. unfold query_rss. destruct (o_io o (w_n w)); [|done|done]. by intros [= <- <-]. Qed.

Lemma hash_read h : always undisturbed (HasInfoHash (dbState (R := R)) h).
Proof.
  apply always_bind; [apply _|apply read_query|]. intros [|]; [apply always_ret; apply _|].
  destruct (String.length h =? grabInfohashV1Len)%nat; [apply read_tasks|]. destruct (String.length h =? grabInfohashV2Len)%nat; [apply read_tasks|].
  apply always_ret; apply _.
Qed.
Lemma hash_new h o w b w' : HasInfoHash (dbState (R := R)) h o w = (inr b, w') -> b = false -> count_hash h (rss_tables w) = false.
Proof.
  intros Hr ->. apply bind_ok in Hr as (n & w1 & [-> _]%query_rss_ok & Hk). by destruct (count_hash h (rss_tables w)).
Qed.
End Reads.

Section Accepted.
Context {R : Type} `{!TaskCreator R} `{!FoldTable} `{!Regexp} `{!UnicodeTables}
  (ParseFloat : list Z -> option spec_float) (Parse_RFC3339 : string -> option Z) (url_Parse : list Z -> option url).
Implicit Types w : world (rss R).

Lemma same_rss w w' : w_eng w' = w_eng w -> rss_tables w' = rss_tables w.
Proof. unfold rss_tables. by intros ->. Qed.

Section One.
Context (e : ruleEval).

Lemma unseen_read l : always undisturbed (unseen (dbState (R := R)) e l).
Proof.
  induction l as [|v l IH]; simpl; [apply always_ret; apply _|]. apply always_bind; [apply _|apply read_query|]. intros s.
  apply always_bind; [apply _|done|]. intros. apply always_ret; apply _.
Qed.
Lemma episode_read i : always undisturbed (episode_step (dbState (R := R)) e i).
Proof.
  unfold episode_step. destruct (negb (smart e)); [apply always_ret; apply _|]. destruct (SmartKey _) as [key|]; [|apply always_ret; apply _].
  apply always_bind; [apply _|apply read_query|]. intros s. destruct (negb s); [apply always_ret; apply _|]. destruct (negb (allowRep e)); [apply always_ret; apply _|].
  destruct (RepackVariants _ _); [apply always_ret; apply _|]. apply always_bind; [apply _|apply unseen_read|]. intros [|]; apply always_ret; apply _.
Qed.
Lemma hash_step_read i : always undisturbed (hash_step (dbState (R := R)) i).
Proof. unfold hash_step. destruct (some_text _); [|apply always_ret; apply _]. apply always_bind; [apply _|apply hash_read|]. intros. apply always_ret; apply _. Qed.
Lemma content_step_read key s : always undisturbed (content_step (dbState (R := R)) key s).
Proof. apply always_bind; [apply _|apply read_query|]. intros. apply always_ret; apply _. Qed.
Lemma collect_read d p feed s by_ h ck ek st : always undisturbed (collect (E := rss R) url_Parse d p feed s by_ h ck ek st).
Proof. unfold collect. destruct (I_DownloadURL p.2); [apply always_ret; apply _|apply always_fail; apply _]. Qed.
Lemma dedup_read p feed h by_ hl : always undisturbed (dedup_steps (dbState (R := R)) e url_Parse p feed h by_ hl).
Proof.
  unfold dedup_steps. apply always_bind; [apply _|apply episode_read|]. intros [r|[key st]]; [apply always_ret; apply _|].
  apply always_bind; [apply _|apply hash_step_read|]. intros [r|]; [apply always_ret; apply _|]. apply always_bind; [apply _|apply content_step_read|].
  intros [r|]; [apply always_ret; apply _|]. destruct (score_reason e _); [apply always_ret; apply _|]. apply collect_read.
Qed.
Lemma text_read p feed : always undisturbed (text_steps (dbState (R := R)) e url_Parse p feed).
Proof.
  unfold text_steps. destruct (excluded e _); [apply always_ret; apply _|]. cbv zeta.
  assert (Hgo : forall by_ h, always undisturbed (match size_reason e p.2 with Some r => mret (reject p 0 r) | None =>
    match filter_reason e p.2 with Some r => mret (reject p 0 r) | None => dedup_steps (dbState (R := R)) e url_Parse p feed
      (buildHaystack (I_Title p.2) (MFields (D_Match (e_doc e)))) by_ h end end)).
  { intros. destruct (size_reason e p.2); [apply always_ret; apply _|]. destruct (filter_reason e p.2); [apply always_ret; apply _|]. apply dedup_read. }
  destruct (bool_decide (anyOf e = [])); [apply Hgo|]. destruct (matchAny _ _) as [[i c]|]; [|apply always_ret; apply _].
  apply always_bind; [apply _| |intros; apply Hgo]. unfold highlight_of. destruct (tokens c); [apply always_fail; apply _|apply always_ret; apply _].
Qed.
Lemma item_read p feed : always undisturbed (evaluateItem (dbState (R := R)) e url_Parse p feed).
Proof.
  unfold evaluateItem. destruct (cooldown_reason e p.2); [apply always_ret; apply _|]. destruct (below_floor e p.2); [apply always_ret; apply _|]. apply text_read.
Qed.

(** ** What an accepted item tells *)

Record acceptable (t : rssdb) (p : row FeedItem) (c : Candidate) : Prop := {
  ac_item : C_Item c = p;
  ac_score : C_Score c = score_of (scoreClauses e) (buildHaystack (I_Title p.2) (MFields (D_Match (e_doc e))));
  ac_hash h : some_text (I_InfoHash p.2) = Some h -> count_hash h t = false;
  ac_best best : best_sent (C_ContentKey c) t = Some best -> best < C_Score c;
  ac_plain : smart e = false -> C_ContentKey c = contentKeyFor (e_id e) EmptyString p.2;
  ac_smart : smart e = true -> allowRep e = false -> exists key, SmartKey (bytes_of (I_Title p.2)) = Some key /\ stagedKeys c = [key] /\
    rule_seen_episodes t !! (e_id e, key) = None }.

Lemma episode_ok i o w key st w' : episode_step (dbState (R := R)) e i o w = (inr (inr (key, st)), w') ->
  (smart e = false -> key = EmptyString) /\ (smart e = true -> allowRep e = false -> exists k, SmartKey (bytes_of (I_Title i)) = Some k /\ st = [k] /\
    rule_seen_episodes (rss_tables w) !! (e_id e, k) = None).
Proof.
  unfold episode_step. destruct (smart e); simpl; [|by intros [= <- <- _]]. destruct (SmartKey _) as [k|]; [|done].
  intros (s & w1 & [-> _]%query_rss_ok & Hk)%bind_ok. split; [done|]. intros _ Hrep. rewrite Hrep in Hk.
  case_bool_decide as Hs; simpl in Hk; [done|]. injection Hk as _ <- _. exists k. split_and!; [done|done|by apply eq_None_not_Some].
Qed.

Lemma dedup_ok p feed h by_ hl o w d c w' : dedup_steps (dbState (R := R)) e url_Parse p feed h by_ hl o w = (inr (Accepted d c), w') ->
  h = buildHaystack (I_Title p.2) (MFields (D_Match (e_doc e))) -> acceptable (rss_tables w) p c.
Proof.
  unfold dedup_steps. intros (step & w1 & Hep & Hr)%bind_ok ->. pose proof (episode_read p.2 o w) as He1. rewrite Hep in He1. simpl in He1.
  destruct step as [r|[key st]]; [done|]. apply episode_ok in Hep as [Hplain Hsmart].
  apply bind_ok in Hr as (dup & w2 & Hh & Hr). pose proof (hash_step_read p.2 o w1) as He2. rewrite Hh in He2. simpl in He2.
  assert (Hhash : dup = None -> forall h, some_text (I_InfoHash p.2) = Some h -> count_hash h (rss_tables w) = false).
  { intros -> x Hx. unfold hash_step in Hh. rewrite Hx in Hh. apply bind_ok in Hh as (b & w3 & Hb & Hk). rewrite <- (same_rss w w1) by done.
    eapply hash_new; [exact Hb|]. by destruct b. }
  destruct dup as [r|]; [done|]. apply bind_ok in Hr as (have & w3 & Hc & Hr).
  set (s := score_of _ _) in *. set (ck := contentKeyFor _ _ _) in *.
  assert (Hbest : have = None -> forall best, best_sent ck (rss_tables w) = Some best -> best < s).
  { intros -> best Hb. unfold content_step in Hc. apply bind_ok in Hc as (x & w4 & [-> _]%query_rss_ok & Hk).
    rewrite (same_rss w1 w2), (same_rss w w1), Hb in Hk by done. simpl in Hk. destruct (Z.leb_spec s best); [done|lia]. }
  destruct have as [r|]; [done|]. destruct (score_reason e s); [done|]. unfold collect in Hr.
  destruct (I_DownloadURL p.2) as [raw|]; [|done]. injection Hr as Hv <-. destruct (Normalize _ _) as [n|]; [|done]. destruct (Router.Route _ _) as [name|]; [|done].
  injection Hv as _ <-. split; simpl; [done|done|by apply Hhash|by apply Hbest|by intros ->%Hplain|done].
Qed.

Lemma item_ok p feed o w d c w' : evaluateItem (dbState (R := R)) e url_Parse p feed o w = (inr (Accepted d c), w') -> acceptable (rss_tables w) p c.
Proof.
  unfold evaluateItem. destruct (cooldown_reason e p.2); [done|]. destruct (below_floor e p.2); [done|]. unfold text_steps.
  destruct (excluded e _); [done|]. cbv zeta.
  assert (Hgo : forall by_ h w, (match size_reason e p.2 with Some r => mret (reject p 0 r) | None =>
    match filter_reason e p.2 with Some r => mret (reject p 0 r) | None => dedup_steps (dbState (R := R)) e url_Parse p feed
      (buildHaystack (I_Title p.2) (MFields (D_Match (e_doc e)))) by_ h end end) o w = (inr (Accepted d c), w') -> acceptable (rss_tables w) p c).
  { intros by_ h w0. destruct (size_reason e p.2); [done|]. destruct (filter_reason e p.2); [done|]. intros Hd. by eapply dedup_ok. }
  destruct (bool_decide (anyOf e = [])); [apply Hgo|]. destruct (matchAny _ _) as [[i cl]|]; [|done].
  intros (h & w1 & Hh & Hr)%bind_ok. unfold highlight_of in Hh. destruct (tokens cl); [done|]. injection Hh as _ <-. by eapply Hgo.
Qed.

(** ** A pass *)

Lemma loop_read doc byID items : forall ds cs, always undisturbed (evaluate_loop (dbState (R := R)) url_Parse e doc byID items ds cs).
Proof.
  induction items as [|p items IH]; intros ds cs; simpl; [apply always_ret; apply _|]. destruct (negb (in_scope doc _)); [apply IH|].
  apply always_bind; [apply _|apply item_read|]. intros [|d|d c]; apply IH.
Qed.
Lemma loop_ok doc byID items : forall o w ds cs ds' cs' w', evaluate_loop (dbState (R := R)) url_Parse e doc byID items ds cs o w = (inr (ds', cs'), w') ->
  exists new, cs' = cs ++ new /\ Forall (fun c => C_Item c ∈ items /\ acceptable (rss_tables w) (C_Item c) c) new /\ (C_Item <$> new) `sublist_of` items.
Proof.
  induction items as [|p items IH]; intros o w ds cs ds' cs' w'; simpl.
  - intros [= _ <- _]. exists []. by rewrite app_nil_r.
  - destruct (negb (in_scope doc _)).
    { intros (new & -> & Hn & Hs)%IH. exists new. split_and!; [done| |by apply sublist_cons]. eapply list.Forall_impl; [exact Hn|]. intros c [Hin Ha]. split; [by right|done]. }
    intros (v & w1 & Hv & Hr)%bind_ok. pose proof (item_read p (feed_ref byID (I_FeedID p.2)) o w) as He. rewrite Hv in He. simpl in He.
    destruct v as [|d|d c]; apply IH in Hr as (new & -> & Hn & Hs); rewrite (same_rss w w1) in Hn by done.
    1-2: exists new; split_and!; [done| |by apply sublist_cons]; eapply list.Forall_impl; [exact Hn|]; intros c [Hin Ha]; split; [by right|done].
    apply item_ok in Hv. exists (c :: new). rewrite <- (assoc_L app). split_and!; [done| |].
    + constructor; [rewrite (ac_item _ _ _ Hv); split; [by left|done]|]. eapply list.Forall_impl; [exact Hn|]. intros c' [Hin Ha]. split; [by right|done].
    + simpl. rewrite (ac_item _ _ _ Hv). by apply sublist_skip.
Qed.
End One.
End Accepted.

(** * Paging through the items of a feed

    [newestFeedItems] collects pages of [ListFeedItems] along their cursors;
    what it returns is a prefix of the one sorted list. *)

(** The rows of a feed in their order. *)
Definition rows_of (feedID : string) (d : rssdb) : list (row FeedItem) :=
  sort_by (less newest_first) (List.filter (fun p => bool_decide (I_FeedID p.2 = feedID)) (map_to_list (feed_items d))).

Lemma rows_of_elem feedID d p : p ∈ rows_of feedID d <-> feed_items d !! p.1 = Some p.2 /\ I_FeedID p.2 = feedID.
Proof.
  unfold rows_of. rewrite (sort_by_Permutation newest_first), elem_of_filter_bool, bool_decide_eq_true. destruct p as [id i].
  rewrite elem_of_map_to_list. tauto.
Qed.
Lemma rows_of_ids feedID d : NoDup (rows_of feedID d).*1.
Proof.
  unfold rows_of. rewrite (sort_by_Permutation newest_first). assert (Hn : NoDup (map_to_list (feed_items d)).*1) by apply NoDup_fst_map_to_list.
  induction (map_to_list (feed_items d)) as [|p l IH]; [done|]. rewrite fmap_cons in Hn. apply list.NoDup_cons in Hn as [Hp Hn]. cbn [List.filter].
  case_bool_decide; [|by apply IH]. rewrite fmap_cons. apply list.NoDup_cons. split; [|by apply IH]. intros Hin. apply Hp.
  apply list_elem_of_fmap in Hin as (q & -> & [_ Hq]%elem_of_filter_bool). by apply list_elem_of_fmap_2.
Qed.
Lemma rows_of_length feedID d : (length (rows_of feedID d) <= size (feed_items d))%nat.
Proof.
  unfold rows_of. rewrite (sort_by_Permutation newest_first). rewrite <- length_map_to_list. apply List.filter_length_le.
Qed.

(** Rows are in one order only: equal places are one id. *)
Lemma compare_text_eq s t : String.compare s t = Eq -> s = t.
Proof. apply String.compare_eq_iff. Qed.
Lemma newest_eq a b : newest_first a b = Eq -> a.1 = b.1.
Proof.
  unfold newest_first, descending, then_by, by_Z, by_text. destruct (_ ?= _); [|done|done]. intros He%compare_text_eq. done.
Qed.
Lemma rows_strict feedID d : StronglySorted (fun a b => newest_first a b = Lt) (rows_of feedID d).
Proof.
  pose proof (sort_by_sorted newest_first (List.filter (fun p => bool_decide (I_FeedID p.2 = feedID)) (map_to_list (feed_items d)))) as Hs.
  fold (rows_of feedID d) in Hs. pose proof (rows_of_ids feedID d) as Hn. induction Hs as [|p l Hl IH Hp]; [constructor|].
  rewrite fmap_cons in Hn. apply list.NoDup_cons in Hn as [Hnp Hn]. constructor; [by apply IH|]. apply list.Forall_forall. intros q Hq.
  eapply list.Forall_forall in Hp; [|exact Hq]. unfold not_after in Hp. destruct (newest_first p q) eqn:Hc; [|done|done].
  apply newest_eq in Hc. destruct Hnp. rewrite Hc. by apply list_elem_of_fmap_2.
Qed.

(** ** What lies behind a cursor *)

Lemma after_spec {H} (c : feedItemCursor H) (x p : row FeedItem) : cur_LastID c = x.1 -> cur_Value c = feedItemSortKey x.2 ->
  item_after c p = true <-> newest_first x p = Lt.
Proof.
  intros Hid Hv. unfold item_after, newest_first, descending, then_by, by_Z, less, by_text. rewrite Hid, Hv. unfold id.
  destruct (Z.compare_spec (feedItemSortKey p.2) (feedItemSortKey x.2)) as [He|Hl|Hg].
  - rewrite He, Z.ltb_irrefl, Z.eqb_refl. simpl. by destruct (String.compare p.1 x.1).
  - rewrite (proj2 (Z.ltb_lt _ _)) by done. done.
  - rewrite (proj2 (Z.ltb_ge _ _)), (proj2 (Z.eqb_neq _ _)) by lia. done.
Qed.

Lemma sorted_after (l : list (row FeedItem)) n x : StronglySorted (fun a b => newest_first a b = Lt) l -> l !! n = Some x ->
  List.filter (fun p => match newest_first x p with Lt => true | _ => false end) l = drop (S n) l.
Proof.
  intros Hs. revert n. induction Hs as [|p l Hl IH Hp]; intros n Hx; [done|]. cbn [List.filter].
  destruct n as [|n]; simpl in Hx |- *.
  - injection Hx as ->. assert (Hxx : newest_first x x = Eq).
    { pose proof (ord_sym (f := newest_first) x x) as Hx. by destruct (newest_first x x). }
    rewrite Hxx, drop_0. clear -Hp. induction Hp as [|q l Hq Hl IH]; [done|]. cbn [List.filter]. by rewrite Hq, IH.
  - assert (Hpx : newest_first p x = Lt) by (eapply list.Forall_forall in Hp; [done|by eapply list_elem_of_lookup_2]).
    rewrite (ord_sym (f := newest_first) p x), Hpx. simpl. by apply IH.
Qed.

Lemma filter_sort_unique (l k : list (row FeedItem)) : NoDup l.*1 -> l ≡ₚ k -> StronglySorted (not_after newest_first) k -> sort_by (less newest_first) l = k.
Proof.
  intros Hn Hp Hk. assert (Hl : sort_by (less newest_first) l ≡ₚ k) by by rewrite (sort_by_Permutation newest_first).
  apply (StronglySorted_unique_strong (not_after newest_first)); [|apply sort_by_sorted; apply _|done|done].
  intros a b Ha Hb Hab Hba. assert (He : newest_first a b = Eq).
  { unfold not_after in *. rewrite (ord_sym (f := newest_first) a b) in Hba. by destruct (newest_first a b). }
  apply newest_eq in He. rewrite (sort_by_Permutation newest_first) in Ha. rewrite <- Hp in Hb.
  apply list_elem_of_lookup in Ha as [i Ha]. apply list_elem_of_lookup in Hb as [j Hb].
  assert (Hi : l.*1 !! i = Some a.1) by by rewrite list_lookup_fmap, Ha. assert (Hj : l.*1 !! j = Some b.1) by by rewrite list_lookup_fmap, Hb.
  rewrite <- He in Hj. pose proof (NoDup_lookup _ _ _ _ Hn Hi Hj) as ->. congruence.
Qed.

(** The page behind the [n]-th row is the rest of the list. *)
Lemma page_rest {H} feedID d (from : option (feedItemCursor H)) n page :
  match from with
  | None => n = O
  | Some c => exists m x, n = S m /\ rows_of feedID d !! m = Some x /\ cur_LastID c = x.1 /\ cur_Value c = feedItemSortKey x.2
  end ->
  forall tok, item_page (MkItemFilter [feedID] false (Z.of_nat page) tok) from page d = take (S page) (drop n (rows_of feedID d)).
Proof.
  intros Hfrom tok. unfold item_page. f_equal.
  set (sel := fun p : row FeedItem => item_selected _ p && from_option (fun c => item_after c p) true from).
  assert (Hsel : List.filter sel (map_to_list (feed_items d)) ≡ₚ List.filter (fun p => from_option (fun c => item_after c p) true from) (rows_of feedID d)).
  { unfold rows_of. assert (Hf : forall l k : list (row FeedItem), l ≡ₚ k -> forall f, List.filter f l ≡ₚ List.filter f k).
    { intros l k Hp f. induction Hp; simpl; repeat case_match; eauto using Permutation. }
    rewrite (Hf _ _ (sort_by_Permutation newest_first _)). clear -sel. induction (map_to_list (feed_items d)) as [|p l IH]; [done|].
    simpl. unfold sel at 1, item_selected. cbn [FeedIDs UnreadOnly negb orb]. rewrite andb_true_r. rewrite (bool_decide_false ([feedID] = [])) by done. cbn [orb].
    assert (Hc : contains [feedID] (I_FeedID p.2) = bool_decide (I_FeedID p.2 = feedID)).
    { unfold contains. apply bool_decide_ext. by rewrite list_elem_of_singleton. }
    rewrite Hc. destruct (bool_decide (I_FeedID p.2 = feedID)); simpl; [|exact IH]. by destruct (from_option _ true from); [f_equiv|]. }
  assert (Hrest : List.filter (fun p => from_option (fun c => item_after c p) true from) (rows_of feedID d) = drop n (rows_of feedID d)).
  { destruct from as [c|]; simpl in *.
    - destruct Hfrom as (m & x & -> & Hx & Hid & Hv). rewrite <- (sorted_after _ _ _ (rows_strict feedID d) Hx).
      apply List.filter_ext. intros p. apply eq_true_iff_eq. rewrite (after_spec c x p Hid Hv). by destruct (newest_first x p).
    - subst n. rewrite drop_0. clear. by induction (rows_of feedID d) as [|p l IH]; simpl; [|rewrite IH]. }
  apply filter_sort_unique.
  - assert (Hn : NoDup (map_to_list (feed_items d)).*1) by apply NoDup_fst_map_to_list. clear -Hn. induction (map_to_list (feed_items d)) as [|p l IH]; [done|].
    rewrite fmap_cons in Hn. apply list.NoDup_cons in Hn as [Hp Hn]. cbn [List.filter]. destruct (sel p); [|by apply IH]. rewrite fmap_cons.
    apply list.NoDup_cons. split; [|by apply IH]. intros Hin. apply Hp. apply list_elem_of_fmap in Hin as (q & -> & [_ Hq]%elem_of_filter_bool). by apply list_elem_of_fmap_2.
  - by rewrite Hsel, Hrest.
  - pose proof (rows_strict feedID d) as Hs. rewrite <- (take_drop n (rows_of feedID d)) in Hs. apply StronglySorted_app in Hs as (_ & _ & Hs).
    clear -Hs. induction Hs as [|p l Hl IH Hp]; constructor; [done|]. eapply list.Forall_impl; [exact Hp|]. unfold not_after. by intros q ->.
Qed.

(** ** The pages together *)

Section Pages.
Context {R : Type} {Hash : Type} `{!EqDecision Hash} (feedItemFilterHash : list string -> bool -> Hash).
Implicit Types w : world (rss R).

(** A cursor that stands behind the [n]-th row of a feed. *)
Definition stands feedID d n (tok : item_token Hash) : Prop :=
  match tok with
  | NoToken => n = O
  | BadToken => False
  | Token c => cur_Hash c = feedItemFilterHash [feedID] false /\
      exists m x, n = S m /\ rows_of feedID d !! m = Some x /\ cur_LastID c = x.1 /\ cur_Value c = feedItemSortKey x.2
  end.

Lemma list_page o w feedID n page tok r w' : 1 <= page <= feedItemsMaxLimit -> stands feedID (rss_tables w) n tok ->
  ListFeedItems feedItemFilterHash (MkItemFilter [feedID] false page tok) o w = (inr r, w') ->
  w_eng w' = w_eng w /\ r.1.1 = take (Z.to_nat page) (drop n (rows_of feedID (rss_tables w))) /\
  if (length (drop n (rows_of feedID (rss_tables w))) <=? Z.to_nat page)%nat then r.1.2 = NoToken
  else stands feedID (rss_tables w) (n + Z.to_nat page) r.1.2 /\ r.1.2 <> NoToken.
Proof.
  intros Hpage Hst. unfold ListFeedItems. cbn [Limit Cursor_ FeedIDs UnreadOnly]. rewrite (proj2 (Z.eqb_neq page 0)) by lia.
  rewrite (proj2 (Z.ltb_ge page 1)), (proj2 (Z.ltb_ge feedItemsMaxLimit page)) by lia. cbn [orb].
  intros (from & w1 & Hfrom & Hr)%bind_ok.
  assert (Hf : w1 = w /\ match from with None => n = O | Some c => exists m x, n = S m /\ rows_of feedID (rss_tables w) !! m = Some x /\
    cur_LastID c = x.1 /\ cur_Value c = feedItemSortKey x.2 end).
  { destruct tok as [|c|]; [by injection Hfrom as <- <-| |done]. destruct Hst as [Hh Hx]. rewrite bool_decide_true in Hfrom by done. by injection Hfrom as <- <-. }
  destruct Hf as [-> Hf]. apply bind_ok in Hr as (total & w2 & [-> He2]%query_rss_ok & Hr). apply bind_ok in Hr as (items & w3 & [-> He3]%query_rss_ok & Hr).
  rewrite (same_rss w w2) in Hr by done.
  pose proof (page_rest feedID (rss_tables w) from n (Z.to_nat page) Hf tok) as Hpg. rewrite Z2Nat.id in Hpg by lia. rewrite Hpg in Hr.
  set (l := drop n (rows_of feedID (rss_tables w))) in *. rewrite length_take in Hr.
  assert (Heng : w_eng w3 = w_eng w) by congruence.
  destruct (Nat.leb_spec (length l) (Z.to_nat page)) as [Hle|Hgt].
  - rewrite (proj2 (Nat.leb_le _ _)) in Hr by lia. injection Hr as <- <-. cbn. split_and!; [done| |done]. by rewrite !take_ge by lia.
  - rewrite (proj2 (Nat.leb_gt _ _)) in Hr by lia. injection Hr as <- <-. cbn [fst snd]. rewrite take_take, Nat.min_l by lia. split; [done|split; [done|]].
    rewrite length_take, Nat.min_l by lia. rewrite lookup_take_lt by lia. destruct (l !! pred (Z.to_nat page)) as [x|] eqn:Hx; [|apply lookup_ge_None in Hx; lia].
    split; [|done]. split; [done|]. exists (n + pred (Z.to_nat page))%nat, x. split_and!; [lia| |done|done]. unfold l in Hx. by rewrite lookup_drop in Hx.
Qed.

Lemma newest_loop_ok o feedID limit fuel : forall w n tok items r w', stands feedID (rss_tables w) n tok -> 0 <= limit ->
  items = take n (rows_of feedID (rss_tables w)) -> length items = n -> (length (rows_of feedID (rss_tables w)) - n < fuel)%nat ->
  newest_loop feedItemFilterHash fuel feedID limit items tok o w = (inr r, w') -> (n <= Z.to_nat limit)%nat ->
  w_eng w' = w_eng w /\ r = take (Z.to_nat limit) (rows_of feedID (rss_tables w)).
Proof.
  induction fuel as [|fuel IH]; intros w n tok items r w' Hst Hlim Hit Hn Hf; [lia|]. cbn [newest_loop]. intros Hr Hle. rewrite Hn in Hr.
  destruct (Z.ltb_spec (Z.of_nat n) limit) as [Hlt|Hge].
  2: { injection Hr as <- <-. split; [done|]. by replace (Z.to_nat limit) with n by lia. }
  apply bind_ok in Hr as (pg & w1 & Hpg & Hr). set (page := Z.min (limit - Z.of_nat n) dryRunPageLimit) in *.
  assert (Hpage : 1 <= page <= feedItemsMaxLimit) by (unfold page, dryRunPageLimit, feedItemsMaxLimit; lia).
  destruct (list_page _ _ _ _ _ _ _ _ Hpage Hst Hpg) as (He & Hitems & Hnext).
  assert (Hall : items ++ pg.1.1 = take (n + Z.to_nat page) (rows_of feedID (rss_tables w))) by (rewrite Hit, Hitems; apply take_take_drop).
  destruct (Nat.leb_spec (length (drop n (rows_of feedID (rss_tables w)))) (Z.to_nat page)) as [Hend|Hmore].
  - rewrite Hnext in Hr. injection Hr as <- <-. split; [done|]. rewrite Hall. rewrite length_drop in Hend.
    unfold page in *. destruct (Z.min_spec (limit - Z.of_nat n) dryRunPageLimit) as [[_ Hp]|[_ Hp]]; rewrite Hp in *.
    + f_equal. lia.
    + unfold dryRunPageLimit in *. rewrite !take_ge by lia. done.
  - destruct Hnext as [Hst' Hne]. rewrite length_drop in Hmore. destruct pg as [[it nxt] tot]. cbn [fst snd] in *.
    assert (Hgo : newest_loop feedItemFilterHash fuel feedID limit (items ++ it) nxt o w1 = (inr r, w')) by by destruct nxt.
    apply (IH w1 (n + Z.to_nat page)%nat) in Hgo; rewrite ?(same_rss w w1) by done; [|done|done|done| |lia|].
    + rewrite (same_rss w w1) in Hgo by done. destruct Hgo as [He' ->]. split; [congruence|done].
    + rewrite Hall, length_take. lia.
    + unfold page. lia.
Qed.

(** What it collects is the first [limit] items of the feed, newest first. *)
Lemma newest_ok o w feedID limit r w' : 0 <= limit -> newestFeedItems feedItemFilterHash feedID limit o w = (inr r, w') ->
  w_eng w' = w_eng w /\ r = take (Z.to_nat limit) (rows_of feedID (rss_tables w)).
Proof.
  intros Hl. unfold newestFeedItems. rewrite bind_run. unfold gets. cbn beta iota zeta. intros Hr.
  eapply (newest_loop_ok o feedID limit _ w O NoToken []); [done|done|done|done| |exact Hr|lia].
  pose proof (rows_of_length feedID (rss_tables w)). lia.
Qed.
End Pages.

(** * The passes over saved rules

    [RunRule] and [RunAllRules] keep the invariant of [RssGrabProps]: over
    a driver that answers. *)

Section Passes.
Context {R : Type} `{!TaskCreator R}.
Hypothesis created_is_row : forall g x id y, CreateForRule g x = (inr id, y) -> task_row y id = true.
Context `{!FoldTable} `{!Regexp} `{!UnicodeTables} (ParseFloat : list Z -> option spec_float) (Parse_RFC3339 : string -> option Z)
  (url_Parse : list Z -> option url) (json_Unmarshal : string -> option RuleDoc)
  {Hash : Type} `{!EqDecision Hash} (feedItemFilterHash : list string -> bool -> Hash).
Abbreviation state := (rss (R * list (string * string))).
Abbreviation M := (M state).
Abbreviation world := (world state).
Abbreviation ready := (ready json_Unmarshal).
Abbreviation advances := (advances json_Unmarshal).
Abbreviation fits := (fits json_Unmarshal).
Implicit Types (w : world) (d : rssdb).

(** ** From an evaluation to a run *)

Lemma prepared_facts doc r rule e : newRuleEval ParseFloat Parse_RFC3339 doc (r, rule) = Some e ->
  e_id e = r /\ smart e = is_smart doc /\ allowRep e = allows doc /\ scoreClauses e = default [] (clauses_of doc) /\
  MFields (D_Match (e_doc e)) = or_title (MFields (D_Match doc)).
Proof.
  unfold newRuleEval. destruct (negb _); [done|]. intros He. do 6 (apply bind_Some in He as (? & _ & He)).
  apply bind_Some in He as (formats & Hf & He). injection He as <-. cbn. split_and!; try done. unfold clauses_of. by rewrite Hf.
Qed.

Lemma accepted_fits w r doc e c : ready w -> rule_doc json_Unmarshal (tbl w) r = Some doc ->
  e_id e = r /\ smart e = is_smart doc /\ allowRep e = allows doc /\ scoreClauses e = default [] (clauses_of doc) /\
    MFields (D_Match (e_doc e)) = or_title (MFields (D_Match doc)) ->
  feed_items (tbl w) !! (C_Item c).1 = Some (C_Item c).2 -> acceptable e (tbl w) (C_Item c) c ->
  fits (tbl w) r c /\ ~ held (tbl w) (log_of w) (key_of r c).
Proof.
  intros Hrd Hdoc (Eid & Esm & Eal & Esc & Efl) Hi [_ A1 A2 A3 A4 A5]. rewrite Eid, Esm, Eal, Esc, Efl in *.
  assert (Hscore : C_Score c = score_for doc (C_Item c).2) by (rewrite A1; reflexivity).
  assert (Hquiet : is_smart doc = true -> allows doc = false).
  { intros Hs. destruct (pr_quiet _ _ (rd_plain _ _ Hrd) r doc Hdoc) as [Hq|Hq]; congruence. }
  split.
  - split; [done|]. exists doc. split_and!; [done|done|]. destruct (is_smart doc) eqn:Hs; [|by apply A4].
    destruct A5 as (key & Hk & Hst & _); [done|by apply Hquiet|]. exists key. split; [done|]. rewrite Hst. by left.
  - intros Hh. apply (st_blocked _ _ _ (rd_settled _ _ Hrd)) in Hh. destruct (Hh doc (C_Item c).2 Hdoc Hi) as [(h & Hsh & Hc)|Hx].
    + rewrite (A2 h Hsh) in Hc. done.
    + destruct (is_smart doc) eqn:Hs.
      * destruct A5 as (key & Hk & _ & Hn); [done|by apply Hquiet|]. destruct Hx as (key' & Hk' & Hs'). rewrite Hk in Hk'. injection Hk' as <-.
        unfold key_of in Hs'. cbn in Hs'. rewrite Hn in Hs'. by destruct Hs'.
      * destruct Hx as (best & Hb & Hle). unfold key_of in Hb. cbn in Hb. rewrite <- (A4 eq_refl) in Hb. apply A3 in Hb. lia.
Qed.

(** Items as the tables have them, each once. *)
Definition listed d (items : list (row FeedItem)) : Prop := Forall (fun p => feed_items d !! p.1 = Some p.2) items /\ NoDup items.*1.

Lemma evaluate_run o w r rule rule0 doc items byID ds cs w' : ready w -> listed (tbl w) items ->
  rules (tbl w) !! r = Some rule0 -> R_DefinitionJSON rule0 = R_DefinitionJSON rule -> doc_of json_Unmarshal (R_DefinitionJSON rule) = Some doc ->
  Evaluate ParseFloat Parse_RFC3339 (dbState (R := R * list (string * string))) url_Parse doc (r, rule) items byID o w = (inr (ds, cs), w') ->
  w_eng w' = w_eng w /\ fresh json_Unmarshal w' r cs.
Proof.
  intros Hrd [Hrows Hn] Hr Hjson Hdoc. unfold Evaluate. destruct (newRuleEval _ _ doc (r, rule)) as [e|] eqn:He; [|done]. intros Hrun.
  pose proof (loop_read url_Parse e doc byID items [] [] o w) as Heng. rewrite Hrun in Heng. cbn in Heng. unfold undisturbed in Heng. split; [done|].
  apply loop_ok in Hrun as (new & -> & Hacc & Hsub). cbn [app].
  assert (Htw : rss_tables w = tbl w) by (unfold rss_tables, seen_tables; by rewrite (rd_idle _ _ Hrd)). rewrite Htw in Hacc.
  assert (Ht' : tbl w' = tbl w) by (unfold tbl; by rewrite Heng). assert (Hl' : log_of w' = log_of w) by (unfold log_of; by rewrite Heng).
  assert (Hd : rule_doc json_Unmarshal (tbl w) r = Some doc) by (unfold rule_doc; rewrite Hr; cbn; by rewrite Hjson).
  assert (Hone : forall c, c ∈ new -> fits (tbl w) r c /\ ~ held (tbl w) (log_of w) (key_of r c)).
  { intros c Hc. eapply list.Forall_forall in Hacc as [Hin Ha]; [|exact Hc]. eapply accepted_fits; [done|done|by eapply prepared_facts| |done].
    by eapply list.Forall_forall in Hrows. }
  split.
  - apply list.Forall_forall. intros c Hc. rewrite Ht'. by apply Hone.
  - replace (key_of r <$> new) with (pair r <$> ((C_Item <$> new).*1)) by by rewrite <- !list_fmap_compose.
    apply NoDup_fmap_2; [apply _|]. eapply sublist_NoDup; [exact Hn|]. by apply fmap_sublist.
  - intros c Hc. rewrite Ht', Hl'. by apply Hone.
Qed.

(** What a run hands over are items of the table. *)
Definition stored_items d (ks : list (string * string)) : Prop := forall k, k ∈ ks -> is_Some (feed_items d !! k.2).
Definition steps w w' : Prop := exists ks, advances w w' ks /\ stored_items (tbl w) ks.
Lemma steps_refl w : ready w -> steps w w.
Proof. intros Hr. exists []. split; [by apply advances_refl|by intros k Hk%not_elem_of_nil]. Qed.
Lemma steps_trans w1 w2 w3 : steps w1 w2 -> steps w2 w3 -> steps w1 w3.
Proof.
  intros (ks1 & A1 & S1) (ks2 & A2 & S2). exists (ks1 ++ ks2). split; [by eapply advances_trans|]. intros k [Hk|Hk]%elem_of_app; [by apply S1|].
  rewrite <- (gr_items _ _ (ad_grows _ _ _ _ A1)). by apply S2.
Qed.
Lemma steps_read w w' : ready w -> w_eng w' = w_eng w -> steps w w'.
Proof.
  intros [Q1 Q2 Q3] He. exists []. split; [|by intros k Hk%not_elem_of_nil]. unfold log_of, tbl in *. split; unfold log_of, tbl in *; rewrite ?He.
  - split; unfold log_of, tbl; by rewrite He.
  - reflexivity.
  - by left.
Qed.
Lemma steps_ready w w' : steps w w' -> ready w'.
Proof. by intros (ks & [? ? ?] & _). Qed.
Lemma steps_grows w w' : steps w w' -> grows (tbl w) (tbl w').
Proof. by intros (ks & [? ? ?] & _). Qed.

Lemma undisturbed_eng {A} (m : M A) o w r w' : always undisturbed m -> m o w = (r, w') -> w_eng w' = w_eng w.
Proof. intros Hm Hr. specialize (Hm o w). by rewrite Hr in Hm. Qed.
Lemma evaluate_read doc rule items byID :
  always undisturbed (Evaluate ParseFloat Parse_RFC3339 (dbState (R := R * list (string * string))) url_Parse doc rule items byID).
Proof. unfold Evaluate. destruct (newRuleEval _ _ doc rule); [apply loop_read|apply always_fail; apply _]. Qed.

(** A rule's evaluation and its commit. *)
Definition same_document d (rule : row Rule) : Prop := exists rule0, rules d !! rule.1 = Some rule0 /\ R_DefinitionJSON rule0 = R_DefinitionJSON rule.2.
Lemma same_document_grows d d' rule : grows d d' -> same_document d rule -> same_document d' rule.
Proof.
  intros Hg (rule0 & Hr & Hj). pose proof (gr_docs _ _ Hg) as Hd. apply (f_equal (lookup rule.1)) in Hd. rewrite !lookup_fmap, Hr in Hd.
  destruct (rules d' !! rule.1) as [rule1|] eqn:Hr1; [|done]. exists rule1. split; [done|]. cbn in Hd. congruence.
Qed.
Lemma listed_grows d d' items : grows d d' -> listed d items -> listed d' items.
Proof. intros Hg. unfold listed. by rewrite (gr_items _ _ Hg). Qed.

Lemma judged_run doc o w rule items byID limit now : io_ok o -> ready w -> listed (tbl w) items -> same_document (tbl w) rule ->
  doc_of json_Unmarshal (R_DefinitionJSON rule.2) = Some doc ->
  steps w ((r ← Evaluate ParseFloat Parse_RFC3339 dbState url_Parse doc rule items byID; report ← Commit doc rule.1 r.2 now; mret (limit report r.1 : CommitReport)) o w).2.
Proof.
  intros Ho Hrd Hl (rule0 & Hr & Hj) Hd. rewrite bind_run. pose proof (evaluate_read doc rule items byID) as Hread.
  destruct (Evaluate _ _ _ _ doc rule items byID o w) as [[e|[ds cs]] w1] eqn:He.
  { apply steps_read; [done|]. by eapply undisturbed_eng. }
  destruct rule as [r rule]. destruct (evaluate_run o w r rule rule0 doc items byID ds cs w1 Hrd Hl Hr Hj Hd He) as [Heng Hfresh].
  eapply steps_trans; [by apply steps_read|]. rewrite bind_run. cbn [fst snd].
  assert (Hrd1 : ready w1) by (eapply steps_ready, steps_read; done).
  pose proof (commit_run created_is_row Parse_RFC3339 json_Unmarshal doc o w1 r cs now Ho Hrd1 Hfresh) as Hc.
  assert (Hks : stored_items (tbl w1) (key_of r <$> cs)).
  { intros k (c & -> & Hin)%list_elem_of_fmap. pose proof (fr_fits _ _ _ _ Hfresh) as Hall. eapply list.Forall_forall in Hall as [Hi _]; [|exact Hin].
    cbn [key_of fst snd]. eauto. }
  destruct (Commit doc r cs now o w1) as [[e|report] w2]; by exists (key_of r <$> cs).
Qed.

Lemma run_stored_run o w rule items byID now : io_ok o -> ready w -> listed (tbl w) items -> same_document (tbl w) rule ->
  steps w (run_stored ParseFloat Parse_RFC3339 url_Parse json_Unmarshal rule items byID now o w).2.
Proof.
  intros Ho Hrd Hl Hs. unfold run_stored, storedRuleDoc. rewrite bind_run.
  destruct (json_Unmarshal (R_DefinitionJSON rule.2)) as [doc|] eqn:Hd; cbn -[Commit Evaluate]; [|by apply steps_refl].
  assert (Hdoc : doc_of json_Unmarshal (R_DefinitionJSON rule.2) = Some (ApplyDefaults doc)) by (unfold doc_of; by rewrite Hd).
  pose proof (judged_run (ApplyDefaults doc) o w rule items byID (fun r _ => r) now Ho Hrd Hl Hs Hdoc) as Hj.
  rewrite bind_run in Hj. rewrite bind_run. destruct (Evaluate _ _ _ _ _ rule items byID o w) as [[e|r] w1]; [done|].
  rewrite bind_run in Hj. cbv beta in Hj |- *. rewrite bind_run. destruct (Commit (ApplyDefaults doc) rule.1 r.2 now o w1) as [[e|report] w2]; exact Hj.
Qed.

Lemma run_rules_run o items byID now l : io_ok o -> forall w errs, ready w -> listed (tbl w) items -> Forall (same_document (tbl w)) l ->
  steps w (run_rules ParseFloat Parse_RFC3339 url_Parse json_Unmarshal l items byID now errs o w).2.
Proof.
  intros Ho. induction l as [|rule l IH]; intros w errs Hrd Hl Hs; cbn [run_rules]; [by apply steps_refl|].
  apply list.Forall_cons in Hs as [Hs Hss]. rewrite bind_run. unfold attempt.
  pose proof (run_stored_run o w rule items byID now Ho Hrd Hl Hs) as Hrun. destruct (run_stored _ _ _ _ rule items byID now o w) as [res w1]. cbn [snd] in Hrun.
  eapply steps_trans; [exact Hrun|]. pose proof (steps_ready _ _ Hrun) as Hrd1. pose proof (steps_grows _ _ Hrun) as Hg.
  assert (Hnext : forall errs, steps w1 (run_rules ParseFloat Parse_RFC3339 url_Parse json_Unmarshal l items byID now errs o w1).2).
  { intros errs'. apply IH; [done|by eapply listed_grows|]. eapply list.Forall_impl; [exact Hss|]. intros x. by apply same_document_grows. }
  destruct res as [e|x]; [destruct e; try apply Hnext; by apply steps_refl|apply Hnext].
Qed.

(** ** The two entries *)

Lemma rows_listed d feedID n : listed d (take n (rows_of feedID d)).
Proof.
  split.
  - apply list.Forall_forall. intros p Hp. apply (rows_of_elem feedID d p). apply elem_of_take in Hp as (i & Hi & _). by eapply list_elem_of_lookup_2.
  - eapply sublist_NoDup; [apply rows_of_ids|]. apply fmap_sublist, sublist_take.
Qed.

(** The reads before the evaluation. *)
Lemma tables_tbl w : ready w -> rss_tables w = tbl w.
Proof. intros Hr. unfold rss_tables, seen_tables. by rewrite (rd_idle _ _ Hr). Qed.
Lemma ListFeedItems_read f : always undisturbed (ListFeedItems (R := R * list (string * string)) feedItemFilterHash f).
Proof.
  unfold ListFeedItems. cbv zeta. destruct (_ || _); [apply always_fail; apply _|]. apply always_bind; [apply _| |].
  - destruct (Cursor_ f); [apply always_ret; apply _| |apply always_fail; apply _]. case_bool_decide; [apply always_ret; apply _|apply always_fail; apply _].
  - intros from. apply always_bind; [apply _|apply read_query|]. intros total. apply always_bind; [apply _|apply read_query|]. intros items.
    case_match; apply always_ret; apply _.
Qed.
Lemma newest_loop_read feedID limit fuel : forall items tok,
  always undisturbed (newest_loop (R := R * list (string * string)) feedItemFilterHash fuel feedID limit items tok).
Proof.
  induction fuel as [|fuel IH]; intros items tok; cbn [newest_loop]; [apply always_ret; apply _|]. case_match; [|apply always_ret; apply _].
  apply always_bind; [apply _|apply ListFeedItems_read|]. intros r. cbv zeta. destruct r.1.2; [apply always_ret; apply _|apply IH|apply IH].
Qed.
Lemma newest_read feedID limit : always undisturbed (newestFeedItems (R := R * list (string * string)) feedItemFilterHash feedID limit).
Proof. apply always_bind; [apply _|apply always_gets; apply _|]. intros fuel. apply newest_loop_read. Qed.

Lemma listed_rules d : Forall (same_document d) (queryListRules true d).
Proof.
  apply list.Forall_forall. intros [r rule] Hr. unfold queryListRules in Hr. rewrite (sort_by_Permutation rule_order) in Hr.
  apply elem_of_filter_bool in Hr as [_ Hr]. apply elem_of_map_to_list in Hr. by exists rule.
Qed.

Lemma RunAllRules_run o w feedID now : io_ok o -> ready w ->
  steps w (RunAllRules feedItemFilterHash ParseFloat Parse_RFC3339 url_Parse json_Unmarshal feedID now o w).2.
Proof.
  intros Ho Hrd. unfold RunAllRules, FeedByID, found_row, ListRules. rewrite !bind_run, query_io by done.
  destruct (queryFeedByID feedID (rss_tables w)) as [feed|]; cbn; [|by apply steps_read].
  rewrite bind_run, query_io by done. cbn [fst snd]. set (w2 := bump (bump w)). rewrite bind_run.
  assert (Hrd2 : ready w2) by (eapply steps_ready, steps_read; done).
  assert (Hw2 : w_eng w2 = w_eng w) by done. clearbody w2.
  destruct (newestFeedItems feedItemFilterHash feedID MaxInt o w2) as [res w3] eqn:Hn.
  pose proof (undisturbed_eng _ _ _ _ _ (newest_read feedID MaxInt) Hn) as He.
  eapply steps_trans; [apply (steps_read w w3); [done|congruence]|].
  assert (Hrd3 : ready w3) by (eapply steps_ready, (steps_read w); [done|congruence]).
  destruct res as [e|items]; [by apply steps_refl|]. apply newest_ok in Hn as [_ ->]; [|unfold MaxInt; lia].
  assert (Ht : rss_tables w2 = tbl w3) by (rewrite (tables_tbl w2) by done; unfold tbl; by rewrite He).
  apply run_rules_run; [done|done|rewrite Ht; apply rows_listed|].
  change (Forall (same_document (tbl w3)) (queryListRules true (rss_tables (bump w)))). unfold rss_tables. cbn [w_eng bump].
  rewrite <- Hw2. fold (rss_tables w2). rewrite Ht. apply listed_rules.
Qed.

(** The items of the feeds of one rule. *)
Definition from_feeds (ids : list string) (items : list (row FeedItem)) : Prop := Forall (fun p => I_FeedID p.2 ∈ ids) items.
Lemma rows_from d feedID n : from_feeds [feedID] (take n (rows_of feedID d)).
Proof.
  apply list.Forall_forall. intros p Hp. apply elem_of_take in Hp as (i & Hi & _). apply list_elem_of_lookup_2 in Hi.
  apply rows_of_elem in Hi as [_ ->]. by left.
Qed.
Lemma listed_app d ids feedID items batch : listed d items -> from_feeds ids items -> feedID ∉ ids -> listed d batch -> from_feeds [feedID] batch ->
  listed d (items ++ batch).
Proof.
  intros [L1 L2] F1 Hne [B1 B2] F2. split; [by apply Forall_app|]. rewrite fmap_app. apply list.NoDup_app. split_and!; [done| |done].
  intros id (p & -> & Hp)%list_elem_of_fmap (q & Hid & Hq)%list_elem_of_fmap. apply Hne.
  eapply list.Forall_forall in F1; [|exact Hp]. eapply list.Forall_forall in F2; [|exact Hq]. apply list_elem_of_singleton in F2. rewrite <- F2.
  eapply list.Forall_forall in L1; [|exact Hp]. eapply list.Forall_forall in B1; [|exact Hq]. simpl in *. rewrite Hid, B1 in L1. injection L1 as ->. exact F1.
Qed.

Lemma gather_run o limit l : 0 <= limit -> forall w byID items seen r w', ready w -> listed (tbl w) items -> from_feeds seen items -> NoDup (seen ++ l.*1) ->
  gather feedItemFilterHash limit l byID items o w = (r, w') ->
  w_eng w' = w_eng w /\ match r with inr g => listed (tbl w) g.2 | inl _ => True end.
Proof.
  intros Hlim. induction l as [|[id f] l IH]; intros w byID items seen r w' Hrd Hl Hf Hn; cbn [gather]; [by intros [= <- <-]|].
  intros Hr. apply bind_any in Hr as [(e & He & ->)|(batch & w1 & Hb & Hr)].
  { split; [|done]. by apply (undisturbed_eng _ _ _ _ _ (newest_read id limit) He). }
  apply newest_ok in Hb as [He ->]; [|done]. rewrite tables_tbl in Hr by done.
  assert (Hrd1 : ready w1) by (eapply steps_ready, steps_read; done). assert (Ht : tbl w1 = tbl w) by (unfold tbl; by rewrite He).
  apply list.NoDup_app in Hn as (N1 & N2 & N3). cbn in N3. apply list.NoDup_cons in N3 as [N3 N4].
  apply (IH w1 _ _ (seen ++ [id])) in Hr.
  - rewrite Ht in Hr. destruct Hr as [Hr1 Hr2]. split; [congruence|done].
  - done.
  - rewrite Ht. eapply listed_app; [done|done| |apply rows_listed|apply rows_from]. intros Hin. apply (N2 id); [done|by left].
  - unfold from_feeds in *. apply Forall_app. split.
    + eapply list.Forall_impl; [exact Hf|]. intros p Hp. apply elem_of_app. by left.
    + eapply list.Forall_impl; [apply rows_from|]. intros p Hp. apply elem_of_app. by right.
  - rewrite <- app_assoc. cbn. apply list.NoDup_app. split_and!; [done| |by apply list.NoDup_cons].
    intros x Hx [-> |Hin]%list.elem_of_cons; [apply (N2 id); [done|by left]|apply (N2 x); [done|by right]].
Qed.

Lemma feeds_once d : NoDup (querySelectFeeds d).*1.*1.
Proof.
  set (l := sort_by (less (then_by by_title (by_text fst))) (map_to_list (feeds d))).
  assert (Hl : (querySelectFeeds d).*1 = l) by (unfold querySelectFeeds; rewrite <- list_fmap_compose; apply list_fmap_id). rewrite Hl. unfold l.
  rewrite (sort_by_Permutation (then_by by_title (by_text fst))). apply NoDup_fst_map_to_list.
Qed.
Lemma filter_once {A} (f : row A -> bool) (l : list (row A)) : NoDup l.*1 -> NoDup (List.filter f l).*1.
Proof.
  intros Hn. induction l as [|p l IH]; [done|]. rewrite fmap_cons in Hn. apply list.NoDup_cons in Hn as [Hp Hn]. cbn [List.filter].
  destruct (f p); [|by apply IH]. rewrite fmap_cons. apply list.NoDup_cons. split; [|by apply IH]. intros Hin. apply Hp.
  apply list_elem_of_fmap in Hin as (q & -> & [_ Hq]%elem_of_filter_bool). by apply list_elem_of_fmap_2.
Qed.

Lemma RunRule_run o w ruleID limit now : io_ok o -> ready w ->
  steps w (RunRule feedItemFilterHash ParseFloat Parse_RFC3339 url_Parse json_Unmarshal ruleID limit now o w).2.
Proof.
  intros Ho Hrd. unfold RunRule, RuleByID, found_row. rewrite !bind_run, query_io by done. rewrite (tables_tbl w) by done.
  destruct (rules (tbl w) !! ruleID) as [rule|] eqn:Hr; cbn -[Commit Evaluate gather dryRunFeeds storedRuleDoc]; [|by apply steps_read].
  unfold storedRuleDoc. destruct (json_Unmarshal (R_DefinitionJSON rule)) as [doc|] eqn:Hd; cbn -[Commit Evaluate gather dryRunFeeds]; [|by apply steps_read].
  unfold dryRunFeeds, ListFeeds. rewrite bind_run. cbn [mret M_ret]. rewrite !bind_run, query_io by done. rewrite (bool_decide_true ([] = [])) by done. cbn [negb].
  set (w2 := bump (bump w)). assert (Hrd2 : ready w2) by (eapply steps_ready, steps_read; done). assert (Ht2 : tbl w2 = tbl w) by done.
  set (l := (querySelectFeeds _).*1). assert (Hn : NoDup l.*1) by apply feeds_once.
  eapply (steps_trans _ w2); [by apply steps_read|]. clearbody l w2.
  assert (Hgo : forall fs : list (row Feed), NoDup fs.*1 -> steps w2 ((g ← gather feedItemFilterHash (if limit <=? 0 then MaxInt else limit) fs ∅ [];
    r ← Evaluate ParseFloat Parse_RFC3339 dbState url_Parse (ApplyDefaults doc) (ruleID, rule) (sort_by (less newest_first) g.2) g.1;
    report ← Commit (ApplyDefaults doc) ruleID r.2 now;
    mret (MkReport (Z.of_nat (length r.1)) (RMatched report) (CreatedTaskIDs report) (Fallbacks report)) : M CommitReport) o w2).2).
  { intros fs Hfs. rewrite bind_run. destruct (gather _ _ fs ∅ [] o w2) as [res w3] eqn:Hg.
    assert (Hlim : 0 <= (if limit <=? 0 then MaxInt else limit)) by (destruct (Z.leb_spec limit 0); unfold MaxInt; lia).
    assert (Hnil : listed (tbl w2) []) by (split; constructor).
    destruct (gather_run o _ fs Hlim w2 ∅ [] [] res w3 Hrd2 Hnil (Forall_nil_2 _) Hfs Hg) as [He Hls].
    assert (Hrd3 : ready w3) by (eapply steps_ready, (steps_read w2); done). assert (Ht3 : tbl w3 = tbl w2) by (unfold tbl; by rewrite He).
    eapply steps_trans; [by apply (steps_read w2 w3)|]. destruct res as [e|g]; [by apply steps_refl|].
    apply (judged_run (ApplyDefaults doc) o w3 (ruleID, rule) _ _ (fun report ds => MkReport (Z.of_nat (length ds)) (RMatched report) (CreatedTaskIDs report) (Fallbacks report)) now);
      [done|done| |exists rule; rewrite Ht3, Ht2; done|unfold doc_of; cbn; by rewrite Hd].
    rewrite Ht3. destruct Hls as [L1 L2]. split; [by rewrite (sort_by_Permutation newest_first)|by rewrite (sort_by_Permutation newest_first)]. }
  destruct (negb (bool_decide (D_Feeds (ApplyDefaults doc) = []))); apply Hgo; by apply filter_once.
Qed.
End Passes.
