(* ===== verification/RssScenario.v ===== *)
(** * Feeds and rules over time

    A history of passes and of arriving items: no item is handed over twice
    for a rule; and the allowance of a run, which it keeps whatever the driver
    does. *)

From Stdlib Require Import SpecFloat.
From stdpp Require Import fin_maps.
From stdpp Require Import fin_maps pretty.
From S2P Require Import Prelude GoStrings TaskState Schema Lease World Frame Engine SafePath SafeJoin Manifest Archive Regex Uri RssDoc RssStore RssMatch RssGrab RssResolve RssEvalProps RssGrabProps RssPasses.

Open Scope Z_scope.

#[local] Arguments put_tables : simpl never.
#[local] Arguments with_tables : simpl never.
#[local] Arguments seen_tables : simpl never.

(** A pass: the one after a poll, or the operator's run of one rule. *)
Inductive pass := Automatic (feedID : string) | Manual (ruleID : string) (limit : Z).

Section History.
Context {R : Type} `{!TaskCreator R}.
Context `{!FoldTable} `{!Regexp} `{!UnicodeTables} (ParseFloat : list Z -> option spec_float) (Parse_RFC3339 : string -> option Z)
  (url_Parse : list Z -> option url) (json_Unmarshal : string -> option RuleDoc)
  {Hash : Type} `{!EqDecision Hash} (feedItemFilterHash : list string -> bool -> Hash).
Abbreviation state := (rss (R * list (string * string))).
Abbreviation M := (M state).
Abbreviation world := (world state).
Abbreviation ready := (ready json_Unmarshal).
Implicit Types (w : world) (d : rssdb).

Definition run_pass (p : pass) (now : Z) : M unit :=
  match p with
  | Automatic feedID => _ ← RunAllRules feedItemFilterHash ParseFloat Parse_RFC3339 url_Parse json_Unmarshal feedID now; mret tt
  | Manual ruleID limit => _ ← RunRule feedItemFilterHash ParseFloat Parse_RFC3339 url_Parse json_Unmarshal ruleID limit now; mret tt
  end.

(** What a poll stores beside new entries: known ones under the title they
    have.  No entry carries an empty hash. *)
Definition untouched (i : FeedItem) d : Prop :=
  I_InfoHash i <> Some EmptyString /\ forall known x, entry_row (I_FeedID i) (I_Identity i) d = Some (known, x) -> I_Title x = I_Title i.

(** The worlds a fresh automation reaches, over a driver that answers. *)
Inductive history : world -> Prop :=
  | begins w : rss_working (w_eng w) = None -> log_of w = [] -> rule_matches (tbl w) = ∅ -> plain_rules json_Unmarshal (tbl w) -> history w
  | passes o w p now : history w -> io_ok o -> history (run_pass p now o w).2
  | arrives o w id i firstSeen now : history w -> io_ok o -> untouched i (tbl w) ->
      history (exec_rss (queryUpsertFeedItem id i firstSeen now) o w).2.

(** ** The invariant *)

Section Invariant.
Hypothesis created_is_row : forall g x id y, CreateForRule g x = (inr id, y) -> task_row y id = true.

(** Every pair that was handed over is of a stored item. *)
Definition remembered w : Prop := forall k, held (tbl w) (log_of w) k -> is_Some (feed_items (tbl w) !! k.2).

Lemma steps_remembered w w' : steps json_Unmarshal w w' -> remembered w -> remembered w'.
Proof.
  intros (ks & [_ Hg Hh] & Hs) Hw k Hk. rewrite (gr_items _ _ Hg). destruct (Hh k Hk) as [Hold|Hin]; [by apply Hw|by apply Hs].
Qed.

Lemma run_pass_steps o w p now : io_ok o -> ready w -> steps json_Unmarshal w (run_pass p now o w).2.
Proof.
  intros Ho Hr. unfold run_pass. destruct p as [feedID|ruleID limit]; rewrite bind_run.
  - pose proof (RunAllRules_run created_is_row ParseFloat Parse_RFC3339 url_Parse json_Unmarshal feedItemFilterHash o w feedID now Ho Hr) as Hs.
    by destruct (RunAllRules _ _ _ _ _ feedID now o w) as [[e|x] w'].
  - pose proof (RunRule_run created_is_row ParseFloat Parse_RFC3339 url_Parse json_Unmarshal feedItemFilterHash o w ruleID limit now Ho Hr) as Hs.
    by destruct (RunRule _ _ _ _ _ ruleID limit now o w) as [[e|x] w'].
Qed.

(** A new item lifts no block. *)
Lemma arrival_ready w w' id i : ready w -> remembered w -> I_InfoHash i <> Some EmptyString -> feed_items (tbl w) !! id = None ->
  w_eng w' = MkRss (set_items (<[id := i]> (feed_items (tbl w))) (tbl w)) None (outside (w_eng w)) -> ready w' /\ remembered w'.
Proof.
  intros [Q1 [P1 P2] [S1 S2]] Hk Hh Hid He.
  assert (Ht : tbl w' = set_items (<[id := i]> (feed_items (tbl w))) (tbl w)) by (unfold tbl at 1; by rewrite He).
  assert (Hl : log_of w' = log_of w) by (unfold log_of; by rewrite He).
  assert (Hheld : forall k, held (tbl w') (log_of w') k -> held (tbl w) (log_of w) k) by (intros k; rewrite Ht, Hl; done).
  split; [split|].
  - by rewrite He.
  - rewrite Ht. split; [done|]. intros id' i'. cbn [feed_items set_items]. intros [[<- <-]|[_ Hi]]%lookup_insert_Some; [done|by eapply P2].
  - split; [|by rewrite Hl]. intros k Hheld'%Hheld doc x Hd. rewrite Ht in Hd |- *. cbn [feed_items set_items].
    assert (Hne : k.2 <> id) by (intros Heq; destruct (Hk k Hheld') as [y Hy]; congruence).
    rewrite lookup_insert_ne by congruence. by apply S1.
  - intros k Hheld'%Hheld. rewrite Ht. cbn [feed_items set_items]. destruct (decide (k.2 = id)) as [->|Hne]; [rewrite lookup_insert_eq; by eexists|].
    rewrite lookup_insert_ne by congruence. by apply Hk.
Qed.

Lemma arrival_run o w id i firstSeen now : io_ok o -> ready w -> remembered w -> untouched i (tbl w) ->
  ready (exec_rss (queryUpsertFeedItem id i firstSeen now) o w).2 /\ remembered (exec_rss (queryUpsertFeedItem id i firstSeen now) o w).2.
Proof.
  intros Ho Hr Hk [Hh Hu]. rewrite exec_io, (tables_tbl json_Unmarshal w) by done. unfold queryUpsertFeedItem.
  assert (Hsame : forall w', w_eng w' = w_eng w -> ready w' /\ remembered w').
  { intros w' He. pose proof (steps_read _ w w' Hr He) as Hs. split; [by eapply steps_ready|by eapply steps_remembered]. }
  destruct (entry_row _ _ (tbl w)) as [[known x]|].
  - rewrite bool_decide_true by by eapply Hu. cbn. apply Hsame. cbn. rewrite eng_put, <- (tables_tbl _ w Hr). apply with_seen.
  - destruct (_ || _) eqn:Hb; cbn; [by apply Hsame|]. apply orb_false_iff in Hb as [Hb%bool_decide_eq_false _].
    apply (arrival_ready w _ id (new_item i firstSeen now)); [done|done|done|by apply eq_None_not_Some|].
    cbn. rewrite eng_put. by apply working_with, Hr.
Qed.

Lemma history_settled w : history w -> ready w /\ remembered w.
Proof.
  induction 1 as [w Hi Hl Hm Hp|o w p now Hw [IH1 IH2] Ho|o w id i firstSeen now Hw [IH1 IH2] Ho Hu].
  - assert (Hh : forall k, ~ held (tbl w) (log_of w) k).
    { intros k [Hin|(id & m & Hin & _)]; [rewrite Hl in Hin; by apply not_elem_of_nil in Hin|by rewrite Hm in Hin]. }
    split; [split; [done|done|split]|].
    + intros k Hk. by apply Hh in Hk.
    + rewrite Hl. constructor.
    + intros k Hk. by apply Hh in Hk.
  - pose proof (run_pass_steps o w p now Ho IH1) as Hs. split; [by eapply steps_ready|by eapply steps_remembered].
  - by apply arrival_run.
Qed.
End Invariant.

(** ** The allowance of a run *)

Definition more_log (n : Z) w w' : Prop := Z.of_nat (length (log_of w')) <= Z.of_nat (length (log_of w)) + n.
Definition same_log w w' : Prop := log_of w' = log_of w.
#[local] Instance same_log_pre : PreOrder same_log.
Proof. split; [done|]. intros u v w Huv Hvw. unfold same_log in *. congruence. Qed.

Lemma put_log t w : log_of (put_tables t w) = log_of w.
Proof. unfold log_of. by rewrite eng_put, outside_with. Qed.
Lemma exec_log q : always same_log (exec_rss q).
Proof.
  intros o w. unfold exec_rss, same_log. repeat case_match; cbn; try done; rewrite <- (put_log r w); done.
Qed.
Lemma query_log {A} (q : rssdb -> A) : always same_log (query_rss q).
Proof. intros o w. unfold query_rss. by destruct (o_io o (w_n w)). Qed.
Lemma tx_log {A} (body : M A) : always same_log body -> always same_log (with_rss_tx body).
Proof.
  intros Hb o w. unfold with_rss_tx. rewrite bind_run. unfold begin_rss. destruct (o_io o (w_n w)); [|done..].
  unfold rss_rolled_back. specialize (Hb o (bump (set_eng (MkRss (rss_committed (w_eng w)) (Some (rss_committed (w_eng w))) (outside (w_eng w))) w))).
  destruct (body o _) as [r w']. exact Hb.
Qed.
Lemma commit_log : always same_log commit_rss.
Proof. intros o w. unfold commit_rss. by destruct (o_io o (w_n w)). Qed.
Lemma id_log prefix : always same_log (NewID prefix).
Proof. by intros o w. Qed.
Lemma found_log {A} (q : rssdb -> option A) : always same_log (found_row q).
Proof. apply always_bind; [apply _|apply query_log|]. intros [x|]; [apply always_ret|apply always_fail]; apply _. Qed.
Lemma upsert_log r s c now : always same_log (upsertMatch r s c now).
Proof.
  apply always_bind; [apply _|apply exec_log|]. intros rows. case_match; [apply found_log|]. apply always_bind; [apply _|apply id_log|]. intros id.
  apply always_bind; [apply _|apply exec_log|]. intros. apply always_ret. apply _.
Qed.
Lemma stage_log r now keys : always same_log (stage_keys r now keys).
Proof.
  induction keys as [|key keys IH]; cbn [stage_keys]; [apply always_ret; apply _|]. apply always_bind; [apply _|apply exec_log|]. intros. apply IH.
Qed.
Lemma send_log id r c t now : always same_log (sendMatch id r c t now).
Proof.
  apply tx_log. apply always_bind; [apply _|apply always_gets; apply _|]. intros known. apply always_bind; [apply _|apply exec_log|]. intros.
  apply always_bind; [apply _|apply stage_log|]. intros. apply commit_log.
Qed.
Lemma queue_log r c now : always same_log (queueMatch r c now).
Proof.
  apply tx_log. apply always_bind; [apply _|apply upsert_log|]. intros. apply always_bind; [apply _|apply commit_log|]. intros.
  apply always_ret. apply _.
Qed.
Lemma fail_log id reason now : always same_log (failMatch id reason now).
Proof. apply always_bind; [apply _|apply exec_log|]. intros. apply always_ret. apply _. Qed.
Lemma fallbacks_log r now l : always same_log (write_fallbacks r now l).
Proof.
  induction l as [|c l IH]; cbn [write_fallbacks]; [apply always_ret; apply _|]. apply always_bind; [apply _|apply upsert_log|]. intros. apply IH.
Qed.

(** A grab logs one pair when it makes a task and none otherwise. *)
Lemma grab_log doc r now c o w : match (grab doc r now c o w).1 with
  | inr None => same_log w (grab doc r now c o w).2
  | _ => more_log 1 w (grab doc r now c o w).2 end.
Proof.
  unfold grab. rewrite bind_run. pose proof (queue_log r c now o w) as Hq. destruct (queueMatch r c now o w) as [[e|id] w1]; cbn in Hq.
  { unfold more_log. cbn. rewrite Hq. lia. }
  rewrite bind_run. unfold attempt. rewrite create_run. destruct (CreateForRule _ _) as [[e|taskID] y]; cbn beta iota zeta.
  - rewrite bind_run. cbn. set (w2 := set_eng _ w1). assert (Hl2 : log_of w2 = log_of w) by exact Hq.
    rewrite bind_run. pose proof (fail_log id (o_text o e) now o w2) as Hf. destruct (failMatch id _ now o w2) as [[e'|[]] w3]; cbn in Hf |- *.
    + unfold more_log. rewrite Hf, Hl2. lia.
    + unfold same_log in *. congruence.
  - set (w2 := set_eng _ w1). assert (Hl2 : log_of w2 = log_of w ++ [(G_RuleID (grab_request doc r c), G_FeedItemID (grab_request doc r c))]).
    { unfold same_log in Hq. by rewrite <- Hq. }
    rewrite bind_run. pose proof (send_log id r c taskID now o w2) as Hs. destruct (sendMatch _ _ _ _ _ o w2) as [[e|[]] w3]; cbn in Hs |- *;
      unfold more_log; rewrite Hs, Hl2, length_app; cbn; lia.
Qed.

Lemma winners_log doc r now l o : 0 < MaxPerRun (D_Throttle doc) -> forall w created last, Z.of_nat (length created) <= MaxPerRun (D_Throttle doc) ->
  more_log (MaxPerRun (D_Throttle doc) - Z.of_nat (length created)) w (grab_winners doc r now l created last o w).2.
Proof.
  intros Hm. induction l as [|c l IH]; intros w created last Hc; cbn [grab_winners]; [unfold more_log; cbn; lia|].
  unfold run_full at 1. rewrite (proj2 (Z.ltb_lt 0 _)) by done. cbn [andb]. destruct (Z.leb_spec (MaxPerRun (D_Throttle doc)) (Z.of_nat (length created))) as [Hle|Hgt].
  { unfold more_log. cbn. lia. }
  rewrite bind_run. pose proof (grab_log doc r now c o w) as Hg. destruct (grab doc r now c o w) as [[e|[taskID|]] w1]; cbn [fst snd] in Hg.
  - unfold more_log in *. cbn. lia.
  - specialize (IH w1 (created ++ [taskID]) (Some (publishedAt c))). rewrite length_app in IH. cbn [length] in IH. unfold more_log in *. lia.
  - specialize (IH w1 created last Hc). unfold same_log, more_log in *. rewrite Hg in IH. lia.
Qed.

Lemma watermark_log r at_ : always same_log (SetRuleLastMatchAt r at_).
Proof.
  apply always_bind; [apply _|by intros o w|]. intros now. unfold affected. apply always_bind; [apply _|apply exec_log|]. intros k.
  case_match; [apply always_fail|apply always_ret]; apply _.
Qed.

Lemma commit_allowance doc r cands now o w : 0 < MaxPerRun (D_Throttle doc) -> more_log (MaxPerRun (D_Throttle doc)) w (Commit doc r cands now o w).2.
Proof.
  intros Hm. unfold Commit. destruct (Resolve cands) as [winners losers]. rewrite bind_run.
  pose proof (fallbacks_log r now losers o w) as Hf. destruct (write_fallbacks r now losers o w) as [[e|[]] w1]; cbn in Hf.
  { unfold more_log. cbn. rewrite Hf. lia. }
  rewrite bind_run. pose proof (winners_log doc r now winners o Hm w1 [] None ltac:(cbn; lia)) as Hw. unfold more_log, same_log in *. rewrite Hf in Hw. cbn [length] in Hw.
  destruct (grab_winners doc r now winners [] None o w1) as [[e|[created last]] w2]; cbn [snd fst] in Hw |- *; [lia|].
  rewrite bind_run. destruct last as [last|]; cbn [snd]; [|cbn; lia].
  pose proof (watermark_log r last o w2) as Hl. unfold same_log in Hl. destruct (SetRuleLastMatchAt r last o w2) as [[e|[]] w3]; cbn [snd] in Hl |- *; cbn; rewrite Hl; lia.
Qed.
End History.

(** * A feed and its rules at work

    Two rules over one feed with a creator that accepts everything: what is
    grabbed, the claims on the passes with the scenes they hold in, and two
    scenes that go wrong. *)

Module Lab.
#[local] Existing Instance no_folds.
#[local] Existing Instance ascii_tables.

(** A creator that accepts every grab and counts. *)
#[export] Instance counting : TaskCreator (list string) := {|
  CreateForRule g x := (inr ("tsk_" +:+ pretty (length x)), x ++ ["tsk_" +:+ pretty (length x)]);
  holds_v1 x h := false; holds_v2 x h := false; task_row x id := contains x id |}.
(** No expression compiles. *)
#[export] Instance no_regexp : Regexp := {| regexp_Compile := fun _ => None |}.
Definition no_floats (l : list Z) : option spec_float := None.
Definition no_dates (s : string) : option Z := None.
Definition http_Parse (l : list Z) : option url :=
  if HasPrefix l (bytes_of "https://") then Some (MkUrl (bytes_of "https") false (bytes_of "tracker") l l (fun _ => [])) else None.
Definition hash (ids : list string) (unread : bool) : list string * bool := (ids, unread).

Definition wildcard (name : string) (any : list string) (e : option EpisodeSpec) (max : Z) : RuleDoc :=
  MkDoc name None 0 [] (MkMatch EmptyString false [] any [] EmptyString EmptyString EmptyString) e None
    (MkAction EmptyString EmptyString [] false EmptyString EmptyString) (MkThrottleSpec 0 max).
Definition documents (json : string) : option RuleDoc :=
  if bool_decide (json = "plain"%string) then Some (wildcard "plain" ["show"]%string None 1)
  else if bool_decide (json = "smart"%string) then Some (wildcard "smart" ["show"]%string (Some (MkEpisode true EmptyString (Some false))) 0)
  else if bool_decide (json = "repack"%string) then Some (wildcard "repack" ["show"]%string (Some (MkEpisode true EmptyString None)) 0)
  else None.
Definition rule (json : string) : Rule := MkRule json true 0 json None 0 0.
Definition item (n : string) (title : string) : FeedItem :=
  MkItem "feed" None n title EmptyString None (Some ("https://tracker/" +:+ n)%string) None None (Some 1000) false 0 None 0 0.
Definition feed : Feed := MkFeed "https://tracker/rss" None true 0 500 0 None None None None None 0 0 None None 0 0.
Definition tables (rs : gmap string Rule) (items : gmap string FeedItem) : rssdb := MkRssdb {["feed" := feed]} items rs ∅ ∅.
Definition calm : oracle :=
  Oracle (fun _ => IoOk) (fun n => 1000 + Z.of_nat n) pretty (fun _ _ => StatFailed) (fun _ _ => None) (fun _ => ∅) (fun _ => EmptyString).
Definition state : Type := rss (list string * list (string * string)).
Definition world_of (d : rssdb) : world state := World (MkDb ∅ [] ∅ ∅ ∅) None 0 None false [] Lease.NewRegistry (MkRss d None ([], [])).
Definition run (p : pass) : M state unit := run_pass no_floats no_dates http_Parse documents hash p 1000.
Definition runs (ps : list pass) (w : world state) : world state := fold_left (fun w p => (run p calm w).2) ps w.

(** The rule without an episode block takes one item for each pass, the one
    with smart episodes both at once; a third pass finds nothing. *)
Definition two_rules : gmap string Rule := {["a" := rule "plain"; "b" := rule "smart"]}.
Definition two_items : gmap string FeedItem := {["1" := item "one" "Show.S01E01"; "2" := item "two" "Show.S01E02"]}.
Definition at_first : world state := world_of (tables two_rules two_items).
Example three_passes : log_of (runs [Automatic "feed"; Automatic "feed"; Manual "b" 0] at_first) =
  [("a", "2"); ("b", "2"); ("b", "1"); ("a", "1")]%string.
Proof. by vm_compute. Qed.

(** ** Two scenes that go wrong *)

(** The first release of an episode that is itself a REPACK is grabbed by the
    next pass again: its key is seen by then, its variant is not. *)
Example repack_grabbed_twice :
  log_of (runs [Automatic "feed"; Automatic "feed"] (world_of (tables {["a" := rule "repack"]} {["1" := item "one" "Show.S01E01.REPACK"]}))) =
  [("a", "1"); ("a", "1")]%string.
Proof. split; vm_compute; reflexivity. Qed.

(** An entry of spaces validates and has no token; an evaluation panics. *)
Definition spaces : RuleDoc := wildcard "spaces" [" "%string] None 0.
Definition evaluate (doc : RuleDoc) (items : list (row FeedItem)) : M unit (list Decision * list Candidate) :=
  Evaluate no_floats no_dates (StatelessState unit) http_Parse doc ("a"%string, rule "plain") items ∅.
Definition nowhere : world unit := World (MkDb ∅ [] ∅ ∅ ∅) None 0 None false [] Lease.NewRegistry tt.
Example blank_entry_panics : Validate no_floats no_dates (ApplyDefaults spaces) = [] /\
  (evaluate (ApplyDefaults spaces) [("1"%string, item "one" "Show.S01E01")] calm nowhere).1 = inl ErrPanic.
Proof. by vm_compute. Qed.

(** ** The claims in a scene *)

Lemma lab_plain rs items : rs ⊆ two_rules -> map_Forall (fun _ i => I_InfoHash i = None) items -> plain_rules documents (tables rs items).
Proof.
  intros Hrs Hi. split.
  - intros r doc. unfold rule_doc. cbn [rules tables]. destruct (rs !! r) as [x|] eqn:Hr; [|done]. eapply lookup_weaken in Hr; [|exact Hrs].
    unfold two_rules in Hr. apply lookup_insert_Some in Hr as [[<- <-]|[_ [<- <-]%lookup_singleton_Some]]; vm_compute; intros [= <-]; [by left|by right].
  - intros id i Hin. by rewrite (Hi id i Hin).
Qed.
Lemma lab_begins : history no_floats no_dates http_Parse documents hash at_first.
Proof.
  apply begins; [done..|]. apply lab_plain; [done|]. unfold two_items. intros id i [[_ <-]|[_ [_ <-]%lookup_singleton_Some]]%lookup_insert_Some; done.
Qed.
End Lab.

(** What it takes to be preferred: the score, then the rank of the feed, then
    the date. *)
Definition at_least_as_good (x c : Candidate) : Prop :=
  C_Score c < C_Score x \/ C_Score c = C_Score x /\
    (C_FeedPriority x < C_FeedPriority c \/ C_FeedPriority x = C_FeedPriority c /\ publishedAt c <= publishedAt x).
Lemma better_spec x c : better x c <> Gt <-> at_least_as_good x c.
Proof.
  unfold better, then_by, descending, by_Z, at_least_as_good.
  destruct (Z.compare_spec (C_Score c) (C_Score x)), (Z.compare_spec (C_FeedPriority x) (C_FeedPriority c)), (Z.compare_spec (publishedAt c) (publishedAt x));
    split; try done; intros Hc; try lia; destruct (ltac:(lia) : False).
Qed.

Section Claims.
Context {R : Type} `{!TaskCreator R} `{!FoldTable} `{!Regexp} `{!UnicodeTables} (ParseFloat : list Z -> option spec_float) (Parse_RFC3339 : string -> option Z)
  (url_Parse : list Z -> option url) (json_Unmarshal : string -> option RuleDoc)
  {Hash : Type} `{!EqDecision Hash} (feedItemFilterHash : list string -> bool -> Hash).

(** The tables answer what an evaluation asks them. *)
Lemma tables_answer o : io_ok o -> answering o (dbState (R := R)).
Proof.
  intros Ho. assert (Hq : forall A (q : rssdb -> A), decides o (query_rss (R := R) q) (fun _ => True))
    by (intros A q w; unfold query_rss; rewrite Ho; by eexists).
  assert (Hr : forall A (q : R -> A), decides o (query_tasks q) (fun _ => True))
    by (intros A q w; unfold query_tasks; rewrite Ho; by eexists).
  split; [intros h; cbn; unfold db_HasInfoHash|intros r k; apply Hq|intros k; apply Hq].
  apply decides_then; [apply Hq|]. intros [|]; [by apply decides_ret|]. repeat case_match; [apply Hr..|by apply decides_ret].
Qed.

(** C32: However often rules are run, automatically after a poll or by hand, and
    whatever items arrive in between, the task creator accepts no item twice
    for the same rule - over a driver that answers, for rules that do not ask
    for REPACK releases, for feeds that leave the title of an entry alone once
    it is stored ([untouched]), and for a creator whose accepted tasks have
    rows.  An item the creator refused is handed to it again by a later run. *)
Theorem nothing_is_grabbed_twice (created_is_row : forall g x id y, CreateForRule g x = (inr id, y) -> task_row y id = true)
    (w : world (rss (R * list (string * string)))) :
  history ParseFloat Parse_RFC3339 url_Parse json_Unmarshal feedItemFilterHash w -> NoDup (log_of w).
Proof. intros Hw. by apply (history_settled _ _ _ _ _ created_is_row) in Hw as [[_ _ [_ Hn]] _]. Qed.

(** A run hands over no more items than [max_per_run], whatever the driver
    answers and wherever the run stops. *)
Theorem run_keeps_its_allowance doc r cands now o (w : world (rss (R * list (string * string)))) : 0 < MaxPerRun (D_Throttle doc) ->
  Z.of_nat (length (log_of (Commit doc r cands now o w).2)) <= Z.of_nat (length (log_of w)) + MaxPerRun (D_Throttle doc).
Proof. apply commit_allowance. Qed.

(** C40: The winners and losers of a run are its candidates, each once; no two
    winners have the same content, they come best first - by score, then by the rank of the
    feed, then by date -, and no candidate is better than the winner of its
    content. *)
Theorem Resolve_picks_best cands : let '(winners, losers) := Resolve cands in
  winners ++ losers ≡ₚ cands /\ NoDup (C_ContentKey <$> winners) /\ StronglySorted at_least_as_good winners /\
  forall c, c ∈ cands -> exists x, x ∈ winners /\ C_ContentKey x = C_ContentKey c /\ at_least_as_good x c.
Proof.
  destruct (Resolve cands) as [winners losers] eqn:Hr. apply Resolve_spec in Hr as (Hp & Hn & Hs & Hb). split_and!; [done|done| |].
  - clear -Hs. induction Hs as [|x l Hl IH Hx]; constructor; [done|]. eapply list.Forall_impl; [exact Hx|]. intros y. apply better_spec.
  - intros c (x & Hx & Hk & Hxc)%Hb. exists x. by rewrite <- better_spec.
Qed.

(** Paging through a feed along its cursors collects what one query for its
    newest [limit] items would have. *)
Theorem newest_items_in_pages o (w : world (rss R)) feedID limit : 0 <= limit ->
  match newestFeedItems feedItemFilterHash feedID limit o w with
  | (inr items, w') => items = take (Z.to_nat limit) (rows_of feedID (rss_tables w)) /\ w_eng w' = w_eng w
  | (inl _, _) => True
  end.
Proof. intros Hl. destruct (newestFeedItems _ feedID limit o w) as [[e|items] w'] eqn:Hn; [done|]. by apply newest_ok in Hn as [He ->]. Qed.

(** C38: A saved document raises no error in an evaluation.  For what [Validate]
    accepts, unless an entry of [any_of] is blank or an item has no download
    address, and over a driver that answers, the pass - of a dry run without
    state, or of [RunRule] and [RunAllRules], which ask the tables for what was
    grabbed before - ends with decisions on items in their order, and its
    candidates are the matched ones with their scores.  The regexp engine is
    taken to compile with the flag [(?i)] what it compiles without. *)
Theorem validated_rule_decides o (st : State (rss R)) doc rule items byID (w : world (rss R)) :
  (forall p m, regexp_Compile p = Some m -> is_Some (regexp_Compile ("(?i)" +:+ p))) ->
  io_ok o -> st = StatelessState _ \/ st = dbState ->
  Validate ParseFloat Parse_RFC3339 doc = [] -> Forall (fun entry => ~ blank entry) (AnyOf (D_Match doc)) ->
  Forall (fun p => is_Some (I_DownloadURL p.2)) items ->
  exists x, (Evaluate ParseFloat Parse_RFC3339 st url_Parse doc rule items byID o w).1 = inr x /\ reports items x.
Proof.
  intros Hf Ho Hst Hv Hb Hu. apply (validated_decides ParseFloat Parse_RFC3339 o st); try done.
  destruct Hst as [->| ->]; [apply stateless_answers|by apply tables_answer].
Qed.
End Claims.

Section Witnesses.
#[local] Existing Instance no_folds.
#[local] Existing Instance ascii_tables.
#[local] Existing Instance Lab.counting.
#[local] Existing Instance Lab.no_regexp.
Import Lab.

(** An item arrives between two passes. *)
Lemma nothing_is_grabbed_twice_witness :
  let w := runs [Automatic "feed"] at_first in
  let w' := (exec_rss (queryUpsertFeedItem "3" (item "three" "Show.S01E03") 7 7) calm w).2 in
  log_of (run (Automatic "feed") calm w').2 = [("a", "2"); ("b", "2"); ("b", "1"); ("a", "3"); ("b", "3")]%string /\
  NoDup (log_of (run (Automatic "feed") calm w').2).
Proof.
  cbv zeta. split; [by vm_compute|].
  apply (nothing_is_grabbed_twice no_floats no_dates http_Parse documents hash).
  - intros g x id y [= <- <-]. apply contains_spec, elem_of_app. right. by left.
  - apply passes; [|by intros n]. apply arrives; [|by intros n|].
    + cbn [runs fold_left]. apply passes; [apply lab_begins|by intros n].
    + split; [done|]. intros known x. vm_compute. done.
Defined.

(** Both items are candidates; one is handed over. *)
Definition lab_candidates : list Candidate :=
  match Evaluate no_floats no_dates (dbState (R := list string * list (string * string))) http_Parse (ApplyDefaults (wildcard "plain" ["show"%string] None 1))
    ("a"%string, rule "plain") (map_to_list two_items) ∅ calm at_first with
  | (inr (_, cands), _) => cands
  | _ => []
  end.
Lemma run_keeps_its_allowance_witness : let doc := wildcard "plain" ["show"%string] None 1 in
  0 < MaxPerRun (D_Throttle doc) /\ length lab_candidates = 2%nat /\
  length (log_of (Commit doc "a" lab_candidates 1000 calm at_first).2) = 1%nat /\
  Z.of_nat (length (log_of (Commit doc "a" lab_candidates 1000 calm at_first).2)) <= 0 + 1.
Proof.
  cbv zeta. split_and!; [done|by vm_compute|by vm_compute|].
  by apply (run_keeps_its_allowance (wildcard "plain" ["show"%string] None 1) "a" lab_candidates 1000 calm at_first).
Defined.

(** Every item found twice: one of each is kept. *)
Lemma Resolve_picks_best_witness : let cands := lab_candidates ++ lab_candidates in
  length (Resolve cands).1 = 2%nat /\ length (Resolve cands).2 = 2%nat /\
  (Resolve cands).1 ++ (Resolve cands).2 ≡ₚ cands /\ NoDup (C_ContentKey <$> (Resolve cands).1).
Proof.
  intros cands. split; [by vm_compute|]. split; [by vm_compute|].
  pose proof (Resolve_picks_best cands) as H. destruct (Resolve cands) as [winners losers].
  destruct H as (Hp & Hn & _). by split.
Defined.

Lemma newest_items_in_pages_witness : 0 <= 1 /\
  match newestFeedItems hash "feed" 1 calm at_first with
  | (inr items, w') => items = take 1 (rows_of "feed" (rss_tables at_first)) /\ w_eng w' = w_eng at_first
  | (inl _, _) => True
  end.
Proof. split; [done|]. by apply (newest_items_in_pages hash calm at_first "feed" 1). Defined.

Lemma validated_rule_decides_witness : let doc := ApplyDefaults (wildcard "plain" ["show"%string] None 1) in
  Validate no_floats no_dates doc = [] /\ length lab_candidates = 2%nat /\
  exists x, (Evaluate no_floats no_dates dbState http_Parse doc ("a"%string, rule "plain") (map_to_list two_items) ∅ calm at_first).1 = inr x /\
    reports (map_to_list two_items) x.
Proof.
  cbv zeta. split; [by vm_compute|]. split; [by vm_compute|].
  apply (validated_rule_decides no_floats no_dates http_Parse calm dbState (ApplyDefaults (wildcard "plain" ["show"%string] None 1)) ("a"%string, rule "plain")
    (map_to_list two_items) ∅ at_first).
  - by intros p m.
  - by intros n.
  - by right.
  - by vm_compute.
  - apply list.Forall_singleton. by vm_compute.
  - apply (bool_decide_unpack (Forall _ _)). by vm_compute.
Defined.
End Witnesses.
